(* ===== verification/_CoqProject ===== *)
-Q . S2P
Prelude.v
Bytes.v
FixedChannel.v
PagePool.v
StreamCursor.v
WslFrame.v
WslFrameProofs.v
WslReader.v
ModelIds.v
ModelDigest.v
ModelText.v
SyndicValues.v
SyndicParts.v
SyndicKeys.v
SyndicKeyOrder.v
StopOperation.v
StopProofs.v
StopCodec.v
SyndicRecords.v
CompactionOperation.v
CompactionCodec.v
CompactionLedger.v
CompactionProvenance.v
BuildBudget.v
MappingModel.v
MappingTree.v
MappingProofs.v
MappingDenote.v
MappingEdit.v
MappingProgram.v
MappingRefine.v
PieceModel.v
PieceCodec.v
PieceTree.v
PieceDenote.v
PieceSequence.v
PieceEdit.v
PieceRemove.v
PieceSymbols.v
PieceLocate.v
PieceRoots.v
PieceAlign.v
TextSplice.v
TextChunks.v
TextRefine.v
TextRuns.v
PieceTheorems.v
MarkerModel.v
MarkerCodec.v
MarkerTree.v
MarkerBalance.v
MarkerDenote.v
MarkerEdit.v
MarkerIndex.v
MarkerOrder.v
MarkerCommit.v
MarkerTheorems.v
DraftRoots.v
DraftFrame.v
DraftStored.v
DraftAgree.v
DraftSurgery.v
DraftRuns.v
DraftTheorems.v
HealthGate.v
Cursors.v
JobModel.v
JobValidate.v
JobCodec.v
JobRuns.v
JobTheorems.v
RootModel.v
RootCodec.v
RootTheorems.v
