(* ===== verification/Prelude.v ===== *)
(** * Beryl: a verified model of the storage and transport core

    Beryl is a desktop shell for coding agents.  A GUI process ([crates/beryl], [beryl-app])
    talks to a provider process ([beryl-backend]) that may run inside WSL behind a supervisor
    ([beryl-wsl-supervisor]); conversations, drafts, turns and operations are durable records of
    the Syndic domain ([syndic-storage]) kept, with the application's own state ([beryl-state]),
    in a transactional home store ([beryl-home-store]).  [beryl-model] holds the values all of
    them exchange and [beryl-stream] the bounded channels, page pools and range streams that
    carry bytes between threads.

    ** Layout: files and the code they model

    - [Prelude.v] (this file): integers of machine width, [result], computations that may panic
      ([panicky], [settles]), step systems, shared tactics.  [Bytes.v]: bytes, big- and
      little-endian integers, UTF-8.
    - [FixedChannel.v]: [beryl-stream/src/channel.rs].  The locked state of the ring buffer, one
      definition per method, one iteration of the loop of each timed method; threads are an
      interleaving of these steps.
    - [PagePool.v]: [beryl-stream/src/page.rs], leases and their [Drop] included.
      [StreamCursor.v]: [beryl-stream/src/stream.rs].
    - [WslFrame.v], [WslFrameProofs.v]: the supervisor's frame codec
      ([beryl-wsl-supervisor/src/codec/{types,encode,decode}.rs]).  [WslReader.v]: the
      incremental readers and the control stage ([codec/reader.rs]).
    - [ModelIds.v], [ModelDigest.v], [ModelText.v]: [beryl-model/src/{ids,revision,asset,
      recovery,composer_recall,runtime,provenance}.rs].
    - [SyndicValues.v]: the lifecycle, gate and repair values of [syndic-storage/src/value];
      [SyndicParts.v]: the field codec ([codec/parts.rs], [codec/parts/{value,repair}.rs],
      [codec/parts/value/turn.rs]).
    - [StopOperation.v], [StopProofs.v]: the durable stop operation ([value/stop.rs],
      [record/stop.rs], [record/stop/*.rs]) and the successor records its mutations build
      ([mutation/stop/*.rs], [mutation/live/terminal.rs], [mutation/compaction/admission.rs]).
      [StopCodec.v]: its codec ([codec/primary/stop.rs], [codec/primary/stop/state.rs]).
    - [SyndicKeys.v], [SyndicKeyOrder.v]: the keys of the tables ([codec/keys.rs],
      [codec/keys/*.rs], [draft_piece/admission/codec.rs],
      [generated_media/codec.rs]), behind the class [ScanKey] as the code has them behind its trait.

    - [SyndicRecords.v]: the input-gate record and its codec ([record/input_gate.rs],
      [codec/primary/input_gate.rs]), the content summaries it is stored with, and the gates the
      accepted-input and history-completion mutations write.
    - [CompactionOperation.v], [CompactionLedger.v]: the durable compaction operation
      ([value/compaction.rs], [record/compaction/{mod,transitions,settlement}.rs]) and its
      histories; [CompactionCodec.v]: its codec and the receipt commitment
      ([codec/primary/compaction.rs], [codec/primary/compaction/settlement.rs]);
      [CompactionProvenance.v]: the checks that authenticate a stop against the compaction
      record ([record/compaction/stop_provenance.rs], [record/stop/provider.rs]).
    - [BuildBudget.v]: the acquisition budget of a draft build step
      ([draft_piece/mutation/advance_budget.rs]), over the record families of [codec.rs] as a
      class with laws.
    - [MappingModel.v], [MappingTree.v]: the coordinate map of a draft build
      ([draft_piece/build_mapping/{model,codec,tree,edit}.rs]), a persistent B-tree of runs in
      records named by hashes.  [MappingProofs.v]: the units a map denotes and the plain
      functions on them; [MappingDenote.v]: what a tree of records denotes; [MappingEdit.v]: the
      operations against the plain functions, with the resources they need.
    - [MappingProgram.v]: the stored state of the mapping program, its codec and its steps
      ([builder_model/mapping_program.rs], [codec/mapping.rs],
      [persistent/mapping_program.rs]).  [MappingRefine.v]: the theorems on the map and the
      program.
    - [PieceModel.v], [PieceTree.v]: the tree of the piece sequence of a draft: summaries, links,
      digests and the record codecs ([draft_piece/{model,tree,codec}.rs]), and the operations on
      it ([draft_piece/persistent.rs], [persistent/{sequence_edit,sequence_units,
      tree_balance}.rs]).  [PieceCodec.v], [PieceDenote.v]: what records and trees stand for;
      [PieceSequence.v], [PieceEdit.v], [PieceRemove.v], [PieceLocate.v], [PieceRoots.v]: each
      operation against the list of pieces, with the resources it needs; [PieceSymbols.v]: a
      sequence as bytes and markers, and edits as splices of it.
    - [TextSplice.v]: the text edits of a build
      ([persistent/mapping_program/{text_splice,text}.rs]).  [TextChunks.v], [TextRefine.v]: the
      chunks of an insertion and one quantum; [TextRuns.v]: quanta that follow one another, with
      the store between them; [PieceAlign.v]: how a map and a sequence belong together.
      [PieceTheorems.v]: the theorems on pieces and text edits.
    - [MarkerModel.v], [MarkerTree.v]: the index of marker identities and the tree of the marker
      order of a draft: records, digests, codecs ([draft_piece/{model,marker_commitment,
      codec}.rs]) and operations ([draft_piece/persistent.rs], [persistent/{marker_tree_edit,
      tree_balance}.rs]).  [MarkerCodec.v], [MarkerDenote.v]: what records and links stand for;
      [MarkerBalance.v]: what keeps such trees balanced, against the class [BalancedTree];
      [MarkerEdit.v]: loads and new nodes, and both trees as instances; [MarkerIndex.v],
      [MarkerOrder.v]: the operations against sorted occurrences and lists; [MarkerCommit.v]: what
      the commitment to an order determines; [MarkerTheorems.v]: the theorems.
    - [DraftRoots.v]: the roots of the three trees of a build and the surgery of a marker effect
      ([draft_piece/persistent.rs], [persistent/marker_program.rs],
      [persistent/marker_program/{surgery,mapping}.rs], the data of [builder_model.rs] and
      [builder_model/marker_program.rs]).  [DraftFrame.v]: the operations on pieces leave the
      marker trees alone; [DraftStored.v]: what roots stand for, loading and building them;
      [DraftAgree.v]: the three trees are of one draft; [DraftSurgery.v]: each step of the
      surgery; [DraftRuns.v]: one quantum, and quanta with the stores between them;
      [DraftTheorems.v]: the theorems, and a marker that enters a draft and leaves it.
    - [HealthGate.v]: [beryl-home-store/src/health.rs], one definition per critical section, with
      the markers of a thread, the view of [coherence.rs] and the calls a recovery makes
      ([recovery.rs]); threads are an interleaving of them.
    - [Cursors.v]: the loop over the pages of a table with which the domains of [beryl-state] are
      validated.
    - [JobModel.v]: the durable jobs of [beryl-state] ([durable_job/{value,record,mutation,
      acquisition}.rs], [mutation/{access,admission,prepared,transition}.rs],
      [mutation/admission/outcome.rs], [mutation/transition/successor.rs]): the values, the state
      machine, and the mutations of the five tables.  [JobValidate.v]: the validation of the
      domain ([durable_job/validate.rs]) and what the tables mean.  [JobCodec.v]: keys and values
      ([durable_job/codec.rs], [codec/state.rs]).  [JobRuns.v]: sequences of commits;
      [JobTheorems.v]: the theorems.
    - [RootModel.v]: the registry of runtimes and roots of [beryl-state] ([value.rs],
      [runtime_root.rs], [runtime_root/{mutation,validate}.rs]): its records in six tables, the
      five mutations, the lookups and the validation.  [RootCodec.v]: keys and values
      ([runtime_root/codec.rs], [encoding.rs]).  [RootTheorems.v]: sequences of commits and the
      theorems.

    ** What the theorems show

    - C1: the channel refines a bounded FIFO queue and ([FixedChannel.channel_fifo])
      keeps the order of messages in every interleaving.  C2: its timed send
      returns.
    - C3: the pool conserves pages; they are handed out blank and refused
      only when exhausted.  C4: pages a cursor accepts reassemble the source.
    - C5: the frame decoders accept exactly the encodings of frames.
      C6-C7: readers return the frames of a stream for any chunking and account
      for every byte. [WslReader.control_accepts_sessions]: the control stage
      accepts exactly the intended sessions.
    - [ModelIds.identity_text_exact]: identity texts round-trip, kinds are disjoint, parse errors
      are exact.  [ModelDigest.marker_digests_bind]: digests bind what they commit to, unless the
      strings hashed on the way clash.
    - C8: the records that sequences of stop mutations produce are
      exactly those the constructor accepts that pass the guards of their disposition; the
      constructor accepts more ([StopProofs.approved_reopening_accepted]).
      C9: the mutations are exact on every branch.  C10: the
      codec accepts exactly the encodings of records the constructor accepts.
    - C11: the keys of every [ScanKey] type decode exactly and scan ranges hold exactly the keys they name.
    - C12: which gates pass the accounting checks of a terminal history: those
      made by admissions, and those that only count more live bytes.
      [CompactionCodec.compaction_codec_exact]: the compaction codec is exact.  C13: the compaction mutations are exact on every branch.
      C14-C15: a first live stop is authenticated exactly when a history
      hands the record over so; a second stop of the same operation never is.
    - C16: the budget of a build step counts exactly what the step reads and emits,
      of all its record families, and answers from its cache what the store gave for that key.
      [MappingRefine.insert_map_refines], [delete_leaf_refines], [source_cut_exact]: insertion, deletion and source positions of the
      map are those of a plain sequence of units, and fail only for want of resources.
      C17-C18: the program that applies a splice over several build
      quanta ends, each quantum goes through when it has its resources and the identities of the
      ordinals it may use are free, and only its end changes the current map.
    - C19-C20: runs of text edits put in or take out exactly what they are
      to, and end.  C21: they keep the map aligned with the
      sequence.  [PieceTheorems.apply_ready_exact], [deletion_proof_agrees]: each quantum is exact
      and goes through once its splice is ready.
      C22: the links of a tree are typed and count what is below them.
    - C23-C24: the index of marker identities is a finite map
      and the tree of the marker order a list, up to resources and limits.
      [MarkerTheorems.order_commitment_binds]: the digest of an order determines its markers, unless strings clash.
      [MarkerTheorems.draft_records_exact]: the records of pieces and markers decode exactly.
    - C25-C26: the runs of quanta in which a marker leaves a draft or
      enters it end after three, and until then the roots hold the draft they held: the pieces,
      the index, which names the leaf of every marker, and the order change together.  An insertion
      is at a site whose ordinal counts the markers before its boundary.  C27: a quantum fails only for
      want of resources or of what its step needs.  [DraftTheorems.working_roots_roundtrip]:
      the roots are what is kept of the three trees.
    - C28: the gate of a home counts its admissions in every interleaving.
      C29: what confirms ran in one generation, a recovery's own
      candidate apart.
      C30: published generations increase.
    - C31: the tables of the durable jobs keep their meaning over any sequence of
      commits.  C32: the validation accepts exactly the tables that have it.
      C33-C34: the transitions are a state machine, and a job keeps its
      identity and its parent.  C35: a prepared transition is committed at
      most once, only at the domain revision it was prepared at, and its outcome is certain.  C36: the reuse guard of a thread is
      right.  C37: records fit their tables and decode to themselves;
      [JobCodec.job_codecs_exact]: the codecs are exact.
    - C38: the tables of runtimes and roots keep their meaning over any
      sequence of commits, lookups find exactly what has the key, every runtime has one home.
      C39: the validation accepts exactly the tables that have it.
      C40: records and keys fit their tables and decode to themselves.

    ** Conventions, bounds and fuel

    Unsigned integers are [Z] kept in range by explicit predicates or by the checked operations
    of the code; [usize] has 64 bits.  Byte strings and texts are [list byte]; texts are valid
    UTF-8.  Errors are values of [result]; a panic is [None].  Recursion is structural, except
    the readers and timed loops: feeding a reader spends at most one unit of fuel per input
    byte and is proved not to run out; reading a frame from a source states the fuel that is
    enough, in bytes and interruptions; the loops over child records of a map are cut off by the
    limit of 43 loads the code has, which is proved not to be reached; descents of the piece tree
    recurse on its height.  An operation on pieces states the loads and emissions it may need,
    linear in the height ([TextRefine.text_loads], [text_emitted]), and that it does not fail for
    want of resources when the budget has room for them: an empty budget does for heights up to
    nineteen.  A quantum of the surgery needs eight loads and four per level of the three trees,
    and five emissions and three per level ([DraftRuns.surgery_loads], [surgery_emitted]).  The loops of timed methods are driven by the list of instants
    their wake-ups read, and the theorem states how long that list must be.  The loops over the
    pages of a cursor spend one unit of fuel a page, and more fuel than records is enough.

    Parameters: SHA-256 ([ModelDigest.Sha256], laws of a streaming hash with 32-byte output), the
    byte source of a reader ([WslReader.ReadSource]: a read returns at most what was asked, zero
    only at the end, or an interruption), the point reads of the store ([BuildBudget],
    [MappingTree], [PieceTree], [MarkerTree]: what a read returns was decoded from an encoding), the position of a unit in
    the piece sequence ([MappingProgram]), and the point reads and cursors of the tables of
    [beryl-state] ([JobModel.JobReader], [JobValidate.JobCursors], [RootModel.RootReader],
    [RootCursors]: a read gives what the table holds or fails, a
    cursor gives the records by pages).  Each has an instance used by the witnesses.

    ** Idealisations

    The identity of a record of a draft is a truncated SHA-256 of its draft, session,
    operation, ordinal and digest.  The theorems on builds assume that distinct ordinals give distinct identities and that those of ordinals not
    yet used are free in the store ([PieceEdit.piece_stores_ok], [piece_context_ok];
    [MappingEdit.able] for the ordinals a quantum may use).  A failing operation of the budget
    returns no budget, although the shared one stays charged: its callers return the error and end
    the step.  The theorems on the health gate assume that a thread drops its admissions in scope
    order, as the lexical scopes of all call sites make it, though the gate does not enforce it.
    The observer of a channel can upgrade its weak reference exactly while one end is open.  An
    observation of a compaction leaves out the test of the attempt its caller makes.  A text edit
    leaves out the loads of the marker trees, which it does not change, and the published roots
    of a deferred prefix.

    ** Not modelled

    Input and output (files, sockets, processes, the GUI) and generated or vendored code.  Parts
    with logic of their own that are left out: the store-level stop and compaction mutations over
    the tables they read and write (the records they build are modelled, the transactions around
    them are not); the rest of the build program of a draft (the stages of [text.rs], the planning
    of a marker effect, and the publication of the finished roots); accepted-input routes, content
    and composer drafts; the sessions, catalog, assets, settings and themes of [beryl-state]; the
    writer of [beryl-home-store] and its classification of database errors; the JSON admission and
    turn streams of [beryl-backend]; the schedulers of [beryl-app]. *)

From stdpp Require Import prelude.
From Stdlib Require Import ZArith Lia.

#[global] Open Scope Z_scope.

(** ** Machine integers

    Unsigned integers of the program are [Z] values kept in range; the bounds
    are notations so that [lia] sees the literals. *)
Abbreviation U8_MAX := 255%Z.
Abbreviation U16_MAX := 65535%Z.
Abbreviation U32_MAX := 4294967295%Z.
Abbreviation U64_MAX := 18446744073709551615%Z.

Definition is_u16 (z : Z) : Prop := 0 <= z <= U16_MAX.
Definition is_u32 (z : Z) : Prop := 0 <= z <= U32_MAX.
Definition is_u64 (z : Z) : Prop := 0 <= z <= U64_MAX.

#[global] Instance is_u16_dec z : Decision (is_u16 z).
Proof. unfold is_u16. apply _. Defined.
#[global] Instance is_u32_dec z : Decision (is_u32 z).
Proof. unfold is_u32. apply _. Defined.
#[global] Instance is_u64_dec z : Decision (is_u64 z).
Proof. unfold is_u64. apply _. Defined.

(** [u64::checked_add], [u64::saturating_add] (also [usize] on a 64-bit target). *)
Definition checked_add64 (a b : Z) : option Z :=
  if a + b <=? U64_MAX then Some (a + b) else None.
Definition checked_sub64 (a b : Z) : option Z :=
  if b <=? a then Some (a - b) else None.
Definition checked_mul64 (a b : Z) : option Z :=
  if a * b <=? U64_MAX then Some (a * b) else None.
Definition saturating_add64 (a b : Z) : Z := Z.min (a + b) U64_MAX.
Definition saturating_sub64 (a b : Z) : Z := Z.max (a - b) 0.

Lemma checked_add64_Some a b c :
  checked_add64 a b = Some c <-> c = a + b /\ a + b <= U64_MAX.
Proof. unfold checked_add64. case_match eqn:E; split; intros; simplify_eq; lia || naive_solver lia. Qed.

Lemma checked_add64_None a b : checked_add64 a b = None <-> U64_MAX < a + b.
Proof. unfold checked_add64. case_match eqn:E; split; intros; simplify_eq; lia || naive_solver lia. Qed.

Lemma checked_sub64_Some a b c : checked_sub64 a b = Some c <-> c = a - b /\ b <= a.
Proof. unfold checked_sub64. case_match eqn:E; split; intros; simplify_eq; lia || naive_solver lia. Qed.

(** ** Results

    Rust's [Result<A, E>], with the stdpp monad notations
    ([x ← m; k] is the [?] operator). *)
Inductive result (E A : Type) : Type :=
  | Ok (a : A)
  | Err (e : E).
Arguments Ok {E A} a.
Arguments Err {E A} e.

#[global] Instance result_ret E : MRet (result E) := fun A a => Ok a.
#[global] Instance result_bind E : MBind (result E) := fun A B f m =>
  match m with Ok a => f a | Err e => Err e end.
#[global] Instance result_fmap E : FMap (result E) := fun A B f m =>
  match m with Ok a => Ok (f a) | Err e => Err e end.

#[global] Instance result_eq_dec {E A} `{EqDecision E, EqDecision A} : EqDecision (result E A).
Proof. solve_decision. Defined.

Definition is_ok {E A} (r : result E A) : bool := match r with Ok _ => true | Err _ => false end.
Definition is_err {E A} (r : result E A) : bool := negb (is_ok r).

(** [Option::ok_or] *)
Definition ok_or {E A} (e : E) (o : option A) : result E A :=
  match o with Some a => Ok a | None => Err e end.

(** An early [return Err(e)] guarded by a condition. *)
Definition reject_if {E} (b : bool) (e : E) : result E unit :=
  if b then Err e else Ok tt.

Lemma result_bind_Ok {E A B} (m : result E A) (f : A -> result E B) b :
  (m ≫= f) = Ok b <-> exists a, m = Ok a /\ f a = Ok b.
Proof. destruct m; cbn; naive_solver. Qed.

Lemma reject_if_Ok {E} b (e : E) : reject_if b e = Ok tt <-> b = false.
Proof. destruct b; cbn; naive_solver. Qed.

Lemma ok_or_Ok {E A} (e : E) (o : option A) a : ok_or e o = Ok a <-> o = Some a.
Proof. destruct o; cbn; naive_solver. Qed.

(** ** Computations that may panic

    [None] is a panic ([unreachable!], a failed [expect], an index out of bounds). *)
Definition panicky (E A : Type) : Type := option (result E A).
Definition panic {E A} : panicky E A := None.
Definition fail {E A} (e : E) : panicky E A := Some (Err e).
Definition run {E A} (r : result E A) : panicky E A := Some r.
Definition or_panic {E A} (o : option A) : panicky E A := Ok <$> o.

#[global] Instance panicky_ret E : MRet (panicky E) := fun A a => Some (Ok a).
#[global] Instance panicky_bind E : MBind (panicky E) := fun A B f m =>
  match m with Some (Ok a) => f a | Some (Err e) => Some (Err e) | None => None end.

Lemma panicky_bind_Ok {E A B} (m : panicky E A) (f : A -> panicky E B) b :
  (m ≫= f) = Some (Ok b) <-> exists a, m = Some (Ok a) /\ f a = Some (Ok b).
Proof. destruct m as [[a|e]|]; cbn; naive_solver. Qed.

Lemma panicky_bind_None {E A B} (m : panicky E A) (f : A -> panicky E B) :
  (m ≫= f) = None <-> m = None \/ exists a, m = Some (Ok a) /\ f a = None.
Proof. destruct m as [[a|e]|]; cbn; naive_solver. Qed.

(** A check that returns [a] when [P] holds, an error when it does not, and never panics. *)
Definition settles {E A} (m : panicky E A) (P : Prop) (a : A) : Prop :=
  (P /\ m = Some (Ok a)) \/ (~ P /\ exists e, m = Some (Err e)).

Lemma settles_bind {E A B} (m : panicky E A) (k : A -> panicky E B) P Q a b :
  settles m P a -> (P -> settles (k a) Q b) -> settles (m ≫= k) (P /\ Q) b.
Proof.
  intros [[HP ->]|[HP [e ->]]] Hk.
  - destruct (Hk HP) as [[HQ Hb]|[HQ He]]; [left|right]; cbn; naive_solver.
  - right. split; [naive_solver|]. by exists e.
Qed.

Lemma settles_ret {E A} (a : A) : settles (mret a : panicky E A) True a.
Proof. by left. Qed.

Lemma settles_fail {E A} (e : E) (a : A) : settles (fail e) False a.
Proof. right. split; [tauto|]. by exists e. Qed.

Lemma settles_test {E A} (b : bool) (m n : panicky E A) P Q a :
  (b = true -> settles m P a) -> (b = false -> settles n Q a) ->
  settles (if b then m else n) (if b then P else Q) a.
Proof. destruct b; auto. Qed.

Lemma settles_iff {E A} (m : panicky E A) P Q a : (P <-> Q) -> settles m P a -> settles m Q a.
Proof. intros H [[? ?]|[? ?]]; [left|right]; split; naive_solver. Qed.

#[global] Instance settles_proper {E A} :
  Proper (eq ==> iff ==> eq ==> iff) (@settles E A).
Proof. intros m _ <- P Q HPQ a _ <-. split; apply settles_iff; tauto. Qed.

Lemma settles_Ok {E A} (m : panicky E A) P a : settles m P a -> m = Some (Ok a) <-> P.
Proof. intros [[? ->]|[? [e ->]]]; split; congruence || tauto. Qed.

Lemma settles_total {E A} (m : panicky E A) P a : settles m P a -> m <> None.
Proof. intros [[? ->]|[? [e ->]]]; done. Qed.

Lemma settles_val {E A} (m : panicky E A) P a b : settles m P a -> m = Some (Ok b) -> b = a.
Proof. intros [[? ->]|[? [e ->]]]; congruence. Qed.

(** ** Tactics and hint databases *)

(** Split every test ([if], [match]) of the goal, keeping the equations. *)
Ltac split_tests :=
  repeat (case_match; simplify_eq/=; try done).

(** Turn boolean hypotheses about integers into propositions. *)
Ltac bool_facts :=
  repeat match goal with
  | H : (_ && _) = true |- _ => apply andb_true_iff in H as [? ?]
  | H : (_ || _) = false |- _ => apply orb_false_iff in H as [? ?]
  | H : negb _ = true |- _ => apply negb_true_iff in H
  | H : negb _ = false |- _ => apply negb_false_iff in H
  | H : (_ =? _)%Z = true |- _ => apply Z.eqb_eq in H
  | H : (_ =? _)%Z = false |- _ => apply Z.eqb_neq in H
  | H : (_ <=? _)%Z = true |- _ => apply Z.leb_le in H
  | H : (_ <=? _)%Z = false |- _ => apply Z.leb_gt in H
  | H : (_ <? _)%Z = true |- _ => apply Z.ltb_lt in H
  | H : (_ <? _)%Z = false |- _ => apply Z.ltb_ge in H
  | H : bool_decide _ = true |- _ => apply bool_decide_eq_true in H
  | H : bool_decide _ = false |- _ => apply bool_decide_eq_false in H
  end.

(** Destruct a chain of successful monadic steps in hypothesis [H]. *)
Ltac invert_ok H :=
  repeat (apply result_bind_Ok in H as (? & ? & H); simplify_eq/=).

(** ** Lists *)

(** [slice.get(a..b)] *)
Definition slice_get {A} (l : list A) (a b : Z) : option (list A) :=
  if (0 <=? a) && (a <=? b) && (b <=? Z.of_nat (length l))
  then Some (take (Z.to_nat (b - a)) (drop (Z.to_nat a) l)) else None.

(** Length as a Rust [usize]/[u64]. *)
Abbreviation zlen l := (Z.of_nat (length l)).

Lemma slice_get_length {A} (l : list A) a b s :
  slice_get l a b = Some s -> zlen s = b - a.
Proof.
  unfold slice_get. case_match eqn:E; intros [= <-]. bool_facts.
  rewrite length_take, length_drop. lia.
Qed.

Lemma slice_get_Some {A} (l : list A) a b :
  0 <= a <= b -> b <= zlen l ->
  slice_get l a b = Some (take (Z.to_nat (b - a)) (drop (Z.to_nat a) l)).
Proof.
  intros ??. unfold slice_get. case_match eqn:E; [done|].
  rewrite !andb_false_iff, !Z.leb_gt in E. lia.
Qed.

(** ** Step systems: reachability by finite sequences of steps *)
Section Reachability.
Context {S L : Type} (step : S -> L -> S -> Prop).

Inductive steps : S -> list L -> S -> Prop :=
  | steps_refl s : steps s [] s
  | steps_snoc s1 tr s2 l s3 : steps s1 tr s2 -> step s2 l s3 -> steps s1 (tr ++ [l]) s3.

(** An invariant of the initial state preserved by each step holds at the
    end of every execution. *)
Lemma steps_invariant (I : S -> Prop) s tr s' :
  (forall a l b, I a -> step a l b -> I b) -> I s -> steps s tr s' -> I s'.
Proof. intros Hstep Hs Htr. induction Htr; eauto. Qed.

(** The same, with an invariant that also speaks of the trace. *)
Lemma steps_trace_invariant (I : list L -> S -> Prop) s tr s' :
  (forall tr a l b, I tr a -> step a l b -> I (tr ++ [l]) b) ->
  I [] s -> steps s tr s' -> I tr s'.
Proof. intros Hstep Hs Htr. induction Htr; eauto. Qed.

Lemma steps_trans s1 tr s2 tr' s3 : steps s1 tr s2 -> steps s2 tr' s3 -> steps s1 (tr ++ tr') s3.
Proof.
  intros H1 H2. induction H2 as [|s2 tr' s l s' H2 IH Hl]; [by rewrite app_nil_r|].
  rewrite app_assoc. econstructor; eauto.
Qed.

Lemma steps_first s1 l tr s3 : steps s1 (l :: tr) s3 -> exists s2, step s1 l s2 /\ steps s2 tr s3.
Proof.
  remember (l :: tr) as t eqn:E. intros H. revert tr E.
  induction H as [|s1 t s2 m s3 H IH Hm]; intros tr E; [done|].
  destruct tr as [|k tr _] using rev_ind.
  - assert (t = []) as -> by (by destruct t as [|? []]).
    simplify_eq/=. inversion H as [|? t' ? ? ? _ _ Et]; subst; [eauto using steps|]. by destruct t'.
  - rewrite app_comm_cons in E. apply app_inj_2 in E as [-> [= ->]]; [|done].
    destruct (IH tr eq_refl) as (s & Hs & Htr). exists s. eauto using steps.
Qed.

Lemma steps_last s1 tr s3 : steps s1 tr s3 ->
  (tr = [] /\ s3 = s1) \/ exists tr' l s2, tr = tr' ++ [l] /\ steps s1 tr' s2 /\ step s2 l s3.
Proof. intros [|]; [by left|right; eauto 10]. Qed.
End Reachability.
