(* ===== verification/Bytes.v ===== *)
(** * Bytes, fixed-width integer encodings and UTF-8

    The parts of Rust's [u8], [to_le_bytes]/[to_be_bytes] and
    [str::from_utf8] that the codecs of the repository use.  A [u8] is the
    256-constructor type [byte], so byte strings need no range side condition. *)

From stdpp Require Import prelude strings.
From Stdlib Require Import ZArith Lia.
From Stdlib Require Export Strings.Byte.
From S2P Require Import Prelude.

(** ** Bytes *)

Definition byte_val (b : byte) : Z := Z.of_N (Byte.to_N b).
Definition byte_of (z : Z) : byte :=
  match Byte.of_N (Z.to_N (z mod 256)) with Some b => b | None => x00 end.

#[global] Instance byte_eq_decision : EqDecision byte.
Proof. intros a b. destruct (Byte.eqb a b) eqn:E; [left|right].
  - by apply Byte.byte_dec_bl.
  - intros ->. by rewrite (Byte.byte_dec_lb eq_refl) in E.
Defined.

Lemma byte_val_range b : 0 <= byte_val b < 256.
Proof. unfold byte_val. pose proof (Byte.to_N_bounded b). lia. Qed.

Lemma byte_val_of z : byte_val (byte_of z) = z mod 256.
Proof.
  unfold byte_val, byte_of.
  pose proof (Z.mod_pos_bound z 256 eq_refl).
  destruct (Byte.of_N (Z.to_N (z mod 256))) as [b|] eqn:E.
  - apply Byte.to_of_N in E. rewrite E. lia.
  - apply Byte.of_N_None_iff in E. lia.
Qed.

Lemma byte_val_inj a b : byte_val a = byte_val b -> a = b.
Proof.
  unfold byte_val. intros H%N2Z.inj.
  apply (f_equal Byte.of_N) in H. rewrite !Byte.of_to_N in H. congruence.
Qed.

Lemma byte_of_val b : byte_of (byte_val b) = b.
Proof. apply byte_val_inj. rewrite byte_val_of. apply Z.mod_small, byte_val_range. Qed.

Lemma byte_of_inj a b : 0 <= a < 256 -> 0 <= b < 256 -> byte_of a = byte_of b -> a = b.
Proof.
  intros Ha Hb E. apply (f_equal byte_val) in E.
  rewrite !byte_val_of, !Z.mod_small in E; done.
Qed.

Lemma byte_val_of_small z : 0 <= z < 256 -> byte_val (byte_of z) = z.
Proof. intros. by rewrite byte_val_of, Z.mod_small. Qed.

(** ** Fixed-width integers *)

(** [to_le_bytes] for an integer of [n] bytes, and [from_le_bytes]. *)
Fixpoint le_bytes (n : nat) (z : Z) : list byte :=
  match n with
  | O => []
  | S n => byte_of z :: le_bytes n (z / 256)
  end.

Fixpoint le_value (l : list byte) : Z :=
  match l with
  | [] => 0
  | b :: l => byte_val b + 256 * le_value l
  end.

(** [to_be_bytes] and [from_be_bytes]: the little-endian bytes reversed. *)
Definition be_bytes (n : nat) (z : Z) : list byte := rev (le_bytes n z).
Definition be_value (l : list byte) : Z := le_value (rev l).

Lemma length_le_bytes n z : length (le_bytes n z) = n.
Proof. revert z; induction n; cbn; auto. Qed.

Lemma length_be_bytes n z : length (be_bytes n z) = n.
Proof. unfold be_bytes. by rewrite length_rev, length_le_bytes. Qed.

Lemma pow256_succ n : 256 ^ Z.of_nat (S n) = 256 * 256 ^ Z.of_nat n.
Proof. rewrite Nat2Z.inj_succ, Z.pow_succ_r; lia. Qed.

Lemma le_value_bytes n z : 0 <= z < 256 ^ Z.of_nat n -> le_value (le_bytes n z) = z.
Proof.
  revert z; induction n as [|n IH]; intros z Hz; cbn [le_bytes le_value].
  - change (256 ^ Z.of_nat 0) with 1 in Hz. lia.
  - rewrite pow256_succ in Hz. rewrite byte_val_of, IH.
    + pose proof (Z.div_mod z 256). lia.
    + split; [apply Z.div_pos; lia | apply Z.div_lt_upper_bound; lia].
Qed.

Lemma le_value_range l : 0 <= le_value l < 256 ^ zlen l.
Proof.
  induction l as [|b l IH]; cbn [le_value length]; [cbn; lia|].
  rewrite pow256_succ. pose proof (byte_val_range b). lia.
Qed.

Lemma le_bytes_value l : le_bytes (length l) (le_value l) = l.
Proof.
  induction l as [|b l IH]; cbn [le_value length le_bytes]; [done|].
  pose proof (byte_val_range b). f_equal.
  - rewrite <- (byte_of_val b) at 2. apply byte_val_inj. rewrite !byte_val_of.
    rewrite (Z.mul_comm 256), Z.mod_add; lia.
  - rewrite Z.mul_comm, Z.div_add by lia. by rewrite Z.div_small, Z.add_0_l by lia.
Qed.

Lemma be_value_bytes n z : 0 <= z < 256 ^ Z.of_nat n -> be_value (be_bytes n z) = z.
Proof. intros. unfold be_value, be_bytes. rewrite rev_involutive. by apply le_value_bytes. Qed.

Lemma be_value_range l : 0 <= be_value l < 256 ^ zlen l.
Proof. unfold be_value. rewrite <- (length_rev l). apply le_value_range. Qed.

Lemma be_bytes_value l : be_bytes (length l) (be_value l) = l.
Proof.
  unfold be_value, be_bytes. rewrite <- (length_rev l), le_bytes_value.
  apply rev_involutive.
Qed.

(** The instances at the widths of the program. *)
Lemma le_u16 z : is_u16 z -> le_value (le_bytes 2 z) = z.
Proof. intros []. apply le_value_bytes. change (256 ^ Z.of_nat 2) with 65536. lia. Qed.
Lemma le_u32 z : is_u32 z -> le_value (le_bytes 4 z) = z.
Proof. intros []. apply le_value_bytes. change (256 ^ Z.of_nat 4) with 4294967296. lia. Qed.
Lemma le_u64 z : is_u64 z -> le_value (le_bytes 8 z) = z.
Proof. intros []. apply le_value_bytes. change (256 ^ Z.of_nat 8) with 18446744073709551616. lia. Qed.
Lemma be_u64 z : is_u64 z -> be_value (be_bytes 8 z) = z.
Proof. intros []. apply be_value_bytes. change (256 ^ Z.of_nat 8) with 18446744073709551616. lia. Qed.
Lemma be_u32 z : is_u32 z -> be_value (be_bytes 4 z) = z.
Proof. intros []. apply be_value_bytes. change (256 ^ Z.of_nat 4) with 4294967296. lia. Qed.
Lemma be_u16 z : is_u16 z -> be_value (be_bytes 2 z) = z.
Proof. intros []. apply be_value_bytes. change (256 ^ Z.of_nat 2) with 65536. lia. Qed.

Lemma le_value_u32 l : length l = 4%nat -> is_u32 (le_value l).
Proof. intros E. pose proof (le_value_range l) as H. rewrite E in H. change (256 ^ Z.of_nat 4) with 4294967296 in H. unfold is_u32. lia. Qed.
Lemma le_value_u64 l : length l = 8%nat -> is_u64 (le_value l).
Proof. intros E. pose proof (le_value_range l) as H. rewrite E in H. change (256 ^ Z.of_nat 8) with 18446744073709551616 in H. unfold is_u64. lia. Qed.
Lemma le_value_u16 l : length l = 2%nat -> is_u16 (le_value l).
Proof. intros E. pose proof (le_value_range l) as H. rewrite E in H. change (256 ^ Z.of_nat 2) with 65536 in H. unfold is_u16. lia. Qed.
Lemma be_value_u64 l : length l = 8%nat -> is_u64 (be_value l).
Proof. intros E. pose proof (be_value_range l) as H. rewrite E in H. change (256 ^ Z.of_nat 8) with 18446744073709551616 in H. unfold is_u64. lia. Qed.
Lemma be_value_u32 l : length l = 4%nat -> is_u32 (be_value l).
Proof. intros E. pose proof (be_value_range l) as H. rewrite E in H. change (256 ^ Z.of_nat 4) with 4294967296 in H. unfold is_u32. lia. Qed.

Lemma le_bytes_value_n n l : length l = n -> le_bytes n (le_value l) = l.
Proof. intros <-. apply le_bytes_value. Qed.
Lemma be_bytes_value_n n l : length l = n -> be_bytes n (be_value l) = l.
Proof. intros <-. apply be_bytes_value. Qed.

#[global] Arguments le_bytes : simpl never.
#[global] Arguments be_bytes : simpl never.
#[global] Arguments byte_of : simpl never.

(** ** UTF-8

    [str::from_utf8] accepts exactly the well-formed byte sequences of the
    Unicode standard (table 3-7): the width follows from the first byte, and
    the second byte excludes overlong forms, surrogates and values above
    U+10FFFF. *)

Definition in_range (lo hi : Z) (b : byte) : bool := (lo <=? byte_val b) && (byte_val b <=? hi).
Definition is_continuation (b : byte) : bool := in_range 128 191 b.

(** The ranges of the second byte allowed after first byte [b], with the
    number of plain continuation bytes that follow it. *)
Definition utf8_lead (b : byte) : option (Z * Z * nat) :=
  let v := byte_val b in
  if (194 <=? v) && (v <=? 223) then Some (128, 191, 0%nat)
  else if v =? 224 then Some (160, 191, 1%nat)
  else if ((225 <=? v) && (v <=? 236)) || (v =? 238) || (v =? 239) then Some (128, 191, 1%nat)
  else if v =? 237 then Some (128, 159, 1%nat)
  else if v =? 240 then Some (144, 191, 2%nat)
  else if (241 <=? v) && (v <=? 243) then Some (128, 191, 2%nat)
  else if v =? 244 then Some (128, 143, 2%nat)
  else None.

(** State of the validator: the range the next byte must be in and how many
    continuation bytes follow it, or none at a character boundary. *)
Fixpoint utf8_run (pending : option (Z * Z * nat)) (l : list byte) : bool :=
  match l, pending with
  | [], None => true
  | [], Some _ => false
  | b :: l, None => if byte_val b <? 128 then utf8_run None l
                    else match utf8_lead b with
                         | Some p => utf8_run (Some p) l
                         | None => false
                         end
  | b :: l, Some (lo, hi, k) =>
      if in_range lo hi b
      then utf8_run (match k with O => None | S k => Some (128, 191, k) end) l
      else false
  end.

Definition utf8_valid (l : list byte) : bool := utf8_run None l.

(** A character boundary splits a valid string into valid strings. *)
Lemma utf8_run_app p l1 l2 :
  utf8_run p l1 = true -> utf8_run p (l1 ++ l2) = utf8_run None l2.
Proof.
  revert p. induction l1 as [|b l1 IH]; intros p; cbn.
  - by destruct p.
  - destruct p as [[[lo hi] k]|].
    + case_match; [apply IH | done].
    + case_match; [apply IH|]. case_match; [apply IH | done].
Qed.

Lemma utf8_valid_app l1 l2 :
  utf8_valid l1 = true -> utf8_valid (l1 ++ l2) = utf8_valid l2.
Proof. apply utf8_run_app. Qed.

(** Byte strings written as Rocq strings (ASCII literals of the source). *)
Definition bytes_of_string (s : string) : list byte := String.list_byte_of_string s.
