(* ===== verification/FixedChannel.v ===== *)
(** * The fixed-capacity channel of beryl-stream (crates/beryl-stream/src/channel.rs)

    The state behind the channel's mutex is [ChannelState]; every method body
    between taking and releasing the lock is one function on that state.  A
    slot index out of range and the [expect] on an empty slot are Rust panics:
    the functions return [None] there.  The blocking methods are split at
    [Condvar::wait_timeout], where other threads run: one loop iteration is
    [send_iteration] or [receive_iteration], and the system of threads is the
    step relation [chan_step]. *)

From stdpp Require Import prelude gmap.
From Stdlib Require Import ZArith Lia.
From S2P Require Import Prelude.

(** ** Data *)

Record ChannelState (T : Type) := mkChannelState {
  slots : list (option T);
  head : nat;
  tail : nat;
  len : nat;
  sender_open : bool;
  receiver_open : bool;
  sends : Z;
  receives : Z;
  send_waits : Z;
  receive_waits : Z;
  send_timeouts : Z;
  receive_timeouts : Z;
  full : Z;
  high_water : nat;
}.
Arguments mkChannelState {T}.
Arguments slots {T}. Arguments head {T}. Arguments tail {T}. Arguments len {T}.
Arguments sender_open {T}. Arguments receiver_open {T}. Arguments sends {T}.
Arguments receives {T}. Arguments send_waits {T}. Arguments receive_waits {T}.
Arguments send_timeouts {T}. Arguments receive_timeouts {T}. Arguments full {T}.
Arguments high_water {T}.

Inductive SendError (T : Type) :=
  | Full (m : T)
  | Timeout (m : T)
  | Closed (m : T).
Arguments Full {T}. Arguments Timeout {T}. Arguments Closed {T}.

Inductive ReceiveError := Empty | ReceiveClosed.

Inductive ChannelBuildError := SizeOverflow | AllocationFailed.

Record ChannelDiagnostics := mkChannelDiagnostics {
  d_capacity : nat;
  d_len : nat;
  d_sender_open : bool;
  d_receiver_open : bool;
  d_sends : Z;
  d_receives : Z;
  d_send_waits : Z;
  d_receive_waits : Z;
  d_send_timeouts : Z;
  d_receive_timeouts : Z;
  d_full : Z;
  d_high_water : nat;
}.

Section Operations.
Context {T : Type}.
Implicit Types (s : ChannelState T) (m : T) (cap : nat).

(** Field updates. *)
Definition set_full v s := mkChannelState (slots s) (head s) (tail s) (len s)
  (sender_open s) (receiver_open s) (sends s) (receives s) (send_waits s)
  (receive_waits s) (send_timeouts s) (receive_timeouts s) v (high_water s).
Definition set_send_waits v s := mkChannelState (slots s) (head s) (tail s) (len s)
  (sender_open s) (receiver_open s) (sends s) (receives s) v
  (receive_waits s) (send_timeouts s) (receive_timeouts s) (full s) (high_water s).
Definition set_receive_waits v s := mkChannelState (slots s) (head s) (tail s) (len s)
  (sender_open s) (receiver_open s) (sends s) (receives s) (send_waits s)
  v (send_timeouts s) (receive_timeouts s) (full s) (high_water s).
Definition set_send_timeouts v s := mkChannelState (slots s) (head s) (tail s) (len s)
  (sender_open s) (receiver_open s) (sends s) (receives s) (send_waits s)
  (receive_waits s) v (receive_timeouts s) (full s) (high_water s).
Definition set_receive_timeouts v s := mkChannelState (slots s) (head s) (tail s) (len s)
  (sender_open s) (receiver_open s) (sends s) (receives s) (send_waits s)
  (receive_waits s) (send_timeouts s) v (full s) (high_water s).

(** The allocator: [Layout::array] and [try_reserve_exact] can refuse. *)
Definition fixed_channel (layout_ok reserve_ok : bool) cap
  : result ChannelBuildError (ChannelState T) :=
  if negb layout_ok then Err SizeOverflow
  else if negb reserve_ok then Err AllocationFailed
  else Ok (mkChannelState (replicate cap None) 0 0 0 true true 0 0 0 0 0 0 0 0).

(** The six statements shared by the two send methods:
    [slots[tail] = Some(message)] up to [sends.saturating_add(1)]. *)
Definition push_tail cap s m : option (ChannelState T) :=
  if (tail s <? length (slots s))%nat then
    Some (mkChannelState (<[tail s := Some m]> (slots s))
      (head s) ((tail s + 1) mod cap)%nat (len s + 1)%nat
      (sender_open s) (receiver_open s) (saturating_add64 (sends s) 1) (receives s)
      (send_waits s) (receive_waits s) (send_timeouts s) (receive_timeouts s)
      (full s) (Nat.max (high_water s) (len s + 1)))
  else None.

Definition take_head cap s : option (T * ChannelState T) :=
  match slots s !! head s with
  | Some (Some m) =>
      Some (m, mkChannelState (<[head s := None]> (slots s))
        ((head s + 1) mod cap)%nat (tail s) (len s - 1)%nat
        (sender_open s) (receiver_open s) (sends s) (saturating_add64 (receives s) 1)
        (send_waits s) (receive_waits s) (send_timeouts s) (receive_timeouts s)
        (full s) (high_water s))
  | _ => None
  end.

Definition try_send cap s m : option (ChannelState T * result (SendError T) unit) :=
  if negb (receiver_open s) then Some (s, Err (Closed m))
  else if (len s =? cap)%nat then
    Some (set_full (saturating_add64 (full s) 1) s, Err (Full m))
  else s' ← push_tail cap s m; Some (s', Ok tt).

Definition try_receive cap s : option (ChannelState T * result ReceiveError T) :=
  if (len s =? 0)%nat then
    Some (s, Err (if sender_open s then Empty else ReceiveClosed))
  else '(m, s') ← take_head cap s; Some (s', Ok m).

(** What one turn of the loop of a timed method ends with: a return value,
    or a wait on the condition variable. *)
Inductive turn (R : Type) := Done (r : R) | Wait.
Arguments Done {R}. Arguments Wait {R}.

(** One iteration of the loop of [send_timeout]; [now] is the instant read
    when the iteration would block, [recorded] is [recorded_wait]. *)
Definition send_iteration cap (deadline : option Z) (recorded : bool) (now : Z) s m
  : option (ChannelState T * turn (result (SendError T) unit)) :=
  if negb (receiver_open s) then Some (s, Done (Err (Closed m)))
  else if (len s <? cap)%nat then
    s' ← push_tail cap s m; Some (s', Done (Ok tt))
  else
    match deadline with
    | None => Some (set_send_timeouts (saturating_add64 (send_timeouts s) 1) s,
                    Done (Err (Timeout m)))
    | Some d =>
        if d <=? now then
          Some (set_send_timeouts (saturating_add64 (send_timeouts s) 1) s,
                Done (Err (Timeout m)))
        else if recorded then Some (s, Wait)
        else Some (set_send_waits (saturating_add64 (send_waits s) 1) s, Wait)
    end.

(** One iteration of the loop of [receive_timeout]. *)
Definition receive_iteration cap (deadline : option Z) (recorded : bool) (now : Z) s
  : option (ChannelState T * turn (result ReceiveError (option T))) :=
  if (0 <? len s)%nat then
    '(m, s') ← take_head cap s; Some (s', Done (Ok (Some m)))
  else if negb (sender_open s) then Some (s, Done (Err ReceiveClosed))
  else
    match deadline with
    | None => Some (set_receive_timeouts (saturating_add64 (receive_timeouts s) 1) s,
                    Done (Ok None))
    | Some d =>
        if d <=? now then
          Some (set_receive_timeouts (saturating_add64 (receive_timeouts s) 1) s,
                Done (Ok None))
        else if recorded then Some (s, Wait)
        else Some (set_receive_waits (saturating_add64 (receive_waits s) 1) s, Wait)
    end.

(** [Instant::checked_add] on a clock whose last instant is [instant_max]. *)
Definition deadline_of (instant_max start timeout : Z) : option Z :=
  if start + timeout <=? instant_max then Some (start + timeout) else None.

(** The whole of [send_timeout]: the first iteration runs at instant [now],
    each element of [wakes] is one return from [wait_timeout], with what the
    other threads did to the state meanwhile and the instant read next.
    The result is [Some (s, None)] when the call is still waiting after the
    last wake-up. *)
Fixpoint send_loop cap deadline recorded now s m
    (wakes : list ((ChannelState T -> ChannelState T) * Z))
  : option (ChannelState T * option (result (SendError T) unit)) :=
  match send_iteration cap deadline recorded now s m with
  | None => None
  | Some (s', Done r) => Some (s', Some r)
  | Some (s', Wait) =>
      match wakes with
      | [] => Some (s', None)
      | (others, now') :: wakes => send_loop cap deadline true now' (others s') m wakes
      end
  end.

Definition send_timeout cap instant_max start timeout now s m wakes :=
  send_loop cap (deadline_of instant_max start timeout) false now s m wakes.

Fixpoint receive_loop cap deadline recorded now s
    (wakes : list ((ChannelState T -> ChannelState T) * Z))
  : option (ChannelState T * option (result ReceiveError (option T))) :=
  match receive_iteration cap deadline recorded now s with
  | None => None
  | Some (s', Done r) => Some (s', Some r)
  | Some (s', Wait) =>
      match wakes with
      | [] => Some (s', None)
      | (others, now') :: wakes => receive_loop cap deadline true now' (others s') wakes
      end
  end.

Definition receive_timeout cap instant_max start timeout now s wakes :=
  receive_loop cap (deadline_of instant_max start timeout) false now s wakes.

(** [Drop] of the two ends. *)
Definition drop_sender s := mkChannelState (slots s) (head s) (tail s) (len s)
  false (receiver_open s) (sends s) (receives s) (send_waits s)
  (receive_waits s) (send_timeouts s) (receive_timeouts s) (full s) (high_water s).
Definition drop_receiver s := mkChannelState (slots s) (head s) (tail s) (len s)
  (sender_open s) false (sends s) (receives s) (send_waits s)
  (receive_waits s) (send_timeouts s) (receive_timeouts s) (full s) (high_water s).

Definition diagnostics cap s : ChannelDiagnostics := mkChannelDiagnostics cap
  (len s) (sender_open s) (receiver_open s) (sends s) (receives s) (send_waits s)
  (receive_waits s) (send_timeouts s) (receive_timeouts s) (full s) (high_water s).

(** [FixedChannelObserver::diagnostics]: a weak reference, so nothing once
    both ends have released the ring. *)
Definition observer_diagnostics cap s : option ChannelDiagnostics :=
  if sender_open s || receiver_open s then Some (diagnostics cap s) else None.
End Operations.
Arguments turn R : clear implicits.
Arguments Done {R}. Arguments Wait {R}.

(** ** Abstract specification: a bounded FIFO queue with two ends *)
Module Fifo.
Record queue (T : Type) := mkQueue { items : list T; tx_open : bool; rx_open : bool }.
Arguments mkQueue {T}. Arguments items {T}. Arguments tx_open {T}. Arguments rx_open {T}.

Section Spec.
Context {T : Type} (cap : nat).
Implicit Types (q : queue T) (m : T).

Definition spec_new : queue T := mkQueue [] true true.
Definition spec_push q m := mkQueue (items q ++ [m]) (tx_open q) (rx_open q).

Definition spec_try_send q m : queue T * result (SendError T) unit :=
  if negb (rx_open q) then (q, Err (Closed m))
  else if (length (items q) <? cap)%nat then (spec_push q m, Ok tt) else (q, Err (Full m)).

Definition spec_try_receive q : queue T * result ReceiveError T :=
  match items q with
  | [] => (q, Err (if tx_open q then Empty else ReceiveClosed))
  | m :: rest => (mkQueue rest (tx_open q) (rx_open q), Ok m)
  end.

(** A timed call that would block either times out or waits. *)
Definition spec_send_turn (expired : bool) q m : queue T * turn (result (SendError T) unit) :=
  if negb (rx_open q) then (q, Done (Err (Closed m)))
  else if (length (items q) <? cap)%nat then (spec_push q m, Done (Ok tt))
  else (q, if expired then Done (Err (Timeout m)) else Wait).

Definition spec_receive_turn (expired : bool) q : queue T * turn (result ReceiveError (option T)) :=
  match items q with
  | m :: rest => (mkQueue rest (tx_open q) (rx_open q), Done (Ok (Some m)))
  | [] => (q, if negb (tx_open q) then Done (Err ReceiveClosed)
              else if expired then Done (Ok None) else Wait)
  end.
End Spec.
End Fifo.
Import Fifo.

(** A deadline that is unrepresentable or in the past. *)
Definition expired (deadline : option Z) (now : Z) : bool :=
  match deadline with None => true | Some d => d <=? now end.

(** ** Ring arithmetic *)
Lemma ring_index (cap h i : nat) :
  (h < cap)%nat -> (i <= cap)%nat ->
  ((h + i) mod cap)%nat = if decide (h + i < cap)%nat then (h + i)%nat else (h + i - cap)%nat.
Proof.
  intros Hh Hi. case_decide.
  - by apply Nat.mod_small.
  - replace (h + i)%nat with (h + i - cap + 1 * cap)%nat at 1 by lia.
    rewrite Nat.Div0.mod_add. apply Nat.mod_small. lia.
Qed.

Lemma ring_index_lt (cap h i : nat) : (0 < cap)%nat -> ((h + i) mod cap < cap)%nat.
Proof. intros. apply Nat.mod_upper_bound. lia. Qed.

Lemma ring_index_succ (cap h i : nat) :
  (((h + 1) mod cap + i) mod cap = (h + (i + 1)) mod cap)%nat.
Proof. rewrite Nat.Div0.add_mod_idemp_l. f_equal. lia. Qed.

(** A list is rebuilt from its lookups. *)
Lemma omap_seq_lookup {A} (l : list A) (f : nat -> option A) :
  (forall i, (i < length l)%nat -> f i = l !! i) -> omap f (seq 0 (length l)) = l.
Proof.
  induction l as [|x l IH] using rev_ind; intros Hlk; [done|].
  rewrite length_app in *. cbn in *. rewrite seq_app, omap_app, IH.
  - f_equal. cbn. rewrite Hlk by lia. by rewrite list_lookup_middle.
  - intros i Hi. rewrite Hlk by lia. by apply lookup_app_l.
Qed.

(** ** Representation *)
Section Refinement.
Context {T : Type}.
Implicit Types (s : ChannelState T) (q : queue T) (m : T) (cap : nat).

(** Slot [head + i] (cyclically) holds the [i]-th queued message, and every
    other slot is vacant. *)
Record repr cap s q : Prop := {
  repr_slots : length (slots s) = cap;
  repr_head : (head s < cap)%nat;
  repr_len : len s = length (items q);
  repr_bound : (length (items q) <= cap)%nat;
  repr_tail : tail s = ((head s + len s) mod cap)%nat;
  repr_ring : forall i, (i < cap)%nat ->
    slots s !! ((head s + i) mod cap)%nat = Some (items q !! i);
  repr_tx : sender_open s = tx_open q;
  repr_rx : receiver_open s = rx_open q;
}.

(** The messages a concrete state holds, oldest first. *)
Definition queued cap s : list T :=
  omap (fun i => slots s !! ((head s + i) mod cap)%nat ≫= id) (seq 0 (len s)).

Lemma queued_repr cap s q : repr cap s q -> queued cap s = items q.
Proof.
  intros []. unfold queued. rewrite repr_len0.
  apply omap_seq_lookup. intros i Hi. by rewrite repr_ring0 by lia.
Qed.

Lemma fixed_channel_repr cap :
  (0 < cap)%nat -> exists s, fixed_channel true true cap = Ok s /\ repr cap s spec_new.
Proof.
  intros Hcap. eexists; split; [done|]. constructor; cbn; try done; try lia.
  - apply length_replicate.
  - by rewrite Nat.Div0.mod_0_l.
  - intros i Hi. rewrite Nat.mod_small by done. by rewrite lookup_replicate_2.
Qed.

Lemma push_tail_repr cap s q m :
  repr cap s q -> (length (items q) < cap)%nat ->
  exists s', push_tail cap s m = Some s' /\ repr cap s' (spec_push q m).
Proof.
  intros [] Hroom. unfold push_tail.
  assert (tail s < cap)%nat by (rewrite repr_tail0; apply ring_index_lt; lia).
  case_match eqn:E; [|apply Nat.ltb_ge in E; lia]. eexists; split; [done|].
  constructor; cbn [items spec_push slots head len tail tx_open rx_open sender_open receiver_open].
  - by rewrite length_insert.
  - done.
  - rewrite length_app; cbn; lia.
  - rewrite length_app; cbn; lia.
  - rewrite repr_tail0, Nat.Div0.add_mod_idemp_l. f_equal. lia.
  - intros i Hi. rewrite repr_tail0, repr_len0.
    destruct (decide (i = length (items q))) as [->|Hne].
    + rewrite list_lookup_insert_eq by (rewrite repr_slots0; apply ring_index_lt; lia).
      by rewrite list_lookup_middle.
    + rewrite list_lookup_insert_ne, repr_ring0 by
        (try rewrite !ring_index by lia; repeat case_decide; lia).
      destruct (decide (i < length (items q))%nat).
      * by rewrite lookup_app_l.
      * rewrite !lookup_ge_None_2; [done| |lia]. rewrite length_app; cbn; lia.
  - done.
  - done.
Qed.

Lemma take_head_repr cap s m rest tx rx :
  repr cap s (mkQueue (m :: rest) tx rx) ->
  exists s', take_head cap s = Some (m, s') /\ repr cap s' (mkQueue rest tx rx).
Proof.
  intros []. cbn in *. unfold take_head.
  pose proof (repr_ring0 0%nat) as H0. rewrite Nat.add_0_r, Nat.mod_small in H0 by lia.
  rewrite H0 by lia. cbn. eexists; split; [done|].
  constructor; cbn [items slots head len tail tx_open rx_open sender_open receiver_open].
  - by rewrite length_insert.
  - apply Nat.mod_upper_bound. lia.
  - lia.
  - lia.
  - rewrite repr_tail0, ring_index_succ. f_equal. lia.
  - intros i Hi. rewrite ring_index_succ.
    destruct (decide (i + 1 = cap)%nat) as [Hlast|].
    + replace (head s + (i + 1))%nat with (head s + 1 * cap)%nat by lia.
      rewrite Nat.Div0.mod_add, Nat.mod_small by lia.
      rewrite list_lookup_insert_eq by lia. by rewrite lookup_ge_None_2 by lia.
    + rewrite list_lookup_insert_ne, repr_ring0 by
        (try rewrite ring_index by lia; repeat case_decide; lia).
      by rewrite Nat.add_1_r.
  - done.
  - done.
Qed.

(** Counters do not touch the queue. *)
Lemma repr_set_full cap s q v : repr cap s q -> repr cap (set_full v s) q.
Proof. intros []; constructor; done. Qed.
Lemma repr_set_send_timeouts cap s q v : repr cap s q -> repr cap (set_send_timeouts v s) q.
Proof. intros []; constructor; done. Qed.
Lemma repr_set_receive_timeouts cap s q v : repr cap s q -> repr cap (set_receive_timeouts v s) q.
Proof. intros []; constructor; done. Qed.
Lemma repr_set_send_waits cap s q v : repr cap s q -> repr cap (set_send_waits v s) q.
Proof. intros []; constructor; done. Qed.
Lemma repr_set_receive_waits cap s q v : repr cap s q -> repr cap (set_receive_waits v s) q.
Proof. intros []; constructor; done. Qed.
End Refinement.

Create HintDb channel.
#[export] Hint Resolve repr_set_full repr_set_send_timeouts repr_set_receive_timeouts
  repr_set_send_waits repr_set_receive_waits : channel.

(** Each operation against its specification. *)
Section OperationRefinement.
Context {T : Type}.
Implicit Types (s : ChannelState T) (q : queue T) (m : T) (cap : nat).

Lemma try_send_refines cap s q m :
  repr cap s q -> exists s', try_send cap s m = Some (s', (spec_try_send cap q m).2) /\
    repr cap s' (spec_try_send cap q m).1.
Proof.
  intros Hr. pose proof Hr as []. unfold try_send, spec_try_send.
  rewrite repr_rx0. case_match; [eauto|].
  destruct (Nat.eqb_spec (len s) cap), (Nat.ltb_spec (length (items q)) cap);
    try lia; [eauto with channel|].
  destruct (push_tail_repr cap s q m) as (s' & -> & ?); eauto.
Qed.

Lemma try_receive_refines cap s q :
  repr cap s q -> exists s', try_receive cap s = Some (s', (spec_try_receive q).2) /\
    repr cap s' (spec_try_receive q).1.
Proof.
  intros Hr. pose proof Hr as []. unfold try_receive, spec_try_receive.
  destruct q as [[|m rest] tx rx]; cbn in *.
  - rewrite repr_len0, repr_tx0. cbn. eauto.
  - destruct (Nat.eqb_spec (len s) 0); [lia|].
    destruct (take_head_repr cap s m rest tx rx) as (s' & -> & ?); cbn; eauto.
Qed.

Lemma send_iteration_refines cap s q m deadline recorded now :
  repr cap s q -> exists s',
    send_iteration cap deadline recorded now s m
      = Some (s', (spec_send_turn cap (expired deadline now) q m).2) /\
    repr cap s' (spec_send_turn cap (expired deadline now) q m).1.
Proof.
  intros Hr. pose proof Hr as []. unfold send_iteration, spec_send_turn.
  rewrite repr_rx0, repr_len0. case_match; [eauto|].
  destruct (Nat.ltb_spec (length (items q)) cap).
  - destruct (push_tail_repr cap s q m) as (s' & -> & ?); cbn; eauto.
  - destruct deadline as [d|]; cbn; [|eauto with channel].
    repeat case_match; eauto with channel.
Qed.

Lemma receive_iteration_refines cap s q deadline recorded now :
  repr cap s q -> exists s',
    receive_iteration cap deadline recorded now s
      = Some (s', (spec_receive_turn (expired deadline now) q).2) /\
    repr cap s' (spec_receive_turn (expired deadline now) q).1.
Proof.
  intros Hr. pose proof Hr as []. unfold receive_iteration, spec_receive_turn.
  destruct q as [[|m rest] tx rx]; cbn in *.
  - rewrite repr_len0, repr_tx0. cbn. case_match; [eauto|].
    destruct deadline as [d|]; cbn; [|eauto with channel].
    repeat case_match; eauto with channel.
  - rewrite repr_len0. cbn.
    destruct (take_head_repr cap s m rest tx rx) as (s' & -> & ?); cbn; eauto.
Qed.

Lemma drop_sender_repr cap s q :
  repr cap s q -> repr cap (drop_sender s) (mkQueue (items q) false (rx_open q)).
Proof. intros []; constructor; done. Qed.
Lemma drop_receiver_repr cap s q :
  repr cap s q -> repr cap (drop_receiver s) (mkQueue (items q) (tx_open q) false).
Proof. intros []; constructor; done. Qed.
End OperationRefinement.

(** ** Threads sharing a channel

    A configuration is the locked state and the timed calls that wait on the
    condition variable.  Each step is one critical section, so a sequence of
    steps is an arbitrary interleaving of any number of threads. *)
Section Threads.
Context {T : Type} (cap : nat) (instant_max : Z).

Inductive pending :=
  | PSend (m : T) (deadline : option Z)
  | PReceive (deadline : option Z).

Record config := mkConfig { chan : ChannelState T; waiting : gmap nat pending }.

Inductive event :=
  | Sent (m : T)
  | Received (m : T)
  | SendFailed (e : SendError T)
  | NothingReceived
  | Waiting
  | Dropped.

Definition send_event (m : T) (r : result (SendError T) unit) : event :=
  match r with Ok _ => Sent m | Err e => SendFailed e end.
Definition send_turn_event (m : T) (o : turn (result (SendError T) unit)) : event :=
  match o with Done r => send_event m r | Wait => Waiting end.
Definition receive_event (r : result ReceiveError T) : event :=
  match r with Ok m => Received m | Err _ => NothingReceived end.
Definition receive_turn_event (o : turn (result ReceiveError (option T))) : event :=
  match o with Done (Ok (Some m)) => Received m | Done _ => NothingReceived | Wait => Waiting end.

(** Thread [t] keeps waiting as [p], or its call has returned. *)
Definition park {R} (o : turn R) (t : nat) (p : pending) (w : gmap nat pending) :=
  match o with Wait => <[t := p]> w | Done _ => delete t w end.

Inductive chan_step : config -> event -> config -> Prop :=
  | step_try_send s w m s' r :
      try_send cap s m = Some (s', r) ->
      chan_step (mkConfig s w) (send_event m r) (mkConfig s' w)
  | step_try_receive s w s' r :
      try_receive cap s = Some (s', r) ->
      chan_step (mkConfig s w) (receive_event r) (mkConfig s' w)
  | step_send_call s w t m start timeout now s' o :
      w !! t = None ->
      send_iteration cap (deadline_of instant_max start timeout) false now s m = Some (s', o) ->
      chan_step (mkConfig s w) (send_turn_event m o)
        (mkConfig s' (park o t (PSend m (deadline_of instant_max start timeout)) w))
  | step_send_wake s w t m d now s' o :
      w !! t = Some (PSend m d) ->
      send_iteration cap d true now s m = Some (s', o) ->
      chan_step (mkConfig s w) (send_turn_event m o) (mkConfig s' (park o t (PSend m d) w))
  | step_receive_call s w t start timeout now s' o :
      w !! t = None ->
      receive_iteration cap (deadline_of instant_max start timeout) false now s = Some (s', o) ->
      chan_step (mkConfig s w) (receive_turn_event o)
        (mkConfig s' (park o t (PReceive (deadline_of instant_max start timeout)) w))
  | step_receive_wake s w t d now s' o :
      w !! t = Some (PReceive d) ->
      receive_iteration cap d true now s = Some (s', o) ->
      chan_step (mkConfig s w) (receive_turn_event o) (mkConfig s' (park o t (PReceive d) w))
  | step_drop_sender s w :
      (forall t m d, w !! t <> Some (PSend m d)) ->
      chan_step (mkConfig s w) Dropped (mkConfig (drop_sender s) w)
  | step_drop_receiver s w :
      (forall t d, w !! t <> Some (PReceive d)) ->
      chan_step (mkConfig s w) Dropped (mkConfig (drop_receiver s) w).

Definition sent_of (tr : list event) : list T :=
  omap (fun e => match e with Sent m => Some m | _ => None end) tr.
Definition received_of (tr : list event) : list T :=
  omap (fun e => match e with Received m => Some m | _ => None end) tr.
End Threads.
Arguments config T : clear implicits.
Arguments event T : clear implicits.

(** ** Executions *)
Section Executions.
Context {T : Type} (cap : nat) (instant_max : Z).
Implicit Types (c : config T) (tr : list (event T)).

(** What the channel owes to its history: what was sent is what was received
    followed by what is queued, the counters are the saturated totals and
    the high-water mark bounds the occupancy. *)
Definition history tr c : Prop := exists q,
  repr cap (chan c) q /\
  sent_of tr = received_of tr ++ items q /\
  sends (chan c) = Z.min (zlen (sent_of tr)) U64_MAX /\
  receives (chan c) = Z.min (zlen (received_of tr)) U64_MAX /\
  (len (chan c) <= high_water (chan c) <= cap)%nat.

Lemma sent_of_snoc tr e : sent_of (tr ++ [e]) = sent_of tr ++ sent_of [e].
Proof. apply omap_app. Qed.
Lemma received_of_snoc tr e : received_of (tr ++ [e]) = received_of tr ++ received_of [e].
Proof. apply omap_app. Qed.

(** Steps that leave queue and counters alone. *)
Lemma history_idle tr c e c' :
  history tr c -> sent_of [e] = [] -> received_of [e] = [] ->
  (forall q, repr cap (chan c) q -> exists q', repr cap (chan c') q' /\ items q' = items q) ->
  sends (chan c') = sends (chan c) -> receives (chan c') = receives (chan c) ->
  len (chan c') = len (chan c) -> high_water (chan c') = high_water (chan c) ->
  history (tr ++ [e]) c'.
Proof.
  intros (q & Hr & Hfifo & Hs & Hrc & Hw) He1 He2 Hq Es Erc El Ew.
  destruct (Hq q Hr) as (q' & Hr' & Ei). exists q'.
  rewrite sent_of_snoc, received_of_snoc, He1, He2, !app_nil_r, Ei, Es, Erc, El, Ew. done.
Qed.

Lemma history_sent tr s w w' m s' q :
  history tr (mkConfig s w) -> repr cap s q -> (length (items q) < cap)%nat ->
  push_tail cap s m = Some s' -> history (tr ++ [Sent m]) (mkConfig s' w').
Proof.
  intros (q0 & Hr0 & Hfifo & Hs & Hrc & Hw) Hr Hroom Hpush. cbn [chan] in *.
  assert (items q0 = items q) as Eq
    by (by rewrite <- (queued_repr _ _ _ Hr0), (queued_repr _ _ _ Hr)).
  destruct (push_tail_repr cap s q m Hr Hroom) as (s'' & Hp' & Hr').
  rewrite Hpush in Hp'. injection Hp' as <-.
  exists (spec_push q m). rewrite sent_of_snoc, received_of_snoc. cbn [chan] in *.
  unfold push_tail in Hpush. case_match; [|done]. injection Hpush as <-. cbn in *.
  rewrite app_nil_r, Hfifo, Eq, length_app. pose proof (repr_len _ _ _ Hr).
  unfold saturating_add64. rewrite Hfifo, length_app, Eq in Hs. rewrite <- app_assoc.
  split_and!; [done..| |done|lia|lia]. rewrite !length_app; cbn; lia.
Qed.

Lemma history_received tr s w w' m s' :
  history tr (mkConfig s w) -> (0 < len s)%nat ->
  take_head cap s = Some (m, s') -> history (tr ++ [Received m]) (mkConfig s' w').
Proof.
  intros ([[|m0 rest] tx rx] & Hr & Hfifo & Hs & Hrc & Hw) Hlen Htake; cbn [chan items] in *.
  { pose proof (repr_len _ _ _ Hr) as E; cbn in E. lia. }
  destruct (take_head_repr cap s m0 rest tx rx Hr) as (s'' & Ht' & Hr').
  rewrite Htake in Ht'. injection Ht' as -> <-.
  exists (mkQueue rest tx rx). rewrite sent_of_snoc, received_of_snoc. cbn [chan items sent_of received_of omap list_omap].
  unfold take_head in Htake. repeat (case_match; try done). injection Htake as -> <-. cbn in *.
  rewrite app_nil_r, <- app_assoc. unfold saturating_add64.
  split_and!; [done..|rewrite !length_app; cbn; lia|lia|lia].
Qed.

Lemma history_room tr s w :
  history tr (mkConfig s w) -> exists q, repr cap s q /\ len s = length (items q) /\
    (length (items q) <= cap)%nat.
Proof. intros (q & Hr & _). pose proof Hr as []. eauto. Qed.

Lemma history_send_turn tr s w w' m d recorded now s' o :
  history tr (mkConfig s w) -> send_iteration cap d recorded now s m = Some (s', o) ->
  history (tr ++ [send_turn_event m o]) (mkConfig s' w').
Proof.
  intros Hh Hs. destruct (history_room _ _ _ Hh) as (q & Hr & El & Hb).
  unfold send_iteration in Hs.
  repeat (case_match; simplify_eq/=); try (eapply history_idle; eauto with channel; fail).
  - destruct (push_tail cap s m) eqn:Hp; simplify_eq/=.
    eapply history_sent; eauto. match goal with H : (_ <? _)%nat = true |- _ => apply Nat.ltb_lt in H end. lia.
Qed.

Lemma history_receive_turn tr s w w' d recorded now s' o :
  history tr (mkConfig s w) -> receive_iteration cap d recorded now s = Some (s', o) ->
  history (tr ++ [receive_turn_event o]) (mkConfig s' w').
Proof.
  intros Hh Hs. unfold receive_iteration in Hs.
  destruct (Nat.ltb_spec 0 (len s)) as [Hlen|Hlen].
  - destruct (take_head cap s) as [[m s1]|] eqn:Ht; simplify_eq/=.
    eapply history_received; eauto.
  - repeat (case_match; simplify_eq/=); eapply history_idle; eauto with channel.
Qed.

Lemma history_step tr c e c' :
  history tr c -> chan_step cap instant_max c e c' -> history (tr ++ [e]) c'.
Proof.
  intros Hh Hstep.
  destruct Hstep as [s w m s' r H|s w s' r H|s w t m start timeout now s' o Ht H
    |s w t m d now s' o Ht H|s w t start timeout now s' o Ht H|s w t d now s' o Ht H|s w H|s w H];
    eauto using history_send_turn, history_receive_turn.
  - destruct (history_room _ _ _ Hh) as (q & Hr & El & Hb). unfold try_send in H.
    repeat (case_match; simplify_eq/=); try (eapply history_idle; eauto with channel; fail).
    destruct (push_tail cap s m) eqn:Hp; simplify_eq/=.
    eapply history_sent; eauto.
    match goal with H : (_ =? _)%nat = false |- _ => apply Nat.eqb_neq in H end. lia.
  - unfold try_receive in H. destruct (Nat.eqb_spec (len s) 0); simplify_eq/=.
    + eapply history_idle; eauto.
    + destruct (take_head cap s) as [[m s1]|] eqn:Ht; simplify_eq/=.
      eapply history_received; eauto. lia.
  - eapply history_idle; eauto using drop_sender_repr.
  - eapply history_idle; eauto using drop_receiver_repr.
Qed.

Lemma history_new s0 :
  (0 < cap)%nat -> fixed_channel true true cap = Ok s0 -> history [] (mkConfig s0 ∅).
Proof.
  intros Hcap Hnew. destruct (fixed_channel_repr (T := T) cap Hcap) as (s & Hs & Hr).
  rewrite Hnew in Hs. injection Hs as <-. exists spec_new.
  cbn in Hnew. injection Hnew as <-. cbn. split_and!; try done; lia.
Qed.
End Executions.

(** ** Properties *)

(** C1: the channel refines a bounded FIFO queue.  From a state that represents
    the abstract queue, every operation (immediate or one turn of a timed one)
    returns exactly what the specification returns, never panics, and leaves a
    state that represents the specification's next queue. *)
Theorem channel_refines_fifo {T} cap (s : ChannelState T) q m deadline recorded now :
  repr cap s q ->
  (exists s', try_send cap s m = Some (s', (spec_try_send cap q m).2) /\
     repr cap s' (spec_try_send cap q m).1) /\
  (exists s', try_receive cap s = Some (s', (spec_try_receive q).2) /\
     repr cap s' (spec_try_receive q).1) /\
  (exists s', send_iteration cap deadline recorded now s m
       = Some (s', (spec_send_turn cap (expired deadline now) q m).2) /\
     repr cap s' (spec_send_turn cap (expired deadline now) q m).1) /\
  (exists s', receive_iteration cap deadline recorded now s
       = Some (s', (spec_receive_turn (expired deadline now) q).2) /\
     repr cap s' (spec_receive_turn (expired deadline now) q).1).
Proof.
  intros Hr. split_and!; eauto using try_send_refines, try_receive_refines,
    send_iteration_refines, receive_iteration_refines.
Qed.

Lemma channel_refines_fifo_witness :
  exists s', try_receive 2 (mkChannelState [Some 7; Some 5] 1 1 2 true true 2 0 0 0 0 0 0 2)
    = Some (s', Ok 5) /\ repr 2 s' (mkQueue [7] true true).
Proof.
  refine (proj1 (proj2 (channel_refines_fifo 2
    (mkChannelState [Some 7; Some 5] 1 1 2 true true 2 0 0 0 0 0 0 2)
    (mkQueue [5; 7] true true) 9 None false 0 _))).
  constructor; try reflexivity; cbn; [lia..|].
  intros [|[|i]] Hi; try reflexivity; lia.
Defined.

(** FIFO across threads.  In every interleaving of any number of threads
    over a fresh channel, the messages sent are the messages received, in
    order, followed by the messages still queued (so none is lost, duplicated
    or reordered); at most [cap] are ever queued, and the send and receive
    counters are the saturated totals. *)
Theorem channel_fifo {T} cap instant_max (s0 : ChannelState T) tr c :
  (0 < cap)%nat -> fixed_channel true true cap = Ok s0 ->
  steps (chan_step cap instant_max) (mkConfig s0 ∅) tr c ->
  sent_of tr = received_of tr ++ queued cap (chan c) /\
  length (queued cap (chan c)) = len (chan c) /\
  (len (chan c) <= high_water (chan c) <= cap)%nat /\
  sends (chan c) = Z.min (zlen (sent_of tr)) U64_MAX /\
  receives (chan c) = Z.min (zlen (received_of tr)) U64_MAX.
Proof.
  intros Hcap Hnew Htr.
  assert (history cap tr c) as (q & Hr & ? & ? & ? & ?).
  { eapply steps_trace_invariant; [|by eapply history_new|done]. eauto using history_step. }
  rewrite (queued_repr _ _ _ Hr). pose proof (repr_len _ _ _ Hr). split_and!; done || lia.
Qed.

Lemma channel_fifo_witness :
  let c := mkConfig (mkChannelState [None; Some 4] 1 0 1 true true 2 1 0 0 0 0 0 2) ∅ in
  sent_of [Sent 3; Sent 4; Received 3]
    = received_of [Sent 3; Sent 4; Received 3] ++ queued 2 (chan c) /\ queued 2 (chan c) = [4].
Proof.
  split; [|reflexivity].
  refine (proj1 (channel_fifo 2 100 (mkChannelState [None; None] 0 0 0 true true 0 0 0 0 0 0 0 0)
    [Sent 3; Sent 4; Received 3] _ ltac:(lia) eq_refl _)).
  apply (steps_snoc _ _ [Sent 3; Sent 4] (mkConfig (mkChannelState [Some 3; Some 4] 0 0 2
    true true 2 0 0 0 0 0 0 2) ∅) (Received 3)).
  - apply (steps_snoc _ _ [Sent 3] (mkConfig (mkChannelState [Some 3; None] 0 1 1
      true true 1 0 0 0 0 0 0 1) ∅) (Sent 4)).
    + eapply (steps_snoc _ _ [] _ (Sent 3)); [constructor|].
      apply (step_try_send 2 100 _ _ 3 _ (Ok tt)). reflexivity.
    + apply (step_try_send 2 100 _ _ 4 _ (Ok tt)). reflexivity.
  - apply (step_try_receive 2 100 _ _ _ (Ok 3)). reflexivity.
Defined.

(** Interference from other threads keeps the representation. *)
Definition well_behaved {T} cap (others : ChannelState T -> ChannelState T) : Prop :=
  forall s q, repr cap s q -> exists q', repr cap (others s) q'.

(** What a completed timed send may answer. *)
Definition send_answer {T} cap (m : T) (s' : ChannelState T) (r : result (SendError T) unit) : Prop :=
  exists q', repr cap s' q' /\
    match r with
    | Ok _ => exists before, items q' = before ++ [m]
    | Err e => e = Timeout m \/ e = Closed m
    end.

Lemma send_turn_answer {T} cap (s : ChannelState T) q m b :
  repr cap s (spec_send_turn cap b q m).1 ->
  match (spec_send_turn cap b q m).2 with
  | Done r => send_answer cap m s r
  | Wait => b = false /\ (cap <= length (items q))%nat /\ rx_open q = true
  end.
Proof.
  unfold spec_send_turn, send_answer.
  destruct (Nat.ltb_spec (length (items q)) cap), (rx_open q) eqn:?, b; cbn; eauto.
  all: intros Hr; eexists; split; [done|]; cbn; eauto.
Qed.

Lemma send_loop_returns {T} cap (s : ChannelState T) q m deadline recorded now wakes :
  repr cap s q -> Forall (fun w => well_behaved cap w.1) wakes ->
  expired deadline now = true \/ Exists (fun w => expired deadline w.2 = true) wakes ->
  exists s' r, send_loop cap deadline recorded now s m wakes = Some (s', Some r) /\
    send_answer cap m s' r.
Proof.
  intros Hr Hwb. revert s q recorded now Hr.
  induction Hwb as [|[others now'] wakes Ho _ IH]; intros s q recorded now Hr Hex; cbn [send_loop];
    destruct (send_iteration_refines cap s q m deadline recorded now Hr) as (s1 & -> & Hr1);
    pose proof (send_turn_answer cap s1 q m (expired deadline now) Hr1) as Hans;
    destruct (spec_send_turn _ _ _ _).2; eauto; destruct Hans as (Hexp & _ & _).
  - rewrite Hexp in Hex. by destruct Hex as [|[]%Exists_nil].
  - destruct (Ho s1 _ Hr1) as [q2 Hr2]. eapply IH; [done|].
    rewrite Hexp, Exists_cons in Hex. by destruct Hex as [|].
Qed.

(** C2: a timed send always answers.  However other threads interfere, once a
    wake-up reads an instant at or past the deadline (or the deadline is not
    representable, when no wake-up is needed) [send_timeout] has returned:
    either the message is the newest one queued, or the error hands the
    caller's own message back. *)
Theorem send_timeout_returns {T} cap instant_max start timeout now (s : ChannelState T) q m wakes :
  repr cap s q -> Forall (fun w => well_behaved cap w.1) wakes ->
  instant_max < start + timeout \/ Exists (fun w => start + timeout <= w.2) wakes ->
  exists s' r, send_timeout cap instant_max start timeout now s m wakes = Some (s', Some r) /\
    send_answer cap m s' r.
Proof.
  intros Hr Hwb Hex. apply (send_loop_returns cap s q); [done..|].
  unfold deadline_of. destruct (Z.leb_spec (start + timeout) instant_max); cbn.
  - destruct Hex as [?|Hex]; [lia|]. right. eapply Exists_impl; [exact Hex|].
    intros w Hw. by apply Z.leb_le.
  - by left.
Qed.

Lemma send_timeout_returns_witness :
  exists s' r, send_timeout 1 1000 0 10 0
     (mkChannelState [Some 7] 0 0 1 true true 1 0 0 0 0 0 0 1) 8 [(id, 4); (id, 10)]
     = Some (s', Some r) /\ send_answer 1 8 s' r.
Proof.
  apply (send_timeout_returns 1 1000 0 10 0 _ (mkQueue [7] true true)).
  - constructor; try reflexivity; cbn; [lia..|]. intros [|i] Hi; [reflexivity|lia].
  - repeat constructor; intros s q Hr; exists q; exact Hr.
  - right. apply Exists_cons; right. apply Exists_cons; left. cbn. lia.
Defined.
