(* ===== verification/PagePool.v ===== *)
(** * The page pool of beryl-stream (crates/beryl-stream/src/page.rs)

    [PagePoolState] is the state behind the pool's mutex, [PageLease] the value
    a caller owns.  A program holding any number of leases is the step
    relation [pool_step]; [expect]s and slice bounds that would panic are
    [None]. *)

From stdpp Require Import prelude gmap.
From Stdlib Require Import ZArith Lia.
From S2P Require Import Prelude Bytes.

(** ** Data *)

Record PagePoolState := mkPagePoolState {
  available : list (list byte);
  leased : Z;
  high_water : Z;
  total_leases : Z;
  exhausted : Z;
  next_generation : Z;
}.

Record PageLease := mkPageLease {
  page : option (list byte);
  valid_len : Z;
  generation : Z;
}.

Inductive PagePoolError :=
  | SizeOverflow
  | AllocationFailed
  | Exhausted
  | GenerationExhausted
  | InvalidLength (requested capacity : Z).

Record PagePoolDiagnostics := mkPagePoolDiagnostics {
  d_page_capacity : nat;
  d_page_count : nat;
  d_available : nat;
  d_leased : Z;
  d_high_water : Z;
  d_total_leases : Z;
  d_exhausted : Z;
}.

(** ** Operations *)

Definition zero_page (page_capacity : nat) : list byte := replicate page_capacity x00.

(** [PagePool::new]; [reserve_ok] says whether the allocator grants the pages. *)
Definition new_pool (page_capacity page_count : nat) (reserve_ok : bool)
  : result PagePoolError PagePoolState :=
  match checked_mul64 (Z.of_nat page_capacity) (Z.of_nat page_count) with
  | None => Err SizeOverflow
  | Some _ =>
      if reserve_ok
      then Ok (mkPagePoolState (replicate page_count (zero_page page_capacity)) 0 0 0 0 1)
      else Err AllocationFailed
  end.

Definition take_generation (next : Z) : option (Z * Z) :=
  next' ← checked_add64 next 1; Some (next, next').

Definition bump_exhausted (p : PagePoolState) : PagePoolState :=
  mkPagePoolState (available p) (leased p) (high_water p) (total_leases p)
    (saturating_add64 (exhausted p) 1) (next_generation p).

(** [Vec::pop] takes the last page. *)
Definition try_lease (p : PagePoolState) : PagePoolState * result PagePoolError PageLease :=
  match last (available p) with
  | None => (bump_exhausted p, Err Exhausted)
  | Some top =>
      match take_generation (next_generation p) with
      | None => (bump_exhausted p, Err GenerationExhausted)
      | Some (g, next) =>
          (mkPagePoolState (removelast (available p)) (leased p + 1)
             (Z.max (high_water p) (leased p + 1)) (saturating_add64 (total_leases p) 1)
             (exhausted p) next,
           Ok (mkPageLease (Some top) 0 g))
      end
  end.

Definition diagnostics (page_capacity page_count : nat) (p : PagePoolState) : PagePoolDiagnostics :=
  mkPagePoolDiagnostics page_capacity page_count (length (available p)) (leased p)
    (high_water p) (total_leases p) (exhausted p).

(** [PageLease::as_slice]: [None] when the lease has no page or the valid
    length passes its end. *)
Definition as_slice (l : PageLease) : option (list byte) :=
  b ← page l; slice_get b 0 (valid_len l).

Definition is_empty (l : PageLease) : bool := valid_len l =? 0.

(** A write through [buffer_mut], which cannot change the buffer's length. *)
Definition write_buffer (l : PageLease) (contents : list byte) : option PageLease :=
  b ← page l;
  if decide (length contents = length b)
  then Some (mkPageLease (Some contents) (valid_len l) (generation l)) else None.

Definition set_len (page_capacity : nat) (l : PageLease) (n : Z)
  : PageLease * result PagePoolError unit :=
  if Z.of_nat page_capacity <? n
  then (l, Err (InvalidLength n (Z.of_nat page_capacity)))
  else (mkPageLease (page l) n (generation l), Ok tt).

Definition clear (l : PageLease) : PageLease := mkPageLease (page l) 0 (generation l).

(** [Drop for PageLease]: the page is overwritten with zeros and returned.
    [None] is the arithmetic panic of [leased -= 1] at zero. *)
Definition drop_lease (p : PagePoolState) (l : PageLease) : option PagePoolState :=
  match page l with
  | None => Some p
  | Some b =>
      n ← checked_sub64 (leased p) 1;
      Some (mkPagePoolState (available p ++ [replicate (length b) x00]) n
        (high_water p) (total_leases p) (exhausted p) (next_generation p))
  end.

(** ** A program using the pool *)
Section Program.
Context (page_capacity page_count : nat).

Record world := mkWorld { pool : PagePoolState; leases : gmap nat PageLease }.

Inductive action :=
  | Leased (id : nat) (l : PageLease)
  | Refused (e : PagePoolError)
  | Wrote (id : nat)
  | Resized (id : nat) (r : result PagePoolError unit)
  | Cleared (id : nat)
  | Returned (id : nat).

Inductive pool_step : world -> action -> world -> Prop :=
  | step_lease p p' ls id l :
      ls !! id = None -> try_lease p = (p', Ok l) ->
      pool_step (mkWorld p ls) (Leased id l) (mkWorld p' (<[id := l]> ls))
  | step_refused p p' ls e :
      try_lease p = (p', Err e) ->
      pool_step (mkWorld p ls) (Refused e) (mkWorld p' ls)
  | step_write p ls id l l' contents :
      ls !! id = Some l -> write_buffer l contents = Some l' ->
      pool_step (mkWorld p ls) (Wrote id) (mkWorld p (<[id := l']> ls))
  | step_set_len p ls id l l' n r :
      ls !! id = Some l -> 0 <= n -> set_len page_capacity l n = (l', r) ->
      pool_step (mkWorld p ls) (Resized id r) (mkWorld p (<[id := l']> ls))
  | step_clear p ls id l :
      ls !! id = Some l ->
      pool_step (mkWorld p ls) (Cleared id) (mkWorld p (<[id := clear l]> ls))
  | step_drop p p' ls id l :
      ls !! id = Some l -> drop_lease p l = Some p' ->
      pool_step (mkWorld p ls) (Returned id) (mkWorld p' (delete id ls)).

(** A live lease: it owns a page of the pool's capacity and its valid prefix
    is inside it; its generation has been handed out. *)
Record lease_ok (next : Z) (l : PageLease) : Prop := {
  lease_page : exists b, page l = Some b /\ length b = page_capacity;
  lease_len : 0 <= valid_len l <= Z.of_nat page_capacity;
  lease_gen : 1 <= generation l < next;
}.

Record pool_inv (w : world) : Prop := {
  inv_pages : Forall (fun b => b = zero_page page_capacity) (available (pool w));
  inv_count : (length (available (pool w)) + size (leases w) = page_count)%nat;
  inv_leased : leased (pool w) = Z.of_nat (size (leases w));
  inv_high : leased (pool w) <= high_water (pool w) <= Z.of_nat page_count;
  inv_next : 1 <= next_generation (pool w) <= U64_MAX;
  inv_leases : forall id l, leases w !! id = Some l -> lease_ok (next_generation (pool w)) l;
  inv_unique : forall i j li lj, leases w !! i = Some li -> leases w !! j = Some lj ->
    generation li = generation lj -> i = j;
}.

Lemma new_pool_inv p :
  new_pool page_capacity page_count true = Ok p -> pool_inv (mkWorld p ∅).
Proof.
  unfold new_pool. case_match; [|done]. intros [= <-].
  constructor; cbn; rewrite ?map_size_empty; try lia; try done.
  - by apply Forall_replicate.
  - by rewrite length_replicate, Nat.add_0_r.
Qed.

Lemma lease_ok_weaken next next' l : next <= next' -> lease_ok next l -> lease_ok next' l.
Proof. intros ? []. constructor; auto; lia. Qed.

(** [try_lease] by cases. *)
Lemma try_lease_cases p :
  (available p = [] /\ try_lease p = (bump_exhausted p, Err Exhausted)) \/
  (exists rest top, available p = rest ++ [top] /\
    ((next_generation p = U64_MAX \/ U64_MAX < next_generation p) /\
       try_lease p = (bump_exhausted p, Err GenerationExhausted) \/
     next_generation p < U64_MAX /\
       try_lease p = (mkPagePoolState rest (leased p + 1) (Z.max (high_water p) (leased p + 1))
          (saturating_add64 (total_leases p) 1) (exhausted p) (next_generation p + 1),
        Ok (mkPageLease (Some top) 0 (next_generation p))))).
Proof.
  destruct (available p) as [|top rest _] eqn:E using rev_ind.
  - left. unfold try_lease. by rewrite E.
  - right. exists rest, top. split; [done|].
    unfold try_lease. rewrite E, last_snoc, removelast_last. unfold take_generation.
    destruct (checked_add64 (next_generation p) 1) eqn:Eg; cbn.
    + apply checked_add64_Some in Eg as [-> ?]. right. split; [lia|done].
    + apply checked_add64_None in Eg. left. split; [lia|done].
Qed.

(** Replacing a live lease by one with the same generation. *)
Lemma pool_inv_update p ls id l l' :
  pool_inv (mkWorld p ls) -> ls !! id = Some l -> generation l' = generation l ->
  lease_ok (next_generation p) l' -> pool_inv (mkWorld p (<[id := l']> ls)).
Proof.
  intros [] Hl Hg Hok. cbn in *. constructor; cbn; try done.
  - by rewrite map_size_insert_Some by eauto.
  - by rewrite map_size_insert_Some by eauto.
  - intros i li Hi. destruct (decide (i = id)) as [->|]; simplify_map_eq; eauto.
  - intros i j li lj Hi Hj Hij.
    destruct (decide (i = id)) as [->|], (decide (j = id)) as [->|]; simplify_map_eq; eauto.
    all: rewrite Hg in *; eauto.
Qed.

Lemma pool_inv_lease p p' ls id l :
  pool_inv (mkWorld p ls) -> ls !! id = None -> try_lease p = (p', Ok l) ->
  pool_inv (mkWorld p' (<[id := l]> ls)).
Proof.
  intros [] Hid Hl. cbn in *.
  destruct (try_lease_cases p) as [[_ E]|(rest & top & Ea & [[_ E]|[Hg E]])];
    rewrite E in Hl; simplify_eq. rewrite Ea in *.
  apply Forall_app in inv_pages0 as [? Htop]. apply Forall_singleton in Htop as ->.
  rewrite length_app in inv_count0; cbn in inv_count0.
  constructor; cbn; rewrite ?map_size_insert_None by done; try done; try lia.
  - intros i li. destruct (decide (i = id)) as [->|]; intros; simplify_map_eq.
    + constructor; cbn; [|lia..]. eexists; split; [done|]. apply length_replicate.
    + eapply lease_ok_weaken; [|by eapply inv_leases0]. lia.
  - intros i j li lj Hi Hj Hij.
    destruct (decide (i = id)) as [->|], (decide (j = id)) as [->|]; simplify_map_eq; eauto.
    + destruct (inv_leases0 _ _ Hj) as [_ _ ?]. cbn in *. lia.
    + destruct (inv_leases0 _ _ Hi) as [_ _ ?]. cbn in *. lia.
Qed.

Lemma pool_inv_drop p p' ls id l :
  pool_inv (mkWorld p ls) -> ls !! id = Some l -> drop_lease p l = Some p' ->
  pool_inv (mkWorld p' (delete id ls)).
Proof.
  intros [] Hl Hd. cbn in *. destruct (inv_leases0 _ _ Hl) as [(b & Eb & Hb) _ _].
  assert (size (delete id ls) = pred (size ls)) as Hsz by (apply map_size_delete_Some; eauto).
  assert (size ls <> 0)%nat by (intros E; apply map_size_empty_inv in E as ->; done).
  unfold drop_lease, checked_sub64 in Hd. rewrite Eb in Hd. cbn in Hd.
  case_match; simplify_eq/=. bool_facts.
  constructor; cbn; rewrite ?Hsz; try done; try lia.
  - apply Forall_app; split; [done|]. apply Forall_singleton. by rewrite Hb.
  - rewrite length_app; cbn. lia.
  - intros i li [_ Hi]%lookup_delete_Some. eauto.
  - intros i j li lj [_ Hi]%lookup_delete_Some [_ Hj]%lookup_delete_Some. eauto.
Qed.

Lemma pool_inv_step w a w' : pool_inv w -> pool_step w a w' -> pool_inv w'.
Proof.
  intros Hinv Hstep. destruct Hstep as [p p' ls id l Hid Hl|p p' ls e Hl|p ls id l l' c Hl Hw
    |p ls id l l' n r Hl Hn Hr|p ls id l Hl|p p' ls id l Hl Hd].
  - by eapply pool_inv_lease.
  - pose proof Hinv as []. cbn in *.
    destruct (try_lease_cases p) as [[_ E]|(rest & top & Ea & [[_ E]|[Hg E]])];
      rewrite E in Hl; simplify_eq; by constructor.
  - pose proof (inv_leases _ Hinv id l Hl) as [(b & Eb & Hb) ??]. cbn in *.
    unfold write_buffer in Hw. rewrite Eb in Hw; cbn in Hw. case_decide; simplify_eq.
    eapply pool_inv_update; eauto. constructor; cbn; eauto. eexists; split; [done|congruence].
  - pose proof (inv_leases _ Hinv id l Hl) as []. unfold set_len in Hr.
    case_match; simplify_eq; bool_facts; (eapply pool_inv_update; [done..|]); constructor; cbn; done || lia.
  - pose proof (inv_leases _ Hinv id l Hl) as [].
    eapply pool_inv_update; [done..|]. constructor; cbn; done || lia.
  - by eapply pool_inv_drop.
Qed.

Lemma pool_inv_reachable p0 tr w :
  new_pool page_capacity page_count true = Ok p0 ->
  steps pool_step (mkWorld p0 ∅) tr w -> pool_inv w.
Proof.
  intros Hnew. apply (steps_invariant pool_step pool_inv).
  - intros; by eapply pool_inv_step.
  - by apply new_pool_inv.
Qed.
End Program.

(** ** Properties *)

(** C3: the pool conserves its pages.  After any sequence of leases, writes,
    resizes and returns, the free pages and the live leases add up to the page
    count, the [leased] counter is the number of live leases, every free page
    is zeroed and every live lease owns a page of the pool's capacity whose
    valid prefix can be read ([as_slice] does not panic), with a generation no
    other live lease has. *)
Theorem pool_conserves_pages page_capacity page_count p0 tr w :
  new_pool page_capacity page_count true = Ok p0 ->
  steps (pool_step page_capacity) (mkWorld p0 ∅) tr w ->
  (length (available (pool w)) + size (leases w) = page_count)%nat /\
  leased (pool w) = Z.of_nat (size (leases w)) /\
  Forall (fun b => b = zero_page page_capacity) (available (pool w)) /\
  (forall id l, leases w !! id = Some l ->
     exists b, as_slice l = Some b /\ zlen b = valid_len l /\ valid_len l <= Z.of_nat page_capacity) /\
  (forall i j li lj, leases w !! i = Some li -> leases w !! j = Some lj ->
     generation li = generation lj -> i = j).
Proof.
  intros Hnew Htr. pose proof (pool_inv_reachable _ _ _ _ _ Hnew Htr) as [].
  split_and!; try done. intros id l Hl.
  destruct (inv_leases0 id l Hl) as [(b & Eb & Hb) ? ?]. unfold as_slice. rewrite Eb. cbn.
  rewrite slice_get_Some by lia. eexists; split_and!; [done| |lia].
  rewrite length_take, length_drop. lia.
Qed.

Lemma pool_conserves_pages_witness :
  let w := mkWorld (mkPagePoolState [] 1 1 1 0 2)
    (<[0%nat := mkPageLease (Some [x41; x00]) 0 1]> {[0%nat := mkPageLease (Some [x00; x00]) 0 1]}) in
  leased (pool w) = Z.of_nat (size (leases w)).
Proof.
  refine (proj1 (proj2 (pool_conserves_pages 2 1
    (mkPagePoolState [[x00; x00]] 0 0 0 0 1) [Leased 0 (mkPageLease (Some [x00; x00]) 0 1); Wrote 0]
    _ eq_refl _))).
  eapply (steps_snoc _ _ [Leased 0 (mkPageLease (Some [x00; x00]) 0 1)]
    (mkWorld (mkPagePoolState [] 1 1 1 0 2) {[0%nat := mkPageLease (Some [x00; x00]) 0 1]})).
  - eapply (steps_snoc _ _ []); [apply steps_refl|]. by apply (step_lease 2 _ _ ∅ 0).
  - apply (step_write 2 _ {[0%nat := mkPageLease (Some [x00; x00]) 0 1]} 0
      (mkPageLease (Some [x00; x00]) 0 1) (mkPageLease (Some [x41; x00]) 0 1) [x41; x00]); reflexivity.
Defined.

(** Generations handed out so far stay below the next one. *)
Lemma leased_generations page_capacity page_count p0 tr w :
  new_pool page_capacity page_count true = Ok p0 ->
  steps (pool_step page_capacity) (mkWorld p0 ∅) tr w ->
  forall id l, Leased id l ∈ tr -> generation l < next_generation (pool w).
Proof.
  intros Hnew Htr.
  enough (pool_inv page_capacity page_count w /\
    forall id l, Leased id l ∈ tr -> generation l < next_generation (pool w)) by naive_solver.
  revert Htr. apply (steps_trace_invariant (pool_step page_capacity) (fun tr w =>
    pool_inv page_capacity page_count w /\
    forall id l, Leased id l ∈ tr -> generation l < next_generation (pool w))).
  2: { split; [by apply new_pool_inv|set_solver]. }
  clear. intros tr w2 a w3 [Hinv Hgen] Hstep. split; [by eapply pool_inv_step|].
  intros id l [Hin|Hin]%elem_of_app.
  - specialize (Hgen id l Hin). destruct Hstep as [p p' ls ? l1 ? Hl|p p' ls e Hl| | | |p p' ls ? l1 ? Hd];
      cbn in *; try done.
    + destruct (try_lease_cases p) as [[_ E]|(rest & top & Ea & [[_ E]|[Hg E]])];
        rewrite E in Hl; simplify_eq; cbn; lia.
    + destruct (try_lease_cases p) as [[_ E]|(rest & top & Ea & [[_ E]|[Hg E]])];
        rewrite E in Hl; simplify_eq; cbn; lia.
    + unfold drop_lease in Hd. repeat (case_match; simplify_eq/=; try done).
      destruct (checked_sub64 _ _); simplify_eq/=. done.
  - apply list_elem_of_singleton in Hin as <-. inversion Hstep as [p p' ls id' l1 ? Hl| | | | |]; subst.
    cbn. destruct (try_lease_cases p) as [[_ E]|(rest & top & Ea & [[_ E]|[Hg E]])];
      rewrite E in Hl; simplify_eq; cbn; lia.
Qed.

(** A lease never exposes another lease's bytes.  Whatever earlier holders
    wrote, a lease granted in any reachable state owns an all-zero page, starts
    empty, and carries a generation greater than that of every lease granted
    before it. *)
Theorem fresh_lease_is_blank page_capacity page_count p0 tr w p' l :
  new_pool page_capacity page_count true = Ok p0 ->
  steps (pool_step page_capacity) (mkWorld p0 ∅) tr w ->
  try_lease (pool w) = (p', Ok l) ->
  page l = Some (zero_page page_capacity) /\ as_slice l = Some [] /\
  (forall id old, Leased id old ∈ tr -> generation old < generation l).
Proof.
  intros Hnew Htr Hl. pose proof (pool_inv_reachable _ _ _ _ _ Hnew Htr) as [].
  pose proof (leased_generations _ _ _ _ _ Hnew Htr) as Hgen.
  destruct (try_lease_cases (pool w)) as [[_ E]|(rest & top & Ea & [[_ E]|[Hg E]])];
    rewrite E in Hl; simplify_eq.
  rewrite Ea in inv_pages0. apply Forall_app in inv_pages0 as [_ Htop].
  apply Forall_singleton in Htop as ->. split_and!; [done| |done].
  unfold as_slice; cbn [page valid_len mbind option_bind]. by rewrite slice_get_Some by lia.
Qed.

Lemma fresh_lease_is_blank_witness :
  page (mkPageLease (Some [x00]) 0 2) = Some (zero_page 1).
Proof.
  refine (proj1 (fresh_lease_is_blank 1 1 (mkPagePoolState [[x00]] 0 0 0 0 1)
    [Leased 0 (mkPageLease (Some [x00]) 0 1); Wrote 0; Returned 0]
    (mkWorld (mkPagePoolState [[x00]] 0 1 1 0 2)
      (delete 0%nat (<[0%nat := mkPageLease (Some [x41]) 0 1]> {[0%nat := mkPageLease (Some [x00]) 0 1]}))) (mkPagePoolState [] 1 1 2 0 3)
    (mkPageLease (Some [x00]) 0 2) eq_refl _ eq_refl)).
  eapply (steps_snoc _ _ [Leased 0 (mkPageLease (Some [x00]) 0 1); Wrote 0]
    (mkWorld (mkPagePoolState [] 1 1 1 0 2)
      (<[0%nat := mkPageLease (Some [x41]) 0 1]> {[0%nat := mkPageLease (Some [x00]) 0 1]}))).
  - eapply (steps_snoc _ _ [Leased 0 (mkPageLease (Some [x00]) 0 1)]
      (mkWorld (mkPagePoolState [] 1 1 1 0 2) {[0%nat := mkPageLease (Some [x00]) 0 1]})).
    + eapply (steps_snoc _ _ []); [apply steps_refl|]. by apply (step_lease 1 _ _ ∅ 0).
    + apply (step_write 1 _ {[0%nat := mkPageLease (Some [x00]) 0 1]} 0
        (mkPageLease (Some [x00]) 0 1) (mkPageLease (Some [x41]) 0 1) [x41]); reflexivity.
  - apply (step_drop 1 _ _ _ 0
      (mkPageLease (Some [x41]) 0 1)); reflexivity.
Defined.

(** Leases are refused only when there is nothing to lend.  In a reachable
    state with a free page (fewer live leases than pages) and a generation
    left, [try_lease] succeeds; with every page on loan it answers
    [Exhausted] and only counts the refusal; and returning a live lease never
    panics and makes one more page available. *)
Theorem lease_refused_only_when_exhausted page_capacity page_count p0 tr w :
  new_pool page_capacity page_count true = Ok p0 ->
  steps (pool_step page_capacity) (mkWorld p0 ∅) tr w ->
  ((size (leases w) < page_count)%nat -> next_generation (pool w) < U64_MAX ->
     exists p' l, try_lease (pool w) = (p', Ok l)) /\
  (size (leases w) = page_count ->
     try_lease (pool w) = (bump_exhausted (pool w), Err Exhausted)) /\
  (forall id l, leases w !! id = Some l ->
     exists p', drop_lease (pool w) l = Some p' /\
       length (available p') = S (length (available (pool w)))).
Proof.
  intros Hnew Htr. pose proof (pool_inv_reachable _ _ _ _ _ Hnew Htr) as [].
  split_and!.
  - intros Hroom Hg.
    destruct (try_lease_cases (pool w)) as [[E0 E]|(rest & top & Ea & [[? E]|[? E]])]; eauto.
    + rewrite E0 in inv_count0. cbn in inv_count0. lia.
    + lia.
  - intros Hfull. destruct (try_lease_cases (pool w)) as [[E0 E]|(rest & top & Ea & ?)]; [done|].
    rewrite Ea, length_app in inv_count0. cbn in inv_count0. lia.
  - intros id l Hl. destruct (inv_leases0 id l Hl) as [(b & Eb & _) _ _].
    assert (size (leases w) <> 0)%nat
      by (intros E; apply map_size_empty_inv in E; by rewrite E in Hl).
    unfold drop_lease, checked_sub64. rewrite Eb. case_match eqn:E; bool_facts; [|lia].
    cbn. eexists; split; [done|]. cbn. rewrite length_app. cbn. lia.
Qed.

Lemma lease_refused_only_when_exhausted_witness :
  try_lease (mkPagePoolState [] 1 1 1 0 2)
    = (bump_exhausted (mkPagePoolState [] 1 1 1 0 2), Err Exhausted).
Proof.
  refine (proj1 (proj2 (lease_refused_only_when_exhausted 1 1 (mkPagePoolState [[x00]] 0 0 0 0 1)
    [Leased 0 (mkPageLease (Some [x00]) 0 1)]
    (mkWorld (mkPagePoolState [] 1 1 1 0 2) {[0%nat := mkPageLease (Some [x00]) 0 1]}) eq_refl _)) _).
  - eapply (steps_snoc _ _ []); [apply steps_refl|]. by apply (step_lease 1 _ _ ∅ 0).
  - reflexivity.
Defined.
