(* ===== verification/StreamCursor.v ===== *)
(** * Range streams of beryl-stream (crates/beryl-stream/src/stream.rs)

    Identity- and offset-checked pages and the cursor that accepts them.  The
    bytes of a page are the valid prefix of the lease it was built from. *)

From stdpp Require Import prelude.
From Stdlib Require Import ZArith Lia.
From S2P Require Import Prelude Bytes PagePool.

(** ** Data *)

(** [StreamIdentity([u8; 16])] *)
Abbreviation StreamIdentity := (list byte).

Record ReplayIdentity := mkReplayIdentity { stream : StreamIdentity; revision : Z }.

Record SourcePage := mkSourcePage {
  identity : StreamIdentity;
  offset : Z;
  next_offset : Z;
  terminal : bool;
  lease : PageLease;
}.

Inductive SourcePageError := EmptyNonterminal | OffsetOverflow.

Record StreamCursor := mkStreamCursor {
  c_identity : StreamIdentity;
  c_next_offset : Z;
  c_terminal : bool;
}.

Inductive StreamContractError :=
  | AfterTerminal
  | IdentityMismatch (expected actual : StreamIdentity)
  | OffsetMismatch (expected actual : Z).

(** ** Operations *)

(** [SourcePage::new]; [u64::try_from(usize)] cannot fail on a 64-bit target. *)
Definition new_page (id : StreamIdentity) (off : Z) (l : PageLease) (term : bool)
  : result SourcePageError SourcePage :=
  if is_empty l && negb term then Err EmptyNonterminal
  else next ← ok_or OffsetOverflow (checked_add64 off (valid_len l));
       Ok (mkSourcePage id off next term l).

Definition page_bytes (p : SourcePage) : list byte := default [] (as_slice (lease p)).

Definition new_cursor (id : StreamIdentity) : StreamCursor := mkStreamCursor id 0 false.

(** [StreamCursor::accept]: the cursor after the call and its answer. *)
Definition accept (c : StreamCursor) (p : SourcePage)
  : StreamCursor * result StreamContractError unit :=
  if c_terminal c then (c, Err AfterTerminal)
  else if decide (identity p = c_identity c) then
    if offset p =? c_next_offset c
    then (mkStreamCursor (c_identity c) (next_offset p) (terminal p), Ok tt)
    else (c, Err (OffsetMismatch (c_next_offset c) (offset p)))
  else (c, Err (IdentityMismatch (c_identity c) (identity p))).

(** A consumer that stops at the first page the cursor refuses. *)
Fixpoint accept_all (c : StreamCursor) (ps : list SourcePage)
  : StreamCursor * result StreamContractError unit :=
  match ps with
  | [] => (c, Ok tt)
  | p :: ps => match accept c p with
               | (c', Ok _) => accept_all c' ps
               | (c', Err e) => (c', Err e)
               end
  end.

(** ** What accepted pages are *)

(** A page as [new_page] builds it from a readable lease. *)
Definition page_ok (p : SourcePage) : Prop :=
  exists l id off term, new_page id off l term = Ok p /\ 0 <= off /\
    (exists b, as_slice l = Some b /\ zlen b = valid_len l).

Lemma page_ok_bytes p :
  page_ok p -> zlen (page_bytes p) = next_offset p - offset p /\
    (terminal p = false -> page_bytes p <> []) /\ 0 <= offset p /\ next_offset p <= U64_MAX.
Proof.
  intros (l & id & off & term & Hnew & Hoff & b & Hb & Hlen).
  unfold new_page in Hnew. case_match eqn:E; [done|].
  destruct (checked_add64 off (valid_len l)) eqn:Ea; [|done].
  apply checked_add64_Some in Ea as [-> ?]. cbn in Hnew. injection Hnew as <-.
  unfold page_bytes. cbn. rewrite Hb. cbn. split_and!; [lia| |done|done].
  intros ->. rewrite andb_true_r in E. unfold is_empty in E. bool_facts.
  intros ->. cbn in Hlen. lia.
Qed.

(** Contiguous pages of one stream: each starts where the previous ended and
    only the last may be terminal. *)
Inductive contiguous (id : StreamIdentity) : Z -> list SourcePage -> Z -> bool -> Prop :=
  | contiguous_nil off : contiguous id off [] off false
  | contiguous_last off p :
      identity p = id -> offset p = off ->
      contiguous id off [p] (next_offset p) (terminal p)
  | contiguous_cons off p ps off' term :
      identity p = id -> offset p = off -> terminal p = false -> ps <> [] ->
      contiguous id (next_offset p) ps off' term ->
      contiguous id off (p :: ps) off' term.

Lemma accept_all_terminal c ps :
  c_terminal c = true -> ps <> [] -> (accept_all c ps).2 = Err AfterTerminal.
Proof. intros Hc. destruct ps; [done|]. cbn. unfold accept. by rewrite Hc. Qed.

Lemma accept_Ok c p c' :
  accept c p = (c', Ok tt) <->
  c_terminal c = false /\ identity p = c_identity c /\ offset p = c_next_offset c /\
  c' = mkStreamCursor (c_identity c) (next_offset p) (terminal p).
Proof.
  unfold accept. destruct (c_terminal c); [naive_solver|].
  case_decide; [|naive_solver].
  destruct (Z.eqb_spec (offset p) (c_next_offset c)); naive_solver.
Qed.

Lemma accept_all_contiguous id off ps c' :
  accept_all (mkStreamCursor id off false) ps = (c', Ok tt) <->
  contiguous id off ps (c_next_offset c') (c_terminal c') /\ c_identity c' = id.
Proof.
  revert off c'. induction ps as [|p ps IH]; intros off c'; cbn [accept_all].
  - split; [intros [= <-]; by split; [constructor|]|].
    intros [H Hid]. inversion H; subst. by destruct c'; cbn in *; subst.
  - destruct (accept (mkStreamCursor id off false) p) as [c1 [[]|e]] eqn:Ha.
    + apply accept_Ok in Ha as (_ & Hid & Hoff & ->). cbn in *.
      destruct (terminal p) eqn:Et.
      * destruct ps as [|p2 ps].
        { cbn. split; [intros [= <-]; cbn|].
          - split; [|done]. rewrite <- Et. by constructor.
          - intros [H Hi]. inversion H; subst; [|done]. destruct c'; cbn in *. congruence. }
        split; [intros H|].
        { by rewrite (surjective_pairing (accept_all _ _)), accept_all_terminal in H. }
        intros [H _]. inversion H; congruence.
      * rewrite IH. split; intros [H Hi].
        { split; [|done]. destruct ps as [|p2 ps].
          - inversion H; subst. rewrite <- Et at 1. by constructor.
          - by apply contiguous_cons. }
        split; [|done]. destruct c'; cbn in *. inversion H; subst; [|done].
        rewrite Et. constructor.
    + split; [done|]. intros [H Hi]. exfalso. unfold accept in Ha; cbn in Ha.
      inversion H; subst; cbn in *; rewrite decide_True, Z.eqb_refl in Ha by done; done.
Qed.

Lemma contiguous_bytes id off ps off' term :
  contiguous id off ps off' term -> Forall page_ok ps ->
  zlen (concat (page_bytes <$> ps)) = off' - off /\ zlen ps <= off' - off + 1.
Proof.
  induction 1 as [|off p|off p ps off' term _ Hoff Ht Hne Hc IH]; intros Hok;
    rewrite ?Forall_cons in Hok.
  - cbn. lia.
  - destruct Hok as [Hp _]. apply page_ok_bytes in Hp as (? & ? & ? & ?).
    cbn. rewrite app_nil_r. lia.
  - destruct Hok as [Hp Hps]. destruct (IH Hps).
    apply page_ok_bytes in Hp as (? & Hb & ? & ?). specialize (Hb Ht).
    destruct (page_bytes p) eqn:Eb; [done|]. cbn [fmap list_fmap concat length] in *.
    rewrite Eb in *. cbn [length] in *. rewrite length_app. cbn [length]. lia.
Qed.

Lemma take_slice_app {A} (l s : list A) a b :
  0 <= a -> slice_get l a b = Some s -> take (Z.to_nat a) l ++ s = take (Z.to_nat b) l.
Proof.
  intros Ha. unfold slice_get. case_match eqn:E; intros [= <-]. bool_facts.
  rewrite <- (take_drop (Z.to_nat a) l) at 3.
  rewrite take_app, length_take, take_take. f_equal; f_equal; lia.
Qed.

(** The pages agree with a source of bytes. *)
Definition pages_of (src : list byte) (ps : list SourcePage) : Prop :=
  Forall (fun p => slice_get src (offset p) (next_offset p) = Some (page_bytes p)) ps.

Lemma contiguous_reassemble id off ps off' term src :
  contiguous id off ps off' term -> 0 <= off -> Forall page_ok ps -> pages_of src ps ->
  take (Z.to_nat off) src ++ concat (page_bytes <$> ps) = take (Z.to_nat off') src.
Proof.
  induction 1 as [|off p Hid Hoff|off p ps off' term Hid Hoff Ht Hne Hc IH]; intros H0 Hok Hsrc;
    cbn [fmap list_fmap concat].
  - by rewrite app_nil_r.
  - apply Forall_cons in Hsrc as [Hsrc _]. subst off. rewrite app_nil_r. exact (take_slice_app _ _ _ _ H0 Hsrc).
  - apply Forall_cons in Hok as [Hp Hps]. apply Forall_cons in Hsrc as [Hs Hss]. subst off.
    rewrite app_assoc, (take_slice_app _ _ _ _ H0 Hs). apply IH; [|done..].
    apply page_ok_bytes in Hp as (? & _). lia.
Qed.

(** C4: a cursor reassembles its source.  When a fresh cursor accepts a sequence
    of pages, the pages are contiguous from offset zero with only the last one
    possibly terminal; their bytes, in order, are exactly the source's prefix
    up to the cursor's offset; and there are at most one more pages than bytes,
    so a stream cannot stall. *)
Theorem accepted_pages_reassemble id src ps c :
  Forall page_ok ps -> pages_of src ps ->
  accept_all (new_cursor id) ps = (c, Ok tt) ->
  contiguous id 0 ps (c_next_offset c) (c_terminal c) /\
  concat (page_bytes <$> ps) = take (Z.to_nat (c_next_offset c)) src /\
  zlen ps <= c_next_offset c + 1.
Proof.
  intros Hok Hsrc Ha. apply accept_all_contiguous in Ha as [Hc _].
  pose proof (contiguous_bytes _ _ _ _ _ Hc Hok).
  pose proof (contiguous_reassemble _ _ _ _ _ src Hc (Z.le_refl 0) Hok Hsrc).
  split_and!; done || lia.
Qed.

Lemma accepted_pages_reassemble_witness :
  let l1 := mkPageLease (Some [x61; x62]) 2 1 in
  let l2 := mkPageLease (Some [x63; x00]) 1 2 in
  concat (page_bytes <$> [mkSourcePage [] 0 2 false l1; mkSourcePage [] 2 3 true l2])
  = take 3 [x61; x62; x63].
Proof.
  intros l1 l2.
  refine (proj1 (proj2 (accepted_pages_reassemble [] [x61; x62; x63]
    [mkSourcePage [] 0 2 false l1; mkSourcePage [] 2 3 true l2]
    (mkStreamCursor [] 3 true) _ _ _))).
  - repeat constructor.
    + exists l1, [], 0, false. split_and!; [reflexivity|lia|]. by exists [x61; x62].
    + exists l2, [], 2, true. split_and!; [reflexivity|lia|]. by exists [x63].
  - repeat constructor.
  - reflexivity.
Defined.
