(* ===== verification/WslFrame.v ===== *)
(** * WSL supervisor frames (crates/beryl-wsl-supervisor/src/codec)

    The control protocol between Beryl and its Linux companion process: the
    [Frame] type of types.rs, [encode_frame] of encode.rs and [decode_frame],
    [decode_owned] of decode.rs.  Rust strings are byte lists that satisfy
    [utf8_valid]; [frame_typed] collects what the Rust types of a frame's
    fields guarantee. *)

From stdpp Require Import prelude strings.
From Stdlib Require Import ZArith Lia.
From S2P Require Import Prelude Bytes.

(** ** types.rs *)

Definition PROTOCOL_VERSION : Z := 2.
Definition HEADER_LEN : Z := 48.
Definition MAX_PAYLOAD_LEN : Z := 128 * 1024.
Definition MAX_PENDING_FRAMES : nat := 8.
Definition MAX_PATH_LEN : Z := 4096.
Definition MAX_DIAGNOSTIC_LEN : Z := 4096.
Definition MAX_READER_PAGE : Z := 8192.
Definition MAGIC : list byte := bytes_of_string "BRYLWSL2".

Abbreviation Nonce := (list byte).
Abbreviation ReaderId := (list byte).
Abbreviation text := (list byte).

Inductive ReaderFailure :=
  | RfRefused | RfMissing | RfUnreadable | RfChanged | RfProtocol | RfCancelled.

Inductive Role := ContextBroker | Supervisor.

Inductive ObservationKind := OkExecutable | OkDirectory | OkHome.

Inductive ExitStatus := Exited (code : Z) | Signaled (signal : Z).

Record DiagnosticTail := mkTail { tail_bytes : list byte; truncated : bool }.

Record WorkloadResult := mkWorkloadResult {
  exit : ExitStatus;
  observation : option text;
  stdout : DiagnosticTail;
  stderr : DiagnosticTail;
}.

Inductive FailureKind :=
  | FkProtocol | FkUnsupported | FkContext | FkNamespace | FkCredentials
  | FkWorkingDirectory | FkExec | FkObservation | FkControl | FkTimeout | FkSystem.

Inductive Frame :=
  | Initialize
  | LaunchServer (executable execution_root : text) (arguments : list text)
  | Observe (kind : ObservationKind) (path : option text) (timeout_ms : Z)
  | Stop
  | BrokerClose
  | ConfigureReaders (limit : Z)
  | ReaderOpen (id : ReaderId) (path : text)
  | ReaderRead (id : ReaderId) (sequence offset allowance : Z)
  | ReaderCancel (id : ReaderId) (sequence : Z)
  | ReaderClose (id : ReaderId) (sequence : Z)
  | ReaderOpened (id : ReaderId) (length : Z)
  | ReaderPage (id : ReaderId) (sequence offset : Z) (bytes : list byte) (eof : bool)
  | ReaderFailed (id : ReaderId) (sequence : Z) (kind : ReaderFailure)
  | ReaderClosed (id : ReaderId) (sequence : Z) (cancelled : bool)
  | Ready (role : Role)
  | WorkloadStarted
  | ShutdownPending
  | OwnedNamespaceClosed (result : WorkloadResult)
  | LinuxCompanionsClosed
  | Failure (kind : FailureKind) (errno : option Z).

Inductive IoErrorKind := Interrupted | UnexpectedEof | OtherIo.
Inductive CodecError := Io (kind : IoErrorKind) | Invalid (reason : string).

#[global] Instance Role_eq_dec : EqDecision Role.
Proof. solve_decision. Defined.
#[global] Instance IoErrorKind_eq_dec : EqDecision IoErrorKind.
Proof. solve_decision. Defined.
#[global] Instance CodecError_eq_dec : EqDecision CodecError.
Proof. solve_decision. Defined.

Definition invalid {A} (reason : string) : result CodecError A := Err (Invalid reason).

(** ** codec.rs *)

Definition SLASH : byte := x2f.
Definition starts_with_slash (t : text) : bool :=
  match t with b :: _ => bool_decide (b = SLASH) | [] => false end.

Definition validate_text (t : text) (maximum : Z) (path : bool) : result CodecError unit :=
  if (maximum <? zlen t) || bool_decide (x00 ∈ t) || (path && negb (starts_with_slash t))
  then invalid "invalid text or absolute path" else Ok tt.

(** ** encode.rs: the payload buffer, header space included *)

Definition p_reader (p : list byte) (id : ReaderId) : result CodecError (list byte) :=
  if decide (id = replicate 16 x00) then invalid "zero reader identity" else Ok (p ++ id).
Definition p_wide (p : list byte) (value : Z) : list byte := p ++ le_bytes 8 value.
Definition p_byte (p : list byte) (value : Z) : list byte := p ++ [byte_of value].
Definition p_number (p : list byte) (value : Z) : list byte := p ++ le_bytes 4 value.

Definition p_bytes (p bs : list byte) (maximum : Z) : result CodecError (list byte) :=
  if (maximum <? zlen bs)
     || (HEADER_LEN + MAX_PAYLOAD_LEN
           <? saturating_add64 (saturating_add64 (zlen p) 4) (zlen bs))
  then invalid "field or aggregate exceeds bound"
  else Ok (p_number p (zlen bs) ++ bs).

Definition p_text (p : list byte) (t : text) (maximum : Z) (path : bool)
  : result CodecError (list byte) :=
  _ ← validate_text t maximum path; p_bytes p t maximum.

Definition bool_byte (b : bool) : Z := if b then 1 else 0.

Definition p_tail (p : list byte) (t : DiagnosticTail) : result CodecError (list byte) :=
  p_bytes (p_byte p (bool_byte (truncated t))) (tail_bytes t) MAX_DIAGNOSTIC_LEN.

Fixpoint p_texts (p : list byte) (ts : list text) : result CodecError (list byte) :=
  match ts with
  | [] => Ok p
  | t :: ts => p' ← p_text p t 8192 false; p_texts p' ts
  end.

Definition observation_byte (k : ObservationKind) : Z :=
  match k with OkExecutable => 1 | OkDirectory => 2 | OkHome => 3 end.
Definition reader_failure_byte (k : ReaderFailure) : Z :=
  match k with
  | RfRefused => 1 | RfMissing => 2 | RfUnreadable => 3
  | RfChanged => 4 | RfProtocol => 5 | RfCancelled => 6
  end.
Definition role_byte (r : Role) : Z := match r with ContextBroker => 1 | Supervisor => 2 end.
Definition failure_byte (k : FailureKind) : Z :=
  match k with
  | FkProtocol => 1 | FkUnsupported => 2 | FkContext => 3 | FkNamespace => 4
  | FkCredentials => 5 | FkWorkingDirectory => 6 | FkExec => 7 | FkObservation => 8
  | FkControl => 9 | FkTimeout => 10 | FkSystem => 11
  end.

Definition is_none {A} (o : option A) : bool := match o with None => true | Some _ => false end.

(** The [match frame] of [encode_frame]: the tag and the extended buffer. *)
Definition encode_body (f : Frame) (p : list byte) : result CodecError (Z * list byte) :=
  match f with
  | Initialize => Ok (1, p)
  | LaunchServer executable execution_root arguments =>
      p ← p_text p executable MAX_PATH_LEN true;
      p ← p_text p execution_root MAX_PATH_LEN true;
      if 64 <? zlen arguments then invalid "too many arguments"
      else p ← p_texts (p_number p (zlen arguments)) arguments; Ok (2, p)
  | Observe kind path timeout_ms =>
      if (timeout_ms =? 0) || (30000 <? timeout_ms) then invalid "invalid observation deadline"
      else
        let p := p_number (p_byte p (observation_byte kind)) timeout_ms in
        p ← match kind, path with
            | OkHome, None => Ok p
            | OkExecutable, Some path | OkDirectory, Some path => p_text p path MAX_PATH_LEN true
            | _, _ => invalid "invalid observation path"
            end;
        Ok (3, p)
  | Stop => Ok (4, p)
  | BrokerClose => Ok (5, p)
  | ConfigureReaders limit =>
      if limit =? 0 then invalid "zero reader allowance" else Ok (6, p_number p limit)
  | ReaderOpen id path =>
      p ← p_reader p id;
      p ← p_text p path MAX_PATH_LEN true;
      if negb (starts_with_slash path) then invalid "reader path is not absolute" else Ok (7, p)
  | ReaderRead id sequence offset allowance =>
      p ← p_reader p id;
      if (sequence =? 0) || (allowance =? 0) || (MAX_READER_PAGE <? allowance)
         || is_none (checked_add64 offset allowance)
      then invalid "invalid reader request"
      else Ok (8, p_number (p_wide (p_wide p sequence) offset) allowance)
  | ReaderCancel id sequence | ReaderClose id sequence =>
      p ← p_reader p id;
      if sequence =? 0 then invalid "zero reader sequence"
      else Ok (match f with ReaderCancel _ _ => 9 | _ => 10 end, p_wide p sequence)
  | ReaderOpened id length =>
      p ← p_reader p id;
      if length =? 0 then invalid "empty reader source" else Ok (107, p_wide p length)
  | ReaderPage id sequence offset bytes eof =>
      p ← p_reader p id;
      if (sequence =? 0) || (MAX_READER_PAGE <? zlen bytes)
         || is_none (checked_add64 offset (zlen bytes))
      then invalid "invalid reader page"
      else
        p ← p_bytes (p_wide (p_wide p sequence) offset) bytes MAX_READER_PAGE;
        Ok (108, p_byte p (bool_byte eof))
  | ReaderFailed id sequence kind =>
      p ← p_reader p id; Ok (109, p_byte (p_wide p sequence) (reader_failure_byte kind))
  | ReaderClosed id sequence cancelled =>
      p ← p_reader p id; Ok (110, p_byte (p_wide p sequence) (bool_byte cancelled))
  | Ready role => Ok (101, p_byte p (role_byte role))
  | WorkloadStarted => Ok (102, p)
  | ShutdownPending => Ok (103, p)
  | OwnedNamespaceClosed result =>
      p ← match exit result with
          | Exited code => if (0 <=? code) && (code <=? 255)
                           then Ok (p_number (p_byte p 1) code) else invalid "invalid exit status"
          | Signaled signal => if (1 <=? signal) && (signal <=? 64)
                               then Ok (p_number (p_byte p 2) signal)
                               else invalid "invalid exit status"
          end;
      let p := p_byte p (bool_byte (negb (is_none (observation result)))) in
      p ← match observation result with
          | Some path => p_text p path MAX_PATH_LEN true
          | None => Ok p
          end;
      p ← p_tail p (stdout result);
      p ← p_tail p (stderr result);
      Ok (104, p)
  | LinuxCompanionsClosed => Ok (105, p)
  | Failure kind errno =>
      let p := p_byte (p_byte p (failure_byte kind)) (bool_byte (negb (is_none errno))) in
      match errno with
      | Some errno => if (errno <=? 0) || (4095 <? errno) then invalid "invalid errno"
                      else Ok (106, p_number p errno)
      | None => Ok (106, p)
      end
  end.

(** [buffer[at..at + len].copy_from_slice(bs)] *)
Definition store (p : list byte) (at_ : nat) (bs : list byte) : list byte :=
  take at_ p ++ bs ++ drop (at_ + length bs) p.

Definition oversized_page (f : Frame) : bool :=
  match f with ReaderPage _ _ _ bytes _ => MAX_READER_PAGE <? zlen bytes | _ => false end.

Definition encode_frame (nonce : Nonce) (f : Frame) : result CodecError (list byte) :=
  if oversized_page f then invalid "invalid reader page"
  else
    '(tag, p) ← encode_body f (replicate (Z.to_nat HEADER_LEN) x00);
    let length := zlen p - HEADER_LEN in
    if MAX_PAYLOAD_LEN <? length then invalid "frame exceeds bound"
    else
      let p := store p 0 MAGIC in
      let p := store p 8 (le_bytes 2 PROTOCOL_VERSION) in
      let p := store p 10 (le_bytes 2 tag) in
      let p := store p 12 (le_bytes 4 length) in
      Ok (store p 16 nonce).

(** ** decode.rs *)

Record Cursor := mkCursor { c_bytes : list byte; c_offset : Z }.

Definition parser (A : Type) : Type := Cursor -> result CodecError (A * Cursor).

#[global] Instance parser_ret : MRet parser := fun A a c => Ok (a, c).
#[global] Instance parser_bind : MBind parser := fun A B f m c =>
  match m c with Ok (a, c') => f a c' | Err e => Err e end.

Definition fail {A} (reason : string) : parser A := fun _ => invalid reason.
(** [if b { return invalid(reason) }] *)
Definition refuse_if (b : bool) (reason : string) : parser unit :=
  if b then fail reason else mret tt.

Definition lift {A} (r : result CodecError A) : parser A := fun c =>
  match r with Ok a => Ok (a, c) | Err e => Err e end.
Definition payload_offset : parser Z := fun c => Ok (c_offset c, c).

Definition c_take (count : Z) : parser (list byte) := fun c =>
  match checked_add64 (c_offset c) count with
  | None => invalid "overflow"
  | Some e =>
      match slice_get (c_bytes c) (c_offset c) e with
      | None => invalid "truncated payload"
      | Some bs => Ok (bs, mkCursor (c_bytes c) e)
      end
  end.

Definition c_reader : parser ReaderId :=
  id ← c_take 16;
  _ ← refuse_if (bool_decide (id = replicate 16 x00)) "zero reader identity";
  mret id.
Definition c_wide : parser Z := bs ← c_take 8; mret (le_value bs).
(** [self.take(1)?[0]] *)
Definition c_byte : parser Z := bs ← c_take 1; mret (le_value bs).
Definition c_flag : parser bool :=
  b ← c_byte;
  if b =? 0 then mret false else if b =? 1 then mret true else fail "invalid boolean".
Definition c_number : parser Z := bs ← c_take 4; mret (le_value bs).
Definition c_lbytes (maximum : Z) : parser (list byte) :=
  count ← c_number;
  _ ← refuse_if (maximum <? count) "field exceeds bound";
  c_take count.
Definition c_text (maximum : Z) (path : bool) : parser text :=
  bs ← c_lbytes maximum;
  _ ← refuse_if (negb (utf8_valid bs)) "non UTF-8 text";
  _ ← lift (validate_text bs maximum path);
  mret bs.
Definition c_tail : parser DiagnosticTail :=
  t ← c_flag; bs ← c_lbytes MAX_DIAGNOSTIC_LEN; mret (mkTail bs t).

(** [for _ in 0..count { arguments.push(payload.text(8192, false)?) }] *)
Fixpoint c_texts (count : nat) : parser (list text) :=
  match count with
  | O => mret []
  | S n => t ← c_text 8192 false; ts ← c_texts n; mret (t :: ts)
  end.

(** [value as i32] for a [u32] *)
Definition as_i32 (z : Z) : Z := if z <? 2147483648 then z else z - 4294967296.

Definition c_observation_kind : parser ObservationKind :=
  b ← c_byte;
  if b =? 1 then mret OkExecutable else if b =? 2 then mret OkDirectory
  else if b =? 3 then mret OkHome else fail "unknown observation".
Definition c_reader_failure : parser ReaderFailure :=
  b ← c_byte;
  if b =? 1 then mret RfRefused else if b =? 2 then mret RfMissing
  else if b =? 3 then mret RfUnreadable else if b =? 4 then mret RfChanged
  else if b =? 5 then mret RfProtocol else if b =? 6 then mret RfCancelled
  else fail "invalid reader failure".
Definition c_role : parser Role :=
  b ← c_byte;
  if b =? 1 then mret ContextBroker else if b =? 2 then mret Supervisor else fail "unknown role".
Definition c_failure_kind : parser FailureKind :=
  b ← c_byte;
  if b =? 1 then mret FkProtocol else if b =? 2 then mret FkUnsupported
  else if b =? 3 then mret FkContext else if b =? 4 then mret FkNamespace
  else if b =? 5 then mret FkCredentials else if b =? 6 then mret FkWorkingDirectory
  else if b =? 7 then mret FkExec else if b =? 8 then mret FkObservation
  else if b =? 9 then mret FkControl else if b =? 10 then mret FkTimeout
  else if b =? 11 then mret FkSystem else fail "unknown failure".

Definition c_exit : parser ExitStatus :=
  kind ← c_byte; number ← c_number;
  let code := as_i32 number in
  if (kind =? 1) && (0 <=? code) && (code <=? 255) then mret (Exited code)
  else if (kind =? 2) && (1 <=? code) && (code <=? 64) then mret (Signaled code)
  else fail "invalid exit status".

(** The length a reader frame must declare. *)
Definition reader_length (tag length : Z) : bool :=
  if tag =? 6 then length =? 4
  else if tag =? 7 then (21 <=? length) && (length <=? 20 + MAX_PATH_LEN)
  else if tag =? 8 then length =? 36
  else if (tag =? 9) || (tag =? 10) || (tag =? 107) then length =? 24
  else if tag =? 108 then (37 <=? length) && (length <=? 37 + MAX_READER_PAGE)
  else if (tag =? 109) || (tag =? 110) then length =? 25
  else true.

(** [bytes[a..b]] on a buffer known to be long enough. *)
Definition sub (bs : list byte) (a b : nat) : list byte := take (b - a) (drop a bs).

Definition header (bs : list byte) (expected : option Nonce) : result CodecError (Nonce * Z * Z) :=
  if zlen bs <? HEADER_LEN then invalid "truncated header"
  else if negb (bool_decide (sub bs 0 8 = MAGIC))
          || negb (le_value (sub bs 8 10) =? PROTOCOL_VERSION)
  then invalid "invalid magic or version"
  else
    let tag := le_value (sub bs 10 12) in
    if negb (((1 <=? tag) && (tag <=? 10)) || ((101 <=? tag) && (tag <=? 110)))
    then invalid "unknown frame tag"
    else
      let length := le_value (sub bs 12 16) in
      if MAX_PAYLOAD_LEN <? length then invalid "frame exceeds bound"
      else if negb (reader_length tag length) then invalid "reader frame exceeds bound"
      else
        let nonce := sub bs 16 48 in
        match expected with
        | Some e => if decide (e = nonce) then Ok (nonce, length, tag) else invalid "nonce mismatch"
        | None => Ok (nonce, length, tag)
        end.

(** The [match tag] of [decode_frame]. *)
Definition decode_body (tag : Z) : parser Frame :=
  if tag =? 1 then mret Initialize
  else if tag =? 2 then
    executable ← c_text MAX_PATH_LEN true;
    execution_root ← c_text MAX_PATH_LEN true;
    count ← c_number;
    _ ← refuse_if (64 <? count) "too many arguments";
    arguments ← c_texts (Z.to_nat count);
    mret (LaunchServer executable execution_root arguments)
  else if tag =? 3 then
    kind ← c_observation_kind;
    timeout_ms ← c_number;
    _ ← refuse_if ((timeout_ms =? 0) || (30000 <? timeout_ms)) "invalid observation deadline";
    path ← match kind with
           | OkHome => mret None
           | _ => t ← c_text MAX_PATH_LEN true; mret (Some t)
           end;
    mret (Observe kind path timeout_ms)
  else if tag =? 4 then mret Stop
  else if tag =? 5 then mret BrokerClose
  else if tag =? 6 then
    limit ← c_number;
    _ ← refuse_if (limit =? 0) "zero reader allowance";
    mret (ConfigureReaders limit)
  else if tag =? 7 then
    id ← c_reader;
    path ← c_text MAX_PATH_LEN true;
    _ ← refuse_if (negb (starts_with_slash path)) "reader path is not absolute";
    mret (ReaderOpen id path)
  else if tag =? 8 then
    id ← c_reader;
    sequence ← c_wide;
    offset ← c_wide;
    allowance ← c_number;
    _ ← refuse_if ((sequence =? 0) || (allowance =? 0) || (MAX_READER_PAGE <? allowance)
                   || is_none (checked_add64 offset allowance)) "invalid reader request";
    mret (ReaderRead id sequence offset allowance)
  else if (tag =? 9) || (tag =? 10) then
    id ← c_reader;
    sequence ← c_wide;
    _ ← refuse_if (sequence =? 0) "zero reader sequence";
    mret (if tag =? 9 then ReaderCancel id sequence else ReaderClose id sequence)
  else if tag =? 107 then
    id ← c_reader;
    length ← c_wide;
    _ ← refuse_if (length =? 0) "empty reader source";
    mret (ReaderOpened id length)
  else if tag =? 108 then
    id ← c_reader;
    sequence ← c_wide;
    offset ← c_wide;
    bytes ← c_lbytes MAX_READER_PAGE;
    eof ← c_flag;
    _ ← refuse_if ((sequence =? 0) || is_none (checked_add64 offset (zlen bytes)))
          "invalid reader page";
    mret (ReaderPage id sequence offset bytes eof)
  else if tag =? 109 then
    id ← c_reader;
    sequence ← c_wide;
    kind ← c_reader_failure;
    mret (ReaderFailed id sequence kind)
  else if tag =? 110 then
    id ← c_reader; sequence ← c_wide; cancelled ← c_flag;
    mret (ReaderClosed id sequence cancelled)
  else if tag =? 101 then role ← c_role; mret (Ready role)
  else if tag =? 102 then mret WorkloadStarted
  else if tag =? 103 then mret ShutdownPending
  else if tag =? 104 then
    exit ← c_exit;
    observed ← c_flag;
    observation ← (if (observed : bool) then t ← c_text MAX_PATH_LEN true; mret (Some t) else mret None);
    stdout ← c_tail;
    stderr ← c_tail;
    mret (OwnedNamespaceClosed (mkWorkloadResult exit observation stdout stderr))
  else if tag =? 105 then mret LinuxCompanionsClosed
  else if tag =? 106 then
    kind ← c_failure_kind;
    present ← c_flag;
    errno ← (if (present : bool) then
               number ← c_number;
               _ ← refuse_if ((number =? 0) || (4095 <? number)) "invalid errno";
               mret (Some (as_i32 number))
             else mret None);
    mret (Failure kind errno)
  else fail "unknown frame".

Definition decode_frame (expected_nonce : Nonce) (bs : list byte) : result CodecError Frame :=
  '(_, length, tag) ← header bs (Some expected_nonce);
  if negb (zlen bs =? HEADER_LEN + length) then invalid "truncated or trailing frame"
  else
    '(frame, payload) ← decode_body tag (mkCursor (drop (Z.to_nat HEADER_LEN) bs) 0);
    if negb (c_offset payload =? length) then invalid "trailing payload" else Ok frame.

(** [decode_owned]: a reader page is decoded in place, its bytes moved to the
    front of the frame's own buffer ([copy_within] then [truncate]). *)
Definition decode_owned_page : parser (ReaderId * Z * Z * Z * Z * bool) :=
  id ← c_reader;
  sequence ← c_wide;
  offset ← c_wide;
  count ← c_number;
  _ ← refuse_if ((sequence =? 0) || (MAX_READER_PAGE <? count)
                 || is_none (checked_add64 offset count)) "invalid reader page";
  position ← payload_offset;
  let start := HEADER_LEN + position in
  _ ← c_take count;
  eof ← c_flag;
  mret (id, sequence, offset, count, start, eof).

Definition decode_owned (expected_nonce : Nonce) (bs : list byte) : result CodecError Frame :=
  '(_, length, tag) ← header bs (Some expected_nonce);
  if negb (tag =? 108) then decode_frame expected_nonce bs
  else if negb (zlen bs =? HEADER_LEN + length) then invalid "truncated or trailing frame"
  else
    '(page, payload) ← decode_owned_page (mkCursor (drop (Z.to_nat HEADER_LEN) bs) 0);
    if negb (c_offset payload =? length) then invalid "trailing payload"
    else
      let '(id, sequence, offset, count, start, eof) := page in
      let moved := store bs 0 (sub bs (Z.to_nat start) (Z.to_nat (start + count))) in
      Ok (ReaderPage id sequence offset (take (Z.to_nat count) moved) eof).
