(* ===== verification/WslFrameProofs.v ===== *)
(** * Correctness of the WSL supervisor frame codec

    A declarative reading of a frame ([frame_tag], [frame_body], [frame_valid])
    against which both directions of the codec are proved, so that
    [encode_frame] and [decode_frame] are inverse to each other. *)

From stdpp Require Import prelude strings.
From Stdlib Require Import ZArith Lia.
From S2P Require Import Prelude Bytes WslFrame.

(** ** Declarative frames *)

Definition lp (bs : list byte) : list byte := le_bytes 4 (zlen bs) ++ bs.
Definition flag_bytes (b : bool) : list byte := [byte_of (bool_byte b)].
Definition tail_body (t : DiagnosticTail) : list byte := flag_bytes (truncated t) ++ lp (tail_bytes t).
Definition opt_body {A} (enc : A -> list byte) (o : option A) : list byte :=
  match o with Some a => enc a | None => [] end.
Definition exit_body (e : ExitStatus) : list byte :=
  match e with
  | Exited code => [byte_of 1] ++ le_bytes 4 code
  | Signaled signal => [byte_of 2] ++ le_bytes 4 signal
  end.

Definition frame_tag (f : Frame) : Z :=
  match f with
  | Initialize => 1 | LaunchServer _ _ _ => 2 | Observe _ _ _ => 3 | Stop => 4
  | BrokerClose => 5 | ConfigureReaders _ => 6 | ReaderOpen _ _ => 7 | ReaderRead _ _ _ _ => 8
  | ReaderCancel _ _ => 9 | ReaderClose _ _ => 10 | ReaderOpened _ _ => 107
  | ReaderPage _ _ _ _ _ => 108 | ReaderFailed _ _ _ => 109 | ReaderClosed _ _ _ => 110
  | Ready _ => 101 | WorkloadStarted => 102 | ShutdownPending => 103
  | OwnedNamespaceClosed _ => 104 | LinuxCompanionsClosed => 105 | Failure _ _ => 106
  end.

Definition frame_body (f : Frame) : list byte :=
  match f with
  | LaunchServer executable execution_root arguments =>
      lp executable ++ lp execution_root ++ le_bytes 4 (zlen arguments)
        ++ concat (lp <$> arguments)
  | Observe kind path timeout_ms =>
      [byte_of (observation_byte kind)] ++ le_bytes 4 timeout_ms ++ opt_body lp path
  | ConfigureReaders limit => le_bytes 4 limit
  | ReaderOpen id path => id ++ lp path
  | ReaderRead id sequence offset allowance =>
      id ++ le_bytes 8 sequence ++ le_bytes 8 offset ++ le_bytes 4 allowance
  | ReaderCancel id sequence | ReaderClose id sequence => id ++ le_bytes 8 sequence
  | ReaderOpened id length => id ++ le_bytes 8 length
  | ReaderPage id sequence offset bytes eof =>
      id ++ le_bytes 8 sequence ++ le_bytes 8 offset ++ lp bytes ++ flag_bytes eof
  | ReaderFailed id sequence kind =>
      id ++ le_bytes 8 sequence ++ [byte_of (reader_failure_byte kind)]
  | ReaderClosed id sequence cancelled => id ++ le_bytes 8 sequence ++ flag_bytes cancelled
  | Ready role => [byte_of (role_byte role)]
  | OwnedNamespaceClosed r =>
      exit_body (exit r) ++ flag_bytes (negb (is_none (observation r)))
        ++ opt_body lp (observation r) ++ tail_body (stdout r) ++ tail_body (stderr r)
  | Failure kind errno =>
      [byte_of (failure_byte kind)] ++ flag_bytes (negb (is_none errno))
        ++ opt_body (le_bytes 4) errno
  | _ => []
  end.

#[global] Arguments lp : simpl never.
#[global] Arguments flag_bytes : simpl never.

(** What the Rust types guarantee. *)
Definition id_typed (id : ReaderId) : Prop := length id = 16%nat.
Definition text_typed (t : text) : Prop := utf8_valid t = true.
Definition is_i32 (z : Z) : Prop := -2147483648 <= z <= 2147483647.

Definition frame_typed (f : Frame) : Prop :=
  match f with
  | LaunchServer executable execution_root arguments =>
      text_typed executable /\ text_typed execution_root /\ Forall text_typed arguments
  | Observe kind path timeout_ms => is_u32 timeout_ms /\ (forall p, path = Some p -> text_typed p)
  | ConfigureReaders limit => is_u32 limit
  | ReaderOpen id path => id_typed id /\ text_typed path
  | ReaderRead id sequence offset allowance =>
      id_typed id /\ is_u64 sequence /\ is_u64 offset /\ is_u32 allowance
  | ReaderCancel id sequence | ReaderClose id sequence => id_typed id /\ is_u64 sequence
  | ReaderOpened id length => id_typed id /\ is_u64 length
  | ReaderPage id sequence offset bytes eof => id_typed id /\ is_u64 sequence /\ is_u64 offset
  | ReaderFailed id sequence kind => id_typed id /\ is_u64 sequence
  | ReaderClosed id sequence cancelled => id_typed id /\ is_u64 sequence
  | OwnedNamespaceClosed r => forall p, observation r = Some p -> text_typed p
  | Failure kind errno => forall e, errno = Some e -> is_i32 e
  | _ => True
  end.

(** The guards both sides check. *)
Definition text_valid (t : text) (maximum : Z) (path : bool) : Prop :=
  validate_text t maximum path = Ok tt.
Definition id_valid (id : ReaderId) : Prop := id <> replicate 16 x00.
Definition exit_valid (e : ExitStatus) : Prop :=
  match e with Exited code => 0 <= code <= 255 | Signaled signal => 1 <= signal <= 64 end.
Definition tail_valid (t : DiagnosticTail) : Prop := zlen (tail_bytes t) <= MAX_DIAGNOSTIC_LEN.

Definition frame_valid (f : Frame) : Prop :=
  match f with
  | LaunchServer executable execution_root arguments =>
      text_valid executable MAX_PATH_LEN true /\ text_valid execution_root MAX_PATH_LEN true /\
      zlen arguments <= 64 /\ Forall (fun t => text_valid t 8192 false) arguments
  | Observe kind path timeout_ms =>
      (timeout_ms <> 0 /\ timeout_ms <= 30000) /\
      match kind, path with
      | OkHome, None => True
      | OkExecutable, Some p | OkDirectory, Some p => text_valid p MAX_PATH_LEN true
      | _, _ => False
      end
  | ConfigureReaders limit => limit <> 0
  | ReaderOpen id path => id_valid id /\ text_valid path MAX_PATH_LEN true
  | ReaderRead id sequence offset allowance =>
      id_valid id /\ sequence <> 0 /\ allowance <> 0 /\ allowance <= MAX_READER_PAGE /\
      offset + allowance <= U64_MAX
  | ReaderCancel id sequence | ReaderClose id sequence => id_valid id /\ sequence <> 0
  | ReaderOpened id length => id_valid id /\ length <> 0
  | ReaderPage id sequence offset bytes eof =>
      id_valid id /\ sequence <> 0 /\ zlen bytes <= MAX_READER_PAGE /\
      offset + zlen bytes <= U64_MAX
  | ReaderFailed id _ _ | ReaderClosed id _ _ => id_valid id
  | OwnedNamespaceClosed r =>
      exit_valid (exit r) /\ (forall p, observation r = Some p -> text_valid p MAX_PATH_LEN true) /\
      tail_valid (stdout r) /\ tail_valid (stderr r)
  | Failure kind errno => forall e, errno = Some e -> 1 <= e <= 4095
  | _ => True
  end.

(** The whole frame on the wire. *)
Definition frame_header (nonce : Nonce) (tag length : Z) : list byte :=
  MAGIC ++ le_bytes 2 PROTOCOL_VERSION ++ le_bytes 2 tag ++ le_bytes 4 length ++ nonce.
Definition frame_wire (nonce : Nonce) (f : Frame) : list byte :=
  frame_header nonce (frame_tag f) (zlen (frame_body f)) ++ frame_body f.

(** ** The cursor as a sequence of consumed bytes *)

Definition remaining (c : Cursor) : list byte := drop (Z.to_nat (c_offset c)) (c_bytes c).
Definition cursor_ok (c : Cursor) : Prop :=
  0 <= c_offset c <= zlen (c_bytes c) /\ zlen (c_bytes c) <= U32_MAX.

(** Cursor [c] moves to [c'] by consuming exactly [x]. *)
Definition step (c : Cursor) (x : list byte) (c' : Cursor) : Prop :=
  cursor_ok c /\ remaining c = x ++ remaining c' /\
  c' = mkCursor (c_bytes c) (c_offset c + zlen x).

Lemma step_ok c x c' : step c x c' -> cursor_ok c'.
Proof.
  intros ([[? ?] ?] & Hr & ->). split; [|done]. cbn.
  apply (f_equal length) in Hr. unfold remaining in Hr.
  rewrite length_app, !length_drop in Hr. cbn in Hr. lia.
Qed.

Lemma step_start c x r : cursor_ok c -> remaining c = x ++ r ->
  step c x (mkCursor (c_bytes c) (c_offset c + zlen x)).
Proof.
  intros Hok Hr. split_and!; [done| |done]. unfold remaining in *. cbn.
  rewrite Hr. f_equal. destruct Hok as [[? ?] ?].
  rewrite Z2Nat.inj_add, Nat2Z.id by lia. rewrite <- drop_drop, Hr.
  by rewrite drop_app_length.
Qed.

Lemma step_app c x y c' : step c (x ++ y) c' <-> exists c1, step c x c1 /\ step c1 y c'.
Proof.
  split.
  - intros (Hok & Hr & ->). rewrite <- app_assoc in Hr.
    pose proof (step_start _ _ _ Hok Hr) as Hs1. eexists; split; [exact Hs1|].
    pose proof (step_ok _ _ _ Hs1) as Hok1. destruct Hs1 as (_ & Hr1 & _).
    rewrite Hr in Hr1. apply app_inv_head in Hr1.
    split_and!; [done| |].
    + by rewrite <- Hr1.
    + cbn. f_equal. rewrite length_app. lia.
  - intros (c1 & (Hok & Hr & ->) & (_ & Hr2 & ->)). split_and!; [done| |].
    + rewrite Hr, Hr2, app_assoc. done.
    + cbn. f_equal. rewrite length_app. lia.
Qed.

Lemma step_cons c b y c' : step c (b :: y) c' <-> exists c1, step c [b] c1 /\ step c1 y c'.
Proof. apply (step_app c [b]). Qed.

Lemma step_nil c : cursor_ok c -> step c [] c.
Proof.
  intros. split_and!; [done..|]. destruct c; cbn. f_equal. lia.
Qed.
Lemma step_nil_inv c c' : step c [] c' -> c' = c.
Proof. intros (_ & _ & ->). destruct c; cbn. f_equal. lia. Qed.

(** ** Primitive readers

    Each reader succeeds exactly on the bytes its writer produces. *)

Lemma parser_bind_Ok {A B} (m : parser A) (k : A -> parser B) c b c' :
  (m ≫= k) c = Ok (b, c') <-> exists a c1, m c = Ok (a, c1) /\ k a c1 = Ok (b, c').
Proof. unfold mbind, parser_bind. destruct (m c) as [[a c1]|e]; naive_solver. Qed.

Lemma parser_bind_intro {A B} (m : parser A) (k : A -> parser B) c a c1 r :
  m c = Ok (a, c1) -> k a c1 = r -> (m ≫= k) c = r.
Proof. unfold mbind, parser_bind. by intros -> <-. Qed.

Lemma parser_ret_Ok {A} (a : A) c b c' : (mret a : parser A) c = Ok (b, c') <-> b = a /\ c' = c.
Proof. unfold mret, parser_ret. naive_solver. Qed.

Lemma refuse_if_Ok b reason c u c' : refuse_if b reason c = Ok (u, c') <-> b = false /\ c' = c.
Proof. unfold refuse_if, fail, invalid, mret, parser_ret. destruct b, u; naive_solver. Qed.

Lemma refuse_if_pass {B} b reason (k : unit -> parser B) c :
  b = false -> (refuse_if b reason ≫= k) c = k tt c.
Proof. by intros ->. Qed.

Lemma lift_Ok {A} (r : result CodecError A) c a c' : lift r c = Ok (a, c') <-> r = Ok a /\ c' = c.
Proof. unfold lift. destruct r; naive_solver. Qed.

Lemma c_take_Ok n c x c' :
  cursor_ok c -> 0 <= n <= U32_MAX ->
  c_take n c = Ok (x, c') <-> step c x c' /\ zlen x = n.
Proof.
  intros Hok Hn. pose proof Hok as [[? ?] ?]. unfold c_take.
  destruct (checked_add64 (c_offset c) n) as [e|] eqn:Ea;
    [apply checked_add64_Some in Ea as [-> _]|apply checked_add64_None in Ea; lia].
  split.
  - destruct (slice_get _ _ _) as [bs|] eqn:Es; [|done]. intros [= <- <-].
    pose proof (slice_get_length _ _ _ _ Es) as Hl.
    assert (zlen bs = n) as Hn' by lia. split; [|done]. rewrite <- Hn'.
    apply (step_start c bs (drop (length bs) (remaining c))); [done|].
    unfold slice_get in Es. case_match; [|done]. fold (remaining c) in Es.
    replace (Z.to_nat (c_offset c + n - c_offset c)) with (length bs) in Es by lia.
    injection Es as Es. rewrite <- Es at 1. by rewrite take_drop.
  - intros [(_ & Hr & ->) Hx].
    assert (c_offset c + n <= zlen (c_bytes c)).
    { apply (f_equal length) in Hr. unfold remaining in Hr. rewrite length_app, !length_drop in Hr.
      cbn in Hr. lia. }
    rewrite slice_get_Some by lia. fold (remaining c). rewrite Hr, Hx.
    replace (Z.to_nat (c_offset c + n - c_offset c)) with (length x) by lia.
    by rewrite take_app_length.
Qed.

Lemma c_uint_Ok n c z c' : cursor_ok c -> (n <= 8)%nat ->
  (bs ← c_take (Z.of_nat n); mret (le_value bs) : parser Z) c = Ok (z, c') <->
  0 <= z < 256 ^ Z.of_nat n /\ step c (le_bytes n z) c'.
Proof.
  intros Hok Hn. rewrite parser_bind_Ok. setoid_rewrite parser_ret_Ok. split.
  - intros (x & c1 & Hx & -> & ->). apply c_take_Ok in Hx as [Hs Hx]; [|done|lia].
    pose proof (le_value_range x). assert (length x = n) as <- by lia.
    by rewrite le_bytes_value.
  - intros [Hz Hs]. exists (le_bytes n z), c'. rewrite c_take_Ok by (done || lia).
    by rewrite length_le_bytes, le_value_bytes.
Qed.

Lemma c_wide_Ok c z c' : cursor_ok c ->
  c_wide c = Ok (z, c') <-> is_u64 z /\ step c (le_bytes 8 z) c'.
Proof.
  intros. change c_wide with (bs ← c_take (Z.of_nat 8); mret (le_value bs) : parser Z).
  rewrite c_uint_Ok by (done || lia). change (256 ^ Z.of_nat 8) with (U64_MAX + 1).
  unfold is_u64. naive_solver lia.
Qed.
Lemma c_number_Ok c z c' : cursor_ok c ->
  c_number c = Ok (z, c') <-> is_u32 z /\ step c (le_bytes 4 z) c'.
Proof.
  intros. change c_number with (bs ← c_take (Z.of_nat 4); mret (le_value bs) : parser Z).
  rewrite c_uint_Ok by (done || lia). change (256 ^ Z.of_nat 4) with (U32_MAX + 1).
  unfold is_u32. naive_solver lia.
Qed.
Lemma c_byte_Ok c z c' : cursor_ok c ->
  c_byte c = Ok (z, c') <-> 0 <= z < 256 /\ step c [byte_of z] c'.
Proof.
  intros. change c_byte with (bs ← c_take (Z.of_nat 1); mret (le_value bs) : parser Z).
  rewrite c_uint_Ok by (done || lia). done.
Qed.

(** Take one successful bind of [H] apart, or read a primitive step. *)
Ltac parse_ok := first [ assumption | eapply step_ok; eassumption ].
Ltac parse_inv H :=
  repeat first
  [ apply parser_bind_Ok in H as (? & ? & ? & H)
  | apply parser_ret_Ok in H as [-> ->]
  | apply refuse_if_Ok in H as [? ->]
  | apply lift_Ok in H as [? ->] ].

Lemma c_flag_Ok c b c' : cursor_ok c -> c_flag c = Ok (b, c') <-> step c (flag_bytes b) c'.
Proof.
  intros Hok. unfold c_flag. rewrite parser_bind_Ok. split.
  - intros (z & c1 & Hz & H). apply c_byte_Ok in Hz as [_ Hs]; [|done].
    repeat case_match; bool_facts; subst; [| |done];
      apply parser_ret_Ok in H as [-> ->]; exact Hs.
  - intros Hs. exists (bool_byte b), c'. rewrite c_byte_Ok by done.
    split; [split; [destruct b; cbn; lia|done]|]. by destruct b.
Qed.

Lemma c_reader_Ok c id c' : cursor_ok c ->
  c_reader c = Ok (id, c') <-> id_typed id /\ id_valid id /\ step c id c'.
Proof.
  intros Hok. unfold c_reader. split.
  - intros H. apply parser_bind_Ok in H as (x & c1 & Hx & H).
    apply parser_bind_Ok in H as (u & c2 & Hu & H).
    apply refuse_if_Ok in Hu as [Hu ->]. apply parser_ret_Ok in H as [-> ->].
    apply c_take_Ok in Hx as [Hs Hx]; [|done|lia]. bool_facts.
    unfold id_typed. split_and!; [lia|done|done].
  - intros (Ht & Hv & Hs). eapply parser_bind_intro; [apply c_take_Ok; [done|lia|]; split; [done|]|].
    { unfold id_typed in Ht. lia. }
    rewrite bool_decide_eq_false_2 by done. done.
Qed.

Lemma c_lbytes_Ok maximum c bs c' : cursor_ok c -> maximum <= U32_MAX ->
  c_lbytes maximum c = Ok (bs, c') <-> zlen bs <= maximum /\ step c (lp bs) c'.
Proof.
  intros Hok Hm. unfold c_lbytes. split.
  - intros H. apply parser_bind_Ok in H as (n & c1 & Hn & H).
    apply parser_bind_Ok in H as (u & c2 & Hu & H). apply refuse_if_Ok in Hu as [Hu ->].
    apply c_number_Ok in Hn as [[Hn0 Hn1] Hs]; [|done]. bool_facts.
    apply c_take_Ok in H as [Hs2 <-]; [|by eapply step_ok|lia].
    split; [lia|]. apply step_app. eauto.
  - intros [Hb Hs]. apply step_app in Hs as (c1 & Hs1 & Hs2).
    eapply parser_bind_intro; [apply c_number_Ok; [done|]; split; [|exact Hs1]|].
    { unfold is_u32. lia. }
    rewrite refuse_if_pass by (apply Z.ltb_ge; lia).
    apply c_take_Ok; [by eapply step_ok|lia|done].
Qed.

Lemma c_text_Ok maximum path c t c' : cursor_ok c -> maximum <= U32_MAX ->
  c_text maximum path c = Ok (t, c') <->
  text_typed t /\ text_valid t maximum path /\ step c (lp t) c'.
Proof.
  intros Hok Hm. unfold c_text. split.
  - intros H. apply parser_bind_Ok in H as (bs & c1 & Hb & H).
    apply parser_bind_Ok in H as (u & c2 & Hu & H). apply refuse_if_Ok in Hu as [Hu ->].
    apply parser_bind_Ok in H as (u2 & c3 & Hv & H). apply lift_Ok in Hv as [Hv ->].
    apply parser_ret_Ok in H as [-> ->]. destruct u2. bool_facts.
    by apply c_lbytes_Ok in Hb as [_ Hs].
  - intros (Ht & Hv & Hs).
    eapply parser_bind_intro; [apply c_lbytes_Ok; [done..|]; split; [|exact Hs]|].
    { unfold text_valid, validate_text in Hv. case_match eqn:E; [done|]. bool_facts. lia. }
    rewrite refuse_if_pass by (by rewrite Ht).
    eapply parser_bind_intro; [apply lift_Ok; split; [exact Hv|reflexivity]|]. done.
Qed.

Lemma c_tail_Ok c t c' : cursor_ok c ->
  c_tail c = Ok (t, c') <-> tail_valid t /\ step c (tail_body t) c'.
Proof.
  intros Hok. unfold c_tail. split.
  - intros H. apply parser_bind_Ok in H as (b & c1 & Hb & H).
    apply parser_bind_Ok in H as (bs & c2 & Hbs & H). apply parser_ret_Ok in H as [-> ->].
    apply c_flag_Ok in Hb; [|done].
    apply c_lbytes_Ok in Hbs as [Hl Hs2]; [|by eapply step_ok|done].
    split; [exact Hl|]. apply step_app. eauto.
  - destruct t as [bs b]. intros [Hl Hs]. apply step_app in Hs as (c1 & Hs1 & Hs2).
    eapply parser_bind_intro; [by apply c_flag_Ok|].
    eapply parser_bind_intro; [apply c_lbytes_Ok; [by eapply step_ok|done|done]|]. done.
Qed.

Lemma c_texts_Ok n c ts c' : cursor_ok c ->
  c_texts n c = Ok (ts, c') <->
  length ts = n /\ Forall text_typed ts /\ Forall (fun t => text_valid t 8192 false) ts /\
  step c (concat (lp <$> ts)) c'.
Proof.
  revert c ts. induction n as [|n IH]; intros c ts Hok; cbn [c_texts].
  - rewrite parser_ret_Ok. split.
    + intros [-> ->]. split_and!; try constructor; by apply step_nil.
    + intros (Hl & _ & _ & Hs). apply nil_length_inv in Hl as ->. by apply step_nil_inv in Hs.
  - split.
    + intros H. apply parser_bind_Ok in H as (t & c1 & Ht & H).
      apply parser_bind_Ok in H as (rest & c2 & Hr & H). apply parser_ret_Ok in H as [-> ->].
      apply c_text_Ok in Ht as (? & ? & Hs); [|done..].
      apply IH in Hr as (? & ? & ? & Hs2); [|by eapply step_ok].
      split_and!; [cbn; lia|by constructor..|]. cbn. apply step_app. eauto.
    + intros (Hl & Ht & Hv & Hs). destruct ts as [|t ts]; [done|].
      rewrite Forall_cons in Ht. rewrite Forall_cons in Hv. destruct Ht, Hv.
      cbn in Hs. apply step_app in Hs as (c1 & Hs1 & Hs2).
      eapply parser_bind_intro; [by apply c_text_Ok|].
      eapply parser_bind_intro; [apply IH; [by eapply step_ok|]|done].
      split_and!; [cbn in Hl; lia|done..].
Qed.

(** A reader of a one-byte enumeration. *)
Ltac enum_reader k code :=
  intros Hok; split;
  [ intros H; apply parser_bind_Ok in H as (z & c1 & Hz & H);
    apply c_byte_Ok in Hz as [_ Hs]; [|done];
    repeat (case_match; [bool_facts; subst; apply parser_ret_Ok in H as [-> ->]; exact Hs|]);
    discriminate H
  | intros Hs; eapply (parser_bind_intro _ _ _ code);
    [apply c_byte_Ok; [done|]; split; [|exact Hs]; destruct k; cbn; lia|];
    destruct k; reflexivity ].

Lemma c_observation_kind_Ok c k c' : cursor_ok c ->
  c_observation_kind c = Ok (k, c') <-> step c [byte_of (observation_byte k)] c'.
Proof. unfold c_observation_kind. enum_reader k (observation_byte k). Qed.
Lemma c_reader_failure_Ok c k c' : cursor_ok c ->
  c_reader_failure c = Ok (k, c') <-> step c [byte_of (reader_failure_byte k)] c'.
Proof. unfold c_reader_failure. enum_reader k (reader_failure_byte k). Qed.
Lemma c_role_Ok c r c' : cursor_ok c ->
  c_role c = Ok (r, c') <-> step c [byte_of (role_byte r)] c'.
Proof. unfold c_role. enum_reader r (role_byte r). Qed.
Lemma c_failure_kind_Ok c k c' : cursor_ok c ->
  c_failure_kind c = Ok (k, c') <-> step c [byte_of (failure_byte k)] c'.
Proof. unfold c_failure_kind. enum_reader k (failure_byte k). Qed.

Lemma c_exit_Ok c e c' : cursor_ok c ->
  c_exit c = Ok (e, c') <-> exit_valid e /\ step c (exit_body e) c'.
Proof.
  intros Hok. unfold c_exit. split.
  - intros H. apply parser_bind_Ok in H as (k & c1 & Hk & H).
    apply parser_bind_Ok in H as (n & c2 & Hn & H).
    apply c_byte_Ok in Hk as [_ Hs1]; [|done].
    apply c_number_Ok in Hn as [[Hn0 Hn1] Hs2]; [|by eapply step_ok].
    unfold as_i32 in H.
    destruct (Z.ltb_spec n 2147483648); repeat case_match; bool_facts; try lia; subst; try discriminate H;
      apply parser_ret_Ok in H as [-> ->]; cbn [exit_valid exit_body];
      (split; [lia|]); apply step_app; eauto.
  - intros [Hv Hs]. destruct e as [n|n]; cbn [exit_valid exit_body] in *;
      apply step_app in Hs as (c1 & Hs1 & Hs2);
      (eapply parser_bind_intro; [apply c_byte_Ok; [done|]; split; [|exact Hs1]; lia|]);
      (eapply parser_bind_intro; [apply c_number_Ok; [by eapply step_ok|]; split; [|exact Hs2]; unfold is_u32; lia|]);
      unfold as_i32; destruct (Z.ltb_spec n 2147483648); try lia.
    + destruct (Z.leb_spec 0 n), (Z.leb_spec n 255); try lia. done.
    + destruct (Z.leb_spec 1 n), (Z.leb_spec n 64); try lia. done.
Qed.

Lemma checked_add_none_false a b : is_none (checked_add64 a b) = false <-> a + b <= U64_MAX.
Proof. unfold checked_add64. destruct (Z.leb_spec (a + b) U64_MAX); cbn; split; (done || lia). Qed.

Lemma text_valid_slash t m : text_valid t m true -> starts_with_slash t = true.
Proof.
  unfold text_valid, validate_text. case_match eqn:E; [done|]. bool_facts. cbn in *.
  intros _. by apply negb_false_iff.
Qed.
Lemma text_valid_len t m p : text_valid t m p -> zlen t <= m.
Proof. unfold text_valid, validate_text. case_match eqn:E; [done|]. bool_facts. lia. Qed.

Lemma length_lp bs : zlen (lp bs) = 4 + zlen bs.
Proof. unfold lp. rewrite length_app, length_le_bytes. lia. Qed.
#[global] Opaque lp.

(** ** Frame bodies *)

(** Read one primitive of a successful decode hypothesis. *)
Ltac read_prim Hp :=
  first
  [ apply c_text_Ok in Hp as (? & ? & ?); [|parse_ok|done]
  | apply c_number_Ok in Hp as [? ?]; [|parse_ok]
  | apply c_wide_Ok in Hp as [? ?]; [|parse_ok]
  | apply c_reader_Ok in Hp as (? & ? & ?); [|parse_ok]
  | apply c_lbytes_Ok in Hp as [? ?]; [|parse_ok|done]
  | apply c_texts_Ok in Hp as (? & ? & ? & ?); [|parse_ok]
  | apply c_flag_Ok in Hp; [|parse_ok]
  | apply c_tail_Ok in Hp as [? ?]; [|parse_ok]
  | apply c_exit_Ok in Hp as [? ?]; [|parse_ok]
  | apply c_observation_kind_Ok in Hp; [|parse_ok]
  | apply c_reader_failure_Ok in Hp; [|parse_ok]
  | apply c_role_Ok in Hp; [|parse_ok]
  | apply c_failure_kind_Ok in Hp; [|parse_ok]
  | apply refuse_if_Ok in Hp as [? ->] ].
Ltac read_bind H :=
  let Hp := fresh "Hp" in
  apply parser_bind_Ok in H as (? & ? & Hp & H); try read_prim Hp.
Ltac join_steps :=
  repeat first [ eassumption | apply step_nil; parse_ok
               | apply step_app; eexists; split; [eassumption|]
               | apply step_cons; eexists; split; [eassumption|] ].

(** Run one primitive of a decode goal on the bytes a step hypothesis gives. *)
Ltac split_step Hs :=
  let c1 := fresh "c1" in let H1 := fresh "Hs" in
  apply step_app in Hs as (c1 & H1 & Hs).
Ltac run_prim :=
  eapply parser_bind_intro;
  [ first
    [ apply c_text_Ok; [parse_ok|done|split_and!; [| |eassumption]; eassumption]
    | apply c_number_Ok; [parse_ok|split; [|eassumption]]; try assumption
    | apply c_wide_Ok; [parse_ok|split; [|eassumption]]; try assumption
    | apply c_reader_Ok; [parse_ok|split_and!; [| |eassumption]; eassumption]
    | apply c_lbytes_Ok; [parse_ok|done|split; [|eassumption]; eassumption]
    | apply c_flag_Ok; [parse_ok|eassumption]
    | apply c_tail_Ok; [parse_ok|split; [|eassumption]; eassumption]
    | apply c_exit_Ok; [parse_ok|split; [|eassumption]; eassumption]
    | apply c_observation_kind_Ok; [parse_ok|eassumption]
    | apply c_reader_failure_Ok; [parse_ok|eassumption]
    | apply c_role_Ok; [parse_ok|eassumption]
    | apply c_failure_kind_Ok; [parse_ok|eassumption] ] |].

Lemma launch_body_sound c f c' : cursor_ok c -> decode_body 2 c = Ok (f, c') ->
  frame_tag f = 2 /\ frame_typed f /\ frame_valid f /\ step c (frame_body f) c'.
Proof.
  intros Hok H. cbn [decode_body Z.eqb Pos.eqb] in H. repeat read_bind H.
  apply parser_ret_Ok in H as [-> ->]. bool_facts. cbn.
  match goal with H : is_u32 ?n, L : length ?l = Z.to_nat ?n |- _ =>
    assert (n = zlen l) as -> by (destruct H; lia) end.
  split_and!; try done. join_steps.
Qed.

Lemma observe_body_sound c f c' : cursor_ok c -> decode_body 3 c = Ok (f, c') ->
  frame_tag f = 3 /\ frame_typed f /\ frame_valid f /\ step c (frame_body f) c'.
Proof.
  intros Hok H. cbn [decode_body Z.eqb Pos.eqb] in H. repeat read_bind H.
  apply parser_ret_Ok in H as [-> ->]. bool_facts.
  match goal with H : (match ?k with _ => _ end) _ = Ok _ |- _ =>
    destruct k; [read_bind H; apply parser_ret_Ok in H as [-> ->]
                |read_bind H; apply parser_ret_Ok in H as [-> ->]
                |apply parser_ret_Ok in H as [-> ->]] end; cbn; split_and!; try done.
  all: first [by intros ? [= <-]|join_steps].
Qed.

Lemma closed_body_sound c f c' : cursor_ok c -> decode_body 104 c = Ok (f, c') ->
  frame_tag f = 104 /\ frame_typed f /\ frame_valid f /\ step c (frame_body f) c'.
Proof.
  intros Hok H. cbn [decode_body Z.eqb Pos.eqb orb] in H. do 2 read_bind H.
  apply parser_bind_Ok in H as (o & c2 & Ho & H).
  assert (exists (b : bool), step x0 (flag_bytes (negb (is_none o)) ++ opt_body lp o) c2 /\
    (forall p, o = Some p -> text_typed p /\ text_valid p MAX_PATH_LEN true)) as (_ & Hs & Ho').
  { exists true. match goal with H : (if ?b then _ else _) _ = Ok _ |- _ => destruct b end.
    - read_bind Ho. apply parser_ret_Ok in Ho as [-> ->]. split; [cbn; join_steps|].
      by intros ? [= <-].
    - apply parser_ret_Ok in Ho as [-> ->]. split; [cbn; rewrite app_nil_r; done|done]. }
  do 2 read_bind H. apply parser_ret_Ok in H as [-> ->]. cbn.
  split_and!; try done; try naive_solver. apply step_app; eexists; split; [eassumption|].
  rewrite app_assoc. join_steps.
Qed.

Lemma failure_body_sound c f c' : cursor_ok c -> decode_body 106 c = Ok (f, c') ->
  frame_tag f = 106 /\ frame_typed f /\ frame_valid f /\ step c (frame_body f) c'.
Proof.
  intros Hok H. cbn [decode_body Z.eqb Pos.eqb orb] in H. repeat read_bind H.
  apply parser_ret_Ok in H as [-> ->].
  match goal with H : (if ?b then _ else _) _ = Ok _ |- _ => destruct b; [do 2 read_bind H|];
    apply parser_ret_Ok in H as [-> ->] end; bool_facts; cbn.
  - match goal with H : is_u32 ?n |- _ => destruct H;
      replace (as_i32 n) with n by (unfold as_i32; destruct (Z.ltb_spec n 2147483648); lia) end.
    split_and!; try done; [intros ? [= <-]; unfold is_i32; lia|intros ? [= <-]; lia|join_steps].
  - split_and!; try done. join_steps.
Qed.

Lemma decode_body_sound tag c f c' : cursor_ok c -> decode_body tag c = Ok (f, c') ->
  frame_tag f = tag /\ frame_typed f /\ frame_valid f /\ step c (frame_body f) c'.
Proof.
  intros Hok H.
  destruct (decide (tag = 2)) as [->|]; [by apply launch_body_sound|].
  destruct (decide (tag = 3)) as [->|]; [by apply observe_body_sound|].
  destruct (decide (tag = 104)) as [->|]; [by apply closed_body_sound|].
  destruct (decide (tag = 106)) as [->|]; [by apply failure_body_sound|].
  unfold decode_body in H.
  repeat match type of H with (if ?b then _ else _) _ = _ =>
    let E := fresh "E" in destruct b eqn:E end; try done.
  all: repeat read_bind H; apply parser_ret_Ok in H as [-> ->]; bool_facts; subst; try lia.
  all: try (apply orb_true_iff in E7 as [->%Z.eqb_eq| ->%Z.eqb_eq]).
  all: rewrite ?checked_add_none_false in *; cbn; unfold id_valid in *;
       split_and!; try done; try join_steps.
Qed.

(** The converse: decoding the bytes of a valid frame gives it back. *)
Lemma launch_body_complete c executable root arguments c' : cursor_ok c ->
  let f := LaunchServer executable root arguments in
  frame_typed f -> frame_valid f -> step c (frame_body f) c' -> decode_body 2 c = Ok (f, c').
Proof.
  intros Hok f (? & ? & ?) (? & ? & ? & ?) Hs. cbn [frame_body f] in Hs.
  do 3 split_step Hs. cbn [decode_body Z.eqb Pos.eqb].
  do 2 run_prim. run_prim; [unfold is_u32; lia|].
  rewrite refuse_if_pass by (apply Z.ltb_ge; lia). rewrite Nat2Z.id.
  eapply parser_bind_intro; [apply c_texts_Ok; [parse_ok|split_and!; try eassumption; done]|done].
Qed.

Lemma observe_body_complete c kind path timeout c' : cursor_ok c ->
  let f := Observe kind path timeout in
  frame_typed f -> frame_valid f -> step c (frame_body f) c' -> decode_body 3 c = Ok (f, c').
Proof.
  intros Hok f [? Hp] [[? ?] Hk] Hs. cbn [frame_body f] in Hs.
  do 2 split_step Hs. cbn [decode_body Z.eqb Pos.eqb].
  do 2 run_prim. rewrite refuse_if_pass by (apply orb_false_iff; lia).
  destruct kind, path; try done; cbn [opt_body] in Hs.
  1,2: specialize (Hp _ eq_refl); eapply parser_bind_intro; [run_prim; reflexivity|reflexivity].
  apply step_nil_inv in Hs as ->. reflexivity.
Qed.

Lemma closed_body_complete c r c' : cursor_ok c ->
  let f := OwnedNamespaceClosed r in
  frame_typed f -> frame_valid f -> step c (frame_body f) c' -> decode_body 104 c = Ok (f, c').
Proof.
  intros Hok f Ht (? & Hv & ? & ?) Hs. cbn [frame_body f frame_typed] in *.
  do 4 split_step Hs. destruct r as [e o out err]. cbn in *.
  change (decode_body 104) with (
    exit ← c_exit; observed ← c_flag;
    observation ← (if (observed : bool) then t ← c_text MAX_PATH_LEN true; mret (Some t) else mret None);
    stdout ← c_tail; stderr ← c_tail;
    mret (OwnedNamespaceClosed (mkWorkloadResult exit observation stdout stderr)) : parser Frame).
  do 2 run_prim. destruct o as [t|]; cbn [is_none negb opt_body] in *.
  - specialize (Ht _ eq_refl). specialize (Hv _ eq_refl).
    eapply parser_bind_intro; [run_prim; reflexivity|]. do 2 run_prim. reflexivity.
  - match goal with H : step _ [] _ |- _ => apply step_nil_inv in H as -> end.
    eapply parser_bind_intro; [reflexivity|]. do 2 run_prim. reflexivity.
Qed.

Lemma failure_body_complete c kind errno c' : cursor_ok c ->
  let f := Failure kind errno in
  frame_typed f -> frame_valid f -> step c (frame_body f) c' -> decode_body 106 c = Ok (f, c').
Proof.
  intros Hok f Ht Hv Hs. cbn [frame_body f frame_typed frame_valid] in *.
  do 2 split_step Hs. cbn [decode_body Z.eqb Pos.eqb orb].
  do 2 run_prim. destruct errno as [e|]; cbn [is_none negb opt_body] in *.
  - specialize (Hv _ eq_refl). eapply parser_bind_intro.
    { run_prim; [unfold is_u32; lia|]. rewrite refuse_if_pass by (apply orb_false_iff; lia).
      unfold as_i32. destruct (Z.ltb_spec e 2147483648); [|lia]. reflexivity. }
    reflexivity.
  - apply step_nil_inv in Hs as ->. reflexivity.
Qed.

Lemma decode_body_complete f c c' : cursor_ok c ->
  frame_typed f -> frame_valid f -> step c (frame_body f) c' ->
  decode_body (frame_tag f) c = Ok (f, c').
Proof.
  intros Hok Ht Hv Hs.
  destruct f; eauto using launch_body_complete, observe_body_complete, closed_body_complete,
    failure_body_complete; cbn [frame_typed frame_valid frame_body frame_tag] in *;
    destruct_and?; try (apply step_nil_inv in Hs as ->; reflexivity);
    cbn [decode_body Z.eqb Pos.eqb orb]; repeat split_step Hs; repeat run_prim.
  all: rewrite ?refuse_if_pass by (rewrite ?orb_false_iff, ?checked_add_none_false; lia);
       try reflexivity.
  all: rewrite refuse_if_pass by (apply negb_false_iff; by eapply text_valid_slash);
       reflexivity.
Qed.

(** ** The encoder against the declarative body *)

Definition LIMIT : Z := HEADER_LEN + MAX_PAYLOAD_LEN.

Lemma p_bytes_Ok p bs m p' :
  p_bytes p bs m = Ok p' <->
  zlen bs <= m /\ zlen p + 4 + zlen bs <= LIMIT /\ p' = p ++ lp bs.
Proof.
  unfold p_bytes, saturating_add64, LIMIT, p_number. Transparent lp. unfold lp. Opaque lp.
  rewrite app_assoc. case_match eqn:E.
  - apply orb_true_iff in E. rewrite !Z.ltb_lt in E. split; [done|].
    unfold HEADER_LEN, MAX_PAYLOAD_LEN in *. lia.
  - bool_facts. unfold HEADER_LEN, MAX_PAYLOAD_LEN in *. split; [intros [= <-]|intros (_ & _ & ->)]; [|done].
    split_and!; [done|lia|done].
Qed.

Lemma p_reader_Ok p id p' : p_reader p id = Ok p' <-> id_valid id /\ p' = p ++ id.
Proof. unfold p_reader, id_valid, invalid. case_decide; naive_solver. Qed.

Lemma p_text_Ok p t m path p' :
  p_text p t m path = Ok p' <-> text_valid t m path /\ zlen p + zlen (lp t) <= LIMIT /\ p' = p ++ lp t.
Proof.
  unfold p_text. rewrite result_bind_Ok, length_lp. split.
  - intros ([] & Hv & Hb). apply p_bytes_Ok in Hb as (? & ? & ?). split_and!; [done|lia|done].
  - intros (Hv & ? & ?). exists tt. split; [done|]. apply p_bytes_Ok.
    pose proof (text_valid_len _ _ _ Hv). split_and!; [done|lia|done].
Qed.

Lemma length_tail_body t : zlen (tail_body t) = 5 + zlen (tail_bytes t).
Proof. unfold tail_body, flag_bytes. rewrite length_app, Nat2Z.inj_add, length_lp. cbn [length]. lia. Qed.

Lemma p_tail_Ok p t p' :
  p_tail p t = Ok p' <-> tail_valid t /\ zlen p + zlen (tail_body t) <= LIMIT /\ p' = p ++ tail_body t.
Proof.
  unfold p_tail, p_byte. rewrite p_bytes_Ok, length_app, length_tail_body. cbn [length].
  unfold tail_valid, tail_body. rewrite app_assoc.
  split; intros (? & ? & ?); split_and!; done || lia.
Qed.

Lemma p_texts_Ok p ts p' :
  p_texts p ts = Ok p' <-> Forall (fun t => text_valid t 8192 false) ts /\
    (ts <> [] -> zlen p + zlen (concat (lp <$> ts)) <= LIMIT) /\ p' = p ++ concat (lp <$> ts).
Proof.
  revert p. induction ts as [|t ts IH]; intros p; cbn [p_texts fmap list_fmap concat].
  - rewrite app_nil_r. split; [intros [= <-]|intros (_ & _ & ->)]; done.
  - rewrite result_bind_Ok, Forall_cons, length_app. split.
    + intros (p1 & (Hv & Hl & ->)%p_text_Ok & (Ht & Hb & ->)%IH).
      rewrite app_assoc. split_and!; [done..| |done]. intros _. rewrite length_app in Hb.
      destruct ts; [cbn; lia|]. specialize (Hb ltac:(done)). lia.
    + intros ([Hv Ht] & Hb & ->). specialize (Hb ltac:(done)).
      exists (p ++ lp t). rewrite p_text_Ok, IH, app_assoc, length_app.
      split_and!; [done|lia|done|done|lia|done].
Qed.

Ltac enc_inv H :=
  repeat match type of H with
  | (_ ≫= _) = Ok _ => let Hp := fresh "Hp" in apply result_bind_Ok in H as (? & Hp & H);
      first [ apply p_text_Ok in Hp as (? & ? & ->) | apply p_reader_Ok in Hp as (? & ->)
            | apply p_bytes_Ok in Hp as (? & ? & ->) | apply p_tail_Ok in Hp as (? & ? & ->)
            | apply p_texts_Ok in Hp as (? & ? & ->) | idtac ]
  | (if ?b then _ else _) = Ok _ => let E := fresh "E" in destruct b eqn:E; [done|]
  end.

Lemma encode_body_sound f p t p' :
  encode_body f p = Ok (t, p') ->
  t = frame_tag f /\ p' = p ++ frame_body f /\ frame_valid f.
Proof.
  intros H. unfold encode_body in H.
  destruct f; enc_inv H; unfold p_number, p_wide, p_byte in *; simplify_eq/=; bool_facts;
    rewrite ?checked_add_none_false in *; rewrite <- ?app_assoc, ?app_nil_r; try done.
  - destruct kind, path; try done; cbn [opt_body];
      first [apply p_text_Ok in Hp as (? & ? & ->)|injection Hp as <-];
      rewrite <- ?app_assoc, ?app_nil_r; done.
  - assert (exit_valid (exit result) /\ x = p ++ exit_body (exit result)) as [? ->].
    { destruct (exit result);
        match type of Hp with (if ?b then _ else _) = _ => destruct b eqn:?; [|done] end;
        injection Hp as <-; bool_facts; cbn [exit_valid exit_body];
        (split; [done|]); by rewrite <- app_assoc. }
    destruct (observation result) eqn:Eo.
    + apply p_text_Ok in Hp0 as (? & ? & ->). cbn. rewrite ?Eo. rewrite <- ?app_assoc.
      split_and!; try done. by intros ? [= <-].
    + injection Hp0 as <-. cbn. rewrite ?Eo. rewrite <- ?app_assoc. done.
  - destruct errno as [e|]; [case_match|]; simplify_eq; bool_facts; cbn; rewrite <- ?app_assoc;
      split_and!; try done. intros ? [= <-]. lia.
Qed.

Lemma result_bind_intro {E A B} (m : result E A) (k : A -> result E B) a r :
  m = Ok a -> k a = r -> (m ≫= k) = r.
Proof. by intros -> <-. Qed.

Ltac enc_lengths :=
  unfold p_number, p_wide, p_byte in *;
  rewrite ?length_app, ?length_le_bytes, ?Nat2Z.inj_add, ?length_lp, ?length_tail_body in *; cbn [length] in *;
  try lia.
Ltac enc_step :=
  eapply result_bind_intro;
  [ first [ apply p_text_Ok; split_and!; [eassumption|enc_lengths|reflexivity]
          | apply p_reader_Ok; split; [eassumption|reflexivity]
          | apply p_bytes_Ok; split_and!; [eassumption|enc_lengths|reflexivity]
          | apply p_tail_Ok; split_and!; [eassumption|enc_lengths|reflexivity]
          | apply p_texts_Ok; split_and!; [eassumption|intros _; enc_lengths|reflexivity] ] | cbv beta ].

Lemma encode_body_complete f p :
  frame_valid f -> zlen p + zlen (frame_body f) <= LIMIT ->
  encode_body f p = Ok (frame_tag f, p ++ frame_body f).
Proof.
  intros Hv Hb. destruct f; cbn [encode_body frame_tag frame_body frame_valid] in *;
    rewrite ?app_nil_r; destruct_and?; try reflexivity.
  - do 2 enc_step. destruct (Z.ltb_spec 64 (zlen arguments)); [lia|]. enc_step.
    unfold p_number. by rewrite <- !app_assoc.
  - destruct (Z.eqb_spec timeout_ms 0), (Z.ltb_spec 30000 timeout_ms); try lia. cbn [orb].
    destruct kind, path; try done; cbn [opt_body] in *; [enc_step..|]; unfold p_number, p_byte;
      cbn; rewrite <- ?app_assoc; cbn; by rewrite ?app_nil_r.
  - by destruct (Z.eqb_spec limit 0).
  - do 2 enc_step. rewrite (text_valid_slash path MAX_PATH_LEN) by done. cbn. by rewrite <- app_assoc.
  - enc_step. replace (_ || _ || _ || _) with false.
    { unfold p_number, p_wide. by rewrite <- !app_assoc. }
    symmetry. rewrite !orb_false_iff, checked_add_none_false. lia.
  - enc_step. destruct (Z.eqb_spec sequence 0); [done|]. unfold p_wide. by rewrite <- app_assoc.
  - enc_step. destruct (Z.eqb_spec sequence 0); [done|]. unfold p_wide. by rewrite <- app_assoc.
  - enc_step. destruct (Z.eqb_spec length 0); [done|]. unfold p_wide. by rewrite <- app_assoc.
  - enc_step. replace (_ || _ || _) with false.
    { enc_step. unfold p_byte, p_wide. by rewrite <- !app_assoc. }
    symmetry. rewrite !orb_false_iff, checked_add_none_false. lia.
  - enc_step. unfold p_byte, p_wide. by rewrite <- !app_assoc.
  - enc_step. unfold p_byte, p_wide. by rewrite <- !app_assoc.
  - destruct result as [e o out err]. cbn [exit observation stdout stderr] in *.
    eapply (result_bind_intro _ _ (p ++ exit_body e)).
    { destruct e; cbn [exit_valid exit_body] in *.
      - destruct (Z.leb_spec 0 code), (Z.leb_spec code 255); try lia.
        unfold p_number, p_byte. cbn. by rewrite <- app_assoc.
      - destruct (Z.leb_spec 1 signal), (Z.leb_spec signal 64); try lia.
        unfold p_number, p_byte. cbn. by rewrite <- app_assoc. }
    assert (length (exit_body e) = 5%nat) as He by (destruct e; reflexivity).
    rewrite !length_app, He in Hb.
    destruct o as [t|]; cbn [opt_body is_none negb] in *.
    + specialize (H1 _ eq_refl). change (length (flag_bytes true)) with 1%nat in Hb.
      do 3 enc_step. unfold p_byte. by rewrite <- !app_assoc.
    + change (length (flag_bytes false)) with 1%nat in Hb. cbn [length] in Hb.
      eapply result_bind_intro; [reflexivity|]. do 2 enc_step. unfold p_byte. by rewrite <- !app_assoc.
  - destruct errno as [e|]; cbn [opt_body is_none negb] in *.
    + specialize (Hv _ eq_refl).
      destruct (Z.leb_spec e 0), (Z.ltb_spec 4095 e); try lia. cbn [orb].
      unfold p_number, p_byte. by rewrite <- !app_assoc.
    + unfold p_byte. by rewrite <- !app_assoc.
Qed.

(** ** Headers *)

Lemma store_middle (a x y r : list byte) n :
  length a = n -> length y = length x -> store (a ++ x ++ r) n y = a ++ y ++ r.
Proof.
  intros <- Hl. unfold store. rewrite take_app_length, Hl, drop_app. f_equal. f_equal.
  rewrite drop_ge by lia. cbn. replace (length a + length x - length a)%nat with (length x) by lia.
  by rewrite drop_app_length.
Qed.

Lemma sub_middle (a x r : list byte) n k :
  length a = n -> (n + length x)%nat = k -> sub (a ++ x ++ r) n k = x.
Proof.
  intros <- <-. unfold sub. rewrite drop_app_length.
  replace (length a + length x - length a)%nat with (length x) by lia. by rewrite take_app_length.
Qed.

Lemma store_front (x y r : list byte) : length y = length x -> store (x ++ r) 0 y = y ++ r.
Proof. exact (store_middle [] x y r 0 eq_refl). Qed.
Lemma sub_front (x r : list byte) k : length x = k -> sub (x ++ r) 0 k = x.
Proof. exact (sub_middle [] x r 0 k eq_refl). Qed.

Lemma length_frame_header nonce tag len : length nonce = 32%nat ->
  length (frame_header nonce tag len) = 48%nat.
Proof. intros Hn. unfold frame_header. rewrite !length_app, !length_le_bytes, Hn. reflexivity. Qed.

Lemma stored_header nonce tag len body : length nonce = 32%nat ->
  store (store (store (store (store (replicate 48 x00 ++ body) 0 MAGIC) 8
    (le_bytes 2 PROTOCOL_VERSION)) 10 (le_bytes 2 tag)) 12 (le_bytes 4 len)) 16 nonce
  = frame_header nonce tag len ++ body.
Proof.
  intros Hn. unfold frame_header.
  change (replicate 48 x00) with (replicate 8 x00 ++ replicate 2 x00 ++ replicate 2 x00
    ++ replicate 4 x00 ++ replicate 32 x00). rewrite <- !app_assoc.
  rewrite (store_front (replicate 8 x00)) by done.
  rewrite (store_middle MAGIC (replicate 2 x00)) by (try apply length_le_bytes; done).
  rewrite (app_assoc MAGIC).
  rewrite (store_middle _ (replicate 2 x00)) by (rewrite ?length_app, ?length_le_bytes; done).
  rewrite (app_assoc (MAGIC ++ _)).
  rewrite (store_middle _ (replicate 4 x00)) by (rewrite ?length_app, ?length_le_bytes; done).
  rewrite (app_assoc ((MAGIC ++ _) ++ _)).
  rewrite (store_middle _ (replicate 32 x00)) by (rewrite ?length_app, ?length_le_bytes; done).
  by rewrite <- !app_assoc.
Qed.

Definition valid_tag (tag : Z) : Prop := 1 <= tag <= 10 \/ 101 <= tag <= 110.

Lemma header_parts bs : (48 <= length bs)%nat ->
  bs = sub bs 0 8 ++ sub bs 8 10 ++ sub bs 10 12 ++ sub bs 12 16 ++ sub bs 16 48 ++ drop 48 bs.
Proof.
  intros Hl. unfold sub. rewrite drop_0. rewrite <- (take_drop 8 bs) at 1. f_equal.
  rewrite <- (take_drop 2 (drop 8 bs)) at 1. rewrite drop_drop. f_equal.
  rewrite <- (take_drop 2 (drop _ bs)) at 1. rewrite drop_drop. f_equal.
  rewrite <- (take_drop 4 (drop _ bs)) at 1. rewrite drop_drop. f_equal.
  rewrite <- (take_drop 32 (drop _ bs)) at 1. rewrite drop_drop. done.
Qed.

Lemma length_sub bs a b : (a <= b <= length bs)%nat -> length (sub bs a b) = (b - a)%nat.
Proof. intros. unfold sub. rewrite length_take, length_drop. lia. Qed.

Lemma header_sound bs expected nonce len tag :
  header bs expected = Ok (nonce, len, tag) ->
  length nonce = 32%nat /\ valid_tag tag /\ 0 <= len <= MAX_PAYLOAD_LEN /\
  reader_length tag len = true /\ (forall e, expected = Some e -> e = nonce) /\
  bs = frame_header nonce tag len ++ drop 48 bs.
Proof.
  unfold header. destruct (Z.ltb_spec (zlen bs) HEADER_LEN) as [|Hl]; [done|].
  unfold HEADER_LEN in Hl.
  destruct (negb _ || negb _) eqn:E1; [done|]. destruct (negb (_ || _)) eqn:E2; [done|].
  destruct (Z.ltb_spec MAX_PAYLOAD_LEN (le_value (sub bs 12 16))) as [|E3]; [done|].
  destruct (negb (reader_length _ _)) eqn:E4; [done|]. intros H.
  assert (nonce = sub bs 16 48 /\ len = le_value (sub bs 12 16) /\ tag = le_value (sub bs 10 12) /\
    (forall e, expected = Some e -> e = nonce)) as (-> & -> & -> & He).
  { destruct expected as [e|]; [|by simplify_eq]. case_decide; [|done]. simplify_eq.
    split_and!; try done. by intros ? [= <-]. }
  bool_facts. pose proof (le_value_range (sub bs 12 16)).
  split_and!; try done; [rewrite length_sub; lia| |lia|].
  - apply orb_true_iff in E2 as [?|?]; bool_facts; [by left|by right].
  - rewrite (header_parts bs) at 1 by lia. unfold frame_header. rewrite <- !app_assoc.
    match goal with H : sub bs 0 8 = MAGIC, H2 : le_value _ = PROTOCOL_VERSION |- _ =>
      rewrite H, <- H2 end.
    by rewrite !le_bytes_value_n by (rewrite length_sub; lia).
Qed.

Lemma header_complete nonce tag len rest expected :
  length nonce = 32%nat -> valid_tag tag -> 0 <= len <= MAX_PAYLOAD_LEN ->
  reader_length tag len = true -> (expected = None \/ expected = Some nonce) ->
  header (frame_header nonce tag len ++ rest) expected = Ok (nonce, len, tag).
Proof.
  intros Hn Ht Hl Hr He. unfold header.
  destruct (Z.ltb_spec (zlen (frame_header nonce tag len ++ rest)) HEADER_LEN) as [H|_].
  { rewrite length_app, length_frame_header in H by done. unfold HEADER_LEN in H. lia. }
  assert (is_u16 tag) by (unfold is_u16; destruct Ht; lia).
  assert (is_u32 len) by (unfold is_u32, MAX_PAYLOAD_LEN in *; lia).
  unfold frame_header. rewrite <- !app_assoc.
  rewrite (sub_front MAGIC) by done.
  rewrite (sub_middle MAGIC) by (rewrite ?length_le_bytes; done).
  rewrite (app_assoc MAGIC), (sub_middle (MAGIC ++ _)) by (rewrite ?length_app, ?length_le_bytes; done).
  rewrite (app_assoc (MAGIC ++ _)), (sub_middle ((MAGIC ++ _) ++ _))
    by (rewrite ?length_app, ?length_le_bytes; done).
  rewrite (app_assoc ((MAGIC ++ _) ++ _)), (sub_middle (((MAGIC ++ _) ++ _) ++ _) nonce)
    by (rewrite ?length_app, ?length_le_bytes, ?Hn; done).
  rewrite bool_decide_eq_true_2, !le_u16, le_u32 by done. cbn [negb orb Z.eqb PROTOCOL_VERSION Pos.eqb].
  replace (((1 <=? tag) && (tag <=? 10)) || ((101 <=? tag) && (tag <=? 110))) with true
    by (symmetry; rewrite orb_true_iff, !andb_true_iff, !Z.leb_le; exact Ht).
  destruct (Z.ltb_spec MAX_PAYLOAD_LEN len); [lia|]. rewrite Hr. cbn [negb].
  destruct He as [-> | ->]; [done|]. by rewrite decide_True.
Qed.

(** ** Whole frames *)

Lemma frame_tag_valid f : valid_tag (frame_tag f).
Proof. unfold valid_tag. destruct f; cbn; lia. Qed.

Lemma frame_reader_length f : frame_typed f -> frame_valid f ->
  reader_length (frame_tag f) (zlen (frame_body f)) = true.
Proof.
  intros Ht Hv. destruct f; cbn [frame_tag frame_body frame_typed frame_valid] in *; try reflexivity;
    destruct_and?; unfold id_typed in *; rewrite ?length_app, ?length_le_bytes, ?Nat2Z.inj_add, ?length_lp;
    repeat match goal with H : length _ = 16%nat |- _ => rewrite H end; try reflexivity; unfold reader_length; cbn [Z.eqb Pos.eqb orb].
  - pose proof (text_valid_len _ _ _ H0). pose proof (text_valid_slash _ _ H0).
    unfold MAX_PATH_LEN in *. destruct path; [done|]. cbn [length] in *.
    rewrite andb_true_iff, !Z.leb_le. lia.
  - unfold MAX_READER_PAGE in *. change (zlen (flag_bytes eof)) with 1.
    rewrite andb_true_iff, !Z.leb_le. lia.
Qed.

Lemma encode_frame_Ok nonce f b : length nonce = 32%nat ->
  encode_frame nonce f = Ok b <->
  frame_valid f /\ zlen (frame_body f) <= MAX_PAYLOAD_LEN /\ b = frame_wire nonce f.
Proof.
  intros Hn. unfold encode_frame. split.
  - destruct (oversized_page f); [done|]. intros H. apply result_bind_Ok in H as ([tag p] & Hb & H).
    apply encode_body_sound in Hb as (-> & -> & Hv).
    destruct (Z.ltb_spec MAX_PAYLOAD_LEN (zlen (replicate (Z.to_nat HEADER_LEN) x00 ++ frame_body f) - HEADER_LEN)) as [|Hl]; [done|].
    change (Z.to_nat HEADER_LEN) with 48%nat in *.
    assert (zlen (replicate 48 x00 ++ frame_body f) - HEADER_LEN = zlen (frame_body f)) as El
      by (rewrite length_app, length_replicate; unfold HEADER_LEN; lia).
    rewrite El in *. rewrite stored_header in H by done. injection H as <-. done.
  - intros (Hv & Hl & ->).
    assert (oversized_page f = false) as ->.
    { destruct f; try done. cbn in *. destruct_and?. by apply Z.ltb_ge. }
    rewrite encode_body_complete by (try done; unfold LIMIT; change (zlen (replicate (Z.to_nat HEADER_LEN) x00)) with HEADER_LEN; lia).
    cbn [mbind result_bind].
    change (Z.to_nat HEADER_LEN) with 48%nat.
    assert (zlen (replicate 48 x00 ++ frame_body f) - HEADER_LEN = zlen (frame_body f)) as ->
      by (rewrite length_app, length_replicate; unfold HEADER_LEN; lia).
    destruct (Z.ltb_spec MAX_PAYLOAD_LEN (zlen (frame_body f))); [lia|].
    by rewrite stored_header.
Qed.

Lemma drop_frame_header nonce tag len rest : length nonce = 32%nat ->
  drop 48 (frame_header nonce tag len ++ rest) = rest.
Proof. intros Hn. rewrite <- (length_frame_header nonce tag len Hn). apply drop_app_length. Qed.

Lemma decode_frame_Ok nonce f b : length nonce = 32%nat ->
  decode_frame nonce b = Ok f <->
  frame_typed f /\ frame_valid f /\ zlen (frame_body f) <= MAX_PAYLOAD_LEN /\ b = frame_wire nonce f.
Proof.
  intros Hn. unfold decode_frame. split.
  - intros H. apply result_bind_Ok in H as ([[n len] tag] & Hh & H).
    apply header_sound in Hh as (_ & Htag & Hlen & _ & He & Hb).
    specialize (He _ eq_refl) as <-.
    destruct (Z.eqb_spec (zlen b) (HEADER_LEN + len)) as [Hl|]; [|done]. cbn [negb] in H.
    apply result_bind_Ok in H as ([f' c] & Hd & H).
    destruct (Z.eqb_spec (c_offset c) len); [|done]. cbn in H. injection H as <-.
    change (Z.to_nat HEADER_LEN) with 48%nat in Hd. set (body := drop 48 b) in *.
    assert (zlen body = len) as Hbl.
    { rewrite Hb, length_app, length_frame_header in Hl by done. unfold HEADER_LEN in Hl. lia. }
    assert (cursor_ok (mkCursor body 0)) as Hok
      by (unfold cursor_ok, MAX_PAYLOAD_LEN in *; cbn; lia).
    apply decode_body_sound in Hd as (<- & Ht & Hv & Hs); [|done].
    destruct Hs as (_ & Hr & ->). cbn [c_offset c_bytes] in *. rewrite Z.add_0_l in *. subst len.
    unfold remaining in Hr. cbn [c_offset c_bytes Z.to_nat] in Hr. rewrite drop_0 in Hr.
    assert (drop (Z.to_nat (zlen (frame_body f'))) body = []) as Hnil by (apply drop_ge; lia).
    rewrite Hnil, app_nil_r in Hr. unfold frame_wire. rewrite <- Hr.
    rewrite Hbl. split_and!; [done|done|lia|exact Hb].
  - intros (Ht & Hv & Hl & ->). unfold frame_wire.
    rewrite (header_complete nonce (frame_tag f)) by
      (auto using frame_tag_valid, frame_reader_length; lia).
    cbn [mbind result_bind]. change (Z.to_nat HEADER_LEN) with 48%nat.
    rewrite length_app, length_frame_header, drop_frame_header by done.
    replace (Z.of_nat (48 + length (frame_body f))) with (HEADER_LEN + zlen (frame_body f))
      by (unfold HEADER_LEN; lia).
    rewrite Z.eqb_refl. cbn [negb].
    assert (cursor_ok (mkCursor (frame_body f) 0)) as Hok
      by (unfold cursor_ok, MAX_PAYLOAD_LEN in *; cbn; lia).
    pose proof (step_start (mkCursor (frame_body f) 0) (frame_body f) [] Hok) as Hs.
    unfold remaining in Hs. cbn in Hs. rewrite drop_0, app_nil_r in Hs. specialize (Hs eq_refl).
    rewrite (decode_body_complete _ _ _ Hok Ht Hv Hs). cbn. by rewrite Z.eqb_refl.
Qed.


(** ** The in-place decoder of reader pages *)

Lemma owned_page_sound c id sequence offset count start eof c' : cursor_ok c ->
  decode_owned_page c = Ok (id, sequence, offset, count, start, eof, c') ->
  exists bytes, let f := ReaderPage id sequence offset bytes eof in
    zlen bytes = count /\ start = HEADER_LEN + (c_offset c + 36) /\
    frame_typed f /\ frame_valid f /\ step c (frame_body f) c'.
Proof.
  intros Hok H. unfold decode_owned_page in H. do 4 read_bind H.
  read_bind H. bool_facts. rewrite checked_add_none_false in *.
  apply parser_bind_Ok in H as (p & ? & [= <- <-] & H).
  apply parser_bind_Ok in H as (bytes & ? & Ht & H).
  match goal with H : is_u32 _ |- _ => destruct H end.
  apply c_take_Ok in Ht as [Hs <-]; [|parse_ok|lia].
  read_bind H. apply parser_ret_Ok in H as [[= -> -> -> -> -> ->] ->].
  exists bytes. cbn. split_and!; try done.
  - repeat match goal with H : step _ _ _ |- _ => destruct H as (_ & _ & ->) end. cbn [c_offset].
    rewrite !length_le_bytes. unfold id_typed in *. lia.
  - do 3 (apply step_app; eexists; split; [eassumption|]).
    apply step_app. eexists. split; [|eassumption]. with_strategy transparent [lp] unfold lp.
    join_steps.
Qed.

Lemma owned_page_complete c id sequence offset bytes eof c' : cursor_ok c ->
  let f := ReaderPage id sequence offset bytes eof in
  frame_typed f -> frame_valid f -> step c (frame_body f) c' ->
  decode_owned_page c =
    Ok (id, sequence, offset, zlen bytes, HEADER_LEN + (c_offset c + 36), eof, c').
Proof.
  intros Hok f (Hi & Hq & Ho) (Hiv & Hqv & Hl & Hov) Hs. cbn [frame_body f] in Hs.
  do 3 split_step Hs. apply step_app in Hs as (c4 & Hp & Hs).
  with_strategy transparent [lp] unfold lp in Hp. apply step_app in Hp as (c5 & Hn & Hb).
  unfold decode_owned_page, MAX_READER_PAGE in *. do 3 run_prim.
  run_prim; [unfold is_u32; lia|].
  rewrite refuse_if_pass by (rewrite ?orb_false_iff, ?checked_add_none_false; lia).
  eapply parser_bind_intro; [reflexivity|].
  eapply parser_bind_intro; [apply c_take_Ok; [parse_ok|lia|split; [exact Hb|done]]|].
  run_prim. unfold mret, parser_ret. do 4 f_equal.
  repeat match goal with H : step _ _ _ |- _ => destruct H as (_ & _ & ->) end. cbn [c_offset].
  rewrite !length_le_bytes. unfold id_typed in *. lia.
Qed.

Lemma page_in_place nonce id sequence offset bytes eof : length nonce = 32%nat ->
  id_typed id ->
  let f := ReaderPage id sequence offset bytes eof in
  take (length bytes) (store (frame_wire nonce f) 0
    (sub (frame_wire nonce f) 84 (84 + length bytes))) = bytes.
Proof.
  intros Hn Hi f.
  assert (sub (frame_wire nonce f) 84 (84 + length bytes) = bytes) as ->.
  { unfold frame_wire. cbn [frame_body f]. with_strategy transparent [lp] unfold lp.
    set (h := frame_header _ _ _).
    assert (length h = 48%nat) by (by apply length_frame_header).
    rewrite !app_assoc, <- (app_assoc _ bytes). apply sub_middle; [|lia].
    rewrite !length_app, !length_le_bytes. unfold id_typed in Hi. lia. }
  unfold store. by rewrite take_0, app_nil_l, take_app_length.
Qed.

Lemma step_whole body x c' : step (mkCursor body 0) x c' -> c_offset c' = zlen body -> body = x.
Proof.
  intros (_ & Hr & ->). unfold remaining. cbn. intros Hl. unfold remaining in Hr. cbn in Hr.
  rewrite drop_0, drop_ge, app_nil_r in Hr by lia. done.
Qed.

(** The frame a page decoded in place holds is the one the copying decoder gives. *)
Lemma moved_page nonce b id q o bytes eof c' : length nonce = 32%nat ->
  let f := ReaderPage id q o bytes eof in
  b = frame_header nonce 108 (zlen (drop 48 b)) ++ drop 48 b -> id_typed id ->
  step (mkCursor (drop 48 b) 0) (frame_body f) c' -> c_offset c' = zlen (drop 48 b) ->
  take (Z.to_nat (zlen bytes)) (store b 0
    (sub b (Z.to_nat (HEADER_LEN + (0 + 36))) (Z.to_nat (HEADER_LEN + (0 + 36) + zlen bytes)))) = bytes.
Proof.
  intros Hn f Hb Hi Hs Hc. pose proof (step_whole _ _ _ Hs Hc) as He. rewrite He in Hb.
  change (b = frame_wire nonce f) in Hb. rewrite Hb.
  replace (Z.to_nat (HEADER_LEN + (0 + 36) + zlen bytes)) with (84 + length bytes)%nat
    by (unfold HEADER_LEN; lia).
  change (Z.to_nat (HEADER_LEN + (0 + 36))) with 84%nat. rewrite Nat2Z.id. by apply page_in_place.
Qed.

Lemma decode_owned_Ok nonce f b : length nonce = 32%nat ->
  decode_owned nonce b = Ok f <-> decode_frame nonce b = Ok f.
Proof.
  intros Hn. unfold decode_owned.
  destruct (header b (Some nonce)) as [[[n len] tag]|e] eqn:Hh;
    [|unfold decode_frame; rewrite Hh; done].
  cbn [mbind result_bind]. destruct (Z.eqb_spec tag 108) as [->|]; [|done]. cbn [negb].
  pose proof (header_sound _ _ _ _ _ Hh) as (Hl48 & Htag & Hlen & _ & He & Hb).
  specialize (He _ eq_refl) as ->.
  unfold decode_frame at 1. rewrite Hh. cbn [mbind result_bind].
  destruct (Z.eqb_spec (zlen b) (HEADER_LEN + len)) as [Hl|]; [|done]. cbn [negb].
  change (Z.to_nat HEADER_LEN) with 48%nat in *.
  assert (len = zlen (drop 48 b)) as -> by (unfold HEADER_LEN in *; rewrite length_drop; lia).
  assert (cursor_ok (mkCursor (drop 48 b) 0)) as Hok
    by (unfold cursor_ok, MAX_PAYLOAD_LEN in *; cbn; lia).
  split; intros H.
  - apply result_bind_Ok in H as ([[[[[[id q] o] count] start] eof] c'] & Hp & H).
    apply owned_page_sound in Hp as (bytes & <- & -> & Ht & Hv & Hs); [|done].
    rewrite (decode_body_complete _ _ _ Hok Ht Hv Hs : decode_body 108 _ = _).
    cbn [mbind result_bind]. destruct (Z.eqb_spec (c_offset c') (zlen (drop 48 b))) as [Ec|]; [|done].
    cbn [negb c_offset] in *. injection H as <-. do 2 f_equal. symmetry.
    destruct Ht. by eapply moved_page.
  - apply result_bind_Ok in H as ([f' c'] & Hp & H).
    apply decode_body_sound in Hp as (Htf & Ht & Hv & Hs); [|done].
    destruct f'; try discriminate Htf.
    rewrite (owned_page_complete _ _ _ _ _ _ _ Hok Ht Hv Hs). cbn [mbind result_bind].
    destruct (Z.eqb_spec (c_offset c') (zlen (drop 48 b))) as [Ec|]; [|done].
    cbn [negb c_offset] in *. injection H as <-. do 2 f_equal.
    destruct Ht. by eapply moved_page.
Qed.

(** ** Properties *)

(** C5: encoding and decoding are inverse, both ways: under a session nonce, [decode_frame]
    accepts a byte string with result [f] exactly when [f] is a frame of the Rust types that
    [encode_frame] writes as that very byte string. So every frame has one encoding, every
    accepted byte string is canonical, and the guards of the two sides agree.  The decoder the
    stream readers use, which moves a page's bytes to the front of the received buffer instead
    of copying them, accepts the same byte strings and yields the same frames. *)
Theorem frame_roundtrip nonce f b : length nonce = 32%nat ->
  (decode_frame nonce b = Ok f <-> frame_typed f /\ encode_frame nonce f = Ok b)
  /\ (decode_owned nonce b = Ok f <-> decode_frame nonce b = Ok f).
Proof. intros Hn. split; [rewrite decode_frame_Ok, encode_frame_Ok by done; naive_solver|by apply decode_owned_Ok]. Qed.

Definition sample_nonce : Nonce := replicate 32 x07.
Definition sample_frame : Frame :=
  ReaderPage (replicate 16 x01) 3 70000 [x0a; x0b; x0c] true.

Lemma frame_roundtrip_witness :
  let b := match encode_frame sample_nonce sample_frame with Ok b => b | Err _ => [] end in
  decode_frame sample_nonce b = Ok sample_frame /\ decode_owned sample_nonce b = Ok sample_frame.
Proof.
  intros b. destruct (frame_roundtrip sample_nonce sample_frame b eq_refl) as [Hr Ho].
  assert (decode_frame sample_nonce b = Ok sample_frame) as Hd.
  { apply Hr. split; [split_and!; try reflexivity; unfold is_u64; lia|vm_compute; reflexivity]. }
  split; [exact Hd|apply Ho; exact Hd].
Defined.
