(* ===== verification/WslReader.v ===== *)
(** * The frame readers and the control stage of the WSL supervisor

    [crates/beryl-wsl-supervisor/src/codec/reader.rs]: [FrameReader] reassembles frames from
    fed chunks ([feed]) or from a [Read] source ([read_frame]); [read_initial_frame] reads the
    first frame of a session; [ControlState] checks the order of the helper's frames.

    A function that could loop or underflow returns an [option]: [None] is a panic of a
    checked subtraction or an exhausted loop bound, and the theorems show it does not occur. *)
From stdpp Require Import base list strings.
From S2P Require Import Prelude.
From S2P Require Import Bytes.
From S2P Require Import WslFrame.
From S2P Require Import WslFrameProofs.

Open Scope Z_scope.

Record FrameReader := mkReader
  { r_nonce : Nonce; pending : list byte; expected : option Z; failed : bool }.

Definition new_reader (nonce : Nonce) : FrameReader := mkReader nonce [] None false.

Definition set_pending (r : FrameReader) (p : list byte) : FrameReader :=
  mkReader (r_nonce r) p (expected r) (failed r).
Definition set_expected (r : FrameReader) (e : option Z) : FrameReader :=
  mkReader (r_nonce r) (pending r) e (failed r).

Definition target (r : FrameReader) : Z := default HEADER_LEN (expected r).

(** The header is examined once its last byte has arrived. *)
Definition note_header (r : FrameReader) : result CodecError FrameReader :=
  if (zlen (pending r) =? HEADER_LEN) && is_none (expected r) then
    '(_, length, _) ← header (pending r) (Some (r_nonce r));
    Ok (set_expected r (Some (HEADER_LEN + length)))
  else Ok r.

Definition frame_complete (r : FrameReader) : bool :=
  match expected r with Some e => e =? zlen (pending r) | None => false end.

(** [usize] subtraction: a negative difference panics. *)
Definition usize_sub (a b : Z) : option Z := if b <=? a then Some (a - b) else None.

Fixpoint feed_inner (fuel : nat) (r : FrameReader) (bs : list byte) (frames : list Frame)
    : option (FrameReader * result CodecError (list Frame)) :=
  match bs with
  | [] => Some (r, Ok frames)
  | _ =>
      match fuel with
      | O => None
      | S fuel =>
          room ← usize_sub (target r) (zlen (pending r));
          let count := Z.to_nat (room `min` zlen bs) in
          let r := set_pending r (pending r ++ take count bs) in
          let bs := drop count bs in
          match note_header r with
          | Err e => Some (r, Err e)
          | Ok r =>
              if frame_complete r then
                if (length frames =? MAX_PENDING_FRAMES)%nat then
                  Some (r, invalid "too many queued frames")
                else
                  let bytes := pending r in
                  let r := set_pending r [] in
                  match decode_owned (r_nonce r) bytes with
                  | Err e => Some (r, Err e)
                  | Ok frame => feed_inner fuel (set_expected r None) bs (frames ++ [frame])
                  end
              else feed_inner fuel r bs frames
          end
      end
  end.

(** An error empties the buffer and closes the reader for good. *)
Definition fail_reader {A} (r : FrameReader) (result : result CodecError A) : FrameReader :=
  if is_ok result then r else mkReader (r_nonce r) [] (expected r) true.

Definition feed (r : FrameReader) (bs : list byte)
    : option (FrameReader * result CodecError (list Frame)) :=
  if failed r then Some (r, invalid "reader already failed")
  else
    '(r, result) ← feed_inner (length bs) r bs [];
    Some (fail_reader r result, result).

Definition finish (r : FrameReader) : result CodecError unit :=
  if failed r || negb (bool_decide (pending r = [])) then invalid "truncated or failed stream"
  else Ok tt.

(** [std::io::Read]: a source that, given room for [n] bytes, yields at most [n] of them. *)
Class ReadSource (S : Type) := read : S -> Z -> S * result IoErrorKind (list byte).

Section Reading.
Context {S : Type} `{ReadSource S}.

Fixpoint read_frame_inner (fuel : nat) (r : FrameReader) (s : S)
    : option (FrameReader * S * result CodecError (option Frame)) :=
  match fuel with
  | O => None
  | Datatypes.S fuel =>
      room ← usize_sub (target r) (zlen (pending r));
      let wanted := room `min` MAX_READER_PAGE in
      match read s wanted with
      | (s, Ok []) =>
          match finish r with
          | Ok _ => Some (r, s, Ok None)
          | Err e => Some (r, s, Err e)
          end
      | (s, Ok bs) =>
          let r := set_pending r (pending r ++ bs) in
          match note_header r with
          | Err e => Some (r, s, Err e)
          | Ok r =>
              if frame_complete r then
                let r := set_expected r None in
                let bytes := pending r in
                Some (set_pending r [], s, Some <$> decode_owned (r_nonce r) bytes)
              else read_frame_inner fuel r s
          end
      | (s, Err Interrupted) => read_frame_inner fuel r s
      | (s, Err kind) => Some (r, s, Err (Io kind))
      end
  end.

Definition read_frame (fuel : nat) (r : FrameReader) (s : S)
    : option (FrameReader * S * result CodecError (option Frame)) :=
  if failed r then Some (r, s, invalid "reader already failed")
  else
    '(r, s, result) ← read_frame_inner fuel r s;
    Some (fail_reader r result, s, result).

(** [Read::read_exact] of the standard library. *)
Fixpoint read_exact (fuel : nat) (s : S) (n : Z) : option (S * result IoErrorKind (list byte)) :=
  if n =? 0 then Some (s, Ok [])
  else
    match fuel with
    | O => None
    | Datatypes.S fuel =>
        match read s n with
        | (s, Ok []) => Some (s, Err UnexpectedEof)
        | (s, Ok bs) =>
            '(s, rest) ← read_exact fuel s (n - zlen bs);
            Some (s, rest' ← rest; Ok (bs ++ rest'))
        | (s, Err Interrupted) => read_exact fuel s n
        | (s, Err kind) => Some (s, Err kind)
        end
    end.

Definition read_initial_frame (fuel : nat) (s : S)
    : option (S * result CodecError (Nonce * Frame)) :=
  '(s, head) ← read_exact fuel s HEADER_LEN;
  match head with
  | Err kind => Some (s, Err (Io kind))
  | Ok bytes =>
      match header bytes None with
      | Err e => Some (s, Err e)
      | Ok (nonce, length, _) =>
          '(s, body) ← read_exact fuel s length;
          match body with
          | Err kind => Some (s, Err (Io kind))
          | Ok body => Some (s, frame ← decode_owned nonce (bytes ++ body); Ok (nonce, frame))
          end
      end
  end.

End Reading.

(** ** The control stage *)

Record ControlState := mkControl
  { role_ : Role; ready : bool; started : bool; namespace_closed : bool; closed : bool }.

Definition new_control (role : Role) : ControlState := mkControl role false false false false.

Definition accept (s : ControlState) (frame : Frame) : result CodecError ControlState :=
  let '(mkControl role ready started namespace_closed closed) := s in
  let supervisor := bool_decide (role = Supervisor) in
  if closed then invalid "frame after terminal closure"
  else
    match frame with
    | Ready r =>
        if bool_decide (r = role) && negb ready
        then Ok (mkControl role true started namespace_closed closed)
        else invalid "illegal control stage"
    | WorkloadStarted =>
        if supervisor && ready && negb started && negb namespace_closed
        then Ok (mkControl role ready true namespace_closed closed)
        else invalid "illegal control stage"
    | OwnedNamespaceClosed _ =>
        if supervisor && ready && negb namespace_closed
        then Ok (mkControl role ready started true closed)
        else invalid "illegal control stage"
    | LinuxCompanionsClosed =>
        if bool_decide (role = ContextBroker) || namespace_closed
        then Ok (mkControl role ready started namespace_closed true)
        else invalid "illegal control stage"
    | Failure _ _ | ShutdownPending | Stop | BrokerClose => Ok s
    | ReaderOpened _ _ | ReaderPage _ _ _ _ _ | ReaderFailed _ _ _ | ReaderClosed _ _ _ =>
        if supervisor && started && negb namespace_closed then Ok s
        else invalid "illegal control stage"
    | _ => invalid "illegal control stage"
    end.

Fixpoint accept_all (s : ControlState) (fs : list Frame) : result CodecError ControlState :=
  match fs with [] => Ok s | f :: fs => s ← accept s f; accept_all s fs end.

(** A whole sequence of chunks, stopping at the first error. *)
Fixpoint feed_all (r : FrameReader) (chunks : list (list byte))
    : option (FrameReader * result CodecError (list Frame)) :=
  match chunks with
  | [] => Some (r, Ok [])
  | c :: chunks =>
      '(r, res) ← feed r c;
      match res with
      | Err e => Some (r, Err e)
      | Ok fs =>
          '(r, res) ← feed_all r chunks;
          Some (r, rest ← res; Ok (fs ++ rest))
      end
  end.

(** Where encoded frames end in their stream, and how many of them end within each chunk. *)
Fixpoint frame_ends (at_ : nat) (ws : list (list byte)) : list nat :=
  match ws with [] => [] | w :: ws => (at_ + length w)%nat :: frame_ends (at_ + length w) ws end.
Definition within (a b e : nat) : Prop := (a < e <= b)%nat.
#[global] Instance within_dec a b e : Decision (within a b e).
Proof. unfold within. apply _. Defined.
Fixpoint completed (at_ : nat) (ends : list nat) (chunks : list (list byte)) : list nat :=
  match chunks with
  | [] => []
  | c :: chunks => length (filter (within at_ (at_ + length c)) ends) :: completed (at_ + length c) ends chunks
  end.

(** ** A reader part of the way through a frame *)

(** Frames that travel, and the bytes they travel as. *)
Definition travels (f : Frame) : Prop :=
  frame_typed f /\ frame_valid f /\ zlen (frame_body f) <= MAX_PAYLOAD_LEN.

Definition encodes (nonce : Nonce) (fs : list Frame) (ws : list (list byte)) : Prop :=
  Forall2 (fun f w => frame_typed f /\ encode_frame nonce f = Ok w) fs ws.

Section Frames.
Context (nonce : Nonce) (nonce_len : length nonce = 32%nat).
Abbreviation wire := (frame_wire nonce).

Definition held (w : list byte) (k : nat) : FrameReader :=
  mkReader nonce (take k w) (if (k <? 48)%nat then None else Some (zlen w)) false.

Lemma encodes_wires fs ws : encodes nonce fs ws -> Forall travels fs /\ ws = wire <$> fs.
Proof.
  unfold encodes. induction 1 as [|f w fs ws [Ht He] _ [IH ->]]; [done|].
  apply encode_frame_Ok in He as (? & ? & ->); [|done]. split; [|done]. by repeat constructor.
Qed.

Lemma wires_encode fs : Forall travels fs -> encodes nonce fs (wire <$> fs).
Proof.
  unfold encodes. induction 1 as [|f fs (? & ? & ?) _ IH]; [constructor|].
  constructor; [|done]. split; [done|]. by apply encode_frame_Ok.
Qed.

Lemma decode_wire f : travels f -> decode_owned nonce (wire f) = Ok f.
Proof. intros (? & ? & ?). apply decode_owned_Ok; [done|]. by apply decode_frame_Ok. Qed.

Lemma decoded_wire f b : decode_owned nonce b = Ok f -> travels f /\ b = wire f.
Proof.
  intros H%decode_owned_Ok; [|done]. apply decode_frame_Ok in H; [|done].
  unfold travels. naive_solver.
Qed.

Lemma wire_len f : length (wire f) = (48 + length (frame_body f))%nat.
Proof. unfold frame_wire. by rewrite length_app, length_frame_header. Qed.

Lemma wire_header f : travels f ->
  header (take 48 (wire f)) (Some nonce) = Ok (nonce, zlen (frame_body f), frame_tag f).
Proof.
  intros (? & ? & ?). unfold frame_wire.
  assert (take 48 (frame_header nonce (frame_tag f) (zlen (frame_body f)) ++ frame_body f)
    = frame_header nonce (frame_tag f) (zlen (frame_body f)) ++ []) as ->.
  { rewrite take_app_le by (by rewrite length_frame_header).
    rewrite take_ge by (by rewrite length_frame_header). by rewrite app_nil_r. }
  apply header_complete; auto using frame_tag_valid, frame_reader_length. lia.
Qed.

Lemma note_header_held f k k' : travels f -> (k' <= length (wire f))%nat ->
  (k <= k')%nat -> (k < 48 -> k' <= 48)%nat ->
  note_header (mkReader nonce (take k' (wire f)) (expected (held (wire f) k)) false)
  = Ok (held (wire f) k').
Proof.
  intros Ht Hk Hkk H48. pose proof (wire_len f). unfold note_header. cbn [pending expected held r_nonce].
  rewrite length_take_le by done.
  unfold held, HEADER_LEN.
  destruct (Nat.ltb_spec k 48), (Nat.ltb_spec k' 48), (Z.eqb_spec (Z.of_nat k') 48);
    try lia; try reflexivity.
  assert (k' = 48%nat) as -> by lia. cbn [andb is_none]. rewrite wire_header by done.
  cbn [mbind result_bind]. unfold set_expected, HEADER_LEN. cbn [r_nonce pending failed].
  do 3 f_equal. lia.
Qed.

Lemma held_complete f k : (k <= length (wire f))%nat ->
  frame_complete (held (wire f) k) = (k =? length (wire f))%nat.
Proof.
  intros Hk. pose proof (wire_len f). unfold frame_complete. cbn [expected pending held].
  rewrite length_take_le by done.
  destruct (Nat.ltb_spec k 48), (Nat.eqb_spec k (length (wire f))); first [lia|done].
Qed.

Lemma held_target f k : (k < length (wire f))%nat ->
  target (held (wire f) k) = if (k <? 48)%nat then 48 else zlen (wire f).
Proof. intros. unfold target, held. cbn [expected]. by destruct (Nat.ltb_spec k 48). Qed.

(** Appending the next bytes of the stream keeps the buffer a prefix of the frame. *)
Lemma absorb_prefix {A} (w bs t : list A) k n : (k <= length w)%nat ->
  take k w ++ bs = t -> (k + n <= length t)%nat -> (k + n <= length w)%nat ->
  take (k + n) t = take (k + n) w ->
  take k w ++ take n bs = take (k + n) w /\ take (k + n) w ++ drop n bs = t.
Proof.
  intros Hk Ht Hn Hw Ha.
  assert (take k w ++ take n bs = take (k + n) w) as E.
  { rewrite <- Ha, <- Ht. rewrite take_app, length_take_le by done.
    rewrite (take_ge (take k w)) by (rewrite length_take; lia). f_equal. f_equal. lia. }
  split; [done|]. rewrite <- E, <- app_assoc, take_drop. done.
Qed.

Definition stream (fs : list Frame) (g : Frame) (j : nat) : list byte :=
  concat (wire <$> fs) ++ take j (wire g).
Definition next (fs : list Frame) (g : Frame) : Frame := List.hd g fs.

Lemma stream_agrees fs g j n : (n <= length (wire (next fs g)))%nat ->
  (n <= length (stream fs g j))%nat ->
  take n (stream fs g j) = take n (wire (next fs g)).
Proof.
  unfold stream, next. destruct fs as [|f fs]; cbn [List.hd]; intros H1 H2.
  - rewrite fmap_nil in *. cbn [concat app] in *. rewrite length_take in H2.
    rewrite take_take. f_equal. lia.
  - rewrite fmap_cons. cbn [concat]. rewrite <- app_assoc. by rewrite take_app_le.
Qed.

Lemma stream_exhausted fs g j k : (j < length (wire g))%nat -> (k < length (wire (next fs g)))%nat ->
  take k (wire (next fs g)) ++ [] = stream fs g j -> fs = [] /\ k = j.
Proof.
  unfold stream, next. intros Hj Hk H%(f_equal length). rewrite app_nil_r, length_app, !length_take in H.
  destruct fs as [|f fs]; [cbn in *; split; [done|lia]|].
  rewrite fmap_cons in H. cbn [concat List.hd] in *. rewrite length_app in H. lia.
Qed.

(** The bytes one turn of the loop takes. *)
Definition turn (w : list byte) (k : nat) (bs : list byte) : nat :=
  Nat.min ((if (k <? 48)%nat then 48 else length w) - k) (length bs).

Lemma turn_facts f k bs : (k < length (wire f))%nat -> bs <> [] ->
  let n := turn (wire f) k bs in
  (1 <= n <= length bs /\ k + n <= length (wire f) /\ (k < 48 -> k + n <= 48))%nat /\
  usize_sub (target (held (wire f) k)) (zlen (pending (held (wire f) k)))
  = Some (Z.of_nat (if (k <? 48)%nat then 48 else length (wire f)) - Z.of_nat k).
Proof.
  intros Hk Hb. pose proof (wire_len f). unfold turn. rewrite held_target by done.
  cbn [pending held]. rewrite length_take_le by lia. unfold usize_sub.
  destruct bs; [done|]. cbn [length].
  destruct (Nat.ltb_spec k 48); (split; [lia|]);
    match goal with |- context [if ?a <=? ?b then _ else _] => destruct (Z.leb_spec a b) end;
    (lia || f_equal; lia).
Qed.

(** One turn of [feed_inner]: the frame grows, or is complete and handed over. *)
Lemma feed_inner_turn fuel f k bs t frames : travels f -> (k < length (wire f))%nat -> bs <> [] ->
  take k (wire f) ++ bs = t -> 
  (forall n, n <= length (wire f) -> n <= length t -> take n t = take n (wire f))%nat ->
  let n := turn (wire f) k bs in
  take (k + n) (wire f) ++ drop n bs = t /\
  feed_inner (S fuel) (held (wire f) k) bs frames =
    if (k + n =? length (wire f))%nat then
      if (length frames =? MAX_PENDING_FRAMES)%nat
      then Some (held (wire f) (k + n), invalid "too many queued frames")
      else feed_inner fuel (held (wire f) 0) (drop n bs) (frames ++ [f])
    else feed_inner fuel (held (wire f) (k + n)) (drop n bs) frames.
Proof.
  intros Hf Hk Hb Ht Ha n. destruct (turn_facts f k bs Hk Hb) as [(Hn & Hw & H48) Hu].
  fold n in Hn, Hw, H48.
  assert (k + n <= length t)%nat as Hlt by (rewrite <- Ht, length_app, length_take; lia).
  destruct (absorb_prefix (wire f) bs t k n) as [E1 E2]; auto with lia.
  split; [done|]. destruct bs as [|b0 bs0]; [done|]. cbn [feed_inner]. rewrite Hu. cbn [mbind option_bind].
  assert (Z.to_nat ((Z.of_nat (if (k <? 48)%nat then 48 else length (wire f)) - Z.of_nat k)
    `min` zlen (b0 :: bs0)) = n) as ->.
  { unfold n, turn. destruct (Nat.ltb_spec k 48); lia. }
  assert (set_pending (held (wire f) k) (pending (held (wire f) k) ++ take n (b0 :: bs0))
    = mkReader nonce (take (k + n) (wire f)) (expected (held (wire f) k)) false) as ->.
  { unfold set_pending, held. cbn [pending r_nonce expected failed]. by rewrite E1. }
  rewrite note_header_held by (done || lia). rewrite held_complete by lia.
  destruct (Nat.eqb_spec (k + n) (length (wire f))) as [Hc|]; [|done].
  destruct (length frames =? MAX_PENDING_FRAMES)%nat; [done|].
  unfold set_pending, set_expected. cbn [pending r_nonce expected failed].
  replace (pending (held (wire f) (k + n))) with (wire f)
    by (unfold held; cbn [pending]; rewrite take_ge by lia; done). rewrite decode_wire by done. done.
Qed.

(** One chunk, however it cuts the stream. *)
Lemma feed_inner_spec fuel g j : travels g -> (j < length (wire g))%nat ->
  forall fs k bs frames, Forall travels fs -> (k < length (wire (next fs g)))%nat ->
  take k (wire (next fs g)) ++ bs = stream fs g j -> (length bs <= fuel)%nat ->
  (length frames <= MAX_PENDING_FRAMES)%nat ->
  if (length frames + length fs <=? MAX_PENDING_FRAMES)%nat
  then feed_inner fuel (held (wire (next fs g)) k) bs frames
       = Some (held (wire g) j, Ok (frames ++ fs))
  else exists r, feed_inner fuel (held (wire (next fs g)) k) bs frames
       = Some (r, invalid "too many queued frames").
Proof.
  intros Hg Hj. induction fuel as [|fuel IH]; intros fs k bs frames Hfs Hk He Hb Hn.
  all: destruct (decide (bs = [])) as [->|Hne].
  1,3: assert (fs = [] /\ k = j) as [-> ->] by (by eapply stream_exhausted);
    rewrite Nat.add_0_r; destruct (Nat.leb_spec (length frames) MAX_PENDING_FRAMES); [|lia];
    cbn; by rewrite app_nil_r.
  { destruct bs; [done|]. cbn in Hb. lia. }
  assert (travels (next fs g)) as Hnx by (destruct Hfs; done).
  destruct (turn_facts (next fs g) k bs Hk Hne) as [(Hn1 & Hw & _) _].
  destruct (feed_inner_turn fuel (next fs g) k bs _ frames Hnx Hk Hne He) as [Hs ->].
  { intros. by apply stream_agrees. }
  set (n := turn (wire (next fs g)) k bs) in *.
  destruct (Nat.eqb_spec (k + n) (length (wire (next fs g)))) as [Hc|Hc].
  - destruct fs as [|f fs]; cbn [next List.hd] in *.
    { exfalso. apply (f_equal length) in Hs. unfold stream in Hs.
      rewrite fmap_nil in Hs. cbn [concat app] in Hs. rewrite length_app, !length_take in Hs. lia. }
    apply Forall_cons in Hfs as [_ Hfs].
    destruct (Nat.eqb_spec (length frames) MAX_PENDING_FRAMES) as [Hm|Hm].
    { cbn [length]. destruct (Nat.leb_spec (length frames + S (length fs)) MAX_PENDING_FRAMES); [lia|].
      by eexists. }
    specialize (IH fs 0%nat (drop n bs) (frames ++ [f])).
    rewrite length_app, <- app_assoc in IH. cbn [length app] in *.
    replace (length frames + 1 + length fs)%nat with (length frames + S (length fs))%nat in IH by lia.
    apply IH; [done| | | |lia].
    + rewrite wire_len. lia.
    + rewrite take_ge in Hs by lia. unfold stream in *. rewrite fmap_cons in Hs. cbn [concat] in Hs.
      rewrite <- app_assoc in Hs. by apply app_inv_head in Hs.
    + rewrite length_drop. lia.
  - apply IH; try done; [lia|]. rewrite length_drop. lia.
Qed.

(** Where a prefix of the stream ends. *)
Lemma split_stream g j : (j < length (wire g))%nat -> forall fs p, (p <= length (stream fs g j))%nat ->
  exists fs1 fs2 j1, fs = fs1 ++ fs2 /\ (j1 < length (wire (next fs2 g)))%nat /\
    take p (stream fs g j) = stream fs1 (next fs2 g) j1 /\
    take j1 (wire (next fs2 g)) ++ drop p (stream fs g j) = stream fs2 g j.
Proof.
  intros Hj. induction fs as [|f fs IH]; intros p Hp.
  - exists [], [], p. unfold stream, next in *. rewrite fmap_nil in *. cbn [concat app List.hd] in *.
    rewrite length_take in Hp. split_and!; [done|lia| |].
    + rewrite take_take. f_equal. lia.
    + rewrite <- (take_drop p (take j (wire g))) at 2. f_equal. rewrite take_take. f_equal. lia.
  - destruct (decide (p < length (wire f))%nat) as [Hlt|Hge].
    + exists [], (f :: fs), p. cbn [next List.hd app]. split_and!; [done|done| |].
      * unfold stream. rewrite fmap_cons, fmap_nil. cbn [concat app]. rewrite <- app_assoc.
        by rewrite take_app_le by lia.
      * rewrite <- (take_drop p (stream (f :: fs) g j)) at 2. f_equal. unfold stream.
        rewrite fmap_cons. cbn [concat]. rewrite <- app_assoc. by rewrite take_app_le by lia.
    + assert (stream (f :: fs) g j = wire f ++ stream fs g j) as E
        by (unfold stream; rewrite fmap_cons; cbn [concat]; by rewrite app_assoc).
      rewrite E in *. rewrite length_app in Hp.
      destruct (IH (p - length (wire f))%nat) as (fs1 & fs2 & j1 & -> & Hj1 & Ht & Hd); [lia|].
      exists (f :: fs1), fs2, j1. split_and!; [done|done| |].
      * rewrite take_app, take_ge by lia. rewrite Ht. unfold stream. rewrite fmap_cons.
        cbn [concat]. by rewrite app_assoc.
      * rewrite drop_app, drop_ge by lia. done.
Qed.

Lemma next_app fs1 fs2 g : next (fs1 ++ fs2) g = next fs1 (next fs2 g).
Proof. by destruct fs1. Qed.

Lemma wires_length fs : (48 * length fs <= length (concat (wire <$> fs)))%nat.
Proof.
  induction fs as [|f fs IH]; [done|]. rewrite fmap_cons. cbn [concat length].
  rewrite length_app, wire_len. lia.
Qed.

(** One [feed] of a chunk that ends inside the frame after [fs]. *)
Lemma feed_spec g j fs k bs : travels g -> (j < length (wire g))%nat -> Forall travels fs ->
  (k < length (wire (next fs g)))%nat -> take k (wire (next fs g)) ++ bs = stream fs g j ->
  if (length fs <=? MAX_PENDING_FRAMES)%nat
  then feed (held (wire (next fs g)) k) bs = Some (held (wire g) j, Ok fs)
  else 384 < zlen bs /\ exists r, feed (held (wire (next fs g)) k) bs
       = Some (r, invalid "too many queued frames").
Proof.
  intros Hg Hj Hfs Hk He. unfold feed. cbn [failed held].
  pose proof (feed_inner_spec (length bs) g j Hg Hj fs k bs [] Hfs Hk He) as H.
  cbn [length Nat.add app] in H. specialize (H ltac:(lia) ltac:(unfold MAX_PENDING_FRAMES; lia)).
  destruct (Nat.leb_spec (length fs) MAX_PENDING_FRAMES) as [|Hl].
  - by rewrite H.
  - destruct H as [r ->]. split; [|by eexists]. apply (f_equal length) in He.
    unfold stream, MAX_PENDING_FRAMES in *. rewrite !length_app, !length_take in He.
    destruct fs as [|f fs]; [cbn in Hl; lia|]. cbn [next List.hd] in *. rewrite fmap_cons in He.
    cbn [concat length] in *. rewrite length_app in He. pose proof (wires_length fs). lia.
Qed.

(** Where the frames of a stream end, and how many of them each chunk completes. *)
Lemma frame_ends_shift t ws at_ : frame_ends (t + at_) ws = Nat.add t <$> frame_ends at_ ws.
Proof. revert at_. induction ws as [|w ws IH]; intros at_; cbn; [done|]. rewrite <- Nat.add_assoc. by rewrite IH. Qed.
Lemma frame_ends_app ws1 ws2 at_ : frame_ends at_ (ws1 ++ ws2) = frame_ends at_ ws1 ++ frame_ends (at_ + length (concat ws1)) ws2.
Proof.
  revert at_. induction ws1 as [|w ws IH]; intros at_; cbn; [by rewrite Nat.add_0_r|]. rewrite IH, length_app. do 3 f_equal. lia.
Qed.
Lemma frame_ends_bounds ws at_ e : e ∈ frame_ends at_ ws -> (at_ + length (List.hd [] ws) <= e <= at_ + length (concat ws))%nat.
Proof.
  revert at_. induction ws as [|w ws IH]; intros at_; cbn; [by intros ?%not_elem_of_nil|]. rewrite length_app, elem_of_cons. intros [->|He%IH]; lia.
Qed.
Lemma frame_ends_length ws at_ : length (frame_ends at_ ws) = length ws.
Proof. revert at_. induction ws; intros at_; cbn; auto. Qed.

Lemma within_count a b l1 l2 : (forall e, e ∈ l1 -> a < e <= b)%nat -> (forall e, e ∈ l2 -> b < e)%nat -> length (filter (within a b) (l1 ++ l2)) = length l1.
Proof.
  intros H1 H2. rewrite filter_app. assert (filter (within a b) l1 = l1) as ->.
  { induction l1 as [|e l1 IH]; [done|]. rewrite filter_cons_True by (apply H1; by left). f_equal. apply IH. intros x Hx. apply H1. by right. }
  assert (filter (within a b) l2 = []) as ->; [|by rewrite app_nil_r].
  induction l2 as [|e l2 IH]; [done|]. rewrite filter_cons_False by (intros [_ ?]; specialize (H2 e ltac:(by left)); lia). apply IH. intros x Hx. apply H2. by right.
Qed.
Lemma completed_shift t p l1 l2 chunks : (forall e, e ∈ l1 -> e <= t)%nat -> completed (t + p) (l1 ++ (Nat.add t <$> l2)) chunks = completed p l2 chunks.
Proof.
  intros H1. revert p. induction chunks as [|c chunks IH]; intros p; cbn [completed]; [done|]. rewrite <- Nat.add_assoc, IH. f_equal.
  rewrite filter_app. assert (filter (within (t + p) (t + (p + length c))) l1 = []) as ->.
  { clear -H1. induction l1 as [|e l1 IH]; [done|]. rewrite filter_cons_False by (intros [? _]; specialize (H1 e ltac:(by left)); lia). apply IH. intros x Hx. apply H1. by right. }
  cbn [app]. clear. induction l2 as [|e l2 IH]; [done|]. rewrite fmap_cons, !filter_cons. unfold within in *.
  destruct (decide (t + p < t + e <= t + (p + length c))%nat), (decide (p < e <= p + length c)%nat); cbn [length]; lia.
Qed.

Lemma feed_all_spec g j chunks : travels g -> (j < length (wire g))%nat -> forall fs k,
  Forall travels fs -> (k < length (wire (next fs g)))%nat ->
  take k (wire (next fs g)) ++ concat chunks = stream fs g j ->
  let counts := completed k (frame_ends 0 (wire <$> fs)) chunks in
  Forall (fun n => n <= MAX_PENDING_FRAMES)%nat counts /\ feed_all (held (wire (next fs g)) k) chunks = Some (held (wire g) j, Ok fs) \/
  Exists (fun n => MAX_PENDING_FRAMES < n)%nat counts /\
  exists r, feed_all (held (wire (next fs g)) k) chunks = Some (r, invalid "too many queued frames").
Proof.
  intros Hg Hj. induction chunks as [|c chunks IH]; intros fs k Hfs Hk He.
  - destruct (stream_exhausted fs g j k Hj Hk He) as [-> ->]. left. split; [constructor|done].
  - assert (take (k + length c) (stream fs g j) = take k (wire (next fs g)) ++ c /\
            drop (k + length c) (stream fs g j) = concat chunks) as [Ht Hd].
    { rewrite <- He. cbn [concat]. rewrite app_assoc.
      replace (k + length c)%nat with (length (take k (wire (next fs g)) ++ c))
        by (rewrite length_app, length_take; lia).
      by rewrite take_app_length, drop_app_length. }
    destruct (split_stream g j Hj fs (k + length c)) as (fs1 & fs2 & j1 & -> & Hj1 & Ht1 & Hd1).
    { rewrite <- He. cbn [concat]. rewrite !length_app, length_take. lia. }
    rewrite Ht in Ht1. rewrite Hd in Hd1. rewrite next_app in *.
    apply Forall_app in Hfs as [Hfs1 Hfs2].
    assert (travels (next fs2 g)) as Hn by (by destruct Hfs2).
    assert (k + length c = length (concat (wire <$> fs1)) + j1)%nat as Hpos.
    { apply (f_equal length) in Ht1. unfold stream in Ht1. rewrite !length_app, !length_take in Ht1. lia. }
    assert (completed k (frame_ends 0 (wire <$> fs1 ++ fs2)) (c :: chunks) = length fs1 :: completed j1 (frame_ends 0 (wire <$> fs2)) chunks) as Hcount.
    { cbn [completed]. rewrite fmap_app, frame_ends_app. cbn [Nat.add].
      rewrite <- (Nat.add_0_r (length (concat (wire <$> fs1)))) at 1 2. rewrite frame_ends_shift. f_equal.
      - rewrite within_count, frame_ends_length, length_fmap; [done| |].
        + intros e He0. pose proof (frame_ends_bounds _ _ _ He0) as [H1 H2]. unfold within. destruct fs1 as [|f fs1]; [by apply not_elem_of_nil in He0|]. rewrite fmap_cons in *. cbn [List.hd next] in *. lia.
        + intros e (e' & -> & He0)%list_elem_of_fmap. pose proof (frame_ends_bounds _ _ _ He0) as [H1 _]. destruct fs2 as [|f fs2]; [by apply not_elem_of_nil in He0|]. rewrite fmap_cons in *. cbn [List.hd next] in *. lia.
      - rewrite Hpos. apply completed_shift. intros e [_ ?]%frame_ends_bounds. lia. }
    cbv zeta. rewrite Hcount. rewrite Forall_cons, Exists_cons. pose proof (feed_spec _ _ _ _ _ Hn Hj1 Hfs1 Hk Ht1) as H. cbn [feed_all].
    destruct (Nat.leb_spec (length fs1) MAX_PENDING_FRAMES) as [|Hl].
    + rewrite H. cbn [mbind option_bind].
      destruct (IH fs2 j1 Hfs2 Hj1 Hd1) as [[Hf ->]|(He' & r & ->)]; [by left|].
      right. split; [by right|by eexists].
    + destruct H as (Hc & r & ->). right. split; [by left|by eexists].
Qed.

(** ** Arbitrary input *)

Definition reader_wf (r : FrameReader) : Prop :=
  r_nonce r = nonce /\ failed r = false /\
  match expected r with
  | None => zlen (pending r) < HEADER_LEN
  | Some e => HEADER_LEN <= zlen (pending r) < e /\ e <= HEADER_LEN + MAX_PAYLOAD_LEN
  end.

Lemma reader_wf_room r : reader_wf r -> zlen (pending r) < target r /\
  usize_sub (target r) (zlen (pending r)) = Some (target r - zlen (pending r)) /\
  zlen (pending r) < HEADER_LEN + MAX_PAYLOAD_LEN.
Proof.
  intros (_ & _ & He). unfold target, usize_sub, HEADER_LEN, MAX_PAYLOAD_LEN in *.
  destruct (expected r) as [e|]; cbn [default];
    match goal with |- context [if ?a <=? ?b then _ else _] => destruct (Z.leb_spec a b) end;
    cbn in *; split_and!; (done || lia).
Qed.

(** After bytes arrive, the reader stays well formed unless its frame is complete. *)
Lemma note_header_wf r bs r' : reader_wf r -> zlen (pending r ++ bs) <= target r ->
  note_header (set_pending r (pending r ++ bs)) = Ok r' ->
  r_nonce r' = nonce /\ failed r' = false /\ pending r' = pending r ++ bs /\
  (frame_complete r' = false -> reader_wf r').
Proof.
  intros (Hn & Hf & He) Hl. unfold note_header, target, reader_wf, frame_complete in *.
  cbn [pending expected set_pending r_nonce].
  destruct (expected r) as [e|] eqn:Ee; cbn [is_none default from_option id andb] in *.
  - rewrite andb_false_r. intros [= <-]. cbn [set_pending r_nonce failed pending expected].
    rewrite Ee. split_and!; try done. intros Hc%Z.eqb_neq.
    rewrite length_app in *. split_and!; (done || lia).
  - rewrite andb_true_r. destruct (Z.eqb_spec (zlen (pending r ++ bs)) HEADER_LEN) as [E|E].
    + intros H. apply result_bind_Ok in H as ([[n len] tag] & Hh & [= <-]).
      apply header_sound in Hh as (_ & _ & Hlen & _).
      cbn [set_pending set_expected r_nonce failed pending expected].
      split_and!; try done. intros Hc%Z.eqb_neq. split_and!; (done || lia).
    + intros [= <-]. cbn [set_pending r_nonce failed pending expected]. rewrite Ee.
      split_and!; try done. intros _. split_and!; (done || lia).
Qed.

(** [feed_inner] never panics nor loops; what it returns accounts for every byte. *)
Lemma feed_inner_sound fuel r bs frames : reader_wf r -> (length bs <= fuel)%nat ->
  exists r' res, feed_inner fuel r bs frames = Some (r', res) /\
  match res with
  | Ok frames' => exists fs, frames' = frames ++ fs /\ Forall travels fs /\ reader_wf r' /\
      pending r ++ bs = concat (wire <$> fs) ++ pending r'
  | Err _ => r_nonce r' = nonce
  end.
Proof.
  revert r bs frames. induction fuel as [|fuel IH]; intros r bs frames Hwf Hb.
  all: destruct (decide (bs = [])) as [->|Hne].
  1,3: exists r, (Ok frames); split; [done|]; exists []; rewrite !app_nil_r; cbn; by split_and!.
  { destruct bs; [done|cbn in Hb; lia]. }
  destruct (reader_wf_room r Hwf) as (Hroom & Hu & _).
  destruct bs as [|b0 bs0]; [done|]. cbn [feed_inner].
  assert (1 <= length (b0 :: bs0))%nat by (cbn; lia). set (bs := b0 :: bs0) in *.
  rewrite Hu. cbn [mbind option_bind].
  set (n := Z.to_nat ((target r - zlen (pending r)) `min` zlen bs)).
  assert (1 <= n <= length bs)%nat as Hn by lia.
  destruct (note_header _) as [r1|e] eqn:Hh.
  2:{ exists (set_pending r (pending r ++ take n bs)), (Err e). split; [done|]. apply Hwf. }
  apply note_header_wf in Hh as (Hn1 & Hf1 & Hp1 & Hw1); [|done|rewrite length_app, length_take; lia].
  assert (pending r1 ++ drop n bs = pending r ++ bs) as Epd
    by (rewrite Hp1, <- app_assoc, take_drop; done).
  destruct (frame_complete r1).
  - destruct (length frames =? MAX_PENDING_FRAMES)%nat; [by exists r1; eexists|].
    cbn [r_nonce set_pending]. rewrite Hn1.
    destruct (decode_owned nonce (pending r1)) as [f|e] eqn:Hd; [|by eexists _, _].
    apply decoded_wire in Hd as [Hf Hd].
    destruct (IH (set_expected (set_pending r1 []) None) (drop n bs) (frames ++ [f])) as (r' & res & -> & Hr).
    { split_and!; [done|done|]. cbn. unfold HEADER_LEN. lia. }
    { rewrite length_drop. lia. }
    exists r', res. split; [done|]. destruct res as [frames'|]; [|done].
    destruct Hr as (fs & -> & Hfs & Hwf' & He). exists (f :: fs).
    split_and!; [by rewrite <- app_assoc|by constructor|done|]. cbn [pending set_expected set_pending app] in He.
    rewrite fmap_cons. cbn [concat]. by rewrite <- Epd, Hd, He, app_assoc.
  - destruct (IH r1 (drop n bs) frames (Hw1 eq_refl)) as (r' & res & -> & Hr); [rewrite length_drop; lia|].
    exists r', res. rewrite Epd in Hr. done.
Qed.

Definition latched (r : FrameReader) : Prop := failed r = true /\ pending r = [].

Lemma feed_sound r bs : reader_wf r -> exists r' res, feed r bs = Some (r', res) /\
  match res with
  | Ok fs => Forall travels fs /\ reader_wf r' /\
      pending r ++ bs = concat (wire <$> fs) ++ pending r'
  | Err _ => latched r'
  end.
Proof.
  intros Hwf. pose proof Hwf as (_ & Hf & _). unfold feed. rewrite Hf.
  destruct (feed_inner_sound (length bs) r bs [] Hwf) as (r' & res & -> & Hr); [done|].
  cbn [mbind option_bind]. exists (fail_reader r' res), res. split; [done|].
  destruct res as [frames'|]; [|done]. by destruct Hr as (fs & -> & ? & ? & ?).
Qed.

Lemma feed_all_sound chunks r : reader_wf r -> exists r' res, feed_all r chunks = Some (r', res) /\
  match res with
  | Ok fs => Forall travels fs /\ reader_wf r' /\
      pending r ++ concat chunks = concat (wire <$> fs) ++ pending r'
  | Err _ => latched r'
  end.
Proof.
  revert r. induction chunks as [|c chunks IH]; intros r Hwf.
  - exists r, (Ok []). cbn [concat]. rewrite app_nil_r. by split_and!.
  - cbn [feed_all]. destruct (feed_sound r c Hwf) as (r1 & [fs|e] & -> & Hr); cbn [mbind option_bind].
    2: by exists r1, (Err e).
    destruct Hr as (Hfs & Hwf1 & He). destruct (IH r1 Hwf1) as (r2 & res & -> & Hr2).
    cbn [mbind option_bind]. destruct res as [rest|e]; [|by exists r2, (Err e)].
    destruct Hr2 as (Hrest & Hwf2 & He2). exists r2, (Ok (fs ++ rest)). split; [done|].
    split_and!; [by apply Forall_app_2|done|]. cbn [concat].
    by rewrite app_assoc, He, <- app_assoc, He2, app_assoc, fmap_app, concat_app.
Qed.

End Frames.

(** ** Reading from a source *)

(** What [Read] promises of a source that only ever fails by being interrupted: the bytes it
    yields are the next ones, it yields none only at the end, and interruptions run out. *)
Class ReadLaws (S : Type) `{ReadSource S} := {
  source_data : S -> list byte;
  interruptions : S -> nat;
  read_yields s n s' bs : 0 < n -> read s n = (s', Ok bs) ->
    source_data s = bs ++ source_data s' /\ zlen bs <= n /\
    (bs = [] -> source_data s = []) /\ (interruptions s' <= interruptions s)%nat;
  read_interrupted s n s' e : read s n = (s', Err e) ->
    e = Interrupted /\ source_data s' = source_data s /\
    (interruptions s' < interruptions s)%nat
}.

Section Sources.
Context {S : Type} `{ReadLaws S} (nonce : Nonce) (nonce_len : length nonce = 32%nat).
Abbreviation wire := (frame_wire nonce).
Abbreviation held := (held nonce).

(** The data [d] agrees with what the reader still lacks of frame [f]. *)
Definition continues (f : Frame) (k : nat) (d : list byte) : Prop :=
  exists x y, d ++ y = drop k (wire f) ++ x.

Lemma continues_app f k bs d : (k + length bs <= length (wire f))%nat ->
  continues f k (bs ++ d) ->
  take k (wire f) ++ bs = take (k + length bs) (wire f) /\ continues f (k + length bs) d.
Proof.
  intros Hl (x & y & E). rewrite <- app_assoc in E.
  assert (bs = take (length bs) (drop k (wire f))) as Eb.
  { apply (f_equal (take (length bs))) in E. rewrite take_app_length in E.
    rewrite take_app_le in E by (rewrite length_drop; lia). done. }
  split.
  - rewrite <- take_take_drop. by rewrite <- Eb.
  - exists x, y. rewrite <- drop_drop. apply (f_equal (drop (length bs))) in E.
    rewrite drop_app_length in E. by rewrite drop_app_le in E by (rewrite length_drop; lia).
Qed.

Lemma read_turn fuel f k s : travels f -> (k < length (wire f))%nat ->
  source_data s <> [] -> continues f k (source_data s) ->
  (exists s', source_data s' = source_data s /\ (interruptions s' < interruptions s)%nat /\
    read_frame_inner (Datatypes.S fuel) (held (wire f) k) s = read_frame_inner fuel (held (wire f) k) s') \/
  exists n s', (1 <= n)%nat /\ (k + n <= length (wire f))%nat /\
    (interruptions s' <= interruptions s)%nat /\ source_data s' = drop n (source_data s) /\
    (n <= length (source_data s))%nat /\ continues f (k + n) (source_data s') /\
    read_frame_inner (Datatypes.S fuel) (held (wire f) k) s =
      if (k + n =? length (wire f))%nat then Some (held (wire f) 0, s', Ok (Some f))
      else read_frame_inner fuel (held (wire f) (k + n)) s'.
Proof.
  intros Hf Hk Hd Hc. cbn [read_frame_inner].
  destruct (turn_facts nonce nonce_len f k (source_data s) Hk Hd) as [_ ->]. cbn [mbind option_bind].
  set (wanted := _ `min` MAX_READER_PAGE).
  assert (0 < wanted <= Z.of_nat (if (k <? 48)%nat then 48 else length (wire f)) - Z.of_nat k) as Hw
    by (unfold wanted, MAX_READER_PAGE; destruct (Nat.ltb_spec k 48); lia).
  destruct (read s wanted) as [s' [bs|e]] eqn:Hr.
  - apply read_yields in Hr as (Hdata & Hl & He & Hi); [|lia].
    destruct bs as [|b0 bs0]; [naive_solver|]. set (bs := b0 :: bs0) in *. right.
    assert (1 <= length bs)%nat by (cbn; lia).
    pose proof (wire_len nonce nonce_len f) as Hlen.
    rewrite Hdata in Hc. destruct (continues_app f k bs (source_data s')) as [E1 Hc'];
      [destruct (Nat.ltb_spec k 48); lia|done|].
    exists (length bs), s'. rewrite Hdata, drop_app_length, length_app.
    split_and!; try done; [destruct (Nat.ltb_spec k 48); lia..|].
    assert (set_pending (held (wire f) k) (pending (held (wire f) k) ++ bs)
      = mkReader nonce (take (k + length bs) (wire f)) (expected (held (wire f) k)) false) as ->.
    { unfold set_pending, WslReader.held. cbn [pending r_nonce expected failed]. by rewrite E1. }
    rewrite note_header_held by (try done; destruct (Nat.ltb_spec k 48); lia).
    rewrite held_complete by (try done; destruct (Nat.ltb_spec k 48); lia).
    destruct (Nat.eqb_spec (k + length bs) (length (wire f))) as [Hcm|]; [|done].
    unfold set_pending, set_expected. cbn [pending r_nonce expected failed].
    replace (pending (held (wire f) (k + length bs))) with (wire f)
      by (unfold WslReader.held; cbn [pending]; rewrite take_ge by lia; done).
    rewrite decode_wire by done. done.
  - apply read_interrupted in Hr as (-> & Hdata & Hi). left. by exists s'.
Qed.

Lemma read_whole f fuel : travels f -> forall k s rest, (k < length (wire f))%nat ->
  source_data s = drop k (wire f) ++ rest ->
  (length (wire f) - k + interruptions s <= fuel)%nat ->
  exists s', read_frame_inner fuel (held (wire f) k) s = Some (held (wire f) 0, s', Ok (Some f)) /\
    source_data s' = rest.
Proof.
  intros Hf. induction fuel as [|fuel IH]; intros k s rest Hk Hd Hfu; [lia|].
  assert (length (drop k (wire f)) = length (wire f) - k)%nat as Hl by apply length_drop.
  destruct (read_turn fuel f k s Hf Hk) as [(s' & Hd' & Hi & ->)|(n & s' & Hn & Hkn & Hi & Hd' & Hln & Hc & ->)].
  - rewrite Hd. intros Hnil%(f_equal length). rewrite length_app in Hnil. cbn [length] in Hnil. lia.
  - rewrite Hd. exists rest, []. by rewrite app_nil_r.
  - apply IH; [done|by rewrite Hd'|lia].
  - rewrite Hd, drop_app_le, drop_drop in Hd' by lia.
    destruct (Nat.eqb_spec (k + n) (length (wire f))) as [Hcm|].
    + exists s'. split; [done|]. rewrite Hd', drop_ge by lia. done.
    + apply IH; [lia|done|lia].
Qed.

Lemma read_truncated f fuel : travels f -> forall k s, (k < length (wire f))%nat ->
  (length (source_data s) < length (wire f) - k)%nat -> (0 < k + length (source_data s))%nat ->
  continues f k (source_data s) -> (length (source_data s) + interruptions s < fuel)%nat ->
  exists r s', read_frame_inner fuel (held (wire f) k) s
    = Some (r, s', invalid "truncated or failed stream").
Proof.
  intros Hf. induction fuel as [|fuel IH]; intros k s Hk Hl Hpos Hc Hfu; [lia|].
  destruct (decide (source_data s = [])) as [Hnil|Hnil].
  - cbn [read_frame_inner].
    destruct (turn_facts nonce nonce_len f k [x00] Hk) as [_ ->]; [done|]. cbn [mbind option_bind].
    set (wanted := _ `min` MAX_READER_PAGE).
    assert (0 < wanted) as Hw by (unfold wanted, MAX_READER_PAGE; destruct (Nat.ltb_spec k 48); lia).
    destruct (read s wanted) as [s' [bs|e]] eqn:Hr.
    + apply read_yields in Hr as (Hdata & _); [|done]. rewrite Hnil in Hdata.
      symmetry in Hdata. apply app_eq_nil in Hdata as [-> _]. unfold finish. cbn [failed WslReader.held orb].
      rewrite bool_decide_eq_false_2; [cbn [negb]; by eexists _, _|].
      intros E%(f_equal length). unfold WslReader.held in E. cbn [pending length] in E.
      rewrite length_take in E. rewrite Hnil in Hpos. cbn [length] in Hpos. lia.
    + apply read_interrupted in Hr as (-> & Hdata & Hi). apply IH; rewrite ?Hdata; (done || lia).
  - destruct (read_turn fuel f k s Hf Hk Hnil Hc) as
      [(s' & Hd' & Hi & ->)|(n & s' & Hn & Hkn & Hi & Hd' & Hln & Hc' & ->)].
    + apply IH; rewrite ?Hd'; (done || lia).
    + assert (length (source_data s') = length (source_data s) - n)%nat as El
        by (rewrite Hd'; apply length_drop).
      destruct (Nat.eqb_spec (k + n) (length (wire f))) as [|]; [lia|].
      apply IH; (done || lia).
Qed.

Lemma read_end fuel : forall s, source_data s = [] -> (interruptions s < fuel)%nat ->
  exists s', read_frame_inner fuel (new_reader nonce) s = Some (new_reader nonce, s', Ok None).
Proof.
  induction fuel as [|fuel IH]; intros s Hnil Hfu; [lia|].
  cbn [read_frame_inner]. change (usize_sub _ _) with (Some 48). cbn [mbind option_bind].
  destruct (read s (48 `min` MAX_READER_PAGE)) as [s' [bs|e]] eqn:Hr.
  - apply read_yields in Hr as (Hdata & _); [|done]. rewrite Hnil in Hdata.
    symmetry in Hdata. apply app_eq_nil in Hdata as [-> _]. by exists s'.
  - apply read_interrupted in Hr as (-> & Hdata & Hi). apply IH; [by rewrite Hdata|lia].
Qed.

Lemma read_exact_whole fuel : forall s d rest, source_data s = d ++ rest ->
  (length d + interruptions s <= fuel)%nat ->
  exists s', read_exact fuel s (zlen d) = Some (s', Ok d) /\ source_data s' = rest /\
    (interruptions s' <= interruptions s)%nat.
Proof.
  induction fuel as [|fuel IH]; intros s d rest Hd Hf;
    (destruct (decide (d = [])) as [->|Hne]; [by exists s|]);
    (assert (0 < length d)%nat by (destruct d; [done|cbn; lia])); [lia|].
  cbn [read_exact]. destruct (Z.eqb_spec (zlen d) 0); [lia|].
  destruct (read s (zlen d)) as [s' [bs|e]] eqn:Hr.
  - apply read_yields in Hr as (Hdata & Hl & He & Hi); [|lia].
    destruct bs as [|b0 bs0].
    { specialize (He eq_refl). rewrite Hd in He. by apply app_eq_nil in He as [-> _]. }
    set (bs := b0 :: bs0) in *. assert (1 <= length bs)%nat by (cbn; lia).
    rewrite Hd in Hdata.
    assert (d = bs ++ drop (length bs) d) as E.
    { apply (f_equal (take (length bs))) in Hdata. rewrite take_app_length in Hdata.
      rewrite take_app_le in Hdata by lia. by rewrite <- Hdata at 1; rewrite take_drop. }
    destruct (IH s' (drop (length bs) d) rest) as (s2 & Hr2 & Hd2 & Hi2).
    { rewrite E, <- app_assoc in Hdata. by apply app_inv_head in Hdata. }
    { rewrite length_drop. lia. }
    replace (zlen d - zlen bs) with (zlen (drop (length bs) d)) by (rewrite length_drop; lia).
    rewrite Hr2. cbn [mbind option_bind result_bind]. exists s2. split_and!; [by rewrite <- E|done|lia].
  - apply read_interrupted in Hr as (-> & Hdata & Hi).
    destruct (IH s' d rest) as (s2 & Hr2 & Hd2 & Hi2); [by rewrite Hdata|lia|].
    exists s2. split_and!; (done || lia).
Qed.

Lemma read_initial_whole f fuel s rest : travels f -> source_data s = wire f ++ rest ->
  (length (wire f) + interruptions s <= fuel)%nat ->
  exists s', read_initial_frame fuel s = Some (s', Ok (nonce, f)) /\ source_data s' = rest.
Proof.
  intros Hf Hd Hfu. pose proof (wire_len nonce nonce_len f) as Hl. unfold read_initial_frame.
  set (h := frame_header nonce (frame_tag f) (zlen (frame_body f))).
  assert (length h = 48%nat) as Hh by (by apply length_frame_header).
  assert (wire f = h ++ frame_body f) as Ew by done.
  destruct (read_exact_whole fuel s h (frame_body f ++ rest)) as (s1 & Hr & Hd1 & Hi1);
    [by rewrite app_assoc|lia|].
  replace (zlen h) with HEADER_LEN in Hr by (unfold HEADER_LEN; lia). rewrite Hr. cbn [mbind option_bind].
  assert (header h None = Ok (nonce, zlen (frame_body f), frame_tag f)) as ->.
  { rewrite <- (app_nil_r h). destruct Hf as (? & ? & ?).
    apply header_complete; auto using frame_tag_valid, frame_reader_length. lia. }
  destruct (read_exact_whole fuel s1 (frame_body f) rest) as (s2 & Hr2 & Hd2 & Hi2); [done|lia|].
  rewrite Hr2. cbn [mbind option_bind]. rewrite <- Ew, decode_wire by done. by exists s2.
Qed.

End Sources.

(** A source that follows a script: short reads, interruptions, then whatever is asked. *)
Record Script := mkScript { script_data : list byte; schedule : list (option nat) }.

#[global] Instance script_read : ReadSource Script := fun s n =>
  match schedule s with
  | None :: sch => (mkScript (script_data s) sch, Err Interrupted)
  | Some m :: sch =>
      let count := Nat.min (S m) (Z.to_nat n) in
      (mkScript (drop count (script_data s)) sch, Ok (take count (script_data s)))
  | [] => (mkScript (drop (Z.to_nat n) (script_data s)) [], Ok (take (Z.to_nat n) (script_data s)))
  end.

Lemma script_take (d : list byte) (count : nat) n i i' : (1 <= count)%nat -> Z.of_nat count <= n ->
  (i' <= i)%nat ->
  d = take count d ++ drop count d /\ zlen (take count d) <= n /\ (take count d = [] -> d = []) /\
  (i' <= i)%nat.
Proof.
  intros. split_and!; [by rewrite take_drop|rewrite length_take; lia| |done].
  destruct d as [|x d], count; (done || lia).
Qed.

#[global] Instance script_laws : ReadLaws Script.
Proof.
  refine {| source_data := script_data; interruptions s := length (schedule s) |}.
  - intros [d [|[m|] sch]] n s' bs Hn [= <- <-].
    + apply (script_take d (Z.to_nat n)); cbn; lia.
    + apply (script_take d (Nat.min (S m) (Z.to_nat n))); cbn [schedule length]; lia.
  - intros [d [|[m|] sch]] n s' e [= <- <-]. by split_and!; cbn; try lia.
Defined.

(** ** The language of control streams *)

Definition neutral (f : Frame) : bool :=
  match f with Failure _ _ | ShutdownPending | Stop | BrokerClose => true | _ => false end.
Definition reader_reply (f : Frame) : Prop :=
  match f with
  | ReaderOpened _ _ | ReaderPage _ _ _ _ _ | ReaderFailed _ _ _ | ReaderClosed _ _ _ => True
  | _ => False
  end.

(** The frames that move the stage. *)
Definition staged (fs : list Frame) : list Frame := List.filter (fun f => negb (neutral f)) fs.

(** [fs], but for neutral frames, is a part of [l] from its start, and the companions' closure
    ends it. *)
Definition follows (l fs : list Frame) : Prop :=
  staged fs `prefix_of` l /\
  forall before after, fs = before ++ LinuxCompanionsClosed :: after -> after = [].

(** The streams a role may send. *)
Definition session (role : Role) (fs : list Frame) : Prop :=
  match role with
  | Supervisor =>
      (exists replies result, Forall reader_reply replies /\
        follows (Ready Supervisor :: WorkloadStarted :: replies
                 ++ [OwnedNamespaceClosed result; LinuxCompanionsClosed]) fs) \/
      (exists result,
        follows [Ready Supervisor; OwnedNamespaceClosed result; LinuxCompanionsClosed] fs)
  | ContextBroker =>
      follows [Ready ContextBroker; LinuxCompanionsClosed] fs \/ follows [LinuxCompanionsClosed] fs
  end.

Lemma follows_nil l : follows l [].
Proof. split; [apply prefix_nil|]. by intros [|? ?]. Qed.

Lemma tail_ends f fs : f <> LinuxCompanionsClosed ->
  (forall before after, f :: fs = before ++ LinuxCompanionsClosed :: after -> after = []) <->
  (forall before after, fs = before ++ LinuxCompanionsClosed :: after -> after = []).
Proof.
  intros Hf. split.
  - intros H b a ->. by apply (H (f :: b)).
  - intros H [|x b] a [= -> E]; [done|]. by apply (H b).
Qed.

Lemma follows_neutral l f fs : neutral f = true -> follows l (f :: fs) <-> follows l fs.
Proof.
  intros Hn. unfold follows. cbn [staged List.filter]. rewrite Hn. cbn [negb].
  rewrite tail_ends by (by intros ->). done.
Qed.

Lemma follows_stage l f fs : neutral f = false -> f <> LinuxCompanionsClosed ->
  follows l (f :: fs) <-> exists l', l = f :: l' /\ follows l' fs.
Proof.
  intros Hn Hf. unfold follows. cbn [staged List.filter]. rewrite Hn, tail_ends by done. cbn [negb]. split.
  - intros [[r ->] Ht]. cbn. eexists; split; [done|]. split; [by eexists|done].
  - intros (l' & -> & [[r ->] Ht]). split; [by eexists|done].
Qed.

Lemma follows_closed l fs :
  follows l (LinuxCompanionsClosed :: fs) <-> fs = [] /\ exists l', l = LinuxCompanionsClosed :: l'.
Proof.
  unfold follows. split.
  - intros [[r ->] Ht]. specialize (Ht [] fs eq_refl) as ->. split; [done|]. by eexists.
  - intros [-> [l' ->]]. split; [by eexists|]. intros [|x [|y b]] a [=]; done.
Qed.

(** What each state of the automaton still accepts. *)
Definition residual (s : ControlState) (fs : list Frame) : Prop :=
  match s with
  | mkControl _ _ _ _ true => fs = []
  | mkControl ContextBroker r _ _ false =>
      (r = false /\ follows [Ready ContextBroker; LinuxCompanionsClosed] fs) \/
      follows [LinuxCompanionsClosed] fs
  | mkControl Supervisor _ _ true false => follows [LinuxCompanionsClosed] fs
  | mkControl Supervisor _ true false false => exists replies result, Forall reader_reply replies /\
      follows (replies ++ [OwnedNamespaceClosed result; LinuxCompanionsClosed]) fs
  | mkControl Supervisor true false false false => (exists replies result, Forall reader_reply replies /\
      follows (WorkloadStarted :: replies ++ [OwnedNamespaceClosed result; LinuxCompanionsClosed]) fs) \/
      (exists result, follows [OwnedNamespaceClosed result; LinuxCompanionsClosed] fs)
  | mkControl Supervisor false false false false => session Supervisor fs
  end.

(** The states a control stream can be in. *)
Definition control_wf (s : ControlState) : Prop :=
  match role_ s with
  | Supervisor => (started s = true -> ready s = true) /\ (namespace_closed s = true -> ready s = true) /\
      (closed s = true -> namespace_closed s = true)
  | ContextBroker => started s = false /\ namespace_closed s = false
  end.

Lemma replies_stage replies result f l' : Forall reader_reply replies ->
  replies ++ [OwnedNamespaceClosed result; LinuxCompanionsClosed] = f :: l' ->
  (reader_reply f /\ exists replies', Forall reader_reply replies' /\
     l' = replies' ++ [OwnedNamespaceClosed result; LinuxCompanionsClosed]) \/
  (f = OwnedNamespaceClosed result /\ l' = [LinuxCompanionsClosed]).
Proof. intros H. destruct H as [|g replies Hg H]; intros [= <- <-]; eauto. Qed.

Lemma staged_replies f fs : neutral f = false -> f <> LinuxCompanionsClosed ->
  (exists replies result, Forall reader_reply replies /\
     follows (replies ++ [OwnedNamespaceClosed result; LinuxCompanionsClosed]) (f :: fs)) <->
  (reader_reply f /\ exists replies result, Forall reader_reply replies /\
     follows (replies ++ [OwnedNamespaceClosed result; LinuxCompanionsClosed]) fs) \/
  (exists result, f = OwnedNamespaceClosed result /\ follows [LinuxCompanionsClosed] fs).
Proof.
  intros Hn Hf. setoid_rewrite follows_stage; [|done..]. split.
  - intros (rs & r & Hrs & l' & E & Hl). apply replies_stage in E as [(? & rs' & ? & ->)|[-> ->]]; eauto 10.
  - intros [(Hr & rs & r & Hrs & Hl)|(r & -> & Hl)].
    + exists (f :: rs), r. split; [by constructor|]. by eexists.
    + exists [], r. split; [constructor|]. by eexists.
Qed.

Lemma closed_replies fs : ~ exists replies result, Forall reader_reply replies /\
  follows (replies ++ [OwnedNamespaceClosed result; LinuxCompanionsClosed]) (LinuxCompanionsClosed :: fs).
Proof.
  intros (rs & r & Hrs & Hf). apply follows_closed in Hf as (-> & l' & E).
  apply replies_stage in E as [[[] _]|[? _]]; done.
Qed.

Lemma residual_neutral s f fs : control_wf s -> neutral f = true -> closed s = false ->
  residual s (f :: fs) <-> residual s fs.
Proof.
  intros Hw Hn Hc. destruct s as [[] r st nc cl]; cbn in Hc; subst cl; cbn [residual].
  - by rewrite !follows_neutral.
  - assert (forall l, follows l (f :: fs) <-> follows l fs) as E by (intros; by apply follows_neutral).
    destruct nc, st, r; unfold session; by repeat setoid_rewrite E.
Qed.

Lemma residual_closed s fs : control_wf s -> closed s = false ->
  residual s (LinuxCompanionsClosed :: fs) <->
  fs = [] /\ (role_ s = ContextBroker \/ namespace_closed s = true).
Proof.
  intros Hw Hc. destruct s as [[] r st nc cl]; cbn in Hc; subst cl; cbn [residual role_ namespace_closed].
  - rewrite !follows_closed. naive_solver.
  - destruct nc; [destruct r, st; rewrite follows_closed; naive_solver|].
    split; [intros H; exfalso|by intros [_ [?|?]]].
    destruct r, st; try by apply closed_replies in H.
    all: destruct H as [(? & ? & _ & H)|(? & H)]; apply follows_closed in H as (_ & ? & ?); done.
Qed.

(** Decide the comparisons of roles. *)
Ltac role_tests := unfold accept;
  change (bool_decide (ContextBroker = Supervisor)) with false;
  change (bool_decide (Supervisor = ContextBroker)) with false;
  change (bool_decide (ContextBroker = ContextBroker)) with true;
  change (bool_decide (Supervisor = Supervisor)) with true; cbn.

Lemma accept_broker r cl f fs : neutral f = false -> f <> LinuxCompanionsClosed ->
  let s := mkControl ContextBroker r false false cl in
  match accept s f with
  | Ok s' => control_wf s' /\ (residual s (f :: fs) <-> residual s' fs)
  | Err _ => ~ residual s (f :: fs)
  end.
Proof.
  intros Hn Hl s. destruct cl; [done|]. subst s.
  assert (residual (mkControl ContextBroker r false false false) (f :: fs) <->
    f = Ready ContextBroker /\ r = false /\ follows [LinuxCompanionsClosed] fs) as E.
  { cbn [residual]. rewrite !follows_stage by done. naive_solver. }
  revert E. generalize (residual (mkControl ContextBroker r false false false) (f :: fs)). intros P E.
  destruct f; try discriminate Hn; try done; try (role_tests; rewrite E; naive_solver).
  destruct role, r; role_tests; rewrite E; naive_solver.
Qed.

Lemma accept_supervisor r st nc cl f fs : neutral f = false -> f <> LinuxCompanionsClosed ->
  let s := mkControl Supervisor r st nc cl in control_wf s ->
  match accept s f with
  | Ok s' => control_wf s' /\ (residual s (f :: fs) <-> residual s' fs)
  | Err _ => ~ residual s (f :: fs)
  end.
Proof.
  intros Hn Hl s Hw. destruct cl; [by destruct r, st, nc|]. subst s.
  assert (residual (mkControl Supervisor r st nc false) (f :: fs) <->
    match r, st, nc with
    | _, _, true => False
    | _, true, false => reader_reply f /\ residual (mkControl Supervisor r st nc false) fs \/
        (exists result, f = OwnedNamespaceClosed result) /\ follows [LinuxCompanionsClosed] fs
    | true, false, false => f = WorkloadStarted /\ residual (mkControl Supervisor r true false false) fs \/
        (exists result, f = OwnedNamespaceClosed result) /\ follows [LinuxCompanionsClosed] fs
    | false, false, false => f = Ready Supervisor /\ residual (mkControl Supervisor true false false false) fs
    end) as E.
  { destruct r, st, nc; cbn [residual]; rewrite ?staged_replies by done; unfold session;
      try (setoid_rewrite follows_stage; [|done..]); naive_solver. }
  revert E. generalize (residual (mkControl Supervisor r st nc false) (f :: fs)). intros P E.
  unfold control_wf in Hw. cbn in Hw.
  destruct f; try discriminate Hn; try done; destruct r, st, nc;
    try (role_tests; rewrite E; naive_solver).
  all: destruct role; role_tests; rewrite E; naive_solver.
Qed.

Lemma accept_step s f fs : control_wf s ->
  match accept s f with
  | Ok s' => control_wf s' /\ (residual s (f :: fs) <-> residual s' fs)
  | Err _ => ~ residual s (f :: fs)
  end.
Proof.
  intros Hw. destruct (closed s) eqn:Hc.
  { destruct s as [[] r st nc cl]; cbn in Hc; subst cl; [done|by destruct r, st, nc]. }
  destruct (neutral f) eqn:Hn.
  { pose proof (residual_neutral s f fs Hw Hn Hc). destruct s; cbn in Hc; subst; by destruct f. }
  assert (f = LinuxCompanionsClosed \/ f <> LinuxCompanionsClosed) as [->|Hf]
    by (destruct f; (by left) || by right).
  - pose proof (residual_closed s fs Hw Hc) as E. revert E.
    generalize (residual s (LinuxCompanionsClosed :: fs)). intros P E.
    destruct s as [[] r st nc cl]; cbn in Hc; subst cl; unfold control_wf in *; cbn in *.
    + destruct Hw as [-> ->]. role_tests. rewrite E. naive_solver.
    + destruct nc; role_tests; rewrite E; [|naive_solver].
      destruct r, st; naive_solver.
  - destruct s as [[] r st nc cl].
    + destruct Hw as [Hs Hnc]. cbn in Hs, Hnc. subst. by apply accept_broker.
    + by apply accept_supervisor.
Qed.

Lemma accept_all_residual fs : forall s, control_wf s ->
  is_ok (accept_all s fs) = true <-> residual s fs.
Proof.
  induction fs as [|f fs IH]; intros s Hw; cbn [accept_all].
  - cbn. split; [intros _|done]. destruct s as [[] [] [] [] []]; cbn [residual]; unfold session;
      first [done | left; apply follows_nil | apply follows_nil | right; apply follows_nil |
        right; exists (mkWorkloadResult (Exited 0) None (mkTail [] false) (mkTail [] false)); apply follows_nil |
        exists [], (mkWorkloadResult (Exited 0) None (mkTail [] false) (mkTail [] false)); split; [done|apply follows_nil]].
  - pose proof (accept_step s f fs Hw) as H. destruct (accept s f) as [s'|e]; cbn [mbind result_bind].
    + destruct H as [Hw' ->]. by apply IH.
    + done.
Qed.

(** ** Properties *)

Lemma new_reader_held nonce w : new_reader nonce = held nonce w 0.
Proof. done. Qed.
Lemma new_reader_wf nonce : reader_wf nonce (new_reader nonce).
Proof. split_and!; [done|done|]. cbn. unfold HEADER_LEN. lia. Qed.

(** C6: chunking does not matter. Feed the encodings of a list of frames in any chunks: if no chunk
    completes more than [MAX_PENDING_FRAMES] of them, the calls together return exactly those frames
    in order and leave the reader as new; if one does, and only then, the feeding ends in the error
    for it.  (A frame is completed by the chunk that holds its last byte.) *)
Theorem feed_reassembles nonce fs ws chunks : length nonce = 32%nat ->
  encodes nonce fs ws -> concat chunks = concat ws ->
  let counts := completed 0 (frame_ends 0 ws) chunks in
  Forall (fun n => n <= MAX_PENDING_FRAMES)%nat counts /\
    feed_all (new_reader nonce) chunks = Some (new_reader nonce, Ok fs) \/
  Exists (fun n => MAX_PENDING_FRAMES < n)%nat counts /\
    exists r, feed_all (new_reader nonce) chunks = Some (r, invalid "too many queued frames").
Proof.
  intros Hn He Hc. apply encodes_wires in He as [Hfs ->]; [|done].
  pose proof (feed_all_spec nonce Hn Initialize 0 chunks) as H.
  specialize (H ltac:(by unfold travels; cbn) ltac:(rewrite wire_len by done; lia) fs 0%nat Hfs).
  apply H; [rewrite wire_len by done; lia|]. unfold stream. cbn [take app].
  by rewrite Hc, app_nil_r.
Qed.

Lemma feed_reassembles_witness :
  let w := (match encode_frame sample_nonce sample_frame with Ok b => b | Err _ => [] end) in
  let s := (match encode_frame sample_nonce Stop with Ok b => b | Err _ => [] end) in
  feed_all (new_reader sample_nonce) [take 50 w; drop 50 w ++ take 7 s; drop 7 s]
  = Some (new_reader sample_nonce, Ok [sample_frame; Stop]).
Proof.
  intros w s.
  destruct (feed_reassembles sample_nonce [sample_frame; Stop] [w; s]
    [take 50 w; drop 50 w ++ take 7 s; drop 7 s]) as [[_ H]|(H & _)].
  - reflexivity.
  - unfold encodes. constructor; [split; [split_and!; [reflexivity|unfold is_u64; lia..]|vm_compute; reflexivity]|].
    constructor; [split; [exact I|vm_compute; reflexivity]|constructor].
  - vm_compute. reflexivity.
  - exact H.
  - exfalso. vm_compute in H. repeat (apply Exists_cons in H as [H|H]; [lia|]). by apply Exists_nil in H.
Defined.

(** C7: whatever bytes arrive, feeding never panics or loops. The frames returned so far and
    the bytes held back are exactly the bytes fed, the frames are the ones their bytes encode,
    less than one frame is held back, and [finish] succeeds only on a whole number of frames.
    After an error the buffer is empty and every later call is refused. *)
Theorem feed_accounts nonce chunks : length nonce = 32%nat ->
  exists r res, feed_all (new_reader nonce) chunks = Some (r, res) /\
  match res with
  | Ok fs => (exists ws, encodes nonce fs ws /\ concat chunks = concat ws ++ pending r) /\
      zlen (pending r) < HEADER_LEN + MAX_PAYLOAD_LEN /\ (is_ok (finish r) = true <-> pending r = [])
  | Err _ => pending r = [] /\ is_ok (finish r) = false /\
      forall bs, feed r bs = Some (r, invalid "reader already failed")
  end.
Proof.
  intros Hn. destruct (feed_all_sound nonce Hn chunks (new_reader nonce) (new_reader_wf nonce))
    as (r & res & -> & H).
  exists r, res. split; [done|]. destruct res as [fs|e].
  - destruct H as (Hfs & Hwf & He). split_and!.
    + exists (frame_wire nonce <$> fs). split; [by apply wires_encode|exact He].
    + by apply (reader_wf_room nonce).
    + destruct Hwf as (_ & Hf & _). unfold finish. rewrite Hf. cbn [orb].
      case_bool_decide; cbn; naive_solver.
  - destruct H as [Hf Hp]. unfold feed, finish. rewrite Hf, Hp. cbn. by split_and!.
Qed.

Lemma feed_accounts_witness : exists r res,
  feed_all (new_reader sample_nonce) [replicate 48 x00] = Some (r, res) /\ is_ok res = false.
Proof.
  destruct (feed_accounts sample_nonce [replicate 48 x00] eq_refl) as (r & res & H & _).
  exists r, res. split; [exact H|]. vm_compute in H. injection H as <- <-. reflexivity.
Defined.

Lemma initial_frame_exact {S} `{ReadLaws S} nonce f w rest fuel (s : S) : length nonce = 32%nat ->
  frame_typed f -> encode_frame nonce f = Ok w -> source_data s = w ++ rest ->
  (length w + interruptions s <= fuel)%nat ->
  exists s', read_initial_frame fuel s = Some (s', Ok (nonce, f)) /\ source_data s' = rest.
Proof.
  intros Hn Ht He Hd Hfu. apply encode_frame_Ok in He as (Hv & Hl & ->); [|done].
  by apply (read_initial_whole nonce Hn f).
Qed.

(** Reading one frame from a source that splits, shortens and interrupts its reads as it
    likes. With enough turns for the bytes and the interruptions: a source that goes on with a
    frame's encoding gives that frame and is left just behind it with the reader as new; an
    exhausted source gives [None]; one that ends inside a frame gives an error and closes the
    reader.  [read_initial_frame], which opens a session, learns the nonce and the frame from
    such a source and leaves it just behind the frame. *)
Theorem read_frame_exact {S} `{ReadLaws S} nonce f w fuel (s : S) : length nonce = 32%nat ->
  frame_typed f -> encode_frame nonce f = Ok w ->
  (length (source_data s) + interruptions s < fuel)%nat ->
  (forall rest, source_data s = w ++ rest -> exists s', source_data s' = rest /\
     read_frame fuel (new_reader nonce) s = Some (new_reader nonce, s', Ok (Some f))) /\
  (forall k, (k < length w)%nat -> source_data s = take k w ->
     exists r s', read_frame fuel (new_reader nonce) s =
       Some (r, s', if (k =? 0)%nat then Ok None else invalid "truncated or failed stream") /\
     failed r = negb (k =? 0)%nat) /\
  (forall rest, source_data s = w ++ rest -> exists s', read_initial_frame fuel s = Some (s', Ok (nonce, f)) /\
     source_data s' = rest).
Proof.
  intros Hn Ht He Hfu.
  assert (Hinit : forall rest, source_data s = w ++ rest -> exists s', read_initial_frame fuel s = Some (s', Ok (nonce, f)) /\
     source_data s' = rest).
  { intros rest Hd. apply (initial_frame_exact nonce f w); try done. rewrite Hd, length_app in Hfu. lia. }
  apply encode_frame_Ok in He as (Hv & Hl & ->); [|done].
  assert (travels f) as Hf by done.
  unfold read_frame. cbn [failed new_reader]. split_and!; [| |done].
  - intros rest Hd. rewrite (new_reader_held nonce (frame_wire nonce f)).
    destruct (read_whole nonce Hn f fuel Hf 0 s rest) as (s' & -> & Hr); [|done| |by exists s'].
    + rewrite wire_len by done. lia.
    + rewrite Hd, length_app in Hfu. lia.
  - intros k Hk Hd. destruct (Nat.eqb_spec k 0) as [->|Hk0].
    + destruct (read_end nonce Hn fuel s) as (s' & ->); [done|lia|]. by exists (new_reader nonce), s'.
    + rewrite (new_reader_held nonce (frame_wire nonce f)).
      assert (length (source_data s) = k) as Hlk by (rewrite Hd, length_take; lia).
      destruct (read_truncated nonce Hn f fuel Hf 0 s) as (r & s' & ->); try lia; [|by eexists _, s'].
      exists [], (drop k (frame_wire nonce f)). by rewrite Hd, take_drop, app_nil_r.
Qed.

Definition script_of (w : list byte) : Script := mkScript w [Some 4%nat; None; Some 60%nat; None].

Lemma read_frame_exact_witness :
  let w := (match encode_frame sample_nonce sample_frame with Ok b => b | Err _ => [] end) in
  exists s', script_data s' = [x2a] /\
  read_frame 200 (new_reader sample_nonce) (script_of (w ++ [x2a]))
  = Some (new_reader sample_nonce, s', Ok (Some sample_frame)).
Proof.
  intros w.
  destruct (read_frame_exact (S := Script) sample_nonce sample_frame w 200 (script_of (w ++ [x2a])))
    as [H _];
    [reflexivity|split_and!; [reflexivity|unfold is_u64; lia..]|vm_compute; reflexivity| |].
  - apply Nat.ltb_lt. vm_compute. reflexivity.
  - exact (H [x2a] eq_refl).
Defined.

(** The control stage accepts exactly the sessions of its role. But for failure reports and
    shutdown requests, a supervisor's stream is its readiness, then optionally the workload's
    start followed by reader replies, then the closure of the namespace and of the companions; a
    broker's is its readiness, which it may omit, then the closure of the companions; a stream
    may stop anywhere, and nothing at all follows the closure of the companions. *)
Theorem control_accepts_sessions role fs :
  is_ok (accept_all (new_control role) fs) = true <-> session role fs.
Proof.
  rewrite accept_all_residual; [|by destruct role].
  destruct role; [|done]. cbn [residual new_control session]. naive_solver.
Qed.
