(* ===== verification/ModelIds.v ===== *)
(** * Stable identities, revisions and image labels of the shared model

    [crates/beryl-model/src/ids.rs], [revision.rs] and the label ordinals of [asset.rs].
    The macro [stable_identity!] defines one type per prefix; here the types are the
    constructors of [IdKind] and the generated functions take the kind.  An identity is its
    16 bytes, a text its UTF-8 bytes. *)
From stdpp Require Import prelude strings.
From S2P Require Import Prelude.
From S2P Require Import Bytes.

Open Scope Z_scope.

Definition ID_BYTES : nat := 16.
Definition HEX_BYTES : nat := ID_BYTES * 2.

Inductive IdKind :=
  | BerylHomeId | WindowId | RuntimeId | RootId | SyndicThreadId | SyndicTurnId | SyndicDraftId
  | SyndicContentId | SyndicDraftMarkerId | SyndicItemId | SyndicAcceptedInputId
  | SyndicRetryRecordId | SyndicProjectionId | SyndicResourceId | SyndicExecutionSnapshotId
  | ProviderObservationId | CommandId | IdempotencyKey | JobId | ResolutionIntentId
  | VirtualDesktopId.

#[global] Instance IdKind_eq_dec : EqDecision IdKind.
Proof. solve_decision. Defined.

Definition prefix_string (k : IdKind) : string :=
  match k with
  | BerylHomeId => "home_"
  | WindowId => "window_"
  | RuntimeId => "runtime_"
  | RootId => "root_"
  | SyndicThreadId => "syndic_thread_"
  | SyndicTurnId => "syndic_turn_"
  | SyndicDraftId => "syndic_draft_"
  | SyndicContentId => "syndic_content_"
  | SyndicDraftMarkerId => "syndic_marker_"
  | SyndicItemId => "syndic_item_"
  | SyndicAcceptedInputId => "syndic_accepted_"
  | SyndicRetryRecordId => "syndic_retry_"
  | SyndicProjectionId => "syndic_projection_"
  | SyndicResourceId => "syndic_resource_"
  | SyndicExecutionSnapshotId => "syndic_execution_"
  | ProviderObservationId => "provider_observation_"
  | CommandId => "command_"
  | IdempotencyKey => "idempotency_"
  | JobId => "job_"
  | ResolutionIntentId => "resolution_intent_"
  | VirtualDesktopId => "desktop_"
  end.

Definition prefix (k : IdKind) : list byte := bytes_of_string (prefix_string k).

Inductive IdentityParseError :=
  | WrongPrefix (expected : IdKind)
  | WrongLength (expected actual : nat)
  | InvalidHex (index : nat).

Definition decode_nibble (b : byte) (index : nat) : result IdentityParseError Z :=
  let v := byte_val b in
  if (48 <=? v) && (v <=? 57) then Ok (v - 48)
  else if (97 <=? v) && (v <=? 102) then Ok (v - 97 + 10)
  else Err (InvalidHex index).

(** [str::strip_prefix] on the bytes. *)
Fixpoint strip_prefix (p s : list byte) : option (list byte) :=
  match p, s with
  | [], _ => Some s
  | a :: p, b :: s => if decide (a = b) then strip_prefix p s else None
  | _ :: _, [] => None
  end.

(** The loop over [chunks_exact(2)], at pair number [index]. *)
Fixpoint decode_pairs (index : nat) (payload : list byte) : result IdentityParseError (list byte) :=
  match payload with
  | a :: b :: rest =>
      high ← decode_nibble a (index * 2);
      low ← decode_nibble b (index * 2 + 1);
      bytes ← decode_pairs (S index) rest;
      Ok (byte_of (Z.lor (Z.shiftl high 4) low) :: bytes)
  | _ => Ok []
  end.

Definition from_str (k : IdKind) (value : list byte) : result IdentityParseError (list byte) :=
  payload ← ok_or (WrongPrefix k) (strip_prefix (prefix k) value);
  if negb (length payload =? HEX_BYTES)%nat then Err (WrongLength HEX_BYTES (length payload))
  else decode_pairs 0 payload.

(** One digit of the [{:02x}] format. *)
Definition hex_digit (v : Z) : byte := if v <? 10 then byte_of (48 + v) else byte_of (97 + (v - 10)).

Definition hex_pair (b : byte) : list byte := [hex_digit (byte_val b / 16); hex_digit (byte_val b mod 16)].

Definition display (k : IdKind) (id : list byte) : list byte := prefix k ++ concat (hex_pair <$> id).

(** The identity transitions of a draft keep its bytes. *)
Definition submitted_turn_id (draft : list byte) : list byte := draft.
Definition accepted_input_id (draft : list byte) : list byte := draft.

(** [SyndicContentId::from_digest]: the loop copies bytes 0 to 15. *)
Definition from_digest (digest : list byte) : list byte :=
  (fun i => default x00 (digest !! i)) <$> seq 0 ID_BYTES.

(** ** Revisions: non-zero 64-bit counters *)

Inductive RevisionError := ZeroRevision | ExhaustedRevision.

(** [NonZeroU64::new] *)
Definition nonzero (value : Z) : option Z := if value =? 0 then None else Some value.

Definition new_revision (value : Z) : result RevisionError Z := ok_or ZeroRevision (nonzero value).

Definition checked_next (revision : Z) : result RevisionError Z :=
  ok_or ExhaustedRevision (checked_add64 revision 1 ≫= nonzero).

(** ** Image labels: the same counters, displayed in bijective base 26 *)

Inductive ImageLabelOrdinalError := ZeroLabel | ExhaustedLabel.

Definition new_label (value : Z) : result ImageLabelOrdinalError Z := ok_or ZeroLabel (nonzero value).

Definition next_label (label : Z) : result ImageLabelOrdinalError Z :=
  ok_or ExhaustedLabel (checked_add64 label 1 ≫= nonzero).

(** The loop fills [encoded] from its end; [room] is [start], the free places left. *)
Fixpoint label_loop (room : nat) (value : Z) (encoded : list byte) : option (list byte) :=
  if value =? 0 then Some encoded
  else
    match room with
    | O => None
    | S room =>
        let value := value - 1 in
        label_loop room (value / 26) (byte_of (65 + value mod 26) :: encoded)
    end.

(** [None] is the panic of an array index below zero. *)
Definition display_label (label : Z) : option (list byte) := label_loop 14 label [].

(** ** Lemmas *)

Lemma strip_prefix_Some p s r : strip_prefix p s = Some r <-> s = p ++ r.
Proof.
  revert s. induction p as [|a p IH]; intros s; cbn; [naive_solver|].
  destruct s as [|b s]; [naive_solver|]. case_decide as E; [subst|naive_solver].
  rewrite IH. naive_solver.
Qed.

Lemma hex_digit_val v : 0 <= v < 16 -> byte_val (hex_digit v) = if v <? 10 then 48 + v else 87 + v.
Proof. intros. unfold hex_digit. destruct (Z.ltb_spec v 10); rewrite byte_val_of_small; lia. Qed.

Lemma decode_hex_digit v i : 0 <= v < 16 -> decode_nibble (hex_digit v) i = Ok v.
Proof.
  intros Hv. unfold decode_nibble. rewrite hex_digit_val by done.
  destruct (Z.ltb_spec v 10).
  - destruct (Z.leb_spec 48 (48 + v)), (Z.leb_spec (48 + v) 57); try lia. cbn. f_equal. lia.
  - destruct (Z.leb_spec 48 (87 + v)), (Z.leb_spec (87 + v) 57); try lia. cbn.
    destruct (Z.leb_spec 97 (87 + v)), (Z.leb_spec (87 + v) 102); try lia. cbn. f_equal. lia.
Qed.

Lemma decode_nibble_Ok b i v : decode_nibble b i = Ok v <-> 0 <= v < 16 /\ b = hex_digit v.
Proof.
  split; [|intros [? ->]; by apply decode_hex_digit].
  unfold decode_nibble. intros H.
  assert (0 <= v < 16 /\ byte_val b = if v <? 10 then 48 + v else 87 + v) as [Hv Hb].
  { repeat case_match; bool_facts; simplify_eq; try lia. }
  split; [done|]. apply byte_val_inj. by rewrite hex_digit_val.
Qed.

Lemma nibbles_join h l : 0 <= h < 16 -> 0 <= l < 16 -> Z.lor (Z.shiftl h 4) l = h * 16 + l.
Proof.
  intros Hh Hl.
  assert (forall a b : nat, (a < 16)%nat -> (b < 16)%nat ->
    Z.lor (Z.shiftl (Z.of_nat a) 4) (Z.of_nat b) = Z.of_nat a * 16 + Z.of_nat b) as H.
  { intros a b Ha Hb. do 16 (destruct a as [|a]; [do 16 (destruct b as [|b]; [reflexivity|]); lia|]). lia. }
  specialize (H (Z.to_nat h) (Z.to_nat l)). rewrite !Z2Nat.id in H by lia. apply H; lia.
Qed.

Lemma hex_pair_join b :
  byte_of (Z.lor (Z.shiftl (byte_val b / 16) 4) (byte_val b mod 16)) = b.
Proof.
  pose proof (byte_val_range b).
  assert (0 <= byte_val b / 16 < 16) by (split; [apply Z.div_pos|apply Z.div_lt_upper_bound]; lia).
  pose proof (Z.mod_pos_bound (byte_val b) 16 eq_refl).
  rewrite nibbles_join by lia. rewrite <- (byte_of_val b) at 3. f_equal.
  pose proof (Z.div_mod (byte_val b) 16). lia.
Qed.

Lemma hex_pair_of h l : 0 <= h < 16 -> 0 <= l < 16 ->
  hex_pair (byte_of (Z.lor (Z.shiftl h 4) l)) = [hex_digit h; hex_digit l].
Proof.
  intros Hh Hl. rewrite nibbles_join by done. unfold hex_pair.
  rewrite byte_val_of_small by lia.
  replace ((h * 16 + l) / 16) with h; [replace ((h * 16 + l) mod 16) with l; [done|]|].
  - rewrite Z.add_comm, Z.mod_add, Z.mod_small; lia.
  - rewrite Z.add_comm, Z.div_add, Z.div_small; lia.
Qed.

Lemma decode_pairs_Ok payload i id : Nat.Even (length payload) ->
  decode_pairs i payload = Ok id <-> payload = concat (hex_pair <$> id).
Proof.
  revert payload i. induction id as [|b id IH]; intros payload i Hev.
  - destruct payload as [|x [|y rest]]; cbn; [done| |].
    + destruct Hev as [n Hn]. cbn in Hn. lia.
    + split; [|done]. intros H. invert_ok H.
  - destruct payload as [|x [|y rest]]; cbn [decode_pairs].
    + done.
    + destruct Hev as [n Hn]. cbn in Hn. lia.
    + assert (Nat.Even (length rest)) as Hev' by (destruct Hev as [n Hn]; exists (n - 1)%nat; cbn in Hn; lia).
      split.
      * intros H. apply result_bind_Ok in H as (h & Hh & H). apply result_bind_Ok in H as (l & Hl & H).
        apply result_bind_Ok in H as (id' & Hid & [= Hb ->]).
        apply decode_nibble_Ok in Hh as [Hh ->]. apply decode_nibble_Ok in Hl as [Hl ->].
        apply IH in Hid as ->; [|done]. rewrite fmap_cons. cbn [concat].
        by rewrite <- Hb, hex_pair_of.
      * rewrite fmap_cons. cbn [concat hex_pair app]. intros [= -> -> E]. pose proof (byte_val_range b).
        rewrite !decode_hex_digit
          by (try apply Z.mod_pos_bound; try split; try apply Z.div_pos; try apply Z.div_lt_upper_bound; lia).
        cbn [mbind result_bind]. rewrite (proj2 (IH rest (S i) Hev') E). cbn. by rewrite hex_pair_join.
Qed.

Lemma length_hex id : length (concat (hex_pair <$> id)) = (2 * length id)%nat.
Proof. induction id as [|b id IH]; [done|]. rewrite fmap_cons. cbn [concat hex_pair app length]. lia. Qed.

Lemma from_str_Ok k value id : from_str k value = Ok id <-> length id = ID_BYTES /\ value = display k id.
Proof.
  unfold from_str, display. rewrite result_bind_Ok. setoid_rewrite ok_or_Ok.
  setoid_rewrite strip_prefix_Some. split.
  - intros (payload & -> & H). destruct (Nat.eqb_spec (length payload) HEX_BYTES) as [Hl|]; [|done].
    cbn [negb] in H. apply decode_pairs_Ok in H as ->; [|rewrite Hl; by exists 16%nat].
    rewrite length_hex in Hl. unfold HEX_BYTES in *. split; [lia|done].
  - intros [Hl ->]. eexists. split; [done|]. rewrite length_hex, Hl. cbn [negb Nat.eqb].
    change (2 * ID_BYTES =? HEX_BYTES)%nat with true. cbn [negb].
    apply decode_pairs_Ok; [|done]. rewrite length_hex, Hl. by exists 16%nat.
Qed.

(** ** Where parsing fails *)

Definition is_hex (b : byte) : bool := is_ok (decode_nibble b 0).

Lemma decode_nibble_Err b i e : decode_nibble b i = Err e <-> is_hex b = false /\ e = InvalidHex i.
Proof. unfold is_hex, decode_nibble. repeat case_match; cbn; naive_solver. Qed.

Lemma is_hex_Ok b i : is_hex b = true -> exists v, decode_nibble b i = Ok v.
Proof. unfold is_hex, decode_nibble. repeat case_match; cbn; naive_solver. Qed.

(** The first character that is no lowercase hexadecimal digit. *)
Definition first_bad (payload : list byte) (i : nat) : Prop :=
  (exists b, payload !! i = Some b /\ is_hex b = false) /\
  forall j b, (j < i)%nat -> payload !! j = Some b -> is_hex b = true.

Lemma first_bad_here a rest i : is_hex a = false -> first_bad (a :: rest) i <-> i = 0%nat.
Proof.
  intros Ha. unfold first_bad. split.
  - intros [_ H]. destruct i; [done|]. specialize (H 0%nat a ltac:(lia) eq_refl). congruence.
  - intros ->. split; [by exists a|]. lia.
Qed.

Lemma first_bad_later a rest i : is_hex a = true ->
  first_bad (a :: rest) i <-> exists j, i = S j /\ first_bad rest j.
Proof.
  intros Ha. unfold first_bad. split.
  - intros [(b & Hb & Hh) H]. destruct i as [|i]; [cbn in Hb; congruence|].
    exists i. split; [done|]. split; [by exists b|]. intros j c Hj Hc. apply (H (S j)); [lia|done].
  - intros (j & -> & (b & Hb & Hh) & H). split; [by exists b|].
    intros [|k] c Hk Hc; [by injection Hc as <-|]. apply (H k); [lia|done].
Qed.

Lemma decode_pairs_Err n : forall payload i e, length payload = (n * 2)%nat ->
  decode_pairs i payload = Err e <-> exists j, first_bad payload j /\ e = InvalidHex (i * 2 + j).
Proof.
  induction n as [|n IH]; intros payload i e Hl.
  - apply nil_length_inv in Hl as ->. cbn. split; [done|]. intros (j & [(b & Hb & _) _] & _). done.
  - destruct payload as [|x [|y rest]]; cbn in Hl; try lia. cbn [decode_pairs].
    destruct (is_hex x) eqn:Hx.
    2:{ rewrite (proj2 (decode_nibble_Err x _ _) (conj Hx eq_refl)). cbn [mbind result_bind].
        setoid_rewrite first_bad_here; [|done]. rewrite <- (Nat.add_0_r (i * 2)) at 1. naive_solver. }
    destruct (is_hex_Ok x (i * 2) Hx) as [h ->]. cbn [mbind result_bind].
    setoid_rewrite first_bad_later; [|done]. destruct (is_hex y) eqn:Hy.
    2:{ rewrite (proj2 (decode_nibble_Err y _ _) (conj Hy eq_refl)). cbn [mbind result_bind].
        setoid_rewrite first_bad_here; [|done]. naive_solver. }
    destruct (is_hex_Ok y (i * 2 + 1) Hy) as [l ->]. cbn [mbind result_bind].
    setoid_rewrite first_bad_later; [|done].
    specialize (IH rest (S i) e ltac:(lia)). destruct (decode_pairs (S i) rest) as [bs|e'].
    + cbn [mbind result_bind]. split; [done|]. intros (j & (j1 & -> & j2 & -> & Hb) & ->).
      assert (Ok bs = Err (InvalidHex (i * 2 + S (S j2)))) as [=]. apply IH.
      exists j2. split; [done|]. f_equal. lia.
    + cbn [mbind result_bind]. rewrite IH. split.
      * intros (j & Hb & ->). exists (S (S j)). split; [eauto 6|]. f_equal. lia.
      * intros (j & (j1 & -> & j2 & -> & Hb) & ->). exists j2. split; [done|]. f_equal. lia.
Qed.

(** ** Labels *)

Definition label_value (t : list byte) : Z :=
  fold_left (fun acc b => acc * 26 + (byte_val b - 64)) t 0.
Definition upper (b : byte) : Prop := 65 <= byte_val b <= 90.

Lemma label_loop_spec room v enc : 0 <= v < 26 ^ Z.of_nat room ->
  exists t, label_loop room v enc = Some (t ++ enc) /\ label_value t = v /\ Forall upper t /\
    (length t <= room)%nat /\ (v <> 0 -> t <> []).
Proof.
  revert v enc. induction room as [|room IH]; intros v enc Hv.
  - assert (v = 0) as -> by (cbn in Hv; lia). exists []. by split_and!.
  - cbn [label_loop]. destruct (Z.eqb_spec v 0) as [->|Hv0]; [exists []; by split_and!; cbn; try lia|].
    rewrite Nat2Z.inj_succ, Z.pow_succ_r in Hv by lia.
    pose proof (Z.mod_pos_bound (v - 1) 26 eq_refl). pose proof (Z.div_mod (v - 1) 26 ltac:(lia)).
    destruct (IH ((v - 1) / 26) (byte_of (65 + (v - 1) mod 26) :: enc)) as (t & Hr & Ht & Hu & Hl & _).
    { split; [apply Z.div_pos; lia|apply Z.div_lt_upper_bound; lia]. }
    exists (t ++ [byte_of (65 + (v - 1) mod 26)]). rewrite Hr, <- app_assoc.
    split_and!; [done| | |rewrite length_app; cbn; lia|by destruct t].
    + unfold label_value in *. rewrite fold_left_app. cbn [fold_left].
      rewrite Ht, byte_val_of_small by lia. lia.
    + apply Forall_app. split; [done|]. apply Forall_singleton. unfold upper.
      rewrite byte_val_of_small; lia.
Qed.

(** ** Properties *)

(** Two kinds never display the same text. *)
Lemma identity_kinds_disjoint k k' id id' : length id = ID_BYTES -> length id' = ID_BYTES ->
  display k id = display k' id' -> k = k' /\ id = id'.
Proof.
  intros Hl Hl' E.
  assert (prefix k = prefix k' /\ concat (hex_pair <$> id) = concat (hex_pair <$> id')) as [Hp Hh].
  { unfold display in E. apply (app_inj_2 _ _ _ _); [by rewrite !length_hex, Hl, Hl'|done]. }
  assert (k = k') as <- by (destruct k, k'; try done; discriminate Hp). split; [done|].
  assert (from_str k (display k id) = Ok id) as H1 by (by apply from_str_Ok).
  assert (from_str k (display k id') = Ok id') as H2 by (by apply from_str_Ok).
  rewrite E in H1. congruence.
Qed.

Lemma identity_parse_errors k value e :
  from_str k value = Err e <->
  match e with
  | WrongPrefix k' => k' = k /\ ~ exists payload, value = prefix k ++ payload
  | WrongLength expected actual => expected = HEX_BYTES /\ actual <> HEX_BYTES /\
      exists payload, value = prefix k ++ payload /\ length payload = actual
  | InvalidHex i => exists payload, value = prefix k ++ payload /\ length payload = HEX_BYTES /\
      first_bad payload i
  end.
Proof.
  unfold from_str. destruct (strip_prefix (prefix k) value) as [payload|] eqn:Es; cbn [ok_or mbind result_bind].
  - apply strip_prefix_Some in Es as ->.
    assert (forall p, prefix k ++ payload = prefix k ++ p <-> p = payload) as Hp
      by (intros p; split; [by intros ?%app_inv_head|by intros ->]).
    destruct (Nat.eqb_spec (length payload) HEX_BYTES) as [Hl|Hl]; cbn [negb].
    + rewrite (decode_pairs_Err 16) by done. cbn [Nat.mul Nat.add].
      destruct e; setoid_rewrite Hp; naive_solver.
    + destruct e; setoid_rewrite Hp; naive_solver.
  - assert (forall p, value <> prefix k ++ p) as Hn
      by (intros p Hp%strip_prefix_Some; congruence).
    destruct e; naive_solver.
Qed.

(** The text of an identity and the identity determine each other: parsing succeeds with
    [id] exactly on the text displayed for it, whatever the kind, and no text belongs to two
    kinds, so the text of a draft is refused where its turn or accepted input, which keep its
    bytes, is expected.  The error of a refused text says what is wrong with it: the prefix, else
    the length of what follows, else the position of the first character that is no lowercase
    hexadecimal digit. *)
Theorem identity_text_exact k value :
  (forall id, from_str k value = Ok id <-> length id = ID_BYTES /\ value = display k id)
  /\ (forall k' id id', from_str k value = Ok id -> from_str k' value = Ok id' -> k = k' /\ id = id')
  /\ (forall e, from_str k value = Err e <->
       match e with
       | WrongPrefix k' => k' = k /\ ~ exists payload, value = prefix k ++ payload
       | WrongLength expected actual => expected = HEX_BYTES /\ actual <> HEX_BYTES /\
           exists payload, value = prefix k ++ payload /\ length payload = actual
       | InvalidHex i => exists payload, value = prefix k ++ payload /\ length payload = HEX_BYTES /\
           first_bad payload i
       end).
Proof.
  split_and!; [intros id; apply from_str_Ok| |apply identity_parse_errors].
  intros k' id id' [Hl E]%from_str_Ok [Hl' E']%from_str_Ok. subst value. by apply identity_kinds_disjoint.
Qed.

Lemma identity_text_exact_witness :
  ~ from_str SyndicTurnId (display SyndicDraftId (replicate 16 x2a)) = Ok (submitted_turn_id (replicate 16 x2a)).
Proof.
  intros E. destruct (identity_text_exact SyndicTurnId (display SyndicDraftId (replicate 16 x2a))) as (_ & Hk & _).
  destruct (Hk SyndicDraftId _ (replicate 16 x2a) E) as [Hd _]; [vm_compute; reflexivity|discriminate Hd].
Defined.

(** Every image label is displayed, in at most fourteen capital letters, and its text
    determines it; the label after it is the next number, until the last one is refused. *)
Theorem image_labels_display label : 1 <= label <= U64_MAX ->
  (exists t, display_label label = Some t /\ label_value t = label /\ Forall upper t /\
     (1 <= length t <= 14)%nat) /\
  next_label label = if label =? U64_MAX then Err ExhaustedLabel else Ok (label + 1).
Proof.
  intros Hl. split.
  - destruct (label_loop_spec 14 label []) as (t & Hr & Hv & Hu & Hn & H0); [cbn; lia|].
    exists t. rewrite app_nil_r in Hr. split_and!; try done.
    destruct t; [by destruct H0; [lia|]|cbn; lia].
  - unfold next_label, checked_add64, nonzero.
    destruct (Z.leb_spec (label + 1) U64_MAX), (Z.eqb_spec label U64_MAX); try lia; cbn; [|done].
    destruct (Z.eqb_spec (label + 1) 0); [lia|done].
Qed.

Lemma image_labels_display_witness : exists t, display_label 27 = Some t /\ t = [x41; x41].
Proof.
  destruct (image_labels_display 27) as [(t & Ht & _) _]; [lia|].
  exists t. split; [exact Ht|]. vm_compute in Ht. injection Ht as <-. reflexivity.
Defined.
