(* ===== verification/ModelDigest.v ===== *)
(** * Digests of the shared model

    The recovery-sequence accumulator ([crates/beryl-model/src/recovery.rs]), the marker
    summaries and digest chains ([asset.rs]) and the recall-page correlation
    ([composer_recall.rs]).  SHA-256 comes from the [sha2] crate: its streaming interface is the
    class [Sha256], and [Sha256Laws] states that the digest of a stream depends on the
    concatenation of what was fed. *)
From stdpp Require Import prelude strings.
From S2P Require Import Prelude.
From S2P Require Import Bytes.
From S2P Require Import ModelIds.

Open Scope Z_scope.

Class Sha256 (H : Type) := {
  sha_new : H;
  sha_update : H -> list byte -> H;
  sha_finalize : H -> list byte
}.

Class Sha256Laws (H : Type) `{Sha256 H} := {
  sha256 : list byte -> list byte;
  absorbed : H -> list byte;
  absorbed_new : absorbed sha_new = [];
  absorbed_update h bs : absorbed (sha_update h bs) = absorbed h ++ bs;
  finalize_absorbed h : sha_finalize h = sha256 (absorbed h);
  sha256_length bs : length (sha256 bs) = 32%nat
}.

(** ** The recovery-sequence accumulator *)

Definition RECOVERY_DIGEST_DOMAIN : list byte :=
  bytes_of_string "beryl.syndic.recovery-item-sequence.v1" ++ [x00].

Inductive RecoveryItemSequenceRole := UserInputText | AssistantOutputText.

Definition digest_tag (r : RecoveryItemSequenceRole) : byte :=
  match r with UserInputText => x00 | AssistantOutputText => x01 end.

Inductive RecoveryItemSequenceError :=
  | ItemStillActive (remaining_bytes : Z)
  | UnexpectedOrdinal (expected actual : Z)
  | TooManyItems (expected : Z)
  | EmptyItem
  | TooManyUtf8Bytes (expected actual : Z)
  | NoActiveItem
  | ItemTextOverflow (remaining supplied : Z)
  | ItemCountMismatch (expected actual : Z)
  | Utf8ByteCountMismatch (expected actual : Z).

Record RecoveryItemSequenceAccumulator (H : Type) := mkAccumulator {
  a_hash : H;
  expected_items : Z;
  expected_utf8_bytes : Z;
  observed_items : Z;
  observed_utf8_bytes : Z;
  active_remaining : option Z
}.
Arguments mkAccumulator {H}.
Arguments a_hash {H}. Arguments expected_items {H}. Arguments expected_utf8_bytes {H}.
Arguments observed_items {H}. Arguments observed_utf8_bytes {H}. Arguments active_remaining {H}.

Section Accumulator.
Context {H : Type} `{Sha256 H}.
Abbreviation acc := (RecoveryItemSequenceAccumulator H).

Definition new_accumulator (items utf8_bytes : Z) : acc :=
  let hash := sha_update sha_new RECOVERY_DIGEST_DOMAIN in
  let hash := sha_update hash (be_bytes 8 items) in
  let hash := sha_update hash (be_bytes 8 utf8_bytes) in
  mkAccumulator hash items utf8_bytes 0 0 None.

Definition begin_item (a : acc) (ordinal : Z) (role : RecoveryItemSequenceRole) (utf8_bytes : Z)
    : result RecoveryItemSequenceError acc :=
  match active_remaining a with
  | Some remaining_bytes => Err (ItemStillActive remaining_bytes)
  | None =>
      let expected := saturating_add64 (observed_items a) 1 in
      if negb (ordinal =? expected) then Err (UnexpectedOrdinal expected ordinal)
      else if expected_items a <=? observed_items a then Err (TooManyItems (expected_items a))
      else if utf8_bytes =? 0 then Err EmptyItem
      else
        let actual := saturating_add64 (observed_utf8_bytes a) utf8_bytes in
        if expected_utf8_bytes a <? actual then
          Err (TooManyUtf8Bytes (expected_utf8_bytes a) actual)
        else
          let hash := sha_update (a_hash a) (be_bytes 8 ordinal) in
          let hash := sha_update hash [digest_tag role] in
          let hash := sha_update hash (be_bytes 8 utf8_bytes) in
          Ok (mkAccumulator hash (expected_items a) (expected_utf8_bytes a) (observed_items a)
                (observed_utf8_bytes a) (Some utf8_bytes))
  end.

(** [None] is the panic of the [expect] on the byte count. *)
Definition update_text (a : acc) (bs : list byte)
    : option (result RecoveryItemSequenceError acc) :=
  match active_remaining a with
  | None => Some (Err NoActiveItem)
  | Some remaining =>
      let supplied := if zlen bs <=? U64_MAX then zlen bs else U64_MAX in
      if remaining <? supplied then Some (Err (ItemTextOverflow remaining supplied))
      else
        let hash := sha_update (a_hash a) bs in
        observed ← checked_add64 (observed_utf8_bytes a) supplied;
        Some (Ok (mkAccumulator hash (expected_items a) (expected_utf8_bytes a) (observed_items a)
                    observed (Some (remaining - supplied))))
  end.

(** [None] is the panic of the [expect] on the item count. *)
Definition finish_item (a : acc) : option (result RecoveryItemSequenceError acc) :=
  match active_remaining a with
  | None => Some (Err NoActiveItem)
  | Some remaining_bytes =>
      if negb (remaining_bytes =? 0) then Some (Err (ItemStillActive remaining_bytes))
      else
        items ← checked_add64 (observed_items a) 1;
        Some (Ok (mkAccumulator (a_hash a) (expected_items a) (expected_utf8_bytes a) items
                    (observed_utf8_bytes a) None))
  end.

Definition finish_sequence (a : acc) : result RecoveryItemSequenceError (list byte) :=
  match active_remaining a with
  | Some remaining_bytes => Err (ItemStillActive remaining_bytes)
  | None =>
      if negb (observed_items a =? expected_items a) then
        Err (ItemCountMismatch (expected_items a) (observed_items a))
      else if negb (observed_utf8_bytes a =? expected_utf8_bytes a) then
        Err (Utf8ByteCountMismatch (expected_utf8_bytes a) (observed_utf8_bytes a))
      else Ok (sha_finalize (a_hash a))
  end.

(** A caller's sequence of calls, stopping at the first refusal. *)
Inductive call :=
  | Begin (ordinal : Z) (role : RecoveryItemSequenceRole) (utf8_bytes : Z)
  | Text (bs : list byte)
  | End.

Definition perform (a : acc) (c : call) : option (result RecoveryItemSequenceError acc) :=
  match c with
  | Begin ordinal role utf8_bytes => Some (begin_item a ordinal role utf8_bytes)
  | Text bs => update_text a bs
  | End => finish_item a
  end.

Fixpoint run_calls (a : acc) (cs : list call) : option (result RecoveryItemSequenceError (list byte)) :=
  match cs with
  | [] => Some (finish_sequence a)
  | c :: cs =>
      r ← perform a c;
      match r with Err e => Some (Err e) | Ok a => run_calls a cs end
  end.

End Accumulator.

(** What a digest covers. *)
Definition item : Type := RecoveryItemSequenceRole * list byte.

Fixpoint items_body (ordinal : Z) (items : list item) : list byte :=
  match items with
  | [] => []
  | (role, text) :: items =>
      be_bytes 8 ordinal ++ [digest_tag role] ++ be_bytes 8 (zlen text) ++ text
      ++ items_body (ordinal + 1) items
  end.

Definition canonical (items : list item) : list byte :=
  RECOVERY_DIGEST_DOMAIN ++ be_bytes 8 (zlen items) ++ be_bytes 8 (zlen (concat items.*2))
  ++ items_body 1 items.

(** The calls that stream [items], each text in any pieces. *)
Inductive streams : Z -> list item -> list call -> Prop :=
  | streams_nil o : streams o [] []
  | streams_item o role text pieces items cs :
      text <> [] -> concat pieces = text -> streams (o + 1) items cs ->
      streams o ((role, text) :: items)
        (Begin o role (zlen text) :: (Text <$> pieces) ++ End :: cs).

Lemma streams_nil_inv o items : streams o items [] -> items = [].
Proof. by inversion 1. Qed.

Lemma streams_begin_inv o items o1 role len cs : streams o items (Begin o1 role len :: cs) ->
  o1 = o /\ exists pieces items' cs', items = (role, concat pieces) :: items' /\
    len = zlen (concat pieces) /\ concat pieces <> [] /\ cs = (Text <$> pieces) ++ End :: cs' /\
    streams (o + 1) items' cs'.
Proof. inversion 1; subst. split; [done|]. by eexists _, _, _. Qed.

Lemma streams_other_inv o items c cs : streams o items (c :: cs) ->
  exists o1 role len, c = Begin o1 role len.
Proof. inversion 1; subst. by eexists _, _, _. Qed.

Definition call_typed (c : call) : Prop :=
  match c with
  | Begin ordinal _ utf8_bytes => is_u64 ordinal /\ is_u64 utf8_bytes
  | Text bs => is_u64 (zlen bs)
  | End => True
  end.

Section Runs.
Context {H : Type} `{Sha256Laws H} (n b : Z).
Hypotheses (n_typed : is_u64 n) (b_typed : 0 <= b < U64_MAX).

(** What an idle accumulator, or one with [m] bytes of an item to come, makes of the calls. *)
Definition idle_outcome (o t : Z) (h : list byte) (cs : list call) (d : list byte) : Prop :=
  exists items, streams (o + 1) items cs /\ o + zlen items = n /\ t + zlen (concat items.*2) = b /\
    d = sha256 (h ++ items_body (o + 1) items).
Definition active_outcome (o t m : Z) (h : list byte) (cs : list call) (d : list byte) : Prop :=
  exists pieces items cs', cs = (Text <$> pieces) ++ End :: cs' /\ zlen (concat pieces) = m /\
    streams (o + 1 + 1) items cs' /\ o + 1 + zlen items = n /\
    t + m + zlen (concat items.*2) = b /\
    d = sha256 (h ++ concat pieces ++ items_body (o + 1 + 1) items).

Definition idle_ok (cs : list call) : Prop := forall hash o t h,
  absorbed hash = h -> 0 <= o <= n -> 0 <= t <= b ->
  exists r, run_calls (mkAccumulator hash n b o t None) cs = Some r /\
    forall d, r = Ok d <-> idle_outcome o t h cs d.
Definition active_ok (cs : list call) : Prop := forall hash o t m h,
  absorbed hash = h -> 0 <= o < n -> 0 <= t -> 0 <= m -> t + m <= b ->
  exists r, run_calls (mkAccumulator hash n b o t (Some m)) cs = Some r /\
    forall d, r = Ok d <-> active_outcome o t m h cs d.

Lemma refused {A B} (e : A) (P : B -> Prop) : (forall d, ~ P d) ->
  forall d, (Err e : result A B) = Ok d <-> P d.
Proof. naive_solver. Qed.

Lemma idle_nil : idle_ok [].
Proof.
  intros hash o t h Hh Ho Ht. cbn [run_calls]. eexists. split; [done|]. intros d.
  unfold finish_sequence, idle_outcome. cbn [active_remaining observed_items expected_items observed_utf8_bytes expected_utf8_bytes a_hash].
  rewrite finalize_absorbed, Hh.
  destruct (Z.eqb_spec o n) as [->|]; cbn [negb]; [destruct (Z.eqb_spec t b) as [->|]; cbn [negb]|].
  - split.
    + intros [= <-]. exists []. split_and!; [constructor|cbn; lia..|]. by rewrite app_nil_r.
    + intros (items & ->%streams_nil_inv & _ & _ & ->). cbn. by rewrite app_nil_r.
  - split; [done|]. intros (items & ->%streams_nil_inv & _ & E & _). cbn in E. lia.
  - split; [done|]. intros (items & ->%streams_nil_inv & E & _). cbn in E. lia.
Qed.

Lemma active_nil : active_ok [].
Proof.
  intros hash o t m h _ _ _ _ _. cbn. eexists. split; [done|]. apply refused.
  by intros d ([|] & ? & ? & ? & _).
Qed.

Lemma idle_begin o1 role len cs : call_typed (Begin o1 role len) -> active_ok cs -> idle_ok (Begin o1 role len :: cs).
Proof.
  intros [Ho1 Hlen] IH hash o t h Hh Ho Ht. unfold is_u64 in *. cbn [run_calls perform mbind option_bind].
  unfold begin_item. cbn [active_remaining observed_items expected_items observed_utf8_bytes expected_utf8_bytes a_hash].
  unfold saturating_add64, idle_outcome.
  assert (forall items, streams (o + 1) items (Begin o1 role len :: cs) -> o + zlen items = n ->
    t + zlen (concat items.*2) = b -> o1 = o + 1 /\ o < n /\ 0 < len /\ t + len <= b) as Hfit.
  { intros items (-> & pieces & items' & cs' & -> & -> & Hne & -> & _)%streams_begin_inv En Eb.
    rewrite fmap_cons in Eb. cbn [concat snd length] in *. rewrite length_app in Eb.
    destruct (concat pieces); [done|]. cbn [length] in *. lia. }
  destruct (Z.eqb_spec o1 ((o + 1) `min` U64_MAX)) as [E1|E1]; cbn [negb].
  2:{ eexists; split; [done|]. apply refused. intros d (items & Hs & En & Eb & _).
      specialize (Hfit items Hs En Eb). lia. }
  destruct (Z.leb_spec n o).
  { eexists; split; [done|]. apply refused. intros d (items & Hs & En & Eb & _).
    specialize (Hfit items Hs En Eb). lia. }
  destruct (Z.eqb_spec len 0) as [->|Hl0].
  { eexists; split; [done|]. apply refused. intros d (items & Hs & En & Eb & _).
    specialize (Hfit items Hs En Eb). lia. }
  destruct (Z.ltb_spec b ((t + len) `min` U64_MAX)).
  { eexists; split; [done|]. apply refused. intros d (items & Hs & En & Eb & _).
    specialize (Hfit items Hs En Eb). lia. }
  assert (o1 = o + 1) as -> by lia. assert (t + len <= b) by lia.
  edestruct IH as (r & Hr & Hd); [reflexivity| | | | |exists r; split; [exact Hr|]]; try lia.
  intros d. rewrite Hd. unfold active_outcome. rewrite !absorbed_update, Hh. split.
  - intros (pieces & items & cs' & -> & Hp & Hs & En & Eb & ->).
    exists ((role, concat pieces) :: items). split_and!.
    + rewrite <- Hp. constructor; [intros E; rewrite E in Hp; cbn in Hp; lia|done|done].
    + cbn [length]. lia.
    + rewrite fmap_cons. cbn [concat snd]. rewrite length_app. lia.
    + cbn [items_body]. rewrite Hp. by rewrite <- !app_assoc.
  - intros (items & Hs & En & Eb & ->).
    apply streams_begin_inv in Hs as (_ & pieces & items' & cs' & -> & Hlp & _ & -> & Hs).
    rewrite fmap_cons in Eb. cbn [concat snd length items_body] in *. rewrite length_app in Eb.
    exists pieces, items', cs'. split_and!; try done; try lia. rewrite Hlp. by rewrite <- !app_assoc.
Qed.

Lemma idle_other c cs : (forall o1 role len, c <> Begin o1 role len) -> idle_ok (c :: cs).
Proof.
  intros Hc hash o t h _ _ _. exists (Err NoActiveItem). split.
  - destruct c as [o1 role len| |]; [by destruct (Hc o1 role len)|done|done].
  - apply refused. intros d (items & Hs & _). apply streams_other_inv in Hs as (o1 & role & len & ->).
    by eapply Hc.
Qed.

Lemma active_begin o1 role len cs : active_ok (Begin o1 role len :: cs).
Proof.
  intros hash o t m h _ _ _ _ _. eexists. split; [done|]. apply refused.
  by intros d ([|] & ? & ? & ? & _).
Qed.

Lemma active_text bs cs : is_u64 (zlen bs) -> active_ok cs -> active_ok (Text bs :: cs).
Proof.
  intros Hbs IH hash o t m h Hh Ho Ht Hm Hb. unfold is_u64 in *. cbn [run_calls perform].
  unfold update_text. cbn [active_remaining observed_items expected_items observed_utf8_bytes expected_utf8_bytes a_hash].
  destruct (Z.leb_spec (zlen bs) U64_MAX); [|lia].
  assert (forall pieces x, Text bs :: cs = (Text <$> pieces) ++ End :: x -> exists pieces',
    pieces = bs :: pieces' /\ cs = (Text <$> pieces') ++ End :: x) as Hinv.
  { intros [|p pieces] x E; [done|]. rewrite fmap_cons in E. injection E as <- ->. by eexists. }
  destruct (Z.ltb_spec m (zlen bs)).
  { cbn [mbind option_bind]. eexists; split; [done|]. apply refused.
    intros d (pieces & items & cs' & E & Hp & _). apply Hinv in E as (pieces' & -> & _).
    cbn [concat] in Hp. rewrite length_app in Hp. lia. }
  unfold checked_add64. destruct (Z.leb_spec (t + zlen bs) U64_MAX); [|lia]. cbn [mbind option_bind].
  edestruct (IH (sha_update hash bs) o (t + zlen bs) (m - zlen bs)) as (r & Hr & Hd);
    [reflexivity|lia..|exists r; split; [exact Hr|]].
  intros d. rewrite Hd. unfold active_outcome. rewrite absorbed_update, Hh. split.
  - intros (pieces & items & cs' & -> & Hp & Hs & En & Eb & ->).
    exists (bs :: pieces), items, cs'. cbn [concat]. rewrite length_app, <- !app_assoc.
    split_and!; try done; lia.
  - intros (pieces & items & cs' & E & Hp & Hs & En & Eb & ->). apply Hinv in E as (pieces' & -> & ->).
    cbn [concat] in *. rewrite length_app in Hp. exists pieces', items, cs'. rewrite <- !app_assoc.
    split_and!; try done; lia.
Qed.

Lemma active_end cs : idle_ok cs -> active_ok (End :: cs).
Proof.
  intros IH hash o t m h Hh Ho Ht Hm Hb. unfold is_u64 in *. cbn [run_calls perform].
  unfold finish_item. cbn [active_remaining observed_items expected_items observed_utf8_bytes expected_utf8_bytes a_hash].
  assert (forall pieces x, End :: cs = (Text <$> pieces) ++ End :: x -> pieces = [] /\ x = cs) as Hinv.
  { intros [|p pieces] x E; [|done]. by injection E as ->. }
  destruct (Z.eqb_spec m 0) as [->|]; cbn [negb].
  2:{ cbn [mbind option_bind]. eexists; split; [done|]. apply refused.
      intros d (pieces & items & cs' & [-> _]%Hinv & Hp & _). cbn in Hp. lia. }
  unfold checked_add64. destruct (Z.leb_spec (o + 1) U64_MAX); [|lia]. cbn [mbind option_bind].
  edestruct (IH hash (o + 1) t h Hh) as (r & Hr & Hd); [lia..|exists r; split; [exact Hr|]].
  intros d. rewrite Hd. unfold active_outcome, idle_outcome. split.
  - intros (items & Hs & En & Eb & ->). exists [], items, cs. split_and!; try done; lia.
  - intros (pieces & items & cs' & [-> ->]%Hinv & Hp & Hs & En & Eb & ->).
    exists items. split_and!; try done; lia.
Qed.

Lemma runs_ok cs : Forall call_typed cs -> idle_ok cs /\ active_ok cs.
Proof.
  induction 1 as [|c cs Hc _ [IHi IHa]]; [split; [apply idle_nil|apply active_nil]|].
  destruct c as [o1 role len|bs|]; split.
  - by apply idle_begin.
  - apply active_begin.
  - by apply idle_other.
  - by apply active_text.
  - by apply idle_other.
  - by apply active_end.
Qed.
End Runs.

(** ** Assets, markers and their summaries *)

Inductive AssetIdentityVersion := Sha256V1.
Definition version_byte (v : AssetIdentityVersion) : byte := match v with Sha256V1 => x01 end.

Record AssetId := mkAssetId { version : AssetIdentityVersion; asset_digest : list byte; asset_length : Z }.

Inductive AssetProofError :=
  | MarkerMaximumMismatch | EntryFrontierMismatch | OrderedMarkerAssetCountMismatch.

Record SequentialMarkerSummaryV1 := mkSequential {
  marker_digest : list byte; marker_count : Z; maximum_image_label : option Z
}.
Definition new_sequential (d : list byte) (count : Z) (maximum : option Z)
    : result AssetProofError SequentialMarkerSummaryV1 :=
  if negb (Bool.eqb (count =? 0) (bool_decide (maximum = None))) then Err MarkerMaximumMismatch
  else Ok (mkSequential d count maximum).

Record OrderedMarkerAssetSummaryV1 := mkOrdered {
  marker_asset_digest : list byte; ordered_count : Z
}.

Record DraftMarkerCommitmentV1 := mkCommitment {
  tree_root_digest : list byte; commitment_count : Z; commitment_maximum : option Z
}.
Definition new_commitment (d : list byte) (count : Z) (maximum : option Z)
    : result AssetProofError DraftMarkerCommitmentV1 :=
  if negb (Bool.eqb (count =? 0) (bool_decide (maximum = None))) then Err MarkerMaximumMismatch
  else Ok (mkCommitment d count maximum).

Record SealedAssetReferenceSetProof := mkProof {
  set_id : list byte;
  sequential : SequentialMarkerSummaryV1;
  ordered_assets : OrderedMarkerAssetSummaryV1;
  entry_frontier : Z;
  asset_chain_digest : list byte
}.
Definition new_proof (id : list byte) (seq : SequentialMarkerSummaryV1)
    (ord : OrderedMarkerAssetSummaryV1) (frontier : Z) (chain : list byte)
    : result AssetProofError SealedAssetReferenceSetProof :=
  if negb (frontier =? marker_count seq) then Err EntryFrontierMismatch
  else if negb (frontier =? ordered_count ord) then Err OrderedMarkerAssetCountMismatch
  else Ok (mkProof id seq ord frontier chain).

Section Chains.
Context {H : Type} `{Sha256 H}.

(** [Sha256::digest] *)
Definition sha_digest (bs : list byte) : list byte := sha_finalize (sha_update sha_new bs).

Definition sequential_marker_digest_seed : list byte :=
  sha_digest (bytes_of_string "beryl.syndic.content-markers.v2" ++ [x00]).

Definition advance_sequential_marker_digest (previous marker_id : list byte) (label : Z) : list byte :=
  let hash := sha_update sha_new (bytes_of_string "beryl.syndic.content-marker-entry.v2" ++ [x00]) in
  let hash := sha_update hash previous in
  let hash := sha_update hash marker_id in
  let hash := sha_update hash (be_bytes 8 label) in
  sha_finalize hash.

Definition ordered_marker_asset_digest_seed : list byte :=
  sha_digest (bytes_of_string "beryl.marker-asset-associations.v1" ++ [x00]).

Definition advance_ordered_marker_asset_digest (previous marker_id : list byte) (label : Z) (asset : AssetId)
    : list byte :=
  let hash := sha_update sha_new (bytes_of_string "beryl.marker-asset-association-entry.v1" ++ [x00]) in
  let hash := sha_update hash previous in
  let hash := sha_update hash marker_id in
  let hash := sha_update hash (be_bytes 8 label) in
  let hash := sha_update hash [version_byte (version asset)] in
  let hash := sha_update hash (asset_digest asset) in
  let hash := sha_update hash (be_bytes 8 (asset_length asset)) in
  sha_finalize hash.

End Chains.

(** ** Recall pages *)

Inductive ComposerRecallSourceOwnerV1 :=
  | AcceptedInput (id : list byte)
  | SubmittedTurnItem (turn_id item_id : list byte).

Record ComposerRecallMarkerAssociationV1 := mkAssociation {
  ordinal : Z; marker_id : list byte; label : Z; asset_id : AssetId
}.
Definition new_association (ordinal : Z) (marker_id : list byte) (label : Z) (asset_id : AssetId)
    : option ComposerRecallMarkerAssociationV1 :=
  if ordinal =? 0 then None else Some (mkAssociation ordinal marker_id label asset_id).

Record ComposerRecallMarkerPageV1 := mkPage {
  draft_id : list byte;
  session_id : list byte;
  operation_id : list byte;
  receipt_ordinal : Z;
  receipt_digest : list byte;
  canonical_header : list byte;
  source_draft_id : list byte;
  source_session_id : list byte;
  source_operation_id : list byte;
  acceptance_digest : list byte;
  source_owner : ComposerRecallSourceOwnerV1;
  proof : SealedAssetReferenceSetProof;
  encoded_start : Z;
  source_piece : Z;
  association : ComposerRecallMarkerAssociationV1
}.

(** [ComposerRecallMarkerPageV1::new]: the checks on the given fields. *)
Definition new_recall_page (p : ComposerRecallMarkerPageV1) : option ComposerRecallMarkerPageV1 :=
  if (receipt_ordinal p =? 0)
     || bool_decide (canonical_header p = [])
     || (65536 <? zlen (canonical_header p))
     || (source_piece p =? 0)
     || (entry_frontier (proof p) <? ordinal (association p))
     || bool_decide (checked_add64 (encoded_start p) 25 = None)
  then None else Some p.

Section Correlation.
Context {H : Type} `{Sha256 H}.

Definition update_all (h : H) (parts : list (list byte)) : H := fold_left sha_update parts h.

Definition composer_recall_marker_correlation (page : ComposerRecallMarkerPageV1) : list byte :=
  let hash := update_all sha_new
    [ bytes_of_string "syndic/composer-recall-marker-window/v1";
      draft_id page; session_id page; operation_id page;
      be_bytes 8 (receipt_ordinal page); receipt_digest page;
      be_bytes 8 (zlen (canonical_header page)); canonical_header page;
      source_draft_id page; source_session_id page; source_operation_id page;
      acceptance_digest page ] in
  let hash :=
    match source_owner page with
    | AcceptedInput id => update_all hash [[x00]; id]
    | SubmittedTurnItem turn_id item_id => update_all hash [[x01]; turn_id; item_id]
    end in
  let p := proof page in
  let a := association page in
  let hash := update_all hash
    [ set_id p; marker_digest (sequential p); be_bytes 8 (marker_count (sequential p));
      be_bytes 8 (default 0 (maximum_image_label (sequential p)));
      marker_asset_digest (ordered_assets p); be_bytes 8 (ordered_count (ordered_assets p));
      be_bytes 8 (entry_frontier p); asset_chain_digest p;
      be_bytes 8 (encoded_start page); be_bytes 8 (source_piece page);
      be_bytes 8 (ordinal a); marker_id a; be_bytes 8 (label a);
      [version_byte (version (asset_id a))]; asset_digest (asset_id a);
      be_bytes 8 (asset_length (asset_id a)) ] in
  sha_finalize hash.

End Correlation.

(** ** What equal digests mean *)

Lemma be8_inj a b : is_u64 a -> is_u64 b -> be_bytes 8 a = be_bytes 8 b -> a = b.
Proof. intros Ha Hb E. rewrite <- (be_u64 a Ha), <- (be_u64 b Hb). by rewrite E. Qed.

(** Compare the next field, of one length on both sides, of an equation of byte strings. *)
Ltac field E :=
  let F := fresh "F" in
  apply app_inj_1 in E as [F E]; [|rewrite ?length_be_bytes; first [done | congruence]];
  try (apply be8_inj in F; [|done..]).

Definition text_typed (i : item) : Prop := is_u64 (zlen i.2).

Lemma items_body_inj xs : forall o ys r r', 0 <= o -> o + zlen xs <= U64_MAX -> length xs = length ys ->
  Forall text_typed xs -> Forall text_typed ys ->
  items_body o xs ++ r = items_body o ys ++ r' -> xs = ys /\ r = r'.
Proof.
  induction xs as [|[role text] xs IH]; intros o [|[role' text'] ys] r r' Ho Hl Hlen Hx Hy E; try done.
  apply Forall_cons in Hx as [Ht Hx]. apply Forall_cons in Hy as [Ht' Hy].
  cbn [items_body length] in *. rewrite <- !app_assoc in E. unfold text_typed in *. cbn [snd] in *.
  field E. field E. field E. apply app_inj_1 in E as [-> E]; [|lia].
  apply IH in E as [-> ->]; try done; [|lia..]. destruct role, role'; done.
Qed.

Lemma canonical_inj xs ys : is_u64 (zlen xs) -> is_u64 (zlen ys) -> zlen xs < U64_MAX ->
  Forall text_typed xs -> Forall text_typed ys -> canonical xs = canonical ys -> xs = ys.
Proof.
  intros Hx Hy Hm Htx Hty E. unfold canonical in E. field E. field E.
  apply app_inj_1 in E as [_ E]; [|by rewrite !length_be_bytes].
  rewrite <- (app_nil_r (items_body 1 xs)), <- (app_nil_r (items_body 1 ys)) in E.
  unfold is_u64 in *. eapply items_body_inj in E as [-> _]; try done; lia.
Qed.

Section Binding.
Context {H : Type} `{Sha256Laws H}.

(** Two computations clash when they hash different strings to the same digest; the lists hold
    the strings each of them hashes. *)
Definition clash (ps qs : list (list byte)) : Prop :=
  exists x y, x ∈ ps /\ y ∈ qs /\ x <> y /\ sha256 x = sha256 y.

Lemma same_preimage x y ps qs : x ∈ ps -> y ∈ qs -> sha256 x = sha256 y -> x = y \/ clash ps qs.
Proof. intros Hx Hy E. destruct (decide (x = y)); [by left|right; by exists x, y]. Qed.

Lemma clash_mono ps qs ps' qs' : ps ⊆ ps' -> qs ⊆ qs' -> clash ps qs -> clash ps' qs'.
Proof. intros Hp Hq (x & y & Hx & Hy & Hn & E). exists x, y. auto. Qed.

Lemma absorbed_all parts : forall h, absorbed (update_all h parts) = absorbed h ++ concat parts.
Proof.
  unfold update_all.
  induction parts as [|p parts IH]; intros h; cbn [fold_left concat]; [by rewrite app_nil_r|].
  by rewrite IH, absorbed_update, app_assoc.
Qed.

(** A chain of digests binds the list it was advanced over, if a seed is never an entry. *)
Section Chain.
Context {A : Type} (entry : list byte -> A -> list byte) (seed : list byte) (typed : A -> Prop).
Hypothesis entry_inj : forall p q x y, length p = 32%nat -> length q = 32%nat -> typed x -> typed y ->
  entry p x = entry q y -> p = q /\ x = y.
Hypothesis entry_seed : forall p x, entry p x <> seed.

(** The digest, and the strings hashed on the way to it. *)
Definition chain (xs : list A) : list byte :=
  fold_left (fun previous x => sha256 (entry previous x)) xs (sha256 seed).
Definition chain_inputs (xs : list A) : list (list byte) :=
  (fold_left (fun '(previous, inputs) x => (sha256 (entry previous x), inputs ++ [entry previous x]))
     xs (sha256 seed, [seed])).2.

Lemma chain_snoc xs x : chain (xs ++ [x]) = sha256 (entry (chain xs) x).
Proof. unfold chain. by rewrite fold_left_app. Qed.

Lemma chain_inputs_snoc xs x : chain_inputs (xs ++ [x]) = chain_inputs xs ++ [entry (chain xs) x].
Proof.
  assert (forall xs s ins, (fold_left (fun '(previous, inputs) x =>
    (sha256 (entry previous x), inputs ++ [entry previous x])) xs (s, ins)).1
    = fold_left (fun previous x => sha256 (entry previous x)) xs s) as Hfst
    by (induction xs0 as [|y ys IH]; intros; cbn; [done|apply IH]).
  unfold chain_inputs. rewrite fold_left_app. cbn. specialize (Hfst xs (sha256 seed) [seed]).
  destruct (fold_left _ xs (sha256 seed, [seed])) as [p ins]. cbn in *. by rewrite Hfst.
Qed.

Lemma chain_length xs : length (chain xs) = 32%nat.
Proof. destruct xs as [|x xs _] using rev_ind; [|rewrite chain_snoc]; apply sha256_length. Qed.

Lemma chain_input_last xs : exists x, x ∈ chain_inputs xs /\ chain xs = sha256 x /\
  (xs = [] /\ x = seed \/ exists xs' y, xs = xs' ++ [y] /\ x = entry (chain xs') y).
Proof.
  destruct xs as [|x xs _] using rev_ind; [exists seed; split_and!; [|done|by left]; set_solver|].
  exists (entry (chain xs) x). rewrite chain_snoc, chain_inputs_snoc. split_and!; [set_solver|done|].
  right. by eexists _, _.
Qed.

Lemma chain_binds xs : forall ys, Forall typed xs -> Forall typed ys -> chain xs = chain ys ->
  xs = ys \/ clash (chain_inputs xs) (chain_inputs ys).
Proof.
  induction xs as [|x xs IH] using rev_ind; intros ys Hx Hy E.
  - destruct ys as [|y ys _] using rev_ind; [by left|right]. exists seed, (entry (chain ys) y).
    rewrite chain_snoc in E. rewrite chain_inputs_snoc. split_and!; [set_solver..| |done].
    intros Es. symmetry in Es. by apply entry_seed in Es.
  - destruct ys as [|y ys _] using rev_ind.
    + right. exists (entry (chain xs) x), seed. rewrite chain_snoc in E. rewrite chain_inputs_snoc.
      split_and!; [set_solver..| |done]. apply entry_seed.
    + apply Forall_app in Hx as [Hxs [Hx _]%Forall_cons_1].
      apply Forall_app in Hy as [Hys [Hy _]%Forall_cons_1].
      rewrite !chain_snoc in E. rewrite !chain_inputs_snoc.
      apply (same_preimage _ _ (chain_inputs xs ++ [entry (chain xs) x])
        (chain_inputs ys ++ [entry (chain ys) y])) in E as [E|?]; [|by right|set_solver..].
      apply (entry_inj _ _ _ _ (chain_length xs) (chain_length ys) Hx Hy) in E as [E ->].
      destruct (IH ys Hxs Hys E) as [->|?]; [by left|right]. eapply clash_mono; [| |done]; set_solver.
Qed.
End Chain.

Definition marker : Type := list byte * Z.
Definition marker_typed (m : marker) : Prop := length m.1 = 16%nat /\ is_u64 m.2.

Definition marker_chain (ms : list marker) : list byte :=
  fold_left (fun previous m => advance_sequential_marker_digest previous m.1 m.2) ms
    sequential_marker_digest_seed.

Definition asset_typed (a : AssetId) : Prop := length (asset_digest a) = 32%nat /\ is_u64 (asset_length a).
Definition marked : Type := list byte * Z * AssetId.
Definition marked_typed (m : marked) : Prop := marker_typed m.1 /\ asset_typed m.2.

Definition marker_asset_chain (ms : list marked) : list byte :=
  fold_left (fun previous m => advance_ordered_marker_asset_digest previous m.1.1 m.1.2 m.2) ms
    ordered_marker_asset_digest_seed.

Lemma asset_id_inj (a b : AssetId) : asset_typed a -> asset_typed b ->
  [version_byte (version a)] ++ asset_digest a ++ be_bytes 8 (asset_length a)
  = [version_byte (version b)] ++ asset_digest b ++ be_bytes 8 (asset_length b) -> a = b.
Proof.
  destruct a as [[] d l], b as [[] d' l']. intros [Hd Hl] [Hd' Hl'] E. cbn in *. injection E as E.
  field E. apply be8_inj in E; [|done..]. congruence.
Qed.

(** The strings the two chains hash. *)
Definition marker_entry (previous : list byte) (m : marker) : list byte :=
  (bytes_of_string "beryl.syndic.content-marker-entry.v2" ++ [x00]) ++ previous ++ m.1 ++ be_bytes 8 m.2.
Definition marker_inputs (ms : list marker) : list (list byte) :=
  chain_inputs marker_entry (bytes_of_string "beryl.syndic.content-markers.v2" ++ [x00]) ms.
Definition marked_entry (previous : list byte) (m : marked) : list byte :=
  (bytes_of_string "beryl.marker-asset-association-entry.v1" ++ [x00])
  ++ previous ++ m.1.1 ++ be_bytes 8 m.1.2 ++ [version_byte (version m.2)] ++ asset_digest m.2
  ++ be_bytes 8 (asset_length m.2).
Definition marked_inputs (ms : list marked) : list (list byte) :=
  chain_inputs marked_entry (bytes_of_string "beryl.marker-asset-associations.v1" ++ [x00]) ms.

Lemma marker_chain_eq ms : marker_chain ms =
  chain marker_entry (bytes_of_string "beryl.syndic.content-markers.v2" ++ [x00]) ms.
Proof.
  unfold marker_chain, chain, marker_entry, sequential_marker_digest_seed, sha_digest, advance_sequential_marker_digest.
  rewrite finalize_absorbed, absorbed_update, absorbed_new, app_nil_l.
  generalize (sha256 (bytes_of_string "beryl.syndic.content-markers.v2" ++ [x00])).
  induction ms as [|m ms IH]; intros s; [done|]. cbn [fold_left]. rewrite <- IH. f_equal.
  rewrite finalize_absorbed, !absorbed_update, absorbed_new. by rewrite <- !app_assoc.
Qed.

Lemma marker_asset_chain_eq ms : marker_asset_chain ms =
  chain marked_entry (bytes_of_string "beryl.marker-asset-associations.v1" ++ [x00]) ms.
Proof.
  unfold marker_asset_chain, chain, marked_entry, ordered_marker_asset_digest_seed, sha_digest,
    advance_ordered_marker_asset_digest.
  rewrite finalize_absorbed, absorbed_update, absorbed_new, app_nil_l.
  generalize (sha256 (bytes_of_string "beryl.marker-asset-associations.v1" ++ [x00])).
  induction ms as [|m ms IH]; intros s; [done|]. cbn [fold_left]. rewrite <- IH. f_equal.
  rewrite finalize_absorbed, !absorbed_update, absorbed_new. by rewrite <- !app_assoc.
Qed.

Lemma marker_chain_binds xs ys : Forall marker_typed xs -> Forall marker_typed ys ->
  marker_chain xs = marker_chain ys -> xs = ys \/ clash (marker_inputs xs) (marker_inputs ys).
Proof.
  intros Hx Hy. rewrite !marker_chain_eq. apply (chain_binds _ _ marker_typed); [| |done|done].
  - intros p q [i l] [i' l'] Hp Hq [Hi Hl] [Hi' Hl'] E. unfold marker_entry in E. cbn [fst snd] in *.
    field E. field E. field E. apply be8_inj in E; [|done..]. by subst.
  - intros p m E. cbn in E. congruence.
Qed.

Lemma marker_asset_chain_binds xs ys : Forall marked_typed xs -> Forall marked_typed ys ->
  marker_asset_chain xs = marker_asset_chain ys -> xs = ys \/ clash (marked_inputs xs) (marked_inputs ys).
Proof.
  intros Hx Hy. rewrite !marker_asset_chain_eq. apply (chain_binds _ _ marked_typed); [| |done|done].
  - intros p q [[i l] a] [[i' l'] a'] Hp Hq [[Hi Hl] Ha] [[Hi' Hl'] Ha'] E. unfold marked_entry in E. cbn [fst snd] in *.
    field E. field E. field E. field E. apply asset_id_inj in E; [|done..]. by subst.
  - intros p m E. cbn in E. congruence.
Qed.

End Binding.

(** ** The preimage of a recall page *)

Definition proof_typed (p : SealedAssetReferenceSetProof) : Prop :=
  length (set_id p) = 16%nat /\ length (marker_digest (sequential p)) = 32%nat /\
  is_u64 (marker_count (sequential p)) /\
  (forall l, maximum_image_label (sequential p) = Some l -> 1 <= l <= U64_MAX) /\
  length (marker_asset_digest (ordered_assets p)) = 32%nat /\
  is_u64 (ordered_count (ordered_assets p)) /\ is_u64 (entry_frontier p) /\
  length (asset_chain_digest p) = 32%nat.

Definition association_typed (a : ComposerRecallMarkerAssociationV1) : Prop :=
  is_u64 (ordinal a) /\ length (marker_id a) = 16%nat /\ is_u64 (label a) /\ asset_typed (asset_id a).

Definition owner_typed (o : ComposerRecallSourceOwnerV1) : Prop :=
  match o with
  | AcceptedInput id => length id = 16%nat
  | SubmittedTurnItem turn item => length turn = 16%nat /\ length item = 16%nat
  end.

Definition page_typed (p : ComposerRecallMarkerPageV1) : Prop :=
  (length (draft_id p) = 16%nat /\ length (session_id p) = 16%nat /\ length (operation_id p) = 16%nat /\
   is_u64 (receipt_ordinal p) /\ length (receipt_digest p) = 32%nat /\
   is_u64 (zlen (canonical_header p))) /\
  (length (source_draft_id p) = 16%nat /\ length (source_session_id p) = 16%nat /\
   length (source_operation_id p) = 16%nat /\ length (acceptance_digest p) = 32%nat /\
   owner_typed (source_owner p)) /\
  proof_typed (proof p) /\ is_u64 (encoded_start p) /\ is_u64 (source_piece p) /\
  association_typed (association p).

Definition owner_bytes (o : ComposerRecallSourceOwnerV1) : list byte :=
  match o with AcceptedInput id => [x00] ++ id | SubmittedTurnItem turn item => [x01] ++ turn ++ item end.

Definition proof_bytes (p : SealedAssetReferenceSetProof) : list byte :=
  set_id p ++ marker_digest (sequential p) ++ be_bytes 8 (marker_count (sequential p)) ++
  be_bytes 8 (default 0 (maximum_image_label (sequential p))) ++
  marker_asset_digest (ordered_assets p) ++ be_bytes 8 (ordered_count (ordered_assets p)) ++
  be_bytes 8 (entry_frontier p) ++ asset_chain_digest p.

Definition association_bytes (a : ComposerRecallMarkerAssociationV1) : list byte :=
  be_bytes 8 (ordinal a) ++ marker_id a ++ be_bytes 8 (label a) ++
  [version_byte (version (asset_id a))] ++ asset_digest (asset_id a) ++
  be_bytes 8 (asset_length (asset_id a)).

Definition page_bytes (p : ComposerRecallMarkerPageV1) : list byte :=
  bytes_of_string "syndic/composer-recall-marker-window/v1" ++
  draft_id p ++ session_id p ++ operation_id p ++ be_bytes 8 (receipt_ordinal p) ++
  receipt_digest p ++ be_bytes 8 (zlen (canonical_header p)) ++ canonical_header p ++
  source_draft_id p ++ source_session_id p ++ source_operation_id p ++ acceptance_digest p ++
  owner_bytes (source_owner p) ++ proof_bytes (proof p) ++
  be_bytes 8 (encoded_start p) ++ be_bytes 8 (source_piece p) ++ association_bytes (association p).

Lemma correlation_eq {H} `{Sha256Laws H} p :
  composer_recall_marker_correlation (H := H) p = sha256 (page_bytes p).
Proof.
  unfold composer_recall_marker_correlation, page_bytes, proof_bytes, association_bytes, owner_bytes.
  rewrite finalize_absorbed. f_equal.
  destruct (source_owner p); rewrite !absorbed_all, absorbed_new; cbn [concat];
    rewrite ?app_nil_r, <- ?app_assoc; done.
Qed.

Lemma proof_bytes_inj p q r r' : proof_typed p -> proof_typed q ->
  proof_bytes p ++ r = proof_bytes q ++ r' -> p = q /\ r = r'.
Proof.
  destruct p as [i [md mc ml] [od oc] fr ch], q as [i' [md' mc' ml'] [od' oc'] fr' ch'].
  intros (? & ? & ? & Hm & ? & ? & ? & ?) (? & ? & ? & Hm' & ? & ? & ? & ?) E.
  unfold proof_bytes in E. cbn in *. rewrite <- !app_assoc in E. field E. field E. field E.
  apply app_inj_1 in E as [Fm E]; [|by rewrite !length_be_bytes].
  assert (ml = ml') as ->.
  { assert (forall o, (forall l, o = Some l -> 1 <= l <= U64_MAX) -> is_u64 (default 0 o)) as Ht
      by (intros [l|] Hl; unfold is_u64; cbn; [specialize (Hl l eq_refl)|]; lia).
    apply be8_inj in Fm; [|by apply Ht..].
    destruct ml as [l|], ml' as [l'|]; cbn in Fm; [congruence| | |done].
    - specialize (Hm l eq_refl). lia.
    - specialize (Hm' l' eq_refl). lia. }
  repeat field E. by subst.
Qed.

Lemma owner_bytes_inj o o' r r' : owner_typed o -> owner_typed o' ->
  owner_bytes o ++ r = owner_bytes o' ++ r' -> o = o' /\ r = r'.
Proof.
  destruct o as [i|t i], o' as [i'|t' i']; cbn; try done.
  - intros Hi Hi' [= E]. field E. by subst.
  - intros [Ht Hi] [Ht' Hi'] [= E]. rewrite <- !app_assoc in E. field E. field E. by subst.
Qed.

Lemma association_bytes_inj a b : association_typed a -> association_typed b ->
  association_bytes a = association_bytes b -> a = b.
Proof.
  destruct a as [o m l a], b as [o' m' l' b]. intros (? & ? & ? & ?) (? & ? & ? & ?) E.
  unfold association_bytes in E. cbn [ordinal marker_id label asset_id] in *.
  field E. field E. field E. apply asset_id_inj in E; [|done..]. by subst.
Qed.

Lemma page_bytes_inj p q : page_typed p -> page_typed q -> page_bytes p = page_bytes q -> p = q.
Proof.
  intros ((? & ? & ? & ? & ? & ?) & (? & ? & ? & ? & ?) & ? & ? & ? & ?)
    ((? & ? & ? & ? & ? & ?) & (? & ? & ? & ? & ?) & ? & ? & ? & ?) E. unfold page_bytes in E.
  do 7 field E. apply app_inj_1 in E as [Fh E]; [|lia]. do 4 field E.
  apply owner_bytes_inj in E as [Fo E]; [|done..]. apply proof_bytes_inj in E as [Fp E]; [|done..].
  do 2 field E. apply association_bytes_inj in E; [|done..].
  destruct p, q; cbn in *; by subst.
Qed.

(** ** An instance of the interface *)

(** A hasher that keeps what it is fed and cuts it to 32 bytes. *)
#[global] Instance buffer_sha : Sha256 (list byte) := {|
  sha_new := [];
  sha_update h bs := h ++ bs;
  sha_finalize h := take 32 (h ++ replicate 32 x00)
|}.

#[global] Instance buffer_laws : Sha256Laws (list byte).
Proof.
  refine {| sha256 bs := take 32 (bs ++ replicate 32 x00); absorbed h := h |}; try done.
  intros bs. rewrite length_take, length_app, length_replicate. lia.
Defined.

(** The bound on the declared total matters: with a declared total of [u64::MAX] the saturating
    sum of [begin_item] lets in an item whose bytes would overflow the count. *)
Remark preflight_total_saturates : exists a,
  begin_item (H := list byte) (mkAccumulator [] 2 U64_MAX 1 1 None) 2 UserInputText U64_MAX = Ok a /\
  U64_MAX < observed_utf8_bytes a + default 0 (active_remaining a).
Proof. eexists. split; [reflexivity|]. cbn. lia. Qed.

(** ** Properties *)

Lemma streams_count o items cs : streams o items cs -> zlen items <= zlen (concat items.*2).
Proof.
  induction 1 as [|o role text pieces items cs Hn _ _ IH]; cbn; [lia|]. rewrite length_app.
  destruct text; [done|]. cbn. lia.
Qed.

Lemma texts_bounded (items : list item) : zlen (concat items.*2) <= U64_MAX -> Forall text_typed items.
Proof.
  induction items as [|[role text] items IH]; intros Hl; constructor; cbn in Hl; rewrite length_app in Hl.
  - unfold text_typed, is_u64. cbn. lia.
  - apply IH. lia.
Qed.

Lemma run_calls_exact {H} `{Sha256Laws H} n b cs :
  is_u64 n -> 0 <= b < U64_MAX -> Forall call_typed cs ->
  exists r, run_calls (new_accumulator (H := H) n b) cs = Some r /\
  forall d, r = Ok d <-> exists items, streams 1 items cs /\ zlen items = n /\
    zlen (concat items.*2) = b /\ d = sha256 (canonical items).
Proof.
  intros Hn Hb Hcs. destruct (runs_ok (H := H) n b Hn Hb cs Hcs) as [Hi _].
  unfold is_u64 in Hn.
  edestruct (Hi (a_hash (new_accumulator (H := H) n b)) 0 0) as (r & Hr & Hd); [reflexivity|lia..|].
  exists r. split; [exact Hr|]. intros d. rewrite Hd. unfold idle_outcome.
  cbn [a_hash new_accumulator]. rewrite !absorbed_update, absorbed_new, app_nil_l.
  split; intros (items & Hs & Hl & Ht & ->); exists items; (split_and!; [done|lia..|]);
    unfold canonical; rewrite <- !app_assoc; do 2 f_equal; (rewrite Hl, Ht || rewrite <- Hl, <- Ht); done.
Qed.

(** Whatever calls a caller makes, the accumulator panics in none of them, and it yields a
    digest exactly when the calls stream, in any pieces, a sequence of non-empty items numbered
    from one with the declared item and byte totals; the digest is then the hash of their
    canonical serialisation. The declared byte total is below [u64::MAX]. *)
Theorem recovery_digest_exact {H} `{Sha256Laws H} n b cs :
  is_u64 n -> 0 <= b < U64_MAX -> Forall call_typed cs ->
  exists r, run_calls (new_accumulator (H := H) n b) cs = Some r /\
  forall d, r = Ok d <-> exists items, streams 1 items cs /\ zlen items = n /\
    zlen (concat items.*2) = b /\ d = sha256 (canonical items).
Proof. apply run_calls_exact. Qed.

Definition sample_calls : list call :=
  [Begin 1 UserInputText 3; Text [x68]; Text [x69; x21]; End; Begin 2 AssistantOutputText 1; Text [x2e]; End].

Lemma recovery_digest_exact_witness :
  exists r, run_calls (new_accumulator (H := list byte) 2 4) sample_calls = Some r /\
    is_ok r = true.
Proof.
  destruct (recovery_digest_exact (H := list byte) 2 4 sample_calls) as (r & Hr & _).
  - unfold is_u64. lia.
  - lia.
  - repeat constructor; unfold is_u64; cbn; lia.
  - exists r. split; [exact Hr|]. vm_compute in Hr. injection Hr as <-. reflexivity.
Defined.

(** Two call sequences that finish with the same digest streamed the same items, roles,
    texts and order, unless the two canonical serialisations differ and hash alike. *)
Theorem recovery_digest_binds {H} `{Sha256Laws H} n b cs n' b' cs' d :
  is_u64 n -> 0 <= b < U64_MAX -> Forall call_typed cs ->
  is_u64 n' -> 0 <= b' < U64_MAX -> Forall call_typed cs' ->
  run_calls (new_accumulator (H := H) n b) cs = Some (Ok d) ->
  run_calls (new_accumulator (H := H) n' b') cs' = Some (Ok d) ->
  exists xs ys, streams 1 xs cs /\ streams 1 ys cs' /\
    (xs = ys \/ clash (H := H) [canonical xs] [canonical ys]).
Proof.
  intros Hn Hb Hcs Hn' Hb' Hcs' Hr Hr'.
  destruct (run_calls_exact (H := H) n b cs Hn Hb Hcs) as (r & Hr1 & He).
  destruct (run_calls_exact (H := H) n' b' cs' Hn' Hb' Hcs') as (r' & Hr1' & He').
  rewrite Hr1 in Hr. rewrite Hr1' in Hr'. injection Hr as ->. injection Hr' as ->.
  destruct (proj1 (He d) eq_refl) as (xs & Hs & Hl & Ht & Hd).
  destruct (proj1 (He' d) eq_refl) as (ys & Hs' & Hl' & Ht' & Hd').
  exists xs, ys. split_and!; [done..|]. rewrite Hd in Hd'.
  apply (same_preimage _ _ [canonical xs] [canonical ys]) in Hd' as [E|?]; [left|by right|set_solver..].
  apply canonical_inj in E; [done|by rewrite Hl|by rewrite Hl'| | |].
  - pose proof (streams_count _ _ _ Hs). lia.
  - eapply texts_bounded. lia.
  - eapply texts_bounded. lia.
Qed.

Lemma recovery_digest_binds_witness :
  exists xs ys, streams 1 xs sample_calls /\ streams 1 ys sample_calls /\
    (xs = ys \/ clash (H := list byte) [canonical xs] [canonical ys]).
Proof.
  apply (recovery_digest_binds (H := list byte) 2 4 sample_calls 2 4 sample_calls
    (take 32 RECOVERY_DIGEST_DOMAIN)).
  all: try (unfold is_u64; lia); try (repeat constructor; unfold is_u64; cbn; lia).
  all: vm_compute; reflexivity.
Defined.

Lemma marker_chains_bind {H} `{Sha256Laws H} xs ys :
  Forall marked_typed xs -> Forall marked_typed ys ->
  (marker_chain (H := H) xs.*1 = marker_chain (H := H) ys.*1 ->
     xs.*1 = ys.*1 \/ clash (H := H) (marker_inputs xs.*1) (marker_inputs ys.*1)) /\
  (marker_asset_chain (H := H) xs = marker_asset_chain (H := H) ys ->
     xs = ys \/ clash (H := H) (marked_inputs xs) (marked_inputs ys)).
Proof.
  intros Hx Hy. split; [|by apply marker_asset_chain_binds].
  apply marker_chain_binds; apply Forall_fmap; (eapply Forall_impl; [eassumption|]); by intros m [].
Qed.

Definition sample_marked (l : Z) : marked := (replicate 16 x01, l, mkAssetId Sha256V1 (replicate 32 x02) 9).

Lemma correlation_binds {H} `{Sha256Laws H} p q : page_typed p -> page_typed q ->
  composer_recall_marker_correlation (H := H) p = composer_recall_marker_correlation (H := H) q ->
  p = q \/ clash (H := H) [page_bytes p] [page_bytes q].
Proof.
  intros Hp Hq. rewrite !correlation_eq. intros E.
  apply (same_preimage _ _ [page_bytes p] [page_bytes q]) in E as [E|?]; [left|by right|set_solver..].
  by apply page_bytes_inj.
Qed.

Definition sample_page (piece : Z) : ComposerRecallMarkerPageV1 :=
  mkPage (replicate 16 x01) (replicate 16 x02) (replicate 16 x03) 1 (replicate 32 x04) [x05]
    (replicate 16 x06) (replicate 16 x07) (replicate 16 x08) (replicate 32 x09)
    (SubmittedTurnItem (replicate 16 x0a) (replicate 16 x0b))
    (mkProof (replicate 16 x0c) (mkSequential (replicate 32 x0d) 1 (Some 1))
       (mkOrdered (replicate 32 x0e) 1) 1 (replicate 32 x0f))
    0 piece (mkAssociation 1 (replicate 16 x10) 1 (mkAssetId Sha256V1 (replicate 32 x11) 4)).

(** The digests over markers bind what they cover: equal sequential digests come from the
    same markers and labels in the same order, equal ordered digests also from the same assets,
    and recall pages with equal correlations agree in every field, unless two of the strings
    hashed on the way differ and hash alike. *)
Theorem marker_digests_bind {H} `{Sha256Laws H} :
  (forall xs ys, Forall marked_typed xs -> Forall marked_typed ys ->
    (marker_chain (H := H) xs.*1 = marker_chain (H := H) ys.*1 ->
       xs.*1 = ys.*1 \/ clash (H := H) (marker_inputs xs.*1) (marker_inputs ys.*1)) /\
    (marker_asset_chain (H := H) xs = marker_asset_chain (H := H) ys ->
       xs = ys \/ clash (H := H) (marked_inputs xs) (marked_inputs ys)))
  /\ (forall p q, page_typed p -> page_typed q ->
    composer_recall_marker_correlation (H := H) p = composer_recall_marker_correlation (H := H) q ->
    p = q \/ clash (H := H) [page_bytes p] [page_bytes q]).
Proof. split; [apply marker_chains_bind|apply correlation_binds]. Qed.

Lemma marker_digests_bind_witness :
  ([sample_marked 1] = [sample_marked 2] \/
   clash (H := list byte) (marked_inputs [sample_marked 1]) (marked_inputs [sample_marked 2]))
  /\ (sample_page 1 = sample_page 2 \/ clash (H := list byte) [page_bytes (sample_page 1)] [page_bytes (sample_page 2)]).
Proof.
  destruct (marker_digests_bind (H := list byte)) as [Hm Hp]. split.
  - apply (Hm [sample_marked 1] [sample_marked 2]);
      [(constructor; [split; split; cbn; (reflexivity || unfold is_u64; lia)|constructor])..|].
    vm_compute. reflexivity.
  - apply (Hp (sample_page 1) (sample_page 2)).
    1,2: repeat split; cbn; try lia; try (injection H as <-; lia).
    vm_compute. reflexivity.
Defined.
