(* ===== verification/ModelText.v ===== *)
(** * Bounded texts, paths and execution bindings of the shared model

    [crates/beryl-model/src/runtime.rs] and the external identities of [provenance.rs].  A
    [&str] is its UTF-8 bytes; the characters, [char::is_whitespace], [char::is_control] and
    [str::trim] of the standard library are written out over code points. *)
From stdpp Require Import prelude strings.
From S2P Require Import Prelude.
From S2P Require Import Bytes.

Open Scope Z_scope.

(** ** Characters of a text *)

Definition char_width (b : byte) : nat :=
  let v := byte_val b in
  if v <? 128 then 1 else if v <? 224 then 2 else if v <? 240 then 3 else 4.

Definition char_code (bs : list byte) : Z :=
  match byte_val <$> bs with
  | [a] => a
  | [a; b] => a mod 32 * 64 + b mod 64
  | [a; b; c] => a mod 16 * 4096 + b mod 64 * 64 + c mod 64
  | [a; b; c; d] => a mod 8 * 262144 + b mod 64 * 4096 + c mod 64 * 64 + d mod 64
  | _ => 0
  end.

(** [str::char_indices]; a text of [n] bytes has at most [n] characters. *)
Fixpoint char_indices_from (fuel offset : nat) (bs : list byte) : list (nat * Z) :=
  match fuel, bs with
  | S fuel, b :: _ =>
      let w := char_width b in
      (offset, char_code (take w bs)) :: char_indices_from fuel (offset + w) (drop w bs)
  | _, _ => []
  end.
Definition char_indices (bs : list byte) : list (nat * Z) := char_indices_from (length bs) 0 bs.

(** [char::is_control] (general category Cc) and [char::is_whitespace] (White_Space). *)
Definition is_control (c : Z) : bool := (c <? 32) || ((127 <=? c) && (c <? 160)).
Definition is_whitespace (c : Z) : bool :=
  ((9 <=? c) && (c <=? 13)) || (c =? 32) || (c =? 133) || (c =? 160) || (c =? 5760)
  || ((8192 <=? c) && (c <=? 8202)) || (c =? 8232) || (c =? 8233) || (c =? 8239)
  || (c =? 8287) || (c =? 12288).

Fixpoint skip_whitespace (cs : list (nat * Z)) : list (nat * Z) :=
  match cs with
  | (o, c) :: rest => if is_whitespace c then skip_whitespace rest else cs
  | [] => []
  end.
(** [str::trim], on the characters. *)
Definition trim (cs : list (nat * Z)) : list (nat * Z) :=
  rev (skip_whitespace (rev (skip_whitespace cs))).

Definition find_char (p : Z -> bool) (bs : list byte) : option nat :=
  fst <$> List.find (fun '(_, c) => p c) (char_indices bs).

(** ** Bounded texts *)

Inductive PathFlavor := Windows | Posix.

Inductive ValueError :=
  | EmptyText (kind : string)
  | TooLong (kind : string) (max_bytes actual_bytes : Z)
  | SurroundingWhitespace (kind : string)
  | InvalidCharacter (kind : string) (index : nat)
  | NotAbsolute (flavor : PathFlavor)
  | RuntimePathMismatch.

#[global] Instance PathFlavor_eq_dec : EqDecision PathFlavor.
Proof. solve_decision. Defined.
#[global] Instance ValueError_eq_dec : EqDecision ValueError.
Proof. solve_decision. Defined.

Definition MAX_WSL_DISTRIBUTION_BYTES : Z := 256.
Definition MAX_PATH_BYTES : Z := 32 * 1024.
Definition MAX_EXTERNAL_ID_BYTES : Z := 256.

Definition bounded_text (kind : string) (value : list byte) (max_bytes : Z)
    : result ValueError (list byte) :=
  if bool_decide (value = []) then Err (EmptyText kind)
  else if max_bytes <? zlen value then Err (TooLong kind max_bytes (zlen value))
  else if bool_decide (trim (char_indices value) <> char_indices value) then
    Err (SurroundingWhitespace kind)
  else
    match find_char is_control value with
    | Some index => Err (InvalidCharacter kind index)
    | None => Ok value
    end.

(** [CasThreadId::new] and the other bounded external identities. *)
Definition external_id (kind : string) (value : list byte) : result ValueError (list byte) :=
  bounded_text kind value MAX_EXTERNAL_ID_BYTES.

Definition wsl_separator (c : Z) : bool := (c =? 47) || (c =? 92) || (c =? 58).

(** [WslDistributionName::new] *)
Definition wsl_distribution_name (value : list byte) : result ValueError (list byte) :=
  bounded ← bounded_text "WSL distribution name" value MAX_WSL_DISTRIBUTION_BYTES;
  match find_char wsl_separator value with
  | Some index => Err (InvalidCharacter "WSL distribution name" index)
  | None => Ok bounded
  end.

(** ** Paths *)

Inductive RuntimeMode := Host | Wsl (name : list byte).

Definition is_ascii_alphabetic (b : byte) : bool := in_range 65 90 b || in_range 97 122 b.
Definition is_separator (b : byte) : bool := bool_decide (b = x5c) || bool_decide (b = x2f).

(** The non-empty components of [value.split(['\\', '/'])]. *)
Fixpoint count_components (inside : bool) (bs : list byte) : nat :=
  match bs with
  | [] => 0
  | b :: bs =>
      if is_separator b then count_components false bs
      else (if inside then 0 else 1) + count_components true bs
  end.

Definition starts_with (p bs : list byte) : bool := bool_decide (take (length p) bs = p).

Definition is_windows_absolute (value : list byte) : bool :=
  let drive_absolute :=
    match value with
    | a :: b :: c :: _ => is_ascii_alphabetic a && bool_decide (b = x3a) && is_separator c
    | _ => false
    end in
  let unc_absolute :=
    (starts_with [x5c; x5c] value || starts_with [x2f; x2f] value)
    && (2 <=? count_components false value)%nat in
  drive_absolute || unc_absolute.

Definition validate_absolute_path (kind : string) (flavor : PathFlavor) (value : list byte)
    : result ValueError (list byte) :=
  value ← bounded_text kind value MAX_PATH_BYTES;
  let absolute :=
    match flavor with
    | Windows => is_windows_absolute value
    | Posix => starts_with [x2f] value
    end in
  if negb absolute then Err (NotAbsolute flavor) else Ok value.

Record AdmittedHostPath := mkHostPath { host_flavor : PathFlavor; host_value : list byte }.

(** [AdmittedHostPath::from_admitted] *)
Definition host_path (flavor : PathFlavor) (value : list byte) : result ValueError AdmittedHostPath :=
  v ← validate_absolute_path "host path" flavor value; Ok (mkHostPath flavor v).

Record RuntimeNativePath := mkNativePath
  { path_mode : RuntimeMode; path_flavor : PathFlavor; path_value : list byte }.

(** [RuntimeNativePath::from_admitted] *)
Definition native_path (mode : RuntimeMode) (flavor : PathFlavor) (value : list byte)
    : result ValueError RuntimeNativePath :=
  if match mode with Wsl _ => negb (bool_decide (flavor = Posix)) | Host => false end
  then Err RuntimePathMismatch
  else v ← validate_absolute_path "runtime-native path" flavor value; Ok (mkNativePath mode flavor v).

Record ExecutionBinding := mkBinding
  { runtime_id : list byte; root_id : list byte; root_path : RuntimeNativePath }.

(** ** Lemmas *)

Lemma bounded_text_Ok kind value max t : bounded_text kind value max = Ok t <->
  t = value /\ value <> [] /\ zlen value <= max /\ trim (char_indices value) = char_indices value /\
  Forall (fun oc => is_control oc.2 = false) (char_indices value).
Proof.
  unfold bounded_text, find_char.
  assert ((fst <$> List.find (fun '(_, c) => is_control c) (char_indices value)) = None <->
    Forall (fun oc => is_control oc.2 = false) (char_indices value)) as Hf.
  { induction (char_indices value) as [|[o c] cs IH]; [by split|]. cbn. rewrite Forall_cons. cbn.
    destruct (is_control c); [split; [done|by intros []]|]. rewrite IH. naive_solver. }
  case_bool_decide; [naive_solver|].
  destruct (Z.ltb_spec max (zlen value)); [split; [done|]; naive_solver lia|].
  case_bool_decide as Ht; [naive_solver|].
  destruct (fst <$> _) eqn:E; [split; [done|]; naive_solver|]. naive_solver.
Qed.

Lemma validate_path_Ok kind flavor value t : validate_absolute_path kind flavor value = Ok t <->
  bounded_text kind value MAX_PATH_BYTES = Ok t /\
  match flavor with Windows => is_windows_absolute t | Posix => starts_with [x2f] t end = true.
Proof.
  unfold validate_absolute_path. rewrite result_bind_Ok. split.
  - intros (v & Hv & H). destruct flavor;
      match type of H with context [negb ?a] => destruct a eqn:E end; try done;
      injection H as <-; by rewrite E.
  - intros [Hv Ha]. exists t. split; [done|]. by rewrite Ha.
Qed.

Lemma utf8_tail k : forall lo hi l, 128 <= lo -> utf8_run (Some (lo, hi, k)) l = true ->
  Forall (fun x => 128 <= byte_val x) (take (S k) l) /\ utf8_run None (drop (S k) l) = true.
Proof.
  induction k as [|k IH]; intros lo hi l Hlo H; destruct l as [|x l]; try done;
    cbn [utf8_run] in H; destruct (in_range lo hi x) eqn:Hx; try done;
    assert (128 <= byte_val x) by (unfold in_range in Hx; bool_facts; lia).
  - split; [by repeat constructor|done].
  - apply IH in H as [Hf Hd]; [|lia]. split; [by constructor|done].
Qed.

Lemma utf8_lead_width b lo hi k : utf8_lead b = Some (lo, hi, k) ->
  128 <= lo /\ char_width b = S (S k) /\ 128 <= byte_val b.
Proof.
  unfold utf8_lead, char_width. pose proof (byte_val_range b).
  destruct (Z.ltb_spec (byte_val b) 128), (Z.ltb_spec (byte_val b) 224), (Z.ltb_spec (byte_val b) 240);
    intros Hl; repeat case_match; simplify_eq; try (split_and!; lia); bool_facts; try lia;
    repeat match goal with H : (_ || _) = true |- _ => apply orb_true_iff in H as [?|?] end; bool_facts; lia.
Qed.

(** In a valid text a byte below 128 is a character of its own. *)
Lemma utf8_step b rest : utf8_valid (b :: rest) = true ->
  utf8_valid (drop (char_width b) (b :: rest)) = true /\
  (byte_val b < 128 /\ char_width b = 1%nat \/
   Forall (fun x => 128 <= byte_val x) (take (char_width b) (b :: rest))).
Proof.
  unfold utf8_valid. cbn [utf8_run]. intros H. destruct (Z.ltb_spec (byte_val b) 128) as [Hlt|Hge].
  - assert (char_width b = 1%nat) as -> by (unfold char_width; destruct (Z.ltb_spec (byte_val b) 128); [done|lia]).
    split; [done|by left].
  - destruct (utf8_lead b) as [[[lo hi] k]|] eqn:El; [|done].
    apply utf8_lead_width in El as (Hlo & -> & Hb). apply utf8_tail in H as [Hf Hd]; [|done].
    split; [done|]. right. by constructor.
Qed.

Lemma ascii_controls fuel : forall offset bs, (length bs <= fuel)%nat -> utf8_valid bs = true ->
  Forall (fun oc => is_control oc.2 = false) (char_indices_from fuel offset bs) ->
  Forall (fun x => 32 <= byte_val x /\ byte_val x <> 127) bs.
Proof.
  induction fuel as [|fuel IH]; intros offset bs Hl Hu Hc; destruct bs as [|b rest]; try constructor 1;
    [cbn in Hl; lia|].
  cbn [char_indices_from] in Hc. apply Forall_cons in Hc as [Hc Hcs].
  pose proof (utf8_step b rest Hu) as [Hd Hw].
  rewrite <- (take_drop (char_width b) (b :: rest)). apply Forall_app. split.
  - destruct Hw as [[Hb Ew]|Hf].
    + rewrite Ew in *. cbn [take] in *. apply Forall_cons. split; [|constructor].
      cbn [snd] in Hc. rewrite take_0 in Hc. change (char_code [b]) with (byte_val b) in Hc. unfold is_control in Hc.
      apply orb_false_iff in Hc as [H1 [H2|H2]%andb_false_iff]; bool_facts; cbv beta; lia.
    + eapply Forall_impl; [exact Hf|]. cbn. lia.
  - eapply IH; [|exact Hd|exact Hcs]. rewrite length_drop. cbn [length] in *.
    assert (1 <= char_width b)%nat by (unfold char_width; repeat case_match; lia). lia.
Qed.

(** ** Property *)

(** An admitted runtime path is the given text unchanged, at most 32 KiB, free of control
    bytes, absolute in its declared syntax, and in POSIX syntax inside WSL. *)
Theorem native_path_admitted mode flavor value p : utf8_valid value = true ->
  native_path mode flavor value = Ok p ->
  p = mkNativePath mode flavor value /\ 0 < zlen value <= MAX_PATH_BYTES /\
  Forall (fun x => 32 <= byte_val x /\ byte_val x <> 127) value /\
  match flavor with Windows => is_windows_absolute value | Posix => starts_with [x2f] value end = true /\
  (forall name, mode = Wsl name -> flavor = Posix).
Proof.
  intros Hu H. unfold native_path in H.
  destruct (match mode with Wsl _ => _ | Host => false end) eqn:Em; [done|].
  apply result_bind_Ok in H as (v & Hv & [= <-]).
  apply validate_path_Ok in Hv as [Hb Ha].
  apply bounded_text_Ok in Hb as (-> & Hne & Hl & _ & Hc). split_and!; try done.
  - destruct value; [done|cbn; lia].
  - by eapply ascii_controls.
  - intros name ->. cbn in Em. bool_facts. done.
Qed.
