(* ===== verification/SyndicValues.v ===== *)
(** * Values of the Syndic store

    [crates/syndic-storage/src/value/]: turn kinds and lifecycles, the input gate, repair
    provenance, and the records the gate refers to.  Identities, nonces and digests are their
    bytes; revisions and ordinals are non-zero 64-bit integers. *)
From stdpp Require Import prelude strings.
From S2P Require Import Prelude.
From S2P Require Import Bytes.
From S2P Require Import ModelIds.

Open Scope Z_scope.

(** ** Turns *)

Inductive ProviderOperationKind := OpContextCompaction.

Inductive TurnKind :=
  | OrdinaryUser
  | BerylLifecycleContinuation
  | BerylDiscussionHandoff
  | ProviderOperation (kind : ProviderOperationKind).

Inductive TurnLifecycle :=
  | TlPending | TlActive | TlComplete | TlInterrupted | TlFailed | TlIncomplete | TlUnknownTerminal.

Definition is_proven_terminal (l : TurnLifecycle) : bool :=
  match l with TlComplete | TlInterrupted | TlFailed | TlIncomplete => true | _ => false end.
Definition blocks_same_thread_start (l : TurnLifecycle) : bool :=
  match l with TlPending | TlActive | TlUnknownTerminal => true | _ => false end.

Inductive TurnTerminalOutcome :=
  | OcComplete | OcInterrupted | OcFailed | OcIncomplete | OcUnknownTerminal.

Definition outcome_lifecycle (o : TurnTerminalOutcome) : TurnLifecycle :=
  match o with
  | OcComplete => TlComplete
  | OcInterrupted => TlInterrupted
  | OcFailed => TlFailed
  | OcIncomplete => TlIncomplete
  | OcUnknownTerminal => TlUnknownTerminal
  end.

Inductive UnsupportedHistoryReason :=
  | UnknownPublicItem | MalformedRequiredField | UnsupportedRequiredPayload
  | HostedImageGeneration | ImpossibleLifecycle.

Inductive TurnIncompleteReason :=
  | StreamLost | AuthorityLost | WorkerStopped | CompletionMismatch | ItemAuditFailed
  | UnsupportedHistory (reason : UnsupportedHistoryReason).

Inductive SyndicValueError :=
  | SvEmptyText (kind : string)
  | SvTextTooLong (kind : string) (maximum actual : Z)
  | SvTooManyScalars (kind : string) (maximum actual : Z)
  | SvNulByte (kind : string) (index : Z)
  | SvSurroundingWhitespace (kind : string)
  | SvControlCharacter (kind : string) (index : Z)
  | SvMissingAlphanumeric (kind : string)
  | SvZeroPositiveValue (kind : string)
  | SvInvalidRange (range_start range_end : Z)
  | SvRangeTooLong (maximum actual : Z)
  | SvContextLengthMismatch (text_bytes range_bytes : Z)
  | SvZeroOrdinal (kind : string)
  | SvOrdinalExhausted (kind : string)
  | SvZeroCount (kind : string)
  | SvCountTooLarge (kind : string) (maximum actual : Z)
  | SvInvalidLineageProof (reason : string)
  | IncompleteTurnRequiresReason.

Record TurnEndStatus := mkEndStatus
  { outcome : TurnTerminalOutcome; incomplete_reason : option TurnIncompleteReason }.

Definition new_end_status (o : TurnTerminalOutcome) (r : option TurnIncompleteReason)
    : result SyndicValueError TurnEndStatus :=
  match o, r with
  | OcIncomplete, None => Err IncompleteTurnRequiresReason
  | _, _ => Ok (mkEndStatus o r)
  end.
Definition end_lifecycle (s : TurnEndStatus) : TurnLifecycle := outcome_lifecycle (outcome s).

Inductive ProviderObservationIssueReason :=
  | CompletionOnlyItemStarted | DuplicateItemStart | MissingItemStart | EventAfterCompletion
  | ItemKindMismatch | CompletionBeforeStart.

Inductive AcceptedInputLifecycle :=
  | AlAdmitted | AlDelivering | AlDelivered | AlRetryable | AlFailed | AlDeliveryUnknown | AlPromoted.
Definition accepted_is_terminal (l : AcceptedInputLifecycle) : bool :=
  match l with AlDelivered | AlFailed | AlDeliveryUnknown | AlPromoted => true | _ => false end.

Inductive NextTurnReason :=
  | NtPendingTurn | NtCompaction | NtStop | NtSteeringRejected | NtProjectionLost
  | NtTerminalHistory | NtUnknownTerminal.

Inductive ResourceKind := RkCode | RkTable | RkImage | RkAttachment | RkLog | RkOther.

Inductive ConversationParent := Root | ParentTurn (turn : list byte).
Definition parent_from_turn (p : option (list byte)) : ConversationParent :=
  match p with Some p => ParentTurn p | None => Root end.
Definition parent_turn (p : ConversationParent) : option (list byte) :=
  match p with Root => None | ParentTurn p => Some p end.

Inductive DiscussionContextOwnerId := OwnerDraft (id : list byte) | OwnerSubmittedTurn (id : list byte).

Record TurnDispatchAnchor := mkAnchor { anchor_snapshot : list byte; anchor_binding_revision : Z }.
Inductive TurnDispatchProvenance :=
  | Unattempted | Activated (a : TurnDispatchAnchor) | Cancelled (a : TurnDispatchAnchor)
  | DispatchProviderOperation.

(** ** Sources and proofs *)

Record CasTurnSource := mkTurnSource { cts_thread : list byte; cts_turn : list byte }.
Record CasItemSource := mkItemSource { cis_turn : CasTurnSource; cis_item : list byte }.

Record CasLoadedSessionGeneration := mkLoaded { loaded_process : Z; loaded_thread : Z }.

Record SelectedPathProof := mkSelectedPath
  { sp_tail : option (list byte); sp_thread_revision : Z; sp_digest : list byte }.
Record CasRepresentedPrefixProof := mkRepresentedPrefix
  { rp_tail : option (list byte); rp_thread_revision : Z; rp_digest : list byte }.

Record PendingSteeringTargetProof := mkPendingSteering
  { ps_binding_revision : Z; ps_snapshot : list byte; ps_turn : list byte; ps_cas_thread : list byte }.
Record SteeringTargetProof := mkSteering { st_pending : PendingSteeringTargetProof; st_cas_turn : list byte }.

Record AcceptedRouteHeadProof := mkRouteHead { rh_generation : Z; rh_revision : Z }.

(** ** Repair *)

Record RepairSourceEventWitness := mkWitness { rw_sequence : Z; rw_digest : list byte }.

Inductive RepairCaptureGapReason :=
  | TerminalCaptureIncomplete | ForcedAbortOrderingUnproven | ProviderObservationIssue.

Inductive RepairProvenanceError :=
  | RpUnknownTerminal | RpMissingIncompleteReason | RpRequiresInterruptedTerminal
  | RpMissingObservationIssue | RpInvalidIssueOrder.

Record RepairCaptureGap := mkGap {
  gap_terminal : RepairSourceEventWitness;
  gap_status : TurnEndStatus;
  gap_reason : RepairCaptureGapReason;
  gap_issue : option RepairSourceEventWitness
}.

Definition new_gap (terminal : RepairSourceEventWitness) (status : TurnEndStatus)
    (reason : RepairCaptureGapReason) (issue : option RepairSourceEventWitness)
    : result RepairProvenanceError RepairCaptureGap :=
  if negb (is_proven_terminal (end_lifecycle status)) then Err RpUnknownTerminal
  else
    _ ← match reason, incomplete_reason status, outcome status, issue with
        | TerminalCaptureIncomplete, None, _, _ => Err RpMissingIncompleteReason
        | ForcedAbortOrderingUnproven, _, OcInterrupted, _ => Ok tt
        | ForcedAbortOrderingUnproven, _, _, _ => Err RpRequiresInterruptedTerminal
        | ProviderObservationIssue, _, _, None => Err RpMissingObservationIssue
        | _, _, _, _ => Ok tt
        end;
    if match issue with Some i => rw_sequence terminal <=? rw_sequence i | None => false end
    then Err RpInvalidIssueOrder
    else Ok (mkGap terminal status reason issue).

Inductive RepairRequestDispositionError := InvalidRevisionTransition.

Record ConsumedRepairRequest := mkConsumed
  { cr_attempt : list byte; cr_source_gate : Z; cr_successor_gate : Z }.

Definition new_consumed (attempt : list byte) (source successor : Z)
    : result RepairRequestDispositionError ConsumedRepairRequest :=
  match checked_next source with
  | Ok next => if next =? successor then Ok (mkConsumed attempt source successor)
               else Err InvalidRevisionTransition
  | Err _ => Err InvalidRevisionTransition
  end.

Inductive RepairRequestDisposition := Available | Consumed (r : ConsumedRepairRequest).

Record RepairRequiredTarget := mkRepairTarget {
  rt_turn : list byte;
  rt_source : CasTurnSource;
  rt_gap : RepairCaptureGap;
  rt_request : RepairRequestDisposition
}.

Inductive RepairResolution := ResIncomplete (reason : TurnIncompleteReason).
Record ResolvedRepair := mkResolved { rr_target : RepairRequiredTarget; rr_resolution : RepairResolution }.

(** ** The input gate *)

Inductive InputGateState :=
  | GateIdle
  | GatePendingTurn (turn : list byte)
  | GateAwaitingSteering (turn : list byte)
  | GateSteerable (turn : list byte)
  | GateAwaitingTerminal (turn : list byte)
  | GateCompacting (turn_id operation_nonce : list byte)
  | GateStopping (turn_id operation_nonce : list byte)
  | GateFinalizingHistory (turn : list byte)
  | GateRepairRequired (target : RepairRequiredTarget).

Definition blocking_turn_id (g : InputGateState) : option (list byte) :=
  match g with
  | GateIdle => None
  | GatePendingTurn turn | GateAwaitingSteering turn | GateSteerable turn
  | GateAwaitingTerminal turn | GateFinalizingHistory turn => Some turn
  | GateCompacting turn_id _ => Some turn_id
  | GateStopping turn_id _ => Some turn_id
  | GateRepairRequired target => Some (rt_turn target)
  end.
Definition compaction_operation_nonce (g : InputGateState) : option (list byte) :=
  match g with GateCompacting _ nonce => Some nonce | _ => None end.
Definition stop_operation_nonce (g : InputGateState) : option (list byte) :=
  match g with GateStopping _ nonce => Some nonce | _ => None end.
