(* ===== verification/SyndicParts.v ===== *)
(** * The Syndic record codec: building blocks

    [crates/syndic-storage/src/codec/parts.rs] with the values of [parts/value.rs],
    [parts/value/turn.rs] and [parts/repair.rs].  An encoder call appends the bytes its model
    returns; a decoder takes the remaining bytes and returns what it leaves.

    [Exact valid enc dec] is what one part promises to the next: the decoder succeeds exactly
    on encodings of valid values, wherever they end.  Every part below is shown exact, so that
    a record made of parts is shown exact by composing them. *)
From stdpp Require Import prelude strings.
From S2P Require Import Prelude.
From S2P Require Import Bytes.
From S2P Require Import ModelIds.
From S2P Require Import ModelText.
From S2P Require Import SyndicValues.

Open Scope Z_scope.

Inductive CodecError :=
  | Truncated
  | TrailingBytes
  | InvalidLength (kind : string)
  | InvalidTag (kind : string) (tag : Z)
  | InvalidUtf8 (kind : string)
  | InvalidValue (kind : string)
  | CursorSentinel.

(** ** Decoders *)

Definition decoder (A : Type) : Type := list byte -> result CodecError (A * list byte).

#[global] Instance decoder_ret : MRet decoder := fun A a bs => Ok (a, bs).
#[global] Instance decoder_bind : MBind decoder := fun A B k d bs =>
  match d bs with Ok (a, rest) => k a rest | Err e => Err e end.
#[global] Instance decoder_fmap : FMap decoder := fun A B f d bs =>
  match d bs with Ok (a, rest) => Ok (f a, rest) | Err e => Err e end.

Definition refuse {A} (e : CodecError) : decoder A := fun _ => Err e.

(** [x.map_err(|source| invalid(kind, source))?] *)
Definition checked {E A} (kind : string) (r : result E A) : decoder A := fun bs =>
  match r with Ok a => Ok (a, bs) | Err _ => Err (InvalidValue kind) end.

Definition d_take (n : nat) : decoder (list byte) := fun bs =>
  if (length bs <? n)%nat then Err Truncated else Ok (take n bs, drop n bs).
Definition d_u8 : decoder Z := be_value <$> d_take 1.
Definition d_u32 : decoder Z := be_value <$> d_take 4.
Definition d_u64 : decoder Z := be_value <$> d_take 8.
Definition d_fixed16 : decoder (list byte) := d_take 16.
Definition d_fixed32 : decoder (list byte) := d_take 32.
Definition d_text (kind : string) : decoder (list byte) :=
  len ← d_u32;
  bs ← d_take (Z.to_nat len);
  if utf8_valid bs then mret bs else refuse (InvalidUtf8 kind).
Definition d_bytes (kind : string) : decoder (list byte) :=
  len ← d_u32; d_take (Z.to_nat len).

(** [Decoder::new], the fields, then [finish]. *)
Definition run_decoder {A} (d : decoder A) (bs : list byte) : result CodecError A :=
  '(a, rest) ← d bs;
  if bool_decide (rest = []) then Ok a else Err TrailingBytes.

(** ** Encoders *)

Definition e_u8 (v : Z) : list byte := be_bytes 1 v.
Definition e_u32 (v : Z) : list byte := be_bytes 4 v.
Definition e_u64 (v : Z) : list byte := be_bytes 8 v.
Definition e_bytes (v : list byte) : list byte := e_u32 (zlen v) ++ v.
Definition e_text (v : list byte) : list byte := e_u32 (zlen v) ++ v.

(** ** Exactness *)

Definition is_u8 (v : Z) : Prop := 0 <= v < 256.
Definition is_rev (v : Z) : Prop := 1 <= v <= U64_MAX.

Class Exact {A} (valid : A -> Prop) (enc : A -> list byte) (dec : decoder A) : Prop :=
  exact bs a rest : dec bs = Ok (a, rest) <-> valid a /\ bs = enc a ++ rest.

Lemma bind_Ok {A B} (d : decoder A) (k : A -> decoder B) bs b rest :
  (d ≫= k) bs = Ok (b, rest) <-> exists a mid, d bs = Ok (a, mid) /\ k a mid = Ok (b, rest).
Proof. unfold mbind, decoder_bind. destruct (d bs) as [[a mid]|e]; naive_solver. Qed.

Lemma ret_Ok {A} (a b : A) bs rest : (mret a : decoder A) bs = Ok (b, rest) <-> b = a /\ rest = bs.
Proof. unfold mret, decoder_ret. naive_solver. Qed.

Lemma fmap_Ok {A B} (f : A -> B) (d : decoder A) bs b rest :
  (f <$> d) bs = Ok (b, rest) <-> exists a, d bs = Ok (a, rest) /\ b = f a.
Proof. unfold fmap, decoder_fmap. destruct (d bs) as [[a mid]|e]; naive_solver. Qed.

Lemma checked_Ok {E A} kind (r : result E A) bs a rest :
  checked kind r bs = Ok (a, rest) <-> r = Ok a /\ rest = bs.
Proof. unfold checked. destruct r; naive_solver. Qed.

Lemma bind_run {A B} (d : decoder A) `{!Exact valid enc d} (k : A -> decoder B) bs a rest r :
  valid a -> bs = enc a ++ rest -> k a rest = r -> (d ≫= k) bs = r.
Proof.
  intros Hv -> <-. assert (d (enc a ++ rest) = Ok (a, rest)) as E by (by apply (exact (dec := d))).
  unfold mbind, decoder_bind. by rewrite E.
Qed.

(** Take the parts of a successful decoding [H] apart. *)
Ltac part_inv H :=
  let H' := fresh "Hpart" in
  apply bind_Ok in H as (? & ? & H' & H);
  first [ apply exact in H' as [? ->] | apply checked_Ok in H' as [? ->] | idtac ].
Ltac parts_inv H := repeat part_inv H; apply ret_Ok in H as [-> ->].

(** Run the next part of a decoder on the encoding in the goal. *)
Ltac run_part :=
  eapply bind_run; [apply _| |rewrite <- ?app_assoc; reflexivity|];
  [try first [done | solve [unfold is_u8, is_u32, is_u64, is_rev in *; lia]]|].
Ltac run_checked :=
  lazymatch goal with |- (checked ?kind ?r ≫= ?k) ?bs = ?x =>
    let E := fresh in assert (r = Ok _) as E; [|unfold mbind at 1, decoder_bind at 1, checked at 1; rewrite E; clear E] end.

(** A whole record: decoding succeeds exactly on the encoding. *)
Lemma run_exact {A} valid enc (d : decoder A) `{!Exact valid enc d} bs a :
  run_decoder d bs = Ok a <-> valid a /\ bs = enc a.
Proof.
  unfold run_decoder. rewrite result_bind_Ok. split.
  - intros ([b rest] & Hd & H). apply (exact (dec := d)) in Hd as [Hv ->].
    case_bool_decide; [|done]. simplify_eq. by rewrite app_nil_r.
  - intros [Hv ->]. exists (a, []). split; [|done]. apply (exact (dec := d)). by rewrite app_nil_r.
Qed.

Lemma d_take_Ok n bs a rest : d_take n bs = Ok (a, rest) <-> length a = n /\ bs = a ++ rest.
Proof.
  unfold d_take. destruct (Nat.ltb_spec (length bs) n).
  - split; [done|]. intros [Hl ->]. rewrite length_app in *. lia.
  - split.
    + intros [= <- <-]. rewrite length_take_le, take_drop by lia. done.
    + intros [<- ->]. by rewrite take_app_length, drop_app_length.
Qed.

Definition any {A} (_ : A) : Prop := True.
Definition fixed (n : nat) (bs : list byte) : Prop := length bs = n.
Definition same (bs : list byte) : list byte := bs.

Lemma uint_exact n : Exact (fun v => 0 <= v < 256 ^ Z.of_nat n) (be_bytes n) (be_value <$> d_take n).
Proof.
  intros bs v rest. rewrite fmap_Ok. setoid_rewrite d_take_Ok. split.
  - intros (a & (Hl & ->) & ->). split; [rewrite <- Hl; apply be_value_range|].
    by rewrite be_bytes_value_n.
  - intros [Hv ->]. exists (be_bytes n v). rewrite length_be_bytes, be_value_bytes by done. done.
Qed.

#[global] Instance u8_exact : Exact is_u8 e_u8 d_u8.
Proof. exact (uint_exact 1). Qed.
#[global] Instance u32_exact : Exact is_u32 e_u32 d_u32.
Proof.
  intros bs v rest. rewrite (uint_exact 4 bs v rest). change (256 ^ Z.of_nat 4) with 4294967296.
  unfold is_u32. naive_solver lia.
Qed.
#[global] Instance u64_exact : Exact is_u64 e_u64 d_u64.
Proof.
  intros bs v rest. rewrite (uint_exact 8 bs v rest). change (256 ^ Z.of_nat 8) with 18446744073709551616.
  unfold is_u64. naive_solver lia.
Qed.
#[global] Instance fixed_exact n : Exact (fixed n) same (d_take n).
Proof. intros bs v rest. apply d_take_Ok. Qed.

Definition is_text (t : list byte) : Prop := utf8_valid t = true /\ zlen t <= U32_MAX.

Lemma e_text_length t : zlen (e_text t) = 4 + zlen t.
Proof. unfold e_text. rewrite length_app. unfold e_u32. rewrite length_be_bytes. lia. Qed.
#[global] Instance text_exact kind : Exact is_text e_text (d_text kind).
Proof.
  intros bs t rest. unfold d_text, e_text, is_text. split.
  - intros H. apply bind_Ok in H as (len & m1 & Hlen & H). apply u32_exact in Hlen as [[Hl0 Hl1] ->].
    apply bind_Ok in H as (a & m2 & Ha & H). apply d_take_Ok in Ha as [Ha ->].
    destruct (utf8_valid a) eqn:Hu; [|done]. apply ret_Ok in H as [-> ->].
    assert (zlen a = len) as -> by lia. by rewrite <- app_assoc.
  - intros [[Hu Hl] ->]. run_part.
    rewrite Nat2Z.id. run_part. by rewrite Hu.
Qed.

#[global] Instance fixed16_exact : Exact (fixed 16) same d_fixed16.
Proof. exact (fixed_exact 16). Qed.
#[global] Instance fixed32_exact : Exact (fixed 32) same d_fixed32.
Proof. exact (fixed_exact 32). Qed.

(** ** Identities, revisions, ordinals *)

(** [id_helpers!]: sixteen bytes.  [revision_helpers!] and [ordinal_helpers!]: a non-zero
    64-bit integer, read through the constructor of its type. *)
Definition dec_id : decoder (list byte) := d_fixed16.
Definition enc_id (id : list byte) : list byte := id.
Definition enc_rev (v : Z) : list byte := e_u64 v.
Definition dec_rev (kind : string) : decoder Z := v ← d_u64; checked kind (new_revision v).

#[global] Instance id_exact : Exact (fixed 16) enc_id dec_id.
Proof. exact (fixed_exact 16). Qed.

Lemma new_revision_Ok v w : new_revision v = Ok w <-> w = v /\ v <> 0.
Proof. unfold new_revision, nonzero. destruct (Z.eqb_spec v 0); cbn; naive_solver. Qed.

#[global] Instance rev_exact kind : Exact is_rev enc_rev (dec_rev kind).
Proof.
  intros bs v rest. unfold dec_rev, enc_rev, is_rev. split.
  - intros H. part_inv H. apply checked_Ok in H as [H ->]. apply new_revision_Ok in H as [-> H].
    unfold is_u64 in *. split; [lia|done].
  - intros [Hv ->]. run_part. apply checked_Ok. split; [|done].
    apply new_revision_Ok. lia.
Qed.

(** [dec_cas_thread], [dec_cas_turn], [dec_cas_item]. *)
Definition enc_external (t : list byte) : list byte := e_text t.
Definition dec_external (kind value_kind : string) : decoder (list byte) :=
  t ← d_text kind; checked kind (external_id value_kind t).

Definition is_external (t : list byte) : Prop :=
  utf8_valid t = true /\ external_id "" t = Ok t.

Lemma external_kind k k' t u : external_id k t = Ok u <-> external_id k' t = Ok u.
Proof. unfold external_id. by rewrite !bounded_text_Ok. Qed.

#[global] Instance external_exact kind vk : Exact is_external enc_external (dec_external kind vk).
Proof.
  intros bs t rest. unfold dec_external, enc_external, is_external. split.
  - intros H. part_inv H. apply checked_Ok in H as [H ->]. rewrite (external_kind vk "") in H.
    assert (t = x) as -> by (by apply bounded_text_Ok in H as [? _]).
    by match goal with H : is_text _ |- _ => destruct H end.
  - intros [[Hu Hb] ->].
    assert (zlen t <= 256) by (by apply bounded_text_Ok in Hb as (_ & _ & ? & _)).
    run_part; [split; [done|lia]|]. apply checked_Ok. split; [|done]. by rewrite (external_kind vk "").
Qed.

(** ** Options and tags *)

Definition enc_opt {A} (enc : A -> list byte) (v : option A) : list byte :=
  match v with Some v => e_u8 1 ++ enc v | None => e_u8 0 end.
Definition dec_opt {A} (kind : string) (dec : decoder A) : decoder (option A) :=
  tag ← d_u8;
  match tag with
  | 0 => mret None
  | 1 => Some <$> dec
  | _ => refuse (InvalidTag kind tag)
  end.

Definition opt_valid {A} (valid : A -> Prop) (v : option A) : Prop :=
  match v with Some v => valid v | None => True end.

(** The tag of a decoded variant is one of a few small numbers. *)
Ltac tag_cases t := destruct t as [|t|t]; repeat (destruct t as [t|t|]; try done); try done.

#[global] Instance opt_exact {A} valid enc (dec : decoder A) kind `{!Exact valid enc dec} :
  Exact (opt_valid valid) (enc_opt enc) (dec_opt kind dec).
Proof.
  intros bs v rest. unfold dec_opt. split.
  - intros H. part_inv H. tag_cases x.
    + by apply ret_Ok in H as [-> ->].
    + apply fmap_Ok in H as (a & Ha & ->). apply exact in Ha as [Hv ->].
      split; [done|]. cbn. by rewrite <- app_assoc.
  - intros [Hv ->]. destruct v as [v|]; cbn [enc_opt].
    + run_part. apply fmap_Ok. exists v. split; [|done]. by apply exact.
    + run_part. done.
Qed.

Definition enc_bool (b : bool) : list byte := e_u8 (if b then 1 else 0).
Definition dec_bool (kind : string) : decoder bool :=
  tag ← d_u8;
  match tag with 0 => mret false | 1 => mret true | _ => refuse (InvalidTag kind tag) end.

#[global] Instance bool_exact kind : Exact any enc_bool (dec_bool kind).
Proof.
  intros bs v rest. unfold dec_bool. split.
  - intros H. part_inv H. tag_cases x; by apply ret_Ok in H as [-> ->].
  - intros [_ ->]. destruct v; run_part; done.
Qed.

(** Enumerations: a table of tags. *)
Definition enc_enum {A} (tag : A -> Z) (v : A) : list byte := e_u8 (tag v).
Definition dec_enum {A} (kind : string) (of_tag : Z -> option A) : decoder A :=
  tag ← d_u8;
  match of_tag tag with Some v => mret v | None => refuse (InvalidTag kind tag) end.

Lemma enum_exact {A} kind (tag : A -> Z) of_tag :
  (forall a, is_u8 (tag a) /\ of_tag (tag a) = Some a) -> (forall t a, of_tag t = Some a -> t = tag a) ->
  Exact any (enc_enum tag) (dec_enum kind of_tag).
Proof.
  intros H1 H2 bs v rest. unfold dec_enum, enc_enum. split.
  - intros H. part_inv H. destruct (of_tag x) as [a|] eqn:E; [|done]. apply ret_Ok in H as [-> ->].
    by apply H2 in E as ->.
  - intros [_ ->]. destruct (H1 v) as [Hu E]. run_part. by rewrite E.
Qed.

Ltac enum_tags := apply enum_exact;
  [intros a; destruct a; split; unfold is_u8; cbn; (lia || done)
  |intros t a; tag_cases t; cbn; intros [= <-]; done].

(** ** Enumerations of the values *)

Definition next_turn_reason_tag (r : NextTurnReason) : Z :=
  match r with
  | NtPendingTurn => 0 | NtCompaction => 1 | NtStop => 2 | NtSteeringRejected => 3
  | NtProjectionLost => 5 | NtTerminalHistory => 6 | NtUnknownTerminal => 7
  end.
Definition next_turn_reason_of (t : Z) : option NextTurnReason :=
  match t with
  | 0 => Some NtPendingTurn | 1 => Some NtCompaction | 2 => Some NtStop
  | 3 => Some NtSteeringRejected | 5 => Some NtProjectionLost | 6 => Some NtTerminalHistory
  | 7 => Some NtUnknownTerminal | _ => None
  end.
Definition enc_next_turn_reason := enc_enum next_turn_reason_tag.
Definition dec_next_turn_reason := dec_enum "next-turn reason" next_turn_reason_of.

Definition accepted_lifecycle_tag (l : AcceptedInputLifecycle) : Z :=
  match l with
  | AlAdmitted => 0 | AlDelivering => 1 | AlDelivered => 2 | AlRetryable => 3 | AlFailed => 4
  | AlDeliveryUnknown => 5 | AlPromoted => 6
  end.
Definition accepted_lifecycle_of (t : Z) : option AcceptedInputLifecycle :=
  match t with
  | 0 => Some AlAdmitted | 1 => Some AlDelivering | 2 => Some AlDelivered | 3 => Some AlRetryable
  | 4 => Some AlFailed | 5 => Some AlDeliveryUnknown | 6 => Some AlPromoted | _ => None
  end.
Definition enc_accepted_lifecycle := enc_enum accepted_lifecycle_tag.
Definition dec_accepted_lifecycle := dec_enum "accepted-input lifecycle" accepted_lifecycle_of.

Definition resource_kind_tag (k : ResourceKind) : Z :=
  match k with RkCode => 0 | RkTable => 1 | RkImage => 2 | RkAttachment => 3 | RkLog => 4 | RkOther => 5 end.
Definition resource_kind_of (t : Z) : option ResourceKind :=
  match t with
  | 0 => Some RkCode | 1 => Some RkTable | 2 => Some RkImage | 3 => Some RkAttachment
  | 4 => Some RkLog | 5 => Some RkOther | _ => None
  end.
Definition enc_resource_kind := enc_enum resource_kind_tag.
Definition dec_resource_kind := dec_enum "resource kind" resource_kind_of.

Definition turn_kind_tag (k : TurnKind) : Z :=
  match k with
  | OrdinaryUser => 0 | BerylLifecycleContinuation => 2 | BerylDiscussionHandoff => 3
  | ProviderOperation OpContextCompaction => 1
  end.
Definition turn_kind_of (t : Z) : option TurnKind :=
  match t with
  | 0 => Some OrdinaryUser | 1 => Some (ProviderOperation OpContextCompaction)
  | 2 => Some BerylLifecycleContinuation | 3 => Some BerylDiscussionHandoff | _ => None
  end.
Definition enc_turn_kind := enc_enum turn_kind_tag.
Definition dec_turn_kind := dec_enum "turn kind" turn_kind_of.

Definition turn_lifecycle_tag (l : TurnLifecycle) : Z :=
  match l with
  | TlPending => 0 | TlActive => 1 | TlComplete => 2 | TlInterrupted => 3 | TlFailed => 4
  | TlIncomplete => 5 | TlUnknownTerminal => 6
  end.
Definition turn_lifecycle_of (t : Z) : option TurnLifecycle :=
  match t with
  | 0 => Some TlPending | 1 => Some TlActive | 2 => Some TlComplete | 3 => Some TlInterrupted
  | 4 => Some TlFailed | 5 => Some TlIncomplete | 6 => Some TlUnknownTerminal | _ => None
  end.
Definition enc_turn_lifecycle := enc_enum turn_lifecycle_tag.
Definition dec_turn_lifecycle := dec_enum "turn lifecycle" turn_lifecycle_of.

Definition outcome_tag (o : TurnTerminalOutcome) : Z :=
  match o with
  | OcComplete => 0 | OcInterrupted => 1 | OcFailed => 2 | OcIncomplete => 3 | OcUnknownTerminal => 4
  end.
Definition outcome_of (t : Z) : option TurnTerminalOutcome :=
  match t with
  | 0 => Some OcComplete | 1 => Some OcInterrupted | 2 => Some OcFailed | 3 => Some OcIncomplete
  | 4 => Some OcUnknownTerminal | _ => None
  end.
Definition enc_turn_terminal_outcome := enc_enum outcome_tag.
Definition dec_turn_terminal_outcome := dec_enum "turn terminal outcome" outcome_of.

Definition unsupported_tag (r : UnsupportedHistoryReason) : Z :=
  match r with
  | UnknownPublicItem => 0 | MalformedRequiredField => 1 | UnsupportedRequiredPayload => 2
  | HostedImageGeneration => 3 | ImpossibleLifecycle => 4
  end.
Definition unsupported_of (t : Z) : option UnsupportedHistoryReason :=
  match t with
  | 0 => Some UnknownPublicItem | 1 => Some MalformedRequiredField
  | 2 => Some UnsupportedRequiredPayload | 3 => Some HostedImageGeneration
  | 4 => Some ImpossibleLifecycle | _ => None
  end.
Definition enc_unsupported_history_reason := enc_enum unsupported_tag.
Definition dec_unsupported_history_reason := dec_enum "unsupported history reason" unsupported_of.

Definition issue_reason_tag (r : ProviderObservationIssueReason) : Z :=
  match r with
  | CompletionOnlyItemStarted => 0 | DuplicateItemStart => 1 | MissingItemStart => 2
  | EventAfterCompletion => 3 | ItemKindMismatch => 4 | CompletionBeforeStart => 5
  end.
Definition issue_reason_of (t : Z) : option ProviderObservationIssueReason :=
  match t with
  | 0 => Some CompletionOnlyItemStarted | 1 => Some DuplicateItemStart | 2 => Some MissingItemStart
  | 3 => Some EventAfterCompletion | 4 => Some ItemKindMismatch | 5 => Some CompletionBeforeStart
  | _ => None
  end.
Definition enc_provider_observation_issue_reason := enc_enum issue_reason_tag.
Definition dec_provider_observation_issue_reason :=
  dec_enum "provider-observation issue reason" issue_reason_of.

#[global] Instance next_turn_reason_exact : Exact any enc_next_turn_reason dec_next_turn_reason.
Proof. enum_tags. Qed.
#[global] Instance accepted_lifecycle_exact : Exact any enc_accepted_lifecycle dec_accepted_lifecycle.
Proof. enum_tags. Qed.
#[global] Instance resource_kind_exact : Exact any enc_resource_kind dec_resource_kind.
Proof. enum_tags. Qed.
#[global] Instance turn_kind_exact : Exact any enc_turn_kind dec_turn_kind.
Proof.
  apply enum_exact; [intros [| | |[]]; split; unfold is_u8; cbn; (lia || done)|].
  intros t a; tag_cases t; cbn; intros [= <-]; done.
Qed.
#[global] Instance turn_lifecycle_exact : Exact any enc_turn_lifecycle dec_turn_lifecycle.
Proof. enum_tags. Qed.
#[global] Instance outcome_exact : Exact any enc_turn_terminal_outcome dec_turn_terminal_outcome.
Proof. enum_tags. Qed.
#[global] Instance unsupported_exact : Exact any enc_unsupported_history_reason dec_unsupported_history_reason.
Proof. enum_tags. Qed.
#[global] Instance issue_reason_exact :
  Exact any enc_provider_observation_issue_reason dec_provider_observation_issue_reason.
Proof. enum_tags. Qed.

(** ** Composite values *)

(** [e.u8(tag)] before the fields of a variant. *)
Definition variant (tag : Z) (fields : list byte) : list byte := e_u8 tag ++ fields.

Definition enc_parent (p : ConversationParent) : list byte :=
  match p with Root => variant 0 [] | ParentTurn id => variant 1 (enc_id id) end.
Definition dec_parent : decoder ConversationParent :=
  tag ← d_u8;
  match tag with
  | 0 => mret Root
  | 1 => ParentTurn <$> dec_id
  | _ => refuse (InvalidTag "conversation parent" tag)
  end.

Definition enc_context_owner (o : DiscussionContextOwnerId) : list byte :=
  match o with
  | OwnerDraft id => variant 0 (enc_id id)
  | OwnerSubmittedTurn id => variant 1 (enc_id id)
  end.
Definition dec_context_owner : decoder DiscussionContextOwnerId :=
  tag ← d_u8;
  match tag with
  | 0 => OwnerDraft <$> dec_id
  | 1 => OwnerSubmittedTurn <$> dec_id
  | _ => refuse (InvalidTag "context owner" tag)
  end.

(** [CasConversationToolProfile] is its digest; version 1 is the only one. *)
Definition enc_tool_profile (digest : list byte) : list byte := e_u8 1 ++ digest.
Definition dec_tool_profile : decoder (list byte) :=
  tag ← d_u8;
  match tag with
  | 1 => d_fixed32
  | _ => refuse (InvalidTag "CAS conversation-tool profile version" tag)
  end.

Definition enc_turn_dispatch_provenance (p : TurnDispatchProvenance) : list byte :=
  match p with
  | Unattempted => variant 0 []
  | Activated a => variant 1 (enc_id (anchor_snapshot a) ++ enc_rev (anchor_binding_revision a))
  | Cancelled a => variant 2 (enc_id (anchor_snapshot a) ++ enc_rev (anchor_binding_revision a))
  | DispatchProviderOperation => variant 3 []
  end.
Definition dec_anchor : decoder TurnDispatchAnchor :=
  snapshot ← dec_id; revision ← dec_rev "binding revision"; mret (mkAnchor snapshot revision).
Definition dec_turn_dispatch_provenance : decoder TurnDispatchProvenance :=
  tag ← d_u8;
  match tag with
  | 0 => mret Unattempted
  | 1 => Activated <$> dec_anchor
  | 2 => Cancelled <$> dec_anchor
  | 3 => mret DispatchProviderOperation
  | _ => refuse (InvalidTag "turn dispatch provenance" tag)
  end.

Definition enc_turn_incomplete_reason (r : TurnIncompleteReason) : list byte :=
  match r with
  | StreamLost => variant 0 []
  | AuthorityLost => variant 1 []
  | WorkerStopped => variant 2 []
  | CompletionMismatch => variant 3 []
  | ItemAuditFailed => variant 4 []
  | UnsupportedHistory reason => variant 5 (enc_unsupported_history_reason reason)
  end.
Definition dec_turn_incomplete_reason : decoder TurnIncompleteReason :=
  tag ← d_u8;
  match tag with
  | 0 => mret StreamLost
  | 1 => mret AuthorityLost
  | 2 => mret WorkerStopped
  | 3 => mret CompletionMismatch
  | 4 => mret ItemAuditFailed
  | 5 => UnsupportedHistory <$> dec_unsupported_history_reason
  | _ => refuse (InvalidTag "turn incomplete reason" tag)
  end.

Definition enc_turn_end_status (s : TurnEndStatus) : list byte :=
  enc_turn_terminal_outcome (outcome s) ++ enc_opt enc_turn_incomplete_reason (incomplete_reason s).
Definition dec_turn_end_status : decoder TurnEndStatus :=
  o ← dec_turn_terminal_outcome;
  r ← dec_opt "turn incomplete reason" dec_turn_incomplete_reason;
  s ← checked "turn end status" (new_end_status o r);
  mret s.

Definition enc_cas_turn_source (s : CasTurnSource) : list byte :=
  enc_external (cts_thread s) ++ enc_external (cts_turn s).
Definition dec_cas_thread := dec_external "CAS thread id" "CAS thread identity".
Definition dec_cas_turn := dec_external "CAS turn id" "CAS turn identity".
Definition dec_cas_item := dec_external "CAS item id" "CAS item identity".
Definition dec_cas_turn_source : decoder CasTurnSource :=
  thread ← dec_cas_thread; turn ← dec_cas_turn; mret (mkTurnSource thread turn).
Definition enc_cas_item_source (s : CasItemSource) : list byte :=
  enc_cas_turn_source (cis_turn s) ++ enc_external (cis_item s).
Definition dec_cas_item_source : decoder CasItemSource :=
  turn ← dec_cas_turn_source; item ← dec_cas_item; mret (mkItemSource turn item).

Definition enc_pending_steering (p : PendingSteeringTargetProof) : list byte :=
  enc_rev (ps_binding_revision p) ++ enc_id (ps_snapshot p) ++ enc_id (ps_turn p)
  ++ enc_external (ps_cas_thread p).
Definition dec_pending_steering : decoder PendingSteeringTargetProof :=
  revision ← dec_rev "binding revision"; snapshot ← dec_id; turn ← dec_id; thread ← dec_cas_thread;
  mret (mkPendingSteering revision snapshot turn thread).
Definition enc_steering_target (p : SteeringTargetProof) : list byte :=
  enc_pending_steering (st_pending p) ++ enc_external (st_cas_turn p).
Definition dec_steering_target : decoder SteeringTargetProof :=
  pending ← dec_pending_steering; turn ← dec_cas_turn; mret (mkSteering pending turn).

Definition enc_selected_path (p : SelectedPathProof) : list byte :=
  enc_opt enc_id (sp_tail p) ++ enc_rev (sp_thread_revision p) ++ sp_digest p.
Definition dec_selected_path : decoder SelectedPathProof :=
  tail ← dec_opt "selected tail" dec_id; revision ← dec_rev "thread revision"; digest ← d_fixed32;
  mret (mkSelectedPath tail revision digest).
Definition enc_represented_prefix (p : CasRepresentedPrefixProof) : list byte :=
  enc_opt enc_id (rp_tail p) ++ enc_rev (rp_thread_revision p) ++ rp_digest p.
Definition dec_represented_prefix : decoder CasRepresentedPrefixProof :=
  tail ← dec_opt "represented-prefix tail" dec_id; revision ← dec_rev "thread revision";
  digest ← d_fixed32; mret (mkRepresentedPrefix tail revision digest).

Definition enc_loaded_generation (g : CasLoadedSessionGeneration) : list byte :=
  e_u64 (loaded_process g) ++ e_u64 (loaded_thread g).
Definition dec_loaded_generation : decoder CasLoadedSessionGeneration :=
  process ← dec_rev "CAS process generation"; thread ← dec_rev "loaded-thread generation";
  mret (mkLoaded process thread).

Definition enc_execution (b : ExecutionBinding) : list byte :=
  runtime_id b ++ root_id b
  ++ match path_mode (root_path b) with Host => e_u8 0 | Wsl name => e_u8 1 ++ e_text name end
  ++ e_u8 (match path_flavor (root_path b) with Windows => 0 | Posix => 1 end)
  ++ e_text (path_value (root_path b)).
Definition dec_mode : decoder RuntimeMode :=
  tag ← d_u8;
  match tag with
  | 0 => mret Host
  | 1 => t ← d_text "WSL distribution"; name ← checked "runtime mode" (wsl_distribution_name t); mret (Wsl name)
  | _ => refuse (InvalidTag "runtime mode" tag)
  end.
Definition dec_flavor : decoder PathFlavor :=
  tag ← d_u8;
  match tag with
  | 0 => mret Windows | 1 => mret Posix | _ => refuse (InvalidTag "path flavor" tag)
  end.
Definition dec_execution : decoder ExecutionBinding :=
  runtime ← d_fixed16;
  root ← d_fixed16;
  mode ← dec_mode;
  flavor ← dec_flavor;
  t ← d_text "runtime path";
  path ← checked "runtime path" (native_path mode flavor t);
  mret (mkBinding runtime root path).

(** ** Composite values are exact *)

(** A record: the fields one after the other. *)
Ltac exact_record :=
  let H := fresh "H" in
  intros bs v rest; split;
  [ intros H; parts_inv H; split; [hnf; split_and?; done|cbn; rewrite <- ?app_assoc; reflexivity]
  | intros [H ->]; destruct v; hnf in H; destruct_and?; cbn in *; repeat run_part; done ].

(** A sum: a tag, then the fields of the variant. *)
Ltac variant_fields H :=
  first [ apply ret_Ok in H as [-> ->]; split; [done|reflexivity]
        | apply fmap_Ok in H as (? & H & ->); apply exact in H as [? ->]; split; [done|];
          cbn; unfold variant; rewrite <- ?app_assoc; reflexivity ].
Ltac exact_variant :=
  let H := fresh "H" in
  intros bs v rest; split;
  [ intros H; part_inv H;
    match type of H with context [match ?t with _ => _ end] => tag_cases t end; variant_fields H
  | intros [H ->]; destruct v; hnf in H; cbn; unfold variant; run_part; cbn;
    first [ done
          | apply fmap_Ok; eexists; split; [|reflexivity];
            apply exact; split; [done|cbn; rewrite <- ?app_assoc; reflexivity] ] ].

Definition parent_valid (p : ConversationParent) : Prop :=
  match p with Root => True | ParentTurn id => fixed 16 id end.
#[global] Instance parent_exact : Exact parent_valid enc_parent dec_parent.
Proof. unfold dec_parent. exact_variant. Qed.

Definition owner_valid (o : DiscussionContextOwnerId) : Prop :=
  match o with OwnerDraft id | OwnerSubmittedTurn id => fixed 16 id end.
#[global] Instance context_owner_exact : Exact owner_valid enc_context_owner dec_context_owner.
Proof. unfold dec_context_owner. exact_variant. Qed.

#[global] Instance tool_profile_exact : Exact (fixed 32) enc_tool_profile dec_tool_profile.
Proof.
  intros bs v rest. unfold dec_tool_profile. split.
  - intros H. part_inv H. tag_cases x. by apply exact in H as [? ->].
  - intros [H ->]. unfold enc_tool_profile. run_part. by apply exact.
Qed.

Definition anchor_valid (a : TurnDispatchAnchor) : Prop :=
  fixed 16 (anchor_snapshot a) /\ is_rev (anchor_binding_revision a).
#[global] Instance anchor_exact : Exact anchor_valid
  (fun a => enc_id (anchor_snapshot a) ++ enc_rev (anchor_binding_revision a)) dec_anchor.
Proof. unfold dec_anchor. exact_record. Qed.

Definition dispatch_valid (p : TurnDispatchProvenance) : Prop :=
  match p with Activated a | Cancelled a => anchor_valid a | _ => True end.
#[global] Instance dispatch_exact :
  Exact dispatch_valid enc_turn_dispatch_provenance dec_turn_dispatch_provenance.
Proof. unfold dec_turn_dispatch_provenance. exact_variant. Qed.

#[global] Instance incomplete_reason_exact : Exact any enc_turn_incomplete_reason dec_turn_incomplete_reason.
Proof. unfold dec_turn_incomplete_reason. exact_variant. Qed.

Definition source_valid (s : CasTurnSource) : Prop := is_external (cts_thread s) /\ is_external (cts_turn s).
#[global] Instance cas_turn_source_exact : Exact source_valid enc_cas_turn_source dec_cas_turn_source.
Proof. unfold enc_cas_turn_source, dec_cas_turn_source, dec_cas_thread, dec_cas_turn. exact_record. Qed.

Definition item_source_valid (s : CasItemSource) : Prop := source_valid (cis_turn s) /\ is_external (cis_item s).
#[global] Instance cas_item_source_exact : Exact item_source_valid enc_cas_item_source dec_cas_item_source.
Proof. unfold enc_cas_item_source, dec_cas_item_source, dec_cas_item. exact_record. Qed.

Definition pending_steering_valid (p : PendingSteeringTargetProof) : Prop :=
  is_rev (ps_binding_revision p) /\ fixed 16 (ps_snapshot p) /\ fixed 16 (ps_turn p) /\
  is_external (ps_cas_thread p).
#[global] Instance pending_steering_exact : Exact pending_steering_valid enc_pending_steering dec_pending_steering.
Proof. unfold enc_pending_steering, dec_pending_steering, dec_cas_thread. exact_record. Qed.

Definition steering_valid (p : SteeringTargetProof) : Prop :=
  pending_steering_valid (st_pending p) /\ is_external (st_cas_turn p).
#[global] Instance steering_exact : Exact steering_valid enc_steering_target dec_steering_target.
Proof. unfold enc_steering_target, dec_steering_target, dec_cas_turn. exact_record. Qed.

Definition selected_path_valid (p : SelectedPathProof) : Prop :=
  opt_valid (fixed 16) (sp_tail p) /\ is_rev (sp_thread_revision p) /\ fixed 32 (sp_digest p).
#[global] Instance selected_path_exact : Exact selected_path_valid enc_selected_path dec_selected_path.
Proof. unfold enc_selected_path, dec_selected_path. exact_record. Qed.

Definition represented_prefix_valid (p : CasRepresentedPrefixProof) : Prop :=
  opt_valid (fixed 16) (rp_tail p) /\ is_rev (rp_thread_revision p) /\ fixed 32 (rp_digest p).
#[global] Instance represented_prefix_exact :
  Exact represented_prefix_valid enc_represented_prefix dec_represented_prefix.
Proof. unfold enc_represented_prefix, dec_represented_prefix. exact_record. Qed.

Definition loaded_valid (g : CasLoadedSessionGeneration) : Prop :=
  is_rev (loaded_process g) /\ is_rev (loaded_thread g).
#[global] Instance loaded_exact : Exact loaded_valid enc_loaded_generation dec_loaded_generation.
Proof. unfold enc_loaded_generation, dec_loaded_generation. exact_record. Qed.

(** [TurnEndStatus::new] refuses an incomplete turn without a reason. *)
Definition end_status_valid (s : TurnEndStatus) : Prop :=
  new_end_status (outcome s) (incomplete_reason s) = Ok s.
#[global] Instance end_status_exact : Exact end_status_valid enc_turn_end_status dec_turn_end_status.
Proof.
  intros bs s rest. unfold dec_turn_end_status, enc_turn_end_status, end_status_valid. split.
  - intros H. parts_inv H.
    match goal with H : new_end_status ?o ?r = Ok ?s |- _ =>
      assert (s = mkEndStatus o r) as -> by (destruct o, r; cbn in H; congruence); split; [exact H|] end.
    cbn. by rewrite <- app_assoc.
  - intros [H ->]. run_part. run_part; [by destruct (incomplete_reason s)|].
    rewrite H. reflexivity.
Qed.

(** Runtime modes and paths pass their constructors' checks. *)
Definition mode_valid (m : RuntimeMode) : Prop :=
  match m with Host => True | Wsl name => is_text name /\ wsl_distribution_name name = Ok name end.
Definition enc_mode (m : RuntimeMode) : list byte :=
  match m with Host => e_u8 0 | Wsl name => e_u8 1 ++ e_text name end.

Lemma wsl_name_same t name : wsl_distribution_name t = Ok name -> name = t.
Proof.
  unfold wsl_distribution_name. intros H. apply result_bind_Ok in H as (b & Hb & H).
  destruct (find_char _ _); [done|]. injection H as <-. by apply bounded_text_Ok in Hb as [-> _].
Qed.

#[global] Instance mode_exact : Exact mode_valid enc_mode dec_mode.
Proof.
  intros bs m rest. unfold dec_mode. split.
  - intros H. part_inv H. tag_cases x.
    + by apply ret_Ok in H as [-> ->].
    + do 2 part_inv H. apply ret_Ok in H as [-> ->].
      match goal with H : wsl_distribution_name _ = Ok _ |- _ =>
        pose proof (wsl_name_same _ _ H) as Es; rewrite Es in * end.
      split; [done|]. cbn. by rewrite <- app_assoc.
  - intros [H ->]. destruct m as [|name]; cbn [enc_mode].
    + run_part. done.
    + destruct H as [Ht Hn]. run_part. run_part. rewrite Hn. done.
Qed.

Definition flavor_tag (f : PathFlavor) : Z := match f with Windows => 0 | Posix => 1 end.
#[global] Instance flavor_exact : Exact any (fun f => e_u8 (flavor_tag f)) dec_flavor.
Proof.
  intros bs f rest. unfold dec_flavor. split.
  - intros H. part_inv H. tag_cases x; by apply ret_Ok in H as [-> ->].
  - intros [_ ->]. destruct f; run_part; done.
Qed.

Definition execution_valid (b : ExecutionBinding) : Prop :=
  fixed 16 (runtime_id b) /\ fixed 16 (root_id b) /\ mode_valid (path_mode (root_path b)) /\
  is_text (path_value (root_path b)) /\
  native_path (path_mode (root_path b)) (path_flavor (root_path b)) (path_value (root_path b))
  = Ok (root_path b).

Lemma native_path_same m f t p : native_path m f t = Ok p -> p = mkNativePath m f t.
Proof.
  unfold native_path. case_match; [done|]. intros Hp. apply result_bind_Ok in Hp as (v & Hv & [= <-]).
  apply validate_path_Ok in Hv as [Hb _]. by apply bounded_text_Ok in Hb as [-> _].
Qed.

#[global] Instance execution_exact : Exact execution_valid enc_execution dec_execution.
Proof.
  intros bs b rest. unfold dec_execution, enc_execution, execution_valid. split.
  - intros H. parts_inv H.
    match goal with H : native_path _ _ _ = Ok _ |- _ =>
      pose proof (native_path_same _ _ _ _ H) as Es; rewrite Es in * end.
    cbn. split; [done|]. by rewrite <- !app_assoc.
  - intros [(H1 & H2 & H3 & H4 & H5) ->]. destruct b as [r1 r2 [m f v]]. cbn in *.
    run_part. run_part.
    eapply (bind_run dec_mode); [done|rewrite <- ?app_assoc; reflexivity|].
    eapply (bind_run dec_flavor); [done|rewrite <- ?app_assoc; reflexivity|].
    run_part. rewrite H5. done.
Qed.

(** ** Repair targets and the input gate *)

Definition enc_witness (w : RepairSourceEventWitness) : list byte := enc_rev (rw_sequence w) ++ rw_digest w.
Definition dec_witness : decoder RepairSourceEventWitness :=
  sequence ← dec_rev "source-event sequence"; digest ← d_fixed32; mret (mkWitness sequence digest).

Definition gap_reason_tag (r : RepairCaptureGapReason) : Z :=
  match r with TerminalCaptureIncomplete => 0 | ForcedAbortOrderingUnproven => 1 | ProviderObservationIssue => 2 end.
Definition gap_reason_of (t : Z) : option RepairCaptureGapReason :=
  match t with
  | 0 => Some TerminalCaptureIncomplete | 1 => Some ForcedAbortOrderingUnproven
  | 2 => Some ProviderObservationIssue | _ => None
  end.

Definition enc_disposition (d : RepairRequestDisposition) : list byte :=
  match d with
  | Available => e_u8 0
  | Consumed r => e_u8 1 ++ cr_attempt r ++ enc_rev (cr_source_gate r) ++ enc_rev (cr_successor_gate r)
  end.
Definition dec_disposition : decoder RepairRequestDisposition :=
  tag ← d_u8;
  match tag with
  | 0 => mret Available
  | 1 =>
      attempt ← d_fixed16;
      source ← dec_rev "input-gate revision";
      successor ← dec_rev "input-gate revision";
      r ← checked "consumed repair request" (new_consumed attempt source successor);
      mret (Consumed r)
  | _ => refuse (InvalidTag "repair request disposition" tag)
  end.

Definition enc_repair_target (t : RepairRequiredTarget) : list byte :=
  let gap := rt_gap t in
  enc_id (rt_turn t) ++ enc_cas_turn_source (rt_source t) ++ enc_witness (gap_terminal gap)
  ++ enc_turn_end_status (gap_status gap) ++ enc_enum gap_reason_tag (gap_reason gap)
  ++ enc_opt enc_witness (gap_issue gap) ++ enc_disposition (rt_request t).
Definition dec_repair_target : decoder RepairRequiredTarget :=
  turn ← dec_id;
  source ← dec_cas_turn_source;
  terminal ← dec_witness;
  status ← dec_turn_end_status;
  reason ← dec_enum "repair gap reason" gap_reason_of;
  issue ← dec_opt "repair issue witness" dec_witness;
  gap ← checked "repair capture gap" (new_gap terminal status reason issue);
  request ← dec_disposition;
  mret (mkRepairTarget turn source gap request).

Definition enc_resolved_repair (r : ResolvedRepair) : list byte :=
  enc_repair_target (rr_target r)
  ++ match rr_resolution r with ResIncomplete reason => e_u8 0 ++ enc_turn_incomplete_reason reason end.
Definition dec_resolution : decoder RepairResolution :=
  tag ← d_u8;
  match tag with
  | 0 => ResIncomplete <$> dec_turn_incomplete_reason
  | _ => refuse (InvalidTag "repair resolution" tag)
  end.
Definition dec_resolved_repair : decoder ResolvedRepair :=
  target ← dec_repair_target; resolution ← dec_resolution; mret (mkResolved target resolution).

Definition enc_input_gate_state (g : InputGateState) : list byte :=
  match g with
  | GateIdle => variant 0 []
  | GatePendingTurn turn => variant 1 (enc_id turn)
  | GateAwaitingSteering turn => variant 2 (enc_id turn)
  | GateSteerable turn => variant 3 (enc_id turn)
  | GateCompacting turn nonce => variant 4 (enc_id turn ++ nonce)
  | GateStopping turn nonce => variant 5 (enc_id turn ++ nonce)
  | GateFinalizingHistory turn => variant 6 (enc_id turn)
  | GateAwaitingTerminal turn => variant 7 (enc_id turn)
  | GateRepairRequired target => variant 8 (enc_repair_target target)
  end.
Definition dec_input_gate_state : decoder InputGateState :=
  tag ← d_u8;
  match tag with
  | 0 => mret GateIdle
  | 1 => GatePendingTurn <$> dec_id
  | 2 => GateAwaitingSteering <$> dec_id
  | 3 => GateSteerable <$> dec_id
  | 4 => turn ← dec_id; nonce ← d_fixed16; mret (GateCompacting turn nonce)
  | 5 => turn ← dec_id; nonce ← d_fixed16; mret (GateStopping turn nonce)
  | 6 => GateFinalizingHistory <$> dec_id
  | 7 => GateAwaitingTerminal <$> dec_id
  | 8 => GateRepairRequired <$> dec_repair_target
  | _ => refuse (InvalidTag "input-gate state" tag)
  end.

Definition witness_valid (w : RepairSourceEventWitness) : Prop := is_rev (rw_sequence w) /\ fixed 32 (rw_digest w).
#[global] Instance witness_exact : Exact witness_valid enc_witness dec_witness.
Proof. unfold enc_witness, dec_witness. exact_record. Qed.
#[global] Instance gap_reason_exact :
  Exact any (enc_enum gap_reason_tag) (dec_enum "repair gap reason" gap_reason_of).
Proof. enum_tags. Qed.

Definition disposition_valid (d : RepairRequestDisposition) : Prop :=
  match d with
  | Available => True
  | Consumed r => fixed 16 (cr_attempt r) /\ is_rev (cr_source_gate r) /\ is_rev (cr_successor_gate r) /\
      cr_successor_gate r = cr_source_gate r + 1
  end.

Lemma new_consumed_Ok a s n r : is_rev s -> is_rev n ->
  new_consumed a s n = Ok r <-> r = mkConsumed a s n /\ n = s + 1.
Proof.
  unfold new_consumed, checked_next, checked_add64, nonzero, is_rev. intros Hs Hn.
  destruct (Z.leb_spec (s + 1) U64_MAX); cbn; [|split; [done|lia]].
  destruct (Z.eqb_spec (s + 1) 0); [lia|]. cbn.
  destruct (Z.eqb_spec (s + 1) n); [naive_solver|]. split; [done|lia].
Qed.

#[global] Instance disposition_exact : Exact disposition_valid enc_disposition dec_disposition.
Proof.
  intros bs d rest. unfold dec_disposition. split.
  - intros H. part_inv H. tag_cases x.
    + by apply ret_Ok in H as [-> ->].
    + do 4 part_inv H. apply ret_Ok in H as [-> ->].
      match goal with H : new_consumed _ _ _ = Ok _ |- _ => apply new_consumed_Ok in H as [-> ->]; [|done..] end.
      split; [done|]. cbn. by rewrite <- !app_assoc.
  - intros [H ->]. destruct d as [|[a s n]]; cbn [enc_disposition disposition_valid] in *; [by run_part|].
    destruct H as (? & ? & ? & E). cbn in *. run_part. do 3 run_part.
    rewrite (proj2 (new_consumed_Ok a s n (mkConsumed a s n) ltac:(done) ltac:(done))) by done. done.
Qed.

Definition gap_valid (g : RepairCaptureGap) : Prop :=
  witness_valid (gap_terminal g) /\ end_status_valid (gap_status g) /\
  opt_valid witness_valid (gap_issue g) /\
  new_gap (gap_terminal g) (gap_status g) (gap_reason g) (gap_issue g) = Ok g.
Definition repair_valid (t : RepairRequiredTarget) : Prop :=
  fixed 16 (rt_turn t) /\ source_valid (rt_source t) /\ gap_valid (rt_gap t) /\
  disposition_valid (rt_request t).

Lemma new_gap_same t s r i g : new_gap t s r i = Ok g -> g = mkGap t s r i.
Proof.
  unfold new_gap. case_match; [done|]. intros Hg. apply result_bind_Ok in Hg as (? & _ & Hg).
  by destruct (match i with Some _ => _ | None => false end); simplify_eq.
Qed.

#[global] Instance repair_exact : Exact repair_valid enc_repair_target dec_repair_target.
Proof.
  intros bs t rest. unfold dec_repair_target, enc_repair_target. split.
  - intros H. parts_inv H.
    match goal with H : new_gap _ _ _ _ = Ok _ |- _ =>
      pose proof (new_gap_same _ _ _ _ _ H) as Es; rewrite Es in * end.
    split; [done|]. cbn. by rewrite <- !app_assoc.
  - intros [(H1 & H2 & (H3 & H4 & H5 & H6) & H7) ->]. do 6 run_part. rewrite H6.
    unfold mbind at 1, decoder_bind at 1, checked. run_part. by destruct t.
Qed.

#[global] Instance resolution_exact : Exact any
  (fun r => match r with ResIncomplete reason => e_u8 0 ++ enc_turn_incomplete_reason reason end) dec_resolution.
Proof. unfold dec_resolution. exact_variant. Qed.

#[global] Instance resolved_exact :
  Exact (fun r => repair_valid (rr_target r)) enc_resolved_repair dec_resolved_repair.
Proof.
  intros bs r rest. unfold dec_resolved_repair, enc_resolved_repair. split.
  - intros H. parts_inv H. split; [done|]. cbn. by rewrite <- !app_assoc.
  - intros [H ->]. run_part. eapply (bind_run dec_resolution); [done|reflexivity|]. by destruct r.
Qed.

Definition gate_valid (g : InputGateState) : Prop :=
  match g with
  | GateIdle => True
  | GatePendingTurn turn | GateAwaitingSteering turn | GateSteerable turn
  | GateAwaitingTerminal turn | GateFinalizingHistory turn => fixed 16 turn
  | GateCompacting turn nonce | GateStopping turn nonce => fixed 16 turn /\ fixed 16 nonce
  | GateRepairRequired target => repair_valid target
  end.

#[global] Instance gate_exact : Exact gate_valid enc_input_gate_state dec_input_gate_state.
Proof.
  intros bs g rest. unfold dec_input_gate_state. split.
  - intros H. part_inv H. tag_cases x; try variant_fields H.
    all: parts_inv H; split; [done|]; cbn; unfold variant; by rewrite <- !app_assoc.
  - intros [H ->]. destruct g; cbn [gate_valid enc_input_gate_state] in *; unfold variant; run_part; cbn.
    all: first [ done
               | destruct H; do 2 run_part; done
               | apply fmap_Ok; eexists; split; [|reflexivity]; by apply exact ].
Qed.

(** ** Theorems *)

(** An input-gate state, with the repair target and repair request it may carry, decodes
    from a byte string exactly when it satisfies the checks of its constructors and the string
    is its encoding; and an execution binding exactly when its runtime mode and its path were
    admitted by the model's checks and the string is its encoding. *)
Theorem part_codecs_exact bs :
  (forall g, run_decoder dec_input_gate_state bs = Ok g <-> gate_valid g /\ bs = enc_input_gate_state g)
  /\ (forall b, run_decoder dec_execution bs = Ok b <-> execution_valid b /\ bs = enc_execution b).
Proof. split; intros v; apply run_exact, _. Qed.
