(* ===== verification/SyndicKeys.v ===== *)
(** * Keys of the Syndic tables

    [syndic-storage]: [codec/keys.rs] and [codec/keys/{transcript,content,projection,provider,
    query,cas}.rs], with the keys of [draft_piece/admission/codec.rs] and
    [generated_media/codec.rs]: every type that implements [ScanKey].  The store orders records by the bytes of their keys, so a scan of the
    records of one owner relies on three things: encoding is exact, the bytes order keys as
    their fields do, and the first and last key of a scan enclose the keys they are meant to. *)

From stdpp Require Import prelude strings.
From S2P Require Import Prelude.
From S2P Require Import Bytes.
From S2P Require Import ModelIds.
From S2P Require Import ModelText.
From S2P Require Import SyndicValues.
From S2P Require Import SyndicParts.

(** ** Identities and counters at the ends of a scan *)

Definition id_first : list byte := replicate 16 x00.
Definition id_last : list byte := replicate 16 xff.
Definition ORDINAL_FIRST : Z := 1.

(** ** [keys.rs] *)

(** An owner with an ordinal: the keys of the macro [owner_ordinal_key!].  [kind] names the
    ordinal in the error of a zero. *)
Record OwnerOrdinalKey := mkOwnerOrdinal { oo_owner : list byte; oo_ordinal : Z }.
Definition enc_owner_ordinal (k : OwnerOrdinalKey) : list byte := enc_id (oo_owner k) ++ enc_rev (oo_ordinal k).
Definition dec_owner_ordinal (kind : string) : decoder OwnerOrdinalKey :=
  owner ← dec_id; ordinal ← dec_rev kind; mret (mkOwnerOrdinal owner ordinal).
Definition owner_ordinal_first : OwnerOrdinalKey := mkOwnerOrdinal id_first ORDINAL_FIRST.
Definition owner_ordinal_last : OwnerOrdinalKey := mkOwnerOrdinal id_last U64_MAX.

(** The instances of the macro and their ordinal kinds. *)
Inductive OwnerOrdinalFamily :=
  | ContentChunkKey | ThreadAcceptedKey | TurnEventKey | TurnItemKey | ItemEventKey
  | ProjectionResourceKey.
Definition ordinal_kind (f : OwnerOrdinalFamily) : string :=
  match f with
  | ContentChunkKey => "content-chunk ordinal"
  | ThreadAcceptedKey => "accepted-input ordinal"
  | TurnEventKey => "source-event sequence"
  | TurnItemKey => "item ordinal"
  | ItemEventKey => "item source-event ordinal"
  | ProjectionResourceKey => "resource ordinal"
  end.

Record ThreadRouteKey := mkThreadRoute { tr_thread : list byte; tr_generation : Z }.
Definition enc_thread_route (k : ThreadRouteKey) : list byte := enc_id (tr_thread k) ++ e_u64 (tr_generation k).
Definition dec_thread_route : decoder ThreadRouteKey :=
  thread ← dec_id; generation ← dec_rev "accepted-route generation key"; mret (mkThreadRoute thread generation).
Definition thread_route_first : ThreadRouteKey := mkThreadRoute id_first ORDINAL_FIRST.
Definition thread_route_last : ThreadRouteKey := mkThreadRoute id_last U64_MAX.

Inductive ContextOwnerKey := KeyDraft (id : list byte) | KeyTurn (id : list byte).
Definition context_key_of_owner (o : DiscussionContextOwnerId) : ContextOwnerKey :=
  match o with OwnerDraft id => KeyDraft id | OwnerSubmittedTurn id => KeyTurn id end.
Definition owner_of_context_key (k : ContextOwnerKey) : DiscussionContextOwnerId :=
  match k with KeyDraft id => OwnerDraft id | KeyTurn id => OwnerSubmittedTurn id end.
Definition enc_context_key (k : ContextOwnerKey) : list byte :=
  match k with KeyDraft id => e_u8 0 ++ enc_id id | KeyTurn id => e_u8 1 ++ enc_id id end.
Definition dec_context_key : decoder ContextOwnerKey :=
  tag ← d_u8;
  match tag with
  | 0 => KeyDraft <$> dec_id
  | 1 => KeyTurn <$> dec_id
  | _ => refuse (InvalidTag "context-owner key" tag)
  end.
Definition context_key_first : ContextOwnerKey := KeyDraft id_first.
Definition context_key_last : ContextOwnerKey := KeyTurn id_last.

(** [ThreadPairKey], [TurnPairKey], and the identities of the stop and compaction operations
    ([codec/primary/{stop,compaction}.rs]): two identities. *)
Record PairKey := mkPair { pk_first : list byte; pk_second : list byte }.
Definition enc_pair (k : PairKey) : list byte := enc_id (pk_first k) ++ enc_id (pk_second k).
Definition dec_pair : decoder PairKey := a ← dec_id; b ← dec_id; mret (mkPair a b).
Definition pair_first : PairKey := mkPair id_first id_first.
Definition pair_last : PairKey := mkPair id_last id_last.

(** [StopOperationId] and [CompactionOperationId] as keys: a thread and a nonce. *)
Record OperationKey := mkOperationKey { ok_thread : list byte; ok_nonce : list byte }.
Definition enc_operation_key (k : OperationKey) : list byte := enc_id (ok_thread k) ++ enc_id (ok_nonce k).
Definition dec_operation_key : decoder OperationKey := thread ← dec_id; nonce ← dec_id; mret (mkOperationKey thread nonce).
Definition operation_key_first : OperationKey := mkOperationKey id_first id_first.
Definition operation_key_last : OperationKey := mkOperationKey id_last id_last.

(** ** [keys/transcript.rs] *)

Record ThreadTranscriptBuildKey := mkTranscriptBuild { tb_thread : list byte; tb_generation : Z }.
Definition enc_transcript_build (k : ThreadTranscriptBuildKey) : list byte :=
  enc_id (tb_thread k) ++ enc_rev (tb_generation k).
Definition dec_transcript_build : decoder ThreadTranscriptBuildKey :=
  thread ← dec_id; generation ← dec_rev "transcript generation"; mret (mkTranscriptBuild thread generation).
Definition first_for_thread (thread : list byte) : ThreadTranscriptBuildKey := mkTranscriptBuild thread ORDINAL_FIRST.
Definition last_for_thread (thread : list byte) : ThreadTranscriptBuildKey := mkTranscriptBuild thread U64_MAX.
Definition transcript_build_first : ThreadTranscriptBuildKey := mkTranscriptBuild id_first ORDINAL_FIRST.
Definition transcript_build_last : ThreadTranscriptBuildKey := mkTranscriptBuild id_last U64_MAX.

Record ThreadTranscriptPathKey := mkTranscriptPath
  { tp_thread : list byte; tp_generation : Z; tp_depth : Z }.
Definition enc_transcript_path (k : ThreadTranscriptPathKey) : list byte :=
  enc_id (tp_thread k) ++ enc_rev (tp_generation k) ++ enc_rev (tp_depth k).
Definition dec_transcript_path : decoder ThreadTranscriptPathKey :=
  thread ← dec_id; generation ← dec_rev "transcript generation"; depth ← dec_rev "turn depth";
  mret (mkTranscriptPath thread generation depth).
Definition transcript_path_first : ThreadTranscriptPathKey := mkTranscriptPath id_first ORDINAL_FIRST ORDINAL_FIRST.
Definition transcript_path_last : ThreadTranscriptPathKey := mkTranscriptPath id_last U64_MAX U64_MAX.

Record ThreadTranscriptKey := mkTranscript { tk_thread : list byte; tk_generation : Z; tk_position : Z }.
Definition enc_transcript (k : ThreadTranscriptKey) : list byte :=
  enc_id (tk_thread k) ++ enc_rev (tk_generation k) ++ enc_rev (tk_position k).
Definition dec_transcript : decoder ThreadTranscriptKey :=
  thread ← dec_id; generation ← dec_rev "transcript generation"; position ← dec_rev "transcript position";
  mret (mkTranscript thread generation position).
Definition transcript_first : ThreadTranscriptKey := mkTranscript id_first ORDINAL_FIRST ORDINAL_FIRST.
Definition transcript_last : ThreadTranscriptKey := mkTranscript id_last U64_MAX U64_MAX.

Record BindingKey := mkBindingKey { bk_thread : list byte; bk_revision : Z }.
Definition enc_binding_key (k : BindingKey) : list byte := enc_id (bk_thread k) ++ enc_rev (bk_revision k).
Definition dec_binding_key : decoder BindingKey :=
  thread ← dec_id; revision ← dec_rev "binding revision"; mret (mkBindingKey thread revision).
Definition binding_key_first : BindingKey := mkBindingKey id_first 1.
Definition binding_key_last : BindingKey := mkBindingKey id_last U64_MAX.

(** ** [keys/content.rs] *)

(** [ContentByteSpanKey] and [ContentTextSpanKey]: an owner and a start that may be zero. *)
Record ContentSpanKey := mkContentSpan { cs_owner : list byte; cs_start : Z }.
Definition enc_content_span (k : ContentSpanKey) : list byte := enc_id (cs_owner k) ++ e_u64 (cs_start k).
Definition dec_content_span : decoder ContentSpanKey := owner ← dec_id; start ← d_u64; mret (mkContentSpan owner start).
Definition content_span_first : ContentSpanKey := mkContentSpan id_first 0.
Definition content_span_last : ContentSpanKey := mkContentSpan id_last U64_MAX.

Record ContentPieceKey := mkContentPiece { cp_owner : list byte; cp_ordinal : Z }.
Definition enc_content_piece (k : ContentPieceKey) : list byte := enc_id (cp_owner k) ++ enc_rev (cp_ordinal k).
Definition dec_content_piece : decoder ContentPieceKey :=
  owner ← dec_id; ordinal ← dec_rev "content piece ordinal"; mret (mkContentPiece owner ordinal).
Definition content_piece_first : ContentPieceKey := mkContentPiece id_first ORDINAL_FIRST.
Definition content_piece_last : ContentPieceKey := mkContentPiece id_last U64_MAX.

(** ** [keys/projection.rs] *)

Record ItemProjectionSetKey := mkProjectionSet { ps_item : list byte; ps_generation : Z }.
Definition enc_projection_set (k : ItemProjectionSetKey) : list byte := enc_id (ps_item k) ++ enc_rev (ps_generation k).
Definition dec_projection_set : decoder ItemProjectionSetKey :=
  item ← dec_id; generation ← dec_rev "item-projection generation"; mret (mkProjectionSet item generation).
Definition first_for_item (item : list byte) : ItemProjectionSetKey := mkProjectionSet item ORDINAL_FIRST.
Definition last_for_item (item : list byte) : ItemProjectionSetKey := mkProjectionSet item U64_MAX.
Definition projection_set_first : ItemProjectionSetKey := mkProjectionSet id_first ORDINAL_FIRST.
Definition projection_set_last : ItemProjectionSetKey := mkProjectionSet id_last U64_MAX.

Record StableItemProjectionKey := mkStableProjection { sp_item : list byte; sp_ordinal : Z }.
Definition enc_stable_projection (k : StableItemProjectionKey) : list byte := enc_id (sp_item k) ++ enc_rev (sp_ordinal k).
Definition dec_stable_projection : decoder StableItemProjectionKey :=
  item ← dec_id; ordinal ← dec_rev "projection ordinal"; mret (mkStableProjection item ordinal).
Definition stable_projection_first : StableItemProjectionKey := mkStableProjection id_first ORDINAL_FIRST.
Definition stable_projection_last : StableItemProjectionKey := mkStableProjection id_last U64_MAX.

Record ItemProjectionKey := mkItemProjection { ip_item : list byte; ip_generation : Z; ip_ordinal : Z }.
Definition enc_item_projection (k : ItemProjectionKey) : list byte :=
  enc_id (ip_item k) ++ enc_rev (ip_generation k) ++ enc_rev (ip_ordinal k).
Definition dec_item_projection : decoder ItemProjectionKey :=
  item ← dec_id; generation ← dec_rev "item-projection generation"; ordinal ← dec_rev "projection ordinal";
  mret (mkItemProjection item generation ordinal).
Definition item_projection_first : ItemProjectionKey := mkItemProjection id_first ORDINAL_FIRST ORDINAL_FIRST.
Definition item_projection_last : ItemProjectionKey := mkItemProjection id_last U64_MAX U64_MAX.

(** ** [keys/provider.rs] *)

(** A key of fixed length: the length is tested before any field is read. *)
Definition decode_sized {A} (n : nat) (kind : string) (d : decoder A) (bs : list byte) : result CodecError A :=
  if negb (length bs =? n)%nat then Err (InvalidLength kind) else run_decoder d bs.

Record ProviderObservationChunkKey := mkObservationChunk { oc_identity : list byte; oc_ordinal : Z }.
Definition enc_observation_chunk (k : ProviderObservationChunkKey) : list byte := oc_identity k ++ e_u64 (oc_ordinal k).
Definition dec_observation_chunk : decoder ProviderObservationChunkKey :=
  identity ← d_fixed16; ordinal ← d_u64; mret (mkObservationChunk identity ordinal).
Definition decode_observation_chunk := decode_sized 24 "provider-observation chunk key" dec_observation_chunk.
Definition observation_chunk_first : ProviderObservationChunkKey := mkObservationChunk id_first 0.
Definition observation_chunk_last : ProviderObservationChunkKey := mkObservationChunk id_last U64_MAX.

Record ProviderNarrativeSpanKey := mkNarrativeSpan
  { ns_content : list byte; ns_generation : Z; ns_logical_start : Z }.
Definition enc_narrative_span (k : ProviderNarrativeSpanKey) : list byte :=
  enc_id (ns_content k) ++ enc_rev (ns_generation k) ++ e_u64 (ns_logical_start k).
Definition dec_narrative_span : decoder ProviderNarrativeSpanKey :=
  content ← dec_id; generation ← dec_rev "provider narrative generation"; start ← d_u64;
  mret (mkNarrativeSpan content generation start).
Definition decode_narrative_span := decode_sized 32 "provider narrative-span key" dec_narrative_span.
Definition first_for_generation (content : list byte) (generation : Z) : ProviderNarrativeSpanKey :=
  mkNarrativeSpan content generation 0.
Definition last_for_generation (content : list byte) (generation : Z) : ProviderNarrativeSpanKey :=
  mkNarrativeSpan content generation U64_MAX.
Definition narrative_span_first : ProviderNarrativeSpanKey := mkNarrativeSpan id_first ORDINAL_FIRST 0.
Definition narrative_span_last : ProviderNarrativeSpanKey := mkNarrativeSpan id_last U64_MAX U64_MAX.

(** ** [keys/query.rs] *)

Record ImageLabelOriginSpanKey := mkLabelOrigin { lo_thread : list byte; lo_end_label : Z }.
Definition enc_label_origin (k : ImageLabelOriginSpanKey) : list byte := enc_id (lo_thread k) ++ enc_rev (lo_end_label k).
Definition dec_label_origin : decoder ImageLabelOriginSpanKey :=
  thread ← dec_id; label ← dec_rev "image-label ordinal"; mret (mkLabelOrigin thread label).
Definition label_origin_first : ImageLabelOriginSpanKey := mkLabelOrigin id_first ORDINAL_FIRST.
Definition label_origin_last : ImageLabelOriginSpanKey := mkLabelOrigin id_last U64_MAX.

(** [record/query/activity.rs]: running work first, then the newest, then by item. *)
Record ActivityQueryOrder := mkActivityOrder { ao_running : bool; ao_updated_at : Z; ao_item : list byte }.

Record ActivityQueryEntryKey := mkActivityEntry
  { ae_thread : list byte; ae_work_period : Z; ae_order : ActivityQueryOrder }.
Definition entry_first_for_period (thread : list byte) (period : Z) : ActivityQueryEntryKey :=
  mkActivityEntry thread period (mkActivityOrder true U64_MAX id_first).
Definition entry_first_completed_for_period (thread : list byte) (period : Z) : ActivityQueryEntryKey :=
  mkActivityEntry thread period (mkActivityOrder false U64_MAX id_first).
Definition entry_last_for_period (thread : list byte) (period : Z) : ActivityQueryEntryKey :=
  mkActivityEntry thread period (mkActivityOrder false 0 id_last).
Definition enc_activity_entry (k : ActivityQueryEntryKey) : list byte :=
  enc_id (ae_thread k) ++ e_u64 (ae_work_period k) ++ e_u8 (if ao_running (ae_order k) then 0 else 1)
  ++ e_u64 (U64_MAX - ao_updated_at (ae_order k)) ++ enc_id (ao_item (ae_order k)).
Definition dec_activity_entry : decoder ActivityQueryEntryKey :=
  thread ← dec_id;
  period ← dec_rev "activity work period";
  tag ← d_u8;
  running ← match tag with
            | 0 => mret true
            | 1 => mret false
            | _ => refuse (InvalidTag "activity running order" tag)
            end;
  v ← d_u64;
  item ← dec_id;
  mret (mkActivityEntry thread period (mkActivityOrder running (U64_MAX - v) item)).
Definition activity_entry_first : ActivityQueryEntryKey := entry_first_for_period id_first ORDINAL_FIRST.
Definition activity_entry_last : ActivityQueryEntryKey := entry_last_for_period id_last U64_MAX.

Record ActivityQuerySourceKey := mkActivitySource
  { as_thread : list byte; as_work_period : Z; as_source_thread : list byte; as_source_turn : list byte }.
Definition source_first_for_period (thread : list byte) (period : Z) : ActivityQuerySourceKey :=
  mkActivitySource thread period id_first id_first.
Definition source_last_for_period (thread : list byte) (period : Z) : ActivityQuerySourceKey :=
  mkActivitySource thread period id_last id_last.
Definition enc_activity_source (k : ActivityQuerySourceKey) : list byte :=
  enc_id (as_thread k) ++ e_u64 (as_work_period k) ++ enc_id (as_source_thread k) ++ enc_id (as_source_turn k).
Definition dec_activity_source : decoder ActivityQuerySourceKey :=
  thread ← dec_id; period ← dec_rev "activity work period"; source_thread ← dec_id; source_turn ← dec_id;
  mret (mkActivitySource thread period source_thread source_turn).
Definition activity_source_first : ActivityQuerySourceKey := source_first_for_period id_first ORDINAL_FIRST.
Definition activity_source_last : ActivityQuerySourceKey := source_last_for_period id_last U64_MAX.

(** ** [keys/cas.rs]: provider identities between two sentinels *)

Inductive Sentinel (A : Type) := Lower | Stored (a : A) | Upper.
Arguments Lower {A}. Arguments Stored {A} a. Arguments Upper {A}.

Definition enc_sentinel {A} (enc : A -> list byte) (k : Sentinel A) : list byte :=
  match k with Lower => e_u8 0 | Stored a => e_u8 1 ++ enc a | Upper => e_u8 2 end.
Definition dec_sentinel {A} (kind : string) (dec : decoder A) : decoder (Sentinel A) :=
  tag ← d_u8;
  match tag with
  | 0 => mret Lower
  | 1 => Stored <$> dec
  | 2 => mret Upper
  | _ => refuse (InvalidTag kind tag)
  end.
(** [stored]: a record is never kept under a sentinel. *)
Definition stored {A} (k : Sentinel A) : result CodecError unit :=
  match k with Stored _ => Ok tt | _ => Err CursorSentinel end.

Definition CasThreadKey : Type := Sentinel (list byte).
Definition enc_cas_thread_key : CasThreadKey -> list byte := enc_sentinel enc_external.
Definition dec_cas_thread_key : decoder CasThreadKey := dec_sentinel "CAS thread key" dec_cas_thread.

Record CasThreadBinding := mkCasBinding { ctb_thread : list byte; ctb_revision : Z }.
Definition CasThreadBindingKey : Type := Sentinel CasThreadBinding.
Definition enc_cas_binding (b : CasThreadBinding) : list byte :=
  enc_external (ctb_thread b) ++ enc_rev (ctb_revision b).
Definition dec_cas_binding : decoder CasThreadBinding :=
  thread ← dec_cas_thread; revision ← dec_rev "binding revision"; mret (mkCasBinding thread revision).
Definition enc_cas_thread_binding_key : CasThreadBindingKey -> list byte := enc_sentinel enc_cas_binding.
Definition dec_cas_thread_binding_key : decoder CasThreadBindingKey :=
  dec_sentinel "CAS thread binding key" dec_cas_binding.

Definition CasTurnKey : Type := Sentinel CasTurnSource.
Definition enc_cas_turn_key : CasTurnKey -> list byte := enc_sentinel enc_cas_turn_source.
Definition dec_cas_turn_key : decoder CasTurnKey := dec_sentinel "CAS turn key" dec_cas_turn_source.

Definition CasItemKey : Type := Sentinel CasItemSource.
Definition enc_cas_item_key : CasItemKey -> list byte := enc_sentinel enc_cas_item_source.
Definition dec_cas_item_key : decoder CasItemKey := dec_sentinel "CAS item key" dec_cas_item_source.

(** ** [draft_piece/admission/codec.rs] *)

Inductive AdmissionCapacityKey := TheCapacity.
Definition enc_capacity_key (_ : AdmissionCapacityKey) : list byte := [x00].
Definition decode_capacity_key (bs : list byte) : result CodecError AdmissionCapacityKey :=
  if bool_decide (bs = [x00]) then Ok TheCapacity else Err (InvalidLength "draft-marker admission capacity key").

Record AdmissionOwner := mkAdmissionOwner { am_draft : list byte; am_session : list byte; am_operation : list byte }.
Definition enc_admission_owner (k : AdmissionOwner) : list byte := enc_id (am_draft k) ++ enc_id (am_session k) ++ enc_id (am_operation k).
Definition dec_admission_owner : decoder AdmissionOwner := draft ← dec_id; session ← dec_id; operation ← dec_id; mret (mkAdmissionOwner draft session operation).
Definition admission_owner_first : AdmissionOwner := mkAdmissionOwner id_first id_first id_first.
Definition admission_owner_last : AdmissionOwner := mkAdmissionOwner id_last id_last id_last.

Inductive AdmissionNodeKind := KindInternal | KindLeaf.
Definition admission_kind_tag (k : AdmissionNodeKind) : Z := match k with KindInternal => 0 | KindLeaf => 1 end.
Definition admission_kind_of (t : Z) : option AdmissionNodeKind := match t with 0 => Some KindInternal | 1 => Some KindLeaf | _ => None end.
Definition dec_admission_kind : decoder AdmissionNodeKind := dec_enum "draft-marker admission node kind" admission_kind_of.

Record AdmissionNodeKey := mkAdmissionNode { an_owner : AdmissionOwner; an_kind : AdmissionNodeKind; an_node : list byte }.
Definition enc_admission_node (k : AdmissionNodeKey) : list byte :=
  enc_admission_owner (an_owner k) ++ enc_enum admission_kind_tag (an_kind k) ++ enc_id (an_node k).
Definition dec_admission_node : decoder AdmissionNodeKey :=
  owner ← dec_admission_owner; kind ← dec_admission_kind; node ← dec_id; mret (mkAdmissionNode owner kind node).
Definition admission_node_first : AdmissionNodeKey := mkAdmissionNode admission_owner_first KindInternal id_first.
Definition admission_node_last : AdmissionNodeKey := mkAdmissionNode admission_owner_last KindLeaf id_last.

Record AdmissionReceiptKey := mkAdmissionReceipt { ar_owner : AdmissionOwner; ar_command : list byte }.
Definition enc_admission_receipt (k : AdmissionReceiptKey) : list byte := enc_admission_owner (ar_owner k) ++ enc_id (ar_command k).
Definition dec_admission_receipt : decoder AdmissionReceiptKey := owner ← dec_admission_owner; command ← dec_id; mret (mkAdmissionReceipt owner command).
Definition admission_receipt_first : AdmissionReceiptKey := mkAdmissionReceipt admission_owner_first id_first.
Definition admission_receipt_last : AdmissionReceiptKey := mkAdmissionReceipt admission_owner_last id_last.

(** ** [generated_media/codec.rs] *)

Inductive MediaSourceKey := MediaAllocator | MediaResource (id : list byte) | MediaOwner (id : list byte).
Definition enc_media_source (k : MediaSourceKey) : list byte :=
  match k with MediaAllocator => [x00] | MediaResource id => [x01] ++ id | MediaOwner id => [x02] ++ id end.
Definition decode_media_source (bs : list byte) : result CodecError MediaSourceKey :=
  match bs with
  | [x00] => Ok MediaAllocator
  | x01 :: rest => if (length rest =? 16)%nat then Ok (MediaResource rest) else Err (InvalidLength "generated media source")
  | x02 :: rest => if (length rest =? 16)%nat then Ok (MediaOwner rest) else Err (InvalidLength "generated media source")
  | _ => Err (InvalidLength "generated media source")
  end.
Definition media_source_first : MediaSourceKey := MediaAllocator.
Definition media_source_last : MediaSourceKey := MediaOwner id_last.

(** [PendingKey]: encoding refuses zero. *)
Definition encode_pending (k : Z) : result CodecError (list byte) :=
  if k =? 0 then Err (InvalidLength "generated media source") else Ok (be_bytes 8 k).
Definition decode_pending (bs : list byte) : result CodecError Z :=
  if negb (length bs =? 8)%nat then Err (InvalidLength "generated media source")
  else let key := be_value bs in _ ← encode_pending key; Ok key.
Definition enc_pending (k : Z) : list byte := match encode_pending k with Ok bs => bs | Err _ => [] end.
Definition pending_first : Z := 1.
Definition pending_last : Z := U64_MAX.

(** ** The families, and the trait [ScanKey] *)

(** What the store asks of a key type: [encode], [decode] and the ends of a full scan. *)
Class ScanKey (K : Type) := {
  encode : K -> list byte;
  decode : list byte -> result CodecError K;
  scan_first : K;
  scan_last : K }.

Inductive family :=
  | FId | FOwnerOrdinal (f : OwnerOrdinalFamily) | FThreadRoute | FContextOwner | FPair | FOperation
  | FTranscriptBuild | FTranscriptPath | FTranscript | FBinding | FContentSpan | FContentPiece
  | FProjectionSet | FStableProjection | FItemProjection | FObservationChunk | FNarrativeSpan
  | FLabelOrigin | FActivityEntry | FActivitySource
  | FCasThread | FCasThreadBinding | FCasTurn | FCasItem
  | FAdmissionCapacity | FAdmissionOwner | FAdmissionNode | FAdmissionReceipt | FMediaSource | FPending.

Definition key_of (f : family) : Type :=
  match f with
  | FId => list byte
  | FOwnerOrdinal _ => OwnerOrdinalKey
  | FThreadRoute => ThreadRouteKey
  | FContextOwner => ContextOwnerKey
  | FPair => PairKey
  | FOperation => OperationKey
  | FTranscriptBuild => ThreadTranscriptBuildKey
  | FTranscriptPath => ThreadTranscriptPathKey
  | FTranscript => ThreadTranscriptKey
  | FBinding => BindingKey
  | FContentSpan => ContentSpanKey
  | FContentPiece => ContentPieceKey
  | FProjectionSet => ItemProjectionSetKey
  | FStableProjection => StableItemProjectionKey
  | FItemProjection => ItemProjectionKey
  | FObservationChunk => ProviderObservationChunkKey
  | FNarrativeSpan => ProviderNarrativeSpanKey
  | FLabelOrigin => ImageLabelOriginSpanKey
  | FActivityEntry => ActivityQueryEntryKey
  | FActivitySource => ActivityQuerySourceKey
  | FCasThread => CasThreadKey
  | FCasThreadBinding => CasThreadBindingKey
  | FCasTurn => CasTurnKey
  | FCasItem => CasItemKey
  | FAdmissionCapacity => AdmissionCapacityKey
  | FAdmissionOwner => AdmissionOwner
  | FAdmissionNode => AdmissionNodeKey
  | FAdmissionReceipt => AdmissionReceiptKey
  | FMediaSource => MediaSourceKey
  | FPending => Z
  end.

Definition scan (f : family) : ScanKey (key_of f) :=
  match f with
  | FId => {| encode := enc_id; decode := run_decoder dec_id; scan_first := id_first; scan_last := id_last |}
  | FOwnerOrdinal f =>
      {| encode := enc_owner_ordinal; decode := run_decoder (dec_owner_ordinal (ordinal_kind f));
         scan_first := owner_ordinal_first; scan_last := owner_ordinal_last |}
  | FThreadRoute =>
      {| encode := enc_thread_route; decode := run_decoder dec_thread_route;
         scan_first := thread_route_first; scan_last := thread_route_last |}
  | FContextOwner =>
      {| encode := enc_context_key; decode := run_decoder dec_context_key;
         scan_first := context_key_first; scan_last := context_key_last |}
  | FPair =>
      {| encode := enc_pair; decode := run_decoder dec_pair; scan_first := pair_first; scan_last := pair_last |}
  | FOperation =>
      {| encode := enc_operation_key; decode := run_decoder dec_operation_key;
         scan_first := operation_key_first; scan_last := operation_key_last |}
  | FTranscriptBuild =>
      {| encode := enc_transcript_build; decode := run_decoder dec_transcript_build;
         scan_first := transcript_build_first; scan_last := transcript_build_last |}
  | FTranscriptPath =>
      {| encode := enc_transcript_path; decode := run_decoder dec_transcript_path;
         scan_first := transcript_path_first; scan_last := transcript_path_last |}
  | FTranscript =>
      {| encode := enc_transcript; decode := run_decoder dec_transcript;
         scan_first := transcript_first; scan_last := transcript_last |}
  | FBinding =>
      {| encode := enc_binding_key; decode := run_decoder dec_binding_key;
         scan_first := binding_key_first; scan_last := binding_key_last |}
  | FContentSpan =>
      {| encode := enc_content_span; decode := run_decoder dec_content_span;
         scan_first := content_span_first; scan_last := content_span_last |}
  | FContentPiece =>
      {| encode := enc_content_piece; decode := run_decoder dec_content_piece;
         scan_first := content_piece_first; scan_last := content_piece_last |}
  | FProjectionSet =>
      {| encode := enc_projection_set; decode := run_decoder dec_projection_set;
         scan_first := projection_set_first; scan_last := projection_set_last |}
  | FStableProjection =>
      {| encode := enc_stable_projection; decode := run_decoder dec_stable_projection;
         scan_first := stable_projection_first; scan_last := stable_projection_last |}
  | FItemProjection =>
      {| encode := enc_item_projection; decode := run_decoder dec_item_projection;
         scan_first := item_projection_first; scan_last := item_projection_last |}
  | FObservationChunk =>
      {| encode := enc_observation_chunk; decode := decode_observation_chunk;
         scan_first := observation_chunk_first; scan_last := observation_chunk_last |}
  | FNarrativeSpan =>
      {| encode := enc_narrative_span; decode := decode_narrative_span;
         scan_first := narrative_span_first; scan_last := narrative_span_last |}
  | FLabelOrigin =>
      {| encode := enc_label_origin; decode := run_decoder dec_label_origin;
         scan_first := label_origin_first; scan_last := label_origin_last |}
  | FActivityEntry =>
      {| encode := enc_activity_entry; decode := run_decoder dec_activity_entry;
         scan_first := activity_entry_first; scan_last := activity_entry_last |}
  | FActivitySource =>
      {| encode := enc_activity_source; decode := run_decoder dec_activity_source;
         scan_first := activity_source_first; scan_last := activity_source_last |}
  | FCasThread =>
      {| encode := enc_cas_thread_key; decode := run_decoder dec_cas_thread_key;
         scan_first := Lower; scan_last := Upper |}
  | FCasThreadBinding =>
      {| encode := enc_cas_thread_binding_key; decode := run_decoder dec_cas_thread_binding_key;
         scan_first := Lower; scan_last := Upper |}
  | FCasTurn =>
      {| encode := enc_cas_turn_key; decode := run_decoder dec_cas_turn_key;
         scan_first := Lower; scan_last := Upper |}
  | FCasItem =>
      {| encode := enc_cas_item_key; decode := run_decoder dec_cas_item_key;
         scan_first := Lower; scan_last := Upper |}
  | FAdmissionCapacity =>
      {| encode := enc_capacity_key; decode := decode_capacity_key; scan_first := TheCapacity; scan_last := TheCapacity |}
  | FAdmissionOwner =>
      {| encode := enc_admission_owner; decode := run_decoder dec_admission_owner;
         scan_first := admission_owner_first; scan_last := admission_owner_last |}
  | FAdmissionNode =>
      {| encode := enc_admission_node; decode := run_decoder dec_admission_node;
         scan_first := admission_node_first; scan_last := admission_node_last |}
  | FAdmissionReceipt =>
      {| encode := enc_admission_receipt; decode := run_decoder dec_admission_receipt;
         scan_first := admission_receipt_first; scan_last := admission_receipt_last |}
  | FMediaSource =>
      {| encode := enc_media_source; decode := decode_media_source;
         scan_first := media_source_first; scan_last := media_source_last |}
  | FPending =>
      {| encode := enc_pending; decode := decode_pending; scan_first := pending_first; scan_last := pending_last |}
  end.
#[global] Existing Instance scan.
