(* ===== verification/SyndicKeyOrder.v ===== *)
(** * Order and exactness of the keys

    The byte order of encoded keys, and the three facts the scans of the store rely on. *)

From stdpp Require Import prelude strings.
From S2P Require Import Prelude.
From S2P Require Import Bytes.
From S2P Require Import ModelIds.
From S2P Require Import ModelText.
From S2P Require Import SyndicValues.
From S2P Require Import SyndicParts.
From S2P Require Import SyndicKeys.

(** ** The order of byte strings *)

(** [Ord] of [[u8]]: lexicographic, a prefix first. *)
Fixpoint byte_cmp (x y : list byte) : comparison :=
  match x, y with
  | [], [] => Eq
  | [], _ => Lt
  | _, [] => Gt
  | a :: x, b :: y => match byte_val a ?= byte_val b with Eq => byte_cmp x y | c => c end
  end.

Definition byte_le (x y : list byte) : Prop := byte_cmp x y <> Gt.

(** [Ordering::then_with] *)
Definition then_with (c d : comparison) : comparison := match c with Eq => d | _ => c end.

Lemma byte_cmp_app a a' b b' :
  length a = length a' -> byte_cmp (a ++ b) (a' ++ b') = then_with (byte_cmp a a') (byte_cmp b b').
Proof.
  revert a'. induction a as [|x a IH]; intros [|x' a'] Hl; try done.
  cbn [app byte_cmp]. destruct (byte_val x ?= byte_val x'); [|done..]. apply IH. cbn in Hl. lia.
Qed.

Lemma le_value_snoc l b : le_value (l ++ [b]) = le_value l + 256 ^ zlen l * byte_val b.
Proof.
  induction l as [|c l IH]; [cbn; lia|]. cbn [app le_value length]. rewrite IH, pow256_succ. lia.
Qed.

Lemma be_value_cons b l : be_value (b :: l) = 256 ^ zlen l * byte_val b + be_value l.
Proof. unfold be_value. cbn [rev]. rewrite le_value_snoc, length_rev. lia. Qed.

Lemma byte_cmp_value x y : length x = length y -> byte_cmp x y = (be_value x ?= be_value y).
Proof.
  revert y. induction x as [|a x IH]; intros [|b y] Hl; try done. cbn [byte_cmp].
  cbn in Hl. injection Hl as Hl. rewrite !be_value_cons, Hl.
  pose proof (be_value_range x) as Hx. pose proof (be_value_range y) as Hy. rewrite Hl in Hx.
  destruct (Z.compare_spec (byte_val a) (byte_val b)) as [E|E|E].
  - rewrite IH, E by done. by rewrite Z.add_compare_mono_l.
  - symmetry. apply Z.compare_lt_iff. nia.
  - symmetry. apply Z.compare_gt_iff. nia.
Qed.

Lemma byte_cmp_u64 v w : is_u64 v -> is_u64 w -> byte_cmp (e_u64 v) (e_u64 w) = (v ?= w).
Proof.
  intros Hv Hw. unfold e_u64. rewrite byte_cmp_value by (by rewrite !length_be_bytes). by rewrite !be_u64.
Qed.

Lemma byte_cmp_u8 v w : is_u8 v -> is_u8 w -> byte_cmp (e_u8 v) (e_u8 w) = (v ?= w).
Proof.
  intros Hv Hw. unfold e_u8. rewrite byte_cmp_value by (by rewrite !length_be_bytes).
  unfold is_u8 in *. by rewrite !be_value_bytes by (cbn; lia).
Qed.

Lemma byte_cmp_eq x y : byte_cmp x y = Eq <-> x = y.
Proof.
  revert y. induction x as [|a x IH]; intros [|b y]; try done. cbn.
  destruct (Z.compare_spec (byte_val a) (byte_val b)) as [E|E|E].
  - apply byte_val_inj in E as ->. rewrite IH. naive_solver.
  - split; [done|]. intros [= -> _]. lia.
  - split; [done|]. intros [= -> _]. lia.
Qed.

Lemma byte_cmp_antisym x y : byte_cmp y x = CompOpp (byte_cmp x y).
Proof.
  revert y. induction x as [|a x IH]; intros [|b y]; try done. cbn.
  rewrite (Z.compare_antisym (byte_val a) (byte_val b)). destruct (byte_val a ?= byte_val b); cbn; auto.
Qed.

Lemma byte_le_refl x : byte_le x x.
Proof. unfold byte_le. by rewrite (proj2 (byte_cmp_eq x x) eq_refl). Qed.

Lemma byte_le_antisym x y : byte_le x y -> byte_le y x -> x = y.
Proof.
  unfold byte_le. rewrite (byte_cmp_antisym x y). intros H1 H2. apply byte_cmp_eq.
  by destruct (byte_cmp x y).
Qed.

Lemma byte_le_trans x y z : byte_le x y -> byte_le y z -> byte_le x z.
Proof.
  unfold byte_le. revert y z. induction x as [|a x IH]; intros [|b y] [|c z]; try done. cbn.
  destruct (Z.compare_spec (byte_val a) (byte_val b)), (Z.compare_spec (byte_val b) (byte_val c)),
    (Z.compare_spec (byte_val a) (byte_val c)); try done; try lia. apply IH.
Qed.

Lemma byte_le_app a a' b b' :
  length a = length a' -> byte_le a a' -> byte_le b b' -> byte_le (a ++ b) (a' ++ b').
Proof. intros Hl Ha Hb. unfold byte_le in *. rewrite byte_cmp_app by done. by destruct (byte_cmp a a'). Qed.

(** A range with a fixed prefix holds exactly the keys with that prefix. *)
Lemma byte_range_prefix p q lo s hi :
  length p = length q -> byte_le lo s -> byte_le s hi ->
  byte_le (p ++ lo) (q ++ s) /\ byte_le (q ++ s) (p ++ hi) <-> q = p.
Proof.
  intros Hl Hlo Hhi. split.
  - intros [H1 H2]. symmetry. unfold byte_le in *. rewrite byte_cmp_app in H1, H2 by done.
    rewrite (byte_cmp_antisym p q) in H2. apply byte_cmp_eq. by destruct (byte_cmp p q).
  - intros ->. split; apply byte_le_app; auto using byte_le_refl.
Qed.

Lemma id_bounds id : fixed 16 id -> byte_le id_first id /\ byte_le id id_last.
Proof.
  unfold fixed. intros Hl. unfold byte_le. rewrite !byte_cmp_value by (by rewrite Hl).
  change (be_value id_first) with 0. change (be_value id_last) with (256 ^ 16 - 1).
  pose proof (be_value_range id) as Hr. rewrite Hl in Hr. change (256 ^ Z.of_nat 16) with (256 ^ 16) in Hr.
  split; intros E; rewrite Z.compare_gt_iff in E; lia.
Qed.

Lemma u64_bounds v : is_u64 v -> byte_le (e_u64 0) (e_u64 v) /\ byte_le (e_u64 v) (e_u64 U64_MAX).
Proof.
  intros Hv. unfold byte_le, is_u64 in *. rewrite !byte_cmp_u64 by (unfold is_u64; lia).
  split; intros E; rewrite Z.compare_gt_iff in E; lia.
Qed.

Lemma rev_bounds v : is_rev v -> byte_le (enc_rev 1) (enc_rev v) /\ byte_le (enc_rev v) (enc_rev U64_MAX).
Proof.
  intros Hv. unfold byte_le, enc_rev, is_rev in *. rewrite !byte_cmp_u64 by (unfold is_u64; lia).
  split; intros E; rewrite Z.compare_gt_iff in E; lia.
Qed.

(** ** Exactness of the key decoders *)

Definition owner_ordinal_valid k := fixed 16 (oo_owner k) /\ is_rev (oo_ordinal k).
#[global] Instance owner_ordinal_exact kind :
  Exact owner_ordinal_valid enc_owner_ordinal (dec_owner_ordinal kind).
Proof. unfold enc_owner_ordinal, dec_owner_ordinal. exact_record. Qed.

Definition thread_route_valid k := fixed 16 (tr_thread k) /\ is_rev (tr_generation k).
#[global] Instance thread_route_exact : Exact thread_route_valid enc_thread_route dec_thread_route.
Proof. unfold enc_thread_route, dec_thread_route. exact_record. Qed.

Definition context_key_valid k := match k with KeyDraft id | KeyTurn id => fixed 16 id end.
#[global] Instance context_key_exact : Exact context_key_valid enc_context_key dec_context_key.
Proof. unfold dec_context_key. exact_variant. Qed.

Definition pair_valid k := fixed 16 (pk_first k) /\ fixed 16 (pk_second k).
#[global] Instance pair_exact : Exact pair_valid enc_pair dec_pair.
Proof. unfold enc_pair, dec_pair. exact_record. Qed.
Definition operation_key_valid k := fixed 16 (ok_thread k) /\ fixed 16 (ok_nonce k).
#[global] Instance operation_key_exact : Exact operation_key_valid enc_operation_key dec_operation_key.
Proof. unfold enc_operation_key, dec_operation_key. exact_record. Qed.

Definition transcript_build_valid k := fixed 16 (tb_thread k) /\ is_rev (tb_generation k).
#[global] Instance transcript_build_exact :
  Exact transcript_build_valid enc_transcript_build dec_transcript_build.
Proof. unfold enc_transcript_build, dec_transcript_build. exact_record. Qed.

Definition transcript_path_valid k := fixed 16 (tp_thread k) /\ is_rev (tp_generation k) /\ is_rev (tp_depth k).
#[global] Instance transcript_path_exact : Exact transcript_path_valid enc_transcript_path dec_transcript_path.
Proof. unfold enc_transcript_path, dec_transcript_path. exact_record. Qed.

Definition transcript_valid k := fixed 16 (tk_thread k) /\ is_rev (tk_generation k) /\ is_rev (tk_position k).
#[global] Instance transcript_exact : Exact transcript_valid enc_transcript dec_transcript.
Proof. unfold enc_transcript, dec_transcript. exact_record. Qed.

Definition binding_key_valid k := fixed 16 (bk_thread k) /\ is_rev (bk_revision k).
#[global] Instance binding_key_exact : Exact binding_key_valid enc_binding_key dec_binding_key.
Proof. unfold enc_binding_key, dec_binding_key. exact_record. Qed.

Definition content_span_valid k := fixed 16 (cs_owner k) /\ is_u64 (cs_start k).
#[global] Instance content_span_exact : Exact content_span_valid enc_content_span dec_content_span.
Proof. unfold enc_content_span, dec_content_span. exact_record. Qed.

Definition content_piece_valid k := fixed 16 (cp_owner k) /\ is_rev (cp_ordinal k).
#[global] Instance content_piece_exact : Exact content_piece_valid enc_content_piece dec_content_piece.
Proof. unfold enc_content_piece, dec_content_piece. exact_record. Qed.

Definition projection_set_valid k := fixed 16 (ps_item k) /\ is_rev (ps_generation k).
#[global] Instance projection_set_exact : Exact projection_set_valid enc_projection_set dec_projection_set.
Proof. unfold enc_projection_set, dec_projection_set. exact_record. Qed.

Definition stable_projection_valid k := fixed 16 (sp_item k) /\ is_rev (sp_ordinal k).
#[global] Instance stable_projection_exact :
  Exact stable_projection_valid enc_stable_projection dec_stable_projection.
Proof. unfold enc_stable_projection, dec_stable_projection. exact_record. Qed.

Definition item_projection_valid k := fixed 16 (ip_item k) /\ is_rev (ip_generation k) /\ is_rev (ip_ordinal k).
#[global] Instance item_projection_exact : Exact item_projection_valid enc_item_projection dec_item_projection.
Proof. unfold enc_item_projection, dec_item_projection. exact_record. Qed.

Definition observation_chunk_valid k := fixed 16 (oc_identity k) /\ is_u64 (oc_ordinal k).
#[global] Instance observation_chunk_exact :
  Exact observation_chunk_valid enc_observation_chunk dec_observation_chunk.
Proof. unfold enc_observation_chunk, dec_observation_chunk. exact_record. Qed.

Definition narrative_span_valid k :=
  fixed 16 (ns_content k) /\ is_rev (ns_generation k) /\ is_u64 (ns_logical_start k).
#[global] Instance narrative_span_exact : Exact narrative_span_valid enc_narrative_span dec_narrative_span.
Proof. unfold enc_narrative_span, dec_narrative_span. exact_record. Qed.

Definition label_origin_valid k := fixed 16 (lo_thread k) /\ is_rev (lo_end_label k).
#[global] Instance label_origin_exact : Exact label_origin_valid enc_label_origin dec_label_origin.
Proof. unfold enc_label_origin, dec_label_origin. exact_record. Qed.

Definition activity_source_valid k :=
  fixed 16 (as_thread k) /\ is_rev (as_work_period k) /\ fixed 16 (as_source_thread k) /\ fixed 16 (as_source_turn k).
#[global] Instance activity_source_exact : Exact activity_source_valid enc_activity_source dec_activity_source.
Proof. unfold enc_activity_source, dec_activity_source. exact_record. Qed.

Definition activity_entry_valid k :=
  fixed 16 (ae_thread k) /\ is_rev (ae_work_period k) /\ is_u64 (ao_updated_at (ae_order k))
  /\ fixed 16 (ao_item (ae_order k)).
#[global] Instance activity_entry_exact : Exact activity_entry_valid enc_activity_entry dec_activity_entry.
Proof.
  intros bs k rest. unfold enc_activity_entry, dec_activity_entry. split.
  - intros H. apply bind_Ok in H as (t & m1 & Ht & H). apply id_exact in Ht as [Ht ->].
    apply bind_Ok in H as (p & m2 & Hp & H). apply exact in Hp as [Hp ->].
    apply bind_Ok in H as (tag & m3 & Hg & H). apply exact in Hg as [_ ->].
    apply bind_Ok in H as (r & m4 & Hr & H).
    assert (m4 = m3 /\ tag = if r then 0 else 1) as [-> ->]
      by (tag_cases tag; apply ret_Ok in Hr as [-> ->]; done).
    apply bind_Ok in H as (v & m5 & Hv & H). apply exact in Hv as [Hv ->].
    apply bind_Ok in H as (i & m6 & Hi & H). apply id_exact in Hi as [Hi ->].
    apply ret_Ok in H as [-> ->]. unfold activity_entry_valid, is_u64 in *.
    cbn [ae_thread ae_work_period ae_order ao_running ao_updated_at ao_item].
    replace (U64_MAX - (U64_MAX - v)) with v by lia.
    split; [split_and!; try done; lia|]. by rewrite <- !app_assoc.
  - intros [(H1 & H2 & H3 & H4) ->]. destruct k as [t p [r u i]]. cbn in *. unfold is_u64 in *.
    run_part. run_part. destruct r; run_part; lazy beta iota.
    all: unfold mbind at 1, decoder_bind at 1, mret at 1, decoder_ret at 1; run_part; run_part.
    all: by replace (U64_MAX - (U64_MAX - u)) with u by lia.
Qed.

Definition sentinel_valid {A} (valid : A -> Prop) (k : Sentinel A) : Prop :=
  match k with Stored a => valid a | _ => True end.
#[global] Instance sentinel_exact {A} valid enc (dec : decoder A) kind `{!Exact valid enc dec} :
  Exact (sentinel_valid valid) (enc_sentinel enc) (dec_sentinel kind dec).
Proof.
  intros bs v rest. unfold dec_sentinel. split.
  - intros H. part_inv H. tag_cases x.
    + by apply ret_Ok in H as [-> ->].
    + by apply ret_Ok in H as [-> ->].
    + apply fmap_Ok in H as (a & Ha & ->). apply (exact (dec := dec)) in Ha as [Hv ->].
      split; [done|]. cbn. by rewrite <- app_assoc.
  - intros [Hv ->]. destruct v as [|v|]; cbn [enc_sentinel].
    + run_part. done.
    + run_part. apply fmap_Ok. exists v. split; [|done]. by apply (exact (dec := dec)).
    + run_part. done.
Qed.

Definition cas_binding_valid b := is_external (ctb_thread b) /\ is_rev (ctb_revision b).
#[global] Instance cas_binding_exact : Exact cas_binding_valid enc_cas_binding dec_cas_binding.
Proof. unfold enc_cas_binding, dec_cas_binding, dec_cas_thread. exact_record. Qed.

(** ** All families *)

Definition admission_owner_valid k := fixed 16 (am_draft k) /\ fixed 16 (am_session k) /\ fixed 16 (am_operation k).
#[global] Instance admission_owner_exact : Exact admission_owner_valid enc_admission_owner dec_admission_owner.
Proof. unfold enc_admission_owner, dec_admission_owner. exact_record. Qed.
#[global] Instance admission_kind_exact : Exact any (enc_enum admission_kind_tag) dec_admission_kind.
Proof. unfold dec_admission_kind. enum_tags. Qed.
Definition admission_node_valid k := admission_owner_valid (an_owner k) /\ fixed 16 (an_node k).
#[global] Instance admission_node_exact : Exact admission_node_valid enc_admission_node dec_admission_node.
Proof.
  intros bs v rest. unfold enc_admission_node, dec_admission_node. split.
  - intros Hd. parts_inv Hd. split; [done|]. cbn [an_owner an_kind an_node]. by rewrite <- !app_assoc.
  - intros [[Ho Hn] ->]. destruct v as [o k n]. cbn [an_owner an_kind an_node] in *. repeat run_part. done.
Qed.
Definition admission_receipt_valid k := admission_owner_valid (ar_owner k) /\ fixed 16 (ar_command k).
#[global] Instance admission_receipt_exact : Exact admission_receipt_valid enc_admission_receipt dec_admission_receipt.
Proof.
  intros bs v rest. unfold enc_admission_receipt, dec_admission_receipt. split.
  - intros Hd. parts_inv Hd. split; [done|]. cbn [ar_owner ar_command]. by rewrite <- !app_assoc.
  - intros [[Ho Hn] ->]. destruct v as [o n]. cbn [ar_owner ar_command] in *. repeat run_part. done.
Qed.
Definition media_source_valid k := match k with MediaAllocator => True | MediaResource id | MediaOwner id => fixed 16 id end.

Lemma capacity_key_run bs k : decode_capacity_key bs = Ok k <-> any k /\ bs = enc_capacity_key k.
Proof. unfold decode_capacity_key, enc_capacity_key. destruct k. case_bool_decide; split; intros; destruct_and?; done. Qed.
Lemma media_source_run bs k : decode_media_source bs = Ok k <-> media_source_valid k /\ bs = enc_media_source k.
Proof.
  unfold decode_media_source, enc_media_source, media_source_valid, fixed. split.
  - destruct bs as [|b rest]; [done|]. destruct b; try done; [destruct rest; [by intros [= <-]|done]| |];
      (destruct (Nat.eqb_spec (length rest) 16); [by intros [= <-]|done]).
  - destruct k as [|id|id]; intros [Hk ->]; [done|..]; cbn; by rewrite Hk.
Qed.
Lemma pending_run bs k : decode_pending bs = Ok k <-> is_rev k /\ bs = enc_pending k.
Proof.
  unfold decode_pending, enc_pending, encode_pending, is_rev. cbv zeta. split.
  - destruct (Nat.eqb_spec (length bs) 8) as [Hl|]; cbn [negb]; [|done]. intros (x & Hx & [= <-])%result_bind_Ok.
    destruct (Z.eqb_spec (be_value bs) 0); [done|]. pose proof (be_value_range bs) as Hr. rewrite Hl in Hr. split; [lia|]. by rewrite <- Hl, be_bytes_value.
  - intros [Hk ->]. destruct (Z.eqb_spec k 0); [lia|]. rewrite length_be_bytes. cbn [Nat.eqb negb]. rewrite be_value_bytes by lia. destruct (Z.eqb_spec k 0); [lia|done].
Qed.

Definition key_valid (f : family) : key_of f -> Prop :=
  match f with
  | FId => fixed 16
  | FOwnerOrdinal _ => owner_ordinal_valid
  | FThreadRoute => thread_route_valid
  | FContextOwner => context_key_valid
  | FPair => pair_valid
  | FOperation => operation_key_valid
  | FTranscriptBuild => transcript_build_valid
  | FTranscriptPath => transcript_path_valid
  | FTranscript => transcript_valid
  | FBinding => binding_key_valid
  | FContentSpan => content_span_valid
  | FContentPiece => content_piece_valid
  | FProjectionSet => projection_set_valid
  | FStableProjection => stable_projection_valid
  | FItemProjection => item_projection_valid
  | FObservationChunk => observation_chunk_valid
  | FNarrativeSpan => narrative_span_valid
  | FLabelOrigin => label_origin_valid
  | FActivityEntry => activity_entry_valid
  | FActivitySource => activity_source_valid
  | FCasThread => sentinel_valid is_external
  | FCasThreadBinding => sentinel_valid cas_binding_valid
  | FCasTurn => sentinel_valid source_valid
  | FCasItem => sentinel_valid item_source_valid
  | FAdmissionCapacity => any
  | FAdmissionOwner => admission_owner_valid
  | FAdmissionNode => admission_node_valid
  | FAdmissionReceipt => admission_receipt_valid
  | FMediaSource => media_source_valid
  | FPending => is_rev
  end.

Lemma decode_sized_exact {A} valid enc (d : decoder A) `{!Exact valid enc d} n kind bs a :
  (forall a, valid a -> length (enc a) = n) ->
  decode_sized n kind d bs = Ok a <-> valid a /\ bs = enc a.
Proof.
  intros Hn. unfold decode_sized. destruct (Nat.eqb_spec (length bs) n) as [E|E]; cbn [negb].
  - apply (run_exact valid enc d).
  - split; [done|]. intros [Hv ->]. by rewrite (Hn a Hv) in E.
Qed.

#[global] Instance cas_thread_exact : Exact is_external enc_external dec_cas_thread.
Proof. apply external_exact. Qed.

Lemma key_exact f (k : key_of f) bs : decode bs = Ok k <-> key_valid f k /\ bs = encode k.
Proof.
  destruct f; cbn [key_of key_valid scan decode encode] in *;
    try (apply run_exact; apply _); try (apply decode_sized_exact; [apply _|]);
    try first [apply capacity_key_run | apply media_source_run | apply pending_run].
  - intros a [Ha _]. unfold fixed in Ha. unfold enc_observation_chunk, e_u64.
    rewrite length_app, length_be_bytes. lia.
  - intros a [Ha _]. unfold fixed in Ha. unfold enc_narrative_span, enc_id, enc_rev, e_u64.
    rewrite !length_app, !length_be_bytes. lia.
Qed.

(** ** Bounds *)

Lemma id_first_le id : fixed 16 id -> byte_le (enc_id id_first) (enc_id id).
Proof. apply id_bounds. Qed.
Lemma id_le_last id : fixed 16 id -> byte_le (enc_id id) (enc_id id_last).
Proof. apply id_bounds. Qed.
Lemma rev_first_le v : is_rev v -> byte_le (enc_rev ORDINAL_FIRST) (enc_rev v).
Proof. apply rev_bounds. Qed.
Lemma rev_le_last v : is_rev v -> byte_le (enc_rev v) (enc_rev U64_MAX).
Proof. apply rev_bounds. Qed.
Lemma u64_first_le v : is_u64 v -> byte_le (e_u64 0) (e_u64 v).
Proof. apply u64_bounds. Qed.
Lemma u64_le_last v : is_u64 v -> byte_le (e_u64 v) (e_u64 U64_MAX).
Proof. apply u64_bounds. Qed.

(** Compare two encodings field by field. *)
Lemma id_field_le a a' b b' :
  fixed 16 a -> fixed 16 a' -> byte_le (enc_id a) (enc_id a') -> byte_le b b' ->
  byte_le (enc_id a ++ b) (enc_id a' ++ b').
Proof. unfold fixed, enc_id. intros Ha Ha'. apply byte_le_app. by rewrite Ha, Ha'. Qed.
Lemma rev_field_le v w b b' :
  byte_le (enc_rev v) (enc_rev w) -> byte_le b b' -> byte_le (enc_rev v ++ b) (enc_rev w ++ b').
Proof. apply byte_le_app. unfold enc_rev, e_u64. by rewrite !length_be_bytes. Qed.
Lemma u64_field_le v w b b' :
  byte_le (e_u64 v) (e_u64 w) -> byte_le b b' -> byte_le (e_u64 v ++ b) (e_u64 w ++ b').
Proof. apply byte_le_app. unfold e_u64. by rewrite !length_be_bytes. Qed.
Lemma u8_field_le v w b b' :
  byte_le (e_u8 v) (e_u8 w) -> byte_le b b' -> byte_le (e_u8 v ++ b) (e_u8 w ++ b').
Proof. apply byte_le_app. unfold e_u8. by rewrite !length_be_bytes. Qed.

Create HintDb key_le.
#[export] Hint Resolve id_first_le id_le_last rev_first_le rev_le_last u64_first_le u64_le_last
  id_field_le rev_field_le u64_field_le u8_field_le byte_le_refl : key_le.
#[export] Hint Extern 1 (fixed 16 id_first) => reflexivity : key_le.
#[export] Hint Extern 1 (fixed 16 id_last) => reflexivity : key_le.

Lemma flag_bounds (r : bool) :
  byte_le (e_u8 0) (e_u8 (if r then 0 else 1)) /\ byte_le (e_u8 (if r then 0 else 1)) (e_u8 1).
Proof. by destruct r. Qed.

Lemma reversed_bounds u :
  is_u64 u -> byte_le (e_u64 (U64_MAX - U64_MAX)) (e_u64 (U64_MAX - u))
  /\ byte_le (e_u64 (U64_MAX - u)) (e_u64 (U64_MAX - 0)).
Proof. unfold is_u64. intros Hu. apply u64_bounds. unfold is_u64. lia. Qed.

Lemma sentinel_bounds {A} (enc : A -> list byte) k :
  byte_le (enc_sentinel enc Lower) (enc_sentinel enc k) /\ byte_le (enc_sentinel enc k) (enc_sentinel enc Upper).
Proof. destruct k; split; cbn; done. Qed.

Lemma ordinal_bounds owner ordinal :
  fixed 16 owner -> is_rev ordinal ->
  byte_le (enc_id id_first ++ enc_rev ORDINAL_FIRST) (enc_id owner ++ enc_rev ordinal)
  /\ byte_le (enc_id owner ++ enc_rev ordinal) (enc_id id_last ++ enc_rev U64_MAX).
Proof. split; auto 6 with key_le. Qed.

Lemma ordinal2_bounds owner v w :
  fixed 16 owner -> is_rev v -> is_rev w ->
  byte_le (enc_id id_first ++ enc_rev ORDINAL_FIRST ++ enc_rev ORDINAL_FIRST)
    (enc_id owner ++ enc_rev v ++ enc_rev w)
  /\ byte_le (enc_id owner ++ enc_rev v ++ enc_rev w) (enc_id id_last ++ enc_rev U64_MAX ++ enc_rev U64_MAX).
Proof. split; auto 8 with key_le. Qed.

Lemma start_bounds owner v :
  fixed 16 owner -> is_u64 v ->
  byte_le (enc_id id_first ++ e_u64 0) (enc_id owner ++ e_u64 v)
  /\ byte_le (enc_id owner ++ e_u64 v) (enc_id id_last ++ e_u64 U64_MAX).
Proof. split; auto 6 with key_le. Qed.

Lemma activity_entry_bounds t p r u i :
  fixed 16 t -> is_rev p -> is_u64 u -> fixed 16 i ->
  byte_le (enc_activity_entry activity_entry_first) (enc_activity_entry (mkActivityEntry t p (mkActivityOrder r u i)))
  /\ byte_le (enc_activity_entry (mkActivityEntry t p (mkActivityOrder r u i)))
       (enc_activity_entry activity_entry_last).
Proof.
  intros Ht Hp Hu Hi. destruct (flag_bounds r), (reversed_bounds u Hu).
  unfold enc_activity_entry, activity_entry_first, activity_entry_last, entry_first_for_period,
    entry_last_for_period.
  cbn [ae_thread ae_work_period ae_order ao_running ao_updated_at ao_item]. fold (enc_rev p).
  split; auto 12 with key_le.
Qed.

Lemma admission_owner_bounds k b b0 b1 : admission_owner_valid k -> byte_le b0 b -> byte_le b b1 ->
  byte_le (enc_admission_owner admission_owner_first ++ b0) (enc_admission_owner k ++ b)
  /\ byte_le (enc_admission_owner k ++ b) (enc_admission_owner admission_owner_last ++ b1).
Proof.
  destruct k as [d s o]. intros (? & ? & ?) Hlo Hhi. unfold enc_admission_owner; cbn [am_draft am_session am_operation admission_owner_first admission_owner_last] in *.
  rewrite <- !app_assoc. split; auto 10 with key_le.
Qed.

Lemma key_bounds f (k : key_of f) :
  key_valid f k ->
  byte_le (encode (@scan_first _ (scan f))) (encode k) /\ byte_le (encode k) (encode (@scan_last _ (scan f))).
Proof.
  destruct f; cbn [key_of key_valid scan encode scan_first scan_last] in *.
  - apply id_bounds.
  - destruct k. intros []. by apply ordinal_bounds.
  - destruct k. intros []. by apply ordinal_bounds.
  - destruct k as [id|id]; intros Hid; unfold enc_context_key, context_key_first, context_key_last; split;
      apply u8_field_le; auto with key_le; done.
  - destruct k as [a b]. intros []. unfold enc_pair; cbn [pk_first pk_second pair_first pair_last].
    split; auto 6 with key_le.
  - destruct k as [a b]. intros []. unfold enc_operation_key; cbn [ok_thread ok_nonce operation_key_first operation_key_last].
    split; auto 6 with key_le.
  - destruct k. intros []. by apply ordinal_bounds.
  - destruct k. intros (? & ? & ?). by apply ordinal2_bounds.
  - destruct k. intros (? & ? & ?). by apply ordinal2_bounds.
  - destruct k. intros []. by apply ordinal_bounds.
  - destruct k. intros []. by apply start_bounds.
  - destruct k. intros []. by apply ordinal_bounds.
  - destruct k. intros []. by apply ordinal_bounds.
  - destruct k. intros []. by apply ordinal_bounds.
  - destruct k. intros (? & ? & ?). by apply ordinal2_bounds.
  - destruct k. intros []. by apply start_bounds.
  - destruct k as [c g l]. intros (? & ? & ?).
    unfold enc_narrative_span; cbn [ns_content ns_generation ns_logical_start narrative_span_first narrative_span_last].
    split; auto 8 with key_le.
  - destruct k. intros []. by apply ordinal_bounds.
  - destruct k as [t p [r u i]]. intros (? & ? & ? & ?). by apply activity_entry_bounds.
  - destruct k as [t p st su]. intros (? & ? & ? & ?). fold (enc_rev p).
    unfold enc_activity_source, activity_source_first, activity_source_last, source_first_for_period,
      source_last_for_period; cbn [as_thread as_work_period as_source_thread as_source_turn].
    split; auto 8 with key_le.
  - intros _. apply sentinel_bounds.
  - intros _. apply sentinel_bounds.
  - intros _. apply sentinel_bounds.
  - intros _. apply sentinel_bounds.
  - intros _. destruct k. split; apply byte_le_refl.
  - intros Hk. rewrite <- (app_nil_r (enc_admission_owner k)), <- (app_nil_r (enc_admission_owner admission_owner_first)), <- (app_nil_r (enc_admission_owner admission_owner_last)).
    apply admission_owner_bounds; [done|apply byte_le_refl..].
  - destruct k as [o k n]. intros [Ho Hn]. unfold enc_admission_node; cbn [an_owner an_kind an_node admission_node_first admission_node_last].
    apply admission_owner_bounds; [done|..]; apply u8_field_le; auto with key_le; by destruct k.
  - destruct k as [o c]. intros [Ho Hc]. unfold enc_admission_receipt; cbn [ar_owner ar_command admission_receipt_first admission_receipt_last].
    apply admission_owner_bounds; auto with key_le.
  - intros Hk. unfold media_source_first, media_source_last, enc_media_source. destruct k as [|id|id]; (split; [try apply byte_le_refl; done|]); [done|done|].
    cbn in Hk. apply (byte_le_app [x02] [x02] id id_last); [done|apply byte_le_refl|by apply id_le_last].
  - intros Hk. unfold enc_pending, encode_pending, pending_first, pending_last. unfold is_rev in Hk. destruct (Z.eqb_spec k 0); [lia|]. cbn [Z.eqb]. by apply rev_bounds.
Qed.

(** ** Orders of the source *)

(** [Ord] of [[u8; 16]] identities and of counters. *)
Definition id_cmp (a b : list byte) : comparison := byte_cmp a b.

(** [bool]: [false] below [true]. *)
Definition bool_cmp (a b : bool) : comparison :=
  match a, b with false, true => Lt | true, false => Gt | _, _ => Eq end.

(** [impl Ord for ActivityQueryOrder]. *)
Definition activity_order_cmp (a b : ActivityQueryOrder) : comparison :=
  then_with (bool_cmp (ao_running b) (ao_running a))
    (then_with (ao_updated_at b ?= ao_updated_at a) (id_cmp (ao_item a) (ao_item b))).

(** The derived [Ord] of the keys of [keys/query.rs]: field by field. *)
Definition activity_entry_cmp (a b : ActivityQueryEntryKey) : comparison :=
  then_with (id_cmp (ae_thread a) (ae_thread b))
    (then_with (ae_work_period a ?= ae_work_period b) (activity_order_cmp (ae_order a) (ae_order b))).
Definition activity_source_cmp (a b : ActivityQuerySourceKey) : comparison :=
  then_with (id_cmp (as_thread a) (as_thread b))
    (then_with (as_work_period a ?= as_work_period b)
       (then_with (id_cmp (as_source_thread a) (as_source_thread b))
          (id_cmp (as_source_turn a) (as_source_turn b)))).
Definition label_origin_cmp (a b : ImageLabelOriginSpanKey) : comparison :=
  then_with (id_cmp (lo_thread a) (lo_thread b)) (lo_end_label a ?= lo_end_label b).

Lemma byte_cmp_id a a' b b' :
  fixed 16 a -> fixed 16 a' -> byte_cmp (enc_id a ++ b) (enc_id a' ++ b') = then_with (id_cmp a a') (byte_cmp b b').
Proof. unfold fixed, enc_id, id_cmp. intros Ha Ha'. apply byte_cmp_app. by rewrite Ha, Ha'. Qed.

Lemma byte_cmp_u64_field v w b b' :
  is_u64 v -> is_u64 w -> byte_cmp (e_u64 v ++ b) (e_u64 w ++ b') = then_with (v ?= w) (byte_cmp b b').
Proof.
  intros Hv Hw. rewrite byte_cmp_app by (unfold e_u64; by rewrite !length_be_bytes). by rewrite byte_cmp_u64.
Qed.

Lemma byte_cmp_flag (r r' : bool) b b' :
  byte_cmp (e_u8 (if r then 0 else 1) ++ b) (e_u8 (if r' then 0 else 1) ++ b')
  = then_with (bool_cmp r' r) (byte_cmp b b').
Proof. rewrite byte_cmp_app by (unfold e_u8; by rewrite !length_be_bytes). by destruct r, r'. Qed.

Lemma is_rev_u64 v : is_rev v -> is_u64 v.
Proof. unfold is_rev, is_u64. lia. Qed.

Lemma reversed_cmp u u' : (U64_MAX - u ?= U64_MAX - u') = (u' ?= u).
Proof.
  destruct (Z.compare_spec u' u); [subst; apply Z.compare_refl|apply Z.compare_lt_iff; lia|apply Z.compare_gt_iff; lia].
Qed.

(** Ranges of one owner, and of one owner and counter. *)
Lemma owner_range t t' lo s hi :
  fixed 16 t -> fixed 16 t' -> byte_le lo s -> byte_le s hi ->
  byte_le (enc_id t ++ lo) (enc_id t' ++ s) /\ byte_le (enc_id t' ++ s) (enc_id t ++ hi) <-> t' = t.
Proof. unfold fixed, enc_id. intros Ht Ht'. apply byte_range_prefix. by rewrite Ht, Ht'. Qed.

Lemma owner_counter_range t t' p p' lo s hi :
  fixed 16 t -> fixed 16 t' -> is_rev p -> is_rev p' -> byte_le lo s -> byte_le s hi ->
  byte_le (enc_id t ++ e_u64 p ++ lo) (enc_id t' ++ e_u64 p' ++ s)
  /\ byte_le (enc_id t' ++ e_u64 p' ++ s) (enc_id t ++ e_u64 p ++ hi) <-> t' = t /\ p' = p.
Proof.
  intros Ht Ht' Hp Hp' Hlo Hhi. rewrite !(app_assoc (enc_id _)).
  rewrite byte_range_prefix; [| |done|done].
  2:{ unfold fixed, enc_id, e_u64 in *. rewrite !length_app, !length_be_bytes. lia. }
  unfold enc_id, fixed in *. split; [|by intros [-> ->]]. intros E.
  apply app_inj_1 in E as [-> E]; [|congruence]. split; [done|].
  rewrite <- (be_u64 p'), <- (be_u64 p) by (by apply is_rev_u64). unfold e_u64 in E. by rewrite E.
Qed.

Lemma completed_range t t' p p' r u i :
  fixed 16 t -> fixed 16 t' -> is_rev p -> is_rev p' -> is_u64 u -> fixed 16 i ->
  let k := mkActivityEntry t' p' (mkActivityOrder r u i) in
  byte_le (enc_activity_entry (entry_first_completed_for_period t p)) (enc_activity_entry k)
  /\ byte_le (enc_activity_entry k) (enc_activity_entry (entry_last_for_period t p))
  <-> t' = t /\ p' = p /\ r = false.
Proof.
  intros Ht Ht' Hp Hp' Hu Hi k. destruct (flag_bounds r), (reversed_bounds u Hu).
  unfold k, enc_activity_entry, entry_first_completed_for_period, entry_last_for_period.
  cbn [ae_thread ae_work_period ae_order ao_running ao_updated_at ao_item]. destruct r.
  - split; [|by intros (_ & _ & ?)]. intros [Hle1 Hle2]. exfalso.
    assert (t' = t /\ p' = p) as [-> ->].
    { apply (owner_counter_range t t' p p' (e_u8 0 ++ e_u64 (U64_MAX - U64_MAX) ++ enc_id id_first)
        (e_u8 0 ++ e_u64 (U64_MAX - u) ++ enc_id i)
        (e_u8 1 ++ e_u64 (U64_MAX - 0) ++ enc_id id_last)); try done; [auto 8 with key_le..|].
      split; [|done]. eapply byte_le_trans; [|exact Hle1]. auto 10 with key_le. }
    revert Hle1. unfold byte_le. rewrite byte_cmp_id, byte_cmp_u64_field by (done || by apply is_rev_u64).
    unfold id_cmp. rewrite (proj2 (byte_cmp_eq t t) eq_refl), Z.compare_refl. cbn [then_with].
    rewrite (byte_cmp_flag false true). done.
  - rewrite (owner_counter_range t t' p p' (e_u8 1 ++ e_u64 (U64_MAX - U64_MAX) ++ enc_id id_first)
        (e_u8 1 ++ e_u64 (U64_MAX - u) ++ enc_id i)
        (e_u8 1 ++ e_u64 (U64_MAX - 0) ++ enc_id id_last)); try done; [tauto|auto 8 with key_le..].
Qed.

(** ** Theorems *)

(** C11: for every key type that can be scanned (every [ScanKey] of the crate), a byte string decodes to a key exactly when the key is
    well typed and the string is its encoding, so distinct keys have distinct encodings; and the
    bounds of a full scan enclose the encoding of every key in byte order. *)
Theorem scan_keys_exact f (k : key_of f) bs :
  (@decode _ (scan f) bs = Ok k <-> key_valid f k /\ bs = @encode _ (scan f) k)
  /\ (key_valid f k -> byte_le (@encode _ (scan f) (@scan_first _ (scan f))) (@encode _ (scan f) k)
                       /\ byte_le (@encode _ (scan f) k) (@encode _ (scan f) (@scan_last _ (scan f)))).
Proof. split; [apply key_exact|apply key_bounds]. Qed.

(** The owner ranges used by scans hold exactly the keys of their owner: the transcript
    builds of a thread, the projection sets of an item, the narrative spans of a generation, the
    sources and the entries of a work period, and, from the first completed key on, the entries
    that are no longer running. *)
Theorem owner_ranges_exact thread period :
  fixed 16 thread -> is_rev period ->
  (forall k, transcript_build_valid k ->
     byte_le (enc_transcript_build (first_for_thread thread)) (enc_transcript_build k)
     /\ byte_le (enc_transcript_build k) (enc_transcript_build (last_for_thread thread))
     <-> tb_thread k = thread)
  /\ (forall k, projection_set_valid k ->
     byte_le (enc_projection_set (first_for_item thread)) (enc_projection_set k)
     /\ byte_le (enc_projection_set k) (enc_projection_set (last_for_item thread))
     <-> ps_item k = thread)
  /\ (forall k, narrative_span_valid k ->
     byte_le (enc_narrative_span (first_for_generation thread period)) (enc_narrative_span k)
     /\ byte_le (enc_narrative_span k) (enc_narrative_span (last_for_generation thread period))
     <-> ns_content k = thread /\ ns_generation k = period)
  /\ (forall k, activity_source_valid k ->
     byte_le (enc_activity_source (source_first_for_period thread period)) (enc_activity_source k)
     /\ byte_le (enc_activity_source k) (enc_activity_source (source_last_for_period thread period))
     <-> as_thread k = thread /\ as_work_period k = period)
  /\ (forall k, activity_entry_valid k ->
     (byte_le (enc_activity_entry (entry_first_for_period thread period)) (enc_activity_entry k)
      /\ byte_le (enc_activity_entry k) (enc_activity_entry (entry_last_for_period thread period))
      <-> ae_thread k = thread /\ ae_work_period k = period)
     /\ (byte_le (enc_activity_entry (entry_first_completed_for_period thread period)) (enc_activity_entry k)
         /\ byte_le (enc_activity_entry k) (enc_activity_entry (entry_last_for_period thread period))
         <-> ae_thread k = thread /\ ae_work_period k = period /\ ao_running (ae_order k) = false)).
Proof.
  intros Ht Hp. split_and!.
  - intros [t g] [Hk Hg]. cbn in Hk, Hg. apply owner_range; try done; [apply rev_first_le|apply rev_le_last]; done.
  - intros [t g] [Hk Hg]. cbn in Hk, Hg. apply owner_range; try done; [apply rev_first_le|apply rev_le_last]; done.
  - intros [t g l] (Hk & Hg & Hl). cbn in Hk, Hg, Hl.
    apply owner_counter_range; try done; [apply u64_first_le|apply u64_le_last]; done.
  - intros [t g a b] (Hk & Hg & Ha & Hb). cbn in Hk, Hg, Ha, Hb.
    apply owner_counter_range; try done; unfold source_first_for_period, source_last_for_period;
      cbn [as_source_thread as_source_turn]; auto 6 with key_le.
  - intros [t g [r u i]] (Hk & Hg & Hu & Hi). cbn in Hk, Hg, Hu, Hi.
    destruct (flag_bounds r), (reversed_bounds u Hu). split.
    + apply owner_counter_range; try done; cbn [ao_running ao_updated_at ao_item ae_order entry_first_for_period
        entry_last_for_period]; auto 8 with key_le.
    + apply completed_range; done.
Qed.


(** The bytes of the query keys order them as the source's [Ord] does: activity entries by
    thread and work period, then running work first, then the newest, then by item. *)
Theorem query_keys_ordered :
  (forall a b, activity_entry_valid a -> activity_entry_valid b ->
     byte_cmp (enc_activity_entry a) (enc_activity_entry b) = activity_entry_cmp a b)
  /\ (forall a b, activity_source_valid a -> activity_source_valid b ->
     byte_cmp (enc_activity_source a) (enc_activity_source b) = activity_source_cmp a b)
  /\ (forall a b, label_origin_valid a -> label_origin_valid b ->
     byte_cmp (enc_label_origin a) (enc_label_origin b) = label_origin_cmp a b).
Proof.
  split_and!.
  - intros [t p [r u i]] [t' p' [r' u' i']] (Ha & Hb & Hu & Hc) (Ha' & Hb' & Hu' & Hc').
    cbn in Ha, Hb, Hu, Hc, Ha', Hb', Hu', Hc'.
    unfold enc_activity_entry, activity_entry_cmp, activity_order_cmp.
    cbn [ae_thread ae_work_period ae_order ao_running ao_updated_at ao_item]. unfold is_u64 in Hu, Hu'.
    rewrite byte_cmp_id, byte_cmp_u64_field, byte_cmp_flag, byte_cmp_u64_field, reversed_cmp
      by first [done|by apply is_rev_u64|unfold is_u64; lia]. done.
  - intros [t p st su] [t' p' st' su'] (Ha & Hb & Hc & Hd) (Ha' & Hb' & Hc' & Hd').
    cbn in Ha, Hb, Hc, Hd, Ha', Hb', Hc', Hd'.
    unfold enc_activity_source, activity_source_cmp. cbn [as_thread as_work_period as_source_thread as_source_turn].
    rewrite byte_cmp_id, byte_cmp_u64_field, byte_cmp_id by first [done|by apply is_rev_u64]. done.
  - intros [t l] [t' l'] (Ha & Hb) (Ha' & Hb'). cbn in Ha, Hb, Ha', Hb'. unfold enc_label_origin, label_origin_cmp. cbn [lo_thread lo_end_label].
    rewrite byte_cmp_id by done. unfold enc_rev. by rewrite byte_cmp_u64 by (by apply is_rev_u64).
Qed.

Lemma owner_ranges_exact_witness :
  byte_le (enc_transcript_build (first_for_thread id_first)) (enc_transcript_build (mkTranscriptBuild id_first 7))
  /\ byte_le (enc_transcript_build (mkTranscriptBuild id_first 7)) (enc_transcript_build (last_for_thread id_first)).
Proof.
  apply (proj1 (owner_ranges_exact id_first 3 eq_refl ltac:(unfold is_rev; lia))); [|done].
  split; [done|]. unfold is_rev. cbn. lia.
Defined.
