(* ===== verification/StopOperation.v ===== *)
(** * The durable stop operation

    [syndic-storage]: [value/stop.rs] (nonces, revisions, causes, the fixed slots that
    remember when each cause was first published, the dispatch claim), [record/stop.rs] and
    [record/stop/successor.rs] (target and witnesses), [record/stop/operation.rs] (the record
    and the check of its transition ledger), and the record part of every mutation that
    advances a stop: joining a cause, claiming the dispatch, reopening, matching a terminal,
    abandoning ([mutation/stop/*], [mutation/live/terminal.rs],
    [mutation/compaction/admission.rs]).

    The record carries no log: it keeps, for each transition, the revision that published it,
    and [new_record] accepts it when those revisions fit.  The theorems say how that compares
    with being the result of an actual sequence of mutations: the mutations have guards of their
    own, which the constructor does not repeat. *)

From stdpp Require Import prelude strings list_numbers.
From S2P Require Import Prelude.
From S2P Require Import Bytes.
From S2P Require Import ModelIds.
From S2P Require Import SyndicValues.

(** ** Identities and revisions *)

Record StopOperationId := mkStopId { stop_thread : list byte; stop_nonce : list byte }.

Definition FIRST : Z := 1.

Definition new_stop_revision (value : Z) : result SyndicValueError Z :=
  ok_or (SvZeroOrdinal "stop-operation revision") (nonzero value).
Definition next_stop_revision (revision : Z) : result SyndicValueError Z :=
  ok_or (SvOrdinalExhausted "stop-operation revision") (checked_add64 revision 1 ≫= nonzero).

(** ** Causes *)

Inductive StopCause :=
  | SelectedOperationControl | DiagnosticControl | HealthyHomeWindowClose | InterruptingApproval.

#[global] Instance StopCause_eq_dec : EqDecision StopCause.
Proof. solve_decision. Defined.

Definition ALL_CAUSES : list StopCause :=
  [SelectedOperationControl; DiagnosticControl; HealthyHomeWindowClose; InterruptingApproval].

Definition bit (c : StopCause) : Z :=
  match c with
  | SelectedOperationControl => Z.shiftl 1 0
  | DiagnosticControl => Z.shiftl 1 1
  | HealthyHomeWindowClose => Z.shiftl 1 2
  | InterruptingApproval => Z.shiftl 1 3
  end.

Inductive StopCauseSetError := CauseSetEmpty | CauseSetUnknownBits (bits : Z).

(** A [StopCauseSet] is its byte. *)
Definition ALL_BITS : Z := 15.
Definition from_bits (bits : Z) : result StopCauseSetError Z :=
  if bits =? 0 then Err CauseSetEmpty
  else if negb (Z.land bits (Z.lxor ALL_BITS U8_MAX) =? 0) then Err (CauseSetUnknownBits bits)
  else Ok bits.
Definition contains (s : Z) (c : StopCause) : bool := negb (Z.land s (bit c) =? 0).
Definition with_cause (s : Z) (c : StopCause) : Z := Z.lor s (bit c).
Definition union (s s' : Z) : Z := Z.lor s s'.

(** ** First-publication slots *)

Record StopCauseFirstRevisions := mkFirsts {
  selected_operation_control : option Z;
  diagnostic_control : option Z;
  healthy_home_window_close : option Z;
  interrupting_approval : option Z }.

Inductive StopCauseFirstRevisionsError := MissingAdmissionCause.

Definition first_revision (f : StopCauseFirstRevisions) (c : StopCause) : option Z :=
  match c with
  | SelectedOperationControl => selected_operation_control f
  | DiagnosticControl => diagnostic_control f
  | HealthyHomeWindowClose => healthy_home_window_close f
  | InterruptingApproval => interrupting_approval f
  end.

(** [StopCause::ALL.into_iter().any(..)] *)
Definition has_admission_cause (f : StopCauseFirstRevisions) : bool :=
  existsb (fun c => bool_decide (first_revision f c = Some FIRST)) ALL_CAUSES.

Definition new_first_revisions (s d h i : option Z)
    : result StopCauseFirstRevisionsError StopCauseFirstRevisions :=
  let revisions := mkFirsts s d h i in
  if has_admission_cause revisions then Ok revisions else Err MissingAdmissionCause.

Definition for_admission (causes : Z) : StopCauseFirstRevisions :=
  let slot c := if contains causes c then Some FIRST else None in
  mkFirsts (slot SelectedOperationControl) (slot DiagnosticControl)
    (slot HealthyHomeWindowClose) (slot InterruptingApproval).

(** The [for] loops of [causes] and [admission_causes]; [None] is the failed [expect]. *)
Definition collect_bits (p : StopCause -> bool) : Z :=
  fold_left (fun bits c => if p c then Z.lor bits (bit c) else bits) ALL_CAUSES 0.
Definition expect_set (bits : Z) : option Z :=
  match from_bits bits with Ok s => Some s | Err _ => None end.
Definition causes (f : StopCauseFirstRevisions) : option Z :=
  expect_set (collect_bits (fun c => bool_decide (is_Some (first_revision f c)))).
Definition admission_causes (f : StopCauseFirstRevisions) : option Z :=
  expect_set (collect_bits (fun c => bool_decide (first_revision f c = Some FIRST))).

Definition set_slot (f : StopCauseFirstRevisions) (c : StopCause) (v : option Z)
    : StopCauseFirstRevisions :=
  match f, c with
  | mkFirsts s d h i, SelectedOperationControl => mkFirsts v d h i
  | mkFirsts s d h i, DiagnosticControl => mkFirsts s v h i
  | mkFirsts s d h i, HealthyHomeWindowClose => mkFirsts s d v i
  | mkFirsts s d h i, InterruptingApproval => mkFirsts s d h v
  end.
Definition publish (f : StopCauseFirstRevisions) (c : StopCause) (revision : Z)
    : option StopCauseFirstRevisions :=
  match first_revision f c with
  | Some _ => None
  | None => Some (set_slot f c (Some revision))
  end.

(** ** Claims, targets and witnesses *)

Record StopDispatchClaimWitness := mkClaim { claim_source : Z; claim_attempt : list byte }.

Inductive StopAbandonmentReason :=
  | ProviderRejectedBeforeCoreInterrupt | TargetAuthorityLost | StartupProcessGenerationLost.

Record StopOperationTarget := mkStopTarget {
  tgt_thread : list byte;
  tgt_turn : list byte;
  tgt_turn_kind : TurnKind;
  tgt_binding_revision : Z;
  tgt_snapshot : list byte;
  tgt_runtime : list byte;
  tgt_loaded : CasLoadedSessionGeneration;
  tgt_cas_thread : list byte;
  tgt_cas_turn : list byte }.

Inductive StopAdmissionWitness :=
  | AdmOrdinary (source_gate : Z) (source_route : AcceptedRouteHeadProof)
      (successor_gate : Z) (stopped_route : AcceptedRouteHeadProof)
  | AdmProviderOperation (source_gate successor_gate source_compaction successor_compaction : Z).

Definition source_gate_revision (w : StopAdmissionWitness) : Z :=
  match w with AdmOrdinary g _ _ _ | AdmProviderOperation g _ _ _ => g end.
Definition successor_gate_revision (w : StopAdmissionWitness) : Z :=
  match w with AdmOrdinary _ _ g _ | AdmProviderOperation _ g _ _ => g end.
Definition source_selected_route_option (w : StopAdmissionWitness) : option AcceptedRouteHeadProof :=
  match w with AdmOrdinary _ r _ _ => Some r | AdmProviderOperation _ _ _ _ => None end.
Definition successor_stopped_route_option (w : StopAdmissionWitness) : option AcceptedRouteHeadProof :=
  match w with AdmOrdinary _ _ _ r => Some r | AdmProviderOperation _ _ _ _ => None end.
Definition source_compaction_revision (w : StopAdmissionWitness) : option Z :=
  match w with AdmOrdinary _ _ _ _ => None | AdmProviderOperation _ _ c _ => Some c end.
Definition successor_compaction_revision (w : StopAdmissionWitness) : option Z :=
  match w with AdmOrdinary _ _ _ _ => None | AdmProviderOperation _ _ _ c => Some c end.

Record StopDispositionSource := mkSource { ds_gate : Z; ds_stop : Z }.

Inductive StopSafeReopenWitness :=
  | SrOrdinary (source : StopDispositionSource) (successor_gate : Z)
      (successor_route : AcceptedRouteHeadProof)
  | SrProviderOperation (source : StopDispositionSource) (successor_gate : Z)
      (source_compaction successor_compaction : Z).
Inductive StopMatchingTerminalWitness :=
  | MtOrdinary (source : StopDispositionSource) (successor_gate successor_turn_state : Z)
  | MtProviderOperation (source : StopDispositionSource) (successor_gate successor_turn_state : Z)
      (source_compaction successor_compaction : Z).
Inductive StopAbandonmentWitness :=
  | AbOrdinary (source : StopDispositionSource) (reason : StopAbandonmentReason)
      (successor_gate retired_binding successor_turn_state : Z)
  | AbProviderOperation (source : StopDispositionSource) (reason : StopAbandonmentReason)
      (successor_gate retired_binding successor_turn_state : Z)
      (source_compaction successor_compaction : Z).

Inductive StopOperationState :=
  | StAdmitted
  | StDispatchClaimed
  | StSafeReopened (w : StopSafeReopenWitness)
  | StMatchingTerminal (w : StopMatchingTerminalWitness)
  | StAbandoned (w : StopAbandonmentWitness).

Definition reopen_source (w : StopSafeReopenWitness) : StopDispositionSource :=
  match w with SrOrdinary s _ _ | SrProviderOperation s _ _ _ => s end.
Definition reopen_gate (w : StopSafeReopenWitness) : Z :=
  match w with SrOrdinary _ g _ | SrProviderOperation _ g _ _ => g end.
Definition terminal_source (w : StopMatchingTerminalWitness) : StopDispositionSource :=
  match w with MtOrdinary s _ _ | MtProviderOperation s _ _ _ _ => s end.
Definition terminal_gate (w : StopMatchingTerminalWitness) : Z :=
  match w with MtOrdinary _ g _ | MtProviderOperation _ g _ _ _ => g end.
Definition abandonment_source (w : StopAbandonmentWitness) : StopDispositionSource :=
  match w with AbOrdinary s _ _ _ _ | AbProviderOperation s _ _ _ _ _ _ => s end.
Definition abandonment_gate (w : StopAbandonmentWitness) : Z :=
  match w with AbOrdinary _ _ g _ _ | AbProviderOperation _ _ g _ _ _ _ => g end.

Definition disposition_source (s : StopOperationState) : option StopDispositionSource :=
  match s with
  | StAdmitted | StDispatchClaimed => None
  | StSafeReopened w => Some (reopen_source w)
  | StMatchingTerminal w => Some (terminal_source w)
  | StAbandoned w => Some (abandonment_source w)
  end.
Definition is_live (s : StopOperationState) : bool :=
  match s with StAdmitted | StDispatchClaimed => true | _ => false end.

(** ** The record and its check *)

Inductive StopOperationRecordError :=
  | TargetThreadMismatch
  | AdmissionCauseMissing
  | CauseFirstRevisionFuture (cause : StopCause) (first current : Z)
  | AdmittedClaimPresent
  | ClaimedWitnessMissing
  | ClaimSourceExhausted (source : Z)
  | ClaimPublicationFuture (publication current : Z)
  | DuplicateTransitionRevision (revision : Z)
  | TransitionLedgerGap (current occupied : Z)
  | AdmissionGateRevisionMismatch (source successor : Z)
  | AdmissionCompactionRevisionMismatch (source successor : Z)
  | AdmissionRouteGenerationMismatch
  | AdmissionRouteRevisionMismatch (source successor : Z)
  | ConsumedStopRevisionMismatch (source successor : Z)
  | ConsumedGateRevisionMismatch (source successor : Z)
  | ConsumedTargetKindMismatch
  | ConsumedCompactionRevisionMismatch (source successor : Z).

Record StopOperationRecord := mkStop {
  so_id : StopOperationId;
  so_target : StopOperationTarget;
  so_admission : StopAdmissionWitness;
  so_revision : Z;
  so_firsts : StopCauseFirstRevisions;
  so_claim : option StopDispatchClaimWitness;
  so_state : StopOperationState }.

Abbreviation checking := (panicky StopOperationRecordError).

Definition is_successor (source successor : Z) : bool :=
  bool_decide (checked_add64 source 1 = Some successor).

Definition validate_compaction_successor (source successor : Z) : checking unit :=
  if bool_decide ((checked_add64 source 1 ≫= nonzero) = Some successor)
  then mret tt else fail (ConsumedCompactionRevisionMismatch source successor).

Definition is_provider_kind (k : TurnKind) : bool :=
  match k with ProviderOperation _ => true | _ => false end.

Definition validate_consumed_target_kind (kind : TurnKind) (s : StopOperationState) : checking unit :=
  match s, is_provider_kind kind with
  | StAdmitted, _ | StDispatchClaimed, _ => mret tt
  | StSafeReopened (SrOrdinary _ _ _), false
  | StMatchingTerminal (MtOrdinary _ _ _), false
  | StAbandoned (AbOrdinary _ _ _ _ _), false => mret tt
  | StSafeReopened (SrProviderOperation _ _ source successor), true
  | StMatchingTerminal (MtProviderOperation _ _ _ source successor), true
  | StAbandoned (AbProviderOperation _ _ _ _ _ source successor), true =>
      validate_compaction_successor source successor
  | _, _ => fail ConsumedTargetKindMismatch
  end.

(** [occupied] is the filled part of the array of six. *)
Definition occupy_transition (occupied : list Z) (revision : Z) : checking (list Z) :=
  if bool_decide (revision ∈ occupied) then fail (DuplicateTransitionRevision revision)
  else if (length occupied <? 6)%nat then mret (occupied ++ [revision])
  else panic.

Fixpoint occupy_causes (current : Z) (f : StopCauseFirstRevisions) (cs : list StopCause)
    (occupied : list Z) : checking (list Z) :=
  match cs with
  | [] => mret occupied
  | c :: cs =>
      match first_revision f c with
      | None => occupy_causes current f cs occupied
      | Some first =>
          if current <? first then fail (CauseFirstRevisionFuture c first current)
          else
            occupied ← if first =? FIRST then mret occupied else occupy_transition occupied first;
            occupy_causes current f cs occupied
      end
  end.

Definition occupy_claim (current : Z) (claim : option StopDispatchClaimWitness) (occupied : list Z)
    : checking (list Z) :=
  match claim with
  | None => mret occupied
  | Some claim =>
      match next_stop_revision (claim_source claim) with
      | Err _ => fail (ClaimSourceExhausted (claim_source claim))
      | Ok publication =>
          if current <? publication then fail (ClaimPublicationFuture publication current)
          else occupy_transition occupied publication
      end
  end.

Definition occupy_disposition (current : Z) (s : StopOperationState) (occupied : list Z)
    : checking (list Z) :=
  match disposition_source s with
  | Some _ => occupy_transition occupied current
  | None => mret occupied
  end.

Definition validate_transition_ledger (current : Z) (f : StopCauseFirstRevisions)
    (claim : option StopDispatchClaimWitness) (s : StopOperationState) : checking unit :=
  if negb (has_admission_cause f) then fail AdmissionCauseMissing
  else
    occupied ← occupy_causes current f ALL_CAUSES [];
    occupied ← occupy_claim current claim occupied;
    occupied ← occupy_disposition current s occupied;
    if negb (zlen occupied =? current - FIRST)
    then fail (TransitionLedgerGap current (zlen occupied)) else mret tt.

Definition check_admission_compaction (w : StopAdmissionWitness) : checking unit :=
  match source_compaction_revision w, successor_compaction_revision w with
  | Some source, Some successor =>
      if is_successor source successor then mret tt
      else fail (AdmissionCompactionRevisionMismatch source successor)
  | None, None => mret tt
  | _, _ => panic
  end.

Definition check_admission_route (w : StopAdmissionWitness) (kind : TurnKind) : checking unit :=
  match source_selected_route_option w, successor_stopped_route_option w, kind with
  | Some source, Some successor, (OrdinaryUser | BerylLifecycleContinuation | BerylDiscussionHandoff) =>
      if bool_decide (is_Some (source_compaction_revision w)) then fail AdmissionRouteGenerationMismatch
      else if negb (rh_generation source =? rh_generation successor)
      then fail AdmissionRouteGenerationMismatch
      else if negb (is_successor (rh_revision source) (rh_revision successor))
      then fail (AdmissionRouteRevisionMismatch (rh_revision source) (rh_revision successor))
      else mret tt
  | None, None, ProviderOperation _ =>
      if bool_decide (is_Some (source_compaction_revision w)) then mret tt
      else fail AdmissionRouteGenerationMismatch
  | _, _, _ => fail AdmissionRouteGenerationMismatch
  end.

Definition check_claim_presence (s : StopOperationState) (claim : option StopDispatchClaimWitness)
    : checking unit :=
  match s, claim with
  | StAdmitted, Some _ => fail AdmittedClaimPresent
  | StDispatchClaimed, None => fail ClaimedWitnessMissing
  | _, _ => mret tt
  end.

(** The gate revision a consumed state publishes; a live state has none. *)
Definition consumed_gate (s : StopOperationState) : option Z :=
  match s with
  | StSafeReopened w => Some (reopen_gate w)
  | StMatchingTerminal w => Some (terminal_gate w)
  | StAbandoned w => Some (abandonment_gate w)
  | StAdmitted | StDispatchClaimed => None
  end.

Definition check_consumed_revisions (revision : Z) (s : StopOperationState) : checking unit :=
  match disposition_source s with
  | None => mret tt
  | Some source =>
      if negb (is_successor (ds_stop source) revision)
      then fail (ConsumedStopRevisionMismatch (ds_stop source) revision)
      else
        gate ← or_panic (consumed_gate s);
        if negb (is_successor (ds_gate source) gate)
        then fail (ConsumedGateRevisionMismatch (ds_gate source) gate) else mret tt
  end.

Definition new_record (id : StopOperationId) (target : StopOperationTarget)
    (admission : StopAdmissionWitness) (revision : Z) (f : StopCauseFirstRevisions)
    (claim : option StopDispatchClaimWitness) (s : StopOperationState)
    : checking StopOperationRecord :=
  if negb (bool_decide (stop_thread id = tgt_thread target)) then fail TargetThreadMismatch
  else if negb (is_successor (source_gate_revision admission) (successor_gate_revision admission))
  then fail (AdmissionGateRevisionMismatch (source_gate_revision admission)
               (successor_gate_revision admission))
  else
    _ ← check_admission_compaction admission;
    _ ← check_admission_route admission (tgt_turn_kind target);
    _ ← check_claim_presence s claim;
    _ ← validate_consumed_target_kind (tgt_turn_kind target) s;
    _ ← check_consumed_revisions revision s;
    _ ← validate_transition_ledger revision f claim s;
    mret (mkStop id target admission revision f claim s).

Definition admitted (id : StopOperationId) (target : StopOperationTarget)
    (admission : StopAdmissionWitness) (causes : Z) : checking StopOperationRecord :=
  new_record id target admission FIRST (for_admission causes) None StAdmitted.

(** ** The record part of the mutations *)

Inductive StopMutationError :=
  | InputGateStateConflict
  | MutationValue (e : SyndicValueError)
  | MutationRevision (e : RevisionError).

Abbreviation mutating := (panicky StopMutationError).

(** [.map_err(|_| SyndicMutationError::InputGateStateConflict)] *)
Definition conflict_on_error {A} (m : checking A) : mutating A :=
  match m with
  | Some (Ok a) => mret a
  | Some (Err _) => fail InputGateStateConflict
  | None => panic
  end.

Definition advance_record (r : StopOperationRecord) (revision : Z) (f : StopCauseFirstRevisions)
    (claim : option StopDispatchClaimWitness) (s : StopOperationState)
    : mutating StopOperationRecord :=
  conflict_on_error (new_record (so_id r) (so_target r) (so_admission r) revision f claim s).

(** [record.revision().checked_next()?] *)
Definition successor_revision (r : StopOperationRecord) : mutating Z :=
  match next_stop_revision (so_revision r) with
  | Ok revision => mret revision
  | Err e => fail (MutationValue e)
  end.

(** [gate.revision().checked_next()?] *)
Definition successor_gate (gate : Z) : mutating Z :=
  match checked_next gate with
  | Ok revision => mret revision
  | Err e => fail (MutationRevision e)
  end.

(** The mutations read the record under the authority check, which refuses one that is not live. *)
Definition require_live (r : StopOperationRecord) : mutating unit :=
  if is_live (so_state r) then mret tt else fail InputGateStateConflict.

Definition join_cause (r : StopOperationRecord) (c : StopCause) : mutating StopOperationRecord :=
  _ ← require_live r;
  present ← or_panic (causes (so_firsts r));
  if contains present c then fail InputGateStateConflict
  else
    revision ← successor_revision r;
    match publish (so_firsts r) c revision with
    | None => fail InputGateStateConflict
    | Some f => advance_record r revision f (so_claim r) (so_state r)
    end.

Definition claim_dispatch (r : StopOperationRecord) (attempt : list byte)
    : mutating StopOperationRecord :=
  _ ← require_live r;
  match so_state r, so_claim r with
  | StAdmitted, None =>
      revision ← successor_revision r;
      advance_record r revision (so_firsts r) (Some (mkClaim (so_revision r) attempt))
        StDispatchClaimed
  | _, _ => fail InputGateStateConflict
  end.

(** The successor every disposition publishes. *)
Definition consume (r : StopOperationRecord) (s : StopOperationState) : mutating StopOperationRecord :=
  revision ← successor_revision r;
  advance_record r revision (so_firsts r) (so_claim r) s.

Definition refuse_approval (r : StopOperationRecord) : mutating unit :=
  present ← or_panic (causes (so_firsts r));
  if contains present InterruptingApproval then fail InputGateStateConflict else mret tt.

(** [AcceptedRouteRevision::FIRST] *)
Definition FIRST_ROUTE_REVISION : Z := 1.

(** The new route is of the next generation of the gate, at its first revision. *)
Definition safe_reopen (r : StopOperationRecord) (gate generation : Z) : mutating StopOperationRecord :=
  _ ← require_live r;
  _ ← refuse_approval r;
  next_gate ← successor_gate gate;
  consume r (StSafeReopened (SrOrdinary (mkSource gate (so_revision r)) next_gate
                               (mkRouteHead generation FIRST_ROUTE_REVISION))).

Definition provider_safe_reopen (r : StopOperationRecord) (gate compaction next_compaction : Z)
    : mutating StopOperationRecord :=
  _ ← require_live r;
  _ ← refuse_approval r;
  next_gate ← successor_gate gate;
  consume r (StSafeReopened (SrProviderOperation (mkSource gate (so_revision r)) next_gate
                               compaction next_compaction)).

Definition matching_terminal (r : StopOperationRecord) (gate next_gate turn_state : Z)
    : mutating StopOperationRecord :=
  _ ← require_live r;
  consume r (StMatchingTerminal (MtOrdinary (mkSource gate (so_revision r)) next_gate turn_state)).

(** The compaction record must have moved on since the stop was admitted. *)
Definition provider_matching_terminal (r : StopOperationRecord)
    (gate turn_state compaction next_compaction : Z) : mutating StopOperationRecord :=
  match successor_compaction_revision (so_admission r) with
  | None => fail InputGateStateConflict
  | Some stop_compaction_successor =>
      _ ← require_live r;
      if next_compaction <=? stop_compaction_successor then fail InputGateStateConflict
      else
        next_gate ← successor_gate gate;
        consume r (StMatchingTerminal (MtProviderOperation (mkSource gate (so_revision r)) next_gate
                                         turn_state compaction next_compaction))
  end.

(** An abandonment refuses a gate older than the one the admission published (and one with live
    steering input, a test of the gate alone). *)
Definition require_gate (r : StopOperationRecord) (gate : Z) : mutating unit :=
  if gate <? successor_gate_revision (so_admission r) then fail InputGateStateConflict else mret tt.

(** [request.target.binding_revision().checked_next()?], the revision of the stale binding *)
Definition stale_binding (r : StopOperationRecord) : mutating Z :=
  match checked_next (tgt_binding_revision (so_target r)) with
  | Ok revision => mret revision
  | Err e => fail (MutationRevision e)
  end.

Definition abandon (r : StopOperationRecord) (reason : StopAbandonmentReason) (gate turn_state : Z)
    : mutating StopOperationRecord :=
  _ ← require_live r;
  _ ← require_gate r gate;
  binding ← stale_binding r;
  next_gate ← successor_gate gate;
  consume r (StAbandoned (AbOrdinary (mkSource gate (so_revision r)) reason next_gate binding
                            turn_state)).

Definition provider_abandon (r : StopOperationRecord) (reason : StopAbandonmentReason)
    (gate turn_state compaction next_compaction : Z) : mutating StopOperationRecord :=
  _ ← require_live r;
  _ ← require_gate r gate;
  binding ← stale_binding r;
  next_gate ← successor_gate gate;
  consume r (StAbandoned (AbProviderOperation (mkSource gate (so_revision r)) reason next_gate
                            binding turn_state compaction next_compaction)).
