(* ===== verification/StopProofs.v ===== *)
(** * Correctness of the durable stop operation

    What [new_record] accepts, in propositions; that its ledger check means the transitions
    occupy the revisions 2, 3, ... up to the current one, each once; that the results of sequences
    of mutations are exactly the accepted records with what the guards of the mutations give; and
    what each mutation does to an accepted record. *)

From stdpp Require Import prelude strings list_numbers.
From S2P Require Import Prelude.
From S2P Require Import Bytes.
From S2P Require Import ModelIds.
From S2P Require Import SyndicValues.
From S2P Require Import StopOperation.

(** ** What the checks accept *)

Definition follows (source successor : Z) : Prop := successor = source + 1 /\ successor <= U64_MAX.

Definition admission_ok (id : StopOperationId) (t : StopOperationTarget) (w : StopAdmissionWitness)
    : Prop :=
  stop_thread id = tgt_thread t /\ follows (source_gate_revision w) (successor_gate_revision w)
  /\ match w with
     | AdmOrdinary _ source _ successor =>
         is_provider_kind (tgt_turn_kind t) = false
         /\ rh_generation source = rh_generation successor
         /\ follows (rh_revision source) (rh_revision successor)
     | AdmProviderOperation _ _ source successor =>
         is_provider_kind (tgt_turn_kind t) = true /\ follows source successor
     end.

Definition claim_ok (s : StopOperationState) (claim : option StopDispatchClaimWitness) : Prop :=
  match s, claim with StAdmitted, Some _ | StDispatchClaimed, None => False | _, _ => True end.

(** What a consumed state says about compaction: its revisions, for a provider operation. *)
Definition state_compaction (s : StopOperationState) : option (Z * Z) :=
  match s with
  | StSafeReopened (SrProviderOperation _ _ c c')
  | StMatchingTerminal (MtProviderOperation _ _ _ c c')
  | StAbandoned (AbProviderOperation _ _ _ _ _ c c') => Some (c, c')
  | _ => None
  end.

Definition consumed_ok (kind : TurnKind) (revision : Z) (s : StopOperationState) : Prop :=
  match disposition_source s, consumed_gate s with
  | Some source, Some gate =>
      follows (ds_stop source) revision /\ follows (ds_gate source) gate
      /\ match state_compaction s with
         | Some (c, c') => is_provider_kind kind = true /\ follows c c'
         | None => is_provider_kind kind = false
         end
  | _, _ => True
  end.

(** The revisions the transitions after admission were published at. *)
Definition cause_transitions (f : StopCauseFirstRevisions) (cs : list StopCause) : list Z :=
  filter (fun v => v <> FIRST) (omap (first_revision f) cs).
Definition claim_transitions (claim : option StopDispatchClaimWitness) : list Z :=
  match claim with Some c => [claim_source c + 1] | None => [] end.
Definition disposition_transitions (current : Z) (s : StopOperationState) : list Z :=
  if is_live s then [] else [current].
Definition transitions (current : Z) (f : StopCauseFirstRevisions)
    (claim : option StopDispatchClaimWitness) (s : StopOperationState) : list Z :=
  cause_transitions f ALL_CAUSES ++ claim_transitions claim ++ disposition_transitions current s.

Definition ledger_ok (current : Z) (f : StopCauseFirstRevisions)
    (claim : option StopDispatchClaimWitness) (s : StopOperationState) : Prop :=
  has_admission_cause f = true /\ 1 <= current <= U64_MAX
  /\ transitions current f claim s ≡ₚ seqZ 2 (current - 1).

(** Revisions are non-zero 64-bit integers. *)
Definition revisions_typed (current : Z) (f : StopCauseFirstRevisions)
    (claim : option StopDispatchClaimWitness) : Prop :=
  is_u64 current /\ current <> 0
  /\ (forall c v, first_revision f c = Some v -> is_u64 v /\ v <> 0)
  /\ (forall c, claim = Some c -> is_u64 (claim_source c) /\ claim_source c <> 0).

Definition state_typed (s : StopOperationState) : Prop :=
  (forall source, disposition_source s = Some source -> is_u64 (ds_stop source) /\ ds_stop source <> 0)
  /\ (forall c c', state_compaction s = Some (c, c') -> is_u64 c /\ c <> 0).

Definition record_typed (r : StopOperationRecord) : Prop :=
  revisions_typed (so_revision r) (so_firsts r) (so_claim r) /\ state_typed (so_state r).

Definition record_ok (r : StopOperationRecord) : Prop :=
  admission_ok (so_id r) (so_target r) (so_admission r)
  /\ claim_ok (so_state r) (so_claim r)
  /\ consumed_ok (tgt_turn_kind (so_target r)) (so_revision r) (so_state r)
  /\ ledger_ok (so_revision r) (so_firsts r) (so_claim r) (so_state r).

Lemma is_successor_iff a b : is_successor a b = true <-> follows a b.
Proof.
  unfold is_successor, follows. rewrite bool_decide_eq_true, checked_add64_Some. intuition lia.
Qed.

Lemma is_successor_false a b : is_successor a b = false <-> ~ follows a b.
Proof. rewrite <- is_successor_iff. destruct (is_successor a b); naive_solver. Qed.

(** Settle one test of a check. *)
Lemma settles_guard {E A} (b : bool) (e : E) (m : panicky E A) (P Q : Prop) a :
  (P <-> b = false) -> (P -> settles m Q a) -> settles (if b then fail e else m) (P /\ Q) a.
Proof.
  intros Hb Hm. destruct b.
  - right. split; [naive_solver|]. by exists e.
  - destruct (Hm (proj2 Hb eq_refl)) as [[? ?]|[? ?]]; [left|right]; naive_solver.
Qed.

Lemma settles_guard_ret {E A} (b : bool) (e : E) (P : Prop) (a : A) :
  (P <-> b = false) -> settles (if b then fail e else mret a) P a.
Proof.
  intros Hb. eapply settles_iff; [|apply (settles_guard b e _ P True a Hb); intros; apply settles_ret].
  tauto.
Qed.

(** ** The ledger *)

Lemma occupy_transition_settles occ v :
  (length occ < 6)%nat -> settles (occupy_transition occ v) (v ∉ occ) (occ ++ [v]).
Proof.
  intros Hl. unfold occupy_transition. case_bool_decide.
  - right. split; [naive_solver|]. by eexists.
  - left. rewrite (proj2 (Nat.ltb_lt _ _) Hl). done.
Qed.

Lemma NoDup_snoc_iff (l : list Z) v : NoDup l -> (v ∉ l <-> NoDup (l ++ [v])).
Proof.
  intros Hl. rewrite NoDup_app. split.
  - intros Hv. split; [done|]. split; [|apply NoDup_singleton]. set_solver.
  - set_solver.
Qed.

Lemma cause_transitions_cons f c cs :
  cause_transitions f (c :: cs) =
  match first_revision f c with
  | Some v => if v =? FIRST then cause_transitions f cs else v :: cause_transitions f cs
  | None => cause_transitions f cs
  end.
Proof.
  unfold cause_transitions. change (omap (first_revision f) (c :: cs)) with
    (match first_revision f c with Some v => v :: omap (first_revision f) cs | None => omap (first_revision f) cs end).
  destruct (first_revision f c) as [v|]; [|done]. rewrite filter_cons.
  destruct (Z.eqb_spec v FIRST); [rewrite decide_False by naive_solver|rewrite decide_True by done]; done.
Qed.

Lemma occupy_causes_settles cur f cs occ :
  (length occ + length cs <= 6)%nat -> NoDup occ ->
  settles (occupy_causes cur f cs occ)
    (NoDup (occ ++ cause_transitions f cs) /\ Forall (fun v => v <= cur) (omap (first_revision f) cs))
    (occ ++ cause_transitions f cs).
Proof.
  revert occ. induction cs as [|c cs IH]; intros occ Hl Hd.
  { cbn [occupy_causes]. unfold cause_transitions. cbn. rewrite app_nil_r.
    eapply settles_iff; [|apply settles_ret]. naive_solver. }
  cbn [length] in Hl. rewrite cause_transitions_cons. cbn [occupy_causes].
  assert (omap (first_revision f) (c :: cs) =
    match first_revision f c with Some v => v :: omap (first_revision f) cs | None => omap (first_revision f) cs end)
    as -> by done.
  destruct (first_revision f c) as [first|]; [|apply IH; [lia|done]].
  destruct (Z.ltb_spec cur first) as [Hf|Hf].
  { eapply settles_iff; [|apply settles_fail]. rewrite Forall_cons. lia. }
  rewrite Forall_cons. destruct (Z.eqb_spec first FIRST) as [->|Hn].
  - eapply settles_iff; [|apply IH; [lia|done]]. tauto.
  - eapply settles_iff; [|eapply settles_bind; [apply occupy_transition_settles; lia|]].
    2:{ intros Hv. rewrite (cons_middle first occ (cause_transitions f cs)), app_assoc.
        apply IH; [rewrite length_app; cbn; lia|]. by apply NoDup_snoc_iff. }
    rewrite <- app_assoc. cbn. split; [tauto|]. intros [Hd' [_ Hr]].
    split; [|done]. apply NoDup_app in Hd' as (_ & Hd' & _). intros Hin. apply (Hd' _ Hin). set_solver.
Qed.

Lemma occupy_claim_settles cur claim occ :
  (length occ < 6)%nat -> NoDup occ -> cur <= U64_MAX ->
  (forall c, claim = Some c -> 0 <= claim_source c) ->
  settles (occupy_claim cur claim occ)
    (NoDup (occ ++ claim_transitions claim) /\ Forall (fun v => v <= cur) (claim_transitions claim))
    (occ ++ claim_transitions claim).
Proof.
  intros Hl Hd Hc Ht. destruct claim as [c|]; cbn [occupy_claim claim_transitions].
  2:{ rewrite app_nil_r. eapply settles_iff; [|apply settles_ret]. naive_solver. }
  specialize (Ht c eq_refl). unfold next_stop_revision.
  destruct (checked_add64 (claim_source c) 1) as [p|] eqn:Ep; cbn.
  - apply checked_add64_Some in Ep as [-> Ep]. unfold nonzero.
    destruct (Z.eqb_spec (claim_source c + 1) 0); [lia|]. cbn.
    destruct (Z.ltb_spec cur (claim_source c + 1)).
    + eapply settles_iff; [|apply settles_fail]. rewrite Forall_singleton. lia.
    + eapply settles_iff; [|apply occupy_transition_settles; done].
      rewrite Forall_singleton, <- NoDup_snoc_iff by done. intuition lia.
  - apply checked_add64_None in Ep. eapply settles_iff; [|apply settles_fail].
    rewrite Forall_singleton. lia.
Qed.

Lemma disposition_live s : disposition_source s = None <-> is_live s = true.
Proof. by destruct s. Qed.

Lemma occupy_disposition_settles cur s occ :
  (length occ < 6)%nat -> NoDup occ ->
  settles (occupy_disposition cur s occ) (NoDup (occ ++ disposition_transitions cur s))
    (occ ++ disposition_transitions cur s).
Proof.
  intros Hl Hd. unfold occupy_disposition, disposition_transitions.
  destruct (is_live s) eqn:Hs.
  - rewrite (proj2 (disposition_live s) Hs), app_nil_r. eapply settles_iff; [|apply settles_ret]. tauto.
  - destruct (disposition_source s) eqn:E; [|apply disposition_live in E; congruence].
    eapply settles_iff; [apply NoDup_snoc_iff, Hd|by apply occupy_transition_settles].
Qed.

(** Distinct numbers from 2 to [n], [n - 1] of them, are all of them. *)
Lemma contiguous_iff (l : list Z) n :
  Forall (fun v => 2 <= v) l ->
  (NoDup l /\ Forall (fun v => v <= n) l /\ zlen l = n - 1)
  <-> (1 <= n /\ l ≡ₚ seqZ 2 (n - 1)).
Proof.
  intros H2. split.
  - intros (Hd & Hn & Hl). split; [lia|].
    apply submseteq_length_Permutation.
    + apply NoDup_submseteq; [done|]. intros x Hx. apply elem_of_seqZ.
      rewrite Forall_forall in H2, Hn. specialize (H2 x Hx). specialize (Hn x Hx). cbn in *. lia.
    + rewrite length_seqZ. lia.
  - intros [Hn Hp]. split_and!.
    + rewrite Hp. apply NoDup_seqZ.
    + rewrite Hp. apply Forall_forall. intros x Hx. apply elem_of_seqZ in Hx. lia.
    + rewrite Hp, length_seqZ. lia.
Qed.

Lemma cause_transitions_length f cs : (length (cause_transitions f cs) <= length cs)%nat.
Proof.
  unfold cause_transitions. etrans; [apply length_filter|].
  induction cs as [|c cs IH]; cbn; [lia|]. destruct (first_revision f c); cbn; lia.
Qed.

Lemma transitions_ge2 cur f claim s :
  revisions_typed cur f claim -> (is_live s = false -> 2 <= cur) ->
  Forall (fun v => 2 <= v) (transitions cur f claim s).
Proof.
  intros (_ & _ & Hf & Hc) Hs. unfold transitions, cause_transitions, is_u64 in *.
  rewrite !Forall_app. split_and!.
  - apply Forall_forall. intros v Hv. apply list_elem_of_filter in Hv as [Hn Hv].
    apply list_elem_of_omap in Hv as (c & _ & Hv). specialize (Hf c v Hv). unfold FIRST in Hn. lia.
  - destruct claim as [c|]; cbn; [|done]. apply Forall_singleton. specialize (Hc c eq_refl). lia.
  - unfold disposition_transitions. destruct (is_live s); [done|]. apply Forall_singleton. auto.
Qed.

Lemma firsts_le cur f :
  1 <= cur ->
  Forall (fun v => v <= cur) (omap (first_revision f) ALL_CAUSES)
  <-> Forall (fun v => v <= cur) (cause_transitions f ALL_CAUSES).
Proof.
  intros Hc. unfold cause_transitions. rewrite !Forall_forall. setoid_rewrite list_elem_of_filter.
  split; [naive_solver|]. intros H x Hx. destruct (decide (x = FIRST)) as [->|]; [done|]. auto.
Qed.

Lemma ledger_settles cur f claim s :
  revisions_typed cur f claim -> (is_live s = false -> 2 <= cur) ->
  settles (validate_transition_ledger cur f claim s) (ledger_ok cur f claim s) tt.
Proof.
  intros Ht Hs. assert (H2 := transitions_ge2 cur f claim s Ht Hs).
  destruct Ht as ([Hc0 Hc1] & Hc & Hf & Hcl). unfold is_u64 in *.
  unfold validate_transition_ledger, ledger_ok.
  eapply settles_iff; [|eapply settles_guard with (P := has_admission_cause f = true)].
  3:{ intros _. eapply settles_bind; [apply occupy_causes_settles; [cbn; lia|constructor]|].
      intros [Hd1 Hle1]. cbn [app] in *.
      assert (Hl := cause_transitions_length f ALL_CAUSES). cbn [length ALL_CAUSES] in Hl.
      eapply settles_bind; [apply occupy_claim_settles; try done; [lia|naive_solver lia]|].
      intros [Hd2 Hle2].
      eapply settles_bind; [apply occupy_disposition_settles; [|done]|].
      { rewrite length_app. destruct claim; cbn [claim_transitions length]; lia. }
      intros Hd3. apply (settles_guard_ret _ _
        (zlen ((cause_transitions f ALL_CAUSES ++ claim_transitions claim) ++ disposition_transitions cur s)
         = cur - FIRST)).
      rewrite negb_false_iff, Z.eqb_eq. done. }
  - assert ((cause_transitions f ALL_CAUSES ++ claim_transitions claim) ++ disposition_transitions cur s
            = transitions cur f claim s) as -> by (unfold transitions; by rewrite app_assoc).
    rewrite firsts_le by lia.
    assert (Hpig := contiguous_iff _ cur H2). unfold FIRST.
    assert (Forall (fun v => v <= cur) (transitions cur f claim s) <->
      Forall (fun v => v <= cur) (cause_transitions f ALL_CAUSES)
      /\ Forall (fun v => v <= cur) (claim_transitions claim)) as Hle.
    { unfold transitions, disposition_transitions. rewrite !Forall_app.
      destruct (is_live s); rewrite ?Forall_singleton, ?Forall_nil; intuition lia. }
    rewrite Hle in Hpig. split; [intuition lia|]. intros (Ha & Hn & Hp).
    assert (NoDup (transitions cur f claim s)) as Hnd by (apply Hpig; split; [lia|done]).
    assert (Hnd' := Hnd). unfold transitions in Hnd'. rewrite app_assoc in Hnd'.
    apply NoDup_app in Hnd' as (Hnd1 & _ & _). assert (Hnd2 := Hnd1). apply NoDup_app in Hnd2 as (Hnd2 & _ & _).
    intuition lia.
  - rewrite negb_false_iff. done.
Qed.

(** ** The whole record *)

Lemma admission_compaction_settles w :
  settles (check_admission_compaction w)
    (match w with AdmProviderOperation _ _ c c' => follows c c' | _ => True end) tt.
Proof.
  destruct w as [g sr g' tr|g g' c c']; [by left|].
  unfold check_admission_compaction; cbn [source_compaction_revision successor_compaction_revision].
  destruct (is_successor c c') eqn:E; [left|right]; (split; [|first [done|eexists; reflexivity]]).
  - by apply is_successor_iff.
  - by apply is_successor_false.
Qed.

Lemma admission_route_settles w k :
  settles (check_admission_route w k)
    (match w with
     | AdmOrdinary _ source _ successor =>
         is_provider_kind k = false /\ rh_generation source = rh_generation successor
         /\ follows (rh_revision source) (rh_revision successor)
     | AdmProviderOperation _ _ _ _ => is_provider_kind k = true
     end) tt.
Proof.
  destruct w as [g sr g' tr|g g' c c'].
  2:{ destruct k; cbn; first [left; by split|right; split; [done|by eexists]]. }
  assert (forall k', is_provider_kind k' = false ->
    check_admission_route (AdmOrdinary g sr g' tr) k' =
    if negb (rh_generation sr =? rh_generation tr) then fail AdmissionRouteGenerationMismatch
    else if negb (is_successor (rh_revision sr) (rh_revision tr))
    then fail (AdmissionRouteRevisionMismatch (rh_revision sr) (rh_revision tr)) else mret tt) as Hk
    by (by intros [| | |?] ?).
  destruct (is_provider_kind k) eqn:Ek.
  { destruct k; try done. right. split; [naive_solver|by eexists]. }
  rewrite (Hk k Ek). eapply settles_iff; [|apply settles_guard
    with (P := rh_generation sr = rh_generation tr); [|intros _;
      apply (settles_guard_ret _ _ (follows (rh_revision sr) (rh_revision tr)))]].
  - tauto.
  - rewrite negb_false_iff, Z.eqb_eq. done.
  - rewrite negb_false_iff, is_successor_iff. done.
Qed.

Lemma claim_presence_settles s claim : settles (check_claim_presence s claim) (claim_ok s claim) tt.
Proof. destruct s, claim; cbn; first [left; by split|right; split; [tauto|by eexists]]. Qed.

Lemma compaction_successor_settles c c' :
  0 <= c -> settles (validate_compaction_successor c c') (follows c c') tt.
Proof.
  intros Hc. unfold validate_compaction_successor, follows.
  assert ((checked_add64 c 1 ≫= nonzero) = Some c' <-> c' = c + 1 /\ c' <= U64_MAX) as Hn.
  { destruct (checked_add64 c 1) as [n|] eqn:E; cbn.
    - apply checked_add64_Some in E as [-> E]. unfold nonzero. destruct (Z.eqb_spec (c + 1) 0); naive_solver lia.
    - apply checked_add64_None in E. split; [done|lia]. }
  rewrite <- Hn. case_bool_decide; [by left|right]. split; [done|by eexists].
Qed.

Lemma target_kind_settles k s :
  state_typed s ->
  settles (validate_consumed_target_kind k s)
    (is_live s = true \/ match state_compaction s with
                         | Some (c, c') => is_provider_kind k = true /\ follows c c'
                         | None => is_provider_kind k = false
                         end) tt.
Proof.
  intros [_ Hc]. unfold validate_consumed_target_kind.
  assert (forall c c', state_compaction s = Some (c, c') -> 0 <= c) as Hc'
    by (intros c c' E; destruct (Hc c c' E) as [[? _] _]; done).
  destruct s as [| |[]|[]|[]], (is_provider_kind k);
    first [ left; split; [by left|done] | left; split; [by right|done]
          | right; split; [intros [?|?]; [done|naive_solver]|by eexists] | idtac ].
  all: cbn [state_compaction is_live] in *; eapply settles_iff;
    [|apply compaction_successor_settles; by eapply Hc']; split; [tauto|by intros [?|[? ?]]].
Qed.

Lemma consumed_revisions_settles rev s :
  settles (check_consumed_revisions rev s)
    (match disposition_source s, consumed_gate s with
     | Some source, Some gate => follows (ds_stop source) rev /\ follows (ds_gate source) gate
     | _, _ => True
     end) tt.
Proof.
  unfold check_consumed_revisions. destruct (disposition_source s) as [src|] eqn:E; [|by left].
  destruct (consumed_gate s) as [g|] eqn:G; [|by destruct s].
  apply settles_guard; [rewrite negb_false_iff, is_successor_iff; done|]. intros _.
  cbn. apply settles_guard_ret. rewrite negb_false_iff, is_successor_iff. done.
Qed.

Lemma new_record_settles id t w rev f claim s :
  record_typed (mkStop id t w rev f claim s) ->
  settles (new_record id t w rev f claim s) (record_ok (mkStop id t w rev f claim s))
    (mkStop id t w rev f claim s).
Proof.
  intros [Ht Hs]. cbn in Ht, Hs. unfold new_record.
  eapply settles_iff; [|
    apply (settles_guard _ _ _ (stop_thread id = tgt_thread t)); [|intros _;
    apply (settles_guard _ _ _ (follows (source_gate_revision w) (successor_gate_revision w))); [|intros _;
    eapply settles_bind; [apply admission_compaction_settles|intros _];
    eapply settles_bind; [apply admission_route_settles|intros _];
    eapply settles_bind; [apply claim_presence_settles|intros _];
    eapply settles_bind; [by apply target_kind_settles|intros _];
    eapply settles_bind; [apply consumed_revisions_settles|intros Hcons];
    eapply settles_bind; [apply ledger_settles; [done|]|intros _; apply settles_ret]]]].
  - unfold record_ok, admission_ok, consumed_ok; cbn. clear -s.
    destruct w; (destruct (disposition_source s) eqn:E, (consumed_gate s) eqn:G; [|by destruct s|by destruct s|]).
    all: try (assert (is_live s = false) as -> by (by destruct s)).
    all: try (assert (is_live s = true) as -> by (by destruct s)).
    all: destruct (state_compaction s) as [[]|]; intuition congruence.
  - rewrite negb_false_iff, bool_decide_eq_true. done.
  - rewrite negb_false_iff, is_successor_iff. done.
  - intros Hl. destruct (disposition_source s) as [src|] eqn:E; [|by destruct s].
    destruct (consumed_gate s) eqn:G; [|by destruct s].
    destruct Hs as [Hs _]. destruct (Hs src E) as [[? _] ?]. destruct Hcons as [[] _]. lia.
Qed.

(** A record of the program: one [new_record] returned. *)
Definition accepted (r : StopOperationRecord) : Prop :=
  record_typed r
  /\ new_record (so_id r) (so_target r) (so_admission r) (so_revision r) (so_firsts r) (so_claim r)
       (so_state r) = Some (Ok r).

Lemma accepted_iff r : accepted r <-> record_typed r /\ record_ok r.
Proof.
  destruct r as [id t w rev f claim s]. unfold accepted. cbn [so_id so_target so_admission so_revision so_firsts so_claim so_state].
  split; intros [Ht H]; (split; [done|]); by apply (settles_Ok _ _ _ (new_record_settles _ _ _ _ _ _ _ Ht)).
Qed.

(** ** Slots *)

Definition slot_transition (v : option Z) : list Z :=
  match v with Some v => if v =? FIRST then [] else [v] | None => [] end.

Lemma cause_transitions_slots s d h i :
  cause_transitions (mkFirsts s d h i) ALL_CAUSES
  = slot_transition s ++ slot_transition d ++ slot_transition h ++ slot_transition i.
Proof.
  unfold ALL_CAUSES. rewrite !cause_transitions_cons. cbn [first_revision selected_operation_control
    diagnostic_control healthy_home_window_close interrupting_approval].
  change (cause_transitions _ []) with (@nil Z).
  destruct s as [s|], d as [d|], h as [h|], i as [i|]; cbn [slot_transition];
    repeat match goal with |- context [?v =? FIRST] => destruct (v =? FIRST) end; done.
Qed.

Lemma set_slot_transitions f c v :
  cause_transitions (set_slot f c v) ALL_CAUSES
  ≡ₚ slot_transition v ++ cause_transitions (set_slot f c None) ALL_CAUSES.
Proof.
  destruct f as [s d h i], c; cbn [set_slot]; rewrite !cause_transitions_slots; cbn [slot_transition app].
  - done.
  - by rewrite Permutation_app_swap_app.
  - rewrite (Permutation_app_swap_app (slot_transition d)), (Permutation_app_swap_app (slot_transition s)).
    done.
  - rewrite app_nil_r, (Permutation_app_comm (slot_transition h)),
      (Permutation_app_swap_app (slot_transition d)), (Permutation_app_swap_app (slot_transition s)).
    done.
Qed.

Lemma set_slot_same f c : set_slot f c (first_revision f c) = f.
Proof. by destruct f, c. Qed.
Lemma set_slot_twice f c v w : set_slot (set_slot f c v) c w = set_slot f c w.
Proof. by destruct f, c. Qed.
Lemma first_revision_set f c v c' :
  first_revision (set_slot f c v) c' = if decide (c' = c) then v else first_revision f c'.
Proof. by destruct f, c, c'. Qed.

Lemma has_admission_iff f :
  has_admission_cause f = true <-> exists c, first_revision f c = Some FIRST.
Proof.
  unfold has_admission_cause. rewrite existsb_exists. setoid_rewrite bool_decide_eq_true.
  split; [intros (c & _ & Hc); by exists c|]. intros [c Hc]. exists c. split; [|done].
  destruct c; cbn; tauto.
Qed.

(** The derived set holds exactly the published causes, and deriving it never panics. *)
Lemma causes_spec f :
  has_admission_cause f = true ->
  exists s, causes f = Some s /\ forall c, contains s c = true <-> is_Some (first_revision f c).
Proof.
  intros Ha. apply has_admission_iff in Ha as [c0 Hc0].
  destruct f as [[s|] [d|] [h|] [i|]].
  all: first [ by destruct c0 | eexists; split; [vm_compute; reflexivity|] ].
  all: intros []; cbn; split; first [done | by intros [? ?] | by eexists].
Qed.

Lemma admission_causes_spec f :
  has_admission_cause f = true ->
  exists s, admission_causes f = Some s /\ forall c, contains s c = true <-> first_revision f c = Some FIRST.
Proof.
  intros Ha. unfold admission_causes, collect_bits, ALL_CAUSES. cbn [fold_left].
  apply has_admission_iff in Ha as [c0 Hc0].
  assert (forall b b' b'' b''' : bool, (b || b' || b'' || b''') = true ->
    exists s, expect_set
      (let x := if b then Z.lor 0 (bit SelectedOperationControl) else 0 in
       let x := if b' then Z.lor x (bit DiagnosticControl) else x in
       let x := if b'' then Z.lor x (bit HealthyHomeWindowClose) else x in
       if b''' then Z.lor x (bit InterruptingApproval) else x) = Some s
    /\ forall c, contains s c = match c with SelectedOperationControl => b | DiagnosticControl => b'
        | HealthyHomeWindowClose => b'' | InterruptingApproval => b''' end) as Hall.
  { intros [] [] [] [] H; try done; (eexists; split; [vm_compute; reflexivity|]); by intros []. }
  edestruct (Hall (bool_decide (first_revision f SelectedOperationControl = Some FIRST))
    (bool_decide (first_revision f DiagnosticControl = Some FIRST))
    (bool_decide (first_revision f HealthyHomeWindowClose = Some FIRST))
    (bool_decide (first_revision f InterruptingApproval = Some FIRST))) as (s & Hs & Hc).
  { destruct c0; rewrite (bool_decide_eq_true_2 _ Hc0), ?orb_true_r; done. }
  exists s. split; [exact Hs|]. intros c. rewrite Hc. destruct c; apply bool_decide_eq_true.
Qed.

(** ** Steps between accepted records *)

Lemma seqZ_snoc n : 1 <= n -> seqZ 2 n = seqZ 2 (n - 1) ++ [n + 1].
Proof.
  intros. replace n with ((n - 1) + 1) at 1 by lia. rewrite seqZ_app by lia. f_equal.
  replace (2 + (n - 1)) with (n + 1) by lia. done.
Qed.

Lemma advance_Ok r rev f claim s :
  let r' := mkStop (so_id r) (so_target r) (so_admission r) rev f claim s in
  record_typed r' ->
  settles (advance_record r rev f claim s) (record_ok r') r'.
Proof.
  intros r' Ht. unfold advance_record, r' in *.
  destruct (new_record_settles _ _ _ _ _ _ _ Ht) as [[H ->]|[H [e ->]]]; [by left|right].
  split; [done|by eexists].
Qed.

Lemma slot_transition_length v : (length (slot_transition v) <= 1)%nat.
Proof. destruct v as [v|]; cbn; [destruct (v =? FIRST)|]; cbn; lia. Qed.

(** At most three causes are joined after admission. *)
Lemma joined_at_most_three f :
  has_admission_cause f = true -> (length (cause_transitions f ALL_CAUSES) <= 3)%nat.
Proof.
  intros Ha. apply has_admission_iff in Ha as [c Hc]. destruct f as [s d h i].
  rewrite cause_transitions_slots, !length_app.
  pose proof (slot_transition_length s). pose proof (slot_transition_length d).
  pose proof (slot_transition_length h). pose proof (slot_transition_length i).
  destruct c; cbn in Hc; subst; cbn [slot_transition] in *; rewrite Z.eqb_refl in *; cbn [length]; lia.
Qed.

Lemma ledger_bound cur f claim s : ledger_ok cur f claim s -> cur <= 6.
Proof.
  intros (Ha & [Hc _] & Hp). apply Permutation_length in Hp. unfold transitions in Hp.
  rewrite !length_app, length_seqZ in Hp. pose proof (joined_at_most_three f Ha).
  assert (length (claim_transitions claim) <= 1)%nat by (destruct claim; cbn; lia).
  assert (length (disposition_transitions cur s) <= 1)%nat
    by (unfold disposition_transitions; destruct (is_live s); cbn; lia).
  lia.
Qed.

Lemma successor_revision_Ok r :
  1 <= so_revision r <= 6 -> successor_revision r = mret (so_revision r + 1).
Proof.
  intros H. unfold successor_revision, next_stop_revision.
  assert (checked_add64 (so_revision r) 1 = Some (so_revision r + 1)) as ->
    by (apply checked_add64_Some; lia).
  cbn. unfold nonzero. destruct (Z.eqb_spec (so_revision r + 1) 0); [lia|]. done.
Qed.

Definition join_result (r : StopOperationRecord) (c : StopCause) : StopOperationRecord :=
  mkStop (so_id r) (so_target r) (so_admission r) (so_revision r + 1)
    (set_slot (so_firsts r) c (Some (so_revision r + 1))) (so_claim r) (so_state r).
Definition claim_result (r : StopOperationRecord) (attempt : list byte) : StopOperationRecord :=
  mkStop (so_id r) (so_target r) (so_admission r) (so_revision r + 1) (so_firsts r)
    (Some (mkClaim (so_revision r) attempt)) StDispatchClaimed.
Definition consume_result (r : StopOperationRecord) (s : StopOperationState) : StopOperationRecord :=
  mkStop (so_id r) (so_target r) (so_admission r) (so_revision r + 1) (so_firsts r) (so_claim r) s.

Lemma live_consumed_ok k rev s : is_live s = true -> consumed_ok k rev s.
Proof. by destruct s. Qed.

(** The ledger before and after each kind of step. *)
Lemma join_ledger rev f c claim s :
  is_live s = true -> 1 <= rev <= 6 -> first_revision f c = None ->
  ledger_ok (rev + 1) (set_slot f c (Some (rev + 1))) claim s <-> ledger_ok rev f claim s.
Proof.
  intros Hs Hr Hc. unfold ledger_ok.
  assert (has_admission_cause (set_slot f c (Some (rev + 1))) = true <-> has_admission_cause f = true) as ->.
  { rewrite !has_admission_iff. setoid_rewrite first_revision_set.
    split; intros [c' Hc']; exists c'; case_decide; subst; simplify_eq; try done. unfold FIRST in *. lia. }
  assert (transitions (rev + 1) (set_slot f c (Some (rev + 1))) claim s
          ≡ₚ (rev + 1) :: transitions rev f claim s) as ->.
  { unfold transitions, disposition_transitions. rewrite Hs, (set_slot_transitions f c (Some (rev + 1))).
    rewrite <- Hc, set_slot_same. unfold slot_transition. destruct (Z.eqb_spec (rev + 1) FIRST);
      [unfold FIRST in *; lia|done]. }
  replace (rev + 1 - 1) with rev by lia. rewrite seqZ_snoc by lia.
  rewrite <- Permutation_cons_append. split; intros (? & ? & Hp); (split_and!; try done; try lia).
  - by apply Permutation_cons_inv in Hp.
  - by constructor.
Qed.

Lemma claim_ledger rev f attempt :
  1 <= rev <= 6 ->
  ledger_ok (rev + 1) f (Some (mkClaim rev attempt)) StDispatchClaimed <-> ledger_ok rev f None StAdmitted.
Proof.
  intros Hr. unfold ledger_ok, transitions, disposition_transitions. cbn [is_live claim_transitions claim_source].
  rewrite !app_nil_r. replace (rev + 1 - 1) with rev by lia. rewrite seqZ_snoc by lia.
  split; intros (? & ? & Hp); (split_and!; try done; try lia).
  - by apply Permutation_app_inv_r in Hp.
  - by rewrite Hp.
Qed.

Lemma consume_ledger rev f claim s s' :
  is_live s = true -> is_live s' = false -> 1 <= rev <= 6 ->
  ledger_ok (rev + 1) f claim s' <-> ledger_ok rev f claim s.
Proof.
  intros Hs Hs' Hr. unfold ledger_ok, transitions, disposition_transitions. rewrite Hs, Hs'.
  replace (rev + 1 - 1) with rev by lia. rewrite seqZ_snoc, !app_nil_r, app_assoc by lia.
  split; intros (? & ? & Hp); (split_and!; try done; try lia).
  - by apply Permutation_app_inv_r in Hp.
  - by rewrite Hp.
Qed.

Lemma accepted_bounds r : accepted r -> 1 <= so_revision r <= 6.
Proof.
  intros H. apply accepted_iff in H as [_ (_ & _ & _ & Hl)]. pose proof (ledger_bound _ _ _ _ Hl).
  destruct Hl as (_ & ? & _). lia.
Qed.

Lemma accepted_admission r : accepted r -> has_admission_cause (so_firsts r) = true.
Proof. intros H. by apply accepted_iff in H as [_ (_ & _ & _ & ? & _)]. Qed.

(** A bounded successor keeps the revisions in their type. *)
Lemma typed_next r f claim s :
  accepted r -> state_typed s ->
  (forall c v, first_revision f c = Some v -> v = so_revision r + 1 \/ first_revision (so_firsts r) c = Some v) ->
  (forall c, claim = Some c -> claim_source c = so_revision r \/ so_claim r = Some c) ->
  record_typed (mkStop (so_id r) (so_target r) (so_admission r) (so_revision r + 1) f claim s).
Proof.
  intros Ha Hs Hf Hc. pose proof (accepted_bounds r Ha) as Hb. destruct Ha as [[(_ & _ & Hf0 & Hc0) _] _].
  unfold record_typed, revisions_typed, is_u64 in *; cbn. split; [|done]. split_and!; try lia.
  - intros c v Hv. destruct (Hf c v Hv) as [->|Hv']; [lia|]. by apply Hf0 in Hv'.
  - intros c Hv. destruct (Hc c Hv) as [->|Hv']; [lia|]. by apply Hc0 in Hv'.
Qed.

Lemma accepted_state_typed r : accepted r -> state_typed (so_state r).
Proof. by intros [[_ ?] _]. Qed.

Lemma join_accepted r c :
  accepted r -> is_live (so_state r) = true -> first_revision (so_firsts r) c = None ->
  accepted (join_result r c).
Proof.
  intros Ha Hs Hc. apply accepted_iff. split.
  - apply typed_next; [done|by apply accepted_state_typed| |by right].
    intros c' v. rewrite first_revision_set. case_decide; [intros [= <-]; by left|by right].
  - pose proof (accepted_bounds r Ha). apply accepted_iff in Ha as [_ (H1 & H2 & H3 & H4)].
    split_and!; cbn; [done|done|by apply live_consumed_ok|]. by apply join_ledger.
Qed.

Lemma claim_accepted r attempt : accepted r -> so_state r = StAdmitted -> accepted (claim_result r attempt).
Proof.
  intros Ha Hs. apply accepted_iff. split.
  - apply typed_next; [done|by split|by right|]. intros c [= <-]. by left.
  - pose proof (accepted_bounds r Ha) as Hb. apply accepted_iff in Ha as [_ (H1 & H2 & H3 & H4)].
    rewrite Hs in *. destruct (so_claim r); [done|]. split_and!; cbn; [done|done|done|].
    by apply claim_ledger.
Qed.

Lemma consume_accepted r s :
  accepted r -> is_live (so_state r) = true -> is_live s = false -> state_typed s ->
  accepted (consume_result r s) <-> consumed_ok (tgt_turn_kind (so_target r)) (so_revision r + 1) s.
Proof.
  intros Ha Hl Hs Hty. rewrite accepted_iff.
  assert (record_typed (consume_result r s)) by (apply typed_next; [done|done|by right|by right]).
  pose proof (accepted_bounds r Ha) as Hb. apply accepted_iff in Ha as [_ (H1 & H2 & H3 & H4)].
  unfold record_ok; cbn. rewrite (consume_ledger _ _ _ (so_state r) s Hl Hs Hb).
  assert (claim_ok s (so_claim r)) by (by destruct s). tauto.
Qed.

(** Building an accepted record succeeds. *)
Lemma advance_accepted r r' :
  so_id r' = so_id r -> so_target r' = so_target r -> so_admission r' = so_admission r ->
  accepted r' ->
  advance_record r (so_revision r') (so_firsts r') (so_claim r') (so_state r') = Some (Ok r').
Proof. intros H1 H2 H3 [_ Hn]. unfold advance_record. by rewrite <- H1, <- H2, <- H3, Hn. Qed.

Lemma join_cause_eq r c :
  accepted r ->
  join_cause r c =
  Some (if is_live (so_state r) && bool_decide (first_revision (so_firsts r) c = None)
        then Ok (join_result r c) else Err InputGateStateConflict).
Proof.
  intros Ha. unfold join_cause, require_live.
  destruct (is_live (so_state r)) eqn:Hs; [|done]. cbn [andb].
  destruct (causes_spec _ (accepted_admission r Ha)) as (set & Hset & Hin).
  assert (Hnext := successor_revision_Ok r (accepted_bounds r Ha)).
  rewrite Hset. unfold mbind, panicky_bind, or_panic; cbn [mret panicky_ret fmap option_fmap option_map].
  destruct (first_revision (so_firsts r) c) as [v|] eqn:Hc.
  { rewrite (proj2 (Hin c)) by (rewrite Hc; by eexists). by rewrite bool_decide_eq_false_2. }
  rewrite bool_decide_eq_true_2 by done.
  destruct (contains set c) eqn:Hcon; [apply Hin in Hcon; rewrite Hc in Hcon; by destruct Hcon|].
  rewrite Hnext. cbn [mret panicky_ret]. unfold publish. rewrite Hc.
  apply (advance_accepted r (join_result r c)); [done..|by apply join_accepted].
Qed.

Lemma claim_dispatch_eq r attempt :
  accepted r ->
  claim_dispatch r attempt =
  Some (match so_state r with
        | StAdmitted => Ok (claim_result r attempt)
        | _ => Err InputGateStateConflict
        end).
Proof.
  intros Ha. unfold claim_dispatch, require_live. destruct (so_state r) eqn:Hs; try done.
  assert (so_claim r = None) as ->.
  { apply accepted_iff in Ha as [_ (_ & H2 & _)]. rewrite Hs in H2. by destruct (so_claim r). }
  unfold mbind, panicky_bind; cbn [is_live mret panicky_ret].
  rewrite (successor_revision_Ok r (accepted_bounds r Ha)); cbn [mret panicky_ret].
  apply (advance_accepted r (claim_result r attempt)); [done..|by apply claim_accepted].
Qed.

Lemma consume_eq r s :
  accepted r -> is_live (so_state r) = true -> is_live s = false -> state_typed s ->
  settles (consume r s) (consumed_ok (tgt_turn_kind (so_target r)) (so_revision r + 1) s)
    (consume_result r s).
Proof.
  intros Ha Hl Hs Hty. unfold consume. rewrite <- (consume_accepted r s) by done.
  rewrite (successor_revision_Ok r (accepted_bounds r Ha)). unfold mbind, panicky_bind; cbn [mret panicky_ret].
  assert (record_typed (consume_result r s)) as Ht
    by (apply typed_next; [done|done|by right|by right]).
  rewrite accepted_iff. eapply settles_iff; [|apply (advance_Ok r _ _ _ _ Ht)].
  unfold consume_result in *. tauto.
Qed.

(** ** Dispositions *)

Lemma require_live_settles r : settles (require_live r) (is_live (so_state r) = true) tt.
Proof.
  unfold require_live. destruct (is_live (so_state r)); [by left|right]. split; [done|by eexists].
Qed.

Lemma refuse_approval_settles r :
  accepted r ->
  settles (refuse_approval r) (first_revision (so_firsts r) InterruptingApproval = None) tt.
Proof.
  intros Ha. destruct (causes_spec _ (accepted_admission r Ha)) as (set & Hset & Hin).
  unfold refuse_approval. rewrite Hset. cbn [or_panic fmap option_fmap option_map mbind panicky_bind].
  apply settles_guard_ret. specialize (Hin InterruptingApproval).
  destruct (first_revision (so_firsts r) InterruptingApproval) as [v|], (contains set InterruptingApproval).
  - done.
  - assert (false = true) by (apply Hin; by eexists). done.
  - destruct (proj1 Hin eq_refl). done.
  - done.
Qed.

Lemma successor_gate_settles gate : 0 <= gate -> settles (successor_gate gate) (gate < U64_MAX) (gate + 1).
Proof.
  intros Hg. unfold successor_gate, checked_next. destruct (checked_add64 gate 1) as [n|] eqn:E; cbn.
  - apply checked_add64_Some in E as [-> E]. unfold nonzero. destruct (Z.eqb_spec (gate + 1) 0); [lia|].
    left. split; [lia|done].
  - apply checked_add64_None in E. right. split; [lia|by eexists].
Qed.

(** A live accepted record is consumed exactly when the witness fits. *)
Lemma consume_live r s :
  accepted r -> is_live s = false -> (forall c c', state_compaction s = Some (c, c') -> is_u64 c /\ c <> 0) ->
  (exists gate, disposition_source s = Some (mkSource gate (so_revision r))) ->
  is_live (so_state r) = true ->
  settles (consume r s)
    (match disposition_source s, consumed_gate s with
     | Some source, Some gate => follows (ds_gate source) gate
     | _, _ => True
     end
     /\ match state_compaction s with
        | Some (c, c') => is_provider_kind (tgt_turn_kind (so_target r)) = true /\ follows c c'
        | None => is_provider_kind (tgt_turn_kind (so_target r)) = false
        end)
    (consume_result r s).
Proof.
  intros Ha Hs Hc [gate Hg] Hl. pose proof (accepted_bounds r Ha) as Hb.
  eapply settles_iff; [|apply consume_eq; [done|done|done|]].
  - unfold consumed_ok. rewrite Hg. destruct (consumed_gate s) eqn:G; [|by destruct s]. cbn.
    assert (follows (so_revision r) (so_revision r + 1)) by (unfold follows; lia). tauto.
  - split; [|done]. intros src E. rewrite Hg in E. simplify_eq. cbn. unfold is_u64. lia.
Qed.

(** What each disposition does to an accepted record. *)
Lemma safe_reopen_settles r gate generation : accepted r -> 0 <= gate ->
  settles (safe_reopen r gate generation)
    (is_live (so_state r) = true /\ first_revision (so_firsts r) InterruptingApproval = None
     /\ gate < U64_MAX /\ is_provider_kind (tgt_turn_kind (so_target r)) = false)
    (consume_result r (StSafeReopened (SrOrdinary (mkSource gate (so_revision r)) (gate + 1) (mkRouteHead generation 1)))).
Proof.
  intros Ha Hg. unfold safe_reopen.
  eapply settles_iff; [|eapply settles_bind; [apply require_live_settles|intros Hl];
    eapply settles_bind; [by apply refuse_approval_settles|intros _];
    eapply settles_bind; [by apply successor_gate_settles|intros Hm];
    apply consume_live; [done|done|done|by eexists|done]].
  cbn. unfold follows. intuition lia.
Qed.

Lemma provider_safe_reopen_settles r gate c c' : accepted r -> 0 <= gate -> is_u64 c -> c <> 0 ->
  settles (provider_safe_reopen r gate c c')
    (is_live (so_state r) = true /\ first_revision (so_firsts r) InterruptingApproval = None
     /\ gate < U64_MAX /\ is_provider_kind (tgt_turn_kind (so_target r)) = true /\ follows c c')
    (consume_result r (StSafeReopened (SrProviderOperation (mkSource gate (so_revision r)) (gate + 1) c c'))).
Proof.
  intros Ha Hg Hc Hc0. unfold provider_safe_reopen.
  eapply settles_iff; [|eapply settles_bind; [apply require_live_settles|intros Hl];
    eapply settles_bind; [by apply refuse_approval_settles|intros _];
    eapply settles_bind; [by apply successor_gate_settles|intros Hm];
    apply consume_live; [done|done|by intros ?? [= <- <-]|by eexists|done]].
  cbn. unfold follows. intuition lia.
Qed.

Lemma matching_terminal_settles r gate gate' turn_state : accepted r ->
  settles (matching_terminal r gate gate' turn_state)
    (is_live (so_state r) = true /\ follows gate gate' /\ is_provider_kind (tgt_turn_kind (so_target r)) = false)
    (consume_result r (StMatchingTerminal (MtOrdinary (mkSource gate (so_revision r)) gate' turn_state))).
Proof.
  intros Ha. unfold matching_terminal.
  eapply settles_iff; [|eapply settles_bind; [apply require_live_settles|intros Hl];
    apply consume_live; [done|done|done|by eexists|done]]. done.
Qed.

Lemma accepted_compaction r : accepted r ->
  is_provider_kind (tgt_turn_kind (so_target r)) = bool_decide (is_Some (successor_compaction_revision (so_admission r))).
Proof.
  intros Ha. apply accepted_iff in Ha as [_ ((_ & _ & Hw) & _)].
  destruct (so_admission r); destruct Hw as [-> _]; symmetry; [apply bool_decide_eq_false_2; by intros []|apply bool_decide_eq_true_2; by eexists].
Qed.

Lemma provider_matching_terminal_settles r gate turn_state c c' : accepted r -> 0 <= gate -> is_u64 c -> c <> 0 ->
  settles (provider_matching_terminal r gate turn_state c c')
    (is_live (so_state r) = true /\ (exists s, successor_compaction_revision (so_admission r) = Some s /\ s < c')
     /\ gate < U64_MAX /\ follows c c')
    (consume_result r (StMatchingTerminal (MtProviderOperation (mkSource gate (so_revision r)) (gate + 1) turn_state c c'))).
Proof.
  intros Ha Hg Hc Hc0. unfold provider_matching_terminal. pose proof (accepted_compaction r Ha) as Hk.
  destruct (successor_compaction_revision (so_admission r)) as [s|]; [|eapply settles_iff; [|apply settles_fail]; naive_solver].
  rewrite bool_decide_eq_true_2 in Hk by (by eexists).
  eapply settles_iff; [|eapply settles_bind; [apply require_live_settles|intros Hl];
    apply (settles_guard (c' <=? s) InputGateStateConflict _ (s < c')); [rewrite Z.leb_gt; tauto|intros Hs];
    eapply settles_bind; [by apply successor_gate_settles|intros Hm];
    apply consume_live; [done|done|by intros ?? [= <- <-]|by eexists|done]].
  cbn. unfold follows. split; [intros (? & ? & ? & ? & ? & ?)|intros (? & (? & [= <-] & ?) & ? & ?)]; split_and?; eauto; lia.
Qed.

Lemma require_gate_settles r gate : settles (require_gate r gate) (successor_gate_revision (so_admission r) <= gate) tt.
Proof. unfold require_gate. apply settles_guard_ret. rewrite Z.ltb_ge. tauto. Qed.

Lemma stale_binding_settles r : 0 <= tgt_binding_revision (so_target r) ->
  settles (stale_binding r) (tgt_binding_revision (so_target r) < U64_MAX) (tgt_binding_revision (so_target r) + 1).
Proof. exact (successor_gate_settles _). Qed.

Lemma abandon_settles r reason gate turn_state : accepted r -> 0 <= gate -> 0 <= tgt_binding_revision (so_target r) ->
  settles (abandon r reason gate turn_state)
    (is_live (so_state r) = true /\ successor_gate_revision (so_admission r) <= gate < U64_MAX
     /\ tgt_binding_revision (so_target r) < U64_MAX /\ is_provider_kind (tgt_turn_kind (so_target r)) = false)
    (consume_result r (StAbandoned (AbOrdinary (mkSource gate (so_revision r)) reason (gate + 1) (tgt_binding_revision (so_target r) + 1) turn_state))).
Proof.
  intros Ha Hg Hb. unfold abandon.
  eapply settles_iff; [|eapply settles_bind; [apply require_live_settles|intros Hl];
    eapply settles_bind; [apply require_gate_settles|intros _];
    eapply settles_bind; [by apply stale_binding_settles|intros _];
    eapply settles_bind; [by apply successor_gate_settles|intros Hm];
    apply consume_live; [done|done|done|by eexists|done]].
  cbn. unfold follows. intuition lia.
Qed.

Lemma provider_abandon_settles r reason gate turn_state c c' :
  accepted r -> 0 <= gate -> 0 <= tgt_binding_revision (so_target r) -> is_u64 c -> c <> 0 ->
  settles (provider_abandon r reason gate turn_state c c')
    (is_live (so_state r) = true /\ successor_gate_revision (so_admission r) <= gate < U64_MAX
     /\ tgt_binding_revision (so_target r) < U64_MAX /\ is_provider_kind (tgt_turn_kind (so_target r)) = true /\ follows c c')
    (consume_result r (StAbandoned (AbProviderOperation (mkSource gate (so_revision r)) reason (gate + 1)
       (tgt_binding_revision (so_target r) + 1) turn_state c c'))).
Proof.
  intros Ha Hg Hb Hc Hc0. unfold provider_abandon.
  eapply settles_iff; [|eapply settles_bind; [apply require_live_settles|intros Hl];
    eapply settles_bind; [apply require_gate_settles|intros _];
    eapply settles_bind; [by apply stale_binding_settles|intros _];
    eapply settles_bind; [by apply successor_gate_settles|intros Hm];
    apply consume_live; [done|done|by intros ?? [= <- <-]|by eexists|done]].
  cbn. unfold follows. intuition lia.
Qed.

(** ** Histories *)

Definition is_rev64 (v : Z) : Prop := is_u64 v /\ v <> 0.

(** A [StopCauseSet]. *)
Definition cause_set (s : Z) : Prop := is_u16 s /\ s <= U8_MAX /\ from_bits s = Ok s.

(** The mutations of the program.  What they read of the other records of the store (the gate, the
    next route generation, the turn state, the compaction record) is an argument of each. *)
Inductive disposed (r : StopOperationRecord) : StopOperationRecord -> Prop :=
  | disp_reopen gate generation r' : 1 <= gate -> safe_reopen r gate generation = Some (Ok r') -> disposed r r'
  | disp_provider_reopen gate c c' r' : 1 <= gate -> is_rev64 c ->
      provider_safe_reopen r gate c c' = Some (Ok r') -> disposed r r'
  | disp_terminal gate gate' turn_state r' : 1 <= gate -> matching_terminal r gate gate' turn_state = Some (Ok r') -> disposed r r'
  | disp_provider_terminal gate turn_state c c' r' : 1 <= gate -> is_rev64 c ->
      provider_matching_terminal r gate turn_state c c' = Some (Ok r') -> disposed r r'
  | disp_abandon reason gate turn_state r' : 1 <= gate -> abandon r reason gate turn_state = Some (Ok r') -> disposed r r'
  | disp_provider_abandon reason gate turn_state c c' r' : 1 <= gate -> is_rev64 c ->
      provider_abandon r reason gate turn_state c c' = Some (Ok r') -> disposed r r'.

Inductive history : StopOperationRecord -> Prop :=
  | hist_admitted id t w s r :
      cause_set s -> 1 <= tgt_binding_revision t -> admitted id t w s = Some (Ok r) -> history r
  | hist_join r c r' : history r -> join_cause r c = Some (Ok r') -> history r'
  | hist_claim r attempt r' : history r -> claim_dispatch r attempt = Some (Ok r') -> history r'
  | hist_disposed r r' : history r -> disposed r r' -> history r'.

(** What the mutations guarantee of a record beyond what its constructor checks: a reopened stop
    has no interrupting approval and a route at its first revision; a stop that ended with its
    provider operation saw the compaction record move on; an abandoned stop knew the gate of its
    admission and left the next binding. *)
Definition state_made (r : StopOperationRecord) : Prop :=
  match so_state r with
  | StAdmitted | StDispatchClaimed => True
  | StSafeReopened w =>
      first_revision (so_firsts r) InterruptingApproval = None
      /\ match w with SrOrdinary _ _ route => rh_revision route = FIRST_ROUTE_REVISION | SrProviderOperation _ _ _ _ => True end
  | StMatchingTerminal (MtOrdinary _ _ _) => True
  | StMatchingTerminal (MtProviderOperation _ _ _ _ c') =>
      exists s, successor_compaction_revision (so_admission r) = Some s /\ s < c'
  | StAbandoned (AbOrdinary source _ _ binding _) | StAbandoned (AbProviderOperation source _ _ binding _ _ _) =>
      successor_gate_revision (so_admission r) <= ds_gate source /\ follows (tgt_binding_revision (so_target r)) binding
  end.
Definition mutation_made (r : StopOperationRecord) : Prop :=
  state_made r /\ 1 <= tgt_binding_revision (so_target r) /\ (forall source, disposition_source (so_state r) = Some source -> 1 <= ds_gate source).

Lemma for_admission_nonempty s : cause_set s -> has_admission_cause (for_admission s) = true.
Proof.
  intros ([H0 _] & H8 & Hb). unfold from_bits in Hb. destruct (Z.eqb_spec s 0) as [|Hn]; [done|].
  destruct (Z.eqb_spec (Z.land s (Z.lxor ALL_BITS U8_MAX)) 0) as [Hz|]; [|done]. clear Hb.
  apply has_admission_iff.
  destruct (contains s SelectedOperationControl) eqn:E1; [exists SelectedOperationControl; cbn; by rewrite E1|].
  destruct (contains s DiagnosticControl) eqn:E2; [exists DiagnosticControl; cbn; by rewrite E2|].
  destruct (contains s HealthyHomeWindowClose) eqn:E3; [exists HealthyHomeWindowClose; cbn; by rewrite E3|].
  destruct (contains s InterruptingApproval) eqn:E4; [exists InterruptingApproval; cbn; by rewrite E4|].
  exfalso. unfold contains in *. rewrite negb_false_iff, Z.eqb_eq in E1, E2, E3, E4.
  assert (Z.land s 255 = 0) as Hall.
  { change 255 with (Z.lor (Z.lor (Z.lor (Z.lor (bit SelectedOperationControl) (bit DiagnosticControl))
      (bit HealthyHomeWindowClose)) (bit InterruptingApproval)) (Z.lxor ALL_BITS U8_MAX)).
    by rewrite !Z.land_lor_distr_r, E1, E2, E3, E4, Hz. }
  change 255 with (Z.ones 8) in Hall. rewrite Z.land_ones in Hall by lia.
  rewrite Z.mod_small in Hall by lia. lia.
Qed.

Lemma for_admission_slot s c :
  first_revision (for_admission s) c = if contains s c then Some FIRST else None.
Proof. by destruct c. Qed.

Lemma admitted_settles id t w s :
  cause_set s ->
  settles (admitted id t w s) (admission_ok id t w) (mkStop id t w FIRST (for_admission s) None StAdmitted).
Proof.
  intros Hs. unfold admitted. eapply settles_iff; [|apply new_record_settles].
  - unfold record_ok; cbn. unfold ledger_ok.
    assert (transitions FIRST (for_admission s) None StAdmitted ≡ₚ seqZ 2 (FIRST - 1)).
    { unfold transitions, disposition_transitions; cbn [is_live claim_transitions].
      rewrite !app_nil_r. unfold for_admission. rewrite cause_transitions_slots.
      repeat case_match; done. }
    pose proof (for_admission_nonempty s Hs). unfold FIRST in *. intuition lia.
  - unfold record_typed, revisions_typed, is_u64, FIRST; cbn. split_and!; try done.
    intros c v. rewrite for_admission_slot. case_match; [|done]. intros [= <-]. unfold FIRST. lia.
Qed.

(** The disposition of an accepted record is accepted when its witness fits. *)
Lemma consumed_accepted r s gate gate' : accepted r -> is_live (so_state r) = true ->
  disposition_source s = Some (mkSource gate (so_revision r)) -> consumed_gate s = Some gate' -> follows gate gate' ->
  (forall c c', state_compaction s = Some (c, c') -> is_rev64 c) ->
  match state_compaction s with
  | Some (c, c') => is_provider_kind (tgt_turn_kind (so_target r)) = true /\ follows c c'
  | None => is_provider_kind (tgt_turn_kind (so_target r)) = false
  end -> accepted (consume_result r s).
Proof.
  intros Ha Hl Hd Hg Hf Hc Hk. pose proof (accepted_bounds r Ha).
  apply consume_accepted; [done|done|by destruct s| |].
  - split; [intros src; rewrite Hd; intros [= <-]; cbn; unfold is_u64; lia|exact Hc].
  - unfold consumed_ok. rewrite Hd, Hg. split_and!; [|done|done]. unfold follows; cbn; lia.
Qed.

Ltac consumed_tac := eapply consumed_accepted;
  [done|done|reflexivity|reflexivity|first [done|cbn; unfold follows; lia]|intros ?? ?; simplify_eq/=; done|done].

Ltac made_tac := unfold mutation_made, state_made; cbn;
  split_and!; first [done|lia|by intros ? [= <-]|unfold follows; lia|by eexists|intros ? ?; simplify_eq/=; cbn; lia|eauto].

Lemma disposed_made r r' : accepted r -> 1 <= tgt_binding_revision (so_target r) -> disposed r r' -> accepted r' /\ mutation_made r'.
Proof.
  intros Ha Hb Hd. assert (forall P s, settles (E := StopMutationError) (Some (Ok r')) P (consume_result r s) -> r' = consume_result r s /\ P) as Hr
    by (intros P s [[HP [= ->]]|[_ [e He]]]; done).
  destruct Hd as [gate gen r' Hg H|gate c c' r' Hg Hc H|gate gate' ts r' Hg H|gate ts c c' r' Hg Hc H|why gate ts r' Hg H|why gate ts c c' r' Hg Hc H].
  - pose proof (safe_reopen_settles r gate gen Ha ltac:(lia)) as Hs. rewrite H in Hs. apply Hr in Hs as [-> (Hl & Happ & ? & ?)].
    split; [consumed_tac|]. made_tac.
  - pose proof (provider_safe_reopen_settles r gate c c' Ha ltac:(lia) (proj1 Hc) (proj2 Hc)) as Hs. rewrite H in Hs. apply Hr in Hs as [-> (Hl & Happ & ? & ? & ?)].
    split; [consumed_tac|]. made_tac.
  - pose proof (matching_terminal_settles r gate gate' ts Ha) as Hs. rewrite H in Hs. apply Hr in Hs as [-> (Hl & ? & ?)].
    split; [consumed_tac|]. made_tac.
  - pose proof (provider_matching_terminal_settles r gate ts c c' Ha ltac:(lia) (proj1 Hc) (proj2 Hc)) as Hs. rewrite H in Hs. apply Hr in Hs as [-> (Hl & (s & Hs & ?) & ? & ?)].
    split; [eapply consumed_accepted; [done|done|reflexivity|reflexivity|cbn; unfold follows; lia|by intros ?? [= <- <-]|]|].
    + split; [|done]. rewrite accepted_compaction by done. apply bool_decide_eq_true_2. rewrite Hs. by eexists.
    + made_tac.
  - pose proof (abandon_settles r why gate ts Ha ltac:(lia) ltac:(lia)) as Hs. rewrite H in Hs. apply Hr in Hs as [-> (Hl & [? ?] & ? & ?)].
    split; [consumed_tac|]. made_tac.
  - pose proof (provider_abandon_settles r why gate ts c c' Ha ltac:(lia) ltac:(lia) (proj1 Hc) (proj2 Hc)) as Hs. rewrite H in Hs. apply Hr in Hs as [-> (Hl & [? ?] & ? & ? & ?)].
    split; [consumed_tac|]. made_tac.
Qed.

Lemma live_made r : is_live (so_state r) = true -> 1 <= tgt_binding_revision (so_target r) -> mutation_made r.
Proof. intros Hl Hb. unfold mutation_made, state_made. by destruct (so_state r). Qed.

Lemma history_made r : history r -> accepted r /\ mutation_made r.
Proof.
  induction 1 as [id t w s r Hs Hb Hr|r c r' _ [IH (_ & Hb & _)] Hr|r a r' _ [IH (_ & Hb & _)] Hr|r r' _ [IH (_ & Hb & _)] Hd].
  - assert (r = mkStop id t w FIRST (for_admission s) None StAdmitted) as ->
      by (by eapply settles_val; [apply (admitted_settles id t w s Hs)|]).
    split; [|by apply live_made]. split; [|done]. unfold record_typed, revisions_typed, is_u64, FIRST; cbn. split_and!; try done.
    intros c v. rewrite for_admission_slot. case_match; [|done]. intros [= <-]. unfold FIRST. lia.
  - rewrite join_cause_eq in Hr by done. destruct (is_live (so_state r)) eqn:Hl; [|done].
    cbn in Hr. case_bool_decide; [|done]. simplify_eq. split; [by apply join_accepted|by apply live_made].
  - rewrite claim_dispatch_eq in Hr by done. destruct (so_state r) eqn:Hs; simplify_eq.
    split; [by apply claim_accepted|by apply live_made].
  - by eapply disposed_made.
Qed.

(** Every accepted record beyond the first has an accepted predecessor. *)
Lemma previous_typed id t w rev f claim s f' claim' s' :
  record_typed (mkStop id t w rev f claim s) -> 2 <= rev -> state_typed s' ->
  (forall c v, first_revision f' c = Some v -> first_revision f c = Some v) ->
  (forall c, claim' = Some c -> claim = Some c) ->
  record_typed (mkStop id t w (rev - 1) f' claim' s').
Proof.
  intros [([? ?] & ? & Hf & Hc) _] Hr Hs Hf' Hc'. unfold record_typed, revisions_typed, is_u64 in *; cbn in *.
  split; [|done]. split_and!; [lia..| |]; intros; [eapply Hf, Hf'|eapply Hc, Hc']; eauto.
Qed.

(** The mutation that wrote a disposition. *)
Lemma made_disposed r s : accepted r -> is_live (so_state r) = true -> is_live s = false ->
  accepted (consume_result r s) -> mutation_made (consume_result r s) -> disposed r (consume_result r s).
Proof.
  intros Ha Hl Hs Ha' (Hm & Hb & Hg). cbn in Hb, Hg. pose proof Ha' as Hok.
  apply accepted_iff in Hok as [[_ [Hsrc Hc]] (_ & _ & Hcons & _)]. cbn in Hsrc, Hc, Hcons, Hm. unfold consumed_ok in Hcons.
  assert (forall a, follows a (so_revision r + 1) -> a = so_revision r) as Hrev by (unfold follows; lia).
  destruct s as [| |[[g v] g' [gen rr]|[g v] g' c c']|[[g v] g' ts|[g v] g' ts c c']|[[g v] why g' b ts|[g v] why g' b ts c c']]; try done; cbn in *;
    destruct Hcons as (Hv%Hrev & Hgg & Hk); subst v; pose proof (Hg _ eq_refl) as Hg1; cbn in Hg1; pose proof Hgg as [-> ?].
  - destruct Hm as [Happ ->]. eapply (disp_reopen r g gen); [done|]. apply (settles_Ok _ _ _ (safe_reopen_settles r g gen Ha ltac:(lia))). split_and!; try done. lia.
  - destruct Hm as [Happ _]. destruct Hk. pose proof (Hc _ _ eq_refl) as [? ?]. eapply (disp_provider_reopen r g c c'); [done|done|].
    apply (settles_Ok _ _ _ (provider_safe_reopen_settles r g c c' Ha ltac:(lia) ltac:(done) ltac:(done))). split_and!; try done. lia.
  - eapply (disp_terminal r g (g + 1) ts); [done|]. apply (settles_Ok _ _ _ (matching_terminal_settles r g (g + 1) ts Ha)). done.
  - destruct Hk. pose proof (Hc _ _ eq_refl) as [? ?]. eapply (disp_provider_terminal r g ts c c'); [done|done|].
    apply (settles_Ok _ _ _ (provider_matching_terminal_settles r g ts c c' Ha ltac:(lia) ltac:(done) ltac:(done))). split_and!; try done. lia.
  - destruct Hm as [? [-> ?]]. eapply (disp_abandon r why g ts); [done|]. apply (settles_Ok _ _ _ (abandon_settles r why g ts Ha ltac:(lia) ltac:(lia))). split_and!; try done; lia.
  - destruct Hm as [? [-> ?]]. destruct Hk. pose proof (Hc _ _ eq_refl) as [? ?]. eapply (disp_provider_abandon r why g ts c c'); [done|done|].
    apply (settles_Ok _ _ _ (provider_abandon_settles r why g ts c c' Ha ltac:(lia) ltac:(lia) ltac:(done) ltac:(done))). split_and!; try done; lia.
Qed.

Lemma consumed_history id t w rev f claim s :
  let r := mkStop id t w rev f claim s in
  accepted r -> mutation_made r -> is_live s = false ->
  exists r0, accepted r0 /\ mutation_made r0 /\ so_revision r0 = rev - 1 /\ (history r0 -> history r).
Proof.
  intros r Ha Hm Hs. pose proof (accepted_bounds r Ha) as Hb. cbn in Hb.
  pose proof (accepted_state_typed r Ha) as Hty. cbn in Hty.
  set (r0 := mkStop id t w (rev - 1) f claim (if claim then StDispatchClaimed else StAdmitted)).
  assert (is_live (so_state r0) = true) as Hl0 by (by destruct claim).
  pose proof Ha as Hok. apply accepted_iff in Hok as [Ht (H1 & H2 & H3 & H4)]. cbn in *.
  assert (2 <= rev) as Hr2.
  { destruct H4 as (_ & _ & Hp). unfold transitions, disposition_transitions in Hp. rewrite Hs in Hp.
    assert (rev ∈ seqZ 2 (rev - 1)) as Hin by (rewrite <- Hp; set_solver).
    apply elem_of_seqZ in Hin. lia. }
  assert (rev - 1 + 1 = rev) as Hrev by lia.
  assert (accepted r0) as Ha0.
  { apply accepted_iff. split.
    - eapply previous_typed; [exact Ht|done| |auto..]. destruct claim; by split.
    - split_and!; cbn; [done|by destruct claim|by destruct claim|].
      eapply consume_ledger; [exact Hl0|exact Hs|lia|]. by rewrite Hrev. }
  exists r0. split_and!; [done|apply live_made; [done|by destruct Hm as (_ & ? & _)]|done|]. intros Hh. apply (hist_disposed r0); [done|].
  assert (consume_result r0 s = r) as <- by (unfold consume_result, r, r0; cbn; by rewrite Hrev).
  by apply made_disposed.
Qed.

Lemma live_history id t w rev f claim s :
  let r := mkStop id t w rev f claim s in
  accepted r -> mutation_made r -> is_live s = true -> 2 <= rev ->
  exists r0, accepted r0 /\ mutation_made r0 /\ so_revision r0 = rev - 1 /\ (history r0 -> history r).
Proof.
  intros r Ha (_ & Hbind & _) Hs Hr. pose proof (accepted_bounds r Ha) as Hb. cbn in Hb.
  pose proof (accepted_state_typed r Ha) as Hty. cbn in Hty.
  pose proof Ha as Hok. apply accepted_iff in Hok as [Ht (H1 & H2 & H3 & H4)]. cbn in *.
  assert (rev - 1 + 1 = rev) as Hrev by lia.
  assert (rev ∈ transitions rev f claim s) as Hin.
  { destruct H4 as (_ & _ & Hp). rewrite Hp. apply elem_of_seqZ. lia. }
  unfold transitions, disposition_transitions in Hin. rewrite Hs, app_nil_r in Hin.
  apply elem_of_app in Hin as [Hin|Hin].
  - apply list_elem_of_filter in Hin as [_ Hin]. apply list_elem_of_omap in Hin as (c & _ & Hc).
    set (r0 := mkStop id t w (rev - 1) (set_slot f c None) claim s).
    assert (first_revision (set_slot f c None) c = None) as Hnone
      by (rewrite first_revision_set; by rewrite decide_True).
    assert (accepted r0) as Ha0.
    { apply accepted_iff. split.
      - eapply previous_typed; [exact Ht|done|done| |auto].
        intros c' v. rewrite first_revision_set. by case_decide.
      - split_and!; cbn; [done|done|by apply live_consumed_ok|].
        apply (join_ledger _ _ c); [done|lia|done|].
        rewrite Hrev, set_slot_twice, <- Hc, set_slot_same. done. }
    exists r0. split_and!; [done|by apply live_made|done|]. intros Hh. apply (hist_join r0 c r Hh).
    rewrite join_cause_eq by done. cbn. rewrite Hs, bool_decide_eq_true_2 by done. cbn.
    unfold join_result, r, r0; cbn. by rewrite Hrev, set_slot_twice, <- Hc, set_slot_same.
  - destruct claim as [[src a]|]; cbn in Hin; [|by apply not_elem_of_nil in Hin].
    apply list_elem_of_singleton in Hin. assert (src = rev - 1) as -> by lia.
    destruct s; try done. set (r0 := mkStop id t w (rev - 1) f None StAdmitted).
    assert (accepted r0) as Ha0.
    { apply accepted_iff. split.
      - eapply previous_typed; [exact Ht|done|by split|auto|done].
      - split_and!; cbn; [done|done|done|]. apply (claim_ledger _ _ a); [lia|]. by rewrite Hrev. }
    exists r0. split_and!; [done|by apply live_made|done|]. intros Hh. apply (hist_claim r0 a r Hh).
    rewrite claim_dispatch_eq by done. cbn. unfold claim_result, r, r0; cbn. by rewrite Hrev.
Qed.

(** A record of revision one is an admission of its causes. *)
Lemma first_history id t w f claim s :
  let r := mkStop id t w 1 f claim s in accepted r -> mutation_made r -> history r.
Proof.
  intros r Ha (_ & Hbind & _). pose proof (accepted_admission r Ha) as Had. cbn in Had.
  apply accepted_iff in Ha as [Ht (H1 & H2 & H3 & H4)]. cbn in *.
  destruct H4 as (_ & _ & Hp). apply Permutation_nil_r in Hp. unfold transitions in Hp.
  apply app_eq_nil in Hp as [Hf Hp]. apply app_eq_nil in Hp as [Hcl Hd].
  unfold disposition_transitions in Hd. destruct (is_live s) eqn:Hs; [|done].
  destruct claim; [done|]. destruct s; try done.
  destruct (admission_causes_spec f Had) as (set & Hset & Hin).
  assert (cause_set set) as Hcs.
  { unfold admission_causes, expect_set in Hset. destruct (from_bits _) as [v|] eqn:E; [|done].
    injection Hset as ->. unfold from_bits in E.
    assert (forall p, is_u16 (collect_bits p) /\ collect_bits p <= U8_MAX) as Hcb.
    { intros p. unfold collect_bits, ALL_CAUSES; cbn [fold_left].
      destruct (p SelectedOperationControl), (p DiagnosticControl), (p HealthyHomeWindowClose),
        (p InterruptingApproval); vm_compute; split; done. }
    split_tests; split_and!; try apply Hcb; unfold from_bits;
      by repeat match goal with H : (if _ then _ else _) = _ |- _ => rewrite H | H : _ = false |- _ => rewrite H end. }
  apply (hist_admitted id t w set r Hcs Hbind).
  assert (for_admission set = f) as Hfa.
  { assert (forall c, first_revision (for_admission set) c = first_revision f c) as Heq.
    { intros c. rewrite for_admission_slot. destruct (contains set c) eqn:E; [symmetry; by apply Hin|].
      destruct (first_revision f c) as [v|] eqn:Ev; [|done]. exfalso.
      assert (v ∉ cause_transitions f ALL_CAUSES) as Hno by (rewrite Hf; apply not_elem_of_nil).
      apply Hno, list_elem_of_filter. split.
      - intros ->. apply Hin in Ev. congruence.
      - apply list_elem_of_omap. exists c. split; [destruct c; set_solver|done]. }
    destruct f as [fs fd fh fi]. unfold for_admission in *.
    pose proof (Heq SelectedOperationControl). pose proof (Heq DiagnosticControl).
    pose proof (Heq HealthyHomeWindowClose). pose proof (Heq InterruptingApproval). cbn in *. congruence. }
  unfold r. rewrite <- Hfa. apply (proj2 (settles_Ok _ _ _ (admitted_settles id t w set Hcs))). done.
Qed.

Lemma made_history r : accepted r -> mutation_made r -> history r.
Proof.
  remember (Z.to_nat (so_revision r)) as n eqn:Hn. revert r Hn.
  induction n as [n IH] using lt_wf_ind. intros r -> Ha Hm.
  pose proof (accepted_bounds r Ha) as Hb. destruct r as [id t w rev f claim s]; cbn in *.
  destruct (Z.eq_dec rev 1) as [->|Hr]; [by apply first_history|].
  assert (exists r0, accepted r0 /\ mutation_made r0 /\ so_revision r0 = rev - 1
    /\ (history r0 -> history (mkStop id t w rev f claim s))) as (r0 & Ha0 & Hm0 & Hr0 & Hstep).
  { destruct (is_live s) eqn:Hs; [apply live_history; [done|done|done|lia]|by apply consumed_history]. }
  apply Hstep, (IH (Z.to_nat (so_revision r0))); [lia|done|done|done].
Qed.

(** ** Theorems *)

(** An accepted stop record has a complete ledger: the transitions after admission (causes
    joined later, the dispatch claim, the disposition) occupy the revisions from 2 to the current
    one, each exactly once; hence the record never passes revision 6, and its derived cause sets
    are the published causes and the causes of admission, without a panic. *)
Theorem stop_ledger_contiguous r :
  accepted r ->
  transitions (so_revision r) (so_firsts r) (so_claim r) (so_state r) ≡ₚ seqZ 2 (so_revision r - 1)
  /\ 1 <= so_revision r <= 6
  /\ (exists s, causes (so_firsts r) = Some s
        /\ forall c, contains s c = true <-> is_Some (first_revision (so_firsts r) c))
  /\ (exists s, admission_causes (so_firsts r) = Some s
        /\ forall c, contains s c = true <-> first_revision (so_firsts r) c = Some FIRST).
Proof.
  intros Ha. pose proof (accepted_admission r Ha) as Had. split_and!.
  - by apply accepted_iff in Ha as [_ (_ & _ & _ & _ & _ & ?)].
  - by apply accepted_bounds.
  - by apply accepted_bounds.
  - by apply causes_spec.
  - by apply admission_causes_spec.
Qed.



(** The constructor alone accepts more: a stop with an interrupting approval, reopened. *)
Definition approved_reopened : StopOperationRecord :=
  mkStop (mkStopId (replicate 16 x01) (replicate 16 x09))
    (mkStopTarget (replicate 16 x01) (replicate 16 x02) OrdinaryUser 3 (replicate 16 x04) (replicate 16 x05) (mkLoaded 1 1) [x61] [x62])
    (AdmOrdinary 4 (mkRouteHead 2 7) 5 (mkRouteHead 2 8)) 2 (mkFirsts None None None (Some 1)) None
    (StSafeReopened (SrOrdinary (mkSource 5 1) 6 (mkRouteHead 3 1))).
Lemma approved_reopening_accepted : accepted approved_reopened /\ ~ history approved_reopened.
Proof.
  split; [|intros [_ ([Hn _] & _)]%history_made; done]. split; [|vm_compute; reflexivity].
  unfold record_typed, revisions_typed, state_typed, is_u64; cbn. split_and!; try lia; try done; [intros [] v Hv; cbn in Hv; simplify_eq; lia|].
  intros src [= <-]. cbn. lia.
Qed.

(** ** Witnesses *)

Definition sample_target : StopOperationTarget :=
  mkStopTarget (replicate 16 x01) (replicate 16 x02) OrdinaryUser 3 (replicate 16 x04)
    (replicate 16 x05) (mkLoaded 1 1) [x61] [x62].
Definition sample_stop : StopOperationRecord :=
  mkStop (mkStopId (replicate 16 x01) (replicate 16 x09)) sample_target
    (AdmOrdinary 4 (mkRouteHead 2 7) 5 (mkRouteHead 2 8)) 3
    (mkFirsts (Some 1) None (Some 2) None) (Some (mkClaim 2 (replicate 16 x0a))) StDispatchClaimed.

Lemma sample_stop_accepted : accepted sample_stop.
Proof.
  split; [|vm_compute; reflexivity]. unfold record_typed, revisions_typed, is_u64; cbn.
  split_and!; try lia; try done.
  - intros [] v Hv; cbn in Hv; simplify_eq; lia.
  - intros c [= <-]. cbn. lia.
Qed.

Lemma stop_ledger_contiguous_witness : so_revision sample_stop <= 6.
Proof.
  assert (accepted sample_stop) as Ha by apply sample_stop_accepted.
  exact (proj2 (proj1 (proj2 (stop_ledger_contiguous sample_stop Ha)))).
Defined.

