(* ===== verification/StopCodec.v ===== *)
(** * The stop-operation family: keys and records on disk

    [syndic-storage]: [codec/primary/stop.rs] and [codec/primary/stop/state.rs].  The decoder
    reads the fields, runs the constructor of the record and only then refuses trailing bytes;
    the theorem says it accepts exactly the encodings of the records of the program. *)

From stdpp Require Import prelude strings.
From S2P Require Import Prelude.
From S2P Require Import Bytes.
From S2P Require Import ModelIds.
From S2P Require Import SyndicValues.
From S2P Require Import SyndicParts.
From S2P Require Import StopOperation.
From S2P Require Import StopProofs.

(** ** Keys *)

Definition enc_stop_id (id : StopOperationId) : list byte := enc_id (stop_thread id) ++ stop_nonce id.
Definition dec_stop_id : decoder StopOperationId :=
  thread ← dec_id; nonce ← d_fixed16; mret (mkStopId thread nonce).

(** [encode_key], [decode_key] of the family, and the bounds of its scans. *)
Definition encode_key (id : StopOperationId) : list byte := enc_stop_id id.
Definition decode_key (bs : list byte) : result CodecError StopOperationId := run_decoder dec_stop_id bs.
Definition first_stop_id : StopOperationId := mkStopId (replicate 16 x00) (replicate 16 x00).
Definition last_stop_id : StopOperationId := mkStopId (replicate 16 xff) (replicate 16 xff).

(** ** Targets and admission *)

Definition enc_stop_turn_kind (k : TurnKind) : list byte :=
  match k with
  | OrdinaryUser => e_u8 0
  | BerylLifecycleContinuation => e_u8 2
  | BerylDiscussionHandoff => e_u8 3
  | ProviderOperation kind => e_u8 1 ++ e_u8 (match kind with OpContextCompaction => 0 end)
  end.
Definition dec_stop_turn_kind : decoder TurnKind :=
  tag ← d_u8;
  match tag with
  | 0 => mret OrdinaryUser
  | 1 =>
      tag ← d_u8;
      match tag with
      | 0 => mret (ProviderOperation OpContextCompaction)
      | _ => refuse (InvalidTag "stop provider-operation kind" tag)
      end
  | 2 => mret BerylLifecycleContinuation
  | 3 => mret BerylDiscussionHandoff
  | _ => refuse (InvalidTag "stop turn kind" tag)
  end.

Definition enc_stop_target (t : StopOperationTarget) : list byte :=
  enc_id (tgt_thread t) ++ enc_id (tgt_turn t) ++ enc_stop_turn_kind (tgt_turn_kind t)
  ++ enc_rev (tgt_binding_revision t) ++ enc_id (tgt_snapshot t) ++ tgt_runtime t
  ++ enc_loaded_generation (tgt_loaded t) ++ enc_external (tgt_cas_thread t)
  ++ enc_external (tgt_cas_turn t).
Definition dec_stop_target : decoder StopOperationTarget :=
  thread ← dec_id;
  turn ← dec_id;
  kind ← dec_stop_turn_kind;
  binding ← dec_rev "binding revision";
  snapshot ← dec_id;
  runtime ← d_fixed16;
  loaded ← dec_loaded_generation;
  cas_thread ← dec_cas_thread;
  cas_turn ← dec_cas_turn;
  mret (mkStopTarget thread turn kind binding snapshot runtime loaded cas_thread cas_turn).

Definition enc_route_head (h : AcceptedRouteHeadProof) : list byte :=
  enc_rev (rh_generation h) ++ enc_rev (rh_revision h).
Definition dec_route_head : decoder AcceptedRouteHeadProof :=
  generation ← dec_rev "accepted-route generation";
  revision ← dec_rev "accepted-route revision";
  mret (mkRouteHead generation revision).

Definition dec_gate_rev : decoder Z := dec_rev "input-gate revision".

Definition enc_admission_witness (w : StopAdmissionWitness) : list byte :=
  match w with
  | AdmOrdinary gate route gate' route' =>
      e_u8 0 ++ enc_rev gate ++ enc_route_head route ++ enc_rev gate' ++ enc_route_head route'
  | AdmProviderOperation gate gate' c c' =>
      e_u8 1 ++ enc_rev gate ++ enc_rev gate' ++ e_u64 c ++ e_u64 c'
  end.
Definition dec_admission_witness : decoder StopAdmissionWitness :=
  tag ← d_u8;
  match tag with
  | 0 =>
      gate ← dec_gate_rev; route ← dec_route_head;
      gate' ← dec_gate_rev; route' ← dec_route_head;
      mret (AdmOrdinary gate route gate' route')
  | 1 =>
      gate ← dec_gate_rev; gate' ← dec_gate_rev;
      c ← dec_rev "stop admission source compaction revision";
      c' ← dec_rev "stop admission successor compaction revision";
      mret (AdmProviderOperation gate gate' c c')
  | _ => refuse (InvalidTag "stop admission witness" tag)
  end.

(** ** Cause slots and the claim *)

Definition enc_slot (v : option Z) : list byte := e_u64 (default 0 v).
Definition dec_slot : decoder (option Z) :=
  revision ← d_u64;
  if revision =? 0 then mret None
  else
    v ← checked "stop cause first-publication revision" (new_stop_revision revision);
    mret (Some v).

Definition enc_cause_first_revisions (f : StopCauseFirstRevisions) : list byte :=
  concat ((fun c => enc_slot (first_revision f c)) <$> ALL_CAUSES).
Definition dec_cause_first_revisions : decoder StopCauseFirstRevisions :=
  s ← dec_slot; d ← dec_slot; h ← dec_slot; i ← dec_slot;
  checked "stop cause first-publication revisions" (new_first_revisions s d h i).

Definition dec_stop_rev (kind : string) : decoder Z :=
  v ← d_u64; checked kind (new_stop_revision v).

Definition enc_dispatch_claim (c : option StopDispatchClaimWitness) : list byte :=
  match c with
  | None => e_u8 0
  | Some c => e_u8 1 ++ e_u64 (claim_source c) ++ claim_attempt c
  end.
Definition dec_dispatch_claim : decoder (option StopDispatchClaimWitness) :=
  tag ← d_u8;
  match tag with
  | 0 => mret None
  | 1 =>
      source ← dec_stop_rev "stop dispatch-claim source revision";
      attempt ← d_fixed16;
      mret (Some (mkClaim source attempt))
  | _ => refuse (InvalidTag "stop dispatch claim" tag)
  end.

(** ** States *)

Definition enc_disposition_source (s : StopDispositionSource) : list byte :=
  enc_rev (ds_gate s) ++ e_u64 (ds_stop s).
Definition dec_disposition_source : decoder StopDispositionSource :=
  gate ← dec_gate_rev; stop ← dec_stop_rev "stop disposition revision"; mret (mkSource gate stop).

Definition abandonment_reason_tag (r : StopAbandonmentReason) : Z :=
  match r with
  | ProviderRejectedBeforeCoreInterrupt => 0 | TargetAuthorityLost => 1 | StartupProcessGenerationLost => 2
  end.
Definition abandonment_reason_of (t : Z) : option StopAbandonmentReason :=
  match t with
  | 0 => Some ProviderRejectedBeforeCoreInterrupt | 1 => Some TargetAuthorityLost
  | 2 => Some StartupProcessGenerationLost | _ => None
  end.
Definition enc_abandonment_reason := enc_enum abandonment_reason_tag.
Definition dec_abandonment_reason := dec_enum "stop abandonment reason" abandonment_reason_of.

Definition enc_stop_state (s : StopOperationState) : list byte :=
  match s with
  | StAdmitted => e_u8 0
  | StDispatchClaimed => e_u8 1
  | StSafeReopened w =>
      e_u8 2 ++ enc_disposition_source (reopen_source w) ++ enc_rev (reopen_gate w)
      ++ match w with
         | SrOrdinary _ _ route => e_u8 0 ++ enc_route_head route
         | SrProviderOperation _ _ c c' => e_u8 1 ++ e_u64 c ++ e_u64 c'
         end
  | StMatchingTerminal w =>
      e_u8 3 ++ enc_disposition_source (terminal_source w) ++ enc_rev (terminal_gate w)
      ++ match w with
         | MtOrdinary _ _ turn_state => enc_rev turn_state ++ e_u8 0
         | MtProviderOperation _ _ turn_state c c' => enc_rev turn_state ++ e_u8 1 ++ e_u64 c ++ e_u64 c'
         end
  | StAbandoned w =>
      e_u8 4 ++ enc_disposition_source (abandonment_source w)
      ++ match w with
         | AbOrdinary _ reason gate binding turn_state =>
             enc_abandonment_reason reason ++ enc_rev gate ++ enc_rev binding ++ enc_rev turn_state
             ++ e_u8 0
         | AbProviderOperation _ reason gate binding turn_state c c' =>
             enc_abandonment_reason reason ++ enc_rev gate ++ enc_rev binding ++ enc_rev turn_state
             ++ e_u8 1 ++ e_u64 c ++ e_u64 c'
         end
  end.

Definition dec_safe_reopened : decoder StopOperationState :=
  source ← dec_disposition_source;
  gate ← dec_gate_rev;
  tag ← d_u8;
  match tag with
  | 0 => route ← dec_route_head; mret (StSafeReopened (SrOrdinary source gate route))
  | 1 =>
      c ← dec_rev "compaction reopen source revision";
      c' ← dec_rev "compaction reopen successor revision";
      mret (StSafeReopened (SrProviderOperation source gate c c'))
  | _ => refuse (InvalidTag "stop safe-reopen target" tag)
  end.
Definition dec_matching_terminal : decoder StopOperationState :=
  source ← dec_disposition_source;
  gate ← dec_gate_rev;
  turn_state ← dec_rev "turn-state revision";
  tag ← d_u8;
  match tag with
  | 0 => mret (StMatchingTerminal (MtOrdinary source gate turn_state))
  | 1 =>
      c ← dec_rev "matching-terminal compaction source revision";
      c' ← dec_rev "matching-terminal compaction successor revision";
      mret (StMatchingTerminal (MtProviderOperation source gate turn_state c c'))
  | _ => refuse (InvalidTag "stop matching-terminal target" tag)
  end.
Definition dec_abandoned : decoder StopOperationState :=
  source ← dec_disposition_source;
  reason ← dec_abandonment_reason;
  gate ← dec_gate_rev;
  binding ← dec_rev "binding revision";
  turn_state ← dec_rev "turn-state revision";
  tag ← d_u8;
  match tag with
  | 0 => mret (StAbandoned (AbOrdinary source reason gate binding turn_state))
  | 1 =>
      c ← dec_rev "abandonment compaction source revision";
      c' ← dec_rev "abandonment compaction successor revision";
      mret (StAbandoned (AbProviderOperation source reason gate binding turn_state c c'))
  | _ => refuse (InvalidTag "stop abandonment target" tag)
  end.
Definition dec_stop_state : decoder StopOperationState :=
  tag ← d_u8;
  match tag with
  | 0 => mret StAdmitted
  | 1 => mret StDispatchClaimed
  | 2 => dec_safe_reopened
  | 3 => dec_matching_terminal
  | 4 => dec_abandoned
  | _ => refuse (InvalidTag "stop-operation state" tag)
  end.

(** ** Records *)

Definition encode_stop_value (r : StopOperationRecord) : list byte :=
  enc_stop_id (so_id r) ++ enc_stop_target (so_target r) ++ enc_admission_witness (so_admission r)
  ++ e_u64 (so_revision r) ++ enc_cause_first_revisions (so_firsts r)
  ++ enc_dispatch_claim (so_claim r) ++ enc_stop_state (so_state r).

(** The fields of a record, before the constructor has seen them. *)
Definition dec_stop_fields : decoder StopOperationRecord :=
  id ← dec_stop_id;
  target ← dec_stop_target;
  admission ← dec_admission_witness;
  revision ← dec_stop_rev "stop-operation revision";
  firsts ← dec_cause_first_revisions;
  claim ← dec_dispatch_claim;
  s ← dec_stop_state;
  mret (mkStop id target admission revision firsts claim s).

Definition decode_stop_value (bs : list byte) : panicky CodecError StopOperationRecord :=
  '(f, rest) ← run (dec_stop_fields bs);
  r ← match new_record (so_id f) (so_target f) (so_admission f) (so_revision f) (so_firsts f)
              (so_claim f) (so_state f) with
      | Some (Ok r) => mret r
      | Some (Err _) => fail (InvalidValue "stop operation")
      | None => panic
      end;
  if bool_decide (rest = []) then mret r else fail TrailingBytes.

(** ** Exactness *)

(** Decoders that read a tag and then the fields of the variant, one after the other. *)
Ltac fields_inv H :=
  repeat first
    [ part_inv H
    | match type of H with context [match ?t with _ => _ end] => tag_cases t end ];
  apply ret_Ok in H as [-> ->].
Ltac fields_run := repeat (run_part; lazy beta iota); done.
Ltac exact_fields :=
  let H := fresh "H" in
  intros bs v rest; split;
  [ intros H; fields_inv H; (split; [hnf; split_and?; done|cbn; rewrite <- ?app_assoc; reflexivity])
  | intros [H ->] ].

Definition stop_id_valid (id : StopOperationId) : Prop := fixed 16 (stop_thread id) /\ fixed 16 (stop_nonce id).
#[global] Instance stop_id_exact : Exact stop_id_valid enc_stop_id dec_stop_id.
Proof. unfold enc_stop_id, dec_stop_id. exact_record. Qed.

#[global] Instance stop_turn_kind_exact : Exact any enc_stop_turn_kind dec_stop_turn_kind.
Proof. unfold dec_stop_turn_kind. exact_fields. destruct v as [| | |[]]; cbn; fields_run. Qed.

Definition target_valid (t : StopOperationTarget) : Prop :=
  fixed 16 (tgt_thread t) /\ fixed 16 (tgt_turn t) /\ any (tgt_turn_kind t) /\ is_rev (tgt_binding_revision t)
  /\ fixed 16 (tgt_snapshot t) /\ fixed 16 (tgt_runtime t) /\ loaded_valid (tgt_loaded t)
  /\ is_external (tgt_cas_thread t) /\ is_external (tgt_cas_turn t).
#[global] Instance stop_target_exact : Exact target_valid enc_stop_target dec_stop_target.
Proof. unfold enc_stop_target, dec_stop_target, dec_cas_thread, dec_cas_turn. exact_record. Qed.

Definition route_head_valid (h : AcceptedRouteHeadProof) : Prop :=
  is_rev (rh_generation h) /\ is_rev (rh_revision h).
#[global] Instance route_head_exact : Exact route_head_valid enc_route_head dec_route_head.
Proof. unfold enc_route_head, dec_route_head. exact_record. Qed.

#[global] Instance gate_rev_exact : Exact is_rev enc_rev dec_gate_rev.
Proof. apply rev_exact. Qed.

Definition admission_valid (w : StopAdmissionWitness) : Prop :=
  match w with
  | AdmOrdinary g r g' r' => is_rev g /\ route_head_valid r /\ is_rev g' /\ route_head_valid r'
  | AdmProviderOperation g g' c c' => is_rev g /\ is_rev g' /\ is_rev c /\ is_rev c'
  end.
#[global] Instance admission_exact : Exact admission_valid enc_admission_witness dec_admission_witness.
Proof.
  unfold dec_admission_witness. exact_fields.
  destruct v; destruct H as (? & ? & ? & ?); cbn [enc_admission_witness]; fields_run.
Qed.

Lemma new_stop_revision_Ok v w : new_stop_revision v = Ok w <-> w = v /\ v <> 0.
Proof. unfold new_stop_revision, nonzero. destruct (Z.eqb_spec v 0); cbn; naive_solver. Qed.

#[global] Instance stop_rev_exact kind : Exact is_rev e_u64 (dec_stop_rev kind).
Proof.
  intros bs v rest. unfold dec_stop_rev, is_rev. split.
  - intros H. part_inv H. apply checked_Ok in H as [H ->]. apply new_stop_revision_Ok in H as [-> H].
    unfold is_u64 in *. split; [lia|done].
  - intros [Hv ->]. run_part. apply checked_Ok. split; [|done]. apply new_stop_revision_Ok. lia.
Qed.

#[global] Instance slot_exact : Exact (opt_valid is_rev) enc_slot dec_slot.
Proof.
  intros bs v rest. unfold dec_slot, enc_slot. split.
  - intros H. part_inv H. destruct (Z.eqb_spec x 0) as [->|Hx].
    + by apply ret_Ok in H as [-> ->].
    + part_inv H. apply ret_Ok in H as [-> ->].
      match goal with H : new_stop_revision _ = Ok _ |- _ => apply new_stop_revision_Ok in H as [-> _] end.
      split; [cbn; unfold is_rev, is_u64 in *; lia|done].
  - intros [Hv ->]. destruct v as [v|]; cbn [from_option id opt_valid] in *.
    + unfold is_rev in Hv. run_part. destruct (Z.eqb_spec v 0); [lia|].
      apply bind_Ok. exists v, rest. split; [|done]. apply checked_Ok. split; [|done].
      by apply new_stop_revision_Ok.
    + run_part. done.
Qed.

Definition firsts_valid (f : StopCauseFirstRevisions) : Prop :=
  (forall c, opt_valid is_rev (first_revision f c)) /\ has_admission_cause f = true.
Lemma new_first_revisions_Ok s d h i f :
  new_first_revisions s d h i = Ok f <-> f = mkFirsts s d h i /\ has_admission_cause f = true.
Proof.
  unfold new_first_revisions. destruct (has_admission_cause (mkFirsts s d h i)) eqn:E; split.
  - by intros [= <-].
  - by intros [-> _].
  - done.
  - intros [-> H]. congruence.
Qed.
#[global] Instance firsts_exact :
  Exact firsts_valid enc_cause_first_revisions dec_cause_first_revisions.
Proof.
  intros bs f rest. unfold dec_cause_first_revisions. split.
  - intros H. do 4 part_inv H. apply checked_Ok in H as [H ->].
    apply new_first_revisions_Ok in H as [-> Ha]. split; [split; [by intros []|done]|].
    unfold enc_cause_first_revisions. cbn. by rewrite app_nil_r, <- !app_assoc.
  - intros [[Hf Ha] ->]. destruct f as [s d h i].
    pose proof (Hf SelectedOperationControl). pose proof (Hf DiagnosticControl).
    pose proof (Hf HealthyHomeWindowClose). pose proof (Hf InterruptingApproval).
    unfold enc_cause_first_revisions, ALL_CAUSES. cbn [fmap list_fmap concat first_revision
      selected_operation_control diagnostic_control healthy_home_window_close interrupting_approval] in *.
    rewrite app_nil_r. do 4 run_part. apply checked_Ok. split; [|done]. by apply new_first_revisions_Ok.
Qed.

Definition claim_valid (c : option StopDispatchClaimWitness) : Prop :=
  match c with Some c => is_rev (claim_source c) /\ fixed 16 (claim_attempt c) | None => True end.
#[global] Instance claim_exact : Exact claim_valid enc_dispatch_claim dec_dispatch_claim.
Proof.
  unfold dec_dispatch_claim. exact_fields.
  destruct v as [[src att]|]; [destruct H as [? ?]|]; cbn [enc_dispatch_claim claim_source claim_attempt];
    fields_run.
Qed.

Definition disposition_source_valid (s : StopDispositionSource) : Prop :=
  is_rev (ds_gate s) /\ is_rev (ds_stop s).
#[global] Instance disposition_source_exact :
  Exact disposition_source_valid enc_disposition_source dec_disposition_source.
Proof. unfold enc_disposition_source, dec_disposition_source. exact_record. Qed.

#[global] Instance abandonment_reason_exact : Exact any enc_abandonment_reason dec_abandonment_reason.
Proof. enum_tags. Qed.

Definition state_valid (s : StopOperationState) : Prop :=
  match s with
  | StAdmitted | StDispatchClaimed => True
  | StSafeReopened (SrOrdinary src g r) => disposition_source_valid src /\ is_rev g /\ route_head_valid r
  | StSafeReopened (SrProviderOperation src g c c') =>
      disposition_source_valid src /\ is_rev g /\ is_rev c /\ is_rev c'
  | StMatchingTerminal (MtOrdinary src g ts) => disposition_source_valid src /\ is_rev g /\ is_rev ts
  | StMatchingTerminal (MtProviderOperation src g ts c c') =>
      disposition_source_valid src /\ is_rev g /\ is_rev ts /\ is_rev c /\ is_rev c'
  | StAbandoned (AbOrdinary src _ g b ts) =>
      disposition_source_valid src /\ is_rev g /\ is_rev b /\ is_rev ts
  | StAbandoned (AbProviderOperation src _ g b ts c c') =>
      disposition_source_valid src /\ is_rev g /\ is_rev b /\ is_rev ts /\ is_rev c /\ is_rev c'
  end.
#[global] Instance stop_state_exact : Exact state_valid enc_stop_state dec_stop_state.
Proof.
  unfold dec_stop_state, dec_safe_reopened, dec_matching_terminal, dec_abandoned. exact_fields.
  destruct v as [| |[]|[]|[]]; cbn [state_valid] in H; destruct_and?;
    cbn [enc_stop_state reopen_source reopen_gate terminal_source terminal_gate abandonment_source]; fields_run.
Qed.

(** The types of the fields of a record. *)
Definition fields_valid (r : StopOperationRecord) : Prop :=
  stop_id_valid (so_id r) /\ target_valid (so_target r) /\ admission_valid (so_admission r)
  /\ is_rev (so_revision r) /\ firsts_valid (so_firsts r) /\ claim_valid (so_claim r)
  /\ state_valid (so_state r).
#[global] Instance stop_fields_exact : Exact fields_valid encode_stop_value dec_stop_fields.
Proof.
  intros bs r rest. unfold dec_stop_fields. split.
  - intros H. parts_inv H. split; [by split_and!|].
    unfold encode_stop_value; cbn [so_id so_target so_admission so_revision so_firsts so_claim so_state].
    rewrite <- !app_assoc. reflexivity.
  - intros [(H1 & H2 & H3 & H4 & H5 & H6 & H7) ->]. destruct r as [id t w rev f claim s].
    cbn [so_id so_target so_admission so_revision so_firsts so_claim so_state] in *.
    unfold encode_stop_value; cbn [so_id so_target so_admission so_revision so_firsts so_claim so_state].
    eapply (bind_run dec_stop_id); [exact H1|rewrite <- ?app_assoc; reflexivity|].
    eapply (bind_run dec_stop_target); [exact H2|reflexivity|].
    eapply (bind_run dec_admission_witness); [exact H3|reflexivity|].
    eapply (bind_run (dec_stop_rev _)); [exact H4|reflexivity|].
    eapply (bind_run dec_cause_first_revisions); [exact H5|reflexivity|].
    eapply (bind_run dec_dispatch_claim); [exact H6|reflexivity|].
    eapply (bind_run dec_stop_state); [exact H7|reflexivity|]. done.
Qed.

Lemma fields_typed r : fields_valid r -> record_typed r.
Proof.
  intros (_ & _ & _ & [? ?] & [Hf _] & Hc & Hs). unfold record_typed, revisions_typed, state_typed, is_u64, is_rev in *.
  split_and!; try lia.
  - intros c v Hv. specialize (Hf c). rewrite Hv in Hf. cbn in Hf. lia.
  - intros c Hcl. rewrite Hcl in Hc. destruct Hc. unfold is_rev in *. lia.
  - intros src E. destruct (so_state r) as [| |[]|[]|[]]; simplify_eq/=; destruct_and?;
      unfold disposition_source_valid, is_rev in *; lia.
  - intros c c' E. destruct (so_state r) as [| |[]|[]|[]]; simplify_eq/=; destruct_and?;
      unfold is_rev in *; lia.
Qed.

Lemma decode_stop_cases bs :
  match dec_stop_fields bs with
  | Ok (f, rest) =>
      fields_valid f /\
      settles (decode_stop_value bs) (accepted f /\ rest = []) f
  | Err e => decode_stop_value bs = Some (Err e)
  end.
Proof.
  unfold decode_stop_value, run. destruct (dec_stop_fields bs) as [[f rest]|e] eqn:E; [|done].
  apply (exact (dec := dec_stop_fields)) in E as [Hf ->]. split; [done|].
  cbn [mbind panicky_bind]. pose proof (fields_typed f Hf) as Ht.
  destruct f as [id t w rev fs claim s].
  destruct (new_record_settles _ _ _ _ _ _ _ Ht) as [[Hok E]|[Hok [e E]]];
    cbn [so_id so_target so_admission so_revision so_firsts so_claim so_state]; rewrite E.
  - assert (accepted (mkStop id t w rev fs claim s)) by (by split).
    case_bool_decide; [left|right]; (split; [tauto|]); [done|by eexists].
  - right. split; [|by eexists]. intros [Ha _]. apply accepted_iff in Ha as [_ ?]. done.
Qed.

(** C10: a byte string decodes to a stop record exactly when the record has the types of the
    program, passes the constructor, and the string is its encoding; so every record a sequence of
    mutations produced is read back as it was written; and decoding any byte string returns, with
    a record or an error. *)
Theorem stop_codec_exact bs r :
  (decode_stop_value bs = Some (Ok r) <-> fields_valid r /\ accepted r /\ bs = encode_stop_value r)
  /\ (history r -> fields_valid r -> decode_stop_value (encode_stop_value r) = Some (Ok r))
  /\ decode_stop_value bs <> None.
Proof.
  assert (forall bs, (decode_stop_value bs = Some (Ok r) <-> fields_valid r /\ accepted r /\ bs = encode_stop_value r) /\ decode_stop_value bs <> None) as Hall.
  2:{ split; [apply Hall|]. split; [|apply Hall]. intros Hh Hf. apply Hall. split_and!; [done| |done]. by apply history_made. }
  clear bs. intros bs. assert (Hc := decode_stop_cases bs). destruct (dec_stop_fields bs) as [[f rest]|e] eqn:E.
  - destruct Hc as [Hf Hc]. split; [|by eapply settles_total].
    apply (exact (dec := dec_stop_fields)) in E as [_ ->]. split.
    + intros Hr. pose proof (settles_val _ _ _ _ Hc Hr) as ->.
      apply (settles_Ok _ _ _ Hc) in Hr as [Ha ->].
      split_and!; [done|done|by rewrite app_nil_r].
    + intros (Hr & Hh & Heq).
      assert (dec_stop_fields (encode_stop_value f ++ rest) = Ok (r, [])) as E1
        by (rewrite Heq; apply (exact (dec := dec_stop_fields)); by rewrite app_nil_r).
      assert (dec_stop_fields (encode_stop_value f ++ rest) = Ok (f, rest)) as E2
        by (by apply (exact (dec := dec_stop_fields))).
      rewrite E2 in E1. injection E1 as -> ->. apply (settles_Ok _ _ _ Hc).
      by split.
  - rewrite Hc. split; [|done]. split; [done|]. intros (Hr & _ & ->).
    assert (dec_stop_fields (encode_stop_value r) = Ok (r, [])) as E1
      by (apply (exact (dec := dec_stop_fields)); by rewrite app_nil_r).
    congruence.
Qed.
