(* ===== verification/SyndicRecords.v ===== *)
(** * Input-gate records and content references

    [syndic-storage]: [error.rs] (the errors of the record constructors), [record/content.rs]
    (the summary and reference of sealed content), [record/input_gate.rs] (the gate of a thread
    and the accounting that relates an observed gate to a later one), their codecs
    ([codec/primary/input_gate.rs], [codec/parts/value/content.rs]), and the two mutations that
    advance a gate held for terminal history: an admission ([mutation/admission/accepted.rs])
    and the release ([mutation/live/complete.rs]).

    The accounting check sees two gates and no history; the theorem says which pairs it accepts
    in terms of the mutations that may lie between them. *)
From stdpp Require Import prelude strings.
From S2P Require Import Prelude.
From S2P Require Import Bytes.
From S2P Require Import ModelIds.
From S2P Require Import SyndicValues.
From S2P Require Import SyndicParts.
From S2P Require Import StopOperation.
From S2P Require Import StopCodec.

Inductive SyndicRecordError :=
  | RecLengthOverflow (kind : string)
  | RecInvalidByteRange (kind : string) (range_start range_end : Z)
  | RecZeroValue (kind : string)
  | RecInvalidMarkdownHeadingLevel (level : Z)
  | RecProjectionSourceLengthMismatch (range_bytes source_bytes : Z)
  | RecMappedByteLengthMismatch (kind : string) (logical_bytes encoded_bytes : Z)
  | RecInvalidProjectionResourceKind
  | RecInvalidResourcePreviewRange (resource_bytes preview_start preview_end : Z)
  | RecInvalidResourceStructure
  | RecInvalidContentEncoding
  | RecBytesTooLong (kind : string) (maximum actual : Z)
  | RecTooManyEntries (kind : string) (maximum actual : Z)
  | RecDuplicateImageMarker (kind : string) (marker_id : list byte)
  | RecSourceIdentityMismatch
  | RecInvalidProviderItemDisposition
  | RecInvalidProviderItemLifecycle
  | RecInvalidTurnCaptureFrontier
  | RecInvalidResolvedRepair
  | RecInvalidRepairGate
  | RecInvalidCompactionOperation
  | RecInvalidImageLabelFrontier
  | RecInvalidDraftImageLabelProtection
  | RecInvalidActivityQueryFrontier
  | RecInvalidActivityQueryLifecycle
  | RecInvalidAcceptedRouteInterval
  | RecInvalidAcceptedRouteAggregates
  | RecInvalidAcceptedRouteSelection
  | RecAcceptedInputAdmissionDraftCollision
  | RecAcceptedInputIdentityMismatch
  | RecInvalidGeneratedHandoffInput
  | RecInvalidProviderObservationFrontier
  | RecEmpty (kind : string)
  | RecNulByte (kind : string) (index : Z).

(** ** Content references *)

Inductive ContentEncoding := ComposerV1 | Utf8V1 | ProviderItemV1.

Record ContentSummary := mkSummary {
  sum_chunk_count : Z;
  sum_piece_count : Z;
  sum_encoded_bytes : Z;
  sum_logical_utf8_bytes : Z;
  sum_atom_count : Z;
  sum_image_marker_count : Z;
  sum_marker_digest : list byte;
  sum_maximum_image_label : option Z;
  sum_digest : list byte }.

Definition new_summary (chunks pieces encoded logical atoms markers : Z) (marker_digest : list byte)
    (label : option Z) (digest : list byte) : result SyndicRecordError ContentSummary :=
  if negb (Bool.eqb (markers =? 0) (bool_decide (label = None)))
  then Err RecInvalidContentEncoding
  else Ok (mkSummary chunks pieces encoded logical atoms markers marker_digest label digest).

Record ContentReference := mkReference {
  ref_id : list byte;
  ref_revision : Z;
  ref_encoding : ContentEncoding;
  ref_summary : ContentSummary }.

(** ** The gate record *)

Record InputGateRecord := mkGate {
  ig_thread : list byte;
  ig_revision : Z;
  ig_state : InputGateState;
  ig_accepted_high_water : Z;
  ig_route_high_water : option Z;
  ig_selected_route : option AcceptedRouteHeadProof;
  ig_live_steering : Z;
  ig_live_next_turn : Z;
  ig_live_bytes : Z }.

#[global] Instance route_head_eq_dec : EqDecision AcceptedRouteHeadProof.
Proof. solve_decision. Defined.
#[global] Instance ContentEncoding_eq_dec : EqDecision ContentEncoding.
Proof. solve_decision. Defined.
#[global] Instance ContentSummary_eq_dec : EqDecision ContentSummary.
Proof. solve_decision. Defined.
#[global] Instance ContentReference_eq_dec : EqDecision ContentReference.
Proof. solve_decision. Defined.
#[global] Instance outcome_eq_dec : EqDecision TurnTerminalOutcome.
Proof. solve_decision. Defined.
#[global] Instance unsupported_eq_dec : EqDecision UnsupportedHistoryReason.
Proof. solve_decision. Defined.
#[global] Instance incomplete_reason_eq_dec : EqDecision TurnIncompleteReason.
Proof. solve_decision. Defined.
#[global] Instance end_status_eq_dec : EqDecision TurnEndStatus.
Proof. solve_decision. Defined.
#[global] Instance witness_eq_dec : EqDecision RepairSourceEventWitness.
Proof. solve_decision. Defined.
#[global] Instance gap_reason_eq_dec : EqDecision RepairCaptureGapReason.
Proof. solve_decision. Defined.
#[global] Instance gap_eq_dec : EqDecision RepairCaptureGap.
Proof. solve_decision. Defined.
#[global] Instance consumed_request_eq_dec : EqDecision ConsumedRepairRequest.
Proof. solve_decision. Defined.
#[global] Instance request_disposition_eq_dec : EqDecision RepairRequestDisposition.
Proof. solve_decision. Defined.
#[global] Instance turn_source_eq_dec : EqDecision CasTurnSource.
Proof. solve_decision. Defined.
#[global] Instance repair_target_eq_dec : EqDecision RepairRequiredTarget.
Proof. solve_decision. Defined.
#[global] Instance gate_state_eq_dec : EqDecision InputGateState.
Proof. solve_decision. Defined.
#[global] Instance gate_eq_dec : EqDecision InputGateRecord.
Proof. solve_decision. Defined.

Definition repair_gate_invalid (s : InputGateState) (revision steering : Z) : bool :=
  match s with
  | GateRepairRequired target =>
      negb (steering =? 0)
      || match rt_request target with
         | Consumed claim => revision <? cr_successor_gate claim
         | Available => false
         end
  | _ => false
  end.

Definition selection_invalid (high_water : option Z) (selected : option AcceptedRouteHeadProof) : bool :=
  match selected, high_water with
  | Some proof, Some high_water => high_water <? rh_generation proof
  | Some _, None => true
  | None, _ => false
  end.

Definition new_gate (thread : list byte) (revision : Z) (s : InputGateState) (accepted : Z)
    (high_water : option Z) (selected : option AcceptedRouteHeadProof)
    (steering next_turn live_bytes : Z) : result SyndicRecordError InputGateRecord :=
  if repair_gate_invalid s revision steering then Err RecInvalidRepairGate
  else
    _ ← ok_or (RecLengthOverflow "live accepted-input count") (checked_add64 steering next_turn);
    if selection_invalid high_water selected then Err RecInvalidAcceptedRouteSelection
    else Ok (mkGate thread revision s accepted high_water selected steering next_turn live_bytes).

Definition idle (thread : list byte) : option InputGateRecord :=
  match new_gate thread 1 GateIdle 0 None None 0 0 0 with Ok g => Some g | Err _ => None end.

Definition next_route_generation (g : InputGateRecord) : result SyndicValueError Z :=
  match ig_route_high_water g with
  | None => Ok 1
  | Some h => ok_or (SvOrdinalExhausted "accepted-route generation") (checked_add64 h 1 ≫= nonzero)
  end.

Definition live_count (g : InputGateRecord) : Z := ig_live_steering g + ig_live_next_turn g.

Inductive TerminalHistoryGateAdvance := Finalizing | Released.
#[global] Instance advance_eq_dec : EqDecision TerminalHistoryGateAdvance.
Proof. solve_decision. Defined.

Definition route_generation_value (g : option Z) : Z := default 0 g.

Definition compatible_terminal_history_accounting (g observed : InputGateRecord) (turn : list byte)
    : option TerminalHistoryGateAdvance :=
  if negb (bool_decide (ig_state observed = GateFinalizingHistory turn))
     || negb (bool_decide (ig_thread observed = ig_thread g))
     || negb (bool_decide (ig_selected_route observed = ig_selected_route g))
     || negb (ig_live_steering observed =? 0)
     || negb (ig_live_steering g =? 0)
     || (ig_live_bytes g <? ig_live_bytes observed)
  then None
  else
    accepted ← checked_sub64 (ig_accepted_high_water g) (ig_accepted_high_water observed);
    next_turn ← checked_sub64 (ig_live_next_turn g) (ig_live_next_turn observed);
    if negb (accepted =? next_turn) then None
    else
      route ← checked_sub64 (route_generation_value (ig_route_high_water g))
                (route_generation_value (ig_route_high_water observed));
      if negb (route =? accepted) then None
      else
        revision ← checked_sub64 (ig_revision g) (ig_revision observed);
        match ig_state g with
        | GateFinalizingHistory current =>
            if bool_decide (current = turn) && (revision =? accepted) then Some Finalizing else None
        | GateIdle =>
            limit ← checked_add64 accepted 1;
            if revision =? limit then Some Released else None
        | _ => None
        end.

Definition is_compatible_finalizing_history_descendant_of (g observed : InputGateRecord)
    (turn : list byte) : bool :=
  bool_decide (ig_state g = GateFinalizingHistory turn)
  && bool_decide (compatible_terminal_history_accounting g observed turn = Some Finalizing).
Definition is_compatible_terminal_history_release_of (g observed : InputGateRecord)
    (turn : list byte) : bool :=
  bool_decide (ig_state g = GateIdle)
  && bool_decide (compatible_terminal_history_accounting g observed turn = Some Released).

(** ** The mutations between two such gates *)

Inductive GateMutationError :=
  | GmRecord (e : SyndicRecordError)
  | GmValue (e : SyndicValueError)
  | GmRevision (e : RevisionError).

Definition lift_error {E E' A} (f : E -> E') (r : result E A) : result E' A :=
  match r with Ok a => Ok a | Err e => Err (f e) end.

(** [AwaitingSteering] and [Steerable] extend the selected route. *)
Definition extends_selected (s : InputGateState) : bool :=
  match s with GateAwaitingSteering _ | GateSteerable _ => true | _ => false end.

(** The gate of [AcceptedRecords]; [current] is the generation it extends, if any, and
    [revision] the revision the route record gets. *)
Definition admitted_gate (thread : list byte) (g : InputGateRecord) (current : option Z)
    (revision logical_bytes : Z) : result GateMutationError InputGateRecord :=
  ordinal ← lift_error GmRecord
              (ok_or (RecLengthOverflow "accepted-input order")
                 (checked_add64 (ig_accepted_high_water g) 1));
  gate_revision ← lift_error GmRevision (checked_next (ig_revision g));
  generation ← match current with
               | Some generation => Ok generation
               | None => lift_error GmValue (next_route_generation g)
               end;
  '(steering, next_turn) ←
    lift_error GmRecord
      (if extends_selected (ig_state g)
       then steering ← ok_or (RecLengthOverflow "live steering count") (checked_add64 (ig_live_steering g) 1);
            Ok (steering, ig_live_next_turn g)
       else next_turn ← ok_or (RecLengthOverflow "live next-turn count") (checked_add64 (ig_live_next_turn g) 1);
            Ok (ig_live_steering g, next_turn));
  live_bytes ← lift_error GmRecord
                 (ok_or (RecLengthOverflow "live accepted-input bytes")
                    (checked_add64 (ig_live_bytes g) logical_bytes));
  lift_error GmRecord
    (new_gate thread gate_revision (ig_state g) ordinal
       (match current with Some _ => ig_route_high_water g | None => Some generation end)
       (if extends_selected (ig_state g) then Some (mkRouteHead generation revision)
        else ig_selected_route g)
       steering next_turn live_bytes).

(** The gate of [TerminalHistoryCompletionRecords]. *)
Definition released_gate (g : InputGateRecord) : result GateMutationError InputGateRecord :=
  revision ← lift_error GmRevision (checked_next (ig_revision g));
  lift_error GmRecord
    (new_gate (ig_thread g) revision GateIdle (ig_accepted_high_water g) (ig_route_high_water g)
       (ig_selected_route g) (ig_live_steering g) (ig_live_next_turn g) (ig_live_bytes g)).

(** ** Codecs *)

Definition content_encoding_tag (e : ContentEncoding) : Z :=
  match e with ComposerV1 => 0 | Utf8V1 => 1 | ProviderItemV1 => 2 end.
Definition content_encoding_of (t : Z) : option ContentEncoding :=
  match t with 0 => Some ComposerV1 | 1 => Some Utf8V1 | 2 => Some ProviderItemV1 | _ => None end.
Definition enc_content_encoding := enc_enum content_encoding_tag.
Definition dec_content_encoding := dec_enum "content encoding" content_encoding_of.

Definition enc_content_summary (s : ContentSummary) : list byte :=
  e_u64 (sum_chunk_count s) ++ e_u64 (sum_piece_count s) ++ e_u64 (sum_encoded_bytes s)
  ++ e_u64 (sum_logical_utf8_bytes s) ++ e_u64 (sum_atom_count s)
  ++ e_u64 (sum_image_marker_count s) ++ sum_marker_digest s
  ++ enc_opt enc_rev (sum_maximum_image_label s) ++ sum_digest s.
Definition dec_content_summary : decoder ContentSummary :=
  chunks ← d_u64; pieces ← d_u64; encoded ← d_u64; logical ← d_u64; atoms ← d_u64;
  markers ← d_u64; marker_digest ← d_fixed32;
  label ← dec_opt "maximum image label" (dec_rev "image-label ordinal");
  digest ← d_fixed32;
  checked "content marker summary"
    (new_summary chunks pieces encoded logical atoms markers marker_digest label digest).

Definition enc_content_ref (r : ContentReference) : list byte :=
  enc_id (ref_id r) ++ enc_rev (ref_revision r) ++ enc_content_encoding (ref_encoding r)
  ++ enc_content_summary (ref_summary r).
Definition dec_content_ref : decoder ContentReference :=
  id ← dec_id; revision ← dec_rev "content revision"; encoding ← dec_content_encoding;
  summary ← dec_content_summary; mret (mkReference id revision encoding summary).

Definition enc_input_gate_record (g : InputGateRecord) : list byte :=
  enc_id (ig_thread g) ++ enc_rev (ig_revision g) ++ enc_input_gate_state (ig_state g)
  ++ e_u64 (ig_accepted_high_water g) ++ enc_opt enc_rev (ig_route_high_water g)
  ++ enc_opt enc_route_head (ig_selected_route g)
  ++ e_u64 (ig_live_steering g) ++ e_u64 (ig_live_next_turn g) ++ e_u64 (ig_live_bytes g).
Definition dec_input_gate_record : decoder InputGateRecord :=
  thread ← dec_id;
  revision ← dec_gate_rev;
  s ← dec_input_gate_state;
  accepted ← d_u64;
  high_water ← dec_opt "input-gate route-generation high-water" (dec_rev "accepted-route generation");
  selected ← dec_opt "input-gate selected route" dec_route_head;
  steering ← d_u64;
  next_turn ← d_u64;
  live_bytes ← d_u64;
  checked "input gate" (new_gate thread revision s accepted high_water selected steering next_turn live_bytes).

(** [encode_value] and [decode_value] of the family. *)
Definition encode_gate_value (g : InputGateRecord) : list byte := enc_input_gate_record g.
Definition decode_gate_value (bs : list byte) : result CodecError InputGateRecord :=
  run_decoder dec_input_gate_record bs.

(** ** Exactness of the codecs *)

#[global] Instance content_encoding_exact : Exact any enc_content_encoding dec_content_encoding.
Proof. enum_tags. Qed.

Definition summary_valid (s : ContentSummary) : Prop :=
  is_u64 (sum_chunk_count s) /\ is_u64 (sum_piece_count s) /\ is_u64 (sum_encoded_bytes s)
  /\ is_u64 (sum_logical_utf8_bytes s) /\ is_u64 (sum_atom_count s)
  /\ is_u64 (sum_image_marker_count s) /\ fixed 32 (sum_marker_digest s)
  /\ opt_valid is_rev (sum_maximum_image_label s) /\ fixed 32 (sum_digest s)
  /\ (sum_image_marker_count s = 0 <-> sum_maximum_image_label s = None).

Lemma new_summary_Ok a b c d e f g h i s :
  new_summary a b c d e f g h i = Ok s <-> s = mkSummary a b c d e f g h i /\ (f = 0 <-> h = None).
Proof.
  unfold new_summary. destruct (Z.eqb_spec f 0) as [->|Hf]; case_bool_decide; cbn; naive_solver.
Qed.

#[global] Instance summary_exact : Exact summary_valid enc_content_summary dec_content_summary.
Proof.
  intros bs s rest. unfold dec_content_summary. split.
  - intros H. do 9 part_inv H. apply checked_Ok in H as [H ->]. apply new_summary_Ok in H as [-> H].
    split; [by split_and!|]. unfold enc_content_summary; cbn [sum_chunk_count sum_piece_count sum_encoded_bytes
      sum_logical_utf8_bytes sum_atom_count sum_image_marker_count sum_marker_digest sum_maximum_image_label sum_digest].
    rewrite <- !app_assoc. reflexivity.
  - intros [(?&?&?&?&?&?&?&?&?&Hm) ->]. destruct s as [a b c d e f g h i].
    cbn [sum_chunk_count sum_piece_count sum_encoded_bytes sum_logical_utf8_bytes sum_atom_count
      sum_image_marker_count sum_marker_digest sum_maximum_image_label sum_digest] in *.
    unfold enc_content_summary; cbn [sum_chunk_count sum_piece_count sum_encoded_bytes
      sum_logical_utf8_bytes sum_atom_count sum_image_marker_count sum_marker_digest sum_maximum_image_label sum_digest].
    do 9 run_part. apply checked_Ok. split; [|done]. by apply new_summary_Ok.
Qed.

Definition reference_valid (r : ContentReference) : Prop :=
  fixed 16 (ref_id r) /\ is_rev (ref_revision r) /\ any (ref_encoding r) /\ summary_valid (ref_summary r).
#[global] Instance reference_exact : Exact reference_valid enc_content_ref dec_content_ref.
Proof. unfold enc_content_ref, dec_content_ref. exact_record. Qed.

(** The gates the constructor admits, and the widths of their fields. *)
Definition gate_admitted (g : InputGateRecord) : Prop :=
  repair_gate_invalid (ig_state g) (ig_revision g) (ig_live_steering g) = false
  /\ ig_live_steering g + ig_live_next_turn g <= U64_MAX
  /\ selection_invalid (ig_route_high_water g) (ig_selected_route g) = false.
Definition gate_typed (g : InputGateRecord) : Prop :=
  fixed 16 (ig_thread g) /\ is_rev (ig_revision g) /\ gate_valid (ig_state g)
  /\ is_u64 (ig_accepted_high_water g) /\ opt_valid is_rev (ig_route_high_water g)
  /\ opt_valid route_head_valid (ig_selected_route g) /\ is_u64 (ig_live_steering g)
  /\ is_u64 (ig_live_next_turn g) /\ is_u64 (ig_live_bytes g).
Definition gate_record_valid (g : InputGateRecord) : Prop := gate_typed g /\ gate_admitted g.

Lemma new_gate_Ok t rev s a h sel st nt lb g :
  new_gate t rev s a h sel st nt lb = Ok g <-> g = mkGate t rev s a h sel st nt lb /\ gate_admitted g.
Proof.
  unfold new_gate, gate_admitted, checked_add64. destruct (repair_gate_invalid s rev st) eqn:Er.
  { split; [done|]. intros [-> [? _]]. cbn in *. congruence. }
  destruct (Z.leb_spec (st + nt) U64_MAX); cbn.
  2: { split; [done|]. intros [-> (_ & ? & _)]. cbn in *. lia. }
  destruct (selection_invalid h sel) eqn:Es.
  { split; [done|]. intros [-> (_ & _ & ?)]. cbn in *. congruence. }
  split; [intros [= <-]; done|]. by intros [-> _].
Qed.

#[global] Instance gate_record_exact : Exact gate_record_valid enc_input_gate_record dec_input_gate_record.
Proof.
  intros bs g rest. unfold dec_input_gate_record. split.
  - intros H. do 9 part_inv H. apply checked_Ok in H as [H ->]. apply new_gate_Ok in H as [-> H].
    split; [by split; [split_and!|]|]. unfold enc_input_gate_record; cbn [ig_thread ig_revision ig_state
      ig_accepted_high_water ig_route_high_water ig_selected_route ig_live_steering ig_live_next_turn ig_live_bytes].
    rewrite <- !app_assoc. reflexivity.
  - intros [[(?&?&?&?&?&?&?&?&?) Ha] ->]. destruct g as [t rev s a h sel st nt lb].
    cbn [ig_thread ig_revision ig_state ig_accepted_high_water ig_route_high_water ig_selected_route
      ig_live_steering ig_live_next_turn ig_live_bytes] in *.
    unfold enc_input_gate_record; cbn [ig_thread ig_revision ig_state ig_accepted_high_water
      ig_route_high_water ig_selected_route ig_live_steering ig_live_next_turn ig_live_bytes].
    do 9 run_part. apply checked_Ok. split; [|done]. by apply new_gate_Ok.
Qed.

(** ** Gates held for terminal history *)

(** The admissions queued one after the other while the gate is held; [sizes] are the logical
    bytes of their contents. *)
Fixpoint admissions (g : InputGateRecord) (sizes : list Z) : result GateMutationError InputGateRecord :=
  match sizes with
  | [] => Ok g
  | size :: sizes => g' ← admitted_gate (ig_thread g) g None 1 size; admissions g' sizes
  end.

Definition held (turn : list byte) (g : InputGateRecord) : Prop :=
  ig_state g = GateFinalizingHistory turn /\ ig_live_steering g = 0.

(** The gate after [n] admissions, with [total] live bytes. *)
Definition advanced (g : InputGateRecord) (n total : Z) : InputGateRecord :=
  mkGate (ig_thread g) (ig_revision g + n) (ig_state g) (ig_accepted_high_water g + n)
    (if n =? 0 then ig_route_high_water g else Some (route_generation_value (ig_route_high_water g) + n))
    (ig_selected_route g) (ig_live_steering g) (ig_live_next_turn g + n) total.

(** The bounds that make an advanced gate one of the program's. *)
Definition within (g : InputGateRecord) (n total : Z) : Prop :=
  ig_revision g + n <= U64_MAX /\ ig_accepted_high_water g + n <= U64_MAX
  /\ route_generation_value (ig_route_high_water g) + n <= U64_MAX
  /\ ig_live_steering g + (ig_live_next_turn g + n) <= U64_MAX /\ is_u64 total.

Lemma route_value_bounds o : opt_valid is_rev o -> 0 <= route_generation_value o <= U64_MAX.
Proof. destruct o; unfold route_generation_value, is_rev; cbn; lia. Qed.

Lemma advanced_valid turn g n total :
  held turn g -> gate_record_valid g -> 0 <= n -> gate_record_valid (advanced g n total) <-> within g n total.
Proof.
  intros [Hs Hl] [(Ht & Hr & Hv & Ha & Hh & Hsel & Hst & Hn & Hb) (Hrep & Hsum & Hinv)] H0.
  pose proof (route_value_bounds _ Hh). unfold gate_record_valid, gate_typed, gate_admitted, within, advanced,
    is_rev, is_u64 in *. cbn. rewrite Hs, Hl in *.
  destruct (Z.eqb_spec n 0) as [->|Hn0].
  - rewrite !Z.add_0_r. naive_solver lia.
  - split; [cbn; unfold is_rev; naive_solver lia|]. intros (?&?&?&?&?). split_and!; try done; try lia.
    + cbn. unfold is_rev. lia.
    + destruct (ig_selected_route g) as [p|], (ig_route_high_water g) as [h|]; cbn in *; try done.
      bool_facts. apply Z.ltb_ge. lia.
Qed.

Lemma next_generation_Ok g n :
  opt_valid is_rev (ig_route_high_water g) ->
  next_route_generation g = Ok n <->
  n = route_generation_value (ig_route_high_water g) + 1
  /\ route_generation_value (ig_route_high_water g) + 1 <= U64_MAX.
Proof.
  unfold next_route_generation, route_generation_value, nonzero, checked_add64.
  destruct (ig_route_high_water g) as [h|]; cbn; unfold is_rev; intros Hh; [|naive_solver lia].
  destruct (Z.leb_spec (h + 1) U64_MAX); cbn; [|naive_solver lia].
  destruct (Z.eqb_spec (h + 1) 0); cbn; [lia|]. split; [intros [= <-]; lia|]. intros [-> _]. done.
Qed.

Lemma checked_add64_eq a b : a + b <= U64_MAX -> checked_add64 a b = Some (a + b).
Proof. intros. by apply checked_add64_Some. Qed.

Lemma lift_error_Ok {E E' A} (f : E -> E') (r : result E A) a : lift_error f r = Ok a <-> r = Ok a.
Proof. destruct r; cbn; naive_solver. Qed.

Lemma checked_next_Ok' r n : is_rev r -> checked_next r = Ok n <-> n = r + 1 /\ r + 1 <= U64_MAX.
Proof.
  unfold checked_next, is_rev, checked_add64, nonzero. intros Hr.
  destruct (Z.leb_spec (r + 1) U64_MAX); cbn; [|naive_solver lia].
  destruct (Z.eqb_spec (r + 1) 0); [lia|]. cbn. split; [intros [= <-]; lia|]. by intros [-> _].
Qed.

Lemma admitted_gate_held turn g size g' :
  held turn g -> gate_record_valid g -> is_u64 size ->
  admitted_gate (ig_thread g) g None 1 size = Ok g' <->
  g' = advanced g 1 (ig_live_bytes g + size) /\ within g 1 (ig_live_bytes g + size).
Proof.
  intros Hheld Hv Hsz. pose proof (advanced_valid turn g 1 (ig_live_bytes g + size) Hheld Hv ltac:(lia)) as Hadv.
  destruct Hheld as [Hs Hl], Hv as [(Ht & Hr & _ & Ha & Hh & _ & _ & Hn & Hb) _].
  unfold admitted_gate. split.
  - intros H. repeat (apply result_bind_Ok in H as (? & ?H & H)).
    rewrite !lift_error_Ok, !ok_or_Ok in *. rewrite checked_next_Ok', next_generation_Ok in * by done.
    rewrite Hs in *. cbn [extends_selected] in *.
    match goal with H : (_ ≫= _) = Ok ?p |- _ => apply result_bind_Ok in H as (? & H & [= <-]) end.
    lazy beta iota in H. apply result_bind_Ok in H as (? & ?H & H).
    rewrite ?lift_error_Ok, ?ok_or_Ok, ?checked_add64_Some in *. destruct_and?. subst.
    apply new_gate_Ok in H as [-> Hadm].
    unfold within, is_u64 in *. unfold gate_admitted in Hadm; cbn in Hadm.
    split; [unfold advanced; by rewrite Hs|]. lia.
  - intros [-> Hw]. destruct (proj2 Hadv Hw) as [_ Hadm].
    destruct Hw as (Hw1 & Hw2 & Hw3 & Hw4 & Hw5). unfold is_u64 in *.
    rewrite checked_add64_eq by lia. cbn [ok_or lift_error mbind result_bind].
    rewrite (proj2 (checked_next_Ok' (ig_revision g) (ig_revision g + 1) Hr)) by lia. cbn [ok_or lift_error mbind result_bind].
    rewrite (proj2 (next_generation_Ok g (route_generation_value (ig_route_high_water g) + 1) Hh)) by lia.
    cbn [ok_or lift_error mbind result_bind].
    rewrite Hs. cbn [extends_selected].
    rewrite checked_add64_eq by lia. cbn [ok_or lift_error mbind result_bind].
    rewrite checked_add64_eq by lia. cbn [ok_or lift_error mbind result_bind].
    apply lift_error_Ok, new_gate_Ok. split; [unfold advanced; by rewrite Hs|done].
Qed.

Lemma advanced_advanced g n m b c : 0 <= n -> 0 <= m -> advanced (advanced g n b) m c = advanced g (n + m) c.
Proof.
  intros Hn Hm. unfold advanced; cbn. rewrite <- !Z.add_assoc. f_equal.
  destruct (Z.eqb_spec (n + m) 0), (Z.eqb_spec n 0) as [->|?], (Z.eqb_spec m 0) as [->|?]; try lia; try done.
  - by rewrite Z.add_0_r.
  - cbn. f_equal. lia.
Qed.

Lemma held_advanced turn g n b : held turn g -> held turn (advanced g n b).
Proof. done. Qed.

Lemma advanced_zero g : advanced g 0 (ig_live_bytes g) = g.
Proof. destruct g; unfold advanced; cbn. by rewrite !Z.add_0_r. Qed.

Lemma within_zero g b : gate_record_valid g -> is_u64 b -> within g 0 b.
Proof.
  intros [(_ & Hr & _ & Ha & Hh & _) (_ & ? & _)] Hb. pose proof (route_value_bounds _ Hh).
  unfold within, is_rev, is_u64 in *. lia.
Qed.

Definition sum_bytes (sizes : list Z) : Z := foldr Z.add 0 sizes.
Lemma sum_bytes_nonneg sizes : Forall is_u64 sizes -> 0 <= sum_bytes sizes.
Proof. induction 1 as [|? ? Hx]; cbn; [done|]. unfold is_u64 in Hx. fold (sum_bytes l). lia. Qed.

Lemma admissions_held turn sizes : forall g g',
  held turn g -> gate_record_valid g -> Forall is_u64 sizes ->
  admissions g sizes = Ok g' <->
  g' = advanced g (zlen sizes) (ig_live_bytes g + sum_bytes sizes)
  /\ within g (zlen sizes) (ig_live_bytes g + sum_bytes sizes).
Proof.
  induction sizes as [|size sizes IH]; intros g g' Hh Hv Hsz; cbn [admissions length sum_bytes foldr].
  - rewrite Z.add_0_r, advanced_zero. split; [|by intros [-> _]].
    intros [= <-]. split; [done|]. apply within_zero; [done|]. by destruct Hv as [(?&?&?&?&?&?&?&?&?) _].
  - inversion Hsz as [|? ? H1 H2]; subst. pose proof (sum_bytes_nonneg _ H2).
    set (g1 := advanced g 1 (ig_live_bytes g + size)).
    assert (Hl : ig_live_bytes g1 = ig_live_bytes g + size) by done.
    rewrite result_bind_Ok. setoid_rewrite (admitted_gate_held turn g size _ Hh Hv H1).
    fold (sum_bytes sizes). rewrite Nat2Z.inj_succ.
    assert (Hg1 : within g 1 (ig_live_bytes g + size) -> gate_record_valid g1)
      by (intros; by apply (advanced_valid turn)).
    assert (Hi : within g (Z.succ (zlen sizes)) (ig_live_bytes g + (size + sum_bytes sizes)) <->
                 within g 1 (ig_live_bytes g + size) /\
                 within g1 (zlen sizes) (ig_live_bytes g1 + sum_bytes sizes)).
    { rewrite Hl. unfold within, g1, advanced, is_u64 in *; cbn. destruct Hv as [(?&?&?&?&?&?&?&?&Hb) _].
      unfold is_u64 in Hb. split; intros; destruct_and?; split_and!; lia. }
    assert (Ha : advanced g1 (zlen sizes) (ig_live_bytes g1 + sum_bytes sizes) =
                 advanced g (Z.succ (zlen sizes)) (ig_live_bytes g + (size + sum_bytes sizes))).
    { unfold g1 at 1. rewrite advanced_advanced by lia. f_equal; [lia|]. rewrite Hl. lia. }
    rewrite Hi, <- Ha. split.
    + intros (? & [-> Hw] & H3). apply IH in H3; [|done|by apply Hg1|done]. naive_solver.
    + intros [-> [Hw1 Hw2]]. exists g1. split; [done|]. apply IH; auto.
Qed.

Lemma checked_sub64_add a n : 0 <= n -> checked_sub64 (a + n) a = Some n.
Proof. intros. apply checked_sub64_Some. lia. Qed.

#[local] Arguments route_generation_value : simpl never.
#[local] Arguments checked_sub64 : simpl never.

(** What the accounting accepts, in closed form. *)
Lemma accounting_closed g o turn : gate_record_valid g -> gate_record_valid o ->
  is_compatible_finalizing_history_descendant_of g o turn = true <->
  held turn o /\ exists n, 0 <= n /\ ig_live_bytes o <= ig_live_bytes g /\ g = advanced o n (ig_live_bytes g).
Proof.
  intros [(_ & _ & _ & _ & Hh & _) _] [(_ & _ & _ & _ & Ho & _) _].
  unfold is_compatible_finalizing_history_descendant_of, compatible_terminal_history_accounting, held.
  split.
  - intros H. apply andb_true_iff in H as [Hs H]. bool_facts. rewrite Hs in H.
    case_match eqn:E1; [done|]. bool_facts.
    apply bind_Some in H as (na & Ha & H). apply bind_Some in H as (nn & Hn & H).
    destruct (na =? nn) eqn:E2; [|done]. cbn in H. apply bind_Some in H as (nr & Hr & H).
    destruct (nr =? na) eqn:E3; [|done]. cbn in H. apply bind_Some in H as (nv & Hv & H).
    rewrite bool_decide_true in H by done. destruct (nv =? na) eqn:E4; [|done].
    rewrite !checked_sub64_Some in *. bool_facts. destruct_and?. subst nr nv nn.
    split; [done|]. exists (ig_revision g - ig_revision o). split_and!; [lia|lia|].
    destruct g as [t rev s a h sel st nt lb], o as [t' rev' s' a' h' sel' st' nt' lb'].
    unfold advanced; cbn in *. subst. f_equal; try lia.
    destruct (Z.eqb_spec (rev - rev') 0), h as [h|], h' as [h'|]; unfold route_generation_value, is_rev in *; cbn in *;
      first [done | lia | f_equal; lia].
  - intros [[Hs Hl] (n & Hn & Hb & ->)]. unfold advanced; cbn.
    rewrite !bool_decide_true by done. cbn. rewrite Hl. cbn.
    destruct (Z.ltb_spec (ig_live_bytes g) (ig_live_bytes o)); [lia|]. cbn.
    assert (route_generation_value (if n =? 0 then ig_route_high_water o
      else Some (route_generation_value (ig_route_high_water o) + n)) =
      route_generation_value (ig_route_high_water o) + n) as ->.
    { destruct (Z.eqb_spec n 0) as [->|?]; [by rewrite Z.add_0_r|done]. }
    rewrite !checked_sub64_add by done. cbn. rewrite !Z.eqb_refl. cbn.
    rewrite Hs, (bool_decide_true (ig_thread o = _)), (bool_decide_true (ig_selected_route o = _)) by done.
    cbn. by rewrite (bool_decide_true (turn = turn)).
Qed.

(** A release of a held gate. *)
Lemma released_gate_Ok turn g g' : held turn g -> gate_record_valid g ->
  released_gate g = Ok g' <->
  ig_revision g + 1 <= U64_MAX /\
  g' = mkGate (ig_thread g) (ig_revision g + 1) GateIdle (ig_accepted_high_water g) (ig_route_high_water g)
         (ig_selected_route g) (ig_live_steering g) (ig_live_next_turn g) (ig_live_bytes g).
Proof.
  intros [Hs Hl] [(_ & Hr & _) (_ & Hsum & Hsel)]. unfold released_gate. rewrite result_bind_Ok.
  setoid_rewrite lift_error_Ok. setoid_rewrite (checked_next_Ok' _ _ Hr). setoid_rewrite new_gate_Ok. split.
  - intros (r & [-> ?] & -> & _). done.
  - intros [Hle ->]. eexists. split; [done|]. split; [done|]. by split_and!.
Qed.

Lemma compatible_facts g o turn : is_compatible_finalizing_history_descendant_of g o turn = true ->
  ig_state o = GateFinalizingHistory turn /\ ig_live_steering g = 0.
Proof.
  intros H. apply andb_true_iff in H as [_ H]. bool_facts.
  unfold compatible_terminal_history_accounting in H. case_match; [done|]. by bool_facts.
Qed.

(** The gate a release would have consumed. *)
Definition unreleased (g : InputGateRecord) (turn : list byte) : InputGateRecord :=
  mkGate (ig_thread g) (ig_revision g - 1) (GateFinalizingHistory turn) (ig_accepted_high_water g)
    (ig_route_high_water g) (ig_selected_route g) (ig_live_steering g) (ig_live_next_turn g)
    (ig_live_bytes g).

Lemma unreleased_valid g o turn : gate_record_valid g -> gate_record_valid o ->
  ig_state o = GateFinalizingHistory turn -> 1 <= ig_revision g - 1 -> gate_record_valid (unreleased g turn).
Proof.
  intros [(?&Hr&?&?&?&?&?&?&?) (_ & ? & ?)] [(_ & _ & Hv & _) _] E Hlt. rewrite E in Hv.
  unfold is_rev in Hr. split; [split_and!; cbn; try done; unfold is_rev; lia|]. by split_and!.
Qed.

Lemma release_closed g o turn : gate_record_valid g -> gate_record_valid o ->
  is_compatible_terminal_history_release_of g o turn = true <->
  ig_state g = GateIdle /\ 1 <= ig_revision g - 1 /\
  is_compatible_finalizing_history_descendant_of (unreleased g turn) o turn = true.
Proof.
  intros [(_ & Hrg & _ & Hag & _) _] [(_ & Hro & _ & Hao & _) _]. unfold is_rev, is_u64 in *.
  unfold is_compatible_terminal_history_release_of, is_compatible_finalizing_history_descendant_of,
    compatible_terminal_history_accounting, unreleased. cbn [ig_thread ig_revision ig_state ig_accepted_high_water
    ig_route_high_water ig_selected_route ig_live_steering ig_live_next_turn ig_live_bytes].
  rewrite !andb_true_iff, !bool_decide_eq_true. split.
  - intros [Hs H]. rewrite Hs in H. case_match; [done|].
    apply bind_Some in H as (na & Ha & H). apply bind_Some in H as (nn & Hn & H).
    destruct (na =? nn) eqn:E2; [|done]. cbn in H. apply bind_Some in H as (nr & Hr & H).
    destruct (nr =? na) eqn:E3; [|done]. cbn in H. apply bind_Some in H as (nv & Hv & H).
    apply bind_Some in H as (lim & Hlim & H). destruct (nv =? lim) eqn:E4; [|done].
    rewrite Ha, Hn; cbn. rewrite E2; cbn. rewrite Hr; cbn. rewrite E3; cbn.
    rewrite checked_sub64_Some, checked_add64_Some in *. bool_facts.
    split_and!; [done|lia|done|].
    assert (checked_sub64 (ig_revision g - 1) (ig_revision o) = Some na) as -> by (apply checked_sub64_Some; lia).
    cbn. by rewrite bool_decide_true, Z.eqb_refl.
  - intros (Hs & H1 & _ & H). split; [done|]. rewrite Hs. case_match; [done|].
    apply bind_Some in H as (na & Ha & H). apply bind_Some in H as (nn & Hn & H).
    destruct (na =? nn) eqn:E2; [|done]. cbn in H. apply bind_Some in H as (nr & Hr & H).
    destruct (nr =? na) eqn:E3; [|done]. cbn in H. apply bind_Some in H as (nv & Hv & H).
    rewrite bool_decide_true in H by done. destruct (nv =? na) eqn:E4; [|done].
    rewrite Ha, Hn; cbn. rewrite E2; cbn. rewrite Hr; cbn. rewrite E3; cbn.
    rewrite checked_sub64_Some in *. bool_facts.
    assert (checked_sub64 (ig_revision g) (ig_revision o) = Some (na + 1)) as -> by (apply checked_sub64_Some; lia).
    cbn. rewrite checked_add64_eq by lia. cbn. by rewrite Z.eqb_refl.
Qed.

Lemma finalizing_admissions g o turn : gate_record_valid g -> gate_record_valid o -> held turn o ->
  (exists n, 0 <= n /\ ig_live_bytes o <= ig_live_bytes g /\ g = advanced o n (ig_live_bytes g)) <->
  (exists sizes, Forall is_u64 sizes /\ admissions o sizes = Ok g)
  \/ ig_live_bytes o < ig_live_bytes g /\ g = advanced o 0 (ig_live_bytes g).
Proof.
  intros Hg Ho Hh. split.
  - intros (n & Hn & Hb & E). destruct (Z.eqb_spec n 0) as [->|Hn0].
    + destruct (Z.eq_dec (ig_live_bytes g) (ig_live_bytes o)) as [Eb|]; [|right; split; [lia|done]].
      left. exists []. split; [done|]. cbn. by rewrite E, Eb, advanced_zero.
    + left. exists ((ig_live_bytes g - ig_live_bytes o) :: replicate (Z.to_nat (n - 1)) 0).
      assert (Hsz : Forall is_u64 ((ig_live_bytes g - ig_live_bytes o) :: replicate (Z.to_nat (n - 1)) 0)).
      { destruct Hg as [(_&_&_&_&_&_&_&_&?) _], Ho as [(_&_&_&_&_&_&_&_&?) _].
        apply Forall_cons. split; [unfold is_u64 in *; lia|]. apply Forall_replicate. unfold is_u64. lia. }
      split; [done|]. apply (admissions_held turn); [done..|].
      assert (forall k, sum_bytes (replicate k 0) = 0) as Hz by (induction k; cbn; done).
      cbn [length sum_bytes foldr]. fold (sum_bytes (replicate (Z.to_nat (n - 1)) 0)). rewrite Hz.
      rewrite length_replicate. replace (Z.of_nat (S (Z.to_nat (n - 1)))) with n by lia.
      replace (ig_live_bytes o + (ig_live_bytes g - ig_live_bytes o + 0)) with (ig_live_bytes g) by lia.
      split; [done|]. rewrite E in Hg. by apply (advanced_valid turn) in Hg.
  - intros [(sizes & Hsz & H)|[Hb E]]; [|exists 0; split_and!; [done|lia|done]].
    apply (admissions_held turn) in H as [-> _]; [|done..]. pose proof (sum_bytes_nonneg _ Hsz).
    exists (zlen sizes). split_and!; [lia|cbn; lia|done].
Qed.

(** C12: a gate passes the accounting check against an observed gate held for the terminal history
    of a turn in exactly two cases: it is the result of admissions queued on the observed gate, of
    some content sizes, in sequence; or no input was admitted and it differs from the observed
    gate by a larger count of live bytes alone, because the check compares that count by order
    only.  It passes the check for a released gate exactly when it is what the completion mutation
    makes of a gate that passes the first check. *)
Theorem gate_accounting_exact g o turn : gate_record_valid g -> gate_record_valid o ->
  (is_compatible_finalizing_history_descendant_of g o turn = true <->
   held turn o /\
   ((exists sizes, Forall is_u64 sizes /\ admissions o sizes = Ok g)
    \/ ig_live_bytes o < ig_live_bytes g /\ g = advanced o 0 (ig_live_bytes g)))
  /\ (is_compatible_terminal_history_release_of g o turn = true <->
      exists m, gate_record_valid m /\
        is_compatible_finalizing_history_descendant_of m o turn = true /\ released_gate m = Ok g).
Proof.
  intros Hg Ho. split.
  - rewrite accounting_closed by done. split; intros [Hh H]; (split; [done|]); by apply (finalizing_admissions g o turn).
  - rewrite release_closed by done. split.
    + intros (Hs & H1 & H). pose proof (compatible_facts _ _ _ H) as [Ho1 Hst].
      exists (unreleased g turn). pose proof (unreleased_valid g o turn Hg Ho Ho1 H1) as Hm.
      split_and!; [done|exact H|]. apply (released_gate_Ok turn); [by split|done|].
      destruct Hm as [(_ & Hr & _) _], Hg as [(_ & Hrg & _) _]. unfold is_rev in *.
      split; [cbn; lia|]. destruct g; cbn in *. subst. f_equal. lia.
    + intros (m & Hm & Hc & Hr). pose proof Hc as Hc'. apply accounting_closed in Hc' as [[Ho1 Ho2] (n & Hn & Hb & Em)]; [|done..].
      assert (held turn m) as Hh by (rewrite Em; done).
      apply (released_gate_Ok turn) in Hr as [Hle ->]; [|done..]. cbn.
      destruct Hm as [(_ & Hrm & _) _]. unfold is_rev in Hrm. split_and!; [done|lia|].
      assert (unreleased _ turn = m) as ->; [|done].
      destruct Hh as [Hs _], m; unfold unreleased; cbn in *. rewrite Hs. f_equal. lia.
Qed.

Lemma gate_accounting_exact_witness :
  let o := mkGate (replicate 16 x01) 4 (GateFinalizingHistory (replicate 16 x02)) 3 (Some 2)
             (Some (mkRouteHead 2 1)) 0 1 10 in
  let m := mkGate (replicate 16 x01) 6 (GateFinalizingHistory (replicate 16 x02)) 5 (Some 4)
             (Some (mkRouteHead 2 1)) 0 3 25 in
  let g := mkGate (replicate 16 x01) 7 GateIdle 5 (Some 4) (Some (mkRouteHead 2 1)) 0 3 25 in
  is_compatible_finalizing_history_descendant_of m o (replicate 16 x02) = true
  /\ is_compatible_terminal_history_release_of g o (replicate 16 x02) = true.
Proof.
  assert (Ho : gate_record_valid (mkGate (replicate 16 x01) 4 (GateFinalizingHistory (replicate 16 x02)) 3
    (Some 2) (Some (mkRouteHead 2 1)) 0 1 10)) by (split; repeat split; done).
  assert (Hm : gate_record_valid (mkGate (replicate 16 x01) 6 (GateFinalizingHistory (replicate 16 x02)) 5
    (Some 4) (Some (mkRouteHead 2 1)) 0 3 25)) by (split; repeat split; done).
  assert (Hg : gate_record_valid (mkGate (replicate 16 x01) 7 GateIdle 5 (Some 4) (Some (mkRouteHead 2 1)) 0 3 25))
    by (split; repeat split; done).
  cbn zeta. destruct (gate_accounting_exact _ _ (replicate 16 x02) Hm Ho) as [H1 _].
  destruct (gate_accounting_exact _ _ (replicate 16 x02) Hg Ho) as [_ H2]. split.
  - apply H1. split; [by split|]. left. exists [5; 10]. split; [|vm_compute; reflexivity].
    repeat constructor; unfold is_u64; lia.
  - apply H2. eexists. split; [exact Hm|]. split; vm_compute; reflexivity.
Defined.
