(* ===== verification/CompactionOperation.v ===== *)
(** * The durable context-compaction operation

    [syndic-storage]: [value/compaction.rs] (nonces, revisions, provider sequences, settlements),
    [record/compaction/mod.rs] (the record and its constructor), [record/compaction/transitions.rs]
    (every transition of the record), [record/compaction/settlement.rs] (the receipt of a consumed
    operation), and the conditions under which the settlement mutations consume one
    ([mutation/compaction/settlement.rs], [mutation/compaction/continuation.rs]).

    Like the stop operation, the record keeps no log.  The theorems on it are in
    [CompactionProofs] and [CompactionProvenance]. *)
From stdpp Require Import prelude strings.
From S2P Require Import Prelude.
From S2P Require Import Bytes.
From S2P Require Import ModelIds.
From S2P Require Import SyndicValues.
From S2P Require Import SyndicRecords.

(** ** Values *)

Record CompactionOperationId := mkCompactionId { cmp_thread : list byte; cmp_nonce : list byte }.

(** The nonce, retyped. *)
Definition provider_turn_id (id : CompactionOperationId) : list byte := cmp_nonce id.

(** [CompactionOperationRevision] and [CompactionProviderSequence] ([nonzero_compaction_value!]). *)
Definition CMP_FIRST : Z := 1.
Definition new_compaction_value (kind : string) (value : Z) : result SyndicValueError Z :=
  ok_or (SvZeroOrdinal kind) (nonzero value).
Definition next_compaction_value (kind : string) (value : Z) : result SyndicValueError Z :=
  ok_or (SvOrdinalExhausted kind) (checked_add64 value 1 ≫= nonzero).
Definition next_compaction_revision : Z -> result SyndicValueError Z :=
  next_compaction_value "compaction-operation revision".
Definition next_provider_sequence : Z -> result SyndicValueError Z :=
  next_compaction_value "compaction provider sequence".

(** [source.checked_next().ok() == Some(successor)] *)
Definition ok {E A} (r : result E A) : option A := match r with Ok a => Some a | Err _ => None end.
Definition revision_follows (source successor : Z) : bool :=
  bool_decide (ok (next_compaction_revision source) = Some successor).

Inductive CompactionThreadStatus := TsActive | TsIdle | TsSystemError.
Inductive CompactionRequestDisposition :=
  | RqAccepted | RqRejectedBeforeCore | RqProvenLocalNondispatch | RqCompletionUnknown.
Inductive CompactionMarkerLifecycle := MkStarted | MkCompleted.
Inductive CompactionAbandonmentReason :=
  | CaProviderRejectedBeforeCore | CaCompletionUnknown | CaTargetAuthorityLost
  | CaStartupProcessGenerationLost | CaProviderProtocolConflict.

Record CompactionMarkerObservation := mkMarker
  { mk_sequence : Z; mk_item : list byte; mk_lifecycle : CompactionMarkerLifecycle }.

Inductive CompactionSettlement :=
  | CancelledBeforeDispatch
  | LocalNondispatch
  | SettledAbandoned (reason : CompactionAbandonmentReason)
  | ManualSuccess
  | ManualFailure
  | LifecycleUserWorkWon
  | LifecycleContinuation (turn_id item_id content_id : list byte).

(** ** The record *)

Record CompactionOperationTarget := mkCompactionTarget {
  ct_thread : list byte;
  ct_turn : list byte;
  ct_snapshot : list byte;
  ct_binding_revision : Z;
  ct_runtime : list byte;
  ct_loaded : CasLoadedSessionGeneration;
  ct_cas_thread : list byte }.

Record CompactionDispatchClaimWitness := mkCompactionClaim { cc_source : Z; cc_attempt : list byte }.
Record CompactionRequestObservation := mkRequest
  { rq_revision : Z; rq_disposition : CompactionRequestDisposition }.
Record CompactionStatusObservation := mkStatus { ts_sequence : Z; ts_status : CompactionThreadStatus }.
Record CompactionCasTurnObservation := mkCasTurn { ctu_sequence : Z; ctu_cas_turn : list byte }.
Record CompactionTerminalObservation := mkTerminal
  { tm_sequence : Z; tm_status : TurnEndStatus; tm_turn_state : Z }.
Record CompactionConsumedWitness := mkConsumedWitness {
  cw_source : Z;
  cw_successor_gate : Z;
  cw_settlement : CompactionSettlement;
  cw_commitment : list byte }.

Inductive CompactionOperationState :=
  | CmpAdmitted
  | CmpDispatchClaimed
  | CmpLive
  | CmpStopping (nonce : list byte)
  | CmpFinalizing
  | CmpConsumed (w : CompactionConsumedWitness).

Definition compaction_is_live (s : CompactionOperationState) : bool :=
  match s with CmpAdmitted | CmpDispatchClaimed | CmpLive | CmpFinalizing => true | _ => false end.

Record CompactionOperationRecord := mkCompaction {
  co_id : CompactionOperationId;
  co_home : list byte;
  co_target : CompactionOperationTarget;
  co_revision : Z;
  co_attempt : list byte;
  co_claim : option CompactionDispatchClaimWitness;
  co_request : option CompactionRequestObservation;
  co_frontier : option Z;
  co_status : option CompactionStatusObservation;
  co_cas_turn : option CompactionCasTurnObservation;
  co_marker : option CompactionMarkerObservation;
  co_terminal : option CompactionTerminalObservation;
  co_state : CompactionOperationState }.

#[global] Instance compaction_id_eq_dec : EqDecision CompactionOperationId.
Proof. solve_decision. Defined.
#[global] Instance thread_status_eq_dec : EqDecision CompactionThreadStatus.
Proof. solve_decision. Defined.
#[global] Instance request_eq_dec : EqDecision CompactionRequestDisposition.
Proof. solve_decision. Defined.
#[global] Instance marker_lifecycle_eq_dec : EqDecision CompactionMarkerLifecycle.
Proof. solve_decision. Defined.
#[global] Instance compaction_reason_eq_dec : EqDecision CompactionAbandonmentReason.
Proof. solve_decision. Defined.
#[global] Instance settlement_eq_dec : EqDecision CompactionSettlement.
Proof. solve_decision. Defined.
#[global] Instance consumed_witness_eq_dec : EqDecision CompactionConsumedWitness.
Proof. solve_decision. Defined.
#[global] Instance compaction_state_eq_dec : EqDecision CompactionOperationState.
Proof. solve_decision. Defined.

(** [Some(sequence) > frontier] in the order of options. *)
Definition beyond (sequence : Z) (frontier : option Z) : bool :=
  match frontier with Some f => f <? sequence | None => true end.

Definition on_some {A} (p : A -> bool) (o : option A) : bool :=
  match o with Some a => p a | None => false end.
Definition is_none {A} (o : option A) : bool := match o with None => true | Some _ => false end.
Definition is_some {A} (o : option A) : bool := negb (is_none o).

Definition refuse_compaction {A} : result SyndicRecordError A := Err RecInvalidCompactionOperation.

Definition new_compaction (id : CompactionOperationId) (home : list byte)
    (target : CompactionOperationTarget) (revision : Z) (attempt : list byte)
    (claim : option CompactionDispatchClaimWitness) (request : option CompactionRequestObservation)
    (frontier : option Z) (status : option CompactionStatusObservation)
    (cas_turn : option CompactionCasTurnObservation) (marker : option CompactionMarkerObservation)
    (terminal : option CompactionTerminalObservation) (s : CompactionOperationState)
    : result SyndicRecordError CompactionOperationRecord :=
  if negb (bool_decide (cmp_thread id = ct_thread target))
     || negb (bool_decide (provider_turn_id id = ct_turn target))
     || on_some (fun c => negb (bool_decide (cc_attempt c = attempt))) claim
     || (is_some request && is_none claim)
     || (is_some frontier && is_none claim)
     || on_some (fun v => beyond (ts_sequence v) frontier) status
     || on_some (fun v => beyond (ctu_sequence v) frontier) cas_turn
     || on_some (fun v => beyond (mk_sequence v) frontier) marker
     || on_some (fun v => beyond (tm_sequence v) frontier) terminal
     || on_some (fun v => bool_decide (mk_lifecycle v = MkCompleted) && is_none cas_turn) marker
     || (match s with CmpFinalizing => true | _ => false end && is_none terminal)
     || (match s with CmpStopping _ => true | _ => false end && is_none cas_turn)
  then refuse_compaction
  else Ok (mkCompaction id home target revision attempt claim request frontier status cas_turn
             marker terminal s).

(** The record [AdmitMutation] writes. *)
Definition admit_compaction (id : CompactionOperationId) (home : list byte)
    (target : CompactionOperationTarget) (attempt : list byte)
    : result SyndicRecordError CompactionOperationRecord :=
  new_compaction id home target CMP_FIRST attempt None None None None None None None CmpAdmitted.

(** ** Transitions *)

(** [self.revision.checked_next().map_err(|_| InvalidCompactionOperation)?] *)
Definition advance_revision (r : CompactionOperationRecord) : result SyndicRecordError Z :=
  match next_compaction_revision (co_revision r) with
  | Ok revision => Ok revision
  | Err _ => refuse_compaction
  end.

Definition claim_dispatch (r : CompactionOperationRecord) (attempt : list byte)
    : result SyndicRecordError CompactionOperationRecord :=
  if negb (bool_decide (co_state r = CmpAdmitted)) || is_some (co_claim r)
     || negb (bool_decide (co_attempt r = attempt))
  then refuse_compaction
  else
    revision ← advance_revision r;
    new_compaction (co_id r) (co_home r) (co_target r) revision (co_attempt r)
      (Some (mkCompactionClaim (co_revision r) attempt)) (co_request r) (co_frontier r)
      (co_status r) (co_cas_turn r) (co_marker r) (co_terminal r) CmpDispatchClaimed.

Definition observed_state (s : CompactionOperationState) (d : CompactionRequestDisposition)
    : result SyndicRecordError CompactionOperationState :=
  match s, d with
  | CmpDispatchClaimed, RqAccepted => Ok CmpLive
  | CmpDispatchClaimed, (RqRejectedBeforeCore | RqProvenLocalNondispatch | RqCompletionUnknown) =>
      Ok CmpDispatchClaimed
  | CmpLive, RqAccepted | CmpFinalizing, RqAccepted | CmpFinalizing, RqCompletionUnknown => Ok s
  | _, _ => refuse_compaction
  end.

Definition observe_request (r : CompactionOperationRecord) (d : CompactionRequestDisposition)
    : result SyndicRecordError CompactionOperationRecord :=
  if is_none (co_claim r) || is_some (co_request r) then refuse_compaction
  else
    revision ← advance_revision r;
    s ← observed_state (co_state r) d;
    new_compaction (co_id r) (co_home r) (co_target r) revision (co_attempt r) (co_claim r)
      (Some (mkRequest revision d)) (co_frontier r) (co_status r) (co_cas_turn r) (co_marker r)
      (co_terminal r) s.

(** The successor with the same observations and another state. *)
Definition with_state (r : CompactionOperationRecord) (s : CompactionOperationState)
    : result SyndicRecordError CompactionOperationRecord :=
  revision ← advance_revision r;
  new_compaction (co_id r) (co_home r) (co_target r) revision (co_attempt r) (co_claim r)
    (co_request r) (co_frontier r) (co_status r) (co_cas_turn r) (co_marker r) (co_terminal r) s.

Definition consume_successor (r : CompactionOperationRecord) (gate : Z) (settlement : CompactionSettlement)
    (commitment : list byte) : result SyndicRecordError CompactionOperationRecord :=
  with_state r (CmpConsumed (mkConsumedWitness (co_revision r) gate settlement commitment)).

Definition consume_compaction (r : CompactionOperationRecord) (gate : Z)
    (settlement : CompactionSettlement) (commitment : list byte)
    : result SyndicRecordError CompactionOperationRecord :=
  match co_state r with
  | CmpConsumed _ | CmpStopping _ => refuse_compaction
  | _ => consume_successor r gate settlement commitment
  end.

Definition handoff_to_stop (r : CompactionOperationRecord) (nonce : list byte)
    : result SyndicRecordError CompactionOperationRecord :=
  if negb (match co_state r with CmpDispatchClaimed | CmpLive => true | _ => false end)
     || is_none (co_cas_turn r) || is_some (co_terminal r)
  then refuse_compaction
  else with_state r (CmpStopping nonce).

Definition reopen_from_stop (r : CompactionOperationRecord) (nonce : list byte)
    : result SyndicRecordError CompactionOperationRecord :=
  if negb (bool_decide (co_state r = CmpStopping nonce)) || is_some (co_terminal r)
  then refuse_compaction
  else with_state r
    (if on_some (fun q => bool_decide (rq_disposition q = RqAccepted)) (co_request r)
     then CmpLive else CmpDispatchClaimed).

Definition abandon_from_stop (r : CompactionOperationRecord) (nonce : list byte) (gate : Z)
    (settlement : CompactionSettlement) (commitment : list byte)
    : result SyndicRecordError CompactionOperationRecord :=
  if negb (bool_decide (co_state r = CmpStopping nonce)) || is_some (co_terminal r)
  then refuse_compaction
  else consume_successor r gate settlement commitment.

Definition sequence_expected (frontier : option Z) (sequence : Z) : bool :=
  match frontier with
  | None => sequence =? CMP_FIRST
  | Some f => bool_decide (ok (next_provider_sequence f) = Some sequence)
  end.

Definition observe_provider (r : CompactionOperationRecord) (sequence : Z)
    (status : option CompactionStatusObservation) (cas_turn : option CompactionCasTurnObservation)
    (marker : option CompactionMarkerObservation) (terminal : option CompactionTerminalObservation)
    (s : CompactionOperationState) : result SyndicRecordError CompactionOperationRecord :=
  if is_none (co_claim r)
     || match co_state r with CmpAdmitted | CmpConsumed _ => true | _ => false end
     || negb (sequence_expected (co_frontier r) sequence)
  then refuse_compaction
  else
    revision ← advance_revision r;
    new_compaction (co_id r) (co_home r) (co_target r) revision (co_attempt r) (co_claim r)
      (co_request r) (Some sequence) status cas_turn marker terminal s.

Definition observe_status (r : CompactionOperationRecord) (sequence : Z) (status : CompactionThreadStatus)
    : result SyndicRecordError CompactionOperationRecord :=
  observe_provider r sequence (Some (mkStatus sequence status)) (co_cas_turn r) (co_marker r)
    (co_terminal r) (co_state r).

Definition observe_cas_turn (r : CompactionOperationRecord) (sequence : Z) (cas_turn : list byte)
    : result SyndicRecordError CompactionOperationRecord :=
  if is_some (co_cas_turn r) then refuse_compaction
  else observe_provider r sequence (co_status r) (Some (mkCasTurn sequence cas_turn)) (co_marker r)
         (co_terminal r) (co_state r).

Definition observe_marker (r : CompactionOperationRecord) (marker : CompactionMarkerObservation)
    : result SyndicRecordError CompactionOperationRecord :=
  let valid :=
    match co_marker r with
    | None => bool_decide (mk_lifecycle marker = MkStarted)
    | Some previous =>
        bool_decide (mk_item previous = mk_item marker)
        && bool_decide (mk_lifecycle previous = MkStarted)
        && bool_decide (mk_lifecycle marker = MkCompleted)
    end in
  if negb valid || is_none (co_cas_turn r) then refuse_compaction
  else observe_provider r (mk_sequence marker) (co_status r) (co_cas_turn r) (Some marker)
         (co_terminal r) (co_state r).

Definition observe_terminal (r : CompactionOperationRecord) (sequence : Z) (status : TurnEndStatus)
    (turn_state : Z) : result SyndicRecordError CompactionOperationRecord :=
  if is_some (co_terminal r) || is_none (co_cas_turn r) then refuse_compaction
  else observe_provider r sequence (co_status r) (co_cas_turn r) (co_marker r)
         (Some (mkTerminal sequence status turn_state)) CmpFinalizing.

(** ** Settlement *)

Definition requested (r : CompactionOperationRecord) (d : CompactionRequestDisposition) : bool :=
  on_some (fun q => bool_decide (rq_disposition q = d)) (co_request r).

(** [successful_compaction] of the continuation mutation. *)
Definition successful_compaction (r : CompactionOperationRecord) : bool :=
  on_some (fun t => bool_decide (outcome (tm_status t) = OcComplete)) (co_terminal r)
  && on_some (fun m => bool_decide (mk_lifecycle m = MkCompleted)) (co_marker r).

Definition settlement_is_admitted (r : CompactionOperationRecord) (settlement : CompactionSettlement)
    (next_turn_count : Z) : bool :=
  match settlement with
  | CancelledBeforeDispatch => bool_decide (co_state r = CmpAdmitted)
  | LocalNondispatch => requested r RqProvenLocalNondispatch
  | SettledAbandoned CaProviderRejectedBeforeCore => requested r RqRejectedBeforeCore
  | SettledAbandoned CaCompletionUnknown => requested r RqCompletionUnknown
  | SettledAbandoned (CaTargetAuthorityLost | CaStartupProcessGenerationLost
                     | CaProviderProtocolConflict) => true
  | ManualSuccess => successful_compaction r
  | ManualFailure => is_some (co_terminal r)
  | LifecycleUserWorkWon => (0 <? next_turn_count) && successful_compaction r
  | LifecycleContinuation _ _ _ => false
  end.

Definition consumed_witness_is_exact (r : CompactionOperationRecord) : bool :=
  match co_state r with
  | CmpConsumed w =>
      if negb (revision_follows (cw_source w) (co_revision r)) then false
      else
        match cw_settlement w with
        | CancelledBeforeDispatch =>
            is_none (co_claim r) && is_none (co_request r) && is_none (co_terminal r)
        | LocalNondispatch => requested r RqProvenLocalNondispatch
        | SettledAbandoned CaProviderRejectedBeforeCore => requested r RqRejectedBeforeCore
        | SettledAbandoned CaCompletionUnknown => requested r RqCompletionUnknown
        | SettledAbandoned (CaTargetAuthorityLost | CaStartupProcessGenerationLost
                           | CaProviderProtocolConflict) => true
        | ManualSuccess | LifecycleUserWorkWon | LifecycleContinuation _ _ _ => successful_compaction r
        | ManualFailure => is_some (co_terminal r)
        end
  | _ => false
  end.

(** ** The receipt of a settlement *)

Record CompactionContinuationReceipt := mkContinuation {
  cn_parent : ConversationParent;
  cn_selected_path : SelectedPathProof;
  cn_binding_revision : Z;
  cn_content : ContentReference }.

Record CompactionSettlementReceiptRecord := mkReceipt {
  rc_operation : CompactionOperationId;
  rc_source_revision : Z;
  rc_successor_revision : Z;
  rc_source_gate : InputGateRecord;
  rc_successor_gate : InputGateRecord;
  rc_settlement : CompactionSettlement;
  rc_continuation : option CompactionContinuationReceipt }.

Definition source_gate_selects_operation (r : CompactionSettlementReceiptRecord) : bool :=
  match ig_state (rc_source_gate r) with
  | GateCompacting turn nonce =>
      bool_decide (turn = provider_turn_id (rc_operation r))
      && bool_decide (nonce = cmp_nonce (rc_operation r))
  | GateStopping turn _ =>
      bool_decide (turn = provider_turn_id (rc_operation r))
      && match rc_settlement r with SettledAbandoned _ => true | _ => false end
  | _ => false
  end.

(** [InputGateRevision::checked_next] of the source is the successor's revision. *)
Definition gate_follows (source successor : InputGateRecord) : bool :=
  bool_decide (ok (checked_next (ig_revision source)) = Some (ig_revision successor)).

Definition transition_shape_is_exact (r : CompactionSettlementReceiptRecord) : bool :=
  let thread := cmp_thread (rc_operation r) in
  let source := rc_source_gate r in
  let successor := rc_successor_gate r in
  if negb (revision_follows (rc_source_revision r) (rc_successor_revision r))
     || negb (bool_decide (ig_thread source = thread))
     || negb (bool_decide (ig_thread successor = thread))
     || negb (gate_follows source successor)
     || negb (source_gate_selects_operation r)
     || negb (ig_live_steering source =? 0)
     || negb (ig_live_steering successor =? 0)
     || negb (ig_accepted_high_water source =? ig_accepted_high_water successor)
     || negb (bool_decide (ig_route_high_water source = ig_route_high_water successor))
  then false
  else
    match rc_settlement r, rc_continuation r with
    | LifecycleContinuation turn _ content, Some continuation =>
        bool_decide (sp_tail (cn_selected_path continuation) = Some turn)
        && bool_decide (ref_id (cn_content continuation) = content)
        && (ig_live_next_turn source =? 0)
        && (ig_live_bytes source =? 0)
        && bool_decide (ig_state successor = GatePendingTurn turn)
        && bool_decide (ig_selected_route successor = None)
        && (ig_live_next_turn successor =? 0)
        && (ig_live_bytes successor =? 0)
    | LifecycleContinuation _ _ _, None => false
    | _, Some _ => false
    | settlement, None =>
        bool_decide (ig_state successor = GateIdle)
        && bool_decide (ig_selected_route successor = ig_selected_route source)
        && (ig_live_next_turn successor =? ig_live_next_turn source)
        && (ig_live_bytes successor =? ig_live_bytes source)
        && (negb (bool_decide (settlement = LifecycleUserWorkWon)) || (0 <? ig_live_next_turn source))
    end.

Definition new_receipt (operation : CompactionOperationId) (source_revision successor_revision : Z)
    (source successor : InputGateRecord) (settlement : CompactionSettlement)
    (continuation : option CompactionContinuationReceipt)
    : result SyndicRecordError CompactionSettlementReceiptRecord :=
  let r := mkReceipt operation source_revision successor_revision source successor settlement
             continuation in
  if negb (transition_shape_is_exact r) then refuse_compaction else Ok r.

Definition current_gate_is_descendant (r : CompactionSettlementReceiptRecord)
    (current : InputGateRecord) : bool :=
  let successor := rc_successor_gate r in
  if negb (bool_decide (ig_thread current = ig_thread successor))
     || (ig_revision current <? ig_revision successor)
     || (ig_accepted_high_water current <? ig_accepted_high_water successor)
     || (default 0 (ig_route_high_water current) <? default 0 (ig_route_high_water successor))
  then false
  else (ig_revision successor <? ig_revision current) || bool_decide (current = successor).
