(* ===== verification/CompactionCodec.v ===== *)
(** * The compaction families: operations and settlement receipts on disk

    [syndic-storage]: [codec/primary/compaction.rs] and [codec/primary/compaction/settlement.rs],
    with the commitment a consumed operation keeps to its receipt.  The decoders are exact, like
    those of the stop family; the commitment determines the receipt up to a collision of the hash
    on two strings the program would hash. *)
From stdpp Require Import prelude strings.
From S2P Require Import Prelude.
From S2P Require Import Bytes.
From S2P Require Import ModelIds.
From S2P Require Import ModelDigest.
From S2P Require Import SyndicValues.
From S2P Require Import SyndicParts.
From S2P Require Import StopCodec.
From S2P Require Import SyndicRecords.
From S2P Require Import CompactionOperation.

(** ** Keys *)

Definition enc_compaction_id (id : CompactionOperationId) : list byte := enc_id (cmp_thread id) ++ cmp_nonce id.
Definition dec_compaction_id : decoder CompactionOperationId :=
  thread ← dec_id; nonce ← d_fixed16; mret (mkCompactionId thread nonce).

Definition encode_compaction_key (id : CompactionOperationId) : list byte := enc_compaction_id id.
Definition decode_compaction_key (bs : list byte) : result CodecError CompactionOperationId :=
  run_decoder dec_compaction_id bs.
Definition first_compaction_id : CompactionOperationId := mkCompactionId (replicate 16 x00) (replicate 16 x00).
Definition last_compaction_id : CompactionOperationId := mkCompactionId (replicate 16 xff) (replicate 16 xff).

(** ** Fields *)

Definition enc_compaction_target (t : CompactionOperationTarget) : list byte :=
  enc_id (ct_thread t) ++ enc_id (ct_turn t) ++ enc_id (ct_snapshot t)
  ++ enc_rev (ct_binding_revision t) ++ ct_runtime t ++ enc_loaded_generation (ct_loaded t)
  ++ enc_external (ct_cas_thread t).
Definition dec_compaction_target : decoder CompactionOperationTarget :=
  thread ← dec_id; turn ← dec_id; snapshot ← dec_id;
  binding ← dec_rev "binding revision";
  runtime ← d_fixed16;
  loaded ← dec_loaded_generation;
  cas_thread ← dec_cas_thread;
  mret (mkCompactionTarget thread turn snapshot binding runtime loaded cas_thread).

Definition dec_compaction_revision (kind : string) : decoder Z :=
  v ← d_u64; checked kind (new_compaction_value "compaction-operation revision" v).
Definition dec_provider_sequence : decoder Z :=
  v ← d_u64; checked "compaction provider sequence" (new_compaction_value "compaction provider sequence" v).

Definition request_tag (d : CompactionRequestDisposition) : Z :=
  match d with RqAccepted => 0 | RqRejectedBeforeCore => 1 | RqProvenLocalNondispatch => 2 | RqCompletionUnknown => 3 end.
Definition request_of (t : Z) : option CompactionRequestDisposition :=
  match t with
  | 0 => Some RqAccepted | 1 => Some RqRejectedBeforeCore | 2 => Some RqProvenLocalNondispatch
  | 3 => Some RqCompletionUnknown | _ => None
  end.
Definition enc_request := enc_enum request_tag.
Definition dec_request := dec_enum "compaction request disposition" request_of.

Definition status_tag (s : CompactionThreadStatus) : Z :=
  match s with TsActive => 0 | TsIdle => 1 | TsSystemError => 2 end.
Definition status_of (t : Z) : option CompactionThreadStatus :=
  match t with 0 => Some TsActive | 1 => Some TsIdle | 2 => Some TsSystemError | _ => None end.
Definition enc_status := enc_enum status_tag.
Definition dec_status := dec_enum "compaction thread status" status_of.

Definition marker_tag (l : CompactionMarkerLifecycle) : Z := match l with MkStarted => 0 | MkCompleted => 1 end.
Definition marker_of (t : Z) : option CompactionMarkerLifecycle :=
  match t with 0 => Some MkStarted | 1 => Some MkCompleted | _ => None end.
Definition enc_marker_lifecycle := enc_enum marker_tag.
Definition dec_marker_lifecycle := dec_enum "compaction marker lifecycle" marker_of.

Definition compaction_reason_tag (r : CompactionAbandonmentReason) : Z :=
  match r with
  | CaProviderRejectedBeforeCore => 0 | CaCompletionUnknown => 1 | CaTargetAuthorityLost => 2
  | CaStartupProcessGenerationLost => 3 | CaProviderProtocolConflict => 4
  end.
Definition compaction_reason_of (t : Z) : option CompactionAbandonmentReason :=
  match t with
  | 0 => Some CaProviderRejectedBeforeCore | 1 => Some CaCompletionUnknown
  | 2 => Some CaTargetAuthorityLost | 3 => Some CaStartupProcessGenerationLost
  | 4 => Some CaProviderProtocolConflict | _ => None
  end.
Definition enc_compaction_reason := enc_enum compaction_reason_tag.
Definition dec_compaction_reason := dec_enum "compaction abandonment reason" compaction_reason_of.

Definition enc_settlement (s : CompactionSettlement) : list byte :=
  match s with
  | CancelledBeforeDispatch => variant 0 []
  | LocalNondispatch => variant 1 []
  | SettledAbandoned reason => variant 2 (enc_compaction_reason reason)
  | ManualSuccess => variant 3 []
  | ManualFailure => variant 4 []
  | LifecycleUserWorkWon => variant 5 []
  | LifecycleContinuation turn item content => variant 6 (enc_id turn ++ enc_id item ++ enc_id content)
  end.
Definition dec_settlement : decoder CompactionSettlement :=
  tag ← d_u8;
  match tag with
  | 0 => mret CancelledBeforeDispatch
  | 1 => mret LocalNondispatch
  | 2 => SettledAbandoned <$> dec_compaction_reason
  | 3 => mret ManualSuccess
  | 4 => mret ManualFailure
  | 5 => mret LifecycleUserWorkWon
  | 6 => turn ← dec_id; item ← dec_id; content ← dec_id; mret (LifecycleContinuation turn item content)
  | _ => refuse (InvalidTag "compaction settlement" tag)
  end.

Definition enc_consumed_witness (w : CompactionConsumedWitness) : list byte :=
  e_u64 (cw_source w) ++ enc_rev (cw_successor_gate w) ++ enc_settlement (cw_settlement w) ++ cw_commitment w.
Definition enc_compaction_state (s : CompactionOperationState) : list byte :=
  match s with
  | CmpAdmitted => variant 0 []
  | CmpDispatchClaimed => variant 1 []
  | CmpLive => variant 2 []
  | CmpStopping nonce => variant 3 nonce
  | CmpFinalizing => variant 4 []
  | CmpConsumed w =>
      variant 5 (enc_consumed_witness w)
  end.
Definition dec_consumed_witness : decoder CompactionConsumedWitness :=
  source ← dec_compaction_revision "compaction consumed source revision";
  gate ← dec_gate_rev;
  settlement ← dec_settlement;
  commitment ← d_fixed32;
  mret (mkConsumedWitness source gate settlement commitment).
Definition dec_compaction_state : decoder CompactionOperationState :=
  tag ← d_u8;
  match tag with
  | 0 => mret CmpAdmitted
  | 1 => mret CmpDispatchClaimed
  | 2 => mret CmpLive
  | 3 => CmpStopping <$> d_fixed16
  | 4 => mret CmpFinalizing
  | 5 => CmpConsumed <$> dec_consumed_witness
  | _ => refuse (InvalidTag "compaction-operation state" tag)
  end.

Definition enc_claim (c : CompactionDispatchClaimWitness) : list byte := e_u64 (cc_source c) ++ cc_attempt c.
Definition dec_claim : decoder CompactionDispatchClaimWitness :=
  source ← dec_compaction_revision "compaction claim source revision"; attempt ← d_fixed16;
  mret (mkCompactionClaim source attempt).
Definition enc_request_observation (q : CompactionRequestObservation) : list byte :=
  e_u64 (rq_revision q) ++ enc_request (rq_disposition q).
Definition dec_request_observation : decoder CompactionRequestObservation :=
  revision ← dec_compaction_revision "compaction request revision"; disposition ← dec_request;
  mret (mkRequest revision disposition).
Definition enc_status_observation (s : CompactionStatusObservation) : list byte :=
  e_u64 (ts_sequence s) ++ enc_status (ts_status s).
Definition dec_status_observation : decoder CompactionStatusObservation :=
  sequence ← dec_provider_sequence; status ← dec_status; mret (mkStatus sequence status).
Definition enc_cas_turn_observation (t : CompactionCasTurnObservation) : list byte :=
  e_u64 (ctu_sequence t) ++ enc_external (ctu_cas_turn t).
Definition dec_cas_turn_observation : decoder CompactionCasTurnObservation :=
  sequence ← dec_provider_sequence; turn ← dec_cas_turn; mret (mkCasTurn sequence turn).
Definition enc_marker_observation (m : CompactionMarkerObservation) : list byte :=
  e_u64 (mk_sequence m) ++ enc_id (mk_item m) ++ enc_marker_lifecycle (mk_lifecycle m).
Definition dec_marker_observation : decoder CompactionMarkerObservation :=
  sequence ← dec_provider_sequence; item ← dec_id; lifecycle ← dec_marker_lifecycle;
  mret (mkMarker sequence item lifecycle).
Definition enc_terminal_observation (t : CompactionTerminalObservation) : list byte :=
  e_u64 (tm_sequence t) ++ enc_turn_end_status (tm_status t) ++ enc_rev (tm_turn_state t).
Definition dec_terminal_observation : decoder CompactionTerminalObservation :=
  sequence ← dec_provider_sequence; status ← dec_turn_end_status;
  revision ← dec_rev "turn-state revision"; mret (mkTerminal sequence status revision).

(** ** Operations *)

Definition encode_compaction_value (r : CompactionOperationRecord) : list byte :=
  enc_compaction_id (co_id r) ++ co_home r ++ enc_compaction_target (co_target r)
  ++ e_u64 (co_revision r) ++ co_attempt r
  ++ enc_opt enc_claim (co_claim r) ++ enc_opt enc_request_observation (co_request r)
  ++ enc_opt e_u64 (co_frontier r) ++ enc_opt enc_status_observation (co_status r)
  ++ enc_opt enc_cas_turn_observation (co_cas_turn r) ++ enc_opt enc_marker_observation (co_marker r)
  ++ enc_opt enc_terminal_observation (co_terminal r) ++ enc_compaction_state (co_state r).

Definition dec_compaction_fields : decoder CompactionOperationRecord :=
  id ← dec_compaction_id;
  home ← d_fixed16;
  target ← dec_compaction_target;
  revision ← dec_compaction_revision "compaction-operation revision";
  attempt ← d_fixed16;
  claim ← dec_opt "compaction dispatch claim" dec_claim;
  request ← dec_opt "compaction request disposition" dec_request_observation;
  frontier ← dec_opt "compaction provider frontier" dec_provider_sequence;
  status ← dec_opt "compaction status observation" dec_status_observation;
  cas_turn ← dec_opt "compaction CAS-turn observation" dec_cas_turn_observation;
  marker ← dec_opt "compaction marker observation" dec_marker_observation;
  terminal ← dec_opt "compaction terminal observation" dec_terminal_observation;
  s ← dec_compaction_state;
  mret (mkCompaction id home target revision attempt claim request frontier status cas_turn marker terminal s).

(** The constructor, applied to fields already read. *)
Definition rebuild_compaction (r : CompactionOperationRecord)
    : result SyndicRecordError CompactionOperationRecord :=
  new_compaction (co_id r) (co_home r) (co_target r) (co_revision r) (co_attempt r) (co_claim r)
    (co_request r) (co_frontier r) (co_status r) (co_cas_turn r) (co_marker r) (co_terminal r) (co_state r).

Definition dec_compaction : decoder CompactionOperationRecord :=
  fields ← dec_compaction_fields; checked "compaction operation" (rebuild_compaction fields).
Definition decode_compaction_value (bs : list byte) : result CodecError CompactionOperationRecord :=
  run_decoder dec_compaction bs.

(** ** Receipts *)

Definition enc_continuation (c : CompactionContinuationReceipt) : list byte :=
  enc_parent (cn_parent c) ++ enc_selected_path (cn_selected_path c)
  ++ enc_rev (cn_binding_revision c) ++ enc_content_ref (cn_content c).
Definition dec_continuation : decoder CompactionContinuationReceipt :=
  parent ← dec_parent; path ← dec_selected_path; binding ← dec_rev "binding revision";
  content ← dec_content_ref; mret (mkContinuation parent path binding content).

Definition encode_receipt_value (r : CompactionSettlementReceiptRecord) : list byte :=
  enc_compaction_id (rc_operation r) ++ e_u64 (rc_source_revision r) ++ e_u64 (rc_successor_revision r)
  ++ enc_input_gate_record (rc_source_gate r) ++ enc_input_gate_record (rc_successor_gate r)
  ++ enc_settlement (rc_settlement r) ++ enc_opt enc_continuation (rc_continuation r).

Definition dec_receipt_fields : decoder CompactionSettlementReceiptRecord :=
  id ← dec_compaction_id;
  source ← dec_compaction_revision "compaction settlement source operation revision";
  successor ← dec_compaction_revision "compaction settlement successor operation revision";
  source_gate ← dec_input_gate_record;
  successor_gate ← dec_input_gate_record;
  settlement ← dec_settlement;
  continuation ← dec_opt "compaction continuation receipt" dec_continuation;
  mret (mkReceipt id source successor source_gate successor_gate settlement continuation).

Definition rebuild_receipt (r : CompactionSettlementReceiptRecord)
    : result SyndicRecordError CompactionSettlementReceiptRecord :=
  new_receipt (rc_operation r) (rc_source_revision r) (rc_successor_revision r) (rc_source_gate r)
    (rc_successor_gate r) (rc_settlement r) (rc_continuation r).

Definition dec_receipt : decoder CompactionSettlementReceiptRecord :=
  fields ← dec_receipt_fields; checked "compaction settlement receipt" (rebuild_receipt fields).
Definition decode_receipt_value (bs : list byte) : result CodecError CompactionSettlementReceiptRecord :=
  run_decoder dec_receipt bs.

Definition SETTLEMENT_RECEIPT_COMMITMENT_V1 : list byte :=
  bytes_of_string "beryl.syndic.compaction-settlement-receipt.commitment.v1" ++ [x00].

Section Commitment.
Context {H : Type} `{Sha256 H}.
Definition settlement_receipt_commitment (r : CompactionSettlementReceiptRecord) : list byte :=
  let encoded := encode_receipt_value r in
  let digest := sha_update sha_new SETTLEMENT_RECEIPT_COMMITMENT_V1 in
  let digest := sha_update digest (be_bytes 8 (zlen encoded)) in
  let digest := sha_update digest encoded in
  sha_finalize digest.
End Commitment.

(** ** Exactness *)

(** Read the fields, then run the constructor that returns them or refuses. *)
Lemma rebuilt_exact {A E} valid enc (d : decoder A) (f : A -> result E A) kind `{!Exact valid enc d} :
  (forall a b, f a = Ok b -> b = a) ->
  Exact (fun a => valid a /\ f a = Ok a) enc (a ← d; checked kind (f a)).
Proof.
  intros Hf bs a rest. split.
  - intros Hd. part_inv Hd. apply checked_Ok in Hd as [Hd ->]. pose proof (Hf _ _ Hd) as ->. done.
  - intros [[Hv Ha] ->]. eapply (bind_run d); [done|reflexivity|]. by apply checked_Ok.
Qed.

Lemma new_compaction_value_Ok kind v w : new_compaction_value kind v = Ok w <-> w = v /\ v <> 0.
Proof. unfold new_compaction_value, nonzero. destruct (Z.eqb_spec v 0); cbn; naive_solver. Qed.

#[global] Instance compaction_value_exact kind kind' :
  Exact is_rev e_u64 (v ← d_u64; checked kind (new_compaction_value kind' v)).
Proof.
  intros bs v rest. unfold is_rev. split.
  - intros Hd. part_inv Hd. apply checked_Ok in Hd as [Hd ->]. apply new_compaction_value_Ok in Hd as [-> Hd].
    unfold is_u64 in *. split; [lia|done].
  - intros [Hv ->]. run_part. apply checked_Ok. split; [|done]. apply new_compaction_value_Ok. lia.
Qed.
#[global] Instance compaction_revision_exact kind : Exact is_rev e_u64 (dec_compaction_revision kind).
Proof. apply compaction_value_exact. Qed.
#[global] Instance provider_sequence_exact : Exact is_rev e_u64 dec_provider_sequence.
Proof. apply compaction_value_exact. Qed.

Definition compaction_id_valid (id : CompactionOperationId) : Prop :=
  fixed 16 (cmp_thread id) /\ fixed 16 (cmp_nonce id).
#[global] Instance compaction_id_exact : Exact compaction_id_valid enc_compaction_id dec_compaction_id.
Proof. unfold enc_compaction_id, dec_compaction_id. exact_record. Qed.

Definition compaction_target_valid (t : CompactionOperationTarget) : Prop :=
  fixed 16 (ct_thread t) /\ fixed 16 (ct_turn t) /\ fixed 16 (ct_snapshot t)
  /\ is_rev (ct_binding_revision t) /\ fixed 16 (ct_runtime t) /\ loaded_valid (ct_loaded t)
  /\ is_external (ct_cas_thread t).
#[global] Instance compaction_target_exact :
  Exact compaction_target_valid enc_compaction_target dec_compaction_target.
Proof. unfold enc_compaction_target, dec_compaction_target, dec_cas_thread. exact_record. Qed.

#[global] Instance request_exact : Exact any enc_request dec_request.
Proof. enum_tags. Qed.
#[global] Instance status_exact : Exact any enc_status dec_status.
Proof. enum_tags. Qed.
#[global] Instance marker_lifecycle_exact : Exact any enc_marker_lifecycle dec_marker_lifecycle.
Proof. enum_tags. Qed.
#[global] Instance compaction_reason_exact : Exact any enc_compaction_reason dec_compaction_reason.
Proof. enum_tags. Qed.

Definition settlement_valid (s : CompactionSettlement) : Prop :=
  match s with
  | LifecycleContinuation turn item content => fixed 16 turn /\ fixed 16 item /\ fixed 16 content
  | _ => True
  end.
#[global] Instance settlement_exact : Exact settlement_valid enc_settlement dec_settlement.
Proof.
  intros bs v rest. unfold dec_settlement. split.
  - intros Hd. part_inv Hd. tag_cases x; try variant_fields Hd.
    all: parts_inv Hd; split; [done|]; cbn; unfold variant; by rewrite <- !app_assoc.
  - intros [Hv ->]. destruct v; cbn [settlement_valid enc_settlement] in *; unfold variant; run_part; cbn.
    all: first [ done
               | destruct Hv as (? & ? & ?); do 3 run_part; done
               | apply fmap_Ok; eexists; split; [|reflexivity]; by apply exact ].
Qed.

Definition consumed_valid (w : CompactionConsumedWitness) : Prop :=
  is_rev (cw_source w) /\ is_rev (cw_successor_gate w) /\ settlement_valid (cw_settlement w)
  /\ fixed 32 (cw_commitment w).
#[global] Instance consumed_exact : Exact consumed_valid enc_consumed_witness dec_consumed_witness.
Proof. unfold enc_consumed_witness, dec_consumed_witness. exact_record. Qed.

Definition compaction_state_valid (s : CompactionOperationState) : Prop :=
  match s with
  | CmpStopping nonce => fixed 16 nonce
  | CmpConsumed w => consumed_valid w
  | _ => True
  end.
#[global] Instance compaction_state_exact :
  Exact compaction_state_valid enc_compaction_state dec_compaction_state.
Proof.
  intros bs v rest. unfold dec_compaction_state. split.
  - intros Hd. part_inv Hd. tag_cases x; variant_fields Hd.
  - intros [Hv ->]. destruct v; cbn [compaction_state_valid enc_compaction_state] in *; unfold variant; run_part;
      lazy beta iota.
    all: first [ done
               | apply fmap_Ok; eexists; split; [|reflexivity]; by apply exact ].
Qed.

Definition claim_witness_valid (c : CompactionDispatchClaimWitness) : Prop :=
  is_rev (cc_source c) /\ fixed 16 (cc_attempt c).
#[global] Instance claim_witness_exact : Exact claim_witness_valid enc_claim dec_claim.
Proof. unfold enc_claim, dec_claim. exact_record. Qed.
Definition request_observation_valid (q : CompactionRequestObservation) : Prop :=
  is_rev (rq_revision q) /\ any (rq_disposition q).
#[global] Instance request_observation_exact :
  Exact request_observation_valid enc_request_observation dec_request_observation.
Proof. unfold enc_request_observation, dec_request_observation. exact_record. Qed.
Definition status_observation_valid (s : CompactionStatusObservation) : Prop :=
  is_rev (ts_sequence s) /\ any (ts_status s).
#[global] Instance status_observation_exact :
  Exact status_observation_valid enc_status_observation dec_status_observation.
Proof. unfold enc_status_observation, dec_status_observation. exact_record. Qed.
Definition cas_turn_observation_valid (t : CompactionCasTurnObservation) : Prop :=
  is_rev (ctu_sequence t) /\ is_external (ctu_cas_turn t).
#[global] Instance cas_turn_observation_exact :
  Exact cas_turn_observation_valid enc_cas_turn_observation dec_cas_turn_observation.
Proof. unfold enc_cas_turn_observation, dec_cas_turn_observation, dec_cas_turn. exact_record. Qed.
Definition marker_observation_valid (m : CompactionMarkerObservation) : Prop :=
  is_rev (mk_sequence m) /\ fixed 16 (mk_item m) /\ any (mk_lifecycle m).
#[global] Instance marker_observation_exact :
  Exact marker_observation_valid enc_marker_observation dec_marker_observation.
Proof. unfold enc_marker_observation, dec_marker_observation. exact_record. Qed.
Definition terminal_observation_valid (t : CompactionTerminalObservation) : Prop :=
  is_rev (tm_sequence t) /\ end_status_valid (tm_status t) /\ is_rev (tm_turn_state t).
#[global] Instance terminal_observation_exact :
  Exact terminal_observation_valid enc_terminal_observation dec_terminal_observation.
Proof.
  intros bs v rest. unfold enc_terminal_observation, dec_terminal_observation. split.
  - intros Hd. parts_inv Hd. split; [by split_and!|]. cbn [tm_sequence tm_status tm_turn_state].
    by rewrite <- !app_assoc.
  - intros [(H1 & H2 & H3) ->]. destruct v as [q s t]. cbn [tm_sequence tm_status tm_turn_state] in *.
    run_part. eapply (bind_run dec_turn_end_status); [exact H2|reflexivity|]. by run_part.
Qed.

Definition compaction_fields_valid (r : CompactionOperationRecord) : Prop :=
  compaction_id_valid (co_id r) /\ fixed 16 (co_home r) /\ compaction_target_valid (co_target r)
  /\ is_rev (co_revision r) /\ fixed 16 (co_attempt r) /\ opt_valid claim_witness_valid (co_claim r)
  /\ opt_valid request_observation_valid (co_request r) /\ opt_valid is_rev (co_frontier r)
  /\ opt_valid status_observation_valid (co_status r) /\ opt_valid cas_turn_observation_valid (co_cas_turn r)
  /\ opt_valid marker_observation_valid (co_marker r) /\ opt_valid terminal_observation_valid (co_terminal r)
  /\ compaction_state_valid (co_state r).
#[global] Instance compaction_fields_exact :
  Exact compaction_fields_valid encode_compaction_value dec_compaction_fields.
Proof.
  intros bs r rest. unfold dec_compaction_fields. split.
  - intros Hd. parts_inv Hd. split; [by split_and!|].
    unfold encode_compaction_value; cbn [co_id co_home co_target co_revision co_attempt co_claim co_request
      co_frontier co_status co_cas_turn co_marker co_terminal co_state].
    rewrite <- !app_assoc. reflexivity.
  - intros [(H1 & H2 & H3 & H4 & H5 & H6 & H7 & H8 & H9 & H10 & H11 & H12 & H13) ->].
    destruct r as [id home t rev att cl rq fr st ct mk tm s].
    cbn [co_id co_home co_target co_revision co_attempt co_claim co_request co_frontier co_status co_cas_turn
      co_marker co_terminal co_state] in *.
    unfold encode_compaction_value; cbn [co_id co_home co_target co_revision co_attempt co_claim co_request
      co_frontier co_status co_cas_turn co_marker co_terminal co_state].
    eapply (bind_run dec_compaction_id); [exact H1|rewrite <- ?app_assoc; reflexivity|].
    eapply (bind_run d_fixed16); [exact H2|reflexivity|].
    eapply (bind_run dec_compaction_target); [exact H3|reflexivity|].
    eapply (bind_run (dec_compaction_revision _)); [exact H4|reflexivity|].
    eapply (bind_run d_fixed16); [exact H5|reflexivity|].
    eapply (bind_run (dec_opt _ dec_claim)); [exact H6|reflexivity|].
    eapply (bind_run (dec_opt _ dec_request_observation)); [exact H7|reflexivity|].
    eapply (bind_run (dec_opt _ dec_provider_sequence)); [exact H8|reflexivity|].
    eapply (bind_run (dec_opt _ dec_status_observation)); [exact H9|reflexivity|].
    eapply (bind_run (dec_opt _ dec_cas_turn_observation)); [exact H10|reflexivity|].
    eapply (bind_run (dec_opt _ dec_marker_observation)); [exact H11|reflexivity|].
    eapply (bind_run (dec_opt _ dec_terminal_observation)); [exact H12|reflexivity|].
    eapply (bind_run dec_compaction_state); [exact H13|reflexivity|]. done.
Qed.

Lemma rebuild_compaction_same r r' : rebuild_compaction r = Ok r' -> r' = r.
Proof. unfold rebuild_compaction, new_compaction. case_match; [done|]. intros [= <-]. by destruct r. Qed.
Lemma rebuild_receipt_same r r' : rebuild_receipt r = Ok r' -> r' = r.
Proof. unfold rebuild_receipt, new_receipt. case_match; [done|]. intros [= <-]. by destruct r. Qed.

Definition continuation_valid (c : CompactionContinuationReceipt) : Prop :=
  parent_valid (cn_parent c) /\ selected_path_valid (cn_selected_path c)
  /\ is_rev (cn_binding_revision c) /\ reference_valid (cn_content c).
#[global] Instance continuation_exact : Exact continuation_valid enc_continuation dec_continuation.
Proof.
  intros bs v rest. unfold enc_continuation, dec_continuation. split.
  - intros Hd. parts_inv Hd. split; [by split_and!|].
    cbn [cn_parent cn_selected_path cn_binding_revision cn_content]. by rewrite <- !app_assoc.
  - intros [(H1 & H2 & H3 & H4) ->]. destruct v as [p s b c].
    cbn [cn_parent cn_selected_path cn_binding_revision cn_content] in *.
    eapply (bind_run dec_parent); [exact H1|rewrite <- ?app_assoc; reflexivity|].
    eapply (bind_run dec_selected_path); [exact H2|reflexivity|].
    eapply (bind_run (dec_rev _)); [exact H3|reflexivity|].
    eapply (bind_run dec_content_ref); [exact H4|reflexivity|]. done.
Qed.

Definition receipt_fields_valid (r : CompactionSettlementReceiptRecord) : Prop :=
  compaction_id_valid (rc_operation r) /\ is_rev (rc_source_revision r) /\ is_rev (rc_successor_revision r)
  /\ gate_record_valid (rc_source_gate r) /\ gate_record_valid (rc_successor_gate r)
  /\ settlement_valid (rc_settlement r) /\ opt_valid continuation_valid (rc_continuation r).
#[global] Instance receipt_fields_exact : Exact receipt_fields_valid encode_receipt_value dec_receipt_fields.
Proof.
  intros bs r rest. unfold dec_receipt_fields. split.
  - intros Hd. parts_inv Hd. split; [by split_and!|].
    unfold encode_receipt_value; cbn [rc_operation rc_source_revision rc_successor_revision rc_source_gate
      rc_successor_gate rc_settlement rc_continuation]. rewrite <- !app_assoc. reflexivity.
  - intros [(H1 & H2 & H3 & H4 & H5 & H6 & H7) ->]. destruct r as [id s s' g g' st c].
    cbn [rc_operation rc_source_revision rc_successor_revision rc_source_gate rc_successor_gate rc_settlement
      rc_continuation] in *.
    unfold encode_receipt_value; cbn [rc_operation rc_source_revision rc_successor_revision rc_source_gate
      rc_successor_gate rc_settlement rc_continuation].
    eapply (bind_run dec_compaction_id); [exact H1|rewrite <- ?app_assoc; reflexivity|].
    eapply (bind_run (dec_compaction_revision _)); [exact H2|reflexivity|].
    eapply (bind_run (dec_compaction_revision _)); [exact H3|reflexivity|].
    eapply (bind_run dec_input_gate_record); [exact H4|reflexivity|].
    eapply (bind_run dec_input_gate_record); [exact H5|reflexivity|].
    eapply (bind_run dec_settlement); [exact H6|reflexivity|].
    eapply (bind_run (dec_opt _ dec_continuation)); [exact H7|reflexivity|]. done.
Qed.

#[global] Instance compaction_exact : Exact
  (fun r => compaction_fields_valid r /\ rebuild_compaction r = Ok r) encode_compaction_value dec_compaction.
Proof. apply rebuilt_exact; [apply _|exact rebuild_compaction_same]. Qed.
#[global] Instance receipt_exact : Exact
  (fun r => receipt_fields_valid r /\ rebuild_receipt r = Ok r) encode_receipt_value dec_receipt.
Proof. apply rebuilt_exact; [apply _|exact rebuild_receipt_same]. Qed.

(** The bytes hashed for a commitment. *)
Definition receipt_preimage (r : CompactionSettlementReceiptRecord) : list byte :=
  SETTLEMENT_RECEIPT_COMMITMENT_V1 ++ be_bytes 8 (zlen (encode_receipt_value r)) ++ encode_receipt_value r.

Lemma commitment_eq {H} `{Sha256Laws H} r :
  settlement_receipt_commitment (H := H) r = sha256 (receipt_preimage r).
Proof.
  unfold settlement_receipt_commitment, receipt_preimage. cbn zeta. rewrite finalize_absorbed, !absorbed_update, absorbed_new.
  by rewrite app_nil_l, <- app_assoc.
Qed.

Lemma receipt_bytes_inj r r' : receipt_fields_valid r -> receipt_fields_valid r' ->
  encode_receipt_value r = encode_receipt_value r' -> r = r'.
Proof.
  intros Hr Hr' E.
  assert (dec_receipt_fields (encode_receipt_value r) = Ok (r, [])) as E1
    by (apply (exact (dec := dec_receipt_fields)); by rewrite app_nil_r).
  assert (dec_receipt_fields (encode_receipt_value r') = Ok (r', [])) as E2
    by (apply (exact (dec := dec_receipt_fields)); by rewrite app_nil_r).
  rewrite E in E1. congruence.
Qed.

(** ** Theorems *)

(** A byte string decodes to a compaction operation exactly when the record has the types of
    the program, passes the record's constructor and the string is its encoding; and likewise for
    the receipt of a settlement, whose constructor checks the gate transition. *)
Theorem compaction_codec_exact bs r c :
  (decode_compaction_value bs = Ok r <->
   (compaction_fields_valid r /\ rebuild_compaction r = Ok r) /\ bs = encode_compaction_value r)
  /\ (decode_receipt_value bs = Ok c <->
      (receipt_fields_valid c /\ transition_shape_is_exact c = true) /\ bs = encode_receipt_value c).
Proof.
  split; [exact (run_exact _ _ dec_compaction bs r)|]. unfold decode_receipt_value.
  rewrite (run_exact _ _ dec_receipt bs c).
  assert (rebuild_receipt c = Ok c <-> transition_shape_is_exact c = true) as Hi; [|by rewrite Hi].
  unfold rebuild_receipt, new_receipt. destruct c as [id s s' g g' st k];
    cbn [rc_operation rc_source_revision rc_successor_revision rc_source_gate rc_successor_gate rc_settlement
      rc_continuation]. destruct (transition_shape_is_exact _); cbn; done.
Qed.

(** A consumed operation's commitment determines the receipt: two receipts of the program
    with the same commitment are equal, unless the two strings hashed for them differ and hash
    alike. *)
Theorem receipt_commitment_binds {H} `{Sha256Laws H} r r' :
  receipt_fields_valid r -> receipt_fields_valid r' ->
  settlement_receipt_commitment (H := H) r = settlement_receipt_commitment (H := H) r' ->
  r = r' \/ clash (H := H) [receipt_preimage r] [receipt_preimage r'].
Proof.
  intros Hr Hr'. rewrite !commitment_eq. intros E.
  apply (same_preimage _ _ [receipt_preimage r] [receipt_preimage r']) in E as [E|?]; [left|by right|set_solver..].
  unfold receipt_preimage in E. apply app_inv_head in E.
  apply app_inj_1 in E as [_ E]; [|by rewrite !length_be_bytes]. by apply receipt_bytes_inj.
Qed.

Definition sample_gate (revision : Z) (s : InputGateState) : InputGateRecord :=
  mkGate (replicate 16 x01) revision s 3 (Some 2) None 0 1 10.
Definition sample_receipt (reason : CompactionAbandonmentReason) : CompactionSettlementReceiptRecord :=
  mkReceipt (mkCompactionId (replicate 16 x01) (replicate 16 x02)) 3 4
    (sample_gate 5 (GateCompacting (replicate 16 x02) (replicate 16 x02))) (sample_gate 6 GateIdle)
    (SettledAbandoned reason) None.

Lemma sample_receipt_valid reason : receipt_fields_valid (sample_receipt reason).
Proof. split_and!; try done; repeat split; done. Qed.

Lemma receipt_commitment_binds_witness :
  sample_receipt CaCompletionUnknown = sample_receipt CaTargetAuthorityLost
  \/ clash (H := list byte) [receipt_preimage (sample_receipt CaCompletionUnknown)]
       [receipt_preimage (sample_receipt CaTargetAuthorityLost)].
Proof.
  apply (receipt_commitment_binds (H := list byte));
    [apply sample_receipt_valid..|vm_compute; reflexivity].
Defined.
