(* ===== verification/CompactionLedger.v ===== *)
(** * Histories of a compaction operation

    The transitions of [CompactionOperation] under the guards of the mutations that call them
    ([mutation/compaction/observation.rs], [settlement.rs], [continuation.rs],
    [mutation/stop/admission.rs], [transition.rs], [abandonment/provider.rs]), as a step relation
    on records, and the ledger that every history leaves in the record: what the revision, the
    provider frontier and the observations say about the steps taken. *)
From stdpp Require Import prelude strings.
From S2P Require Import Prelude.
From S2P Require Import Bytes.
From S2P Require Import ModelIds.
From S2P Require Import SyndicValues.
From S2P Require Import StopOperation.
From S2P Require Import SyndicRecords.
From S2P Require Import CompactionOperation.

(** [mutation/stop/abandonment/provider.rs] settles the operation with the reason of the stop. *)
Definition settled_reason (r : StopAbandonmentReason) : CompactionAbandonmentReason :=
  match r with
  | StartupProcessGenerationLost => CaStartupProcessGenerationLost
  | ProviderRejectedBeforeCoreInterrupt | TargetAuthorityLost => CaTargetAuthorityLost
  end.

Inductive compaction_event :=
  | EvClaim (attempt : list byte)
  | EvRequest (d : CompactionRequestDisposition)
  | EvStatus (sequence : Z) (status : CompactionThreadStatus)
  | EvTurn (sequence : Z) (cas_turn : list byte)
  | EvMarker (marker : CompactionMarkerObservation)
  | EvTerminal (sequence : Z) (status : TurnEndStatus) (turn_state : Z)
  | EvHandoff (nonce : list byte)
  | EvReopen (nonce : list byte)
  | EvAbandon (nonce : list byte) (reason : StopAbandonmentReason) (gate : Z) (commitment : list byte)
  | EvSettle (settlement : CompactionSettlement) (next_turns gate : Z) (commitment : list byte)
  | EvContinue (turn item content : list byte) (gate : Z) (commitment : list byte).

(** One mutation of the record: the guard of the caller, then the transition. *)
Inductive step : CompactionOperationRecord -> compaction_event -> CompactionOperationRecord -> Prop :=
  | step_claim r a r' : claim_dispatch r a = Ok r' -> step r (EvClaim a) r'
  | step_request r d r' : observe_request r d = Ok r' -> step r (EvRequest d) r'
  | step_status r q s r' :
      co_terminal r = None -> observe_status r q s = Ok r' -> step r (EvStatus q s) r'
  | step_turn r q t r' :
      co_terminal r = None -> observe_cas_turn r q t = Ok r' -> step r (EvTurn q t) r'
  | step_marker r m r' :
      co_terminal r = None -> observe_marker r m = Ok r' -> step r (EvMarker m) r'
  | step_terminal r q s t r' :
      co_terminal r = None -> observe_terminal r q s t = Ok r' -> step r (EvTerminal q s t) r'
  | step_handoff r n r' : handoff_to_stop r n = Ok r' -> step r (EvHandoff n) r'
  | step_reopen r n r' : reopen_from_stop r n = Ok r' -> step r (EvReopen n) r'
  | step_abandon r n why g c r' :
      abandon_from_stop r n g (SettledAbandoned (settled_reason why)) c = Ok r' ->
      step r (EvAbandon n why g c) r'
  | step_settle r s n g c r' :
      settlement_is_admitted r s n = true -> consume_compaction r g s c = Ok r' ->
      step r (EvSettle s n g c) r'
  | step_continue r t i k g c r' :
      successful_compaction r = true -> consume_compaction r g (LifecycleContinuation t i k) c = Ok r' ->
      step r (EvContinue t i k g c) r'.

(** The records of the program: an admission, then steps. *)
Definition reached (tr : list compaction_event) (r : CompactionOperationRecord) : Prop :=
  exists id home target attempt r0,
    admit_compaction id home target attempt = Ok r0 /\ steps step r0 tr r.

(** ** Guards and successors *)

Definition provider_guard (r : CompactionOperationRecord) (sequence : Z) : Prop :=
  is_Some (co_claim r) /\
  match co_state r with CmpAdmitted | CmpConsumed _ => False | _ => True end /\
  sequence_expected (co_frontier r) sequence = true.

Definition settles_from (s : CompactionOperationState) : Prop :=
  match s with CmpConsumed _ | CmpStopping _ => False | _ => True end.

Definition guard (r : CompactionOperationRecord) (e : compaction_event) : Prop :=
  match e with
  | EvClaim a => co_state r = CmpAdmitted /\ co_claim r = None /\ co_attempt r = a
  | EvRequest d => is_Some (co_claim r) /\ co_request r = None /\ is_Some (ok (observed_state (co_state r) d))
  | EvStatus q _ => co_terminal r = None /\ provider_guard r q
  | EvTurn q _ => co_terminal r = None /\ co_cas_turn r = None /\ provider_guard r q
  | EvMarker m =>
      co_terminal r = None /\ is_Some (co_cas_turn r) /\
      match co_marker r with
      | None => mk_lifecycle m = MkStarted
      | Some p => mk_item p = mk_item m /\ mk_lifecycle p = MkStarted /\ mk_lifecycle m = MkCompleted
      end /\ provider_guard r (mk_sequence m)
  | EvTerminal q _ _ => co_terminal r = None /\ is_Some (co_cas_turn r) /\ provider_guard r q
  | EvHandoff _ =>
      match co_state r with CmpDispatchClaimed | CmpLive => True | _ => False end /\
      is_Some (co_cas_turn r) /\ co_terminal r = None
  | EvReopen n | EvAbandon n _ _ _ => co_state r = CmpStopping n /\ co_terminal r = None
  | EvSettle s n _ _ => settlement_is_admitted r s n = true /\ settles_from (co_state r)
  | EvContinue _ _ _ _ _ => successful_compaction r = true /\ settles_from (co_state r)
  end.

Definition set_state (r : CompactionOperationRecord) (s : CompactionOperationState) : CompactionOperationRecord :=
  mkCompaction (co_id r) (co_home r) (co_target r) (co_revision r + 1) (co_attempt r) (co_claim r)
    (co_request r) (co_frontier r) (co_status r) (co_cas_turn r) (co_marker r) (co_terminal r) s.
Definition set_provider (r : CompactionOperationRecord) (q : Z) (st : option CompactionStatusObservation)
    (ct : option CompactionCasTurnObservation) (mk : option CompactionMarkerObservation)
    (tm : option CompactionTerminalObservation) (s : CompactionOperationState) : CompactionOperationRecord :=
  mkCompaction (co_id r) (co_home r) (co_target r) (co_revision r + 1) (co_attempt r) (co_claim r)
    (co_request r) (Some q) st ct mk tm s.
Definition consumed_as (r : CompactionOperationRecord) (g : Z) (s : CompactionSettlement) (c : list byte)
    : CompactionOperationState :=
  CmpConsumed (mkConsumedWitness (co_revision r) g s c).

Definition successor (r : CompactionOperationRecord) (e : compaction_event) : CompactionOperationRecord :=
  match e with
  | EvClaim a =>
      mkCompaction (co_id r) (co_home r) (co_target r) (co_revision r + 1) (co_attempt r)
        (Some (mkCompactionClaim (co_revision r) a)) (co_request r) (co_frontier r) (co_status r)
        (co_cas_turn r) (co_marker r) (co_terminal r) CmpDispatchClaimed
  | EvRequest d =>
      mkCompaction (co_id r) (co_home r) (co_target r) (co_revision r + 1) (co_attempt r) (co_claim r)
        (Some (mkRequest (co_revision r + 1) d)) (co_frontier r) (co_status r) (co_cas_turn r)
        (co_marker r) (co_terminal r) (default (co_state r) (ok (observed_state (co_state r) d)))
  | EvStatus q s => set_provider r q (Some (mkStatus q s)) (co_cas_turn r) (co_marker r) (co_terminal r) (co_state r)
  | EvTurn q t => set_provider r q (co_status r) (Some (mkCasTurn q t)) (co_marker r) (co_terminal r) (co_state r)
  | EvMarker m => set_provider r (mk_sequence m) (co_status r) (co_cas_turn r) (Some m) (co_terminal r) (co_state r)
  | EvTerminal q s t =>
      set_provider r q (co_status r) (co_cas_turn r) (co_marker r) (Some (mkTerminal q s t)) CmpFinalizing
  | EvHandoff n => set_state r (CmpStopping n)
  | EvReopen _ => set_state r (if requested r RqAccepted then CmpLive else CmpDispatchClaimed)
  | EvAbandon _ why g c => set_state r (consumed_as r g (SettledAbandoned (settled_reason why)) c)
  | EvSettle s _ g c => set_state r (consumed_as r g s c)
  | EvContinue t i k g c => set_state r (consumed_as r g (LifecycleContinuation t i k) c)
  end.

(** What the constructor checks. *)
Definition compaction_ok (r : CompactionOperationRecord) : Prop :=
  cmp_thread (co_id r) = ct_thread (co_target r) /\ provider_turn_id (co_id r) = ct_turn (co_target r)
  /\ (forall c, co_claim r = Some c -> cc_attempt c = co_attempt r)
  /\ (is_Some (co_request r) -> is_Some (co_claim r)) /\ (is_Some (co_frontier r) -> is_Some (co_claim r))
  /\ (forall v, co_status r = Some v -> beyond (ts_sequence v) (co_frontier r) = false)
  /\ (forall v, co_cas_turn r = Some v -> beyond (ctu_sequence v) (co_frontier r) = false)
  /\ (forall v, co_marker r = Some v -> beyond (mk_sequence v) (co_frontier r) = false)
  /\ (forall v, co_terminal r = Some v -> beyond (tm_sequence v) (co_frontier r) = false)
  /\ (forall v, co_marker r = Some v -> mk_lifecycle v = MkCompleted -> is_Some (co_cas_turn r))
  /\ (co_state r = CmpFinalizing -> is_Some (co_terminal r))
  /\ (forall n, co_state r = CmpStopping n -> is_Some (co_cas_turn r)).

Lemma on_some_false {A} (p : A -> bool) o : on_some p o = false <-> forall a, o = Some a -> p a = false.
Proof. destruct o; cbn; naive_solver. Qed.
Lemma is_none_true {A} (o : option A) : is_none o = true <-> o = None.
Proof. destruct o; naive_solver. Qed.
Lemma is_none_false {A} (o : option A) : is_none o = false <-> is_Some o.
Proof. destruct o; cbn; split; try done; intros [? ?]; done. Qed.
Lemma is_some_true {A} (o : option A) : is_some o = true <-> is_Some o.
Proof. unfold is_some. rewrite negb_true_iff. apply is_none_false. Qed.
Lemma is_some_false {A} (o : option A) : is_some o = false <-> o = None.
Proof. unfold is_some. rewrite negb_false_iff. apply is_none_true. Qed.

Lemma some_implies {A B} (a : option A) (b : option B) :
  is_some a && is_none b = false <-> (is_Some a -> is_Some b).
Proof. rewrite andb_false_iff, is_some_false, is_none_false. destruct a, b; cbn; naive_solver. Qed.

Lemma and_congr (A B C D : Prop) : (A <-> C) -> (B <-> D) -> A /\ B <-> C /\ D.
Proof. tauto. Qed.

Lemma new_compaction_Ok id home t rev att cl rq fr st ct mk tm s r :
  new_compaction id home t rev att cl rq fr st ct mk tm s = Ok r <->
  r = mkCompaction id home t rev att cl rq fr st ct mk tm s /\ compaction_ok r.
Proof.
  unfold new_compaction. set (b := _ || _). assert (b = false <->
    compaction_ok (mkCompaction id home t rev att cl rq fr st ct mk tm s)) as Hb.
  { unfold b, compaction_ok. cbn [co_id co_home co_target co_revision co_attempt co_claim co_request co_frontier
      co_status co_cas_turn co_marker co_terminal co_state].
    rewrite !orb_false_iff, !negb_false_iff, !bool_decide_eq_true, !on_some_false, !some_implies.
    rewrite !Logic.and_assoc. repeat (apply and_congr; [try done|]).
    - split; intros Hc c Ec; specialize (Hc c Ec);
        [by apply negb_false_iff, bool_decide_eq_true in Hc|by apply negb_false_iff, bool_decide_eq_true].
    - split; intros Hm v Ev; specialize (Hm v Ev).
      + intros El. rewrite El in Hm. by apply is_none_false.
      + rewrite andb_false_iff, bool_decide_eq_false, is_none_false.
        destruct (decide (mk_lifecycle v = MkCompleted)); auto.
    - destruct s; cbn; rewrite ?is_none_false; split; auto; done.
    - destruct s as [| | |n| |]; cbn; rewrite ?is_none_false; split; intros Hs; try done; by apply (Hs n). }
  destruct b.
  - split; [done|]. intros [-> H]. apply Hb in H. done.
  - split; [intros [= <-]; split; [done|by apply Hb]|]. by intros [-> _].
Qed.

Lemma next_value_ok kind v w : 0 <= v -> ok (next_compaction_value kind v) = Some w <-> w = v + 1 /\ v + 1 <= U64_MAX.
Proof.
  unfold next_compaction_value, checked_add64, nonzero. intros Hv.
  destruct (Z.leb_spec (v + 1) U64_MAX); cbn; [|naive_solver lia].
  destruct (Z.eqb_spec (v + 1) 0); [lia|]. cbn. split; [intros [= <-]; lia|]. by intros [-> _].
Qed.

Lemma compaction_advance_Ok r v : 0 <= co_revision r ->
  advance_revision r = Ok v <-> v = co_revision r + 1 /\ co_revision r + 1 <= U64_MAX.
Proof.
  intros Hr. rewrite <- (next_value_ok "compaction-operation revision") by done.
  unfold advance_revision, next_compaction_revision. destruct (next_compaction_value _ _); cbn; naive_solver.
Qed.

Lemma with_state_Ok r s r' : 0 <= co_revision r ->
  with_state r s = Ok r' <-> co_revision r + 1 <= U64_MAX /\ r' = set_state r s /\ compaction_ok r'.
Proof.
  intros Hr. unfold with_state. rewrite result_bind_Ok. split.
  - intros (v & Hv & H). apply compaction_advance_Ok in Hv as [-> Hm]; [|done]. by apply new_compaction_Ok in H.
  - intros (Hm & -> & Hok). exists (co_revision r + 1). split; [by apply compaction_advance_Ok|]. by apply new_compaction_Ok.
Qed.

Lemma observe_provider_Ok r q st ct mk tm s r' : 0 <= co_revision r ->
  observe_provider r q st ct mk tm s = Ok r' <->
  provider_guard r q /\ co_revision r + 1 <= U64_MAX /\ r' = set_provider r q st ct mk tm s /\ compaction_ok r'.
Proof.
  intros Hr. unfold observe_provider, provider_guard. set (b := _ || _).
  assert (b = false <-> provider_guard r q) as Hb.
  { unfold b, provider_guard. rewrite !orb_false_iff, is_none_false, negb_false_iff.
    destruct (co_state r); naive_solver. }
  fold (provider_guard r q). rewrite <- Hb. destruct b; [naive_solver|]. rewrite result_bind_Ok. split.
  - intros (v & Hv & H). apply compaction_advance_Ok in Hv as [-> Hm]; [|done]. by apply new_compaction_Ok in H.
  - intros (_ & Hm & -> & Hok). exists (co_revision r + 1). split; [by apply compaction_advance_Ok|]. by apply new_compaction_Ok.
Qed.

(** A refusing test in front of a computation. *)
Lemma test_Ok {E A} (b : bool) (e : E) (m : result E A) a P Q :
  (b = false <-> P) -> (m = Ok a <-> Q) -> (if b then Err e else m) = Ok a <-> P /\ Q.
Proof. intros <- <-. destruct b; naive_solver. Qed.

Lemma consume_Ok r g s c r' : 0 <= co_revision r ->
  consume_compaction r g s c = Ok r' <->
  settles_from (co_state r) /\ co_revision r + 1 <= U64_MAX /\ r' = set_state r (consumed_as r g s c) /\ compaction_ok r'.
Proof.
  intros Hr. unfold consume_compaction, consume_successor. fold (consumed_as r g s c).
  rewrite <- with_state_Ok by done. destruct (co_state r); cbn; naive_solver.
Qed.

Lemma step_iff r e r' : 0 <= co_revision r ->
  step r e r' <-> guard r e /\ co_revision r + 1 <= U64_MAX /\ r' = successor r e /\ compaction_ok r'.
Proof.
  intros Hr. destruct e as [a|d|q s|q t|m|q s t|n|n|n why g c|s k g c|t i k g c]; cbn [guard successor].
  - trans (claim_dispatch r a = Ok r'); [split; [by inversion 1|by constructor]|]. apply test_Ok.
    + rewrite !orb_false_iff, !negb_false_iff, !bool_decide_eq_true, is_some_false. tauto.
    + rewrite result_bind_Ok. setoid_rewrite (compaction_advance_Ok r _ Hr). setoid_rewrite new_compaction_Ok. naive_solver.
  - trans (observe_request r d = Ok r'); [split; [by inversion 1|by constructor]|].
    unfold observe_request. rewrite (Logic.and_assoc (is_Some _)), (Logic.and_assoc (_ = None)), <- Logic.and_assoc.
    apply test_Ok; [by rewrite orb_false_iff, is_none_false, is_some_false|].
    rewrite result_bind_Ok. setoid_rewrite (compaction_advance_Ok r _ Hr). setoid_rewrite result_bind_Ok.
    setoid_rewrite new_compaction_Ok. destruct (observed_state (co_state r) d) as [s|]; cbn; naive_solver.
  - trans (co_terminal r = None /\ observe_status r q s = Ok r');
      [split; [by inversion 1|intros []; by constructor]|].
    unfold observe_status. rewrite observe_provider_Ok by done. tauto.
  - trans (co_terminal r = None /\ observe_cas_turn r q t = Ok r');
      [split; [by inversion 1|intros []; by constructor]|].
    unfold observe_cas_turn. rewrite !Logic.and_assoc. apply and_congr; [done|].
    apply test_Ok; [apply is_some_false|]. by apply observe_provider_Ok.
  - trans (co_terminal r = None /\ observe_marker r m = Ok r');
      [split; [by inversion 1|intros []; by constructor]|].
    unfold observe_marker. rewrite !Logic.and_assoc. apply and_congr; [done|].
    rewrite <- Logic.and_assoc. apply test_Ok; [|by apply observe_provider_Ok].
    rewrite orb_false_iff, negb_false_iff, is_none_false.
    destruct (co_marker r); rewrite ?andb_true_iff, !bool_decide_eq_true; tauto.
  - trans (co_terminal r = None /\ observe_terminal r q s t = Ok r');
      [split; [by inversion 1|intros []; by constructor]|].
    assert (co_terminal r = None -> observe_terminal r q s t = Ok r' <-> is_Some (co_cas_turn r) /\
      provider_guard r q /\ co_revision r + 1 <= U64_MAX /\ r' = successor r (EvTerminal q s t) /\ compaction_ok r');
      [|cbn [successor] in *; tauto].
    intros Htm. apply test_Ok; [rewrite Htm; apply is_none_false|]. by apply observe_provider_Ok.
  - trans (handoff_to_stop r n = Ok r'); [split; [by inversion 1|by constructor]|]. apply test_Ok.
    + rewrite !orb_false_iff, negb_false_iff, is_none_false, is_some_false. destruct (co_state r); naive_solver.
    + by apply with_state_Ok.
  - trans (reopen_from_stop r n = Ok r'); [split; [by inversion 1|by constructor]|]. apply test_Ok.
    + by rewrite !orb_false_iff, negb_false_iff, bool_decide_eq_true, is_some_false.
    + by apply with_state_Ok.
  - trans (abandon_from_stop r n g (SettledAbandoned (settled_reason why)) c = Ok r');
      [split; [by inversion 1|by constructor]|]. apply test_Ok.
    + by rewrite !orb_false_iff, negb_false_iff, bool_decide_eq_true, is_some_false.
    + by apply with_state_Ok.
  - trans (settlement_is_admitted r s k = true /\ consume_compaction r g s c = Ok r');
      [split; [by inversion 1|intros []; by constructor]|]. rewrite consume_Ok by done. tauto.
  - trans (successful_compaction r = true /\ consume_compaction r g (LifecycleContinuation t i k) c = Ok r');
      [split; [by inversion 1|intros []; by constructor]|]. rewrite consume_Ok by done. tauto.
Qed.

(** ** The ledger *)

(** [latest_provider_sequence]: the largest sequence the observations carry. *)
Definition sequences (r : CompactionOperationRecord) : list Z :=
  omap id [ts_sequence <$> co_status r; ctu_sequence <$> co_cas_turn r; mk_sequence <$> co_marker r;
           tm_sequence <$> co_terminal r].
Definition list_max (l : list Z) : option Z :=
  match l with [] => None | x :: l => Some (fold_left Z.max l x) end.
Definition latest_provider_sequence (r : CompactionOperationRecord) : option Z := list_max (sequences r).

Definition b2z (b : bool) : Z := if b then 1 else 0.
Fixpoint count (p : compaction_event -> bool) (tr : list compaction_event) : Z :=
  match tr with [] => 0 | e :: tr => b2z (p e) + count p tr end.
Definition is_handoff (e : compaction_event) : bool := match e with EvHandoff _ => true | _ => false end.
Definition is_reopen (e : compaction_event) : bool := match e with EvReopen _ => true | _ => false end.
Definition is_consumed (s : CompactionOperationState) : bool := match s with CmpConsumed _ => true | _ => false end.

(** The provider observations published so far. *)
Definition observed (r : CompactionOperationRecord) : Z := default 0 (co_frontier r).

Definition state_consistent (r : CompactionOperationRecord) : Prop :=
  match co_state r with
  | CmpAdmitted => co_claim r = None
  | CmpDispatchClaimed | CmpStopping _ => is_Some (co_claim r) /\ co_terminal r = None
  | CmpLive => is_Some (co_claim r) /\ co_terminal r = None /\ requested r RqAccepted = true
  | CmpFinalizing => is_Some (co_claim r)
  | CmpConsumed _ => consumed_witness_is_exact r = true
  end.

(** Every reopening follows a handoff, and a record that is stopping has one more handoff. *)
Definition stops_balanced (s : CompactionOperationState) (handoffs reopens : Z) : Prop :=
  match s with
  | CmpStopping _ => handoffs = reopens + 1
  | CmpAdmitted => handoffs = 0 /\ reopens = 0
  | CmpDispatchClaimed | CmpLive => handoffs = reopens
  | CmpFinalizing | CmpConsumed _ => handoffs = reopens \/ handoffs = reopens + 1
  end.

Record ledger (tr : list compaction_event) (r : CompactionOperationRecord) : Prop := mkLedger {
  lg_ok : compaction_ok r;
  lg_revision : co_revision r = 1 + zlen tr /\ co_revision r <= U64_MAX;
  lg_parts : zlen tr = b2z (is_some (co_claim r)) + b2z (is_some (co_request r)) + observed r
                       + count is_handoff tr + count is_reopen tr + b2z (is_consumed (co_state r));
  lg_claim : forall c, co_claim r = Some c -> cc_source c = CMP_FIRST;
  lg_seen : forall f, co_frontier r = Some f -> 1 <= f /\ f ∈ sequences r;
  lg_request : forall q, co_request r = Some q -> 3 <= rq_revision q <= co_revision r;
  lg_state : state_consistent r;
  lg_stops : stops_balanced (co_state r) (count is_handoff tr) (count is_reopen tr) }.

Lemma count_snoc p tr e : count p (tr ++ [e]) = count p tr + b2z (p e).
Proof. induction tr as [|x tr IH]; cbn; [lia|]. rewrite IH. lia. Qed.
Lemma count_nonneg p tr : 0 <= count p tr.
Proof. induction tr as [|x tr IH]; cbn; [done|]. unfold b2z. case_match; lia. Qed.

Lemma admitted_ledger id home t att r : admit_compaction id home t att = Ok r -> ledger [] r.
Proof.
  intros H. apply new_compaction_Ok in H as [-> Hok]. split; try done.
Qed.

(** The observations of an operation that was not claimed. *)
Lemma unclaimed r : compaction_ok r -> co_claim r = None ->
  co_request r = None /\ co_frontier r = None /\ co_terminal r = None.
Proof.
  intros (_ & _ & _ & Hq & Hf & _ & _ & _ & Ht & _) Hc. rewrite Hc in *.
  assert (co_frontier r = None) as Ef by (destruct (co_frontier r); [destruct Hf; by eauto|done]).
  split_and!; [destruct (co_request r); [destruct Hq; by eauto|done]|done|].
  destruct (co_terminal r) as [v|]; [|done]. specialize (Ht v eq_refl). by rewrite Ef in Ht.
Qed.

Lemma expected_next r q : (forall f, co_frontier r = Some f -> 1 <= f) ->
  sequence_expected (co_frontier r) q = true -> q = observed r + 1.
Proof.
  unfold sequence_expected, observed. destruct (co_frontier r) as [f|]; cbn; intros Hf H.
  - bool_facts. specialize (Hf f eq_refl). apply next_value_ok in H; lia.
  - unfold CMP_FIRST in H. lia.
Qed.

(** A step whose successor is a provider observation. *)
Lemma provider_ledger tr r e q st ct mk tm s :
  ledger tr r -> provider_guard r q -> co_revision r + 1 <= U64_MAX ->
  compaction_ok (set_provider r q st ct mk tm s) ->
  q ∈ sequences (set_provider r q st ct mk tm s) ->
  is_handoff e = false -> is_reopen e = false -> is_consumed s = false ->
  state_consistent (set_provider r q st ct mk tm s) ->
  stops_balanced s (count is_handoff tr) (count is_reopen tr) ->
  ledger (tr ++ [e]) (set_provider r q st ct mk tm s).
Proof.
  intros [Hok [Hrev Hm] Hparts Hcl Hseen Hrq Hst Hbal] (Hc & Hs & Hq) Hmax Hok' Hin He1 He2 Hcons Hst' Hbal'.
  apply expected_next in Hq; [|intros f Ef; by apply Hseen]. pose proof (count_nonneg is_handoff tr).
  assert (Hcons0 : is_consumed (co_state r) = false) by (by destruct (co_state r)).
  assert (0 <= observed r)
    by (unfold observed; destruct (co_frontier r) as [f|]; cbn; [destruct (Hseen f eq_refl); lia|done]).
  split; rewrite ?length_app, ?count_snoc, ?He1, ?He2; cbn [length b2z]; rewrite ?Z.add_0_r; try done.
  - cbn. lia.
  - rewrite Hcons0 in Hparts. unfold observed in *. cbn -[b2z] in *. rewrite Hcons. cbn in *. lia.
  - cbn. intros f [= <-]. split; [lia|done].
  - cbn. intros v Ev. specialize (Hrq v Ev). lia.
Qed.

(** A step that keeps the observations. *)
Lemma state_ledger tr r e s :
  ledger tr r -> co_revision r + 1 <= U64_MAX -> compaction_ok (set_state r s) ->
  is_consumed (co_state r) = false ->
  b2z (is_handoff e) + b2z (is_reopen e) + b2z (is_consumed s) = 1 ->
  state_consistent (set_state r s) ->
  stops_balanced s (count is_handoff tr + b2z (is_handoff e)) (count is_reopen tr + b2z (is_reopen e)) ->
  ledger (tr ++ [e]) (set_state r s).
Proof.
  intros [Hok [Hrev Hm] Hparts Hcl Hseen Hrq Hst Hbal] Hmax Hok' Hcons0 Hone Hst' Hbal'.
  split; rewrite ?length_app, ?count_snoc; cbn [length]; try done.
  - cbn. lia.
  - rewrite Hcons0 in Hparts. unfold observed in *. cbn -[b2z] in *. cbn [b2z] in Hparts. lia.
  - cbn. intros v Ev. specialize (Hrq v Ev). lia.
Qed.

Lemma revision_follows_succ v : 0 <= v -> v + 1 <= U64_MAX -> revision_follows v (v + 1) = true.
Proof. intros. unfold revision_follows. apply bool_decide_eq_true. by apply next_value_ok. Qed.

Lemma revision_follows_iff v w : 0 <= v -> revision_follows v w = true <-> w = v + 1 /\ v + 1 <= U64_MAX.
Proof. intros. unfold revision_follows. rewrite bool_decide_eq_true. by apply next_value_ok. Qed.

(** A provider observation keeps the state of the record consistent. *)
Lemma same_state_consistent r q st ct mk :
  state_consistent r -> match co_state r with CmpAdmitted | CmpConsumed _ => False | _ => True end ->
  state_consistent (set_provider r q st ct mk (co_terminal r) (co_state r)).
Proof. unfold state_consistent, requested. cbn. by destruct (co_state r). Qed.

Lemma balanced_terminal s h p : stops_balanced s h p -> stops_balanced CmpFinalizing h p.
Proof. destruct s; cbn; lia. Qed.

Lemma settled_consistent r s g c : 0 <= co_revision r -> co_revision r + 1 <= U64_MAX ->
  compaction_ok r -> state_consistent r ->
  (exists n, settlement_is_admitted r s n = true)
  \/ (successful_compaction r = true /\ exists t i k, s = LifecycleContinuation t i k)
  \/ (exists why, s = SettledAbandoned (settled_reason why)) ->
  state_consistent (set_state r (consumed_as r g s c)).
Proof.
  intros Hr Hm Hok Hst Hs. unfold state_consistent. cbn [set_state co_state consumed_as].
  unfold consumed_witness_is_exact. cbn -[successful_compaction requested is_none is_some].
  rewrite revision_follows_succ by done. cbn [negb].
  destruct Hs as [[n Hs]|[(Hs & t & i & k & ->)|[why ->]]].
  - destruct s as [| |[]| | | |]; try done.
    + cbn in Hs. bool_facts. unfold state_consistent in Hst. rewrite Hs in Hst.
      destruct (unclaimed r Hok Hst) as (E1 & E2 & E3). by rewrite Hst, E1, E3.
    + by apply andb_true_iff in Hs as [_ ?].
  - done.
  - by destruct why.
Qed.

Lemma in_sequences r q :
  q ∈ sequences r <->
  (exists v, co_status r = Some v /\ ts_sequence v = q) \/ (exists v, co_cas_turn r = Some v /\ ctu_sequence v = q)
  \/ (exists v, co_marker r = Some v /\ mk_sequence v = q) \/ (exists v, co_terminal r = Some v /\ tm_sequence v = q).
Proof.
  unfold sequences. destruct (co_status r), (co_cas_turn r), (co_marker r), (co_terminal r); cbn;
    rewrite ?elem_of_cons, ?elem_of_nil; naive_solver.
Qed.

Lemma step_ledger tr r e r' : ledger tr r -> step r e r' -> ledger (tr ++ [e]) r'.
Proof.
  intros Hl Hs. pose proof Hl as [Hok [Hrev Hm] Hparts Hcl Hseen Hrq Hst Hbal].
  apply step_iff in Hs as (Hg & Hmax & -> & Hok'); [|lia].
  destruct e as [a|d|q s|q t|m|q s t|n|n|n why g c|s k g c|t i k g c]; cbn [guard successor] in *.
  - destruct Hg as (Es & Ec & Ea). destruct (unclaimed r Hok Ec) as (Eq & Ef & Et).
    rewrite Es, Ec, Eq in *. unfold observed in Hparts. rewrite Ef in *. cbn in Hparts, Hbal.
    split; rewrite ?length_app, ?count_snoc; cbn [length is_handoff is_reopen b2z co_claim co_request co_frontier
      co_state co_revision is_some is_none negb is_consumed]; try done.
    + lia.
    + unfold observed. cbn. lia.
    + intros c [= <-]. cbn. pose proof (count_nonneg is_handoff tr). pose proof (count_nonneg is_reopen tr).
      unfold CMP_FIRST. lia.
    + cbn. lia.
  - destruct Hg as ([cl Ec] & Eq & [s Es]). rewrite Ec, Eq, Es in *. cbn [is_some is_none negb b2z] in Hparts.
    pose proof (count_nonneg is_handoff tr). pose proof (count_nonneg is_reopen tr).
    assert (0 <= observed r)
      by (unfold observed; destruct (co_frontier r) as [f|]; cbn; [destruct (Hseen f eq_refl); lia|done]).
    assert (is_consumed (co_state r) = false /\ is_consumed s = false) as [E1 E2]
      by (destruct (co_state r), d; simplify_eq/=; done).
    rewrite E1 in Hparts. cbn in Hparts.
    split; rewrite ?length_app, ?count_snoc; cbn [length is_handoff is_reopen b2z co_claim co_request co_frontier
      co_state co_revision is_some is_none negb default from_option id]; try done.
    + lia.
    + change (observed (mkCompaction _ _ _ _ _ _ _ (co_frontier r) _ _ _ _ _)) with (observed r).
      rewrite E2. cbn. lia.
    + intros v [= <-]. cbn. lia.
    + unfold state_consistent, requested in *. destruct (co_state r), d; simplify_eq/=; naive_solver.
    + destruct (co_state r), d; simplify_eq/=; lia.
  - destruct Hg as (Et & Hp). apply provider_ledger; try done; [apply in_sequences; cbn; naive_solver|..].
    all: destruct Hp as (_ & Hp & _); first [by apply same_state_consistent|by destruct (co_state r)].
  - destruct Hg as (Et & _ & Hp). apply provider_ledger; try done; [apply in_sequences; cbn; naive_solver|..].
    all: destruct Hp as (_ & Hp & _); first [by apply same_state_consistent|by destruct (co_state r)].
  - destruct Hg as (Et & _ & _ & Hp). apply provider_ledger; try done; [apply in_sequences; cbn; naive_solver|..].
    all: destruct Hp as (_ & Hp & _); first [by apply same_state_consistent|by destruct (co_state r)].
  - destruct Hg as (Et & _ & Hp). apply provider_ledger; try done; [apply in_sequences; cbn; naive_solver|by destruct Hp|].
    by eapply balanced_terminal.
  - destruct Hg as (Es & _ & Et). unfold state_consistent in Hst.
    apply state_ledger; try done; destruct (co_state r); try done.
    1: by destruct Hst as [? _].
    all: cbn in *; lia.
  - destruct Hg as (Es & Et). unfold state_consistent in Hst. rewrite Es in *. destruct Hst as [Hc _].
    apply state_ledger; try done; try by rewrite Es.
    1-3: destruct (requested r RqAccepted) eqn:Eq; try done; unfold state_consistent, requested in *; cbn in *; try done; lia.
  - destruct Hg as (Es & Et). apply state_ledger; try done; try by rewrite Es.
    + apply settled_consistent; try done; [lia|]. right. right. by exists why.
    + rewrite Es in Hbal. cbn in *. lia.
  - destruct Hg as (Ha & Hsf). apply state_ledger; try done; try by destruct (co_state r).
    + apply settled_consistent; try done; [lia|]. left. by exists k.
    + destruct (co_state r); cbn in *; lia.
  - destruct Hg as (Ha & Hsf). apply state_ledger; try done; try by destruct (co_state r).
    + apply settled_consistent; try done; [lia|]. right. left. split; [done|]. by exists t, i, k.
    + destruct (co_state r); cbn in *; lia.
Qed.

(** ** Every guarded step succeeds *)

(** An observation is the one already kept, or the one at [q]. *)
Definition kept_or {A} (f : A -> Z) (q : Z) (old new : option A) : Prop :=
  forall v, new = Some v -> old = Some v \/ f v = q.

Lemma kept_beyond {A} (f : A -> Z) r q (old new : option A) :
  q = observed r + 1 -> (forall v, old = Some v -> beyond (f v) (co_frontier r) = false) -> kept_or f q old new ->
  forall v, new = Some v -> beyond (f v) (Some q) = false.
Proof.
  intros -> Hold Hk v Ev. unfold beyond, observed in *. apply Z.ltb_ge. destruct (Hk v Ev) as [E|E]; [|lia].
  specialize (Hold v E). destruct (co_frontier r); [|done]. bool_facts. cbn. lia.
Qed.

Lemma provider_ok r q st ct mk tm s :
  compaction_ok r -> (forall f, co_frontier r = Some f -> 1 <= f) -> provider_guard r q ->
  kept_or ts_sequence q (co_status r) st -> kept_or ctu_sequence q (co_cas_turn r) ct ->
  kept_or mk_sequence q (co_marker r) mk -> kept_or tm_sequence q (co_terminal r) tm ->
  (is_Some mk -> is_Some ct) -> (s = CmpFinalizing -> is_Some tm) -> (forall n, s = CmpStopping n -> is_Some ct) ->
  compaction_ok (set_provider r q st ct mk tm s).
Proof.
  intros (H1 & H2 & H3 & H4 & H5 & H6 & H7 & H8 & H9 & H10 & H11 & H12) Hf (Hc & _ & Hq) K1 K2 K3 K4 Hm Hfin Hstop.
  apply expected_next in Hq; [|done]. unfold compaction_ok. cbn. split_and!; try done.
  1-4: by eapply kept_beyond. intros v Ev _. apply Hm. by eexists.
Qed.

Lemma kept_same {A} (f : A -> Z) q (o : option A) : kept_or f q o o.
Proof. intros v Ev. by left. Qed.
Lemma kept_new {A} (f : A -> Z) (o : option A) v : kept_or f (f v) o (Some v).
Proof. intros w [= <-]. by right. Qed.

(** A marker is only kept once the CAS turn is known. *)
Definition marker_follows_turn (r : CompactionOperationRecord) : Prop :=
  is_Some (co_marker r) -> is_Some (co_cas_turn r).

Lemma step_marker_follows r e r' : 0 <= co_revision r ->
  marker_follows_turn r -> step r e r' -> marker_follows_turn r'.
Proof.
  intros Hr Hm Hs. apply step_iff in Hs as (Hg & _ & -> & _); [|done]. unfold marker_follows_turn in *.
  destruct e; cbn in *; naive_solver.
Qed.

Lemma guard_ok tr r e : ledger tr r -> marker_follows_turn r -> guard r e -> compaction_ok (successor r e).
Proof.
  intros [Hok _ _ _ Hseen _ Hst _] Hmt Hg.
  assert (Hf : forall f, co_frontier r = Some f -> 1 <= f) by (intros f Ef; by apply Hseen).
  assert (Hfin : co_state r = CmpFinalizing -> is_Some (co_terminal r)) by apply Hok.
  assert (Hstop : forall n, co_state r = CmpStopping n -> is_Some (co_cas_turn r)) by apply Hok.
  destruct e as [a|d|q s|q t|m|q s t|n|n|n why g c|s k g c|t i k g c]; cbn [guard successor] in *.
  3: { apply provider_ok; try done; try apply kept_same; [by destruct Hg|apply (kept_new ts_sequence _ (mkStatus q s))]. }
  3: { apply provider_ok; try done; try apply kept_same; [by destruct_and?|apply (kept_new ctu_sequence _ (mkCasTurn q t))]. }
  3: { destruct Hg as (_ & ? & _ & ?). apply provider_ok; try done; try apply kept_same; apply kept_new. }
  3: { destruct Hg as (_ & ? & ?). apply provider_ok; try done; try apply kept_same.
       apply (kept_new tm_sequence _ (mkTerminal q s t)). }
  all: destruct Hok as (H1 & H2 & H3 & H4 & H5 & H6 & H7 & H8 & H9 & H10 & H11 & H12).
  - destruct Hg as (Es & Ec & <-). unfold compaction_ok. cbn. split_and!; try done. by intros c [= <-].
  - destruct Hg as ([cl Ec] & Eq & [s Es]). rewrite Es. unfold compaction_ok. cbn. rewrite Ec in *.
    split_and!; try done; intros; destruct (co_state r), d; simplify_eq/=; eauto.
  - destruct Hg as (Es & Hct & Et). by split_and!.
  - destruct Hg as (Es & Et). unfold compaction_ok. cbn. split_and!; try done; by destruct (requested r RqAccepted).
  - by split_and!.
  - by split_and!.
  - by split_and!.
Qed.

Lemma reached_ledger tr r : reached tr r -> ledger tr r /\ marker_follows_turn r.
Proof.
  intros (id & home & t & att & r0 & H0 & Hs).
  apply (steps_trace_invariant step (fun tr r => ledger tr r /\ marker_follows_turn r)) with r0; [| |done].
  - intros tr' a e b [Hl Hm] Hstep. split; [by eapply step_ledger|].
    eapply step_marker_follows; [|done..]. destruct Hl as [_ [? _] _ _ _ _ _ _]. lia.
  - split; [by eapply admitted_ledger|]. apply new_compaction_Ok in H0 as [-> _]. by intros [? ?].
Qed.

(** The largest observation is at the frontier. *)
Lemma list_max_is l f : f ∈ l -> (forall x, x ∈ l -> x <= f) -> list_max l = Some f.
Proof.
  intros Hin Hle. destruct l as [|x l]; [by apply elem_of_nil in Hin|]. cbn. f_equal.
  assert (forall l x, (forall y, y ∈ x :: l -> y <= f) -> f ∈ x :: l -> fold_left Z.max l x = f) as Hgen; [|by apply Hgen].
  clear. induction l as [|y l IH]; intros x Hle Hin; cbn.
  - by apply list_elem_of_singleton in Hin.
  - apply IH.
    + intros z Hz. apply elem_of_cons in Hz as [->|Hz]; [|apply Hle; set_solver].
      pose proof (Hle x ltac:(set_solver)). pose proof (Hle y ltac:(set_solver)). lia.
    + pose proof (Hle x ltac:(set_solver)). pose proof (Hle y ltac:(set_solver)).
      apply elem_of_cons in Hin as [->|Hin]; [|apply elem_of_cons in Hin as [->|?]; [|set_solver]].
      all: apply elem_of_cons; left; lia.
Qed.

Lemma ledger_latest tr r : ledger tr r -> latest_provider_sequence r = co_frontier r.
Proof.
  intros [(_ & _ & _ & _ & _ & H6 & H7 & H8 & H9 & _) _ _ _ Hseen _ _ _].
  assert (forall x, x ∈ sequences r -> beyond x (co_frontier r) = false) as Hle.
  { intros x Hx. apply in_sequences in Hx as [(v & E & <-)|[(v & E & <-)|[(v & E & <-)|(v & E & <-)]]]; auto. }
  unfold latest_provider_sequence. destruct (co_frontier r) as [f|].
  - apply list_max_is; [by apply Hseen|]. intros x Hx. specialize (Hle x Hx). unfold beyond in Hle. bool_facts. lia.
  - destruct (sequences r) as [|x l]; [done|]. by specialize (Hle x ltac:(set_solver)).
Qed.

(** ** Running a history *)

Definition when {E A} (b : bool) (m : result E A) : option A := if b then ok m else None.

Definition try_step (r : CompactionOperationRecord) (e : compaction_event) : option CompactionOperationRecord :=
  match e with
  | EvClaim a => ok (claim_dispatch r a)
  | EvRequest d => ok (observe_request r d)
  | EvStatus q s => when (is_none (co_terminal r)) (observe_status r q s)
  | EvTurn q t => when (is_none (co_terminal r)) (observe_cas_turn r q t)
  | EvMarker m => when (is_none (co_terminal r)) (observe_marker r m)
  | EvTerminal q s t => when (is_none (co_terminal r)) (observe_terminal r q s t)
  | EvHandoff n => ok (handoff_to_stop r n)
  | EvReopen n => ok (reopen_from_stop r n)
  | EvAbandon n why g c => ok (abandon_from_stop r n g (SettledAbandoned (settled_reason why)) c)
  | EvSettle s n g c => when (settlement_is_admitted r s n) (consume_compaction r g s c)
  | EvContinue t i k g c =>
      when (successful_compaction r) (consume_compaction r g (LifecycleContinuation t i k) c)
  end.

Lemma ok_Some {E A} (m : result E A) a : ok m = Some a <-> m = Ok a.
Proof. destruct m; cbn; naive_solver. Qed.

Lemma try_step_step r e r' : try_step r e = Some r' -> step r e r'.
Proof.
  destruct e; cbn; unfold when; try case_match eqn:E; rewrite ?ok_Some; intros H; try done;
    rewrite ?is_none_true in *; by constructor.
Qed.

Fixpoint run_history (r : CompactionOperationRecord) (tr : list compaction_event)
    : option CompactionOperationRecord :=
  match tr with
  | [] => Some r
  | e :: tr => r' ← try_step r e; run_history r' tr
  end.

Lemma run_history_steps tr : forall r0 tr0 r r', steps step r0 tr0 r -> run_history r tr = Some r' ->
  steps step r0 (tr0 ++ tr) r'.
Proof.
  induction tr as [|e tr IH]; intros r0 tr0 r r' Hs H; cbn in H.
  - simplify_eq. by rewrite app_nil_r.
  - apply bind_Some in H as (r1 & H1 & H). apply try_step_step in H1.
    rewrite cons_middle, app_assoc. eapply IH; [|done]. by eapply steps_snoc.
Qed.

Definition sample_compaction_id : CompactionOperationId := mkCompactionId (replicate 16 x01) (replicate 16 x02).
Definition sample_compaction_target : CompactionOperationTarget :=
  mkCompactionTarget (replicate 16 x01) (replicate 16 x02) (replicate 16 x03) 1 (replicate 16 x04)
    (mkLoaded 1 1) [x61].
Definition run_sample (tr : list compaction_event) : option CompactionOperationRecord :=
  r ← ok (admit_compaction sample_compaction_id (replicate 16 x05) sample_compaction_target (replicate 16 x06));
  run_history r tr.

Lemma run_sample_reached tr r : run_sample tr = Some r -> reached tr r.
Proof.
  unfold run_sample. intros H. apply bind_Some in H as (r0 & H0 & H). apply ok_Some in H0.
  exists sample_compaction_id, (replicate 16 x05), sample_compaction_target, (replicate 16 x06), r0.
  split; [done|]. eapply (run_history_steps tr r0 []); [constructor|done].
Qed.

(** A compaction that is claimed, observed to run, and stopped; and one that is then reopened. *)
Definition stopped_trace : list compaction_event :=
  [EvClaim (replicate 16 x06); EvStatus 1 TsActive; EvTurn 2 [x62]; EvHandoff (replicate 16 x07);
   EvMarker (mkMarker 3 (replicate 16 x08) MkStarted)].
Definition reopened_trace : list compaction_event := stopped_trace ++ [EvReopen (replicate 16 x07)].

(** ** Theorems *)

(** C13: on every record a history reaches, each mutation succeeds exactly when its guard holds
    and the revision is not exhausted, and then writes the record the guard promises: the
    constructor never refuses a successor. *)
Theorem compaction_mutations_exact tr r e r' : reached tr r ->
  step r e r' <-> guard r e /\ co_revision r + 1 <= U64_MAX /\ r' = successor r e.
Proof.
  intros Hr. apply reached_ledger in Hr as [Hl Hm]. rewrite step_iff; [|destruct Hl as [_ [? _] _ _ _ _ _ _]; lia].
  split; [tauto|]. intros (Hg & Hmax & ->). split_and!; try done. by eapply guard_ok.
Qed.

Lemma compaction_mutations_exact_witness :
  exists r, run_sample stopped_trace = Some r /\ step r (EvReopen (replicate 16 x07)) (successor r (EvReopen (replicate 16 x07))).
Proof.
  assert (exists r, run_sample stopped_trace = Some r /\ guard r (EvReopen (replicate 16 x07)) /\ co_revision r = 6)
    as (r & E & Hg & Hr).
  { eexists. split; [vm_compute; reflexivity|]. split; [split; reflexivity|reflexivity]. }
  exists r. split; [exact E|].
  apply (proj2 (compaction_mutations_exact stopped_trace r _ _ (run_sample_reached stopped_trace r E))).
  split; [exact Hg|]. split; [rewrite Hr; lia|reflexivity].
Defined.

(** On every record a history reaches, the revision counts the transitions and splits into
    the claim, the request response, the provider observations, the handoffs to a stop, the
    reopenings and the settlement; the claim was the first transition; the frontier is the
    number of the newest observation kept; and a consumed record carries evidence for its
    settlement. *)
Theorem compaction_ledger tr r : reached tr r ->
  co_revision r = 1 + zlen tr
  /\ zlen tr = b2z (is_some (co_claim r)) + b2z (is_some (co_request r)) + observed r
               + count is_handoff tr + count is_reopen tr + b2z (is_consumed (co_state r))
  /\ (forall c, co_claim r = Some c -> cc_source c = CMP_FIRST)
  /\ latest_provider_sequence r = co_frontier r
  /\ (is_consumed (co_state r) = true -> consumed_witness_is_exact r = true).
Proof.
  intros Hr. apply reached_ledger in Hr as [Hl _]. pose proof (ledger_latest _ _ Hl).
  destruct Hl as [_ [? _] ? ? _ _ Hst _]. split_and!; try done.
  unfold state_consistent in Hst. by destruct (co_state r).
Qed.

Lemma compaction_ledger_witness :
  exists r, run_sample reopened_trace = Some r /\ co_revision r = 7 /\ co_state r = CmpDispatchClaimed /\ observed r = 3.
Proof.
  assert (exists r, run_sample reopened_trace = Some r /\ co_state r = CmpDispatchClaimed /\ observed r = 3)
    as (r & E & Hs & Ho).
  { eexists. split; [vm_compute; reflexivity|]. split; reflexivity. }
  exists r. split; [exact E|].
  destruct (compaction_ledger reopened_trace r (run_sample_reached reopened_trace r E)) as [H _].
  split; [rewrite H; reflexivity|]. split; [exact Hs|exact Ho].
Defined.
