(* ===== verification/CompactionProvenance.v ===== *)
(** * Authenticating a stop of a compaction operation

    [syndic-storage]: [record/compaction/stop_provenance.rs], with [consumed_receipt_is_exact] of
    [record/compaction/transitions.rs] and [record/stop/provider.rs].  A stop record names the
    revisions of the compaction record at which it took it over and gave it back; these checks
    decide from the current compaction record alone whether that can be so.  The theorems compare
    their answer with the histories of [CompactionLedger]. *)
From stdpp Require Import prelude strings.
From S2P Require Import Prelude.
From S2P Require Import Bytes.
From S2P Require Import ModelIds.
From S2P Require Import ModelDigest.
From S2P Require Import SyndicValues.
From S2P Require Import StopOperation.
From S2P Require Import SyndicRecords.
From S2P Require Import CompactionOperation.
From S2P Require Import CompactionCodec.
From S2P Require Import CompactionLedger.

Record StoppingProof := mkProof { source_frontier : Z; current_frontier : Z }.

Definition canonical_revision (request_count provider_count fixed_after_claim : Z) : option Z :=
  revision ← checked_add64 CMP_FIRST 1;
  revision ← checked_add64 revision request_count;
  revision ← checked_add64 revision provider_count;
  checked_add64 revision fixed_after_claim.

(** Whether the response was recorded before the handoff; [None] when its revision fits neither
    side. *)
Definition request_before_admission (request : option CompactionRequestObservation)
    (admission_source : Z) (late_request_after : option Z) : option bool :=
  match request with
  | None => Some false
  | Some q =>
      floor ← checked_add64 CMP_FIRST 2;
      if (floor <=? rq_revision q) && (rq_revision q <=? admission_source) then Some true
      else if on_some (fun successor => successor <? rq_revision q) late_request_after then Some false
      else None
  end.

Definition stopping_source_proof (r : CompactionOperationRecord)
    (admission_source admission_successor stopping_source : Z) (late_request_after : option Z)
    : option StoppingProof :=
  if negb (revision_follows admission_source admission_successor)
     || (stopping_source <? admission_successor)
  then None
  else
    match co_claim r, co_frontier r, co_cas_turn r with
    | Some claim, Some frontier, Some cas_turn =>
        if negb (cc_source claim =? CMP_FIRST)
           || negb (bool_decide (latest_provider_sequence r = Some frontier))
        then None
        else
          before ← request_before_admission (co_request r) admission_source late_request_after;
          pre_handoff_fixed ← checked_add64 CMP_FIRST 1;
          pre_handoff_fixed ← checked_add64 pre_handoff_fixed (b2z before);
          admission_frontier ← checked_sub64 admission_source pre_handoff_fixed;
          stopping_fixed ← checked_add64 pre_handoff_fixed 1;
          source_frontier ← checked_sub64 stopping_source stopping_fixed;
          if (source_frontier <? admission_frontier) || (frontier <? source_frontier)
             || (admission_frontier <? ctu_sequence cas_turn)
          then None
          else Some (mkProof source_frontier frontier)
    | _, _, _ => None
    end.

Definition stopping_descendant_is_exact (r : CompactionOperationRecord) (stop_nonce : list byte)
    (admission_source admission_successor : Z) : bool :=
  if negb (bool_decide (co_state r = CmpStopping stop_nonce)) || is_some (co_terminal r) then false
  else
    match stopping_source_proof r admission_source admission_successor (co_revision r) None with
    | None => false
    | Some proof =>
        (source_frontier proof =? current_frontier proof)
        && bool_decide (Some (co_revision r) =
             canonical_revision (b2z (is_some (co_request r))) (current_frontier proof) 1)
    end.

Section Receipts.
Context {H : Type} `{Sha256 H}.

Definition consumed_receipt_is_exact (r : CompactionOperationRecord)
    (receipt : CompactionSettlementReceiptRecord) : bool :=
  match co_state r with
  | CmpConsumed w =>
      consumed_witness_is_exact r
      && bool_decide (rc_operation receipt = co_id r)
      && (rc_source_revision receipt =? cw_source w)
      && (rc_successor_revision receipt =? co_revision r)
      && (ig_revision (rc_successor_gate receipt) =? cw_successor_gate w)
      && bool_decide (rc_settlement receipt = cw_settlement w)
      && bool_decide (settlement_receipt_commitment (H := H) receipt = cw_commitment w)
  | _ => false
  end.

Definition post_stop_descendant_is_exact (r : CompactionOperationRecord)
    (expected_live_revision : option Z) (receipt : option CompactionSettlementReceiptRecord)
    (terminal_required : bool) : bool :=
  match expected_live_revision with
  | None => false
  | Some expected =>
      match co_state r with
      | CmpDispatchClaimed | CmpLive =>
          negb terminal_required && is_none (co_terminal r) && (co_revision r =? expected)
          && is_none receipt
      | CmpFinalizing => is_some (co_terminal r) && (co_revision r =? expected) && is_none receipt
      | CmpConsumed _ =>
          match checked_add64 expected 1 with
          | None => false
          | Some consumed =>
              (co_revision r =? consumed) && on_some (consumed_receipt_is_exact r) receipt
          end
      | CmpAdmitted | CmpStopping _ => false
      end
  end.

Definition safe_reopen_descendant_is_exact (r : CompactionOperationRecord)
    (admission_source admission_successor source successor : Z)
    (receipt : option CompactionSettlementReceiptRecord) : bool :=
  if negb (revision_follows source successor) then false
  else
    match stopping_source_proof r admission_source admission_successor source (Some successor) with
    | None => false
    | Some proof =>
        if on_some (fun t => tm_sequence t <=? source_frontier proof) (co_terminal r) then false
        else
          post_stop_descendant_is_exact r
            (canonical_revision (b2z (is_some (co_request r))) (current_frontier proof) 2) receipt false
    end.

Definition matching_terminal_descendant_is_exact (r : CompactionOperationRecord)
    (admission_source admission_successor source successor successor_turn_state : Z)
    (receipt : option CompactionSettlementReceiptRecord) : bool :=
  if negb (revision_follows source successor) then false
  else
    match stopping_source_proof r admission_source admission_successor source (Some successor) with
    | None => false
    | Some proof =>
        let terminal_sequence := checked_add64 (source_frontier proof) 1 in
        if match co_terminal r with
           | None => true
           | Some t => negb (bool_decide (Some (tm_sequence t) = terminal_sequence))
                       || negb (tm_turn_state t =? successor_turn_state)
           end
        then false
        else
          post_stop_descendant_is_exact r
            (canonical_revision (b2z (is_some (co_request r))) (current_frontier proof) 1) receipt true
    end.

Definition stop_abandonment_successor_is_exact (r : CompactionOperationRecord)
    (admission_source admission_successor source successor : Z)
    (receipt : CompactionSettlementReceiptRecord) : bool :=
  if negb (revision_follows source successor) || negb (co_revision r =? successor)
     || is_some (co_terminal r)
  then false
  else
    match stopping_source_proof r admission_source admission_successor source None with
    | None => false
    | Some proof =>
        (source_frontier proof =? current_frontier proof)
        && bool_decide (Some successor =
             canonical_revision (b2z (is_some (co_request r))) (current_frontier proof) 2)
        && (rc_source_revision receipt =? source)
        && (rc_successor_revision receipt =? successor)
        && consumed_receipt_is_exact r receipt
    end.

(** [StopOperationRecord::provider_abandonment_authenticates] *)
Definition provider_abandonment_authenticates (stop : StopOperationRecord)
    (r : CompactionOperationRecord) (receipt : CompactionSettlementReceiptRecord) : bool :=
  match so_admission stop, so_state stop with
  | AdmProviderOperation _ _ admission_source admission_successor,
    StAbandoned (AbProviderOperation source reason successor_gate _ _ source_compaction successor_compaction) =>
      match tgt_turn_kind (so_target stop) with ProviderOperation OpContextCompaction => true | _ => false end
      && bool_decide (ct_thread (co_target r) = tgt_thread (so_target stop))
      && bool_decide (ct_turn (co_target r) = tgt_turn (so_target stop))
      && (ig_revision (rc_source_gate receipt) =? ds_gate source)
      && (ig_revision (rc_successor_gate receipt) =? successor_gate)
      && bool_decide (ig_state (rc_source_gate receipt) =
           GateStopping (tgt_turn (so_target stop)) (stop_nonce (so_id stop)))
      && bool_decide (rc_settlement receipt = SettledAbandoned (settled_reason reason))
      && stop_abandonment_successor_is_exact r admission_source admission_successor source_compaction
           successor_compaction receipt
  | _, _ => false
  end.
End Receipts.

(** ** Genuine stops *)

(** The provider observations a stopping record still takes. *)
Definition is_observation (e : compaction_event) : bool :=
  match e with EvStatus _ _ | EvTurn _ _ | EvMarker _ => true | _ => false end.

(** [r] is stopping under [n], and a history without an earlier stop handed it over at revision [a]. *)
Definition stopped_at (a : Z) (n : list byte) (r : CompactionOperationRecord) : Prop :=
  exists tr0 r0 r1 tr1, reached tr0 r0 /\ count is_handoff tr0 = 0 /\ co_revision r0 = a /\
    step r0 (EvHandoff n) r1 /\ steps step r1 tr1 r /\ Forall (fun e => is_observation e = true) tr1.

Lemma reached_snoc tr r e r' : reached tr r -> step r e r' -> reached (tr ++ [e]) r'.
Proof. intros (id & h & t & a & r0 & H0 & Hs) Hstep. exists id, h, t, a, r0. split; [done|]. by econstructor. Qed.
Lemma reached_steps tr r tr' r' : reached tr r -> steps step r tr' r' -> reached (tr ++ tr') r'.
Proof. intros (id & h & t & a & r0 & H0 & Hs) Hstep. exists id, h, t, a, r0. split; [done|]. by eapply steps_trans. Qed.

Lemma reached_revision tr r : reached tr r -> co_revision r = 1 + zlen tr.
Proof. intros Hr. by apply reached_ledger in Hr as [[_ [? _] _ _ _ _ _ _] _]. Qed.

Lemma step_inv tr r e r' : reached tr r -> step r e r' -> guard r e /\ r' = successor r e.
Proof. intros Hr Hs. apply step_iff in Hs as (? & _ & ? & _); [done|]. apply reached_revision in Hr. lia. Qed.

Lemma step_make tr r e : reached tr r -> guard r e -> co_revision r + 1 <= U64_MAX -> step r e (successor r e).
Proof.
  intros Hr Hg Hm. pose proof (reached_revision _ _ Hr). apply reached_ledger in Hr as [Hl Hmk].
  apply step_iff; [lia|]. split_and!; try done. by eapply guard_ok.
Qed.

Lemma reached_bound tr r : reached tr r -> co_revision r <= U64_MAX.
Proof. intros Hr. by apply reached_ledger in Hr as [[_ [_ ?] _ _ _ _ _ _] _]. Qed.

Lemma count_app p tr tr' : count p (tr ++ tr') = count p tr + count p tr'.
Proof. induction tr as [|e tr IH]; cbn; [done|]. rewrite IH. lia. Qed.
Lemma count_zero p tr : Forall (fun e => p e = false) tr -> count p tr = 0.
Proof. induction 1 as [|e tr He _ IH]; cbn; [done|]. by rewrite He, IH. Qed.

Lemma observations_quiet tr : Forall (fun e => is_observation e = true) tr ->
  count is_handoff tr = 0 /\ count is_reopen tr = 0.
Proof. intros H. split; apply count_zero; eapply Forall_impl; try done; by intros []. Qed.

Lemma stopped_extend b n r e r' : stopped_at b n r -> step r e r' -> is_observation e = true -> stopped_at b n r'.
Proof.
  intros (tr0 & r0 & r1 & tr1 & H1 & H2 & H3 & H4 & H5 & H6) Hs He.
  exists tr0, r0, r1, (tr1 ++ [e]). split_and!; try done; [by econstructor|].
  apply Forall_app. split; [done|]. by repeat constructor.
Qed.

(** The last handoff of a history that has one, and no reopening. *)
Lemma handed_over tr r n : reached tr r -> count is_handoff tr = 1 -> count is_reopen tr = 0 ->
  co_state r = CmpStopping n -> exists b, stopped_at b n r.
Proof.
  intros (id & h & t & att & r0 & H0 & Hs). revert n.
  induction Hs as [r|r0 tr r e r' Hs IH Hstep]; intros n Hh Hp Est; [done|].
  assert (Hr : reached tr r) by (by exists id, h, t, att, r0).
  pose proof (step_inv _ _ _ _ Hr Hstep) as [Hg Er']. rewrite !count_snoc in *.
  destruct e as [a|d|q s|q tu|m|q s ts|k|k|k why g c|s k g c|tu i k g c]; cbn [b2z is_handoff is_reopen] in *.
  3-5: rewrite Er' in Est; cbn in Est;
       destruct (IH H0 n) as (b & Hb); [lia|lia|done|]; exists b; by eapply stopped_extend.
  3: by rewrite Er' in Est.
  3: { assert (n = k) as -> by (rewrite Er' in Est; by simplify_eq/=).
       exists (co_revision r), tr, r, r', []. split_and!; try done; [lia|apply steps_refl]. }
  - by rewrite Er' in Est.
  - rewrite Er' in Est. cbn in Est. destruct Hg as (_ & _ & [s Es]). rewrite Es in Est. cbn in Est.
    destruct (co_state r), d; simplify_eq/=.
  - rewrite Er' in Est. cbn in Est. by destruct (requested r RqAccepted).
  - by rewrite Er' in Est.
  - by rewrite Er' in Est.
  - by rewrite Er' in Est.
Qed.

Lemma observed_nonneg tr r : reached tr r -> 0 <= observed r.
Proof.
  intros Hr. apply reached_ledger in Hr as [Hl _]. unfold observed. destruct (co_frontier r) as [f|] eqn:E; cbn; [|done].
  destruct (lg_seen _ _ Hl f E). lia.
Qed.

(** Observations keep the state, the response and the CAS turn. *)
Lemma observations_keep tr r1 tr1 r : reached tr r1 -> steps step r1 tr1 r ->
  Forall (fun e => is_observation e = true) tr1 -> is_Some (co_cas_turn r1) ->
  co_state r = co_state r1 /\ co_cas_turn r = co_cas_turn r1 /\ observed r1 <= observed r
  /\ co_request r = co_request r1.
Proof.
  intros Hr1 H5 H6 Hct. induction H5 as [r1|r1 tr1 r e r' H5 IH Hstep]; [done|].
  apply Forall_app in H6 as [H6 He]. inversion_clear He as [|? ? He' _].
  destruct IH as (E1 & E2 & E3 & E4); [done..|].
  pose proof (reached_steps _ _ _ _ Hr1 H5) as Hr. pose proof (step_inv _ _ _ _ Hr Hstep) as [Hg ->].
  assert (Hq : forall q, provider_guard r q -> q = observed r + 1).
  { intros q (_ & _ & Hq). apply (expected_next r); [|done]. intros f Ef.
    apply reached_ledger in Hr as [[_ _ _ _ Hseen _ _ _] _]. by apply Hseen. }
  destruct e as [| |q s|q t|m| | | | | |]; try done; unfold observed in *; cbn in Hg |- *.
  - destruct Hg as [_ Hg]. apply Hq in Hg. split_and!; try done. lia.
  - destruct Hg as (_ & Hg & _). rewrite <- E2 in Hct. rewrite Hg in Hct. by destruct Hct.
  - destruct Hg as (_ & _ & _ & Hg). apply Hq in Hg. split_and!; try done. lia.
Qed.

(** The facts a genuine stop leaves in the record. *)
Lemma stopped_facts a n r : stopped_at a n r -> exists tr fr0 ct,
  reached tr r /\ count is_handoff tr = 1 /\ count is_reopen tr = 0 /\ co_state r = CmpStopping n
  /\ co_cas_turn r = Some ct /\ 0 <= fr0 /\ ctu_sequence ct <= fr0 <= observed r
  /\ a = 2 + b2z (is_some (co_request r)) + fr0 /\ (forall q, co_request r = Some q -> 3 <= rq_revision q <= a).
Proof.
  intros (tr0 & r0 & r1 & tr1 & H1 & H2 & <- & H4 & H5 & H6).
  assert (Hr1 : reached (tr0 ++ [EvHandoff n]) r1) by (by eapply reached_snoc).
  pose proof (step_inv _ _ _ _ H1 H4) as [(Hs & [ct Ect] & Ht) Er1].
  pose proof (reached_ledger _ _ H1) as [Hl0 _].
  assert (Hp0 : count is_reopen tr0 = 0).
  { pose proof (lg_stops _ _ Hl0) as Hb. destruct (co_state r0); try done; cbn in Hb; lia. }
  destruct (observations_keep _ _ _ _ Hr1 H5 H6) as (E1 & E2 & E3 & E4); [by rewrite Er1|].
  rewrite Er1 in E1, E2, E3, E4. cbn in E1, E2, E4. change (observed (successor r0 _)) with (observed r0) in E3.
  rewrite Ect in E2.
 destruct (observations_quiet _ H6) as [Q1 Q2].
  exists ((tr0 ++ [EvHandoff n]) ++ tr1), (observed r0), ct.
  split_and!; try done.
  - by eapply reached_steps.
  - rewrite count_app, count_snoc. cbn. lia.
  - rewrite count_app, count_snoc. cbn. lia.
  - by eapply observed_nonneg.
  - pose proof (lg_ok _ _ Hl0) as (_ & _ & _ & _ & _ & _ & Hb & _). specialize (Hb ct Ect).
    unfold observed, beyond in *. destruct (co_frontier r0); [|done]. bool_facts. cbn. lia.
  - rewrite E4. pose proof (lg_revision _ _ Hl0) as [Hrev _]. pose proof (lg_parts _ _ Hl0) as Hparts.
    pose proof (lg_state _ _ Hl0) as Hst. unfold state_consistent in Hst.
    assert (is_some (co_claim r0) = true /\ is_consumed (co_state r0) = false) as [Ec Eco].
    { split; [|by destruct (co_state r0)]. apply is_some_true. destruct (co_state r0); try done; naive_solver. }
    rewrite Ec, Eco in Hparts. cbn in Hparts. lia.
  - intros q Eq. rewrite E4 in Eq. by apply (lg_request _ _ Hl0).
Qed.

(** ** Moving the handoff within a history *)

(** A stopping record does not keep the revision of its handoff: the handoff commutes with the
    observations around it. *)
Lemma handoff_later tr r n e : reached tr r -> guard r (EvHandoff n) -> is_observation e = true ->
  guard (successor r (EvHandoff n)) e ->
  guard r e /\ guard (successor r e) (EvHandoff n)
  /\ successor (successor r (EvHandoff n)) e = successor (successor r e) (EvHandoff n).
Proof.
  intros Hr (Hs & Hct & Ht) He Hg. unfold provider_guard in *.
  pose proof (lg_state _ _ (proj1 (reached_ledger _ _ Hr))) as Hst. unfold state_consistent in Hst.
  destruct e; try done; cbn in *; unfold provider_guard in *; cbn in *; destruct (co_state r); naive_solver.
Qed.

Lemma stopped_later a n r : stopped_at a n r -> a + 1 < co_revision r -> stopped_at (a + 1) n r.
Proof.
  intros (tr0 & r0 & r1 & tr1 & H1 & H2 & H3 & H4 & H5 & H6) Hlt.
  pose proof (reached_snoc _ _ _ _ H1 H4) as Hr1. pose proof (reached_steps _ _ _ _ Hr1 H5) as Hr.
  pose proof (reached_revision _ _ Hr) as E. pose proof (reached_revision _ _ H1) as E0. rewrite !length_app in E.
  destruct tr1 as [|e tr1]; [cbn in E; lia|]. apply steps_first in H5 as (r2 & Hs2 & H5).
  inversion H6 as [|? ? He H6']; subst.
  pose proof (step_inv _ _ _ _ H1 H4) as [Hg0 ->]. pose proof (step_inv _ _ _ _ Hr1 Hs2) as [Hg2 ->].
  destruct (handoff_later tr0 r0 n e) as (G1 & G2 & G3); [done..|].
  pose proof (reached_bound _ _ Hr). pose proof (step_make tr0 r0 e H1 G1 ltac:(lia)) as S1.
  pose proof (reached_snoc _ _ _ _ H1 S1) as Hr1'. pose proof (reached_revision _ _ Hr1') as E1.
  rewrite length_app in E1. cbn in E1.
  exists (tr0 ++ [e]), (successor r0 e), (successor (successor r0 e) (EvHandoff n)), tr1.
  split_and!; try done.
  - rewrite count_snoc. destruct e; try done; cbn; lia.
  - lia.
  - eapply step_make; [done..|]. cbn in E. lia.
  - by rewrite <- G3.
Qed.

(** Before the handoff, an observation that is not the CAS turn's can be moved past it. *)
Lemma handoff_earlier tr r n e : reached tr r -> guard r e -> is_observation e = true ->
  guard (successor r e) (EvHandoff n) -> is_Some (co_cas_turn r) ->
  guard r (EvHandoff n) /\ guard (successor r (EvHandoff n)) e
  /\ successor (successor r (EvHandoff n)) e = successor (successor r e) (EvHandoff n).
Proof.
  intros Hr Hg He (Hs & _ & Ht) Hct. destruct e; try done; cbn in *; unfold provider_guard in *; cbn in *; naive_solver.
Qed.

Lemma stopped_earlier a n r ct : stopped_at (a + 1) n r -> co_cas_turn r = Some ct ->
  ctu_sequence ct <= a - 2 - b2z (is_some (co_request r)) ->
  (forall q, co_request r = Some q -> rq_revision q <= a) -> stopped_at a n r.
Proof.
  intros Hst0 Hct Hcs Hrq. pose proof (stopped_facts _ _ _ Hst0) as (tr' & fr0 & ct' & _ & _ & _ & _ & Ect' & _ & _ & Ea & _).
  destruct Hst0 as (tr0 & r0 & r1 & tr1 & H1 & H2 & H3 & H4 & H5 & H6).
  pose proof (step_inv _ _ _ _ H1 H4) as [Hg0 E1].
  pose proof (reached_snoc _ _ _ _ H1 H4) as Hr1.
  destruct (observations_keep _ _ _ _ Hr1 H5 H6) as (_ & K1 & _ & K2); [rewrite E1; apply Hg0|].
  rewrite E1 in K1, K2. cbn in K1, K2.
  destruct H1 as (id & h & t & att & rr & Had & Hsteps). apply steps_last in Hsteps as [[-> ->]|(tr & e & r00 & -> & Hs00 & Hse)].
  { exfalso. apply new_compaction_Ok in Had as [-> _]. by destruct Hg0 as (? & _). }
  assert (Hr00 : reached tr r00) by (by exists id, h, t, att, rr).
  pose proof (step_inv _ _ _ _ Hr00 Hse) as [Hge E0].
  assert (H1 : reached (tr ++ [e]) r0) by (by eapply reached_snoc).
  pose proof (reached_revision _ _ H1) as V0. pose proof (reached_revision _ _ Hr00) as V00. rewrite length_app in V0.
  pose proof (lg_revision _ _ (proj1 (reached_ledger _ _ H1))) as [_ Vb].
  pose proof (lg_parts _ _ (proj1 (reached_ledger _ _ H1))) as P0.
  pose proof (lg_stops _ _ (proj1 (reached_ledger _ _ H1))) as B0.
  rewrite !count_snoc in *. pose proof (count_nonneg is_handoff tr). pose proof (count_nonneg is_reopen tr).
  pose proof (proj1 (reached_ledger _ _ Hr00)) as L00.
  assert (Hfr : observed r0 = a - 1 - b2z (is_some (co_request r))).
  { pose proof (lg_state _ _ (proj1 (reached_ledger _ _ H1))) as Hst. unfold state_consistent in Hst.
    assert (is_some (co_claim r0) = true /\ is_consumed (co_state r0) = false) as [Ec Eco].
    { destruct Hg0 as [Hg0 _]. split; [|by destruct (co_state r0)]. apply is_some_true.
      destruct (co_state r0); try done; naive_solver. }
    assert (count is_reopen tr + b2z (is_reopen e) = 0).
    { destruct Hg0 as [Hg0 _]. destruct (co_state r0); try done; cbn in B0; lia. }
    rewrite Ec, Eco, length_app in P0. rewrite K2. cbn in P0, V0. lia. }
  assert (Hobs : is_observation e = true /\ is_Some (co_cas_turn r00)).
  { destruct Hg0 as (Hs0 & Hc0 & _). rewrite E0 in Hs0, Hc0.
    destruct e as [x|d|q s|q tu|m|q s ts|k|k|k why g c|s k g c|tu i k g c]; cbn in *; try done.
    - destruct Hge as (_ & Hcl & _). destruct (unclaimed _ (lg_ok _ _ L00) Hcl) as (_ & Hf & _).
      destruct Hc0 as [v Hv]. pose proof (lg_ok _ _ L00) as (_ & _ & _ & _ & _ & _ & Hb & _).
      specialize (Hb v Hv). by rewrite Hf in Hb.
    - specialize (Hrq (mkRequest (co_revision r00 + 1) d)). rewrite K2, E0 in Hrq. cbn in Hrq. specialize (Hrq eq_refl). lia.
    - rewrite K1, E0 in Hct. cbn in Hct. injection Hct as <-. rewrite E0 in Hfr. unfold observed in Hfr. cbn in *. lia.
    - rewrite E0 in B0. cbn in B0. destruct (requested r00 RqAccepted); cbn in B0; lia. }
  destruct Hobs as [He Hc00].
  destruct (handoff_earlier tr r00 n e) as (G1 & G2 & G3); [done|done|done|by rewrite <- E0|done|].
  pose proof (step_make tr r00 _ Hr00 G1 ltac:(cbn in V0; lia)) as S1.
  pose proof (reached_snoc _ _ _ _ Hr00 S1) as R1. pose proof (reached_bound _ _ Hr1) as Bd1.
  pose proof (reached_revision _ _ Hr1) as V1. rewrite !length_app in V1. cbn in V0, V1.
  exists tr, r00, (successor r00 (EvHandoff n)), ([e] ++ tr1). split_and!; try done.
  - destruct e; try done; cbn in *; lia.
  - lia.
  - eapply steps_trans; [|exact H5]. eapply (steps_snoc step _ []); [apply steps_refl|].
    rewrite E1, E0, <- G3. eapply step_make; [done..|]. pose proof (reached_revision _ _ R1) as V2.
    rewrite length_app in V2. cbn [successor set_state co_revision length] in *. lia.
  - by constructor.
Qed.

(** ** The checks, in closed form *)

Lemma canonical_Some q p k v : 0 <= q -> 0 <= p -> 0 <= k ->
  Some v = canonical_revision q p k <-> v = 2 + q + p + k /\ v <= U64_MAX.
Proof.
  intros Hq Hp Hk. unfold canonical_revision, CMP_FIRST. rewrite (eq_comm (Some v)).
  split.
  - intros H. apply bind_Some in H as (a & Ha & H). apply bind_Some in H as (b & Hb & H).
    apply bind_Some in H as (c & Hc & H). rewrite checked_add64_Some in *. lia.
  - intros [-> Hm]. do 3 (rewrite checked_add64_eq by lia; cbn [mbind option_bind]).
    by rewrite checked_add64_eq by lia.
Qed.

(** Where the response stands relative to the stop. *)
Definition response_placed (r : CompactionOperationRecord) (a : Z) (late : option Z) (before : bool) : Prop :=
  match co_request r with
  | None => before = false
  | Some q => (before = true /\ 3 <= rq_revision q <= a)
              \/ (before = false /\ ~ 3 <= rq_revision q <= a /\ exists l, late = Some l /\ l < rq_revision q)
  end.

Lemma request_before_Some r a late b :
  request_before_admission (co_request r) a late = Some b <-> response_placed r a late b.
Proof.
  unfold request_before_admission, response_placed, CMP_FIRST.
  destruct (co_request r) as [q|]; [|split; [by intros [= <-]|by intros ->]].
  change (checked_add64 1 2) with (Some 3). cbn [mbind option_bind].
  destruct (decide (3 <= rq_revision q <= a)) as [Hin|Hout].
  - rewrite (proj2 (Z.leb_le _ _)), (proj2 (Z.leb_le _ _)) by lia. cbn [andb].
    split; [intros [= <-]; by left|]. by intros [[-> _]|(_ & Hn & _)].
  - assert ((3 <=? rq_revision q) && (rq_revision q <=? a) = false) as -> by (apply andb_false_iff; lia).
    assert (on_some (fun l => l <? rq_revision q) late = true <-> exists l, late = Some l /\ l < rq_revision q) as Hl.
    { destruct late as [l|]; cbn; [rewrite Z.ltb_lt|]; naive_solver. }
    destruct (on_some _ late) eqn:El.
    + split; [intros [= <-]; right; split_and!; [done|done|by apply Hl]|]. intros [[_ ?]|[-> _]]; [lia|done].
    + split; [done|]. intros [[_ ?]|(_ & _ & H)]; [lia|]. apply Hl in H. done.
Qed.

Lemma source_proof_iff tr r a a' s late p : reached tr r -> is_u64 a -> is_u64 s ->
  stopping_source_proof r a a' s late = Some p <->
  exists ct before, co_cas_turn r = Some ct /\ a' = a + 1 /\ a + 1 <= s /\ a + 1 <= U64_MAX
    /\ response_placed r a late before /\ ctu_sequence ct <= a - 2 - b2z before
    /\ 0 <= a - 2 - b2z before
    /\ s - 3 - b2z before <= observed r /\ p = mkProof (s - 3 - b2z before) (observed r).
Proof.
  intros Hr Ha Hs. pose proof (reached_ledger _ _ Hr) as [Hl _]. unfold stopping_source_proof, is_u64 in *.
  pose proof (ledger_latest _ _ Hl) as Hlat.
  destruct (revision_follows a a') eqn:Ef; cbn [negb orb].
  2: { split; [done|]. intros (? & ? & _ & -> & _ & Hm & _).
       rewrite revision_follows_succ in Ef; [done|lia|done]. }
  apply revision_follows_iff in Ef as [-> Hm]; [|lia].
  destruct (Z.ltb_spec s (a + 1)); [split; [done|]; intros (? & ? & _ & _ & ? & _); lia|].
  destruct (co_cas_turn r) as [ct|] eqn:Ect.
  2: { destruct (co_claim r), (co_frontier r); split; try done; intros (? & ? & ? & _); done. }
  pose proof (lg_ok _ _ Hl) as (_ & _ & _ & _ & Hfc & _ & Hb & _). specialize (Hb ct Ect).
  destruct (co_frontier r) as [f|] eqn:Efr; [|done]. destruct Hfc as [c Ec]; [by eauto|]. rewrite Ec.
  rewrite (lg_claim _ _ Hl c Ec), Z.eqb_refl, Hlat, bool_decide_true by done. cbn [negb orb].
  assert (Eo : observed r = f) by (unfold observed; by rewrite Efr). rewrite Eo.
  change (checked_add64 CMP_FIRST 1) with (Some 2). split.
  - intros H0. apply bind_Some in H0 as (before & Hbef & H0). cbn [mbind option_bind] in H0.
    apply bind_Some in H0 as (pre & Hpre & H0). apply bind_Some in H0 as (af & Haf & H0).
    apply bind_Some in H0 as (sf & Hsf & H0). apply bind_Some in H0 as (sr & Hsr & H0).
    rewrite checked_add64_Some, checked_sub64_Some in *. case_match eqn:E; [done|]. simplify_eq.
    rewrite !orb_false_iff in E. destruct E as [[E1 E2] E3]. bool_facts. destruct_and?. simplify_eq.
    exists ct, before. apply request_before_Some in Hbef. split_and!; try done; try lia. f_equal; lia.
  - intros (ct' & before & [= <-] & _ & _ & _ & Hbef & H1 & H2 & H3 & ->).
    apply request_before_Some in Hbef. rewrite Hbef. cbn [mbind option_bind].
    assert (0 <= b2z before <= 1) by (destruct before; cbn; lia).
    rewrite checked_add64_eq by lia. cbn [mbind option_bind].
    rewrite (proj2 (checked_sub64_Some a (2 + b2z before) (a - 2 - b2z before))) by lia. cbn [mbind option_bind].
    rewrite checked_add64_eq by lia. cbn [mbind option_bind].
    rewrite (proj2 (checked_sub64_Some s (2 + b2z before + 1) (s - 3 - b2z before))) by lia. cbn [mbind option_bind].
    repeat match goal with |- context [?x <? ?y] => destruct (Z.ltb_spec x y); [lia|]; cbn [orb] end. done.
Qed.

Lemma stopped_move b a n r ct : stopped_at b n r -> a + 1 <= co_revision r ->
  co_cas_turn r = Some ct -> ctu_sequence ct <= a - 2 - b2z (is_some (co_request r)) ->
  (forall q, co_request r = Some q -> rq_revision q <= a) -> stopped_at a n r.
Proof.
  intros Hb Ha Hct Hcs Hrq. destruct (Z.le_gt_cases b a) as [Hle|Hgt].
  - assert (forall k : nat, b + Z.of_nat k <= a -> stopped_at (b + Z.of_nat k) n r) as Hk.
    { induction k as [|k IH]; intros Hk; [by rewrite Z.add_0_r|].
      replace (b + Z.of_nat (S k)) with (b + Z.of_nat k + 1) by lia. apply stopped_later; [apply IH|]; lia. }
    replace a with (b + Z.of_nat (Z.to_nat (a - b))) by lia. apply Hk. lia.
  - assert (forall k : nat, a <= b - Z.of_nat k -> stopped_at (b - Z.of_nat k) n r) as Hk.
    { induction k as [|k IH]; intros Hk; [by rewrite Z.sub_0_r|].
      apply (stopped_earlier _ _ _ ct); [|done|lia|intros q Eq; specialize (Hrq q Eq); lia].
      replace (b - Z.of_nat (S k) + 1) with (b - Z.of_nat k) by lia. apply IH. lia. }
    replace a with (b - Z.of_nat (Z.to_nat (b - a))) by lia. apply Hk. lia.
Qed.

Lemma early_response r a b : response_placed r a None b ->
  b2z b = b2z (is_some (co_request r)) /\ (forall q, co_request r = Some q -> 3 <= rq_revision q <= a).
Proof.
  unfold response_placed. destruct (co_request r) as [q|]; cbn; [|intros ->; done].
  intros [[-> Hq]|(_ & _ & l & ? & _)]; [|done]. split; [done|]. by intros ? [= <-].
Qed.
Lemma placed_early r a late : (forall q, co_request r = Some q -> 3 <= rq_revision q <= a) ->
  response_placed r a late (is_some (co_request r)).
Proof. unfold response_placed. destruct (co_request r) as [q|]; cbn; [|done]. intros H. left. auto. Qed.

Lemma b2z_bounds b : 0 <= b2z b <= 1.
Proof. destruct b; cbn; lia. Qed.

(** The revision of a record that is claimed and not consumed. *)
Lemma claimed_revision tr r : reached tr r -> is_Some (co_claim r) ->
  co_revision r = 2 + b2z (is_some (co_request r)) + observed r + count is_handoff tr + count is_reopen tr
                  + b2z (is_consumed (co_state r)).
Proof.
  intros Hr Hc. apply reached_ledger in Hr as [Hl _]. destruct (lg_revision _ _ Hl) as [Hrev _].
  pose proof (lg_parts _ _ Hl) as Hp. apply is_some_true in Hc. rewrite Hc in Hp. cbn [b2z] in Hp. lia.
Qed.

Lemma turn_claimed tr r ct : reached tr r -> co_cas_turn r = Some ct -> is_Some (co_claim r).
Proof.
  intros Hr Ect. apply reached_ledger in Hr as [Hl _]. pose proof (lg_ok _ _ Hl) as (_ & _ & _ & _ & Hf & _ & Hb & _).
  specialize (Hb ct Ect). destruct (co_frontier r); [|done]. apply Hf. by eauto.
Qed.

(** C14: on every record a history reaches, the check of a live stop accepts the stop's nonce and
    the two revisions it recorded exactly when a history of that record without an earlier stop
    hands it over under this nonce at this revision: genuine stops are accepted, and nothing
    else is. *)
Theorem stopping_authentication_exact tr r n a a' : reached tr r -> is_u64 a ->
  stopping_descendant_is_exact r n a a' = true <-> a' = a + 1 /\ stopped_at a n r.
Proof.
  intros Hr Ha. pose proof (reached_bound _ _ Hr) as Hbd. pose proof (reached_revision _ _ Hr) as Hrev.
  assert (Hu : is_u64 (co_revision r)) by (unfold is_u64; lia). unfold stopping_descendant_is_exact. split.
  - intros H. case_match eqn:E; [done|]. apply orb_false_iff in E as [Es Et]. bool_facts. apply is_some_false in Et.
    destruct (stopping_source_proof _ _ _ _ _) as [p|] eqn:Ep; [|done].
    apply (source_proof_iff tr) in Ep as (ct & before & Ect & -> & Hle & _ & Hbef & Hcs & H0 & _ & ->); [|done..].
    cbn [source_frontier current_frontier] in H. apply andb_true_iff in H as [H1 H2]. bool_facts.
    apply early_response in Hbef as [Eb Hq]. pose proof (b2z_bounds (is_some (co_request r))).
    apply canonical_Some in H2 as [H2 _]; [|lia|by eapply observed_nonneg|lia].
    pose proof (claimed_revision _ _ Hr (turn_claimed _ _ _ Hr Ect)) as Hc. rewrite Es in Hc. cbn in Hc.
    pose proof (lg_stops _ _ (proj1 (reached_ledger _ _ Hr))) as Hbal. rewrite Es in Hbal. cbn in Hbal.
    destruct (handed_over tr r n) as [b Hb]; [done|lia|lia|done|]. split; [done|].
    eapply stopped_move; try done; [lia|]. intros q Eq. by apply Hq.
  - intros [-> Hst]. pose proof (stopped_facts _ _ _ Hst) as (tr' & fr0 & ct & Hr' & Hh & Hp & Es & Ect & H0 & Hfr & Ea & Hq).
    pose proof (lg_state _ _ (proj1 (reached_ledger _ _ Hr'))) as Hc. unfold state_consistent in Hc. rewrite Es in Hc.
    destruct Hc as [Hcl Et]. rewrite bool_decide_true, Et by done. cbn [negb is_some is_none orb].
    pose proof (claimed_revision _ _ Hr' Hcl) as Hv. rewrite Es, Hh, Hp in Hv. cbn in Hv.
    pose proof (b2z_bounds (is_some (co_request r))). pose proof (observed_nonneg _ _ Hr).
    rewrite (proj2 (source_proof_iff tr r a (a + 1) (co_revision r) None
      (mkProof (co_revision r - 3 - b2z (is_some (co_request r))) (observed r)) Hr Ha Hu)).
    + cbn [source_frontier current_frontier]. apply andb_true_iff. split; [apply Z.eqb_eq; lia|].
      apply bool_decide_eq_true, canonical_Some; lia.
    + exists ct, (is_some (co_request r)). split_and!; try done; try lia. by apply placed_early.
Qed.

Lemma stopping_authentication_exact_witness : exists r, run_sample stopped_trace = Some r
  /\ stopped_at 4 (replicate 16 x07) r /\ ~ stopped_at 3 (replicate 16 x07) r.
Proof.
  assert (exists r, run_sample stopped_trace = Some r
    /\ stopping_descendant_is_exact r (replicate 16 x07) 4 5 = true
    /\ stopping_descendant_is_exact r (replicate 16 x07) 3 4 = false) as (r & E & Hx & Hy).
  { eexists. split; [vm_compute; reflexivity|]. split; vm_compute; reflexivity. }
  pose proof (run_sample_reached _ _ E) as Hr. exists r. split; [exact E|].
  assert (is_u64 4 /\ is_u64 3) as [U4 U3] by (unfold is_u64; lia). split.
  - apply (proj1 (stopping_authentication_exact stopped_trace r (replicate 16 x07) 4 5 Hr U4) Hx).
  - intros Hst. assert (stopping_descendant_is_exact r (replicate 16 x07) 3 4 = true) as Hz; [|congruence].
    apply (proj2 (stopping_authentication_exact stopped_trace r (replicate 16 x07) 3 4 Hr U3)).
    split; [reflexivity|exact Hst].
Defined.

(** ** After the stop *)

(** What a later record keeps of an earlier one whose CAS turn is known. *)
Definition later (x r : CompactionOperationRecord) : Prop :=
  co_cas_turn r = co_cas_turn x
  /\ (co_request r = co_request x
      \/ co_request x = None /\ exists q, co_request r = Some q /\ co_revision x < rq_revision q)
  /\ (co_terminal r = co_terminal x
      \/ co_terminal x = None /\ exists t, co_terminal r = Some t /\ observed x < tm_sequence t)
  /\ observed x <= observed r /\ co_revision x <= co_revision r.

Lemma later_trans x y r : later x y -> later y r -> later x r.
Proof.
  intros (A1 & A2 & A3 & A4 & A5) (B1 & B2 & B3 & B4 & B5). unfold later. split_and!; [congruence| | |lia|lia].
  - destruct A2 as [A2|(A2 & q & A2' & ?)], B2 as [B2|(B2 & q' & B2' & ?)].
    + left. congruence.
    + right. split; [congruence|]. exists q'. split; [done|lia].
    + right. split; [done|]. exists q. split; [congruence|lia].
    + congruence.
  - destruct A3 as [A3|(A3 & q & A3' & ?)], B3 as [B3|(B3 & q' & B3' & ?)].
    + left. congruence.
    + right. split; [congruence|]. exists q'. split; [done|lia].
    + right. split; [done|]. exists q. split; [congruence|lia].
    + congruence.
Qed.

Lemma step_later tr r e r' : reached tr r -> is_Some (co_cas_turn r) -> step r e r' -> later r r'.
Proof.
  intros Hr Hct Hs. pose proof (step_inv _ _ _ _ Hr Hs) as [Hg ->].
  assert (Hq : forall q, provider_guard r q -> observed r < q).
  { intros q (_ & _ & Hq). apply (expected_next r) in Hq; [lia|]. intros f Ef.
    apply reached_ledger in Hr as [Hl _]. by destruct (lg_seen _ _ Hl f Ef). }
  unfold later, observed in *. destruct e as [a|d|q s|q t|m|q s t|n|n|n why g c|s k g c|t i k g c]; cbn in *.
  - split_and!; auto; lia.
  - split_and!; auto; [|lia..]. right. destruct Hg as (_ & ? & _). split; [done|]. eexists. split; [done|]. cbn. lia.
  - destruct Hg as [_ Hg]. apply Hq in Hg. split_and!; auto; lia.
  - destruct Hg as (_ & Hg & _). rewrite Hg in Hct. by destruct Hct.
  - destruct Hg as (_ & _ & _ & Hg). apply Hq in Hg. split_and!; auto; lia.
  - destruct Hg as (Ht & _ & Hg). apply Hq in Hg. split_and!; auto; [|lia..]. right. split; [done|].
    eexists. split; [done|]. done.
  - split_and!; auto; lia.
  - split_and!; auto; lia.
  - split_and!; auto; lia.
  - split_and!; auto; lia.
  - split_and!; auto; lia.
Qed.

Lemma steps_later tr x tr' r : reached tr x -> is_Some (co_cas_turn x) -> steps step x tr' r -> later x r.
Proof.
  intros Hr Hct Hs. induction Hs as [x|x tr' y e r Hs IH Hstep]; [unfold later; split_and!; auto; lia|].
  specialize (IH Hr Hct). eapply later_trans; [done|]. eapply step_later; [by eapply reached_steps| |done].
  by rewrite (proj1 IH).
Qed.

(** The proof of a stop that is over: [r1] was the stopping record, [r2] its successor. *)
Lemma past_stop_proof tr a n r1 r2 r :
  stopped_at a n r1 -> reached tr r -> co_revision r2 = co_revision r1 + 1 ->
  co_cas_turn r2 = co_cas_turn r1 -> co_request r2 = co_request r1 -> observed r1 <= observed r2 -> later r2 r ->
  stopping_source_proof r a (a + 1) (co_revision r1) (Some (co_revision r1 + 1))
  = Some (mkProof (observed r1) (observed r)).
Proof.
  intros Hst Hr E2 Ect2 Erq2 Ho Hla.
  pose proof (stopped_facts _ _ _ Hst) as (tr' & fr0 & ct & Hr' & Hh & Hp & Es & Ect & H0 & Hfr & Ea & Hq).
  pose proof (claimed_revision _ _ Hr' (turn_claimed _ _ _ Hr' Ect)) as Hv. rewrite Es, Hh, Hp in Hv. cbn in Hv.
  destruct Hla as (L1 & L2 & _ & L4 & L5). pose proof (reached_bound _ _ Hr').
  pose proof (b2z_bounds (is_some (co_request r1))). pose proof (reached_bound _ _ Hr).
  replace (observed r1) with (co_revision r1 - 3 - b2z (is_some (co_request r1))) at 1 by lia.
  apply (source_proof_iff tr); [done|unfold is_u64; lia..|]. exists ct, (is_some (co_request r1)).
  split_and!; try done; try lia; [congruence|]. unfold response_placed. rewrite Erq2, E2 in L2.
  destruct L2 as [->|(E0 & q & -> & Hlt)].
  - destruct (co_request r1) as [q|]; cbn; [|done]. left. auto.
  - rewrite E0. cbn. right. split_and!; [done|lia|]. eexists. split; [done|]. lia.
Qed.

Section Dispositions.
Context {H : Type} `{Sha256 H}.

(** A consumed record comes with its receipt, another one with none. *)
Definition receipt_for (r : CompactionOperationRecord) (receipt : option CompactionSettlementReceiptRecord) : Prop :=
  if is_consumed (co_state r)
  then exists rc, receipt = Some rc /\ consumed_receipt_is_exact (H := H) r rc = true
  else receipt = None.

(** The live revision, and the consumed one after it. *)
Lemma post_stop_exact tr r receipt k required : reached tr r -> is_Some (co_claim r) -> receipt_for r receipt ->
  count is_handoff tr + count is_reopen tr = k -> 1 <= count is_handoff tr ->
  match co_state r with CmpStopping _ => False | _ => True end ->
  (required = true -> is_Some (co_terminal r)) ->
  post_stop_descendant_is_exact (H := H) r (canonical_revision (b2z (is_some (co_request r))) (observed r) k)
    receipt required = true.
Proof.
  intros Hr Hc Hrc Hk Hh1 Hstop Hreq. pose proof (claimed_revision _ _ Hr Hc) as Hv.
  pose proof (reached_bound _ _ Hr). pose proof (b2z_bounds (is_some (co_request r))).
  pose proof (observed_nonneg _ _ Hr). pose proof (reached_ledger _ _ Hr) as [Hl _].
  pose proof (lg_state _ _ Hl) as Hst. pose proof (lg_stops _ _ Hl) as Hbal. pose proof (lg_ok _ _ Hl) as Hok.
  unfold state_consistent, receipt_for in *. pose proof (count_nonneg is_reopen tr).
  pose proof (b2z_bounds (is_consumed (co_state r))).
  set (e := 2 + b2z (is_some (co_request r)) + observed r + k).
  assert (canonical_revision (b2z (is_some (co_request r))) (observed r) k = Some e) as ->
    by (symmetry; apply canonical_Some; lia).
  unfold post_stop_descendant_is_exact. destruct (co_state r) eqn:Es; cbn [is_consumed b2z] in *; try done.
  - cbn in Hbal. lia.
  - destruct Hst as [_ Et]. rewrite Et, Hrc. rewrite (proj2 (Z.eqb_eq (co_revision r) e)) by lia.
    destruct required; [|done]. destruct Hreq as [? ?]; [done|congruence].
  - destruct Hst as (_ & Et & _). rewrite Et, Hrc. rewrite (proj2 (Z.eqb_eq (co_revision r) e)) by lia.
    destruct required; [|done]. destruct Hreq as [? ?]; [done|congruence].
  - rewrite Hrc, (proj2 (Z.eqb_eq (co_revision r) e)) by lia.
    rewrite (proj2 (is_some_true (co_terminal r))); [done|]. by apply Hok.
  - destruct Hrc as (rc & -> & Hrc). rewrite checked_add64_eq by lia. cbn.
    by rewrite (proj2 (Z.eqb_eq (co_revision r) (e + 1))), Hrc by lia.
Qed.
End Dispositions.

Lemma no_stop_after_terminal tr r2 tr2 r : reached tr r2 -> is_Some (co_cas_turn r2) -> is_Some (co_terminal r2) ->
  steps step r2 tr2 r -> count is_handoff tr2 = 0 /\ count is_reopen tr2 = 0 /\ co_terminal r = co_terminal r2.
Proof.
  intros Hr Hct Ht Hs. induction Hs as [r2|r2 tr2 y e r Hs IH Hstep]; [done|].
  destruct (IH Hr Hct Ht) as (E1 & E2 & E3). pose proof (reached_steps _ _ _ _ Hr Hs) as Hy.
  pose proof (step_inv _ _ _ _ Hy Hstep) as [Hg _]. rewrite !count_snoc.
  assert (is_Some (co_cas_turn y)) as Hcy by (by rewrite (proj1 (steps_later _ _ _ _ Hr Hct Hs))).
  pose proof (step_later _ _ _ _ Hy Hcy Hstep) as (_ & _ & [L|[L _]] & _); [|rewrite L in E3; rewrite <- E3 in Ht; by destruct Ht].
  destruct Ht as [t Et]. rewrite Et in E3.
  destruct e; cbn in Hg |- *; split_and!; try lia; try congruence; destruct_and?; congruence.
Qed.

Section Authentication.
Context {H : Type} `{Sha256 H}.

Lemma reopened_authenticates a n r1 r2 tr2 r receipt :
  stopped_at a n r1 -> step r1 (EvReopen n) r2 -> steps step r2 tr2 r -> count is_handoff tr2 = 0 ->
  receipt_for (H := H) r receipt ->
  safe_reopen_descendant_is_exact (H := H) r a (a + 1) (co_revision r1) (co_revision r1 + 1) receipt = true.
Proof.
  intros Hst Hs1 Hs2 Hh2 Hrc.
  pose proof (stopped_facts _ _ _ Hst) as (tr & fr0 & ct & Hr1 & Hh & Hp & Es & Ect & _).
  pose proof (step_inv _ _ _ _ Hr1 Hs1) as [[_ Et1] E2]. pose proof (reached_snoc _ _ _ _ Hr1 Hs1) as Hr2.
  pose proof (reached_steps _ _ _ _ Hr2 Hs2) as Hr.
  assert (Hct2 : is_Some (co_cas_turn r2)) by (rewrite E2; cbn; rewrite Ect; by eauto).
  pose proof (steps_later _ _ _ _ Hr2 Hct2 Hs2) as Hla.
  pose proof (past_stop_proof _ a n r1 r2 r Hst Hr) as Hpf. unfold safe_reopen_descendant_is_exact.
  pose proof (reached_bound _ _ Hr2) as Hb2. assert (co_revision r2 = co_revision r1 + 1) as Ev by (by rewrite E2).
  pose proof (reached_revision _ _ Hr1). rewrite revision_follows_succ by lia. cbn [negb].
  assert (observed r2 = observed r1) as Eo by (by rewrite E2).
  rewrite Hpf by (done || (rewrite E2; done) || lia). cbn [source_frontier current_frontier].
  assert (on_some (fun t => tm_sequence t <=? observed r1) (co_terminal r) = false) as ->.
  { destruct Hla as (_ & _ & Hlt & _). rewrite Eo in Hlt. apply on_some_false. intros t Ht. apply Z.leb_gt.
    destruct Hlt as [L|(_ & t' & L & Hlt)]; [rewrite L, E2 in Ht; cbn in Ht; congruence|]. congruence. }
  pose proof (lg_stops _ _ (proj1 (reached_ledger _ _ Hr))) as Hbal. rewrite !count_app in Hbal. cbn in Hbal.
  pose proof (count_nonneg is_reopen tr2).
  eapply post_stop_exact; try done.
  - destruct Hct2 as [c Hc]. eapply turn_claimed; [done|]. rewrite (proj1 Hla). done.
  - rewrite !count_app. cbn. destruct (co_state r); cbn in Hbal; lia.
  - rewrite !count_app. cbn. lia.
  - destruct (co_state r); cbn in Hbal; lia || done.
Qed.

Lemma terminal_authenticates a n r1 q s t r2 tr2 r receipt :
  stopped_at a n r1 -> step r1 (EvTerminal q s t) r2 -> steps step r2 tr2 r -> receipt_for (H := H) r receipt ->
  matching_terminal_descendant_is_exact (H := H) r a (a + 1) (co_revision r1) (co_revision r1 + 1) t receipt = true.
Proof.
  intros Hst Hs1 Hs2 Hrc.
  pose proof (stopped_facts _ _ _ Hst) as (tr & fr0 & ct & Hr1 & Hh & Hp & Es & Ect & _).
  pose proof (step_inv _ _ _ _ Hr1 Hs1) as [(_ & _ & Hg) E2]. pose proof (reached_snoc _ _ _ _ Hr1 Hs1) as Hr2.
  pose proof (reached_steps _ _ _ _ Hr2 Hs2) as Hr.
  assert (Hct2 : is_Some (co_cas_turn r2)) by (rewrite E2; cbn; rewrite Ect; by eauto).
  pose proof (steps_later _ _ _ _ Hr2 Hct2 Hs2) as Hla.
  destruct (no_stop_after_terminal _ _ _ _ Hr2 Hct2 ltac:(rewrite E2; by eauto) Hs2) as (N1 & N2 & N3).
  assert (Hq : q = observed r1 + 1).
  { destruct Hg as (_ & _ & Hg). apply (expected_next r1); [|done]. intros f Ef.
    by destruct (lg_seen _ _ (proj1 (reached_ledger _ _ Hr1)) f Ef). }
  pose proof (past_stop_proof _ a n r1 r2 r Hst Hr) as Hpf. unfold matching_terminal_descendant_is_exact.
  pose proof (reached_bound _ _ Hr2) as Hb2. assert (co_revision r2 = co_revision r1 + 1) as Ev by (by rewrite E2).
  pose proof (reached_revision _ _ Hr1). rewrite revision_follows_succ by lia. cbn [negb].
  assert (observed r2 = q) as Eo by (by rewrite E2).
  rewrite Hpf by (done || (rewrite E2; done) || lia). cbn [source_frontier current_frontier]. cbn zeta.
  assert (Htr : co_terminal r = Some (mkTerminal q s t)) by (rewrite N3, E2; done). rewrite Htr. cbn [tm_sequence tm_turn_state].
  pose proof (claimed_revision _ _ Hr1 (turn_claimed _ _ _ Hr1 Ect)) as Hv. rewrite Es, Hh, Hp in Hv. cbn in Hv.
  pose proof (b2z_bounds (is_some (co_request r1))). pose proof (reached_bound _ _ Hr1).
  rewrite checked_add64_eq, bool_decide_true, Z.eqb_refl by (lia || (f_equal; lia)). cbn [negb orb].
  pose proof (lg_state _ _ (proj1 (reached_ledger _ _ Hr))) as Hsc. unfold state_consistent in Hsc.
  eapply post_stop_exact; try done.
  - destruct Hct2 as [c Hc]. eapply turn_claimed; [done|]. rewrite (proj1 Hla). done.
  - rewrite !count_app. cbn. lia.
  - rewrite !count_app. cbn. lia.
  - destruct (co_state r); try done. destruct Hsc as [_ Hsc]. congruence.
Qed.

(** The receipt the abandonment mutation writes authenticates its own successor. *)
Lemma abandoned_authenticates a n r1 why g g' r :
  let rc := mkReceipt (co_id r1) (co_revision r1) (co_revision r1 + 1) g g' (SettledAbandoned (settled_reason why)) None in
  stopped_at a n r1 ->
  step r1 (EvAbandon n why (ig_revision g') (settlement_receipt_commitment (H := H) rc)) r ->
  stop_abandonment_successor_is_exact (H := H) r a (a + 1) (co_revision r1) (co_revision r1 + 1) rc = true.
Proof.
  intros rc Hst Hs1.
  pose proof (stopped_facts _ _ _ Hst) as (tr & fr0 & ct & Hr1 & Hh & Hp & Es & Ect & Hlo & Hfr & Ea & Hq).
  pose proof (step_inv _ _ _ _ Hr1 Hs1) as [[_ Et1] E2]. pose proof (reached_snoc _ _ _ _ Hr1 Hs1) as Hr.
  pose proof (reached_bound _ _ Hr) as Hb2. pose proof (reached_revision _ _ Hr1).
  assert (co_revision r = co_revision r1 + 1) as Ev by (by rewrite E2). unfold stop_abandonment_successor_is_exact.
  rewrite revision_follows_succ, Ev, Z.eqb_refl by lia. assert (co_terminal r = None) as -> by (by rewrite E2).
  cbn [negb orb is_some is_none].
  pose proof (claimed_revision _ _ Hr1 (turn_claimed _ _ _ Hr1 Ect)) as Hv. rewrite Es, Hh, Hp in Hv. cbn in Hv.
  pose proof (b2z_bounds (is_some (co_request r1))). pose proof (observed_nonneg _ _ Hr1).
  assert (co_request r = co_request r1 /\ observed r = observed r1) as [Eq Eo] by (by rewrite E2).
  rewrite (proj2 (source_proof_iff _ r a (a + 1) (co_revision r1) None (mkProof (observed r1) (observed r)) Hr
    ltac:(unfold is_u64; lia) ltac:(unfold is_u64; lia))).
  - cbn [source_frontier current_frontier]. rewrite Eo, Z.eqb_refl, Eq, bool_decide_true by (apply canonical_Some; lia).
    cbn [rc rc_source_revision rc_successor_revision]. rewrite !Z.eqb_refl. cbn [andb].
    pose proof (lg_state _ _ (proj1 (reached_ledger _ _ Hr))) as Hsc. unfold state_consistent in Hsc.
    unfold consumed_receipt_is_exact. rewrite E2 in Hsc |- *. cbn [successor set_state consumed_as co_state] in Hsc |- *.
    cbn -[consumed_witness_is_exact settlement_receipt_commitment] in Hsc |- *.
    rewrite Hsc, !bool_decide_true, !Z.eqb_refl by done. done.
  - exists ct, (is_some (co_request r1)). split_and!; try lia.
    + by rewrite E2.
    + unfold response_placed. rewrite Eq. destruct (co_request r1); cbn; [left; auto|done].
    + f_equal; lia.
Qed.
End Authentication.

(** ** Theorems on dispositions *)

(** The ways a stop of a compaction ends are all authenticated later, whatever happens to the
    operation in between short of another stop: a reopening by the check for reopened stops, a
    terminal by the check for matching terminals, on the record of that moment and on every
    later one, consumed with its receipt or not; and an abandonment by the check for abandoned
    stops, with the receipt the mutation writes. *)
Theorem stop_dispositions_authenticate {H} `{Sha256 H} a n r1 : stopped_at a n r1 ->
  (forall r2 tr2 r receipt, step r1 (EvReopen n) r2 -> steps step r2 tr2 r -> count is_handoff tr2 = 0 ->
     receipt_for (H := H) r receipt ->
     safe_reopen_descendant_is_exact (H := H) r a (a + 1) (co_revision r1) (co_revision r1 + 1) receipt = true)
  /\ (forall q s t r2 tr2 r receipt, step r1 (EvTerminal q s t) r2 -> steps step r2 tr2 r ->
     receipt_for (H := H) r receipt ->
     matching_terminal_descendant_is_exact (H := H) r a (a + 1) (co_revision r1) (co_revision r1 + 1) t receipt = true)
  /\ (forall why g g' r,
     let rc := mkReceipt (co_id r1) (co_revision r1) (co_revision r1 + 1) g g'
                 (SettledAbandoned (settled_reason why)) None in
     step r1 (EvAbandon n why (ig_revision g') (settlement_receipt_commitment (H := H) rc)) r ->
     stop_abandonment_successor_is_exact (H := H) r a (a + 1) (co_revision r1) (co_revision r1 + 1) rc = true).
Proof.
  intros Hst. split_and!.
  - intros. by eapply reopened_authenticates.
  - intros. by eapply terminal_authenticates.
  - intros. by eapply abandoned_authenticates.
Qed.

Lemma sample_stopped : exists r, run_sample stopped_trace = Some r /\ stopped_at 4 (replicate 16 x07) r.
Proof.
  assert (exists r, run_sample stopped_trace = Some r /\
    stopping_descendant_is_exact r (replicate 16 x07) 4 5 = true) as (r & E & Hx).
  { eexists. split; [vm_compute; reflexivity|]. vm_compute. reflexivity. }
  exists r. split; [done|]. destruct (handed_over stopped_trace r (replicate 16 x07)) as [b Hb];
    [by apply run_sample_reached|done|done| |].
  { unfold stopping_descendant_is_exact in Hx. case_match eqn:Eb; [done|].
    apply orb_false_iff in Eb as [Eb _]. by bool_facts. }
  assert (exists ct, run_sample stopped_trace = Some r -> co_cas_turn r = Some ct /\ ctu_sequence ct = 2
    /\ co_request r = None /\ co_revision r = 6) as (ct & Hc).
  { destruct (run_sample stopped_trace) as [r'|] eqn:Er; vm_compute in Er; [|done]. injection Er as <-.
    injection E as <-. eexists. intros _. repeat split. }
  destruct (Hc E) as (H1 & H2 & H3 & H4). eapply stopped_move; [done|rewrite H4; lia|done| |].
  - rewrite H3, H2. cbn. lia.
  - by rewrite H3.
Qed.

Lemma stop_dispositions_authenticate_witness : exists r,
  run_sample reopened_trace = Some r
  /\ safe_reopen_descendant_is_exact (H := list byte) r 4 5 6 7 None = true.
Proof.
  destruct sample_stopped as (r1 & E1 & Hst).
  assert (exists r, run_sample stopped_trace = Some r1 -> co_revision r1 = 6 /\ try_step r1 (EvReopen (replicate 16 x07)) = Some r
    /\ run_sample reopened_trace = Some r /\ co_state r = CmpDispatchClaimed) as (r & Hr).
  { destruct (run_sample stopped_trace) as [r'|] eqn:Er; vm_compute in Er; [|done]. injection Er as <-.
    injection E1 as <-. eexists. intros _. split_and!; vm_compute; reflexivity. }
  destruct (Hr E1) as (V1 & T1 & E2 & S2). exists r. split; [exact E2|].
  destruct (stop_dispositions_authenticate (H := list byte) 4 (replicate 16 x07) r1 Hst) as (Hreopen & _).
  rewrite V1 in Hreopen. apply (Hreopen r [] r None); [by apply try_step_step|apply steps_refl|done|].
  unfold receipt_for. by rewrite S2.
Defined.

(** A record handed over twice was reopened in between, and its revision counts all three. *)
Lemma second_stop_revision tr r ct : reached tr r -> 2 <= count is_handoff tr -> co_cas_turn r = Some ct ->
  5 + b2z (is_some (co_request r)) + observed r + b2z (is_consumed (co_state r)) <= co_revision r.
Proof.
  intros Hr Hh Ect. rewrite (claimed_revision _ _ Hr (turn_claimed _ _ _ Hr Ect)).
  pose proof (lg_stops _ _ (proj1 (reached_ledger _ _ Hr))) as Hbal.
  destruct (co_state r); cbn in Hbal |- *; lia.
Qed.

Lemma post_stop_revision {H} `{Sha256 H} r q p k receipt required : 0 <= q -> 0 <= p -> 0 <= k ->
  post_stop_descendant_is_exact (H := H) r (canonical_revision q p k) receipt required = true ->
  co_revision r = 2 + q + p + k + b2z (is_consumed (co_state r)).
Proof.
  intros Hq Hp Hk Hx. unfold post_stop_descendant_is_exact in Hx.
  destruct (canonical_revision q p k) as [v|] eqn:Ev; [|done].
  symmetry in Ev. apply canonical_Some in Ev as [-> _]; [|done..].
  destruct (co_state r); try done; cbn [is_consumed b2z]; try (bool_facts; destruct_and?; bool_facts; lia).
  destruct (checked_add64 _ 1) as [c|] eqn:Ec; [|done]. apply checked_add64_Some in Ec as [-> _].
  bool_facts. destruct_and?. bool_facts. lia.
Qed.

(** C15: a record that was handed to a stop twice is authenticated by none of the checks, for no
    nonce, revisions or receipt: the checks count exactly one handoff.  A second handoff is
    reachable, since a reopened record may be handed over again. *)
Theorem second_stop_unauthenticated {H} `{Sha256 H} tr r : reached tr r -> 2 <= count is_handoff tr ->
  (forall n a a', is_u64 a -> stopping_descendant_is_exact r n a a' = false)
  /\ (forall a a' s s' receipt, is_u64 a -> is_u64 s ->
       safe_reopen_descendant_is_exact (H := H) r a a' s s' receipt = false)
  /\ (forall a a' s s' t receipt, is_u64 a -> is_u64 s ->
       matching_terminal_descendant_is_exact (H := H) r a a' s s' t receipt = false)
  /\ (forall a a' s s' receipt, is_u64 a -> is_u64 s ->
       stop_abandonment_successor_is_exact (H := H) r a a' s s' receipt = false).
Proof.
  intros Hr Hh. pose proof (fun ct => second_stop_revision tr r ct Hr Hh) as Hsec.
  pose proof (reached_bound _ _ Hr). pose proof (reached_revision _ _ Hr). pose proof (observed_nonneg _ _ Hr).
  pose proof (b2z_bounds (is_some (co_request r))). pose proof (b2z_bounds (is_consumed (co_state r))).
  split_and!; intros; apply not_true_is_false; intros Hx; unfold stopping_descendant_is_exact,
    safe_reopen_descendant_is_exact, matching_terminal_descendant_is_exact,
    stop_abandonment_successor_is_exact in Hx; case_match eqn:E0; try done;
    destruct (stopping_source_proof _ _ _ _ _) as [pf|] eqn:Ep; try done;
    apply (source_proof_iff tr) in Ep as (ct & before & Ect & _ & _ & _ & _ & _ & _ & _ & ->);
    try (done || (unfold is_u64; lia)); cbn [source_frontier current_frontier] in Hx; specialize (Hsec ct Ect).
  - apply andb_true_iff in Hx as [_ Hx]. bool_facts. apply canonical_Some in Hx; lia.
  - case_match; [done|]. apply post_stop_revision in Hx; lia.
  - cbn zeta in Hx. case_match; [done|]. apply post_stop_revision in Hx; lia.
  - rewrite !andb_true_iff in Hx. destruct Hx as [[[[_ Hx] _] _] _].
    rewrite !orb_false_iff in E0. destruct E0 as [[_ E0] _]. bool_facts. apply canonical_Some in Hx; lia.
Qed.

Lemma second_stop_unauthenticated_witness : exists r,
  run_sample (reopened_trace ++ [EvHandoff (replicate 16 x09)]) = Some r
  /\ co_state r = CmpStopping (replicate 16 x09)
  /\ stopping_descendant_is_exact r (replicate 16 x09) 7 8 = false.
Proof.
  assert (exists r, run_sample (reopened_trace ++ [EvHandoff (replicate 16 x09)]) = Some r
    /\ co_state r = CmpStopping (replicate 16 x09)) as (r & E & Es).
  { eexists. split; [vm_compute; reflexivity|]. vm_compute. reflexivity. }
  exists r. split_and!; [exact E|exact Es|].
  apply (second_stop_unauthenticated (H := list byte) _ r (run_sample_reached _ r E)); [vm_compute; discriminate|].
  unfold is_u64. lia.
Defined.
