(* ===== verification/BuildBudget.v ===== *)
(** * The acquisition budget of a draft build step

    [syndic-storage/src/draft_piece/mutation/advance_budget.rs].  A build step reads and emits
    records under one budget: every point read and every emitted record is charged, reads are
    cached as encoded bytes, and a step that would pass a limit is rejected before it reads.
    The record families ([codec.rs], trait [Family]) are a class; the store below is a
    function from keys to what a point read returns.  The code keeps what a failing operation has
    charged; here a failing operation returns no state, because every caller returns the error
    with [?], so that no operation follows it on that budget. *)
From stdpp Require Import prelude gmap strings.
From S2P Require Import Prelude.
From S2P Require Import Bytes.
From S2P Require Import SyndicParts.

#[global] Instance byte_countable : Countable byte.
Proof. apply (inj_countable' Byte.to_nat (fun n => default x00 (Byte.of_nat n))). by intros []. Defined.

(** ** Errors *)

Inductive DraftPieceRejectedReason :=
  | EmptyTransaction | TooManyReplacements | InsertedPayloadTooLarge | EmptyTextLeaf
  | InvalidUtf8Boundary | InvalidGapWitness | OutOfOrder | Overlap | DuplicateEmptyRange
  | DuplicateMarkerIdentity | DuplicateMarkerOrder | AggregateOverflow | TreeLimit.

(** The failures of the store's reads are a parameter. *)
Inductive DraftPiecePrepareError (R : Type) :=
  | PrepRead (e : R)
  | Rejected (reason : DraftPieceRejectedReason)
  | InvalidRoot
  | Absent
  | ConcurrentChange.
Arguments PrepRead {R} e.
Arguments Rejected {R} reason.
Arguments InvalidRoot {R}.
Arguments Absent {R}.
Arguments ConcurrentChange {R}.

(** ** Families *)

(** The part of [Family] the budget uses. *)
Class Family (K V : Type) := {
  family_name : string;
  max_value_bytes : Z;
  encode_family_key : K -> result CodecError (list byte);
  encode_family_value : V -> result CodecError (list byte);
  decode_family_value : list byte -> result CodecError V
}.

(** What a family promises: a value decodes from its encoding, and the bound holds of it.
    [family_key_typed] and [family_typed] are the widths the Rust types fix. *)
Class FamilyLaws (K V : Type) `{Family K V} := {
  family_key_typed : K -> Prop;
  family_typed : V -> Prop;
  family_max : 0 <= max_value_bytes (K:=K) (V:=V);
  family_roundtrip (v : V) bs : family_typed v -> encode_family_value v = Ok bs -> decode_family_value bs = Ok v;
  family_bound (v : V) bs : family_typed v -> encode_family_value v = Ok bs -> zlen bs <= max_value_bytes;
  family_key_inj (k k' : K) ek : family_key_typed k -> family_key_typed k' ->
    encode_family_key k = Ok ek -> encode_family_key k' = Ok ek -> k = k'
}.

Definition is_structure (name : string) : bool :=
  bool_decide (name ∈ ["draft-piece-nodes"; "draft-piece-leaves"; "draft-marker-identity-index";
    "draft-marker-order-commitments"; "draft-marker-label-admission-nodes"; "draft-piece-build-mapping"]).

(** ** The budget *)

Definition MAX_STORED_STRUCTURES : Z := 256.
Definition MAX_POINT_ATTEMPTS : Z := 512.
Definition MAX_ENCODED_BYTES : Z := 4194304.

Record DraftPieceBuildWork := mkWork {
  point_attempts : Z;
  stored_structure_records : Z;
  encoded_bytes : Z;
  peak_encoded_bytes : Z
}.

(** The cache is keyed by family name and encoded key; [None] is a key read as absent. *)
Record Acquired := mkAcquired {
  aq_work : DraftPieceBuildWork;
  aq_records : gmap (string * list byte) (option (list byte))
}.

#[global] Instance work_eq_dec : EqDecision DraftPieceBuildWork.
Proof. solve_decision. Defined.
#[global] Instance acquired_eq_dec : EqDecision Acquired.
Proof. solve_decision. Defined.

(** [BuildBudget::default] *)
Definition fresh_budget : Acquired := mkAcquired (mkWork 0 0 0 0) ∅.

Definition b2u (b : bool) : Z := if b then 1 else 0.

Section Budget.
Context {R : Type}.

Definition limit_error : DraftPiecePrepareError R := Rejected TreeLimit.

Definition reserve (s : Acquired) (attempts structures bytes : Z)
    : result (DraftPiecePrepareError R) Acquired :=
  let w := aq_work s in
  next_attempts ← ok_or limit_error (checked_add64 (point_attempts w) attempts);
  next_structures ← ok_or limit_error (checked_add64 (stored_structure_records w) structures);
  next_bytes ← ok_or limit_error (checked_add64 (encoded_bytes w) bytes);
  if (MAX_POINT_ATTEMPTS <? next_attempts) || (MAX_STORED_STRUCTURES <? next_structures)
     || (MAX_ENCODED_BYTES <? next_bytes)
  then Err limit_error
  else Ok (mkAcquired (mkWork next_attempts next_structures next_bytes
                         (Z.max (peak_encoded_bytes w) next_bytes)) (aq_records s)).

(** [encoded_effect] *)
Definition encoded_effect (s : Acquired) (bytes : Z) (structure : bool)
    : result (DraftPiecePrepareError R) Acquired := reserve s 0 (b2u structure) bytes.

(** A codec failure inside the budget is reported as an invalid root. *)
Definition or_invalid {E A} (r : result E A) : result (DraftPiecePrepareError R) A :=
  match r with Ok a => Ok a | Err _ => Err InvalidRoot end.

Context {K V : Type} `{Family K V}.

(** The unused part of the reservation is given back. *)
Definition refund (s : Acquired) (value_bytes : Z) (absent : bool) : Acquired :=
  let w := aq_work s in
  mkAcquired
    (mkWork (point_attempts w)
       (if absent && is_structure (family_name (K:=K) (V:=V)) then stored_structure_records w - 1
        else stored_structure_records w)
       (encoded_bytes w - (max_value_bytes (K:=K) (V:=V) - value_bytes))
       (peak_encoded_bytes w))
    (aq_records s).

Definition remember (s : Acquired) (identity : string * list byte) (encoded : option (list byte)) : Acquired :=
  mkAcquired (aq_work s) (<[identity := encoded]> (aq_records s)).

(** The read that follows a reservation. *)
Definition acquire_new (s : Acquired) (identity : string * list byte) (cached : bool)
    (read : result (DraftPiecePrepareError R) (option V))
    : result (DraftPiecePrepareError R) (option V * Acquired) :=
  s ← reserve s 1 (b2u (is_structure (family_name (K:=K) (V:=V))))
        (zlen identity.2 + max_value_bytes (K:=K) (V:=V));
  value ← read;
  encoded ← match value with
            | None => Ok None
            | Some v => bs ← or_invalid (encode_family_value v); Ok (Some bs)
            end;
  let value_bytes := from_option (fun bs => zlen bs) 0 encoded in
  if max_value_bytes (K:=K) (V:=V) <? value_bytes then Err InvalidRoot
  else
    let s := refund s value_bytes (bool_decide (encoded = None)) in
    Ok (value, if cached then remember s identity encoded else s).

Definition acquire (s : Acquired) (key : K) (cached : bool)
    (read : result (DraftPiecePrepareError R) (option V))
    : result (DraftPiecePrepareError R) (option V * Acquired) :=
  encoded_key ← or_invalid (encode_family_key key);
  let identity := (family_name (K:=K) (V:=V), encoded_key) in
  match (if cached then aq_records s !! identity else None) with
  | Some None => Ok (None, s)
  | Some (Some bytes) => v ← or_invalid (decode_family_value bytes); Ok (Some v, s)
  | None => acquire_new s identity cached read
  end.

Definition emission (s : Acquired) (key : K) (value : V) : result (DraftPiecePrepareError R) Acquired :=
  k ← or_invalid (encode_family_key key);
  v ← or_invalid (encode_family_value value);
  reserve s 0 (b2u (is_structure (family_name (K:=K) (V:=V)))) (zlen k + zlen v).

(** [BuildAcquisition::point]: a cached read of the store. *)
Definition acquired_point (s : Acquired) (store : K -> result (DraftPiecePrepareError R) (option V))
    (key : K) : result (DraftPiecePrepareError R) (option V * Acquired) :=
  acquire s key true (store key).

(** [BuildBudget::recheck]: a read of the committing transaction, charged and not cached.  Every
    failure is reported as [SyndicMutationError::IdentityCollision], [None] here. *)
Definition recheck (s : Acquired) (reader : K -> result (DraftPiecePrepareError R) (option V)) (key : K)
    : option (option V * Acquired) :=
  match acquire s key false (or_invalid (reader key)) with Ok r => Some r | Err _ => None end.

Definition recheck_matches `{EqDecision V} (s : Acquired) (reader : K -> result (DraftPiecePrepareError R) (option V))
    (key : K) (expected : V) : option (bool * Acquired) :=
  match recheck s reader key with
  | Some (value, s) => Some (bool_decide (value = Some expected), s)
  | None => None
  end.
End Budget.

(** ** Lemmas *)

Lemma checked_add64_within a b m : a + b <= m -> m <= U64_MAX -> checked_add64 a b = Some (a + b).
Proof. intros. apply checked_add64_Some. lia. Qed.

(** The counters are within the limits and the peak is at least the current total. *)
Definition within_limits (s : Acquired) : Prop :=
  0 <= point_attempts (aq_work s) <= MAX_POINT_ATTEMPTS
  /\ 0 <= stored_structure_records (aq_work s) <= MAX_STORED_STRUCTURES
  /\ 0 <= encoded_bytes (aq_work s) <= peak_encoded_bytes (aq_work s)
  /\ peak_encoded_bytes (aq_work s) <= MAX_ENCODED_BYTES.

(** Room for [n] more structure records read or emitted, of at most [b] bytes each. *)
Definition room (b : Z) (s : Acquired) (n : nat) : Prop :=
  point_attempts (aq_work s) + Z.of_nat n <= MAX_POINT_ATTEMPTS
  /\ stored_structure_records (aq_work s) + Z.of_nat n <= MAX_STORED_STRUCTURES
  /\ encoded_bytes (aq_work s) + b * Z.of_nat n <= MAX_ENCODED_BYTES.

Lemma b2u_bounds b : 0 <= b2u b <= 1.
Proof. destruct b; cbn; lia. Qed.

Section Lemmas.
Context {R : Type}.

Lemma reserve_Ok s a t b s' : within_limits s -> 0 <= a -> 0 <= t -> 0 <= b ->
  reserve (R := R) s a t b = Ok s' <->
  point_attempts (aq_work s) + a <= MAX_POINT_ATTEMPTS
  /\ stored_structure_records (aq_work s) + t <= MAX_STORED_STRUCTURES
  /\ encoded_bytes (aq_work s) + b <= MAX_ENCODED_BYTES
  /\ s' = mkAcquired (mkWork (point_attempts (aq_work s) + a) (stored_structure_records (aq_work s) + t)
                        (encoded_bytes (aq_work s) + b)
                        (Z.max (peak_encoded_bytes (aq_work s)) (encoded_bytes (aq_work s) + b))) (aq_records s).
Proof.
  intros (H1 & H2 & H3 & H4) Ha Ht Hb. unfold reserve, MAX_POINT_ATTEMPTS, MAX_STORED_STRUCTURES, MAX_ENCODED_BYTES in *.
  split.
  - intros H. apply result_bind_Ok in H as (x & Hx & H). apply result_bind_Ok in H as (y & Hy & H).
    apply result_bind_Ok in H as (z & Hz & H). rewrite ok_or_Ok, checked_add64_Some in *.
    destruct Hx as [-> _], Hy as [-> _], Hz as [-> _]. case_match eqn:E; [done|]. simplify_eq. bool_facts. by split_and!.
  - intros (L1 & L2 & L3 & ->). rewrite !(checked_add64_within _ _ 4194304) by lia. cbn.
    case_match eqn:E; [|done]. rewrite !orb_true_iff, !Z.ltb_lt in E. lia.
Qed.

Lemma reserve_within s a t b s' : within_limits s -> 0 <= a -> 0 <= t -> 0 <= b ->
  reserve (R := R) s a t b = Ok s' -> within_limits s' /\ aq_records s' = aq_records s.
Proof.
  intros Hw Ha Ht Hb Hr. pose proof Hw as (? & ? & ? & ?).
  apply reserve_Ok in Hr as (? & ? & ? & ->); [|done..]. split; [|done]. unfold within_limits; cbn. lia.
Qed.

Context {K V : Type} `{FamilyLaws K V}.
Implicit Types (s : Acquired) (k : K) (v : V).

Abbreviation structure := (is_structure (family_name (K:=K) (V:=V))).
Abbreviation max_value := (max_value_bytes (K:=K) (V:=V)).

(** How a value stands in the cache. *)
Definition stored_as (o : option V) (e : option (list byte)) : Prop :=
  match o, e with
  | None, None => True
  | Some v, Some bs => family_typed v /\ encode_family_value (K:=K) v = Ok bs
  | _, _ => False
  end.

Lemma or_invalid_Ok {E A} (r : result E A) a : or_invalid (R := R) r = Ok a <-> r = Ok a.
Proof. destruct r; cbn; naive_solver. Qed.

Definition typed_read (read : result (DraftPiecePrepareError R) (option V)) : Prop :=
  forall v, read = Ok (Some v) -> family_typed v.

(** The state after a fresh read of [bs] bytes under a key of [ek] bytes. *)
Definition after_read s (ek : list byte) (e : option (list byte)) : DraftPieceBuildWork :=
  let w := aq_work s in
  mkWork (point_attempts w + 1) (stored_structure_records w + (if e is Some _ then b2u structure else 0))
    (encoded_bytes w + zlen ek + from_option (fun bs => zlen bs) 0 e)
    (Z.max (peak_encoded_bytes w) (encoded_bytes w + zlen ek + max_value)).

Lemma acquire_new_Ok s n ek cached read o s' : within_limits s -> typed_read read ->
  acquire_new (R:=R) (K:=K) s (n, ek) cached read = Ok (o, s') <->
  read = Ok o /\ (exists e, stored_as o e /\ aq_work s' = after_read s ek e
                   /\ aq_records s' = (if cached then <[(n, ek) := e]> (aq_records s) else aq_records s))
  /\ point_attempts (aq_work s) + 1 <= MAX_POINT_ATTEMPTS
  /\ stored_structure_records (aq_work s) + b2u structure <= MAX_STORED_STRUCTURES
  /\ encoded_bytes (aq_work s) + (zlen ek + max_value) <= MAX_ENCODED_BYTES.
Proof.
  intros Hw Hty. pose proof family_max as Hmax. pose proof (b2u_bounds structure). unfold acquire_new. cbn [snd]. rewrite result_bind_Ok.
  assert (Hres : forall x, reserve (R := R) s 1 (b2u structure) (zlen ek + max_value) = Ok x <-> _)
    by (intros x; apply reserve_Ok; [done|lia..]).
  split.
  - intros (x & Hx & Hk). apply Hres in Hx as (L1 & L2 & L3 & ->). apply result_bind_Ok in Hk as (o' & Ho & Hk).
    apply result_bind_Ok in Hk as (e & He & Hk). case_match eqn:Eb; [done|]. injection Hk as <- <-.
    split_and!; try done. exists e. destruct o' as [v|].
    + apply result_bind_Ok in He as (bs & Hbs & He). rewrite or_invalid_Ok in Hbs. injection He as <-. cbn.
      split_and!; [by apply Hty|done| |by destruct cached]. destruct cached; unfold after_read; cbn; f_equal; lia.
    + injection He as <-. cbn. split_and!; [done| |by destruct cached].
      destruct cached; unfold after_read; cbn; f_equal; destruct structure; cbn; lia.
  - intros (Hread & (e & Hst & Hwk & Hrec) & L1 & L2 & L3). eexists. split; [apply Hres; by split_and!|].
    rewrite Hread. cbn [mbind result_bind]. destruct s' as [w' rec']. cbn in Hwk, Hrec. subst w' rec'.
    destruct o as [v|], e as [bs|]; cbn in Hst; try done.
    + destruct Hst as [Hv Hst]. rewrite Hst. cbn. pose proof (family_bound v bs Hv Hst). case_match eqn:E; [bool_facts; lia|].
      f_equal. f_equal. destruct cached; unfold remember, refund, after_read; cbn; f_equal; f_equal; lia.
    + cbn. case_match eqn:E; [bool_facts; lia|]. f_equal. f_equal.
      destruct cached; unfold remember, refund, after_read; cbn; f_equal; f_equal; destruct structure; cbn; lia.
Qed.

Lemma after_read_within s ek e s' : within_limits s -> aq_work s' = after_read s ek e ->
  (forall bs, e = Some bs -> zlen bs <= max_value) ->
  point_attempts (aq_work s) + 1 <= MAX_POINT_ATTEMPTS ->
  stored_structure_records (aq_work s) + b2u structure <= MAX_STORED_STRUCTURES ->
  encoded_bytes (aq_work s) + (zlen ek + max_value) <= MAX_ENCODED_BYTES -> within_limits s'.
Proof.
  intros (? & ? & ? & ?) Hwk He L1 L2 L3. pose proof family_max as Hmax. pose proof (b2u_bounds structure).
  unfold within_limits. rewrite Hwk. unfold after_read. cbn.
  assert (0 <= from_option (fun bs => zlen bs) 0 e <= max_value).
  { destruct e as [bs|]; cbn; [|lia]. specialize (He bs eq_refl). lia. }
  destruct e; lia.
Qed.

Lemma stored_bound o e : stored_as o e -> forall bs, e = Some bs -> zlen bs <= max_value.
Proof. intros Hs bs ->. destruct o as [v|]; [|done]. destruct Hs. by apply (family_bound v). Qed.

Lemma stored_inj o o' e : stored_as o e -> stored_as o' e -> o = o'.
Proof.
  destruct o as [v|], o' as [v'|], e as [bs|]; cbn; try done. intros [T1 H1] [T2 H2].
  apply family_roundtrip in H1, H2; congruence.
Qed.

(** What a point read does, cached answer or not. *)
Lemma acquire_inv s k cached read o s' : within_limits s -> acquire (R:=R) s k cached read = Ok (o, s') ->
  exists ek, encode_family_key (V:=V) k = Ok ek /\
    ((cached = true /\ s' = s /\ exists e, aq_records s !! (family_name (K:=K) (V:=V), ek) = Some e
        /\ match e with None => o = None | Some bs => exists v, decode_family_value (K:=K) bs = Ok v /\ o = Some v end)
     \/ ((if cached then aq_records s !! (family_name (K:=K) (V:=V), ek) else None) = None
         /\ acquire_new (R:=R) (K:=K) s (family_name (K:=K) (V:=V), ek) cached read = Ok (o, s'))).
Proof.
  intros Hw Ha. unfold acquire in Ha. apply result_bind_Ok in Ha as (ek & Hek & Ha). rewrite or_invalid_Ok in Hek.
  exists ek. split; [done|].
  destruct (if cached then aq_records s !! (family_name (K:=K) (V:=V), ek) else None) as [e|] eqn:El; [left|right; done].
  destruct cached; [|done]. destruct e as [bs|].
  - apply result_bind_Ok in Ha as (v & Hv & Ha). rewrite or_invalid_Ok in Hv. injection Ha as <- <-.
    split_and!; [done..|]. exists (Some bs). split; [done|]. by exists v.
  - injection Ha as <- <-. split_and!; [done..|]. by exists None.
Qed.

(** The cache agrees with a store that does not change. *)
Definition cache_ok s (store : K -> result (DraftPiecePrepareError R) (option V)) : Prop :=
  (forall k, typed_read (store k)) /\
  forall k ek e, family_key_typed (V:=V) k -> encode_family_key (V:=V) k = Ok ek ->
    aq_records s !! (family_name (K:=K) (V:=V), ek) = Some e -> exists o, store k = Ok o /\ stored_as o e.

Lemma point_exact s store k o s' : within_limits s -> cache_ok s store -> family_key_typed (V:=V) k ->
  acquired_point s store k = Ok (o, s') -> store k = Ok o /\ within_limits s' /\ cache_ok s' store.
Proof.
  intros Hw Hc Hkt Hp. apply acquire_inv in Hp as (ek & Hek & [(_ & -> & e & Hl & He)|[Hl Hn]]); [| |done].
  - destruct Hc as [Hty Hc]. destruct (Hc k ek e Hkt Hek Hl) as (o' & Ho' & Hst). split_and!; try done. rewrite Ho'. f_equal.
    destruct e as [bs|]; [|subst o; by destruct o']. destruct He as (v & Hv & ->). destruct o' as [v'|]; [|done].
    destruct Hst as [Hv' Hst]. apply family_roundtrip in Hst; congruence.
  - destruct Hc as [Hty Hc]. apply acquire_new_Ok in Hn as (Hr & (e & Hst & Hwk & Hrec) & L1 & L2 & L3); [|done..].
    split_and!; [done| |].
    + eapply after_read_within; try done. by eapply stored_bound.
    + split; [done|]. intros k' ek' e' Hkt' Hek'. rewrite Hrec. rewrite lookup_insert_Some. intros [[[= <-] <-]|[_ Hl']]; [|by eapply Hc].
      assert (k' = k) as -> by (by apply (family_key_inj (V:=V) k' k ek)). by exists o.
Qed.

Lemma point_progress b s store k ek o n : within_limits s -> cache_ok s store -> family_key_typed (V:=V) k -> room b s (S n) ->
  encode_family_key (V:=V) k = Ok ek -> store k = Ok o -> (exists e, stored_as o e) -> zlen ek + max_value <= b ->
  exists s', acquired_point s store k = Ok (o, s') /\ room b s' n.
Proof.
  intros Hw [Hty Hc] Hkt (R1 & R2 & R3) Hek Ho [e He] Hb. rewrite Nat2Z.inj_succ, Z.mul_succ_r in R3.
  pose proof family_max as Hmax. pose proof (b2u_bounds structure). assert (0 <= b * Z.of_nat n) by nia.
  unfold acquired_point, acquire. rewrite Hek. cbn [or_invalid mbind result_bind].
  destruct (aq_records s !! _) as [e'|] eqn:El.
  - destruct (Hc _ _ _ Hkt Hek El) as (o' & Ho' & Hst). assert (o' = o) as -> by congruence.
    exists s. destruct e' as [bs|], o as [v|]; cbn in Hst; try done.
    + destruct Hst as [Hv Hst]. rewrite (family_roundtrip _ _ Hv Hst). split; [done|]. unfold room. lia.
    + split; [done|]. unfold room. lia.
  - exists (mkAcquired (after_read s ek e) (<[(family_name (K:=K) (V:=V), ek) := e]> (aq_records s))). split.
    + apply acquire_new_Ok; [done..|]. split_and!; [done|by exists e|lia|lia|lia].
    + pose proof (stored_bound _ _ He) as Hbd. unfold room, after_read. cbn.
      assert (0 <= from_option (fun bs => zlen bs) 0 e <= max_value).
      { destruct e as [bs|]; cbn; [|lia]. specialize (Hbd bs eq_refl). lia. }
      destruct e; lia.
Qed.

Lemma emission_Ok s k v s' : within_limits s -> emission (R:=R) s k v = Ok s' <->
  exists ek bs, encode_family_key (V:=V) k = Ok ek /\ encode_family_value (K:=K) v = Ok bs
    /\ reserve (R:=R) s 0 (b2u structure) (zlen ek + zlen bs) = Ok s'.
Proof.
  intros Hw. unfold emission. split.
  - intros He. apply result_bind_Ok in He as (ek & Hek & He). apply result_bind_Ok in He as (bs & Hbs & He).
    rewrite or_invalid_Ok in Hek, Hbs. by exists ek, bs.
  - intros (ek & bs & -> & -> & He). exact He.
Qed.

Lemma emission_keeps s store k v s' : within_limits s -> cache_ok s store -> emission (R:=R) s k v = Ok s' ->
  within_limits s' /\ cache_ok s' store.
Proof.
  intros Hw Hc He. apply emission_Ok in He as (ek & bs & _ & _ & Hr); [|done]. pose proof (b2u_bounds structure).
  apply reserve_within in Hr as [Hw' Erec]; [|done|lia..]. split; [done|].
  destruct Hc as [Hty Hc]. split; [done|]. intros k' ek' e'. rewrite Erec. apply Hc.
Qed.

Lemma emission_progress b s k v ek bs n : within_limits s -> family_typed v -> room b s (S n) ->
  encode_family_key (V:=V) k = Ok ek -> encode_family_value (K:=K) v = Ok bs -> zlen ek + max_value <= b ->
  exists s', emission (R:=R) s k v = Ok s' /\ room b s' n.
Proof.
  intros Hw Hv (R1 & R2 & R3) Hek Hbs Hb. rewrite Nat2Z.inj_succ, Z.mul_succ_r in R3.
  pose proof (family_bound _ _ Hv Hbs). pose proof (b2u_bounds structure). assert (0 <= b * Z.of_nat n) by nia.
  eexists. split.
  - apply emission_Ok; [done|]. exists ek, bs. split_and!; [done..|]. apply reserve_Ok; [done|lia..|].
    split_and!; [lia..|reflexivity].
  - unfold room. cbn. lia.
Qed.

End Lemmas.

(** A read of one family leaves the cache of another as it is. *)
Lemma point_other {R K V K' V'} `{FamilyLaws K V} `{FamilyLaws K' V'} s (store : K -> result (DraftPiecePrepareError R) (option V))
    (store' : K' -> result (DraftPiecePrepareError R) (option V')) k o s' :
  family_name (K:=K) (V:=V) <> family_name (K:=K') (V:=V') -> within_limits s -> typed_read (store k) ->
  acquired_point s store k = Ok (o, s') -> cache_ok s store' -> cache_ok s' store'.
Proof.
  intros Hne Hw Hty Hp [Hty' Hc']. apply acquire_inv in Hp as (ek & Hek & [(_ & -> & _)|[Hl Hn]]); [|split; [done|]|done]; [by split|].
  apply acquire_new_Ok in Hn as (_ & (e & _ & _ & Hrec) & _); [|done..].
  intros k' ek' e'. rewrite Hrec, lookup_insert_ne by congruence. apply Hc'.
Qed.

Lemma emission_other {R K V K' V'} `{FamilyLaws K V} `{FamilyLaws K' V'} s (store' : K' -> result (DraftPiecePrepareError R) (option V')) (k : K) (v : V) s' :
  within_limits s -> emission (R:=R) s k v = Ok s' -> cache_ok s store' -> within_limits s' /\ cache_ok s' store'.
Proof.
  intros Hw He [Hty Hc]. apply emission_Ok in He as (ek & bs & _ & _ & Hr); [|done].
  pose proof (b2u_bounds (is_structure (family_name (K:=K) (V:=V)))). apply reserve_within in Hr as [Hw' Erec]; [|done|lia..].
  split; [done|]. split; [done|]. intros k' ek' e'. rewrite Erec. apply Hc.
Qed.

(** ** What the counters count *)

Section Ledger.
Context {R I : Type} (KF VF : I -> Type).
Context `{FF : forall i, Family (KF i) (VF i)} `{FL : !forall i, FamilyLaws (KF i) (VF i)}.

Abbreviation name i := (family_name (K:=KF i) (V:=VF i)).
Abbreviation read_of i := (result (DraftPiecePrepareError R) (option (VF i))).

(** One operation of a build step on a record of the family [i], and its answer: a cached point
    read answered from the cache or from the store, with what the store's read returns, a record
    emitted, an effect of known size. *)
Inductive budget_event :=
  | BvHit (i : I) (k : KF i) (o : option (VF i))
  | BvRead (i : I) (k : KF i) (cached : bool) (read : read_of i) (o : option (VF i))
  | BvEmit (i : I) (k : KF i) (v : VF i)
  | BvEffect (bytes : Z) (effect_structure : bool).

Inductive budget_step : Acquired -> budget_event -> Acquired -> Prop :=
  | budget_read s i (k : KF i) cached (read : read_of i) o s' :
      family_key_typed (V:=VF i) k -> typed_read read -> acquire s k cached read = Ok (o, s') ->
      budget_step s (if decide (s' = s) then BvHit i k o else BvRead i k cached read o) s'
  | budget_emit s i (k : KF i) (v : VF i) s' :
      emission (R:=R) s k v = Ok s' -> budget_step s (BvEmit i k v) s'
  | budget_effect s bytes t s' : 0 <= bytes -> encoded_effect (R:=R) s bytes t = Ok s' ->
      budget_step s (BvEffect bytes t) s'.

Definition key_size i (k : KF i) : Z :=
  match encode_family_key (V:=VF i) k with Ok ek => zlen ek | Err _ => 0 end.
Definition value_size i (v : VF i) : Z :=
  match encode_family_value (K:=KF i) v with Ok bs => zlen bs | Err _ => 0 end.

Definition attempts_of (e : budget_event) : Z := match e with BvRead _ _ _ _ _ => 1 | _ => 0 end.
Definition structures_of (e : budget_event) : Z :=
  match e with
  | BvRead i _ _ _ (Some _) | BvEmit i _ _ => b2u (is_structure (name i))
  | BvEffect _ t => b2u t
  | _ => 0
  end.
Definition bytes_of (e : budget_event) : Z :=
  match e with
  | BvRead i k _ _ o => key_size i k + from_option (value_size i) 0 o
  | BvEmit i k v => key_size i k + value_size i v
  | BvEffect bytes _ => bytes
  | BvHit _ _ _ => 0
  end.
Definition total (f : budget_event -> Z) (tr : list budget_event) : Z := foldr (fun e n => f e + n) 0 tr.

(** The family and key an event leaves in the cache. *)
Definition kept_key (e : budget_event) : option {i : I & KF i} :=
  match e with
  | BvHit i k _ => Some (existT i k)
  | BvRead i k true _ _ => Some (existT i k)
  | _ => None
  end.

(** An answer is right after the events [tr]: one from the cache is what the store's read of that
    key of that family gave earlier in the step; one from the store is what the store's read gives
    now, and nothing was kept of that key of that family before. *)
Definition answered_right (tr : list budget_event) (e : budget_event) : Prop :=
  match e with
  | BvHit i k o => BvRead i k true (Ok o) o ∈ tr
  | BvRead i k cached read o =>
      read = Ok o /\ (cached = true -> forall e', e' ∈ tr -> kept_key e' <> Some (existT i k))
  | _ => True
  end.

Record budget_ledger_inv (tr : list budget_event) (s : Acquired) : Prop := mkBudgetInv {
  bi_within : within_limits s;
  bi_attempts : point_attempts (aq_work s) = total attempts_of tr;
  bi_structures : stored_structure_records (aq_work s) = total structures_of tr;
  bi_bytes : encoded_bytes (aq_work s) = total bytes_of tr;
  bi_right : forall tr1 e tr2, tr = tr1 ++ e :: tr2 -> answered_right tr1 e;
  bi_kept : forall e p, e ∈ tr -> kept_key e = Some p ->
    exists ek, encode_family_key (V:=VF (projT1 p)) (projT2 p) = Ok ek
      /\ is_Some (aq_records s !! (name (projT1 p), ek));
  bi_cache : forall i ek c, aq_records s !! (name i, ek) = Some c -> exists k o,
    family_key_typed (V:=VF i) k /\ encode_family_key (V:=VF i) k = Ok ek /\ stored_as (K:=KF i) o c
    /\ BvRead i k true (Ok o) o ∈ tr }.

Lemma total_snoc f tr e : total f (tr ++ [e]) = total f tr + f e.
Proof. unfold total. rewrite foldr_app. cbn. induction tr as [|x tr IH]; cbn; [lia|]. rewrite IH. lia. Qed.

Lemma size_key i k ek : encode_family_key (V:=VF i) k = Ok ek -> key_size i k = zlen ek.
Proof. unfold key_size. by intros ->. Qed.
Lemma size_stored i o c : stored_as (K:=KF i) o c -> from_option (value_size i) 0 o = from_option (fun bs => zlen bs) 0 c.
Proof. destruct o as [v|], c as [bs|]; cbn; try done. unfold value_size. by intros [_ ->]. Qed.

Lemma right_snoc tr e : (forall tr1 x tr2, tr = tr1 ++ x :: tr2 -> answered_right tr1 x) -> answered_right tr e ->
  forall tr1 x tr2, tr ++ [e] = tr1 ++ x :: tr2 -> answered_right tr1 x.
Proof.
  intros Hr He tr1 x tr2 E. destruct tr2 as [|y tr2 _] using rev_ind.
  - apply app_inj_tail in E as [-> ->]. done.
  - rewrite app_comm_cons, app_assoc in E. apply app_inj_tail in E as [-> _]. by eapply Hr.
Qed.

(** A charge that leaves the cache alone. *)
Lemma reserved_inv tr s e t b s' : budget_ledger_inv tr s -> 0 <= t -> 0 <= b ->
  reserve (R:=R) s 0 t b = Ok s' -> attempts_of e = 0 -> structures_of e = t -> bytes_of e = b ->
  kept_key e = None -> (forall tr1, answered_right tr1 e) -> budget_ledger_inv (tr ++ [e]) s'.
Proof.
  intros [Hw Ha Ht Hb Hr Hk Hc] Ht0 Hb0 Hres Ea Et Eb Hno He.
  pose proof (reserve_within s 0 t b s' Hw (Z.le_refl 0) Ht0 Hb0 Hres) as [Hw' _].
  apply reserve_Ok in Hres as (_ & _ & _ & ->); [|done..]. split; rewrite ?total_snoc; cbn; try lia; try done.
  - by apply right_snoc.
  - intros x p Hx Ex. apply elem_of_app in Hx as [Hx|Hx%list_elem_of_singleton]; [by eapply Hk|]. congruence.
  - intros i ek c Hl. destruct (Hc _ _ _ Hl) as (k & o & H1 & H2 & H3 & H4). exists k, o. split_and!; [done..|].
    apply elem_of_app. by left.
Qed.

Lemma hit_inv tr s i (k : KF i) ek c o : budget_ledger_inv tr s -> family_key_typed (V:=VF i) k ->
  encode_family_key (V:=VF i) k = Ok ek -> aq_records s !! (name i, ek) = Some c ->
  match c with None => o = None | Some bs => exists v, decode_family_value (K:=KF i) bs = Ok v /\ o = Some v end ->
  budget_ledger_inv (tr ++ [BvHit i k o]) s.
Proof.
  intros [Hw Ha Ht Hb Hr Hk Hc] Hkt Hek Hl Ho. destruct (Hc _ _ _ Hl) as (k' & o' & Hkt' & Hek' & Hst & Hin).
  assert (k' = k) as -> by (by eapply (family_key_inj (V:=VF i))).
  assert (o' = o) as ->.
  { destruct c as [bs|], o' as [v'|]; cbn in Hst; try done. destruct Ho as (v & Hv & ->), Hst as [Hv' Hst].
    rewrite (family_roundtrip _ _ Hv' Hst) in Hv. by simplify_eq. }
  split; rewrite ?total_snoc; cbn; try lia; try done.
  - by apply right_snoc.
  - intros x p Hx Ex. apply elem_of_app in Hx as [Hx|Hx%list_elem_of_singleton]; [by eapply Hk|].
    subst x. injection Ex as <-. by exists ek.
  - intros j ek' c' Hl'. destruct (Hc _ _ _ Hl') as (k' & o' & H1 & H2 & H3 & H4). exists k', o'. split_and!; [done..|].
    apply elem_of_app. by left.
Qed.

Hypothesis names_distinct : forall i j, name i = name j -> i = j.

Lemma miss_inv tr s i (k : KF i) ek (cached : bool) read o s' : budget_ledger_inv tr s -> typed_read read ->
  family_key_typed (V:=VF i) k -> encode_family_key (V:=VF i) k = Ok ek ->
  (if cached then aq_records s !! (name i, ek) else None) = None ->
  acquire_new (K:=KF i) s (name i, ek) cached read = Ok (o, s') ->
  budget_ledger_inv (tr ++ [BvRead i k cached read o]) s' /\ s' <> s.
Proof.
  intros [Hw Ha Ht Hb Hr Hk Hc] Hty Hkt Hek Hl Hn.
  apply acquire_new_Ok in Hn as (Hread & (c & Hst & Hwk & Hrec) & L1 & L2 & L3); [|done..].
  split; [|intros ->; assert (point_attempts (aq_work s) = point_attempts (aq_work s) + 1) by (rewrite Hwk at 1; done); lia].
  split; rewrite ?total_snoc, ?Hwk; unfold after_read; cbn.
  - eapply after_read_within; try done. by eapply stored_bound.
  - lia.
  - destruct o, c; cbn in Hst |- *; try done; lia.
  - rewrite (size_key _ _ _ Hek), (size_stored _ _ _ Hst). lia.
  - apply right_snoc; [done|]. split; [done|]. intros -> e' He' Ek. destruct (Hk _ _ He' Ek) as (ek' & E1 & E2).
    cbn in E1, E2. replace ek' with ek in E2 by congruence. rewrite Hl in E2. by destruct E2.
  - intros x p Hx Ex. rewrite Hrec. apply elem_of_app in Hx as [Hx|Hx%list_elem_of_singleton].
    + destruct (Hk _ _ Hx Ex) as (ek' & E1 & E2). exists ek'. split; [done|]. destruct cached; [|done].
      apply lookup_insert_is_Some'. by right.
    + subst x. destruct cached; [|done]. injection Ex as <-. exists ek. split; [done|]. apply lookup_insert_is_Some'. by left.
  - intros j ek' c'. rewrite Hrec. destruct cached.
    + rewrite lookup_insert_Some. intros [[[= En <-] <-]|[_ Hl']].
      * apply names_distinct in En as <-. exists k, o. split_and!; try done. rewrite <- Hread.
        apply elem_of_app. right. by apply list_elem_of_singleton.
      * destruct (Hc _ _ _ Hl') as (k' & o' & H1 & H2 & H3 & H4). exists k', o'. split_and!; [done..|]. apply elem_of_app. by left.
    + intros Hl'. destruct (Hc _ _ _ Hl') as (k' & o' & H1 & H2 & H3 & H4). exists k', o'. split_and!; [done..|]. apply elem_of_app. by left.
Qed.

Lemma budget_step_inv tr s e s' : budget_ledger_inv tr s -> budget_step s e s' -> budget_ledger_inv (tr ++ [e]) s'.
Proof.
  intros Hi Hst. pose proof (bi_within _ _ Hi) as Hw.
  destruct Hst as [s i k cached read o s' Hkt Hty Hq|s i k v s' He|s bytes t s' Hb He] in Hi, Hw |- *.
  - apply acquire_inv in Hq as (ek & Hek & [(-> & -> & c & Hl & He)|[Hl Hn]]); [| |done].
    + rewrite decide_True by done. by eapply hit_inv.
    + eapply miss_inv in Hn as [Hn Hne]; [|done..]. by rewrite decide_False.
  - apply emission_Ok in He as (ek & bs & Hek & Hbs & Hr); [|done].
    pose proof (b2u_bounds (is_structure (name i))).
    apply (reserved_inv tr s _ (b2u (is_structure (name i))) (zlen ek + zlen bs)); try done; [lia|lia|].
    cbn. rewrite (size_key _ _ _ Hek). unfold value_size. by rewrite Hbs.
  - pose proof (b2u_bounds t). apply (reserved_inv tr s _ (b2u t) bytes); try done; lia.
Qed.

End Ledger.
