(* ===== verification/MappingModel.v ===== *)
(** * The coordinate map of a draft build: values and codec

    [syndic-storage/src/draft_piece/build_mapping/model.rs] and [codec.rs].  While an edit is
    built, positions of the source draft are mapped to positions of the draft being built.  The
    map is a sequence of runs (copied, deleted, inserted units) kept in a tree of immutable
    records, each named by a hash of its content. *)
From stdpp Require Import prelude gmap strings.
From S2P Require Import Prelude.
From S2P Require Import Bytes.
From S2P Require Import ModelDigest.
From S2P Require Import SyndicParts.
From S2P Require Import BuildBudget.

(** ** Values *)

Abbreviation U128_MAX := 340282366920938463463374607431768211455%Z.
Definition checked_add128 (a b : Z) : option Z := if a + b <=? U128_MAX then Some (a + b) else None.
Definition checked_sub128 (a b : Z) : option Z := if b <=? a then Some (a - b) else None.

Definition MAX_UNITS : Z := 2 * U64_MAX.

Record Measure := mkMeasure { m_source : Z; m_target : Z }.
Definition measure_zero : Measure := mkMeasure 0 0.

Inductive Run := RunCopy (n : Z) | RunDeleted (n : Z) | RunInserted (n : Z).

Record Descriptor := mkDescriptor {
  d_id : list byte; d_digest : list byte; d_height : Z; d_measure : Measure }.

Inductive MapRoot := MapEmpty | MapIdentity (n : Z) | MapStored (d : Descriptor).

Inductive Entries := Runs (v : list Run) | Children (v : list Descriptor).

Record Node := mkNode { n_key : list byte; n_height : Z; n_entries : Entries; n_digest : list byte }.

#[global] Instance measure_eq_dec : EqDecision Measure.
Proof. solve_decision. Defined.
#[global] Instance run_eq_dec : EqDecision Run.
Proof. solve_decision. Defined.
#[global] Instance descriptor_eq_dec : EqDecision Descriptor.
Proof. solve_decision. Defined.
#[global] Instance map_root_eq_dec : EqDecision MapRoot.
Proof. solve_decision. Defined.

Definition measure_valid (nonempty : bool) (m : Measure) : bool :=
  (m_source m <=? MAX_UNITS) && (m_target m <=? MAX_UNITS)
  && (negb nonempty || negb (m_source m =? 0) || negb (m_target m =? 0)).

Definition run_length (r : Run) : Z := match r with RunCopy n | RunDeleted n | RunInserted n => n end.
Definition with_length (r : Run) (n : Z) : Run :=
  match r with RunCopy _ => RunCopy n | RunDeleted _ => RunDeleted n | RunInserted _ => RunInserted n end.
Definition run_measure (r : Run) : Measure :=
  match r with
  | RunCopy n => mkMeasure n n
  | RunDeleted n => mkMeasure n 0
  | RunInserted n => mkMeasure 0 n
  end.

Definition height_valid (h : Z) : bool := (1 <=? h) && (h <=? 22).
Definition descriptor_valid (d : Descriptor) : bool := height_valid (d_height d) && measure_valid true (d_measure d).

Definition root_measure (r : MapRoot) : Measure :=
  match r with MapEmpty => measure_zero | MapIdentity n => mkMeasure n n | MapStored d => d_measure d end.
Definition root_valid (r : MapRoot) : bool :=
  match r with
  | MapEmpty => true
  | MapIdentity n => (0 <? n) && (n <=? MAX_UNITS)
  | MapStored d => descriptor_valid d
  end.

Definition entries_len (e : Entries) : nat := match e with Runs v => length v | Children v => length v end.
Definition split_off (e : Entries) (at_ : nat) : Entries * Entries :=
  match e with
  | Runs v => (Runs (take at_ v), Runs (drop at_ v))
  | Children v => (Children (take at_ v), Children (drop at_ v))
  end.

Definition shape (root : bool) (n : Node) : bool :=
  let min := if root then (if n_height n =? 1 then 1%nat else 2%nat) else 8%nat in
  height_valid (n_height n) && (min <=? entries_len (n_entries n))%nat && (entries_len (n_entries n) <=? 16)%nat.

Section Errors.
Context {R : Type}.
Abbreviation mapping_result := (result (DraftPiecePrepareError R)).

Definition invalid_map {A} : mapping_result A := Err InvalidRoot.

Definition measure_add (a b : Measure) : mapping_result Measure :=
  source ← ok_or InvalidRoot (checked_add128 (m_source a) (m_source b));
  target ← ok_or InvalidRoot (checked_add128 (m_target a) (m_target b));
  if measure_valid false (mkMeasure source target) then Ok (mkMeasure source target) else invalid_map.

Definition initial_root (m : Measure) : mapping_result MapRoot :=
  if negb (measure_valid false m) || negb (m_source m =? m_target m) then invalid_map
  else Ok (if m_source m =? 0 then MapEmpty else MapIdentity (m_source m)).

Fixpoint sum_runs (sum : Measure) (v : list Run) : mapping_result Measure :=
  match v with
  | [] => Ok sum
  | run :: v =>
      if run_length run =? 0 then invalid_map
      else sum ← measure_add sum (run_measure run); sum_runs sum v
  end.
Fixpoint sum_children (height : Z) (sum : Measure) (v : list Descriptor) : mapping_result Measure :=
  match v with
  | [] => Ok sum
  | child :: v =>
      if negb (descriptor_valid child) || negb (d_height child =? height - 1) then invalid_map
      else sum ← measure_add sum (d_measure child); sum_children height sum v
  end.
Definition entries_measure (e : Entries) (height : Z) : mapping_result Measure :=
  match e with
  | Runs v => if height =? 1 then sum_runs measure_zero v else invalid_map
  | Children v => if 1 <? height then sum_children height measure_zero v else invalid_map
  end.

Definition append_entries (a b : Entries) : mapping_result Entries :=
  match a, b with
  | Runs a, Runs b => Ok (Runs (a ++ b))
  | Children a, Children b => Ok (Children (a ++ b))
  | _, _ => invalid_map
  end.

Definition node_descriptor (n : Node) : mapping_result Descriptor :=
  m ← entries_measure (n_entries n) (n_height n);
  Ok (mkDescriptor (drop 48 (n_key n)) (n_digest n) (n_height n) m).
End Errors.

(** ** Digests *)

Section Digests.
Context {H : Type} `{Sha256 H}.

Definition update_part (h : H) (part : list byte) : H := sha_update (sha_update h (e_u64 (zlen part))) part.
Definition lp_hash (parts : list (list byte)) : list byte := sha_finalize (fold_left update_part parts sha_new).

Definition e_u128 (v : Z) : list byte := be_bytes 16 v.
Definition run_tag (r : Run) : Z := match r with RunCopy _ => 0 | RunDeleted _ => 1 | RunInserted _ => 2 end.
Definition enc_run (r : Run) : list byte := e_u8 (run_tag r) ++ e_u128 (run_length r).
Definition enc_descriptor (d : Descriptor) : list byte :=
  d_id d ++ d_digest d ++ e_u128 (m_source (d_measure d)) ++ e_u128 (m_target (d_measure d)).
Definition entry_bytes (e : Entries) : list byte :=
  match e with Runs v => concat (enc_run <$> v) | Children v => concat (enc_descriptor <$> v) end.

Definition node_digest (owner : list byte) (height : Z) (e : Entries) : list byte :=
  lp_hash [bytes_of_string "syndic/draft-piece-build-mapping-node/v1"; owner; e_u8 height;
           e_u64 (Z.of_nat (entries_len e)); entry_bytes e].
Definition record_id (owner : list byte) (ordinal : Z) (digest : list byte) : list byte :=
  take 16 (lp_hash [bytes_of_string "syndic/draft-piece-build-mapping-record-id/v1";
    take 16 owner; take 16 (drop 16 owner); drop 32 owner; e_u64 ordinal; digest]).

(** ** Codec *)

Definition bad_mapping {A} : result CodecError A := Err (InvalidLength "build coordinate mapping").
Definition MAX_MAPPING_BYTES : Z := 1385.

Definition encode_node (n : Node) : result CodecError (list byte) :=
  if negb (shape true n) then bad_mapping
  else
    m ← match entries_measure (R := unit) (n_entries n) (n_height n) with Ok m => Ok m | Err _ => bad_mapping end;
    if negb (measure_valid true m)
       || negb (bool_decide (n_digest n = node_digest (take 48 (n_key n)) (n_height n) (n_entries n)))
    then bad_mapping
    else Ok (n_key n ++ e_u8 (n_height n) ++ e_u64 (Z.of_nat (entries_len (n_entries n)))
             ++ entry_bytes (n_entries n) ++ n_digest n).

Definition d_u128 : decoder Z := be_value <$> d_take 16.
Fixpoint d_list {A} (n : nat) (d : decoder A) : decoder (list A) :=
  match n with O => mret [] | S n => a ← d; v ← d_list n d; mret (a :: v) end.

Definition dec_run : decoder Run :=
  kind ← d_u8;
  n ← d_u128;
  match kind with
  | 0 => mret (RunCopy n)
  | 1 => mret (RunDeleted n)
  | 2 => mret (RunInserted n)
  | _ => refuse (InvalidLength "build coordinate mapping")
  end.
Definition dec_descriptor (height : Z) : decoder Descriptor :=
  id ← d_fixed16;
  digest ← d_fixed32;
  source ← d_u128;
  target ← d_u128;
  mret (mkDescriptor id digest height (mkMeasure source target)).
Definition dec_node : decoder Node :=
  key ← d_take 64;
  height ← d_u8;
  count ← d_u64;
  if negb (height_valid height) || negb ((1 <=? count) && (count <=? 16)) || ((1 <? height) && (count <? 2))
  then refuse (InvalidLength "build coordinate mapping")
  else
    entries ← (if height =? 1 then Runs <$> d_list (Z.to_nat count) dec_run
               else Children <$> d_list (Z.to_nat count) (dec_descriptor (height - 1)));
    digest ← d_fixed32;
    mret (mkNode key height entries digest).
Definition decode_node (bs : list byte) : result CodecError Node :=
  if MAX_MAPPING_BYTES <? zlen bs then bad_mapping
  else
    n ← run_decoder dec_node bs;
    _ ← encode_node n;
    Ok n.

Definition encode_root (r : MapRoot) : result CodecError (list byte) :=
  if negb (root_valid r) then bad_mapping
  else Ok (match r with
           | MapEmpty => variant 0 []
           | MapIdentity n => variant 1 (e_u128 n)
           | MapStored d => variant 2 (d_id d ++ d_digest d ++ e_u8 (d_height d)
                              ++ e_u128 (m_source (d_measure d)) ++ e_u128 (m_target (d_measure d)))
           end).
Definition dec_stored : decoder Descriptor :=
  id ← d_fixed16;
  digest ← d_fixed32;
  height ← d_u8;
  source ← d_u128;
  target ← d_u128;
  mret (mkDescriptor id digest height (mkMeasure source target)).
Definition dec_root : decoder MapRoot :=
  tag ← d_u8;
  match tag with
  | 0 => mret MapEmpty
  | 1 => MapIdentity <$> d_u128
  | 2 => MapStored <$> dec_stored
  | _ => refuse (InvalidLength "build coordinate mapping")
  end.
Definition decode_root (bs : list byte) : result CodecError MapRoot :=
  r ← run_decoder dec_root bs;
  if root_valid r then Ok r else bad_mapping.

#[global] Instance mapping_family : Family (list byte) Node := {|
  family_name := "draft-piece-build-mapping";
  max_value_bytes := MAX_MAPPING_BYTES;
  encode_family_key k := Ok k;
  encode_family_value := encode_node;
  decode_family_value := decode_node
|}.
End Digests.

(** ** Exactness of the codec *)

Lemma checked_add128_Some a b c : checked_add128 a b = Some c <-> c = a + b /\ a + b <= U128_MAX.
Proof. unfold checked_add128. case_match eqn:E; split; intros; simplify_eq; lia || naive_solver lia. Qed.
Lemma checked_sub128_Some a b c : checked_sub128 a b = Some c <-> c = a - b /\ b <= a.
Proof. unfold checked_sub128. case_match eqn:E; split; intros; simplify_eq; lia || naive_solver lia. Qed.

(** The widths of the Rust types. *)
Definition is_u128 (v : Z) : Prop := 0 <= v <= U128_MAX.
Definition run_typed (r : Run) : Prop := is_u128 (run_length r).
Definition measure_typed (m : Measure) : Prop := is_u128 (m_source m) /\ is_u128 (m_target m).
Definition descriptor_typed (d : Descriptor) : Prop :=
  fixed 16 (d_id d) /\ fixed 32 (d_digest d) /\ is_u8 (d_height d) /\ measure_typed (d_measure d).
Definition entries_typed (e : Entries) : Prop :=
  match e with Runs v => Forall run_typed v | Children v => Forall descriptor_typed v end.
Definition node_typed (n : Node) : Prop :=
  fixed 64 (n_key n) /\ is_u8 (n_height n) /\ entries_typed (n_entries n) /\ fixed 32 (n_digest n).
Definition root_typed (r : MapRoot) : Prop :=
  match r with MapEmpty => True | MapIdentity n => is_u128 n | MapStored d => descriptor_typed d end.

#[global] Instance u128_exact : Exact is_u128 e_u128 d_u128.
Proof.
  intros bs v rest. rewrite (uint_exact 16 bs v rest). apply and_iff_compat_r. unfold is_u128.
  change (256 ^ Z.of_nat 16) with 340282366920938463463374607431768211456. lia.
Qed.

#[global] Instance list_exact {A} valid enc (d : decoder A) n `{!Exact valid enc d} :
  Exact (fun v => length v = n /\ Forall valid v) (fun v => concat (enc <$> v)) (d_list n d).
Proof.
  induction n as [|n IH]; intros bs v rest; cbn [d_list].
  - rewrite ret_Ok. split; [intros [-> ->]; by split_and!|]. intros [[Hl _] ->]. by destruct v.
  - split.
    + intros Hd. parts_inv Hd. destruct H0 as [<- ?]. split; [split; [done|by constructor]|]. cbn. by rewrite <- app_assoc.
    + intros [[Hl Hv] ->]. destruct v as [|a v]; [done|]. inversion Hv; subst. cbn. rewrite <- app_assoc.
      eapply bind_run; [apply _|done|done|]. eapply bind_run; [apply IH| |done|done]. split; [by injection Hl|done].
Qed.

#[global] Instance run_exact_codec : Exact run_typed enc_run dec_run.
Proof.
  intros bs v rest. split.
  - intros Hd. part_inv Hd. part_inv Hd. match type of Hd with context [match ?t with _ => _ end] => tag_cases t end;
      apply ret_Ok in Hd as [-> ->]; (split; [done|]); unfold enc_run; cbn; by rewrite <- app_assoc.
  - intros [Hv ->]. destruct v as [n|n|n]; unfold enc_run; cbn; run_part; run_part; done.
Qed.

Definition child_typed (h : Z) (d : Descriptor) : Prop :=
  fixed 16 (d_id d) /\ fixed 32 (d_digest d) /\ d_height d = h /\ measure_typed (d_measure d).

#[global] Instance child_exact h : Exact (child_typed h) enc_descriptor (dec_descriptor h).
Proof.
  intros bs v rest. split.
  - intros Hd. parts_inv Hd. split; [by split_and!|]. unfold enc_descriptor. cbn. by rewrite <- !app_assoc.
  - intros [(H1 & H2 & <- & H3 & H4) ->]. destruct v as [id dg h [s t]]. unfold enc_descriptor. cbn in *.
    rewrite <- !app_assoc. do 4 (run_part). done.
Qed.

#[global] Instance stored_exact : Exact descriptor_typed
  (fun d => d_id d ++ d_digest d ++ e_u8 (d_height d) ++ e_u128 (m_source (d_measure d)) ++ e_u128 (m_target (d_measure d)))
  dec_stored.
Proof.
  intros bs v rest. split.
  - intros Hd. parts_inv Hd. split; [by split_and!|]. cbn. by rewrite <- !app_assoc.
  - intros [(H1 & H2 & H3 & H4 & H5) ->]. destruct v as [id dg h [s t]]. cbn in *.
    rewrite <- !app_assoc. do 5 (run_part). done.
Qed.

(** What the checks on a decoded node leave to its type. *)
Definition node_framed (n : Node) : Prop :=
  fixed 64 (n_key n) /\ height_valid (n_height n) = true /\ fixed 32 (n_digest n)
  /\ (1 <= entries_len (n_entries n) <= 16)%nat /\ (1 < n_height n -> (2 <= entries_len (n_entries n))%nat)
  /\ match n_entries n with
     | Runs v => n_height n = 1 /\ Forall run_typed v
     | Children v => n_height n <> 1 /\ Forall (child_typed (n_height n - 1)) v
     end.

Definition enc_node (n : Node) : list byte :=
  n_key n ++ e_u8 (n_height n) ++ e_u64 (Z.of_nat (entries_len (n_entries n))) ++ entry_bytes (n_entries n) ++ n_digest n.

#[global] Instance node_exact : Exact node_framed enc_node dec_node.
Proof.
  intros bs v rest. split.
  - intros Hd. do 3 part_inv Hd. case_match eqn:E; [done|]. bool_facts. part_inv Hd. parts_inv Hd.
    unfold height_valid in *. bool_facts.
    case_match eqn:E1; bool_facts; apply fmap_Ok in Hpart as (w & Hw & ->); apply exact in Hw as [[Hl Hw] ->];
      (split; [unfold node_framed, height_valid; cbn|unfold enc_node; cbn; rewrite Hl, Z2Nat.id by lia; by rewrite <- ?app_assoc]).
    + split_and!; try done; try lia.
    + split_and!; try done; try lia. all: try (apply andb_true_iff; split; apply Z.leb_le; lia).
  - intros [(Hk & Hh & Hdg & Hl & Hl2 & He) ->]. destruct v as [key h e dg]. unfold enc_node. cbn in *.
    rewrite <- !app_assoc. assert (Hh' := Hh). unfold height_valid in Hh'. bool_facts.
    run_part. run_part. run_part.
    assert (negb (height_valid h) || negb ((1 <=? Z.of_nat (entries_len e)) && (Z.of_nat (entries_len e) <=? 16))
      || ((1 <? h) && (Z.of_nat (entries_len e) <? 2)) = false) as ->.
    { rewrite Hh. cbn. apply orb_false_iff. split; [apply negb_false_iff, andb_true_iff; split; apply Z.leb_le; lia|].
      destruct (Z.ltb_spec 1 h); [|done]. apply Z.ltb_ge. lia. }
    assert (Hlen : Z.to_nat (Z.of_nat (entries_len e)) = entries_len e) by lia. rewrite Hlen. apply bind_Ok.
    exists e, (dg ++ rest). split; [|by run_part].
    destruct e as [v|v]; cbn in He |- *; destruct He as [He1 He2].
    + subst h. apply fmap_Ok. exists v. split; [|done]. by apply (exact (Exact := list_exact _ _ _ _)).
    + rewrite (proj2 (Z.eqb_neq _ _)) by done. apply fmap_Ok. exists v. split; [|done].
      by apply (exact (Exact := list_exact _ _ _ _)).
Qed.

#[global] Instance root_exact : Exact root_typed
  (fun r => match r with
            | MapEmpty => variant 0 []
            | MapIdentity n => variant 1 (e_u128 n)
            | MapStored d => variant 2 (d_id d ++ d_digest d ++ e_u8 (d_height d)
                               ++ e_u128 (m_source (d_measure d)) ++ e_u128 (m_target (d_measure d)))
            end) dec_root.
Proof. exact_variant. Qed.

Section Codec.
Context {H : Type} `{Sha256 H}.

(** The nodes the encoder accepts. *)
Definition node_sound (n : Node) : Prop :=
  shape true n = true /\ (exists m, entries_measure (R := unit) (n_entries n) (n_height n) = Ok m /\ measure_valid true m = true)
  /\ n_digest n = node_digest (take 48 (n_key n)) (n_height n) (n_entries n).

Lemma encode_node_Ok n bs : encode_node n = Ok bs <-> node_sound n /\ bs = enc_node n.
Proof.
  unfold encode_node, node_sound. destruct (shape true n); cbn [negb]; [|split; [done|]; by intros [[? _] _]].
  destruct (entries_measure _ _) as [m|]; cbn [mbind result_bind]; [|split; [done|]; by intros [(_ & (? & ? & _) & _) _]].
  case_match eqn:E.
  - split; [done|]. intros [(_ & (m' & [= ->] & Hm) & Hd) _]. rewrite Hm, bool_decide_true in E; done.
  - apply orb_false_iff in E as [E1 E2]. bool_facts. split; [intros [= <-]; split; [|done]; by split_and!; [|exists m|]|].
    by intros [_ ->].
Qed.

Lemma sum_children_heights h s v m : sum_children (R := unit) h s v = Ok m -> Forall (fun d => d_height d = h - 1) v.
Proof.
  revert s. induction v as [|d v IH]; intros s Hs; [constructor|]. cbn in Hs. case_match eqn:E; [done|].
  apply result_bind_Ok in Hs as (s' & _ & Hs). bool_facts. constructor; [done|]. by eapply IH.
Qed.

Lemma node_sound_framed n : node_typed n -> node_sound n -> node_framed n.
Proof.
  intros (Hk & _ & He & Hd) (Hs & (m & Hm & _) & _). unfold shape in Hs. bool_facts.
  rewrite !Nat.leb_le in *. unfold node_framed. split_and!; try done.
  - destruct (n_height n =? 1); lia.
  - intros. rewrite (proj2 (Z.eqb_neq _ _)) in * by lia. done.
  - unfold entries_measure in Hm. destruct (n_entries n) as [v|v].
    + case_match eqn:E; [|done]. bool_facts. done.
    + case_match eqn:E; [|done]. bool_facts. split; [lia|]. apply sum_children_heights in Hm.
      cbn in He. rewrite Forall_forall in *. intros d Hin. destruct (He d Hin) as (? & ? & _ & ?).
      split_and!; try done. by apply Hm.
Qed.

Lemma framed_typed n : node_framed n -> node_typed n.
Proof.
  intros (Hk & Hh & Hd & _ & _ & He). unfold height_valid in Hh. bool_facts. split_and!; try done; [unfold is_u8; lia|].
  destruct (n_entries n) as [v|v]; [by destruct He|]. destruct He as [_ He]. cbn. eapply Forall_impl; [done|].
  intros d (? & ? & Eh & ?). split_and!; try done. unfold is_u8. lia.
Qed.

Lemma enc_runs_length v : zlen (concat (enc_run <$> v)) = 17 * zlen v.
Proof.
  induction v as [|r v IH]; cbn [fmap list_fmap concat length]; [done|].
  rewrite length_app. assert (length (enc_run r) = 17%nat) as -> by (unfold enc_run, e_u8, e_u128; by rewrite length_app, !length_be_bytes).
  lia.
Qed.
Lemma enc_children_length h v : Forall (child_typed h) v -> zlen (concat (enc_descriptor <$> v)) = 80 * zlen v.
Proof.
  induction 1 as [|d v (H1 & H2 & _) _ IH]; cbn [fmap list_fmap concat length]; [done|]. rewrite length_app.
  assert (length (enc_descriptor d) = 80%nat) as ->
    by (unfold enc_descriptor, e_u128; by rewrite !length_app, !length_be_bytes, H1, H2).
  lia.
Qed.

Lemma enc_node_bound n : node_framed n -> zlen (enc_node n) <= MAX_MAPPING_BYTES.
Proof.
  intros (Hk & _ & Hd & Hl & _ & He). unfold enc_node, MAX_MAPPING_BYTES. rewrite !length_app. unfold e_u8, e_u64.
  rewrite !length_be_bytes, Hk, Hd. unfold entry_bytes, entries_len in *. destruct (n_entries n) as [v|v].
  - pose proof (enc_runs_length v). lia.
  - destruct He as [_ He]. pose proof (enc_children_length _ _ He). lia.
Qed.

Lemma decode_node_Ok bs n : decode_node bs = Ok n <-> node_typed n /\ encode_node n = Ok bs.
Proof.
  unfold decode_node. split.
  - intros Hd. case_match eqn:E; [done|]. apply result_bind_Ok in Hd as (n' & Hd & Hr).
    apply (run_exact node_framed enc_node dec_node) in Hd as [Hf ->]. apply result_bind_Ok in Hr as (bs & Hbs & [= <-]).
    split; [by apply framed_typed|]. rewrite Hbs. apply encode_node_Ok in Hbs as [_ ->]. done.
  - intros [Ht He]. pose proof He as He'. apply encode_node_Ok in He' as [Hs ->].
    pose proof (node_sound_framed n Ht Hs) as Hf. pose proof (enc_node_bound n Hf).
    case_match eqn:E; [bool_facts; lia|]. rewrite (proj2 (run_exact node_framed enc_node dec_node _ n) (conj Hf eq_refl)). cbn. by rewrite He.
Qed.

#[global] Instance mapping_family_laws : FamilyLaws (list byte) Node.
Proof.
  refine {| family_key_typed _ := True; family_typed := node_typed |}.
  - done.
  - intros n bs Ht He. by apply decode_node_Ok.
  - intros n bs Ht He. apply encode_node_Ok in He as [Hs ->]. by apply enc_node_bound, node_sound_framed.
  - cbn. congruence.
Defined.
End Codec.

Lemma decode_root_Ok bs r : decode_root bs = Ok r <-> root_typed r /\ encode_root r = Ok bs.
Proof.
  unfold decode_root, encode_root. rewrite result_bind_Ok. split.
  - intros (r' & Hr & Hv). apply (run_exact root_typed _ dec_root) in Hr as [Ht ->]. destruct (root_valid r') eqn:E; [|done].
    injection Hv as ->. by rewrite E.
  - intros [Ht He]. destruct (root_valid r) eqn:E; [|done]. injection He as <-. exists r. rewrite E. split; [|done].
    by apply (run_exact root_typed _ dec_root).
Qed.

Lemma encode_node_bound {H} `{Sha256 H} n bs : node_typed n -> encode_node n = Ok bs -> zlen bs <= MAX_MAPPING_BYTES.
Proof. intros Ht He. apply encode_node_Ok in He as [Hs ->]. by apply enc_node_bound, node_sound_framed. Qed.
