(* ===== verification/MappingTree.v ===== *)
(** * The coordinate map of a draft build: the tree

    [syndic-storage/src/draft_piece/build_mapping/tree.rs] and [edit.rs].  Records are read
    through the build budget and emitted into the context; an operation returns a new root and
    leaves the old one valid.  The loops that follow child records are bounded by the limit on
    loads: the fuel below is one more than that limit, and running out of it is the refusal the
    limit itself gives. *)
From stdpp Require Import prelude gmap strings.
From S2P Require Import Prelude.
From S2P Require Import Bytes.
From S2P Require Import ModelDigest.
From S2P Require Import BuildBudget.
From S2P Require Import MappingModel.

Record MappingContext := mkMapping {
  mc_budget : Acquired;
  mc_ordinal : Z;
  mc_emitted : list Node;
  mc_acquired : nat
}.

Record Frame := mkFrame { f_children : list Descriptor; f_index : nat; f_height : Z }.

Definition MAX_LOADS : nat := 43.
Definition MAX_EMITTED : nat := 45.
Definition LOAD_FUEL : nat := 44.

(** ** A state and error monad *)
Definition mapm (R A : Type) : Type := MappingContext -> result (DraftPiecePrepareError R) (A * MappingContext).
#[global] Instance mapm_ret R : MRet (mapm R) := fun A a c => Ok (a, c).
#[global] Instance mapm_bind R : MBind (mapm R) := fun A B k m c =>
  match m c with Ok (a, c') => k a c' | Err e => Err e end.
Definition lift_map {R A} (r : result (DraftPiecePrepareError R) A) : mapm R A := fun c =>
  match r with Ok a => Ok (a, c) | Err e => Err e end.
Definition refuse_map {R A} : mapm R A := fun _ => Err InvalidRoot.

Section Tree.
Context {H : Type} `{Sha256 H} {R : Type}.
Context (store : list byte -> result (DraftPiecePrepareError R) (option Node)) (owner : list byte).

Definition map_point (key : list byte) : mapm R (option Node) := fun c =>
  match acquired_point (mc_budget c) store key with
  | Ok (o, b) => Ok (o, mkMapping b (mc_ordinal c) (mc_emitted c) (mc_acquired c))
  | Err e => Err e
  end.

Definition count_load (c : MappingContext) : MappingContext :=
  mkMapping (mc_budget c) (mc_ordinal c) (mc_emitted c) (S (mc_acquired c)).

Definition load (d : Descriptor) (root : bool) : mapm R Node := fun c =>
  if negb (descriptor_valid d) || (MAX_LOADS <=? mc_acquired c)%nat then Err InvalidRoot
  else
    let key := owner ++ d_id d in
    match map_point key c with
    | Err e => Err e
    | Ok (None, _) => Err InvalidRoot
    | Ok (Some node, c) =>
        let c := count_load c in
        if negb (bool_decide (n_key node = key)) || negb (shape root node) then Err InvalidRoot
        else
          match node_descriptor node with
          | Err e => Err e
          | Ok d' => if bool_decide (d' = d) then Ok (node, c) else Err InvalidRoot
          end
    end.

(** [authenticate] *)
Definition authenticate (r : MapRoot) (expected : Measure) : mapm R unit :=
  if negb (root_valid r) || negb (bool_decide (root_measure r = expected)) then refuse_map
  else match r with MapStored d => _ ← load d true; mret tt | _ => mret tt end.

Definition push_emitted (node : Node) (b : Acquired) (ordinal : Z) (c : MappingContext) : MappingContext :=
  mkMapping b ordinal (mc_emitted c ++ [node]) (mc_acquired c).

Definition emit (height : Z) (entries : Entries) (root : bool) : mapm R Descriptor := fun c =>
  if (MAX_EMITTED <=? length (mc_emitted c))%nat || (mc_ordinal c =? 0) then Err InvalidRoot
  else
    match checked_add64 (mc_ordinal c) 1 with
    | None => Err InvalidRoot
    | Some next =>
        let digest := node_digest owner height entries in
        let key := owner ++ record_id owner (mc_ordinal c) digest in
        let node := mkNode key height entries digest in
        if negb (shape root node) then Err InvalidRoot
        else
          d ← node_descriptor node;
          if negb (descriptor_valid d) then Err InvalidRoot
          else
            _ ← or_invalid (encode_node node);
            '(occupied, c) ← map_point key c;
            if bool_decide (is_Some occupied) then Err InvalidRoot
            else
              b ← emission (mc_budget c) key node;
              Ok (d, push_emitted node b next c)
    end.

(** ** Source positions *)

Fixpoint cut_runs (require_copy : bool) (x target : Z) (v : list Run)
    : result (DraftPiecePrepareError R) Z :=
  match v with
  | [] => if (x =? 0) && negb require_copy then Ok target else invalid_map
  | run :: v =>
      let m := run_measure run in
      if x <? m_source m then
        match run with
        | RunCopy _ => ok_or InvalidRoot (checked_add128 target x)
        | RunDeleted _ => if require_copy then invalid_map else Ok target
        | RunInserted _ => invalid_map
        end
      else
        target ← ok_or InvalidRoot (checked_add128 target (m_target m));
        cut_runs require_copy (x - m_source m) target v
  end.

(** The child to descend into, if any, with the position left and the target so far. *)
Fixpoint cut_children (x target : Z) (v : list Descriptor)
    : result (DraftPiecePrepareError R) (option Descriptor * Z * Z) :=
  match v with
  | [] => Ok (None, x, target)
  | child :: v =>
      if x <? m_source (d_measure child) then Ok (Some child, x, target)
      else
        target ← ok_or InvalidRoot (checked_add128 target (m_target (d_measure child)));
        cut_children (x - m_source (d_measure child)) target v
  end.

Fixpoint cut_from (fuel : nat) (require_copy selected_root : bool) (d : Descriptor) (x target : Z) : mapm R Z :=
  match fuel with
  | O => refuse_map
  | S fuel =>
      node ← load d selected_root;
      match n_entries node with
      | Runs v => lift_map (cut_runs require_copy x target v)
      | Children v =>
          '(next, x, target) ← lift_map (cut_children x target v);
          match next with
          | Some child => cut_from fuel require_copy false child x target
          | None => if (x =? 0) && negb require_copy then mret target else refuse_map
          end
      end
  end.

Definition source_cut (r : MapRoot) (source : Z) (require_copy : bool) : mapm R Z :=
  if negb (root_valid r) || (m_source (root_measure r) <? source)
     || (require_copy && (source =? m_source (root_measure r)))
  then refuse_map
  else
    match r with
    | MapEmpty => mret 0
    | MapIdentity _ => mret source
    | MapStored d => cut_from LOAD_FUEL require_copy true d source 0
    end.

(** ** Descending to a target position *)

Fixpoint choose_child (insertion : bool) (target start : Z) (index : nat) (v : list Descriptor)
    : result (DraftPiecePrepareError R) (option (nat * Descriptor) * Z) :=
  match v with
  | [] => Ok (None, start)
  | child :: v =>
      end_ ← ok_or InvalidRoot (checked_add128 start (m_target (d_measure child)));
      if (insertion && (target <=? end_)) || (negb insertion && (target <? end_))
      then Ok (Some (index, child), start)
      else choose_child insertion target end_ (S index) v
  end.

(** The frames are a stack: the deepest one first. *)
Fixpoint descend_from (fuel : nat) (target : Z) (insertion selected_root : bool) (d : Descriptor)
    (start : Z) (frames : list Frame) : mapm R (list Frame * list Run * Z) :=
  match fuel with
  | O => refuse_map
  | S fuel =>
      node ← load d selected_root;
      match n_entries node with
      | Runs v => mret (frames, v, start)
      | Children v =>
          '(chosen, start) ← lift_map (choose_child insertion target start 0 v);
          match chosen with
          | None => refuse_map
          | Some (index, child) =>
              descend_from fuel target insertion false child start (mkFrame v index (d_height d) :: frames)
          end
      end
  end.

Definition descend (r : MapRoot) (target : Z) (insertion : bool) : mapm R (list Frame * list Run * Z) :=
  if negb (root_valid r) || (m_target (root_measure r) <? target)
     || (negb insertion && (target =? m_target (root_measure r)))
  then refuse_map
  else
    match r with
    | MapEmpty => mret ([], [], 0)
    | MapIdentity n => mret ([], [RunCopy n], 0)
    | MapStored d => descend_from LOAD_FUEL target insertion true d 0 []
    end.

(** ** Rebuilding the path *)

Definition emit_region (height : Z) (entries : Entries) (root : bool) : mapm R (list Descriptor) :=
  if (entries_len entries <=? 16)%nat then d ← emit height entries root; mret [d]
  else if (32 <? entries_len entries)%nat then refuse_map
  else
    let '(fst_half, snd_half) := split_off entries (entries_len entries / 2) in
    l ← emit height fst_half false;
    r ← emit height snd_half false;
    mret [l; r].

(** The region that replaces the child of a frame: an underfull one takes a sibling in. *)
Definition widen (frame : Frame) (entries : Entries) : mapm R (nat * nat * Entries) :=
  let begin := f_index frame in
  if (entries_len entries <? 8)%nat then
    let sibling_index := if (0 <? begin)%nat then (begin - 1)%nat else (begin + 1)%nat in
    match f_children frame !! sibling_index with
    | None => refuse_map
    | Some s =>
        sibling ← load s false;
        if (sibling_index <? begin)%nat then
          entries ← lift_map (append_entries (n_entries sibling) entries);
          mret ((begin - 1)%nat, 2%nat, entries)
        else
          entries ← lift_map (append_entries entries (n_entries sibling));
          mret (begin, 2%nat, entries)
    end
  else mret (begin, 1%nat, entries).

Fixpoint normalize_frames (frames : list Frame) (entries : Entries) (height : Z) : mapm R (Entries * Z) :=
  match frames with
  | [] => mret (entries, height)
  | frame :: frames =>
      '(begin, count, entries) ← widen frame entries;
      replacement ← emit_region height entries false;
      normalize_frames frames
        (Children (take begin (f_children frame) ++ replacement ++ drop (begin + count) (f_children frame)))
        (f_height frame)
  end.

Definition normalize (frames : list Frame) (entries : Entries) : mapm R MapRoot :=
  '(entries, height) ← normalize_frames frames entries 1;
  match entries_len entries, entries with
  | O, _ => mret MapEmpty
  | _, Children [child] => mret (MapStored child)
  | _, _ =>
      roots ← emit_region height entries true;
      match roots with
      | [d] => mret (MapStored d)
      | _ =>
          next ← lift_map (if height + 1 <=? U8_MAX then Ok (height + 1) else invalid_map);
          d ← emit next (Children roots) true;
          mret (MapStored d)
      end
  end.

(** ** Edits *)

Fixpoint insert_runs (len remaining : Z) (inserted : bool) (v : list Run) : list Run * Z * bool :=
  match v with
  | [] => ([], remaining, inserted)
  | run :: v =>
      if negb inserted && (remaining <=? m_target (run_measure run)) then
        let '(out, r, i) := insert_runs len remaining true v in
        ((if 0 <? remaining then [with_length run remaining] else [])
         ++ [RunInserted len]
         ++ (if remaining <? run_length run then [with_length run (run_length run - remaining)] else [])
         ++ out, r, i)
      else
        let '(out, r, i) :=
          insert_runs len (if inserted then remaining else remaining - m_target (run_measure run)) inserted v in
        (run :: out, r, i)
  end.

Definition insert_map (r : MapRoot) (at_ length : Z) : mapm R MapRoot :=
  if (length =? 0)
     || match checked_add128 (m_target (root_measure r)) length with None => true | Some n => MAX_UNITS <? n end
  then refuse_map
  else
    '(frames, runs, start) ← descend r at_ true;
    remaining ← lift_map (ok_or InvalidRoot (checked_sub128 at_ start));
    let '(output, remaining, inserted) := insert_runs length remaining false runs in
    output ← (if inserted then mret output
              else if negb (remaining =? 0) then refuse_map else mret (output ++ [RunInserted length]));
    result ← normalize frames (Runs output);
    if negb (bool_decide (root_measure result
               = mkMeasure (m_source (root_measure r)) (m_target (root_measure r) + length)))
    then refuse_map else mret result.

Fixpoint delete_runs (a end_ cursor : Z) (v : list Run) : result (DraftPiecePrepareError R) (list Run) :=
  match v with
  | [] => Ok []
  | run :: v =>
      run_end ← ok_or InvalidRoot (checked_add128 cursor (m_target (run_measure run)));
      let lo := Z.max cursor a in
      let hi := Z.min run_end end_ in
      out ← delete_runs a end_ run_end v;
      Ok ((if (hi <=? lo) || match run with RunDeleted _ => true | _ => false end then [run]
           else (if cursor <? lo then [with_length run (lo - cursor)] else [])
                ++ (match run with RunCopy _ => [RunDeleted (hi - lo)] | _ => [] end)
                ++ (if hi <? run_end then [with_length run (run_end - hi)] else []))
          ++ out)
  end.

Definition delete_leaf (r : MapRoot) (a end_ : Z) : mapm R (MapRoot * Z) :=
  if (end_ <=? a) || (m_target (root_measure r) <? end_) then refuse_map
  else
    '(frames, runs, start) ← descend r (end_ - 1) false;
    let next_end := Z.max a start in
    if end_ <=? next_end then refuse_map
    else
      output ← lift_map (delete_runs a end_ start runs);
      if (18 <? length output)%nat then refuse_map
      else
        result ← normalize frames (Runs output);
        if negb (bool_decide (root_measure result
                   = mkMeasure (m_source (root_measure r)) (m_target (root_measure r) - (end_ - next_end))))
        then refuse_map else mret (result, next_end).
End Tree.
