(* ===== verification/MappingProofs.v ===== *)
(** * The coordinate map of a draft build: what the tree denotes

    A map denotes a sequence of runs, and a sequence of runs a sequence of single units, each
    copied from the source, deleted from it, or inserted.  The operations of [MappingTree] are
    compared with plain functions on units. *)
From stdpp Require Import prelude gmap strings.
From S2P Require Import Prelude.
From S2P Require Import Bytes.
From S2P Require Import ModelDigest.
From S2P Require Import SyndicParts.
From S2P Require Import BuildBudget.
From S2P Require Import MappingModel.
From S2P Require Import MappingTree.

(** ** Units *)

Inductive unit_kind := UCopy | UDeleted | UInserted.
#[global] Instance unit_kind_eq_dec : EqDecision unit_kind.
Proof. solve_decision. Defined.

Definition expand_run (r : Run) : list unit_kind :=
  match r with
  | RunCopy n => replicate (Z.to_nat n) UCopy
  | RunDeleted n => replicate (Z.to_nat n) UDeleted
  | RunInserted n => replicate (Z.to_nat n) UInserted
  end.
Definition expand (v : list Run) : list unit_kind := concat (expand_run <$> v).

Definition in_source (u : unit_kind) : bool := match u with UInserted => false | _ => true end.
Definition in_target (u : unit_kind) : bool := match u with UDeleted => false | _ => true end.
Fixpoint count_units (p : unit_kind -> bool) (us : list unit_kind) : Z :=
  match us with [] => 0 | u :: us => b2u (p u) + count_units p us end.
Abbreviation sources us := (count_units in_source us).
Abbreviation targets us := (count_units in_target us).

(** New units go in at the first place with [at_] target units before it. *)
Fixpoint ref_insert (at_ : Z) (len : nat) (us : list unit_kind) : list unit_kind :=
  if at_ <=? 0 then replicate len UInserted ++ us
  else match us with
       | [] => []
       | u :: us => u :: ref_insert (at_ - b2u (in_target u)) len us
       end.

(** The target units from [lo] to [hi] go away: a copied unit is marked, an inserted one dropped. *)
Fixpoint ref_delete (lo hi pos : Z) (us : list unit_kind) : list unit_kind :=
  match us with
  | [] => []
  | UDeleted :: us => UDeleted :: ref_delete lo hi pos us
  | u :: us =>
      (if (lo <=? pos) && (pos <? hi) then match u with UCopy => [UDeleted] | _ => [] end else [u])
      ++ ref_delete lo hi (pos + 1) us
  end.

(** The target position of a source position: past what was inserted before it. *)
Fixpoint ref_cut (require_copy : bool) (x pos : Z) (us : list unit_kind) : option Z :=
  match us with
  | [] => if (x =? 0) && negb require_copy then Some pos else None
  | UInserted :: us => ref_cut require_copy x (pos + 1) us
  | UCopy :: us => if x =? 0 then Some pos else ref_cut require_copy (x - 1) (pos + 1) us
  | UDeleted :: us =>
      if x =? 0 then if require_copy then None else Some pos else ref_cut require_copy (x - 1) pos us
  end.

(** ** Lemmas on units *)

Lemma units_app p us us' : count_units p (us ++ us') = count_units p us + count_units p us'.
Proof. induction us as [|u us IH]; cbn; [done|]. rewrite IH. lia. Qed.
Lemma units_nonneg p us : 0 <= count_units p us.
Proof. induction us as [|u us IH]; cbn; [done|]. pose proof (b2u_bounds (p u)). lia. Qed.
Lemma count_replicate p n u : count_units p (replicate n u) = b2u (p u) * Z.of_nat n.
Proof. induction n as [|n IH]; cbn -[Z.of_nat]; [by rewrite Z.mul_0_r|]. rewrite IH. lia. Qed.

Lemma expand_app v v' : expand (v ++ v') = expand v ++ expand v'.
Proof. unfold expand. by rewrite fmap_app, concat_app. Qed.
Lemma expand_cons r v : expand (r :: v) = expand_run r ++ expand v.
Proof. done. Qed.

Lemma ref_insert_past at_ len us us' : targets us < at_ -> ref_insert at_ len (us ++ us') = us ++ ref_insert (at_ - targets us) len us'.
Proof.
  revert at_. induction us as [|u us IH]; intros at_ Hlt; cbn [app].
  - cbn in *. by rewrite Z.sub_0_r.
  - pose proof (units_nonneg in_target us). pose proof (b2u_bounds (in_target u)). cbn in Hlt.
    cbn [ref_insert]. rewrite (proj2 (Z.leb_gt _ _)) by lia. rewrite IH by lia. f_equal. f_equal. f_equal. cbn. lia.
Qed.

Lemma ref_insert_within at_ len us us' : 0 <= at_ <= targets us -> ref_insert at_ len (us ++ us') = ref_insert at_ len us ++ us'.
Proof.
  revert at_. induction us as [|u us IH]; intros at_ Hle.
  - cbn in *. assert (at_ = 0) as -> by lia. destruct us'; cbn; by rewrite ?app_nil_r, <- ?app_assoc.
  - cbn in Hle. cbn. destruct (Z.leb_spec at_ 0); [by rewrite <- app_assoc|].
    pose proof (b2u_bounds (in_target u)). cbn. rewrite IH by lia. done.
Qed.

Lemma ref_insert_zero len us : ref_insert 0 len us = replicate len UInserted ++ us.
Proof. by destruct us. Qed.

Lemma ref_delete_app lo hi pos us us' :
  ref_delete lo hi pos (us ++ us') = ref_delete lo hi pos us ++ ref_delete lo hi (pos + targets us) us'.
Proof.
  revert pos. induction us as [|u us IH]; intros pos; [cbn; by rewrite Z.add_0_r|].
  destruct u; cbn [app ref_delete count_units in_target b2u]; rewrite IH, <- ?app_assoc, ?Z.add_assoc, ?Z.add_0_r; done.
Qed.

Lemma ref_delete_outside lo hi pos us : targets us = 0 \/ pos + targets us <= lo \/ hi <= pos ->
  ref_delete lo hi pos us = us.
Proof.
  revert pos. induction us as [|u us IH]; intros pos Ho; [done|]. pose proof (units_nonneg in_target us).
  destruct u; cbn in Ho |- *; rewrite ?IH by lia; try done;
    rewrite (proj2 (andb_false_iff _ _)); try done; rewrite Z.leb_gt, Z.ltb_ge; lia.
Qed.

Lemma ref_delete_none lo hi pos us : hi <= lo -> ref_delete lo hi pos us = us.
Proof.
  intros Hle. revert pos. induction us as [|u us IH]; intros pos; [done|].
  destruct u; cbn; rewrite IH; try done; rewrite (proj2 (andb_false_iff _ _)); try done; rewrite Z.leb_gt, Z.ltb_ge; lia.
Qed.

Lemma ref_delete_inside lo hi pos n u : in_target u = true -> lo <= pos -> pos + Z.of_nat n <= hi ->
  ref_delete lo hi pos (replicate n u) = if decide (u = UCopy) then replicate n UDeleted else [].
Proof.
  intros Hu. revert pos. induction n as [|n IH]; intros pos Hlo Hhi; cbn [replicate]; [by case_decide|].
  destruct u; [|done|]; cbn [ref_delete]; rewrite (proj2 (Z.leb_le _ _)), (proj2 (Z.ltb_lt _ _)) by lia; cbn [andb];
    rewrite IH by lia; done.
Qed.

Lemma ref_cut_inserted c x pos n us : ref_cut c x pos (replicate n UInserted ++ us) = ref_cut c x (pos + Z.of_nat n) us.
Proof.
  revert pos. induction n as [|n IH]; intros pos; cbn [replicate app ref_cut]; [by rewrite Z.add_0_r|].
  rewrite IH. f_equal. lia.
Qed.

Lemma ref_cut_copied c x pos n us : 0 <= x ->
  ref_cut c x pos (replicate n UCopy ++ us) =
  if x <? Z.of_nat n then Some (pos + x) else ref_cut c (x - Z.of_nat n) (pos + Z.of_nat n) us.
Proof.
  revert x pos. induction n as [|n IH]; intros x pos Hx; cbn [replicate app].
  - rewrite (proj2 (Z.ltb_ge _ _)) by lia. f_equal; lia.
  - cbn [ref_cut]. destruct (Z.eqb_spec x 0).
    + rewrite (proj2 (Z.ltb_lt _ _)) by lia. f_equal; lia.
    + rewrite IH by lia. destruct (Z.ltb_spec (x - 1) (Z.of_nat n)), (Z.ltb_spec x (Z.of_nat (S n))); try lia; [f_equal; lia|].
      f_equal; lia.
Qed.

Lemma ref_cut_deleted c x pos n us : 0 <= x ->
  ref_cut c x pos (replicate n UDeleted ++ us) =
  if x <? Z.of_nat n then if c then None else Some pos else ref_cut c (x - Z.of_nat n) pos us.
Proof.
  revert x pos. induction n as [|n IH]; intros x pos Hx; cbn [replicate app].
  - rewrite (proj2 (Z.ltb_ge _ _)) by lia. f_equal; lia.
  - cbn [ref_cut]. destruct (Z.eqb_spec x 0).
    + rewrite (proj2 (Z.ltb_lt _ _)) by lia. done.
    + rewrite IH by lia. destruct (Z.ltb_spec (x - 1) (Z.of_nat n)), (Z.ltb_spec x (Z.of_nat (S n))); try lia; [done|].
      f_equal; lia.
Qed.

(** ** Runs *)

Definition positive (r : Run) : Prop := 1 <= run_length r.

Lemma expand_run_source r : 0 <= run_length r -> sources (expand_run r) = m_source (run_measure r).
Proof. destruct r; cbn -[count_units]; intros; rewrite count_replicate; cbn; lia. Qed.
Lemma expand_run_target r : 0 <= run_length r -> targets (expand_run r) = m_target (run_measure r).
Proof. destruct r; cbn -[count_units]; intros; rewrite count_replicate; cbn; lia. Qed.

Lemma with_length_same r : with_length r (run_length r) = r.
Proof. by destruct r. Qed.
Lemma run_length_with r n : run_length (with_length r n) = n.
Proof. by destruct r. Qed.

Lemma expand_run_split r k : 0 <= k <= run_length r ->
  expand_run r = expand_run (with_length r k) ++ expand_run (with_length r (run_length r - k)).
Proof. destruct r; cbn; intros; rewrite <- replicate_add; f_equal; lia. Qed.

Lemma insert_runs_done len rem v : insert_runs len rem true v = (v, rem, true).
Proof. induction v as [|r v IH]; cbn; [done|]. by rewrite IH. Qed.

Lemma ref_insert_replicate rem len n u : in_target u = true -> (rem <= n)%nat ->
  ref_insert (Z.of_nat rem) len (replicate n u) = replicate rem u ++ replicate len UInserted ++ replicate (n - rem) u.
Proof.
  intros Hu. revert n. induction rem as [|rem IH]; intros n Hle; [by rewrite ref_insert_zero, Nat.sub_0_r|].
  destruct n as [|n]; [lia|]. cbn [replicate ref_insert app Nat.sub]. rewrite (proj2 (Z.leb_gt _ _)) by lia. rewrite Hu.
  cbn [b2u]. replace (Z.of_nat (S rem) - 1) with (Z.of_nat rem) by lia. by rewrite IH by lia.
Qed.

(** A run around the place of an insertion. *)
Definition split_run (len rem : Z) (r : Run) : list Run :=
  (if 0 <? rem then [with_length r rem] else []) ++ [RunInserted len]
  ++ (if rem <? run_length r then [with_length r (run_length r - rem)] else []).

Lemma split_run_spec len rem r : positive r -> 0 <= rem <= m_target (run_measure r) -> 0 < len ->
  expand (split_run len rem r) = ref_insert rem (Z.to_nat len) (expand_run r)
  /\ Forall positive (split_run len rem r) /\ (2 <= length (split_run len rem r) <= 3)%nat.
Proof.
  unfold positive, split_run. intros Hr Hrem Hlen. destruct (Z.eq_dec rem 0) as [->|Hne].
  - rewrite (proj2 (Z.ltb_lt 0 (run_length r))), Z.sub_0_r, with_length_same, ref_insert_zero by lia.
    split_and!; [unfold expand; cbn; by rewrite app_nil_r|repeat constructor; done || (cbn; lia)|cbn; lia..].
  - assert (Hrl : m_target (run_measure r) = run_length r) by (destruct r; cbn in *; lia). rewrite Hrl in Hrem.
    rewrite (proj2 (Z.ltb_lt 0 rem)) by lia.
    assert (exists u, in_target u = true /\ forall n, expand_run (with_length r n) = replicate (Z.to_nat n) u) as (u & Hu & Hex).
    { destruct r; [by exists UCopy|cbn in *; lia|by exists UInserted]. }
    assert (ref_insert rem (Z.to_nat len) (expand_run r) = replicate (Z.to_nat rem) u ++ replicate (Z.to_nat len) UInserted
      ++ replicate (Z.to_nat (run_length r - rem)) u) as ->.
    { rewrite <- (with_length_same r) at 1. rewrite Hex. replace rem with (Z.of_nat (Z.to_nat rem)) at 1 by lia.
      rewrite ref_insert_replicate by (done || lia). do 3 f_equal. lia. }
    destruct (Z.ltb_spec rem (run_length r)).
    + split_and!; [|repeat constructor; rewrite ?run_length_with; lia || (cbn; lia)|cbn; lia..].
      unfold expand. cbn. by rewrite !Hex, app_nil_r.
    + split_and!; [|repeat constructor; rewrite ?run_length_with; lia || (cbn; lia)|cbn; lia..].
      unfold expand. cbn. rewrite !Hex. replace (run_length r - rem) with 0 by lia. done.
Qed.

Lemma insert_runs_spec len rem v : Forall positive v -> 0 <= rem <= targets (expand v) -> 0 < len -> v <> [] ->
  exists out r, insert_runs len rem false v = (out, r, true)
    /\ expand out = ref_insert rem (Z.to_nat len) (expand v)
    /\ Forall positive out /\ (length v + 1 <= length out <= length v + 2)%nat.
Proof.
  intros Hv. revert rem. induction Hv as [|r v Hr Hv IH]; intros rem Hrem Hlen Hne; [done|].
  rewrite expand_cons, units_app, expand_run_target in Hrem by (unfold positive in Hr; lia).
  cbn [insert_runs negb andb]. destruct (Z.leb_spec rem (m_target (run_measure r))) as [Hle|Hgt].
  - rewrite insert_runs_done. destruct (split_run_spec len rem r) as (E & Hp & Hl); [done|lia|done|].
    exists (split_run len rem r ++ v), rem. unfold split_run in *. rewrite <- !app_assoc in *.
    split_and!; [done| |by rewrite !app_assoc in *; apply Forall_app|rewrite !length_app in *; cbn in *; lia..].
    rewrite expand_cons, ref_insert_within, <- E by (unfold positive in Hr; rewrite ?expand_run_target; lia).
    rewrite <- expand_app. by rewrite <- !app_assoc.
  - assert (v <> []) as Hv0 by (intros ->; cbn in Hrem; lia).
    destruct (IH (rem - m_target (run_measure r))) as (out & r' & E & Ex & Hp & Hl); [lia|done|done|].
    rewrite E. exists (r :: out), r'. split_and!; [done| |by constructor|cbn; lia..].
    rewrite !expand_cons, ref_insert_past, Ex, expand_run_target by (unfold positive in Hr; rewrite ?expand_run_target; lia).
    done.
Qed.

Lemma ref_delete_replicate lo hi pos n u : in_target u = true -> 0 <= n ->
  let l := Z.max pos lo in let h := Z.min (pos + n) hi in
  ref_delete lo hi pos (replicate (Z.to_nat n) u) =
  if h <=? l then replicate (Z.to_nat n) u
  else replicate (Z.to_nat (l - pos)) u ++ (if decide (u = UCopy) then replicate (Z.to_nat (h - l)) UDeleted else [])
       ++ replicate (Z.to_nat (pos + n - h)) u.
Proof.
  intros Hu Hn l h. destruct (Z.leb_spec h l) as [Hle|Hlt].
  - assert (n = 0 \/ pos + n <= lo \/ hi <= pos \/ hi <= lo) as [->|Hc] by lia; [done|].
    destruct Hc as [Hc|[Hc|Hc]].
    + apply ref_delete_outside. rewrite count_replicate, Hu. cbn. lia.
    + apply ref_delete_outside. lia.
    + by apply ref_delete_none.
  - replace (Z.to_nat n) with (Z.to_nat (l - pos) + (Z.to_nat (h - l) + Z.to_nat (pos + n - h)))%nat by lia.
    rewrite !replicate_add, !ref_delete_app. f_equal; [|f_equal].
    + apply ref_delete_outside. rewrite count_replicate, Hu. cbn. lia.
    + rewrite count_replicate, Hu. apply ref_delete_inside; cbn; [done|lia..].
    + apply ref_delete_outside. rewrite !count_replicate, Hu. cbn. lia.
Qed.

Lemma add128_ok a b : a + b <= U128_MAX -> checked_add128 a b = Some (a + b).
Proof. intros. by apply checked_add128_Some. Qed.
Lemma sub128_ok a b : b <= a -> checked_sub128 a b = Some (a - b).
Proof. intros. by apply checked_sub128_Some. Qed.
Lemma run_target_nonneg r : positive r -> 0 <= m_target (run_measure r).
Proof. unfold positive. destruct r; cbn; lia. Qed.

(** What a run leaves behind when the target units of [lo, hi) go away. *)
Definition trim_run (a e cursor : Z) (r : Run) : list Run :=
  let run_end := cursor + m_target (run_measure r) in
  let lo := Z.max cursor a in
  let hi := Z.min run_end e in
  if (hi <=? lo) || match r with RunDeleted _ => true | _ => false end then [r]
  else (if cursor <? lo then [with_length r (lo - cursor)] else [])
       ++ (match r with RunCopy _ => [RunDeleted (hi - lo)] | _ => [] end)
       ++ (if hi <? run_end then [with_length r (run_end - hi)] else []).

Lemma expand_piece (b : bool) r n u : (forall n, expand_run (with_length r n) = replicate (Z.to_nat n) u) ->
  (b = false -> n <= 0) -> expand (if b then [with_length r n] else []) = replicate (Z.to_nat n) u.
Proof.
  intros Hu Hb. destruct b; cbn; [by rewrite Hu, app_nil_r|]. replace (Z.to_nat n) with 0%nat; [done|]. specialize (Hb eq_refl). lia.
Qed.

Lemma trim_run_spec a e cursor r : positive r ->
  expand (trim_run a e cursor r) = ref_delete a e cursor (expand_run r)
  /\ Forall positive (trim_run a e cursor r)
  /\ Z.of_nat (length (trim_run a e cursor r))
     <= 1 + b2u ((cursor <? a) && (a <? cursor + m_target (run_measure r)))
          + b2u ((cursor <? e) && (e <? cursor + m_target (run_measure r))).
Proof.
  unfold positive, trim_run. intros Hr. destruct r as [n|n|n]; cbn [run_measure m_target run_length] in *.
  2: { rewrite orb_true_r. split_and!; [|by repeat constructor|cbn; pose proof (b2u_bounds ((cursor <? a) && (a <? cursor + 0)));
         pose proof (b2u_bounds ((cursor <? e) && (e <? cursor + 0))); lia].
       unfold expand; cbn. rewrite app_nil_r. symmetry. apply ref_delete_outside. left. by rewrite count_replicate. }
  all: rewrite orb_false_r; cbn [expand_run]; rewrite ref_delete_replicate by (done || lia).
  all: destruct (Z.leb_spec (Z.min (cursor + n) e) (Z.max cursor a)) as [Hle|Hlt];
    [split_and!; [by unfold expand; cbn; rewrite app_nil_r|by repeat constructor|];
     pose proof (b2u_bounds ((cursor <? a) && (a <? cursor + n))); pose proof (b2u_bounds ((cursor <? e) && (e <? cursor + n))); cbn; lia|].
  - split_and!.
    + rewrite !expand_app, (expand_piece _ _ _ UCopy), (expand_piece _ _ _ UCopy); try done; try (intros E; bool_facts; lia).
      unfold expand. cbn [fmap list_fmap concat expand_run]. rewrite app_nil_r. done.
    + rewrite !Forall_app. split_and!; [|by repeat constructor; unfold positive; cbn; lia|]; case_match eqn:E; constructor; bool_facts; cbn; try lia; done.
    + rewrite !length_app. destruct (Z.ltb_spec cursor (Z.max cursor a)), (Z.ltb_spec (Z.min (cursor + n) e) (cursor + n)),
        (Z.ltb_spec cursor a), (Z.ltb_spec a (cursor + n)), (Z.ltb_spec cursor e), (Z.ltb_spec e (cursor + n)); cbn; lia.
  - split_and!.
    + rewrite !expand_app, (expand_piece _ _ _ UInserted), (expand_piece _ _ _ UInserted); try done; try (intros E; bool_facts; lia).
    + rewrite !Forall_app. split_and!; [|constructor|]; case_match eqn:E; constructor; bool_facts; cbn; try lia; done.
    + rewrite !length_app. destruct (Z.ltb_spec cursor (Z.max cursor a)), (Z.ltb_spec (Z.min (cursor + n) e) (cursor + n)),
        (Z.ltb_spec cursor a), (Z.ltb_spec a (cursor + n)), (Z.ltb_spec cursor e), (Z.ltb_spec e (cursor + n)); cbn; lia.
Qed.

Lemma delete_runs_spec {R} a e cursor v : Forall positive v -> 0 <= cursor -> cursor + targets (expand v) <= U128_MAX ->
  exists out, delete_runs (R := R) a e cursor v = Ok out /\ expand out = ref_delete a e cursor (expand v)
    /\ Forall positive out /\ Z.of_nat (length out) <= zlen v + b2u (cursor <? a) + b2u (cursor <? e).
Proof.
  intros Hv. revert cursor. induction Hv as [|r v Hr Hv IH]; intros cursor H0 Hb.
  - exists []. cbn. pose proof (b2u_bounds (cursor <? a)). pose proof (b2u_bounds (cursor <? e)). split_and!; try done. lia.
  - rewrite expand_cons, units_app, expand_run_target in Hb by (unfold positive in Hr; lia).
    pose proof (units_nonneg in_target (expand v)). pose proof (run_target_nonneg r Hr).
    destruct (IH (cursor + m_target (run_measure r))) as (out & E & Ex & Hp & Hl); [lia|lia|].
    destruct (trim_run_spec a e cursor r Hr) as (Tx & Tp & Tl).
    cbn [delete_runs]. rewrite add128_ok by lia. cbn [ok_or mbind result_bind].
    rewrite E. cbn [mbind result_bind]. exists (trim_run a e cursor r ++ out). split_and!.
    + done.
    + rewrite expand_app, expand_cons, ref_delete_app, expand_run_target, Tx, Ex by (unfold positive in Hr; lia). done.
    + by apply Forall_app.
    + rewrite length_app. cbn [length]. remember (m_target (run_measure r)) as t.
      destruct (Z.ltb_spec cursor a), (Z.ltb_spec a (cursor + t)), (Z.ltb_spec cursor e), (Z.ltb_spec e (cursor + t)),
       (Z.ltb_spec (cursor + t) a), (Z.ltb_spec (cursor + t) e); cbn [b2u andb] in *; lia.
Qed.

Lemma cut_runs_spec {R} c x pos v : Forall positive v -> 0 <= x -> 0 <= pos -> pos + targets (expand v) <= U128_MAX ->
  cut_runs (R := R) c x pos v = ok_or InvalidRoot (ref_cut c x pos (expand v)).
Proof.
  intros Hv. revert x pos. induction Hv as [|r v Hr Hv IH]; intros x pos Hx Hp Hb.
  - cbn. by case_match.
  - rewrite expand_cons, units_app, expand_run_target in Hb by (unfold positive in Hr; lia).
    pose proof (units_nonneg in_target (expand v)). rewrite expand_cons. cbn [cut_runs]. unfold positive in Hr.
    destruct r as [n|n|n]; cbn [run_measure m_source m_target run_length expand_run] in *.
    + rewrite ref_cut_copied, Z2Nat.id by lia. destruct (Z.ltb_spec x n).
      * by rewrite add128_ok by lia.
      * rewrite add128_ok by lia. cbn. apply IH; lia.
    + rewrite ref_cut_deleted, Z2Nat.id by lia. destruct (Z.ltb_spec x n); [by destruct c|].
      rewrite add128_ok by lia. cbn. rewrite IH by lia. by rewrite Z.add_0_r.
    + rewrite ref_cut_inserted, Z2Nat.id by lia. rewrite (proj2 (Z.ltb_ge _ _)) by lia.
      rewrite add128_ok by lia. cbn. rewrite IH by lia. by rewrite Z.sub_0_r.
Qed.

(** ** What the operations do to the counts *)

Lemma count_insert p at_ n us : 0 <= at_ <= targets us ->
  count_units p (ref_insert at_ n us) = count_units p us + b2u (p UInserted) * Z.of_nat n.
Proof.
  revert at_. induction us as [|u us IH]; intros at_ Ha; cbn [ref_insert].
  - cbn in Ha. rewrite (proj2 (Z.leb_le _ _)) by lia. rewrite units_app, count_replicate. lia.
  - destruct (Z.leb_spec at_ 0); [rewrite units_app, count_replicate; lia|]. cbn in *.
    pose proof (b2u_bounds (in_target u)). pose proof (units_nonneg in_target us). rewrite IH; [lia|]. lia.
Qed.

Lemma sources_delete lo hi pos us : sources (ref_delete lo hi pos us) = sources us.
Proof.
  revert pos. induction us as [|u us IH]; intros pos; [done|].
  destruct u; cbn [ref_delete]; rewrite ?units_app, ?count_units; cbn; rewrite ?IH; try done; by case_match.
Qed.

Lemma targets_delete lo hi pos us : lo <= hi ->
  targets (ref_delete lo hi pos us) = targets us - Z.max 0 (Z.min (pos + targets us) hi - Z.max pos lo).
Proof.
  intros Hlh. revert pos. induction us as [|u us IH]; intros pos; [cbn; lia|]. pose proof (units_nonneg in_target us).
  destruct u; cbn [ref_delete]; rewrite ?units_app; cbn; rewrite ?IH; try lia;
    destruct (Z.leb_spec lo pos), (Z.ltb_spec pos hi); cbn; lia.
Qed.

Lemma ref_delete_lower lo lo' hi pos us : (lo <= pos /\ lo' <= pos) \/ lo = lo' -> ref_delete lo hi pos us = ref_delete lo' hi pos us.
Proof.
  intros [Hlo| ->]; [|done]. revert pos Hlo. induction us as [|u us IH]; intros pos Hlo; [done|].
  destruct u; cbn; (rewrite (IH (pos + 1)) by lia) || (rewrite (IH pos) by lia); try done;
    rewrite !(proj2 (Z.leb_le _ _)) by lia; done.
Qed.

Lemma ref_cut_past c x pos us us' : sources us <= x -> ref_cut c x pos (us ++ us') = ref_cut c (x - sources us) (pos + targets us) us'.
Proof.
  revert x pos. induction us as [|u us IH]; intros x pos Hx; cbn [app].
  - cbn. by rewrite Z.sub_0_r, Z.add_0_r.
  - pose proof (units_nonneg in_source us). destruct u; cbn in Hx |- *.
    1, 2: rewrite (proj2 (Z.eqb_neq _ _)) by lia.
    all: rewrite IH by lia; f_equal; lia.
Qed.

Lemma ref_cut_within c x pos us us' : 0 <= x < sources us -> ref_cut c x pos (us ++ us') = ref_cut c x pos us.
Proof.
  revert x pos. induction us as [|u us IH]; intros x pos Hx; cbn [app].
  - cbn in Hx. lia.
  - destruct u; cbn in Hx |- *; [case_match; [done|]..|]; bool_facts; apply IH; lia.
Qed.

Lemma ref_cut_end c x pos us : sources us <= x -> ref_cut c x pos us = if (x =? sources us) && negb c then Some (pos + targets us) else None.
Proof.
  intros Hx. rewrite <- (app_nil_r us) at 1. rewrite ref_cut_past by done. cbn.
  destruct (Z.eqb_spec (x - sources us) 0), (Z.eqb_spec x (sources us)); lia || done.
Qed.
