(* ===== verification/MappingDenote.v ===== *)
(** * The coordinate map of a draft build: what a tree of records denotes

    A table says which node records stand under which keys: those of the store, and after an
    operation also those it emitted.  Over a table a descriptor denotes the runs below it; the
    relation follows the checks [load] makes on the way down. *)
From stdpp Require Import prelude gmap strings.
From S2P Require Import Prelude.
From S2P Require Import Bytes.
From S2P Require Import ModelDigest.
From S2P Require Import SyndicParts.
From S2P Require Import BuildBudget.
From S2P Require Import MappingModel.
From S2P Require Import MappingTree.
From S2P Require Import MappingProofs.

(** ** Measures *)

Definition measure_of (us : list unit_kind) : Measure := mkMeasure (sources us) (targets us).
Definition measure_plus (a b : Measure) : Measure := mkMeasure (m_source a + m_source b) (m_target a + m_target b).
Definition measure_nonneg (m : Measure) : Prop := 0 <= m_source m /\ 0 <= m_target m.
Definition within_units (m : Measure) : Prop := m_source m <= MAX_UNITS /\ m_target m <= MAX_UNITS.

Lemma measure_of_app us us' : measure_of (us ++ us') = measure_plus (measure_of us) (measure_of us').
Proof. unfold measure_of, measure_plus. cbn. by rewrite !units_app. Qed.
Lemma measure_of_nonneg us : measure_nonneg (measure_of us).
Proof. split; apply units_nonneg. Qed.
Lemma measure_plus_assoc a b c : measure_plus a (measure_plus b c) = measure_plus (measure_plus a b) c.
Proof. unfold measure_plus. cbn. by rewrite !Z.add_assoc. Qed.
Lemma measure_plus_zero a : measure_plus measure_zero a = a.
Proof. by destruct a. Qed.
Lemma measure_of_run r : 0 <= run_length r -> measure_of (expand_run r) = run_measure r.
Proof. intros. unfold measure_of. rewrite expand_run_source, expand_run_target by done. by destruct r. Qed.

Lemma within_units_le a b : measure_nonneg b -> within_units (measure_plus a b) -> within_units a.
Proof. unfold within_units, measure_nonneg. cbn. lia. Qed.
Lemma within_units_app us us' : within_units (measure_of (us ++ us')) -> within_units (measure_of us) /\ within_units (measure_of us').
Proof.
  rewrite measure_of_app. unfold within_units. cbn. pose proof (measure_of_nonneg us) as [? ?].
  pose proof (measure_of_nonneg us') as [? ?]. cbn in *. lia.
Qed.

Lemma measure_valid_units m : measure_valid false m = true <-> within_units m.
Proof. unfold measure_valid, within_units. cbn. rewrite !andb_true_iff, !Z.leb_le. tauto. Qed.

Lemma units_small m : within_units m -> m_source m <= U128_MAX /\ m_target m <= U128_MAX.
Proof. unfold within_units, MAX_UNITS. lia. Qed.

Section Sums.
Context {R : Type}.

Lemma measure_add_Ok a b m : measure_add (R := R) a b = Ok m <-> m = measure_plus a b /\ within_units m.
Proof.
  unfold measure_add. split.
  - intros Hm. apply result_bind_Ok in Hm as (s & Hs & Hm). apply result_bind_Ok in Hm as (t & Ht & Hm).
    rewrite ok_or_Ok, checked_add128_Some in Hs, Ht. destruct Hs as [-> _], Ht as [-> _].
    destruct (measure_valid false _) eqn:E; [|done]. injection Hm as <-. split; [done|]. by apply measure_valid_units.
  - intros [-> Hm]. pose proof (units_small _ Hm) as [? ?]. cbn in *. rewrite !add128_ok by done. cbn [ok_or mbind result_bind].
    apply measure_valid_units in Hm. unfold measure_plus in Hm. by rewrite Hm.
Qed.

Lemma sum_runs_Ok sum v m : Forall (fun r => 0 <= run_length r) v -> within_units sum ->
  sum_runs (R := R) sum v = Ok m <-> Forall positive v /\ m = measure_plus sum (measure_of (expand v)) /\ within_units m.
Proof.
  intros Hv. revert sum. induction Hv as [|r v Hr Hv IH]; intros sum Hs; cbn [sum_runs].
  - split.
    + intros [= <-]. split_and!; [constructor| |done]. by destruct sum; unfold measure_plus; cbn; rewrite !Z.add_0_r.
    + intros (_ & -> & _). destruct sum. unfold measure_plus; cbn. by rewrite !Z.add_0_r.
  - rewrite expand_cons, measure_of_app, measure_of_run by done. destruct (Z.eqb_spec (run_length r) 0) as [E|E].
    + split; [done|]. intros [Hp _]. inversion Hp. unfold positive in *. lia.
    + rewrite result_bind_Ok, measure_plus_assoc. split.
      * intros (s & Hs' & Hm). apply measure_add_Ok in Hs' as [-> Hw]. apply IH in Hm as (? & ? & ?); [|done].
        split_and!; try done. constructor; [unfold positive; lia|done].
      * intros (Hp & -> & Hw). inversion Hp; subst. exists (measure_plus sum (run_measure r)).
        assert (within_units (measure_plus sum (run_measure r))) by (eapply within_units_le; [apply measure_of_nonneg|done]).
        split; [by apply measure_add_Ok|]. by apply IH.
Qed.

Fixpoint sum_measures (v : list Descriptor) : Measure :=
  match v with [] => measure_zero | d :: v => measure_plus (d_measure d) (sum_measures v) end.

Lemma sum_measures_nonneg v : Forall (fun d => measure_nonneg (d_measure d)) v -> measure_nonneg (sum_measures v).
Proof. induction 1 as [|d v [? ?] _ [? ?]]; [done|]. split; cbn; lia. Qed.

Lemma sum_children_Ok h sum v m : Forall (fun d => measure_nonneg (d_measure d)) v -> within_units sum ->
  sum_children (R := R) h sum v = Ok m <->
  Forall (fun d => descriptor_valid d = true /\ d_height d = h - 1) v
  /\ m = measure_plus sum (sum_measures v) /\ within_units m.
Proof.
  intros Hv. revert sum. induction Hv as [|d v Hd Hv IH]; intros sum Hs; cbn [sum_children sum_measures].
  - split.
    + intros [= <-]. split_and!; [constructor| |done]. by destruct sum; unfold measure_plus; cbn; rewrite !Z.add_0_r.
    + intros (_ & -> & _). destruct sum. unfold measure_plus; cbn. by rewrite !Z.add_0_r.
  - case_match eqn:E.
    + split; [done|]. intros [Hp _]. inversion Hp as [|? ? [E1 E2]]; subst. by rewrite E1, E2, Z.eqb_refl in E.
    + bool_facts. rewrite result_bind_Ok, measure_plus_assoc. split.
      * intros (s & Hs' & Hm). apply measure_add_Ok in Hs' as [-> Hw]. apply IH in Hm as (? & ? & ?); [|done].
        split_and!; try done. by constructor.
      * intros (Hp & -> & Hw). inversion Hp; subst. exists (measure_plus sum (d_measure d)).
        assert (within_units (measure_plus sum (d_measure d))) by (eapply within_units_le; [by apply sum_measures_nonneg|done]).
        split; [by apply measure_add_Ok|]. by apply IH.
Qed.
End Sums.

Lemma entries_measure_any {R R'} e h m : entries_typed e -> entries_measure (R := R) e h = Ok m -> entries_measure (R := R') e h = Ok m.
Proof.
  assert (Hz : within_units measure_zero) by done.
  unfold entries_measure. destruct e as [v|v]; cbn; intros Ht; (case_match; [|done]).
  - assert (Forall (fun r => 0 <= run_length r) v) by (eapply Forall_impl; [done|]; by intros r []).
    by rewrite !sum_runs_Ok.
  - assert (Forall (fun d => measure_nonneg (d_measure d)) v) by (eapply Forall_impl; [done|]; by intros d (_ & _ & _ & [] & [])).
    by rewrite !sum_children_Ok.
Qed.

Lemma node_descriptor_any {R R'} n d : node_typed n -> node_descriptor (R := R) n = Ok d -> node_descriptor (R := R') n = Ok d.
Proof.
  intros (_ & _ & He & _). unfold node_descriptor. rewrite !result_bind_Ok. intros (m & Hm & E). exists m. split; [|by injection E as ->].
  by eapply entries_measure_any.
Qed.

(** ** Trees *)

Section Denote.
Context {H : Type} `{Sha256 H} (owner : list byte).

Definition table : Type := list byte -> Node -> Prop.

(** The record of a descriptor, as [load] accepts it. *)
Definition node_at (T : table) (root : bool) (d : Descriptor) (n : Node) : Prop :=
  T (owner ++ d_id d) n /\ n_key n = owner ++ d_id d /\ node_typed n /\ node_sound n
  /\ shape root n = true /\ node_descriptor (R := unit) n = Ok d.

(** Level 0 is a leaf: a tree of level [h] has height [h + 1]. *)
Fixpoint map_tree (T : table) (h : nat) (root : bool) (d : Descriptor) (runs : list Run) : Prop :=
  exists n, node_at T root d n /\ n_height n = Z.of_nat (S h) /\
    match h, n_entries n with
    | O, Runs v => runs = v
    | S h, Children v => exists rss, Forall2 (map_tree T h false) v rss /\ runs = concat rss
    | _, _ => False
    end.

(** The entries of a node of level [h]. *)
Definition level_runs (T : table) (h : nat) (e : Entries) (runs : list Run) : Prop :=
  match h, e with
  | O, Runs v => runs = v
  | S h, Children v => exists rss, Forall2 (map_tree T h false) v rss /\ runs = concat rss
  | _, _ => False
  end.

Definition map_root (T : table) (r : MapRoot) (runs : list Run) : Prop :=
  match r with
  | MapEmpty => runs = []
  | MapIdentity n => 0 < n <= MAX_UNITS /\ runs = [RunCopy n]
  | MapStored d => exists h, map_tree T h true d runs
  end.

Lemma map_tree_eq T h root d runs : map_tree T h root d runs <->
  exists n, node_at T root d n /\ n_height n = Z.of_nat (S h) /\ level_runs T h (n_entries n) runs.
Proof. by destruct h. Qed.

Lemma shape_weaken n : shape false n = true -> shape true n = true.
Proof. unfold shape. rewrite !andb_true_iff, !Nat.leb_le. intros [[? ?] ?]. split_and!; try done. case_match; lia. Qed.

Lemma map_tree_weaken T h d runs : map_tree T h false d runs -> map_tree T h true d runs.
Proof.
  rewrite !map_tree_eq. intros (n & (? & ? & ? & ? & Hs & ?) & ? & ?). exists n. split_and!; try done.
  split_and!; try done. by apply shape_weaken.
Qed.

Lemma map_tree_mono (T T' : table) h root d runs : (forall k n, T k n -> T' k n) -> map_tree T h root d runs -> map_tree T' h root d runs.
Proof.
  intros HT. revert root d runs. induction h as [|h IH]; intros root d runs; rewrite !map_tree_eq;
    intros (n & (? & ? & ? & ? & ? & ?) & ? & Hl); exists n; (split_and!; [|done|]).
  1, 3: by split_and!; try done; apply HT.
  - done.
  - cbn in *. destruct (n_entries n); [done|]. destruct Hl as (rss & Hf & ->). exists rss. split; [|done].
    eapply Forall2_impl; [done|]. intros. by apply IH.
Qed.

Lemma level_runs_mono (T T' : table) h e runs : (forall k n, T k n -> T' k n) -> level_runs T h e runs -> level_runs T' h e runs.
Proof.
  intros HT. destruct h, e; cbn; try done. intros (rss & Hf & ->). exists rss. split; [|done].
  eapply Forall2_impl; [done|]. intros. by eapply map_tree_mono.
Qed.

(** ** What a tree says of its runs *)

Record tree_facts (h : nat) (root : bool) (d : Descriptor) (runs : list Run) : Prop := mkTreeFacts {
  tf_height : d_height d = Z.of_nat (S h);
  tf_positive : Forall positive runs;
  tf_measure : d_measure d = measure_of (expand runs);
  tf_units : within_units (d_measure d);
  tf_valid : descriptor_valid d = true;
  tf_typed : descriptor_typed d;
  tf_many : root = false -> 8 ^ Z.of_nat (S h) <= zlen runs
}.

Lemma forest_facts h v rss : Forall2 (fun d runs => tree_facts h false d runs) v rss ->
  Forall positive (concat rss) /\ sum_measures v = measure_of (expand (concat rss))
  /\ Forall (fun d => measure_nonneg (d_measure d)) v
  /\ Forall (fun d => descriptor_valid d = true /\ d_height d = Z.of_nat (S h)) v
  /\ zlen v * 8 ^ Z.of_nat (S h) <= zlen (concat rss).
Proof.
  induction 1 as [|d runs v rss [F1 F2 F3 F4 F5 F6 F7] _ (I1 & I2 & I3 & I4 & I5)]; [by cbn|]. cbn [concat sum_measures length].
  split_and!.
  - by apply Forall_app.
  - by rewrite expand_app, measure_of_app, I2, F3.
  - constructor; [|done]. rewrite F3. apply measure_of_nonneg.
  - by constructor.
  - rewrite length_app. specialize (F7 eq_refl). lia.
Qed.

Lemma runs_measure_nonzero v : Forall positive v -> v <> [] -> measure_valid true (measure_of (expand v)) = measure_valid false (measure_of (expand v)).
Proof.
  intros Hv Hne. unfold measure_valid. f_equal. destruct Hv as [|r v Hr Hv]; [done|].
  rewrite expand_cons, measure_of_app. unfold positive in Hr. rewrite measure_of_run by lia.
  pose proof (measure_of_nonneg (expand v)) as [? ?]. cbn in *.
  destruct r; cbn in *; rewrite !orb_true_iff, !negb_true_iff, !Z.eqb_neq; lia.
Qed.

Lemma units_typed us : within_units (measure_of us) -> measure_typed (measure_of us).
Proof.
  intros Hw. pose proof (units_small _ Hw). pose proof (measure_of_nonneg us) as [? ?].
  unfold measure_typed, is_u128. cbn in *. lia.
Qed.

Lemma map_tree_facts T h root d runs : map_tree T h root d runs -> tree_facts h root d runs.
Proof.
  revert root d runs. induction h as [|h IH]; intros root d runs; rewrite map_tree_eq;
    intros (n & (_ & Hk & Hty & _ & Hsh & Hd) & Hh & Hl); apply result_bind_Ok in Hd as (m & Hm & [= <-]);
    destruct Hty as (Hkey & Hu8 & Het & Hdg); unfold shape in Hsh; bool_facts; rewrite !Nat.leb_le in *;
    assert (Hid : fixed 16 (drop 48 (n_key n))) by (unfold fixed in *; rewrite length_drop, Hkey; done);
    unfold entries_measure in Hm; rewrite Hh in Hm.
  - cbn in Hl. destruct (n_entries n) as [v|v]; [|done]. subst v.
    change (sum_runs (R := unit) measure_zero runs = Ok m) in Hm.
    apply sum_runs_Ok in Hm as (Hp & -> & Hw); [|eapply Forall_impl; [done|]; by intros r []|done].
    rewrite measure_plus_zero in *. cbn in *.
    assert (runs <> []) by (intros ->; cbn in *; destruct root; [case_match|]; lia).
    split; cbn; try done.
    + unfold descriptor_valid. cbn. rewrite Hh in *. apply andb_true_iff. split; [done|].
      rewrite runs_measure_nonzero by done. by apply measure_valid_units.
    + split_and!; try done; by apply units_typed.
    + intros ->. cbn in *. lia.
  - cbn in Hl. destruct (n_entries n) as [v|v]; [done|]. destruct Hl as (rss & Hf & ->).
    rewrite (proj2 (Z.ltb_lt _ _)) in Hm by lia.
    assert (Hf' : Forall2 (fun d runs => tree_facts h false d runs) v rss) by (eapply Forall2_impl; [done|]; intros; by apply IH).
    apply forest_facts in Hf' as (I1 & I2 & I3 & I4 & I5). apply sum_children_Ok in Hm as (_ & -> & Hw); [|done..].
    rewrite measure_plus_zero, I2 in *. cbn in Het.
    assert (Hne : (1 <= length v)%nat) by (cbn in *; destruct root; [case_match|]; lia).
    assert (concat rss <> []) by (intros E; rewrite E in I5; cbn [length] in I5; pose proof (Z.pow_pos_nonneg 8 (Z.of_nat (S h))); nia).
    split; cbn; try done.
    + unfold descriptor_valid. cbn. apply andb_true_iff. split; [done|].
      rewrite runs_measure_nonzero by done. by apply measure_valid_units.
    + split_and!; try done; by apply units_typed.
    + intros ->. cbn in *. rewrite (Nat2Z.inj_succ (S h)), Z.pow_succ_r by lia.
      pose proof (Z.pow_pos_nonneg 8 (Z.of_nat (S h))). nia.
Qed.

(** The measure of the entries of a node. *)
Lemma level_measure {R} T h e runs : level_runs T h e runs -> (h = 0%nat -> Forall positive runs) ->
  within_units (measure_of (expand runs)) ->
  Forall positive runs /\ entries_measure (R := R) e (Z.of_nat (S h)) = Ok (measure_of (expand runs))
  /\ Z.of_nat (entries_len e) * 8 ^ Z.of_nat h <= zlen runs.
Proof.
  intros Hl Hp Hw. destruct h as [|h], e as [v|v]; cbn -[Z.of_nat Z.pow] in *; try done.
  - subst v. specialize (Hp eq_refl). split_and!; [done| |by rewrite Z.mul_1_r].
    change (sum_runs (R := R) measure_zero runs = Ok (measure_of (expand runs))).
    apply sum_runs_Ok; [eapply Forall_impl; [done|]; unfold positive; lia|done|]. by rewrite measure_plus_zero.
  - destruct Hl as (rss & Hf & ->).
    assert (Hf' : Forall2 (fun d runs => tree_facts h false d runs) v rss) by (eapply Forall2_impl; [done|]; intros; by eapply map_tree_facts).
    apply forest_facts in Hf' as (I1 & I2 & I3 & I4 & I5). split_and!; [done| |done].
    rewrite (proj2 (Z.ltb_lt _ _)) by lia. apply sum_children_Ok; [done|done|]. rewrite measure_plus_zero, I2. split_and!; try done.
    eapply Forall_impl; [done|]. intros d [? ?]. split; [done|]. lia.
Qed.

Lemma map_root_facts T r runs : map_root T r runs ->
  root_valid r = true /\ Forall positive runs /\ root_measure r = measure_of (expand runs) /\ within_units (root_measure r).
Proof.
  destruct r as [|n|d]; cbn.
  - by intros ->.
  - intros [Hn ->]. rewrite (proj2 (Z.ltb_lt _ _)), (proj2 (Z.leb_le _ _)) by lia. split_and!; try done.
    + repeat constructor. unfold positive. cbn. lia.
    + unfold expand. cbn [fmap list_fmap concat]. rewrite app_nil_r, measure_of_run by (cbn; lia). done.
    + unfold within_units. cbn. lia.
  - intros [h Ht]. apply map_tree_facts in Ht as []. by split_and!.
Qed.

(** Each run has a unit, so a map has at most as many runs as units. *)
Lemma runs_bound v : Forall positive v -> zlen v <= m_source (measure_of (expand v)) + m_target (measure_of (expand v)).
Proof.
  induction 1 as [|r v Hr _ IH]; [done|]. rewrite expand_cons, measure_of_app. unfold positive in Hr.
  rewrite measure_of_run by lia. cbn [length measure_plus m_source m_target]. destruct r; cbn in *; lia.
Qed.
End Denote.
