(* ===== verification/MappingEdit.v ===== *)
(** * The coordinate map of a draft build: the operations do what they say

    The operations of [MappingTree] refine the unit functions of [MappingProofs].  Every lemma
    says both what a returned value is and why the operation returns: [wp] fails only if the
    resources [P] it is given do not suffice. *)
From stdpp Require Import prelude gmap strings.
From S2P Require Import Prelude.
From S2P Require Import Bytes.
From S2P Require Import ModelDigest.
From S2P Require Import SyndicParts.
From S2P Require Import BuildBudget.
From S2P Require Import MappingModel.
From S2P Require Import MappingTree.
From S2P Require Import MappingProofs.
From S2P Require Import MappingDenote.

(** The most a read or an emission of a mapping record reserves: its key and its largest value. *)
Definition RECORD_COST : Z := 1449.

Section Edit.
Context {H : Type} `{Sha256Laws H} {R : Type}.
Context (store : list byte -> result (DraftPiecePrepareError R) (option Node)) (owner : list byte).

(** The records of the store are decoded from their encodings, and the owner is 48 bytes. *)
Record store_ok : Prop := mkStoreOk {
  so_owner : fixed 48 owner;
  so_typed : forall k n, store k = Ok (Some n) -> node_typed n;
  so_sound : forall k n, store k = Ok (Some n) -> node_sound n
}.

Definition stored : table := fun k n => store k = Ok (Some n).
Definition committed (ns : list Node) : table := fun k n => stored k n \/ (n ∈ ns /\ n_key n = k).

(** A context an operation may start from or leave behind. *)
Record context_ok (c : MappingContext) : Prop := mkContextOk {
  co_limits : within_limits (mc_budget c);
  co_cache : cache_ok (mc_budget c) store;
  co_fresh : Forall (fun n => store (n_key n) = Ok None) (mc_emitted c);
  co_loads : (mc_acquired c <= MAX_LOADS)%nat
}.

(** Room for [l] loads and [e] emissions, and no record of the store under an identity the next
    [e] ordinals can give. *)
Record able (l e : nat) (c : MappingContext) : Prop := mkAble {
  ab_loads : (mc_acquired c + l <= MAX_LOADS)%nat;
  ab_emits : (length (mc_emitted c) + e <= MAX_EMITTED)%nat;
  ab_ordinal : 0 < mc_ordinal c /\ mc_ordinal c + Z.of_nat e <= U64_MAX;
  ab_room : room RECORD_COST (mc_budget c) (l + 2 * e);
  ab_ids : forall o dg, mc_ordinal c <= o < mc_ordinal c + Z.of_nat e -> store (owner ++ record_id owner o dg) = Ok None
}.

Lemma room_le b s n n' : 0 <= b -> (n' <= n)%nat -> room b s n -> room b s n'.
Proof. unfold room. intros Hb Hn (? & ? & ?). split_and!; nia. Qed.

Lemma able_le l e l' e' c : (l' <= l)%nat -> (e' <= e)%nat -> able l e c -> able l' e' c.
Proof.
  intros Hl He [A1 A2 [A3 A4] A5 A6]. split; try done; try lia.
  - eapply room_le; [| |done]; [done|lia].
  - intros o dg Ho. apply A6. lia.
Qed.

(** ** Total correctness up to resources *)

Context (P : Prop).

Definition wp {A} (m : mapm R A) (c : MappingContext) (Q : A -> MappingContext -> Prop) : Prop :=
  match m c with Ok (a, c') => Q a c' | Err _ => ~ P end.

Lemma wp_ret {A} (a : A) c (Q : A -> MappingContext -> Prop) : Q a c -> wp (mret a) c Q.
Proof. done. Qed.
Lemma wp_bind {A B} (m : mapm R A) (k : A -> mapm R B) c Q : wp m c (fun a c' => wp (k a) c' Q) -> wp (m ≫= k) c Q.
Proof. unfold wp, mbind, mapm_bind. by destruct (m c) as [[a c']|]. Qed.
Lemma wp_mono {A} (m : mapm R A) c (Q Q' : A -> MappingContext -> Prop) : wp m c Q -> (forall a c', Q a c' -> Q' a c') -> wp m c Q'.
Proof. unfold wp. destruct (m c) as [[a c']|]; auto. Qed.
Lemma wp_lift {A} r (a : A) c (Q : A -> MappingContext -> Prop) : r = Ok a -> Q a c -> wp (lift_map r) c Q.
Proof. intros ->. done. Qed.

Record ready (l e : nat) (c : MappingContext) : Prop := mkReady {
  rd_ok : context_ok c;
  rd_able : P -> able l e c
}.

Definition grows (c c' : MappingContext) : Prop := forall n, n ∈ mc_emitted c -> n ∈ mc_emitted c'.

Lemma ready_le l e l' e' c : (l' <= l)%nat -> (e' <= e)%nat -> ready l e c -> ready l' e' c.
Proof. intros ? ? [? Ha]. split; [done|]. intros. eapply able_le; [done|done|auto]. Qed.

Lemma grows_trans c1 c2 c3 : grows c1 c2 -> grows c2 c3 -> grows c1 c3.
Proof. unfold grows. auto. Qed.
Lemma grows_table c c' k n : grows c c' -> committed (mc_emitted c) k n -> committed (mc_emitted c') k n.
Proof. unfold committed, grows. intros ? [?|[? ?]]; [by left|right; auto]. Qed.
Lemma stored_committed ns k n : stored k n -> committed ns k n.
Proof. by left. Qed.

Context (Hstore : store_ok).

Lemma stored_encodes k o : store k = Ok o -> exists e, stored_as (K := list byte) o e.
Proof.
  destruct o as [n|]; intros Ho; [|by exists None]. exists (Some (enc_node n)). split; [by eapply so_typed|].
  apply encode_node_Ok. split; [by eapply so_sound|done].
Qed.

Lemma wp_point key c l o : context_ok c -> fixed 64 key -> (P -> room RECORD_COST (mc_budget c) (S l)) -> (P -> store key = Ok o) ->
  wp (map_point store key) c (fun o' c' => store key = Ok o' /\ context_ok c' /\ mc_ordinal c' = mc_ordinal c
    /\ mc_emitted c' = mc_emitted c /\ mc_acquired c' = mc_acquired c /\ (P -> room RECORD_COST (mc_budget c') l)).
Proof.
  intros [Hw Hc Hf Hld] Hk Hr Ho. unfold wp, map_point.
  assert (Hprog : P -> exists s', acquired_point (mc_budget c) store key = Ok (o, s') /\ room RECORD_COST s' l).
  { intros HP. eapply (point_progress (K := list byte) (V := Node)); try done; auto; [by eapply stored_encodes; auto|].
    rewrite Hk. done. }
  destruct (acquired_point _ store key) as [[o' b]|] eqn:E.
  - pose proof (point_exact _ _ _ _ _ Hw Hc I E) as (Hs & Hw' & Hc'). cbn. split_and!; try done.
    intros HP. destruct (Hprog HP) as (s' & [= -> ->] & ?). done.
  - intros HP. by destruct (Hprog HP) as (? & ? & _).
Qed.

(** ** Loads *)

Lemma wp_load l e c root d n : ready (S l) e c -> node_at owner stored root d n -> descriptor_valid d = true -> fixed 16 (d_id d) ->
  wp (load store owner d root) c (fun n' c' => n' = n /\ ready l e c' /\ mc_emitted c' = mc_emitted c).
Proof.
  intros [Hc Ha] (Hs & Hk & Hty & Hso & Hsh & Hd) Hv Hid. unfold wp, load. rewrite Hv. cbn [negb orb].
  destruct (Nat.leb_spec MAX_LOADS (mc_acquired c)) as [Hle|Hlt].
  { intros HP. apply Ha in HP as [A1 _ _ _ _]. lia. }
  assert (Hpt := wp_point (owner ++ d_id d) c (l + 2 * e) (Some n) Hc). unfold wp in Hpt.
  destruct (map_point store (owner ++ d_id d) c) as [[o c']|].
  2: { apply Hpt; [unfold fixed in *; rewrite length_app, Hid, (so_owner Hstore); done| |done]. intros HP. by apply Ha in HP as []. }
  destruct Hpt as (Ho & Hc' & Eo & Ee & Eq & Hr);
    [unfold fixed in *; rewrite length_app, Hid, (so_owner Hstore); done|intros HP; by apply Ha in HP as []|done|].
  unfold stored in Hs. assert (o = Some n) as -> by congruence.
  rewrite bool_decide_true, Hsh by done. cbn [negb orb].
  rewrite (node_descriptor_any n d) by done. rewrite bool_decide_true by done.
  split_and!; [done| |done]. split; [destruct Hc'; split; cbn; try done; lia|].
  intros HP. destruct (Ha HP) as [A1 A2 A3 A4 A5]. split; cbn; rewrite ?Ee, ?Eo, ?Eq; try done; try lia. by apply Hr.
Qed.

(** ** Emissions *)

Lemma hash_length parts : length (lp_hash parts) = 32%nat.
Proof. unfold lp_hash. rewrite finalize_absorbed. apply sha256_length. Qed.

Lemma record_id_length o dg : fixed 16 (record_id owner o dg).
Proof. unfold fixed, record_id. rewrite length_take, hash_length. done. Qed.

(** Entries of level [h] with the size [shape] asks for. *)
Definition sized (h : nat) (root : bool) (e : Entries) : Prop :=
  ((if root then (if decide (h = 0) then 1 else 2) else 8) <= entries_len e <= 16)%nat.

Definition built (h : nat) (e : Entries) (o : Z) : Node :=
  let dg := node_digest owner (Z.of_nat (S h)) e in
  mkNode (owner ++ record_id owner o dg) (Z.of_nat (S h)) e dg.

Lemma level_typed T h e runs : level_runs owner T h e runs -> Forall positive runs -> within_units (measure_of (expand runs)) -> entries_typed e.
Proof.
  destruct h as [|h], e as [v|v]; cbn; try done.
  - intros -> Hp Hw. induction Hp as [|r v Hr Hv IH]; constructor.
    + rewrite expand_cons, measure_of_app in Hw. unfold positive in Hr. rewrite measure_of_run in Hw by lia.
      pose proof (measure_of_nonneg (expand v)) as [? ?]. unfold within_units, MAX_UNITS in Hw. unfold run_typed, is_u128.
      destruct r; cbn in *; lia.
    + apply IH. rewrite expand_cons in Hw. by apply within_units_app in Hw as [_ ?].
  - intros (rss & Hf & _) _ _. clear -Hf. induction Hf as [|d runs v rss Hd _ IH]; constructor; [|done].
    by apply map_tree_facts in Hd as [].
Qed.

Lemma built_node T h root e runs o : level_runs owner T h e runs -> (h = 0%nat -> Forall positive runs) ->
  within_units (measure_of (expand runs)) -> sized h root e -> (h <= 21)%nat ->
  node_typed (built h e o) /\ node_sound (built h e o) /\ shape root (built h e o) = true
  /\ (forall R', node_descriptor (R := R') (built h e o)
       = Ok (mkDescriptor (record_id owner o (n_digest (built h e o))) (n_digest (built h e o)) (Z.of_nat (S h)) (measure_of (expand runs))))
  /\ measure_valid true (measure_of (expand runs)) = true.
Proof.
  intros Hl Hp Hw Hs Hh. pose proof (so_owner Hstore) as Ho. unfold fixed in Ho.
  assert (Hne : runs <> []).
  { intros ->. destruct h as [|h], e as [v|v]; cbn in Hl; try done; [subst v; unfold sized in Hs; cbn in Hs; destruct root; [case_decide|]; lia|].
    destruct Hl as (rss & Hf & E). destruct Hf as [|d runs v rss Hd _]; [unfold sized in Hs; cbn in Hs; destruct root; [case_decide|]; lia|].
    apply map_tree_facts in Hd as [_ _ _ _ _ _ Hm]. specialize (Hm eq_refl). cbn [concat] in E. symmetry in E. apply app_eq_nil in E as [-> _].
    cbn [length] in Hm. pose proof (Z.pow_pos_nonneg 8 (Z.of_nat (S h))). lia. }
  pose proof (level_measure (R := unit) owner T h e runs Hl Hp Hw) as (Hpos & Hm & _).
  assert (Hmv : measure_valid true (measure_of (expand runs)) = true).
  { rewrite runs_measure_nonzero by done. by apply measure_valid_units. }
  assert (Hht : height_valid (Z.of_nat (S h)) = true) by (unfold height_valid; rewrite andb_true_iff, !Z.leb_le; lia).
  assert (Hsh : forall r, sized h r e -> shape r (built h e o) = true).
  { intros r Hr. unfold shape. cbn [built n_height n_entries]. rewrite Hht. cbn [andb]. unfold sized in Hr. rewrite andb_true_iff, !Nat.leb_le.
    split; [|lia]. destruct r; [|lia]. destruct (decide (h = 0%nat)) as [->|]; [exact (proj1 Hr)|]. rewrite (proj2 (Z.eqb_neq _ _)) by lia. lia. }
  split_and!; [| |by apply Hsh| |done].
  - split_and!; cbn; [unfold fixed; by rewrite length_app, record_id_length, Ho|unfold is_u8; lia|by eapply level_typed|apply hash_length].
  - split_and!; cbn -[node_digest].
    + apply Hsh. unfold sized in *. destruct root; [done|]. case_decide; lia.
    + by exists (measure_of (expand runs)).
    + rewrite take_app_length' by done. done.
  - intros R'. unfold node_descriptor, built. cbn [n_entries n_height n_key n_digest].
    pose proof (level_measure (R := R') owner T h e runs Hl Hp Hw) as (_ & -> & _). cbn [mbind result_bind].
    by rewrite drop_app_length' by done.
Qed.

Lemma able_room l k c : able l (S k) c -> room RECORD_COST (mc_budget c) (S (S (l + 2 * k))).
Proof. intros [_ _ _ A _]. by replace (S (S (l + 2 * k))) with (l + 2 * S k)%nat by lia. Qed.
Lemma able_id l k c h e : able l (S k) c -> store (n_key (built h e (mc_ordinal c))) = Ok None.
Proof. intros [_ _ _ _ A]. apply A. lia. Qed.

Lemma wp_emit l k c root h e runs : ready l (S k) c -> level_runs owner (committed (mc_emitted c)) h e runs ->
  (h = 0%nat -> Forall positive runs) -> within_units (measure_of (expand runs)) -> sized h root e -> (h <= 21)%nat ->
  wp (emit store owner (Z.of_nat (S h)) e root) c (fun d c' =>
    map_tree owner (committed (mc_emitted c')) h root d runs /\ ready l k c' /\ grows c c').
Proof.
  intros [Hc Ha] Hl Hp Hw Hs Hh.
  destruct (built_node _ h root e runs (mc_ordinal c) Hl Hp Hw Hs Hh) as (Hty & Hso & Hsh & Hd & Hmv). unfold wp, emit.
  destruct (Nat.leb_spec MAX_EMITTED (length (mc_emitted c))) as [Hle|Hlt]; cbn [orb].
  { intros HP. apply Ha in HP as [_ A2 _ _ _]. lia. }
  destruct (Z.eqb_spec (mc_ordinal c) 0) as [E0|E0]. { intros HP. apply Ha in HP as [_ _ A3 _ _]. lia. }
  destruct (checked_add64 (mc_ordinal c) 1) as [next|] eqn:En.
  2: { intros HP. apply checked_add64_None in En. apply Ha in HP as [_ _ A3 _ _]. lia. }
  apply checked_add64_Some in En as [-> _]. cbv zeta.
  change (mkNode _ _ _ _) with (built h e (mc_ordinal c)).
  change (owner ++ record_id _ _ _) with (n_key (built h e (mc_ordinal c))).
  set (n := built h e (mc_ordinal c)) in *. rewrite Hsh, Hd. cbn [negb mbind result_bind].
  assert (Hdv : descriptor_valid (mkDescriptor (record_id owner (mc_ordinal c) (n_digest n)) (n_digest n) (Z.of_nat (S h)) (measure_of (expand runs))) = true).
  { unfold descriptor_valid. cbn [d_height d_measure]. rewrite Hmv. unfold height_valid. rewrite !andb_true_iff, !Z.leb_le. lia. }
  rewrite Hdv. cbn [negb]. rewrite (proj2 (encode_node_Ok n (enc_node n)) (conj Hso eq_refl)). cbn [or_invalid mbind result_bind].
  assert (Hk64 : fixed 64 (n_key n)) by (by destruct Hty).
  assert (Hpt := wp_point (n_key n) c (S (l + 2 * k)) None Hc Hk64). unfold wp in Hpt.
  assert (Hroom := fun HP => able_room l k c (Ha HP)). assert (Hid := fun HP => able_id l k c h e (Ha HP)). fold n in Hid.
  destruct (map_point store (n_key n) c) as [[o c']|]; cbn [mbind result_bind]; [|by apply Hpt].
  destruct Hpt as (Ho & Hc' & Eo & Ee & Eq & Hr); [done..|].
  case_bool_decide as Eoc; [intros HP; apply Hid in HP; destruct Eoc; congruence|].
  assert (o = None) as -> by (destruct o; [by destruct Eoc|done]).
  assert (Hem : P -> exists s', emission (R := R) (mc_budget c') (n_key n) n = Ok s' /\ room RECORD_COST s' (l + 2 * k)).
  { intros HP. eapply (emission_progress (K := list byte) (V := Node) RECORD_COST); [by destruct Hc'|exact Hty|by apply Hr|done|by apply encode_node_Ok|].
    rewrite Hk64. done. }
  destruct (emission (mc_budget c') (n_key n) n) as [b|] eqn:Eb; cbn [mbind result_bind].
  2: { intros HP. by destruct (Hem HP) as (? & ? & _). }
  pose proof (emission_keeps _ store _ _ _ (co_limits _ Hc') (co_cache _ Hc') Eb) as [Hw' Hca'].
  assert (Hg : grows c (push_emitted n b (mc_ordinal c + 1) c')).
  { intros m Hm. cbn. rewrite Ee. apply elem_of_app. by left. }
  split_and!; [| |done].
  - apply map_tree_eq. exists n. split_and!; [|done|].
    + split_and!; try done; cbn [d_id].
      * right. split; [|done]. cbn. apply elem_of_app. right. by apply list_elem_of_singleton.
    + eapply level_runs_mono; [|done]. intros k' n'. by apply grows_table.
  - split; [split; cbn; [done|done| |by destruct Hc']|].
    + apply Forall_app. split; [rewrite Ee; by destruct Hc|]. by constructor.
    + intros HP. destruct (Ha HP) as [A1 A2 A3 A4 A5]. split; cbn; rewrite ?length_app, ?Ee, ?Eo, ?Eq; cbn; try lia.
      * destruct (Hem HP) as (s' & [= <-] & ?). done.
      * intros o dg Ho'. apply A5. lia.
Qed.

(** ** Regions *)

Lemma split_level T h e runs k : level_runs owner T h e runs -> (k <= entries_len e)%nat ->
  exists ra rb, level_runs owner T h (split_off e k).1 ra /\ level_runs owner T h (split_off e k).2 rb
    /\ runs = ra ++ rb /\ entries_len (split_off e k).1 = k /\ entries_len (split_off e k).2 = (entries_len e - k)%nat.
Proof.
  destruct h as [|h], e as [v|v]; cbn; try done.
  - intros -> Hk. exists (take k v), (drop k v). rewrite take_drop, length_take, length_drop. split_and!; try done; lia.
  - intros (rss & Hf & ->) Hk. exists (concat (take k rss)), (concat (drop k rss)).
    rewrite <- concat_app, take_drop, length_take, length_drop. split_and!; try done; try lia.
    + exists (take k rss). split; [by apply Forall2_take|done].
    + exists (drop k rss). split; [by apply Forall2_drop|done].
Qed.

Lemma append_level T h a b ra rb : level_runs owner T h a ra -> level_runs owner T h b rb ->
  exists e, append_entries (R := R) a b = Ok e /\ level_runs owner T h e (ra ++ rb) /\ entries_len e = (entries_len a + entries_len b)%nat.
Proof.
  destruct h as [|h], a as [v|v], b as [w|w]; cbn; try done.
  - intros -> ->. exists (Runs (v ++ w)). cbn. by rewrite length_app.
  - intros (r1 & F1 & ->) (r2 & F2 & ->). exists (Children (v ++ w)). cbn. rewrite length_app. split_and!; try done.
    exists (r1 ++ r2). rewrite concat_app. split; [by apply Forall2_app|done].
Qed.

(** One record, or two of half the size. *)
Definition region (T : table) (h : nat) (root : bool) (ds : list Descriptor) (runs : list Run) : Prop :=
  (exists d, ds = [d] /\ map_tree owner T h root d runs)
  \/ (exists a b ra rb, ds = [a; b] /\ map_tree owner T h false a ra /\ map_tree owner T h false b rb /\ runs = ra ++ rb).

Lemma wp_emit_region l k c root h e runs : ready l (S (S k)) c -> level_runs owner (committed (mc_emitted c)) h e runs ->
  (h = 0%nat -> Forall positive runs) -> within_units (measure_of (expand runs)) ->
  ((entries_len e <= 16)%nat -> sized h root e) -> (entries_len e <= 32)%nat -> (h <= 21)%nat ->
  wp (emit_region store owner (Z.of_nat (S h)) e root) c (fun ds c' =>
    region (committed (mc_emitted c')) h root ds runs /\ (length ds = 2%nat -> (16 < entries_len e)%nat) /\ ready l k c' /\ grows c c').
Proof.
  intros Hr Hl Hp Hw Hs H32 Hh. unfold emit_region. destruct (Nat.leb_spec (entries_len e) 16) as [Hle|Hlt].
  - apply wp_bind. eapply wp_mono; [eapply (wp_emit l k); try done; [by eapply ready_le; [| |done]; lia|by apply Hs]|].
    intros d c' (Ht & Hr' & Hg). apply wp_ret. split_and!; [left; by exists d|by cbn|done|done].
  - rewrite (proj2 (Nat.ltb_ge _ _)) by lia. assert (Hhalf : (8 <= entries_len e / 2)%nat) by (apply Nat.div_le_lower_bound; lia).
    assert (Hhalf' : (entries_len e / 2 <= 16)%nat) by (apply Nat.Div0.div_le_upper_bound; lia).
    assert (Hother : (8 <= entries_len e - entries_len e / 2 <= 16)%nat).
    { pose proof (Nat.div_mod_eq (entries_len e) 2). pose proof (Nat.mod_upper_bound (entries_len e) 2). lia. }
    destruct (split_level _ h e runs (entries_len e / 2) Hl) as (ra & rb & La & Lb & -> & Na & Nb); [lia|].
    destruct (split_off e (entries_len e / 2)) as [ea eb]. cbn [fst snd] in *.
    rewrite expand_app in Hw. apply within_units_app in Hw as [Hwa Hwb].
    assert (Hpa : h = 0%nat -> Forall positive ra) by (intros E; apply Hp, Forall_app in E; tauto).
    assert (Hpb : h = 0%nat -> Forall positive rb) by (intros E; apply Hp, Forall_app in E; tauto).
    apply wp_bind. eapply wp_mono; [eapply (wp_emit l (S k)); try done; unfold sized; lia|].
    intros a c1 (Ta & Hr1 & Hg1). apply wp_bind.
    assert (Lb' : level_runs owner (committed (mc_emitted c1)) h eb rb) by (eapply level_runs_mono; [|done]; intros ? ?; by apply grows_table).
    eapply wp_mono; [eapply (wp_emit l k); try done; unfold sized; lia|].
    intros b c2 (Tb & Hr2 & Hg2). apply wp_ret. split_and!; [|by intros|done|by eapply grows_trans].
    right. exists a, b, ra, rb. split_and!; try done. eapply map_tree_mono; [|done]. intros ? ?. by apply grows_table.
Qed.

(** ** The path from the root to a leaf *)

Abbreviation forest h v rss := (Forall2 (map_tree owner stored h false) v rss).

(** [path frames h L R]: below the frames there is a hole of level [h], with the runs [L] to its
    left and [R] to its right. *)
Inductive path : list Frame -> nat -> list Run -> list Run -> Prop :=
  | path_top h : (h <= 21)%nat -> path [] h [] []
  | path_step l d r lss rss frames h L Rr :
      forest h l lss -> forest h r rss ->
      ((if decide (frames = []) then 2 else 8) <= length l + S (length r) <= 16)%nat ->
      path frames (S h) L Rr ->
      path (mkFrame (l ++ d :: r) (length l) (Z.of_nat (S (S h))) :: frames) h (L ++ concat lss) (concat rss ++ Rr).

Lemma path_level frames h L Rr : path frames h L Rr -> (h + length frames <= 21)%nat.
Proof. induction 1; cbn in *; lia. Qed.

(** What replaces the child of a frame, with what stays of its siblings. *)
Record widened (h : nat) (l r : list Descriptor) (d : Descriptor) (all : list Run) (begin count : nat)
    (T : table) (e : Entries) : Prop := mkWidened {
  wd_runs : exists l' r' lss rss v, take begin (l ++ d :: r) = l' /\ drop (begin + count) (l ++ d :: r) = r'
    /\ forest h l' lss /\ forest h r' rss /\ level_runs owner T h e v /\ all = concat lss ++ v ++ concat rss
    /\ (length l' + length r' <= length l + length r)%nat /\ (length l + length r <= S (length l' + length r'))%nat;
  wd_size : (8 <= entries_len e <= 32)%nat
}.

Lemma node_level T root h d runs : map_tree owner T h root d runs ->
  exists n, node_at owner T root d n /\ level_runs owner T h (n_entries n) runs /\ descriptor_valid d = true /\ fixed 16 (d_id d)
    /\ (entries_len (n_entries n) <= 16)%nat
    /\ ((if root then (if decide (h = 0) then 1 else 2) else 8) <= entries_len (n_entries n))%nat.
Proof.
  intros Ht. pose proof (map_tree_facts _ _ _ _ _ _ Ht) as [_ _ _ _ Hv (Hid & _) _]. rewrite map_tree_eq in Ht. destruct Ht as (n & Hn & Hh & Hl).
  exists n. pose proof Hn as (_ & _ & _ & _ & Hs & _). unfold shape in Hs. bool_facts. rewrite !Nat.leb_le in *. split_and!; try done.
  destruct root; [|done]. rewrite Hh in *. destruct h; [done|]. by rewrite (proj2 (Z.eqb_neq _ _)) in * by lia.
Qed.

Lemma wp_widen l k c h ld d rd lss rss e v hf :
  ready (S l) k c -> forest h ld lss -> forest h rd rss -> (2 <= length ld + S (length rd))%nat ->
  level_runs owner (committed (mc_emitted c)) h e v -> (entries_len e <= 18)%nat ->
  wp (widen store owner (mkFrame (ld ++ d :: rd) (length ld) hf) e) c (fun '(begin, count, e') c' =>
    widened h ld rd d (concat lss ++ v ++ concat rss) begin count (committed (mc_emitted c')) e'
    /\ ready l k c' /\ mc_emitted c' = mc_emitted c).
Proof.
  intros Hr Hl Hrd H2 He H18. unfold widen. cbn [f_index f_children].
  destruct (Nat.ltb_spec (entries_len e) 8) as [Hlt|Hge].
  2: { apply wp_ret. split_and!; [|by eapply ready_le; [| |done]; lia|done]. split; [|lia].
       exists ld, rd, lss, rss, v. rewrite take_app_length, drop_app_add. split_and!; try done; lia. }
  destruct (Nat.ltb_spec 0 (length ld)) as [Hpos|Hz].
  - destruct (exists_last (l := ld)) as (ld' & s & ->); [intros ->; cbn in Hpos; lia|]. apply Forall2_app_inv_l in Hl as (lss' & ls & Hl' & Hs & ->).
    apply Forall2_cons_inv_l in Hs as (rs & ? & Hs & Hn & ->). apply Forall2_nil_inv_l in Hn as ->.
    rewrite length_app. cbn [length]. rewrite Nat.add_1_r. cbn [Nat.sub]. rewrite Nat.sub_0_r.
    assert (((ld' ++ [s]) ++ d :: rd) !! length ld' = Some s) as -> by (rewrite <- app_assoc; cbn [app]; by apply list_lookup_middle).
    destruct (node_level _ _ _ _ _ Hs) as (n & Hn & Hnl & Hv & Hid & Hn16 & Hn8). apply wp_bind.
    eapply wp_mono; [eapply (wp_load l k); try done|]. intros n' c' (-> & Hr' & Ec). rewrite (proj2 (Nat.ltb_lt _ _)) by lia.
    destruct (append_level (committed (mc_emitted c')) h (n_entries n) e rs v) as (e' & E & El & En);
      [by eapply level_runs_mono; [|done]; apply stored_committed|by rewrite Ec|].
    apply wp_bind. eapply wp_lift; [done|]. apply wp_ret. split_and!; [|done|done]. split; [|lia].
    exists ld', rd, lss', rss, (rs ++ v). rewrite <- app_assoc. cbn [app].
    rewrite take_app_length. split_and!; try done; rewrite ?length_app; cbn; try lia.
    + by rewrite drop_app_add.
    + rewrite concat_app. cbn. by rewrite app_nil_r, <- !app_assoc.
  - destruct ld; [|cbn in Hz; lia]. apply Forall2_nil_inv_l in Hl as ->. destruct rd as [|s rd]; [cbn in H2; lia|].
    apply Forall2_cons_inv_l in Hrd as (rs & rss' & Hs & Hrd & ->). cbn [length app lookup list_lookup Nat.add].
    destruct (node_level _ _ _ _ _ Hs) as (n & Hn & Hnl & Hv & Hid & Hn16 & Hn8). apply wp_bind.
    eapply wp_mono; [eapply (wp_load l k); try done|]. intros n' c' (-> & Hr' & Ec). cbn [Nat.ltb Nat.leb].
    destruct (append_level (committed (mc_emitted c')) h e (n_entries n) v rs) as (e' & E & El & En);
      [by rewrite Ec|by eapply level_runs_mono; [|done]; apply stored_committed|].
    apply wp_bind. eapply wp_lift; [done|]. apply wp_ret. split_and!; [|done|done]. split; [|lia].
    exists [], rd, [], rss', (v ++ rs). cbn. split_and!; try done; try lia. by rewrite <- app_assoc.
Qed.

(** ** Rebuilding *)

Lemma region_forest T h ds runs : region T h false ds runs ->
  exists dss, Forall2 (map_tree owner T h false) ds dss /\ runs = concat dss /\ (1 <= length ds <= 2)%nat.
Proof.
  intros [(d & -> & Hd)|(a & b & ra & rb & -> & Ha & Hb & ->)].
  - exists [runs]. cbn. rewrite app_nil_r. split_and!; [by repeat constructor|done|lia..].
  - exists [ra; rb]. cbn. rewrite app_nil_r. split_and!; [by repeat constructor|done|lia..].
Qed.

(** The runs of a part of the map inherit its bounds. *)
Definition runs_ok (runs : list Run) : Prop := Forall positive runs /\ within_units (measure_of (expand runs)).

Lemma runs_ok_app a b : runs_ok (a ++ b) -> runs_ok a /\ runs_ok b.
Proof. intros [Hp Hw]. rewrite expand_app in Hw. apply within_units_app in Hw as [? ?]. apply Forall_app in Hp as [? ?]. done. Qed.

Lemma hole_assoc {A} (a b c d e : list A) : (a ++ b) ++ c ++ d ++ e = a ++ (b ++ c ++ d) ++ e.
Proof. by rewrite <- !app_assoc. Qed.

Lemma wp_normalize_frames frames h L Rr : path frames h L Rr -> forall l k c e v,
  ready (l + length frames) (k + 2 * length frames) c -> level_runs owner (committed (mc_emitted c)) h e v ->
  (entries_len e <= 18)%nat -> runs_ok (L ++ v ++ Rr) ->
  wp (normalize_frames store owner frames e (Z.of_nat (S h))) c (fun '(e', h') c' =>
    h' = Z.of_nat (S (h + length frames)) /\ level_runs owner (committed (mc_emitted c')) (h + length frames) e' (L ++ v ++ Rr)
    /\ (entries_len e' <= 18)%nat /\ (frames = [] -> e' = e) /\ (frames <> [] -> (1 <= entries_len e')%nat) /\ ready l k c' /\ grows c c').
Proof.
  induction 1 as [h Hh|ld d rd lss rss frames h L Rr Hl Hr Hn Hpath IH]; intros l k c e v Hrd He H18 Hok.
  - apply wp_ret. cbn [length app]. rewrite Nat.add_0_r, app_nil_r.
    split_and!; try done; [by replace l with (l + 0)%nat by lia; replace k with (k + 2 * 0)%nat by lia|by intros ?].
  - cbn [normalize_frames f_children f_height length]. pose proof (path_level _ _ _ _ Hpath) as Hlev. apply wp_bind.
    assert (H2 : (2 <= length ld + S (length rd))%nat) by (case_decide; lia).
    eapply wp_mono; [eapply (wp_widen (l + length frames) (2 + (k + 2 * length frames))); try done|].
    { by replace (S (l + length frames)) with (l + length (mkFrame (ld ++ d :: rd) (length ld) (Z.of_nat (S (S h))) :: frames))%nat by (cbn; lia);
      replace (2 + (k + 2 * length frames))%nat with (k + 2 * length (mkFrame (ld ++ d :: rd) (length ld) (Z.of_nat (S (S h))) :: frames))%nat by (cbn; lia). }
    intros [[begin count] e1] c1 [[(l1 & r1 & lss1 & rss1 & v1 & Et & Ed & Hl1 & Hr1 & He1 & Eall & Hle & Hge) Hsz] [Hr1' Ec1]].
    rewrite Et, Ed. rewrite hole_assoc, Eall in Hok. pose proof (runs_ok_app _ _ Hok) as [_ Hok1]. apply runs_ok_app in Hok1 as [Hok1 _].
    apply runs_ok_app in Hok1 as [_ Hok1]. apply runs_ok_app in Hok1 as [[Hp1 Hw1] _].
    apply wp_bind. eapply wp_mono; [eapply (wp_emit_region (l + length frames) (k + 2 * length frames)); try done; try lia|].
    { intros. unfold sized. lia. }
    intros ds c2 (Hreg & _ & Hr2 & Hg2). apply region_forest in Hreg as (dss & Hds & -> & Hdl).
    eapply wp_mono; [eapply (IH l k c2 (Children (l1 ++ ds ++ r1)) (concat lss1 ++ concat dss ++ concat rss1)); try done|].
    + exists (lss1 ++ dss ++ rss1). rewrite !concat_app. split; [|done].
      repeat apply Forall2_app; try done; (eapply Forall2_impl; [done|]); intros; (eapply map_tree_mono; [|done]); apply stored_committed.
    + cbn. rewrite !length_app. case_decide; lia.
    + intros [e' h'] c' (-> & Hl' & Hl18 & Heq & Hne & Hrd' & Hg). replace (h + S (length frames))%nat with (S h + length frames)%nat by lia.
      split_and!; try done.
      * by rewrite hole_assoc, Eall.
      * intros _. destruct (decide (frames = [])) as [->|Hf]; [|by apply Hne].
        rewrite Heq by done. cbn. rewrite !length_app. lia.
      * eapply grows_trans; [|done]. intros n Hin. apply Hg2. by rewrite Ec1.
Qed.

Lemma splits_below_top h e runs T : level_runs owner T h e runs -> runs_ok runs -> (16 < entries_len e)%nat -> (h <= 21)%nat -> (h < 21)%nat.
Proof.
  intros Hl [Hp Hw] Hlen Hh. destruct (level_measure (R := unit) owner T h e runs Hl (fun _ => Hp) Hw) as (_ & _ & Hb).
  pose proof (runs_bound runs Hp). unfold within_units, MAX_UNITS in Hw. destruct (decide (h = 21%nat)) as [->|]; [|lia].
  change (8 ^ Z.of_nat 21) with 9223372036854775808 in Hb. lia.
Qed.

(** The last step of [normalize]: a root record, or a new level above two halves. *)
Lemma wp_top l k c h e runs : ready l (3 + k) c -> level_runs owner (committed (mc_emitted c)) h e runs -> runs_ok runs ->
  sized h true e \/ (16 < entries_len e <= 18)%nat -> (h <= 21)%nat ->
  wp (roots ← emit_region store owner (Z.of_nat (S h)) e true;
      match roots with
      | [d] => mret (MapStored d)
      | _ => next ← lift_map (if Z.of_nat (S h) + 1 <=? U8_MAX then Ok (Z.of_nat (S h) + 1) else invalid_map);
             d ← emit store owner next (Children roots) true; mret (MapStored d)
      end) c (fun r c' => map_root owner (committed (mc_emitted c')) r runs /\ ready l k c' /\ grows c c').
Proof.
  intros Hr Hl Hok Hs Hh. pose proof Hok as [Hp Hw].
  apply wp_bind. eapply wp_mono; [eapply (wp_emit_region l (S k)); try done|].
  { intros. destruct Hs; [done|lia]. }
  { unfold sized in Hs. lia. }
  intros ds c2 (Hreg & H2 & Hr2 & Hg2). destruct Hreg as [(d & -> & Hd)|(a & b & ra & rb & -> & Ha & Hb & E)].
  - apply wp_ret. split_and!; [by exists h|by eapply ready_le; [| |done]; lia|done].
  - pose proof (splits_below_top _ _ _ _ Hl Hok (H2 eq_refl) Hh) as H21.
    apply wp_bind. eapply wp_lift; [by rewrite (proj2 (Z.leb_le _ _)) by lia|]. apply wp_bind.
    replace (Z.of_nat (S h) + 1) with (Z.of_nat (S (S h))) by lia.
    eapply wp_mono; [eapply (wp_emit l k c2 true (S h) _ runs); try done|].
    + exists [ra; rb]. cbn. rewrite app_nil_r. split; [by repeat constructor|done].
    + unfold sized. case_decide; cbn; lia.
    + intros d c3 (Hd & Hr3 & Hg3). apply wp_ret. split_and!; [by exists (S h)|done|by eapply grows_trans].
Qed.

Lemma wp_normalize frames L Rr l k c v : path frames 0 L Rr ->
  ready (l + length frames) (3 + k + 2 * length frames) c -> (length v <= 18)%nat -> runs_ok (L ++ v ++ Rr) ->
  wp (normalize store owner frames (Runs v)) c (fun r c' =>
    map_root owner (committed (mc_emitted c')) r (L ++ v ++ Rr) /\ ready l k c' /\ grows c c').
Proof.
  intros Hpath Hr H18 Hok. unfold normalize. apply wp_bind. pose proof (path_level _ _ _ _ Hpath) as Hlev.
  eapply wp_mono; [eapply (wp_normalize_frames frames 0 L Rr Hpath l (3 + k) c (Runs v) v); try done|].
  intros [e' h'] c1 (-> & Hl & Hl18 & Hnil & Hne & Hr1 & Hg1). cbn [Nat.add] in *.
  assert (Htop := fun Hs => wp_top l k c1 (length frames) e' _ Hr1 Hl Hok Hs ltac:(lia)).
  assert (Hgrow : forall m, wp m c1 (fun r c' => map_root owner (committed (mc_emitted c')) r (L ++ v ++ Rr) /\ ready l k c' /\ grows c1 c') ->
    wp m c1 (fun r c' => map_root owner (committed (mc_emitted c')) r (L ++ v ++ Rr) /\ ready l k c' /\ grows c c')).
  { intros m Hm. eapply wp_mono; [exact Hm|]. intros r c' (? & ? & ?). split_and!; try done. by eapply grows_trans. }
  destruct (entries_len e') as [|len] eqn:E0.
  - apply wp_ret. split_and!; [|by eapply ready_le; [| |done]; lia|done]. destruct (decide (frames = [])) as [->|Hf].
    + rewrite (Hnil eq_refl) in *. inversion Hpath; subst. cbn in *. destruct v; done.
    + specialize (Hne Hf). lia.
  - destruct (length frames) as [|h]; destruct e' as [w|[|d [|d' w]]]; cbn in Hl; try done.
    + apply Hgrow, Htop. unfold sized. case_decide; cbn in *; lia.
    + apply wp_ret. split_and!; [|by eapply ready_le; [| |done]; lia|done].
      destruct Hl as (rss & Hf & ->). apply Forall2_cons_inv_l in Hf as (rs & ? & Hd & Hn & ->). apply Forall2_nil_inv_l in Hn as ->.
      cbn. rewrite app_nil_r. exists h. by apply map_tree_weaken.
    + apply Hgrow, Htop. unfold sized. case_decide; cbn in *; lia.
Qed.

(** ** Descending *)

Abbreviation sources_of v := (sources (expand v)).
Abbreviation targets_of v := (targets (expand v)).

(** The position lies in [runs], after [L]: an insertion goes to the first place with that many
    target units before it, a deletion looks for the unit itself. *)
Definition aimed (insertion : bool) (target : Z) (L runs : list Run) : Prop :=
  if insertion then (L = [] \/ targets_of L < target) /\ target <= targets_of L + targets_of runs
  else targets_of L <= target < targets_of L + targets_of runs.

Lemma targets_app a b : targets_of (a ++ b) = targets_of a + targets_of b.
Proof. by rewrite expand_app, units_app. Qed.

Lemma choose_child_spec insertion target h v rss : forest h v rss -> forall L i, rss <> [] -> aimed insertion target L (concat rss) ->
  targets_of L + targets_of (concat rss) <= U128_MAX ->
  exists l d r lss rd rs, v = l ++ d :: r /\ rss = lss ++ rd :: rs
    /\ choose_child (R := R) insertion target (targets_of L) i v = Ok (Some ((i + length l)%nat, d), targets_of (L ++ concat lss))
    /\ aimed insertion target (L ++ concat lss) rd /\ forest h l lss /\ map_tree owner stored h false d rd /\ forest h r rs.
Proof.
  induction 1 as [|d rd v rss Hd Hf IH]; intros L i Hne Ha Hb; [done|]. cbn [concat] in *. rewrite targets_app in Hb.
  pose proof (map_tree_facts _ _ _ _ _ _ Hd) as [_ _ Hm _ _ _ _]. pose proof (units_nonneg in_target (expand rd)).
  pose proof (units_nonneg in_target (expand (concat rss))). cbn [choose_child].
  assert (m_target (d_measure d) = targets_of rd) as -> by (by rewrite Hm). rewrite add128_ok by lia. cbn [ok_or mbind result_bind].
  destruct ((insertion && (target <=? targets_of L + targets_of rd)) || (negb insertion && (target <? targets_of L + targets_of rd))) eqn:E.
  - exists [], d, v, [], rd, rss. cbn. rewrite app_nil_r, Nat.add_0_r. split_and!; try done.
    unfold aimed in *. destruct insertion; cbn in E; rewrite ?orb_false_r in E; bool_facts; [split; [tauto|]|]; lia.
  - assert (Ha' : aimed insertion target (L ++ rd) (concat rss)).
    { unfold aimed in *. rewrite targets_app in *. destruct insertion; cbn in E; rewrite ?orb_false_r in E; bool_facts; [split; [right|]|]; lia. }
    assert (rss <> []).
    { intros ->. unfold aimed in *. rewrite !targets_app in *. cbn in Ha, Ha'. destruct insertion; cbn in E; rewrite ?orb_false_r in E; bool_facts; lia. }
    rewrite <- targets_app. destruct (IH (L ++ rd) (S i)) as (l & d' & r & lss & rd' & rs & -> & -> & Ec & Ha2 & F1 & F2 & F3); [done|done|rewrite targets_app; lia|].
    exists (d :: l), d', r, (rd :: lss), rd', rs. cbn [concat]. rewrite <- app_assoc in *. split_and!; try done; [|by constructor].
    rewrite Ec. cbn. do 4 f_equal. lia.
Qed.

Lemma wp_descend_from insertion target h : forall fuel root d runs L Rr frames l k c,
  (h < fuel)%nat -> map_tree owner stored h root d runs -> path frames h L Rr -> root = bool_decide (frames = []) ->
  aimed insertion target L runs -> targets_of L + targets_of runs <= U128_MAX -> ready (S h + l) k c ->
  wp (descend_from store owner fuel target insertion root d (targets_of L) frames) c (fun '(frames', v, start) c' =>
    exists L' R', path frames' 0 L' R' /\ start = targets_of L' /\ L' ++ v ++ R' = L ++ runs ++ Rr /\ (1 <= length v <= 16)%nat
      /\ aimed insertion target L' v /\ length frames' = (length frames + h)%nat /\ ready l k c' /\ mc_emitted c' = mc_emitted c).
Proof.
  induction h as [|h IH]; intros fuel root d runs L Rr frames l k c Hfuel Ht Hpath Hroot Ha Hb Hr;
    destruct fuel as [|fuel]; try lia; cbn [descend_from]; apply wp_bind;
    pose proof (map_tree_facts _ _ _ _ _ _ Ht) as [Hh _ _ _ _ _ _];
    destruct (node_level _ _ _ _ _ Ht) as (n & Hn & Hl & Hv & Hid & H16 & Hmin).
  - eapply wp_mono; [eapply (wp_load l k); try done|]. intros n' c' (-> & Hr' & Ec). cbn in Hl.
    destruct (n_entries n) as [v|v]; [|done]. subst v. apply wp_ret. exists L, Rr. cbn in *. split_and!; try done; try lia.
    destruct root; [case_decide|]; lia.
  - eapply wp_mono; [eapply (wp_load (S h + l) k); try done|]. intros n' c' (-> & Hr' & Ec). cbn in Hl.
    destruct (n_entries n) as [v|v]; [done|]. destruct Hl as (rss & Hf & ->). cbn in H16, Hmin.
    assert (Hne : rss <> []). { intros ->. apply Forall2_nil_inv_r in Hf as ->. cbn in Hmin. destruct root; [case_decide|]; lia. }
    destruct (choose_child_spec insertion target h v rss Hf L 0 Hne Ha Hb) as (ld & d' & rd & lss & rs & rss' & -> & -> & Ec' & Ha' & F1 & F2 & F3).
    apply wp_bind. eapply wp_lift; [done|]. cbn [Nat.add]. rewrite concat_app in Hb |- *. cbn [concat] in *. rewrite !targets_app in Hb.
    pose proof (units_nonneg in_target (expand (concat rss'))). rewrite Hh.
    eapply wp_mono; [eapply (IH fuel false d' rs (L ++ concat lss) (concat rss' ++ Rr)); try done; try lia|].
    + constructor; try done. rewrite length_app in *. cbn in *. rewrite Hroot in Hmin. repeat (case_bool_decide || case_decide); done || lia.
    + rewrite targets_app. lia.
    + intros [[frames' v'] start] c2 (L' & R' & P1 & P2 & P3 & P4 & P5 & P6 & P7 & P8). exists L', R'. split_and!; try done; try lia.
      * rewrite P3. by rewrite <- !app_assoc.
      * cbn in P6. lia.
      * congruence.
Qed.

Lemma wp_descend insertion target r runs k c : map_root owner stored r runs -> aimed insertion target [] runs -> ready MAX_LOADS k c ->
  wp (descend store owner r target insertion) c (fun '(frames, v, start) c' =>
    exists L Rr, path frames 0 L Rr /\ start = targets_of L /\ L ++ v ++ Rr = runs /\ (length v <= 16)%nat /\ (v = [] -> runs = [])
      /\ aimed insertion target L v /\ ready (length frames) k c' /\ mc_emitted c' = mc_emitted c).
Proof.
  intros Hm Ha Hr. pose proof (map_root_facts _ _ _ _ Hm) as (Hv & Hp & Em & Hw).
  assert (Hguard : negb (root_valid r) || (m_target (root_measure r) <? target) || (negb insertion && (target =? m_target (root_measure r))) = false).
  { rewrite Hv, Em. cbn. unfold aimed in Ha. cbn in Ha. destruct insertion; cbn.
    - rewrite orb_false_r. apply Z.ltb_ge. lia.
    - apply orb_false_iff. rewrite Z.ltb_ge, Z.eqb_neq. lia. }
  unfold descend. rewrite Hguard. destruct r as [|n|d]; cbn in Hm.
  - subst runs. apply wp_ret. exists [], []. split_and!; try done; [constructor; lia|cbn; lia|by eapply ready_le; [| |done]; cbn; lia].
  - destruct Hm as [_ ->]. apply wp_ret. exists [], []. split_and!; try done; [constructor; lia|cbn; lia|by eapply ready_le; [| |done]; cbn; lia].
  - destruct Hm as [h Ht]. pose proof (map_tree_facts _ _ _ _ _ _ Ht) as [Hh _ Hme Hu Hdv _ _].
    assert (Hh21 : (h <= 21)%nat). { unfold descriptor_valid, height_valid in Hdv. bool_facts. lia. }
    change 0 with (targets_of []) at 1.
    eapply wp_mono; [eapply (wp_descend_from insertion target h LOAD_FUEL true d runs [] [] [] h k c); try done; unfold LOAD_FUEL; try lia|].
    + by constructor.
    + rewrite Hme in Hu. apply units_small in Hu. cbn in *. lia.
    + by eapply ready_le; [| |done]; unfold MAX_LOADS; lia.
    + intros [[frames v] start] c' (L & Rr & P1 & P2 & P3 & P4 & P5 & P6 & P7 & P8). exists L, Rr. rewrite app_nil_r in P3. cbn in P3, P6.
      split_and!; try done; [lia|by intros ->; cbn in P4; lia|by rewrite P6].
Qed.

(** ** Insertion and deletion *)

Lemma measure_insert at_ len us : 0 <= at_ <= targets us -> 0 <= len ->
  measure_of (ref_insert at_ (Z.to_nat len) us) = mkMeasure (sources us) (targets us + len).
Proof. intros. unfold measure_of. rewrite !count_insert by done. cbn. f_equal; lia. Qed.

Lemma insert_leaf at_ len L v Rr : aimed true at_ L v -> 0 <= at_ -> 0 < len -> Forall positive v -> (length v <= 16)%nat ->
  (v = [] -> L = [] /\ Rr = []) ->
  exists out out' rem ins, insert_runs len (at_ - targets_of L) false v = (out, rem, ins)
    /\ out' = (if ins then out else out ++ [RunInserted len]) /\ (ins = false -> rem = 0)
    /\ expand (L ++ out' ++ Rr) = ref_insert at_ (Z.to_nat len) (expand (L ++ v ++ Rr))
    /\ Forall positive out' /\ (length out' <= 18)%nat.
Proof.
  intros [HL Ht] Hat0 Hlen Hp H16 Hnil. destruct (decide (v = [])) as [->|Hne].
  - destruct (Hnil eq_refl) as [-> ->]. cbn in *. exists [], [RunInserted len], (at_ - 0), false. split_and!; try done.
    + lia.
    + assert (at_ = 0) as -> by lia. unfold expand. cbn. by rewrite app_nil_r.
    + repeat constructor. unfold positive. cbn. lia.
    + cbn. lia.
  - assert (Hpos : 0 <= targets_of L) by apply units_nonneg.
    assert (Hge : 0 <= at_ - targets_of L) by (destruct HL as [->|?]; cbn in *; lia).
    destruct (insert_runs_spec len (at_ - targets_of L) v) as (out & rem & E & Ex & Hpo & Hlo); [done|lia|done|done|].
    exists out, out, rem, true. split_and!; try done; [|lia].
    rewrite !expand_app, Ex. destruct HL as [->|HL].
    + cbn. rewrite Z.sub_0_r, ref_insert_within; [done|]. cbn in Ht. lia.
    + rewrite ref_insert_past, ref_insert_within by lia. done.
Qed.

Lemma wp_insert r runs at_ len c : map_root owner stored r runs -> 0 <= at_ <= targets_of runs -> 0 < len -> targets_of runs + len <= MAX_UNITS ->
  ready MAX_LOADS MAX_EMITTED c ->
  wp (insert_map store owner r at_ len) c (fun r' c' => exists runs', map_root owner (committed (mc_emitted c')) r' runs'
    /\ expand runs' = ref_insert at_ (Z.to_nat len) (expand runs) /\ context_ok c' /\ grows c c').
Proof.
  intros Hm Hat Hlen Hmax Hr. pose proof (map_root_facts _ _ _ _ Hm) as (Hv & Hp & Em & Hw). unfold insert_map.
  rewrite Em. cbn [m_target m_source measure_of]. unfold MAX_UNITS in Hmax. rewrite add128_ok, (proj2 (Z.eqb_neq len 0)), (proj2 (Z.ltb_ge MAX_UNITS _)) by (unfold MAX_UNITS; lia).
  cbn [orb]. apply wp_bind.
  eapply wp_mono; [eapply (wp_descend true at_ r runs MAX_EMITTED c Hm); [|done]; cbn; split; [by left|lia]|].
  intros [[frames v] start] c1 (L & Rr & Hpath & -> & Eruns & H16 & Hnil & Ha & Hr1 & Ec1).
  assert (Hsub : targets_of L <= at_). { pose proof (units_nonneg in_target (expand L)). destruct Ha as [[->|?] _]; cbn in *; lia. }
  apply wp_bind. eapply wp_lift; [by rewrite sub128_ok|].
  assert (Hpv : Forall positive v) by (rewrite <- Eruns in Hp; rewrite !Forall_app in Hp; tauto).
  destruct (insert_leaf at_ len L v Rr Ha) as (out & out' & rem & ins & E & Eo & Hrem & Ex & Hpo & Hlo); [lia|done|done|done| |].
  { intros E. specialize (Hnil E). subst runs v. apply app_eq_nil in Hnil as [? Hn]. done. }
  rewrite E. apply wp_bind. rewrite Eruns in Ex.
  assert (Hout : (if ins then mret out else if negb (rem =? 0) then refuse_map else mret (out ++ [RunInserted len])) = (mret out' : mapm R (list Run))).
  { destruct ins; [by subst|]. rewrite (Hrem eq_refl). by subst. }
  rewrite Hout. apply wp_ret.
  assert (Hok : runs_ok (L ++ out' ++ Rr)).
  { split; [rewrite <- Eruns in Hp; rewrite !Forall_app in *; tauto|]. rewrite Ex, measure_insert by lia. rewrite Em in Hw.
    unfold within_units, MAX_UNITS in *. cbn in *. lia. }
  pose proof (path_level _ _ _ _ Hpath) as Hlev. apply wp_bind.
  eapply wp_mono; [eapply (wp_normalize frames L Rr 0 (42 - 2 * length frames) c1 out' Hpath); [|done|done]; eapply ready_le; [| |done]; unfold MAX_EMITTED; lia|].
  intros r' c2 (Hm' & Hr2 & Hg). pose proof (map_root_facts _ _ _ _ Hm') as (_ & _ & Em' & _).
  rewrite Em', Ex, measure_insert by lia. rewrite bool_decide_true by done. apply wp_ret. eexists. split_and!; [done|done|by destruct Hr2|].
  intros n Hn. apply Hg. by rewrite Ec1.
Qed.

Lemma measure_delete lo hi us : 0 <= lo -> lo <= hi -> hi <= targets us ->
  measure_of (ref_delete lo hi 0 us) = mkMeasure (sources us) (targets us - (hi - lo)).
Proof. intros. unfold measure_of. rewrite sources_delete, targets_delete by done. f_equal. lia. Qed.

(** What a deletion does to one leaf: nothing left of it, nothing right of it. *)
Lemma delete_part a end_ L v Rr : targets_of L <= end_ - 1 < targets_of L + targets_of v ->
  expand L ++ ref_delete a end_ (targets_of L) (expand v) ++ expand Rr
  = ref_delete (Z.max a (targets_of L)) end_ 0 (expand (L ++ v ++ Rr)).
Proof.
  intros Ha. pose proof (units_nonneg in_target (expand L)). rewrite !expand_app, !ref_delete_app. f_equal; [|f_equal].
  - symmetry. apply ref_delete_outside. lia.
  - rewrite Z.add_0_l. destruct (Z.le_gt_cases a (targets_of L)); apply ref_delete_lower; lia.
  - symmetry. apply ref_delete_outside. lia.
Qed.

Lemma wp_delete r runs a end_ c : map_root owner stored r runs -> 0 <= a < end_ -> end_ <= targets_of runs ->
  ready MAX_LOADS MAX_EMITTED c ->
  wp (delete_leaf store owner r a end_) c (fun '(r', next) c' => a <= next < end_ /\ exists runs', map_root owner (committed (mc_emitted c')) r' runs'
    /\ expand runs' = ref_delete next end_ 0 (expand runs) /\ context_ok c' /\ grows c c').
Proof.
  intros Hm Ha Hend Hr. pose proof (map_root_facts _ _ _ _ Hm) as (Hv & Hp & Em & Hw). unfold delete_leaf.
  rewrite Em. cbn [m_target m_source measure_of]. rewrite (proj2 (Z.leb_gt _ _)), (proj2 (Z.ltb_ge _ _)) by lia. cbn [orb]. apply wp_bind.
  eapply wp_mono; [eapply (wp_descend false (end_ - 1) r runs MAX_EMITTED c Hm); [|done]; cbn; lia|].
  intros [[frames v] start] c1 (L & Rr & Hpath & -> & Eruns & H16 & _ & Hin & Hr1 & Ec1). cbn in Hin.
  pose proof (units_nonneg in_target (expand L)) as HL. cbv zeta. rewrite (proj2 (Z.leb_gt end_ _)) by lia.
  assert (Hpv : Forall positive v) by (rewrite <- Eruns in Hp; rewrite !Forall_app in Hp; tauto).
  rewrite Em in Hw. pose proof Hw as [_ Ht]. cbn [measure_of m_target] in Ht.
  assert (Hsum : targets_of L + targets_of v <= U128_MAX).
  { rewrite <- Eruns, !targets_app in Ht. pose proof (units_nonneg in_target (expand Rr)). unfold MAX_UNITS in Ht. lia. }
  destruct (delete_runs_spec (R := R) a end_ (targets_of L) v Hpv HL Hsum) as (out & E & Ex & Hpo & Hlo).
  pose proof (b2u_bounds (targets_of L <? a)). pose proof (b2u_bounds (targets_of L <? end_)).
  apply wp_bind. eapply wp_lift; [done|]. rewrite (proj2 (Nat.ltb_ge _ _)) by lia.
  assert (Hout : expand (L ++ out ++ Rr) = ref_delete (Z.max a (targets_of L)) end_ 0 (expand runs)).
  { rewrite <- Eruns, <- delete_part, !expand_app, Ex by done. done. }
  assert (Hmo : measure_of (expand (L ++ out ++ Rr)) = mkMeasure (sources_of runs) (targets_of runs - (end_ - Z.max a (targets_of L))))
    by (rewrite Hout; apply measure_delete; lia).
  assert (Hok : runs_ok (L ++ out ++ Rr)).
  { split; [rewrite <- Eruns in Hp; rewrite !Forall_app in *; tauto|]. rewrite Hmo. unfold within_units, MAX_UNITS in *. cbn in *. lia. }
  pose proof (path_level _ _ _ _ Hpath) as Hlev. apply wp_bind.
  eapply wp_mono; [eapply (wp_normalize frames L Rr 0 (42 - 2 * length frames) c1 out Hpath); [|lia|done]; eapply ready_le; [| |done]; unfold MAX_EMITTED; lia|].
  intros r' c2 (Hm' & Hr2 & Hg). pose proof (map_root_facts _ _ _ _ Hm') as (_ & _ & Em' & _).
  rewrite Em', Hmo, bool_decide_true by done. apply wp_ret. split; [lia|]. eexists. split_and!; [done|done|by destruct Hr2|].
  intros n Hn. apply Hg. by rewrite Ec1.
Qed.

(** ** Source positions *)

Lemma cut_children_spec rc h v rss : forest h v rss -> forall x pos, 0 <= x -> 0 <= pos -> pos + targets_of (concat rss) <= U128_MAX ->
  exists next x' pos', cut_children (R := R) x pos v = Ok (next, x', pos') /\ 0 <= x' /\ 0 <= pos'
    /\ match next with
       | None => ref_cut rc x pos (expand (concat rss)) = if (x' =? 0) && negb rc then Some pos' else None
       | Some d => exists rd, map_tree owner stored h false d rd /\ pos' + targets_of rd <= U128_MAX
           /\ ref_cut rc x pos (expand (concat rss)) = ref_cut rc x' pos' (expand rd)
       end.
Proof.
  induction 1 as [|d rd v rss Hd Hf IH]; intros x pos Hx Hpos Hb; cbn [cut_children concat] in *.
  - by exists None, x, pos.
  - pose proof (map_tree_facts _ _ _ _ _ _ Hd) as [_ _ Hm _ _ _ _]. rewrite targets_app in Hb.
    pose proof (units_nonneg in_target (expand rd)). pose proof (units_nonneg in_target (expand (concat rss))).
    assert (d_measure d = mkMeasure (sources_of rd) (targets_of rd)) as -> by done. cbn [m_source m_target]. rewrite expand_app.
    destruct (Z.ltb_spec x (sources_of rd)).
    + exists (Some d), x, pos. split_and!; try done. exists rd. split_and!; [done|lia|]. by apply ref_cut_within.
    + rewrite add128_ok by lia. cbn [ok_or mbind result_bind]. rewrite ref_cut_past by done. apply IH; lia.
Qed.

Lemma wp_cut_from rc h : forall fuel root d runs x pos k c, (h < fuel)%nat -> map_tree owner stored h root d runs ->
  0 <= x -> 0 <= pos -> pos + targets_of runs <= U128_MAX -> ready (S h) k c -> (P -> is_Some (ref_cut rc x pos (expand runs))) ->
  wp (cut_from store owner fuel rc root d x pos) c (fun t c' =>
    ref_cut rc x pos (expand runs) = Some t /\ context_ok c' /\ mc_emitted c' = mc_emitted c).
Proof.
  induction h as [|h IH]; intros fuel root d runs x pos k c Hfuel Ht Hx Hpos Hb Hr Hsome;
    destruct fuel as [|fuel]; try lia; cbn [cut_from]; apply wp_bind;
    destruct (node_level _ _ _ _ _ Ht) as (n & Hn & Hl & Hv & Hid & _ & _);
    pose proof (map_tree_facts _ _ _ _ _ _ Ht) as [_ Hp _ _ _ _ _].
  - eapply wp_mono; [eapply (wp_load 0 k); try done|]. intros n' c' (-> & [Hc' _] & Ec). cbn in Hl.
    destruct (n_entries n) as [v|v]; [|done]. subst v. rewrite cut_runs_spec by done.
    destruct (ref_cut rc x pos (expand runs)) as [t|]; [by split_and!|]. intros HP. by destruct (Hsome HP).
  - eapply wp_mono; [eapply (wp_load (S h) k); try done|]. intros n' c' (-> & Hr' & Ec). cbn in Hl.
    destruct (n_entries n) as [v|v]; [done|]. destruct Hl as (rss & Hf & ->).
    destruct (cut_children_spec rc h v rss Hf x pos Hx Hpos Hb) as (next & x' & pos' & E & Hx' & Hpos' & Hnext).
    apply wp_bind. eapply wp_lift; [done|]. destruct next as [d'|].
    + destruct Hnext as (rd & Hd & Hb' & Eq). rewrite Eq in *. eapply wp_mono; [eapply (IH fuel false d' rd x' pos' k); try done; lia|].
      intros t c2 (? & ? & ?). split_and!; try done. congruence.
    + rewrite Hnext in *. destruct ((x' =? 0) && negb rc).
      * apply wp_ret. by destruct Hr'.
      * intros HP. by destruct (Hsome HP).
Qed.

Lemma wp_source_cut r runs x rc k c : map_root owner stored r runs -> 0 <= x -> ready MAX_LOADS k c -> (P -> is_Some (ref_cut rc x 0 (expand runs))) ->
  wp (source_cut store owner r x rc) c (fun t c' => ref_cut rc x 0 (expand runs) = Some t /\ context_ok c' /\ mc_emitted c' = mc_emitted c).
Proof.
  intros Hm Hx Hr Hsome. pose proof (map_root_facts _ _ _ _ Hm) as (Hv & Hp & Em & Hw). unfold source_cut. rewrite Hv, Em. cbn [negb orb m_source measure_of].
  destruct (Z.ltb_spec (sources_of runs) x) as [Hlt|Hge]; cbn [orb].
  { intros HP. destruct (Hsome HP) as [t Ht]. rewrite ref_cut_end, (proj2 (Z.eqb_neq _ _)) in Ht by lia. done. }
  destruct (rc && (x =? sources_of runs)) eqn:E.
  { bool_facts. subst rc. intros HP. destruct (Hsome HP) as [t Ht]. rewrite ref_cut_end, andb_false_r in Ht by lia. done. }
  destruct r as [|n|d]; cbn in Hm.
  - subst runs. cbn in *. assert (x = 0) as -> by lia. destruct rc; [done|]. by destruct Hr.
  - destruct Hm as [Hn ->]. unfold expand in *. cbn [fmap list_fmap concat expand_run] in *. rewrite ref_cut_copied in * by done. rewrite Z2Nat.id in * by lia.
    apply wp_ret. split_and!; [|by destruct Hr|done].
    rewrite app_nil_r, count_replicate in Hge, E. cbn [in_source b2u] in Hge, E. rewrite Z2Nat.id in Hge, E by lia.
    destruct (Z.ltb_spec x n); [f_equal; lia|]. assert (x = n) as -> by lia. rewrite Z.mul_1_l, Z.eqb_refl, andb_true_r in E. subst rc.
    cbn. rewrite Z.sub_diag. done.
  - destruct Hm as [h Ht]. pose proof (map_tree_facts _ _ _ _ _ _ Ht) as [Hh _ Hme Hu Hdv _ _].
    assert (Hh21 : (h <= 21)%nat). { unfold descriptor_valid, height_valid in Hdv. bool_facts. lia. }
    eapply (wp_cut_from rc h LOAD_FUEL true d runs x 0 k c); try done; unfold LOAD_FUEL; try lia.
    + rewrite Hme in Hu. apply units_small in Hu. cbn in *. lia.
    + by eapply ready_le; [| |done]; unfold MAX_LOADS; lia.
Qed.
End Edit.
