(* ===== verification/MappingProgram.v ===== *)
(** * The mapping program of a draft build

    [syndic-storage/src/draft_piece/builder_model/mapping_program.rs] (the state), its codec
    [draft_piece/codec/mapping.rs], and the steps of [draft_piece/persistent/mapping_program.rs]
    that edit the coordinate map.  A build advances one quantum at a time; its state and the
    stage it has reached are stored between quanta. *)
From stdpp Require Import prelude gmap strings.
From S2P Require Import Prelude.
From S2P Require Import Bytes.
From S2P Require Import ModelDigest.
From S2P Require Import SyndicParts.
From S2P Require Import BuildBudget.
From S2P Require Import MappingModel.
From S2P Require Import MappingTree.

(** ** State *)

Record DraftPieceBuildBoundary := mkBoundary { bd_rank : Z; bd_inner : Z }.
Record DraftPieceMappingSourceFact := mkFact { sf_boundary : DraftPieceBuildBoundary; sf_unit : Z }.

Inductive DraftPieceMarkerProofComponent := Primary | Secondary.
Record DraftPieceMappingProofComponent := mkProofComponent {
  pc_component : DraftPieceMarkerProofComponent; primary_marker_rank : option Z }.

Inductive DraftPieceMappingSpliceKind := TextDelete | TextInsert | MarkerDelete | MarkerInsert.

Record DraftPieceMappingSplice := mkSplice {
  ms_kind : DraftPieceMappingSpliceKind;
  ms_a : Z;
  ms_removed : Z;
  ms_inserted : Z;
  ms_leaf : option (list byte * list byte);
  ms_rank : Z;
  ms_local_start : Z;
  ms_local_end : Z
}.

Record DraftPieceMappingReadySplice := mkReadySplice {
  rs_kind : DraftPieceMappingSpliceKind;
  rs_a : Z;
  rs_removed : Z;
  rs_inserted : Z;
  rs_target : MapRoot
}.

Module Stage.
Inductive t :=
  | Idle
  | TextSourceStart (proof : DraftPieceMappingProofComponent)
  | TextSourceEnd (start : DraftPieceMappingSourceFact) (proof : DraftPieceMappingProofComponent)
  | TextPreviousStart (start end_ : DraftPieceMappingSourceFact) (proof : DraftPieceMappingProofComponent)
  | TextPreviousEnd (start end_ : DraftPieceMappingSourceFact) (previous_start : DraftPieceBuildBoundary)
      (proof : DraftPieceMappingProofComponent)
  | TextMapStart (start end_ : DraftPieceMappingSourceFact)
  | TextMapEnd (source_start source_end : DraftPieceBuildBoundary) (mapped_start : Z)
  | TextResolveStart (source_start source_end : DraftPieceBuildBoundary) (mapped_start mapped_end : Z)
  | TextResolveEnd (source_start source_end : DraftPieceBuildBoundary) (mapped_end : Z)
      (start_boundary : DraftPieceBuildBoundary) (start_marker_ordinal : Z)
  | MarkerSource (removal_source_unit : option Z)
  | MarkerMapRemoval (source_unit : Z)
  | MarkerResolveRemoval (mapped_unit : Z)
  | MarkerWorkingIdentity (mapped_unit : Z)
  | MarkerMapBoundary
  | MarkerResolveBoundary (mapped_unit : Z)
  | MarkerPlanningReady (boundary : DraftPieceBuildBoundary)
  | TextDeleteProof
  | TextInsertProof
  | DeleteMap (splice : DraftPieceMappingSplice) (target : MapRoot) (remaining_end : Z)
  | InsertMap (splice : DraftPieceMappingSplice)
  | MapComplete (splice : DraftPieceMappingSplice) (target : MapRoot)
  | Ready (ready : DraftPieceMappingReadySplice)
  | RefreshMap
  | RefreshSequence (mapped_unit : Z)
  | PublishReady (successor_boundary : DraftPieceBuildBoundary) (logical_offset : Z).
End Stage.

Record DraftPieceBuildMapping := mkBuildMapping {
  current_map : MapRoot;
  completed_source_unit : Z;
  fragment_source_end_unit : option Z;
  mapping_stage : Stage.t
}.

(** [DraftPieceBuildMappingV1::initial], of a summary's bytes and markers *)
Definition initial_mapping (logical_utf8_bytes marker_count : Z) : DraftPieceBuildMapping :=
  let units := logical_utf8_bytes + marker_count in
  mkBuildMapping (if units =? 0 then MapEmpty else MapIdentity units) 0 None Stage.Idle.

#[global] Instance boundary_eq_dec : EqDecision DraftPieceBuildBoundary.
Proof. solve_decision. Defined.
#[global] Instance splice_kind_eq_dec : EqDecision DraftPieceMappingSpliceKind.
Proof. solve_decision. Defined.
#[global] Instance splice_eq_dec : EqDecision DraftPieceMappingSplice.
Proof. solve_decision. Defined.
#[global] Instance component_eq_dec : EqDecision DraftPieceMarkerProofComponent.
Proof. solve_decision. Defined.

(** ** Codec *)

Definition enc_root (r : MapRoot) : list byte :=
  match r with
  | MapEmpty => variant 0 []
  | MapIdentity n => variant 1 (e_u128 n)
  | MapStored d => variant 2 (d_id d ++ d_digest d ++ e_u8 (d_height d)
                     ++ e_u128 (m_source (d_measure d)) ++ e_u128 (m_target (d_measure d)))
  end.
Definition dec_map_root : decoder MapRoot :=
  root ← (tag ← d_u8;
          match tag with
          | 0 => mret MapEmpty
          | 1 => MapIdentity <$> d_u128
          | 2 => MapStored <$> dec_stored
          | _ => refuse (InvalidTag "mapping root" tag)
          end);
  if root_valid root then mret root else refuse (InvalidLength "mapping root").

Definition enc_build_boundary (b : DraftPieceBuildBoundary) : list byte := e_u64 (bd_rank b) ++ e_u64 (bd_inner b).
Definition dec_build_boundary : decoder DraftPieceBuildBoundary :=
  rank ← d_u64; inner ← d_u64; mret (mkBoundary rank inner).

Definition enc_fact (f : DraftPieceMappingSourceFact) : list byte := enc_build_boundary (sf_boundary f) ++ e_u128 (sf_unit f).
Definition dec_fact : decoder DraftPieceMappingSourceFact :=
  boundary ← dec_build_boundary; unit ← d_u128; mret (mkFact boundary unit).

Definition component_tag (c : DraftPieceMarkerProofComponent) : Z := match c with Primary => 0 | Secondary => 1 end.
Definition component_of (t : Z) : option DraftPieceMarkerProofComponent :=
  match t with 0 => Some Primary | 1 => Some Secondary | _ => None end.
Definition enc_component : DraftPieceMarkerProofComponent -> list byte := enc_enum component_tag.
Definition dec_component : decoder DraftPieceMarkerProofComponent := dec_enum "mapping proof component" component_of.
Definition enc_proof (p : DraftPieceMappingProofComponent) : list byte :=
  enc_component (pc_component p) ++ enc_opt e_u64 (primary_marker_rank p).
Definition dec_proof : decoder DraftPieceMappingProofComponent :=
  component ← dec_component;
  rank ← dec_opt "mapping primary rank" d_u64;
  if Bool.eqb (bool_decide (is_Some rank)) (bool_decide (component = Secondary))
  then mret (mkProofComponent component rank)
  else refuse (InvalidLength "mapping proof scratch").

Definition splice_kind_tag (k : DraftPieceMappingSpliceKind) : Z :=
  match k with TextDelete => 0 | TextInsert => 1 | MarkerDelete => 2 | MarkerInsert => 3 end.
Definition splice_kind_of (t : Z) : option DraftPieceMappingSpliceKind :=
  match t with 0 => Some TextDelete | 1 => Some TextInsert | 2 => Some MarkerDelete | 3 => Some MarkerInsert | _ => None end.
Definition enc_kind : DraftPieceMappingSpliceKind -> list byte := enc_enum splice_kind_tag.
Definition dec_kind : decoder DraftPieceMappingSpliceKind := dec_enum "mapping splice kind" splice_kind_of.

Definition enc_leaf (l : list byte * list byte) : list byte := l.1 ++ l.2.
Definition dec_leaf : decoder (list byte * list byte) := id ← d_fixed16; digest ← d_fixed32; mret (id, digest).

Definition enc_splice (s : DraftPieceMappingSplice) : list byte :=
  enc_kind (ms_kind s) ++ e_u128 (ms_a s) ++ e_u128 (ms_removed s) ++ e_u128 (ms_inserted s)
  ++ enc_opt enc_leaf (ms_leaf s) ++ e_u64 (ms_rank s) ++ e_u64 (ms_local_start s) ++ e_u64 (ms_local_end s).
Definition dec_splice : decoder DraftPieceMappingSplice :=
  kind ← dec_kind; a ← d_u128; removed ← d_u128; inserted ← d_u128;
  leaf ← dec_opt "mapping splice leaf" dec_leaf;
  rank ← d_u64; local_start ← d_u64; local_end ← d_u64;
  mret (mkSplice kind a removed inserted leaf rank local_start local_end).

Definition enc_ready (r : DraftPieceMappingReadySplice) : list byte :=
  enc_kind (rs_kind r) ++ e_u128 (rs_a r) ++ e_u128 (rs_removed r) ++ e_u128 (rs_inserted r) ++ enc_root (rs_target r).
Definition dec_ready : decoder DraftPieceMappingReadySplice :=
  kind ← dec_kind; a ← d_u128; removed ← d_u128; inserted ← d_u128; target ← dec_map_root;
  mret (mkReadySplice kind a removed inserted target).

Definition enc_stage (s : Stage.t) : list byte :=
  match s with
  | Stage.Idle => variant 0 []
  | Stage.TextSourceStart proof => variant 1 (enc_proof proof)
  | Stage.TextSourceEnd start proof => variant 2 (enc_fact start ++ enc_proof proof)
  | Stage.TextPreviousStart start end_ proof => variant 3 (enc_fact start ++ enc_fact end_ ++ enc_proof proof)
  | Stage.TextPreviousEnd start end_ previous_start proof =>
      variant 4 (enc_fact start ++ enc_fact end_ ++ enc_build_boundary previous_start ++ enc_proof proof)
  | Stage.TextMapStart start end_ => variant 5 (enc_fact start ++ enc_fact end_)
  | Stage.TextMapEnd source_start source_end mapped_start =>
      variant 6 (enc_build_boundary source_start ++ enc_build_boundary source_end ++ e_u128 mapped_start)
  | Stage.TextResolveStart source_start source_end mapped_start mapped_end =>
      variant 7 (enc_build_boundary source_start ++ enc_build_boundary source_end ++ e_u128 mapped_start ++ e_u128 mapped_end)
  | Stage.TextResolveEnd source_start source_end mapped_end start_boundary start_marker_ordinal =>
      variant 8 (enc_build_boundary source_start ++ enc_build_boundary source_end ++ e_u128 mapped_end
                 ++ enc_build_boundary start_boundary ++ e_u64 start_marker_ordinal)
  | Stage.MarkerSource removal_source_unit => variant 9 (enc_opt e_u128 removal_source_unit)
  | Stage.MarkerMapRemoval source_unit => variant 10 (e_u128 source_unit)
  | Stage.MarkerResolveRemoval mapped_unit => variant 11 (e_u128 mapped_unit)
  | Stage.MarkerWorkingIdentity mapped_unit => variant 12 (e_u128 mapped_unit)
  | Stage.MarkerMapBoundary => variant 13 []
  | Stage.MarkerResolveBoundary mapped_unit => variant 14 (e_u128 mapped_unit)
  | Stage.MarkerPlanningReady boundary => variant 15 (enc_build_boundary boundary)
  | Stage.TextDeleteProof => variant 16 []
  | Stage.TextInsertProof => variant 17 []
  | Stage.DeleteMap splice target remaining_end => variant 18 (enc_splice splice ++ enc_root target ++ e_u128 remaining_end)
  | Stage.InsertMap splice => variant 19 (enc_splice splice)
  | Stage.MapComplete splice target => variant 20 (enc_splice splice ++ enc_root target)
  | Stage.Ready ready => variant 21 (enc_ready ready)
  | Stage.RefreshMap => variant 22 []
  | Stage.RefreshSequence mapped_unit => variant 23 (e_u128 mapped_unit)
  | Stage.PublishReady successor_boundary logical_offset => variant 24 (enc_build_boundary successor_boundary ++ e_u64 logical_offset)
  end.
Definition dec_stage : decoder Stage.t :=
  tag ← d_u8;
  match tag with
  | 0 => mret Stage.Idle
  | 1 => proof ← dec_proof; mret (Stage.TextSourceStart proof)
  | 2 => start ← dec_fact; proof ← dec_proof; mret (Stage.TextSourceEnd start proof)
  | 3 => start ← dec_fact; end_ ← dec_fact; proof ← dec_proof; mret (Stage.TextPreviousStart start end_ proof)
  | 4 => start ← dec_fact; end_ ← dec_fact; previous_start ← dec_build_boundary; proof ← dec_proof;
         mret (Stage.TextPreviousEnd start end_ previous_start proof)
  | 5 => start ← dec_fact; end_ ← dec_fact; mret (Stage.TextMapStart start end_)
  | 6 => source_start ← dec_build_boundary; source_end ← dec_build_boundary; mapped_start ← d_u128;
         mret (Stage.TextMapEnd source_start source_end mapped_start)
  | 7 => source_start ← dec_build_boundary; source_end ← dec_build_boundary; mapped_start ← d_u128; mapped_end ← d_u128;
         mret (Stage.TextResolveStart source_start source_end mapped_start mapped_end)
  | 8 => source_start ← dec_build_boundary; source_end ← dec_build_boundary; mapped_end ← d_u128;
         start_boundary ← dec_build_boundary; start_marker_ordinal ← d_u64;
         mret (Stage.TextResolveEnd source_start source_end mapped_end start_boundary start_marker_ordinal)
  | 9 => removal_source_unit ← dec_opt "mapping unit option" d_u128; mret (Stage.MarkerSource removal_source_unit)
  | 10 => source_unit ← d_u128; mret (Stage.MarkerMapRemoval source_unit)
  | 11 => mapped_unit ← d_u128; mret (Stage.MarkerResolveRemoval mapped_unit)
  | 12 => mapped_unit ← d_u128; mret (Stage.MarkerWorkingIdentity mapped_unit)
  | 13 => mret Stage.MarkerMapBoundary
  | 14 => mapped_unit ← d_u128; mret (Stage.MarkerResolveBoundary mapped_unit)
  | 15 => boundary ← dec_build_boundary; mret (Stage.MarkerPlanningReady boundary)
  | 16 => mret Stage.TextDeleteProof
  | 17 => mret Stage.TextInsertProof
  | 18 => splice ← dec_splice; target ← dec_map_root; remaining_end ← d_u128; mret (Stage.DeleteMap splice target remaining_end)
  | 19 => splice ← dec_splice; mret (Stage.InsertMap splice)
  | 20 => splice ← dec_splice; target ← dec_map_root; mret (Stage.MapComplete splice target)
  | 21 => ready ← dec_ready; mret (Stage.Ready ready)
  | 22 => mret Stage.RefreshMap
  | 23 => mapped_unit ← d_u128; mret (Stage.RefreshSequence mapped_unit)
  | 24 => successor_boundary ← dec_build_boundary; logical_offset ← d_u64; mret (Stage.PublishReady successor_boundary logical_offset)
  | _ => refuse (InvalidTag "mapping stage" tag)
  end.

Definition enc_build_mapping (m : DraftPieceBuildMapping) : list byte :=
  enc_root (current_map m) ++ e_u128 (completed_source_unit m) ++ enc_opt e_u128 (fragment_source_end_unit m)
  ++ enc_stage (mapping_stage m).
Definition dec_build_mapping : decoder DraftPieceBuildMapping :=
  current_map ← dec_map_root; completed ← d_u128; fragment_end ← dec_opt "mapping unit option" d_u128; stage ← dec_stage;
  mret (mkBuildMapping current_map completed fragment_end stage).
Definition enc_mapping (m : option DraftPieceBuildMapping) : list byte := enc_opt enc_build_mapping m.
Definition dec_mapping (sealed_import : bool) : decoder (option DraftPieceBuildMapping) :=
  mapping ← dec_opt "build mapping" dec_build_mapping;
  if bool_decide (mapping = None) && negb sealed_import then refuse (InvalidLength "edit mapping required")
  else mret mapping.

(** ** The build context

    The fields of [BuildContext] the mapping program uses. *)
Record BuildContext := mkBuild {
  bc_draft_id : list byte;
  bc_session_id : option (list byte);
  bc_operation_id : list byte;
  bc_ordinal : Z;
  bc_records_read : Z;
  bc_mapping : option DraftPieceBuildMapping;
  bc_mapping_records : list Node;
  bc_acquisition : option Acquired
}.

Definition with_mapping (c : BuildContext) (m : DraftPieceBuildMapping) : BuildContext :=
  mkBuild (bc_draft_id c) (bc_session_id c) (bc_operation_id c) (bc_ordinal c) (bc_records_read c) (Some m)
    (bc_mapping_records c) (bc_acquisition c).

Definition with_stage (m : DraftPieceBuildMapping) (stage : Stage.t) : DraftPieceBuildMapping :=
  mkBuildMapping (current_map m) (completed_source_unit m) (fragment_source_end_unit m) stage.

Section Program.
Context {H : Type} `{Sha256 H} {R : Type}.
Context (store : list byte -> result (DraftPiecePrepareError R) (option Node)).
(** [load_working_roots] and [sequence_units::at_unit]: a position of the sequence tree, as a
    boundary and a logical offset *)
Context (at_unit : BuildContext -> Z -> result (DraftPiecePrepareError R) (DraftPieceBuildBoundary * Z * BuildContext)).
Abbreviation program := (result (DraftPiecePrepareError R)).

Definition invalid_program {A} : program A := Err InvalidRoot.

Definition program_mapping (c : BuildContext) : program DraftPieceBuildMapping := ok_or InvalidRoot (bc_mapping c).

Definition set_stage (c : BuildContext) (stage : Stage.t) : program BuildContext :=
  m ← ok_or InvalidRoot (bc_mapping c);
  Ok (with_mapping c (with_stage m stage)).

Definition map_owner (c : BuildContext) (session_id : list byte) : list byte := bc_draft_id c ++ session_id ++ bc_operation_id c.

Definition map_operation {A} (c : BuildContext) (operation : list byte -> mapm R A) : program (A * BuildContext) :=
  acquisition ← ok_or InvalidRoot (bc_acquisition c);
  session_id ← ok_or InvalidRoot (bc_session_id c);
  '(result, map) ← operation (map_owner c session_id) (mkMapping acquisition (bc_ordinal c) [] 0);
  records_read ← ok_or InvalidRoot (checked_add64 (bc_records_read c) (Z.of_nat (mc_acquired map)));
  Ok (result, mkBuild (bc_draft_id c) (bc_session_id c) (bc_operation_id c) (mc_ordinal map) records_read (bc_mapping c)
                (bc_mapping_records c ++ mc_emitted map) (Some (mc_budget map))).

Definition program_source_cut (c : BuildContext) (unit : Z) (copy : bool) : program (Z * BuildContext) :=
  m ← program_mapping c;
  map_operation c (fun owner => source_cut store owner (current_map m) unit copy).

Definition begin_delete (c : BuildContext) (splice : DraftPieceMappingSplice) : program BuildContext :=
  m ← program_mapping c;
  remaining_end ← ok_or InvalidRoot (checked_add128 (ms_a splice) (ms_removed splice));
  set_stage c (Stage.DeleteMap splice (current_map m) remaining_end).

Definition consume_ready (c : BuildContext) (kind : DraftPieceMappingSpliceKind) : program BuildContext :=
  m ← program_mapping c;
  match mapping_stage m with
  | Stage.Ready ready =>
      if negb (bool_decide (rs_kind ready = kind)) then invalid_program
      else Ok (with_mapping c (mkBuildMapping (rs_target ready) (completed_source_unit m) (fragment_source_end_unit m) Stage.Idle))
  | _ => invalid_program
  end.

Definition verify_splice (c : BuildContext) (kind : DraftPieceMappingSpliceKind) (a removed inserted : Z) : program unit :=
  match bc_mapping c with
  | None => Ok tt
  | Some m =>
      match mapping_stage m with
      | Stage.Ready ready =>
          if negb (bool_decide (rs_kind ready = kind)) || negb (rs_a ready =? a)
             || negb (rs_removed ready =? removed) || negb (rs_inserted ready =? inserted)
          then invalid_program else Ok tt
      | _ => invalid_program
      end
  end.

(** The branches of [advance_map_step]. *)
Definition delete_map_step (c : BuildContext) (state : DraftPieceBuildMapping) (splice : DraftPieceMappingSplice)
    (target : MapRoot) (remaining_end : Z) : program (Stage.t * BuildContext) :=
  end_ ← ok_or InvalidRoot (checked_add128 (ms_a splice) (ms_removed splice));
  if (remaining_end <=? ms_a splice) || (end_ <? remaining_end)
     || negb (m_source (root_measure target) =? m_source (root_measure (current_map state)))
     || negb (bool_decide (checked_add128 (m_target (root_measure target)) (end_ - remaining_end)
                           = Some (m_target (root_measure (current_map state)))))
  then invalid_program
  else
    '((target, remaining_end), c) ← map_operation c (fun owner => delete_leaf store owner target (ms_a splice) remaining_end);
    Ok (if remaining_end =? ms_a splice then Stage.MapComplete splice target
        else Stage.DeleteMap splice target remaining_end, c).

Definition map_complete_step (state : DraftPieceBuildMapping) (splice : DraftPieceMappingSplice) (target : MapRoot) : program Stage.t :=
  let expected := n ← checked_sub128 (m_target (root_measure (current_map state))) (ms_removed splice);
                  checked_add128 n (ms_inserted splice) in
  if negb (m_source (root_measure target) =? m_source (root_measure (current_map state)))
     || negb (bool_decide (expected = Some (m_target (root_measure target))))
  then invalid_program
  else Ok (Stage.Ready (mkReadySplice (ms_kind splice) (ms_a splice) (ms_removed splice) (ms_inserted splice) target)).

Definition advance_map_step (c : BuildContext) : program (option Stage.t * BuildContext) :=
  state ← program_mapping c;
  match mapping_stage state with
  | Stage.DeleteMap splice target remaining_end =>
      '(next, c) ← delete_map_step c state splice target remaining_end; Ok (Some next, c)
  | Stage.InsertMap splice =>
      '(target, c) ← map_operation c (fun owner => insert_map store owner (current_map state) (ms_a splice) (ms_inserted splice));
      Ok (Some (Stage.MapComplete splice target), c)
  | Stage.MapComplete splice target => next ← map_complete_step state splice target; Ok (Some next, c)
  | Stage.RefreshMap =>
      unit ← ok_or InvalidRoot (fragment_source_end_unit state);
      '(mapped_unit, c) ← program_source_cut c unit false;
      Ok (Some (Stage.RefreshSequence mapped_unit), c)
  | Stage.RefreshSequence mapped_unit =>
      '(boundary, logical_offset, c) ← at_unit c mapped_unit;
      Ok (Some (Stage.PublishReady boundary logical_offset), c)
  | _ => Ok (None, c)
  end.

Definition publish_mapping (c : BuildContext) : program BuildContext :=
  m ← program_mapping c;
  match mapping_stage m with
  | Stage.PublishReady _ _ =>
      completed ← ok_or InvalidRoot (fragment_source_end_unit m);
      Ok (with_mapping c (mkBuildMapping (current_map m) completed None Stage.Idle))
  | _ => invalid_program
  end.
End Program.

(** ** Exactness of the codec *)

Definition boundary_typed (b : DraftPieceBuildBoundary) : Prop := is_u64 (bd_rank b) /\ is_u64 (bd_inner b).
Definition fact_typed (f : DraftPieceMappingSourceFact) : Prop := boundary_typed (sf_boundary f) /\ is_u128 (sf_unit f).
Definition proof_typed (p : DraftPieceMappingProofComponent) : Prop :=
  opt_valid is_u64 (primary_marker_rank p) /\ (is_Some (primary_marker_rank p) <-> pc_component p = Secondary).
Definition leaf_typed (l : list byte * list byte) : Prop := fixed 16 l.1 /\ fixed 32 l.2.
Definition splice_typed (s : DraftPieceMappingSplice) : Prop :=
  is_u128 (ms_a s) /\ is_u128 (ms_removed s) /\ is_u128 (ms_inserted s) /\ opt_valid leaf_typed (ms_leaf s)
  /\ is_u64 (ms_rank s) /\ is_u64 (ms_local_start s) /\ is_u64 (ms_local_end s).
Definition root_sound (r : MapRoot) : Prop := root_typed r /\ root_valid r = true.
Definition ready_typed (r : DraftPieceMappingReadySplice) : Prop :=
  is_u128 (rs_a r) /\ is_u128 (rs_removed r) /\ is_u128 (rs_inserted r) /\ root_sound (rs_target r).
Definition stage_typed (s : Stage.t) : Prop :=
  match s with
  | Stage.Idle | Stage.MarkerMapBoundary | Stage.TextDeleteProof | Stage.TextInsertProof | Stage.RefreshMap => True
  | Stage.TextSourceStart proof => proof_typed proof
  | Stage.TextSourceEnd start proof => fact_typed start /\ proof_typed proof
  | Stage.TextPreviousStart start end_ proof => fact_typed start /\ fact_typed end_ /\ proof_typed proof
  | Stage.TextPreviousEnd start end_ previous proof =>
      fact_typed start /\ fact_typed end_ /\ boundary_typed previous /\ proof_typed proof
  | Stage.TextMapStart start end_ => fact_typed start /\ fact_typed end_
  | Stage.TextMapEnd s e m => boundary_typed s /\ boundary_typed e /\ is_u128 m
  | Stage.TextResolveStart s e m m' => boundary_typed s /\ boundary_typed e /\ is_u128 m /\ is_u128 m'
  | Stage.TextResolveEnd s e m b o => boundary_typed s /\ boundary_typed e /\ is_u128 m /\ boundary_typed b /\ is_u64 o
  | Stage.MarkerSource u => opt_valid is_u128 u
  | Stage.MarkerMapRemoval u | Stage.MarkerResolveRemoval u | Stage.MarkerWorkingIdentity u
  | Stage.MarkerResolveBoundary u | Stage.RefreshSequence u => is_u128 u
  | Stage.MarkerPlanningReady b => boundary_typed b
  | Stage.DeleteMap splice target remaining => splice_typed splice /\ root_sound target /\ is_u128 remaining
  | Stage.InsertMap splice => splice_typed splice
  | Stage.MapComplete splice target => splice_typed splice /\ root_sound target
  | Stage.Ready ready => ready_typed ready
  | Stage.PublishReady b o => boundary_typed b /\ is_u64 o
  end.
Definition build_mapping_typed (m : DraftPieceBuildMapping) : Prop :=
  root_sound (current_map m) /\ is_u128 (completed_source_unit m) /\ opt_valid is_u128 (fragment_source_end_unit m)
  /\ stage_typed (mapping_stage m).

#[global] Instance map_root_exact : Exact root_sound enc_root dec_map_root.
Proof.
  assert (Exact root_typed enc_root
    (tag ← d_u8;
     match tag with
     | 0 => mret MapEmpty
     | 1 => MapIdentity <$> d_u128
     | 2 => MapStored <$> dec_stored
     | _ => refuse (InvalidTag "mapping root" tag)
     end)) as Hex by exact_variant.
  intros bs v rest. unfold dec_map_root. split.
  - intros Hd. apply bind_Ok in Hd as (r & mid & Hr & Hd). apply (exact (Exact := Hex)) in Hr as [Ht ->].
    destruct (root_valid r) eqn:E; [|done]. apply ret_Ok in Hd as [-> ->]. done.
  - intros [[Ht Hv] ->]. apply bind_Ok. exists v, rest. split; [by apply (exact (Exact := Hex))|]. by rewrite Hv.
Qed.

#[global] Instance boundary_exact : Exact boundary_typed enc_build_boundary dec_build_boundary.
Proof. unfold dec_build_boundary, enc_build_boundary. exact_record. Qed.
#[global] Instance fact_exact : Exact fact_typed enc_fact dec_fact.
Proof. unfold dec_fact, enc_fact. exact_record. Qed.
#[global] Instance component_exact : Exact any enc_component dec_component.
Proof. enum_tags. Qed.
#[global] Instance splice_kind_exact : Exact any enc_kind dec_kind.
Proof. enum_tags. Qed.
#[global] Instance leaf_exact : Exact leaf_typed enc_leaf dec_leaf.
Proof. unfold dec_leaf, enc_leaf. exact_record. Qed.
#[global] Instance splice_exact : Exact splice_typed enc_splice dec_splice.
Proof. unfold dec_splice, enc_splice. exact_record. Qed.
#[global] Instance ready_exact : Exact ready_typed enc_ready dec_ready.
Proof. unfold dec_ready, enc_ready. exact_record. Qed.
#[global] Instance proof_exact : Exact proof_typed enc_proof dec_proof.
Proof.
  intros bs v rest. unfold dec_proof, enc_proof, proof_typed. split.
  - intros Hd. part_inv Hd. part_inv Hd. case_match eqn:E; [|done]. apply ret_Ok in Hd as [-> ->]. cbn.
    apply Bool.eqb_prop in E. rewrite <- app_assoc. split_and!; try done.
    rewrite <- (bool_decide_spec (is_Some _)), E, bool_decide_spec. done.
  - intros [[Hr Hs] ->]. destruct v as [comp rank]. cbn in *. run_part. run_part.
    rewrite (bool_decide_ext _ _ Hs), Bool.eqb_reflx. done.
Qed.

(** A sum whose variants have several fields. *)
Ltac exact_fields :=
  let H := fresh "H" in
  intros bs v rest; split;
  [ intros H; part_inv H;
    match type of H with context [match ?t with _ => _ end] => tag_cases t end;
    parts_inv H; (split; [cbn [stage_typed]; split_and?; done|cbn; unfold variant; rewrite <- ?app_assoc; reflexivity])
  | intros [H ->]; destruct v; cbn [stage_typed] in H; destruct_and?; cbn [enc_stage]; unfold variant; run_part; cbn; repeat run_part; done ].

#[global] Instance stage_exact : Exact stage_typed enc_stage dec_stage.
Proof. unfold dec_stage. exact_fields. Qed.
#[global] Instance build_mapping_exact : Exact build_mapping_typed enc_build_mapping dec_build_mapping.
Proof. unfold dec_build_mapping, enc_build_mapping. exact_record. Qed.

Lemma mapping_state_exact sealed_import bs m : run_decoder (dec_mapping sealed_import) bs = Ok m <->
  (opt_valid build_mapping_typed m /\ (m = None -> sealed_import = true)) /\ bs = enc_mapping m.
Proof.
  apply (run_exact (fun m => opt_valid build_mapping_typed m /\ (m = None -> sealed_import = true))).
  clear. intros bs m rest. unfold dec_mapping, enc_mapping. split.
  - intros Hd. part_inv Hd. case_match eqn:E; [done|]. apply ret_Ok in Hd as [-> ->]. split; [split; [done|]|done].
    intros ->. rewrite bool_decide_true in E by done. by apply negb_false_iff.
  - intros [[Hm Hs] ->]. run_part. destruct m; [done|]. by rewrite (Hs eq_refl).
Qed.

(** What the build stores of its coordinate map decodes exactly from its encodings.  A byte
    string decodes to a node of the map, or to a map root, exactly when the value is well typed,
    the encoder accepts it (for a node: shape, measure and digest) and the string is its
    encoding, and no node is longer than the bound the store reserves for it.  The state of the
    mapping program decodes exactly when it is well typed, its map roots are valid, the second
    proof component carries the first one's rank, an edit has a state at all, and the bytes are
    its encoding. *)
Theorem mapping_codecs_exact {H} `{Sha256 H} :
  (forall bs n, decode_node bs = Ok n <-> node_typed n /\ encode_node n = Ok bs)
  /\ (forall bs r, decode_root bs = Ok r <-> root_typed r /\ encode_root r = Ok bs)
  /\ (forall n bs, ~ (node_typed n /\ encode_node n = Ok bs /\ MAX_MAPPING_BYTES < zlen bs))
  /\ (forall sealed_import bs m, run_decoder (dec_mapping sealed_import) bs = Ok m <->
        opt_valid build_mapping_typed m /\ ~ (m = None /\ sealed_import = false) /\ bs = enc_mapping m).
Proof.
  split_and!; [apply decode_node_Ok|apply decode_root_Ok| |].
  - intros n bs (Ht & He & Hl). pose proof (encode_node_bound n bs Ht He). lia.
  - intros sealed bs m. rewrite mapping_state_exact. destruct sealed, m; naive_solver.
Qed.
