(* ===== verification/MappingRefine.v ===== *)
(** * The coordinate map of a draft build: refinement and termination

    The theorems on the map and on the mapping program that edits it over several quanta. *)
From stdpp Require Import prelude gmap strings.
From S2P Require Import Prelude.
From S2P Require Import Bytes.
From S2P Require Import ModelDigest.
From S2P Require Import SyndicParts.
From S2P Require Import BuildBudget.
From S2P Require Import MappingModel.
From S2P Require Import MappingTree.
From S2P Require Import MappingProofs.
From S2P Require Import MappingDenote.
From S2P Require Import MappingEdit.
From S2P Require Import MappingProgram.

(** ** Units *)

Lemma ref_delete_compose lo mid hi pos us : lo <= mid <= hi ->
  ref_delete lo mid pos (ref_delete mid hi pos us) = ref_delete lo hi pos us.
Proof.
  intros Hm. revert pos. induction us as [|u us IH]; intros pos; [done|]. destruct (Z.le_gt_cases mid pos) as [Hge|Hlt].
  - rewrite (ref_delete_outside lo mid pos) by lia. apply ref_delete_lower. lia.
  - destruct u; cbn [ref_delete]; [|by cbn; rewrite IH|];
      rewrite (proj2 (andb_false_iff (mid <=? pos) (pos <? hi))) by (left; by apply Z.leb_gt); cbn [app ref_delete]; rewrite IH;
      destruct (Z.leb_spec lo pos), (Z.ltb_spec pos mid), (Z.ltb_spec pos hi); try lia; done.
Qed.

Section Refine.
Context {H : Type} `{Sha256Laws H} {R : Type}.
Abbreviation record_store := (list byte -> result (DraftPiecePrepareError R) (option Node)).
Implicit Types (store : record_store).

(** The store after the emitted records were put. *)
Definition commits store (ns : list Node) store' : Prop :=
  (forall k n, store k = Ok (Some n) -> store' k = Ok (Some n))
  /\ (forall n, n ∈ ns -> store' (n_key n) = Ok (Some n)).

Lemma commits_table store ns store' k n : commits store ns store' -> committed store ns k n -> stored store' k n.
Proof. intros [Hk Hn] [?|[Hin <-]]; unfold stored; auto. Qed.

Lemma map_root_mono owner (T T' : table) r runs : (forall k n, T k n -> T' k n) -> map_root owner T r runs -> map_root owner T' r runs.
Proof. intros HT. destruct r; cbn; [done..|]. intros [h Ht]. exists h. by eapply map_tree_mono. Qed.

(** A root has one meaning in a store. *)
Lemma map_tree_fun owner store h h' root root' d runs runs' : map_tree owner (stored store) h root d runs ->
  map_tree owner (stored store) h' root' d runs' -> runs = runs'.
Proof.
  intros Ht Ht'. assert (h' = h) as ->.
  { apply map_tree_facts in Ht as [Hh _ _ _ _ _ _], Ht' as [Hh' _ _ _ _ _ _]. lia. }
  revert root root' d runs runs' Ht Ht'. induction h as [|h IH]; intros root root' d runs runs'; rewrite !map_tree_eq;
    intros (n & (Hn & _) & _ & Hl) (n' & (Hn' & _) & _ & Hl'); unfold stored in *; assert (n' = n) as -> by congruence; cbn in *;
    destruct (n_entries n) as [v|v]; try done; [congruence|].
  destruct Hl as (rss & Hf & ->), Hl' as (rss' & Hf' & ->). f_equal. clear Hn Hn'. revert rss' Hf'.
  induction Hf as [|d' rs v rss Hd _ IHf]; intros rss' Hf'; [by apply Forall2_nil_inv_l in Hf'|].
  apply Forall2_cons_inv_l in Hf' as (rs' & rss2 & Hd' & Hf' & ->). f_equal; [by eapply IH|by apply IHf].
Qed.

Lemma map_root_fun owner store r runs runs' : map_root owner (stored store) r runs -> map_root owner (stored store) r runs' -> runs = runs'.
Proof. destruct r; cbn; [by intros -> ->|by intros [_ ->] [_ ->]|]. intros [h ?] [h' ?]. by eapply map_tree_fun. Qed.

(** A context for one operation, and the resources it may need. *)
Definition fresh_context store (c : MappingContext) : Prop := context_ok store c /\ mc_emitted c = [].
Abbreviation able_full store owner c := (able store owner MAX_LOADS MAX_EMITTED c).

(** The map an operation returns, in every store that keeps the old records and takes the new ones. *)
Definition returns_map store owner (r' : MapRoot) (c' : MappingContext) (us : list unit_kind) : Prop :=
  (forall n, n ∈ mc_emitted c' -> store (n_key n) = Ok None)
  /\ exists runs', expand runs' = us
       /\ forall store', commits store (mc_emitted c') store' -> map_root owner (stored store') r' runs'.

Lemma returns_committed store owner r' c' runs' us : context_ok store c' -> map_root owner (committed store (mc_emitted c')) r' runs' ->
  expand runs' = us -> returns_map store owner r' c' us.
Proof.
  intros [_ _ Hf _] Hm E. split; [by rewrite Forall_forall in Hf|]. exists runs'. split; [done|]. intros store' Hc.
  eapply map_root_mono; [|done]. intros k n. by apply commits_table.
Qed.

Definition insertion_valid (us : list unit_kind) (at_ len : Z) : Prop := at_ <= targets us /\ 0 < len /\ targets us + len <= MAX_UNITS.

Lemma insert_map_guard store owner r runs at_ len c : map_root owner (stored store) r runs -> 0 <= len ->
  ~ insertion_valid (expand runs) at_ len -> insert_map store owner r at_ len c = Err InvalidRoot.
Proof.
  intros Hm Hl Hn. apply map_root_facts in Hm as (Hv & _ & Em & _). unfold insert_map, insertion_valid in *. rewrite Em. cbn [m_target measure_of].
  destruct (Z.eqb_spec len 0) as [|]; [done|]. cbn [orb]. destruct (checked_add128 (targets (expand runs)) len) as [s|] eqn:E; [|done].
  apply checked_add128_Some in E as [-> _]. destruct (Z.ltb_spec MAX_UNITS (targets (expand runs) + len)); [done|].
  unfold mbind at 1, mapm_bind at 1, descend. rewrite Hv, Em. cbn [negb orb m_target measure_of]. by rewrite (proj2 (Z.ltb_lt _ _)) by lia.
Qed.

Definition deletion_valid (us : list unit_kind) (a end_ : Z) : Prop := a < end_ <= targets us.

Lemma delete_leaf_guard store owner r runs a end_ c : map_root owner (stored store) r runs ->
  ~ deletion_valid (expand runs) a end_ -> delete_leaf store owner r a end_ c = Err InvalidRoot.
Proof.
  intros Hm Hn. apply map_root_facts in Hm as (_ & _ & Em & _). unfold delete_leaf, deletion_valid in *. rewrite Em. cbn [m_target measure_of].
  destruct (Z.leb_spec end_ a); [done|]. by rewrite (proj2 (Z.ltb_lt _ _)) by lia.
Qed.

(** What a returned value is, whatever the resources were. *)
Lemma insert_map_Ok store owner r runs at_ len c : store_ok store owner -> fresh_context store c -> map_root owner (stored store) r runs ->
  0 <= at_ -> insertion_valid (expand runs) at_ len -> forall r' c', insert_map store owner r at_ len c = Ok (r', c') ->
  returns_map store owner r' c' (ref_insert at_ (Z.to_nat len) (expand runs)).
Proof.
  intros Hst [Hc He] Hm Hat (V1 & V2 & V3) r' c' E.
  pose proof (wp_insert store owner False Hst r runs at_ len c Hm (conj Hat V1) V2 V3 (mkReady _ _ _ _ _ _ Hc (False_ind _))) as Hwp.
  unfold wp in Hwp. rewrite E in Hwp. destruct Hwp as (runs' & Hm' & E' & Hc' & _). by eapply returns_committed.
Qed.

Lemma delete_leaf_Ok store owner r runs a end_ c : store_ok store owner -> fresh_context store c -> map_root owner (stored store) r runs ->
  0 <= a < end_ -> end_ <= targets (expand runs) -> forall r' next c', delete_leaf store owner r a end_ c = Ok (r', next, c') ->
  a <= next < end_ /\ returns_map store owner r' c' (ref_delete next end_ 0 (expand runs)).
Proof.
  intros Hst [Hc He] Hm Ha Hend r' next c' E.
  pose proof (wp_delete store owner False Hst r runs a end_ c Hm Ha Hend (mkReady _ _ _ _ _ _ Hc (False_ind _))) as Hwp.
  unfold wp in Hwp. rewrite E in Hwp. destruct Hwp as (Hr & runs' & Hm' & E' & Hc' & _). split; [done|]. by eapply returns_committed.
Qed.

(** With enough resources a value is returned. *)
Lemma insert_map_runs store owner r runs at_ len c : store_ok store owner -> fresh_context store c -> map_root owner (stored store) r runs ->
  0 <= at_ -> insertion_valid (expand runs) at_ len -> able_full store owner c -> exists r' c', insert_map store owner r at_ len c = Ok (r', c') /\ (mc_acquired c' <= MAX_LOADS)%nat.
Proof.
  intros Hst [Hc He] Hm Hat (V1 & V2 & V3) Hab.
  pose proof (wp_insert store owner True Hst r runs at_ len c Hm (conj Hat V1) V2 V3 (mkReady _ _ _ _ _ _ Hc (fun _ => Hab))) as Hwp.
  unfold wp in Hwp. destruct (insert_map _ _ _ _ _ _) as [[r' c']|]; [|by destruct Hwp].
  exists r', c'. split; [done|]. by destruct Hwp as (? & ? & ? & [] & ?).
Qed.

Lemma delete_leaf_runs store owner r runs a end_ c : store_ok store owner -> fresh_context store c -> map_root owner (stored store) r runs ->
  0 <= a < end_ -> end_ <= targets (expand runs) -> able_full store owner c -> exists r' next c',
    delete_leaf store owner r a end_ c = Ok (r', next, c') /\ (mc_acquired c' <= MAX_LOADS)%nat.
Proof.
  intros Hst [Hc He] Hm Ha Hend Hab.
  pose proof (wp_delete store owner True Hst r runs a end_ c Hm Ha Hend (mkReady _ _ _ _ _ _ Hc (fun _ => Hab))) as Hwp.
  unfold wp in Hwp. destruct (delete_leaf _ _ _ _ _ _) as [[[r' next] c']|]; [|by destruct Hwp].
  exists r', next, c'. split; [done|]. by destruct Hwp as (_ & ? & ? & ? & [] & ?).
Qed.
End Refine.

(** Inserting into the map does exactly what inserting units at a target position does, and is
    refused exactly when the position or the length is out of range or the resources of the step
    are short: the returned root denotes the new units in every store that keeps the records
    there were and takes the emitted ones, whose keys were all free. *)
Theorem insert_map_refines {H} `{Sha256Laws H} {R} (store : list byte -> result (DraftPiecePrepareError R) (option Node))
    owner r runs at_ len c :
  store_ok store owner -> fresh_context store c -> map_root owner (stored store) r runs -> 0 <= at_ -> 0 <= len ->
  match insert_map store owner r at_ len c with
  | Ok (r', c') => insertion_valid (expand runs) at_ len
      /\ returns_map store owner r' c' (ref_insert at_ (Z.to_nat len) (expand runs))
  | Err _ => ~ (insertion_valid (expand runs) at_ len /\ able store owner MAX_LOADS MAX_EMITTED c)
  end.
Proof.
  intros Hst [Hc He] Hm Hat Hlen.
  assert (Hdec : insertion_valid (expand runs) at_ len \/ ~ insertion_valid (expand runs) at_ len) by (unfold insertion_valid; lia).
  destruct Hdec as [Hv|Hn]; [|rewrite (insert_map_guard _ _ _ _ _ _ _ Hm Hlen Hn); tauto].
  pose proof (insert_map_runs store owner r runs at_ len c Hst (conj Hc He) Hm Hat Hv) as Hrun.
  destruct (insert_map _ _ _ _ _ _) as [[r' c']|] eqn:E.
  - split; [done|]. by eapply insert_map_Ok.
  - intros [_ Hab]. by destruct (Hrun Hab) as (? & ? & ? & _).
Qed.

(** Deleting from one leaf of the map takes away exactly the target units from the returned
    position to the end asked for, at least one of them and none before the start asked for;
    copied units stay as deleted ones, inserted units vanish. *)
Theorem delete_leaf_refines {H} `{Sha256Laws H} {R} (store : list byte -> result (DraftPiecePrepareError R) (option Node))
    owner r runs a end_ c :
  store_ok store owner -> fresh_context store c -> map_root owner (stored store) r runs -> 0 <= a ->
  match delete_leaf store owner r a end_ c with
  | Ok (r', next, c') => deletion_valid (expand runs) a end_ /\ a <= next < end_
      /\ returns_map store owner r' c' (ref_delete next end_ 0 (expand runs))
  | Err _ => ~ (deletion_valid (expand runs) a end_ /\ able store owner MAX_LOADS MAX_EMITTED c)
  end.
Proof.
  intros Hst [Hc He] Hm Ha.
  assert (Hdec : deletion_valid (expand runs) a end_ \/ ~ deletion_valid (expand runs) a end_) by (unfold deletion_valid; lia).
  destruct Hdec as [Hv|Hn]; [|rewrite (delete_leaf_guard _ _ _ _ _ _ _ Hm Hn); tauto].
  pose proof Hv as [V1 V2]. pose proof (delete_leaf_runs store owner r runs a end_ c Hst (conj Hc He) Hm (conj Ha V1) V2) as Hrun.
  destruct (delete_leaf _ _ _ _ _ _) as [[[r' next] c']|] eqn:E.
  - split; [done|]. by eapply delete_leaf_Ok.
  - intros [_ Hab]. by destruct (Hrun Hab) as (? & ? & ? & ? & _).
Qed.

(** The target position of a source position, found by descending the tree, is the one a walk
    over the units finds, and there is none exactly when the walk finds none; nothing is
    emitted. *)
Theorem source_cut_exact {H} `{Sha256Laws H} {R} (store : list byte -> result (DraftPiecePrepareError R) (option Node))
    owner r runs source require_copy c :
  store_ok store owner -> fresh_context store c -> map_root owner (stored store) r runs -> 0 <= source ->
  match source_cut store owner r source require_copy c with
  | Ok (t, c') => ref_cut require_copy source 0 (expand runs) = Some t /\ mc_emitted c' = []
  | Err _ => ~ (is_Some (ref_cut require_copy source 0 (expand runs)) /\ able store owner MAX_LOADS MAX_EMITTED c)
  end.
Proof.
  intros Hst [Hc He] Hm Hs.
  pose proof (wp_source_cut store owner (is_Some (ref_cut require_copy source 0 (expand runs)) /\ able store owner MAX_LOADS MAX_EMITTED c)
    Hst r runs source require_copy MAX_EMITTED c Hm Hs (mkReady _ _ _ _ _ _ Hc (fun HP => proj2 HP)) (fun HP => proj1 HP)) as Hwp.
  unfold wp in Hwp. destruct (source_cut _ _ _ _ _ _) as [[t c']|]; [|done]. destruct Hwp as (? & _ & E). split; [done|]. congruence.
Qed.

(** ** The mapping program *)

(** What a splice makes of the units. *)
Definition spliced (sp : DraftPieceMappingSplice) (us : list unit_kind) : list unit_kind :=
  if 0 <? ms_removed sp then ref_delete (ms_a sp) (ms_a sp + ms_removed sp) 0 us
  else ref_insert (ms_a sp) (Z.to_nat (ms_inserted sp)) us.

(** A splice either deletes or inserts. *)
Definition splice_valid (us : list unit_kind) (sp : DraftPieceMappingSplice) : Prop :=
  0 <= ms_a sp /\
  ((0 < ms_removed sp /\ ms_inserted sp = 0 /\ ms_a sp + ms_removed sp <= targets us)
   \/ (ms_removed sp = 0 /\ insertion_valid us (ms_a sp) (ms_inserted sp))).

(** Quanta left until the splice is ready. *)
Definition stage_rank (stage : Stage.t) : Z :=
  match stage with
  | Stage.DeleteMap splice _ remaining_end => remaining_end - ms_a splice + 1
  | Stage.InsertMap _ => 2
  | Stage.MapComplete _ _ => 1
  | _ => 0
  end.

Section Splice.
Context {H : Type} `{Sha256Laws H} {R : Type}.
Abbreviation record_store := (list byte -> result (DraftPiecePrepareError R) (option Node)).
Context (at_unit : BuildContext -> Z -> result (DraftPiecePrepareError R) (DraftPieceBuildBoundary * Z * BuildContext)).
Context (draft session operation : list byte).
Abbreviation owner := (draft ++ session ++ operation).

(** What is kept between two quanta. *)
Record BuildState := mkState {
  bs_store : record_store;
  bs_ordinal : Z;
  bs_mapping : DraftPieceBuildMapping
}.

Definition quantum_context (s : BuildState) (records_read : Z) (acquisition : Acquired) : BuildContext :=
  mkBuild draft (Some session) operation (bs_ordinal s) records_read (Some (bs_mapping s)) [] (Some acquisition).

(** One quantum: a step of the program, and the commit of what it emitted. *)
Inductive quantum : BuildState -> Stage.t -> BuildState -> Prop :=
  | quantum_step s records_read acquisition next c' store' :
      within_limits acquisition -> cache_ok acquisition (bs_store s) ->
      advance_map_step (bs_store s) at_unit (quantum_context s records_read acquisition) = Ok (Some next, c') ->
      commits (bs_store s) (bc_mapping_records c') store' -> store_ok store' owner ->
      quantum s next (mkState store' (bc_ordinal c') (with_stage (bs_mapping s) next)).

Definition denotes (s : BuildState) (r : MapRoot) (us : list unit_kind) : Prop :=
  exists runs, map_root owner (stored (bs_store s)) r runs /\ expand runs = us.

(** The states of a splice of [us]. *)
Record splicing (us : list unit_kind) (sp : DraftPieceMappingSplice) (s : BuildState) : Prop := mkSplicing {
  si_store : store_ok (bs_store s) owner;
  si_current : denotes s (current_map (bs_mapping s)) us;
  si_stage : match mapping_stage (bs_mapping s) with
             | Stage.DeleteMap sp' target rem => sp' = sp /\ 0 < ms_removed sp /\ ms_a sp < rem <= ms_a sp + ms_removed sp
                 /\ denotes s target (ref_delete rem (ms_a sp + ms_removed sp) 0 us)
             | Stage.InsertMap sp' => sp' = sp /\ ms_removed sp = 0
             | Stage.MapComplete sp' target => sp' = sp /\ denotes s target (spliced sp us)
             | Stage.Ready r => r = mkReadySplice (ms_kind sp) (ms_a sp) (ms_removed sp) (ms_inserted sp) (rs_target r)
                 /\ denotes s (rs_target r) (spliced sp us)
             | _ => False
             end
}.

Lemma denotes_commit s ns store' ordinal m r us : commits (bs_store s) ns store' -> denotes s r us -> denotes (mkState store' ordinal m) r us.
Proof. intros [Hc _] (runs & Hm & E). exists runs. split; [|done]. eapply map_root_mono; [|done]. intros k n. apply Hc. Qed.

Lemma denotes_measure s r us : denotes s r us -> root_measure r = measure_of us /\ within_units (measure_of us).
Proof. intros (runs & Hm & <-). apply map_root_facts in Hm as (_ & _ & -> & ?). done. Qed.

Lemma returned_denotes s r' c' us store' ordinal m : returns_map (bs_store s) owner r' c' us ->
  commits (bs_store s) (mc_emitted c') store' -> denotes (mkState store' ordinal m) r' us.
Proof. intros [_ (runs & E & Hr)] Hc. exists runs. split; [by apply Hr|done]. Qed.

(** A map operation of a quantum. *)
Lemma map_operation_Ok {A} (op : list byte -> mapm R A) s rr acq a c' :
  map_operation (quantum_context s rr acq) op = Ok (a, c') ->
  exists map, op owner (mkMapping acq (bs_ordinal s) [] 0) = Ok (a, map) /\ bc_mapping_records c' = mc_emitted map /\ bc_ordinal c' = mc_ordinal map.
Proof.
  unfold map_operation. cbn [quantum_context bc_acquisition bc_session_id ok_or mbind result_bind]. intros Hm.
  apply result_bind_Ok in Hm as ([a' map] & Ho & Hm). apply result_bind_Ok in Hm as (rr' & _ & Hm). injection Hm as <- <-.
  exists map. split_and!; done.
Qed.

Lemma delete_measure us sp rem : splice_valid us sp -> 0 < ms_removed sp -> ms_a sp <= rem <= ms_a sp + ms_removed sp ->
  measure_of (ref_delete rem (ms_a sp + ms_removed sp) 0 us)
  = mkMeasure (sources us) (targets us - (ms_a sp + ms_removed sp - rem)).
Proof. intros [Ha [(Hr & _ & Hle)|[Hr _]]] Hpos Hrem; [|lia]. apply measure_delete; lia. Qed.

Lemma spliced_measure us sp : splice_valid us sp -> measure_of (spliced sp us) = mkMeasure (sources us) (targets us - ms_removed sp + ms_inserted sp).
Proof.
  intros Hv. pose proof Hv as [Ha [(Hr & Hi & Hle)|[Hr (Hat & Hi & _)]]]; unfold spliced.
  - rewrite (proj2 (Z.ltb_lt _ _)), delete_measure by (done || lia). f_equal. lia.
  - rewrite (proj2 (Z.ltb_ge _ _)), measure_insert by lia. f_equal. lia.
Qed.

Lemma fresh_mapping (store : record_store) acq ordinal : within_limits acq -> cache_ok acq store -> fresh_context store (mkMapping acq ordinal [] 0).
Proof. intros Hw Hc. split; [|done]. split; cbn; [done|done|constructor|unfold MAX_LOADS; lia]. Qed.

(** The guards of the deletion step hold. *)
Lemma delete_step_run us sp s rr acq target rem : splicing us sp s -> splice_valid us sp ->
  mapping_stage (bs_mapping s) = Stage.DeleteMap sp target rem ->
  delete_map_step (bs_store s) (quantum_context s rr acq) (bs_mapping s) sp target rem
  = '((target, remaining_end), c) ← map_operation (quantum_context s rr acq) (fun owner => delete_leaf (bs_store s) owner target (ms_a sp) rem);
    Ok (if remaining_end =? ms_a sp then Stage.MapComplete sp target else Stage.DeleteMap sp target remaining_end, c).
Proof.
  intros [_ Hcur Hst] Hv E. rewrite E in Hst. destruct Hst as (_ & Hpos & Hrem & Ht).
  apply denotes_measure in Hcur as [Ec Hw]. apply denotes_measure in Ht as [Et _].
  rewrite delete_measure in Et by (done || lia). unfold within_units, MAX_UNITS in Hw. cbn in Hw.
  destruct Hv as [Ha [(_ & _ & Hle)|[? _]]]; [|lia]. unfold delete_map_step. rewrite add128_ok by lia. cbn [ok_or mbind result_bind].
  rewrite Ec, Et. cbn [m_source m_target measure_of]. rewrite (proj2 (Z.leb_gt _ _)), (proj2 (Z.ltb_ge _ _)), Z.eqb_refl by lia.
  rewrite add128_ok by lia. rewrite bool_decide_true by (f_equal; lia). done.
Qed.

Lemma complete_step_run us sp s target : splicing us sp s -> splice_valid us sp ->
  mapping_stage (bs_mapping s) = Stage.MapComplete sp target ->
  map_complete_step (R := R) (bs_mapping s) sp target
  = Ok (Stage.Ready (mkReadySplice (ms_kind sp) (ms_a sp) (ms_removed sp) (ms_inserted sp) target)).
Proof.
  intros [_ Hcur Hst] Hv E. rewrite E in Hst. destruct Hst as [_ Ht].
  apply denotes_measure in Hcur as [Ec Hw]. apply denotes_measure in Ht as [Et Hw']. rewrite spliced_measure in Et, Hw' by done.
  unfold within_units, MAX_UNITS in Hw, Hw'. cbn in Hw, Hw'. unfold map_complete_step. rewrite Ec, Et. cbn [m_source m_target measure_of].
  rewrite Z.eqb_refl. assert (0 <= ms_removed sp <= targets us).
  { pose proof (units_nonneg in_target us). destruct Hv as [Ha [?|[-> (? & ? & ?)]]]; lia. }
  rewrite sub128_ok by lia. cbn [mbind option_bind]. rewrite add128_ok by lia.
  by rewrite bool_decide_true.
Qed.

Lemma quantum_splicing us sp s next s' : splice_valid us sp -> splicing us sp s -> quantum s next s' ->
  splicing us sp s' /\ 0 <= stage_rank next < stage_rank (mapping_stage (bs_mapping s)) /\ mapping_stage (bs_mapping s') = next
  /\ current_map (bs_mapping s') = current_map (bs_mapping s).
Proof.
  intros Hv Hs Hq. destruct Hq as [s rr acq next c' store' Hw Hca Hadv Hcm Hst'].
  pose proof Hs as [Hst Hcur Hstage]. unfold advance_map_step in Hadv. cbn [program_mapping quantum_context bc_mapping ok_or mbind result_bind] in Hadv.
  destruct (mapping_stage (bs_mapping s)) as [| | | | | | | | | | | | | | | | | |sp' target rem|sp'|sp' target|r| | |] eqn:Estage; try done.
  - destruct Hstage as (-> & Hpos & Hrem & Hden). apply result_bind_Ok in Hadv as ([nx c] & Hd & Hadv). injection Hadv as -> ->.
    rewrite (delete_step_run us sp s rr acq target rem) in Hd by done. apply result_bind_Ok in Hd as ([[target' rem'] c] & Hop & Hd).
    injection Hd as <- <-. apply map_operation_Ok in Hop as (map & Hop & Erec & _). rewrite Erec in Hcm.
    destruct Hden as (rt & Hmt & Ert).
    assert (rem <= targets (expand rt)).
    { rewrite Ert. assert (Em := delete_measure us sp rem Hv Hpos ltac:(lia)). injection Em as _ ->.
      destruct Hv as [_ [(_ & _ & ?)|[? _]]]; lia. }
    destruct (delete_leaf_Ok (bs_store s) owner target rt (ms_a sp) rem _ Hst (fresh_mapping _ _ (bs_ordinal s) Hw Hca) Hmt
      (conj (proj1 Hv) (proj1 Hrem)) ltac:(done) _ _ _ Hop) as [Hnext Hret]. rewrite Ert, ref_delete_compose in Hret by lia.
    assert (Hden' := fun m => returned_denotes s target' map _ store' (bc_ordinal c) m Hret Hcm).
    destruct (Z.eqb_spec rem' (ms_a sp)) as [->|Hne]; split_and!; try done; try (cbn; lia).
    + split; cbn; [done|by eapply denotes_commit|]. split; [done|]. unfold spliced. rewrite (proj2 (Z.ltb_lt _ _)) by lia. apply Hden'.
    + split; cbn; [done|by eapply denotes_commit|]. split_and!; try done; lia.
  - destruct Hstage as [-> Hzero]. apply result_bind_Ok in Hadv as ([target c] & Hop & Hadv). injection Hadv as <- <-.
    apply map_operation_Ok in Hop as (map & Hop & Erec & _). rewrite Erec in Hcm. destruct Hcur as (rt & Hmt & Ert).
    destruct Hv as [Ha [[? _]|[_ Hiv]]]; [lia|].
    rewrite <- Ert in Hiv. pose proof (insert_map_Ok (bs_store s) owner _ rt (ms_a sp) (ms_inserted sp) _ Hst
      (fresh_mapping _ _ (bs_ordinal s) Hw Hca) Hmt Ha Hiv _ _ Hop) as Hret. rewrite Ert in Hret.
    split_and!; try done; try (cbn; lia). split; cbn; [done|by eapply denotes_commit; [done|exists rt]|]. split; [done|].
    unfold spliced. rewrite (proj2 (Z.ltb_ge _ _)) by lia. by eapply returned_denotes.
  - destruct Hstage as [-> Hden]. rewrite (complete_step_run us sp s target) in Hadv by done. injection Hadv as <- <-.
    split_and!; try done; try (cbn; lia). split; cbn; [done|by eapply denotes_commit|]. split; [done|]. by eapply denotes_commit.
Qed.

(** A splice begins with [begin_delete], or with an [InsertMap] stage. *)
Inductive begun (us : list unit_kind) (sp : DraftPieceMappingSplice) : BuildState -> Prop :=
  | begun_delete s records_read acquisition c m : store_ok (bs_store s) owner -> denotes s (current_map (bs_mapping s)) us ->
      0 < ms_removed sp -> begin_delete (quantum_context s records_read acquisition) sp = Ok c (E := DraftPiecePrepareError R) ->
      bc_mapping c = Some m -> begun us sp (mkState (bs_store s) (bs_ordinal s) m)
  | begun_insert s records_read acquisition c m : store_ok (bs_store s) owner -> denotes s (current_map (bs_mapping s)) us ->
      ms_removed sp = 0 -> set_stage (quantum_context s records_read acquisition) (Stage.InsertMap sp) = Ok c (E := DraftPiecePrepareError R) ->
      bc_mapping c = Some m -> begun us sp (mkState (bs_store s) (bs_ordinal s) m).

Lemma begun_splicing us sp s : splice_valid us sp -> begun us sp s ->
  splicing us sp s /\ stage_rank (mapping_stage (bs_mapping s)) <= Z.max 2 (ms_removed sp + 1).
Proof.
  intros Hv Hb. destruct Hb as [s rr acq c m Hst Hden Hr Hbeg Hm|s rr acq c m Hst Hden Hr Hbeg Hm].
  - unfold begin_delete, set_stage in Hbeg. cbn in Hbeg. apply result_bind_Ok in Hbeg as (e & He & Hbeg).
    rewrite ok_or_Ok, checked_add128_Some in He. destruct He as [-> Hle]. injection Hbeg as <-. injection Hm as <-. split; [|cbn; lia].
    split; cbn; [done|done|]. split_and!; try done; try lia.
    by rewrite ref_delete_none by lia.
  - injection Hbeg as <-. injection Hm as <-. split; [|cbn; lia]. by split; cbn.
Qed.

Lemma splice_reaches us sp s tr s' : splice_valid us sp -> begun us sp s -> steps quantum s tr s' ->
  splicing us sp s' /\ zlen tr + stage_rank (mapping_stage (bs_mapping s')) <= Z.max 2 (ms_removed sp + 1)
  /\ current_map (bs_mapping s') = current_map (bs_mapping s).
Proof.
  intros Hv Hb Hs. apply (begun_splicing us sp s) in Hb as [Hspl Hrank]; [|done].
  induction Hs as [|s1 tr s2 l s3 _ IH Hq]; [cbn; split_and!; try done; lia|].
  destruct (IH Hspl Hrank) as (Hs2 & Hb2 & Hc2). destruct (quantum_splicing us sp s2 l s3 Hv Hs2 Hq) as (Hs3 & Hr3 & Hst3 & Hc3).
  split_and!; [done| |congruence]. rewrite Hst3, length_app. cbn. lia.
Qed.

(** A quantum of a splice that is not ready. *)
Lemma quantum_runs us sp s rr acq : splice_valid us sp -> splicing us sp s -> within_limits acq -> cache_ok acq (bs_store s) ->
  0 <= rr -> rr + Z.of_nat MAX_LOADS <= U64_MAX -> able (bs_store s) owner MAX_LOADS MAX_EMITTED (mkMapping acq (bs_ordinal s) [] 0) ->
  stage_rank (mapping_stage (bs_mapping s)) <> 0 ->
  exists next c', advance_map_step (bs_store s) at_unit (quantum_context s rr acq) = Ok (Some next, c').
Proof.
  intros Hv Hs Hw Hca Hrr Hmax Hab Hrank. pose proof Hs as [Hst Hcur Hstage].
  unfold advance_map_step. cbn [program_mapping quantum_context bc_mapping ok_or mbind result_bind].
  destruct (mapping_stage (bs_mapping s)) as [| | | | | | | | | | | | | | | | | |sp' target rem|sp'|sp' target|r| | |] eqn:Estage; try done.
  - destruct Hstage as (-> & Hpos & Hrem & rt & Hmt & Ert). pose proof Hv as [Ha [(_ & _ & Hle)|[? _]]]; [|lia].
    destruct (delete_leaf_runs (bs_store s) owner target rt (ms_a sp) rem _ Hst (fresh_mapping _ _ (bs_ordinal s) Hw Hca) Hmt) as (r' & nx & m & E & Hl);
      [lia| |done|].
    { rewrite Ert. assert (Em := delete_measure us sp rem Hv Hpos ltac:(lia)). injection Em as _ ->. lia. }
    change (mkBuild _ _ _ _ _ _ _ _) with (quantum_context s rr acq). rewrite (delete_step_run us sp s rr acq target rem) by done.
    unfold map_operation. cbn -[delete_leaf checked_add64]. unfold map_owner. cbn [bc_draft_id bc_operation_id]. rewrite E. cbn -[checked_add64].
    rewrite (checked_add64_within _ _ U64_MAX) by (cbn in *; lia). cbn. by eexists _, _.
  - destruct Hstage as [-> Hzero]. destruct Hcur as (rt & Hmt & <-). destruct Hv as [Ha [[? _]|[_ Hiv]]]; [lia|].
    destruct (insert_map_runs (bs_store s) owner _ rt (ms_a sp) (ms_inserted sp) _ Hst (fresh_mapping _ _ (bs_ordinal s) Hw Hca) Hmt Ha Hiv Hab) as (r' & m & E & Hl).
    unfold map_operation. cbn -[insert_map checked_add64]. unfold map_owner. cbn [bc_draft_id bc_operation_id]. rewrite E. cbn -[checked_add64].
    rewrite (checked_add64_within _ _ U64_MAX) by (cbn in *; lia). cbn. by eexists _, _.
  - destruct Hstage as [-> _]. rewrite (complete_step_run us sp s target) by done. by eexists _, _.
Qed.
End Splice.

(** C17: the program that applies a splice to the map ends: a splice becomes ready within as many
    quanta as it removes units plus one (two for an insertion), whatever the shape of the tree;
    and until then every quantum whose resources suffice takes the next step. *)
Theorem splice_program_terminates {H} `{Sha256Laws H} {R} at_unit draft session operation us sp (s : BuildState (R := R)) tr s' :
  splice_valid us sp -> begun draft session operation us sp s -> steps (quantum at_unit draft session operation) s tr s' ->
  zlen tr + stage_rank (mapping_stage (bs_mapping s')) <= Z.max 2 (ms_removed sp + 1)
  /\ 0 <= stage_rank (mapping_stage (bs_mapping s'))
  /\ (stage_rank (mapping_stage (bs_mapping s')) = 0 <-> exists r, mapping_stage (bs_mapping s') = Stage.Ready r)
  /\ (stage_rank (mapping_stage (bs_mapping s')) <> 0 -> forall records_read acquisition,
        within_limits acquisition -> cache_ok acquisition (bs_store s') ->
        0 <= records_read -> records_read + Z.of_nat MAX_LOADS <= U64_MAX ->
        able (bs_store s') (draft ++ session ++ operation) MAX_LOADS MAX_EMITTED (mkMapping acquisition (bs_ordinal s') [] 0) ->
        exists next c', advance_map_step (bs_store s') at_unit
          (quantum_context draft session operation s' records_read acquisition) = Ok (Some next, c')).
Proof.
  intros Hv Hb Hs. destruct (splice_reaches _ _ _ _ us sp s tr s' Hv Hb Hs) as (Hspl & Hbound & _).
  split_and!; [done| | |].
  - pose proof (si_stage _ _ _ _ _ _ Hspl) as Hst. destruct (mapping_stage _); cbn; try lia. destruct Hst as (-> & _ & ? & _). lia.
  - pose proof (si_stage _ _ _ _ _ _ Hspl) as Hst. destruct (mapping_stage _) as [| | | | | | | | | | | | | | | | | |sp' target rem|sp'|sp' target|r| | |];
      cbn; try done; split; try done; try (by intros [? ?]); [|by eexists]. destruct Hst as (-> & _ & ? & _). lia.
  - intros Hr rr acq ? ? ? ? ?. by eapply quantum_runs.
Qed.

(** C18: the map of a build changes only when a ready splice is consumed, and then as the splice
    says: at every stage of the program the current map still denotes the units the splice
    started from; the map of a ready splice denotes those units with the splice applied; the edit
    of the pieces is let through only if it is the splice that is ready; and consuming it makes
    that map the current one. *)
Theorem splice_program_refines {H} `{Sha256Laws H} {R} at_unit draft session operation us sp (s : BuildState (R := R)) tr s' :
  splice_valid us sp -> begun draft session operation us sp s -> steps (quantum at_unit draft session operation) s tr s' ->
  current_map (bs_mapping s') = current_map (bs_mapping s)
  /\ denotes draft session operation s' (current_map (bs_mapping s')) us
  /\ forall r, mapping_stage (bs_mapping s') = Stage.Ready r ->
     forall records_read acquisition, let c := quantum_context draft session operation s' records_read acquisition in
     denotes draft session operation s' (rs_target r) (spliced sp us)
     /\ (forall kind a removed inserted, verify_splice (R := R) c kind a removed inserted = Ok tt <->
           kind = ms_kind sp /\ a = ms_a sp /\ removed = ms_removed sp /\ inserted = ms_inserted sp)
     /\ (exists c', consume_ready (R := R) c (ms_kind sp) = Ok c'
          /\ bc_mapping c' = Some (mkBuildMapping (rs_target r) (completed_source_unit (bs_mapping s'))
                                     (fragment_source_end_unit (bs_mapping s')) Stage.Idle)).
Proof.
  intros Hv Hb Hs. destruct (splice_reaches _ _ _ _ us sp s tr s' Hv Hb Hs) as ([_ Hcur Hst] & _ & Hc).
  split_and!; try done. intros r Er rr acq c. rewrite Er in Hst. destruct Hst as [Hr Hden]. split_and!; [done| |].
  - intros kind a removed inserted. unfold verify_splice. cbn. rewrite Er, Hr. cbn.
    case_match eqn:E; [split; [done|]; intros (-> & -> & -> & ->); by rewrite bool_decide_true, !Z.eqb_refl in E|].
    bool_facts. by split.
  - unfold consume_ready. cbn. rewrite Er, Hr. cbn. rewrite bool_decide_true by done. by eexists.
Qed.

(** ** Examples *)

(** A hasher that keeps what it is fed from byte 133 on: the identity of a mapping record then
    starts with its ordinal. *)
Inductive late_hash := Late (bs : list byte).
Definition late_bytes (h : late_hash) : list byte := match h with Late bs => bs end.
#[local] Instance late_sha : Sha256 late_hash := {|
  sha_new := Late [];
  sha_update h bs := Late (late_bytes h ++ bs);
  sha_finalize h := take 32 (drop 133 (late_bytes h) ++ replicate 32 x00)
|}.
#[local] Instance late_laws : Sha256Laws late_hash.
Proof.
  refine {| sha256 bs := take 32 (drop 133 bs ++ replicate 32 x00); absorbed := late_bytes |}; try done.
  intros bs. rewrite length_take, length_app, length_replicate. lia.
Defined.

Definition sample_store : list byte -> result (DraftPiecePrepareError unit) (option Node) := fun _ => Ok None.
Definition sample_part (b : byte) : list byte := replicate 16 b.
Definition sample_owner : list byte := sample_part x01 ++ sample_part x02 ++ sample_part x03.
Definition sample_context : MappingContext := mkMapping fresh_budget 1 [] 0.

Lemma sample_store_ok : store_ok sample_store sample_owner.
Proof. split; [done|by intros|by intros]. Qed.
Lemma fresh_limits : within_limits fresh_budget.
Proof. by repeat split. Qed.
Lemma fresh_cache (store : list byte -> result (DraftPiecePrepareError unit) (option Node)) owner :
  store_ok store owner -> cache_ok fresh_budget store.
Proof. intros Hs. split; [intros k n; cbn; by eapply so_typed|]. intros k ek e _ _ Hl. cbn in Hl. by rewrite lookup_empty in Hl. Qed.
Lemma sample_fresh : fresh_context sample_store sample_context.
Proof. apply fresh_mapping; [apply fresh_limits|by eapply fresh_cache, sample_store_ok]. Qed.
Lemma sample_able : able sample_store sample_owner MAX_LOADS MAX_EMITTED sample_context.
Proof. split; cbn; unfold MAX_LOADS, MAX_EMITTED; try lia; [|done]. by repeat split. Qed.
Lemma sample_root : map_root sample_owner (stored sample_store) (MapIdentity 10) [RunCopy 10].
Proof. by repeat split. Qed.

Lemma insert_map_refines_witness : exists r' c', insert_map sample_store sample_owner (MapIdentity 10) 3 5 sample_context = Ok (r', c')
  /\ insertion_valid (expand [RunCopy 10]) 3 5
  /\ returns_map sample_store sample_owner r' c' (ref_insert 3 5 (expand [RunCopy 10])).
Proof.
  pose proof (insert_map_refines sample_store sample_owner (MapIdentity 10) [RunCopy 10] 3 5 sample_context
    sample_store_ok sample_fresh sample_root ltac:(lia) ltac:(lia)) as Hi.
  assert (is_ok (insert_map sample_store sample_owner (MapIdentity 10) 3 5 sample_context) = true) as Hok by (vm_compute; reflexivity).
  destruct (insert_map _ _ _ _ _ _) as [[r' c']|]; [|discriminate Hok]. exists r', c'. split; [reflexivity|exact Hi].
Defined.

Lemma delete_leaf_refines_witness : exists r' next c', delete_leaf sample_store sample_owner (MapIdentity 10) 3 5 sample_context = Ok (r', next, c')
  /\ deletion_valid (expand [RunCopy 10]) 3 5 /\ 3 <= next < 5
  /\ returns_map sample_store sample_owner r' c' (ref_delete next 5 0 (expand [RunCopy 10])).
Proof.
  pose proof (delete_leaf_refines sample_store sample_owner (MapIdentity 10) [RunCopy 10] 3 5 sample_context
    sample_store_ok sample_fresh sample_root ltac:(lia)) as Hi.
  assert (is_ok (delete_leaf sample_store sample_owner (MapIdentity 10) 3 5 sample_context) = true) as Hok by (vm_compute; reflexivity).
  destruct (delete_leaf _ _ _ _ _ _) as [[[r' next] c']|]; [|discriminate Hok]. exists r', next, c'. split; [reflexivity|exact Hi].
Defined.

Lemma source_cut_exact_witness : exists t c', source_cut sample_store sample_owner (MapIdentity 10) 4 true sample_context = Ok (t, c')
  /\ ref_cut true 4 0 (expand [RunCopy 10]) = Some t /\ mc_emitted c' = [].
Proof.
  pose proof (source_cut_exact sample_store sample_owner (MapIdentity 10) [RunCopy 10] 4 true sample_context
    sample_store_ok sample_fresh sample_root ltac:(lia)) as Hi.
  assert (exists t c', source_cut sample_store sample_owner (MapIdentity 10) 4 true sample_context = Ok (t, c')) as (t & c' & E)
    by (eexists _, _; vm_compute; reflexivity).
  exists t, c'. rewrite E in Hi. by split.
Defined.

(** A deletion from a new map: the step that edits the map, and the step that makes it ready. *)
Definition sample_at_unit : BuildContext -> Z -> result (DraftPiecePrepareError unit) (DraftPieceBuildBoundary * Z * BuildContext) :=
  fun _ _ => Err InvalidRoot.
Definition sample_splice : DraftPieceMappingSplice := mkSplice TextDelete 2 3 0 None 0 0 0.
Definition sample_quantum (s : BuildState (R := unit)) :=
  advance_map_step (bs_store s) sample_at_unit (quantum_context (sample_part x01) (sample_part x02) (sample_part x03) s 0 fresh_budget).
Definition sample_start : BuildState (R := unit) :=
  mkState sample_store 1 (with_stage (initial_mapping 10 0) (Stage.DeleteMap sample_splice (MapIdentity 10) 5)).
Definition sample_node : Node :=
  match sample_quantum sample_start with
  | Ok (_, c) => default (mkNode [] 0 (Runs []) []) (head (bc_mapping_records c))
  | Err _ => mkNode [] 0 (Runs []) []
  end.
Definition sample_store' : list byte -> result (DraftPiecePrepareError unit) (option Node) :=
  fun k => if bool_decide (n_key sample_node = k) then Ok (Some sample_node) else Ok None.
Definition sample_root' : MapRoot := match node_descriptor (R := unit) sample_node with Ok d => MapStored d | Err _ => MapEmpty end.
Definition sample_edited : BuildState (R := unit) :=
  mkState sample_store' 2 (with_stage (bs_mapping sample_start) (Stage.MapComplete sample_splice sample_root')).
Definition sample_finished : BuildState (R := unit) :=
  mkState sample_store' 2 (with_stage (bs_mapping sample_start) (Stage.Ready (mkReadySplice TextDelete 2 3 0 sample_root'))).

Definition outcome (r : result (DraftPiecePrepareError unit) (option Stage.t * BuildContext)) : option (option Stage.t * list Node * Z) :=
  match r with Ok (next, c) => Some (next, bc_mapping_records c, bc_ordinal c) | Err _ => None end.
Lemma outcome_Some r next ns o : outcome r = Some (next, ns, o) -> exists c, r = Ok (next, c) /\ bc_mapping_records c = ns /\ bc_ordinal c = o.
Proof. destruct r as [[nx c]|]; [|done]. intros [= <- <- <-]. by exists c. Qed.

Lemma sample_store_ok' : store_ok sample_store' sample_owner.
Proof.
  assert (decode_node (enc_node sample_node) = Ok sample_node) as Hd by (vm_compute; reflexivity).
  apply decode_node_Ok in Hd as [Ht He]. apply encode_node_Ok in He as [Hs _].
  split; [done|..]; intros k n; unfold sample_store'; case_bool_decide; intros [= <-]; done.
Qed.

Lemma sample_steps : steps (quantum sample_at_unit (sample_part x01) (sample_part x02) (sample_part x03)) sample_start
  [Stage.MapComplete sample_splice sample_root'; Stage.Ready (mkReadySplice TextDelete 2 3 0 sample_root')] sample_finished.
Proof.
  change [?a; ?b] with (([] ++ [a]) ++ [b]).
  assert (outcome (sample_quantum sample_start) = Some (Some (Stage.MapComplete sample_splice sample_root'), [sample_node], 2)) as E1
    by (vm_compute; reflexivity).
  assert (outcome (sample_quantum sample_edited) = Some (Some (Stage.Ready (mkReadySplice TextDelete 2 3 0 sample_root')), [], 2)) as E2
    by (vm_compute; reflexivity).
  apply outcome_Some in E1 as (c1 & E1 & N1 & O1), E2 as (c2 & E2 & N2 & O2).
  econstructor; [econstructor; [constructor|]|].
  - pose proof (quantum_step sample_at_unit (sample_part x01) (sample_part x02) (sample_part x03) sample_start 0 fresh_budget _ c1 sample_store'
      fresh_limits (fresh_cache _ _ sample_store_ok) E1) as Hq. rewrite N1, O1 in Hq. apply Hq; [|exact sample_store_ok'].
    split; [discriminate|]. intros n Hn. apply list_elem_of_singleton in Hn as ->. unfold sample_store'. rewrite bool_decide_true; reflexivity.
  - pose proof (quantum_step sample_at_unit (sample_part x01) (sample_part x02) (sample_part x03) sample_edited 0 fresh_budget _ c2 sample_store'
      fresh_limits (fresh_cache _ _ sample_store_ok') E2) as Hq. rewrite N2, O2 in Hq. apply Hq; [|exact sample_store_ok'].
    split; [intros k n Hn; exact Hn|]. intros n Hn. exfalso. exact (not_elem_of_nil n Hn).
Qed.

Lemma sample_valid : splice_valid (expand [RunCopy 10]) sample_splice.
Proof. split; [done|]. left. by split_and!. Qed.

Lemma sample_begun : begun (sample_part x01) (sample_part x02) (sample_part x03) (expand [RunCopy 10]) sample_splice sample_start.
Proof.
  eapply (begun_delete _ _ _ _ _ (mkState sample_store 1 (initial_mapping 10 0)) 0 fresh_budget); [exact sample_store_ok| |done|reflexivity|reflexivity].
  exists [RunCopy 10]. by repeat split.
Qed.

(** A second deletion, begun where the first was consumed: its record is stored by then. *)
Definition sample_splice2 : DraftPieceMappingSplice := mkSplice TextDelete 1 3 0 None 0 0 0.
Definition sample_units2 : list unit_kind := spliced sample_splice (expand [RunCopy 10]).
Definition sample_again : BuildState (R := unit) :=
  mkState sample_store' 2 (mkBuildMapping sample_root' 0 None (Stage.DeleteMap sample_splice2 sample_root' 4)).

Lemma sample_begun2 : begun (sample_part x01) (sample_part x02) (sample_part x03) sample_units2 sample_splice2 sample_again.
Proof.
  eapply (begun_delete _ _ _ _ _ (mkState sample_store' 2 (mkBuildMapping sample_root' 0 None Stage.Idle)) 0 fresh_budget);
    [exact sample_store_ok'| |done|reflexivity|reflexivity].
  destruct (splice_reaches _ _ _ _ _ _ _ _ _ sample_valid sample_begun sample_steps) as ([_ _ Hst] & _). exact (proj2 Hst).
Qed.

Lemma late_drop (pre x y z : list byte) : length pre = 133%nat -> drop 133 (((pre ++ x) ++ y) ++ z) = x ++ y ++ z.
Proof. intros E. rewrite <- !app_assoc. by apply drop_app_length'. Qed.

Lemma late_id o dg : take 8 (record_id (H := late_hash) sample_owner o dg) = e_u64 o.
Proof.
  unfold record_id, lp_hash. cbn [fold_left sha_finalize late_sha]. unfold update_part. cbn [sha_update sha_new late_sha late_bytes].
  rewrite late_drop; [|rewrite !length_app; unfold e_u64; rewrite !length_be_bytes; reflexivity].
  rewrite !take_take, <- app_assoc. apply take_app_length'. unfold e_u64. by rewrite length_be_bytes.
Qed.

Lemma sample_able2 : able (H := late_hash) sample_store' sample_owner MAX_LOADS MAX_EMITTED (mkMapping fresh_budget 2 [] 0).
Proof.
  split; cbn [mc_acquired mc_emitted mc_ordinal mc_budget length]; unfold MAX_LOADS, MAX_EMITTED; try lia; [by repeat split|].
  intros o dg Ho. unfold sample_store'. rewrite bool_decide_false; [done|]. intros E.
  assert (Ek : take 8 (drop 48 (n_key sample_node)) = e_u64 1) by (vm_compute; reflexivity).
  rewrite E, (drop_app_length' _ _ 48), late_id in Ek by reflexivity. unfold e_u64 in Ek.
  apply (f_equal be_value) in Ek. rewrite !be_u64 in Ek by (unfold is_u64; lia). lia.
Qed.

Lemma sample_valid2 : splice_valid sample_units2 sample_splice2.
Proof. split; [done|]. left. by split_and!. Qed.

Lemma splice_program_terminates_witness :
  steps (quantum sample_at_unit (sample_part x01) (sample_part x02) (sample_part x03)) sample_start
    [Stage.MapComplete sample_splice sample_root'; Stage.Ready (mkReadySplice TextDelete 2 3 0 sample_root')] sample_finished
  /\ 2 + stage_rank (mapping_stage (bs_mapping sample_finished)) <= Z.max 2 (3 + 1)
  /\ exists next c, sample_quantum sample_again = Ok (Some next, c).
Proof.
  split; [exact sample_steps|]. split.
  - exact (proj1 (splice_program_terminates sample_at_unit _ _ _ _ sample_splice sample_start _ sample_finished sample_valid sample_begun sample_steps)).
  - destruct (splice_program_terminates sample_at_unit _ _ _ _ sample_splice2 sample_again _ sample_again sample_valid2 sample_begun2 (steps_refl _ _))
      as (_ & _ & _ & Hnext).
    exact (Hnext ltac:(discriminate) 0 fresh_budget fresh_limits (fresh_cache _ _ sample_store_ok') ltac:(lia) ltac:(unfold MAX_LOADS; lia) sample_able2).
Defined.


Lemma splice_program_refines_witness :
  denotes (sample_part x01) (sample_part x02) (sample_part x03) sample_finished sample_root' (spliced sample_splice (expand [RunCopy 10])).
Proof.
  destruct (splice_program_refines sample_at_unit _ _ _ _ sample_splice sample_start _ sample_finished sample_valid sample_begun sample_steps)
    as (_ & _ & Hr).
  exact (proj1 (Hr _ eq_refl 0 fresh_budget)).
Defined.
