(* ===== verification/PieceModel.v ===== *)
(** * The piece tree of a draft: values, digests and codec

    [syndic-storage/src/draft_piece/model.rs] (the records), [tree.rs] (digests, summaries of
    children) and [codec.rs] (leaves and nodes).  A draft is a sequence of pieces, each a text
    or a marker; the sequence is kept in a tree of immutable records in which every child link
    carries the summary of what is below it. *)
From stdpp Require Import prelude gmap strings.
From S2P Require Import Prelude.
From S2P Require Import Bytes.
From S2P Require Import ModelIds.
From S2P Require Import ModelDigest.
From S2P Require Import SyndicParts.
From S2P Require Import SyndicKeyOrder.
From S2P Require Import BuildBudget.
From S2P Require Import MappingModel.

Definition DRAFT_PIECE_MAX_CHILDREN : nat := 128.
Definition DRAFT_PIECE_MAX_HEIGHT : Z := 64.
Definition DRAFT_PIECE_TEXT_LEAF_MAX_BYTES : Z := 32768.

(** ** Values *)

Record DraftPieceTextSummary := mkTextSummary { ts_bytes : Z; ts_newlines : Z; ts_lines : Z }.

Definition empty_summary : DraftPieceTextSummary := mkTextSummary 0 0 0.

Definition is_newline (b : byte) : bool := byte_val b =? 10.
Definition count_newlines (text : list byte) : Z := zlen (filter (fun b => is_newline b = true) text).

Definition from_utf8 (text : list byte) : DraftPieceTextSummary :=
  if zlen text =? 0 then empty_summary
  else mkTextSummary (zlen text) (count_newlines text) (count_newlines text + 1).

Definition is_canonical (s : DraftPieceTextSummary) : bool :=
  if ts_bytes s =? 0 then (ts_newlines s =? 0) && (ts_lines s =? 0)
  else match checked_add64 (ts_newlines s) 1 with Some lines => ts_lines s =? lines | None => false end.

Inductive DraftCompositeSearchKey :=
  | BeforeMarkers (anchor : Z)
  | KeyMarker (anchor order_key : Z) (marker_id : list byte)
  | AfterMarkers (anchor : Z).

Definition anchor (k : DraftCompositeSearchKey) : Z :=
  match k with BeforeMarkers a | KeyMarker a _ _ | AfterMarkers a => a end.

Definition search_key_cmp (a b : DraftCompositeSearchKey) : comparison :=
  then_with (anchor a ?= anchor b)
    match a, b with
    | BeforeMarkers _, BeforeMarkers _ | AfterMarkers _, AfterMarkers _ => Eq
    | BeforeMarkers _, _ | KeyMarker _ _ _, AfterMarkers _ => Lt
    | AfterMarkers _, _ | KeyMarker _ _ _, BeforeMarkers _ => Gt
    | KeyMarker _ left_order left_id, KeyMarker _ right_order right_id =>
        then_with (left_order ?= right_order) (byte_cmp left_id right_id)
    end.

Record DraftPieceMarker := mkPieceMarker {
  pm_id : list byte; pm_order : Z; pm_label : Z; pm_asset : AssetId }.

Inductive DraftPieceLeafValue := LeafText (text : list byte) | LeafMarker (marker : DraftPieceMarker).

Record DraftPieceRecordKey := mkRecordKey { rk_draft : list byte; rk_id : list byte }.

Record DraftPieceLeafRecord := mkLeafRecord {
  lr_key : DraftPieceRecordKey;
  lr_value : DraftPieceLeafValue;
  lr_summary : DraftPieceTextSummary;
  lr_digest : list byte
}.

Record DraftPieceChild := mkChild {
  c_id : list byte;
  c_digest : list byte;
  c_bytes : Z;
  c_newlines : Z;
  c_lines : Z;
  c_pieces : Z;
  c_markers : Z;
  c_marker_digest : list byte;
  c_first : DraftCompositeSearchKey;
  c_last : DraftCompositeSearchKey
}.

Definition child_summary (c : DraftPieceChild) : DraftPieceTextSummary :=
  mkTextSummary (c_bytes c) (c_newlines c) (c_lines c).

Record DraftPieceNodeRecord := mkNodeRecord {
  nr_key : DraftPieceRecordKey;
  nr_height : Z;
  nr_children : list DraftPieceChild;
  nr_digest : list byte
}.

Record DraftPieceSummary := mkSummary {
  sm_bytes : Z;
  sm_newlines : Z;
  sm_lines : Z;
  sm_pieces : Z;
  sm_markers : Z;
  sm_marker_digest : list byte;
  sm_height : Z;
  sm_root_digest : list byte
}.

#[global] Instance text_summary_eq_dec : EqDecision DraftPieceTextSummary.
Proof. solve_decision. Defined.
#[global] Instance search_key_eq_dec : EqDecision DraftCompositeSearchKey.
Proof. solve_decision. Defined.
#[global] Instance asset_version_eq_dec : EqDecision AssetIdentityVersion.
Proof. solve_decision. Defined.
#[global] Instance asset_eq_dec : EqDecision AssetId.
Proof. solve_decision. Defined.
#[global] Instance piece_marker_eq_dec : EqDecision DraftPieceMarker.
Proof. solve_decision. Defined.
#[global] Instance leaf_value_eq_dec : EqDecision DraftPieceLeafValue.
Proof. solve_decision. Defined.
#[global] Instance record_key_eq_dec : EqDecision DraftPieceRecordKey.
Proof. solve_decision. Defined.
#[global] Instance leaf_record_eq_dec : EqDecision DraftPieceLeafRecord.
Proof. solve_decision. Defined.
#[global] Instance child_eq_dec : EqDecision DraftPieceChild.
Proof. solve_decision. Defined.
#[global] Instance node_record_eq_dec : EqDecision DraftPieceNodeRecord.
Proof. solve_decision. Defined.
#[global] Instance summary_eq_dec : EqDecision DraftPieceSummary.
Proof. solve_decision. Defined.

(** ** Digests and summaries *)

Definition checked_offset_key (key : DraftCompositeSearchKey) (offset : Z)
    : result DraftPieceRejectedReason DraftCompositeSearchKey :=
  match key with
  | BeforeMarkers a => a ← ok_or AggregateOverflow (checked_add64 a offset); Ok (BeforeMarkers a)
  | KeyMarker a order id => a ← ok_or AggregateOverflow (checked_add64 a offset); Ok (KeyMarker a order id)
  | AfterMarkers a => a ← ok_or AggregateOverflow (checked_add64 a offset); Ok (AfterMarkers a)
  end.

Definition same_marker_order_slot (l r : DraftCompositeSearchKey) : bool :=
  match l, r with
  | KeyMarker left_anchor left_order _, KeyMarker right_anchor right_order _ =>
      (left_anchor =? right_anchor) && (left_order =? right_order)
  | _, _ => false
  end.

(** The accumulators of the loop of [aggregate_children]. *)
Record Aggregate := mkAggregate {
  ag_text : Z;
  ag_newlines : Z;
  ag_pieces : Z;
  ag_markers : Z;
  ag_prefix : Z;
  ag_previous : option DraftCompositeSearchKey
}.

Definition child_malformed (c : DraftPieceChild) : bool :=
  (c_pieces c =? 0) || (c_pieces c <? c_markers c) || negb (anchor (c_first c) =? 0)
  || negb (anchor (c_last c) =? c_bytes c) || bool_decide (search_key_cmp (c_first c) (c_last c) = Gt)
  || ((c_bytes c =? 0) && negb (c_markers c =? c_pieces c)) || negb (is_canonical (child_summary c)).

(** Markers that meet at one anchor are in increasing order. *)
Definition out_of_order (previous : option DraftCompositeSearchKey) (translated_first : DraftCompositeSearchKey) : bool :=
  match previous, translated_first with
  | Some previous, KeyMarker _ _ _ =>
      (anchor previous =? anchor translated_first)
      && (bool_decide (search_key_cmp previous translated_first <> Lt)
          || same_marker_order_slot previous translated_first)
  | _, _ => false
  end.

Definition aggregate_child (a : Aggregate) (c : DraftPieceChild) : result DraftPieceRejectedReason Aggregate :=
  if child_malformed c then Err TreeLimit
  else
    translated_first ← checked_offset_key (c_first c) (ag_prefix a);
    if out_of_order (ag_previous a) translated_first then Err TreeLimit
    else
      translated_last ← checked_offset_key (c_last c) (ag_prefix a);
      let previous := match translated_last with KeyMarker _ _ _ => Some translated_last | _ => None end in
      prefix ← ok_or AggregateOverflow (checked_add64 (ag_prefix a) (c_bytes c));
      text ← ok_or AggregateOverflow (checked_add64 (ag_text a) (c_bytes c));
      newlines ← ok_or AggregateOverflow (checked_add64 (ag_newlines a) (c_newlines c));
      pieces ← ok_or AggregateOverflow (checked_add64 (ag_pieces a) (c_pieces c));
      markers ← ok_or AggregateOverflow (checked_add64 (ag_markers a) (c_markers c));
      Ok (mkAggregate text newlines pieces markers prefix previous).

Fixpoint aggregate_loop (a : Aggregate) (children : list DraftPieceChild) : result DraftPieceRejectedReason Aggregate :=
  match children with
  | [] => Ok a
  | c :: children => a ← aggregate_child a c; aggregate_loop a children
  end.

Definition aggregate_children (children : list DraftPieceChild)
    : result DraftPieceRejectedReason (DraftPieceTextSummary * Z * Z) :=
  a ← aggregate_loop (mkAggregate 0 0 0 0 0 None) children;
  lines ← (if ag_text a =? 0 then if negb (ag_newlines a =? 0) then Err TreeLimit else Ok 0
           else ok_or AggregateOverflow (checked_add64 (ag_newlines a) 1));
  Ok (mkTextSummary (ag_text a) (ag_newlines a) lines, ag_pieces a, ag_markers a).

Definition search_key_bytes (k : DraftCompositeSearchKey) : list byte :=
  match k with
  | BeforeMarkers a => x00 :: e_u64 a
  | KeyMarker a order id => x01 :: e_u64 a ++ e_u64 order ++ id
  | AfterMarkers a => x02 :: e_u64 a
  end.

(** The offset of the last key of a child behind the children before it. *)
Fixpoint last_key (last : DraftCompositeSearchKey) (prefix : Z) (children : list DraftPieceChild)
    : result DraftPieceRejectedReason DraftCompositeSearchKey :=
  match children with
  | [] => Ok last
  | c :: children =>
      last ← checked_offset_key (c_last c) prefix;
      prefix ← ok_or AggregateOverflow (checked_add64 prefix (c_bytes c));
      last_key last prefix children
  end.

Section Digests.
Context {H : Type} `{Sha256 H}.

Definition digest_bytes (domain : list byte) (parts : list (list byte)) : list byte :=
  sha_finalize (fold_left update_part parts (sha_update sha_new domain)).

Definition canonical_empty_marker_digest : list byte :=
  lp_hash [bytes_of_string "syndic/draft-ordered-marker-fold/v1/empty"].
Definition canonical_empty_root_digest : list byte :=
  lp_hash [bytes_of_string "syndic/draft-sequence-root/v1/empty"].

Definition piece_marker_digest (m : DraftPieceMarker) (s : DraftPieceTextSummary) : list byte :=
  digest_bytes (bytes_of_string "beryl.syndic.draft-piece.marker-leaf.v2")
    [pm_id m; e_u64 (pm_order m); e_u64 (pm_label m); [version_byte (version (pm_asset m))];
     asset_digest (pm_asset m); e_u64 (asset_length (pm_asset m));
     e_u64 (ts_bytes s); e_u64 (ts_newlines s); e_u64 (ts_lines s)].

Definition leaf_digest (value : DraftPieceLeafValue) (s : DraftPieceTextSummary) : list byte :=
  match value with
  | LeafText text =>
      digest_bytes (bytes_of_string "beryl.syndic.draft-piece.text-leaf.v1")
        [text; e_u64 (ts_bytes s); e_u64 (ts_newlines s); e_u64 (ts_lines s)]
  | LeafMarker marker => piece_marker_digest marker s
  end.

Definition marker_fold (digests : list (list byte)) : list byte :=
  let hash := fold_left sha_update digests (sha_update sha_new (bytes_of_string "beryl.syndic.draft-piece.marker-fold.v1")) in
  if zlen digests =? 0 then canonical_empty_marker_digest
  else sha_finalize (sha_update hash (e_u64 (zlen digests))).

Definition piece_record_id (draft_id session_id operation_id : list byte) (ordinal : Z) (digest : list byte) : list byte :=
  take 16 (digest_bytes (bytes_of_string "beryl.syndic.draft-piece.record-id.v1")
    [draft_id; session_id; operation_id; e_u64 ordinal; digest]).

Definition child_for_leaf (r : DraftPieceLeafRecord) : DraftPieceChild :=
  match lr_value r with
  | LeafText text =>
      mkChild (rk_id (lr_key r)) (lr_digest r) (zlen text) (ts_newlines (lr_summary r)) (ts_lines (lr_summary r))
        1 0 canonical_empty_marker_digest (BeforeMarkers 0) (AfterMarkers (zlen text))
  | LeafMarker marker =>
      let key := KeyMarker 0 (pm_order marker) (pm_id marker) in
      mkChild (rk_id (lr_key r)) (lr_digest r) 0 0 0 1 1 (lr_digest r) key key
  end.

Definition update_child (h : H) (c : DraftPieceChild) : H :=
  fold_left sha_update
    [c_id c; c_digest c; e_u64 (c_bytes c); e_u64 (c_newlines c); e_u64 (c_lines c); e_u64 (c_pieces c);
     e_u64 (c_markers c); c_marker_digest c; search_key_bytes (c_first c); search_key_bytes (c_last c)] h.

Definition piece_node_digest (height : Z) (children : list DraftPieceChild) : list byte :=
  let hash := sha_update sha_new (bytes_of_string "beryl.syndic.draft-piece.node.v1") in
  let hash := sha_update hash [byte_of height] in
  let hash := sha_update hash (e_u64 (zlen children)) in
  sha_finalize (fold_left update_child children hash).

Definition child_for_node (r : DraftPieceNodeRecord) : result DraftPieceRejectedReason DraftPieceChild :=
  '(text, pieces, markers) ← aggregate_children (nr_children r);
  let marker_digests := c_marker_digest <$> filter (fun c => c_markers c <> 0) (nr_children r) in
  first ← ok_or TreeLimit (c_first <$> head (nr_children r));
  last ← last_key first 0 (nr_children r);
  Ok (mkChild (rk_id (nr_key r)) (nr_digest r) (ts_bytes text) (ts_newlines text) (ts_lines text) pieces markers
        (marker_fold marker_digests) first last).

Definition root_digest (s : DraftPieceSummary) (node_digest : list byte) : list byte :=
  digest_bytes (bytes_of_string "beryl.syndic.draft-piece.root.v1")
    [[byte_of (sm_height s)]; e_u64 (sm_bytes s); e_u64 (sm_newlines s); e_u64 (sm_lines s); e_u64 (sm_pieces s);
     e_u64 (sm_markers s); sm_marker_digest s; node_digest].
End Digests.

(** ** Codec *)

Definition enc_record_key (k : DraftPieceRecordKey) : list byte := rk_draft k ++ rk_id k.
Definition dec_record_key : decoder DraftPieceRecordKey :=
  draft ← d_fixed16; id ← d_fixed16; mret (mkRecordKey draft id).

Definition enc_text_summary (s : DraftPieceTextSummary) : list byte :=
  e_u64 (ts_bytes s) ++ e_u64 (ts_newlines s) ++ e_u64 (ts_lines s).
Definition dec_text_summary : decoder DraftPieceTextSummary :=
  bytes ← d_u64; newlines ← d_u64; lines ← d_u64;
  if negb (is_canonical (mkTextSummary bytes newlines lines)) then refuse (InvalidLength "draft-piece logical text summary")
  else mret (mkTextSummary bytes newlines lines).

Definition enc_asset_id (a : AssetId) : list byte :=
  [version_byte (version a)] ++ asset_digest a ++ e_u64 (asset_length a).
Definition dec_asset_id : decoder AssetId :=
  tag ← d_u8;
  match tag with
  | 1 =>
      digest ← d_fixed32; length ← d_u64;
      if length =? 0 then refuse (InvalidLength "draft marker asset length")
      else mret (mkAssetId Sha256V1 digest length)
  | _ => refuse (InvalidTag "draft marker asset identity" tag)
  end.

Definition enc_search_key (k : DraftCompositeSearchKey) : list byte :=
  match k with
  | BeforeMarkers a => variant 0 (e_u64 a)
  | KeyMarker a order id => variant 1 (e_u64 a ++ e_u64 order ++ id)
  | AfterMarkers a => variant 2 (e_u64 a)
  end.
Definition dec_search_key : decoder DraftCompositeSearchKey :=
  tag ← d_u8;
  match tag with
  | 0 => a ← d_u64; mret (BeforeMarkers a)
  | 1 => a ← d_u64; order ← d_u64; id ← d_fixed16; mret (KeyMarker a order id)
  | 2 => a ← d_u64; mret (AfterMarkers a)
  | _ => refuse (InvalidTag "draft composite search key" tag)
  end.

Definition enc_marker (m : DraftPieceMarker) : list byte :=
  pm_id m ++ e_u64 (pm_order m) ++ e_u64 (pm_label m) ++ enc_asset_id (pm_asset m).
Definition dec_marker : decoder DraftPieceMarker :=
  id ← d_fixed16; order ← d_u64;
  label ← (v ← d_u64; checked "draft-piece label" (new_label v));
  asset ← dec_asset_id;
  mret (mkPieceMarker id order label asset).

Definition enc_leaf_value (v : DraftPieceLeafValue) : list byte :=
  match v with
  | LeafText text => variant 0 (e_text text)
  | LeafMarker marker => variant 1 (enc_marker marker)
  end.
Definition dec_leaf_value : decoder DraftPieceLeafValue :=
  tag ← d_u8;
  match tag with
  | 0 => LeafText <$> d_text "draft-piece leaf text"
  | 1 => LeafMarker <$> dec_marker
  | _ => refuse (InvalidTag "draft-piece leaf" tag)
  end.

Definition enc_child (c : DraftPieceChild) : list byte :=
  c_id c ++ c_digest c ++ enc_text_summary (child_summary c) ++ e_u64 (c_pieces c) ++ e_u64 (c_markers c)
  ++ c_marker_digest c ++ enc_search_key (c_first c) ++ enc_search_key (c_last c).
Definition dec_child : decoder DraftPieceChild :=
  id ← d_fixed16; digest ← d_fixed32; text ← dec_text_summary; pieces ← d_u64; markers ← d_u64;
  marker_digest ← d_fixed32; first ← dec_search_key; last ← dec_search_key;
  mret (mkChild id digest (ts_bytes text) (ts_newlines text) (ts_lines text) pieces markers marker_digest first last).

Definition enc_leaf_record (r : DraftPieceLeafRecord) : list byte :=
  enc_record_key (lr_key r) ++ enc_leaf_value (lr_value r) ++ enc_text_summary (lr_summary r) ++ lr_digest r.
Definition dec_leaf_record : decoder DraftPieceLeafRecord :=
  key ← dec_record_key; value ← dec_leaf_value; text_summary ← dec_text_summary; digest ← d_fixed32;
  mret (mkLeafRecord key value text_summary digest).

Definition enc_node_record (r : DraftPieceNodeRecord) : list byte :=
  enc_record_key (nr_key r) ++ e_u8 (nr_height r) ++ e_u64 (zlen (nr_children r))
  ++ concat (enc_child <$> nr_children r) ++ nr_digest r.
Definition dec_node_record : decoder DraftPieceNodeRecord :=
  key ← dec_record_key; height ← d_u8; count ← d_u64;
  if (count =? 0) || (Z.of_nat DRAFT_PIECE_MAX_CHILDREN <? count) then refuse (InvalidLength "draft-piece child count")
  else
    children ← d_list (Z.to_nat count) dec_child;
    digest ← d_fixed32;
    mret (mkNodeRecord key height children digest).

Definition value_summary (v : DraftPieceLeafValue) : DraftPieceTextSummary :=
  match v with LeafText text => from_utf8 text | LeafMarker _ => empty_summary end.

Section Families.
Context {H : Type} `{Sha256 H}.

Definition encode_leaf (r : DraftPieceLeafRecord) : result CodecError (list byte) := Ok (enc_leaf_record r).
Definition decode_leaf (bs : list byte) : result CodecError DraftPieceLeafRecord :=
  r ← run_decoder dec_leaf_record bs;
  if negb (bool_decide (lr_summary r = value_summary (lr_value r)))
     || negb (bool_decide (lr_digest r = leaf_digest (lr_value r) (lr_summary r)))
  then Err (InvalidLength "draft-piece leaf") else Ok r.

Definition encode_piece_node (r : DraftPieceNodeRecord) : result CodecError (list byte) := Ok (enc_node_record r).
Definition decode_piece_node (bs : list byte) : result CodecError DraftPieceNodeRecord :=
  r ← run_decoder dec_node_record bs;
  if (nr_height r =? 0) || negb (bool_decide (nr_digest r = piece_node_digest (nr_height r) (nr_children r)))
     || is_err (child_for_node r)
  then Err (InvalidLength "draft-piece node") else Ok r.

#[global] Instance piece_nodes_family : Family DraftPieceRecordKey DraftPieceNodeRecord := {|
  family_name := "draft-piece-nodes";
  max_value_bytes := 32768;
  encode_family_key k := Ok (enc_record_key k);
  encode_family_value := encode_piece_node;
  decode_family_value := decode_piece_node
|}.
#[global] Instance piece_leaves_family : Family DraftPieceRecordKey DraftPieceLeafRecord := {|
  family_name := "draft-piece-leaves";
  max_value_bytes := 33000;
  encode_family_key k := Ok (enc_record_key k);
  encode_family_value := encode_leaf;
  decode_family_value := decode_leaf
|}.
End Families.
