(* ===== verification/PieceCodec.v ===== *)
(** * The piece tree of a draft: the codec is exact

    The leaf and node codecs of [syndic-storage/src/draft_piece/codec.rs]: which byte strings
    decode, and to what; and what the two record families promise to the build budget. *)
From stdpp Require Import prelude gmap strings.
From S2P Require Import Prelude.
From S2P Require Import Bytes.
From S2P Require Import ModelIds.
From S2P Require Import ModelDigest.
From S2P Require Import SyndicParts.
From S2P Require Import BuildBudget.
From S2P Require Import MappingModel.
From S2P Require Import PieceModel.

(** ** Widths and constructors *)

Definition key_typed (k : DraftPieceRecordKey) : Prop := fixed 16 (rk_draft k) /\ fixed 16 (rk_id k).
Definition summary_typed (s : DraftPieceTextSummary) : Prop :=
  is_u64 (ts_bytes s) /\ is_u64 (ts_newlines s) /\ is_u64 (ts_lines s).
Definition summary_valid (s : DraftPieceTextSummary) : Prop := summary_typed s /\ is_canonical s = true.
Definition piece_asset_valid (a : AssetId) : Prop := fixed 32 (asset_digest a) /\ is_rev (asset_length a).
Definition search_key_typed (k : DraftCompositeSearchKey) : Prop :=
  match k with
  | BeforeMarkers a | AfterMarkers a => is_u64 a
  | KeyMarker a order id => is_u64 a /\ is_u64 order /\ fixed 16 id
  end.
Definition marker_typed (m : DraftPieceMarker) : Prop :=
  fixed 16 (pm_id m) /\ is_u64 (pm_order m) /\ is_rev (pm_label m) /\ piece_asset_valid (pm_asset m).
Definition value_typed (v : DraftPieceLeafValue) : Prop :=
  match v with LeafText text => is_text text | LeafMarker marker => marker_typed marker end.
Definition child_valid (c : DraftPieceChild) : Prop :=
  fixed 16 (c_id c) /\ fixed 32 (c_digest c) /\ summary_valid (child_summary c) /\ is_u64 (c_pieces c)
  /\ is_u64 (c_markers c) /\ fixed 32 (c_marker_digest c) /\ search_key_typed (c_first c) /\ search_key_typed (c_last c).

Definition leaf_framed (r : DraftPieceLeafRecord) : Prop :=
  key_typed (lr_key r) /\ value_typed (lr_value r) /\ summary_valid (lr_summary r) /\ fixed 32 (lr_digest r).
Definition node_record_framed (r : DraftPieceNodeRecord) : Prop :=
  key_typed (nr_key r) /\ is_u8 (nr_height r) /\ (1 <= length (nr_children r) <= DRAFT_PIECE_MAX_CHILDREN)%nat
  /\ Forall child_valid (nr_children r) /\ fixed 32 (nr_digest r).

(** ** The parts *)

#[global] Instance record_key_exact : Exact key_typed enc_record_key dec_record_key.
Proof. unfold dec_record_key, enc_record_key. exact_record. Qed.

#[global] Instance text_summary_exact : Exact summary_valid enc_text_summary dec_text_summary.
Proof.
  intros bs v rest. unfold dec_text_summary, enc_text_summary, summary_valid, summary_typed. split.
  - intros Hd. do 3 part_inv Hd. case_match eqn:E; [done|]. bool_facts. apply ret_Ok in Hd as [-> ->]. cbn.
    split; [by split_and!|]. by rewrite <- !app_assoc.
  - intros [[(H1 & H2 & H3) Hc] ->]. destruct v as [b n l]. cbn in *. rewrite <- !app_assoc. do 3 run_part. by rewrite Hc.
Qed.

#[global] Instance asset_exact : Exact piece_asset_valid enc_asset_id dec_asset_id.
Proof.
  intros bs v rest. unfold dec_asset_id, enc_asset_id, piece_asset_valid. split.
  - intros Hd. part_inv Hd. tag_cases x. do 2 part_inv Hd. case_match eqn:E; [done|]. bool_facts. apply ret_Ok in Hd as [-> ->]. cbn.
    split; [|by rewrite <- ?app_assoc]. split; [done|]. unfold is_u64, is_rev in *. lia.
  - intros [[H1 H2] ->]. destruct v as [[] dg n]. cbn [version version_byte asset_digest asset_length] in *.
    change [x01] with (e_u8 1). rewrite <- !app_assoc. run_part. cbn. unfold is_rev in H2. do 2 run_part.
    by rewrite (proj2 (Z.eqb_neq n 0)) by lia.
Qed.

#[global] Instance search_key_exact : Exact search_key_typed enc_search_key dec_search_key.
Proof.
  intros bs v rest. unfold dec_search_key. split.
  - intros Hd. part_inv Hd. tag_cases x; parts_inv Hd; (split; [cbn; by split_and?|]); cbn; unfold variant; by rewrite <- ?app_assoc.
  - intros [Hv ->]. destruct v; cbn in Hv; destruct_and?; unfold enc_search_key, variant; run_part; cbn; repeat run_part; done.
Qed.

#[global] Instance label_exact kind : Exact is_rev e_u64 (v ← d_u64; checked kind (new_label v)).
Proof.
  intros bs v rest. split.
  - intros Hd. part_inv Hd. apply checked_Ok in Hd as [Hl ->]. unfold new_label, nonzero in Hl.
    destruct (Z.eqb_spec x 0); cbn in Hl; [done|]. injection Hl as ->. split; [|done]. unfold is_u64, is_rev in *. lia.
  - intros [Hv ->]. unfold is_rev in Hv. run_part. apply checked_Ok. split; [|done]. unfold new_label, nonzero.
    by rewrite (proj2 (Z.eqb_neq v 0)) by lia.
Qed.

#[local] Arguments enc_asset_id : simpl never.
#[local] Arguments enc_marker : simpl never.
#[local] Arguments enc_text_summary : simpl never.

#[global] Instance marker_exact : Exact marker_typed enc_marker dec_marker.
Proof. unfold dec_marker, enc_marker. exact_record. Qed.

#[global] Instance leaf_value_exact : Exact value_typed enc_leaf_value dec_leaf_value.
Proof. unfold dec_leaf_value. exact_variant. Qed.

#[global] Instance piece_child_exact : Exact child_valid enc_child dec_child.
Proof.
  intros bs v rest. unfold dec_child, enc_child, child_valid. split.
  - intros Hd. parts_inv Hd. match goal with s : DraftPieceTextSummary |- _ => destruct s end. unfold child_summary. cbn in *. split; [by split_and!|]. by rewrite <- !app_assoc.
  - intros [(H1 & H2 & H3 & H4 & H5 & H6 & H7 & H8) ->]. destruct v. cbn in *. rewrite <- !app_assoc. do 8 run_part. done.
Qed.

#[global] Instance leaf_record_exact : Exact leaf_framed enc_leaf_record dec_leaf_record.
Proof. unfold dec_leaf_record, enc_leaf_record. exact_record. Qed.

#[global] Instance node_record_exact : Exact node_record_framed enc_node_record dec_node_record.
Proof.
  intros bs v rest. unfold dec_node_record, enc_node_record, node_record_framed. split.
  - intros Hd. do 3 part_inv Hd. case_match eqn:E; [done|]. bool_facts. unfold DRAFT_PIECE_MAX_CHILDREN, is_u64 in *. part_inv Hd. parts_inv Hd.
    match goal with H : _ /\ Forall _ _ |- _ => destruct H as [Hl Hf] end. cbn. split; [split_and!; try done; lia|]. rewrite Hl, Z2Nat.id by lia. by rewrite <- !app_assoc.
  - intros [(H1 & H2 & Hl & H4 & H5) ->]. destruct v as [k h cs dg]. cbn in *. unfold DRAFT_PIECE_MAX_CHILDREN in *. rewrite <- !app_assoc.
    do 3 run_part. rewrite (proj2 (Z.eqb_neq _ 0)), (proj2 (Z.ltb_ge _ _)), Nat2Z.id by lia. cbn [orb].
    eapply bind_run; [apply _|by split|reflexivity|]. by run_part.
Qed.

(** ** Records *)

Section Records.
Context {H : Type} `{Sha256 H}.

Definition leaf_sound (r : DraftPieceLeafRecord) : Prop :=
  lr_summary r = value_summary (lr_value r) /\ lr_digest r = leaf_digest (lr_value r) (lr_summary r).
Definition node_record_sound (r : DraftPieceNodeRecord) : Prop :=
  nr_height r <> 0 /\ nr_digest r = piece_node_digest (nr_height r) (nr_children r) /\ is_ok (child_for_node r) = true.

Definition leaf_record_valid (r : DraftPieceLeafRecord) : Prop := leaf_framed r /\ leaf_sound r.
Definition node_record_valid (r : DraftPieceNodeRecord) : Prop := node_record_framed r /\ node_record_sound r.

Lemma decode_leaf_Ok bs r : decode_leaf bs = Ok r <-> leaf_record_valid r /\ encode_leaf r = Ok bs.
Proof.
  unfold decode_leaf, encode_leaf, leaf_record_valid, leaf_sound. rewrite result_bind_Ok. split.
  - intros (r' & Hr & Hc). apply (run_exact leaf_framed enc_leaf_record dec_leaf_record) in Hr as [Hf ->]. case_match eqn:E; [done|].
    injection Hc as <-. bool_facts. by split_and!.
  - intros [[Hf [E1 E2]] [= <-]]. exists r. split; [by apply (run_exact leaf_framed enc_leaf_record dec_leaf_record)|].
    by rewrite !bool_decide_true.
Qed.

Lemma decode_piece_node_Ok bs r : decode_piece_node bs = Ok r <-> node_record_valid r /\ encode_piece_node r = Ok bs.
Proof.
  unfold decode_piece_node, encode_piece_node, node_record_valid, node_record_sound. rewrite result_bind_Ok. split.
  - intros (r' & Hr & Hc). apply (run_exact node_record_framed enc_node_record dec_node_record) in Hr as [Hf ->]. case_match eqn:E; [done|].
    injection Hc as <-. unfold is_err in E. bool_facts. by split_and!.
  - intros [[Hf (E1 & E2 & E3)] [= <-]]. exists r. split; [by apply (run_exact node_record_framed enc_node_record dec_node_record)|].
    rewrite bool_decide_true, (proj2 (Z.eqb_neq _ 0)) by done. unfold is_err. by rewrite E3.
Qed.

Lemma search_key_length k : search_key_typed k -> (length (enc_search_key k) <= 33)%nat.
Proof.
  destruct k; cbn [search_key_typed enc_search_key]; intros; destruct_and?; unfold variant, e_u8, e_u64, fixed in *;
    rewrite ?length_app, ?length_be_bytes; lia.
Qed.

Lemma enc_child_length c : child_valid c -> (length (enc_child c) <= 186)%nat.
Proof.
  intros (H1 & H2 & _ & _ & _ & H6 & H7 & H8). unfold enc_child, enc_text_summary, e_u64, fixed in *. rewrite !length_app, !length_be_bytes.
  apply search_key_length in H7, H8. lia.
Qed.

Lemma enc_node_record_length r : node_record_framed r -> zlen (enc_node_record r) <= 32768.
Proof.
  intros ([H1 H2] & _ & Hl & Hc & H5). unfold enc_node_record, enc_record_key, e_u8, e_u64, fixed, DRAFT_PIECE_MAX_CHILDREN in *.
  rewrite !length_app, !length_be_bytes.
  assert (length (concat (enc_child <$> nr_children r)) <= 186 * length (nr_children r))%nat; [|lia].
  clear -Hc. induction Hc as [|c cs Hc _ IH]; [done|]. cbn. rewrite length_app. apply enc_child_length in Hc. lia.
Qed.

#[global] Instance piece_nodes_laws : FamilyLaws DraftPieceRecordKey DraftPieceNodeRecord.
Proof.
  refine {| family_key_typed := key_typed; family_typed := node_record_valid |}.
  - done.
  - intros r bs Hr He. by apply decode_piece_node_Ok.
  - intros r bs [Hf _] [= <-]. by apply enc_node_record_length.
  - intros [d i] [d' i'] ek [H1 H2] [H1' H2'] [= <-] [= E]. cbn in *. unfold enc_record_key in E. cbn in E.
    apply app_inj_1 in E as [-> ->]; [done|]. unfold fixed in *. congruence.
Defined.

(** The store bounds what it holds: a leaf it returned is within the family's limit. *)
#[global] Instance piece_leaves_laws : FamilyLaws DraftPieceRecordKey DraftPieceLeafRecord.
Proof.
  refine {| family_key_typed := key_typed; family_typed r := leaf_record_valid r /\ zlen (enc_leaf_record r) <= 33000 |}.
  - done.
  - intros r bs [Hr _] He. by apply decode_leaf_Ok.
  - by intros r bs [_ Hr] [= <-].
  - intros [d i] [d' i'] ek [H1 H2] [H1' H2'] [= <-] [= E]. cbn in *. unfold enc_record_key in E. cbn in E.
    apply app_inj_1 in E as [-> ->]; [done|]. unfold fixed in *. congruence.
Defined.
End Records.
