(* ===== verification/PieceTree.v ===== *)
(** * The piece tree of a draft: loading, emitting and editing

    [syndic-storage/src/draft_piece/persistent.rs] (loads, emissions, insertion of a leaf),
    [persistent/sequence_edit.rs] (removal), [persistent/sequence_units.rs] (positions) and
    [persistent/tree_balance.rs].  An edit returns a new root; the records it makes are kept in
    the context until the quantum commits, and shadow nothing the store holds.

    The recursion of the edits is on the height of the tree. *)
From stdpp Require Import prelude gmap strings.
From S2P Require Import Prelude.
From S2P Require Import Bytes.
From S2P Require Import ModelDigest.
From S2P Require Import SyndicParts.
From S2P Require Import BuildBudget.
From S2P Require Import MappingModel.
From S2P Require Import MappingProgram.
From S2P Require Import PieceModel.

Record SequenceRef := mkRef { sr_link : DraftPieceChild; sr_height : Z; sr_root : bool }.

Record Boundary := mkBound { b_rank : Z; b_inner : Z }.
#[global] Instance bound_eq_dec : EqDecision Boundary.
Proof. solve_decision. Defined.

(** The derived [Ord] of a boundary. *)
Definition boundary_ltb (a b : Boundary) : bool :=
  (b_rank a <? b_rank b) || ((b_rank a =? b_rank b) && (b_inner a <? b_inner b)).

(** [usize] has 64 bits, so that the conversion does not fail. *)
Definition checked_boundary (b : DraftPieceBuildBoundary) : Boundary := mkBound (bd_rank b) (bd_inner b).
Definition durable_boundary (b : Boundary) : DraftPieceBuildBoundary := mkBoundary (b_rank b) (b_inner b).

Record DraftMarkerIdentityOccurrence := mkOccurrence {
  oc_marker_id : list byte;
  oc_label : Z;
  oc_asset_id : AssetId;
  oc_order_key : Z;
  oc_leaf_id : list byte;
  oc_leaf_digest : list byte
}.

(** The context of [MappingProgram] with the records of the sequence tree beside it. *)
Record PieceContext := mkPieces {
  pb : BuildContext;
  pb_nodes : gmap (list byte) DraftPieceNodeRecord;
  pb_leaves : gmap (list byte) DraftPieceLeafRecord;
  pb_loaded_nodes : gmap (list byte) DraftPieceNodeRecord;
  pb_loaded_leaves : gmap (list byte) DraftPieceLeafRecord
}.

Definition with_build (c : PieceContext) (b : BuildContext) : PieceContext :=
  mkPieces b (pb_nodes c) (pb_leaves c) (pb_loaded_nodes c) (pb_loaded_leaves c).

Definition with_acquisition (b : BuildContext) (a : Acquired) : BuildContext :=
  mkBuild (bc_draft_id b) (bc_session_id b) (bc_operation_id b) (bc_ordinal b) (bc_records_read b) (bc_mapping b)
    (bc_mapping_records b) (Some a).
Definition with_ordinal (b : BuildContext) (o : Z) : BuildContext :=
  mkBuild (bc_draft_id b) (bc_session_id b) (bc_operation_id b) o (bc_records_read b) (bc_mapping b)
    (bc_mapping_records b) (bc_acquisition b).
Definition with_records_read (b : BuildContext) (n : Z) : BuildContext :=
  mkBuild (bc_draft_id b) (bc_session_id b) (bc_operation_id b) (bc_ordinal b) n (bc_mapping b)
    (bc_mapping_records b) (bc_acquisition b).

(** ** A state and error monad *)
Definition piecem (R A : Type) : Type := PieceContext -> result (DraftPiecePrepareError R) (A * PieceContext).
#[global] Instance piecem_ret R : MRet (piecem R) := fun A a c => Ok (a, c).
#[global] Instance piecem_bind R : MBind (piecem R) := fun A B k m c =>
  match m c with Ok (a, c') => k a c' | Err e => Err e end.
Definition lift_piece {R A} (r : result (DraftPiecePrepareError R) A) : piecem R A := fun c =>
  match r with Ok a => Ok (a, c) | Err e => Err e end.
Definition fail_piece {R A} (e : DraftPiecePrepareError R) : piecem R A := fun _ => Err e.
Definition reject_piece {R A} (e : DraftPieceRejectedReason) : piecem R A := fail_piece (Rejected e).

(** [tree_balance::pack_children], for the monads of the trees *)
Definition pack_children {M : Type -> Type} `{MRet M, MBind M} {C A : Type} (children : list C) (build : list C -> M A) : M (list A) :=
  if (length children <=? DRAFT_PIECE_MAX_CHILDREN)%nat then r ← build children; mret [r]
  else
    let middle := (length children / 2)%nat in
    l ← build (take middle children);
    r ← build (drop middle children);
    mret [l; r].

(** ** Texts *)

Definition is_char_boundary (text : list byte) (i : Z) : bool :=
  (i =? 0) || (i =? zlen text)
  || match text !! Z.to_nat i with Some b => negb (is_continuation b) | None => false end.

Definition text_range (text : list byte) (a b : Z) : list byte := take (Z.to_nat (b - a)) (drop (Z.to_nat a) text).

(** ** Validation *)

Section Tree.
Context {H : Type} `{Sha256 H} {R : Type}.
Context (node_store : DraftPieceRecordKey -> result (DraftPiecePrepareError R) (option DraftPieceNodeRecord))
        (leaf_store : DraftPieceRecordKey -> result (DraftPiecePrepareError R) (option DraftPieceLeafRecord)).
Abbreviation piece_result := (result (DraftPiecePrepareError R)).

Definition validate_sequence_node (node : DraftPieceNodeRecord) (expected : DraftPieceChild) (height : Z)
    (selected_root : bool) : piece_result DraftPieceNodeRecord :=
  let minimum_children := if selected_root then 1%nat else 2%nat in
  if negb (bool_decide (rk_id (nr_key node) = c_id expected)) || negb (nr_height node =? height) || (height =? 0)
     || (length (nr_children node) <? minimum_children)%nat
     || (DRAFT_PIECE_MAX_CHILDREN <? length (nr_children node))%nat
     || negb (bool_decide (nr_digest node = piece_node_digest height (nr_children node)))
  then Err InvalidRoot
  else match child_for_node node with
       | Err _ => Err InvalidRoot
       | Ok link => if bool_decide (link = expected) then Ok node else Err InvalidRoot
       end.

Definition root_summary (link : DraftPieceChild) (height : Z) (digest : list byte) : DraftPieceSummary :=
  mkSummary (c_bytes link) (c_newlines link) (c_lines link) (c_pieces link) (c_markers link) (c_marker_digest link)
    height digest.

Definition validate_sequence_root_node (node : DraftPieceNodeRecord) (summary : DraftPieceSummary)
    : piece_result DraftPieceNodeRecord :=
  if negb (nr_height node =? sm_height summary) || (nr_height node =? 0) || bool_decide (nr_children node = [])
     || (DRAFT_PIECE_MAX_CHILDREN <? length (nr_children node))%nat
     || negb (bool_decide (nr_digest node = piece_node_digest (nr_height node) (nr_children node)))
  then Err InvalidRoot
  else match child_for_node node with
       | Err _ => Err InvalidRoot
       | Ok link =>
           let provisional := root_summary link (nr_height node) (replicate 32 x00) in
           if negb (sm_bytes summary =? c_bytes link) || negb (sm_newlines summary =? c_newlines link)
              || negb (sm_lines summary =? c_lines link) || negb (sm_pieces summary =? c_pieces link)
              || negb (sm_markers summary =? c_markers link)
              || negb (bool_decide (sm_marker_digest summary = c_marker_digest link))
              || negb (bool_decide (sm_root_digest summary = root_digest provisional (c_digest link)))
           then Err InvalidRoot else Ok node
       end.

Definition validate_sequence_leaf (leaf : DraftPieceLeafRecord) (expected : DraftPieceChild)
    : piece_result DraftPieceLeafRecord :=
  if negb (bool_decide (rk_id (lr_key leaf) = c_id expected)) || negb (is_canonical (lr_summary leaf))
     || negb (bool_decide (lr_summary leaf = value_summary (lr_value leaf)))
     || negb (bool_decide (lr_digest leaf = leaf_digest (lr_value leaf) (lr_summary leaf)))
     || negb (bool_decide (child_for_leaf leaf = expected))
  then Err InvalidRoot else Ok leaf.

(** ** Loads *)

(** [BuildContext::point] *)
Definition piece_point {K V} `{Family K V} (store : K -> piece_result (option V))
    (key : K) : piecem R (option V) := fun c =>
  match bc_acquisition (pb c) with
  | Some a =>
      match acquired_point a store key with
      | Ok (o, a) => Ok (o, with_build c (with_acquisition (pb c) a))
      | Err e => Err e
      end
  | None => match store key with Ok o => Ok (o, c) | Err e => Err e end
  end.

Definition count_read : piecem R unit := fun c =>
  match checked_add64 (bc_records_read (pb c)) 1 with
  | Some n => Ok (tt, with_build c (with_records_read (pb c) n))
  | None => Err (Rejected AggregateOverflow)
  end.

Definition remember_node (id : list byte) (node : DraftPieceNodeRecord) : piecem R unit := fun c =>
  Ok (tt, mkPieces (pb c) (pb_nodes c) (pb_leaves c) (<[id := node]> (pb_loaded_nodes c)) (pb_loaded_leaves c)).
Definition remember_leaf (id : list byte) (leaf : DraftPieceLeafRecord) : piecem R unit := fun c =>
  Ok (tt, mkPieces (pb c) (pb_nodes c) (pb_leaves c) (pb_loaded_nodes c) (<[id := leaf]> (pb_loaded_leaves c))).

Definition load_sequence_node (expected : DraftPieceChild) (height : Z) (selected_root : bool)
    : piecem R DraftPieceNodeRecord := fun c =>
  let id := c_id expected in
  match pb_nodes c !! id with
  | Some node => lift_piece (validate_sequence_node node expected height true) c
  | None =>
      match pb_loaded_nodes c !! id with
      | Some node => lift_piece (validate_sequence_node node expected height selected_root) c
      | None =>
          (stored ← piece_point node_store (mkRecordKey (bc_draft_id (pb c)) id);
           node ← lift_piece (ok_or Absent stored);
           _ ← count_read;
           node ← lift_piece (validate_sequence_node node expected height selected_root);
           _ ← remember_node id node;
           mret node) c
      end
  end.

Definition load_sequence_root_node (id : list byte) (summary : DraftPieceSummary) : piecem R DraftPieceNodeRecord := fun c =>
  match pb_nodes c !! id with
  | Some node => lift_piece (validate_sequence_root_node node summary) c
  | None =>
      match pb_loaded_nodes c !! id with
      | Some node => lift_piece (validate_sequence_root_node node summary) c
      | None =>
          let key := mkRecordKey (bc_draft_id (pb c)) id in
          (stored ← piece_point node_store key;
           node ← lift_piece (ok_or Absent stored);
           _ ← count_read;
           if negb (bool_decide (nr_key node = key)) then fail_piece InvalidRoot
           else
             node ← lift_piece (validate_sequence_root_node node summary);
             _ ← remember_node id node;
             mret node) c
      end
  end.

Definition load_sequence_leaf (expected : DraftPieceChild) : piecem R DraftPieceLeafRecord := fun c =>
  let id := c_id expected in
  match pb_leaves c !! id with
  | Some leaf => lift_piece (validate_sequence_leaf leaf expected) c
  | None =>
      match pb_loaded_leaves c !! id with
      | Some leaf => lift_piece (validate_sequence_leaf leaf expected) c
      | None =>
          (stored ← piece_point leaf_store (mkRecordKey (bc_draft_id (pb c)) id);
           leaf ← lift_piece (ok_or Absent stored);
           _ ← count_read;
           leaf ← lift_piece (validate_sequence_leaf leaf expected);
           _ ← remember_leaf id leaf;
           mret leaf) c
      end
  end.

(** ** Emissions *)

Definition next_id (digest : list byte) : piecem R (list byte) := fun c =>
  let b := pb c in
  match bc_session_id b with
  | None => Err InvalidRoot
  | Some session_id =>
      let id := piece_record_id (bc_draft_id b) session_id (bc_operation_id b) (bc_ordinal b) digest in
      match checked_add64 (bc_ordinal b) 1 with
      | None => Err (Rejected AggregateOverflow)
      | Some next => Ok (id, with_build c (with_ordinal b next))
      end
  end.

Definition charge_emission {K V} `{Family K V} (key : K) (value : V) : piecem R unit := fun c =>
  match bc_acquisition (pb c) with
  | Some a =>
      match emission a key value with
      | Ok a => Ok (tt, with_build c (with_acquisition (pb c) a))
      | Err e => Err e
      end
  | None => Ok (tt, c)
  end.

Definition push_leaf (id : list byte) (leaf : DraftPieceLeafRecord) : piecem R unit := fun c =>
  Ok (tt, mkPieces (pb c) (pb_nodes c) (<[id := leaf]> (pb_leaves c)) (pb_loaded_nodes c) (pb_loaded_leaves c)).
Definition push_node (id : list byte) (node : DraftPieceNodeRecord) : piecem R unit := fun c =>
  Ok (tt, mkPieces (pb c) (<[id := node]> (pb_nodes c)) (pb_leaves c) (pb_loaded_nodes c) (pb_loaded_leaves c)).

Definition draft_of : piecem R (list byte) := fun c => Ok (bc_draft_id (pb c), c).

Definition new_sequence_leaf (value : DraftPieceLeafValue) : piecem R SequenceRef :=
  let text_summary := value_summary value in
  let digest := leaf_digest value text_summary in
  id ← next_id digest;
  draft ← draft_of;
  let leaf := mkLeafRecord (mkRecordKey draft id) value text_summary digest in
  let link := child_for_leaf leaf in
  _ ← charge_emission (lr_key leaf) leaf;
  _ ← push_leaf id leaf;
  mret (mkRef link 0 true).

Definition new_sequence_node (height : Z) (children : list DraftPieceChild) : piecem R SequenceRef :=
  if (height =? 0) || (DRAFT_PIECE_MAX_HEIGHT <? height) || bool_decide (children = [])
     || (DRAFT_PIECE_MAX_CHILDREN <? length children)%nat
  then reject_piece TreeLimit
  else
    let digest := piece_node_digest height children in
    id ← next_id digest;
    draft ← draft_of;
    let node := mkNodeRecord (mkRecordKey draft id) height children digest in
    match child_for_node node with
    | Err e => reject_piece e
    | Ok link =>
        _ ← charge_emission (nr_key node) node;
        _ ← push_node id node;
        mret (mkRef link height true)
    end.

(** ** Insertion *)

(** [sequence_units::extent] *)
Definition link_units (c : DraftPieceChild) : Z := c_bytes c + c_markers c.
Definition extent (tree : option SequenceRef) : Z := from_option (fun t => link_units (sr_link t)) 0 tree.

Definition verify_sequence_splice (kind : DraftPieceMappingSpliceKind) (a removed inserted : Z) : piecem R unit := fun c =>
  match verify_splice (pb c) kind a removed inserted with Ok tt => Ok (tt, c) | Err e => Err e end.

Definition insertion_kind (inserted : SequenceRef) : DraftPieceMappingSpliceKind :=
  if c_markers (sr_link inserted) =? 0 then TextInsert else MarkerInsert.

Definition insert_at_leaf (tree : SequenceRef) (b : Boundary) (inserted : SequenceRef) (prefix_units : Z)
    : piecem R (list SequenceRef) :=
  let units := if (b_inner b =? 0) && (b_rank b =? 1) then prefix_units + extent (Some tree)
               else prefix_units + b_inner b in
  _ ← verify_sequence_splice (insertion_kind inserted) units 0 (extent (Some inserted));
  if (b_inner b =? 0) && (b_rank b =? 0) then mret [inserted; tree]
  else if (b_inner b =? 0) && (b_rank b =? 1) then mret [tree; inserted]
  else if negb (b_rank b =? 0) || (b_inner b =? 0) then fail_piece InvalidRoot
  else
    leaf ← load_sequence_leaf (sr_link tree);
    match lr_value leaf with
    | LeafMarker _ => fail_piece InvalidRoot
    | LeafText text =>
        if (zlen text <=? b_inner b) || negb (is_char_boundary text (b_inner b)) then reject_piece InvalidUtf8Boundary
        else
          l ← new_sequence_leaf (LeafText (take (Z.to_nat (b_inner b)) text));
          r ← new_sequence_leaf (LeafText (drop (Z.to_nat (b_inner b)) text));
          mret [l; inserted; r]
    end.

(** The child the loop of [insert_sequence_leaf_recursive] selects: its index, and the pieces
    and units before it. *)
Fixpoint select_insertion (b : Boundary) (consumed units : Z) (index : nat) (children : list DraftPieceChild)
    : piece_result (nat * DraftPieceChild * Z * Z) :=
  match children with
  | [] => Err InvalidRoot
  | child :: children =>
      next ← ok_or (Rejected AggregateOverflow) (checked_add64 consumed (c_pieces child));
      if ((b_inner b =? 0) && (consumed <=? b_rank b) && (b_rank b <=? next))
         || (negb (b_inner b =? 0) && (consumed <=? b_rank b) && (b_rank b <? next))
      then Ok (index, child, consumed, units)
      else select_insertion b next (units + link_units child) (S index) children
  end.

Fixpoint insert_sequence_leaf_recursive (h : nat) (link : DraftPieceChild) (selected_root : bool) (b : Boundary)
    (inserted : SequenceRef) (prefix_units : Z) : piecem R (list SequenceRef) :=
  match h with
  | O => insert_at_leaf (mkRef link 0 selected_root) b inserted prefix_units
  | S h' =>
      node ← load_sequence_node link (Z.of_nat h) selected_root;
      '(index, child, consumed, consumed_units) ← lift_piece (select_insertion b 0 prefix_units 0 (nr_children node));
      replacements ← insert_sequence_leaf_recursive h' child false (mkBound (b_rank b - consumed) (b_inner b)) inserted consumed_units;
      let children := take index (nr_children node) ++ (sr_link <$> replacements) ++ drop (S index) (nr_children node) in
      pack_children children (new_sequence_node (Z.of_nat h))
  end.

Definition insert_sequence_leaf (tree : option SequenceRef) (b : Boundary) (inserted : SequenceRef) : piecem R SequenceRef :=
  match tree with
  | None =>
      if negb (b_rank b =? 0) || negb (b_inner b =? 0) then fail_piece InvalidRoot
      else _ ← verify_sequence_splice (insertion_kind inserted) 0 0 (extent (Some inserted)); mret inserted
  | Some tree =>
      roots ← insert_sequence_leaf_recursive (Z.to_nat (sr_height tree)) (sr_link tree) (sr_root tree) b inserted 0;
      match roots with
      | [root] => mret root
      | [l; r] =>
          if sr_height l =? sr_height r
          then new_sequence_node (sr_height l + 1) [sr_link l; sr_link r]
          else fail_piece InvalidRoot
      | _ => fail_piece InvalidRoot
      end
  end.

(** ** Removal *)

Inductive EditedSequence :=
  | EditedEmpty
  | EditedTree (tree : SequenceRef)
  | EditedUnderfull (height : Z) (children : list DraftPieceChild).

Definition occurrence_matches (leaf : DraftPieceLeafRecord) (expected : DraftMarkerIdentityOccurrence) : bool :=
  match lr_value leaf with
  | LeafMarker value =>
      bool_decide (pm_id value = oc_marker_id expected) && (pm_label value =? oc_label expected)
      && bool_decide (pm_asset value = oc_asset_id expected) && (pm_order value =? oc_order_key expected)
  | LeafText _ => false
  end
  && bool_decide (rk_id (lr_key leaf) = oc_leaf_id expected) && bool_decide (lr_digest leaf = oc_leaf_digest expected).

Definition edit_at_leaf (link : DraftPieceChild) (rank start : Z) (end_ : option Z)
    (marker : option DraftMarkerIdentityOccurrence) (prefix_units : Z) : piecem R EditedSequence :=
  if negb (rank =? 0) then fail_piece InvalidRoot
  else
    leaf ← load_sequence_leaf link;
    match marker with
    | Some expected =>
        _ ← verify_sequence_splice MarkerDelete prefix_units 1 0;
        if occurrence_matches leaf expected then mret EditedEmpty else fail_piece InvalidRoot
    | None =>
        match lr_value leaf with
        | LeafMarker _ => fail_piece InvalidRoot
        | LeafText text =>
            let end_ := default (zlen text) end_ in
            if (end_ <=? start) || (zlen text <? end_) || negb (is_char_boundary text start) || negb (is_char_boundary text end_)
            then reject_piece InvalidUtf8Boundary
            else if (start =? 0) && (end_ =? zlen text) then
              _ ← verify_sequence_splice TextDelete prefix_units (end_ - start) 0; mret EditedEmpty
            else
              _ ← verify_sequence_splice TextDelete (prefix_units + start) (end_ - start) 0;
              tree ← new_sequence_leaf (LeafText (take (Z.to_nat start) text ++ drop (Z.to_nat end_) text));
              mret (EditedTree tree)
        end
    end.

(** [position]: the first child that holds the piece, with the rank in it and the units before it. *)
Fixpoint select_rank (remaining prefix : Z) (index : nat) (children : list DraftPieceChild)
    : option (nat * DraftPieceChild * Z * Z) :=
  match children with
  | [] => None
  | child :: children =>
      if remaining <? c_pieces child then Some (index, child, remaining, prefix)
      else select_rank (remaining - c_pieces child) (prefix + link_units child) (S index) children
  end.

Definition replace_range {A} (l : list A) (lo hi : nat) (r : list A) : list A := take lo l ++ r ++ drop (S hi) l.

(** An underfull child takes a sibling in; there is one, as the children are at least two. *)
Definition merge_underfull (children : list DraftPieceChild) (index : nat) (height : Z) (underfull : list DraftPieceChild)
    : piecem R (list DraftPieceChild) :=
  let sibling_index := if (index =? 0)%nat then 1%nat else (index - 1)%nat in
  match children !! sibling_index with
  | None => fail_piece InvalidRoot
  | Some sibling_link =>
      sibling ← load_sequence_node sibling_link height false;
      let combined := if (sibling_index <? index)%nat then nr_children sibling ++ underfull else underfull ++ nr_children sibling in
      replacements ← pack_children combined (new_sequence_node height);
      mret (replace_range children (Nat.min index sibling_index) (Nat.max index sibling_index) (sr_link <$> replacements))
  end.

Definition rebuild (height : Z) (children : list DraftPieceChild) : piecem R EditedSequence :=
  match children with
  | [] => mret EditedEmpty
  | [_] => mret (EditedUnderfull height children)
  | _ => tree ← new_sequence_node height children; mret (EditedTree tree)
  end.

Fixpoint edit_leaf (h : nat) (link : DraftPieceChild) (selected_root : bool) (rank start : Z) (end_ : option Z)
    (marker : option DraftMarkerIdentityOccurrence) (prefix_units : Z) : piecem R EditedSequence :=
  match h with
  | O => edit_at_leaf link rank start end_ marker prefix_units
  | S h' =>
      node ← load_sequence_node link (Z.of_nat h) selected_root;
      let children := nr_children node in
      '(index, child, remaining, selected_prefix) ← lift_piece (ok_or InvalidRoot (select_rank rank prefix_units 0 children));
      edited ← edit_leaf h' child false remaining start end_ marker selected_prefix;
      match edited with
      | EditedEmpty => rebuild (Z.of_nat h) (delete index children)
      | EditedTree replacement =>
          if negb (sr_height replacement =? Z.of_nat h') then fail_piece InvalidRoot
          else rebuild (Z.of_nat h) (<[index := sr_link replacement]> children)
      | EditedUnderfull height underfull =>
          if negb (height =? Z.of_nat h') || negb (length underfull =? 1)%nat then fail_piece InvalidRoot
          else if (length children =? 1)%nat then
            if negb selected_root then fail_piece InvalidRoot else mret (EditedUnderfull height underfull)
          else
            children ← merge_underfull children index height underfull;
            rebuild (Z.of_nat h) children
      end
  end.

Definition finish_edit (edit : EditedSequence) : piecem R (option SequenceRef) :=
  match edit with
  | EditedEmpty => mret None
  | EditedTree tree => mret (Some tree)
  | EditedUnderfull height children =>
      match children with
      | [child] => if height =? 0 then fail_piece InvalidRoot else mret (Some (mkRef child (height - 1) true))
      | _ => fail_piece InvalidRoot
      end
  end.

(** What [remove_text_slice] removes next: the piece and the range in it, and what is left. *)
Definition slice_plan (start end_ : Boundary) : piece_result (Z * Z * option Z * Boundary * Boundary) :=
  if 0 <? b_inner end_ then
    if b_rank end_ =? b_rank start then Ok (b_rank end_, b_inner start, Some (b_inner end_), start, start)
    else Ok (b_rank end_, 0, Some (b_inner end_), start, mkBound (b_rank end_) 0)
  else
    rank ← ok_or InvalidRoot (checked_sub64 (b_rank end_) 1);
    if rank <? b_rank start then Err InvalidRoot
    else if (rank =? b_rank start) && (0 <? b_inner start) then
      let insertion := mkBound (b_rank end_) 0 in Ok (rank, b_inner start, None, insertion, insertion)
    else Ok (rank, 0, None, start, mkBound rank 0).

Definition remove_text_slice (tree : SequenceRef) (start end_ : Boundary) : piecem R (option SequenceRef * Boundary * Boundary) :=
  if negb (boundary_ltb start end_) then fail_piece InvalidRoot
  else
    '(rank, first, last, next_start, next_end) ← lift_piece (slice_plan start end_);
    edit ← edit_leaf (Z.to_nat (sr_height tree)) (sr_link tree) (sr_root tree) rank first last None 0;
    sequence ← finish_edit edit;
    mret (sequence, next_start, next_end).

Definition remove_marker (tree : SequenceRef) (rank : Z) (expected : DraftMarkerIdentityOccurrence) : piecem R (option SequenceRef) :=
  edit ← edit_leaf (Z.to_nat (sr_height tree)) (sr_link tree) (sr_root tree) rank 0 None (Some expected) 0;
  finish_edit edit.

(** ** Positions *)

Record UnitFact := mkUnitFact {
  uf_boundary : Boundary;
  uf_unit : Z;
  uf_logical_offset : Z;
  uf_marker_ordinal : Z;
  uf_leaf : option DraftPieceLeafRecord
}.

Inductive Cut := CutUnit (unit : Z) | CutBoundary (boundary : Boundary).

Fixpoint select_cut (cut : Cut) (rank logical markers : Z) (children : list DraftPieceChild)
    : piece_result (DraftPieceChild * Z * Z * Z) :=
  match children with
  | [] => Err InvalidRoot
  | child :: children =>
      next_rank ← ok_or InvalidRoot (checked_add64 rank (c_pieces child));
      next_logical ← ok_or InvalidRoot (checked_add64 logical (c_bytes child));
      next_markers ← ok_or InvalidRoot (checked_add64 markers (c_markers child));
      if match cut with CutUnit unit => unit <? next_logical + next_markers | CutBoundary b => b_rank b <? next_rank end
      then Ok (child, rank, logical, markers)
      else select_cut cut next_rank next_logical next_markers children
  end.

(** The position inside the leaf that was found. *)
Definition locate_in_leaf (cut : Cut) (leaf : DraftPieceLeafRecord) (rank logical markers : Z) : piece_result UnitFact :=
  let prefix := logical + markers in
  inner ← match cut with
          | CutUnit unit =>
              n ← ok_or InvalidRoot (checked_sub64 unit prefix);
              if n <=? U64_MAX then Ok n else Err InvalidRoot
          | CutBoundary b => if b_rank b =? rank then Ok (b_inner b) else Err InvalidRoot
          end;
  boundary ← match lr_value leaf with
             | LeafText text =>
                 if (zlen text <? inner) || negb (is_char_boundary text inner) then Err (Rejected InvalidUtf8Boundary)
                 else if inner =? zlen text then
                   rank ← ok_or InvalidRoot (checked_add64 rank 1); Ok (mkBound rank 0)
                 else Ok (mkBound rank inner)
             | LeafMarker _ => if inner =? 0 then Ok (mkBound rank inner) else Err InvalidRoot
             end;
  logical_offset ← ok_or InvalidRoot (checked_add64 logical inner);
  Ok (mkUnitFact boundary (prefix + inner) logical_offset markers (Some leaf)).

Fixpoint locate_from (h : nat) (link : DraftPieceChild) (selected_root : bool) (cut : Cut) (rank logical markers : Z)
    : piecem R UnitFact :=
  match h with
  | O => leaf ← load_sequence_leaf link; lift_piece (locate_in_leaf cut leaf rank logical markers)
  | S h' =>
      node ← load_sequence_node link (Z.of_nat h) selected_root;
      '(child, rank, logical, markers) ← lift_piece (select_cut cut rank logical markers (nr_children node));
      locate_from h' child false cut rank logical markers
  end.

Definition locate (tree : option SequenceRef) (cut : Cut) : piecem R UnitFact :=
  let count := from_option (fun t => c_pieces (sr_link t)) 0 tree in
  let units := extent tree in
  eof ← match cut with
        | CutUnit unit => if units <? unit then fail_piece InvalidRoot else mret (unit =? units)
        | CutBoundary b =>
            if (count <? b_rank b) || ((b_rank b =? count) && negb (b_inner b =? 0)) then fail_piece InvalidRoot
            else mret (b_rank b =? count)
        end;
  if (eof : bool) then
    mret (mkUnitFact (mkBound count 0) units (from_option (fun t => c_bytes (sr_link t)) 0 tree)
            (from_option (fun t => c_markers (sr_link t)) 0 tree) None)
  else
    match tree with
    | None => fail_piece InvalidRoot
    | Some tree => locate_from (Z.to_nat (sr_height tree)) (sr_link tree) (sr_root tree) cut 0 0 0
    end.

Definition sequence_at_unit (tree : option SequenceRef) (unit : Z) : piecem R UnitFact := locate tree (CutUnit unit).
Definition sequence_at_boundary (tree : option SequenceRef) (b : Boundary) : piecem R UnitFact := locate tree (CutBoundary b).

(** ** Roots *)

Fixpoint compress_from (h : nat) (link : DraftPieceChild) (selected_root : bool) : piecem R (option SequenceRef) :=
  match h with
  | O => mret (Some (mkRef link 0 selected_root))
  | S h' =>
      if (h <=? 1)%nat then mret (Some (mkRef link (Z.of_nat h) selected_root))
      else
        node ← load_sequence_node link (Z.of_nat h) selected_root;
        match nr_children node with
        | [child] => compress_from h' child true
        | _ => mret (Some (mkRef link (Z.of_nat h) selected_root))
        end
  end.
Definition compress_sequence_root (root : option SequenceRef) : piecem R (option SequenceRef) :=
  match root with
  | None => mret None
  | Some t => compress_from (Z.to_nat (sr_height t)) (sr_link t) (sr_root t)
  end.

(** The sequence part of [load_working_roots] and of [build_roots]. *)
Definition load_working_sequence (root : option (list byte)) (summary : DraftPieceSummary) : piecem R (option SequenceRef) :=
  match root with
  | Some id =>
      node ← load_sequence_root_node id summary;
      link ← lift_piece (match child_for_node node with Ok l => Ok l | Err _ => Err InvalidRoot end);
      mret (Some (mkRef link (sm_height summary) true))
  | None =>
      if negb (sm_bytes summary =? 0) || negb (sm_pieces summary =? 0) || negb (sm_markers summary =? 0)
         || negb (sm_height summary =? 0)
         || negb (bool_decide (sm_root_digest summary = canonical_empty_root_digest))
         || negb (bool_decide (sm_marker_digest summary = canonical_empty_marker_digest))
      then fail_piece InvalidRoot else mret None
  end.

Definition build_sequence_root (sequence : option SequenceRef) : piecem R (option (list byte) * DraftPieceSummary) :=
  sequence ← compress_sequence_root sequence;
  sequence ← match sequence with
             | Some t => if sr_height t =? 0 then t ← new_sequence_node 1 [sr_link t]; mret (Some t) else mret (Some t)
             | None => mret None
             end;
  mret match sequence with
       | Some t =>
           let provisional := root_summary (sr_link t) (sr_height t) (replicate 32 x00) in
           (Some (c_id (sr_link t)),
            root_summary (sr_link t) (sr_height t) (root_digest provisional (c_digest (sr_link t))))
       | None => (None, mkSummary 0 0 0 0 0 canonical_empty_marker_digest 0 canonical_empty_root_digest)
       end.
End Tree.
