(* ===== verification/PieceDenote.v ===== *)
(** * The piece tree of a draft: what a tree of records denotes

    A tree denotes the sequence of pieces at its leaves, and the summary in a link is a function
    of that sequence.  The checks on a node hold exactly when its pieces are in marker order and
    their totals fit the machine integers. *)
From stdpp Require Import prelude gmap strings.
From Stdlib Require Import Sorting.Sorted.
From S2P Require Import Prelude.
From S2P Require Import Bytes.
From S2P Require Import ModelIds.
From S2P Require Import ModelDigest.
From S2P Require Import SyndicParts.
From S2P Require Import SyndicKeyOrder.
From S2P Require Import BuildBudget.
From S2P Require Import MappingModel.
From S2P Require Import PieceModel.
From S2P Require Import PieceCodec.
From S2P Require Import PieceTree.

Abbreviation piece := DraftPieceLeafValue.

(** ** Totals of a sequence *)

Definition piece_bytes (v : piece) : Z := match v with LeafText t => zlen t | LeafMarker _ => 0 end.
Definition piece_newlines (v : piece) : Z := match v with LeafText t => count_newlines t | LeafMarker _ => 0 end.
Definition piece_markers (v : piece) : Z := match v with LeafText _ => 0 | LeafMarker _ => 1 end.

Definition sum_of (f : piece -> Z) (ps : list piece) : Z := foldr (fun v n => f v + n) 0 ps.
Abbreviation seq_bytes := (sum_of piece_bytes).
Abbreviation seq_newlines := (sum_of piece_newlines).
Abbreviation seq_markers := (sum_of piece_markers).
Definition seq_lines (ps : list piece) : Z := if seq_bytes ps =? 0 then 0 else seq_newlines ps + 1.
Definition seq_units (ps : list piece) : Z := seq_bytes ps + seq_markers ps.

Lemma sum_of_cons f v ps : sum_of f (v :: ps) = f v + sum_of f ps.
Proof. done. Qed.
Lemma sum_of_nil f : sum_of f [] = 0.
Proof. done. Qed.
Lemma sum_of_app f ps qs : sum_of f (ps ++ qs) = sum_of f ps + sum_of f qs.
Proof. unfold sum_of. induction ps as [|v ps IH]; cbn; [done|]. rewrite IH. lia. Qed.
Lemma sum_of_nonneg f ps : (forall v, 0 <= f v) -> 0 <= sum_of f ps.
Proof. intros Hf. unfold sum_of. induction ps as [|v ps IH]; cbn; [done|]. specialize (Hf v). lia. Qed.

Lemma count_newlines_bounds t : 0 <= count_newlines t <= zlen t.
Proof. unfold count_newlines. pose proof (length_filter (fun b => is_newline b = true) t). lia. Qed.

Lemma seq_totals ps : 0 <= seq_bytes ps /\ 0 <= seq_newlines ps <= seq_bytes ps /\ 0 <= seq_markers ps <= zlen ps.
Proof.
  unfold sum_of. induction ps as [|v ps IH]; cbn; [lia|]. destruct v as [t|m]; cbn; [|lia].
  pose proof (count_newlines_bounds t). lia.
Qed.
#[global] Arguments sum_of : simpl never.

(** A piece as the records admit it: texts are not empty, and a leaf fits its family. *)
Definition piece_ok (v : piece) : Prop :=
  value_typed v /\ match v with LeafText t => 0 < zlen t <= 32907 | LeafMarker _ => True end.

(** Markers with no text between them are in increasing order. *)
Definition meets (a b : piece) : Prop :=
  match a, b with LeafMarker m, LeafMarker n => pm_order m < pm_order n | _, _ => True end.
Definition ordered (ps : list piece) : Prop := Sorted meets ps.

Definition fits (ps : list piece) : Prop :=
  seq_bytes ps <= U64_MAX /\ seq_newlines ps + 1 <= U64_MAX /\ zlen ps <= U64_MAX.

Lemma fits_app_l ps qs : fits (ps ++ qs) -> fits ps.
Proof. unfold fits. rewrite !sum_of_app, length_app. pose proof (seq_totals qs). lia. Qed.
Lemma fits_app_r ps qs : fits (ps ++ qs) -> fits qs.
Proof. unfold fits. rewrite !sum_of_app, length_app. pose proof (seq_totals ps). lia. Qed.

(** The last of one sequence meets the first of the next. *)
Definition joins (ps qs : list piece) : Prop :=
  forall a b, last ps = Some a -> head qs = Some b -> meets a b.

Lemma ordered_app ps qs : ordered (ps ++ qs) <-> ordered ps /\ ordered qs /\ joins ps qs.
Proof.
  unfold ordered, joins. induction ps as [|v ps IH]; cbn [app].
  - split; [intros; split_and!; [constructor|done|done]|by intros (_ & ? & _)].
  - destruct ps as [|w ps].
    + cbn [app]. split.
      * intros Hs. inversion Hs as [|? ? Hq Hh]; subst. split_and!; [by repeat constructor|done|].
        intros a b [= <-] Hb. destruct qs; [done|]. injection Hb as <-. by inversion Hh.
      * intros (_ & Hq & Hj). constructor; [done|]. destruct qs as [|u qs]; constructor. by apply Hj.
    + cbn [app] in *. split.
      * intros Hs. inversion Hs as [|? ? Hq Hh]; subst. apply IH in Hq as (? & ? & Hj). split_and!; [|done|].
        -- constructor; [done|]. constructor. by inversion Hh.
        -- intros a b Ha. apply Hj. by rewrite last_cons_cons in Ha.
      * intros (Hp & Hq & Hj). inversion Hp as [|? ? Hw Hh]; subst. constructor; [|constructor; by inversion Hh].
        apply IH. split_and!; [done|done|]. intros a b Ha. apply Hj. by rewrite last_cons_cons.
Qed.

(** ** The summary of a sequence *)

Definition first_of (v : piece) : DraftCompositeSearchKey :=
  match v with LeafText _ => BeforeMarkers 0 | LeafMarker m => KeyMarker 0 (pm_order m) (pm_id m) end.
Definition last_of (total : Z) (v : piece) : DraftCompositeSearchKey :=
  match v with LeafText _ => AfterMarkers total | LeafMarker m => KeyMarker total (pm_order m) (pm_id m) end.

Record child_of (ps : list piece) (c : DraftPieceChild) : Prop := mkChildOf {
  co_bytes : c_bytes c = seq_bytes ps;
  co_newlines : c_newlines c = seq_newlines ps;
  co_lines : c_lines c = seq_lines ps;
  co_pieces : c_pieces c = zlen ps;
  co_markers : c_markers c = seq_markers ps;
  co_first : exists v, head ps = Some v /\ c_first c = first_of v;
  co_last : exists v, last ps = Some v /\ c_last c = last_of (seq_bytes ps) v
}.

(** What a link stands for when all the checks below it hold. *)
Record denotes_pieces (ps : list piece) (c : DraftPieceChild) : Prop := mkDenotes {
  dp_child : child_of ps c;
  dp_ordered : ordered ps;
  dp_pieces : Forall piece_ok ps;
  dp_fits : fits ps;
  dp_valid : child_valid c
}.

Lemma child_units ps c : child_of ps c -> link_units c = seq_units ps.
Proof. intros [? _ _ _ ? _ _]. unfold link_units, seq_units. lia. Qed.

Lemma no_bytes_markers ps : Forall piece_ok ps -> seq_bytes ps = 0 -> Forall (fun v => exists m, v = LeafMarker m) ps.
Proof.
  induction 1 as [|v ps [_ Hv] _ IH]; [constructor|]. rewrite sum_of_cons. pose proof (seq_totals ps). destruct v as [t|m]; cbn in *; [lia|].
  intros. constructor; [by eexists|]. apply IH. lia.
Qed.

Lemma markers_all ps : Forall (fun v => exists m, v = LeafMarker m) ps -> seq_markers ps = zlen ps.
Proof. induction 1 as [|v ps [m ->] _ IH]; [done|]. rewrite sum_of_cons, IH. cbn [piece_markers length]. lia. Qed.

Lemma marker_run_order ps m n : Forall (fun v => exists m, v = LeafMarker m) ps -> ordered ps ->
  head ps = Some (LeafMarker m) -> last ps = Some (LeafMarker n) -> m = n \/ pm_order m < pm_order n.
Proof.
  intros Hf. revert m. induction Hf as [|v ps [w ->] Hf IH]; intros m Ho; [done|]. intros [= ->] Hl.
  inversion Ho as [|? ? Ho' Hh]; subst. destruct ps as [|u ps]; [injection Hl as ->; by left|].
  rewrite last_cons_cons in Hl. right. inversion Hf as [|? ? [u' ->] _]; subst. inversion Hh as [|? ? Hm]; subst. cbn in Hm.
  destruct (IH u' Ho' eq_refl Hl) as [->|]; lia.
Qed.

Lemma head_last_nonempty {A} (l : list A) v : head l = Some v -> exists w, last l = Some w.
Proof. destruct l as [|a l]; [done|]. intros _. destruct (last (a :: l)) eqn:E; [by eexists|]. by apply last_None in E. Qed.

Lemma summary_canonical ps : Forall piece_ok ps -> fits ps -> is_canonical (mkTextSummary (seq_bytes ps) (seq_newlines ps) (seq_lines ps)) = true.
Proof.
  intros _ (_ & Hn & _). unfold is_canonical, seq_lines. cbn. pose proof (seq_totals ps).
  destruct (Z.eqb_spec (seq_bytes ps) 0); [by rewrite (proj2 (Z.eqb_eq _ _)) by lia|].
  rewrite (checked_add64_within _ _ U64_MAX) by lia. apply Z.eqb_refl.
Qed.

Lemma child_wellformed ps c : denotes_pieces ps c -> child_malformed c = false.
Proof.
  intros [[E1 E2 E3 E4 E5 (v & Hv & E6) (w & Hw & E7)] Ho Hp Hf _].
  assert (Hne : 0 < zlen ps) by (destruct ps; [done|cbn; lia]). pose proof (seq_totals ps) as (T1 & T2 & T3).
  unfold child_malformed, child_summary. rewrite E1, E2, E3, E4, E5, E6, E7, summary_canonical by done.
  rewrite (proj2 (Z.eqb_neq (zlen ps) 0)), (proj2 (Z.ltb_ge (zlen ps) (seq_markers ps))) by lia.
  assert (anchor (first_of v) = 0) as -> by (by destruct v). assert (anchor (last_of (seq_bytes ps) w) = seq_bytes ps) as -> by (by destruct w).
  rewrite !Z.eqb_refl. cbn [orb negb]. rewrite orb_false_r. apply orb_false_iff. split.
  - apply bool_decide_eq_false. unfold search_key_cmp.
    assert (anchor (first_of v) = 0) as -> by (by destruct v). assert (anchor (last_of (seq_bytes ps) w) = seq_bytes ps) as -> by (by destruct w).
    destruct (Z.compare_spec 0 (seq_bytes ps)) as [E|E|E]; [|done|lia]. cbn.
    pose proof (no_bytes_markers ps Hp (eq_sym E)) as Hm. pose proof Hm as Hm'. rewrite Forall_forall in Hm'.
    destruct (Hm' v) as [mv ->]; [apply head_Some in Hv as [? ->]; by left|].
    destruct (Hm' w) as [mw ->]; [apply last_Some in Hw as [? ->]; apply elem_of_app; right; by left|]. cbn.
    destruct (marker_run_order ps mv mw Hm Ho Hv Hw) as [->|Hlt].
    + rewrite Z.compare_refl. cbn. rewrite (proj2 (byte_cmp_eq _ _)) by done. done.
    + by rewrite (proj2 (Z.compare_lt_iff _ _) Hlt).
  - destruct (Z.eqb_spec (seq_bytes ps) 0) as [E|]; [|done]. cbn. apply negb_false_iff, Z.eqb_eq.
    by apply markers_all, no_bytes_markers.
Qed.

(** ** Aggregation *)

(** The accumulators behind the pieces [ps]. *)
Definition previous_key (ps : list piece) : option DraftCompositeSearchKey :=
  match last ps with Some (LeafMarker m) => Some (KeyMarker (seq_bytes ps) (pm_order m) (pm_id m)) | _ => None end.
Definition aggregate_of (ps : list piece) : Aggregate :=
  mkAggregate (seq_bytes ps) (seq_newlines ps) (zlen ps) (seq_markers ps) (seq_bytes ps) (previous_key ps).

Definition totals_fit (ps : list piece) : Prop := seq_bytes ps <= U64_MAX /\ zlen ps <= U64_MAX.

Lemma offset_first ps v : 0 <= seq_bytes ps <= U64_MAX -> checked_offset_key (first_of v) (seq_bytes ps) =
  Ok (match v with LeafText _ => BeforeMarkers (seq_bytes ps) | LeafMarker m => KeyMarker (seq_bytes ps) (pm_order m) (pm_id m) end).
Proof. intros. destruct v; cbn; rewrite (checked_add64_within _ _ U64_MAX) by lia; done. Qed.

Lemma offset_last n total v : checked_offset_key (last_of total v) n = (a ← ok_or AggregateOverflow (checked_add64 total n); Ok (last_of a v)).
Proof. by destruct v. Qed.

Lemma junction ps v : out_of_order (previous_key ps)
    (match v with LeafText _ => BeforeMarkers (seq_bytes ps) | LeafMarker m => KeyMarker (seq_bytes ps) (pm_order m) (pm_id m) end) = false
  <-> forall a, last ps = Some a -> meets a v.
Proof.
  unfold previous_key, out_of_order. destruct (last ps) as [a|]; [|naive_solver]. destruct a as [t|m].
  { split; [|done]. by intros _ a [= <-]. }
  destruct v as [t|n]; [split; [|done]; by intros _ a [= <-]|].
  assert (meets (LeafMarker m) (LeafMarker n) <-> pm_order m < pm_order n) as Hm by done.
  cbn [anchor]. rewrite Z.eqb_refl. cbn [andb]. unfold search_key_cmp, same_marker_order_slot. cbn [anchor]. rewrite Z.compare_refl, Z.eqb_refl. cbn [then_with andb].
  split.
  - intros E a [= <-]. apply Hm. apply orb_false_iff in E as [E1 E2]. apply bool_decide_eq_false in E1. apply Z.eqb_neq in E2.
    destruct (Z.compare_spec (pm_order m) (pm_order n)); [done|done|]. exfalso. by apply E1.
  - intros Hk. specialize (Hk _ eq_refl). apply (proj1 Hm) in Hk. rewrite (proj2 (Z.compare_lt_iff _ _) Hk), (proj2 (Z.eqb_neq _ _)), orb_false_r by lia.
    apply bool_decide_eq_false. by intros [].
Qed.

Lemma previous_app ps qs w : last qs = Some w ->
  previous_key (ps ++ qs) = match w with LeafMarker m => Some (KeyMarker (seq_bytes (ps ++ qs)) (pm_order m) (pm_id m)) | LeafText _ => None end.
Proof. intros Hw. unfold previous_key. rewrite last_app, Hw. by destruct w. Qed.

Lemma aggregate_child_Ok ps qs c a : totals_fit ps -> denotes_pieces qs c ->
  aggregate_child (aggregate_of ps) c = Ok a <-> a = aggregate_of (ps ++ qs) /\ totals_fit (ps ++ qs) /\ joins ps qs.
Proof.
  intros [F1 F2] Hc. unfold aggregate_child. rewrite (child_wellformed qs c Hc). destruct Hc as [[E1 E2 E3 E4 E5 (v & Hv & E6) (w & Hw & E7)] Ho Hp Hf _].
  pose proof (seq_totals ps) as (P1 & P2 & P3). pose proof (seq_totals qs) as (Q1 & Q2 & Q3).
  rewrite E6, E7. cbn [ag_prefix aggregate_of]. rewrite offset_first by lia. cbn [mbind result_bind].
  assert (Hj : joins ps qs <-> forall x, last ps = Some x -> meets x v) by (unfold joins; rewrite Hv; naive_solver).
  rewrite Hj, <- junction. cbn [ag_previous]. destruct (out_of_order _ _); [split; [done|by intros (_ & _ & ?)]|].
  rewrite offset_last, E1, E2, E4, E5. cbn [ag_text ag_newlines ag_pieces ag_markers aggregate_of].
  unfold totals_fit, aggregate_of. rewrite !sum_of_app, length_app, Nat2Z.inj_add. split.
  - intros Ha. repeat (apply result_bind_Ok in Ha as (? & Hx & Ha); try (apply result_bind_Ok in Hx as (? & Hx' & Hx); injection Hx as <-; rename Hx' into Hx);
      rewrite ?ok_or_Ok, ?checked_add64_Some in Hx; destruct Hx as [-> ?]).
    injection Ha as <-. split_and!; try done; try lia. f_equal. rewrite (previous_app ps qs w Hw), sum_of_app. destruct w; cbn; [done|]. do 2 f_equal. lia.
  - intros (-> & [? ?] & _). rewrite !(checked_add64_within _ _ U64_MAX) by lia. cbn. do 2 f_equal. rewrite (previous_app ps qs w Hw), sum_of_app.
    destruct w; cbn; [done|]. do 2 f_equal. lia.
Qed.

Lemma aggregate_loop_Ok ps qss cs a : Forall2 denotes_pieces qss cs -> totals_fit ps -> ordered ps ->
  aggregate_loop (aggregate_of ps) cs = Ok a <->
  a = aggregate_of (ps ++ concat qss) /\ totals_fit (ps ++ concat qss) /\ ordered (ps ++ concat qss).
Proof.
  intros Hf. revert ps. induction Hf as [|qs c qss cs Hc Hf IH]; intros ps Ht Ho; cbn [aggregate_loop concat].
  - rewrite app_nil_r. naive_solver.
  - rewrite result_bind_Ok, !app_assoc. split.
    + intros (a' & Ha' & Ha). apply (aggregate_child_Ok ps qs c) in Ha' as (-> & Ht' & Hj); [|done..]. apply IH in Ha; [done|done|].
      apply ordered_app. destruct Hc. done.
    + intros (-> & Ht' & Ho'). apply ordered_app in Ho' as Ho''. destruct Ho'' as (Ho1 & _ & _).
      assert (totals_fit (ps ++ qs)). { unfold totals_fit in *. rewrite !sum_of_app, !length_app in *. pose proof (seq_totals (concat qss)). lia. }
      exists (aggregate_of (ps ++ qs)). split; [|by apply IH]. apply (aggregate_child_Ok ps qs c); [done|done|]. split_and!; [done|done|].
      by apply ordered_app in Ho1 as (_ & _ & ?).
Qed.

Definition summary_of (ps : list piece) : DraftPieceTextSummary := mkTextSummary (seq_bytes ps) (seq_newlines ps) (seq_lines ps).

Lemma aggregate_children_Ok qss cs r : Forall2 denotes_pieces qss cs ->
  aggregate_children cs = Ok r <->
  r = (summary_of (concat qss), zlen (concat qss), seq_markers (concat qss)) /\ fits (concat qss) /\ ordered (concat qss).
Proof.
  intros Hf. unfold aggregate_children. rewrite result_bind_Ok. change (mkAggregate 0 0 0 0 0 None) with (aggregate_of []).
  pose proof (fun a => aggregate_loop_Ok [] qss cs a Hf) as Hl. cbn [app] in Hl. set (ps := concat qss) in *.
  pose proof (seq_totals ps) as (T1 & T2 & T3). unfold fits, totals_fit, summary_of, seq_lines in *. split.
  - intros (a & Ha & Hr). apply Hl in Ha as (-> & [F1 F2] & Ho); [|done|constructor]. apply result_bind_Ok in Hr as (lines & Hlines & [= <-]).
    cbn [ag_text ag_newlines ag_pieces ag_markers aggregate_of] in *. destruct (Z.eqb_spec (seq_bytes ps) 0).
    + case_match; [done|]. injection Hlines as <-. split_and!; try done; lia.
    + rewrite ok_or_Ok, checked_add64_Some in Hlines. destruct Hlines as [-> ?]. split_and!; try done; lia.
  - intros (-> & (F1 & F2 & F3) & Ho). exists (aggregate_of ps). split; [apply Hl; [done|constructor|by split_and!]|].
    cbn [ag_text ag_newlines ag_pieces ag_markers aggregate_of]. destruct (Z.eqb_spec (seq_bytes ps) 0).
    + rewrite (proj2 (Z.eqb_eq (seq_newlines ps) 0)) by lia. done.
    + by rewrite (checked_add64_within _ _ U64_MAX) by lia.
Qed.

Lemma last_key_Ok qss cs k ps : Forall2 denotes_pieces qss cs -> totals_fit (ps ++ concat qss) ->
  (forall w, last ps = Some w -> k = last_of (seq_bytes ps) w) -> ps ++ concat qss <> [] -> exists w, last (ps ++ concat qss) = Some w /\ last_key k (seq_bytes ps) cs = Ok (last_of (seq_bytes (ps ++ concat qss)) w).
Proof.
  intros Hf. revert ps k. induction Hf as [|qs c qss cs Hc Hf IH]; intros ps k [F1 F2] Hk Hne; cbn [last_key concat] in *.
  - rewrite app_nil_r in *. destruct (last ps) as [w|] eqn:E; [|by apply last_None in E]. exists w. split; [done|]. by rewrite (Hk w).
  - destruct Hc as [[E1 _ _ _ _ _ (w & Hw & E7)] _ _ _ _]. pose proof (seq_totals ps). pose proof (seq_totals qs). pose proof (seq_totals (concat qss)).
    rewrite !sum_of_app in F1. rewrite E1, E7, offset_last, !(checked_add64_within _ _ U64_MAX) by lia. cbn [ok_or mbind result_bind].
    rewrite app_assoc in *. rewrite <- (sum_of_app _ ps qs). apply IH; [split; [rewrite !sum_of_app; lia|done]| |done].
    intros w' Hw'. rewrite last_app, Hw in Hw'. injection Hw' as <-. rewrite sum_of_app. f_equal. lia.
Qed.

(** ** Digests *)

(** Which leaf identities a marker may stand under in a tree: any, unless a client says more. *)
Class LeafNames := leaf_names : DraftPieceMarker -> list byte -> Prop.
#[global] Instance any_leaf : LeafNames | 100 := fun _ _ => True.
Definition piece_named {G : LeafNames} (v : piece) (id : list byte) : Prop :=
  match v with LeafText _ => True | LeafMarker m => leaf_names m id end.
Definition leaf_named {G : LeafNames} (r : DraftPieceLeafRecord) : Prop := piece_named (lr_value r) (rk_id (lr_key r)).

Section Links.
Context {H : Type} `{Sha256Laws H}.

Lemma finalize_length h : length (sha_finalize h) = 32%nat.
Proof. rewrite finalize_absorbed. apply sha256_length. Qed.
Lemma leaf_digest_length v s : fixed 32 (leaf_digest v s).
Proof. destruct v; apply finalize_length. Qed.
Lemma piece_node_digest_length h cs : fixed 32 (piece_node_digest h cs).
Proof. apply finalize_length. Qed.
Lemma marker_fold_length ds : fixed 32 (marker_fold ds).
Proof. unfold marker_fold. case_match; apply finalize_length. Qed.
Lemma piece_record_id_length d s op o dg : fixed 16 (piece_record_id d s op o dg).
Proof. unfold piece_record_id, fixed, digest_bytes. by rewrite length_take, finalize_length. Qed.

Lemma seq_typed ps : fits ps -> is_u64 (seq_bytes ps) /\ is_u64 (seq_newlines ps) /\ is_u64 (seq_lines ps) /\ is_u64 (zlen ps) /\ is_u64 (seq_markers ps).
Proof. intros (? & ? & ?). pose proof (seq_totals ps). unfold seq_lines, is_u64. case_match; lia. Qed.

Lemma key_of_typed n v : value_typed v -> is_u64 n -> search_key_typed (first_of v) /\ search_key_typed (last_of n v).
Proof. intros Hv Hn. destruct v as [t|m]; cbn in *; [done|]. destruct Hv as (? & ? & _). done. Qed.

(** Links built from a sequence and three digests are well typed. *)
Lemma child_of_valid ps c : child_of ps c -> Forall piece_ok ps -> fits ps -> fixed 16 (c_id c) -> fixed 32 (c_digest c) ->
  fixed 32 (c_marker_digest c) -> child_valid c.
Proof.
  intros [E1 E2 E3 E4 E5 (v & Hv & E6) (w & Hw & E7)] Hp Hf Hid Hdg Hmd. pose proof (seq_typed ps Hf) as (T1 & T2 & T3 & T4 & T5).
  pose proof (summary_canonical ps Hp Hf) as Hc. rewrite Forall_forall in Hp.
  assert (piece_ok v) as [Tv _] by (apply Hp; apply head_Some in Hv as [? ->]; by left).
  assert (piece_ok w) as [Tw _] by (apply Hp; apply last_Some in Hw as [? ->]; apply elem_of_app; right; by left).
  unfold child_valid, summary_valid, summary_typed, child_summary. rewrite E1, E2, E3, E4, E5, E6, E7. split_and!; try done;
    [exact (proj1 (key_of_typed (seq_bytes ps) v Tv T1))|exact (proj2 (key_of_typed (seq_bytes ps) w Tw T1))].
Qed.

Lemma child_for_node_sound qss r c : Forall2 denotes_pieces qss (nr_children r) -> child_for_node r = Ok c ->
  child_of (concat qss) c /\ ordered (concat qss) /\ fits (concat qss) /\ c_id c = rk_id (nr_key r) /\ c_digest c = nr_digest r
  /\ fixed 32 (c_marker_digest c).
Proof.
  intros Hf Hc. unfold child_for_node in Hc. apply result_bind_Ok in Hc as ([[text pieces] markers] & Ha & Hc).
  apply (aggregate_children_Ok qss) in Ha as ([= -> -> ->] & Hfit & Ho); [|done].
  apply result_bind_Ok in Hc as (first & Hfirst & Hc). rewrite ok_or_Ok in Hfirst.
  apply result_bind_Ok in Hc as (last & Hlast & [= <-]).
  destruct Hf as [|qs ch qss cs Hch Hf]; [done|]. cbn in Hfirst. injection Hfirst as <-.
  pose proof Hch as [[_ _ _ _ _ (v & Hv & E6) _] _ _ _ _].
  destruct (last_key_Ok (qs :: qss) (ch :: cs) (c_first ch) []) as (w & Hw & Hl); [by constructor| |done| |].
  { destruct Hfit as (? & _ & ?). done. }
  { cbn. by destruct qs. }
  cbn [app] in Hw, Hl. change (seq_bytes []) with 0 in Hl. rewrite Hl in Hlast. injection Hlast as <-.
  split_and!; try done; [|apply marker_fold_length]. split; try done; cbn [c_first c_last].
  - exists v. split; [|done]. cbn [concat]. by destruct qs.
  - by exists w.
Qed.

Lemma child_for_node_complete qss r : Forall2 denotes_pieces qss (nr_children r) -> nr_children r <> [] -> ordered (concat qss) -> fits (concat qss) ->
  exists c, child_for_node r = Ok c.
Proof.
  intros Hf Hne Ho Hfit. unfold child_for_node.
  rewrite (proj2 (aggregate_children_Ok qss _ _ Hf) (conj eq_refl (conj Hfit Ho))). cbn [mbind result_bind].
  destruct Hf as [|qs ch qss cs Hch Hf]; [done|]. cbn [head fmap option_fmap option_map ok_or mbind result_bind].
  destruct (last_key_Ok (qs :: qss) (ch :: cs) (c_first ch) []) as (w & Hw & Hl); [by constructor| |done| |].
  { destruct Hfit as (? & _ & ?). done. }
  { destruct Hch as [[_ _ _ _ _ (v & Hv & _) _] _ _ _ _]. cbn. by destruct qs. }
  change (seq_bytes []) with 0 in Hl. rewrite Hl. by eexists.
Qed.

Lemma child_for_leaf_of r : leaf_sound r -> piece_ok (lr_value r) -> child_of [lr_value r] (child_for_leaf r).
Proof.
  intros [E _] [_ Hv]. unfold child_for_leaf. destruct (lr_value r) as [t|m] eqn:Ev; cbn in E, Hv; rewrite ?E.
  - unfold from_utf8. rewrite (proj2 (Z.eqb_neq _ 0)) by lia.
    split; cbn; rewrite ?sum_of_cons, ?sum_of_nil; unfold seq_lines; rewrite ?sum_of_cons, ?sum_of_nil; cbn; try lia; try (by eexists).
    + rewrite (proj2 (Z.eqb_neq _ 0)) by lia. lia.
    + eexists. split; [done|]. cbn. by rewrite Z.add_0_r.
  - split; cbn; unfold seq_lines; rewrite ?sum_of_cons, ?sum_of_nil; try done; by eexists.
Qed.

(** ** Trees *)

Context (draft : list byte).

Record tables := mkTables {
  tb_node : list byte -> DraftPieceNodeRecord -> Prop;
  tb_leaf : list byte -> DraftPieceLeafRecord -> Prop
}.

(** The records of a link, as the loads accept them. *)
Definition leaf_at (T : tables) (link : DraftPieceChild) (r : DraftPieceLeafRecord) : Prop :=
  tb_leaf T (c_id link) r /\ lr_key r = mkRecordKey draft (c_id link) /\ leaf_record_valid r /\ piece_ok (lr_value r)
  /\ child_for_leaf r = link.
Definition piece_node_at (T : tables) (root : bool) (link : DraftPieceChild) (n : DraftPieceNodeRecord) : Prop :=
  tb_node T (c_id link) n /\ nr_key n = mkRecordKey draft (c_id link) /\ node_record_valid n /\ child_for_node n = Ok link
  /\ ((if root then 1 else 2) <= length (nr_children n))%nat.

Context {G : LeafNames}.

Fixpoint piece_tree (T : tables) (h : nat) (root : bool) (link : DraftPieceChild) (ps : list piece) : Prop :=
  match h with
  | O => exists r, (leaf_at T link r /\ leaf_named r) /\ ps = [lr_value r]
  | S h' => exists n pss, piece_node_at T root link n /\ nr_height n = Z.of_nat h
              /\ Forall2 (fun qs c => piece_tree T h' false c qs) pss (nr_children n) /\ ps = concat pss
  end.

Lemma piece_tree_weaken T h link ps : piece_tree T h false link ps -> piece_tree T h true link ps.
Proof.
  destruct h; [done|]. intros (n & pss & (? & ? & ? & ? & ?) & ? & ? & ->). exists n, pss. split_and!; try done. split_and!; try done. cbn in *. lia.
Qed.

Definition extends (T T' : tables) : Prop :=
  (forall id n, tb_node T id n -> tb_node T' id n) /\ (forall id r, tb_leaf T id r -> tb_leaf T' id r).

Lemma piece_tree_mono T T' h root link ps : extends T T' -> piece_tree T h root link ps -> piece_tree T' h root link ps.
Proof.
  intros [Hn Hl]. revert root link ps. induction h as [|h IH]; intros root link ps; cbn [piece_tree].
  - intros (r & [(? & ? & ? & ? & ?) ?] & ->). exists r. split; [|done]. split; [|done]. unfold leaf_at. split_and!; try done. by apply Hl.
  - intros (n & pss & (? & ? & ? & ? & ?) & ? & Hf & ->). exists n, pss. split_and!; try done.
    + unfold piece_node_at. split_and!; try done. by apply Hn.
    + eapply Forall2_impl; [done|]. intros. by apply IH.
Qed.

Lemma forest_pieces T h pss cs :
  (forall root link ps, piece_tree T h root link ps -> denotes_pieces ps link) ->
  Forall2 (fun qs c => piece_tree T h false c qs) pss cs -> Forall2 denotes_pieces pss cs.
Proof. intros Hd Hf. eapply Forall2_impl; [done|]. intros ps c Hc. exact (Hd _ _ _ Hc). Qed.

Lemma forest_ok pss cs : Forall2 denotes_pieces pss cs -> Forall piece_ok (concat pss).
Proof. induction 1 as [|qs c pss cs [] _ IH]; [constructor|]. cbn. by apply Forall_app. Qed.

Lemma piece_tree_denotes T h root link ps : piece_tree T h root link ps -> denotes_pieces ps link.
Proof.
  revert root link ps. induction h as [|h IH]; intros root link ps; cbn [piece_tree].
  - intros (r & [(_ & Hk & [[(_ & Hid) (Hv & _ & Hdg)] Hs] & Hp & <-) _] & ->). cbn [lr_key] in *.
    assert (child_of [lr_value r] (child_for_leaf r)) as Hc by (by apply child_for_leaf_of).
    assert (fits [lr_value r]) as Hf.
    { unfold fits. rewrite !sum_of_cons, !sum_of_nil. destruct Hp as [_ Hp]. destruct (lr_value r) as [t|m]; cbn; [|lia].
      pose proof (count_newlines_bounds t). lia. }
    split; try done; [by repeat constructor|by constructor|].
    apply (child_of_valid [lr_value r]); try done; [by constructor|..]; unfold child_for_leaf; destruct (lr_value r); cbn; try done.
    apply finalize_length.
  - intros (n & pss & (_ & Hk & [(Hkt & _ & _ & _ & Hdg) _] & Hc & _) & Hh & Hf & ->). apply (forest_pieces T h) in Hf; [|done].
    destruct (child_for_node_sound pss n link Hf Hc) as (Hco & Ho & Hfit & E1 & E2 & Hmd). pose proof (forest_ok _ _ Hf) as Hok.
    split; try done. apply (child_of_valid (concat pss)); try done; [|congruence]. rewrite E1. by destruct Hkt.
Qed.

Lemma piece_tree_pieces T h root link ps : piece_tree T h root link ps -> ps <> [].
Proof. intros Ht. apply piece_tree_denotes in Ht as [[_ _ _ _ _ (v & Hv & _) _] _ _ _ _]. by intros ->. Qed.

(** A root reference, as the operations pass it around. *)
Definition sequence_tree (T : tables) (tree : option SequenceRef) (ps : list piece) : Prop :=
  match tree with
  | None => ps = []
  | Some t => sr_root t = true /\ exists h, sr_height t = Z.of_nat h /\ piece_tree T h true (sr_link t) ps
  end.
End Links.

(** A tree keeps its leaves: one identity for each marker is enough of a name for its leaf. *)
Lemma piece_tree_rename {H} `{Sha256Laws H} {G G' : LeafNames} draft T h root link ps :
  (forall m id, LeafMarker m ∈ ps -> G m id -> G' m id) ->
  piece_tree (G := G) draft T h root link ps -> piece_tree (G := G') draft T h root link ps.
Proof.
  revert root link ps. induction h as [|h IH]; intros root link ps Hg; cbn [piece_tree].
  - intros (r & [Hr Hn] & ->). exists r. split; [|done]. split; [done|]. unfold leaf_named, piece_named in *.
    destruct (lr_value r); [done|]. apply Hg; [apply list_elem_of_here|done].
  - intros (n & pss & Hn & Hh & Hf & ->). exists n, pss. split_and!; try done. clear Hn Hh. revert Hg.
    induction Hf as [|qs x pss cs Hq Hf IHf]; intros Hg; constructor.
    + eapply IH; [|exact Hq]. intros m id Hm. apply Hg. cbn. apply elem_of_app. by left.
    + apply IHf. intros m id Hm. apply Hg. cbn. apply elem_of_app. by right.
Qed.
Lemma sequence_tree_rename {H} `{Sha256Laws H} {G G' : LeafNames} draft T tree ps :
  (forall m id, LeafMarker m ∈ ps -> G m id -> G' m id) ->
  sequence_tree (G := G) draft T tree ps -> sequence_tree (G := G') draft T tree ps.
Proof.
  intros Hg. destruct tree as [t|]; [|done]. intros (E & h & Eh & Ht). split; [done|]. exists h. split; [done|]. exact (piece_tree_rename _ _ _ _ _ _ Hg Ht).
Qed.
