(* ===== verification/PieceSequence.v ===== *)
(** * The piece sequence of a draft: reference edits

    What the edits of the tree mean for the plain sequence of pieces: putting a piece in at a
    boundary, taking a range out of one text, taking a marker out.  Boundaries are a rank and a
    byte offset inside the piece; [unit_at] counts a boundary in units, one for every byte of
    text and one for every marker. *)
From stdpp Require Import prelude gmap strings.
From Stdlib Require Import Sorting.Sorted.
From S2P Require Import Prelude.
From S2P Require Import Bytes.
From S2P Require Import ModelDigest.
From S2P Require Import SyndicParts.
From S2P Require Import BuildBudget.
From S2P Require Import MappingModel.
From S2P Require Import PieceModel.
From S2P Require Import PieceCodec.
From S2P Require Import PieceTree.
From S2P Require Import PieceDenote.

(** ** Texts and character boundaries *)

Definition pending_ok (p : option (Z * Z * nat)) : Prop :=
  match p with Some (lo, hi, _) => 128 <= lo /\ hi <= 191 | None => True end.

Lemma utf8_lead_ok b p : utf8_lead b = Some p -> pending_ok (Some p).
Proof. unfold utf8_lead. repeat case_match; intros [= <-]; cbn; lia. Qed.

Lemma utf8_run_split p l1 b l2 : pending_ok p -> is_continuation b = false -> utf8_run p (l1 ++ b :: l2) = true ->
  utf8_run p l1 = true /\ utf8_run None (b :: l2) = true.
Proof.
  intros Hp Hb. revert p Hp. induction l1 as [|x l1 IH]; intros p Hp Hr; cbn [app] in Hr.
  - destruct p as [[[lo hi] k]|]; [|by split]. exfalso. cbn in Hr. destruct (in_range lo hi b) eqn:E; [|done].
    unfold is_continuation, in_range in *. cbn in Hp. rewrite andb_false_iff, !Z.leb_gt in Hb. bool_facts. lia.
  - cbn [utf8_run] in *. destruct p as [[[lo hi] k]|].
    + destruct (in_range lo hi x); [|done]. apply IH; [|done]. destruct k; cbn; [done|lia].
    + destruct (byte_val x <? 128); [by apply IH|]. destruct (utf8_lead x) as [q|] eqn:E; [|done]. apply IH; [by apply utf8_lead_ok in E|done].
Qed.

Lemma utf8_split t i : utf8_valid t = true -> 0 <= i <= zlen t -> is_char_boundary t i = true ->
  utf8_valid (take (Z.to_nat i) t) = true /\ utf8_valid (drop (Z.to_nat i) t) = true.
Proof.
  intros Hu Hi Hb. unfold is_char_boundary in Hb. rewrite !orb_true_iff, !Z.eqb_eq in Hb. destruct Hb as [[-> | ->] | Hb].
  - done.
  - by rewrite Nat2Z.id, firstn_all, drop_all.
  - destruct (t !! Z.to_nat i) as [b|] eqn:E; [|done]. apply negb_true_iff in Hb. apply take_drop_middle in E.
    rewrite <- E in Hu. apply utf8_run_split in Hu as [H1 H2]; [|done|done]. split; [done|].
    rewrite <- E. rewrite drop_app_length'; [done|]. rewrite <- E in Hi. rewrite length_take. rewrite E in Hi. lia.
Qed.

Lemma utf8_join a b : utf8_valid a = true -> utf8_valid b = true -> utf8_valid (a ++ b) = true.
Proof. intros Ha Hb. by rewrite utf8_valid_app. Qed.

(** ** Putting a piece in *)

Definition boundary_in (b : Boundary) (ps : list piece) : Prop :=
  (b_inner b = 0 /\ 0 <= b_rank b <= zlen ps)
  \/ exists t, 0 <= b_rank b /\ ps !! Z.to_nat (b_rank b) = Some (LeafText t) /\ 0 < b_inner b < zlen t /\ is_char_boundary t (b_inner b) = true.

Definition insert_pieces (b : Boundary) (v : piece) (ps : list piece) : list piece :=
  let k := Z.to_nat (b_rank b) in
  if b_inner b =? 0 then take k ps ++ v :: drop k ps
  else match ps !! k with
       | Some (LeafText t) =>
           take k ps ++ [LeafText (take (Z.to_nat (b_inner b)) t); v; LeafText (drop (Z.to_nat (b_inner b)) t)] ++ drop (S k) ps
       | _ => ps
       end.

Definition unit_at (b : Boundary) (ps : list piece) : Z := seq_units (take (Z.to_nat (b_rank b)) ps) + b_inner b.

Lemma seq_units_app ps qs : seq_units (ps ++ qs) = seq_units ps + seq_units qs.
Proof. unfold seq_units. rewrite !sum_of_app. lia. Qed.

(** The selected child of a node: the boundary is inside it or at one of its ends. *)
Definition boundary_selects (b : Boundary) (pre qs : list piece) : Prop :=
  zlen pre <= b_rank b <= zlen pre + zlen qs /\ (b_inner b <> 0 -> b_rank b < zlen pre + zlen qs).
Definition shift (b : Boundary) (n : Z) : Boundary := mkBound (b_rank b - n) (b_inner b).

Lemma lookup_mid {A} (pre qs post : list A) r : zlen pre <= r < zlen pre + zlen qs ->
  (pre ++ qs ++ post) !! Z.to_nat r = qs !! Z.to_nat (r - zlen pre).
Proof. intros. rewrite lookup_app_r, lookup_app_l by lia. f_equal. lia. Qed.

Lemma take_mid {A} (pre qs post : list A) r : zlen pre <= r <= zlen pre + zlen qs ->
  take (Z.to_nat r) (pre ++ qs ++ post) = pre ++ take (Z.to_nat (r - zlen pre)) qs
  /\ drop (Z.to_nat r) (pre ++ qs ++ post) = drop (Z.to_nat (r - zlen pre)) qs ++ post.
Proof.
  intros. rewrite take_app, drop_app, (take_ge pre), (drop_ge pre) by lia.
  replace (Z.to_nat r - length pre)%nat with (Z.to_nat (r - zlen pre)) by lia.
  rewrite take_app_le, drop_app_le by lia. done.
Qed.

Lemma insert_mid b v pre qs post : boundary_selects b pre qs ->
  insert_pieces b v (pre ++ qs ++ post) = pre ++ insert_pieces (shift b (zlen pre)) v qs ++ post
  /\ unit_at b (pre ++ qs ++ post) = seq_units pre + unit_at (shift b (zlen pre)) qs
  /\ (boundary_in b (pre ++ qs ++ post) <-> boundary_in (shift b (zlen pre)) qs).
Proof.
  intros [Hr Hi]. unfold insert_pieces, unit_at, boundary_in, shift. cbn [b_rank b_inner].
  destruct (take_mid pre qs post (b_rank b) Hr) as [Et Ed]. rewrite Et, Ed. split_and!.
  - destruct (Z.eqb_spec (b_inner b) 0) as [E|E]; [by rewrite <- !app_assoc|]. specialize (Hi E). rewrite lookup_mid by lia.
    destruct (qs !! _) as [[t|m]|] eqn:El; [|done|done].
    replace (S (Z.to_nat (b_rank b))) with (Z.to_nat (b_rank b + 1)) by lia.
    destruct (take_mid pre qs post (b_rank b + 1)) as [_ Ed']; [lia|]. rewrite Ed'.
    replace (Z.to_nat (b_rank b + 1 - zlen pre)) with (S (Z.to_nat (b_rank b - zlen pre))) by lia. by rewrite <- !app_assoc.
  - rewrite seq_units_app. lia.
  - rewrite !length_app.
    assert (forall t, b_inner b <> 0 -> ((pre ++ qs ++ post) !! Z.to_nat (b_rank b) = Some (LeafText t)
      <-> qs !! Z.to_nat (b_rank b - zlen pre) = Some (LeafText t))) as Hl by (intros t Hne; specialize (Hi Hne); by rewrite lookup_mid by lia).
    split; (intros [[? ?]|(t & ? & Ht & ? & ?)]; [left; lia|right; exists t]); split_and!; try lia; try done; apply Hl; done || lia.
Qed.

(** ** Taking a piece or a part of one out *)

Record text_cut (rank start : Z) (end_ : option Z) (ps : list piece) (t : list byte) : Prop := mkTextCut {
  tc_rank : 0 <= rank;
  tc_piece : ps !! Z.to_nat rank = Some (LeafText t);
  tc_range : 0 <= start < default (zlen t) end_ /\ default (zlen t) end_ <= zlen t;
  tc_start : is_char_boundary t start = true;
  tc_end : is_char_boundary t (default (zlen t) end_) = true
}.

Definition retained (t : list byte) (start end_ : Z) : list piece :=
  if (start =? 0) && (end_ =? zlen t) then [] else [LeafText (take (Z.to_nat start) t ++ drop (Z.to_nat end_) t)].

Definition replace_piece (rank : Z) (vs ps : list piece) : list piece := take (Z.to_nat rank) ps ++ vs ++ drop (S (Z.to_nat rank)) ps.

Lemma replace_mid rank vs pre qs post : zlen pre <= rank < zlen pre + zlen qs ->
  replace_piece rank vs (pre ++ qs ++ post) = pre ++ replace_piece (rank - zlen pre) vs qs ++ post.
Proof.
  intros Hr. unfold replace_piece. destruct (take_mid pre qs post rank) as [Et _]; [lia|]. rewrite Et.
  replace (S (Z.to_nat rank)) with (Z.to_nat (rank + 1)) by lia. destruct (take_mid pre qs post (rank + 1)) as [_ Ed']; [lia|]. rewrite Ed'.
  replace (Z.to_nat (rank + 1 - zlen pre)) with (S (Z.to_nat (rank - zlen pre))) by lia. by rewrite <- !app_assoc.
Qed.

Lemma retained_ok t start end_ : piece_ok (LeafText t) -> 0 <= start < end_ -> end_ <= zlen t ->
  is_char_boundary t start = true -> is_char_boundary t end_ = true -> Forall piece_ok (retained t start end_).
Proof.
  intros [[Hu Hl] Hp] Hs He B1 B2. unfold retained. case_match eqn:E; [constructor|]. constructor; [|constructor].
  apply utf8_split in B1 as [U1 _]; [|done|lia]. apply utf8_split in B2 as [_ U2]; [|done|lia].
  cbn in Hl, Hp. rewrite andb_false_iff, !Z.eqb_neq in E.
  split; cbn; [split; [by apply utf8_join|]|]; rewrite length_app, length_take, length_drop; lia.
Qed.

Lemma split_ok t i : piece_ok (LeafText t) -> 0 < i < zlen t -> is_char_boundary t i = true ->
  piece_ok (LeafText (take (Z.to_nat i) t)) /\ piece_ok (LeafText (drop (Z.to_nat i) t)).
Proof.
  intros [[Hu Hl] Hp] Hi B. apply utf8_split in B as [U1 U2]; [|done|lia]. cbn in Hl, Hp.
  split; (split; cbn; [split; [done|]|]); rewrite ?length_take, ?length_drop; lia.
Qed.

Lemma seq_smaller f rank vs ps : (forall v, 0 <= f v) -> (forall v, ps !! Z.to_nat rank = Some v -> sum_of f vs <= f v) ->
  (Z.to_nat rank < length ps)%nat -> sum_of f (replace_piece rank vs ps) <= sum_of f ps.
Proof.
  intros Hf Hv Hl. destruct (lookup_lt_is_Some_2 ps _ Hl) as [v Ev]. specialize (Hv v Ev).
  rewrite <- (take_drop_middle ps _ v Ev) at 2. unfold replace_piece. rewrite !sum_of_app, sum_of_cons. lia.
Qed.

Lemma count_newlines_app a b : count_newlines (a ++ b) = count_newlines a + count_newlines b.
Proof. unfold count_newlines. rewrite filter_app, length_app. lia. Qed.

Lemma retained_newlines t start end_ : 0 <= start < end_ -> end_ <= zlen t ->
  count_newlines (take (Z.to_nat start) t ++ drop (Z.to_nat end_) t) <= count_newlines t.
Proof.
  intros Hs He. rewrite <- (take_drop (Z.to_nat start) t) at 3. rewrite !count_newlines_app.
  rewrite <- (take_drop (Z.to_nat end_ - Z.to_nat start) (drop (Z.to_nat start) t)) at 1. rewrite count_newlines_app, drop_drop.
  replace (Z.to_nat start + (Z.to_nat end_ - Z.to_nat start))%nat with (Z.to_nat end_) by lia.
  pose proof (count_newlines_bounds (take (Z.to_nat end_ - Z.to_nat start) (drop (Z.to_nat start) t))). lia.
Qed.

(** What is left after a removal still fits. *)
Lemma replace_fits rank vs ps : (Z.to_nat rank < length ps)%nat -> (length vs <= 1)%nat ->
  (forall v, ps !! Z.to_nat rank = Some v -> seq_bytes vs <= piece_bytes v /\ seq_newlines vs <= piece_newlines v) ->
  fits ps -> fits (replace_piece rank vs ps).
Proof.
  intros Hl Hv Hb (F1 & F2 & F3).
  assert (forall v, 0 <= piece_bytes v) by (intros []; cbn; lia).
  assert (forall v, 0 <= piece_newlines v) by (intros [t|]; cbn; [pose proof (count_newlines_bounds t)|]; lia).
  split_and!.
  - etransitivity; [apply seq_smaller|]; try done. intros v Hv'. by apply Hb.
  - assert (seq_newlines (replace_piece rank vs ps) <= seq_newlines ps); [|lia]. apply seq_smaller; try done. intros v Hv'. by apply Hb.
  - unfold replace_piece. rewrite !length_app, length_take, length_drop. lia.
Qed.
