(* ===== verification/PieceEdit.v ===== *)
(** * The piece tree of a draft: the operations do what they say

    Loads, emissions, insertion, removal and positions of [PieceTree], against the sequences of
    [PieceDenote].  As in [MappingEdit], a lemma says both what a returned value is and why the
    operation returns: it fails only if the resources [P] do not suffice or the edit itself is
    not a valid one, which [P] is to rule out. *)
From stdpp Require Import prelude gmap strings.
From Stdlib Require Import Sorting.Sorted.
From S2P Require Import Prelude.
From S2P Require Import Bytes.
From S2P Require Import ModelDigest.
From S2P Require Import SyndicParts.
From S2P Require Import BuildBudget.
From S2P Require Import MappingModel.
From S2P Require Import MappingEdit.
From S2P Require Import MappingProgram.
From S2P Require Import PieceModel.
From S2P Require Import PieceCodec.
From S2P Require Import PieceTree.
From S2P Require Import PieceDenote.
From S2P Require Import PieceSequence.

(** The most a read or an emission of a piece record reserves: its key and its largest value. *)
Definition PIECE_COST : Z := 33032.

Section Edit.
Context {H : Type} `{Sha256Laws H} {G : LeafNames} {R : Type}.
Context (node_store : DraftPieceRecordKey -> result (DraftPiecePrepareError R) (option DraftPieceNodeRecord))
        (leaf_store : DraftPieceRecordKey -> result (DraftPiecePrepareError R) (option DraftPieceLeafRecord))
        (draft session operation : list byte).

Abbreviation key_of id := (mkRecordKey draft id).
Abbreviation new_id o dg := (piece_record_id draft session operation o dg).

(** The records of the stores were decoded from their encodings, and record identities, which
    are truncated hashes of the ordinal among other things, differ for different ordinals. *)
Record piece_stores_ok : Prop := mkPieceStores {
  ps_draft : fixed 16 draft;
  ps_nodes : forall k n, node_store k = Ok (Some n) -> node_record_valid n;
  ps_leaves : forall k r, leaf_store k = Ok (Some r) -> leaf_record_valid r /\ zlen (enc_leaf_record r) <= 33000;
  ps_ids : forall o o' dg dg', is_u64 o -> is_u64 o' -> new_id o dg = new_id o' dg' -> o = o'
}.

(** The records an operation can reach: those made in this quantum, and those of the store. *)
Definition seen (c : PieceContext) : tables := mkTables
  (fun id n => pb_nodes c !! id = Some n \/ (pb_nodes c !! id = None /\ node_store (key_of id) = Ok (Some n)))
  (fun id r => pb_leaves c !! id = Some r \/ (pb_leaves c !! id = None /\ leaf_store (key_of id) = Ok (Some r))).

Record piece_context_ok (c : PieceContext) : Prop := mkPieceContextOk {
  pc_draft : bc_draft_id (pb c) = draft;
  pc_session : bc_session_id (pb c) = Some session;
  pc_operation : bc_operation_id (pb c) = operation;
  pc_ordinal : is_u64 (bc_ordinal (pb c));
  pc_budget : forall a, bc_acquisition (pb c) = Some a -> within_limits a /\ cache_ok a node_store /\ cache_ok a leaf_store;
  pc_nodes : forall id n, pb_loaded_nodes c !! id = Some n -> node_store (key_of id) = Ok (Some n);
  pc_leaves : forall id r, pb_loaded_leaves c !! id = Some r -> leaf_store (key_of id) = Ok (Some r);
  pc_fresh : forall o dg, is_u64 o -> bc_ordinal (pb c) <= o ->
    node_store (key_of (new_id o dg)) = Ok None /\ leaf_store (key_of (new_id o dg)) = Ok None
    /\ pb_nodes c !! new_id o dg = None /\ pb_leaves c !! new_id o dg = None;
  pc_new_nodes : forall id n, pb_nodes c !! id = Some n -> node_record_valid n;
  pc_new_leaves : forall id r, pb_leaves c !! id = Some r -> leaf_record_valid r /\ zlen (enc_leaf_record r) <= 33000
}.

(** Room for [l] loads and [e] emissions. *)
Record piece_able (l e : nat) (c : PieceContext) : Prop := mkPieceAble {
  pa_ordinal : bc_ordinal (pb c) + Z.of_nat e <= U64_MAX;
  pa_reads : bc_records_read (pb c) + Z.of_nat l <= U64_MAX;
  pa_room : forall a, bc_acquisition (pb c) = Some a -> room PIECE_COST a (l + e)
}.

Lemma piece_able_le l e l' e' c : (l' <= l)%nat -> (e' <= e)%nat -> piece_able l e c -> piece_able l' e' c.
Proof.
  intros Hl He [A1 A2 A3]. split; try lia. intros a Ha. eapply room_le; [| |by apply A3]; [done|lia].
Qed.

(** ** Total correctness up to resources *)

Context (P : Prop).

Definition pwp {A} (m : piecem R A) (c : PieceContext) (Q : A -> PieceContext -> Prop) : Prop :=
  match m c with Ok (a, c') => Q a c' | Err _ => ~ P end.

Lemma pwp_ret {A} (a : A) c (Q : A -> PieceContext -> Prop) : Q a c -> pwp (mret a) c Q.
Proof. done. Qed.
Lemma pwp_bind {A B} (m : piecem R A) (k : A -> piecem R B) c Q : pwp m c (fun a c' => pwp (k a) c' Q) -> pwp (m ≫= k) c Q.
Proof. unfold pwp, mbind, piecem_bind. by destruct (m c) as [[a c']|]. Qed.
Lemma pwp_assoc {A B D} (m : piecem R A) (f : A -> piecem R B) (k : B -> piecem R D) c Q :
  pwp (x ← m; f x) c (fun y c' => pwp (k y) c' Q) -> pwp (x ← m; y ← f x; k y) c Q.
Proof. unfold pwp, mbind, piecem_bind. destruct (m c) as [[a c']|]; [|done]. by destruct (f a c') as [[b c'']|]. Qed.
Lemma pwp_mono {A} (m : piecem R A) c (Q Q' : A -> PieceContext -> Prop) : pwp m c Q -> (forall a c', Q a c' -> Q' a c') -> pwp m c Q'.
Proof. unfold pwp. destruct (m c) as [[a c']|]; auto. Qed.
Lemma pwp_lift {A} r (a : A) c (Q : A -> PieceContext -> Prop) : r = Ok a -> Q a c -> pwp (lift_piece r) c Q.
Proof. intros ->. done. Qed.
Lemma pwp_fail {A} e c (Q : A -> PieceContext -> Prop) : ~ P -> pwp (fail_piece e) c Q.
Proof. done. Qed.

Record piece_ready (l e : nat) (c : PieceContext) : Prop := mkPieceReady {
  pr_ok : piece_context_ok c;
  pr_able : P -> piece_able l e c
}.

Lemma piece_ready_le l e l' e' c : (l' <= l)%nat -> (e' <= e)%nat -> piece_ready l e c -> piece_ready l' e' c.
Proof. intros ? ? [? Ha]. split; [done|]. intros. eapply piece_able_le; [done|done|auto]. Qed.

(** A load changes only caches and counters. *)
Record kept (c c' : PieceContext) : Prop := mkKept {
  kp_nodes : pb_nodes c' = pb_nodes c;
  kp_leaves : pb_leaves c' = pb_leaves c;
  kp_mapping : bc_mapping (pb c') = bc_mapping (pb c);
  kp_records : bc_mapping_records (pb c') = bc_mapping_records (pb c)
}.
(** An emission adds records. *)
Record grown (c c' : PieceContext) : Prop := mkGrown {
  gr_seen : extends (seen c) (seen c');
  gr_mapping : bc_mapping (pb c') = bc_mapping (pb c);
  gr_records : bc_mapping_records (pb c') = bc_mapping_records (pb c)
}.

Lemma kept_seen c c' : kept c c' -> extends (seen c) (seen c').
Proof. intros [E1 E2 _ _]. split; cbn; intros id n; by rewrite ?E1, ?E2. Qed.
Lemma kept_tables c c' : kept c c' -> seen c' = seen c.
Proof. intros [E1 E2 _ _]. unfold seen. by rewrite E1, E2. Qed.
Lemma kept_grown c c' : kept c c' -> grown c c'.
Proof. intros Hk. split; [by apply kept_seen|by destruct Hk|by destruct Hk]. Qed.
Lemma kept_refl c : kept c c.
Proof. done. Qed.
Lemma grown_refl c : grown c c.
Proof. apply kept_grown, kept_refl. Qed.
Lemma kept_trans c c' c'' : kept c c' -> kept c' c'' -> kept c c''.
Proof. intros [] []. split; congruence. Qed.
Lemma grown_trans c c' c'' : grown c c' -> grown c' c'' -> grown c c''.
Proof. intros [[S1 S2] ? ?] [[S3 S4] ? ?]. split; [split; auto|congruence|congruence]. Qed.

Lemma grown_tree c c' h root link ps : grown c c' -> piece_tree draft (seen c) h root link ps -> piece_tree draft (seen c') h root link ps.
Proof. intros [Hs _ _]. by apply piece_tree_mono. Qed.
Lemma grown_forest c c' h pss cs : grown c c' ->
  Forall2 (fun qs x => piece_tree draft (seen c) h false x qs) pss cs -> Forall2 (fun qs x => piece_tree draft (seen c') h false x qs) pss cs.
Proof. intros Hg Hf. eapply Forall2_impl; [done|]. intros. by eapply grown_tree. Qed.

Context (Hstores : piece_stores_ok).

(** ** Point reads *)

Lemma node_cached k o : node_store k = Ok o -> exists e, stored_as (K := DraftPieceRecordKey) o e.
Proof. destruct o as [n|]; intros Ho; [|by exists None]. exists (Some (enc_node_record n)). split; [by eapply ps_nodes|done]. Qed.
Lemma leaf_cached k o : leaf_store k = Ok o -> exists e, stored_as (K := DraftPieceRecordKey) o e.
Proof. destruct o as [r|]; intros Ho; [|by exists None]. exists (Some (enc_leaf_record r)). split; [by eapply ps_leaves|done]. Qed.

Lemma with_acquisition_ok c a a' : piece_context_ok c -> bc_acquisition (pb c) = Some a -> within_limits a' -> cache_ok a' node_store ->
  cache_ok a' leaf_store -> piece_context_ok (with_build c (with_acquisition (pb c) a')).
Proof. intros [] Ha Hw Hn Hl. split; cbn; try done. by intros ? [= <-]. Qed.

Definition after_point {V} (c : PieceContext) (l : nat) (o : option V) (o' : option V) (c' : PieceContext) : Prop :=
  o' = o /\ piece_context_ok c' /\ kept c c'
  /\ bc_ordinal (pb c') = bc_ordinal (pb c) /\ bc_records_read (pb c') = bc_records_read (pb c)
  /\ pb_loaded_nodes c' = pb_loaded_nodes c /\ pb_loaded_leaves c' = pb_loaded_leaves c
  /\ (P -> forall a, bc_acquisition (pb c') = Some a -> room PIECE_COST a l).

Lemma pwp_point {V} `{FamilyLaws DraftPieceRecordKey V} (store : DraftPieceRecordKey -> result (DraftPiecePrepareError R) (option V)) key c l o :
  (forall c a o' a', piece_context_ok c -> bc_acquisition (pb c) = Some a -> acquired_point a store key = Ok (o', a') ->
     store key = Ok o' /\ piece_context_ok (with_build c (with_acquisition (pb c) a'))) ->
  (forall a n, piece_context_ok c -> bc_acquisition (pb c) = Some a -> room PIECE_COST a (S n) ->
     exists a', acquired_point a store key = Ok (o, a') /\ room PIECE_COST a' n) ->
  piece_context_ok c -> store key = Ok o -> (P -> forall a, bc_acquisition (pb c) = Some a -> room PIECE_COST a (S l)) ->
  pwp (piece_point store key) c (after_point c l o).
Proof.
  intros Hex Hpr Hc Ho Hr. unfold pwp, piece_point. destruct (bc_acquisition (pb c)) as [a|] eqn:Ea.
  - destruct (acquired_point a store key) as [[o' a']|] eqn:E.
    + destruct (Hex _ _ _ _ Hc Ea E) as [Ho' Hc']. assert (o' = o) as -> by congruence. unfold after_point. split_and!; try done.
      intros HP a'' [= <-]. destruct (Hpr a l Hc eq_refl (Hr HP _ eq_refl)) as (a'' & E' & ?). congruence.
    + intros HP. destruct (Hpr a l Hc eq_refl (Hr HP _ eq_refl)) as (? & ? & _). congruence.
  - rewrite Ho. unfold after_point. split_and!; try done. intros _ a' Ha'. congruence.
Qed.

Lemma key_of_typed' id : fixed 16 id -> family_key_typed (V := DraftPieceNodeRecord) (key_of id) /\ family_key_typed (V := DraftPieceLeafRecord) (key_of id).
Proof. intros Hid. pose proof (ps_draft Hstores). by repeat split. Qed.

Lemma record_key_length id : fixed 16 id -> zlen (enc_record_key (key_of id)) = 32.
Proof. intros Hid. unfold enc_record_key, fixed in *. cbn. rewrite length_app, Hid, (ps_draft Hstores). done. Qed.

Lemma pwp_node_point id c l o : fixed 16 id -> piece_context_ok c -> node_store (key_of id) = Ok o ->
  (P -> forall a, bc_acquisition (pb c) = Some a -> room PIECE_COST a (S l)) ->
  pwp (piece_point node_store (key_of id)) c (after_point c l o).
Proof.
  intros Hid Hc Ho Hr. pose proof (key_of_typed' id Hid) as [Hk _]. eapply pwp_point; [| |done|done|done].
  - intros c1 a o' a' Hc1 Ea E. destruct (pc_budget _ Hc1 a Ea) as (Hw & Hn & Hl).
    destruct (point_exact _ _ _ _ _ Hw Hn Hk E) as (Ho' & Hw' & Hn'). split; [done|].
    apply (with_acquisition_ok c1 a); try done. eapply (point_other (V := DraftPieceNodeRecord)); [| |by apply Hn|done|done]; done.
  - intros a n Hc1 Ea Hroom. destruct (pc_budget _ Hc1 a Ea) as (Hw & Hn & Hl).
    eapply (point_progress (V := DraftPieceNodeRecord)); try done; [by eapply node_cached|]. by rewrite record_key_length.
Qed.

Lemma pwp_leaf_point id c l o : fixed 16 id -> piece_context_ok c -> leaf_store (key_of id) = Ok o ->
  (P -> forall a, bc_acquisition (pb c) = Some a -> room PIECE_COST a (S l)) ->
  pwp (piece_point leaf_store (key_of id)) c (after_point c l o).
Proof.
  intros Hid Hc Ho Hr. pose proof (key_of_typed' id Hid) as [_ Hk]. eapply pwp_point; [| |done|done|done].
  - intros c1 a o' a' Hc1 Ea E. destruct (pc_budget _ Hc1 a Ea) as (Hw & Hn & Hl).
    destruct (point_exact _ _ _ _ _ Hw Hl Hk E) as (Ho' & Hw' & Hl'). split; [done|].
    apply (with_acquisition_ok c1 a); try done. eapply (point_other (V := DraftPieceLeafRecord)); [| |by apply Hl|done|done]; done.
  - intros a n Hc1 Ea Hroom. destruct (pc_budget _ Hc1 a Ea) as (Hw & Hn & Hl).
    eapply (point_progress (V := DraftPieceLeafRecord)); try done; [by eapply leaf_cached|]. by rewrite record_key_length.
Qed.

(** ** Loads *)

Lemma node_id_fixed T root link n : piece_node_at draft T root link n -> fixed 16 (c_id link).
Proof. intros (_ & Hk & [([_ Hi] & _) _] & _). by rewrite Hk in Hi. Qed.
Lemma leaf_id_fixed T link r : leaf_at draft T link r -> fixed 16 (c_id link).
Proof. intros (_ & Hk & [([_ Hi] & _) _] & _). by rewrite Hk in Hi. Qed.

Lemma validate_node_Ok T root root' link n : piece_node_at draft T root link n -> (root = true -> root' = true) ->
  validate_sequence_node (R := R) n link (nr_height n) root' = Ok n.
Proof.
  intros (_ & Hk & [(_ & _ & Hl & _) (Hh & Hd & _)] & Hc & Hm) Hr. unfold validate_sequence_node. rewrite Hk, Hc, <- Hd.
  rewrite !bool_decide_true, Z.eqb_refl, (proj2 (Z.eqb_neq _ 0)) by done. unfold DRAFT_PIECE_MAX_CHILDREN in *. cbn [orb negb rk_id].
  rewrite (proj2 (Nat.ltb_ge _ _)), (proj2 (Nat.ltb_ge _ _)); [done|lia|]. destruct root, root'; cbn in *; lia || by specialize (Hr eq_refl).
Qed.

Lemma validate_leaf_Ok T link r : leaf_at draft T link r -> validate_sequence_leaf (R := R) r link = Ok r.
Proof.
  intros (_ & Hk & [(_ & _ & [_ Hs] & _) [E1 E2]] & _ & Hc). unfold validate_sequence_leaf.
  by rewrite Hk, Hs, !bool_decide_true by done.
Qed.

Lemma count_read_pwp c l n : piece_context_ok c -> (P -> bc_records_read (pb c) + Z.of_nat (S n) <= U64_MAX) ->
  (P -> forall a, bc_acquisition (pb c) = Some a -> room PIECE_COST a l) ->
  pwp count_read c (fun _ c' => piece_context_ok c' /\ kept c c' /\ bc_ordinal (pb c') = bc_ordinal (pb c)
    /\ pb_loaded_nodes c' = pb_loaded_nodes c /\ pb_loaded_leaves c' = pb_loaded_leaves c
    /\ (P -> bc_records_read (pb c') + Z.of_nat n <= U64_MAX)
    /\ (P -> forall a, bc_acquisition (pb c') = Some a -> room PIECE_COST a l)).
Proof.
  intros Hc Hn Hr. unfold pwp, count_read. destruct (checked_add64 _ 1) as [m|] eqn:E.
  - apply checked_add64_Some in E as [-> _]. split_and!; try done; [by destruct Hc|]. intros HP. cbn. specialize (Hn HP). lia.
  - intros HP. apply checked_add64_None in E. specialize (Hn HP). lia.
Qed.

(** A record the store holds, remembered. *)
Lemma remember_node_ok c id n : piece_context_ok c -> node_store (key_of id) = Ok (Some n) ->
  piece_context_ok (mkPieces (pb c) (pb_nodes c) (pb_leaves c) (<[id := n]> (pb_loaded_nodes c)) (pb_loaded_leaves c)).
Proof. intros [] Hn. split; cbn; try done. intros id' n'. rewrite lookup_insert_Some. naive_solver. Qed.
Lemma remember_leaf_ok c id r : piece_context_ok c -> leaf_store (key_of id) = Ok (Some r) ->
  piece_context_ok (mkPieces (pb c) (pb_nodes c) (pb_leaves c) (pb_loaded_nodes c) (<[id := r]> (pb_loaded_leaves c))).
Proof. intros [] Hn. split; cbn; try done. intros id' n'. rewrite lookup_insert_Some. naive_solver. Qed.

Definition after_load {A} (c : PieceContext) (l e : nat) (a : A) (a' : A) (c' : PieceContext) : Prop :=
  a' = a /\ piece_ready l e c' /\ kept c c'.

Lemma hit_load {A} (c : PieceContext) l e (a : A) : piece_ready (S l) e c -> after_load c l e a a c.
Proof. intros Hr. split_and!; [done| |apply kept_refl]. eapply piece_ready_le; [| |done]; lia. Qed.

Lemma pwp_load_node l e c root link n h : piece_ready (S l) e c -> piece_node_at draft (seen c) root link n -> nr_height n = h ->
  pwp (load_sequence_node node_store link h root) c (after_load c l e n).
Proof.
  intros Hr Hn <-. pose proof (node_id_fixed _ _ _ _ Hn) as Hid. unfold load_sequence_node, pwp. destruct Hn as (Hs & Hn).
  destruct Hs as [Hs|[Hp Hs]].
  { rewrite Hs. cbn. rewrite (validate_node_Ok (seen c) root true) by (try done; (split; [by left|exact Hn])). by apply hit_load. }
  rewrite Hp. destruct (pb_loaded_nodes c !! c_id link) as [n'|] eqn:El.
  { destruct Hr as [Hc Ha]. pose proof (pc_nodes _ Hc _ _ El). assert (n' = n) as -> by congruence. cbn.
    rewrite (validate_node_Ok (seen c) root root) by (try done; (split; [by right|exact Hn])). by apply hit_load. }
  destruct Hr as [Hc Ha]. rewrite (pc_draft _ Hc).
  match goal with |- match ?m c with _ => _ end => change (pwp m c (after_load c l e n)) end.
  apply pwp_bind. eapply pwp_mono; [eapply (pwp_node_point (c_id link) c (l + e) (Some n)); try done; intros HP; by destruct (Ha HP)|].
  intros o c1 (-> & Hc1 & Hk1 & O1 & N1 & L1 & L1' & R1). cbn [ok_or]. apply pwp_bind. eapply pwp_lift; [done|]. apply pwp_bind.
  eapply pwp_mono; [eapply (count_read_pwp c1 (l + e) l); [done| |done]; intros HP; rewrite N1; destruct (Ha HP); lia|].
  intros _ c2 (Hc2 & Hk2 & O2 & L2 & L2' & N2 & R2). apply pwp_bind.
  eapply pwp_lift; [apply (validate_node_Ok (seen c) root root); [split; [by right|exact Hn]|done]|].
  apply pwp_bind. split_and!; [done| |].
  - split; [by apply remember_node_ok|]. intros HP. specialize (N2 HP). specialize (R2 HP). destruct (Ha HP) as [A1 A2 A3]. split; cbn; [congruence|done|done].
  - destruct Hk1, Hk2. split; cbn; congruence.
Qed.

Lemma pwp_load_leaf l e c link r : piece_ready (S l) e c -> leaf_at draft (seen c) link r ->
  pwp (load_sequence_leaf leaf_store link) c (after_load c l e r).
Proof.
  intros Hr Hn. pose proof (leaf_id_fixed _ _ _ Hn) as Hid. pose proof (validate_leaf_Ok _ _ _ Hn) as Hv.
  unfold load_sequence_leaf, pwp. destruct Hn as ([Hs|[Hp Hs]] & Hn).
  { rewrite Hs. cbn. rewrite Hv. by apply hit_load. }
  rewrite Hp. destruct (pb_loaded_leaves c !! c_id link) as [r'|] eqn:El.
  { destruct Hr as [Hc Ha]. pose proof (pc_leaves _ Hc _ _ El). assert (r' = r) as -> by congruence. cbn. rewrite Hv. by apply hit_load. }
  destruct Hr as [Hc Ha]. rewrite (pc_draft _ Hc).
  match goal with |- match ?m c with _ => _ end => change (pwp m c (after_load c l e r)) end.
  apply pwp_bind. eapply pwp_mono; [eapply (pwp_leaf_point (c_id link) c (l + e) (Some r)); try done; intros HP; by destruct (Ha HP)|].
  intros o c1 (-> & Hc1 & Hk1 & O1 & N1 & L1 & L1' & R1). cbn [ok_or]. apply pwp_bind. eapply pwp_lift; [done|]. apply pwp_bind.
  eapply pwp_mono; [eapply (count_read_pwp c1 (l + e) l); [done| |done]; intros HP; rewrite N1; destruct (Ha HP); lia|].
  intros _ c2 (Hc2 & Hk2 & O2 & L2 & L2' & N2 & R2). apply pwp_bind. eapply pwp_lift; [done|].
  apply pwp_bind. split_and!; [done| |].
  - split; [by apply remember_leaf_ok|]. intros HP. specialize (N2 HP). specialize (R2 HP). destruct (Ha HP) as [A1 A2 A3]. split; cbn; [congruence|done|done].
  - destruct Hk1, Hk2. split; cbn; congruence.
Qed.

(** ** Emissions *)

Lemma pwp_charge {V} `{FamilyLaws DraftPieceRecordKey V} id (v : V) bs c n : piece_context_ok c -> family_typed v ->
  encode_family_key (V := V) (key_of id) = Ok (enc_record_key (key_of id)) -> fixed 16 id ->
  encode_family_value (K := DraftPieceRecordKey) v = Ok bs -> 32 + max_value_bytes (K := DraftPieceRecordKey) (V := V) <= PIECE_COST ->
  (P -> forall a, bc_acquisition (pb c) = Some a -> room PIECE_COST a (S n)) ->
  pwp (charge_emission (key_of id) v) c (fun _ c' => piece_context_ok c'
    /\ (exists b, c' = with_build c b /\ bc_mapping b = bc_mapping (pb c) /\ bc_mapping_records b = bc_mapping_records (pb c)
         /\ bc_ordinal b = bc_ordinal (pb c) /\ bc_records_read b = bc_records_read (pb c) /\ bc_draft_id b = bc_draft_id (pb c))
    /\ (P -> forall a, bc_acquisition (pb c') = Some a -> room PIECE_COST a n)).
Proof.
  intros Hc Hv Hek Hid Hbs Hmax Hr. unfold pwp, charge_emission. destruct (bc_acquisition (pb c)) as [a|] eqn:Ea.
  - destruct (pc_budget _ Hc a Ea) as (Hw & Hn & Hl).
    assert (Hpr : P -> exists a', emission (R := R) a (key_of id) v = Ok a' /\ room PIECE_COST a' n).
    { intros HP. eapply emission_progress; try done; [by apply Hr|]. by rewrite record_key_length. }
    destruct (emission a (key_of id) v) as [a'|] eqn:E.
    + pose proof (emission_other _ node_store _ _ _ Hw E Hn) as [Hw' Hn']. pose proof (emission_other _ leaf_store _ _ _ Hw E Hl) as [_ Hl'].
      split_and!; [by apply (with_acquisition_ok c a)|by eexists|]. intros HP ? [= <-]. destruct (Hpr HP) as (? & ? & ?). congruence.
    + intros HP. destruct (Hpr HP) as (? & ? & _). congruence.
  - split_and!; [done| |by intros _ a ?; congruence]. exists (pb c). by destruct c.
Qed.

Lemma pwp_next_id l e c dg : piece_ready l (S e) c -> pwp (next_id dg) c (fun id c' =>
  id = new_id (bc_ordinal (pb c)) dg /\ c' = with_build c (with_ordinal (pb c) (bc_ordinal (pb c) + 1)) /\ bc_ordinal (pb c) + 1 <= U64_MAX).
Proof.
  intros [Hc Ha]. unfold pwp, next_id. rewrite (pc_session _ Hc), (pc_draft _ Hc), (pc_operation _ Hc).
  destruct (checked_add64 _ 1) as [m|] eqn:E.
  - by apply checked_add64_Some in E as [-> ?].
  - intros HP. apply checked_add64_None in E. destruct (Ha HP). lia.
Qed.

(** The context between taking an identity and recording what it names. *)
Definition spent (c : PieceContext) (c1 : PieceContext) : Prop :=
  exists b, c1 = with_build c b /\ bc_draft_id b = draft /\ bc_mapping b = bc_mapping (pb c) /\ bc_mapping_records b = bc_mapping_records (pb c)
    /\ bc_ordinal b = bc_ordinal (pb c) + 1 /\ bc_records_read b = bc_records_read (pb c).

Lemma next_id_ok c : piece_context_ok c -> bc_ordinal (pb c) + 1 <= U64_MAX ->
  piece_context_ok (with_build c (with_ordinal (pb c) (bc_ordinal (pb c) + 1))).
Proof.
  intros [] Ho. split; cbn; try done; [unfold is_u64 in *; lia|]. intros o dg Hu Hle. apply pc_fresh0; [done|]. lia.
Qed.

Lemma fresh_here c dg : piece_context_ok c -> let id := new_id (bc_ordinal (pb c)) dg in
  node_store (key_of id) = Ok None /\ leaf_store (key_of id) = Ok None /\ pb_nodes c !! id = None /\ pb_leaves c !! id = None.
Proof. intros [] id. apply pc_fresh0; [done|lia]. Qed.

Lemma push_seen_node c c1 n dg : piece_context_ok c -> spent c c1 -> let id := new_id (bc_ordinal (pb c)) dg in
  grown c (mkPieces (pb c1) (<[id := n]> (pb_nodes c1)) (pb_leaves c1) (pb_loaded_nodes c1) (pb_loaded_leaves c1)).
Proof.
  intros Hc (b & -> & _ & E1 & E2 & _) id. destruct (fresh_here c dg Hc) as (F1 & F2 & F3 & F4). fold id in F1, F2, F3, F4.
  split; cbn; [|done|done]. split; cbn; intros id' x.
  - destruct (decide (id' = id)) as [->|Hne]; [intros [?|[_ ?]]; congruence|]. by rewrite lookup_insert_ne.
  - done.
Qed.
Lemma push_seen_leaf c c1 r dg : piece_context_ok c -> spent c c1 -> let id := new_id (bc_ordinal (pb c)) dg in
  grown c (mkPieces (pb c1) (pb_nodes c1) (<[id := r]> (pb_leaves c1)) (pb_loaded_nodes c1) (pb_loaded_leaves c1)).
Proof.
  intros Hc (b & -> & _ & E1 & E2 & _) id. destruct (fresh_here c dg Hc) as (F1 & F2 & F3 & F4). fold id in F1, F2, F3, F4.
  split; cbn; [|done|done]. split; cbn; intros id' x.
  - done.
  - destruct (decide (id' = id)) as [->|Hne]; [intros [?|[_ ?]]; congruence|]. by rewrite lookup_insert_ne.
Qed.

(** Recording under an identity of the past keeps the identities of the future unused. *)
Lemma push_context_ok c c1 dg nodes leaves : piece_context_ok c -> spent c c1 -> piece_context_ok c1 -> let id := new_id (bc_ordinal (pb c)) dg in
  (forall id', id' <> id -> nodes !! id' = pb_nodes c1 !! id') -> (forall id', id' <> id -> leaves !! id' = pb_leaves c1 !! id') ->
  (forall n, nodes !! id = Some n -> node_record_valid n) -> (forall r, leaves !! id = Some r -> leaf_record_valid r /\ zlen (enc_leaf_record r) <= 33000) ->
  piece_context_ok (mkPieces (pb c1) nodes leaves (pb_loaded_nodes c1) (pb_loaded_leaves c1)).
Proof.
  intros Hc (b & -> & _ & _ & _ & Eo & _) [] id Hn Hl Vn Vl. split; cbn in *; try done.
  - intros o dg' Hu Hle. assert (new_id o dg' <> id). { intros E. apply (ps_ids Hstores) in E; [|done|by destruct Hc]. lia. }
    rewrite Hn, Hl by done. by apply pc_fresh0.
  - intros id' n Hi. destruct (decide (id' = id)) as [->|Hne]; [by apply Vn|]. rewrite Hn in Hi by done. by eapply pc_new_nodes0.
  - intros id' r Hi. destruct (decide (id' = id)) as [->|Hne]; [by apply Vl|]. rewrite Hl in Hi by done. by eapply pc_new_leaves0.
Qed.

Lemma value_summary_valid v : value_typed v -> summary_valid (value_summary v).
Proof.
  destruct v as [t|m]; cbn; [|done]. intros [_ Hl]. unfold from_utf8. destruct (Z.eqb_spec (zlen t) 0) as [|Hne]; [done|].
  pose proof (count_newlines_bounds t). unfold summary_valid, summary_typed, is_canonical, is_u64. cbn. split; [lia|].
  rewrite (proj2 (Z.eqb_neq _ 0)), (checked_add64_within _ _ U64_MAX) by lia. apply Z.eqb_refl.
Qed.

Lemma leaf_length k v s dg : key_typed k -> piece_ok v -> fixed 32 dg -> zlen (enc_leaf_record (mkLeafRecord k v s dg)) <= 33000.
Proof.
  intros [H1' H2'] [Ht Hv] Hd. unfold enc_leaf_record, enc_record_key, enc_text_summary, e_u64, fixed in *. cbn [lr_key lr_value lr_summary lr_digest].
  rewrite !length_app, !length_be_bytes, H1', H2', Hd. destruct v as [t|m]; cbn [enc_leaf_value].
  - unfold variant, e_text, e_u8, e_u32. rewrite !length_app, !length_be_bytes. lia.
  - destruct Ht as (Hm & _ & _ & Ha & _). unfold variant, enc_marker, enc_asset_id, e_u8, e_u64, fixed in *. rewrite !length_app, !length_be_bytes, Hm, Ha. cbn. lia.
Qed.

Lemma pwp_new_leaf l e c v : piece_ready l (S e) c -> piece_ok v ->
  pwp (new_sequence_leaf v) c (fun t c' => sr_height t = 0 /\ sr_root t = true
    /\ (piece_named v (c_id (sr_link t)) -> piece_tree draft (seen c') 0 true (sr_link t) [v])
    /\ piece_ready l e c' /\ grown c c').
Proof.
  intros Hr Hv. pose proof Hr as [Hc Ha]. unfold new_sequence_leaf. cbv zeta. apply pwp_bind.
  eapply pwp_mono; [by eapply pwp_next_id|]. intros id c1 (-> & -> & Ho). pose proof (next_id_ok c Hc Ho) as Hc1.
  set (dg := leaf_digest v (value_summary v)). set (id := new_id (bc_ordinal (pb c)) dg) in *.
  assert (Hid : fixed 16 id) by apply piece_record_id_length.
  apply pwp_bind. unfold draft_of. unfold pwp at 1. cbn [pb with_build with_ordinal bc_draft_id]. rewrite (pc_draft _ Hc).
  set (r := mkLeafRecord (key_of id) v (value_summary v) dg). cbn [lr_key].
  assert (Hval : leaf_record_valid r).
  { split; [|done]. pose proof Hv as [Ht _]. split_and!; [split; [apply Hstores|done]|done|by apply value_summary_valid|apply leaf_digest_length]. }
  assert (Hlen : zlen (enc_leaf_record r) <= 33000) by (apply leaf_length; [split; [apply Hstores|done]|done|apply leaf_digest_length]).
  apply pwp_bind. eapply pwp_mono; [eapply (pwp_charge id r (enc_leaf_record r) _ (l + e)); try done|].
  { intros HP a Ea. destruct (Ha HP) as [_ _ A3]. replace (S (l + e)) with (l + S e)%nat by lia. by apply A3. }
  intros _ c2 (Hc2 & (b & -> & B1 & B2 & B3 & B4 & B5) & Hroom).
  assert (Hsp : spent c (with_build (with_build c (with_ordinal (pb c) (bc_ordinal (pb c) + 1))) b)).
  { exists b. cbn in *. rewrite B1, B2, B3, B4, B5, (pc_draft _ Hc). done. }
  apply pwp_bind. unfold push_leaf, pwp at 1. apply pwp_ret. cbn [sr_height sr_root sr_link].
  pose proof (push_seen_leaf c _ r dg Hc Hsp) as Hg. fold id in Hg.
  split_and!; try done.
  - assert (c_id (child_for_leaf r) = id) as -> by (unfold child_for_leaf; by destruct v). intros Hn.
    exists r. split; [|done]. split; [|done]. unfold leaf_at. assert (c_id (child_for_leaf r) = id) as -> by (unfold child_for_leaf; by destruct v).
    split_and!; try done. left. cbn. by rewrite lookup_insert_eq.
  - split.
    + eapply (push_context_ok c _ dg); try done; [intros id' Hne; cbn; by rewrite lookup_insert_ne| |].
      * intros n. cbn. destruct (fresh_here c dg Hc) as (_ & _ & -> & _). done.
      * intros r'. fold id. cbn. rewrite lookup_insert_eq. by intros [= <-].
    + intros HP. destruct (Ha HP) as [A1 A2 A3]. cbn in *. split; cbn; [lia|lia|]. by apply Hroom.
Qed.

(** The children a node may have. *)
Definition sized_children (root : bool) (cs : list DraftPieceChild) : Prop :=
  ((if root then 1 else 2) <= length cs <= DRAFT_PIECE_MAX_CHILDREN)%nat.

Lemma pwp_new_node l e c h root cs pss : piece_ready l (S e) c -> Forall2 (fun qs x => piece_tree draft (seen c) h false x qs) pss cs ->
  sized_children root cs -> (P -> Z.of_nat (S h) <= DRAFT_PIECE_MAX_HEIGHT) -> (P -> ordered (concat pss)) -> (P -> fits (concat pss)) ->
  pwp (new_sequence_node (Z.of_nat (S h)) cs) c (fun t c' => sr_height t = Z.of_nat (S h) /\ sr_root t = true
    /\ piece_tree draft (seen c') (S h) root (sr_link t) (concat pss) /\ piece_ready l e c' /\ grown c c').
Proof.
  intros Hr Hf Hs Hh Ho Hfit. pose proof Hr as [Hc Ha]. unfold new_sequence_node, sized_children, DRAFT_PIECE_MAX_CHILDREN in *.
  assert (Hne : cs <> []) by (intros ->; destruct root; cbn in Hs; lia).
  rewrite (proj2 (Z.eqb_neq _ 0)), (bool_decide_false _ Hne), (proj2 (Nat.ltb_ge _ _)) by lia. cbn [orb]. rewrite !orb_false_r.
  destruct (Z.ltb_spec DRAFT_PIECE_MAX_HEIGHT (Z.of_nat (S h))) as [Hlt|Hle]; [apply pwp_fail; intros HP; specialize (Hh HP); lia|].
  cbv zeta. apply pwp_bind. eapply pwp_mono; [by eapply pwp_next_id|]. intros id c1 (-> & -> & Hov). pose proof (next_id_ok c Hc Hov) as Hc1.
  set (dg := piece_node_digest (Z.of_nat (S h)) cs). set (id := new_id (bc_ordinal (pb c)) dg) in *.
  assert (Hid : fixed 16 id) by apply piece_record_id_length.
  apply pwp_bind. unfold draft_of. unfold pwp at 1. cbn [pb with_build with_ordinal bc_draft_id]. rewrite (pc_draft _ Hc).
  set (n := mkNodeRecord (key_of id) (Z.of_nat (S h)) cs dg).
  assert (Hden : Forall2 denotes_pieces pss (nr_children n)) by (eapply forest_pieces; [|done]; intros; by eapply piece_tree_denotes).
  destruct (child_for_node n) as [link|err] eqn:Ec.
  2: { apply pwp_fail. intros HP. destruct (child_for_node_complete pss n Hden Hne (Ho HP) (Hfit HP)). congruence. }
  destruct (child_for_node_sound pss n link Hden Ec) as (Hco & Hord & Hft & E1 & E2 & Hmd). cbn [nr_key rk_id n] in E1.
  assert (Hval : node_record_valid n).
  { unfold DRAFT_PIECE_MAX_HEIGHT in *. split.
    - unfold node_record_framed, DRAFT_PIECE_MAX_CHILDREN. cbn [nr_key nr_height nr_children nr_digest n].
      split_and!; [split; [apply Hstores|done]|unfold is_u8; lia|destruct root; lia|lia| |apply piece_node_digest_length].
      apply Forall_forall. intros x Hx. apply list_elem_of_lookup in Hx as [i Hi]. eapply Forall2_lookup_r in Hden as (qs & _ & Hq); [|done]. by destruct Hq.
    - unfold node_record_sound. rewrite Ec. cbn [nr_key nr_height nr_children nr_digest n]. split_and!; [lia|done|done]. }
  cbn [nr_key n]. apply pwp_bind. eapply pwp_mono; [eapply (pwp_charge id n (enc_node_record n) _ (l + e)); try done|].
  { intros HP a Ea. destruct (Ha HP) as [_ _ A3]. replace (S (l + e)) with (l + S e)%nat by lia. by apply A3. }
  intros _ c2 (Hc2 & (b & -> & B1 & B2 & B3 & B4 & B5) & Hroom).
  assert (Hsp : spent c (with_build (with_build c (with_ordinal (pb c) (bc_ordinal (pb c) + 1))) b)).
  { exists b. cbn in *. rewrite B1, B2, B3, B4, B5, (pc_draft _ Hc). done. }
  apply pwp_bind. unfold push_node, pwp at 1. apply pwp_ret. cbn [sr_height sr_root sr_link].
  pose proof (push_seen_node c _ n dg Hc Hsp) as Hg. fold id in Hg.
  split_and!; try done.
  - exists n, pss. split_and!; try done; [|by eapply grown_forest]. unfold piece_node_at. rewrite E1. split_and!; try done; [|by destruct Hs].
    left. cbn. by rewrite lookup_insert_eq.
  - split.
    + eapply (push_context_ok c _ dg); try done; [intros id' Hne'; cbn; by rewrite lookup_insert_ne| |].
      * intros n'. fold id. cbn. rewrite lookup_insert_eq. by intros [= <-].
      * intros r. cbn. destruct (fresh_here c dg Hc) as (_ & _ & _ & ->). done.
    + intros HP. destruct (Ha HP) as [A1 A2 A3]. cbn in *. split; cbn; [lia|lia|]. by apply Hroom.
Qed.

(** ** Regions *)

Abbreviation forest T h pss cs := (Forall2 (fun qs x => piece_tree draft T h false x qs) pss cs).

Lemma forest_denotes T h pss cs : forest T h pss cs -> Forall2 denotes_pieces pss cs.
Proof. intros Hf. eapply Forall2_impl; [done|]. intros qs x Hx. exact (piece_tree_denotes _ _ _ _ _ _ Hx). Qed.

(** The roots a packed region becomes. *)
Definition packed (c : PieceContext) (h : nat) (root : bool) (ps : list piece) (roots : list SequenceRef) : Prop :=
  exists pss, concat pss = ps /\ (1 <= length roots <= 2)%nat
    /\ Forall2 (fun qs t => sr_height t = Z.of_nat h /\ sr_root t = true
         /\ piece_tree draft (seen c) h (root && (length roots =? 1)%nat) (sr_link t) qs) pss roots.

Lemma pwp_pack l e c h (root : bool) pss cs : piece_ready l (2 + e) c -> forest (seen c) h pss cs ->
  ((if root then 1 else 2) <= length cs <= 130)%nat -> (P -> Z.of_nat (S h) <= DRAFT_PIECE_MAX_HEIGHT) ->
  (P -> ordered (concat pss)) -> (P -> fits (concat pss)) ->
  pwp (pack_children cs (new_sequence_node (Z.of_nat (S h)))) c (fun roots c' =>
    packed c' (S h) root (concat pss) roots /\ piece_ready l e c' /\ grown c c').
Proof.
  intros Hr Hf Hl Hh Ho Hfit. unfold pack_children, DRAFT_PIECE_MAX_CHILDREN. destruct (Nat.leb_spec (length cs) 128) as [Hle|Hgt].
  - apply pwp_bind. eapply pwp_mono; [eapply (pwp_new_node l (S e) c h root cs pss); try done; unfold sized_children, DRAFT_PIECE_MAX_CHILDREN; lia|].
    intros t c1 (T1 & T2 & T3 & Hr1 & Hg1). apply pwp_ret. split_and!; [|by eapply piece_ready_le; [| |done]; lia|done].
    exists [concat pss]. cbn [concat length Nat.eqb]. rewrite app_nil_r, andb_true_r. split_and!; try done; try lia. constructor; [by split_and!|constructor].
  - set (m := (length cs / 2)%nat). assert (Hm : (65 <= S m /\ m <= 65 /\ length cs - m <= 65 /\ 64 <= m)%nat).
    { pose proof (Nat.div_mod (length cs) 2). pose proof (Nat.mod_upper_bound (length cs) 2). lia. }
    pose proof (Forall2_length _ _ _ Hf) as Elen. 
    pose proof (Forall2_take _ _ _ m Hf) as Hfa. pose proof (Forall2_drop _ _ _ m Hf) as Hfb.
    assert (concat pss = concat (take m pss) ++ concat (drop m pss)) as Ec by (by rewrite <- concat_app, take_drop). rewrite Ec in Ho, Hfit |- *.
    apply pwp_bind. eapply pwp_mono; [eapply (pwp_new_node l (S e) c h false (take m cs) (take m pss)); try done|].
    + unfold sized_children, DRAFT_PIECE_MAX_CHILDREN. rewrite length_take. lia.
    + intros HP. apply Ho, ordered_app in HP. tauto.
    + intros HP. by apply Hfit, fits_app_l in HP.
    + intros t c1 (T1 & T2 & T3 & Hr1 & Hg1). apply pwp_bind.
      eapply pwp_mono; [eapply (pwp_new_node l e c1 h false (drop m cs) (drop m pss)); try done; [by eapply grown_forest|..]|].
      * unfold sized_children, DRAFT_PIECE_MAX_CHILDREN. rewrite length_drop. lia.
      * intros HP. apply Ho, ordered_app in HP. tauto.
      * intros HP. by apply Hfit, fits_app_r in HP.
      * intros t' c2 (T1' & T2' & T3' & Hr2 & Hg2). apply pwp_ret. split_and!; [|done|by eapply grown_trans].
        exists [concat (take m pss); concat (drop m pss)]. cbn [concat length Nat.eqb]. rewrite app_nil_r, andb_false_r. split_and!; try done; try lia.
        constructor; [split_and!; [done|done|by eapply grown_tree]|constructor; [by split_and!|constructor]].
Qed.

Lemma packed_links c h ps roots : packed c h false ps roots ->
  exists pss, forest (seen c) h pss (sr_link <$> roots) /\ concat pss = ps /\ (1 <= length roots <= 2)%nat.
Proof. intros (pss & E & Hl & Hf). exists pss. split_and!; try done; try lia. apply Forall2_fmap_r. eapply Forall2_impl; [done|]. by intros qs t (_ & _ & ?). Qed.

(** ** The splice the map has ready *)

Definition verified (c : PieceContext) (kind : DraftPieceMappingSpliceKind) (a removed inserted : Z) : Prop :=
  verify_splice (R := R) (pb c) kind a removed inserted = Ok tt.

Lemma verified_mapping c c' k a r i : bc_mapping (pb c') = bc_mapping (pb c) -> verified c k a r i -> verified c' k a r i.
Proof. unfold verified, verify_splice. by intros ->. Qed.

Lemma pwp_verify c k a r i (Q : unit -> PieceContext -> Prop) : (P -> verified c k a r i) -> (verified c k a r i -> Q tt c) ->
  pwp (verify_sequence_splice k a r i) c Q.
Proof.
  unfold verified, pwp, verify_sequence_splice. intros Hv HQ. destruct (verify_splice _ _ _ _ _) as [[]|]; [by apply HQ|]. intros HP. by specialize (Hv HP).
Qed.

Definition insert_kind (v : piece) : DraftPieceMappingSpliceKind := match v with LeafText _ => TextInsert | LeafMarker _ => MarkerInsert end.

Lemma insertion_kind_of v t : child_of [v] (sr_link t) -> insertion_kind t = insert_kind v /\ extent (Some t) = seq_units [v].
Proof.
  intros Hc. pose proof (child_units _ _ Hc) as Hu. destruct Hc as [_ _ _ _ Em _ _]. unfold insertion_kind. rewrite Em. split; [by destruct v|done].
Qed.

(** ** Insertion *)

Lemma select_insertion_spec b pss cs : Forall2 denotes_pieces pss cs -> forall consumed units idx, 0 <= consumed <= b_rank b ->
  consumed + zlen (concat pss) <= U64_MAX ->
  match select_insertion (R := R) b consumed units idx cs with
  | Ok (i, child, co, un) => exists pre qs post cpre cpost, pss = pre ++ qs :: post /\ cs = cpre ++ child :: cpost
      /\ Forall2 denotes_pieces pre cpre /\ Forall2 denotes_pieces post cpost /\ denotes_pieces qs child
      /\ i = (idx + length cpre)%nat /\ co = consumed + zlen (concat pre) /\ un = units + seq_units (concat pre)
      /\ boundary_selects (shift b consumed) (concat pre) qs
  | Err _ => pss = [] \/ ~ (b_rank b <= consumed + zlen (concat pss) /\ (b_inner b <> 0 -> b_rank b < consumed + zlen (concat pss)))
  end.
Proof.
  induction 1 as [|qs x pss cs Hx Hf IH]; intros consumed units idx Hc Hb; cbn [select_insertion]; [by left|].
  cbn [concat] in Hb. rewrite length_app in Hb. pose proof Hx as [[_ _ _ E4 _ _ _] _ _ _ _]. rewrite E4, (checked_add64_within _ _ U64_MAX) by lia. cbn [ok_or mbind result_bind].
  match goal with |- context [if ?x then _ else _] => destruct x eqn:E end.
  - exists [], qs, pss, [], cs. cbn. unfold seq_units. rewrite !sum_of_nil. split_and!; try done; try lia.
    rewrite orb_true_iff, !andb_true_iff, negb_true_iff, !Z.eqb_eq, Z.eqb_neq, !Z.leb_le, Z.ltb_lt in E.
    unfold boundary_selects, shift. cbn. destruct E as [[[? ?] ?]|[[? ?] ?]]; lia.
  - rewrite orb_false_iff, !andb_false_iff, negb_false_iff, Z.eqb_eq, Z.eqb_neq, !Z.leb_gt, Z.ltb_ge in E.
    specialize (IH (consumed + zlen qs) (units + link_units x) (S idx)). rewrite (child_units _ _ (dp_child _ _ Hx)) in *.
    destruct (select_insertion _ _ _ _ _) as [[[[i child] co] un]|].
    + destruct IH as (pre & qs' & post & cpre & cpost & -> & -> & I1 & I2 & I3 & -> & -> & -> & I4); [destruct E as [[[?|?]|?] [[?|?]|?]]; lia|lia|].
      exists (qs :: pre), qs', post, (x :: cpre), cpost. cbn [concat app length]. rewrite length_app, seq_units_app. split_and!; try done; try lia; [by constructor|].
      unfold boundary_selects, shift in *. cbn in *. rewrite length_app. lia.
    + right. cbn [concat]. rewrite length_app. destruct IH as [->|IH]; [destruct E as [[[?|?]|?] [[?|?]|?]]; lia|lia| |].
      * cbn. destruct E as [[[?|?]|?] [[?|?]|?]]; lia.
      * intros [? ?]. apply IH. lia.
Qed.

Lemma boundary_in_range b ps : boundary_in b ps -> b_rank b <= zlen ps /\ (b_inner b <> 0 -> b_rank b < zlen ps).
Proof.
  intros [[? ?]|(t & ? & Ht & ? & _)]; [lia|]. apply lookup_lt_Some in Ht. lia.
Qed.

(** The roots a subtree becomes when a piece is put in. *)
Definition regrown (c : PieceContext) (h : nat) (root : bool) (ps : list piece) (roots : list SequenceRef) : Prop :=
  exists pss, concat pss = ps /\ (1 <= length roots <= if decide (h = 0) then 3 else 2)%nat
    /\ Forall2 (fun qs t => sr_height t = Z.of_nat h /\ (length roots = 1%nat -> sr_root t = true)
         /\ piece_tree draft (seen c) h (root && (length roots =? 1)%nat) (sr_link t) qs) pss roots.

Lemma packed_regrown c h root ps roots : packed c (S h) root ps roots -> regrown c (S h) root ps roots.
Proof. intros (pss & E & Hl & Hf). exists pss. split_and!; [done|lia|case_decide; lia|]. eapply Forall2_impl; [done|]. by intros qs t (? & ? & ?). Qed.

(** What inserting does: the boundary is one of the sequence, the map expects this splice, and
    the piece is in. *)
Definition insert_done (c c' : PieceContext) (h : nat) (root : bool) (ps : list piece) (b : Boundary) (v : piece) (prefix : Z)
    (roots : list SequenceRef) : Prop :=
  boundary_in b ps /\ verified c (insert_kind v) (prefix + unit_at b ps) 0 (seq_units [v])
  /\ regrown c' h root (insert_pieces b v ps) roots /\ grown c c'.

Lemma leaf_trees c h root vs roots : h = 0%nat -> (2 <= length roots <= 3)%nat ->
  Forall2 (fun v t => sr_height t = 0 /\ piece_tree draft (seen c) 0 true (sr_link t) [v]) vs roots -> regrown c h root vs roots.
Proof.
  intros -> Hl Hf. exists ((fun v => [v]) <$> vs). split_and!; [|lia|case_decide; lia|].
  - clear. induction vs; cbn; [done|by f_equal].
  - apply Forall2_fmap_l. eapply Forall2_impl; [done|]. intros v t [? ?]. split_and!; [done|lia|done].
Qed.

Lemma pwp_insert_at_leaf l e c root link w b inserted v prefix : piece_ready (S l) (2 + e) c ->
  piece_tree draft (seen c) 0 root link [w] -> piece_tree draft (seen c) 0 true (sr_link inserted) [v] -> sr_height inserted = 0 ->
  0 <= b_rank b -> 0 <= b_inner b ->
  (P -> boundary_in b [w]) -> (P -> verified c (insert_kind v) (prefix + unit_at b [w]) 0 (seq_units [v])) ->
  pwp (insert_at_leaf leaf_store (mkRef link 0 root) b inserted prefix) c (fun roots c' =>
    insert_done c c' 0 root [w] b v prefix roots /\ piece_ready l e c').
Proof.
  intros Hr Ht Hv Hi Hb0 Hi0 HB HV. pose proof (dp_child _ _ (piece_tree_denotes _ _ _ _ _ _ Hv)) as Hcv.
  pose proof (dp_child _ _ (piece_tree_denotes _ _ _ _ _ _ Ht)) as Hcw. destruct (insertion_kind_of v inserted Hcv) as [Ek Ee].
  unfold insert_at_leaf. cbv zeta. rewrite Ek, Ee. cbn [extent from_option sr_link]. rewrite (child_units _ _ Hcw).
  assert (Hdone : forall roots, boundary_in b [w] -> verified c (insert_kind v) (prefix + unit_at b [w]) 0 (seq_units [v]) -> regrown c 0 root (insert_pieces b v [w]) roots ->
    insert_done c c 0 root [w] b v prefix roots /\ piece_ready l e c).
  { intros roots B1 B2 B3. split; [split_and!; try done; apply grown_refl|]. eapply piece_ready_le; [| |done]; lia. }
  destruct (Z.eqb_spec (b_inner b) 0) as [E0|E0]; cbn [andb].
  - destruct (Z.eqb_spec (b_rank b) 0) as [R0|R0]; [|destruct (Z.eqb_spec (b_rank b) 1) as [R1|R1]].
    + rewrite R0. cbn [Z.eqb]. assert (unit_at b [w] = b_inner b) as <- by (unfold unit_at; rewrite R0; done).
      apply pwp_bind, pwp_verify; [done|]. intros Hver. apply pwp_ret.
      assert (Ei : insert_pieces b v [w] = [v; w]) by (unfold insert_pieces; rewrite E0, R0; done).
      apply Hdone; [left; cbn; lia|done|]. rewrite Ei. apply leaf_trees; [done|cbn; lia|]. by repeat constructor.
    + assert (unit_at b [w] = seq_units [w]) as <- by (unfold unit_at; rewrite R1, E0; exact (Z.add_0_r (seq_units [w]))).
      apply pwp_bind, pwp_verify; [done|]. intros Hver. apply pwp_ret.
      assert (Ei : insert_pieces b v [w] = [w; v]) by (unfold insert_pieces; rewrite E0, R1; done).
      apply Hdone; [left; cbn; lia|done|]. rewrite Ei. apply leaf_trees; [done|cbn; lia|]. by repeat constructor.
    + apply pwp_bind, pwp_verify.
      * intros HP. exfalso. destruct (HB HP) as [[_ ?]|(t & _ & _ & ? & _)]; cbn in *; lia.
      * intros _. cbn [negb orb]. apply pwp_fail. intros HP. destruct (HB HP) as [[_ ?]|(t & _ & _ & ? & _)]; cbn in *; lia.
  - destruct (Z.eqb_spec (b_rank b) 0) as [R0|R0]; cbn [negb orb].
    2: { apply pwp_bind, pwp_verify.
      - intros HP. exfalso. destruct (HB HP) as [[? _]|(t & _ & Hl & _)]; [lia|]. apply lookup_lt_Some in Hl. cbn in Hl. lia.
      - intros _. apply pwp_fail. intros HP. destruct (HB HP) as [[? _]|(t & _ & Hl & _)]; [lia|]. apply lookup_lt_Some in Hl. cbn in Hl. lia. }
    assert (Eu : unit_at b [w] = b_inner b) by (unfold unit_at; by rewrite R0). rewrite <- Eu at 1.
    apply pwp_bind, pwp_verify; [done|]. intros Hver. apply pwp_bind. destruct Ht as (r & [Hleaf _] & [= ->]).
    eapply pwp_mono; [by eapply (pwp_load_leaf l (2 + e))|]. intros r' c1 (-> & Hr1 & Hk1).
    assert (HBt : P -> exists t, lr_value r = LeafText t /\ 0 < b_inner b < zlen t /\ is_char_boundary t (b_inner b) = true).
    { intros HP. destruct (HB HP) as [[? _]|(t & _ & Hl & ? & ?)]; [lia|]. rewrite R0 in Hl. injection Hl as Hl. by exists t. }
    destruct (lr_value r) as [t|m] eqn:Ev; [|apply pwp_fail; intros HP; by destruct (HBt HP) as (? & ? & _)].
    match goal with |- context [if ?x then _ else _] => destruct x eqn:Et end.
    { apply pwp_fail. intros HP. destruct (HBt HP) as (t' & [= <-] & ? & Hcb). rewrite Hcb, orb_false_r, Z.leb_le in Et. lia. }
    apply orb_false_iff in Et as [Et1 Et2]. apply Z.leb_gt in Et1. apply negb_false_iff in Et2.
    assert (Hpt : piece_ok (LeafText t)) by (rewrite <- Ev; by destruct Hleaf as (_ & _ & _ & ? & _)).
    destruct (split_ok t (b_inner b) Hpt) as [Hp1 Hp2]; [lia|done|].
    apply pwp_bind. eapply pwp_mono; [by eapply (pwp_new_leaf l (S e))|]. intros lt c2 (T1 & _ & T3 & Hr2 & Hg2). specialize (T3 I).
    apply pwp_bind. eapply pwp_mono; [by eapply (pwp_new_leaf l e)|]. intros rt c3 (T1' & _ & T3' & Hr3 & Hg3). specialize (T3' I).
    apply pwp_ret. split; [|done].
    assert (Hg : grown c c3) by (eapply grown_trans; [by apply kept_grown|by eapply grown_trans]).
    split_and!; try done; [right; exists t; rewrite R0; split_and!; try done; lia|].
    unfold insert_pieces. rewrite (proj2 (Z.eqb_neq _ 0) E0), R0. cbn [Z.to_nat lookup list_lookup take drop app].
    apply leaf_trees; [done|cbn; lia|]. constructor; [|constructor; [|constructor; [|constructor]]]; (split; [done|]).
    * exact (grown_tree _ _ _ _ _ _ Hg3 T3).
    * exact (grown_tree _ _ _ _ _ _ Hg Hv).
    * done.
Qed.

Lemma node_children T root link n : piece_node_at draft T root link n ->
  ((if root then 1 else 2) <= length (nr_children n) <= DRAFT_PIECE_MAX_CHILDREN)%nat.
Proof. intros (_ & _ & [(_ & _ & Hl & _) _] & _ & Hm). lia. Qed.

Lemma regrown_links c h ps roots : regrown c h false ps roots -> exists pss, forest (seen c) h pss (sr_link <$> roots) /\ concat pss = ps /\ (1 <= length roots <= 3)%nat.
Proof. intros (pss & E & Hl & Hf). exists pss. split_and!; [|done|lia|case_decide; lia].
  apply Forall2_fmap_r. eapply Forall2_impl; [done|]. by intros qs t (_ & _ & ?). Qed.

Lemma pwp_insert_rec h : forall l e c root link ps b inserted v prefix, piece_ready (S h + l) (2 + 2 * h + e) c ->
  piece_tree draft (seen c) h root link ps -> piece_tree draft (seen c) 0 true (sr_link inserted) [v] -> sr_height inserted = 0 ->
  0 <= b_rank b -> 0 <= b_inner b ->
  (P -> boundary_in b ps) -> (P -> verified c (insert_kind v) (prefix + unit_at b ps) 0 (seq_units [v])) ->
  (P -> ordered (insert_pieces b v ps)) -> (P -> fits (insert_pieces b v ps)) -> (P -> Z.of_nat h <= DRAFT_PIECE_MAX_HEIGHT) ->
  pwp (insert_sequence_leaf_recursive node_store leaf_store h link root b inserted prefix) c (fun roots c' =>
    insert_done c c' h root ps b v prefix roots /\ piece_ready l e c').
Proof.
  induction h as [|h IH]; intros l e c root link ps b inserted v prefix Hr Ht Hv Hi Hb0 Hi0 HB HV HO HF HH.
  { pose proof Ht as (r & _ & ->). by apply pwp_insert_at_leaf. }
  cbn [insert_sequence_leaf_recursive]. destruct Ht as (n & pss & Hn & Hnh & Hf & ->).
  pose proof (forest_denotes _ _ _ _ Hf) as Hd. pose proof (node_children _ _ _ _ Hn) as Hlen. unfold DRAFT_PIECE_MAX_CHILDREN in Hlen.
  apply pwp_bind. eapply pwp_mono; [by eapply (pwp_load_node (S h + l) (2 + 2 * S h + e))|]. intros n' c1 (-> & Hr1 & Hk1).
  assert (Hfit : zlen (concat pss) <= U64_MAX).
  { destruct (child_for_node_sound pss n link Hd) as (_ & _ & (_ & _ & ?) & _); [by destruct Hn as (_ & _ & _ & ? & _)|done]. }
  pose proof (select_insertion_spec b pss (nr_children n) Hd 0 prefix 0 (conj (Z.le_refl 0) Hb0) Hfit) as Hsel.
  apply pwp_bind. unfold lift_piece at 1, pwp at 1. destruct (select_insertion b 0 prefix 0 (nr_children n)) as [[[[i child] co] un]|].
  2: { intros HP. destruct Hsel as [->|Hsel]; [apply Forall2_nil_inv_l in Hf; rewrite Hf in Hlen; cbn in Hlen; destruct root; lia|].
       apply Hsel. by apply boundary_in_range, HB. }
  destruct Hsel as (pre & qs & post & cpre & cpost & -> & Ecs & Hpre & Hpost & Hqs & -> & -> & -> & Hbs).
  assert (Es : shift b 0 = b) by (destruct b; unfold shift; cbn; f_equal; lia). rewrite Es in Hbs. cbn [Nat.add] in *. rewrite Z.add_0_l.
  rewrite concat_app in *. cbn [concat] in *. destruct (insert_mid b v (concat pre) qs (concat post) Hbs) as (Ei & Eu & Eb).
  rewrite Ei in *. rewrite Eu, Eb in *. rewrite Ecs in Hf, Hlen |- *. apply Forall2_app_inv in Hf as [Hfpre Hf]; [|by eapply Forall2_length].
  inversion Hf as [|? ? ? ? Hfq Hfpost]; subst. pose proof (kept_grown _ _ Hk1) as Hg1.
  apply pwp_bind. eapply pwp_mono; [eapply (IH l (2 + e)%nat c1 false child qs (shift b (zlen (concat pre))) inserted v)|].
  { eapply piece_ready_le; [| |done]; lia. }
  { by eapply grown_tree. } { exact (grown_tree _ _ _ _ _ _ Hg1 Hv). } { done. }
  { unfold boundary_selects in Hbs. cbn. lia. } { done. } { done. }
  { intros HP. eapply verified_mapping; [by destruct Hk1|]. rewrite <- Z.add_assoc. by apply HV. }
  { intros HP. apply HO in HP. rewrite !ordered_app in HP. tauto. }
  { intros HP. apply HF, fits_app_r, fits_app_l in HP. done. }
  { intros HP. specialize (HH HP). lia. }
  intros roots c2 ((Hbin & Hver & Hre & Hg2) & Hr2). apply regrown_links in Hre as (pss' & Hf' & Econ & Hlr).
  rewrite take_app_length. replace (drop (S (length cpre)) (cpre ++ child :: cpost)) with cpost
    by (by rewrite (drop_app_ge _ _ (S (length cpre))), Nat.sub_succ_l, Nat.sub_diag by lia).
  assert (Hg : grown c c2) by by eapply grown_trans.
  assert (Hall : forest (seen c2) h (pre ++ pss' ++ post) (cpre ++ (sr_link <$> roots) ++ cpost)).
  { apply Forall2_app; [by eapply grown_forest|]. apply Forall2_app; [done|]. by eapply grown_forest. }
  assert (Econ' : concat (pre ++ pss' ++ post) = concat pre ++ insert_pieces (shift b (zlen (concat pre))) v qs ++ concat post).
  { by rewrite !concat_app, Econ. }
  eapply pwp_mono; [eapply (pwp_pack l e c2 h root _ _ Hr2 Hall)|]; rewrite ?Econ'; try done.
  { rewrite length_app in *. cbn [length] in Hlen. rewrite length_app, length_fmap. destruct root; lia. }
  intros roots' c3 (Hp & Hr3 & Hg3). split; [|done]. split_and!.
  - rewrite ?concat_app. by apply Eb.
  - rewrite ?concat_app. cbn [concat]. rewrite Eu. rewrite Z.add_assoc. eapply verified_mapping; [|exact Hver]. by destruct Hk1.
  - rewrite ?concat_app. cbn [concat]. rewrite Ei. by apply packed_regrown.
  - by eapply grown_trans.
Qed.
Definition height_of (tree : option SequenceRef) : nat := from_option (fun t => Z.to_nat (sr_height t)) 0%nat tree.
(** Roots of the store are nodes: a tree that is one leaf exists only within a quantum. *)
Definition rooted (tree : option SequenceRef) : Prop := forall t, tree = Some t -> 1 <= sr_height t.

Lemma sized_pair (a b : DraftPieceChild) root : sized_children root [a; b].
Proof. unfold sized_children, DRAFT_PIECE_MAX_CHILDREN. destruct root; cbn; lia. Qed.

Lemma pwp_insert l e c tree ps b inserted v : piece_ready (S (height_of tree) + l) (3 + 2 * height_of tree + e) c ->
  sequence_tree draft (seen c) tree ps -> rooted tree ->
  piece_tree draft (seen c) 0 true (sr_link inserted) [v] -> sr_height inserted = 0 -> sr_root inserted = true ->
  0 <= b_rank b -> 0 <= b_inner b ->
  (P -> boundary_in b ps) -> (P -> verified c (insert_kind v) (unit_at b ps) 0 (seq_units [v])) ->
  (P -> ordered (insert_pieces b v ps)) -> (P -> fits (insert_pieces b v ps)) -> (P -> Z.of_nat (S (height_of tree)) <= DRAFT_PIECE_MAX_HEIGHT) ->
  pwp (insert_sequence_leaf node_store leaf_store tree b inserted) c (fun t c' =>
    boundary_in b ps /\ verified c (insert_kind v) (unit_at b ps) 0 (seq_units [v])
    /\ sequence_tree draft (seen c') (Some t) (insert_pieces b v ps) /\ (Z.to_nat (sr_height t) <= S (height_of tree))%nat
    /\ piece_ready l e c' /\ grown c c').
Proof.
  intros Hr Ht Hroot Hv Hi Hir Hb0 Hi0 HB HV HO HF HH. destruct tree as [t|]; cbn [sequence_tree height_of from_option insert_sequence_leaf] in *.
  2: { subst ps. assert (Hz : (b_rank b = 0 /\ b_inner b = 0) \/ ~ P).
    { destruct (decide (b_rank b = 0 /\ b_inner b = 0)); [by left|]. right. intros HP. apply HB in HP as [[? ?]|(t & _ & Hl & _)]; cbn in *; [lia|done]. }
    destruct (insertion_kind_of v inserted (dp_child _ _ (piece_tree_denotes _ _ _ _ _ _ Hv))) as [Ek Ee]. rewrite Ek, Ee.
    destruct (Z.eqb_spec (b_rank b) 0) as [R0|R0]; [destruct (Z.eqb_spec (b_inner b) 0) as [E0|E0]|]; cbn [negb orb].
    2,3: apply pwp_fail; destruct Hz; [lia|done].
    assert (unit_at b [] = 0) as Eu by (unfold unit_at; rewrite R0, E0; done). rewrite Eu in *.
    assert (insert_pieces b v [] = [v]) as Ei by (unfold insert_pieces; rewrite R0, E0; done). rewrite Ei in *.
    apply pwp_bind, pwp_verify; [done|]. intros Hver. apply pwp_ret. 
    split_and!; try done; [left; cbn; lia|by exists 0%nat|rewrite Hi; cbn; lia|].
    eapply piece_ready_le; [| |done]; lia. }
  destruct Ht as (Hsr & h & Eh & Ht). specialize (Hroot t eq_refl). rewrite Eh, Nat2Z.id in *. rewrite Hsr.
  destruct h as [|h]; [lia|]. apply pwp_bind.
  eapply pwp_mono; [apply (pwp_insert_rec (S h) l (S e) c true (sr_link t) ps b inserted v 0)|]; try done.
  { eapply piece_ready_le; [| |exact Hr]; lia. } { intros HP. specialize (HH HP). lia. }
  intros roots0 c1 ((Hbin & Hver & (pss0 & Econ & Hlen & Hf) & Hg1) & Hr1). case_decide; [lia|].
  destruct roots0 as [|t1 [|t2 [|t3 roots]]]; try (cbn in Hlen; lia); apply Forall2_cons_inv_r in Hf as (qs1 & pss1 & (T1 & T2 & T3) & Hf & ->).
  - apply Forall2_nil_inv_r in Hf as ->. cbn [concat length Nat.eqb andb] in *. rewrite app_nil_r in Econ. subst qs1.
    apply pwp_ret. split_and!; try done; [by apply T2|by exists (S h)|rewrite T1; lia|].
    eapply piece_ready_le; [| |done]; lia.
  - apply Forall2_cons_inv_r in Hf as (qs2 & pss2 & (T1' & _ & T3') & Hf & ->). apply Forall2_nil_inv_r in Hf as ->. cbn [concat length Nat.eqb andb] in *. rewrite T1, T1', Z.eqb_refl.
    replace (Z.of_nat (S h) + 1) with (Z.of_nat (S (S h))) by lia.
    eapply pwp_mono; [eapply (pwp_new_node l e c1 (S h) true _ [qs1; qs2]); try done; [by repeat constructor|apply sized_pair|..]|]; cbn [concat]; rewrite ?Econ; try done.
    intros t' c2 (N1 & N2 & N3 & Hr2 & Hg2). split_and!; try done; [by exists (S (S h))|rewrite N1; lia|by eapply grown_trans].
Qed.
End Edit.
