(* ===== verification/PieceRemove.v ===== *)
(** * The piece tree of a draft: taking pieces out

    [edit_leaf] of [PieceTree] replaces the piece at a rank by what is left of it, possibly by
    nothing.  A node never keeps a single child below the root: a child left with one child of
    its own takes a sibling's children in. *)
From stdpp Require Import prelude gmap strings.
From Stdlib Require Import Sorting.Sorted.
From S2P Require Import Prelude.
From S2P Require Import Bytes.
From S2P Require Import ModelDigest.
From S2P Require Import SyndicParts.
From S2P Require Import BuildBudget.
From S2P Require Import MappingModel.
From S2P Require Import MappingEdit.
From S2P Require Import MappingProgram.
From S2P Require Import PieceModel.
From S2P Require Import PieceCodec.
From S2P Require Import PieceTree.
From S2P Require Import PieceDenote.
From S2P Require Import PieceSequence.
From S2P Require Import PieceEdit.

(** ** The edit on the sequence *)

(** What is put in the place of the piece, and the splice the map must have ready. *)
Definition edit_rest (marker : option DraftMarkerIdentityOccurrence) (rank start : Z) (end_ : option Z) (ps : list piece) : list piece :=
  match marker, ps !! Z.to_nat rank with
  | None, Some (LeafText t) => retained t start (default (zlen t) end_)
  | _, _ => []
  end.
Definition edit_pieces marker rank start end_ (ps : list piece) : list piece := replace_piece rank (edit_rest marker rank start end_ ps) ps.
Definition edit_kind (marker : option DraftMarkerIdentityOccurrence) : DraftPieceMappingSpliceKind :=
  match marker with Some _ => MarkerDelete | None => TextDelete end.
Definition edit_at (marker : option DraftMarkerIdentityOccurrence) (rank start : Z) (ps : list piece) : Z :=
  seq_units (take (Z.to_nat rank) ps) + match marker with Some _ => 0 | None => start end.
Definition edit_removed (marker : option DraftMarkerIdentityOccurrence) (rank start : Z) (end_ : option Z) (ps : list piece) : Z :=
  match marker, ps !! Z.to_nat rank with
  | None, Some (LeafText t) => default (zlen t) end_ - start
  | _, _ => 1
  end.

Section Mid.
Context (marker : option DraftMarkerIdentityOccurrence) (rank start : Z) (end_ : option Z) (pre qs post : list piece)
        (Hrank : zlen pre <= rank < zlen pre + zlen qs).

Lemma edit_rest_mid : edit_rest marker rank start end_ (pre ++ qs ++ post) = edit_rest marker (rank - zlen pre) start end_ qs.
Proof. unfold edit_rest. by rewrite lookup_mid. Qed.
Lemma edit_pieces_mid : edit_pieces marker rank start end_ (pre ++ qs ++ post) = pre ++ edit_pieces marker (rank - zlen pre) start end_ qs ++ post.
Proof. unfold edit_pieces. by rewrite replace_mid, edit_rest_mid. Qed.
Lemma edit_at_mid : edit_at marker rank start (pre ++ qs ++ post) = seq_units pre + edit_at marker (rank - zlen pre) start qs.
Proof. unfold edit_at. destruct (take_mid pre qs post rank) as [-> _]; [lia|]. rewrite seq_units_app. lia. Qed.
Lemma edit_removed_mid : edit_removed marker rank start end_ (pre ++ qs ++ post) = edit_removed marker (rank - zlen pre) start end_ qs.
Proof. unfold edit_removed. by rewrite lookup_mid. Qed.
Lemma text_cut_mid t : text_cut rank start end_ (pre ++ qs ++ post) t <-> text_cut (rank - zlen pre) start end_ qs t.
Proof. split; intros [C1 C2 C3 C4 C5]; split; try done; try lia; rewrite ?lookup_mid in *; done. Qed.
End Mid.

Section Remove.
Context {H : Type} `{Sha256Laws H} {G : LeafNames} {R : Type}.
Context (node_store : DraftPieceRecordKey -> result (DraftPiecePrepareError R) (option DraftPieceNodeRecord))
        (leaf_store : DraftPieceRecordKey -> result (DraftPiecePrepareError R) (option DraftPieceLeafRecord))
        (draft session operation : list byte) (P : Prop)
        (Hstores : piece_stores_ok node_store leaf_store draft session operation).

Abbreviation sees := (seen node_store leaf_store draft).
Abbreviation ready := (piece_ready node_store leaf_store draft session operation P).
Abbreviation grew := (grown node_store leaf_store draft).
Abbreviation wp := (pwp (R := R) P).
Abbreviation forest T h pss cs := (Forall2 (fun qs x => piece_tree draft T h false x qs) pss cs).

(** The leaf records of a tree, in order. *)
Fixpoint leaves_of (T : tables) (h : nat) (link : DraftPieceChild) (rs : list DraftPieceLeafRecord) : Prop :=
  match h with
  | O => exists r, leaf_at draft T link r /\ rs = [r]
  | S h' => exists root n rss, piece_node_at draft T root link n /\ Forall2 (fun q x => leaves_of T h' x q) rss (nr_children n) /\ rs = concat rss
  end.

(** One record for an identity. *)
Definition functional (T : tables) : Prop :=
  (forall id n n', tb_node T id n -> tb_node T id n' -> n = n') /\ (forall id r r', tb_leaf T id r -> tb_leaf T id r' -> r = r').

Lemma sees_functional c : functional (sees c).
Proof. split; cbn; intros id x x' [E|[E E']] [F|[F F']]; congruence. Qed.

Lemma leaves_exist T h root link ps : piece_tree draft T h root link ps -> exists rs, leaves_of T h link rs.
Proof.
  revert root link ps. induction h as [|h IH]; intros root link ps; cbn [leaves_of piece_tree]; [naive_solver|].
  intros (n & pss & Hn & _ & Hf & _). assert (exists rss, Forall2 (fun q x => leaves_of T h x q) rss (nr_children n)) as [rss Hrss]; [|eauto 10].
  induction Hf as [|qs x pss cs Hx _ (rss & Hrss)]; [by exists []|]. apply IH in Hx as [q Hq]. exists (q :: rss). by constructor.
Qed.

Lemma leaves_values T h root link ps rs : functional T -> piece_tree draft T h root link ps -> leaves_of T h link rs -> ps = lr_value <$> rs.
Proof.
  intros HT. revert root link ps rs. induction h as [|h IH]; intros root link ps rs; cbn [leaves_of piece_tree].
  - intros (r & [(Hr & _) _] & ->) (r' & (Hr' & _) & ->). by rewrite (proj2 HT _ _ _ Hr Hr').
  - intros (n & pss & (Hn & _) & _ & Hf & ->) (root' & n' & rss & (Hn' & _) & Hf' & ->). rewrite (proj1 HT _ _ _ Hn' Hn) in Hf'. clear - IH Hf Hf'.
    revert rss Hf'. induction Hf as [|qs x pss cs Hx _ IHf]; intros rss Hf'; [apply Forall2_nil_inv_r in Hf' as ->; done|].
    apply Forall2_cons_inv_r in Hf' as (q & rss' & Hq & Hf' & ->). cbn [concat]. rewrite fmap_app. f_equal; [by eapply IH|by apply IHf].
Qed.

Lemma forest_leaves T h pss cs : forest T h pss cs -> exists rss, Forall2 (fun q x => leaves_of T h x q) rss cs.
Proof. induction 1 as [|qs x pss cs Hx _ (rss & Hrss)]; [by exists []|]. apply leaves_exist in Hx as [q Hq]. exists (q :: rss). by constructor. Qed.

Lemma forest_values T h pss cs rss : functional T -> forest T h pss cs -> Forall2 (fun q x => leaves_of T h x q) rss cs ->
  length (concat rss) = length (concat pss).
Proof.
  intros HT Hf. revert rss. induction Hf as [|qs x pss cs Hx _ IHf]; intros rss Hf'; [apply Forall2_nil_inv_r in Hf' as ->; done|].
  apply Forall2_cons_inv_r in Hf' as (q & rss' & Hq & Hf' & ->). cbn [concat]. rewrite !length_app, (IHf _ Hf').
  rewrite (leaves_values _ _ _ _ _ _ HT Hx Hq), length_fmap. done.
Qed.

Lemma leaves_mid T h root link n pre qs post cpre child cpost rank r : functional T -> piece_node_at draft T root link n ->
  nr_children n = cpre ++ child :: cpost -> forest T h pre cpre -> piece_tree draft T h false child qs -> forest T h post cpost ->
  zlen (concat pre) <= rank < zlen (concat pre) + zlen qs ->
  (exists rs, leaves_of T (S h) link rs /\ rs !! Z.to_nat rank = Some r)
  <-> (exists rs, leaves_of T h child rs /\ rs !! Z.to_nat (rank - zlen (concat pre)) = Some r).
Proof.
  intros HT Hn Ecs Hpre Hq Hpost Hr.
  assert (Hmid : forall a q b, Forall2 (fun q x => leaves_of T h x q) a cpre -> leaves_of T h child q ->
    (concat a ++ q ++ concat b) !! Z.to_nat rank = q !! Z.to_nat (rank - zlen (concat pre))).
  { intros a q b Ha Hq'. pose proof (forest_values _ _ _ _ _ HT Hpre Ha). pose proof (leaves_values _ _ _ _ _ _ HT Hq Hq') as E.
    assert (length qs = length q) by (by rewrite E, length_fmap). rewrite lookup_mid by lia. by do 2 f_equal; lia. }
  split.
  - intros (rs & (root' & n' & rss & (Hn' & _) & Hf & ->) & Hl). rewrite (proj1 HT _ _ _ Hn' (proj1 Hn)), Ecs in Hf.
    apply Forall2_app_inv_r in Hf as (a & q' & Ha & Hf & ->). apply Forall2_cons_inv_r in Hf as (q & b & Hq' & Hb & ->).
    exists q. split; [done|]. rewrite concat_app in Hl. cbn [concat] in Hl. by rewrite (Hmid a q b) in Hl.
  - intros (q & Hq' & Hl). apply forest_leaves in Hpost as [b Hb]. pose proof Hpre as Hpre'. apply forest_leaves in Hpre' as [a Ha].
    exists (concat a ++ q ++ concat b). split; [|by rewrite (Hmid a q b)]. exists root, n, (a ++ q :: b). split_and!; [done| |by rewrite concat_app].
    rewrite Ecs. apply Forall2_app; [done|]. by constructor.
Qed.

(** The edit is one of this sequence. *)
Definition edit_valid (T : tables) (h : nat) (link : DraftPieceChild) (marker : option DraftMarkerIdentityOccurrence)
    (rank start : Z) (end_ : option Z) (ps : list piece) : Prop :=
  match marker with
  | None => exists t, text_cut rank start end_ ps t
  | Some expected => exists r, (exists rs, leaves_of T h link rs /\ rs !! Z.to_nat rank = Some r) /\ occurrence_matches r expected = true
  end.

Lemma select_rank_spec pss cs : Forall2 denotes_pieces pss cs -> forall rank prefix idx, 0 <= rank ->
  match select_rank rank prefix idx cs with
  | Some (i, child, rest, un) => exists pre qs post cpre cpost, pss = pre ++ qs :: post /\ cs = cpre ++ child :: cpost
      /\ Forall2 denotes_pieces pre cpre /\ Forall2 denotes_pieces post cpost /\ denotes_pieces qs child
      /\ i = (idx + length cpre)%nat /\ rest = rank - zlen (concat pre) /\ un = prefix + seq_units (concat pre)
      /\ zlen (concat pre) <= rank < zlen (concat pre) + zlen qs
  | None => zlen (concat pss) <= rank
  end.
Proof.
  induction 1 as [|qs x pss cs Hx Hf IH]; intros rank prefix idx Hr; cbn [select_rank]; [done|].
  pose proof Hx as [[_ _ _ E4 _ _ _] _ _ _ _]. rewrite E4. destruct (Z.ltb_spec rank (zlen qs)).
  - exists [], qs, pss, [], cs. cbn. unfold seq_units. rewrite !sum_of_nil. split_and!; try done; lia.
  - specialize (IH (rank - zlen qs) (prefix + link_units x) (S idx)). rewrite (child_units _ _ (dp_child _ _ Hx)) in *.
    destruct (select_rank _ _ _ _) as [[[[i child] rest] un]|].
    + destruct IH as (pre & qs' & post & cpre & cpost & -> & -> & I1 & I2 & I3 & -> & -> & -> & I4); [lia|].
      exists (qs :: pre), qs', post, (x :: cpre), cpost. cbn [concat app length]. rewrite length_app, seq_units_app. split_and!; try done; try lia. by constructor.
    + cbn [concat]. rewrite length_app. lia.
Qed.

(** ** What an edit leaves of a subtree *)

Definition edited (c : PieceContext) (h : nat) (root : bool) (ps : list piece) (res : EditedSequence) : Prop :=
  match res with
  | EditedEmpty => ps = []
  | EditedTree t => sr_height t = Z.of_nat h /\ sr_root t = true /\ piece_tree draft (sees c) h false (sr_link t) ps
  | EditedUnderfull hh [child] => exists k, hh = Z.of_nat (S k) /\ (S k <= h)%nat /\ (root = false -> S k = h) /\ piece_tree draft (sees c) k false child ps
  | EditedUnderfull _ _ => False
  end.

Lemma pwp_rebuild l e c h root pss cs : ready l (S e) c -> forest (sees c) h pss cs -> (length cs <= DRAFT_PIECE_MAX_CHILDREN)%nat ->
  (P -> Z.of_nat (S h) <= DRAFT_PIECE_MAX_HEIGHT) -> (P -> ordered (concat pss)) -> (P -> fits (concat pss)) ->
  wp (rebuild (Z.of_nat (S h)) cs) c (fun res c' => edited c' (S h) root (concat pss) res /\ ready l e c' /\ grew c c').
Proof.
  intros Hr Hf Hl HH HO HF. destruct cs as [|x [|y cs]].
  - apply Forall2_nil_inv_r in Hf as ->. apply pwp_ret. split_and!; [done| |apply grown_refl]. eapply piece_ready_le; [| |exact Hr]; lia.
  - apply Forall2_cons_inv_r in Hf as (qs & pss' & Hx & Hf & ->). apply Forall2_nil_inv_r in Hf as ->.
    apply pwp_ret. split_and!; [|eapply piece_ready_le; [| |exact Hr]; lia|apply grown_refl].
    exists h. split_and!; try done. cbn [concat]. by rewrite app_nil_r.
  - cbn [rebuild]. apply pwp_bind. eapply pwp_mono; [eapply (pwp_new_node _ _ _ _ _ _ Hstores l e c h false (x :: y :: cs) pss); try done|].
    + unfold sized_children. cbn [length] in *. lia.
    + intros t c1 (T1 & T2 & T3 & Hr1 & Hg1). by apply pwp_ret.
Qed.

(** A sibling of an underfull child, and what becomes of the two. *)
Lemma pwp_merge_pair {A} l e c k (first : bool) sib sqs u uqs (cont : list SequenceRef -> piecem R A) Q : ready (S l) (2 + e) c ->
  piece_tree draft (sees c) (S k) false sib sqs -> piece_tree draft (sees c) k false u uqs ->
  (P -> Z.of_nat (S k) <= DRAFT_PIECE_MAX_HEIGHT) -> let all := if first then sqs ++ uqs else uqs ++ sqs in
  (P -> ordered all) -> (P -> fits all) ->
  (forall roots c' pss, forest (sees c') (S k) pss (sr_link <$> roots) -> concat pss = all -> (1 <= length roots <= 2)%nat ->
     ready l e c' -> grew c c' -> wp (cont roots) c' Q) ->
  wp (sibling ← load_sequence_node node_store sib (Z.of_nat (S k)) false;
      roots ← pack_children (if first then nr_children sibling ++ [u] else [u] ++ nr_children sibling) (new_sequence_node (Z.of_nat (S k)));
      cont roots) c Q.
Proof.
  intros Hr (n & pss & Hn & Hnh & Hf & ->) Hu HH all HO HF HQ. pose proof (node_children _ _ _ _ _ Hn) as Hlen. unfold DRAFT_PIECE_MAX_CHILDREN in Hlen.
  apply pwp_bind. eapply pwp_mono; [by eapply (pwp_load_node _ _ _ _ _ _ Hstores l (2 + e))|]. intros n' c1 (-> & Hr1 & Hk1).
  pose proof (kept_grown node_store leaf_store draft _ _ Hk1) as Hg1.
  assert (Hall : forest (sees c1) k (if first then pss ++ [uqs] else [uqs] ++ pss) (if first then nr_children n ++ [u] else [u] ++ nr_children n)).
  { pose proof (grown_forest _ _ _ _ _ _ _ _ Hg1 Hf). pose proof (grown_tree _ _ _ _ _ _ _ _ _ Hg1 Hu).
    destruct first; apply Forall2_app; try done; by repeat constructor. }
  assert (Econ : concat (if first then pss ++ [uqs] else [uqs] ++ pss) = all).
  { destruct first; rewrite concat_app; cbn [concat]; by rewrite app_nil_r. }
  apply pwp_bind. eapply pwp_mono; [eapply (pwp_pack _ _ _ _ _ _ Hstores l e c1 k false _ _ Hr1 Hall)|]; rewrite ?Econ; try done.
  { destruct first; rewrite length_app; cbn [length]; lia. }
  intros roots c2 (Hp & Hr2 & Hg2). apply packed_links in Hp as (pss' & Hf' & E' & Hl').
  eapply HQ; try done. by eapply grown_trans.
Qed.

Lemma pwp_merge l e c k pre post cpre child cpost u uqs : ready (S l) (2 + e) c ->
  forest (sees c) (S k) pre cpre -> forest (sees c) (S k) post cpost -> piece_tree draft (sees c) k false u uqs -> (2 <= length (cpre ++ child :: cpost))%nat ->
  (P -> Z.of_nat (S k) <= DRAFT_PIECE_MAX_HEIGHT) -> let all := concat pre ++ uqs ++ concat post in
  (P -> ordered all) -> (P -> fits all) ->
  wp (merge_underfull node_store (cpre ++ child :: cpost) (length cpre) (Z.of_nat (S k)) [u]) c (fun cs c' =>
    exists pss, forest (sees c') (S k) pss cs /\ concat pss = all /\ (length cs <= length (cpre ++ child :: cpost))%nat /\ ready l e c' /\ grew c c').
Proof.
  intros Hr Hpre Hpost Hu Hlen HH all HO HF. unfold merge_underfull.
  destruct cpre as [|x cpre _] using rev_ind.
  - apply Forall2_nil_inv_r in Hpre as ->. destruct cpost as [|sib cpost]; [cbn in Hlen; lia|].
    apply Forall2_cons_inv_r in Hpost as (sqs & post' & Hsib & Hpost & ->). cbn [length app Nat.eqb lookup list_lookup Nat.ltb Nat.leb concat] in *.
    assert (Hsub : all = (uqs ++ sqs) ++ concat post') by (unfold all; by rewrite app_assoc).
    apply (pwp_merge_pair l e c k false sib sqs u uqs); try done.
    { intros HP. apply HO in HP. rewrite Hsub, ordered_app in HP. tauto. } { intros HP. apply HF in HP. rewrite Hsub in HP. by apply fits_app_l in HP. }
    intros roots c1 pss Hf Econ Hl Hr1 Hg1. apply pwp_ret. unfold replace_range. cbn [Nat.min Nat.max take drop app].
    exists (pss ++ post'). split_and!; try done; [apply Forall2_app; [done|by eapply grown_forest]|by rewrite concat_app, Econ, Hsub|].
    rewrite length_app, length_fmap, length_drop. cbn [length]. lia.
  - apply Forall2_app_inv_r in Hpre as (pre' & sq & Hpre & Hx & ->). apply Forall2_cons_inv_r in Hx as (sqs & sq' & Hsib & Hx & ->).
    apply Forall2_nil_inv_r in Hx as ->. rewrite length_app in *. cbn [length] in *. rewrite (proj2 (Nat.eqb_neq _ 0)) by lia.
    replace (length cpre + 1 - 1)%nat with (length cpre) by lia. rewrite <- (app_assoc cpre). cbn [app]. rewrite list_lookup_middle by done.
    rewrite (proj2 (Nat.ltb_lt _ _)) by lia.
    assert (Hsub : all = concat pre' ++ (sqs ++ uqs) ++ concat post) by (unfold all; rewrite concat_app; cbn [concat]; by rewrite app_nil_r, <- !app_assoc).
    apply (pwp_merge_pair l e c k true x sqs u uqs); try done.
    { intros HP. apply HO in HP. rewrite Hsub, ordered_app, (ordered_app (sqs ++ uqs)) in HP. tauto. } { intros HP. apply HF in HP. rewrite Hsub in HP. by apply fits_app_r, fits_app_l in HP. }
    intros roots c1 pss Hf Econ Hl Hr1 Hg1. apply pwp_ret. unfold replace_range. rewrite Nat.min_r, Nat.max_l, take_app_length by lia.
    replace (drop (S (length cpre + 1)) (cpre ++ x :: child :: cpost)) with cpost.
    2: { rewrite drop_app_ge by lia. by replace (S (length cpre + 1) - length cpre)%nat with 2%nat by lia. }
    exists (pre' ++ pss ++ post). split_and!; try done.
    + apply Forall2_app; [by eapply grown_forest|]. apply Forall2_app; [done|by eapply grown_forest].
    + by rewrite !concat_app, Econ, Hsub.
    + rewrite !length_app, length_fmap in *. cbn [length] in *. lia.
Qed.
(** ** The edit *)

Section Cut.
Context (marker : option DraftMarkerIdentityOccurrence) (start : Z) (end_ : option Z) (Hstart : 0 <= start).

(** What an edit of the piece at [rank] does. *)
Definition edit_done (c c' : PieceContext) (h : nat) (root : bool) (link : DraftPieceChild) (rank prefix : Z) (ps : list piece)
    (res : EditedSequence) : Prop :=
  edit_valid (sees c) h link marker rank start end_ ps
  /\ verified (R := R) c (edit_kind marker) (prefix + edit_at marker rank start ps) (edit_removed marker rank start end_ ps) 0
  /\ edited c' h root (edit_pieces marker rank start end_ ps) res /\ grew c c'.

Lemma pwp_edit_at_leaf l e c root link w rank prefix : ready (S l) (S e) c -> piece_tree draft (sees c) 0 root link [w] -> rank = 0 ->
  (P -> edit_valid (sees c) 0 link marker rank start end_ [w]) ->
  (P -> verified (R := R) c (edit_kind marker) (prefix + edit_at marker rank start [w]) (edit_removed marker rank start end_ [w]) 0) ->
  wp (edit_at_leaf leaf_store link rank start end_ marker prefix) c (fun res c' => edit_done c c' 0 root link rank prefix [w] res /\ ready l e c').
Proof.
  intros Hr Ht -> HV Hver. unfold edit_at_leaf. cbn [Z.eqb negb]. pose proof Ht as (r & [Hleaf _] & [= ->]).
  apply pwp_bind. eapply pwp_mono; [by eapply (pwp_load_leaf _ _ _ _ _ _ Hstores l (S e))|]. intros r' c1 (-> & Hr1 & Hk1).
  pose proof (kept_grown node_store leaf_store draft _ _ Hk1) as Hg1.
  assert (Hver' : forall k a n i, verified (R := R) c1 k a n i <-> verified (R := R) c k a n i).
  { intros. split; apply verified_mapping; by destruct Hk1. }
  assert (Hlv : forall r', (exists rs, leaves_of (sees c) 0 link rs /\ rs !! Z.to_nat 0 = Some r') <-> r' = r).
  { intros r'. split; [|by intros ->; exists [r]; split; [exists r|]]. intros (rs & (r0 & (Hl0 & _) & ->) & [= <-]).
    exact (proj2 (sees_functional c) _ _ _ Hl0 (proj1 Hleaf)). }
  unfold edit_done, edit_valid, edit_pieces, edit_rest, edit_at, edit_removed in *. change (Z.to_nat 0) with 0%nat in *.
  destruct marker as [expected|]; cbn [edit_kind lookup list_lookup take] in *.
  - replace (prefix + (seq_units [] + 0)) with prefix in * by (change (seq_units []) with 0; lia).
    apply pwp_bind, pwp_verify; [intros HP; by apply Hver', Hver|]. intros Hv. apply Hver' in Hv.
    destruct (occurrence_matches r expected) eqn:Em.
    + apply pwp_ret. split_and!; try done; [|by eapply piece_ready_le; [| |exact Hr1]; lia]. exists r. by rewrite Hlv.
    + apply pwp_fail. intros HP. destruct (HV HP) as (r' & Hr' & Em'). apply Hlv in Hr' as ->. congruence.
  - replace (prefix + (seq_units [] + start)) with (prefix + start) in * by (change (seq_units []) with 0; lia).
    assert (HVt : P -> exists t, lr_value r = LeafText t /\ text_cut 0 start end_ [LeafText t] t).
    { intros HP. destruct (HV HP) as (t & Hc). pose proof (tc_piece _ _ _ _ _ Hc) as [= E]. exists t. by rewrite <- E at 2. }
    destruct (lr_value r) as [t|m] eqn:Ev; [|apply pwp_fail; intros HP; by destruct (HVt HP) as (? & ? & _)].
    set (stop := default (zlen t) end_) in *.
    match goal with |- context [if ?x then _ else _] => destruct x eqn:Et end.
    { apply pwp_fail. intros HP. destruct (HVt HP) as (t' & [= <-] & [C1 C2 C3 C4 C5]). fold stop in C3, C5. rewrite C4, C5, !orb_false_r in Et.
      rewrite orb_true_iff, Z.leb_le, Z.ltb_lt in Et. lia. }
    rewrite !orb_false_iff, !negb_false_iff, Z.leb_gt, Z.ltb_ge in Et. destruct Et as [[[E1 E2] E3] E4].
    assert (Hcut : text_cut 0 start end_ [LeafText t] t) by (split; try done; fold stop; lia).
    assert (Hpt : piece_ok (LeafText t)) by (rewrite <- Ev; by destruct Hleaf as (_ & _ & _ & ? & _)).
    pose proof (retained_ok t start stop Hpt ltac:(lia) E2 E3 E4) as Hret. unfold retained in *.
    destruct (andb _ _) eqn:Ew.
    + apply andb_true_iff in Ew as [Ew _]. apply Z.eqb_eq in Ew. apply pwp_bind, pwp_verify; [intros HP; rewrite <- (Z.add_0_r prefix), <- Ew at 1; by apply Hver', Hver|].
      intros Hv. apply Hver' in Hv. apply pwp_ret. split; [|by eapply piece_ready_le; [| |exact Hr1]; lia]. split_and!; try done; [by exists t|].
      by replace (prefix + start) with prefix by lia.
    + apply pwp_bind, pwp_verify; [intros HP; by apply Hver', Hver|]. intros Hv. apply Hver' in Hv.
      apply Forall_cons in Hret as [Hret _]. apply pwp_bind. eapply pwp_mono; [by eapply (pwp_new_leaf _ _ _ _ _ _ Hstores l e)|].
      intros t' c2 (T1 & T2 & T3 & Hr2 & Hg2). specialize (T3 I). apply pwp_ret. split; [|done]. split_and!; try done; [by exists t|by eapply grown_trans].
Qed.

Lemma edit_valid_rank T h root link rank ps : functional T -> piece_tree draft T h root link ps ->
  edit_valid T h link marker rank start end_ ps -> (Z.to_nat rank < length ps)%nat.
Proof.
  intros HT Ht. unfold edit_valid. destruct marker as [expected|].
  - intros (r & (rs & Hrs & Hl) & _). rewrite (leaves_values _ _ _ _ _ _ HT Ht Hrs), length_fmap. by eapply lookup_lt_Some.
  - intros (t & [_ Hl _ _ _]). by eapply lookup_lt_Some.
Qed.

Lemma edit_valid_mid T h root link n pre qs post cpre child cpost rank : functional T -> piece_node_at draft T root link n ->
  nr_children n = cpre ++ child :: cpost -> forest T h pre cpre -> piece_tree draft T h false child qs -> forest T h post cpost ->
  zlen (concat pre) <= rank < zlen (concat pre) + zlen qs ->
  edit_valid T (S h) link marker rank start end_ (concat pre ++ qs ++ concat post) <-> edit_valid T h child marker (rank - zlen (concat pre)) start end_ qs.
Proof.
  intros HT Hn Ecs Hpre Hq Hpost Hr. unfold edit_valid. destruct marker as [expected|].
  - split; intros (r & Hrs & Hm); exists r; (split; [|done]);
      [apply (leaves_mid T h root link n pre qs post cpre child cpost) in Hrs|eapply (leaves_mid T h root link n pre qs post cpre child cpost)]; done.
  - pose proof (text_cut_mid rank start end_ (concat pre) qs (concat post) Hr) as Hm. split; intros (t & Hc); exists t; by apply Hm.
Qed.

Lemma edit_fits T h root link rank ps : functional T -> piece_tree draft T h root link ps ->
  edit_valid T h link marker rank start end_ ps -> fits (edit_pieces marker rank start end_ ps).
Proof.
  intros HT Ht Hv. pose proof (edit_valid_rank _ _ _ _ _ _ HT Ht Hv) as Hl. pose proof (dp_fits _ _ (piece_tree_denotes _ _ _ _ _ _ Ht)) as Hf.
  unfold edit_pieces, edit_rest. destruct marker as [expected|].
  - apply replace_fits; [done|cbn; lia| |done]. intros v _. rewrite !sum_of_nil. destruct v as [t|m]; cbn; [|lia]. pose proof (count_newlines_bounds t). lia.
  - destruct Hv as (t & [_ Hp [Hs He] _ _]). rewrite Hp. apply replace_fits; [done| | |done]; unfold retained; set (stop := default _ _) in *.
    + case_match; cbn; lia.
    + intros v. rewrite Hp. intros [= <-]. case_match; rewrite ?sum_of_cons, ?sum_of_nil; cbn [piece_bytes piece_newlines].
      * pose proof (count_newlines_bounds t). lia.
      * pose proof (retained_newlines t start stop Hs He). rewrite length_app, length_take, length_drop. lia.
Qed.

Lemma pwp_edit h : forall l e c root link ps rank prefix, ready (S (2 * h) + l) (S (3 * h) + e) c ->
  piece_tree draft (sees c) h root link ps -> 0 <= rank ->
  (P -> edit_valid (sees c) h link marker rank start end_ ps) ->
  (P -> verified (R := R) c (edit_kind marker) (prefix + edit_at marker rank start ps) (edit_removed marker rank start end_ ps) 0) ->
  (P -> ordered (edit_pieces marker rank start end_ ps)) -> (P -> Z.of_nat h <= DRAFT_PIECE_MAX_HEIGHT) ->
  wp (edit_leaf node_store leaf_store h link root rank start end_ marker prefix) c (fun res c' =>
    edit_done c c' h root link rank prefix ps res /\ ready l e c').
Proof.
  induction h as [|h IH]; intros l e c root link ps rank prefix Hr Ht Hrk HV Hver HO HH; pose proof (sees_functional c) as HT.
  { cbn [edit_leaf]. pose proof Ht as (r & _ & ->). destruct (decide (rank = 0)) as [E|E]; [by apply pwp_edit_at_leaf|].
    unfold edit_at_leaf. rewrite (proj2 (Z.eqb_neq _ _) E). apply pwp_fail. intros HP.
    pose proof (edit_valid_rank _ _ _ _ _ _ HT Ht (HV HP)) as Hlt. cbn in Hlt. lia. }
  assert (HF : P -> fits (edit_pieces marker rank start end_ ps)) by (intros HP; exact (edit_fits _ _ _ _ _ _ HT Ht (HV HP))).
  cbn [edit_leaf]. pose proof Ht as (n & pss & Hn & Hnh & Hf & ->).
  pose proof (forest_denotes _ _ _ _ _ Hf) as Hd. pose proof (node_children _ _ _ _ _ Hn) as Hlen.
  apply pwp_bind. eapply pwp_mono; [by eapply (pwp_load_node _ _ _ _ _ _ Hstores (2 * S h + l) (S (3 * S h) + e))|]. intros n' c1 (-> & Hr1 & Hk1).
  pose proof (kept_tables node_store leaf_store draft _ _ Hk1) as Esee. pose proof (kept_grown node_store leaf_store draft _ _ Hk1) as Hg1.
  pose proof (select_rank_spec pss (nr_children n) Hd rank prefix 0 Hrk) as Hsel.
  apply pwp_bind. unfold lift_piece, pwp at 1. destruct (select_rank rank prefix 0 (nr_children n)) as [[[[i child] rest] un]|]; cbn [ok_or].
  2: { intros HP. pose proof (edit_valid_rank _ _ _ _ _ _ HT Ht (HV HP)). lia. }
  destruct Hsel as (pre & qs & post & cpre & cpost & -> & Ecs & Hdp & _ & _ & -> & -> & -> & Hbs). cbn [Nat.add].
  rewrite concat_app in *. cbn [concat] in *. rewrite Ecs in Hf, Hlen |- *. apply Forall2_app_inv in Hf as [Hpre Hf]; [|by eapply Forall2_length].
  apply Forall2_cons_1 in Hf as [Hq Hpost]. set (rk := rank - zlen (concat pre)) in *.
  pose proof (edit_valid_mid _ _ _ _ _ _ _ _ _ _ _ _ HT Hn Ecs Hpre Hq Hpost Hbs) as HVm. fold rk in HVm.
  rewrite (edit_at_mid marker rank start _ _ _ Hbs), (edit_removed_mid marker rank start end_ _ _ _ Hbs), Z.add_assoc in Hver.
  rewrite (edit_pieces_mid marker rank start end_ _ _ _ Hbs) in HO, HF. fold rk in Hver, HO, HF.
  apply pwp_bind. eapply pwp_mono; [eapply (IH (S l) (3 + e)%nat c1 false child qs rk); rewrite ?Esee|].
  { eapply piece_ready_le; [| |exact Hr1]; lia. } { done. } { lia. }
  { intros HP. by apply HVm, HV. } { intros HP. eapply verified_mapping; [by destruct Hk1|]. by apply Hver. }
  { intros HP. apply HO in HP. rewrite !ordered_app in HP. tauto. } { intros HP. specialize (HH HP). lia. }
  intros res c2 ((HV2 & Hver2 & Hed & Hg2) & Hr2). rewrite Esee in HV2.
  assert (Hg : grew c c2) by by eapply grown_trans.
  assert (Hfin : forall res c3, edited c3 (S h) root (concat pre ++ edit_pieces marker rk start end_ qs ++ concat post) res -> ready l e c3 -> grew c2 c3 ->
    edit_done c c3 (S h) root link rank prefix (concat pre ++ qs ++ concat post) res /\ ready l e c3).
  { intros res' c3 He Hr3 Hg3. split; [|done]. unfold edit_done. rewrite (edit_at_mid marker rank start _ _ _ Hbs), (edit_removed_mid marker rank start end_ _ _ _ Hbs), Z.add_assoc.
    rewrite (edit_pieces_mid marker rank start end_ _ _ _ Hbs). fold rk. split_and!; try done; [by apply HVm| |by eapply grown_trans].
    eapply verified_mapping; [|exact Hver2]. by destruct Hk1. }
  assert (Hpre2 := grown_forest _ _ _ _ _ _ _ _ Hg Hpre). assert (Hpost2 := grown_forest _ _ _ _ _ _ _ _ Hg Hpost).
  assert (Hreb : forall l' c3 pss cs, l' = l -> ready l' (S e) c3 -> grew c2 c3 -> forest (sees c3) h pss cs -> (length cs <= length (cpre ++ child :: cpost))%nat ->
    concat pss = concat pre ++ edit_pieces marker rk start end_ qs ++ concat post ->
    wp (rebuild (Z.of_nat (S h)) cs) c3 (fun res c' => edit_done c c' (S h) root link rank prefix (concat pre ++ qs ++ concat post) res /\ ready l e c')).
  { intros l' c3 pss cs -> Hr3 Hg3 Hf3 Hl3 E3. eapply pwp_mono; [eapply (pwp_rebuild l e c3 h root pss cs); try done; rewrite ?E3; try done; lia|].
    intros res' c4 (He & Hr4 & Hg4). rewrite E3 in He. apply Hfin; [done|done|by eapply grown_trans]. }
  destruct res as [|t|hh us]; cbn [edited] in Hed.
  - apply (Hreb l c2 (pre ++ post)); [done|by eapply piece_ready_le; [| |exact Hr2]; lia|apply grown_refl| | |].
    + rewrite delete_middle. by apply Forall2_app.
    + rewrite delete_middle, !length_app. cbn [length]. lia.
    + by rewrite concat_app, Hed.
  - destruct Hed as (T1 & T2 & T3). rewrite T1, Z.eqb_refl. cbn [negb].
    apply (Hreb l c2 (pre ++ edit_pieces marker rk start end_ qs :: post)); [done|by eapply piece_ready_le; [| |exact Hr2]; lia|apply grown_refl| | |].
    + rewrite insert_app_r_alt, Nat.sub_diag by lia. apply Forall2_app; [done|]. by constructor.
    + by rewrite length_insert.
    + by rewrite concat_app.
  - destruct us as [|u [|]]; [done| |done]. destruct Hed as (k & -> & Hk & Hkh & Hu). specialize (Hkh eq_refl). subst h.
    rewrite Z.eqb_refl. cbn [negb orb length Nat.eqb]. destruct (Nat.eqb_spec (length (cpre ++ child :: cpost)) 1) as [E1|E1].
    + assert (root = true) as -> by (destruct root; [done|]; cbn in Hlen; lia). cbn [negb]. apply pwp_ret.
      apply Hfin; [|by eapply piece_ready_le; [| |exact Hr2]; lia|apply grown_refl].
      rewrite length_app in E1. cbn [length] in E1. destruct cpre; [|cbn in E1; lia]. destruct cpost; [|cbn in E1; lia].
      apply Forall2_nil_inv_r in Hpre as ->. apply Forall2_nil_inv_r in Hpost as ->. cbn [concat app]. rewrite app_nil_r. exists k. split_and!; [done|lia|done|done].
    + apply pwp_bind. eapply pwp_mono; [eapply (pwp_merge l (S e) c2 k pre post cpre child cpost u); try done|].
      * rewrite length_app in *. cbn [length] in *. lia.
      * intros HP. specialize (HH HP). lia.
      * intros cs c3 (pss & Hf3 & E3 & Hl3 & Hr3 & Hg3). by apply (Hreb l c3 pss).
Qed.

Lemma pwp_finish c h ps res (Q : option SequenceRef -> PieceContext -> Prop) : edited c h true ps res ->
  (forall t, sequence_tree draft (sees c) t ps -> (height_of t <= h)%nat -> Q t c) -> wp (finish_edit res) c Q.
Proof.
  intros He HQ. destruct res as [|t|hh us]; cbn [finish_edit edited] in *.
  - apply pwp_ret. apply HQ; [done|cbn; lia].
  - destruct He as (E1 & E2 & Ht). apply pwp_ret, HQ; [split; [done|]; exists h; split; [done|by apply piece_tree_weaken]|cbn; rewrite E1; lia].
  - destruct us as [|u [|]]; [done| |done]. destruct He as (k & -> & Hk & _ & Hu). rewrite (proj2 (Z.eqb_neq _ 0)) by lia.
    apply pwp_ret, HQ; [split; [done|]; exists k; split; [cbn; lia|by apply piece_tree_weaken]|cbn; lia].
Qed.

(** An edit of a whole tree. *)
Lemma pwp_edit_root l e c t ps rank (Q : option SequenceRef -> PieceContext -> Prop) :
  ready (S (2 * height_of (Some t)) + l) (S (3 * height_of (Some t)) + e) c -> sequence_tree draft (sees c) (Some t) ps -> 0 <= rank ->
  (P -> edit_valid (sees c) (height_of (Some t)) (sr_link t) marker rank start end_ ps) ->
  (P -> verified (R := R) c (edit_kind marker) (edit_at marker rank start ps) (edit_removed marker rank start end_ ps) 0) ->
  (P -> ordered (edit_pieces marker rank start end_ ps)) -> (P -> sr_height t <= DRAFT_PIECE_MAX_HEIGHT) ->
  (forall t' c', edit_valid (sees c) (height_of (Some t)) (sr_link t) marker rank start end_ ps ->
     verified (R := R) c (edit_kind marker) (edit_at marker rank start ps) (edit_removed marker rank start end_ ps) 0 ->
     sequence_tree draft (sees c') t' (edit_pieces marker rank start end_ ps) -> (height_of t' <= height_of (Some t))%nat -> ready l e c' -> grew c c' -> Q t' c') ->
  wp (edit ← edit_leaf node_store leaf_store (Z.to_nat (sr_height t)) (sr_link t) (sr_root t) rank start end_ marker 0; finish_edit edit) c Q.
Proof.
  intros Hr (Hsr & h & Eh & Ht) Hrk HV Hver HO HH HQ. cbn [height_of from_option] in *. rewrite Eh, Nat2Z.id, Hsr in *.
  apply pwp_bind. eapply pwp_mono; [eapply (pwp_edit h l e c true (sr_link t) ps rank 0); done|].
  intros res c1 ((HV1 & Hver1 & He & Hg) & Hr1). by apply (pwp_finish c1 h _ res Q He); auto.
Qed.
End Cut.
End Remove.
