(* ===== verification/PieceSymbols.v ===== *)
(** * The piece sequence of a draft as text and markers

    How a text is cut into pieces is not observable: a sequence of pieces stands for its flat
    list of symbols, the bytes of the texts and the markers between them.  A position counts
    symbols.  Inserting at a boundary and removing a slice are splices of that list. *)
From stdpp Require Import prelude gmap strings.
From Stdlib Require Import Sorting.Sorted.
From S2P Require Import Prelude.
From S2P Require Import Bytes.
From S2P Require Import ModelDigest.
From S2P Require Import SyndicParts.
From S2P Require Import BuildBudget.
From S2P Require Import MappingModel.
From S2P Require Import MappingProgram.
From S2P Require Import PieceModel.
From S2P Require Import PieceCodec.
From S2P Require Import PieceTree.
From S2P Require Import PieceDenote.
From S2P Require Import PieceSequence.
From S2P Require Import PieceEdit.
From S2P Require Import PieceRemove.

Inductive symbol := SymByte (b : byte) | SymMarker (m : DraftPieceMarker).

Definition piece_symbols (v : piece) : list symbol :=
  match v with LeafText t => SymByte <$> t | LeafMarker m => [SymMarker m] end.
Definition symbols (ps : list piece) : list symbol := concat (piece_symbols <$> ps).

(** The list with [n] elements at [a] replaced. *)
Definition splice {A} (a n : Z) (new l : list A) : list A := take (Z.to_nat a) l ++ new ++ drop (Z.to_nat (a + n)) l.

Lemma symbols_cons v ps : symbols (v :: ps) = piece_symbols v ++ symbols ps.
Proof. done. Qed.
Lemma symbols_app ps qs : symbols (ps ++ qs) = symbols ps ++ symbols qs.
Proof. unfold symbols. by rewrite fmap_app, concat_app. Qed.
Lemma piece_symbols_length v : zlen (piece_symbols v) = piece_bytes v + piece_markers v.
Proof. destruct v; cbn; [|done]. rewrite length_fmap. lia. Qed.
Lemma symbols_length ps : zlen (symbols ps) = seq_units ps.
Proof.
  induction ps as [|v ps IH]; [done|]. rewrite symbols_cons, length_app, Nat2Z.inj_add, IH, piece_symbols_length.
  unfold seq_units. rewrite !sum_of_cons. lia.
Qed.
Lemma seq_units_cons v ps : seq_units (v :: ps) = zlen (piece_symbols v) + seq_units ps.
Proof. rewrite piece_symbols_length. unfold seq_units. rewrite !sum_of_cons. lia. Qed.
Lemma seq_units_nonneg ps : 0 <= seq_units ps.
Proof. rewrite <- symbols_length. lia. Qed.

(** Adjacent markers are in order. *)
Definition symbol_meets (a b : symbol) : Prop :=
  match a, b with SymMarker m, SymMarker n => pm_order m < pm_order n | _, _ => True end.

Lemma symbols_ordered ps : Sorted symbol_meets (symbols ps) -> ordered ps.
Proof.
  induction ps as [|v ps IH]; intros Hs; [constructor|]. rewrite symbols_cons in Hs. destruct v as [t|m]; cbn [piece_symbols app] in Hs.
  - assert (Hr : Sorted symbol_meets (symbols ps)).
    { clear IH. induction t as [|x t IHt]; [done|]. cbn in Hs. inversion Hs. auto. }
    constructor; [by apply IH|]. destruct ps; constructor. done.
  - inversion Hs as [|? ? Hr Hh]; subst. constructor; [by apply IH|]. destruct ps as [|[t|n] ps]; constructor; [done|].
    rewrite symbols_cons in Hh. cbn in Hh. by inversion Hh.
Qed.

(** A splice inside the middle part. *)
Lemma splice_mid {A} a n (new pre mid post : list A) : zlen pre <= a -> 0 <= n -> a + n <= zlen pre + zlen mid ->
  splice a n new (pre ++ mid ++ post) = pre ++ splice (a - zlen pre) n new mid ++ post.
Proof.
  intros H1 H2 H3. unfold splice. destruct (take_mid pre mid post a) as [-> _]; [lia|]. destruct (take_mid pre mid post (a + n)) as [_ ->]; [lia|].
  rewrite <- !app_assoc. by replace (a + n - zlen pre) with (a - zlen pre + n) by lia.
Qed.
Lemma splice_all {A} n (new mid : list A) : n = zlen mid -> splice 0 n new mid = new.
Proof. intros ->. unfold splice. rewrite Z.add_0_l, Nat2Z.id, drop_all, app_nil_r. done. Qed.
Lemma splice_nothing {A} a (l : list A) : splice a 0 [] l = l.
Proof. unfold splice. rewrite Z.add_0_r. cbn [app]. by rewrite take_drop. Qed.

Lemma unit_at_bounds b ps : boundary_in b ps -> 0 <= unit_at b ps <= seq_units ps.
Proof.
  unfold unit_at. intros [[-> Hr]|(t & Hr & Hl & Hi & _)].
  - rewrite <- (take_drop (Z.to_nat (b_rank b)) ps) at 3. rewrite seq_units_app.
    pose proof (seq_units_nonneg (take (Z.to_nat (b_rank b)) ps)). pose proof (seq_units_nonneg (drop (Z.to_nat (b_rank b)) ps)). lia.
  - rewrite <- (take_drop_middle ps _ _ Hl) at 3. rewrite seq_units_app, seq_units_cons. cbn. rewrite length_fmap.
    pose proof (seq_units_nonneg (take (Z.to_nat (b_rank b)) ps)). pose proof (seq_units_nonneg (drop (S (Z.to_nat (b_rank b))) ps)). lia.
Qed.

Lemma insert_symbols b v ps : boundary_in b ps -> symbols (insert_pieces b v ps) = splice (unit_at b ps) 0 (symbols [v]) (symbols ps).
Proof.
  unfold insert_pieces, unit_at. intros [[-> Hr]|(t & Hr & Hl & Hi & _)].
  - cbn [Z.eqb]. set (k := Z.to_nat (b_rank b)). rewrite <- (take_drop k ps) at 4. rewrite !symbols_app, (symbols_cons v).
    unfold splice. rewrite !Z.add_0_r, <- symbols_length, Nat2Z.id, take_app_length, drop_app_length. cbn. by rewrite app_nil_r.
  - rewrite (proj2 (Z.eqb_neq _ 0)), Hl by lia. set (k := Z.to_nat (b_rank b)) in *. set (i := Z.to_nat (b_inner b)).
    rewrite <- (take_drop_middle ps _ _ Hl) at 4. rewrite !symbols_app, !symbols_cons.
    rewrite splice_mid; rewrite ?symbols_length; cbn [piece_symbols]; rewrite ?length_fmap; try lia. f_equal. f_equal.
    replace (seq_units (take k ps) + b_inner b - seq_units (take k ps)) with (b_inner b) by lia. unfold splice. rewrite Z.add_0_r. fold i.
    rewrite <- fmap_take, <- fmap_drop. change (symbols []) with (@nil symbol). by rewrite !app_nil_r.
Qed.

(** A piece replaced by pieces. *)
Lemma replace_symbols rank vs ps v : ps !! Z.to_nat rank = Some v ->
  symbols (replace_piece rank vs ps) = symbols (take (Z.to_nat rank) ps) ++ symbols vs ++ symbols (drop (S (Z.to_nat rank)) ps).
Proof. intros _. unfold replace_piece. by rewrite !symbols_app. Qed.

Lemma cut_symbols rank start end_ ps t : text_cut rank start end_ ps t ->
  symbols (edit_pieces None rank start end_ ps) = splice (edit_at None rank start ps) (edit_removed None rank start end_ ps) [] (symbols ps).
Proof.
  intros [Hr Hp [Hs He] _ _]. unfold edit_pieces, edit_rest, edit_at, edit_removed. rewrite Hp. set (stop := default _ _) in *.
  rewrite (replace_symbols _ _ _ _ Hp). rewrite <- (take_drop_middle ps _ _ Hp) at 4. rewrite symbols_app, symbols_cons.
  rewrite splice_mid; rewrite ?symbols_length; cbn [piece_symbols]; rewrite ?length_fmap; try lia. do 2 f_equal.
  replace (seq_units (take (Z.to_nat rank) ps) + start - seq_units (take (Z.to_nat rank) ps)) with start by lia.
  unfold splice, retained. replace (start + (stop - start)) with stop by lia. rewrite <- fmap_take, <- fmap_drop.
  destruct (Z.eqb_spec start 0) as [->|]; cbn [andb].
  - destruct (Z.eqb_spec stop (zlen t)) as [->|]; cbn; [by rewrite Nat2Z.id, drop_all|]. by rewrite app_nil_r.
  - cbn. by rewrite app_nil_r, fmap_app.
Qed.

Lemma marker_symbols expected rank start end_ ps m : 0 <= rank -> ps !! Z.to_nat rank = Some (LeafMarker m) ->
  symbols (edit_pieces (Some expected) rank start end_ ps) = splice (edit_at (Some expected) rank start ps) 1 [] (symbols ps).
Proof.
  intros Hr Hp. unfold edit_pieces, edit_rest, edit_at. rewrite (replace_symbols _ _ _ _ Hp). rewrite <- (take_drop_middle ps _ _ Hp) at 4.
  rewrite symbols_app, symbols_cons, Z.add_0_r. rewrite splice_mid; rewrite ?symbols_length; cbn [piece_symbols length]; try lia.
  rewrite Z.sub_diag, splice_all by done. done.
Qed.

(** ** A slice from the end of a range *)

Lemma take_replace k rank vs ps : (k <= Z.to_nat rank)%nat -> (Z.to_nat rank <= length ps)%nat -> take k (replace_piece rank vs ps) = take k ps.
Proof. intros Hk Hl. unfold replace_piece. rewrite take_app_le by (rewrite length_take; lia). rewrite take_take. f_equal. lia. Qed.

Lemma boundary_keeps k i start stop t : is_char_boundary t stop = true -> (k = Z.to_nat i) -> 0 < i -> i = start -> start < stop < zlen t ->
  is_char_boundary (take k t ++ drop (Z.to_nat stop) t) i = true.
Proof.
  intros Hb -> Hi -> Hs. unfold is_char_boundary in *. rewrite lookup_app_r, length_take by (rewrite length_take; lia).
  replace (Z.to_nat start - (Z.to_nat start `min` length t))%nat with 0%nat by lia. rewrite lookup_drop, Nat.add_0_r.
  rewrite !orb_true_iff, !Z.eqb_eq in *. destruct Hb as [[?|?]|Hb]; [lia|lia|by right].
Qed.

(** Boundaries of a sequence are ordered as their positions are. *)
Lemma piece_units v : piece_ok v -> 0 < zlen (piece_symbols v).
Proof. intros [_ Hv]. rewrite piece_symbols_length. destruct v; cbn in *; lia. Qed.

Lemma take_le_units i j ps : (i <= j)%nat -> seq_units (take i ps) <= seq_units (take j ps).
Proof.
  intros Hij. rewrite <- (take_drop i (take j ps)), take_take, Nat.min_l by done. rewrite seq_units_app.
  pose proof (seq_units_nonneg (drop i (take j ps))). lia.
Qed.

Lemma unit_inner b ps : Forall piece_ok ps -> boundary_in b ps -> (Z.to_nat (b_rank b) < length ps)%nat ->
  unit_at b ps < seq_units (take (S (Z.to_nat (b_rank b))) ps).
Proof.
  intros Hp Hb Hl. destruct (lookup_lt_is_Some_2 ps _ Hl) as [v Hv]. rewrite (take_S_r _ _ _ Hv), seq_units_app, seq_units_cons.
  change (seq_units []) with 0. unfold unit_at. destruct Hb as [[-> _]|(t & _ & Ht & Hi & _)].
  - pose proof (piece_units v (Forall_lookup_1 _ _ _ _ Hp Hv)). lia.
  - rewrite Hv in Ht. injection Ht as ->. cbn. rewrite length_fmap. lia.
Qed.

Lemma unit_mono a b ps : Forall piece_ok ps -> boundary_in a ps -> boundary_in b ps -> boundary_ltb a b = true -> unit_at a ps < unit_at b ps.
Proof.
  intros Hp Ha Hb Hlt. unfold boundary_ltb in Hlt. rewrite orb_true_iff, andb_true_iff, Z.eqb_eq, !Z.ltb_lt in Hlt.
  assert (Hb0 : 0 <= b_inner b /\ 0 <= b_rank b <= zlen ps).
  { destruct Hb as [[-> ?]|(t & ? & Ht & ? & _)]; [lia|]. apply lookup_lt_Some in Ht. lia. }
  assert (Ha0 : 0 <= b_rank a) by (destruct Ha as [[_ ?]|(t & ? & _)]; lia).
  destruct Hlt as [Hlt|[E Hlt]].
  - pose proof (unit_inner a ps Hp Ha ltac:(lia)). pose proof (take_le_units (S (Z.to_nat (b_rank a))) (Z.to_nat (b_rank b)) ps ltac:(lia)).
    unfold unit_at at 2. lia.
  - unfold unit_at. rewrite E. lia.
Qed.

Lemma boundary_trichotomy a b : a = b \/ boundary_ltb a b = true \/ boundary_ltb b a = true.
Proof.
  destruct a as [r i], b as [r' i']. unfold boundary_ltb. cbn. rewrite !orb_true_iff, !andb_true_iff, !Z.eqb_eq, !Z.ltb_lt.
  destruct (Z.lt_trichotomy r r') as [?|[->|?]]; [lia| |lia]. destruct (Z.lt_trichotomy i i') as [?|[->|?]]; [lia|by left|lia].
Qed.

Lemma unit_inj a b ps : Forall piece_ok ps -> boundary_in a ps -> boundary_in b ps -> unit_at a ps = unit_at b ps <-> a = b.
Proof.
  intros Hp Ha Hb. split; [|by intros ->]. intros E. destruct (boundary_trichotomy a b) as [?|[Hlt|Hlt]]; [done| |]; apply (unit_mono _ _ ps) in Hlt; done || lia.
Qed.

Lemma edit_pieces_ok rank start end_ ps t : Forall piece_ok ps -> text_cut rank start end_ ps t -> Forall piece_ok (edit_pieces None rank start end_ ps).
Proof.
  intros Hp [Hr Hl [Hs He] B1 B2]. unfold edit_pieces, edit_rest, replace_piece. rewrite Hl. pose proof (Forall_lookup_1 _ _ _ _ Hp Hl) as Ht.
  apply Forall_app_2; [by apply Forall_take|]. apply Forall_app_2; [|by apply Forall_drop]. by apply retained_ok.
Qed.

(** The plan of one removal: the slice ends where the range ends; what is left of the range ends
    where the slice began, and starts where it did. *)
Section Slice.
Context {R : Type} (start end_ : Boundary) (ps : list piece) (t : list byte) (rank first : Z) (last : option Z) (ns ne : Boundary)
        (Hps : Forall piece_ok ps) (Hbs : boundary_in start ps) (Hbe : boundary_in end_ ps) (Hlt : boundary_ltb start end_ = true)
        (Hplan : slice_plan (R := R) start end_ = Ok (rank, first, last, ns, ne)) (Hcut : text_cut rank first last ps t).

Abbreviation ps' := (edit_pieces None rank first last ps).

Lemma slice_take k : (k <= Z.to_nat rank)%nat -> take k ps' = take k ps.
Proof. intros Hk. destruct Hcut as [_ Hl _ _ _]. apply lookup_lt_Some in Hl. apply take_replace; [done|lia]. Qed.
Lemma slice_rest : drop (Z.to_nat rank) ps' = retained t first (default (zlen t) last) ++ drop (S (Z.to_nat rank)) ps.
Proof.
  destruct Hcut as [_ Hl _ _ _]. unfold edit_pieces, edit_rest, replace_piece. rewrite Hl. apply lookup_lt_Some in Hl.
  rewrite drop_app_length'; [done|]. rewrite length_take. lia.
Qed.

(** The four shapes of a plan. *)
Lemma slice_shape : edit_at None rank first ps + edit_removed None rank first last ps = unit_at end_ ps.
Proof.
  destruct Hcut as [Hr Hl [Hs He] _ _]. unfold edit_at, edit_removed, unit_at. rewrite Hl. unfold slice_plan in Hplan.
  assert (He0 : 0 <= b_inner end_) by (destruct Hbe as [[-> _]|(? & _ & _ & ? & _)]; lia).
  assert (Hnext : forall r, 0 <= r -> r + 1 = b_rank end_ -> b_inner end_ = 0 -> rank = r -> last = None ->
    seq_units (take (Z.to_nat rank) ps) + first + (default (zlen t) last - first) = seq_units (take (Z.to_nat (b_rank end_)) ps) + b_inner end_).
  { intros r Hr0 <- -> -> ->. replace (Z.to_nat (r + 1)) with (S (Z.to_nat r)) by lia. rewrite (take_S_r _ _ _ Hl), seq_units_app, seq_units_cons.
    change (seq_units []) with 0. cbn. rewrite length_fmap. lia. }
  destruct (Z.ltb_spec 0 (b_inner end_)).
  - case_match; injection Hplan as <- <- <- <- <-; cbn; lia.
  - apply result_bind_Ok in Hplan as (r & Hsub & Hp). rewrite ok_or_Ok, checked_sub64_Some in Hsub. destruct Hsub as [-> Hsub].
    case_match; [done|]. case_match; injection Hp as <- <- <- <- <-; apply (Hnext (b_rank end_ - 1)); lia || done.
Qed.

(** A boundary before the piece, and the one at its start. *)
Lemma slice_before b : boundary_in b ps -> b_rank b < rank -> boundary_in b ps' /\ unit_at b ps' = unit_at b ps.
Proof.
  intros Hb Hr. assert (Hr0 : 0 <= b_rank b) by (destruct Hb as [[_ ?]|(? & ? & _)]; lia). split; [|unfold unit_at; rewrite slice_take; [done|lia]].
  assert (Hlen : (Z.to_nat rank <= length ps')%nat).
  { pose proof (slice_take (Z.to_nat rank) ltac:(lia)) as E. apply (f_equal length) in E. rewrite !length_take in E.
    destruct Hcut as [_ Hl _ _ _]. apply lookup_lt_Some in Hl. lia. }
  destruct Hb as [[E0 ?]|(x & _ & Hl & Hi)]; [left; lia|right]. exists x. split_and!; try done; try tauto.
  rewrite <- (lookup_take_lt ps' (Z.to_nat rank)), slice_take, lookup_take_lt by lia. done.
Qed.
Lemma slice_at : boundary_in (mkBound rank 0) ps' /\ unit_at (mkBound rank 0) ps' = seq_units (take (Z.to_nat rank) ps).
Proof.
  destruct Hcut as [Hr Hl _ _ _]. apply lookup_lt_Some in Hl. split; [|unfold unit_at; cbn; rewrite slice_take by lia; lia].
  left. cbn. split; [done|]. pose proof (slice_take (Z.to_nat rank) ltac:(lia)) as E. apply (f_equal length) in E. rewrite !length_take in E. lia.
Qed.

Lemma slice_bounds : boundary_in ns ps' /\ unit_at ns ps' = unit_at start ps /\ boundary_in ne ps' /\ unit_at ne ps' = edit_at None rank first ps.
Proof.
  unfold edit_at. pose proof slice_at as [A1 A2]. pose proof slice_take as HT. pose proof slice_rest as HR. pose proof slice_before as HB. set (q := ps') in *. pose proof Hcut as [Hr Hl [Hs He] B1 B2]. unfold slice_plan in Hplan.
  assert (Hi0 : 0 <= b_inner start) by (destruct Hbs as [[-> _]|(? & _ & _ & ? & _)]; lia).
  pose proof Hlt as Hlt'. unfold boundary_ltb in Hlt'. rewrite orb_true_iff, andb_true_iff, Z.eqb_eq, !Z.ltb_lt in Hlt'.
  destruct (Z.ltb_spec 0 (b_inner end_)) as [He0|He0].
  - destruct (Z.eqb_spec (b_rank end_) (b_rank start)) as [Er|Er]; injection Hplan as <- <- <- <- <-.
    + assert (Hin : boundary_in start q).
      { destruct (Z.eq_dec (b_inner start) 0) as [E0|E0]; [left; destruct A1 as [[_ ?]|(? & _ & _ & ? & _)]; cbn in *; lia|].
        destruct Hbe as [[? _]|(x & _ & Hx & Hi & Hbx)]; [lia|]. rewrite Hl in Hx. injection Hx as <-. cbn in *.
        right. exists (take (Z.to_nat (b_inner start)) t ++ drop (Z.to_nat (b_inner end_)) t). split_and!; [lia| | |..].
        - rewrite <- Er, <- (Nat.add_0_r (Z.to_nat (b_rank end_))), <- lookup_drop, HR. unfold retained. cbn [default].
          rewrite (proj2 (Z.eqb_neq _ 0) E0). done.
        - lia.
        - rewrite length_app, length_take, length_drop. lia.
        - eapply boundary_keeps; try done; lia. }
      assert (Eu : unit_at start q = unit_at start ps) by (unfold unit_at; rewrite HT by lia; done).
      split_and!; try done. rewrite Eu. unfold unit_at. by rewrite Er.
    + destruct (HB start) as [? ?]; [done|lia|]. split_and!; try done. rewrite A2. lia.
  - apply result_bind_Ok in Hplan as (r & Hsub & Hp). rewrite ok_or_Ok, checked_sub64_Some in Hsub. destruct Hsub as [-> Hsub].
    destruct (Z.ltb_spec (b_rank end_ - 1) (b_rank start)); [done|].
    destruct (Z.eqb_spec (b_rank end_ - 1) (b_rank start)) as [Er|Er]; [destruct (Z.ltb_spec 0 (b_inner start)) as [Hi|Hi]|]; cbn [andb] in Hp; injection Hp as <- <- <- <- <-.
    + assert (Hrest : drop (Z.to_nat (b_rank end_ - 1)) q = LeafText (take (Z.to_nat (b_inner start)) t ++ drop (Z.to_nat (zlen t)) t) :: drop (S (Z.to_nat (b_rank end_ - 1))) ps).
      { rewrite HR. unfold retained. cbn [default]. by rewrite (proj2 (Z.eqb_neq _ 0)) by lia. }
      assert (Hone : q !! Z.to_nat (b_rank end_ - 1) = Some (LeafText (take (Z.to_nat (b_inner start)) t ++ drop (Z.to_nat (zlen t)) t))).
      { by rewrite <- (Nat.add_0_r (Z.to_nat (b_rank end_ - 1))), <- lookup_drop, Hrest. }
      assert (Hin : boundary_in (mkBound (b_rank end_) 0) q) by (left; cbn; apply lookup_lt_Some in Hone; lia).
      assert (Eu : unit_at (mkBound (b_rank end_) 0) q = seq_units (take (Z.to_nat (b_rank end_ - 1)) ps) + b_inner start).
      { unfold unit_at. cbn [b_rank b_inner]. replace (Z.to_nat (b_rank end_)) with (S (Z.to_nat (b_rank end_ - 1))) by lia.
        rewrite (take_S_r _ _ _ Hone), seq_units_app, HT, seq_units_cons by lia. change (seq_units []) with 0. cbn [piece_symbols].
        rewrite length_fmap, length_app, length_take, length_drop. cbn in Hs, He. lia. }
      split_and!; try done. rewrite Eu. unfold unit_at. by rewrite Er.
    + assert (start = mkBound (b_rank end_ - 1) 0) as -> by (destruct start; cbn in *; f_equal; lia).
      split_and!; try done; rewrite A2; unfold unit_at; cbn; lia.
    + destruct (HB start) as [? ?]; [done|lia|]. split_and!; try done. rewrite A2. lia.
Qed.

Lemma slice_order : boundary_ltb ne ns = false.
Proof.
  pose proof Hlt as Hlt'. unfold boundary_ltb in *. rewrite orb_true_iff, andb_true_iff, Z.eqb_eq, !Z.ltb_lt in Hlt'.
  assert (Hi0 : 0 <= b_inner start) by (destruct Hbs as [[-> _]|(? & _ & _ & ? & _)]; lia).
  rewrite orb_false_iff, andb_false_iff, Z.eqb_neq, !Z.ltb_ge. unfold slice_plan in Hplan. destruct (Z.ltb_spec 0 (b_inner end_)).
  - destruct (Z.eqb_spec (b_rank end_) (b_rank start)); injection Hplan as <- <- <- <- <-; cbn; lia.
  - apply result_bind_Ok in Hplan as (r & Hsub & Hp). rewrite ok_or_Ok, checked_sub64_Some in Hsub. destruct Hsub as [-> Hsub].
    destruct (Z.ltb_spec (b_rank end_ - 1) (b_rank start)); [done|].
    destruct (Z.eqb_spec (b_rank end_ - 1) (b_rank start)) as [Er|Er]; [destruct (Z.ltb_spec 0 (b_inner start)) as [Hi|Hi]|]; cbn [andb] in Hp;
      injection Hp as <- <- <- <- <-; cbn; lia.
Qed.

(** One removal takes a nonempty slice off the end of the range; when nothing of it is left, and
    only then, the boundaries meet. *)
Lemma slice_plan_exact : let a := edit_at None rank first ps in
  unit_at start ps <= a < unit_at end_ ps
  /\ symbols ps' = splice a (unit_at end_ ps - a) [] (symbols ps)
  /\ boundary_in ns ps' /\ unit_at ns ps' = unit_at start ps /\ boundary_in ne ps' /\ unit_at ne ps' = a
  /\ (ns = ne <-> unit_at start ps = a).
Proof.
  intros a. pose proof slice_bounds as (N1 & U1 & N2 & U2). fold a in U2. pose proof slice_shape as Hsum. fold a in Hsum.
  pose proof Hcut as [_ Hl [Hs _] _ _]. pose proof (cut_symbols _ _ _ _ _ Hcut) as Hsym. fold a in Hsym.
  assert (Hpos : 0 < edit_removed None rank first last ps) by (unfold edit_removed; rewrite Hl; lia).
  split_and!; try done; [|lia| |].
  - rewrite <- U1, <- U2. pose proof (edit_pieces_ok _ _ _ _ _ Hps Hcut) as Hok. destruct (boundary_trichotomy ns ne) as [->|[E|E]]; [lia|apply (unit_mono _ _ ps') in E; done || lia|].
    by rewrite slice_order in E.
  - rewrite Hsym. f_equal. lia.
  - rewrite <- U1, <- U2. symmetry. apply unit_inj; [by eapply edit_pieces_ok|done|done].
Qed.
End Slice.

(** The piece a removal cuts, when the range is one of the sequence. *)
Definition last_rank (end_ : Boundary) : Z := if 0 <? b_inner end_ then b_rank end_ else b_rank end_ - 1.

Lemma slice_plan_total {R} start end_ ps t : Forall piece_ok ps -> boundary_in start ps -> boundary_in end_ ps -> boundary_ltb start end_ = true ->
  ps !! Z.to_nat (last_rank end_) = Some (LeafText t) ->
  exists first last ns ne, slice_plan (R := R) start end_ = Ok (last_rank end_, first, last, ns, ne) /\ text_cut (last_rank end_) first last ps t.
Proof.
  intros Hps Hs He Hlt. unfold last_rank, slice_plan. unfold boundary_ltb in Hlt. rewrite orb_true_iff, andb_true_iff, Z.eqb_eq, !Z.ltb_lt in Hlt.
  assert (Hs0 : 0 <= b_rank start <= zlen ps /\ 0 <= b_inner start).
  { destruct Hs as [[-> ?]|(x & ? & Hx & ? & _)]; [lia|]. apply lookup_lt_Some in Hx. lia. }
  assert (Hst : forall r x, r = b_rank start -> ps !! Z.to_nat r = Some (LeafText x) -> b_inner start < zlen x /\ is_char_boundary x (b_inner start) = true).
  { intros r x -> Hx. pose proof (Forall_lookup_1 _ _ _ _ Hps Hx) as [_ Hok]. destruct Hs as [[-> _]|(y & _ & Hy & ? & ?)]; [split; [lia|done]|].
    rewrite Hx in Hy. injection Hy as <-. split; [lia|done]. }
  destruct (Z.ltb_spec 0 (b_inner end_)) as [Hi|Hi]; intros Hx; pose proof (Forall_lookup_1 _ _ _ _ Hps Hx) as [_ Hok]; cbn in Hok.
  - destruct He as [[? _]|(y & Hr & Hy & Hyi & Hyb)]; [lia|]. rewrite Hx in Hy. injection Hy as <-.
    destruct (Z.eqb_spec (b_rank end_) (b_rank start)) as [E|E].
    + destruct (Hst _ _ E Hx) as [_ Hb]. do 4 eexists. split; [done|]. split; cbn; try done; lia.
    + do 4 eexists. split; [done|]. split; cbn; try done; lia.
  - assert (Hr : 0 <= b_rank end_ - 1) by lia. rewrite (proj2 (checked_sub64_Some _ _ (b_rank end_ - 1))) by lia. cbn [ok_or mbind result_bind].
    rewrite (proj2 (Z.ltb_ge (b_rank end_ - 1) (b_rank start))) by lia. unfold is_char_boundary.
    destruct (Z.eqb_spec (b_rank end_ - 1) (b_rank start)) as [E|E]; [destruct (Z.ltb_spec 0 (b_inner start)) as [Hi'|Hi']|]; cbn [andb].
    + destruct (Hst _ _ E Hx) as [? Hb]. do 4 eexists. split; [done|]. split; cbn; try done; [lia|]. unfold is_char_boundary. by rewrite Z.eqb_refl, orb_true_r.
    + do 4 eexists. split; [done|]. split; cbn; try done; [lia|]. unfold is_char_boundary. by rewrite Z.eqb_refl, orb_true_r.
    + do 4 eexists. split; [done|]. split; cbn; try done; [lia|]. unfold is_char_boundary. by rewrite Z.eqb_refl, orb_true_r.
Qed.
