(* ===== verification/PieceLocate.v ===== *)
(** * The piece tree of a draft: positions

    [locate] of [PieceTree] against the sequence of pieces: the leaf it finds, and the piece,
    byte and marker counts before the position. *)
From stdpp Require Import prelude gmap strings.
From S2P Require Import Prelude.
From S2P Require Import Bytes.
From S2P Require Import ModelDigest.
From S2P Require Import SyndicParts.
From S2P Require Import BuildBudget.
From S2P Require Import MappingModel.
From S2P Require Import MappingEdit.
From S2P Require Import MappingProgram.
From S2P Require Import PieceModel.
From S2P Require Import PieceCodec.
From S2P Require Import PieceTree.
From S2P Require Import PieceDenote.
From S2P Require Import PieceSequence.
From S2P Require Import PieceEdit.
From S2P Require Import PieceRemove.
From S2P Require Import PieceSymbols.

(** ** Positions in a sequence *)

(** The position is in [ps], which follows [pre]. *)
Definition hits (cut : Cut) (pre ps : list piece) : Prop :=
  match cut with
  | CutUnit u => seq_units pre <= u < seq_units pre + seq_units ps
  | CutBoundary b => zlen pre <= b_rank b < zlen pre + zlen ps
  end.
Definition cut_inner (cut : Cut) (pre : list piece) : Z :=
  match cut with CutUnit u => u - seq_units pre | CutBoundary b => b_inner b end.

(** Offsets a piece has. *)
Definition inner_ok (v : piece) (inner : Z) : Prop :=
  match v with LeafText t => 0 <= inner <= zlen t /\ is_char_boundary t inner = true | LeafMarker _ => inner = 0 end.

Definition fact_boundary (v : piece) (rank inner : Z) : Boundary :=
  match v with LeafText t => if inner =? zlen t then mkBound (rank + 1) 0 else mkBound rank inner | LeafMarker _ => mkBound rank inner end.

(** The fact for the piece of [r] behind the pieces [pre]. *)
Definition leaf_fact (cut : Cut) (pre : list piece) (r : DraftPieceLeafRecord) : UnitFact :=
  let inner := cut_inner cut pre in
  mkUnitFact (fact_boundary (lr_value r) (zlen pre) inner) (seq_units pre + inner) (seq_bytes pre + inner) (seq_markers pre) (Some r).

Definition cut_ok (cut : Cut) (pre ps : list piece) : Prop :=
  forall k v, ps !! k = Some v -> hits cut (pre ++ take k ps) [v] -> inner_ok v (cut_inner cut (pre ++ take k ps)).

Lemma cut_ok_mid cut pre a qs b : cut_ok cut pre (a ++ qs ++ b) -> cut_ok cut (pre ++ a) qs.
Proof.
  intros Hc k v Hk Hh. specialize (Hc (length a + k)%nat v). rewrite lookup_app_r, Nat.add_comm, Nat.add_sub, lookup_app_l in Hc by (try lia; by eapply lookup_lt_Some).
  rewrite <- app_assoc in Hh |- *. assert (take (k + length a) (a ++ qs ++ b) = a ++ take k qs) as E.
  { apply lookup_lt_Some in Hk. rewrite take_app, take_ge by lia. f_equal. rewrite Nat.add_sub. apply take_app_le. lia. }
  rewrite E in Hc. by apply Hc.
Qed.

Lemma fits_units pre ps : fits (pre ++ ps) -> seq_bytes pre + seq_bytes ps <= U64_MAX /\ seq_markers pre + seq_markers ps <= U64_MAX /\ zlen pre + zlen ps <= U64_MAX.
Proof. intros (F1 & _ & F3). rewrite sum_of_app in F1. rewrite length_app in F3. pose proof (seq_totals pre). pose proof (seq_totals ps). lia. Qed.

Definition reaches (cut : Cut) (pre : list piece) : Prop :=
  match cut with CutUnit u => seq_units pre <= u | CutBoundary b => zlen pre <= b_rank b end.

Lemma select_cut_spec {R} cut pss cs : Forall2 denotes_pieces pss cs -> forall pre, fits (pre ++ concat pss) -> reaches cut pre ->
  match select_cut (R := R) cut (zlen pre) (seq_bytes pre) (seq_markers pre) cs with
  | Ok (child, rank, logical, markers) => exists a qs b ca cb, pss = a ++ qs :: b /\ cs = ca ++ child :: cb /\ length a = length ca
      /\ rank = zlen (pre ++ concat a) /\ logical = seq_bytes (pre ++ concat a) /\ markers = seq_markers (pre ++ concat a)
      /\ hits cut (pre ++ concat a) qs
  | Err _ => ~ hits cut pre (concat pss)
  end.
Proof.
  induction 1 as [|qs x pss cs Hx Hf IH]; intros pre Hfit Hre; cbn [select_cut concat] in *.
  { intros Hh. destruct cut; cbn in *; [unfold seq_units in Hh; rewrite !sum_of_nil in Hh|]; lia. }
  rewrite app_assoc in Hfit. pose proof (fits_units _ _ (fits_app_l _ _ Hfit)) as (F1 & F2 & F3). pose proof Hx as [[E1 _ _ E4 E5 _ _] _ _ _ _].
  pose proof (seq_totals pre) as (? & ? & ?). pose proof (seq_totals qs) as (? & ? & ?).
  rewrite E1, E4, E5, !(checked_add64_within _ _ U64_MAX) by lia. cbn [ok_or mbind result_bind].
  match goal with |- context [if ?x then _ else _] => destruct x eqn:E end.
  - exists [], qs, pss, [], cs. cbn [concat app length]. rewrite app_nil_r. split_and!; try done.
    destruct cut; cbn in *; apply Z.ltb_lt in E; unfold seq_units in *; lia.
  - specialize (IH (pre ++ qs)). rewrite length_app, !sum_of_app, Nat2Z.inj_add in IH.
    assert (Hre' : reaches cut (pre ++ qs)) by (destruct cut; cbn in *; apply Z.ltb_ge in E; unfold seq_units in *; rewrite ?length_app, ?sum_of_app; lia).
    specialize (IH Hfit Hre'). destruct (select_cut _ _ _ _ _) as [[[[child rank] logical] markers]|].
    + destruct IH as (a & qs' & b & ca & cb & -> & -> & El & -> & -> & -> & Hh). exists (qs :: a), qs', b, (x :: ca), cb. cbn [concat app length].
      rewrite !app_assoc in *. split_and!; try done. lia.
    + intros Hh. apply IH. destruct cut; cbn in *; rewrite ?seq_units_app, ?length_app in *; [|lia].
      split; [lia|]. rewrite <- Z.add_assoc, <- seq_units_app. rewrite seq_units_app. lia.
Qed.

Lemma locate_in_leaf_spec {R} cut pre r : piece_ok (lr_value r) -> fits (pre ++ [lr_value r]) -> hits cut pre [lr_value r] -> (forall b, cut = CutBoundary b -> 0 <= b_inner b) ->
  match locate_in_leaf (R := R) cut r (zlen pre) (seq_bytes pre) (seq_markers pre) with
  | Ok f => inner_ok (lr_value r) (cut_inner cut pre) /\ f = leaf_fact cut pre r
  | Err _ => ~ inner_ok (lr_value r) (cut_inner cut pre)
  end.
Proof.
  intros [_ Hv] Hfit Hh Hb. pose proof (fits_units _ _ Hfit) as (F1 & F2 & F3). pose proof (seq_totals pre) as (? & ? & ?). rewrite !sum_of_cons, !sum_of_nil in *. cbn [length] in F3.
  unfold locate_in_leaf. assert (Hin : forall (A : Type) (k : Z -> result (DraftPiecePrepareError R) A),
    (inner ← match cut with CutUnit unit => n ← ok_or InvalidRoot (checked_sub64 unit (seq_bytes pre + seq_markers pre)); if n <=? U64_MAX then Ok n else Err InvalidRoot
             | CutBoundary b => if b_rank b =? zlen pre then Ok (b_inner b) else Err InvalidRoot end; k inner) = k (cut_inner cut pre)).
  { intros A k. destruct cut as [u|b]; cbn in Hh |- *.
    - unfold seq_units in *. rewrite !sum_of_cons, !sum_of_nil in Hh. rewrite (proj2 (checked_sub64_Some _ _ (u - (seq_bytes pre + seq_markers pre)))) by lia. cbn.
      rewrite (proj2 (Z.leb_le _ _)); [done|]. destruct (lr_value r); cbn in *; lia.
    - by rewrite (proj2 (Z.eqb_eq _ _)) by lia. }
  rewrite Hin. clear Hin. unfold leaf_fact. set (inner := cut_inner cut pre).
  assert (Hi0 : 0 <= inner) by (unfold inner; destruct cut; cbn in *; [lia|by eapply Hb]).
  replace (seq_bytes pre + seq_markers pre + inner) with (seq_units pre + inner) by (unfold seq_units; lia).
  destruct (lr_value r) as [t|m]; cbn [inner_ok fact_boundary piece_bytes piece_markers] in *.
  - match goal with |- context [if ?x then Err _ else _] => destruct x eqn:E end.
    { cbn. intros [? Hcb]. rewrite Hcb, orb_false_r, Z.ltb_lt in E. lia. }
    apply orb_false_iff in E as [E1 E2]. apply Z.ltb_ge in E1. apply negb_false_iff in E2.
    destruct (inner =? zlen t); [rewrite (checked_add64_within _ _ U64_MAX) by lia|]; cbn; rewrite (checked_add64_within _ _ U64_MAX) by lia; cbn; (split; [split; [lia|done]|done]).
  - destruct (Z.eqb_spec inner 0) as [E|E]; cbn; [|done]. rewrite (checked_add64_within _ _ U64_MAX) by lia. done.
Qed.

Section Locate.
Context {H : Type} `{Sha256Laws H} {R : Type}.
Context (node_store : DraftPieceRecordKey -> result (DraftPiecePrepareError R) (option DraftPieceNodeRecord))
        (leaf_store : DraftPieceRecordKey -> result (DraftPiecePrepareError R) (option DraftPieceLeafRecord))
        (draft session operation : list byte) (P : Prop)
        (Hstores : piece_stores_ok node_store leaf_store draft session operation).

Abbreviation sees := (seen node_store leaf_store draft).
Abbreviation ready := (piece_ready node_store leaf_store draft session operation P).
Abbreviation wp := (pwp (R := R) P).
Abbreviation forest T h pss cs := (Forall2 (fun qs x => piece_tree draft T h false x qs) pss cs).

(** The leaf of the tree that the position is in, and the fact of it. *)
Definition located (T : tables) (h : nat) (link : DraftPieceChild) (cut : Cut) (pre : list piece) (f : UnitFact) : Prop :=
  exists rs k r, leaves_of draft T h link rs /\ rs !! k = Some r
    /\ let before := pre ++ take k (lr_value <$> rs) in
       hits cut before [lr_value r] /\ inner_ok (lr_value r) (cut_inner cut before) /\ f = leaf_fact cut before r.

Lemma forest_all_values T h pss cs rss : functional T -> forest T h pss cs -> Forall2 (fun q x => leaves_of draft T h x q) rss cs ->
  lr_value <$> concat rss = concat pss.
Proof.
  intros HT Hf. revert rss. induction Hf as [|qs x pss cs Hx _ IHf]; intros rss Hf'; [apply Forall2_nil_inv_r in Hf' as ->; done|].
  apply Forall2_cons_inv_r in Hf' as (q & rss' & Hq & Hf' & ->). cbn [concat]. rewrite fmap_app, (IHf _ Hf').
  by rewrite (leaves_values _ _ _ _ _ _ _ HT Hx Hq).
Qed.

Lemma located_parent T h root link n a b ca child cb cut pre f : functional T -> piece_node_at draft T root link n ->
  nr_children n = ca ++ child :: cb -> forest T h a ca -> forest T h b cb ->
  located T h child cut (pre ++ concat a) f -> located T (S h) link cut pre f.
Proof.
  intros HT Hn Ecs Ha Hb (rs & k & r & Hrs & Hk & Hf). pose proof Ha as Ha'. apply forest_leaves in Ha' as [ra Hra]. apply forest_leaves in Hb as [rb Hrb].
  exists (concat (ra ++ rs :: rb)), (length (concat ra) + k)%nat, r. rewrite concat_app. cbn [concat]. split; [|split].
  - exists root, n, (ra ++ rs :: rb). split_and!; [done| |by rewrite concat_app]. rewrite Ecs. apply Forall2_app; [done|]. by constructor.
  - rewrite lookup_app_r, Nat.add_comm, Nat.add_sub, lookup_app_l; [done|by eapply lookup_lt_Some|lia].
  - cbv zeta in *. rewrite !fmap_app, (forest_all_values _ _ _ _ _ HT Ha Hra).
    pose proof (forest_values _ _ _ _ _ _ HT Ha Hra) as El. apply lookup_lt_Some in Hk.
    replace (take (length (concat ra) + k) (concat a ++ (lr_value <$> rs) ++ (lr_value <$> concat rb))) with (concat a ++ take k (lr_value <$> rs)).
    2: { rewrite take_app, (take_ge (concat a)) by lia. rewrite El, Nat.add_comm, Nat.add_sub, take_app_le by (rewrite length_fmap; lia). done. }
    rewrite !app_assoc in *. done.
Qed.

Lemma pwp_locate_from cut (Hb : forall b, cut = CutBoundary b -> 0 <= b_inner b) h : forall l e c root link ps pre, ready (S h + l) e c ->
  piece_tree draft (sees c) h root link ps -> fits (pre ++ ps) -> hits cut pre ps -> (P -> cut_ok cut pre ps) ->
  wp (locate_from node_store leaf_store h link root cut (zlen pre) (seq_bytes pre) (seq_markers pre)) c (fun f c' =>
    located (sees c) h link cut pre f /\ ready l e c' /\ kept c c').
Proof.
  induction h as [|h IH]; intros l e c root link ps pre Hr Ht Hfit Hh Hok; cbn [locate_from]; pose proof (sees_functional node_store leaf_store draft c) as HT.
  - destruct Ht as (r & [Hleaf _] & ->). apply pwp_bind. eapply pwp_mono; [by eapply (pwp_load_leaf _ _ _ _ _ _ Hstores l e)|]. intros r' c1 (-> & Hr1 & Hk1).
    pose proof (locate_in_leaf_spec (R := R) cut pre r ltac:(by destruct Hleaf as (_ & _ & _ & ? & _)) Hfit Hh Hb) as Hl.
    unfold pwp, lift_piece. destruct (locate_in_leaf _ _ _ _ _) as [f|].
    + split_and!; try done. destruct Hl as [Hi ->]. exists [r], 0%nat, r. cbn [take]. rewrite app_nil_r. split_and!; try done. by exists r.
    + intros HP. apply Hl. specialize (Hok HP 0%nat (lr_value r) eq_refl). cbn [take] in Hok. rewrite app_nil_r in Hok. by apply Hok.
  - destruct Ht as (n & pss & Hn & Hnh & Hf & ->). apply pwp_bind.
    eapply pwp_mono; [by eapply (pwp_load_node _ _ _ _ _ _ Hstores (S h + l) e)|]. intros n' c1 (-> & Hr1 & Hk1).
    pose proof (kept_tables node_store leaf_store draft _ _ Hk1) as Esee. pose proof (forest_denotes _ _ _ _ _ Hf) as Hd.
    assert (Hre : reaches cut pre) by (destruct cut; cbn in *; lia).
    pose proof (select_cut_spec (R := R) cut pss (nr_children n) Hd pre Hfit Hre) as Hsel.
    apply pwp_bind. unfold lift_piece, pwp at 1. destruct (select_cut _ _ _ _ _) as [[[[child rank] logical] markers]|]; [|done].
    destruct Hsel as (a & qs & b & ca & cb & -> & Ecs & El & -> & -> & -> & Hh'). rewrite concat_app in *. cbn [concat] in *.
    rewrite Ecs in Hf. apply Forall2_app_inv in Hf as [Hfa Hf]; [|done]. apply Forall2_cons_1 in Hf as [Hq Hfb].
    eapply pwp_mono; [eapply (IH l e c1 false child qs (pre ++ concat a)); rewrite ?Esee; try done|].
    + rewrite !app_assoc in Hfit. by apply fits_app_l in Hfit.
    + intros HP. eapply cut_ok_mid. by apply Hok.
    + intros f c2 (Hl & Hr2 & Hk2). rewrite Esee in Hl. split_and!; [by eapply located_parent|done|by eapply kept_trans].
Qed.

(** ** The whole tree *)

Definition eof_fact (ps : list piece) : UnitFact := mkUnitFact (mkBound (zlen ps) 0) (seq_units ps) (seq_bytes ps) (seq_markers ps) None.

(** What a position of the sequence is found to be. *)
Definition found (T : tables) (tree : option SequenceRef) (ps : list piece) (cut : Cut) (f : UnitFact) : Prop :=
  (match cut with CutUnit u => u = seq_units ps | CutBoundary b => b = mkBound (zlen ps) 0 end /\ f = eof_fact ps)
  \/ exists t, tree = Some t /\ located T (height_of tree) (sr_link t) cut [] f.

Lemma pwp_locate l e c tree ps cut : ready (S (height_of tree) + l) e c -> sequence_tree draft (sees c) tree ps ->
  match cut with CutUnit u => 0 <= u | CutBoundary b => 0 <= b_rank b /\ 0 <= b_inner b end ->
  (P -> match cut with CutUnit u => u <= seq_units ps | CutBoundary b => b_rank b <= zlen ps /\ (b_rank b = zlen ps -> b_inner b = 0) end /\ cut_ok cut [] ps) ->
  wp (locate node_store leaf_store tree cut) c (fun f c' => found (sees c) tree ps cut f /\ ready l e c' /\ kept c c').
Proof.
  intros Hr Ht Hc0 HP. unfold locate.
  assert (Hroot : from_option (fun t => c_pieces (sr_link t)) 0 tree = zlen ps /\ extent tree = seq_units ps
    /\ from_option (fun t => c_bytes (sr_link t)) 0 tree = seq_bytes ps /\ from_option (fun t => c_markers (sr_link t)) 0 tree = seq_markers ps /\ (fits ps)).
  { destruct tree as [t|]; cbn in Ht |- *; [|subst ps; unfold fits; rewrite !sum_of_nil; cbn; split_and!; done || lia]. destruct Ht as (_ & h & _ & Ht). apply piece_tree_denotes in Ht as [Hch _ _ Hf _].
    pose proof (child_units _ _ Hch). by destruct Hch. }
  destruct Hroot as (-> & -> & -> & -> & Hfit).
  assert (Hrest : forall b, cut = CutBoundary b -> 0 <= b_inner b) by (intros b ->; tauto).
  assert (Hin : hits cut [] ps -> wp (match tree with None => fail_piece InvalidRoot
      | Some tree => locate_from node_store leaf_store (Z.to_nat (sr_height tree)) (sr_link tree) (sr_root tree) cut 0 0 0 end) c
      (fun f c' => found (sees c) tree ps cut f /\ ready l e c' /\ kept c c')).
  { intros Hh. destruct tree as [t|]; [|cbn in Ht; subst ps; destruct cut; cbn in Hh; unfold seq_units in Hh; rewrite ?sum_of_nil in Hh; lia].
    destruct Ht as (Hsr & h & Eh & Ht). cbn [height_of from_option] in *. rewrite Eh, Nat2Z.id, Hsr in *.
    eapply pwp_mono; [apply (pwp_locate_from cut Hrest h l e c true (sr_link t) ps []); try done; by apply HP|].
    intros f c' (Hl & ? & ?). split_and!; try done. right. exists t. split; [done|]. cbn [height_of from_option]. by rewrite Eh, Nat2Z.id. }
  assert (Hdone : ready l e c) by (eapply piece_ready_le; [| |exact Hr]; lia).
  destruct cut as [u|b].
  - destruct (Z.ltb_spec (seq_units ps) u) as [Hu|Hu]; [apply pwp_bind, pwp_fail; intros HP'; apply HP in HP' as [? _]; lia|].
    apply pwp_bind, pwp_ret. destruct (Z.eqb_spec u (seq_units ps)) as [E|E].
    + apply pwp_ret. split_and!; [by left|done|apply kept_refl].
    + apply Hin. cbn. change (seq_units []) with 0. lia.
  - match goal with |- context [if ?x then _ else _] => destruct x eqn:E end.
    { apply pwp_bind, pwp_fail. intros HP'. apply HP in HP' as [[? Hz] _]. rewrite orb_true_iff, andb_true_iff, negb_true_iff, Z.ltb_lt, Z.eqb_eq, Z.eqb_neq in E. lia. }
    rewrite orb_false_iff, andb_false_iff, negb_false_iff, Z.ltb_ge, Z.eqb_eq, Z.eqb_neq in E.
    apply pwp_bind, pwp_ret. destruct (Z.eqb_spec (b_rank b) (zlen ps)) as [E'|E'].
    + apply pwp_ret. split_and!; [left; split; [|done]; destruct b; cbn in *; f_equal; lia|done|apply kept_refl].
    + apply Hin. cbn. lia.
Qed.
End Locate.
