(* ===== verification/PieceRoots.v ===== *)
(** * The piece tree of a draft: stored roots

    Between quanta a sequence is a root identity and a summary.  Loading them gives the tree
    back, and building them from a tree loses nothing: both stand for the same pieces. *)
From stdpp Require Import prelude gmap strings.
From S2P Require Import Prelude.
From S2P Require Import Bytes.
From S2P Require Import ModelDigest.
From S2P Require Import SyndicParts.
From S2P Require Import BuildBudget.
From S2P Require Import MappingModel.
From S2P Require Import MappingEdit.
From S2P Require Import MappingProgram.
From S2P Require Import PieceModel.
From S2P Require Import PieceCodec.
From S2P Require Import PieceTree.
From S2P Require Import PieceDenote.
From S2P Require Import PieceSequence.
From S2P Require Import PieceEdit.

Section Roots.
Context {H : Type} `{Sha256Laws H} {G : LeafNames} {R : Type}.
Context (node_store : DraftPieceRecordKey -> result (DraftPiecePrepareError R) (option DraftPieceNodeRecord))
        (leaf_store : DraftPieceRecordKey -> result (DraftPiecePrepareError R) (option DraftPieceLeafRecord))
        (draft session operation : list byte) (P : Prop)
        (Hstores : piece_stores_ok node_store leaf_store draft session operation).

Abbreviation sees := (seen node_store leaf_store draft).
Abbreviation ready := (piece_ready node_store leaf_store draft session operation P).
Abbreviation grew := (grown node_store leaf_store draft).
Abbreviation wp := (pwp (R := R) P).

Definition empty_summary : DraftPieceSummary := mkSummary 0 0 0 0 0 canonical_empty_marker_digest 0 canonical_empty_root_digest.

Definition summary_for (link : DraftPieceChild) (height : Z) : DraftPieceSummary :=
  root_summary link height (root_digest (root_summary link height (replicate 32 x00)) (c_digest link)).

(** A stored root and the pieces it stands for. *)
Definition stored_sequence (T : tables) (root : option (list byte)) (summary : DraftPieceSummary) (ps : list piece) : Prop :=
  match root with
  | None => ps = [] /\ summary = empty_summary
  | Some id => exists h link, c_id link = id /\ piece_tree draft T (S h) true link ps /\ summary = summary_for link (Z.of_nat (S h))
  end.

Lemma stored_sequence_mono T T' root summary ps : extends T T' -> stored_sequence T root summary ps -> stored_sequence T' root summary ps.
Proof. intros He. destruct root as [id|]; [|done]. intros (h & link & ? & ? & ?). exists h, link. split_and!; try done. by eapply piece_tree_mono. Qed.

(** The summary counts the sequence. *)
Lemma stored_sequence_counts T root summary ps : stored_sequence T root summary ps ->
  sm_bytes summary = seq_bytes ps /\ sm_newlines summary = seq_newlines ps /\ sm_lines summary = seq_lines ps
  /\ sm_pieces summary = zlen ps /\ sm_markers summary = seq_markers ps.
Proof.
  destruct root as [id|]; [intros (h & link & _ & Ht & ->)|by intros [-> ->]].
  apply piece_tree_denotes in Ht as [[] _ _ _ _]. by cbn.
Qed.

Lemma validate_root_Ok T link n h : piece_node_at draft T true link n -> nr_height n = Z.of_nat (S h) ->
  validate_sequence_root_node (R := R) n (summary_for link (Z.of_nat (S h))) = Ok n.
Proof.
  intros (_ & Hk & [(_ & _ & Hl & _) (Hh & Hd & _)] & Hc & Hm) E. unfold validate_sequence_root_node, summary_for. rewrite <- E.
  cbn [sm_height sm_bytes sm_newlines sm_lines sm_pieces sm_markers sm_marker_digest sm_root_digest root_summary]. rewrite <- Hd, Hc.
  unfold DRAFT_PIECE_MAX_CHILDREN in *. rewrite !Z.eqb_refl, (bool_decide_false (nr_children n = [])) by (intros En; rewrite En in Hm; cbn in Hm; lia).
  rewrite !bool_decide_true by done.
  rewrite (proj2 (Z.eqb_neq _ 0)), (proj2 (Nat.ltb_ge _ _)) by lia. done.
Qed.

Lemma pwp_load_root_node l e c link n h : ready (S l) e c -> piece_node_at draft (sees c) true link n -> nr_height n = Z.of_nat (S h) ->
  wp (load_sequence_root_node node_store (c_id link) (summary_for link (Z.of_nat (S h)))) c (fun n' c' => n' = n /\ ready l e c' /\ kept c c').
Proof.
  intros Hr Hn Eh. pose proof (node_id_fixed _ _ _ _ _ Hn) as Hid. pose proof (validate_root_Ok _ _ _ _ Hn Eh) as Hv.
  pose proof Hn as (Hs & Hk & _). unfold load_sequence_root_node, pwp. destruct Hs as [Hs|[Hp Hs]].
  { rewrite Hs. cbn. rewrite Hv. by apply (hit_load _ _ _ _ _ _ c l e n). }
  rewrite Hp. destruct (pb_loaded_nodes c !! c_id link) as [n'|] eqn:El.
  { destruct Hr as [Hc Ha]. pose proof (pc_nodes _ _ _ _ _ _ Hc _ _ El). assert (n' = n) as -> by congruence. cbn. rewrite Hv. by apply (hit_load _ _ _ _ _ _ c l e n). }
  pose proof Hr as [Hc Ha]. rewrite (pc_draft _ _ _ _ _ _ Hc). cbv zeta.
  match goal with |- match ?m c with _ => _ end => change (wp m c (fun n' c' => n' = n /\ ready l e c' /\ kept c c')) end.
  apply pwp_bind. eapply pwp_mono; [eapply (pwp_node_point _ _ _ _ _ _ Hstores (c_id link) c (l + e) (Some n)); try done; intros HP; by destruct (Ha HP)|].
  intros o c1 (-> & Hc1 & Hk1 & O1 & N1 & L1 & L1' & R1). cbn [ok_or]. apply pwp_bind. eapply pwp_lift; [done|]. apply pwp_bind.
  eapply pwp_mono; [eapply (count_read_pwp _ _ _ _ _ _ c1 (l + e) l); [done| |done]; intros HP; rewrite N1; destruct (Ha HP); lia|].
  intros _ c2 (Hc2 & Hk2 & O2 & L2 & L2' & N2 & R2). rewrite Hk, bool_decide_true by done. cbn [negb].
  apply pwp_bind. eapply pwp_lift; [exact Hv|]. apply pwp_bind. split_and!; [done| |].
  - split; [by apply remember_node_ok|]. intros HP. specialize (N2 HP). specialize (R2 HP). destruct (Ha HP) as [A1 A2 A3]. split; cbn; [congruence|done|done].
  - destruct Hk1, Hk2. split; cbn; congruence.
Qed.

Lemma pwp_load_sequence l e c root summary ps : ready (S l) e c -> stored_sequence (sees c) root summary ps ->
  wp (load_working_sequence node_store root summary) c (fun t c' =>
    sequence_tree draft (sees c) t ps /\ rooted t /\ (Z.of_nat (height_of t) = sm_height summary /\ c_id ∘ sr_link <$> t = root) /\ ready l e c' /\ kept c c').
Proof.
  intros Hr Hs. destruct root as [id|]; cbn [load_working_sequence].
  - destruct Hs as (h & link & <- & Ht & ->). pose proof Ht as (n & pss & Hn & Hnh & _). apply pwp_bind.
    eapply pwp_mono; [by eapply pwp_load_root_node|]. intros n' c1 (-> & Hr1 & Hk1). apply pwp_bind.
    eapply pwp_lift; [by destruct Hn as (_ & _ & _ & -> & _)|]. apply pwp_ret. cbn [sm_height summary_for root_summary].
    split; [split; [done|by exists (S h)]|]. split_and!; try done; [intros t [= <-]; cbn; lia|cbn; lia].
  - destruct Hs as [-> ->]. cbn. rewrite !bool_decide_true by done. cbn. split_and!; try done. eapply piece_ready_le; [| |exact Hr]; lia.
Qed.

(** ** Building a root *)

Lemma pwp_compress h : forall l e c link ps, ready (h + l) e c -> piece_tree draft (sees c) h true link ps ->
  wp (compress_from node_store h link true) c (fun t c' => (exists k link', (k <= h)%nat /\ t = Some (mkRef link' (Z.of_nat k) true)
    /\ piece_tree draft (sees c) k true link' ps) /\ ready l e c' /\ kept c c').
Proof.
  induction h as [|h IH]; intros l e c link ps Hr Ht; cbn [compress_from].
  { apply pwp_ret. split_and!; try done. by exists 0%nat, link. }
  assert (Hthis : ready l e c) by (eapply piece_ready_le; [| |exact Hr]; lia).
  destruct (Nat.leb_spec (S h) 1) as [Hle|Hgt]; [apply pwp_ret; split_and!; try done; by exists (S h), link|].
  pose proof Ht as (n & pss & Hn & Hnh & Hf & ->). apply pwp_bind.
  eapply pwp_mono; [by eapply (pwp_load_node _ _ _ _ _ _ Hstores (h + l) e)|]. intros n' c1 (-> & Hr1 & Hk1).
  pose proof (kept_tables node_store leaf_store draft _ _ Hk1) as Esee.
  assert (Hleave : wp (mret (Some (mkRef link (Z.of_nat (S h)) true))) c1 (fun t c' => (exists k link', (k <= S h)%nat /\ t = Some (mkRef link' (Z.of_nat k) true)
    /\ piece_tree draft (sees c) k true link' (concat pss)) /\ ready l e c' /\ kept c c')).
  { apply pwp_ret. split_and!; [by exists (S h), link|by eapply piece_ready_le; [| |exact Hr1]; lia|done]. }
  destruct (nr_children n) as [|child [|]]; [done| |done].
  apply Forall2_cons_inv_r in Hf as (qs & pss' & Hq & Hf & ->). apply Forall2_nil_inv_r in Hf as ->. cbn [concat] in *. rewrite app_nil_r in *.
  eapply pwp_mono; [apply (IH l e c1 child qs Hr1); rewrite Esee; by apply piece_tree_weaken|].
  intros t c2 ((k & link' & ? & -> & ?) & ? & ?). rewrite Esee in *. split_and!; [|done|by eapply kept_trans]. exists k, link'. split_and!; [lia|done|done].
Qed.

Lemma pwp_build_sequence l e c t ps : ready (height_of t + l) (S e) c -> sequence_tree draft (sees c) t ps ->
  wp (build_sequence_root node_store t) c (fun '(root, summary) c' =>
    stored_sequence (sees c') root summary ps /\ sm_height summary <= Z.max 1 (Z.of_nat (height_of t)) /\ ready l e c' /\ grew c c').
Proof.
  intros Hr Ht. unfold build_sequence_root. destruct t as [t|]; cbn [compress_sequence_root].
  2: { cbn in Ht. subst ps. apply pwp_bind, pwp_ret, pwp_bind, pwp_ret, pwp_ret. split_and!; try done; try (cbn; lia). eapply piece_ready_le; [| |exact Hr]; lia. }
  destruct Ht as (Hsr & h & Eh & Ht). cbn [height_of from_option] in *. rewrite Eh, Nat2Z.id, Hsr in *.
  apply pwp_bind. eapply pwp_mono; [by eapply (pwp_compress h l (S e))|]. intros o c1 ((k & link & Hk & -> & Htk) & Hr1 & Hk1).
  rewrite <- (kept_tables node_store leaf_store draft _ _ Hk1) in Htk. cbn [sr_height]. apply kept_grown with (node_store := node_store) (leaf_store := leaf_store) (draft := draft) in Hk1 as Hg1.
  destruct k as [|k].
  - cbn [Z.of_nat Z.eqb sr_link]. apply pwp_bind, pwp_bind. pose proof (piece_tree_denotes _ _ _ _ _ _ Htk) as [_ Ho _ Hf _].
    eapply pwp_mono; [eapply (pwp_new_node _ _ _ _ _ _ Hstores l e c1 0 true [link] [ps]); try done; cbn [concat]; rewrite ?app_nil_r; try done|].
    + by repeat constructor.
    + unfold sized_children, DRAFT_PIECE_MAX_CHILDREN. cbn. lia.
    + intros t' c2 (T1 & T2 & T3 & Hr2 & Hg2). apply pwp_ret, pwp_ret. cbn [concat] in T3. rewrite app_nil_r in T3. rewrite T1.
      split_and!; [|cbn; lia|done|by eapply grown_trans]. exists 0%nat, (sr_link t'). by split_and!.
  - rewrite (proj2 (Z.eqb_neq _ 0)) by lia. apply pwp_bind, pwp_ret, pwp_ret. cbn [sr_link sr_height].
    split_and!; [|cbn; lia|by eapply piece_ready_le; [| |exact Hr1]; lia|done]. exists k, link. by split_and!.
Qed.
End Roots.

Lemma stored_sequence_rename {H} `{Sha256Laws H} {G G' : LeafNames} draft T root summary ps :
  (forall m id, LeafMarker m ∈ ps -> G m id -> G' m id) ->
  stored_sequence (G := G) draft T root summary ps -> stored_sequence (G := G') draft T root summary ps.
Proof.
  intros Hg. destruct root as [id|]; [|done]. intros (h & link & E & Ht & Es). exists h, link. split; [done|]. split; [exact (piece_tree_rename _ _ _ _ _ _ Hg Ht)|done].
Qed.
