(* ===== verification/PieceAlign.v ===== *)
(** * The coordinate map of a build and the two sequences it relates

    A build edits a copy of a draft's sequence and keeps a map from positions of the original,
    the base, to positions of the copy.  The map is aligned with the two when a copied unit is
    the same symbol in both.  Splicing map and copy alike keeps them aligned, and a position
    looked up in an aligned map is the position of the same place. *)
From stdpp Require Import prelude.
From S2P Require Import Prelude.
From S2P Require Import BuildBudget.
From S2P Require Import MappingProofs.
From S2P Require Import PieceSequence.
From S2P Require Import PieceSymbols.

Inductive aligned {A} : list unit_kind -> list A -> list A -> Prop :=
  | aligned_nil : aligned [] [] []
  | aligned_copy x us base work : aligned us base work -> aligned (UCopy :: us) (x :: base) (x :: work)
  | aligned_deleted x us base work : aligned us base work -> aligned (UDeleted :: us) (x :: base) work
  | aligned_inserted y us base work : aligned us base work -> aligned (UInserted :: us) base (y :: work).

Section Align.
Context {A : Type}.
#[local] Hint Constructors aligned : core.
Implicit Types (base work new : list A) (us : list unit_kind).

Lemma aligned_counts us base work : aligned us base work -> sources us = zlen base /\ targets us = zlen work.
Proof. induction 1; cbn in *; lia. Qed.

Lemma aligned_identity base : aligned (replicate (length base) UCopy) base base.
Proof. induction base; cbn; by constructor. Qed.

Lemma aligned_app us us' base base' work work' : aligned us base work -> aligned us' base' work' -> aligned (us ++ us') (base ++ base') (work ++ work').
Proof. induction 1; intros; cbn; try constructor; auto. Qed.

Lemma aligned_new new us base work : aligned us base work -> aligned (replicate (length new) UInserted ++ us) base (new ++ work).
Proof. intros. induction new; cbn; [done|by constructor]. Qed.

Lemma aligned_insert us base work a new : aligned us base work -> a <= zlen work ->
  aligned (ref_insert a (length new) us) base (splice a 0 new work).
Proof.
  unfold splice. rewrite Z.add_0_r. intros Hal. revert a. induction Hal as [|x us base work Hal IH|x us base work Hal IH|y us base work Hal IH]; intros a Ha; cbn [ref_insert];
    (destruct (Z.leb_spec a 0); [replace (Z.to_nat a) with 0%nat by lia; rewrite take_0, drop_0; cbn [app]; apply aligned_new; auto|]); cbn [length in_target b2u] in *.
  - lia.
  - replace (Z.to_nat a) with (S (Z.to_nat (a - 1))) by lia. cbn. constructor. apply IH. lia.
  - replace (a - 0) with a by lia. constructor. by apply IH.
  - replace (Z.to_nat a) with (S (Z.to_nat (a - 1))) by lia. cbn. constructor. apply IH. lia.
Qed.

(** Removing one by one, from the position [pos] of the first unit. *)
Definition without (lo hi pos : Z) (l : list A) : list A := take (Z.to_nat (lo - pos)) l ++ drop (Z.to_nat (hi - pos)) l.

Lemma without_cons lo hi pos x l : lo <= hi ->
  without lo hi pos (x :: l) = (if (lo <=? pos) && (pos <? hi) then [] else [x]) ++ without lo hi (pos + 1) l.
Proof.
  intros Hle. unfold without. destruct (Z.leb_spec lo pos), (Z.ltb_spec pos hi); cbn [andb app].
  - replace (Z.to_nat (lo - pos)) with 0%nat by lia. replace (Z.to_nat (lo - (pos + 1))) with 0%nat by lia.
    by replace (Z.to_nat (hi - pos)) with (S (Z.to_nat (hi - (pos + 1)))) by lia.
  - by replace (Z.to_nat (lo - pos)) with 0%nat by lia; replace (Z.to_nat (lo - (pos + 1))) with 0%nat by lia;
      replace (Z.to_nat (hi - pos)) with 0%nat by lia; replace (Z.to_nat (hi - (pos + 1))) with 0%nat by lia.
  - by replace (Z.to_nat (lo - pos)) with (S (Z.to_nat (lo - (pos + 1)))) by lia; replace (Z.to_nat (hi - pos)) with (S (Z.to_nat (hi - (pos + 1)))) by lia.
  - lia.
Qed.

Lemma aligned_without lo hi pos us base work : lo <= hi -> aligned us base work -> aligned (ref_delete lo hi pos us) base (without lo hi pos work).
Proof.
  intros Hle Hal. revert pos. induction Hal as [|x us base work Hal IH|x us base work Hal IH|y us base work Hal IH]; intros pos; cbn [ref_delete].
  - unfold without. rewrite take_nil, drop_nil. constructor.
  - rewrite without_cons by done. destruct (_ && _); cbn; by constructor.
  - by constructor.
  - rewrite without_cons by done. destruct (_ && _); cbn; [done|by constructor].
Qed.

Lemma aligned_delete us base work a n : aligned us base work -> 0 <= n -> aligned (ref_delete a (a + n) 0 us) base (splice a n [] work).
Proof. intros Hal Hn. apply (aligned_without a (a + n) 0) in Hal; [|lia]. unfold without in Hal. by rewrite !Z.sub_0_r in Hal. Qed.

(** A position of the base found in the map cuts both sequences at the same place. *)
Lemma aligned_cut us base work copy x pos t : aligned us base work -> 0 <= x -> ref_cut copy x pos us = Some t ->
  pos <= t <= pos + zlen work /\ x <= zlen base
  /\ exists us1 us2, us = us1 ++ us2 /\ aligned us1 (take (Z.to_nat x) base) (take (Z.to_nat (t - pos)) work)
       /\ aligned us2 (drop (Z.to_nat x) base) (drop (Z.to_nat (t - pos)) work)
       /\ (copy = true -> exists s, base !! Z.to_nat x = Some s /\ work !! Z.to_nat (t - pos) = Some s).
Proof.
  intros Hal. revert x pos. induction Hal as [|a us base work Hal IH|a us base work Hal IH|y us base work Hal IH]; intros x pos Hx; cbn [ref_cut].
  - destruct (Z.eqb_spec x 0) as [->|]; [|done]. destruct copy; [done|]. intros [= <-]. rewrite Z.sub_diag. cbn. split_and!; try lia. exists [], []. split_and!; auto. done.
  - destruct (Z.eqb_spec x 0) as [->|Hne].
    + intros [= <-]. rewrite Z.sub_diag. cbn [length]. split_and!; try lia. exists [], (UCopy :: us). change (Z.to_nat 0) with 0%nat. rewrite !take_0, !drop_0. split_and!; auto. intros _. by exists a.
    + intros Hc. destruct (IH (x - 1) (pos + 1) ltac:(lia) Hc) as (Ht & Hb & us1 & us2 & -> & H1 & H2 & H3). cbn [length].
      replace (Z.to_nat x) with (S (Z.to_nat (x - 1))) by lia. replace (Z.to_nat (t - pos)) with (S (Z.to_nat (t - (pos + 1)))) by lia.
      split_and!; try lia. exists (UCopy :: us1), us2. cbn. split_and!; auto.
  - destruct (Z.eqb_spec x 0) as [->|Hne].
    + destruct copy; [done|]. intros [= <-]. rewrite Z.sub_diag. cbn [length]. split_and!; try lia. exists [], (UDeleted :: us). change (Z.to_nat 0) with 0%nat. rewrite !take_0, !drop_0. split_and!; auto. done.
    + intros Hc. destruct (IH (x - 1) pos ltac:(lia) Hc) as (Ht & Hb & us1 & us2 & -> & H1 & H2 & H3). cbn [length].
      replace (Z.to_nat x) with (S (Z.to_nat (x - 1))) by lia. split_and!; try lia. exists (UDeleted :: us1), us2. cbn. split_and!; auto.
  - intros Hc. destruct (IH x (pos + 1) Hx Hc) as (Ht & Hb & us1 & us2 & -> & H1 & H2 & H3). cbn [length].
    replace (Z.to_nat (t - pos)) with (S (Z.to_nat (t - (pos + 1)))) by lia. split_and!; try lia. exists (UInserted :: us1), us2. cbn. split_and!; auto.
Qed.
End Align.
