(* ===== verification/TextSplice.v ===== *)
(** * Text edits of a build

    [syndic-storage/src/draft_piece/persistent/mapping_program/text_splice.rs] and the proof
    stages of [mapping_program/text.rs]: what is removed or inserted next, the splice the
    coordinate map is to make for it, and the quantum that makes the edit once the map is ready.
    The roots of the marker index and of the marker order pass through a text edit unchanged and
    are left out. *)
From stdpp Require Import prelude gmap strings.
From S2P Require Import Prelude.
From S2P Require Import Bytes.
From S2P Require Import ModelDigest.
From S2P Require Import SyndicParts.
From S2P Require Import BuildBudget.
From S2P Require Import MappingModel.
From S2P Require Import MappingProgram.
From S2P Require Import PieceModel.
From S2P Require Import PieceTree.

Inductive DraftPiece := PieceText (text : list byte) | PieceMarker (marker : DraftPieceMarker).

(** The frontiers of an edit build. *)
Inductive DraftPieceBuildFrontier :=
  | Receiving (next_ordinal : Z) (chain : list byte)
  | Planning (fragment_ordinal : Z)
  | Removing (fragment_ordinal next_rank end_rank removed_markers : Z) (base_end successor_start successor_end : DraftPieceBuildBoundary)
  | Applying (fragment_ordinal : Z) (base_end successor_start successor_end : DraftPieceBuildBoundary)
  | Inserting (fragment_ordinal next_piece next_byte : Z) (base_end successor_end : DraftPieceBuildBoundary)
  | CrossValidating
  | Complete.

Section TextSplice.
Context {H : Type} `{Sha256 H} {R : Type}.
Context (node_store : DraftPieceRecordKey -> result (DraftPiecePrepareError R) (option DraftPieceNodeRecord))
        (leaf_store : DraftPieceRecordKey -> result (DraftPiecePrepareError R) (option DraftPieceLeafRecord)).
Abbreviation piece_result := (result (DraftPiecePrepareError R)).

(** [while !text.is_char_boundary(end) { end -= 1 }]; zero is a boundary. *)
Fixpoint floor_boundary (text : list byte) (n : nat) : nat :=
  match n with
  | O => O
  | S n' => if is_char_boundary text (Z.of_nat n) then n else floor_boundary text n'
  end.

Definition insertion_chunk (inserted : list DraftPiece) (piece start : Z) : piece_result (Z * list byte) :=
  match inserted !! Z.to_nat piece with
  | Some (PieceText text) =>
      if (zlen text <=? start) || negb (is_char_boundary text start) then Err InvalidRoot
      else
        let limit := Z.min (saturating_add64 start DRAFT_PIECE_TEXT_LEAF_MAX_BYTES) (zlen text) in
        let end_ := Z.of_nat (floor_boundary text (Z.to_nat limit)) in
        Ok (end_, text_range text start end_)
  | _ => Err InvalidRoot
  end.

Definition deletion_proof (sequence : option SequenceRef) (start end_ : Boundary) : piecem R DraftPieceMappingSplice :=
  if negb (boundary_ltb start end_) then fail_piece InvalidRoot
  else
    rank ← lift_piece (if 0 <? b_inner end_ then Ok (b_rank end_) else ok_or InvalidRoot (checked_sub64 (b_rank end_) 1));
    let local_start := if rank =? b_rank start then b_inner start else 0 in
    fact ← sequence_at_boundary node_store leaf_store sequence (mkBound rank 0);
    leaf ← lift_piece (ok_or InvalidRoot (uf_leaf fact));
    match lr_value leaf with
    | LeafMarker _ => fail_piece InvalidRoot
    | LeafText text =>
        let local_end := if 0 <? b_inner end_ then b_inner end_ else zlen text in
        if (local_end <=? local_start) || (zlen text <? local_end)
           || negb (is_char_boundary text local_start) || negb (is_char_boundary text local_end)
        then fail_piece InvalidRoot
        else mret (mkSplice TextDelete (uf_unit fact + local_start) (local_end - local_start) 0
                     (Some (rk_id (lr_key leaf), lr_digest leaf)) rank local_start local_end)
    end.

(** The [TextInsertProof] stage of [text::advance]. *)
Definition insertion_proof (sequence : option SequenceRef) (inserted : list DraftPiece) (next_piece next_byte : Z)
    (successor_end : DraftPieceBuildBoundary) : piecem R DraftPieceMappingSplice :=
  fact ← sequence_at_boundary node_store leaf_store sequence (checked_boundary successor_end);
  '(_, chunk) ← lift_piece (insertion_chunk inserted next_piece next_byte);
  mret (mkSplice TextInsert (uf_unit fact) 0 (zlen chunk) None (bd_rank successor_end) (bd_inner successor_end) 0).

(** A change of the build context, with the pieces left as they are. *)
Definition in_build (f : BuildContext -> piece_result BuildContext) : piecem R unit := fun c =>
  match f (pb c) with Ok b => Ok (tt, with_build c b) | Err e => Err e end.

Definition text_delete (sequence : option SequenceRef) (fragment_ordinal : Z)
    (base_end successor_start successor_end : DraftPieceBuildBoundary) : piecem R (option SequenceRef * DraftPieceBuildFrontier) :=
  tree ← lift_piece (ok_or InvalidRoot sequence);
  '(sequence, start, end_) ← remove_text_slice node_store leaf_store tree (checked_boundary successor_start) (checked_boundary successor_end);
  _ ← in_build (fun b => consume_ready b TextDelete);
  _ ← if bool_decide (start = end_) then mret tt else in_build (fun b => set_stage b Stage.TextDeleteProof);
  mret (sequence, Applying fragment_ordinal base_end (durable_boundary start) (durable_boundary end_)).

Definition text_insert (sequence : option SequenceRef) (inserted : list DraftPiece) (ready : DraftPieceMappingReadySplice)
    (fragment_ordinal next_piece next_byte : Z) (base_end successor_end : DraftPieceBuildBoundary)
    : piecem R (option SequenceRef * DraftPieceBuildFrontier) :=
  let boundary := checked_boundary successor_end in
  '(end_, chunk) ← lift_piece (insertion_chunk inserted next_piece next_byte);
  if negb (rs_removed ready =? 0) || negb (rs_inserted ready =? zlen chunk) then fail_piece InvalidRoot
  else
    leaf ← new_sequence_leaf (LeafText chunk);
    sequence ← insert_sequence_leaf node_store leaf_store sequence boundary leaf;
    rank ← lift_piece (ok_or InvalidRoot (r ← checked_add64 (b_rank boundary) (if b_inner boundary =? 0 then 0 else 1); checked_add64 r 1));
    match inserted !! Z.to_nat next_piece with
    | Some (PieceText text) =>
        '(next_piece, next_byte) ← (if end_ =? zlen text then n ← lift_piece (ok_or InvalidRoot (checked_add64 next_piece 1)); mret (n, 0)
                                    else mret (next_piece, end_));
        _ ← in_build (fun b => consume_ready b TextInsert);
        mret (Some sequence, Inserting fragment_ordinal next_piece next_byte base_end (mkBoundary rank 0))
    | _ => fail_piece InvalidRoot
    end.

Definition check_extent (sequence : option SequenceRef) : piecem R unit := fun c =>
  match program_mapping (R := R) (pb c) with
  | Ok m => if extent sequence =? m_target (root_measure (current_map m)) then Ok (tt, c) else Err InvalidRoot
  | Err e => Err e
  end.

(** The sequence roots of a build, and [apply_ready] on them. *)
Definition apply_ready (root : option (list byte)) (summary : DraftPieceSummary) (inserted : list DraftPiece)
    (frontier : DraftPieceBuildFrontier) (ready : DraftPieceMappingReadySplice)
    : piecem R (option (list byte) * DraftPieceSummary * DraftPieceBuildFrontier) :=
  sequence ← load_working_sequence node_store root summary;
  '(sequence, frontier) ←
    match rs_kind ready, frontier with
    | TextDelete, Applying fragment_ordinal base_end successor_start successor_end =>
        text_delete sequence fragment_ordinal base_end successor_start successor_end
    | TextInsert, Inserting fragment_ordinal next_piece next_byte base_end successor_end =>
        text_insert sequence inserted ready fragment_ordinal next_piece next_byte base_end successor_end
    | _, _ => fail_piece InvalidRoot
    end;
  '(root, summary) ← build_sequence_root node_store sequence;
  _ ← check_extent sequence;
  mret (root, summary, frontier).
End TextSplice.
