(* ===== verification/TextChunks.v ===== *)
(** * Text edits of a build: the chunks of an insertion

    A text is inserted in chunks of at most one leaf.  A chunk ends at a character boundary, is
    never empty, and the next one goes in behind it. *)
From stdpp Require Import prelude gmap strings.
From Stdlib Require Import Sorting.Sorted.
From S2P Require Import Prelude.
From S2P Require Import Bytes.
From S2P Require Import ModelDigest.
From S2P Require Import SyndicParts.
From S2P Require Import BuildBudget.
From S2P Require Import MappingModel.
From S2P Require Import MappingProgram.
From S2P Require Import PieceModel.
From S2P Require Import PieceCodec.
From S2P Require Import PieceTree.
From S2P Require Import PieceDenote.
From S2P Require Import PieceSequence.
From S2P Require Import PieceSymbols.
From S2P Require Import TextSplice.

(** ** Characters *)

Lemma utf8_run_reach k : forall lo hi l, utf8_run (Some (lo, hi, k)) l = true -> (S k <= length l)%nat /\ utf8_run None (drop (S k) l) = true.
Proof.
  induction k as [|k IH]; intros lo hi l Hl; (destruct l as [|b l]; [done|]); cbn [utf8_run] in Hl; destruct (in_range lo hi b); try done.
  - split; [cbn; lia|done].
  - apply IH in Hl as [? ?]. split; [cbn; lia|done].
Qed.

Lemma utf8_head b l : utf8_run None (b :: l) = true -> is_continuation b = false.
Proof.
  cbn. destruct (Z.ltb_spec (byte_val b) 128); [intros _|destruct (utf8_lead b) eqn:E; [intros _|done]]; apply not_true_is_false; unfold is_continuation, in_range.
  - intros ?. bool_facts. lia.
  - unfold utf8_lead in E. intros Hc. apply andb_true_iff in Hc as [H1 H2]. apply Z.leb_le in H1, H2.
    repeat case_match; try done; bool_facts; lia.
Qed.

Lemma lead_width b p : utf8_lead b = Some p -> (p.2 <= 2)%nat.
Proof. unfold utf8_lead. repeat case_match; intros [= <-]; cbn; lia. Qed.

(** The end of the first character of a string. *)
Lemma first_char l : l <> [] -> utf8_valid l = true -> exists k, (1 <= k <= 4)%nat /\ (k <= length l)%nat /\ utf8_run None (drop k l) = true.
Proof.
  destruct l as [|b l]; [done|]. intros _ Hv. unfold utf8_valid in Hv. cbn [utf8_run] in Hv. destruct (byte_val b <? 128).
  - exists 1%nat. split_and!; try lia; cbn; [lia|done].
  - destruct (utf8_lead b) as [[[lo hi] k]|] eqn:E; [|done]. apply lead_width in E. apply utf8_run_reach in Hv as [? ?]. cbn in E.
    exists (S (S k)). split_and!; try lia; cbn; [lia|done].
Qed.

Lemma next_boundary t i : utf8_valid t = true -> 0 <= i < zlen t -> is_char_boundary t i = true ->
  exists j, i < j <= i + 4 /\ j <= zlen t /\ is_char_boundary t j = true.
Proof.
  intros Hu Hi Hb. pose proof (utf8_split t i Hu ltac:(lia) Hb) as [_ Hd]. destruct (first_char (drop (Z.to_nat i) t)) as (k & Hk & Hl & Hr).
  { intros E. apply (f_equal length) in E. rewrite length_drop in E. cbn in E. lia. } { done. }
  rewrite length_drop in Hl. exists (i + Z.of_nat k). split_and!; [lia|lia|lia|]. unfold is_char_boundary.
  rewrite drop_drop in Hr. replace (Z.to_nat (i + Z.of_nat k)) with (Z.to_nat i + k)%nat by lia.
  destruct (drop (Z.to_nat i + k) t) as [|b l] eqn:E.
  - apply (f_equal length) in E. rewrite length_drop in E. cbn in E. rewrite (proj2 (Z.eqb_eq (i + Z.of_nat k) (zlen t))) by lia. by rewrite orb_true_r.
  - assert (t !! (Z.to_nat i + k)%nat = Some b) as ->. { rewrite <- (Nat.add_0_r (Z.to_nat i + k)), <- lookup_drop, E. done. }
    apply utf8_head in Hr. by rewrite Hr, orb_true_r.
Qed.

Lemma floor_boundary_spec t n : let m := floor_boundary t n in
  (m <= n)%nat /\ is_char_boundary t (Z.of_nat m) = true /\ forall j, 0 <= j <= Z.of_nat n -> is_char_boundary t j = true -> j <= Z.of_nat m.
Proof.
  induction n as [|n IH]; cbn [floor_boundary]; [split_and!; [lia|done|lia]|]. destruct (is_char_boundary t (Z.of_nat (S n))) eqn:E.
  - split_and!; [lia|done|lia].
  - destruct IH as (H1 & H2 & H3). split_and!; [lia|done|]. intros j Hj Hb. apply H3; [|done]. destruct (decide (j = Z.of_nat (S n))) as [->|]; [congruence|lia].
Qed.

(** ** Chunks *)

(** A piece of a fragment: texts are strings of the host. *)
Definition fragment_piece (p : DraftPiece) : Prop := match p with PieceText t => utf8_valid t = true /\ zlen t <= U64_MAX | PieceMarker _ => True end.

(** What is left of a text, and the piece that begins it. *)
Record chunk_of (text : list byte) (start end_ : Z) (chunk : list byte) : Prop := mkChunk {
  ch_range : 0 <= start < end_ /\ end_ <= zlen text;
  ch_start : is_char_boundary text start = true;
  ch_end : is_char_boundary text end_ = true;
  ch_text : chunk = text_range text start end_;
  ch_size : zlen chunk = end_ - start /\ end_ - start <= DRAFT_PIECE_TEXT_LEAF_MAX_BYTES;
  ch_most : forall j, end_ < j <= zlen text -> j <= start + DRAFT_PIECE_TEXT_LEAF_MAX_BYTES -> is_char_boundary text j = false
}.

Definition insertable (inserted : list DraftPiece) (piece start : Z) (text : list byte) : Prop :=
  inserted !! Z.to_nat piece = Some (PieceText text) /\ start < zlen text /\ is_char_boundary text start = true.

Lemma insertion_chunk_spec {R} inserted piece start : Forall fragment_piece inserted -> 0 <= start ->
  match insertion_chunk (R := R) inserted piece start with
  | Ok (end_, chunk) => exists text, insertable inserted piece start text /\ chunk_of text start end_ chunk
  | Err _ => forall text, ~ insertable inserted piece start text
  end.
Proof.
  intros Hf H0. unfold insertion_chunk, insertable. destruct (inserted !! Z.to_nat piece) as [[t|m]|] eqn:El; [|by intros x (? & _)..].
  destruct (Z.leb_spec (zlen t) start) as [Hle|Hlt]; cbn [orb]; [intros x (E & ? & ?); injection E as <-; lia|].
  destruct (is_char_boundary t start) eqn:Hb; cbn [negb]; [|intros x (E & ? & ?); injection E as <-; congruence]. exists t. split; [done|].
  pose proof (Forall_lookup_1 _ _ _ _ Hf El) as [Hu Hl64]. unfold saturating_add64, DRAFT_PIECE_TEXT_LEAF_MAX_BYTES in *.
  set (limit := Z.min _ _). assert (Hlim : start < limit <= zlen t /\ limit <= start + 32768 /\ (limit = zlen t \/ limit = start + 32768)) by (unfold limit; lia). clearbody limit.
  pose proof (floor_boundary_spec t (Z.to_nat limit)) as HF. cbv zeta in HF. set (m := floor_boundary t (Z.to_nat limit)) in *. clearbody m. destruct HF as (F1 & F2 & F3).
  destruct (next_boundary t start Hu ltac:(lia) Hb) as (j & Hj & Hjl & Hjb).
  assert (start < Z.of_nat m). { specialize (F3 j ltac:(lia) Hjb). lia. }
  split; try done; try lia.
  - unfold text_range, DRAFT_PIECE_TEXT_LEAF_MAX_BYTES. rewrite length_take, length_drop. lia.
  - unfold DRAFT_PIECE_TEXT_LEAF_MAX_BYTES. intros i Hi Hi'. apply not_true_is_false. intros Hib. specialize (F3 i ltac:(lia) Hib). lia.
Qed.

Lemma chunk_piece_ok text start end_ chunk : utf8_valid text = true -> chunk_of text start end_ chunk -> piece_ok (LeafText chunk).
Proof.
  intros Hu [Hr Hs He -> [Hz Hm] _]. unfold DRAFT_PIECE_TEXT_LEAF_MAX_BYTES in *. split; [split|lia].
  - assert (text_range text start end_ = drop (Z.to_nat start) (take (Z.to_nat end_) text)) as ->.
    { unfold text_range. rewrite skipn_firstn_comm. f_equal. lia. }
    apply utf8_split; [by apply utf8_split; [..|lia|]|rewrite length_take; lia|].
    unfold is_char_boundary in *. rewrite !orb_true_iff, !Z.eqb_eq in *. destruct Hs as [[->|?]|Hs]; [by left; left|lia|]. right. rewrite lookup_take_lt by lia. done.
  - lia.
Qed.

(** ** The sequence behind an insertion *)

Lemma meets_text_l t v : meets (LeafText t) v.
Proof. done. Qed.
Lemma meets_text_r t v : meets v (LeafText t).
Proof. by destruct v. Qed.

Lemma ordered_around t ps qs : ordered ps -> ordered qs -> ordered (ps ++ LeafText t :: qs).
Proof.
  intros Hp Hq. apply ordered_app. split_and!; [done| |].
  - constructor; [done|]. destruct qs; constructor. done.
  - intros a b Ha [= <-]. apply meets_text_r.
Qed.

Lemma ordered_insert_text b t ps : ordered ps -> ordered (insert_pieces b (LeafText t) ps).
Proof.
  intros Ho. unfold insert_pieces. set (k := Z.to_nat (b_rank b)). assert (Hs : forall n, ordered (take n ps) /\ ordered (drop n ps)).
  { intros n. rewrite <- (take_drop n ps), ordered_app in Ho. tauto. }
  destruct (b_inner b =? 0); [apply ordered_around; apply Hs|]. destruct (ps !! k) as [[x|m]|]; [|done|done].
  apply ordered_around; [apply Hs|]. cbn [app]. apply (ordered_around _ []); [constructor|]. apply (ordered_around _ []); [constructor|apply Hs].
Qed.

Lemma insert_totals b t ps : boundary_in b ps ->
  seq_bytes (insert_pieces b (LeafText t) ps) = seq_bytes ps + zlen t
  /\ seq_newlines (insert_pieces b (LeafText t) ps) = seq_newlines ps + count_newlines t
  /\ zlen (insert_pieces b (LeafText t) ps) <= zlen ps + 2.
Proof.
  unfold insert_pieces. intros [[-> Hr]|(x & Hr & Hl & Hi & _)].
  - cbn [Z.eqb]. set (k := Z.to_nat _). rewrite <- (take_drop k ps) at 3 6 9. rewrite !sum_of_app, !length_app, !sum_of_cons. cbn. lia.
  - rewrite (proj2 (Z.eqb_neq _ 0)), Hl by lia. set (k := Z.to_nat (b_rank b)) in *. set (i := Z.to_nat (b_inner b)).
    rewrite <- (take_drop_middle ps _ _ Hl) at 3 6 9. rewrite !sum_of_app, !length_app, !sum_of_cons, !sum_of_nil. cbn [piece_bytes piece_newlines length].
    rewrite <- (take_drop i x) at 3 6. rewrite count_newlines_app, length_app. lia.
Qed.

Lemma insert_fits b t ps : boundary_in b ps -> seq_bytes ps + zlen t + 1 <= U64_MAX -> zlen ps + 2 <= U64_MAX -> fits (insert_pieces b (LeafText t) ps).
Proof.
  intros Hb H1 H2. destruct (insert_totals b t ps Hb) as (E1 & E2 & E3). unfold fits. rewrite E1, E2.
  pose proof (seq_totals ps). pose proof (count_newlines_bounds t). lia.
Qed.

(** The boundary behind the inserted piece. *)
Definition behind (b : Boundary) : Boundary := mkBound (b_rank b + (if b_inner b =? 0 then 0 else 1) + 1) 0.

Lemma behind_in b v ps : boundary_in b ps ->
  boundary_in (behind b) (insert_pieces b v ps) /\ unit_at (behind b) (insert_pieces b v ps) = unit_at b ps + zlen (piece_symbols v).
Proof.
  unfold behind, insert_pieces, unit_at. intros [[-> Hr]|(x & Hr & Hl & Hi & _)].
  - cbn [Z.eqb b_rank b_inner]. set (k := Z.to_nat (b_rank b)). replace (Z.to_nat (b_rank b + 0 + 1)) with (S k) by lia. split.
    + left. cbn. rewrite length_app, length_take. cbn. rewrite length_drop. lia.
    + rewrite (cons_middle v), app_assoc, take_app_length' by (rewrite length_app, length_take; cbn; lia).
      rewrite seq_units_app, seq_units_cons. change (seq_units []) with 0. lia.
  - rewrite (proj2 (Z.eqb_neq _ 0)), Hl by lia. cbn [b_rank b_inner]. set (k := Z.to_nat (b_rank b)) in *. apply lookup_lt_Some in Hl as Hk.
    replace (Z.to_nat (b_rank b + 1 + 1)) with (S (S k)) by lia. split.
    + left. cbn. rewrite !length_app, length_take. cbn. rewrite length_drop. lia.
    + set (x1 := LeafText (take _ x)). change ([x1; v; LeafText (drop (Z.to_nat (b_inner b)) x)] ++ drop (S k) ps)
        with ([x1; v] ++ LeafText (drop (Z.to_nat (b_inner b)) x) :: drop (S k) ps).
      rewrite app_assoc, take_app_length' by (rewrite length_app, length_take; cbn; lia).
      rewrite seq_units_app, !seq_units_cons. change (seq_units []) with 0. unfold x1. cbn [piece_symbols]. rewrite length_fmap, length_take. lia.
Qed.
