(* ===== verification/TextRefine.v ===== *)
(** * Text edits of a build: what a quantum does

    [apply_ready] of [TextSplice] on stored roots: the sequence is spliced as the ready splice of
    the coordinate map says, and the map made for it becomes the current one. *)
From stdpp Require Import prelude gmap strings.
From S2P Require Import Prelude.
From S2P Require Import Bytes.
From S2P Require Import ModelDigest.
From S2P Require Import SyndicParts.
From S2P Require Import BuildBudget.
From S2P Require Import MappingModel.
From S2P Require Import MappingProofs.
From S2P Require Import MappingEdit.
From S2P Require Import MappingProgram.
From S2P Require Import PieceModel.
From S2P Require Import PieceCodec.
From S2P Require Import PieceTree.
From S2P Require Import PieceDenote.
From S2P Require Import PieceSequence.
From S2P Require Import PieceEdit.
From S2P Require Import PieceRemove.
From S2P Require Import PieceSymbols.
From S2P Require Import PieceLocate.
From S2P Require Import PieceRoots.
From S2P Require Import PieceAlign.
From S2P Require Import TextSplice.
From S2P Require Import TextChunks.

(** The loads and emissions of a quantum on a tree of a given height. *)
Definition text_loads (height : Z) : nat := 3 * Z.to_nat height + 3.
Definition text_emitted (height : Z) : nat := 3 * Z.to_nat height + 5.

Definition consumed (m : DraftPieceBuildMapping) (r : DraftPieceMappingReadySplice) : DraftPieceBuildMapping :=
  mkBuildMapping (rs_target r) (completed_source_unit m) (fragment_source_end_unit m) Stage.Idle.

Section Quantum.
Context {H : Type} `{Sha256Laws H} {R : Type}.
Context (node_store : DraftPieceRecordKey -> result (DraftPiecePrepareError R) (option DraftPieceNodeRecord))
        (leaf_store : DraftPieceRecordKey -> result (DraftPiecePrepareError R) (option DraftPieceLeafRecord))
        (draft session operation : list byte).

Abbreviation sees := (seen node_store leaf_store draft).

(** ** Outcomes *)

(** A chunk of the text went in at [b], and the frontier moved behind it. *)
Definition text_inserted (c' : PieceContext) (ps : list piece) (m : DraftPieceBuildMapping) (r : DraftPieceMappingReadySplice)
    (inserted : list DraftPiece) (ord np nb : Z) (base se : DraftPieceBuildBoundary)
    (out : option (list byte) * DraftPieceSummary * DraftPieceBuildFrontier) : Prop :=
  let b := checked_boundary se in
  exists text end_ chunk b',
    insertable inserted np nb text /\ chunk_of text nb end_ chunk /\ insertion_chunk (R := R) inserted np nb = Ok (end_, chunk) /\ boundary_in b ps
    /\ rs_a r = unit_at b ps /\ rs_removed r = 0 /\ rs_inserted r = zlen chunk /\ piece_context_ok node_store leaf_store draft session operation c'
    /\ let ps' := insert_pieces b (LeafText chunk) ps in
    stored_sequence draft (sees c') out.1.1 out.1.2 ps' /\ symbols ps' = splice (unit_at b ps) 0 (SymByte <$> chunk) (symbols ps)
    /\ boundary_in b' ps' /\ unit_at b' ps' = unit_at b ps + zlen chunk
    /\ out.2 = Inserting ord (if end_ =? zlen text then np + 1 else np) (if end_ =? zlen text then 0 else end_) base (durable_boundary b')
    /\ bc_mapping (pb c') = Some (consumed m r) /\ m_target (root_measure (rs_target r)) = seq_units ps'.

(** The end of the range was cut off, and the frontier moved to what is left of it. *)
Definition text_deleted (c' : PieceContext) (ps : list piece) (m : DraftPieceBuildMapping) (r : DraftPieceMappingReadySplice)
    (ord : Z) (base ss se : DraftPieceBuildBoundary)
    (out : option (list byte) * DraftPieceSummary * DraftPieceBuildFrontier) : Prop :=
  let start := checked_boundary ss in let end_ := checked_boundary se in
  exists a ps' start' end',
    unit_at start ps <= a < unit_at end_ ps /\ rs_a r = a /\ rs_removed r = unit_at end_ ps - a /\ rs_inserted r = 0
    /\ piece_context_ok node_store leaf_store draft session operation c' /\ stored_sequence draft (sees c') out.1.1 out.1.2 ps' /\ symbols ps' = splice a (unit_at end_ ps - a) [] (symbols ps)
    /\ boundary_in start' ps' /\ unit_at start' ps' = unit_at start ps /\ boundary_in end' ps' /\ unit_at end' ps' = a
    /\ out.2 = Applying ord base (durable_boundary start') (durable_boundary end')
    /\ bc_mapping (pb c') = Some (with_stage (consumed m r) (if bool_decide (start' = end') then Stage.Idle else Stage.TextDeleteProof))
    /\ m_target (root_measure (rs_target r)) = seq_units ps'.

Context (P : Prop) (Hstores : piece_stores_ok node_store leaf_store draft session operation).
Abbreviation ready := (piece_ready node_store leaf_store draft session operation P).
Abbreviation grew := (grown node_store leaf_store draft).
Abbreviation wp := (pwp (R := R) P).

(** ** The map *)

Lemma verified_ready c m r k a n i : bc_mapping (pb c) = Some m -> mapping_stage m = Stage.Ready r ->
  verified (R := R) c k a n i <-> rs_kind r = k /\ rs_a r = a /\ rs_removed r = n /\ rs_inserted r = i.
Proof.
  intros Em Es. unfold verified, verify_splice. rewrite Em, Es. split.
  - case_match eqn:E; [done|]. intros _. bool_facts. done.
  - intros (-> & -> & -> & ->). by rewrite bool_decide_true, !Z.eqb_refl.
Qed.

Lemma with_mapping_ready l e c m : ready l e c -> ready l e (with_build c (with_mapping (pb c) m)).
Proof. intros [[] Ha]. split; [by split|]. intros HP. destruct (Ha HP). by split. Qed.

Lemma pwp_consume l e c m r (Q : unit -> PieceContext -> Prop) : ready l e c -> bc_mapping (pb c) = Some m -> mapping_stage m = Stage.Ready r ->
  Q tt (with_build c (with_mapping (pb c) (consumed m r))) -> wp (in_build (fun b => consume_ready b (rs_kind r))) c Q.
Proof. intros Hr Em Es HQ. unfold pwp, in_build, consume_ready, program_mapping. rewrite Em. cbn. rewrite Es, bool_decide_true by done. done. Qed.

Lemma pwp_set_stage c m stage (Q : unit -> PieceContext -> Prop) : bc_mapping (pb c) = Some m ->
  Q tt (with_build c (with_mapping (pb c) (with_stage m stage))) -> wp (in_build (fun b => set_stage b stage)) c Q.
Proof. intros Em HQ. unfold pwp, in_build, set_stage. by rewrite Em. Qed.

Lemma sequence_extent T t ps : sequence_tree draft T t ps -> extent t = seq_units ps.
Proof.
  destruct t as [t|]; [|by intros ->]. intros (_ & h & _ & Ht). cbn. apply child_units. by apply piece_tree_denotes in Ht as [].
Qed.

Lemma pwp_check c t ps m (Q : unit -> PieceContext -> Prop) T : sequence_tree draft T t ps -> bc_mapping (pb c) = Some m ->
  (P -> m_target (root_measure (current_map m)) = seq_units ps) -> (m_target (root_measure (current_map m)) = seq_units ps -> Q tt c) ->
  wp (check_extent t) c Q.
Proof.
  intros Ht Em HP HQ. unfold pwp, check_extent, program_mapping. rewrite Em, (sequence_extent _ _ _ Ht). cbn.
  destruct (Z.eqb_spec (seq_units ps) (m_target (root_measure (current_map m)))); [by apply HQ|]. intros HP'. specialize (HP HP'). lia.
Qed.

(** ** Insertion *)

Record insert_possible (ps : list piece) (r : DraftPieceMappingReadySplice) (inserted : list DraftPiece) (np nb : Z) (b : Boundary) (height : Z) : Prop := mkInsertPossible {
  ip_text : exists text, insertable inserted np nb text;
  ip_boundary : boundary_in b ps;
  ip_splice : forall end_ chunk, insertion_chunk (R := R) inserted np nb = Ok (end_, chunk) ->
    rs_a r = unit_at b ps /\ rs_removed r = 0 /\ rs_inserted r = zlen chunk /\ m_target (root_measure (rs_target r)) = seq_units ps + zlen chunk
    /\ seq_bytes ps + zlen chunk + 1 <= U64_MAX;
  ip_count : zlen ps + 2 <= U64_MAX /\ zlen inserted <= U64_MAX;
  ip_height : height < DRAFT_PIECE_MAX_HEIGHT
}.

Lemma checked_behind b : 0 <= b_rank b -> b_rank b + 2 <= U64_MAX ->
  (r ← checked_add64 (b_rank b) (if b_inner b =? 0 then 0 else 1); checked_add64 r 1) = Some (b_rank (behind b)).
Proof. intros. unfold behind. cbn. destruct (b_inner b =? 0); rewrite (checked_add64_within _ _ U64_MAX) by lia; cbn; by rewrite (checked_add64_within _ _ U64_MAX) by lia. Qed.
Lemma checked_behind_inv b rank : (r ← checked_add64 (b_rank b) (if b_inner b =? 0 then 0 else 1); checked_add64 r 1) = Some rank -> mkBoundary rank 0 = durable_boundary (behind b).
Proof. intros E. unfold behind, durable_boundary. cbn. destruct (b_inner b =? 0); apply bind_Some in E as (x & E1 & E2); apply checked_add64_Some in E1 as [-> _], E2 as [-> _]; f_equal; lia. Qed.

Lemma seq_units_text t : seq_units [LeafText t] = zlen t.
Proof. unfold seq_units. rewrite !sum_of_cons, !sum_of_nil. cbn. lia. Qed.

(** The state between the edit and the new root. *)
Definition insert_step (l e : nat) (c' : PieceContext) (t : option SequenceRef) (ps : list piece) (m : DraftPieceBuildMapping) (r : DraftPieceMappingReadySplice)
    (inserted : list DraftPiece) (ord np nb : Z) (base : DraftPieceBuildBoundary) (b : Boundary) (out : option SequenceRef * DraftPieceBuildFrontier) : Prop :=
  exists text end_ chunk,
    insertable inserted np nb text /\ chunk_of text nb end_ chunk /\ insertion_chunk (R := R) inserted np nb = Ok (end_, chunk) /\ boundary_in b ps
    /\ rs_a r = unit_at b ps /\ rs_removed r = 0 /\ rs_inserted r = zlen chunk
    /\ sequence_tree draft (sees c') out.1 (insert_pieces b (LeafText chunk) ps) /\ (height_of out.1 <= S (height_of t))%nat
    /\ out.2 = Inserting ord (if end_ =? zlen text then np + 1 else np) (if end_ =? zlen text then 0 else end_) base (durable_boundary (behind b))
    /\ bc_mapping (pb c') = Some (consumed m r) /\ ready l e c' /\ (P -> m_target (root_measure (rs_target r)) = seq_units ps + zlen chunk).

Lemma pwp_text_insert l e c t ps m r inserted ord np nb base se : let b := checked_boundary se in
  ready (S (height_of t) + l) (4 + 2 * height_of t + e) c -> sequence_tree draft (sees c) t ps -> rooted t ->
  bc_mapping (pb c) = Some m -> mapping_stage m = Stage.Ready r -> rs_kind r = TextInsert -> Forall fragment_piece inserted ->
  0 <= b_rank b -> 0 <= b_inner b -> 0 <= np -> 0 <= nb -> (P -> insert_possible ps r inserted np nb b (Z.of_nat (height_of t))) ->
  wp (text_insert node_store leaf_store t inserted r ord np nb base se) c (fun out c' => insert_step l e c' t ps m r inserted ord np nb base b out).
Proof.
  intros b Hr Ht Hroot Em Es Ek Hins Hb0 Hi0 Hnp Hnb HP. unfold text_insert. fold b. pose proof (insertion_chunk_spec (R := R) inserted np nb Hins Hnb) as Hch.
  apply pwp_bind. unfold lift_piece at 1, pwp at 1. destruct (insertion_chunk inserted np nb) as [[end_ chunk]|] eqn:Ech.
  2: { intros HP'. destruct (HP HP') as [[text Ht'] _ _ _ _]. by apply (Hch text). }
  destruct Hch as (text & Hi & Hc). pose proof Hi as (Hl & _ & _).
  assert (Hok : piece_ok (LeafText chunk)) by (eapply chunk_piece_ok; [|done]; by pose proof (Forall_lookup_1 _ _ _ _ Hins Hl) as [? _]).
  match goal with |- context [if ?x then _ else _] => destruct x eqn:E end.
  { apply pwp_fail. intros HP'. destruct (ip_splice _ _ _ _ _ _ _ (HP HP') _ _ Ech) as (_ & E1 & E2 & _). by rewrite E1, E2, !Z.eqb_refl in E. }
  apply pwp_bind. eapply pwp_mono; [by apply (pwp_new_leaf _ _ _ _ _ _ Hstores (S (height_of t) + l) (3 + 2 * height_of t + e) c (LeafText chunk))|].
  intros leaf c1 (L1 & L2 & L3 & Hr1 & Hg1). specialize (L3 I). assert (Em1 : bc_mapping (pb c1) = Some m) by (destruct Hg1; congruence).
  assert (Ht1 : sequence_tree draft (sees c1) t ps).
  { destruct t as [t|]; [|done]. destruct Ht as (Hsr & h & Eh & Ht). split; [done|]. exists h. split; [done|]. by eapply grown_tree. }
  pose proof (verified_ready c1 m r TextInsert (unit_at b ps) 0 (seq_units [LeafText chunk]) Em1 Es) as Hvr. rewrite seq_units_text in Hvr.
  assert (HPc : P -> boundary_in b ps /\ fits (insert_pieces b (LeafText chunk) ps)).
  { intros HP'. destruct (HP HP') as [_ Hb Hsp [? _] _]. destruct (Hsp _ _ Ech) as (_ & _ & _ & _ & ?). split; [done|]. by apply insert_fits. }
  apply pwp_bind. eapply pwp_mono; [apply (pwp_insert _ _ _ _ _ _ Hstores l e c1 t ps b leaf (LeafText chunk)); try done|].
  { intros HP'. by apply HPc. }
  { intros HP'. rewrite seq_units_text. apply Hvr. destruct (HP HP') as [_ Hb Hsp _ _]. destruct (Hsp _ _ Ech) as (? & ? & ? & _). done. }
  { intros HP'. apply ordered_insert_text. destruct t as [t|]; [|cbn in Ht; subst ps; constructor]. destruct Ht as (_ & h & _ & Ht). by apply piece_tree_denotes in Ht as []. }
  { intros HP'. by apply HPc. }
  { intros HP'. pose proof (ip_height _ _ _ _ _ _ _ (HP HP')). lia. }
  intros t' c2 (Hb & Hver & Ht2 & Hh2 & Hr2 & Hg2). cbn [insert_kind] in Hver. rewrite seq_units_text in Hver. apply Hvr in Hver as (_ & V1 & V2 & V3).
  assert (Em2 : bc_mapping (pb c2) = Some m) by (destruct Hg2; congruence).
  apply pwp_bind. unfold lift_piece at 1, pwp at 1.
  destruct (r0 ← checked_add64 (b_rank b) _; checked_add64 r0 1) as [rank|] eqn:Erk; cbn [ok_or].
  2: { intros HP'. destruct (HP HP') as [_ _ _ [? _] _]. apply boundary_in_range in Hb as [? _]. rewrite checked_behind in Erk by lia. done. }
  apply checked_behind_inv in Erk. rewrite Hl, Erk.
  assert (Hfin : forall np' nb' c3, c3 = c2 -> np' = (if end_ =? zlen text then np + 1 else np) -> nb' = (if end_ =? zlen text then 0 else end_) ->
    wp (_ ← in_build (fun b => consume_ready b TextInsert); mret (Some t', Inserting ord np' nb' base (durable_boundary (behind b)))) c3 (fun out c' => insert_step l e c' t ps m r inserted ord np nb base b out)).
  { intros np' nb' c3 -> -> ->. apply pwp_bind. rewrite <- Ek. eapply pwp_consume; [done|done|done|]. apply pwp_ret. exists text, end_, chunk. split_and!; try done.
    - by apply with_mapping_ready.
    - intros HP'. destruct (ip_splice _ _ _ _ _ _ _ (HP HP') _ _ Ech) as (_ & _ & _ & ? & _). done. }
  destruct (Z.eqb_spec end_ (zlen text)) as [Ee|Ee].
  - destruct (checked_add64 np 1) as [n|] eqn:En.
    + apply checked_add64_Some in En as [-> _]. apply pwp_bind, pwp_bind. eapply pwp_lift; [done|]. apply pwp_ret. by apply Hfin.
    + apply pwp_bind, pwp_bind, pwp_fail. intros HP'. destruct (HP HP') as [_ _ _ [_ Hz] _]. apply checked_add64_None in En. apply lookup_lt_Some in Hl. lia.
  - apply pwp_bind, pwp_ret. by apply Hfin.
Qed.

(** ** Removal *)

Record delete_possible (ps : list piece) (r : DraftPieceMappingReadySplice) (start end_ : Boundary) (height : Z) : Prop := mkDeletePossible {
  xp_range : boundary_ltb start end_ = true;
  xp_text : exists t, ps !! Z.to_nat (last_rank end_) = Some (LeafText t);
  xp_splice : forall rank first last ns ne, slice_plan (R := R) start end_ = Ok (rank, first, last, ns, ne) ->
    rs_a r = edit_at None rank first ps /\ rs_removed r = edit_removed None rank first last ps /\ rs_inserted r = 0
    /\ m_target (root_measure (rs_target r)) = seq_units (edit_pieces None rank first last ps)
    /\ ordered (edit_pieces None rank first last ps);
  xp_height : height <= DRAFT_PIECE_MAX_HEIGHT
}.

Definition delete_step (l e : nat) (c' : PieceContext) (t : option SequenceRef) (ps : list piece) (m : DraftPieceBuildMapping) (r : DraftPieceMappingReadySplice)
    (ord : Z) (base : DraftPieceBuildBoundary) (start end_ : Boundary) (out : option SequenceRef * DraftPieceBuildFrontier) : Prop :=
  exists rank first last text ns ne, slice_plan (R := R) start end_ = Ok (rank, first, last, ns, ne) /\ boundary_ltb start end_ = true
    /\ text_cut rank first last ps text
    /\ rs_a r = edit_at None rank first ps /\ rs_removed r = edit_removed None rank first last ps /\ rs_inserted r = 0
    /\ sequence_tree draft (sees c') out.1 (edit_pieces None rank first last ps) /\ (height_of out.1 <= height_of t)%nat
    /\ out.2 = Applying ord base (durable_boundary ns) (durable_boundary ne)
    /\ bc_mapping (pb c') = Some (with_stage (consumed m r) (if bool_decide (ns = ne) then Stage.Idle else Stage.TextDeleteProof))
    /\ ready l e c' /\ (P -> m_target (root_measure (rs_target r)) = seq_units (edit_pieces None rank first last ps)).

Lemma plan_first start end_ rank first last ns ne : slice_plan (R := R) start end_ = Ok (rank, first, last, ns, ne) -> 0 <= b_rank end_ -> 0 <= b_inner start ->
  0 <= rank /\ 0 <= first /\ rank = last_rank end_.
Proof.
  unfold slice_plan, last_rank. intros Hp Hr Hi. destruct (Z.ltb_spec 0 (b_inner end_)).
  - case_match; injection Hp as <- <- <- <- <-; lia.
  - apply result_bind_Ok in Hp as (x & Hs & Hp). rewrite ok_or_Ok, checked_sub64_Some in Hs. destruct Hs as [-> ?].
    case_match; [done|]. case_match; injection Hp as <- <- <- <- <-; lia.
Qed.

Lemma tree_ok T t ps : sequence_tree draft T t ps -> Forall piece_ok ps.
Proof. destruct t as [t|]; [|intros ->; constructor]. intros (_ & h & _ & Ht). by apply piece_tree_denotes in Ht as []. Qed.

Lemma pwp_text_delete l e c t ps m r ord base ss se : let start := checked_boundary ss in let end_ := checked_boundary se in
  ready (S (2 * height_of t) + l) (S (3 * height_of t) + e) c -> sequence_tree draft (sees c) t ps ->
  bc_mapping (pb c) = Some m -> mapping_stage m = Stage.Ready r -> rs_kind r = TextDelete ->
  boundary_in start ps -> boundary_in end_ ps -> (P -> delete_possible ps r start end_ (Z.of_nat (height_of t))) ->
  wp (text_delete node_store leaf_store t ord base ss se) c (fun out c' => delete_step l e c' t ps m r ord base start end_ out).
Proof.
  intros start end_ Hr Ht Em Es Ek Hbs Hbe HP. unfold text_delete. fold start end_. apply pwp_bind. unfold lift_piece at 1, pwp at 1.
  destruct t as [t|]; cbn [ok_or].
  2: { intros HP'. cbn in Ht. subst ps. destruct (HP HP') as [_ [x Hx] _ _]. done. }
  pose proof (tree_ok _ _ _ Ht) as Hok.
  assert (HPt : P -> exists first last ns ne x, slice_plan (R := R) start end_ = Ok (last_rank end_, first, last, ns, ne) /\ text_cut (last_rank end_) first last ps x).
  { intros HP'. destruct (HP HP') as [Hlt [x Hx] _ _]. destruct (slice_plan_total (R := R) start end_ ps x) as (? & ? & ? & ? & ? & ?); try done. eauto 10. }
  apply pwp_bind. unfold remove_text_slice. destruct (boundary_ltb start end_) eqn:Hlt; cbn [negb].
  2: { apply pwp_fail. intros HP'. destruct (HP HP') as [? _ _ _]. congruence. }
  apply pwp_bind. unfold lift_piece at 1, pwp at 1. destruct (slice_plan start end_) as [[[[[rank first] last] ns] ne]|] eqn:Hpl.
  2: { intros HP'. destruct (HPt HP') as (? & ? & ? & ? & ? & ? & _). congruence. }
  assert (He0 : 0 <= b_rank end_) by (destruct Hbe as [[_ ?]|(? & ? & _)]; lia). assert (Hi0 : 0 <= b_inner start) by (destruct Hbs as [[-> _]|(? & _ & _ & ? & _)]; lia).
  destruct (plan_first _ _ _ _ _ _ _ Hpl He0 Hi0) as (Hrk & Hfst & Erk).
  assert (HPc : P -> exists x, text_cut rank first last ps x).
  { intros HP'. destruct (HPt HP') as (f' & l' & ns' & ne' & x & E & Hx). simplify_eq. by exists x. }
  pose proof (verified_ready c m r TextDelete (edit_at None rank first ps) (edit_removed None rank first last ps) 0 Em Es) as Hvr.
  apply pwp_assoc. apply (pwp_edit_root _ _ _ _ _ _ Hstores None first last Hfst l e c t ps rank); try done.
  { intros HP'. apply Hvr. destruct (xp_splice _ _ _ _ _ (HP HP') _ _ _ _ _ Hpl) as (? & ? & ? & _). done. }
  { intros HP'. by destruct (xp_splice _ _ _ _ _ (HP HP') _ _ _ _ _ Hpl) as (_ & _ & _ & _ & ?). }
  { intros HP'. pose proof (xp_height _ _ _ _ _ (HP HP')) as Hh. cbn in Hh. lia. }
  intros t' c1 (x & Hcut) Hver Ht' Hh' Hr1 Hg1. apply Hvr in Hver as (_ & V1 & V2 & V3). assert (Em1 : bc_mapping (pb c1) = Some m) by (destruct Hg1; congruence).
  apply pwp_ret, pwp_bind. rewrite <- Ek. eapply pwp_consume; [done|done|done|]. set (c2 := with_build c1 _).
  assert (Hr2 : ready l e c2) by by apply with_mapping_ready.
  assert (HPm : P -> m_target (root_measure (rs_target r)) = seq_units (edit_pieces None rank first last ps)).
  { intros HP'. by destruct (xp_splice _ _ _ _ _ (HP HP') _ _ _ _ _ Hpl) as (_ & _ & _ & ? & _). }
  apply pwp_bind. destruct (bool_decide (ns = ne)) eqn:Ene.
  - apply pwp_ret, pwp_ret. exists rank, first, last, x, ns, ne. rewrite Ene. by split_and!.
  - eapply (pwp_set_stage c2 (consumed m r)); [done|]. apply pwp_ret. exists rank, first, last, x, ns, ne. rewrite Ene. split_and!; try done. by apply (with_mapping_ready l e c2).
Qed.

(** ** The quantum *)

Lemma pwp_apply_insert c root summary ps m r inserted ord np nb base se : let b := checked_boundary se in
  ready (text_loads (sm_height summary)) (text_emitted (sm_height summary)) c -> stored_sequence draft (sees c) root summary ps -> bc_mapping (pb c) = Some m -> mapping_stage m = Stage.Ready r ->
  rs_kind r = TextInsert -> Forall fragment_piece inserted -> 0 <= b_rank b -> 0 <= b_inner b -> 0 <= np -> 0 <= nb ->
  (P -> insert_possible ps r inserted np nb b (sm_height summary)) ->
  wp (apply_ready node_store leaf_store root summary inserted (Inserting ord np nb base se) r) c (fun out c' =>
    text_inserted c' ps m r inserted ord np nb base se out).
Proof.
  intros b Hr Hs Em Es Ek Hins Hb0 Hi0 Hnp Hnb HP. unfold apply_ready. apply pwp_bind. set (h := Z.to_nat (sm_height summary)).
  eapply pwp_mono; [apply (pwp_load_sequence _ _ _ _ _ _ Hstores (S h + S h) (4 + 2 * h + 1) c root summary ps); [|done]|].
  { eapply piece_ready_le; [| |exact Hr]; unfold text_loads, text_emitted; lia. }
  intros t c1 (Ht & Hroot & [Eh _] & Hr1 & Hk1). assert (Eh' : height_of t = h) by lia. rewrite Ek.
  assert (Em1 : bc_mapping (pb c1) = Some m) by (destruct Hk1; congruence). rewrite <- (kept_tables node_store leaf_store draft _ _ Hk1) in Ht.
  apply pwp_bind. eapply pwp_mono; [apply (pwp_text_insert (S h) 1 c1 t ps m r inserted ord np nb base se); rewrite ?Eh'; try done|].
  { intros HP'. unfold h. destruct (HP HP'). split; try done. lia. }
  intros [t' fr] c2 (text & end_ & chunk & I1 & I2 & I2' & I3 & I4 & I5 & I6 & Ht' & Hh' & Efr & Em2 & Hr2 & HPm). cbn [fst snd] in *. fold b in Ht', I3, I4, Efr.
  apply pwp_bind. eapply pwp_mono; [eapply (pwp_build_sequence _ _ _ _ _ _ Hstores 0 0 c2 t'); [|exact Ht']|].
  { eapply piece_ready_le; [| |exact Hr2]; lia. }
  intros [root' summary'] c3 (Hst & _ & [Hc3 _] & Hg3). assert (Em3 : bc_mapping (pb c3) = Some (consumed m r)) by (destruct Hg3; congruence).
  destruct (behind_in b (LeafText chunk) ps I3) as [Hbb Hbu]. cbn [piece_symbols] in Hbu. rewrite length_fmap in Hbu.
  assert (Eu : seq_units (insert_pieces b (LeafText chunk) ps) = seq_units ps + zlen chunk).
  { destruct (insert_totals b chunk ps I3) as (E1 & _ & _). rewrite <- !symbols_length, insert_symbols by done. pose proof (unit_at_bounds _ _ I3).
    unfold splice. rewrite !length_app, length_take, length_drop. pose proof (symbols_length ps). rewrite Z.add_0_r. change (symbols [LeafText chunk]) with ((SymByte <$> chunk) ++ []).
    rewrite app_nil_r, length_fmap. lia. }
  apply pwp_bind. eapply (pwp_check c3 t' _ (consumed m r)); [exact Ht'|done|intros HP'; rewrite Eu; by apply HPm|]. intros Hm. apply pwp_ret.
  exists text, end_, chunk, (behind b). cbn [fst snd]. split_and!; try done.
  rewrite insert_symbols by done. change (symbols [LeafText chunk]) with ((SymByte <$> chunk) ++ []). by rewrite app_nil_r.
Qed.

Lemma pwp_apply_delete c root summary ps m r inserted ord base ss se : let start := checked_boundary ss in let end_ := checked_boundary se in
  ready (text_loads (sm_height summary)) (text_emitted (sm_height summary)) c -> stored_sequence draft (sees c) root summary ps -> bc_mapping (pb c) = Some m -> mapping_stage m = Stage.Ready r ->
  rs_kind r = TextDelete -> boundary_in start ps -> boundary_in end_ ps -> (P -> delete_possible ps r start end_ (sm_height summary)) ->
  wp (apply_ready node_store leaf_store root summary inserted (Applying ord base ss se) r) c (fun out c' =>
    text_deleted c' ps m r ord base ss se out).
Proof.
  intros start end_ Hr Hs Em Es Ek Hbs Hbe HP. unfold apply_ready. apply pwp_bind. set (h := Z.to_nat (sm_height summary)).
  eapply pwp_mono; [apply (pwp_load_sequence _ _ _ _ _ _ Hstores (S (2 * h) + h) (S (3 * h) + 1) c root summary ps); [|done]|].
  { eapply piece_ready_le; [| |exact Hr]; unfold text_loads, text_emitted; lia. }
  intros t c1 (Ht & Hroot & [Eh _] & Hr1 & Hk1). assert (Eh' : height_of t = h) by lia. rewrite Ek.
  assert (Em1 : bc_mapping (pb c1) = Some m) by (destruct Hk1; congruence). rewrite <- (kept_tables node_store leaf_store draft _ _ Hk1) in Ht.
  apply pwp_bind. eapply pwp_mono; [apply (pwp_text_delete h 1 c1 t ps m r ord base ss se); rewrite ?Eh'; try done|].
  { intros HP'. unfold h. destruct (HP HP'). split; try done. lia. }
  intros [t' fr] c2 (rank & first & last & text & ns & ne & Hpl & Hlt & Hcut & I4 & I5 & I6 & Ht' & Hh' & Efr & Em2 & Hr2 & HPm). cbn [fst snd] in *.
  apply pwp_bind. eapply pwp_mono; [eapply (pwp_build_sequence _ _ _ _ _ _ Hstores 0 0 c2 t'); [|exact Ht']|].
  { eapply piece_ready_le; [| |exact Hr2]; lia. }
  intros [root' summary'] c3 (Hst & _ & [Hc3 _] & Hg3).
  assert (Em3 : bc_mapping (pb c3) = bc_mapping (pb c2)) by (by destruct Hg3). rewrite Em2 in Em3.
  destruct (slice_plan_exact (R := R) start end_ ps text rank first last ns ne (tree_ok _ _ _ Ht) Hbs Hbe Hlt Hpl Hcut) as (X1 & X2 & X3 & X4 & X5 & X6 & _).
  pose proof (slice_shape (R := R) start end_ ps text rank first last ns ne Hbe Hpl Hcut) as X7.
  apply pwp_bind. eapply (pwp_check c3 t' _ _ _ _ Ht' Em3); [by cbn|]. cbn [with_stage current_map consumed]. intros Hm. apply pwp_ret.
  exists (edit_at None rank first ps), (edit_pieces None rank first last ps), ns, ne. cbn [fst snd]. fold start end_. split_and!; try done; lia.
Qed.
(** ** The proof stages *)

(** The fact at a boundary. *)
Lemma found_boundary T t ps b f : functional T -> sequence_tree draft T t ps -> 0 <= b_rank b -> found draft T t ps (CutBoundary b) f ->
  uf_unit f = unit_at b ps /\ (uf_leaf f = None /\ b = mkBound (zlen ps) 0
    \/ exists r, uf_leaf f = Some r /\ ps !! Z.to_nat (b_rank b) = Some (lr_value r) /\ inner_ok (lr_value r) (b_inner b)).
Proof.
  intros HT Ht Hr0 [[-> ->]|(x & -> & rs & k & r & Hrs & Hk & Hh & Hi & ->)].
  - unfold unit_at. cbn. rewrite Nat2Z.id, firstn_all. split; [lia|by left].
  - destruct Ht as (_ & h & Eh & Ht). cbn [height_of from_option] in Hrs. rewrite Eh, Nat2Z.id in Hrs. rewrite <- (leaves_values _ _ _ _ _ _ _ HT Ht Hrs) in *.
    assert (Hp : ps !! k = Some (lr_value r)) by (rewrite (leaves_values _ _ _ _ _ _ _ HT Ht Hrs), list_lookup_fmap, Hk; done).
    cbn in Hh. rewrite length_take in Hh. apply lookup_lt_Some in Hp as Hlt. assert (k = Z.to_nat (b_rank b)) as -> by lia.
    split; [done|]. right. exists r. by split_and!.
Qed.

Lemma cut_start_ok ps rank : cut_ok (CutBoundary (mkBound rank 0)) [] ps.
Proof. intros k v Hk _. cbn. destruct v as [t|]; cbn; [|done]. split; [lia|done]. Qed.

Lemma pwp_deletion_proof l e c t ps start end_ : ready (S (height_of t) + l) e c -> sequence_tree draft (sees c) t ps ->
  boundary_in start ps -> boundary_in end_ ps ->
  (P -> boundary_ltb start end_ = true /\ exists x, ps !! Z.to_nat (last_rank end_) = Some (LeafText x)) ->
  wp (deletion_proof node_store leaf_store t start end_) c (fun sp c' =>
    boundary_ltb start end_ = true /\ (exists first last ns ne text, slice_plan (R := R) start end_ = Ok (ms_rank sp, first, last, ns, ne) /\ text_cut (ms_rank sp) first last ps text
      /\ ms_a sp = edit_at None (ms_rank sp) first ps /\ ms_removed sp = edit_removed None (ms_rank sp) first last ps)
    /\ ms_kind sp = TextDelete /\ ms_inserted sp = 0 /\ ready l e c' /\ kept c c').
Proof.
  intros Hr Ht Hbs Hbe HP. unfold deletion_proof. pose proof (tree_ok _ _ _ Ht) as Hok.
  destruct (boundary_ltb start end_) eqn:Hlt; cbn [negb]; [|apply pwp_fail; intros HP'; destruct (HP HP'); congruence].
  pose proof Hlt as Hlt'. unfold boundary_ltb in Hlt'. rewrite orb_true_iff, andb_true_iff, Z.eqb_eq, !Z.ltb_lt in Hlt'.
  assert (He0 : 0 <= b_rank end_ <= zlen ps) by (destruct Hbe as [[_ ?]|(? & ? & Hx & _)]; [lia|apply lookup_lt_Some in Hx; lia]).
  assert (Hs0 : 0 <= b_rank start /\ 0 <= b_inner start) by (destruct Hbs as [[-> ?]|(? & ? & _ & ? & _)]; lia).
  assert (Erk : (if 0 <? b_inner end_ then Ok (b_rank end_) else ok_or InvalidRoot (checked_sub64 (b_rank end_) 1)) = Ok (E := DraftPiecePrepareError R) (last_rank end_)).
  { unfold last_rank. destruct (Z.ltb_spec 0 (b_inner end_)); [done|]. by rewrite (proj2 (checked_sub64_Some _ _ (b_rank end_ - 1))) by lia. }
  apply pwp_bind. eapply pwp_lift; [exact Erk|]. set (rank := last_rank end_) in *. assert (Hrk : 0 <= rank) by (unfold rank, last_rank; destruct (Z.ltb_spec 0 (b_inner end_)); lia).
  apply pwp_bind. eapply pwp_mono; [apply (pwp_locate _ _ _ _ _ _ Hstores l e c t ps (CutBoundary (mkBound rank 0)) Hr Ht)|].
  { cbn. lia. } { intros HP'. destruct (HP HP') as [_ [x Hx]]. apply lookup_lt_Some in Hx. split; [cbn; lia|apply cut_start_ok]. }
  intros f c1 (Hf & Hr1 & Hk1). apply found_boundary in Hf as [Eu Hf]; [|apply sees_functional|done|done]. cbn [b_rank b_inner] in Hf.
  destruct Hf as [[El Eb]|(r & El & Hp & _)]; rewrite El; apply pwp_bind.
  { apply pwp_fail. intros HP'. destruct (HP HP') as [_ [x Hx]]. injection Eb as Eb. rewrite Eb in Hx. apply lookup_lt_Some in Hx. lia. }
  eapply pwp_lift; [done|]. destruct (lr_value r) as [text|mk]; [|apply pwp_fail; intros HP'; destruct (HP HP') as [_ [x Hx]]; congruence].
  destruct (slice_plan_total (R := R) start end_ ps text Hok Hbs Hbe Hlt Hp) as (first & last & ns & ne & Hpl & Hcut). fold rank in Hpl, Hcut.
  assert (Efst : (if rank =? b_rank start then b_inner start else 0) = first /\ (if 0 <? b_inner end_ then b_inner end_ else zlen text) = default (zlen text) last).
  { unfold slice_plan, rank, last_rank in Hpl |- *. destruct (Z.ltb_spec 0 (b_inner end_)).
    - destruct (Z.eqb_spec (b_rank end_) (b_rank start)); injection Hpl as <- <- <- <-; done.
    - apply result_bind_Ok in Hpl as (z & Hz & Hpl). rewrite ok_or_Ok, checked_sub64_Some in Hz. destruct Hz as [-> _].
      case_match; [done|]. destruct (Z.eqb_spec (b_rank end_ - 1) (b_rank start)); [destruct (Z.ltb_spec 0 (b_inner start))|]; cbn [andb] in Hpl; injection Hpl as <- <- <- <-; try done. cbn. split; [lia|done]. }
  destruct Efst as [-> ->]. pose proof Hcut as [_ _ [C1 C2] C3 C4]. rewrite C3, C4.
  rewrite (proj2 (Z.leb_gt _ _)), (proj2 (Z.ltb_ge _ _)) by lia. cbn [orb negb]. apply pwp_ret. cbn [ms_rank ms_a ms_removed ms_kind ms_inserted].
  split_and!; try done. exists first, last, ns, ne, text. split_and!; try done.
  - rewrite Eu. unfold edit_at, unit_at. cbn. lia.
  - unfold edit_removed. by rewrite Hp.
Qed.

Lemma boundary_cut_ok b ps : boundary_in b ps -> cut_ok (CutBoundary b) [] ps.
Proof.
  intros Hb k v Hk Hh. cbn in Hh |- *. rewrite length_take in Hh. apply lookup_lt_Some in Hk as Hlt. assert (k = Z.to_nat (b_rank b)) as -> by lia.
  destruct Hb as [[-> _]|(t & _ & Ht & Hi & Hc)]; [destruct v; cbn; [split; [lia|done]|done]|]. rewrite Hk in Ht. injection Ht as ->. cbn. split; [lia|done].
Qed.

Lemma pwp_insertion_proof l e c t ps inserted np nb se : let b := checked_boundary se in
  ready (S (height_of t) + l) e c -> sequence_tree draft (sees c) t ps -> Forall fragment_piece inserted -> 0 <= b_rank b -> 0 <= b_inner b -> 0 <= nb ->
  (P -> boundary_in b ps /\ exists text, insertable inserted np nb text) ->
  wp (insertion_proof node_store leaf_store t inserted np nb se) c (fun sp c' => exists end_ chunk,
    insertion_chunk (R := R) inserted np nb = Ok (end_, chunk) /\ ms_kind sp = TextInsert /\ ms_a sp = unit_at b ps /\ ms_removed sp = 0 /\ ms_inserted sp = zlen chunk
    /\ ready l e c' /\ kept c c').
Proof.
  intros b Hr Ht Hins Hb0 Hi0 Hnb HP. unfold insertion_proof. fold b. apply pwp_bind.
  eapply pwp_mono; [apply (pwp_locate _ _ _ _ _ _ Hstores l e c t ps (CutBoundary b) Hr Ht)|].
  { done. } { intros HP'. destruct (HP HP') as [Hb _]. split; [|by apply boundary_cut_ok]. apply boundary_in_range in Hb as [? ?]. split; [done|].
    intros E. destruct (Z.eq_dec (b_inner b) 0); [done|]. lia. }
  intros f c1 (Hf & Hr1 & Hk1). apply found_boundary in Hf as [Eu _]; [|apply sees_functional|done|done].
  pose proof (insertion_chunk_spec (R := R) inserted np nb Hins Hnb) as Hch. apply pwp_bind. unfold lift_piece, pwp at 1.
  destruct (insertion_chunk inserted np nb) as [[end_ chunk]|] eqn:Ech.
  - apply pwp_ret. exists end_, chunk. by split_and!.
  - intros HP'. destruct (HP HP') as [_ [text Hx]]. by apply (Hch text).
Qed.
End Quantum.
