(* ===== verification/TextRuns.v ===== *)
(** * Text edits of a build: runs of quanta

    A text edit is a run of quanta, each on the records the previous ones committed.  A run of
    removals takes a range out from its end; a run of insertions puts a text in chunk by chunk. *)
From stdpp Require Import prelude gmap strings.
From S2P Require Import Prelude.
From S2P Require Import Bytes.
From S2P Require Import ModelDigest.
From S2P Require Import SyndicParts.
From S2P Require Import BuildBudget.
From S2P Require Import MappingModel.
From S2P Require Import MappingProofs.
From S2P Require Import MappingProgram.
From S2P Require Import PieceModel.
From S2P Require Import PieceCodec.
From S2P Require Import PieceTree.
From S2P Require Import PieceDenote.
From S2P Require Import PieceSequence.
From S2P Require Import PieceEdit.
From S2P Require Import PieceRemove.
From S2P Require Import PieceSymbols.
From S2P Require Import PieceRoots.
From S2P Require Import PieceAlign.
From S2P Require Import TextSplice.
From S2P Require Import TextChunks.
From S2P Require Import TextRefine.

Lemma splice_length {A} a n (new l : list A) : 0 <= a -> 0 <= n -> a + n <= zlen l -> zlen (splice a n new l) = zlen l - n + zlen new.
Proof. intros. unfold splice. rewrite !length_app, length_take, length_drop. lia. Qed.

(** Two removals, the second right before the first. *)
Lemma splice_removals {A} a b c (l : list A) : 0 <= a <= b -> b <= c -> splice a (b - a) [] (splice b (c - b) [] l) = splice a (c - a) [] l.
Proof.
  intros. unfold splice. cbn [app]. replace (b + (c - b)) with c by lia. replace (a + (b - a)) with b by lia. replace (a + (c - a)) with c by lia.
  rewrite take_app, take_take, drop_app, Nat.min_l by lia. destruct (decide (Z.to_nat b <= length l)%nat) as [Hl|Hl].
  - rewrite length_take, Nat.min_l by done. rewrite (drop_ge (take (Z.to_nat b) l)) by (rewrite length_take; lia).
    replace (Z.to_nat a - Z.to_nat b)%nat with 0%nat by lia. rewrite take_0, Nat.sub_diag, drop_0, app_nil_r. done.
  - rewrite (drop_ge l (Z.to_nat c)), (drop_ge (take (Z.to_nat b) l)), take_nil, drop_nil, !app_nil_r by (rewrite ?length_take; lia). done.
Qed.

(** Two insertions, the second right behind the first. *)
Lemma splice_insertions {A} a (x y l : list A) : 0 <= a <= zlen l -> splice (a + zlen x) 0 y (splice a 0 x l) = splice a 0 (x ++ y) l.
Proof.
  intros. unfold splice. rewrite !Z.add_0_r. rewrite (app_assoc (take _ l) x (drop _ l)).
  assert (E : Z.to_nat (a + zlen x) = length (take (Z.to_nat a) l ++ x)) by (rewrite length_app, length_take; lia).
  rewrite E, take_app_length, drop_app_length. by rewrite <- !app_assoc.
Qed.

Section Runs.
Context {H : Type} `{Sha256Laws H} {R : Type}.
Abbreviation nodes := (DraftPieceRecordKey -> result (DraftPiecePrepareError R) (option DraftPieceNodeRecord)).
Abbreviation leaves := (DraftPieceRecordKey -> result (DraftPiecePrepareError R) (option DraftPieceLeafRecord)).
Context (draft session operation : list byte).

(** What the store alone holds. *)
Definition store_tables (ns : nodes) (ls : leaves) : tables := mkTables
  (fun id n => ns (mkRecordKey draft id) = Ok (Some n)) (fun id r => ls (mkRecordKey draft id) = Ok (Some r)).

(** A quantum starts with nothing emitted. *)
Definition quantum_begins (ns : nodes) (ls : leaves) (c : PieceContext) : Prop :=
  piece_context_ok ns ls draft session operation c /\ pb_nodes c = ∅ /\ pb_leaves c = ∅.

Lemma begins_extends ns ls c : quantum_begins ns ls c -> extends (store_tables ns ls) (seen ns ls draft c).
Proof. intros (_ & E1 & E2). split; cbn; intros id x Hx; right; rewrite ?E1, ?E2, lookup_empty; done. Qed.

(** The store takes in what a quantum emitted. *)
Record commits_pieces (c : PieceContext) (ns : nodes) (ls : leaves) (ns' : nodes) (ls' : leaves) : Prop := mkCommits {
  cm_nodes : forall id n, pb_nodes c !! id = Some n -> ns' (mkRecordKey draft id) = Ok (Some n);
  cm_old_nodes : forall id, pb_nodes c !! id = None -> ns' (mkRecordKey draft id) = ns (mkRecordKey draft id);
  cm_leaves : forall id r, pb_leaves c !! id = Some r -> ls' (mkRecordKey draft id) = Ok (Some r);
  cm_old_leaves : forall id, pb_leaves c !! id = None -> ls' (mkRecordKey draft id) = ls (mkRecordKey draft id);
  cm_others : forall k, rk_draft k <> draft -> ns' k = ns k /\ ls' k = ls k
}.

Lemma commits_extends c ns ls ns' ls' : commits_pieces c ns ls ns' ls' -> extends (seen ns ls draft c) (store_tables ns' ls').
Proof.
  intros [C1 C2 C3 C4 _]. split; cbn; intros id x [Hx|[Hn Hx]]; [by apply C1|by rewrite C2|by apply C3|by rewrite C4].
Qed.

Definition overlay {V} (emitted : gmap (list byte) V) (store : DraftPieceRecordKey -> result (DraftPiecePrepareError R) (option V))
    (k : DraftPieceRecordKey) : result (DraftPiecePrepareError R) (option V) :=
  if bool_decide (rk_draft k = draft) then match emitted !! rk_id k with Some v => Ok (Some v) | None => store k end else store k.

Lemma overlay_commits c ns ls : commits_pieces c ns ls (overlay (pb_nodes c) ns) (overlay (pb_leaves c) ls).
Proof.
  split; unfold overlay; cbn [rk_draft rk_id].
  1-4: by intros id; intros; rewrite bool_decide_true by done; match goal with E : _ !! _ = _ |- _ => rewrite E end.
  intros k Hk. by rewrite !bool_decide_false.
Qed.

(** What a quantum emits is valid, so that the store stays so. *)
Lemma commits_stores_ok c ns ls ns' ls' : piece_stores_ok ns ls draft session operation -> piece_context_ok ns ls draft session operation c ->
  commits_pieces c ns ls ns' ls' -> piece_stores_ok ns' ls' draft session operation.
Proof.
  intros [S1 S2 S3 S4] Hc [C1 C2 C3 C4 C5]. split; try done.
  - intros [d id] n Hn. destruct (decide (d = draft)) as [->|Hne]; [|rewrite (proj1 (C5 (mkRecordKey d id) Hne)) in Hn; by eapply S2].
    destruct (pb_nodes c !! id) as [n'|] eqn:E; [|rewrite (C2 _ E) in Hn; by eapply S2].
    rewrite (C1 _ _ E) in Hn. injection Hn as <-. by eapply pc_new_nodes.
  - intros [d id] r Hr. destruct (decide (d = draft)) as [->|Hne]; [|rewrite (proj2 (C5 (mkRecordKey d id) Hne)) in Hr; by eapply S3].
    destruct (pb_leaves c !! id) as [r'|] eqn:E; [|rewrite (C4 _ E) in Hr; by eapply S3].
    rewrite (C3 _ _ E) in Hr. injection Hr as <-. by eapply pc_new_leaves.
Qed.

(** ** Quanta *)

Record SequenceState := mkSequenceState {
  ss_nodes : nodes;
  ss_leaves : leaves;
  ss_root : option (list byte);
  ss_summary : DraftPieceSummary;
  ss_frontier : DraftPieceBuildFrontier
}.

(** The pieces of a state, in a valid store. *)
Definition holds (s : SequenceState) (ps : list piece) : Prop :=
  piece_stores_ok (ss_nodes s) (ss_leaves s) draft session operation
  /\ stored_sequence draft (store_tables (ss_nodes s) (ss_leaves s)) (ss_root s) (ss_summary s) ps.

Context (inserted : list DraftPiece).

Inductive text_quantum : SequenceState -> SequenceState -> Prop :=
  | text_quantum_step s c m r root' summary' frontier' c' ns' ls' :
      quantum_begins (ss_nodes s) (ss_leaves s) c -> bc_mapping (pb c) = Some m -> mapping_stage m = Stage.Ready r ->
      apply_ready (ss_nodes s) (ss_leaves s) (ss_root s) (ss_summary s) inserted (ss_frontier s) r c = Ok (root', summary', frontier', c') ->
      commits_pieces c' (ss_nodes s) (ss_leaves s) ns' ls' ->
      text_quantum s (mkSequenceState ns' ls' root' summary' frontier').

Lemma ready_false (ns : nodes) (ls : leaves) c l e : piece_context_ok ns ls draft session operation c -> piece_ready ns ls draft session operation False l e c.
Proof. intros. by split. Qed.

(** One removal. *)
Lemma delete_quantum s s' ps ord base ss se : text_quantum s s' -> holds s ps -> ss_frontier s = Applying ord base ss se ->
  boundary_in (checked_boundary ss) ps -> boundary_in (checked_boundary se) ps ->
  exists ps' start' end', holds s' ps' /\ ss_frontier s' = Applying ord base (durable_boundary start') (durable_boundary end')
    /\ boundary_in start' ps' /\ boundary_in end' ps' /\ unit_at start' ps' = unit_at (checked_boundary ss) ps
    /\ unit_at (checked_boundary ss) ps <= unit_at end' ps' < unit_at (checked_boundary se) ps
    /\ symbols ps' = splice (unit_at end' ps') (unit_at (checked_boundary se) ps - unit_at end' ps') [] (symbols ps).
Proof.
  intros [s0 c m r root' summary' frontier' c' ns' ls' Hb Em Es Ha Hcm] [Hst Hh] Ef Hbs Hbe. rewrite Ef in Ha.
  destruct (rs_kind r) eqn:Ek; try (by unfold apply_ready in Ha; rewrite Ek in Ha; unfold mbind, piecem_bind in Ha; repeat case_match).
  pose proof (pwp_apply_delete (ss_nodes s0) (ss_leaves s0) draft session operation False Hst c (ss_root s0) (ss_summary s0) ps m r inserted ord base ss se
    (ready_false _ _ _ _ _ (proj1 Hb)) (stored_sequence_mono _ _ _ _ _ _ (begins_extends _ _ _ Hb) Hh) Em Es Ek Hbs Hbe (fun F => match F with end)) as Hwp.
  unfold pwp in Hwp. rewrite Ha in Hwp. destruct Hwp as (a & ps' & start' & end' & X1 & _ & _ & _ & Xc & X2 & X3 & X4 & X5 & X6 & <- & X8 & _ & _). cbn [fst snd] in *.
  exists ps', start', end'. split_and!; try done; try lia. split; cbn; [by eapply commits_stores_ok|]. eapply stored_sequence_mono; [by eapply commits_extends|done].
Qed.

(** What is left to insert. *)
Definition text_of (p : DraftPiece) : list byte := match p with PieceText t => t | PieceMarker _ => [] end.
Definition remaining (np nb : Z) : list byte := drop (Z.to_nat nb) (concat (text_of <$> drop (Z.to_nat np) inserted)).

Lemma remaining_chunk np nb text end_ chunk : 0 <= np -> insertable inserted np nb text -> chunk_of text nb end_ chunk ->
  remaining np nb = chunk ++ remaining (if end_ =? zlen text then np + 1 else np) (if end_ =? zlen text then 0 else end_).
Proof.
  intros Hnp (Hl & _ & _) [Hr _ _ -> [Hz _] _]. unfold remaining. rewrite (drop_S _ _ _ Hl), fmap_cons. cbn [concat text_of].
  assert (Hd : drop (Z.to_nat nb) (text ++ concat (text_of <$> drop (S (Z.to_nat np)) inserted))
    = text_range text nb end_ ++ drop (Z.to_nat end_) (text ++ concat (text_of <$> drop (S (Z.to_nat np)) inserted))).
  { unfold text_range. rewrite !drop_app_le by lia. rewrite app_assoc. f_equal. rewrite <- (take_drop (Z.to_nat (end_ - nb)) (drop (Z.to_nat nb) text)) at 1.
    f_equal. rewrite drop_drop. f_equal. lia. }
  rewrite Hd. f_equal. destruct (Z.eqb_spec end_ (zlen text)) as [->|].
  - rewrite Nat2Z.id, drop_app_length. replace (Z.to_nat (np + 1)) with (S (Z.to_nat np)) by lia. done.
  - by rewrite (drop_S _ _ _ Hl), fmap_cons.
Qed.

(** One insertion. *)
Lemma insert_quantum s s' ps ord np nb base se : text_quantum s s' -> Forall fragment_piece inserted -> holds s ps -> ss_frontier s = Inserting ord np nb base se ->
  0 <= np -> 0 <= nb -> boundary_in (checked_boundary se) ps ->
  exists ps' np' nb' b' chunk, holds s' ps' /\ ss_frontier s' = Inserting ord np' nb' base (durable_boundary b') /\ 0 <= np' /\ 0 <= nb'
    /\ boundary_in b' ps' /\ unit_at b' ps' = unit_at (checked_boundary se) ps + zlen chunk /\ 0 < zlen chunk <= DRAFT_PIECE_TEXT_LEAF_MAX_BYTES
    /\ remaining np nb = chunk ++ remaining np' nb' /\ symbols ps' = splice (unit_at (checked_boundary se) ps) 0 (SymByte <$> chunk) (symbols ps).
Proof.
  intros [s0 c m r root' summary' frontier' c' ns' ls' Hb Em Es Ha Hcm] Hins [Hst Hh] Ef Hnp Hnb Hbe. rewrite Ef in Ha.
  destruct (rs_kind r) eqn:Ek; try (by unfold apply_ready in Ha; rewrite Ek in Ha; unfold mbind, piecem_bind in Ha; repeat case_match).
  assert (Hb0 : 0 <= b_rank (checked_boundary se) /\ 0 <= b_inner (checked_boundary se)) by (destruct Hbe as [[-> ?]|(? & ? & _ & ? & _)]; lia).
  pose proof (pwp_apply_insert (ss_nodes s0) (ss_leaves s0) draft session operation False Hst c (ss_root s0) (ss_summary s0) ps m r inserted ord np nb base se
    (ready_false _ _ _ _ _ (proj1 Hb)) (stored_sequence_mono _ _ _ _ _ _ (begins_extends _ _ _ Hb) Hh) Em Es Ek Hins (proj1 Hb0) (proj2 Hb0) Hnp Hnb (fun F => match F with end)) as Hwp.
  unfold pwp in Hwp. rewrite Ha in Hwp. destruct Hwp as (text & end_ & chunk & b' & X1 & X2 & _ & _ & _ & _ & _ & Xc & X6 & X7 & X8 & X9 & X10 & _ & _). cbn [fst snd] in *.
  pose proof X2 as [Hr _ _ _ [Hz Hm] _]. exists (insert_pieces (checked_boundary se) (LeafText chunk) ps), (if end_ =? zlen text then np + 1 else np), (if end_ =? zlen text then 0 else end_), b', chunk. split_and!; try done; try lia; try (case_match; lia).
  - split; cbn; [by eapply commits_stores_ok|]. eapply stored_sequence_mono; [by eapply commits_extends|done].
  - by apply remaining_chunk.
Qed.

(** ** Runs *)

Lemma delete_run n s s' : nsteps text_quantum n s s' -> forall ps ord base ss se, holds s ps -> ss_frontier s = Applying ord base ss se ->
  boundary_in (checked_boundary ss) ps -> boundary_in (checked_boundary se) ps ->
  unit_at (checked_boundary ss) ps <= unit_at (checked_boundary se) ps ->
  exists ps' start' end', holds s' ps' /\ ss_frontier s' = Applying ord base (durable_boundary start') (durable_boundary end')
    /\ boundary_in start' ps' /\ boundary_in end' ps' /\ unit_at start' ps' = unit_at (checked_boundary ss) ps
    /\ unit_at (checked_boundary ss) ps <= unit_at end' ps' /\ unit_at end' ps' + Z.of_nat n <= unit_at (checked_boundary se) ps
    /\ symbols ps' = splice (unit_at end' ps') (unit_at (checked_boundary se) ps - unit_at end' ps') [] (symbols ps).
Proof.
  induction 1 as [s|n s s1 s' Hq Hs IH]; intros ps ord base ss se Hh Ef Hbs Hbe Hle.
  - exists ps, (checked_boundary ss), (checked_boundary se). split_and!; try done; try lia; [rewrite Ef; by destruct ss, se|]. rewrite Z.sub_diag. by rewrite splice_nothing.
  - destruct (delete_quantum s s1 ps ord base ss se Hq Hh Ef Hbs Hbe) as (ps1 & st1 & en1 & Q1 & Q2 & Q3 & Q4 & Q5 & Q6 & Q7).
    assert (Ec : forall b, checked_boundary (durable_boundary b) = b) by (by intros []).
    destruct (IH ps1 ord base _ _ Q1 Q2) as (ps' & start' & end' & I1 & I2 & I3 & I4 & I5 & I6 & I7 & I8); rewrite ?Ec in *; try done; try lia.
    exists ps', start', end'. split_and!; try done; try lia. rewrite I8, Q7. pose proof (unit_at_bounds _ _ Hbs). apply splice_removals; lia.
Qed.

Lemma insert_run n s s' : nsteps text_quantum n s s' -> Forall fragment_piece inserted -> forall ps ord np nb base se, holds s ps -> ss_frontier s = Inserting ord np nb base se ->
  0 <= np -> 0 <= nb -> boundary_in (checked_boundary se) ps ->
  exists ps' np' nb' b' taken, holds s' ps' /\ ss_frontier s' = Inserting ord np' nb' base (durable_boundary b') /\ 0 <= np' /\ 0 <= nb'
    /\ boundary_in b' ps' /\ unit_at b' ps' = unit_at (checked_boundary se) ps + zlen taken
    /\ Z.of_nat n <= zlen taken /\ remaining np nb = taken ++ remaining np' nb'
    /\ symbols ps' = splice (unit_at (checked_boundary se) ps) 0 (SymByte <$> taken) (symbols ps).
Proof.
  intros Hn Hins. induction Hn as [s|n s s1 s' Hq Hs IH]; intros ps ord np nb base se Hh Ef Hnp Hnb Hbe.
  - exists ps, np, nb, (checked_boundary se), []. cbn [length app]. split_and!; try done; try lia; [rewrite Ef; by destruct se|]. by rewrite fmap_nil, splice_nothing.
  - destruct (insert_quantum s s1 ps ord np nb base se Hq Hins Hh Ef Hnp Hnb Hbe) as (ps1 & np1 & nb1 & b1 & chunk & Q1 & Q2 & Q3 & Q4 & Q5 & Q6 & Q7 & Q8 & Q9).
    assert (Ec : forall b, checked_boundary (durable_boundary b) = b) by (by intros []).
    destruct (IH ps1 ord np1 nb1 base _ Q1 Q2) as (ps' & np' & nb' & b' & taken & I1 & I2 & I3 & I4 & I5 & I6 & I7 & I8 & I9); rewrite ?Ec in *; try done.
    exists ps', np', nb', b', (chunk ++ taken). rewrite length_app. split_and!; try done; try lia.
    + by rewrite <- app_assoc, <- I8.
    + rewrite I9, Q9, Q6. pose proof (unit_at_bounds _ _ Hbe). rewrite fmap_app. rewrite <- (splice_insertions _ (SymByte <$> chunk)) by (rewrite symbols_length; lia).
      by rewrite length_fmap.
Qed.
End Runs.
