(* ===== verification/PieceTheorems.v ===== *)
(** * The piece tree of a draft and the text edits of a build: results

    What the records mean, what the operations on the tree do, what a quantum of a text edit
    does, and how the tree and the coordinate map stay together. *)
From stdpp Require Import prelude gmap strings.
From Stdlib Require Import Sorting.Sorted.
From S2P Require Import Prelude.
From S2P Require Import Bytes.
From S2P Require Import ModelDigest.
From S2P Require Import SyndicParts.
From S2P Require Import BuildBudget.
From S2P Require Import MappingModel.
From S2P Require Import MappingProofs.
From S2P Require Import MappingProgram.
From S2P Require Import MappingRefine.
From S2P Require Import PieceModel.
From S2P Require Import PieceCodec.
From S2P Require Import PieceTree.
From S2P Require Import PieceDenote.
From S2P Require Import PieceSequence.
From S2P Require Import PieceEdit.
From S2P Require Import PieceRemove.
From S2P Require Import PieceSymbols.
From S2P Require Import PieceLocate.
From S2P Require Import PieceRoots.
From S2P Require Import PieceAlign.
From S2P Require Import TextSplice.
From S2P Require Import TextChunks.
From S2P Require Import TextRefine.
From S2P Require Import TextRuns.

(** ** Records *)

(** A byte string decodes to a leaf or a node record exactly when the record's summary,
    digest and links are right and the string is its encoding. *)
Theorem piece_records_exact {H} `{Sha256 H} bs :
  (forall leaf, decode_leaf bs = Ok leaf <-> leaf_record_valid leaf /\ encode_leaf leaf = Ok bs)
  /\ (forall node, decode_piece_node bs = Ok node <-> node_record_valid node /\ encode_piece_node node = Ok bs).
Proof. split; intros; [apply decode_leaf_Ok|apply decode_piece_node_Ok]. Qed.

Lemma framed_link_valid {H} `{Sha256Laws H} qss r link : node_record_framed r -> Forall2 denotes_pieces qss (nr_children r) -> child_for_node r = Ok link ->
  denotes_pieces (concat qss) link.
Proof.
  intros (Hk & _ & _ & _ & Hdg) Hf Hc. destruct (child_for_node_sound qss r link Hf Hc) as (Hco & Ho & Hfit & E1 & E2 & Hmd).
  pose proof (forest_ok _ _ Hf). split; try done. apply (child_of_valid (concat qss)); try done; [|congruence]. rewrite E1. by destruct Hk.
Qed.

(** C22: every link of a tree is typed and counts the pieces below it, which are in marker order
    and within the machine integers; and a node over such links has a link of its own exactly
    when its pieces together are. *)
Theorem piece_links_typed {H} `{Sha256Laws H} draft T :
  (forall h root link ps, piece_tree draft T h root link ps -> denotes_pieces ps link)
  /\ (forall qss r, node_record_framed r -> Forall2 denotes_pieces qss (nr_children r) ->
       (is_ok (child_for_node r) = true <-> ordered (concat qss) /\ fits (concat qss))
       /\ forall link, child_for_node r = Ok link -> denotes_pieces (concat qss) link).
Proof.
  split; [apply piece_tree_denotes|]. intros qss r Hr Hf. split; [|intros link; by apply framed_link_valid]. split.
  - destruct (child_for_node r) as [link|] eqn:E; [|done]. intros _. by destruct (child_for_node_sound qss r link Hf E) as (_ & ? & ? & _).
  - intros [Ho Hfit]. assert (Hne : nr_children r <> []) by (destruct Hr as (_ & _ & Hl & _); intros E; rewrite E in Hl; cbn in Hl; lia).
    destruct (child_for_node_complete qss r Hf Hne Ho Hfit) as [link ->]. done.
Qed.

Section Positions.
Context {H : Type} `{Sha256Laws H} {R : Type}.

(** A position counted in units is a boundary of at most one piece. *)
Lemma unit_cut_ok b ps : Forall piece_ok ps -> boundary_in b ps -> cut_ok (CutUnit (unit_at b ps)) [] ps.
Proof.
  intros Hp Hb k v Hk Hh. cbn [app hits cut_inner] in *. apply lookup_lt_Some in Hk as Hlt.
  assert (Hr0 : 0 <= b_rank b) by (destruct Hb as [[_ ?]|(? & ? & _)]; lia). rewrite seq_units_cons in Hh. change (seq_units []) with 0 in Hh.
  assert (Hi0 : 0 <= b_inner b) by (destruct Hb as [[-> _]|(? & _ & _ & ? & _)]; lia).
  pose proof (take_S_r _ _ _ Hk) as Es. assert (Eu : seq_units (take (S k) ps) = seq_units (take k ps) + zlen (piece_symbols v)).
  { rewrite Es, seq_units_app, seq_units_cons. change (seq_units []) with 0. lia. }
  destruct (lt_eq_lt_dec k (Z.to_nat (b_rank b))) as [[Hlt'|Eq]|Hgt].
  - pose proof (take_le_units (S k) (Z.to_nat (b_rank b)) ps ltac:(lia)). unfold unit_at in Hh. lia.
  - subst k. unfold unit_at. replace (_ - _) with (b_inner b) by lia. destruct Hb as [[-> _]|(t & _ & Ht & Hi & Hc)].
    + destruct v as [x|]; cbn; [split; [lia|done]|done].
    + rewrite Hk in Ht. injection Ht as ->. cbn. split; [lia|done].
  - pose proof (unit_inner b ps Hp Hb ltac:(lia)). pose proof (take_le_units (S (Z.to_nat (b_rank b))) k ps ltac:(lia)). lia.
Qed.

(** What a fact says of its boundary. *)
Definition fact_exact (f : UnitFact) (ps : list piece) : Prop :=
  let b := uf_boundary f in
  boundary_in b ps /\ uf_unit f = unit_at b ps /\ uf_logical_offset f = seq_bytes (take (Z.to_nat (b_rank b)) ps) + b_inner b
  /\ uf_marker_ordinal f = seq_markers (take (Z.to_nat (b_rank b)) ps)
  /\ (uf_leaf f = None <-> b = mkBound (zlen ps) 0)
  /\ (forall r, uf_leaf f = Some r -> ps !! Z.to_nat (b_rank b) = Some (lr_value r)).

Lemma found_unit draft T t ps u f : functional T -> sequence_tree draft T t ps -> found draft T t ps (CutUnit u) f -> uf_unit f = u /\ fact_exact f ps.
Proof.
  intros HT Ht [[-> ->]|(x & -> & rs & k & r & Hrs & Hk & Hh & Hi & ->)].
  - unfold fact_exact, unit_at. cbn. rewrite Nat2Z.id, firstn_all. split_and!; try done; try lia. left. cbn. lia.
  - destruct Ht as (_ & h & Eh & Ht). cbn [height_of from_option] in Hrs. rewrite Eh, Nat2Z.id in Hrs. rewrite <- (leaves_values _ _ _ _ _ _ _ HT Ht Hrs) in *.
    assert (Hp : ps !! k = Some (lr_value r)) by (rewrite (leaves_values _ _ _ _ _ _ _ HT Ht Hrs), list_lookup_fmap, Hk; done).
    apply lookup_lt_Some in Hp as Hlt. cbn [app hits cut_inner] in *. rewrite seq_units_cons in Hh. change (seq_units []) with 0 in Hh.
    set (inner := u - seq_units (take k ps)) in *. unfold leaf_fact, fact_exact. cbn [cut_inner uf_boundary uf_unit uf_logical_offset uf_marker_ordinal uf_leaf]. fold inner.
    assert (Eb : fact_boundary (lr_value r) (zlen (take k ps)) inner = mkBound (Z.of_nat k) inner /\ boundary_in (mkBound (Z.of_nat k) inner) ps).
    { rewrite length_take, Nat.min_l by lia. destruct (lr_value r) as [x'|mk]; cbn [fact_boundary piece_symbols inner_ok] in *.
      - rewrite length_fmap in Hh. rewrite (proj2 (Z.eqb_neq _ _)) by lia. split; [done|]. destruct (Z.eq_dec inner 0) as [E|E]; [left; cbn; lia|].
        right. exists x'. cbn. rewrite Nat2Z.id. split_and!; try done; try lia; tauto.
      - split; [done|]. left. cbn. lia. }
    destruct Eb as [-> Hb]. unfold unit_at. cbn [b_rank b_inner]. rewrite Nat2Z.id. split_and!; try done; try lia.
    + split; [done|]. intros [= E]. lia.
    + by intros r' [= <-].
Qed.
End Positions.

(** Looking up a position counted in units finds the boundary there, with the bytes and
    markers before it and the leaf behind it; it fails only if the position is inside a
    character or past the end, or if the resources do not suffice. *)
Theorem sequence_at_unit_exact {H} `{Sha256Laws H} {R} node_store leaf_store draft session operation t ps u (c : PieceContext) :
  piece_stores_ok (R := R) node_store leaf_store draft session operation -> piece_context_ok node_store leaf_store draft session operation c ->
  sequence_tree draft (seen node_store leaf_store draft c) t ps -> 0 <= u ->
  match sequence_at_unit node_store leaf_store t u c with
  | Ok (f, c') => uf_unit f = u /\ fact_exact f ps /\ kept c c'
  | Err _ => ~ (piece_able (S (height_of t)) 0 c /\ exists b, boundary_in b ps /\ unit_at b ps = u)
  end.
Proof.
  intros Hst Hc Ht Hu. set (P := piece_able (S (height_of t)) 0 c /\ exists b, boundary_in b ps /\ unit_at b ps = u).
  assert (Hr : piece_ready node_store leaf_store draft session operation P (S (height_of t) + 0) 0 c) by (split; [done|]; rewrite Nat.add_0_r; by intros [? _]).
  assert (HP : P -> u <= seq_units ps /\ cut_ok (CutUnit u) [] ps).
  { intros [_ (b & Hb & <-)]. split; [by apply unit_at_bounds|]. apply unit_cut_ok; [by eapply tree_ok|done]. }
  pose proof (pwp_locate node_store leaf_store draft session operation P Hst 0 0 c t ps (CutUnit u) Hr Ht Hu HP) as Hwp.
  unfold pwp, sequence_at_unit in *. destruct (locate _ _ _ _ _) as [[f c']|]; [|done]. destruct Hwp as (Hf & _ & Hk).
  destruct (found_unit draft _ t ps u f (sees_functional _ _ _ c) Ht Hf). by split_and!.
Qed.

(** ** Markers *)

Lemma edit_valid_marker {H} `{Sha256Laws H} draft T h root link expected rank start end_ ps : functional T -> piece_tree draft T h root link ps ->
  edit_valid draft T h link (Some expected) rank start end_ ps ->
  exists m, ps !! Z.to_nat rank = Some (LeafMarker m) /\ pm_id m = oc_marker_id expected /\ pm_label m = oc_label expected
    /\ pm_asset m = oc_asset_id expected /\ pm_order m = oc_order_key expected.
Proof.
  intros HT Ht (r & (rs & Hrs & Hl) & Hm). pose proof (leaves_values _ _ _ _ _ _ _ HT Ht Hrs) as ->. rewrite list_lookup_fmap, Hl. cbn.
  unfold occurrence_matches in Hm. destruct (lr_value r) as [|m]; [done|]. bool_facts. eauto 10.
Qed.

(** Removing a marker takes out exactly the expected one, at its rank, and is let through
    only if the map has that removal ready; it fails only if the marker there is not the
    expected one, the markers left would be out of order, the removal is not the ready one, or
    the resources do not suffice. *)
Theorem remove_marker_exact {H} `{Sha256Laws H} {R} node_store leaf_store draft session operation t ps rank expected (c : PieceContext) :
  piece_stores_ok (R := R) node_store leaf_store draft session operation -> piece_context_ok node_store leaf_store draft session operation c ->
  sequence_tree draft (seen node_store leaf_store draft c) (Some t) ps -> 0 <= rank ->
  let T := seen node_store leaf_store draft c in
  let expects := edit_valid draft T (height_of (Some t)) (sr_link t) (Some expected) rank 0 None ps in
  let at_ := seq_units (take (Z.to_nat rank) ps) in
  match remove_marker node_store leaf_store t rank expected c with
  | Ok (t', c') => expects /\ verified (R := R) c MarkerDelete at_ 1 0
      /\ (exists m, ps !! Z.to_nat rank = Some (LeafMarker m) /\ pm_id m = oc_marker_id expected)
      /\ exists ps', sequence_tree draft (seen node_store leaf_store draft c') t' ps' /\ symbols ps' = splice at_ 1 [] (symbols ps)
           /\ grown node_store leaf_store draft c c'
  | Err _ => ~ (piece_able (text_loads (sr_height t)) (text_emitted (sr_height t)) c /\ sr_height t <= DRAFT_PIECE_MAX_HEIGHT /\ expects
                /\ verified (R := R) c MarkerDelete at_ 1 0 /\ ordered (delete (Z.to_nat rank) ps))
  end.
Proof.
  intros Hst Hc Ht Hrk T expects at_. set (P := _ /\ _ /\ _). pose proof (sees_functional node_store leaf_store draft c) as HT.
  assert (Hdel : edit_pieces (Some expected) rank 0 None ps = delete (Z.to_nat rank) ps).
  { unfold edit_pieces, edit_rest, replace_piece. rewrite delete_take_drop. done. }
  assert (Hat : edit_at (Some expected) rank 0 ps = at_) by (unfold edit_at; lia).
  assert (Hr : piece_ready node_store leaf_store draft session operation P (S (2 * height_of (Some t)) + 0) (S (3 * height_of (Some t)) + 0) c).
  { split; [done|]. intros (Hab & _). eapply piece_able_le; [| |exact Hab]; unfold text_loads, text_emitted; cbn [height_of from_option]; lia. }
  assert (Hwp : pwp (R := R) P (remove_marker node_store leaf_store t rank expected) c (fun t' c' => expects /\ verified (R := R) c MarkerDelete at_ 1 0
    /\ (exists m, ps !! Z.to_nat rank = Some (LeafMarker m) /\ pm_id m = oc_marker_id expected)
    /\ exists ps', sequence_tree draft (seen node_store leaf_store draft c') t' ps' /\ symbols ps' = splice at_ 1 [] (symbols ps) /\ grown node_store leaf_store draft c c')).
  { apply (pwp_edit_root _ _ _ _ _ _ Hst (Some expected) 0 None ltac:(lia) 0 0 c t ps rank); try done; unfold P; rewrite ?Hdel, ?Hat; try tauto.
    intros t' c' Hv Hver Ht' _ _ Hg. pose proof Ht as (_ & h & Eh & Htr). pose proof Hv as Hv'. cbn [height_of from_option] in Hv'. rewrite Eh, Nat2Z.id in Hv'.
    destruct (edit_valid_marker _ _ _ _ _ _ _ _ _ _ HT Htr Hv') as (m & Hm & Hid & _). split_and!; try done; [by exists m|].
    exists (delete (Z.to_nat rank) ps). split_and!; try done. rewrite <- Hdel, <- Hat. by eapply marker_symbols. }
  unfold pwp in Hwp. by destruct (remove_marker _ _ _ _ _ _) as [[t' c']|].
Qed.

(** ** Text edits *)

(** A quantum of a text edit.  When the map has an insertion ready, the next chunk of the
    text goes in at the frontier; when it has a removal ready, the end of the range goes out;
    the new roots stand for the edited sequence, the map made for the edit is the current one,
    and the frontier is behind the chunk or at what is left of the range.  The quantum fails
    only if the edit is not one of the sequence or not the ready one, or if the resources do
    not suffice. *)
Theorem apply_ready_exact {H} `{Sha256Laws H} {R} node_store leaf_store draft session operation root summary ps m r inserted (c : PieceContext) :
  piece_stores_ok (R := R) node_store leaf_store draft session operation -> piece_context_ok node_store leaf_store draft session operation c ->
  stored_sequence draft (seen node_store leaf_store draft c) root summary ps -> bc_mapping (pb c) = Some m -> mapping_stage m = Stage.Ready r ->
  Forall fragment_piece inserted ->
  (forall ord np nb base se, let b := checked_boundary se in
     rs_kind r = TextInsert -> 0 <= b_rank b -> 0 <= b_inner b -> 0 <= np -> 0 <= nb ->
     match apply_ready node_store leaf_store root summary inserted (Inserting ord np nb base se) r c with
     | Ok (out, c') => text_inserted node_store leaf_store draft session operation c' ps m r inserted ord np nb base se out
     | Err _ => ~ (piece_able (text_loads (sm_height summary)) (text_emitted (sm_height summary)) c /\ insert_possible (R := R) ps r inserted np nb b (sm_height summary))
     end)
  /\ (forall ord base ss se, let start := checked_boundary ss in let end_ := checked_boundary se in
     rs_kind r = TextDelete -> boundary_in start ps -> boundary_in end_ ps ->
     match apply_ready node_store leaf_store root summary inserted (Applying ord base ss se) r c with
     | Ok (out, c') => text_deleted node_store leaf_store draft session operation c' ps m r ord base ss se out
     | Err _ => ~ (piece_able (text_loads (sm_height summary)) (text_emitted (sm_height summary)) c /\ delete_possible (R := R) ps r start end_ (sm_height summary))
     end).
Proof.
  intros Hst Hc Hs Em Es Hins. split.
  - intros ord np nb base se b Ek Hb Hi Hnp Hnb. set (P := _ /\ _).
    pose proof (pwp_apply_insert node_store leaf_store draft session operation P Hst c root summary ps m r inserted ord np nb base se
      (mkPieceReady _ _ _ _ _ _ _ _ _ Hc (fun HP => proj1 HP)) Hs Em Es Ek Hins Hb Hi Hnp Hnb (fun HP => proj2 HP)) as Hwp.
    unfold pwp in Hwp. by destruct (apply_ready _ _ _ _ _ _ _ _) as [[out c']|].
  - intros ord base ss se start end_ Ek Hbs Hbe. set (P := _ /\ _).
    pose proof (pwp_apply_delete node_store leaf_store draft session operation P Hst c root summary ps m r inserted ord base ss se
      (mkPieceReady _ _ _ _ _ _ _ _ _ Hc (fun HP => proj1 HP)) Hs Em Es Ek Hbs Hbe (fun HP => proj2 HP)) as Hwp.
    unfold pwp in Hwp. by destruct (apply_ready _ _ _ _ _ _ _ _) as [[out c']|].
Qed.

(** A splice and the ready splice made of it. *)
Definition ready_for (sp : DraftPieceMappingSplice) (r : DraftPieceMappingReadySplice) : Prop :=
  rs_kind r = ms_kind sp /\ rs_a r = ms_a sp /\ rs_removed r = ms_removed sp /\ rs_inserted r = ms_inserted sp.

(** C21: text edits keep the map aligned: if the units of the current map relate the base to the
    working sequence, the units of the map that becomes current relate it to the edited one, and
    a unit the map still copies is the same byte or marker in both. *)
Theorem text_edits_aligned {H} `{Sha256Laws H} {R} node_store leaf_store draft session operation root summary ps m r sp inserted frontier root' summary' frontier' us base
    (c c' : PieceContext) :
  piece_stores_ok (R := R) node_store leaf_store draft session operation -> piece_context_ok node_store leaf_store draft session operation c ->
  stored_sequence draft (seen node_store leaf_store draft c) root summary ps -> bc_mapping (pb c) = Some m -> mapping_stage m = Stage.Ready r ->
  ready_for sp r -> Forall fragment_piece inserted ->
  match frontier with
  | Inserting _ np nb _ se => 0 <= np /\ 0 <= nb /\ 0 <= bd_rank se /\ 0 <= bd_inner se
  | Applying _ _ ss se => boundary_in (checked_boundary ss) ps /\ boundary_in (checked_boundary se) ps
  | _ => True
  end ->
  apply_ready node_store leaf_store root summary inserted frontier r c = Ok (root', summary', frontier', c') ->
  aligned us base (symbols ps) ->
  exists ps', stored_sequence draft (seen node_store leaf_store draft c') root' summary' ps'
    /\ aligned (spliced sp us) base (symbols ps') /\ targets (spliced sp us) = seq_units ps'
    /\ forall x t, 0 <= x -> ref_cut true x 0 (spliced sp us) = Some t -> exists s, base !! Z.to_nat x = Some s /\ symbols ps' !! Z.to_nat t = Some s.
Proof.
  intros Hst Hc Hs Em Es (K1 & K2 & K3 & K4) Hins Hfr Ha Hal.
  assert (Hex : exists ps', stored_sequence draft (seen node_store leaf_store draft c') root' summary' ps' /\ aligned (spliced sp us) base (symbols ps')).
  { pose proof (mkPieceReady _ _ _ _ _ _ (text_loads (sm_height summary)) (text_emitted (sm_height summary)) _ Hc (fun F : False => match F with end)) as Hr.
    destruct frontier as [| | |ord bs ss se|ord np nb bs se| |]; try (by unfold apply_ready, mbind, piecem_bind in Ha; repeat case_match).
    - destruct (rs_kind r) eqn:Ek; try (by unfold apply_ready, mbind, piecem_bind in Ha; rewrite Ek in Ha; repeat case_match).
      pose proof (pwp_apply_delete _ _ _ _ _ False Hst c root summary ps m r inserted ord bs ss se Hr Hs Em Es Ek (proj1 Hfr) (proj2 Hfr) (fun F => match F with end)) as Hwp.
      unfold pwp in Hwp. rewrite Ha in Hwp. destruct Hwp as (a & ps' & st & en & X1 & X2 & X3 & X4 & _ & X5 & X6 & _). exists ps'. split; [done|].
      unfold spliced. rewrite <- K2, <- K3, X2, X3, (proj2 (Z.ltb_lt _ _)) by lia. rewrite X6. apply aligned_delete; [done|lia].
    - destruct (rs_kind r) eqn:Ek; try (by unfold apply_ready, mbind, piecem_bind in Ha; rewrite Ek in Ha; repeat case_match).
      destruct Hfr as (F1 & F2 & F3 & F4).
      pose proof (pwp_apply_insert _ _ _ _ _ False Hst c root summary ps m r inserted ord np nb bs se Hr Hs Em Es Ek Hins F3 F4 F1 F2 (fun F => match F with end)) as Hwp.
      unfold pwp in Hwp. rewrite Ha in Hwp. destruct Hwp as (text & end_ & chunk & b' & _ & Hch & _ & Hb & X1 & X2 & X3 & _ & X4 & X5 & _). eexists. split; [exact X4|].
      unfold spliced. rewrite <- K2, <- K3, <- K4, X1, X2, X3, X5. cbn [Z.ltb Z.compare]. rewrite Nat2Z.id, <- (length_fmap SymByte chunk).
      apply aligned_insert; [done|]. rewrite symbols_length. by apply unit_at_bounds. }
  destruct Hex as (ps' & Hs' & Hal'). exists ps'. split_and!; try done.
  - rewrite (proj2 (aligned_counts _ _ _ Hal')). apply symbols_length.
  - intros x t Hx Hcut. destruct (aligned_cut _ _ _ _ _ _ _ Hal' Hx Hcut) as (_ & _ & _ & _ & _ & _ & _ & Hc'). rewrite Z.sub_0_r in Hc'. by apply Hc'.
Qed.

(** The proof stages of a text edit ask the map for the very splice the edit will make: with
    that splice ready, and enough resources, the quantum removes what the proof named. *)
Theorem deletion_proof_agrees {H} `{Sha256Laws H} {R} node_store leaf_store draft session operation root summary ps t start end_ sp m r inserted ord base (c c1 c2 : PieceContext) :
  piece_stores_ok (R := R) node_store leaf_store draft session operation ->
  piece_context_ok node_store leaf_store draft session operation c1 -> sequence_tree draft (seen node_store leaf_store draft c1) t ps ->
  boundary_in start ps -> boundary_in end_ ps ->
  deletion_proof node_store leaf_store t start end_ c1 = Ok (sp, c2) ->
  piece_context_ok node_store leaf_store draft session operation c -> stored_sequence draft (seen node_store leaf_store draft c) root summary ps ->
  bc_mapping (pb c) = Some m -> mapping_stage m = Stage.Ready r -> ready_for sp r ->
  m_target (root_measure (rs_target r)) = seq_units ps - ms_removed sp ->
  piece_able (text_loads (sm_height summary)) (text_emitted (sm_height summary)) c -> sm_height summary <= DRAFT_PIECE_MAX_HEIGHT ->
  Sorted symbol_meets (splice (ms_a sp) (ms_removed sp) [] (symbols ps)) ->
  exists root' summary' frontier' c' ps',
    apply_ready node_store leaf_store root summary inserted (Applying ord base (durable_boundary start) (durable_boundary end_)) r c = Ok (root', summary', frontier', c')
    /\ stored_sequence draft (seen node_store leaf_store draft c') root' summary' ps' /\ symbols ps' = splice (ms_a sp) (ms_removed sp) [] (symbols ps)
    /\ unit_at start ps <= ms_a sp < unit_at end_ ps /\ ms_a sp + ms_removed sp = unit_at end_ ps.
Proof.
  intros Hst Hc1 Ht Hbs Hbe Hpf Hc Hs Em Es (K1 & K2 & K3 & K4) Hm Hab Hh Hord.
  pose proof (pwp_deletion_proof _ _ _ _ _ False Hst 0 0 c1 t ps start end_ (mkPieceReady _ _ _ _ _ _ _ _ _ Hc1 (fun F : False => match F with end)) Ht Hbs Hbe
    (fun F => match F with end)) as Hwp. unfold pwp in Hwp. rewrite Hpf in Hwp. destruct Hwp as (Hlt & (first & last & ns & ne & text & Hpl & Hcut & Ea & Er) & Ek & Ei & _).
  pose proof (tree_ok _ _ _ _ Ht) as Hok. destruct (slice_plan_exact start end_ ps text _ first last ns ne Hok Hbs Hbe Hlt Hpl Hcut) as (X1 & X2 & _).
  pose proof (slice_shape start end_ ps text _ first last ns ne Hbe Hpl Hcut) as X3. rewrite <- Ea in X1, X2, X3. rewrite <- Er in X3.
  replace (unit_at end_ ps - ms_a sp) with (ms_removed sp) in X2 by lia.
  assert (Ec : forall b, checked_boundary (durable_boundary b) = b) by (by intros []).
  assert (Hposs : delete_possible (R := R) ps r start end_ (sm_height summary)).
  { split; try done.
    - exists text. assert (0 <= b_inner start) by (destruct Hbs as [[-> _]|(? & _ & _ & ? & _)]; lia). assert (0 <= b_rank end_) by (destruct Hbe as [[_ ?]|(? & ? & _)]; lia).
      destruct (plan_first _ _ _ _ _ _ _ Hpl) as (_ & _ & <-); [done|done|]. by destruct Hcut.
    - intros rank' first' last' ns' ne' Hpl'. rewrite Hpl in Hpl'. injection Hpl' as <- <- <- <- <-. rewrite K2, K3, K4, Ea, Er, Hm. split_and!; try done; [|apply symbols_ordered; by rewrite X2].
      rewrite <- !symbols_length, X2. pose proof (unit_at_bounds _ _ Hbe). pose proof (unit_at_bounds _ _ Hbs). rewrite splice_length; rewrite ?symbols_length; cbn [length]; lia. }
  pose proof (pwp_apply_delete _ _ _ _ _ True Hst c root summary ps m r inserted ord base (durable_boundary start) (durable_boundary end_)
    (mkPieceReady _ _ _ _ _ _ _ _ _ Hc (fun _ => Hab)) Hs Em Es ltac:(congruence) ltac:(by rewrite Ec) ltac:(by rewrite Ec) ltac:(rewrite !Ec; by intros _)) as Hap.
  unfold pwp in Hap. destruct (apply_ready _ _ _ _ _ _ _ _) as [[[[root' summary'] frontier'] c']|]; [|by destruct Hap].
  destruct Hap as (a & ps' & st & en & Y1 & Y2 & Y3 & Y4 & _ & Y5 & Y6 & _). rewrite !Ec in *. exists root', summary', frontier', c', ps'. split_and!; try done; try lia.
  rewrite Y6. f_equal; lia.
Qed.

(** C20: a run of removals, each on what the last committed, takes the range out from its end, at
    least one unit a quantum, and keeps where it starts; so it is over after at most as many
    quanta as the range has units, and when the boundaries meet, exactly the range is gone. *)
Theorem text_removal_run {H} `{Sha256Laws H} {R} draft session operation inserted n s s' ps ord base ss se :
  nsteps (text_quantum (R := R) draft session operation inserted) n s s' -> holds draft session operation s ps -> ss_frontier s = Applying ord base ss se ->
  let start := checked_boundary ss in let end_ := checked_boundary se in
  boundary_in start ps -> boundary_in end_ ps -> unit_at start ps <= unit_at end_ ps ->
  Z.of_nat n <= unit_at end_ ps - unit_at start ps
  /\ exists ps' start' end', holds draft session operation s' ps' /\ ss_frontier s' = Applying ord base (durable_boundary start') (durable_boundary end')
    /\ symbols ps' = splice (unit_at end' ps') (unit_at end_ ps - unit_at end' ps') [] (symbols ps) /\ unit_at start' ps' = unit_at start ps
    /\ unit_at start ps <= unit_at end' ps' <= unit_at end_ ps - Z.of_nat n
    /\ (start' = end' -> symbols ps' = splice (unit_at start ps) (unit_at end_ ps - unit_at start ps) [] (symbols ps)).
Proof.
  intros Hn Hh Ef start end_ Hbs Hbe Hle.
  destruct (delete_run _ _ _ _ n s s' Hn ps ord base ss se Hh Ef Hbs Hbe Hle) as (ps' & start' & end' & I1 & I2 & I3 & I4 & I5 & I6 & I7 & I8).
  split; [unfold start, end_; lia|]. exists ps', start', end'. split_and!; try done; [unfold end_; lia|]. intros E. rewrite I8. rewrite <- E, I5. done.
Qed.

(** C19: a run of insertions puts the texts of the fragment in, in order and at the place where
    it started, at least one byte a quantum; so it is over after at most as many quanta as the
    texts have bytes, and when the frontier is past them, exactly they are in. *)
Theorem text_insertion_run {H} `{Sha256Laws H} {R} draft session operation inserted n s s' ps ord np nb base se :
  nsteps (text_quantum (R := R) draft session operation inserted) n s s' -> Forall fragment_piece inserted -> holds draft session operation s ps ->
  ss_frontier s = Inserting ord np nb base se -> 0 <= np -> 0 <= nb -> let b := checked_boundary se in boundary_in b ps ->
  Z.of_nat n <= zlen (remaining inserted np nb)
  /\ exists ps' np' nb' b' taken, holds draft session operation s' ps' /\ ss_frontier s' = Inserting ord np' nb' base (durable_boundary b')
    /\ remaining inserted np nb = taken ++ remaining inserted np' nb' /\ boundary_in b' ps' /\ unit_at b' ps' = unit_at b ps + zlen taken
    /\ symbols ps' = splice (unit_at b ps) 0 (SymByte <$> taken) (symbols ps)
    /\ (np' = zlen inserted -> nb' = 0 -> symbols ps' = splice (unit_at b ps) 0 (SymByte <$> remaining inserted np nb) (symbols ps)).
Proof.
  intros Hn Hins Hh Ef Hnp Hnb b Hb.
  destruct (insert_run _ _ _ _ n s s' Hn Hins ps ord np nb base se Hh Ef Hnp Hnb Hb) as (ps' & np' & nb' & b' & taken & I1 & I2 & I3 & I4 & I5 & I6 & I7 & I8 & I9).
  split; [rewrite I8, length_app; lia|]. exists ps', np', nb', b', taken. split_and!; try done. intros -> ->. rewrite I9, I8. do 2 f_equal.
  unfold remaining. rewrite Nat2Z.id, drop_all. cbn. by rewrite app_nil_r.
Qed.

(** ** Examples *)

(** A hasher that keeps what it is fed from byte 117 on: record identities then start with their
    ordinal. *)
Inductive tail_hash := Tail (bs : list byte).
Definition tail_bytes (h : tail_hash) : list byte := match h with Tail bs => bs end.
#[global] Instance tail_sha : Sha256 tail_hash := {|
  sha_new := Tail [];
  sha_update h bs := Tail (tail_bytes h ++ bs);
  sha_finalize h := take 32 (drop 117 (tail_bytes h) ++ replicate 32 x00)
|}.
#[global] Instance tail_laws : Sha256Laws tail_hash.
Proof.
  refine {| sha256 bs := take 32 (drop 117 bs ++ replicate 32 x00); absorbed := tail_bytes |}; try done.
  intros bs. rewrite length_take, length_app, length_replicate. lia.
Defined.

Abbreviation sample_draft := (sample_part x01).
Abbreviation sample_session := (sample_part x02).
Abbreviation sample_operation := (sample_part x03).
Abbreviation sample_id o dg := (piece_record_id (H := tail_hash) sample_draft sample_session sample_operation o dg).

Lemma tail_drop (pre x y z : list byte) : length pre = 117%nat -> drop 117 (((pre ++ x) ++ y) ++ z) = x ++ y ++ z.
Proof. intros E. rewrite <- !app_assoc. by apply drop_app_length'. Qed.

Lemma sample_id_head o dg : take 8 (sample_id o dg) = e_u64 o.
Proof.
  unfold piece_record_id, digest_bytes. cbn [fold_left sha_finalize tail_sha]. unfold update_part. cbn [sha_update sha_new tail_sha tail_bytes].
  rewrite tail_drop; [|rewrite !length_app; unfold e_u64; rewrite !length_be_bytes; reflexivity].
  rewrite !take_take, <- app_assoc. apply take_app_length'. unfold e_u64. by rewrite length_be_bytes.
Qed.

Abbreviation sample_nodes_type := (DraftPieceRecordKey -> result (DraftPiecePrepareError unit) (option DraftPieceNodeRecord)).
Abbreviation sample_leaves_type := (DraftPieceRecordKey -> result (DraftPiecePrepareError unit) (option DraftPieceLeafRecord)).
Definition no_nodes : sample_nodes_type := fun _ => Ok None.
Definition no_leaves : sample_leaves_type := fun _ => Ok None.

Lemma sample_ids o o' dg dg' : is_u64 o -> is_u64 o' -> sample_id o dg = sample_id o' dg' -> o = o'.
Proof.
  intros Ho Ho' E. apply (f_equal (take 8)) in E. rewrite !sample_id_head in E. unfold e_u64 in E.
  rewrite <- (be_u64 o Ho), <- (be_u64 o' Ho'). by rewrite E.
Qed.

Lemma empty_stores_ok : piece_stores_ok (H := tail_hash) no_nodes no_leaves sample_draft sample_session sample_operation.
Proof. split; [done|done|done|exact sample_ids]. Qed.

Definition sample_pieces (o : Z) (m : option DraftPieceBuildMapping) : PieceContext :=
  mkPieces (mkBuild sample_draft (Some sample_session) sample_operation o 0 m [] (Some fresh_budget)) ∅ ∅ ∅ ∅.

(** A context for the quantum after one that was committed. *)
Lemma sample_begins (ns : sample_nodes_type) (ls : sample_leaves_type) o m : piece_stores_ok (H := tail_hash) ns ls sample_draft sample_session sample_operation -> is_u64 o ->
  (forall o' dg, is_u64 o' -> o <= o' -> ns (mkRecordKey sample_draft (sample_id o' dg)) = Ok None /\ ls (mkRecordKey sample_draft (sample_id o' dg)) = Ok None) ->
  quantum_begins (H := tail_hash) sample_draft sample_session sample_operation ns ls (sample_pieces o m).
Proof.
  intros Hst Ho Hf. split; [|done]. split; cbn; try done.
  - intros a [= <-]. split_and!; [apply fresh_limits|split..].
    + intros k n Hn. by eapply ps_nodes.
    + intros k ek e _ _ Hl. cbn in Hl. by rewrite lookup_empty in Hl.
    + intros k n Hn. by eapply ps_leaves.
    + intros k ek e _ _ Hl. cbn in Hl. by rewrite lookup_empty in Hl.
  - intros o' dg Hu Hle. destruct (Hf o' dg Hu Hle). by rewrite !lookup_empty.
Qed.

Lemma sample_pieces_able l e o m : (l + e <= 100)%nat -> 0 <= o <= 1000 -> piece_able l e (sample_pieces o m).
Proof.
  intros Hle Ho. split; cbn; try lia. intros a [= <-]. unfold room. cbn.
  change MAX_POINT_ATTEMPTS with 512. change MAX_STORED_STRUCTURES with 256. change MAX_ENCODED_BYTES with 4194304. change PIECE_COST with 33032. lia.
Qed.

Definition sample_mapping (units : Z) (r : DraftPieceMappingReadySplice) : DraftPieceBuildMapping :=
  mkBuildMapping (if units =? 0 then MapEmpty else MapIdentity units) 0 None (Stage.Ready r).

Abbreviation sample_ok ns ls := (piece_stores_ok (H := tail_hash) (R := unit) ns ls sample_draft sample_session sample_operation).
Abbreviation sample_context_ok ns ls := (piece_context_ok (H := tail_hash) (R := unit) ns ls sample_draft sample_session sample_operation).

(** [hello] goes into an empty draft. *)
Definition hello : list byte := bytes_of_string "hello".
Definition sample_insert : DraftPieceMappingReadySplice := mkReadySplice TextInsert 0 0 5 (MapIdentity 5).
Definition sample_first : PieceContext := sample_pieces 1 (Some (sample_mapping 0 sample_insert)).
Definition at_start : DraftPieceBuildBoundary := mkBoundary 0 0.
Abbreviation sample_empty := (empty_summary (H := tail_hash)).
Abbreviation first_frontier := (Inserting 1 0 0 at_start at_start).

Lemma first_begins : quantum_begins (H := tail_hash) sample_draft sample_session sample_operation no_nodes no_leaves sample_first.
Proof. apply sample_begins; [apply empty_stores_ok|by split|done]. Qed.
Lemma first_stored : stored_sequence (H := tail_hash) sample_draft (seen no_nodes no_leaves sample_draft sample_first) None sample_empty [].
Proof. done. Qed.
Lemma hello_fragment : Forall fragment_piece [PieceText hello].
Proof. constructor; [|constructor]. split; [reflexivity|]. by vm_compute. Qed.

Lemma apply_ready_exact_witness : exists out c', apply_ready (H := tail_hash) no_nodes no_leaves None sample_empty [PieceText hello] first_frontier sample_insert sample_first = Ok (out, c')
  /\ text_inserted (H := tail_hash) no_nodes no_leaves sample_draft sample_session sample_operation c' [] (sample_mapping 0 sample_insert) sample_insert
    [PieceText hello] 1 0 0 at_start at_start out.
Proof.
  pose proof (proj1 (apply_ready_exact (H := tail_hash) no_nodes no_leaves sample_draft sample_session sample_operation None sample_empty []
    (sample_mapping 0 sample_insert) sample_insert [PieceText hello] sample_first empty_stores_ok (proj1 first_begins) first_stored eq_refl eq_refl hello_fragment)
    1 0 0 at_start at_start eq_refl ltac:(cbn; lia) ltac:(cbn; lia) ltac:(lia) ltac:(lia)) as Ha.
  assert (is_ok (apply_ready (H := tail_hash) no_nodes no_leaves None sample_empty [PieceText hello] first_frontier sample_insert sample_first) = true) as Hok by (vm_compute; reflexivity).
  destruct (apply_ready _ _ _ _ _ _ _ _) as [[out c']|]; [|discriminate Hok]. exists out, c'. split; [reflexivity|exact Ha].
Defined.

(** The state behind it, as far as the next quantum needs it. *)
Definition first_check (r : result (DraftPiecePrepareError unit) (option (list byte) * DraftPieceSummary * DraftPieceBuildFrontier * PieceContext)) : bool :=
  match r with
  | Ok (_, summary, Inserting _ np nb _ _, c) => (sm_height summary =? 1) && (np =? 1) && (nb =? 0) && (bc_ordinal (pb c) <=? 10)
  | _ => false
  end.

Lemma sample_world : exists ns ls root summary frontier, sample_ok ns ls /\ sm_height summary = 1
  /\ text_quantum (H := tail_hash) sample_draft sample_session sample_operation [PieceText hello]
       (mkSequenceState no_nodes no_leaves None sample_empty first_frontier) (mkSequenceState ns ls root summary frontier)
  /\ (exists base se, frontier = Inserting 1 1 0 base se)
  /\ stored_sequence (H := tail_hash) sample_draft (store_tables sample_draft ns ls) root summary [LeafText hello]
  /\ (forall o dg, is_u64 o -> 10 <= o -> ns (mkRecordKey sample_draft (sample_id o dg)) = Ok None /\ ls (mkRecordKey sample_draft (sample_id o dg)) = Ok None).
Proof.
  pose proof (pwp_apply_insert (H := tail_hash) no_nodes no_leaves sample_draft sample_session sample_operation False empty_stores_ok sample_first None sample_empty []
    (sample_mapping 0 sample_insert) sample_insert [PieceText hello] 1 0 0 at_start at_start (ready_false _ _ _ _ _ _ _ _ (proj1 first_begins)) first_stored eq_refl eq_refl eq_refl hello_fragment
    ltac:(cbn; lia) ltac:(cbn; lia) ltac:(lia) ltac:(lia) (fun F => match F with end)) as Ha.
  pose proof (text_quantum_step (H := tail_hash) sample_draft sample_session sample_operation [PieceText hello] (mkSequenceState no_nodes no_leaves None sample_empty first_frontier)
    sample_first (sample_mapping 0 sample_insert) sample_insert) as Hq. cbn [ss_nodes ss_leaves ss_root ss_summary ss_frontier] in Hq.
  assert (first_check (apply_ready (H := tail_hash) no_nodes no_leaves None sample_empty [PieceText hello] first_frontier sample_insert sample_first) = true) as Hok by (vm_compute; reflexivity).
  unfold pwp in Ha. destruct (apply_ready _ _ _ _ _ _ _ _) as [[[[root summary] frontier] c']|]; [|discriminate Hok].
  cbn [first_check] in Hok. destruct frontier as [| | | |ord np nb base se| |]; try discriminate Hok. rewrite !andb_true_iff, !Z.eqb_eq, Z.leb_le in Hok. destruct Hok as [[[Hh ->] ->] Ho].
  destruct Ha as (text & end_ & chunk & b' & _ & _ & Hc & _ & _ & _ & _ & Hctx & Hs & _ & _ & _ & Efr & _). cbn [fst snd] in Hs, Efr.
  assert (insertion_chunk (R := unit) [PieceText hello] 0 0 = Ok (5, hello)) as Hch by (vm_compute; reflexivity). rewrite Hch in Hc. injection Hc as <- <-.
  injection Efr as -> _ _ _ _. pose proof (overlay_commits sample_draft c' no_nodes no_leaves) as Hcm.
  exists (overlay sample_draft (pb_nodes c') no_nodes), (overlay sample_draft (pb_leaves c') no_leaves), root, summary, (Inserting 1 1 0 base se). split_and!.
  - eapply commits_stores_ok; [apply empty_stores_ok|exact Hctx|exact Hcm].
  - exact Hh.
  - exact (Hq root summary _ c' _ _ first_begins eq_refl eq_refl eq_refl Hcm).
  - by exists base, se.
  - eapply stored_sequence_mono; [by eapply commits_extends|exact Hs].
  - intros o dg Hu Hle. destruct (pc_fresh _ _ _ _ _ _ Hctx o dg Hu ltac:(lia)) as (E1 & E2 & E3 & E4). unfold overlay. cbn [rk_draft rk_id].
    rewrite !bool_decide_true, E3, E4 by done. by rewrite E1, E2.
Qed.

Lemma text_insertion_run_witness : exists s', nsteps (text_quantum (H := tail_hash) (R := unit) sample_draft sample_session sample_operation [PieceText hello]) 1
    (mkSequenceState no_nodes no_leaves None sample_empty first_frontier) s'
  /\ exists ps', holds (H := tail_hash) sample_draft sample_session sample_operation s' ps' /\ symbols ps' = SymByte <$> hello.
Proof.
  destruct sample_world as (ns & ls & root & summary & frontier & _ & _ & Hq & (base & se & Ef) & _).
  exists (mkSequenceState ns ls root summary frontier). split; [by apply nsteps_once|].
  destruct (text_insertion_run (H := tail_hash) sample_draft sample_session sample_operation [PieceText hello] 1 (mkSequenceState no_nodes no_leaves None sample_empty first_frontier)
    (mkSequenceState ns ls root summary frontier) [] 1 0 0 at_start at_start (nsteps_once _ _ Hq) hello_fragment (conj empty_stores_ok (conj eq_refl eq_refl)) eq_refl
    ltac:(lia) ltac:(lia) ltac:(left; cbn; lia)) as (_ & ps' & np' & nb' & b' & taken & X1 & X2 & _ & _ & _ & _ & X7).
  exists ps'. split; [exact X1|]. cbn [ss_frontier] in X2. rewrite Ef in X2. injection X2 as <- <- _ _. rewrite X7; reflexivity.
Defined.

(** Then the last two letters go. *)
Definition sample_delete : DraftPieceMappingReadySplice := mkReadySplice TextDelete 3 2 0 (MapIdentity 3).
Definition sample_second : PieceContext := sample_pieces 10 (Some (sample_mapping 5 sample_delete)).
Definition inside : DraftPieceBuildBoundary := mkBoundary 0 3.
Definition at_end : DraftPieceBuildBoundary := mkBoundary 1 0.
Definition sample_cut : DraftPieceMappingSplice := mkSplice TextDelete 3 2 0 None 0 3 5.
Abbreviation hello_pieces := [LeafText hello].

Lemma inside_in : boundary_in (checked_boundary inside) hello_pieces.
Proof. right. exists hello. cbn. split_and!; try done; lia. Qed.
Lemma end_in : boundary_in (checked_boundary at_end) hello_pieces.
Proof. left. cbn. lia. Qed.

Lemma second_possible summary : sm_height summary = 1 ->
  delete_possible (R := unit) hello_pieces sample_delete (checked_boundary inside) (checked_boundary at_end) (sm_height summary).
Proof.
  intros ->. split; [done|by exists hello| |done]. intros rank first last ns ne [= <- <- <- <- <-]. split_and!; try reflexivity.
  apply symbols_ordered. vm_compute. repeat (constructor; [|constructor; exact I || constructor]). constructor.
Qed.

(** The second quantum goes through. *)
Lemma sample_second_world : exists ns ls root summary root' summary' frontier' c', sample_ok ns ls /\ sm_height summary = 1
  /\ quantum_begins (H := tail_hash) sample_draft sample_session sample_operation ns ls sample_second
  /\ stored_sequence (H := tail_hash) sample_draft (store_tables sample_draft ns ls) root summary hello_pieces
  /\ apply_ready (H := tail_hash) (R := unit) ns ls root summary [] (Applying 1 at_end inside at_end) sample_delete sample_second = Ok (root', summary', frontier', c').
Proof.
  destruct sample_world as (ns & ls & root & summary & frontier & Hst & Hh & _ & _ & Hs & Hf).
  assert (Hb : quantum_begins (H := tail_hash) sample_draft sample_session sample_operation ns ls sample_second) by (apply sample_begins; [done|by split|done]).
  assert (Hab : piece_able (text_loads (sm_height summary)) (text_emitted (sm_height summary)) sample_second) by (rewrite Hh; apply sample_pieces_able; cbn; lia).
  pose proof (pwp_apply_delete (H := tail_hash) ns ls sample_draft sample_session sample_operation True Hst sample_second root summary hello_pieces (sample_mapping 5 sample_delete) sample_delete
    [] 1 at_end inside at_end (mkPieceReady _ _ _ _ _ _ _ _ _ (proj1 Hb) (fun _ => Hab)) (stored_sequence_mono _ _ _ _ _ _ (begins_extends _ _ _ _ _ _ Hb) Hs) eq_refl eq_refl eq_refl
    inside_in end_in (fun _ => second_possible summary Hh)) as Ha.
  unfold pwp in Ha. destruct (apply_ready _ _ _ _ _ _ _ _) as [[[[root' summary'] frontier'] c']|] eqn:E; [|by destruct Ha].
  exists ns, ls, root, summary, root', summary', frontier', c'. by split_and!.
Qed.

Lemma text_edits_aligned_witness : exists ns ls c' root' summary' ps', stored_sequence (H := tail_hash) sample_draft (seen (R := unit) ns ls sample_draft c') root' summary' ps'
  /\ aligned (spliced sample_cut (replicate 5 UCopy)) (symbols hello_pieces) (symbols ps').
Proof.
  destruct sample_second_world as (ns & ls & root & summary & root' & summary' & frontier' & c' & Hst & _ & Hb & Hs & Ha).
  destruct (text_edits_aligned (H := tail_hash) ns ls sample_draft sample_session sample_operation root summary hello_pieces
    (sample_mapping 5 sample_delete) sample_delete sample_cut [] (Applying 1 at_end inside at_end) root' summary' frontier' (replicate 5 UCopy) (symbols hello_pieces)
    sample_second c' Hst (proj1 Hb) (stored_sequence_mono _ _ _ _ _ _ (begins_extends _ _ _ _ _ _ Hb) Hs) eq_refl eq_refl ltac:(repeat split) (Forall_nil_2 _) (conj inside_in end_in) Ha
    (aligned_identity (symbols hello_pieces))) as (ps' & X1 & X2 & _).
  exists ns, ls, c', root', summary', ps'. split; [exact X1|exact X2].
Defined.

Lemma text_removal_run_witness : exists s s', nsteps (text_quantum (H := tail_hash) (R := unit) sample_draft sample_session sample_operation []) 1 s s'
  /\ holds (H := tail_hash) sample_draft sample_session sample_operation s hello_pieces
  /\ exists ps', holds (H := tail_hash) sample_draft sample_session sample_operation s' ps' /\ zlen (symbols ps') < 5.
Proof.
  destruct sample_second_world as (ns & ls & root & summary & root' & summary' & frontier' & c' & Hst & _ & Hb & Hs & Ha).
  set (s := mkSequenceState ns ls root summary (Applying 1 at_end inside at_end)).
  set (s' := mkSequenceState (overlay sample_draft (pb_nodes c') ns) (overlay sample_draft (pb_leaves c') ls) root' summary' frontier').
  assert (Hq : text_quantum (H := tail_hash) (R := unit) sample_draft sample_session sample_operation [] s s')
    by exact (text_quantum_step _ _ _ _ s sample_second (sample_mapping 5 sample_delete) sample_delete root' summary' frontier' c' _ _ Hb eq_refl eq_refl Ha (overlay_commits _ _ _ _)).
  destruct (text_removal_run (H := tail_hash) sample_draft sample_session sample_operation [] 1 s s' hello_pieces 1 at_end inside at_end (nsteps_once _ _ Hq) (conj Hst Hs) eq_refl
    inside_in end_in ltac:(vm_compute; discriminate)) as (_ & ps' & start' & end' & X1 & _ & X3 & _ & X5 & _).
  exists s, s'. split; [by apply nsteps_once|]. split; [exact (conj Hst Hs)|]. exists ps'. split; [exact X1|].
  assert (E1 : unit_at (checked_boundary inside) hello_pieces = 3) by reflexivity. assert (E2 : unit_at (checked_boundary at_end) hello_pieces = 5) by reflexivity.
  rewrite E1, E2 in *. rewrite X3, splice_length; rewrite ?symbols_length; change (seq_units hello_pieces) with 5; cbn [length]; lia.
Defined.

(** The tree behind the stored sequence. *)
Lemma stored_tree draft T root summary ps : stored_sequence (H := tail_hash) draft T root summary ps -> sm_height summary = 1 ->
  exists t, sequence_tree (H := tail_hash) draft T t ps /\ height_of t = 1%nat.
Proof.
  intros Hs Hh. destruct root as [id|]; [|destruct Hs as [_ ->]; done]. destruct Hs as (h & link & _ & Ht & Es).
  exists (Some (mkRef link (Z.of_nat (S h)) true)). split; [split; [done|by exists (S h)]|]. rewrite Es in Hh. cbn in Hh |- *. lia.
Qed.

(** The proof stage names the slice. *)
Lemma deletion_proof_agrees_witness : exists ns ls t sp c2 root summary root' summary' frontier' c',
  deletion_proof (H := tail_hash) (R := unit) ns ls t (checked_boundary inside) (checked_boundary at_end) (sample_pieces 10 None) = Ok (sp, c2)
  /\ apply_ready (H := tail_hash) (R := unit) ns ls root summary [] (Applying 1 at_end inside at_end) sample_delete sample_second = Ok (root', summary', frontier', c') /\ ms_a sp = 3 /\ ms_removed sp = 2.
Proof.
  destruct sample_world as (ns & ls & root & summary & frontier & Hst & Hh & _ & _ & Hs & Hf).
  assert (Hb : quantum_begins (H := tail_hash) sample_draft sample_session sample_operation ns ls sample_second) by (apply sample_begins; [done|by split|done]).
  assert (Hb1 : quantum_begins (H := tail_hash) sample_draft sample_session sample_operation ns ls (sample_pieces 10 None)) by (apply sample_begins; [done|by split|done]).
  destruct (stored_tree _ _ _ _ _ (stored_sequence_mono _ _ _ _ _ _ (begins_extends _ _ _ _ _ _ Hb1) Hs) Hh) as (t & Ht & Eh).
  assert (Hab1 : piece_able (S (height_of t) + 0) 0 (sample_pieces 10 None)) by (rewrite Eh; apply sample_pieces_able; lia).
  pose proof (pwp_deletion_proof (H := tail_hash) ns ls sample_draft sample_session sample_operation True Hst 0 0 (sample_pieces 10 None) t hello_pieces (checked_boundary inside) (checked_boundary at_end)
    (mkPieceReady _ _ _ _ _ _ _ _ _ (proj1 Hb1) (fun _ => Hab1)) Ht inside_in end_in (fun _ => conj eq_refl (ex_intro _ hello eq_refl))) as Hp.
  unfold pwp in Hp. destruct (deletion_proof _ _ _ _ _ _) as [[sp c2]|] eqn:Ed; [|by destruct Hp].
  destruct Hp as (_ & (first & last & n1 & n2 & text & Hpl & _ & Ea & Er) & Ek & Ei & _). injection Hpl as Erk <- <- _ _. rewrite <- Erk in *.
  assert (Ea' : ms_a sp = 3) by (rewrite Ea; reflexivity). assert (Er' : ms_removed sp = 2) by (rewrite Er; reflexivity).
  destruct (deletion_proof_agrees (H := tail_hash) ns ls sample_draft sample_session sample_operation root summary hello_pieces t (checked_boundary inside) (checked_boundary at_end) sp
    (sample_mapping 5 sample_delete) sample_delete [] 1 at_end sample_second (sample_pieces 10 None) c2 Hst (proj1 Hb1) Ht inside_in end_in Ed (proj1 Hb)
    (stored_sequence_mono _ _ _ _ _ _ (begins_extends _ _ _ _ _ _ Hb) Hs) eq_refl eq_refl) as (root' & summary' & frontier' & c' & ps' & X1 & _).
  - unfold ready_for. by rewrite Ek, Ea', Er', Ei.
  - rewrite Er'. reflexivity.
  - rewrite Hh. apply sample_pieces_able; cbn; lia.
  - rewrite Hh. done.
  - rewrite Ea', Er'. vm_compute. repeat (constructor; [|constructor; exact I || constructor]). constructor.
  - exists ns, ls, t, sp, c2, root, summary, root', summary', frontier', c'. split; [exact Ed|]. split; [exact X1|]. split; [exact Ea'|exact Er'].
Defined.

Lemma sequence_at_unit_exact_witness : exists ns ls t f c', sequence_at_unit (H := tail_hash) (R := unit) ns ls t 3 (sample_pieces 10 None) = Ok (f, c')
  /\ uf_unit f = 3 /\ fact_exact f hello_pieces.
Proof.
  destruct sample_world as (ns & ls & root & summary & frontier & Hst & Hh & _ & _ & Hs & Hf).
  assert (Hb : quantum_begins (H := tail_hash) sample_draft sample_session sample_operation ns ls (sample_pieces 10 None)) by (apply sample_begins; [done|by split|done]).
  destruct (stored_tree _ _ _ _ _ (stored_sequence_mono _ _ _ _ _ _ (begins_extends _ _ _ _ _ _ Hb) Hs) Hh) as (t & Ht & Eh).
  pose proof (sequence_at_unit_exact (H := tail_hash) ns ls sample_draft sample_session sample_operation t hello_pieces 3 (sample_pieces 10 None) Hst (proj1 Hb) Ht ltac:(lia)) as Hu.
  destruct (sequence_at_unit _ _ _ _ _) as [[f c']|] eqn:E.
  - exists ns, ls, t, f, c'. split; [exact E|]. split; [exact (proj1 Hu)|exact (proj1 (proj2 Hu))].
  - exfalso. apply Hu. split; [rewrite Eh; apply sample_pieces_able; lia|]. exists (checked_boundary inside). split; [exact inside_in|reflexivity].
Defined.

(** A draft that is one marker. *)
Definition sample_marker : DraftPieceMarker := mkPieceMarker (replicate 16 x07) 5 1 (mkAssetId Sha256V1 (replicate 32 x02) 9).
Lemma sample_marker_ok : piece_ok (LeafMarker sample_marker).
Proof. split; [|done]. cbn. unfold marker_typed, piece_asset_valid, is_rev. cbn. by split_and!. Qed.

Lemma sample_marker_leaf : exists t c1 r, sample_context_ok no_nodes no_leaves c1 /\ piece_able 20 20 c1 /\ bc_mapping (pb c1) = None
  /\ sr_height t = 0 /\ sr_root t = true /\ leaf_at (H := tail_hash) sample_draft (seen (R := unit) no_nodes no_leaves sample_draft c1) (sr_link t) r
  /\ lr_value r = LeafMarker sample_marker.
Proof.
  assert (Hb : quantum_begins (H := tail_hash) sample_draft sample_session sample_operation no_nodes no_leaves (sample_pieces 1 None))
    by (apply sample_begins; [apply empty_stores_ok|by split|done]).
  pose proof (pwp_new_leaf (H := tail_hash) no_nodes no_leaves sample_draft sample_session sample_operation True empty_stores_ok 20 20 (sample_pieces 1 None) (LeafMarker sample_marker)
    (mkPieceReady _ _ _ _ _ _ _ _ _ (proj1 Hb) (fun _ => sample_pieces_able 20 21 1 None ltac:(lia) ltac:(lia))) sample_marker_ok) as Hl.
  unfold pwp in Hl. destruct (new_sequence_leaf _ _) as [[t c1]|]; [|by destruct Hl]. destruct Hl as (Hh & Hr & Hl & [Hc Ha] & Hg).
  destruct (Hl I) as (r & [Hr' _] & Ev).
  exists t, c1, r. injection Ev as Ev. split_and!; try done; [by apply Ha|]. by rewrite (gr_mapping _ _ _ _ _ Hg).
Qed.

Definition sample_expected (r : DraftPieceLeafRecord) : DraftMarkerIdentityOccurrence :=
  mkOccurrence (pm_id sample_marker) (pm_label sample_marker) (pm_asset sample_marker) (pm_order sample_marker) (rk_id (lr_key r)) (lr_digest r).

Lemma remove_marker_exact_witness : exists t c1 expected t' c', remove_marker (H := tail_hash) (R := unit) no_nodes no_leaves t 0 expected c1 = Ok (t', c')
  /\ exists ps', sequence_tree (H := tail_hash) sample_draft (seen (R := unit) no_nodes no_leaves sample_draft c') t' ps' /\ symbols ps' = [].
Proof.
  destruct sample_marker_leaf as (t & c1 & r & Hc & Ha & Hm & Hh & Hr & Hl & Ev).
  assert (Ht : sequence_tree (H := tail_hash) sample_draft (seen (R := unit) no_nodes no_leaves sample_draft c1) (Some t) [LeafMarker sample_marker]).
  { split; [exact Hr|]. exists 0%nat. split; [exact Hh|]. exists r. split; [|by rewrite Ev]. split; [exact Hl|]. unfold leaf_named. by rewrite Ev. }
  pose proof (remove_marker_exact (H := tail_hash) no_nodes no_leaves sample_draft sample_session sample_operation t [LeafMarker sample_marker] 0 (sample_expected r) c1
    empty_stores_ok Hc Ht ltac:(lia)) as Hx. cbv zeta in Hx. destruct (remove_marker _ _ _ _ _ _) as [[t' c']|] eqn:E.
  - destruct Hx as (_ & _ & _ & ps' & X1 & X2 & _). exists t, c1, (sample_expected r), t', c'. split; [exact E|]. exists ps'. split; [exact X1|]. rewrite X2. reflexivity.
  - exfalso. apply Hx. rewrite Hh. split_and!; [eapply piece_able_le; [| |exact Ha]; cbn; lia|done| | |constructor].
    + cbn [height_of from_option]. rewrite Hh. exists r. split; [exists [r]; split; [by exists r|reflexivity]|].
      unfold occurrence_matches. rewrite Ev. cbn [sample_expected oc_marker_id oc_label oc_asset_id oc_order_key oc_leaf_id oc_leaf_digest].
      rewrite !bool_decide_true, !Z.eqb_refl by done. reflexivity.
    + unfold verified, verify_splice. by rewrite Hm.
Defined.

(** A step that looks for a node and a leaf under the same key bytes: two families of one budget. *)
Definition sample_key : DraftPieceRecordKey := mkRecordKey sample_draft (sample_id 1 []).
Definition hello_leaf : DraftPieceLeafRecord :=
  mkLeafRecord sample_key (LeafText hello) (from_utf8 hello) (leaf_digest (H := tail_hash) (LeafText hello) (from_utf8 hello)).
Lemma hello_leaf_ok : family_typed (K := DraftPieceRecordKey) hello_leaf.
Proof.
  split; [|vm_compute; discriminate]. apply (decode_leaf_Ok (H := tail_hash) (enc_leaf_record hello_leaf) hello_leaf).
  vm_compute. reflexivity.
Qed.

Definition piece_record (leaf : bool) : Type := if leaf then DraftPieceLeafRecord else DraftPieceNodeRecord.
#[local] Instance piece_families leaf : Family DraftPieceRecordKey (piece_record leaf) :=
  if leaf as l return Family _ (piece_record l) then piece_leaves_family (H := tail_hash) else piece_nodes_family (H := tail_hash).
#[local] Instance piece_families_laws leaf : FamilyLaws DraftPieceRecordKey (piece_record leaf).
Proof. destruct leaf; [apply (piece_leaves_laws (H := tail_hash))|apply (piece_nodes_laws (H := tail_hash))]. Defined.

Abbreviation sample_read leaf s read := (acquire (R := unit) (K := DraftPieceRecordKey) (V := piece_record leaf) s sample_key true read).
Definition state_after {A} (r : result (DraftPiecePrepareError unit) (A * Acquired)) : Acquired :=
  match r with Ok (_, s) => s | Err _ => fresh_budget end.
Definition answer_of {V} (r : result (DraftPiecePrepareError unit) (option V * Acquired)) : option V :=
  match r with Ok (o, _) => o | Err _ => None end.
Lemma answered {V} (r : result (DraftPiecePrepareError unit) (option V * Acquired)) o :
  is_ok r = true -> answer_of r = o -> r = Ok (o, state_after r).
Proof. destruct r as [[o' s]|]; [|done]. by intros _ <-. Qed.

Definition budget1 := state_after (sample_read false fresh_budget (Ok None)).
Definition budget2 := state_after (sample_read true budget1 (Ok (Some hello_leaf))).
Definition sample_events : list (budget_event (R := unit) (fun _ : bool => DraftPieceRecordKey) piece_record) :=
  [BvRead _ _ false sample_key true (Ok None) None;
   BvRead _ _ true sample_key true (Ok (Some hello_leaf)) (Some hello_leaf);
   BvHit _ _ false sample_key None; BvHit _ _ true sample_key (Some hello_leaf)].

(** The second look at the node finds that there is none and the second look at the leaf finds it,
    whatever the store would answer by then. *)
Lemma sample_budget_steps : steps (budget_step (R := unit) (fun _ : bool => DraftPieceRecordKey) piece_record) fresh_budget sample_events budget2.
Proof.
  assert (Hk : family_key_typed (K := DraftPieceRecordKey) (V := DraftPieceNodeRecord) sample_key) by (split; vm_compute; reflexivity).
  assert (H1 : sample_read false fresh_budget (Ok None) = Ok (None, budget1)) by (apply answered; vm_compute; reflexivity).
  assert (H2 : sample_read true budget1 (Ok (Some hello_leaf)) = Ok (Some hello_leaf, budget2)) by (apply answered; vm_compute; reflexivity).
  assert (H3 : sample_read false budget2 (Err Absent) = Ok (None, budget2)) by (rewrite answered with (o := None); [f_equal; f_equal; apply (bool_decide_eq_true_1 _)|..]; vm_compute; reflexivity).
  assert (H4 : sample_read true budget2 (Ok None) = Ok (Some hello_leaf, budget2)) by (rewrite answered with (o := Some hello_leaf); [f_equal; f_equal; apply (bool_decide_eq_true_1 _)|..]; vm_compute; reflexivity).
  assert (N1 : budget1 <> fresh_budget) by (apply (bool_decide_eq_false_1 _); vm_compute; reflexivity).
  assert (N2 : budget2 <> budget1) by (apply (bool_decide_eq_false_1 _); vm_compute; reflexivity).
  pose proof hello_leaf_ok as Hl.
  apply (budget_read (R := unit) (I := bool) (fun _ => DraftPieceRecordKey) piece_record _ false sample_key true) in H1 as S1; [|done..].
  apply (budget_read (R := unit) (I := bool) (fun _ => DraftPieceRecordKey) piece_record _ true sample_key true) in H2 as S2; [|done|by intros v [= <-]].
  apply (budget_read (R := unit) (I := bool) (fun _ => DraftPieceRecordKey) piece_record _ false sample_key true) in H3 as S3; [|done..].
  apply (budget_read (R := unit) (I := bool) (fun _ => DraftPieceRecordKey) piece_record _ true sample_key true) in H4 as S4; [|done..].
  rewrite decide_False in S1 by done. rewrite decide_False in S2 by done. rewrite decide_True in S3 by done. rewrite decide_True in S4 by done.
  exact (steps_snoc _ _ _ _ _ _ (steps_snoc _ _ _ _ _ _ (steps_snoc _ _ _ _ _ _ (steps_snoc _ _ _ _ _ _ (steps_refl _ _) S1) S2) S3) S4).
Qed.

