(* ===== verification/MarkerModel.v ===== *)
(** * The marker trees of a draft: values, digests and codecs

    Beside the tree of pieces a draft keeps two more: the index of marker identities, which finds
    a marker by its identity, and the tree of the marker order, whose root digest commits to the
    markers in sequence.  Records, links and digests of
    [syndic-storage/src/draft_piece/{model,marker_commitment,tree}.rs] and
    [draft_piece/persistent.rs], and their codecs of [draft_piece/codec.rs]. *)
From stdpp Require Import prelude gmap strings countable.
From S2P Require Import Prelude.
From S2P Require Import Bytes.
From S2P Require Import ModelIds.
From S2P Require Import ModelDigest.
From S2P Require Import SyndicParts.
From S2P Require Import SyndicKeyOrder.
From S2P Require Import BuildBudget.
From S2P Require Import MappingModel.
From S2P Require Import PieceModel.
From S2P Require Import PieceTree.

(** ** Records *)

Inductive DraftMarkerRecordKind := KindInternal | KindLeaf.

(** The keys of both families have the same fields. *)
Record DraftMarkerRecordKey := mkMarkerKey { mk_draft : list byte; mk_kind : DraftMarkerRecordKind; mk_id : list byte }.

#[global] Instance marker_kind_eq_dec : EqDecision DraftMarkerRecordKind.
Proof. solve_decision. Defined.
#[global] Instance marker_key_eq_dec : EqDecision DraftMarkerRecordKey.
Proof. solve_decision. Defined.
#[global] Instance marker_key_countable : Countable DraftMarkerRecordKey.
Proof.
  refine (inj_countable' (fun k => (mk_draft k, bool_decide (mk_kind k = KindLeaf), mk_id k))
    (fun '(d, leaf, i) => mkMarkerKey d (if leaf then KindLeaf else KindInternal) i) _).
  by intros [d [] i].
Defined.

#[global] Instance occurrence_eq_dec : EqDecision DraftMarkerIdentityOccurrence.
Proof. solve_decision. Defined.

Record DraftMarkerIdentityChild := mkIdentityChild {
  ic_id : list byte;
  ic_digest : list byte;
  ic_count : Z;
  ic_first : list byte;
  ic_last : list byte
}.
Inductive DraftMarkerIdentityRecord :=
  | IdentityInternal (key : DraftMarkerRecordKey) (height : Z) (children : list DraftMarkerIdentityChild) (digest : list byte)
  | IdentityLeaf (key : DraftMarkerRecordKey) (occurrence : DraftMarkerIdentityOccurrence) (digest : list byte).

Definition identity_key (r : DraftMarkerIdentityRecord) : DraftMarkerRecordKey :=
  match r with IdentityInternal key _ _ _ | IdentityLeaf key _ _ => key end.
Definition identity_digest (r : DraftMarkerIdentityRecord) : list byte :=
  match r with IdentityInternal _ _ _ digest | IdentityLeaf _ _ digest => digest end.
Definition identity_height (r : DraftMarkerIdentityRecord) : Z :=
  match r with IdentityInternal _ height _ _ => height | IdentityLeaf _ _ _ => 0 end.
Definition identity_children (r : DraftMarkerIdentityRecord) : option (list DraftMarkerIdentityChild) :=
  match r with IdentityInternal _ _ children _ => Some children | IdentityLeaf _ _ _ => None end.
Definition identity_occurrence (r : DraftMarkerIdentityRecord) : option DraftMarkerIdentityOccurrence :=
  match r with IdentityLeaf _ occurrence _ => Some occurrence | IdentityInternal _ _ _ _ => None end.

Record DraftMarkerIdentityIndexSummary := mkIndexSummary { is_count : Z; is_height : Z; is_root_digest : list byte }.

(** A marker in the order: its identity, label and asset. *)
Definition order_marker : Type := list byte * Z * AssetId.

(** The constructor refuses an empty child, so that the largest label is there. *)
Record DraftMarkerOrderChild := mkOrderChild {
  mo_id : list byte;
  mo_digest : list byte;
  mo_count : Z;
  mo_maximum : Z
}.
Definition new_order_child (id digest : list byte) (count : Z) (maximum : option Z) : option DraftMarkerOrderChild :=
  match maximum with
  | Some maximum => if count =? 0 then None else Some (mkOrderChild id digest count maximum)
  | None => None
  end.
Inductive DraftMarkerOrderRecord :=
  | OrderInternal (key : DraftMarkerRecordKey) (height : Z) (children : list DraftMarkerOrderChild) (digest : list byte)
  | OrderLeaf (key : DraftMarkerRecordKey) (marker_id : list byte) (label : Z) (asset_id : AssetId) (digest : list byte).

Definition order_key (r : DraftMarkerOrderRecord) : DraftMarkerRecordKey :=
  match r with OrderInternal key _ _ _ | OrderLeaf key _ _ _ _ => key end.
Definition order_digest (r : DraftMarkerOrderRecord) : list byte :=
  match r with OrderInternal _ _ _ digest | OrderLeaf _ _ _ _ digest => digest end.
Definition order_height (r : DraftMarkerOrderRecord) : Z :=
  match r with OrderInternal _ height _ _ => height | OrderLeaf _ _ _ _ _ => 0 end.
Definition order_children (r : DraftMarkerOrderRecord) : option (list DraftMarkerOrderChild) :=
  match r with OrderInternal _ _ children _ => Some children | OrderLeaf _ _ _ _ _ => None end.
Definition order_marker_of (r : DraftMarkerOrderRecord) : option order_marker :=
  match r with OrderLeaf _ marker_id label asset_id _ => Some (marker_id, label, asset_id) | OrderInternal _ _ _ _ => None end.

#[global] Instance identity_child_eq_dec : EqDecision DraftMarkerIdentityChild.
Proof. solve_decision. Defined.
#[global] Instance identity_record_eq_dec : EqDecision DraftMarkerIdentityRecord.
Proof. solve_decision. Defined.
#[global] Instance order_child_eq_dec : EqDecision DraftMarkerOrderChild.
Proof. solve_decision. Defined.
#[global] Instance order_record_eq_dec : EqDecision DraftMarkerOrderRecord.
Proof. solve_decision. Defined.

(** Identities compare as their bytes. *)
Definition id_ltb (a b : list byte) : bool := bool_decide (byte_cmp a b = Lt).
Definition id_leb (a b : list byte) : bool := bool_decide (byte_cmp a b <> Gt).

(** The iterator's [max] over the labels of the children. *)
Definition maximum_label (labels : list Z) : option Z :=
  match labels with [] => None | l :: ls => Some (foldl Z.max l ls) end.

Fixpoint checked_sum (counts : list Z) (total : Z) : option Z :=
  match counts with
  | [] => Some total
  | count :: counts => total ← checked_add64 total count; checked_sum counts total
  end.

(** ** Digests *)

Section Digests.
Context {H : Type} `{Sha256 H} {R : Type}.

Definition digest_parts (domain : list byte) (parts : list (list byte)) : list byte := lp_hash (domain :: parts).

Definition index_leaf_digest (v : DraftMarkerIdentityOccurrence) : list byte :=
  digest_parts (bytes_of_string "syndic/draft-marker-identity-index-leaf/v2")
    [oc_marker_id v; e_u64 (oc_label v); [version_byte (version (oc_asset_id v))]; asset_digest (oc_asset_id v);
     e_u64 (asset_length (oc_asset_id v)); e_u64 (oc_order_key v); oc_leaf_id v; oc_leaf_digest v].

Definition index_child_bytes (c : DraftMarkerIdentityChild) : list byte :=
  ic_id c ++ ic_digest c ++ e_u64 (ic_count c) ++ ic_first c ++ ic_last c.
Definition index_node_digest (height : Z) (children : list DraftMarkerIdentityChild) : list byte :=
  digest_parts (bytes_of_string "syndic/draft-marker-identity-index-node/v1")
    [[byte_of height] ++ e_u64 (zlen children) ++ concat (index_child_bytes <$> children)].

Definition index_root_digest (count height : Z) (node_digest : list byte) : list byte :=
  digest_parts (bytes_of_string "syndic/draft-marker-identity-index-root/v1") [e_u64 count; [byte_of height]; node_digest].
Definition canonical_empty_marker_identity_index_digest : list byte :=
  lp_hash [bytes_of_string "syndic/draft-marker-identity-index-root/v1/empty"].

Definition index_record_digest (r : DraftMarkerIdentityRecord) : list byte :=
  match r with
  | IdentityInternal _ height children _ => index_node_digest height children
  | IdentityLeaf _ occurrence _ => index_leaf_digest occurrence
  end.

Definition marker_order_leaf_digest (m : order_marker) : list byte :=
  let '(marker_id, label, asset_id) := m in
  digest_parts (bytes_of_string "syndic/draft-marker-order-commitment-leaf/v2")
    [marker_id; e_u64 label; [version_byte (version asset_id)]; asset_digest asset_id; e_u64 (asset_length asset_id)].

Definition order_child_bytes (c : DraftMarkerOrderChild) : list byte :=
  mo_id c ++ mo_digest c ++ e_u64 (mo_count c) ++ e_u64 (mo_maximum c).
Definition marker_order_node_digest (height : Z) (children : list DraftMarkerOrderChild) : list byte :=
  digest_parts (bytes_of_string "syndic/draft-marker-order-commitment-node/v1")
    [[byte_of height] ++ e_u64 (zlen children) ++ concat (order_child_bytes <$> children)].

Definition canonical_empty_draft_marker_commitment : DraftMarkerCommitmentV1 :=
  mkCommitment (digest_parts (bytes_of_string "syndic/draft-marker-order-commitment-root/v1/empty") []) 0 None.
End Digests.

(** ** Links of the index *)

Section Links.
Context {R : Type}.

Fixpoint validate_index_from (previous : option (list byte)) (children : list DraftMarkerIdentityChild)
    : result (DraftPiecePrepareError R) unit :=
  match children with
  | [] => Ok tt
  | child :: children =>
      if (ic_count child =? 0) || id_ltb (ic_last child) (ic_first child) then Err InvalidRoot
      else if from_option (fun last => id_leb (ic_first child) last) false previous then Err InvalidRoot
      else validate_index_from (Some (ic_last child)) children
  end.
Definition validate_index_children (children : list DraftMarkerIdentityChild) : result (DraftPiecePrepareError R) unit :=
  validate_index_from None children.

Definition index_child_for_record (r : DraftMarkerIdentityRecord) : result (DraftPiecePrepareError R) DraftMarkerIdentityChild :=
  match r with
  | IdentityLeaf key occurrence digest => Ok (mkIdentityChild (mk_id key) digest 1 (oc_marker_id occurrence) (oc_marker_id occurrence))
  | IdentityInternal key _ children digest =>
      _ ← validate_index_children children;
      count ← ok_or (Rejected AggregateOverflow) (checked_sum (ic_count <$> children) 0);
      first ← ok_or InvalidRoot (head children);
      last ← ok_or InvalidRoot (list.last children);
      Ok (mkIdentityChild (mk_id key) digest count (ic_first first) (ic_last last))
  end.
End Links.

(** ** Codec *)

Definition enc_marker_key (k : DraftMarkerRecordKey) : list byte :=
  mk_draft k ++ e_u8 (match mk_kind k with KindInternal => 0 | KindLeaf => 1 end) ++ mk_id k.
(** The two families name a bad kind differently. *)
Definition dec_marker_key (kind : string) : decoder DraftMarkerRecordKey :=
  draft ← d_fixed16;
  tag ← d_u8;
  match tag with
  | 0 => id ← d_fixed16; mret (mkMarkerKey draft KindInternal id)
  | 1 => id ← d_fixed16; mret (mkMarkerKey draft KindLeaf id)
  | _ => refuse (InvalidTag kind tag)
  end.

Definition enc_identity_child (c : DraftMarkerIdentityChild) : list byte :=
  ic_id c ++ ic_digest c ++ e_u64 (ic_count c) ++ ic_first c ++ ic_last c.
Definition dec_identity_child : decoder DraftMarkerIdentityChild :=
  id ← d_fixed16; digest ← d_fixed32; count ← d_u64; first ← d_fixed16; last ← d_fixed16;
  mret (mkIdentityChild id digest count first last).

Definition enc_occurrence (o : DraftMarkerIdentityOccurrence) : list byte :=
  oc_marker_id o ++ e_u64 (oc_label o) ++ enc_asset_id (oc_asset_id o) ++ e_u64 (oc_order_key o) ++ oc_leaf_id o ++ oc_leaf_digest o.
Definition dec_occurrence : decoder DraftMarkerIdentityOccurrence :=
  marker_id ← d_fixed16;
  label ← (v ← d_u64; checked "draft marker-index label" (new_label v));
  asset_id ← dec_asset_id; order_key ← d_u64; leaf_id ← d_fixed16; leaf_digest ← d_fixed32;
  mret (mkOccurrence marker_id label asset_id order_key leaf_id leaf_digest).

Definition enc_identity_record (r : DraftMarkerIdentityRecord) : list byte :=
  match r with
  | IdentityInternal key height children digest =>
      variant 0 (enc_marker_key key ++ e_u8 height ++ e_u64 (zlen children) ++ concat (enc_identity_child <$> children) ++ digest)
  | IdentityLeaf key occurrence digest => variant 1 (enc_marker_key key ++ enc_occurrence occurrence ++ digest)
  end.
Definition dec_identity_internal : decoder DraftMarkerIdentityRecord :=
  key ← dec_marker_key "draft marker-index record kind"; height ← d_u8; count ← d_u64;
  if (count =? 0) || (Z.of_nat DRAFT_PIECE_MAX_CHILDREN <? count) then refuse (InvalidLength "draft marker-index child count")
  else
    children ← d_list (Z.to_nat count) dec_identity_child; digest ← d_fixed32;
    mret (IdentityInternal key height children digest).
Definition dec_identity_leaf : decoder DraftMarkerIdentityRecord :=
  key ← dec_marker_key "draft marker-index record kind"; occurrence ← dec_occurrence; digest ← d_fixed32;
  mret (IdentityLeaf key occurrence digest).
Definition dec_identity_record : decoder DraftMarkerIdentityRecord :=
  tag ← d_u8;
  match tag with
  | 0 => dec_identity_internal
  | 1 => dec_identity_leaf
  | _ => refuse (InvalidTag "draft marker-index record" tag)
  end.
Definition encode_marker_identity_record (r : DraftMarkerIdentityRecord) : result CodecError (list byte) := Ok (enc_identity_record r).
Definition decode_marker_identity_record (bs : list byte) : result CodecError DraftMarkerIdentityRecord :=
  run_decoder dec_identity_record bs.

Definition enc_order_child (c : DraftMarkerOrderChild) : list byte :=
  mo_id c ++ mo_digest c ++ e_u64 (mo_count c) ++ e_u64 (mo_maximum c).
Definition dec_order_child : decoder DraftMarkerOrderChild :=
  id ← d_fixed16; digest ← d_fixed32; count ← d_u64;
  maximum ← (v ← d_u64; checked "draft marker-order maximum label" (new_label v));
  match new_order_child id digest count (Some maximum) with
  | Some child => mret child
  | None => refuse (InvalidLength "draft marker-order child")
  end.

Definition enc_order_record (r : DraftMarkerOrderRecord) : list byte :=
  enc_marker_key (order_key r) ++
  match r with
  | OrderInternal _ height children digest =>
      e_u8 height ++ e_u64 (zlen children) ++ concat (enc_order_child <$> children) ++ digest
  | OrderLeaf _ marker_id label asset_id digest => marker_id ++ e_u64 label ++ enc_asset_id asset_id ++ digest
  end.

Section OrderCodec.
Context {H : Type} `{Sha256 H}.

Definition dec_order_internal (key : DraftMarkerRecordKey) : decoder DraftMarkerOrderRecord :=
  height ← d_u8; count ← d_u64;
  if (height =? 0) || (DRAFT_PIECE_MAX_HEIGHT <? height) || (count =? 0) || (Z.of_nat DRAFT_PIECE_MAX_CHILDREN <? count)
  then refuse (InvalidLength "draft marker-order children")
  else
    children ← d_list (Z.to_nat count) dec_order_child; digest ← d_fixed32;
    if negb (bool_decide (digest = marker_order_node_digest height children)) then refuse (InvalidLength "draft marker-order digest")
    else mret (OrderInternal key height children digest).
Definition dec_order_leaf (key : DraftMarkerRecordKey) : decoder DraftMarkerOrderRecord :=
  marker_id ← d_fixed16;
  label ← (v ← d_u64; checked "draft marker-order label" (new_label v));
  asset_id ← dec_asset_id; digest ← d_fixed32;
  if negb (bool_decide (digest = marker_order_leaf_digest (marker_id, label, asset_id)))
  then refuse (InvalidLength "draft marker-order leaf digest")
  else mret (OrderLeaf key marker_id label asset_id digest).
Definition dec_order_record : decoder DraftMarkerOrderRecord :=
  key ← dec_marker_key "draft marker-order record";
  match mk_kind key with KindInternal => dec_order_internal key | KindLeaf => dec_order_leaf key end.
Definition encode_marker_order_record (r : DraftMarkerOrderRecord) : result CodecError (list byte) := Ok (enc_order_record r).
Definition decode_marker_order_record (bs : list byte) : result CodecError DraftMarkerOrderRecord :=
  run_decoder dec_order_record bs.

#[global] Instance marker_identity_family : Family DraftMarkerRecordKey DraftMarkerIdentityRecord := {|
  family_name := "draft-marker-identity-index";
  max_value_bytes := 32768;
  encode_family_key k := Ok (enc_marker_key k);
  encode_family_value := encode_marker_identity_record;
  decode_family_value := decode_marker_identity_record
|}.
#[global] Instance marker_order_family : Family DraftMarkerRecordKey DraftMarkerOrderRecord := {|
  family_name := "draft-marker-order-commitments";
  max_value_bytes := 32768;
  encode_family_key k := Ok (enc_marker_key k);
  encode_family_value := encode_marker_order_record;
  decode_family_value := decode_marker_order_record
|}.
End OrderCodec.
