(* ===== verification/MarkerCodec.v ===== *)
(** * The marker trees of a draft: the codecs are exact

    Which byte strings decode to records of the marker trees, and to what; and what the two
    families promise to the build budget. *)
From stdpp Require Import prelude gmap strings.
From S2P Require Import Prelude.
From S2P Require Import Bytes.
From S2P Require Import ModelIds.
From S2P Require Import ModelDigest.
From S2P Require Import SyndicParts.
From S2P Require Import BuildBudget.
From S2P Require Import MappingModel.
From S2P Require Import PieceModel.
From S2P Require Import PieceTree.
From S2P Require Import PieceCodec.
From S2P Require Import MarkerModel.

(** ** Widths and constructors *)

Definition marker_key_typed (k : DraftMarkerRecordKey) : Prop := fixed 16 (mk_draft k) /\ fixed 16 (mk_id k).
Definition identity_child_typed (c : DraftMarkerIdentityChild) : Prop :=
  fixed 16 (ic_id c) /\ fixed 32 (ic_digest c) /\ is_u64 (ic_count c) /\ fixed 16 (ic_first c) /\ fixed 16 (ic_last c).
Definition occurrence_typed (o : DraftMarkerIdentityOccurrence) : Prop :=
  fixed 16 (oc_marker_id o) /\ is_rev (oc_label o) /\ piece_asset_valid (oc_asset_id o) /\ is_u64 (oc_order_key o)
  /\ fixed 16 (oc_leaf_id o) /\ fixed 32 (oc_leaf_digest o).
Definition identity_record_typed (r : DraftMarkerIdentityRecord) : Prop :=
  match r with
  | IdentityInternal key height children digest =>
      marker_key_typed key /\ is_u8 height /\ (1 <= length children <= DRAFT_PIECE_MAX_CHILDREN)%nat
      /\ Forall identity_child_typed children /\ fixed 32 digest
  | IdentityLeaf key occurrence digest => marker_key_typed key /\ occurrence_typed occurrence /\ fixed 32 digest
  end.
Definition order_child_typed (c : DraftMarkerOrderChild) : Prop :=
  fixed 16 (mo_id c) /\ fixed 32 (mo_digest c) /\ is_rev (mo_count c) /\ is_rev (mo_maximum c).
Definition order_marker_typed (m : order_marker) : Prop :=
  let '(marker_id, label, asset_id) := m in fixed 16 marker_id /\ is_rev label /\ piece_asset_valid asset_id.
Definition order_record_valid {H} `{Sha256 H} (r : DraftMarkerOrderRecord) : Prop :=
  marker_key_typed (order_key r) /\ fixed 32 (order_digest r) /\
  match r with
  | OrderInternal key height children digest =>
      mk_kind key = KindInternal /\ 1 <= height <= DRAFT_PIECE_MAX_HEIGHT
      /\ (1 <= length children <= DRAFT_PIECE_MAX_CHILDREN)%nat /\ Forall order_child_typed children
      /\ digest = marker_order_node_digest height children
  | OrderLeaf key marker_id label asset_id digest =>
      mk_kind key = KindLeaf /\ order_marker_typed (marker_id, label, asset_id)
      /\ digest = marker_order_leaf_digest (marker_id, label, asset_id)
  end.

(** ** The parts *)

#[global] Instance marker_key_exact kind : Exact marker_key_typed enc_marker_key (dec_marker_key kind).
Proof.
  intros bs v rest. unfold dec_marker_key, enc_marker_key, marker_key_typed. split.
  - intros Hd. do 2 part_inv Hd. match type of Hd with context [match ?t with _ => _ end] => tag_cases t end; parts_inv Hd; cbn; (split; [done|]); by rewrite <- ?app_assoc.
  - intros [[H1 H2] ->]. destruct v as [d [] i]; cbn [mk_draft mk_kind mk_id] in *; rewrite <- !app_assoc; do 2 run_part; cbn; by run_part.
Qed.

#[global] Instance identity_child_exact : Exact identity_child_typed enc_identity_child dec_identity_child.
Proof. unfold dec_identity_child, enc_identity_child. exact_record. Qed.

#[local] Arguments enc_asset_id : simpl never.
#[local] Arguments enc_marker_key : simpl never.
#[local] Arguments enc_occurrence : simpl never.

#[global] Instance occurrence_exact : Exact occurrence_typed enc_occurrence dec_occurrence.
Proof. unfold dec_occurrence, enc_occurrence. exact_record. Qed.

(** ** Records *)

#[global] Instance identity_internal_exact : Exact (fun r => identity_record_typed r /\ is_Some (identity_children r))
  (fun r => match r with IdentityInternal key height children digest =>
      enc_marker_key key ++ e_u8 height ++ e_u64 (zlen children) ++ concat (enc_identity_child <$> children) ++ digest | _ => [] end) dec_identity_internal.
Proof.
  intros bs v rest. unfold dec_identity_internal. split.
  - intros Hd. do 3 part_inv Hd. case_match eqn:E; [done|]. bool_facts. unfold DRAFT_PIECE_MAX_CHILDREN, is_u64 in *. part_inv Hd. parts_inv Hd.
    match goal with H : _ /\ Forall _ _ |- _ => destruct H as [Hl Hf] end. cbn. split; [split; [|by eexists]; split_and!; try done; unfold DRAFT_PIECE_MAX_CHILDREN; lia|].
    rewrite Hl, Z2Nat.id by lia. by rewrite <- !app_assoc.
  - intros [[Hr Hs] ->]. destruct v as [k h cs dg|]; [|by destruct Hs]. destruct Hr as (H1 & H2 & Hl & H4 & H5). unfold DRAFT_PIECE_MAX_CHILDREN in *. rewrite <- !app_assoc.
    do 3 run_part. rewrite (proj2 (Z.eqb_neq _ 0)), (proj2 (Z.ltb_ge _ _)), Nat2Z.id by lia. cbn [orb].
    eapply bind_run; [apply _|by split|reflexivity|]. by run_part.
Qed.
#[global] Instance identity_leaf_exact : Exact (fun r => identity_record_typed r /\ is_Some (identity_occurrence r))
  (fun r => match r with IdentityLeaf key occurrence digest => enc_marker_key key ++ enc_occurrence occurrence ++ digest | _ => [] end) dec_identity_leaf.
Proof.
  intros bs v rest. unfold dec_identity_leaf. split.
  - intros Hd. parts_inv Hd. cbn. split; [split; [done|by eexists]|]. by rewrite <- !app_assoc.
  - intros [[Hr Hs] ->]. destruct v as [|k o dg]; [by destruct Hs|]. destruct Hr as (H1 & H2 & H3). rewrite <- !app_assoc. by do 3 run_part.
Qed.

#[global] Instance identity_record_exact : Exact identity_record_typed enc_identity_record dec_identity_record.
Proof.
  intros bs v rest. unfold dec_identity_record. split.
  - intros Hd. part_inv Hd. match type of Hd with context [match ?t with _ => _ end] => tag_cases t end; apply exact in Hd as [[Hr [? Hs]] ->];
      destruct v; try done; split; try done; cbn; unfold variant; by rewrite <- ?app_assoc.
  - intros [Hr ->]. destruct v; cbn [enc_identity_record]; unfold variant; run_part; cbn; apply exact; (split; [split; [done|by eexists]|]); cbn; by rewrite <- ?app_assoc.
Qed.

Lemma decode_marker_identity_record_Ok bs r :
  decode_marker_identity_record bs = Ok r <-> identity_record_typed r /\ encode_marker_identity_record r = Ok bs.
Proof.
  unfold decode_marker_identity_record, encode_marker_identity_record. rewrite (run_exact identity_record_typed enc_identity_record dec_identity_record). naive_solver.
Qed.

#[global] Instance order_child_exact : Exact order_child_typed enc_order_child dec_order_child.
Proof.
  intros bs v rest. unfold dec_order_child, enc_order_child, order_child_typed, new_order_child. split.
  - intros Hd. do 4 part_inv Hd. case_match eqn:E; [|done]. apply ret_Ok in Hd as [-> ->]. case_match eqn:E'; [done|]. injection E as <-. bool_facts. cbn.
    split; [|by rewrite <- !app_assoc]. split_and!; try done; unfold is_rev, is_u64 in *; lia.
  - intros [(H1 & H2 & H3 & H4) ->]. destruct v as [i d n x]. cbn in *. rewrite <- !app_assoc. do 4 run_part. rewrite (proj2 (Z.eqb_neq _ 0)); [done|]. unfold is_rev in H3. lia.
Qed.

Section OrderRecords.
Context {H : Type} `{Sha256 H}.

Lemma dec_order_internal_Ok key bs r rest : dec_order_internal key bs = Ok (r, rest) <->
  exists height children digest, r = OrderInternal key height children digest
    /\ 1 <= height <= DRAFT_PIECE_MAX_HEIGHT /\ (1 <= length children <= DRAFT_PIECE_MAX_CHILDREN)%nat /\ Forall order_child_typed children
    /\ fixed 32 digest /\ digest = marker_order_node_digest height children
    /\ bs = e_u8 height ++ e_u64 (zlen children) ++ concat (enc_order_child <$> children) ++ digest ++ rest.
Proof.
  unfold dec_order_internal, DRAFT_PIECE_MAX_CHILDREN, DRAFT_PIECE_MAX_HEIGHT. split.
  - intros Hd. do 2 part_inv Hd. case_match eqn:E; [done|]. bool_facts. unfold is_u64, is_u8 in *. do 2 part_inv Hd.
    case_match eqn:E'; [done|]. bool_facts. apply ret_Ok in Hd as [-> ->]. match goal with H : _ /\ Forall _ _ |- _ => destruct H as [Hl Hf] end.
    eexists _, _, _. split; [done|]. rewrite Hl, Z2Nat.id by lia. split_and!; try done; lia.
  - intros (h & cs & dg & -> & Hh & Hl & Hf & Hd & E & ->). do 2 run_part. rewrite (proj2 (Z.eqb_neq h 0)), (proj2 (Z.ltb_ge 64 h)), (proj2 (Z.eqb_neq _ 0)), (proj2 (Z.ltb_ge _ _)), Nat2Z.id by lia. cbn [orb].
    eapply bind_run; [apply _|by split|reflexivity|]. run_part. by rewrite bool_decide_true.
Qed.

Lemma dec_order_leaf_Ok key bs r rest : dec_order_leaf key bs = Ok (r, rest) <->
  exists marker_id label asset_id digest, r = OrderLeaf key marker_id label asset_id digest /\ order_marker_typed (marker_id, label, asset_id)
    /\ fixed 32 digest /\ digest = marker_order_leaf_digest (marker_id, label, asset_id)
    /\ bs = marker_id ++ e_u64 label ++ enc_asset_id asset_id ++ digest ++ rest.
Proof.
  unfold dec_order_leaf. split.
  - intros Hd. do 4 part_inv Hd. case_match eqn:E; [done|]. bool_facts. apply ret_Ok in Hd as [-> ->]. by eexists _, _, _, _.
  - intros (i & l & a & dg & -> & (H1 & H2 & H3) & H4 & E & ->). do 4 run_part. by rewrite bool_decide_true.
Qed.

#[global] Instance order_record_exact : Exact order_record_valid enc_order_record dec_order_record.
Proof.
  intros bs v rest. unfold dec_order_record, enc_order_record, order_record_valid. split.
  - intros Hd. part_inv Hd. case_match eqn:E.
    + apply dec_order_internal_Ok in Hd as (h & cs & dg & -> & ? & ? & ? & ? & ? & ->). cbn. split; [naive_solver|]. by rewrite <- !app_assoc.
    + apply dec_order_leaf_Ok in Hd as (i & l & a & dg & -> & ? & ? & ? & ->). cbn. split; [naive_solver|]. by rewrite <- !app_assoc.
  - intros [(Hk & Hd & Hr) ->]. destruct v as [k h cs dg|k i l a dg]; cbn [order_key order_digest] in *; destruct Hr as (E & Hr); rewrite <- !app_assoc; run_part; rewrite E.
    + apply dec_order_internal_Ok. exists h, cs, dg. naive_solver.
    + apply dec_order_leaf_Ok. exists i, l, a, dg. naive_solver.
Qed.

Lemma decode_marker_order_record_Ok bs r :
  decode_marker_order_record bs = Ok r <-> order_record_valid r /\ encode_marker_order_record r = Ok bs.
Proof.
  unfold decode_marker_order_record, encode_marker_order_record. rewrite (run_exact order_record_valid enc_order_record dec_order_record). naive_solver.
Qed.

(** ** Families *)

Lemma enc_marker_key_length k : marker_key_typed k -> zlen (enc_marker_key k) = 33.
Proof. intros [H1 H2]. unfold enc_marker_key, e_u8, fixed in *. rewrite !length_app, length_be_bytes, H1, H2. done. Qed.

Lemma concat_length_le {A} (enc : A -> list byte) (V : A -> Prop) n xs : (forall x, V x -> (length (enc x) <= n)%nat) -> Forall V xs ->
  (length (concat (enc <$> xs)) <= n * length xs)%nat.
Proof. intros He. induction 1 as [|x xs Hx _ IH]; [cbn; lia|]. cbn. rewrite length_app. specialize (He _ Hx). lia. Qed.

Lemma enc_asset_id_length a : piece_asset_valid a -> length (enc_asset_id a) = 41%nat.
Proof. intros [H1 _]. unfold enc_asset_id, e_u64, fixed in *. rewrite !length_app, length_be_bytes, H1. done. Qed.

Lemma enc_identity_record_length r : identity_record_typed r -> zlen (enc_identity_record r) <= 32768.
Proof.
  destruct r as [k h cs dg|k o dg]; cbn [enc_identity_record identity_record_typed]; unfold variant.
  - intros (Hk & _ & Hl & Hf & Hd). pose proof (enc_marker_key_length k Hk). unfold e_u8, e_u64, fixed, DRAFT_PIECE_MAX_CHILDREN in *. rewrite !length_app, !length_be_bytes.
    pose proof (concat_length_le enc_identity_child identity_child_typed 88 cs) as Hc. apply Hc in Hf; [lia|]. clear. intros c (H1 & H2 & _ & H4 & H5).
    unfold enc_identity_child, e_u64, fixed in *. rewrite !length_app, length_be_bytes. lia.
  - intros (Hk & (H1 & _ & H3 & _ & H5 & H6) & Hd). pose proof (enc_marker_key_length k Hk). unfold enc_occurrence, e_u8, e_u64, fixed in *.
    rewrite !length_app, !length_be_bytes, enc_asset_id_length by done. lia.
Qed.

Lemma enc_order_record_length r : order_record_valid r -> zlen (enc_order_record r) <= 32768.
Proof.
  intros (Hk & Hd & Hr). pose proof (enc_marker_key_length _ Hk). unfold enc_order_record. destruct r as [k h cs dg|k i l a dg]; cbn [order_key order_digest] in *.
  - destruct Hr as (_ & _ & Hl & Hf & _). unfold e_u8, e_u64, fixed, DRAFT_PIECE_MAX_CHILDREN in *. rewrite !length_app, !length_be_bytes.
    pose proof (concat_length_le enc_order_child order_child_typed 64 cs) as Hc. apply Hc in Hf; [lia|]. clear. intros c (H1 & H2 & _ & _).
    unfold enc_order_child, e_u64, fixed in *. rewrite !length_app, !length_be_bytes. lia.
  - destruct Hr as (_ & (Hi & _ & Ha) & _). unfold e_u64, fixed in *. rewrite !length_app, length_be_bytes, enc_asset_id_length by done. lia.
Qed.

Lemma enc_marker_key_inj k k' : marker_key_typed k -> marker_key_typed k' -> enc_marker_key k = enc_marker_key k' -> k = k'.
Proof.
  intros Hk Hk' E. assert (dec_marker_key "" (enc_marker_key k ++ []) = Ok (k, [])) as E1 by (by apply exact).
  assert (dec_marker_key "" (enc_marker_key k' ++ []) = Ok (k', [])) as E2 by (by apply exact). rewrite E in E1. congruence.
Qed.

#[global] Instance marker_identity_laws : FamilyLaws DraftMarkerRecordKey DraftMarkerIdentityRecord.
Proof.
  refine {| family_key_typed := marker_key_typed; family_typed := identity_record_typed |}.
  - done.
  - intros r bs Hr He. by apply decode_marker_identity_record_Ok.
  - intros r bs Hr [= <-]. by apply enc_identity_record_length.
  - intros k k' ek Hk Hk' [= <-] [= E]. by apply enc_marker_key_inj.
Defined.
#[global] Instance marker_order_laws : FamilyLaws DraftMarkerRecordKey DraftMarkerOrderRecord.
Proof.
  refine {| family_key_typed := marker_key_typed; family_typed := order_record_valid |}.
  - done.
  - intros r bs Hr He. by apply decode_marker_order_record_Ok.
  - intros r bs Hr [= <-]. by apply enc_order_record_length.
  - intros k k' ek Hk Hk' [= <-] [= E]. by apply enc_marker_key_inj.
Defined.
End OrderRecords.
