(* ===== verification/MarkerTree.v ===== *)
(** * The marker trees of a draft: operations

    [syndic-storage/src/draft_piece/persistent.rs] and [persistent/{marker_tree_edit,
    tree_balance}.rs]: loads and emissions of marker records, lookup, insertion and removal in the
    index of marker identities, insertion and removal by rank in the tree of the marker order, and
    the roots of both.  The point reads of the store are parameters. *)
From stdpp Require Import prelude gmap strings.
From S2P Require Import Prelude.
From S2P Require Import Bytes.
From S2P Require Import ModelDigest.
From S2P Require Import SyndicParts.
From S2P Require Import SyndicKeyOrder.
From S2P Require Import BuildBudget.
From S2P Require Import MappingModel.
From S2P Require Import MappingProgram.
From S2P Require Import PieceModel.
From S2P Require Import PieceTree.
From S2P Require Import MarkerModel.

(** [IndexRef] and [MarkerOrderRef] *)
Record TreeRef (L : Type) := mkTreeRef { tr_link : L; tr_height : Z; tr_root : bool }.
Arguments mkTreeRef {L} _ _ _.
Arguments tr_link {L} _.
Arguments tr_height {L} _.
Arguments tr_root {L} _.
Abbreviation IndexRef := (TreeRef DraftMarkerIdentityChild).
Abbreviation MarkerOrderRef := (TreeRef DraftMarkerOrderChild).

(** The context of [PieceTree] with the marker records beside it. *)
Record MarkerContext := mkMarkers {
  mc : PieceContext;
  mc_index : gmap DraftMarkerRecordKey DraftMarkerIdentityRecord;
  mc_order : gmap DraftMarkerRecordKey DraftMarkerOrderRecord;
  mc_loaded_index : gmap DraftMarkerRecordKey DraftMarkerIdentityRecord;
  mc_loaded_order : gmap DraftMarkerRecordKey DraftMarkerOrderRecord
}.
Definition with_pieces (c : MarkerContext) (p : PieceContext) : MarkerContext :=
  mkMarkers p (mc_index c) (mc_order c) (mc_loaded_index c) (mc_loaded_order c).

(** ** A state and error monad *)
Definition markerm (R A : Type) : Type := MarkerContext -> result (DraftPiecePrepareError R) (A * MarkerContext).
#[global] Instance markerm_ret R : MRet (markerm R) := fun A a c => Ok (a, c).
#[global] Instance markerm_bind R : MBind (markerm R) := fun A B k m c =>
  match m c with Ok (a, c') => k a c' | Err e => Err e end.
Definition lift_marker {R A} (r : result (DraftPiecePrepareError R) A) : markerm R A := fun c =>
  match r with Ok a => Ok (a, c) | Err e => Err e end.
Definition fail_marker {R A} (e : DraftPiecePrepareError R) : markerm R A := fun _ => Err e.
Definition in_pieces {R A} (m : piecem R A) : markerm R A := fun c =>
  match m (mc c) with Ok (a, p) => Ok (a, with_pieces c p) | Err e => Err e end.

(** [Iterator::position] *)
Fixpoint position {A} (f : A -> bool) (l : list A) : option nat :=
  match l with
  | [] => None
  | x :: l => if f x then Some 0%nat else S <$> position f l
  end.

(** ** What the two trees share *)

(** [EditedIdentity] and [EditedOrder] *)
Inductive EditedMarkers (L : Type) :=
  | MarkersEmpty
  | MarkersTree (tree : TreeRef L)
  | MarkersUnderfull (height : Z) (children : list L).
Arguments MarkersEmpty {L}.
Arguments MarkersTree {L} _.
Arguments MarkersUnderfull {L} _ _.

Section Balance.
Context {R L : Type}.
Context (load_children : L -> Z -> markerm R (list L)) (new_node : Z -> list L -> markerm R (TreeRef L)).

(** [tree_balance::rebalance_children] *)
Definition rebalance_children (children : list L) (index sibling_index : nat) (underfull sibling : list L) (build : list L -> markerm R L)
    : markerm R (list L) :=
  let combined := if (sibling_index <? index)%nat then sibling ++ underfull else underfull ++ sibling in
  replacements ← pack_children combined build;
  mret (replace_range children (Nat.min index sibling_index) (Nat.max index sibling_index) replacements).

Definition rebuild_markers (height : Z) (children : list L) : markerm R (EditedMarkers L) :=
  match children with
  | [] => mret MarkersEmpty
  | [_] => mret (MarkersUnderfull height children)
  | _ => tree ← new_node height children; mret (MarkersTree tree)
  end.

(** What a node of height [S h] makes of the edit of its child at [index]: the arms that
    [edit_identity] and [edit_order] have in common. *)
Definition edit_node (h : nat) (selected_root : bool) (children : list L) (index : nat) (edited : EditedMarkers L) : markerm R (EditedMarkers L) :=
  match edited with
  | MarkersEmpty => rebuild_markers (Z.of_nat (S h)) (delete index children)
  | MarkersTree replacement =>
      if negb (tr_height replacement =? Z.of_nat h) then fail_marker InvalidRoot
      else rebuild_markers (Z.of_nat (S h)) (<[index := tr_link replacement]> children)
  | MarkersUnderfull height underfull =>
      if negb (height =? Z.of_nat h) || negb (length underfull =? 1)%nat then fail_marker InvalidRoot
      else if (length children =? 1)%nat then
        if negb selected_root then fail_marker InvalidRoot else mret (MarkersUnderfull height underfull)
      else
        let sibling_index := if (index =? 0)%nat then 1%nat else (index - 1)%nat in
        match children !! sibling_index with
        | None => fail_marker InvalidRoot
        | Some link =>
            sibling ← load_children link height;
            children ← rebalance_children children index sibling_index underfull sibling (fun parts => t ← new_node height parts; mret (tr_link t));
            rebuild_markers (Z.of_nat (S h)) children
        end
  end.

(** The end of [remove_identity] and of [remove_order]. *)
Definition finish_markers (edited : EditedMarkers L) : markerm R (option (TreeRef L)) :=
  match edited with
  | MarkersEmpty => mret None
  | MarkersTree tree => mret (Some tree)
  | MarkersUnderfull height children =>
      match children with
      | [child] =>
          if height =? 0 then fail_marker InvalidRoot
          else if height =? 1 then t ← new_node 1 children; mret (Some t)
          else mret (Some (mkTreeRef child (height - 1) true))
      | _ => fail_marker InvalidRoot
      end
  end.

(** The end of [index_insert] and of [marker_order_insert]. *)
Definition join_parts (height : Z) (parts : list (TreeRef L)) : markerm R (option (TreeRef L)) :=
  match parts with
  | [part] => mret (Some part)
  | _ => t ← new_node (height + 1) (tr_link <$> parts); mret (Some t)
  end.
End Balance.

Section Markers.
Context {H : Type} `{Sha256 H} {R : Type}.
Context (index_store : DraftMarkerRecordKey -> result (DraftPiecePrepareError R) (option DraftMarkerIdentityRecord))
        (order_store : DraftMarkerRecordKey -> result (DraftPiecePrepareError R) (option DraftMarkerOrderRecord)).
Abbreviation marker_result := (result (DraftPiecePrepareError R)).

Definition kind_of (height : Z) : DraftMarkerRecordKind := if height =? 0 then KindLeaf else KindInternal.
Definition marker_draft : markerm R (list byte) := in_pieces draft_of.

(** ** The index: validation *)

Definition or_root {A} (r : marker_result A) : marker_result A := match r with Ok a => Ok a | Err _ => Err InvalidRoot end.

Definition validate_index_record (record : DraftMarkerIdentityRecord) (expected : IndexRef) (selected_root : bool)
    : marker_result DraftMarkerIdentityRecord :=
  if negb (bool_decide (mk_id (identity_key record) = ic_id (tr_link expected)))
     || negb (bool_decide (identity_digest record = index_record_digest record))
     || negb (identity_height record =? tr_height expected)
  then Err InvalidRoot
  else
    link ← or_root (index_child_for_record record);
    if negb (bool_decide (link = tr_link expected)) then Err InvalidRoot
    else match record with
         | IdentityLeaf _ _ _ => if tr_height expected =? 0 then Ok record else Err InvalidRoot
         | IdentityInternal _ _ children _ =>
             if tr_height expected =? 0 then Err InvalidRoot
             else
               let minimum_children := if selected_root then 1%nat else 2%nat in
               if (length children <? minimum_children)%nat || (DRAFT_PIECE_MAX_CHILDREN <? length children)%nat then Err InvalidRoot
               else Ok record
         end.

Definition validate_index_root_record (record : DraftMarkerIdentityRecord) (summary : DraftMarkerIdentityIndexSummary)
    : marker_result DraftMarkerIdentityRecord :=
  if negb (identity_height record =? is_height summary) || negb (bool_decide (identity_digest record = index_record_digest record))
  then Err InvalidRoot
  else match record with
       | IdentityLeaf _ _ _ => Err InvalidRoot
       | IdentityInternal _ _ children _ =>
           if bool_decide (children = []) || (DRAFT_PIECE_MAX_CHILDREN <? length children)%nat then Err InvalidRoot
           else
             link ← or_root (index_child_for_record record);
             if negb (ic_count link =? is_count summary)
                || negb (bool_decide (is_root_digest summary = index_root_digest (ic_count link) (is_height summary) (ic_digest link)))
             then Err InvalidRoot else Ok record
       end.

(** ** The index: loads and emissions *)

Definition remember_index (key : DraftMarkerRecordKey) (record : DraftMarkerIdentityRecord) : markerm R unit := fun c =>
  Ok (tt, mkMarkers (mc c) (mc_index c) (mc_order c) (<[key := record]> (mc_loaded_index c)) (mc_loaded_order c)).
Definition push_index (key : DraftMarkerRecordKey) (record : DraftMarkerIdentityRecord) : markerm R unit := fun c =>
  Ok (tt, mkMarkers (mc c) (<[key := record]> (mc_index c)) (mc_order c) (mc_loaded_index c) (mc_loaded_order c)).

Definition load_index_record (expected : IndexRef) (selected_root : bool) : markerm R DraftMarkerIdentityRecord := fun c =>
  let key := mkMarkerKey (bc_draft_id (pb (mc c))) (kind_of (tr_height expected)) (ic_id (tr_link expected)) in
  match mc_index c !! key with
  | Some record => lift_marker (validate_index_record record expected true) c
  | None =>
      match mc_loaded_index c !! key with
      | Some record => lift_marker (validate_index_record record expected selected_root) c
      | None =>
          (stored ← in_pieces (piece_point index_store key);
           record ← lift_marker (ok_or Absent stored);
           _ ← in_pieces count_read;
           record ← lift_marker (validate_index_record record expected selected_root);
           _ ← remember_index key record;
           mret record) c
      end
  end.

Definition load_index_root_record (id : list byte) (summary : DraftMarkerIdentityIndexSummary) : markerm R DraftMarkerIdentityRecord := fun c =>
  let key := mkMarkerKey (bc_draft_id (pb (mc c))) (kind_of (is_height summary)) id in
  match mc_index c !! key with
  | Some record => lift_marker (validate_index_root_record record summary) c
  | None =>
      match mc_loaded_index c !! key with
      | Some record => lift_marker (validate_index_root_record record summary) c
      | None =>
          (stored ← in_pieces (piece_point index_store key);
           record ← lift_marker (ok_or Absent stored);
           _ ← in_pieces count_read;
           if negb (bool_decide (identity_key record = key)) then fail_marker InvalidRoot
           else
             record ← lift_marker (validate_index_root_record record summary);
             _ ← remember_index key record;
             mret record) c
      end
  end.

Definition new_index_leaf (occurrence : DraftMarkerIdentityOccurrence) : markerm R IndexRef :=
  let digest := index_leaf_digest occurrence in
  id ← in_pieces (next_id digest);
  draft ← marker_draft;
  let key := mkMarkerKey draft KindLeaf id in
  let record := IdentityLeaf key occurrence digest in
  _ ← in_pieces (charge_emission key record);
  _ ← push_index key record;
  mret (mkTreeRef (mkIdentityChild id digest 1 (oc_marker_id occurrence) (oc_marker_id occurrence)) 0 true).

Definition new_index_node (height : Z) (children : list DraftMarkerIdentityChild) : markerm R IndexRef :=
  if (height =? 0) || (DRAFT_PIECE_MAX_HEIGHT <? height) || bool_decide (children = [])
     || (DRAFT_PIECE_MAX_CHILDREN <? length children)%nat
  then fail_marker (Rejected TreeLimit)
  else
    _ ← lift_marker (validate_index_children children);
    let digest := index_node_digest height children in
    id ← in_pieces (next_id digest);
    draft ← marker_draft;
    let key := mkMarkerKey draft KindInternal id in
    let record := IdentityInternal key height children digest in
    link ← lift_marker (index_child_for_record record);
    _ ← in_pieces (charge_emission key record);
    _ ← push_index key record;
    mret (mkTreeRef link height true).

(** ** The index: operations *)

Definition holds_id (marker_id : list byte) (child : DraftMarkerIdentityChild) : bool :=
  id_leb (ic_first child) marker_id && id_leb marker_id (ic_last child).

Fixpoint lookup_from (h : nat) (link : DraftMarkerIdentityChild) (selected_root : bool) (marker_id : list byte)
    : markerm R (option DraftMarkerIdentityOccurrence) :=
  record ← load_index_record (mkTreeRef link (Z.of_nat h) selected_root) selected_root;
  match h with
  | O =>
      occurrence ← lift_marker (ok_or InvalidRoot (identity_occurrence record));
      mret (if bool_decide (oc_marker_id occurrence = marker_id) then Some occurrence else None)
  | S h' =>
      children ← lift_marker (ok_or InvalidRoot (identity_children record));
      match i ← position (holds_id marker_id) children; children !! i with
      | None => mret None
      | Some selected => lookup_from h' selected false marker_id
      end
  end.
Definition index_lookup (root : option IndexRef) (marker_id : list byte) : markerm R (option DraftMarkerIdentityOccurrence) :=
  match root with
  | None => mret None
  | Some t => lookup_from (Z.to_nat (tr_height t)) (tr_link t) (tr_root t) marker_id
  end.

(** A record that is loaded has children, so that there is a child to remove. *)
Fixpoint index_insert_recursive (h : nat) (link : DraftMarkerIdentityChild) (selected_root : bool)
    (occurrence : DraftMarkerIdentityOccurrence) : markerm R (list IndexRef) :=
  let tree := mkTreeRef link (Z.of_nat h) selected_root in
  record ← load_index_record tree selected_root;
  match h with
  | O =>
      existing ← lift_marker (ok_or InvalidRoot (identity_occurrence record));
      if bool_decide (oc_marker_id existing = oc_marker_id occurrence) then fail_marker (Rejected DuplicateMarkerIdentity)
      else
        new ← new_index_leaf occurrence;
        mret (if id_ltb (oc_marker_id occurrence) (oc_marker_id existing) then [new; tree] else [tree; new])
  | S h' =>
      children ← lift_marker (ok_or InvalidRoot (identity_children record));
      let index := default (length children - 1)%nat (position (fun child => id_leb (oc_marker_id occurrence) (ic_last child)) children) in
      child ← lift_marker (ok_or InvalidRoot (children !! index));
      replacements ← index_insert_recursive h' child false occurrence;
      pack_children (replace_range children index index (tr_link <$> replacements)) (new_index_node (Z.of_nat h))
  end.
Definition index_insert (root : option IndexRef) (occurrence : DraftMarkerIdentityOccurrence) : markerm R (option IndexRef) :=
  match root with
  | None =>
      leaf ← new_index_leaf occurrence;
      t ← new_index_node 1 [tr_link leaf];
      mret (Some t)
  | Some t =>
      found ← index_lookup (Some t) (oc_marker_id occurrence);
      match found with
      | Some _ => fail_marker (Rejected DuplicateMarkerIdentity)
      | None =>
          parts ← index_insert_recursive (Z.to_nat (tr_height t)) (tr_link t) (tr_root t) occurrence;
          join_parts new_index_node (tr_height t) parts
      end
  end.

Fixpoint compress_index_from (h : nat) (link : DraftMarkerIdentityChild) (selected_root : bool) : markerm R (option IndexRef) :=
  let current := mkTreeRef link (Z.of_nat h) selected_root in
  match h with
  | O => mret (Some current)
  | S h' =>
      if (h <=? 1)%nat then mret (Some current)
      else
        record ← load_index_record current selected_root;
        children ← lift_marker (ok_or InvalidRoot (identity_children record));
        match children with
        | [child] => compress_index_from h' child true
        | _ => mret (Some current)
        end
  end.
Definition compress_index_root (root : option IndexRef) : markerm R (option IndexRef) :=
  match root with
  | None => mret None
  | Some t => compress_index_from (Z.to_nat (tr_height t)) (tr_link t) (tr_root t)
  end.

Definition load_index_children (link : DraftMarkerIdentityChild) (height : Z) : markerm R (list DraftMarkerIdentityChild) :=
  record ← load_index_record (mkTreeRef link height false) false;
  lift_marker (ok_or InvalidRoot (identity_children record)).

Fixpoint edit_identity (h : nat) (link : DraftMarkerIdentityChild) (selected_root : bool) (expected : DraftMarkerIdentityOccurrence)
    : markerm R (EditedMarkers DraftMarkerIdentityChild) :=
  record ← load_index_record (mkTreeRef link (Z.of_nat h) selected_root) selected_root;
  match h with
  | O => if bool_decide (identity_occurrence record = Some expected) then mret MarkersEmpty else fail_marker InvalidRoot
  | S h' =>
      children ← lift_marker (ok_or InvalidRoot (identity_children record));
      index ← lift_marker (ok_or InvalidRoot (position (holds_id (oc_marker_id expected)) children));
      child ← lift_marker (ok_or InvalidRoot (children !! index));
      edited ← edit_identity h' child false expected;
      edit_node load_index_children new_index_node h' selected_root children index edited
  end.
Definition remove_identity (tree : IndexRef) (expected : DraftMarkerIdentityOccurrence) : markerm R (option IndexRef) :=
  edited ← edit_identity (Z.to_nat (tr_height tree)) (tr_link tree) (tr_root tree) expected;
  finish_markers new_index_node edited.
Definition index_delete (root : option IndexRef) (occurrence : DraftMarkerIdentityOccurrence) : markerm R (option IndexRef) :=
  tree ← lift_marker (ok_or InvalidRoot root);
  remove_identity tree occurrence.

(** ** The order: validation, loads and emissions *)

Definition validate_marker_order_record (record : DraftMarkerOrderRecord) (expected : MarkerOrderRef) (selected_root : bool) : marker_result unit :=
  if negb (bool_decide (mk_id (order_key record) = mo_id (tr_link expected)))
     || negb (bool_decide (order_digest record = mo_digest (tr_link expected)))
     || negb (order_height record =? tr_height expected)
  then Err InvalidRoot
  else match record with
       | OrderLeaf _ marker_id label asset_id digest =>
           if negb (tr_height expected =? 0) || negb (mo_count (tr_link expected) =? 1) || negb (mo_maximum (tr_link expected) =? label)
              || negb (bool_decide (digest = marker_order_leaf_digest (marker_id, label, asset_id)))
           then Err InvalidRoot else Ok tt
       | OrderInternal _ height children digest =>
           if (height =? 0) || (DRAFT_PIECE_MAX_HEIGHT <? height) || bool_decide (children = [])
              || (DRAFT_PIECE_MAX_CHILDREN <? length children)%nat || (negb selected_root && (length children <? 2)%nat)
              || negb (bool_decide (digest = marker_order_node_digest height children))
           then Err InvalidRoot
           else
             count ← ok_or InvalidRoot (checked_sum (mo_count <$> children) 0);
             if negb (count =? mo_count (tr_link expected))
                || negb (bool_decide (maximum_label (mo_maximum <$> children) = Some (mo_maximum (tr_link expected))))
             then Err InvalidRoot else Ok tt
       end.

Definition remember_order (key : DraftMarkerRecordKey) (record : DraftMarkerOrderRecord) : markerm R unit := fun c =>
  Ok (tt, mkMarkers (mc c) (mc_index c) (mc_order c) (mc_loaded_index c) (<[key := record]> (mc_loaded_order c))).
Definition push_order (key : DraftMarkerRecordKey) (record : DraftMarkerOrderRecord) : markerm R unit := fun c =>
  Ok (tt, mkMarkers (mc c) (mc_index c) (<[key := record]> (mc_order c)) (mc_loaded_index c) (mc_loaded_order c)).

Definition find_order (key : DraftMarkerRecordKey) : markerm R DraftMarkerOrderRecord := fun c =>
  match mc_order c !! key with
  | Some record => Ok (record, c)
  | None =>
      match mc_loaded_order c !! key with
      | Some record => Ok (record, c)
      | None =>
          (stored ← in_pieces (piece_point order_store key);
           record ← lift_marker (ok_or Absent stored);
           _ ← in_pieces count_read;
           _ ← remember_order key record;
           mret record) c
      end
  end.
Definition load_marker_order_record (expected : MarkerOrderRef) (selected_root : bool) : markerm R DraftMarkerOrderRecord :=
  draft ← marker_draft;
  record ← find_order (mkMarkerKey draft (kind_of (tr_height expected)) (mo_id (tr_link expected)));
  _ ← lift_marker (validate_marker_order_record record expected selected_root);
  mret record.

Definition new_marker_order_leaf (marker : order_marker) : markerm R MarkerOrderRef :=
  let '(marker_id, label, asset_id) := marker in
  let digest := marker_order_leaf_digest marker in
  id ← in_pieces (next_id digest);
  draft ← marker_draft;
  let key := mkMarkerKey draft KindLeaf id in
  let record := OrderLeaf key marker_id label asset_id digest in
  _ ← in_pieces (charge_emission key record);
  _ ← push_order key record;
  link ← lift_marker (ok_or InvalidRoot (new_order_child id digest 1 (Some label)));
  mret (mkTreeRef link 0 true).

Definition new_marker_order_node (height : Z) (children : list DraftMarkerOrderChild) : markerm R MarkerOrderRef :=
  if (height =? 0) || (DRAFT_PIECE_MAX_HEIGHT <? height) || bool_decide (children = [])
     || (DRAFT_PIECE_MAX_CHILDREN <? length children)%nat
  then fail_marker (Rejected TreeLimit)
  else
    marker_count ← lift_marker (ok_or (Rejected AggregateOverflow) (checked_sum (mo_count <$> children) 0));
    maximum ← lift_marker (ok_or InvalidRoot (maximum_label (mo_maximum <$> children)));
    let digest := marker_order_node_digest height children in
    id ← in_pieces (next_id digest);
    draft ← marker_draft;
    let key := mkMarkerKey draft KindInternal id in
    let record := OrderInternal key height children digest in
    _ ← in_pieces (charge_emission key record);
    _ ← push_order key record;
    link ← lift_marker (ok_or InvalidRoot (new_order_child id digest marker_count (Some maximum)));
    mret (mkTreeRef link height true).

(** ** The order: operations *)

(** The child that takes a marker at a rank, the last one if none has room before its end. *)
Fixpoint select_order (remaining : Z) (index : nat) (children : list DraftMarkerOrderChild) (last : nat) : nat * Z :=
  match children with
  | [] => (last, remaining)
  | child :: children =>
      if remaining <=? mo_count child then (index, remaining)
      else select_order (remaining - mo_count child) (S index) children last
  end.

Fixpoint marker_order_insert_recursive (h : nat) (link : DraftMarkerOrderChild) (selected_root : bool) (rank : Z) (marker : order_marker)
    : markerm R (list MarkerOrderRef) :=
  let tree := mkTreeRef link (Z.of_nat h) selected_root in
  if mo_count link <? rank then fail_marker InvalidRoot
  else
    record ← load_marker_order_record tree selected_root;
    match h with
    | O =>
        _ ← lift_marker (ok_or InvalidRoot (order_marker_of record));
        new ← new_marker_order_leaf marker;
        if rank =? 0 then mret [new; tree] else if rank =? 1 then mret [tree; new] else fail_marker InvalidRoot
    | S h' =>
        children ← lift_marker (ok_or InvalidRoot (order_children record));
        let '(index, remaining) := select_order rank 0 children (length children - 1) in
        child ← lift_marker (ok_or InvalidRoot (children !! index));
        replacements ← marker_order_insert_recursive h' child false remaining marker;
        pack_children (replace_range children index index (tr_link <$> replacements)) (new_marker_order_node (Z.of_nat h))
    end.
Definition marker_order_insert (root : option MarkerOrderRef) (rank : Z) (marker : order_marker) : markerm R (option MarkerOrderRef) :=
  match root with
  | None =>
      if negb (rank =? 0) then fail_marker InvalidRoot
      else
        leaf ← new_marker_order_leaf marker;
        t ← new_marker_order_node 1 [tr_link leaf];
        mret (Some t)
  | Some t =>
      parts ← marker_order_insert_recursive (Z.to_nat (tr_height t)) (tr_link t) (tr_root t) rank marker;
      join_parts new_marker_order_node (tr_height t) parts
  end.

Fixpoint compress_order_from (h : nat) (link : DraftMarkerOrderChild) (selected_root : bool) : markerm R (option MarkerOrderRef) :=
  let current := mkTreeRef link (Z.of_nat h) selected_root in
  match h with
  | O => mret (Some current)
  | S h' =>
      if (h <=? 1)%nat then mret (Some current)
      else
        record ← load_marker_order_record current true;
        children ← lift_marker (ok_or InvalidRoot (order_children record));
        match children with
        | [child] => compress_order_from h' child true
        | _ => mret (Some current)
        end
  end.
Definition compress_marker_order_root (root : option MarkerOrderRef) : markerm R (option MarkerOrderRef) :=
  match root with
  | None => mret None
  | Some t => compress_order_from (Z.to_nat (tr_height t)) (tr_link t) (tr_root t)
  end.

(** The first child that holds the marker of a rank, with the rank in it. *)
Fixpoint select_order_rank (remaining : Z) (index : nat) (children : list DraftMarkerOrderChild) : option (nat * Z) :=
  match children with
  | [] => None
  | child :: children =>
      if remaining <? mo_count child then Some (index, remaining)
      else select_order_rank (remaining - mo_count child) (S index) children
  end.

Definition load_order_children (link : DraftMarkerOrderChild) (height : Z) : markerm R (list DraftMarkerOrderChild) :=
  record ← load_marker_order_record (mkTreeRef link height false) false;
  lift_marker (ok_or InvalidRoot (order_children record)).

Fixpoint edit_order (h : nat) (link : DraftMarkerOrderChild) (selected_root : bool) (rank : Z) (expected : order_marker)
    : markerm R (EditedMarkers DraftMarkerOrderChild) :=
  record ← load_marker_order_record (mkTreeRef link (Z.of_nat h) selected_root) selected_root;
  match h with
  | O => if (rank =? 0) && bool_decide (order_marker_of record = Some expected) then mret MarkersEmpty else fail_marker InvalidRoot
  | S h' =>
      children ← lift_marker (ok_or InvalidRoot (order_children record));
      '(index, remaining) ← lift_marker (ok_or InvalidRoot (select_order_rank rank 0 children));
      child ← lift_marker (ok_or InvalidRoot (children !! index));
      edited ← edit_order h' child false remaining expected;
      edit_node load_order_children new_marker_order_node h' selected_root children index edited
  end.
Definition remove_order (tree : MarkerOrderRef) (rank : Z) (expected : order_marker) : markerm R (option MarkerOrderRef) :=
  edited ← edit_order (Z.to_nat (tr_height tree)) (tr_link tree) (tr_root tree) rank expected;
  finish_markers new_marker_order_node edited.
Definition marker_order_delete (root : option MarkerOrderRef) (rank : Z) (expected : order_marker) : markerm R (option MarkerOrderRef) :=
  tree ← lift_marker (ok_or InvalidRoot root);
  successor ← remove_order tree rank expected;
  compress_marker_order_root successor.
End Markers.
