(* ===== verification/MarkerBalance.v ===== *)
(** * The marker trees of a draft: what keeps them balanced

    The steps that the index of marker identities and the tree of the marker order share: packing
    children into nodes, merging an underfull child with a sibling, rebuilding a node, and joining
    or cutting off a root.  They are proved once, against the interface [BalancedTree] of what a
    tree promises about its loads and its new nodes; each tree is an instance. *)
From stdpp Require Import prelude gmap strings.
From S2P Require Import Prelude.
From S2P Require Import BuildBudget.
From S2P Require Import PieceModel.
From S2P Require Import PieceTree.
From S2P Require Import MarkerModel.
From S2P Require Import MarkerTree.

(** ** Total correctness up to resources *)

Definition mwp {R A} (P : Prop) (m : markerm R A) (c : MarkerContext) (Q : A -> MarkerContext -> Prop) : Prop :=
  match m c with Ok (a, c') => Q a c' | Err _ => ~ P end.

Section Wp.
Context {R : Type} (P : Prop).

Lemma mwp_ret {A} (a : A) c (Q : A -> MarkerContext -> Prop) : Q a c -> mwp P (mret (M := markerm R) a) c Q.
Proof. done. Qed.
Lemma mwp_bind {A B} (m : markerm R A) (k : A -> markerm R B) c Q : mwp P m c (fun a c' => mwp P (k a) c' Q) -> mwp P (m ≫= k) c Q.
Proof. unfold mwp, mbind, markerm_bind. by destruct (m c) as [[a c']|]. Qed.
Lemma mwp_mono {A} (m : markerm R A) c (Q Q' : A -> MarkerContext -> Prop) : mwp P m c Q -> (forall a c', Q a c' -> Q' a c') -> mwp P m c Q'.
Proof. unfold mwp. destruct (m c) as [[a c']|]; auto. Qed.
Lemma mwp_lift {A} r (a : A) c (Q : A -> MarkerContext -> Prop) : r = Ok a -> Q a c -> mwp (R := R) P (lift_marker r) c Q.
Proof. intros ->. done. Qed.
Lemma mwp_fail {A} e c (Q : A -> MarkerContext -> Prop) : ~ P -> mwp (R := R) P (fail_marker e) c Q.
Proof. done. Qed.
End Wp.

(** ** The interface *)

Section Balance.
Context {R L X : Type} (P : Prop).
Context (load_children : L -> Z -> markerm R (list L)) (new_node : Z -> list L -> markerm R (TreeRef L)).
(** [tree c h root x xs]: in context [c], [x] links a tree of height [h] over [xs], whose top node
    may have a single child if [root]. *)
Context (tree : MarkerContext -> nat -> bool -> L -> list X -> Prop).
(** Room for loads and emissions; the contexts that keep what is there; what may be stored. *)
Context (ready : nat -> nat -> MarkerContext -> Prop) (keeps : MarkerContext -> MarkerContext -> Prop) (valid : list X -> Prop).

Abbreviation forest c h := (Forall2 (fun xs x => tree c h false x xs)).

Class BalancedTree : Prop := {
  bt_le l e l' e' c : (l' <= l)%nat -> (e' <= e)%nat -> ready l e c -> ready l' e' c;
  bt_refl c : keeps c c;
  bt_trans c c' c'' : keeps c c' -> keeps c' c'' -> keeps c c'';
  bt_mono c c' h root x xs : keeps c c' -> tree c h root x xs -> tree c' h root x xs;
  bt_weaken c h x xs : tree c h false x xs -> tree c h true x xs;
  bt_valid_app xs ys : valid (xs ++ ys) -> valid xs /\ valid ys;
  bt_load l e c h x xs : ready (S l) e c -> tree c (S h) false x xs ->
    mwp P (load_children x (Z.of_nat (S h))) c (fun cs c' => exists xss, forest c' h xss cs /\ concat xss = xs
      /\ (2 <= length cs <= DRAFT_PIECE_MAX_CHILDREN)%nat /\ ready l e c' /\ keeps c c');
  bt_new l e c h xss cs : ready l (S e) c -> forest c h xss cs -> (1 <= length cs <= DRAFT_PIECE_MAX_CHILDREN)%nat ->
    (P -> Z.of_nat (S h) <= DRAFT_PIECE_MAX_HEIGHT) -> (P -> valid (concat xss)) ->
    mwp P (new_node (Z.of_nat (S h)) cs) c (fun t c' => tr_height t = Z.of_nat (S h) /\ tr_root t = true
      /\ tree c' (S h) (length cs =? 1)%nat (tr_link t) (concat xss) /\ ready l e c' /\ keeps c c')
}.
Context `{BalancedTree}.

Lemma bt_forest c c' h xss cs : keeps c c' -> forest c h xss cs -> forest c' h xss cs.
Proof. intros Hk Hf. eapply Forall2_impl; [done|]. intros. by eapply bt_mono. Qed.
Lemma bt_any c h root x xs : tree c h false x xs -> tree c h root x xs.
Proof. destruct root; [apply bt_weaken|done]. Qed.
Lemma bt_single c h root n x xs : (root = false -> (2 <= n)%nat) -> tree c h (n =? 1)%nat x xs -> tree c h root x xs.
Proof. intros Hn. destruct (Nat.eqb_spec n 1) as [->|]; [|apply bt_any]. destruct root; [done|]. specialize (Hn eq_refl). lia. Qed.

(** ** Packing *)

(** One tree, or two that a split made. *)
Definition parts_of (c : MarkerContext) (h : nat) (root : bool) (ys : list X) (ts : list (TreeRef L)) : Prop :=
  match ts with
  | [t] => (0 < h)%nat /\ tr_height t = Z.of_nat h /\ tr_root t = true /\ tree c h root (tr_link t) ys
  | [a; b] => exists ya yb, ys = ya ++ yb /\ tree c h false (tr_link a) ya /\ tree c h false (tr_link b) yb
  | _ => False
  end.

Lemma mwp_pack l e c h (root : bool) xss cs : ready l (2 + e) c -> forest c h xss cs ->
  ((if root then 1 else 2) <= length cs <= S DRAFT_PIECE_MAX_CHILDREN)%nat ->
  (P -> Z.of_nat (S h) <= DRAFT_PIECE_MAX_HEIGHT) -> (P -> valid (concat xss)) ->
  mwp P (pack_children cs (new_node (Z.of_nat (S h)))) c (fun ts c' => parts_of c' (S h) root (concat xss) ts /\ ready l e c' /\ keeps c c').
Proof.
  intros Hr Hf Hl HH HV. unfold pack_children. destruct (Nat.leb_spec (length cs) DRAFT_PIECE_MAX_CHILDREN) as [Hle|Hgt].
  - apply mwp_bind. eapply mwp_mono; [eapply (bt_new l (S e)); try done; destruct root; lia|]. intros t c1 (T1 & T2 & T3 & Hr1 & Hk1).
    apply mwp_ret. split_and!; [|by eapply bt_le; [| |exact Hr1]; lia|done]. split_and!; try done; [lia|].
    eapply bt_single; [|exact T3]. intros ->. lia.
  - unfold DRAFT_PIECE_MAX_CHILDREN in *. set (mid := (length cs / 2)%nat). assert (Hmid : (64 <= mid <= 64)%nat).
    { assert (length cs = 129%nat) as E by lia. unfold mid. rewrite E. by vm_compute. }
    pose proof (Forall2_length _ _ _ Hf) as Elen. pose proof (Forall2_take _ _ _ mid Hf) as Hf1. pose proof (Forall2_drop _ _ _ mid Hf) as Hf2.
    assert (HV' : P -> valid (concat (take mid xss)) /\ valid (concat (drop mid xss))).
    { intros HP. apply bt_valid_app. rewrite <- concat_app, take_drop. by apply HV. }
    apply mwp_bind. eapply mwp_mono; [eapply (bt_new l (S e) c h (take mid xss) (take mid cs)); try done; [rewrite length_take; unfold DRAFT_PIECE_MAX_CHILDREN; lia|tauto]|].
    intros a c1 (A1 & A2 & A3 & Hr1 & Hk1). apply mwp_bind.
    eapply mwp_mono; [eapply (bt_new l e c1 h (drop mid xss) (drop mid cs)); try done; [by eapply bt_forest|rewrite length_drop; unfold DRAFT_PIECE_MAX_CHILDREN; lia|tauto]|].
    intros b c2 (B1 & B2 & B3 & Hr2 & Hk2). apply mwp_ret. split_and!; [|done|by eapply bt_trans].
    exists (concat (take mid xss)), (concat (drop mid xss)). split_and!; [by rewrite <- concat_app, take_drop| |].
    + eapply bt_mono; [done|]. eapply bt_single; [|exact A3]. rewrite length_take. lia.
    + eapply bt_single; [|exact B3]. rewrite length_drop. lia.
Qed.

Lemma parts_links c h ys ts : parts_of c h false ys ts -> exists yss, forest c h yss (tr_link <$> ts) /\ concat yss = ys /\ (1 <= length ts <= 2)%nat.
Proof.
  destruct ts as [|t [|b [|]]]; cbn [parts_of]; try done.
  - intros (_ & _ & _ & Ht). exists [ys]. split_and!; [by repeat constructor|cbn; by rewrite app_nil_r|cbn; lia|cbn; lia].
  - intros (ya & yb & -> & Ha & Hb). exists [ya; yb]. split_and!; [by repeat constructor|cbn; by rewrite app_nil_r|cbn; lia|cbn; lia].
Qed.

(** The children around a child that became parts. *)
Lemma replace_one {A} (cpre : list A) child cpost r : replace_range (cpre ++ child :: cpost) (length cpre) (length cpre) r = cpre ++ r ++ cpost.
Proof. unfold replace_range. rewrite take_app_length, drop_app_ge, Nat.sub_succ_l, Nat.sub_diag by lia. done. Qed.

Lemma mwp_insert_node l e c h (root : bool) pre post cpre child cpost ys ts : ready l (2 + e) c -> forest c h pre cpre -> forest c h post cpost ->
  parts_of c h false ys ts -> ((if root then 1 else 2) <= length (cpre ++ child :: cpost) <= DRAFT_PIECE_MAX_CHILDREN)%nat ->
  (P -> Z.of_nat (S h) <= DRAFT_PIECE_MAX_HEIGHT) -> let all := concat pre ++ ys ++ concat post in (P -> valid all) ->
  mwp P (pack_children (replace_range (cpre ++ child :: cpost) (length cpre) (length cpre) (tr_link <$> ts)) (new_node (Z.of_nat (S h)))) c
    (fun roots c' => parts_of c' (S h) root all roots /\ ready l e c' /\ keeps c c').
Proof.
  intros Hr Hpre Hpost Hts Hl HH all HV. apply parts_links in Hts as (yss & Hf & E & Hlt).
  assert (Econ : concat (pre ++ yss ++ post) = all) by (by rewrite !concat_app, E). rewrite replace_one, <- Econ in *.
  rewrite length_app in Hl. cbn [length] in Hl.
  eapply mwp_pack; try done; [apply Forall2_app; [done|by apply Forall2_app]|]. rewrite !length_app, length_fmap. destruct root; lia.
Qed.

(** A root over the parts. *)
Definition root_tree (c : MarkerContext) (t : option (TreeRef L)) (ys : list X) : Prop :=
  match t with
  | None => ys = []
  | Some t => tr_root t = true /\ exists h, tr_height t = Z.of_nat (S h) /\ tree c (S h) true (tr_link t) ys
  end.
Definition tree_height (t : option (TreeRef L)) : nat := from_option (fun t => Z.to_nat (tr_height t)) 0%nat t.

Lemma mwp_join l e c h ys ts : ready l (S e) c -> parts_of c (S h) true ys ts -> (P -> Z.of_nat (S (S h)) <= DRAFT_PIECE_MAX_HEIGHT) -> (P -> valid ys) ->
  mwp P (join_parts new_node (Z.of_nat (S h)) ts) c (fun t c' => root_tree c' t ys /\ (tree_height t <= S (S h))%nat /\ ready l e c' /\ keeps c c').
Proof.
  intros Hr Hts HH HV. destruct ts as [|t [|b [|]]]; cbn [parts_of] in Hts; try done; cbn [join_parts fmap list_fmap].
  - destruct Hts as (Hh & E1 & E2 & Ht). apply mwp_ret. split_and!; [split; [done|]; by exists h|cbn; lia|by eapply bt_le; [| |exact Hr]; lia|apply bt_refl].
  - destruct Hts as (ya & yb & -> & Ha & Hb). replace (Z.of_nat (S h) + 1) with (Z.of_nat (S (S h))) by lia.
    apply mwp_bind. eapply mwp_mono; [eapply (bt_new l e c (S h) [ya; yb]); try done; [by repeat constructor|cbn; unfold DRAFT_PIECE_MAX_CHILDREN; lia|cbn; by rewrite app_nil_r]|].
    cbn [concat]. rewrite app_nil_r. intros t' c1 (T1 & T2 & T3 & Hr1 & Hk1). apply mwp_ret. split_and!; [|cbn; lia|done|done]. split; [done|]. exists (S h). split; [done|]. by apply bt_weaken.
Qed.

(** ** What an edit leaves of a subtree *)

Definition edited_of (c : MarkerContext) (h : nat) (root : bool) (ys : list X) (res : EditedMarkers L) : Prop :=
  match res with
  | MarkersEmpty => ys = []
  | MarkersTree t => tr_height t = Z.of_nat h /\ (0 < h)%nat /\ tr_root t = true /\ tree c h false (tr_link t) ys
  | MarkersUnderfull hh [child] => exists k, hh = Z.of_nat (S k) /\ (S k <= h)%nat /\ (root = false -> S k = h) /\ tree c k false child ys
  | MarkersUnderfull _ _ => False
  end.

Lemma mwp_rebuild l e c h root yss cs : ready l (S e) c -> forest c h yss cs -> (length cs <= DRAFT_PIECE_MAX_CHILDREN)%nat ->
  (P -> Z.of_nat (S h) <= DRAFT_PIECE_MAX_HEIGHT) -> (P -> valid (concat yss)) ->
  mwp P (rebuild_markers new_node (Z.of_nat (S h)) cs) c (fun res c' => edited_of c' (S h) root (concat yss) res /\ ready l e c' /\ keeps c c').
Proof.
  intros Hr Hf Hl HH HV. destruct cs as [|x [|y cs]].
  - apply Forall2_nil_inv_r in Hf as ->. apply mwp_ret. split_and!; [done| |apply bt_refl]. eapply bt_le; [| |exact Hr]; lia.
  - apply Forall2_cons_inv_r in Hf as (qs & yss' & Hx & Hf & ->). apply Forall2_nil_inv_r in Hf as ->.
    apply mwp_ret. split_and!; [|eapply bt_le; [| |exact Hr]; lia|apply bt_refl]. exists h. split_and!; try done. cbn [concat]. by rewrite app_nil_r.
  - cbn [rebuild_markers]. apply mwp_bind. eapply mwp_mono; [eapply (bt_new l e); try done; cbn [length] in *; lia|]. intros t c1 (T1 & T2 & T3 & Hr1 & Hk1).
    apply mwp_ret. split_and!; try done. split_and!; try done. lia.
Qed.

(** An underfull child and a sibling become one node or two. *)
Lemma mwp_merge_pair l e c k (first : bool) sib sxs u uxs : ready (S l) (2 + e) c -> tree c (S k) false sib sxs -> tree c k false u uxs ->
  (P -> Z.of_nat (S k) <= DRAFT_PIECE_MAX_HEIGHT) -> let all := if first then sxs ++ uxs else uxs ++ sxs in (P -> valid all) ->
  mwp P (sibling ← load_children sib (Z.of_nat (S k)); pack_children (if first then sibling ++ [u] else [u] ++ sibling)
         (fun parts => t ← new_node (Z.of_nat (S k)) parts; mret (tr_link t))) c (fun links c' =>
    exists yss, forest c' (S k) yss links /\ concat yss = all /\ (1 <= length links <= 2)%nat /\ ready l e c' /\ keeps c c').
Proof.
  intros Hr Hs Hu HH all HV. apply mwp_bind. eapply mwp_mono; [by eapply (bt_load l (2 + e))|]. intros cs c1 (xss & Hf & E & Hl & Hr1 & Hk1).
  assert (Hall : forest c1 k (if first then xss ++ [uxs] else [uxs] ++ xss) (if first then cs ++ [u] else [u] ++ cs)).
  { pose proof (bt_mono _ _ _ _ _ _ Hk1 Hu). destruct first; apply Forall2_app; try done; by repeat constructor. }
  assert (Econ : concat (if first then xss ++ [uxs] else [uxs] ++ xss) = all).
  { unfold all. rewrite <- E. destruct first; rewrite concat_app; cbn [concat]; by rewrite app_nil_r. }
  rewrite <- Econ in HV |- *.
  assert (Hlen : (2 <= length (if first then cs ++ [u] else [u] ++ cs) <= S DRAFT_PIECE_MAX_CHILDREN)%nat)
    by (destruct first; rewrite length_app; cbn [length]; lia).
  pose proof (mwp_pack l e c1 k false _ _ Hr1 Hall Hlen HH HV) as Hp. unfold pack_children in *.
  set (bs := if first then cs ++ [u] else [u] ++ cs) in *. set (yss := if first then xss ++ [uxs] else [uxs] ++ xss) in *. clearbody bs yss.
  assert (Hfin : forall ts c2, parts_of c2 (S k) false (concat yss) ts /\ ready l e c2 /\ keeps c1 c2 ->
    exists zss, forest c2 (S k) zss (tr_link <$> ts) /\ concat zss = concat yss /\ (1 <= length (tr_link <$> ts) <= 2)%nat /\ ready l e c2 /\ keeps c c2).
  { intros ts c2 (Hts & Hr2 & Hk2). apply parts_links in Hts as (zss & Hz & Ez & Hlz). exists zss. rewrite length_fmap. split_and!; try done; try lia. by eapply bt_trans. }
  unfold mwp, mbind, markerm_bind in *. destruct (_ <=? _)%nat.
  - destruct (new_node _ _ _) as [[t c2]|]; [|done]. cbn. apply (Hfin [t] c2 Hp).
  - destruct (new_node _ (take _ _) _) as [[a c2]|]; [|done]. cbn. destruct (new_node _ (drop _ _) _) as [[b c3]|]; [|done]. cbn. apply (Hfin [a; b] c3 Hp).
Qed.

Lemma mwp_merge l e c k pre post cpre child cpost u uxs : ready (S l) (2 + e) c ->
  forest c (S k) pre cpre -> forest c (S k) post cpost -> tree c k false u uxs -> (2 <= length (cpre ++ child :: cpost))%nat ->
  (P -> Z.of_nat (S k) <= DRAFT_PIECE_MAX_HEIGHT) -> let all := concat pre ++ uxs ++ concat post in (P -> valid all) ->
  let children := cpre ++ child :: cpost in let index := length cpre in
  let sibling_index := if (index =? 0)%nat then 1%nat else (index - 1)%nat in
  exists link, children !! sibling_index = Some link /\
  mwp P (sibling ← load_children link (Z.of_nat (S k));
         rebalance_children children index sibling_index [u] sibling (fun parts => t ← new_node (Z.of_nat (S k)) parts; mret (tr_link t))) c (fun cs c' =>
    exists yss, forest c' (S k) yss cs /\ concat yss = all /\ (length cs <= length children)%nat /\ ready l e c' /\ keeps c c').
Proof.
  intros Hr Hpre Hpost Hu Hlen HH all HV children index sibling_index. unfold sibling_index, index, children. clear sibling_index index children.
  destruct cpre as [|x cpre _] using rev_ind.
  - apply Forall2_nil_inv_r in Hpre as ->. destruct cpost as [|sib cpost]; [cbn in Hlen; lia|].
    apply Forall2_cons_inv_r in Hpost as (sxs & post' & Hsib & Hpost & ->). exists sib. split; [done|]. unfold rebalance_children. cbn [length app Nat.eqb Nat.ltb Nat.leb concat] in *.
    assert (Hsub : all = (uxs ++ sxs) ++ concat post') by (unfold all; by rewrite app_assoc).
    pose proof (mwp_merge_pair l e c k false sib sxs u uxs Hr Hsib Hu HH) as Hp. cbv zeta in Hp.
    assert (Hp' := Hp ltac:(intros HP; apply HV in HP; rewrite Hsub in HP; by apply bt_valid_app in HP as [HP _])). clear Hp.
    unfold mwp, mbind, markerm_bind in Hp' |- *. destruct (load_children _ _ _) as [[sibling c1]|]; [|done].
    destruct (pack_children (M := markerm R) _ _ _) as [[links c2]|]; [|done]. cbn. destruct Hp' as (yss & Hf & E & Hl & Hr2 & Hk2).
    unfold replace_range. cbn [Nat.min Nat.max take drop app].
    exists (yss ++ post'). split_and!; try done; [apply Forall2_app; [done|by eapply bt_forest]|by rewrite concat_app, E, Hsub|]. rewrite length_app. cbn [length] in *. rewrite drop_0. lia.
  - apply Forall2_app_inv_r in Hpre as (pre' & sq & Hpre & Hx & ->). apply Forall2_cons_inv_r in Hx as (sxs & sq' & Hsib & Hx & ->).
    apply Forall2_nil_inv_r in Hx as ->. rewrite length_app in *. cbn [length] in *. rewrite (proj2 (Nat.eqb_neq _ 0)) by lia.
    replace (length cpre + 1 - 1)%nat with (length cpre) by lia. rewrite <- (app_assoc cpre). cbn [app]. exists x. rewrite list_lookup_middle by done. split; [done|].
    unfold rebalance_children. rewrite (proj2 (Nat.ltb_lt _ _)) by lia.
    assert (Hsub : all = concat pre' ++ (sxs ++ uxs) ++ concat post) by (unfold all; rewrite concat_app; cbn [concat]; by rewrite app_nil_r, <- !app_assoc).
    pose proof (mwp_merge_pair l e c k true x sxs u uxs Hr Hsib Hu HH) as Hp. cbv zeta in Hp.
    assert (Hp' := Hp ltac:(intros HP; apply HV in HP; rewrite Hsub in HP; apply bt_valid_app in HP as [_ HP]; by apply bt_valid_app in HP as [HP _])). clear Hp.
    unfold mwp, mbind, markerm_bind in Hp' |- *. destruct (load_children _ _ _) as [[sibling c1]|]; [|done].
    destruct (pack_children (M := markerm R) _ _ _) as [[links c2]|]; [|done]. cbn. destruct Hp' as (yss & Hf & E & Hl & Hr2 & Hk2).
    unfold replace_range. rewrite Nat.min_r, Nat.max_l, take_app_length by lia.
    replace (drop (S (length cpre + 1)) (cpre ++ x :: child :: cpost)) with cpost.
    2: { rewrite drop_app_ge by lia. by replace (S (length cpre + 1) - length cpre)%nat with 2%nat by lia. }
    exists (pre' ++ yss ++ post). split_and!; try done.
    + apply Forall2_app; [by eapply bt_forest|]. apply Forall2_app; [done|by eapply bt_forest].
    + by rewrite !concat_app, E, Hsub.
    + rewrite !length_app in *. cbn [length] in *. lia.
Qed.

(** ** The edit of a node *)

Lemma mwp_edit_node l e c h (root : bool) pre post cpre child cpost ys edited : ready (S l) (3 + e) c -> forest c h pre cpre -> forest c h post cpost ->
  edited_of c h false ys edited -> ((if root then 1 else 2) <= length (cpre ++ child :: cpost) <= DRAFT_PIECE_MAX_CHILDREN)%nat ->
  (P -> Z.of_nat (S h) <= DRAFT_PIECE_MAX_HEIGHT) -> let all := concat pre ++ ys ++ concat post in (P -> valid all) ->
  mwp P (edit_node load_children new_node h root (cpre ++ child :: cpost) (length cpre) edited) c (fun res c' =>
    edited_of c' (S h) root all res /\ ready l e c' /\ keeps c c').
Proof.
  intros Hr Hpre Hpost Hed Hl HH all HV.
  assert (Hreb : forall l' c1 yss cs, (l <= l')%nat -> ready l' (S e) c1 -> keeps c c1 -> forest c1 h yss cs -> (length cs <= length (cpre ++ child :: cpost))%nat -> concat yss = all ->
    mwp P (rebuild_markers new_node (Z.of_nat (S h)) cs) c1 (fun res c' => edited_of c' (S h) root all res /\ ready l e c' /\ keeps c c')).
  { intros l' c1 yss cs Hle Hr1 Hk1 Hf1 Hl1 <-. eapply mwp_mono; [eapply (mwp_rebuild l e c1 h root yss cs); try done; [by eapply bt_le; [| |exact Hr1]|lia]|].
    intros res c2 (He & Hr2 & Hk2). split_and!; try done. by eapply bt_trans. }
  destruct edited as [|t|hh us]; cbn [edited_of] in Hed; cbn [edit_node].
  - subst ys. rewrite delete_middle. apply (Hreb (S l) c (pre ++ post)); [lia|by eapply bt_le; [| |exact Hr]; lia|apply bt_refl|by apply Forall2_app| |by rewrite concat_app].
    rewrite !length_app. cbn [length]. lia.
  - destruct Hed as (T1 & _ & T2 & T3). rewrite T1, Z.eqb_refl. cbn [negb]. rewrite insert_app_r_alt, Nat.sub_diag by lia. cbn [insert list_insert].
    apply (Hreb (S l) c (pre ++ ys :: post)); [lia|by eapply bt_le; [| |exact Hr]; lia|apply bt_refl| | |by rewrite concat_app].
    + apply Forall2_app; [done|]. by constructor.
    + rewrite !length_app. cbn [length]. lia.
  - destruct us as [|u [|]]; [done| |done]. destruct Hed as (k & -> & Hk & Hkh & Hu). specialize (Hkh eq_refl). subst h.
    rewrite Z.eqb_refl. cbn [negb orb length Nat.eqb]. destruct (Nat.eqb_spec (length (cpre ++ child :: cpost)) 1) as [E1|E1].
    + assert (root = true) as -> by (destruct root; [done|]; lia). cbn [negb]. apply mwp_ret.
      split_and!; [|by eapply bt_le; [| |exact Hr]; lia|apply bt_refl]. rewrite length_app in E1. cbn [length] in E1.
      destruct cpre; [|cbn in E1; lia]. destruct cpost; [|cbn in E1; lia]. apply Forall2_nil_inv_r in Hpre as ->. apply Forall2_nil_inv_r in Hpost as ->.
      unfold all. cbn [concat app]. rewrite app_nil_r. exists k. split_and!; [done|lia|done|done].
    + destruct (mwp_merge l (S e) c k pre post cpre child cpost u ys) as (link & El & Hm); try done.
      { destruct root; lia. } { intros HP. specialize (HH HP). lia. }
      rewrite El. unfold mwp, mbind, markerm_bind in Hm |- *. destruct (load_children _ _ _) as [[sibling c1]|]; [|done].
      destruct (rebalance_children _ _ _ _ _ _ _) as [[cs c2]|]; [|done]. destruct Hm as (yss & Hf & E & Hlc & Hr2 & Hk2).
      apply (Hreb l c2 yss cs); try done.
Qed.

Lemma mwp_finish l e c h ys edited : ready l (S e) c -> edited_of c (S h) true ys edited -> (P -> valid ys) ->
  mwp P (finish_markers new_node edited) c (fun t c' => root_tree c' t ys /\ (tree_height t <= S h)%nat /\ ready l e c' /\ keeps c c').
Proof.
  intros Hr He HV. assert (Hr' : ready l e c) by (eapply bt_le; [| |exact Hr]; lia).
  destruct edited as [|t|hh us]; cbn [finish_markers edited_of] in *.
  - apply mwp_ret. split_and!; [done|cbn; lia|done|apply bt_refl].
  - destruct He as (E1 & _ & E2 & Ht). apply mwp_ret. split_and!; [|cbn; lia|done|apply bt_refl]. split; [done|]. exists h. split; [done|]. by apply bt_weaken.
  - destruct us as [|u [|]]; [done| |done]. destruct He as (k & -> & Hk & _ & Hu). rewrite (proj2 (Z.eqb_neq _ 0)) by lia.
    destruct k as [|k].
    + change (Z.of_nat 1 =? 1) with true. cbn match. apply mwp_bind. eapply mwp_mono; [eapply (bt_new l e c 0 [ys] [u]); try done|].
      * by repeat constructor.
      * cbn. unfold DRAFT_PIECE_MAX_CHILDREN. lia.
      * cbn. by rewrite app_nil_r.
      * cbn [concat length Nat.eqb]. rewrite app_nil_r. intros t c1 (T1 & T2 & T3 & Hr1 & Hk1). apply mwp_ret. split_and!; [|cbn; lia|done|done]. split; [done|]. by exists 0%nat.
    + rewrite (proj2 (Z.eqb_neq _ 1)) by lia. apply mwp_ret. split_and!; [|cbn; lia|done|apply bt_refl]. split; [done|]. exists k. split; [cbn; lia|]. by apply bt_weaken.
Qed.
End Balance.
