(* ===== verification/MarkerDenote.v ===== *)
(** * The marker trees of a draft: what links stand for

    A link of the index stands for occurrences in increasing order of their identities, a link of
    the marker order for a list of markers; and a node over such links has a link of its own
    exactly when its items together can be stored. *)
From stdpp Require Import prelude gmap strings.
From Stdlib Require Import Sorting.Sorted.
From S2P Require Import Prelude.
From S2P Require Import Bytes.
From S2P Require Import ModelDigest.
From S2P Require Import SyndicParts.
From S2P Require Import SyndicKeyOrder.
From S2P Require Import BuildBudget.
From S2P Require Import MappingModel.
From S2P Require Import PieceModel.
From S2P Require Import PieceTree.
From S2P Require Import PieceCodec.
From S2P Require Import MarkerModel.
From S2P Require Import MarkerCodec.
From S2P Require Import MarkerTree.

(** ** Identities as numbers *)

Abbreviation occurrence := DraftMarkerIdentityOccurrence.
Definition id_value (o : occurrence) : Z := be_value (oc_marker_id o).
Definition before (a b : occurrence) : Prop := id_value a < id_value b.

Lemma id_ltb_spec a b : fixed 16 a -> fixed 16 b -> id_ltb a b = (be_value a <? be_value b).
Proof.
  intros Ha Hb. unfold id_ltb, fixed in *. rewrite byte_cmp_value by congruence.
  destruct (Z.ltb_spec (be_value a) (be_value b)); [apply bool_decide_true|apply bool_decide_false]; rewrite Z.compare_lt_iff; lia.
Qed.
Lemma id_leb_spec a b : fixed 16 a -> fixed 16 b -> id_leb a b = (be_value a <=? be_value b).
Proof.
  intros Ha Hb. unfold id_leb, fixed in *. rewrite byte_cmp_value by congruence.
  destruct (Z.leb_spec (be_value a) (be_value b)); [apply bool_decide_true|apply bool_decide_false]; rewrite Z.compare_gt_iff; lia.
Qed.
Lemma be_value_fixed_inj n a b : fixed n a -> fixed n b -> be_value a = be_value b -> a = b.
Proof. intros Ha Hb E. apply byte_cmp_eq. unfold fixed in *. rewrite byte_cmp_value, E by congruence. apply Z.compare_refl. Qed.

(** ** Sums and largest labels *)

Lemma checked_sum_spec ns t : Forall (fun n => 0 <= n) ns -> 0 <= t <= U64_MAX ->
  checked_sum ns t = if t + foldr Z.add 0 ns <=? U64_MAX then Some (t + foldr Z.add 0 ns) else None.
Proof.
  intros Hf. revert t. induction Hf as [|n ns Hn Hf IH]; intros t Ht; cbn.
  - rewrite Z.add_0_r, (proj2 (Z.leb_le _ _)) by lia. done.
  - assert (0 <= foldr Z.add 0 ns) by (clear - Hf; induction Hf; cbn; lia). destruct (checked_add64 t n) as [m|] eqn:E; cbn.
    + apply checked_add64_Some in E as [-> ?]. rewrite IH by lia. by rewrite !Z.add_assoc.
    + apply checked_add64_None in E. rewrite (proj2 (Z.leb_gt _ _)) by lia. done.
Qed.

Lemma foldl_max x y ls : foldl Z.max (Z.max x y) ls = Z.max x (foldl Z.max y ls).
Proof. revert y. induction ls as [|l ls IH]; intros y; cbn; [done|]. by rewrite <- Z.max_assoc, IH. Qed.
Lemma maximum_label_app xs ys : maximum_label (xs ++ ys) = union_with (fun a b => Some (Z.max a b)) (maximum_label xs) (maximum_label ys).
Proof.
  destruct xs as [|x xs]; [cbn; by destruct (maximum_label ys)|]. destruct ys as [|y ys]; [by rewrite app_nil_r|].
  cbn. rewrite foldl_app. cbn. f_equal. rewrite (Z.max_comm _ y), Z.max_comm. by rewrite <- foldl_max, Z.max_comm.
Qed.

(** ** Links of the index *)

Definition index_valid (xs : list occurrence) : Prop := StronglySorted before xs /\ zlen xs <= U64_MAX.

Record index_denotes (xs : list occurrence) (x : DraftMarkerIdentityChild) : Prop := mkIndexDenotes {
  id_count : ic_count x = zlen xs;
  id_first : exists o, head xs = Some o /\ ic_first x = oc_marker_id o;
  id_last : exists o, list.last xs = Some o /\ ic_last x = oc_marker_id o;
  id_valid : index_valid xs;
  id_typed : Forall occurrence_typed xs
}.

Lemma sorted_app_iff (xs ys : list occurrence) : StronglySorted before (xs ++ ys) <-> StronglySorted before xs /\ StronglySorted before ys /\ (forall a b, a ∈ xs -> b ∈ ys -> before a b).
Proof.
  induction xs as [|x xs IH]; cbn.
  - split; [intros ?; split_and!; [constructor|done|intros ? ? Hin; by apply not_elem_of_nil in Hin]|tauto].
  - split.
    + intros Hs. apply StronglySorted_inv in Hs as [Hs Hf]. apply IH in Hs as (S1 & S2 & S3). rewrite Forall_app in Hf. destruct Hf as [F1 F2].
      split_and!; [by constructor|done|]. intros a b [->|Ha]%elem_of_cons Hb; [by eapply Forall_forall in F2|by apply S3].
    + intros (S1 & S2 & S3). apply StronglySorted_inv in S1 as [S1 F1]. constructor.
      * apply IH. split_and!; try done. intros a b Ha Hb. apply S3; [by apply list_elem_of_further|done].
      * apply Forall_app. split; [done|]. apply Forall_forall. intros b Hb. apply S3; [by apply list_elem_of_here|done].
Qed.

Lemma index_valid_app xs ys : index_valid (xs ++ ys) -> index_valid xs /\ index_valid ys.
Proof. intros [Hs Hl]. apply sorted_app_iff in Hs as (? & ? & _). rewrite length_app in Hl. split; (split; [done|lia]). Qed.

(** The first and the last bound what is between. *)
Lemma denotes_bounds xs x o : index_denotes xs x -> o ∈ xs -> be_value (ic_first x) <= id_value o <= be_value (ic_last x).
Proof.
  intros [_ (f & Ef & ->) (l & El & ->) [Hs _] _] Ho. split.
  - destruct xs as [|y xs]; [done|]. injection Ef as ->. apply StronglySorted_inv in Hs as [_ Hf]. apply elem_of_cons in Ho as [->|Ho]; [unfold id_value; lia|].
    eapply Forall_forall in Hf; [|exact Ho]. unfold before, id_value in *. lia.
  - apply last_Some in El as [xs' ->]. apply sorted_app_iff in Hs as (_ & _ & Hs). apply elem_of_app in Ho as [Ho|Ho].
    + specialize (Hs o l Ho ltac:(by apply list_elem_of_singleton)). unfold before, id_value in *. lia.
    + apply list_elem_of_singleton in Ho as ->. unfold id_value. lia.
Qed.

Lemma denotes_nonempty xs x : index_denotes xs x -> xs <> [].
Proof. intros [_ (o & E & _) _ _ _] ->. done. Qed.

Lemma denotes_ends xs x : index_denotes xs x -> fixed 16 (ic_first x) /\ fixed 16 (ic_last x) /\ be_value (ic_first x) <= be_value (ic_last x) /\ 0 < ic_count x <= U64_MAX.
Proof.
  intros Hd. pose proof (denotes_nonempty _ _ Hd) as Hne. pose proof Hd as [Ec (f & Ef & E1) (l & El & E2) [_ Hl] Ht]. rewrite Forall_forall in Ht.
  assert (Hf : f ∈ xs) by (destruct xs as [|y xs]; [done|]; injection Ef as ->; by apply list_elem_of_here).
  assert (Hl' : l ∈ xs) by (apply last_Some in El as [xs' ->]; apply elem_of_app; right; by apply list_elem_of_singleton).
  rewrite E1, E2. split_and!; [apply (Ht f Hf)|apply (Ht l Hl')|rewrite <- E1, <- E2|destruct xs; [done|cbn in *; lia]|lia].
  pose proof (denotes_bounds _ _ _ Hd Hf). pose proof (denotes_bounds _ _ _ Hd Hl'). lia.
Qed.

Section IndexLinks.
Context {R : Type}.

Lemma validate_from_Ok xss cs : Forall2 index_denotes xss cs -> forall p, (forall last, p = Some last -> fixed 16 last) ->
  validate_index_from (R := R) p cs = Ok tt <-> StronglySorted before (concat xss) /\ (forall last o, p = Some last -> o ∈ concat xss -> be_value last < id_value o).
Proof.
  induction 1 as [|xs x xss cs Hx Hf IH]; intros p Hp; cbn [validate_index_from concat].
  - split; [intros _; split; [constructor|intros ? ? _ Hin; by apply not_elem_of_nil in Hin]|done].
  - destruct (denotes_ends _ _ Hx) as (Hfi & Hla & Hle & Hc). rewrite (proj2 (Z.eqb_neq _ 0)), id_ltb_spec, (proj2 (Z.ltb_ge _ _)) by (done || lia). cbn [orb].
    pose proof Hx as [_ (f & Ef & E1) (l & El & E2) [Hs _] _].
    assert (Hprev : from_option (fun last => id_leb (ic_first x) last) false p = false <-> (forall last o, p = Some last -> o ∈ xs -> be_value last < id_value o)).
    { destruct p as [last|]; cbn; [|done]. rewrite id_leb_spec by (done || by apply Hp). rewrite Z.leb_gt. split.
      - intros Hlt ? o [= <-] Ho. pose proof (denotes_bounds _ _ _ Hx Ho). lia.
      - intros Hall. destruct xs as [|y xs]; [done|]. injection Ef as ->. rewrite E1. apply (Hall last f eq_refl). apply list_elem_of_here. }
    rewrite sorted_app_iff. setoid_rewrite elem_of_app. specialize (IH (Some (ic_last x)) ltac:(by intros ? [= <-])).
    assert (Hafter : (forall last o, Some (ic_last x) = Some last -> o ∈ concat xss -> be_value last < id_value o) <-> (forall a b, a ∈ xs -> b ∈ concat xss -> before a b)).
    { split.
      - intros Hall a b Ha Hb. pose proof (denotes_bounds _ _ _ Hx Ha). specialize (Hall _ b eq_refl Hb). unfold before. lia.
      - intros Hall ? o [= <-] Ho. rewrite E2. apply (Hall l o); [|done]. apply last_Some in El as [xs' ->]. apply elem_of_app. right. by apply list_elem_of_singleton. }
    rewrite Hafter in IH. destruct (from_option _ _ p) eqn:Ep.
    + split; [done|]. intros (_ & Hall). exfalso. assert (true = false) by (apply Hprev; naive_solver). done.
    + rewrite IH. pose proof (proj1 Hprev eq_refl) as Hpr. split.
      * intros [S1 S2]. split_and!; try done. intros last o -> [Ho|Ho]; [by eapply Hpr|].
        destruct (id_first _ _ Hx) as (f' & Ef' & _). assert (f' ∈ xs) by (destruct xs; [done|]; injection Ef' as ->; apply list_elem_of_here).
        pose proof (Hpr last f' eq_refl ltac:(done)). specialize (S2 f' o ltac:(done) Ho). unfold before in S2. lia.
      * intros [(S1 & S2 & S3) _]. done.
Qed.

Lemma index_counts xss cs : Forall2 index_denotes xss cs -> foldr Z.add 0 (ic_count <$> cs) = zlen (concat xss) /\ Forall (fun n => 0 <= n) (ic_count <$> cs).
Proof.
  induction 1 as [|xs x xss cs Hx Hf [IH1 IH2]]; [done|]. cbn. rewrite length_app, IH1, (id_count _ _ Hx). split; [lia|]. constructor; [lia|done].
Qed.

Lemma concat_head_denotes xss cs x : Forall2 index_denotes xss cs -> head cs = Some x -> exists o, head (concat xss) = Some o /\ ic_first x = oc_marker_id o.
Proof.
  intros Hf E. destruct Hf as [|xs y xss cs Hx Hf]; [done|]. injection E as ->. destruct (id_first _ _ Hx) as (o & Eo & Ef). exists o. split; [|done]. by destruct xs.
Qed.
Lemma concat_last_denotes xss cs x : Forall2 index_denotes xss cs -> list.last cs = Some x -> exists o, list.last (concat xss) = Some o /\ ic_last x = oc_marker_id o.
Proof.
  intros Hf E. apply last_Some in E as [cs' ->]. apply Forall2_app_inv_r in Hf as (xss' & ys & _ & Hy & ->). apply Forall2_cons_inv_r in Hy as (xs & ? & Hx & Hn & ->).
  apply Forall2_nil_inv_r in Hn as ->. rewrite concat_app. cbn [concat]. rewrite app_nil_r. destruct (id_last _ _ Hx) as (o & Eo & El). exists o. split; [|done].
  rewrite last_app, Eo. done.
Qed.
Lemma concat_typed xss cs : Forall2 index_denotes xss cs -> Forall occurrence_typed (concat xss).
Proof. induction 1 as [|xs x xss cs Hx Hf IH]; [constructor|]. cbn. apply Forall_app. split; [by apply id_typed in Hx|done]. Qed.

Lemma index_child_sound xss cs k h dg x : Forall2 index_denotes xss cs -> index_child_for_record (R := R) (IdentityInternal k h cs dg) = Ok x ->
  index_denotes (concat xss) x /\ ic_id x = mk_id k /\ ic_digest x = dg.
Proof.
  intros Hf. cbn. intros (t & Ev & Hx)%result_bind_Ok. destruct t. apply result_bind_Ok in Hx as (n & En & Hx). apply result_bind_Ok in Hx as (f & Ef & Hx).
  apply result_bind_Ok in Hx as (l & El & [= <-]). apply ok_or_Ok in En, Ef, El. apply (validate_from_Ok _ _ Hf None ltac:(done)) in Ev as [Hs _].
  destruct (index_counts _ _ Hf) as [Ec Hn]. rewrite checked_sum_spec in En by (done || lia). destruct (Z.leb_spec (0 + foldr Z.add 0 (ic_count <$> cs)) U64_MAX) as [Hle|]; [|done].
  injection En as <-. split; [|done]. split; cbn; [lia|by eapply concat_head_denotes|by eapply concat_last_denotes| |by eapply concat_typed]. split; [done|]. lia.
Qed.

Lemma index_child_complete xss cs k h dg : Forall2 index_denotes xss cs -> cs <> [] -> index_valid (concat xss) ->
  exists x, index_child_for_record (R := R) (IdentityInternal k h cs dg) = Ok x.
Proof.
  intros Hf Hne [Hs Hl]. cbn. assert (Ev : validate_index_from (R := R) None cs = Ok tt) by (by apply (validate_from_Ok _ _ Hf None ltac:(done))).
  unfold validate_index_children. rewrite Ev. cbn. destruct (index_counts _ _ Hf) as [Ec Hn]. rewrite checked_sum_spec, Ec, (proj2 (Z.leb_le _ _)) by (done || lia). cbn.
  destruct cs as [|c cs]; [done|]. cbn [head ok_or mbind result_bind]. destruct (list.last (c :: cs)) as [l|] eqn:El; [by eexists|]. by apply last_None in El.
Qed.
End IndexLinks.

(** ** Links of the order *)

Definition order_valid (xs : list order_marker) : Prop := zlen xs <= U64_MAX.
Definition label_of (m : order_marker) : Z := m.1.2.

Record order_denotes (xs : list order_marker) (x : DraftMarkerOrderChild) : Prop := mkOrderDenotes {
  od_count : mo_count x = zlen xs;
  od_maximum : maximum_label (label_of <$> xs) = Some (mo_maximum x);
  od_valid : order_valid xs
}.

Lemma order_counts xss cs : Forall2 order_denotes xss cs -> foldr Z.add 0 (mo_count <$> cs) = zlen (concat xss) /\ Forall (fun n => 0 <= n) (mo_count <$> cs).
Proof.
  induction 1 as [|xs x xss cs Hx Hf [IH1 IH2]]; [done|]. cbn. rewrite length_app, IH1, (od_count _ _ Hx). split; [lia|]. constructor; [lia|done].
Qed.
Lemma order_maxima xss cs : Forall2 order_denotes xss cs -> maximum_label (mo_maximum <$> cs) = maximum_label (label_of <$> concat xss).
Proof.
  induction 1 as [|xs x xss cs Hx Hf IH]; [done|]. cbn [concat]. rewrite fmap_app, maximum_label_app, <- IH, (od_maximum _ _ Hx), fmap_cons.
  change (mo_maximum x :: (mo_maximum <$> cs)) with ([mo_maximum x] ++ (mo_maximum <$> cs)). by rewrite maximum_label_app.
Qed.
Lemma order_nonempty xs x : order_denotes xs x -> xs <> [].
Proof. intros [_ E _] ->. done. Qed.
