(* ===== verification/MarkerEdit.v ===== *)
(** * The marker trees of a draft: loads and new nodes

    What the loads and emissions of [MarkerTree] do, against the trees of records a context can
    reach; the index of marker identities and the tree of the marker order as instances of
    [BalancedTree].  As for pieces, a lemma says what a returned value is and that the operation
    fails only if the resources [P] do not suffice. *)
From stdpp Require Import prelude gmap strings.
From Stdlib Require Import Sorting.Sorted.
From S2P Require Import Prelude.
From S2P Require Import Bytes.
From S2P Require Import ModelDigest.
From S2P Require Import SyndicParts.
From S2P Require Import BuildBudget.
From S2P Require Import MappingModel.
From S2P Require Import MappingEdit.
From S2P Require Import MappingProgram.
From S2P Require Import PieceModel.
From S2P Require Import PieceCodec.
From S2P Require Import PieceTree.
From S2P Require Import PieceDenote.
From S2P Require Import PieceEdit.
From S2P Require Import MarkerModel.
From S2P Require Import MarkerCodec.
From S2P Require Import MarkerTree.
From S2P Require Import MarkerBalance.
From S2P Require Import MarkerDenote.

Section Edit.
Context {H : Type} `{Sha256Laws H} {R : Type}.
Context (node_store : DraftPieceRecordKey -> result (DraftPiecePrepareError R) (option DraftPieceNodeRecord))
        (leaf_store : DraftPieceRecordKey -> result (DraftPiecePrepareError R) (option DraftPieceLeafRecord))
        (index_store : DraftMarkerRecordKey -> result (DraftPiecePrepareError R) (option DraftMarkerIdentityRecord))
        (order_store : DraftMarkerRecordKey -> result (DraftPiecePrepareError R) (option DraftMarkerOrderRecord))
        (draft session operation : list byte).

Abbreviation marker_key kind id := (mkMarkerKey draft kind id).
Abbreviation new_id o dg := (piece_record_id draft session operation o dg).
Abbreviation build c := (pb (mc c)).

(** The records of the stores were decoded from their encodings. *)
Record marker_stores_ok : Prop := mkMarkerStores {
  ms_pieces : piece_stores_ok node_store leaf_store draft session operation;
  ms_index : forall k r, index_store k = Ok (Some r) -> identity_record_typed r;
  ms_order : forall k r, order_store k = Ok (Some r) -> order_record_valid r
}.

Definition cached (a : Acquired) : Prop :=
  within_limits a /\ (cache_ok a node_store /\ cache_ok a leaf_store) /\ cache_ok a index_store /\ cache_ok a order_store.

Record marker_context_ok (c : MarkerContext) : Prop := mkMarkerContextOk {
  mx_pieces : piece_context_ok node_store leaf_store draft session operation (mc c);
  mx_cached : forall a, bc_acquisition (build c) = Some a -> cached a;
  mx_loaded_index : forall k r, mc_loaded_index c !! k = Some r -> index_store k = Ok (Some r);
  mx_loaded_order : forall k r, mc_loaded_order c !! k = Some r -> order_store k = Ok (Some r);
  mx_fresh : forall o dg kind, is_u64 o -> bc_ordinal (build c) <= o -> let k := marker_key kind (new_id o dg) in
    index_store k = Ok None /\ order_store k = Ok None /\ mc_index c !! k = None /\ mc_order c !! k = None;
  mx_new_index : forall k r, mc_index c !! k = Some r -> identity_record_typed r;
  mx_new_order : forall k r, mc_order c !! k = Some r -> order_record_valid r
}.

(** The records a context can reach. *)
Definition index_at (c : MarkerContext) (k : DraftMarkerRecordKey) (r : DraftMarkerIdentityRecord) : Prop :=
  mc_index c !! k = Some r \/ (mc_index c !! k = None /\ index_store k = Ok (Some r)).
Definition order_at (c : MarkerContext) (k : DraftMarkerRecordKey) (r : DraftMarkerOrderRecord) : Prop :=
  mc_order c !! k = Some r \/ (mc_order c !! k = None /\ order_store k = Ok (Some r)).

(** A marker operation leaves pieces and the map as they are and keeps the records it can reach. *)
Record keeps (c c' : MarkerContext) : Prop := mkKeeps {
  ks_pieces : kept (mc c) (mc c');
  ks_index : forall k r, index_at c k r -> index_at c' k r;
  ks_order : forall k r, order_at c k r -> order_at c' k r
}.
Lemma keeps_refl c : keeps c c.
Proof. by split. Qed.
Lemma keeps_trans c c' c'' : keeps c c' -> keeps c' c'' -> keeps c c''.
Proof. intros [? ? ?] [? ? ?]. split; [by eapply kept_trans|auto|auto]. Qed.

(** ** Trees *)

Definition index_leaf_at (c : MarkerContext) (x : DraftMarkerIdentityChild) (o : occurrence) : Prop :=
  exists k, k = marker_key KindLeaf (ic_id x) /\ let r := IdentityLeaf k o (index_leaf_digest o) in
    index_at c (marker_key KindLeaf (ic_id x)) r /\ identity_record_typed r /\ index_child_for_record (R := R) r = Ok x.
Definition index_node_at (c : MarkerContext) (h : nat) (root : bool) (x : DraftMarkerIdentityChild) (cs : list DraftMarkerIdentityChild) : Prop :=
  exists k, k = marker_key KindInternal (ic_id x) /\ let r := IdentityInternal k (Z.of_nat h) cs (index_node_digest (Z.of_nat h) cs) in
    index_at c (marker_key KindInternal (ic_id x)) r /\ identity_record_typed r /\ index_child_for_record (R := R) r = Ok x
    /\ ((if root then 1 else 2) <= length cs <= DRAFT_PIECE_MAX_CHILDREN)%nat.
Fixpoint index_tree (c : MarkerContext) (h : nat) (root : bool) (x : DraftMarkerIdentityChild) (xs : list occurrence) : Prop :=
  match h with
  | O => exists o, index_leaf_at c x o /\ xs = [o]
  | S h' => exists cs xss, index_node_at c h root x cs /\ Forall2 (fun ys y => index_tree c h' false y ys) xss cs /\ xs = concat xss
  end.

Definition order_leaf_at (c : MarkerContext) (x : DraftMarkerOrderChild) (m : order_marker) : Prop :=
  exists k, mk_id k = mo_id x /\ let '(i, l, a) := m in let r := OrderLeaf k i l a (mo_digest x) in
    order_at c (marker_key KindLeaf (mo_id x)) r /\ order_record_valid r /\ mo_count x = 1 /\ mo_maximum x = l.
Definition order_node_at (c : MarkerContext) (h : nat) (root : bool) (x : DraftMarkerOrderChild) (cs : list DraftMarkerOrderChild) : Prop :=
  exists k, mk_id k = mo_id x /\ let r := OrderInternal k (Z.of_nat h) cs (mo_digest x) in
    order_at c (marker_key KindInternal (mo_id x)) r /\ order_record_valid r /\ ((if root then 1 else 2) <= length cs)%nat.
Fixpoint order_tree (c : MarkerContext) (h : nat) (root : bool) (x : DraftMarkerOrderChild) (xs : list order_marker) : Prop :=
  match h with
  | O => exists m, order_leaf_at c x m /\ xs = [m]
  | S h' => exists cs xss, order_node_at c h root x cs /\ Forall2 (fun ys y => order_tree c h' false y ys) xss cs /\ xs = concat xss /\ order_denotes xs x
  end.

Lemma index_tree_denotes c h root x xs : index_tree c h root x xs -> index_denotes xs x.
Proof.
  revert root x xs. induction h as [|h IH]; intros root x xs; cbn [index_tree].
  - intros (o & (k & E & _ & Ht & [= <-]) & ->). split; cbn; [done|by exists o|by exists o| |destruct Ht as (_ & ? & _); by constructor].
    split; [by repeat constructor|cbn; lia].
  - intros (cs & xss & (k & E & _ & _ & Hc & _) & Hf & ->). eapply index_child_sound; [|exact Hc]. eapply Forall2_impl; [exact Hf|]. intros ys y Hy. exact (IH _ _ _ Hy).
Qed.
Lemma order_tree_denotes c h root x xs : order_tree c h root x xs -> order_denotes xs x.
Proof.
  destruct h; cbn [order_tree].
  - intros ([[i l] a] & (k & _ & _ & _ & E1 & E2) & ->). split; cbn; [done|by rewrite E2|unfold order_valid; cbn; lia].
  - by intros (cs & xss & _ & _ & -> & Hd).
Qed.

Lemma index_tree_mono c c' h root x xs : keeps c c' -> index_tree c h root x xs -> index_tree c' h root x xs.
Proof.
  intros Hk. revert root x xs. induction h as [|h IH]; intros root x xs; cbn [index_tree].
  - intros (o & (k & E & Ha & Ht) & ->). exists o. split; [|done]. exists k. split; [done|]. split; [by apply Hk|done].
  - intros (cs & xss & (k & E & Ha & Ht) & Hf & ->). exists cs, xss. split_and!; [|eapply Forall2_impl; [done|]; intros; by eapply IH|done].
    exists k. split; [done|]. split; [by apply Hk|done].
Qed.
Lemma order_tree_mono c c' h root x xs : keeps c c' -> order_tree c h root x xs -> order_tree c' h root x xs.
Proof.
  intros Hk. revert root x xs. induction h as [|h IH]; intros root x xs; cbn [order_tree].
  - intros ([[i l] a] & (k & E & Ha & Ht) & ->). exists (i, l, a). split; [|done]. exists k. split; [done|]. split; [by apply Hk|done].
  - intros (cs & xss & (k & E & Ha & Ht) & Hf & -> & Hd). exists cs, xss. split_and!; [|eapply Forall2_impl; [done|]; intros; by eapply IH|done|done].
    exists k. split; [done|]. split; [by apply Hk|done].
Qed.
Lemma index_tree_weaken c h x xs : index_tree c h false x xs -> index_tree c h true x xs.
Proof. destruct h; [done|]. intros (cs & xss & (k & E & Ha & Ht & Hc & Hl) & Hf). exists cs, xss. split; [|done]. exists k. split; [done|]. cbv zeta. repeat (split; [done|]). cbn in *. lia. Qed.
Lemma order_tree_weaken c h x xs : order_tree c h false x xs -> order_tree c h true x xs.
Proof. destruct h; [done|]. intros (cs & xss & (k & E & Ha & Ht & Hl) & Hf). exists cs, xss. split; [|done]. exists k. split; [done|]. cbv zeta. repeat (split; [done|]). cbn in *. lia. Qed.

(** ** Resources *)

Context (P : Prop) (Hstores : marker_stores_ok).

Record marker_ready (l e : nat) (c : MarkerContext) : Prop := mkMarkerReady {
  mr_ok : marker_context_ok c;
  mr_able : P -> piece_able l e (mc c)
}.
Lemma marker_ready_le l e l' e' c : (l' <= l)%nat -> (e' <= e)%nat -> marker_ready l e c -> marker_ready l' e' c.
Proof. intros ? ? [? Ha]. split; [done|]. intros. eapply piece_able_le; [done|done|auto]. Qed.

Abbreviation wp := (mwp (R := R) P).

(** ** Point reads *)

Lemma point_index a k o a' : cached a -> marker_key_typed k -> acquired_point a index_store k = Ok (o, a') -> index_store k = Ok o /\ cached a'.
Proof.
  intros (Hw & (Hn & Hl) & Hi & Ho) Hk E. destruct (point_exact _ _ _ _ _ Hw Hi Hk E) as (Ho' & Hw' & Hi'). split; [done|].
  refine (conj Hw' (conj (conj _ _) (conj Hi' _))); (eapply (point_other (V := DraftMarkerIdentityRecord)); [| |by apply Hi|done|done]; done).
Qed.
Lemma point_order a k o a' : cached a -> marker_key_typed k -> acquired_point a order_store k = Ok (o, a') -> order_store k = Ok o /\ cached a'.
Proof.
  intros (Hw & (Hn & Hl) & Hi & Ho) Hk E. destruct (point_exact _ _ _ _ _ Hw Ho Hk E) as (Ho' & Hw' & Hi'). split; [done|].
  refine (conj Hw' (conj (conj _ _) (conj _ Hi'))); (eapply (point_other (V := DraftMarkerOrderRecord)); [| |by apply Ho|done|done]; done).
Qed.

Lemma key_cost k : marker_key_typed k -> zlen (enc_marker_key k) + 32768 <= PIECE_COST.
Proof. intros Hk. rewrite enc_marker_key_length by done. unfold PIECE_COST. lia. Qed.

Lemma point_index_progress a k o n : cached a -> marker_key_typed k -> index_store k = Ok o -> room PIECE_COST a (S n) ->
  exists a', acquired_point a index_store k = Ok (o, a') /\ room PIECE_COST a' n.
Proof.
  intros (Hw & _ & Hi & _) Hk Ho Hr. eapply (point_progress (V := DraftMarkerIdentityRecord)); try done; [|by apply key_cost].
  destruct o as [r|]; [|by exists None]. exists (Some (enc_identity_record r)). split; [by eapply ms_index|done].
Qed.
Lemma point_order_progress a k o n : cached a -> marker_key_typed k -> order_store k = Ok o -> room PIECE_COST a (S n) ->
  exists a', acquired_point a order_store k = Ok (o, a') /\ room PIECE_COST a' n.
Proof.
  intros (Hw & _ & _ & Hi) Hk Ho Hr. eapply (point_progress (V := DraftMarkerOrderRecord)); try done; [|by apply key_cost].
  destruct o as [r|]; [|by exists None]. exists (Some (enc_order_record r)). split; [by eapply ms_order|done].
Qed.

(** The context with another budget, ordinal or read counter. *)
Definition rebuilt (c : MarkerContext) (b : BuildContext) : MarkerContext := with_pieces c (with_build (mc c) b).

Lemma acquired_ok c a a' : marker_context_ok c -> bc_acquisition (build c) = Some a -> cached a' ->
  marker_context_ok (rebuilt c (with_acquisition (build c) a')).
Proof.
  intros [X1 X2 X3 X4 X5 X6 X7] Ea Ha'. split; cbn; try done.
  - destruct Ha' as (Hw & (Hn & Hl) & _). by apply (with_acquisition_ok _ _ _ _ _ _ a).
  - by intros ? [= <-].
Qed.

Definition after_read {V} (c : MarkerContext) (l : nat) (o o' : option V) (c' : MarkerContext) : Prop :=
  o' = o /\ marker_context_ok c' /\ (exists b, c' = rebuilt c b /\ bc_mapping b = bc_mapping (build c) /\ bc_mapping_records b = bc_mapping_records (build c)
    /\ bc_ordinal b = bc_ordinal (build c) /\ bc_records_read b = bc_records_read (build c))
  /\ (P -> forall a, bc_acquisition (build c') = Some a -> room PIECE_COST a l).

Lemma mwp_point {V} `{Family DraftMarkerRecordKey V} (store : DraftMarkerRecordKey -> result (DraftPiecePrepareError R) (option V)) k c l o :
  (forall a o' a', cached a -> acquired_point a store k = Ok (o', a') -> store k = Ok o' /\ cached a') ->
  (forall a n, cached a -> room PIECE_COST a (S n) -> exists a', acquired_point a store k = Ok (o, a') /\ room PIECE_COST a' n) ->
  marker_context_ok c -> store k = Ok o -> (P -> forall a, bc_acquisition (build c) = Some a -> room PIECE_COST a (S l)) ->
  wp (in_pieces (piece_point store k)) c (after_read c l o).
Proof.
  intros Hex Hpr Hc Ho Hr. unfold mwp, in_pieces, piece_point. destruct (bc_acquisition (build c)) as [a|] eqn:Ea.
  - pose proof (mx_cached _ Hc a Ea) as Hca. destruct (acquired_point a store k) as [[o' a']|] eqn:E.
    + destruct (Hex _ _ _ Hca E) as [Ho' Ha']. assert (o' = o) as -> by congruence. split; [done|]. split; [by apply (acquired_ok c a)|]. split; [by eexists|].
      intros HP ? [= <-]. destruct (Hpr a l Hca (Hr HP _ eq_refl)) as (? & E' & ?). congruence.
    + intros HP. destruct (Hpr a l Hca (Hr HP _ eq_refl)) as (? & ? & _). congruence.
  - rewrite Ho. split_and!; [done|by destruct c|exists (build c); by destruct c as [[] ? ? ? ?]|]. cbn. intros _ a Ha. congruence.
Qed.

Lemma mwp_count c l n : marker_context_ok c -> (P -> bc_records_read (build c) + Z.of_nat (S n) <= U64_MAX) ->
  (P -> forall a, bc_acquisition (build c) = Some a -> room PIECE_COST a l) ->
  wp (in_pieces count_read) c (fun _ c' => marker_context_ok c' /\ (exists b, c' = rebuilt c b /\ bc_mapping b = bc_mapping (build c)
      /\ bc_mapping_records b = bc_mapping_records (build c) /\ bc_ordinal b = bc_ordinal (build c))
    /\ (P -> bc_records_read (build c') + Z.of_nat n <= U64_MAX) /\ (P -> forall a, bc_acquisition (build c') = Some a -> room PIECE_COST a l)).
Proof.
  intros Hc Hn Hr. unfold mwp, in_pieces, count_read. destruct (checked_add64 _ 1) as [m|] eqn:E.
  - apply checked_add64_Some in E as [-> _]. split_and!; [|by eexists| |done].
    + destruct Hc as [X1 X2 X3 X4 X5 X6 X7]. split; cbn; try done. by destruct X1.
    + intros HP. cbn. specialize (Hn HP). lia.
  - intros HP. apply checked_add64_None in E. specialize (Hn HP). lia.
Qed.

Lemma rebuilt_keeps c b : bc_mapping b = bc_mapping (build c) -> bc_mapping_records b = bc_mapping_records (build c) -> keeps c (rebuilt c b).
Proof. intros E1 E2. split; [|done|done]. by split. Qed.

(** ** Loads *)

Definition after_load {A} (c : MarkerContext) (l e : nat) (a a' : A) (c' : MarkerContext) : Prop := a' = a /\ marker_ready l e c' /\ keeps c c'.

Lemma hit_loaded {A} c l e (a : A) : marker_ready (S l) e c -> after_load c l e a a c.
Proof. intros Hr. split_and!; [done| |apply keeps_refl]. eapply marker_ready_le; [| |done]; lia. Qed.

Lemma remember_index_ok c k r : marker_context_ok c -> index_store k = Ok (Some r) ->
  marker_context_ok (mkMarkers (mc c) (mc_index c) (mc_order c) (<[k := r]> (mc_loaded_index c)) (mc_loaded_order c)).
Proof. intros [] Hr. split; cbn; try done. intros k' r'. rewrite lookup_insert_Some. naive_solver. Qed.
Lemma remember_order_ok c k r : marker_context_ok c -> order_store k = Ok (Some r) ->
  marker_context_ok (mkMarkers (mc c) (mc_index c) (mc_order c) (mc_loaded_index c) (<[k := r]> (mc_loaded_order c))).
Proof. intros [] Hr. split; cbn; try done. intros k' r'. rewrite lookup_insert_Some. naive_solver. Qed.

Lemma marker_draft_is c : marker_context_ok c -> bc_draft_id (build c) = draft.
Proof. intros Hc. by destruct (mx_pieces _ Hc). Qed.
Lemma marker_key_ok kind id : fixed 16 id -> marker_key_typed (marker_key kind id).
Proof. intros Hid. split; [apply (ps_draft _ _ _ _ _ (ms_pieces Hstores))|done]. Qed.

(** What a read and the count of it leave. *)
Lemma mwp_read {V} `{Family DraftMarkerRecordKey V} (store : DraftMarkerRecordKey -> result (DraftPiecePrepareError R) (option V)) k c l e r
    (rest : V -> markerm R V) :
  (forall a o' a', cached a -> acquired_point a store k = Ok (o', a') -> store k = Ok o' /\ cached a') ->
  (forall a n, cached a -> room PIECE_COST a (S n) -> exists a', acquired_point a store k = Ok (Some r, a') /\ room PIECE_COST a' n) ->
  store k = Ok (Some r) -> marker_ready (S l) e c ->
  (forall c', marker_ready l e c' -> keeps c c' -> (exists b, c' = rebuilt c b) -> wp (rest r) c' (after_load c l e r)) ->
  wp (stored ← in_pieces (piece_point store k); record ← lift_marker (ok_or Absent stored); _ ← in_pieces count_read; rest record) c (after_load c l e r).
Proof.
  intros Hex Hpr Hs [Hc Ha] Hrest. apply mwp_bind.
  eapply mwp_mono; [eapply (mwp_point store k c (l + e) (Some r)); try done; intros HP; by destruct (Ha HP)|].
  intros o c1 (-> & Hc1 & (b1 & -> & M1 & N1 & O1 & R1) & Hroom1). cbn [ok_or]. apply mwp_bind. eapply mwp_lift; [done|]. apply mwp_bind.
  eapply mwp_mono; [eapply (mwp_count _ (l + e) l); [done| |done]; intros HP; cbn; rewrite R1; destruct (Ha HP); lia|].
  intros _ c2 (Hc2 & (b2 & -> & M2 & N2 & O2) & R2 & Hroom2). cbn in M2, N2, O2. apply Hrest.
  - split; [done|]. intros HP. destruct (Ha HP) as [A1 A2 A3]. split; [cbn; congruence|by apply R2|by apply Hroom2].
  - split; [|done|done]. split; cbn; congruence.
  - by exists b2.
Qed.

Lemma mwp_load_index l e c t root r : marker_ready (S l) e c -> fixed 16 (ic_id (tr_link t)) ->
  index_at c (marker_key (kind_of (tr_height t)) (ic_id (tr_link t))) r ->
  validate_index_record (R := R) r t true = Ok r -> validate_index_record (R := R) r t root = Ok r ->
  wp (load_index_record index_store t root) c (after_load c l e r).
Proof.
  intros Hr Hid Hat V1 V2. pose proof Hr as [Hc Ha]. unfold mwp, load_index_record. rewrite (marker_draft_is _ Hc).
  set (key := marker_key _ _) in *. destruct Hat as [Hs|[Hp Hs]].
  { rewrite Hs. cbn. rewrite V1. by apply hit_loaded. }
  rewrite Hp. destruct (mc_loaded_index c !! key) as [r'|] eqn:El.
  { pose proof (mx_loaded_index _ Hc _ _ El). assert (r' = r) as -> by congruence. cbn. rewrite V2. by apply hit_loaded. }
  match goal with |- match ?m c with _ => _ end => change (wp m c (after_load c l e r)) end.
  assert (Hk : marker_key_typed key) by (by apply marker_key_ok).
  eapply (mwp_read index_store key c l e r (fun record => record ← lift_marker (validate_index_record record t root); _ ← remember_index key record; mret record)); try done.
  - intros a o' a' Hca. by apply point_index.
  - intros a n Hca. by apply point_index_progress.
  - intros c1 [Hc1 Ha1] Hk1 [b ->]. apply mwp_bind. eapply mwp_lift; [done|]. split_and!; [done| |].
    + split; [by apply remember_index_ok|done].
    + eapply keeps_trans; [exact Hk1|]. by split.
Qed.

Lemma mwp_load_order l e c t root r : marker_ready (S l) e c -> fixed 16 (mo_id (tr_link t)) ->
  order_at c (marker_key (kind_of (tr_height t)) (mo_id (tr_link t))) r -> validate_marker_order_record (R := R) r t root = Ok tt ->
  wp (load_marker_order_record order_store t root) c (after_load c l e r).
Proof.
  intros Hr Hid Hat V. pose proof Hr as [Hc Ha]. unfold load_marker_order_record, marker_draft. apply mwp_bind. unfold mwp at 1, in_pieces, draft_of. cbn.
  rewrite (marker_draft_is _ Hc). set (key := marker_key _ _) in *. apply mwp_bind.
  apply (mwp_mono P _ _ (after_load c l e r)).
  2: { intros r' c' (-> & Hr' & Hk'). apply mwp_bind. eapply mwp_lift; [done|]. by apply mwp_ret. }
  assert (Ew : with_pieces c (mc c) = c) by (by destruct c). rewrite Ew. unfold mwp, find_order. destruct Hat as [Hs|[Hp Hs]]; [rewrite Hs; by apply hit_loaded|].
  rewrite Hp. destruct (mc_loaded_order c !! key) as [r'|] eqn:El.
  { pose proof (mx_loaded_order _ Hc _ _ El). assert (r' = r) as -> by congruence. by apply hit_loaded. }
  match goal with |- match ?m c with _ => _ end => change (wp m c (after_load c l e r)) end.
  assert (Hk : marker_key_typed key) by (by apply marker_key_ok).
  eapply (mwp_read order_store key c l e r (fun record => _ ← remember_order key record; mret record)); try done.
  - intros a o' a' Hca. by apply point_order.
  - intros a n Hca. by apply point_order_progress.
  - intros c1 [Hc1 Ha1] Hk1 [b ->]. split_and!; [done| |].
    + split; [by apply remember_order_ok|done].
    + eapply keeps_trans; [exact Hk1|]. by split.
Qed.

(** A node or a leaf of a tree passes its check. *)
Lemma index_leaf_valid c x o root : index_leaf_at c x o -> exists k, let r := IdentityLeaf k o (index_leaf_digest o) in
  index_at c (marker_key KindLeaf (ic_id x)) r /\ fixed 16 (ic_id x) /\ validate_index_record (R := R) r (mkTreeRef x 0 root) root = Ok r
  /\ validate_index_record (R := R) r (mkTreeRef x 0 root) true = Ok r.
Proof.
  intros (k & -> & Ha & Ht & Hx). eexists. pose proof Ht as ([_ Hi] & _). cbv zeta in *. split; [exact Ha|]. split; [done|].
  unfold validate_index_record. cbn [identity_key identity_digest index_record_digest identity_height tr_link tr_height mk_id]. rewrite Hx, !bool_decide_true by done. cbn. by rewrite bool_decide_true.
Qed.
Lemma index_node_valid c h root x cs : index_node_at c (S h) root x cs -> exists k, let r := IdentityInternal k (Z.of_nat (S h)) cs (index_node_digest (Z.of_nat (S h)) cs) in
  let t := mkTreeRef x (Z.of_nat (S h)) root in
  index_at c (marker_key KindInternal (ic_id x)) r /\ fixed 16 (ic_id x) /\ validate_index_record (R := R) r t root = Ok r /\ validate_index_record (R := R) r t true = Ok r.
Proof.
  intros (k & -> & Ha & Ht & Hx & Hl). eexists. pose proof Ht as ([_ Hi] & _). cbv zeta in *. split; [exact Ha|]. split; [done|].
  unfold validate_index_record. cbn [identity_key identity_digest index_record_digest identity_height tr_link tr_height mk_id]. rewrite Hx, !bool_decide_true, Z.eqb_refl by done. cbn [negb orb or_root mbind result_bind].
  rewrite bool_decide_true, (proj2 (Z.eqb_neq _ 0)) by (done || lia). cbn [negb]. rewrite (proj2 (Nat.ltb_ge DRAFT_PIECE_MAX_CHILDREN _)) by lia.
  split; (rewrite (proj2 (Nat.ltb_ge _ _)); [done|destruct root; lia]).
Qed.
Lemma order_leaf_valid c x m root : order_leaf_at c x m -> exists r, order_marker_of r = Some m /\
  order_at c (marker_key KindLeaf (mo_id x)) r /\ fixed 16 (mo_id x) /\ validate_marker_order_record (R := R) r (mkTreeRef x 0 root) root = Ok tt.
Proof.
  destruct m as [[i l] a]. intros (k & E & Ha & Ht & E1 & E2). eexists. split; [|split; [exact Ha|]]; [done|].
  destruct Ht as ([_ Hi] & _ & _ & _ & Ed). cbn in Hi. rewrite E in Hi. split; [done|].
  unfold validate_marker_order_record. cbn [order_key order_digest order_height tr_link tr_height]. rewrite E, E1, E2, <- Ed, !bool_decide_true, !Z.eqb_refl by done. done.
Qed.
Lemma order_node_valid c h root x cs xss : order_node_at c (S h) root x cs -> Forall2 order_denotes xss cs -> order_denotes (concat xss) x ->
  exists r, order_children r = Some cs /\ let t := mkTreeRef x (Z.of_nat (S h)) root in
  order_at c (marker_key KindInternal (mo_id x)) r /\ fixed 16 (mo_id x) /\ validate_marker_order_record (R := R) r t root = Ok tt
  /\ validate_marker_order_record (R := R) r t true = Ok tt /\ ((if root then 1 else 2) <= length cs <= DRAFT_PIECE_MAX_CHILDREN)%nat.
Proof.
  intros (k & E & Ha & Ht & Hl) Hf Hd. eexists. split; [|split; [exact Ha|]]; [done|].
  destruct Ht as ([_ Hi] & _ & _ & Hh & Hlen & _ & Ed). cbn in Hi. rewrite E in Hi. split; [done|].
  assert (Hall : forall root', (root' = false -> root = false) -> validate_marker_order_record (R := R) (OrderInternal k (Z.of_nat (S h)) cs (mo_digest x)) (mkTreeRef x (Z.of_nat (S h)) root) root' = Ok tt).
  { intros root' Hroot. unfold validate_marker_order_record. cbn [order_key order_digest order_height tr_link tr_height]. rewrite E, !bool_decide_true, Z.eqb_refl by done. cbn [negb orb].
    rewrite (proj2 (Z.eqb_neq _ 0)), (proj2 (Z.ltb_ge _ _)), bool_decide_false, (proj2 (Nat.ltb_ge _ _)) by (try lia; intros ->; cbn in Hlen; lia).
    rewrite (bool_decide_true (mo_digest x = _)) by done. assert (negb root' && (length cs <? 2)%nat = false) as ->.
    { destruct root'; [done|]. rewrite Hroot in Hl by done. cbn [negb andb]. apply Nat.ltb_ge. lia. }
    cbn [negb orb]. destruct (order_counts _ _ Hf) as [Ec Hn]. pose proof (od_valid _ _ Hd) as Hv. unfold order_valid in Hv.
    rewrite checked_sum_spec, Ec, Z.add_0_l, (proj2 (Z.leb_le _ _)) by (done || lia). cbn. rewrite (od_count _ _ Hd), Z.eqb_refl, bool_decide_true; [done|].
    rewrite (order_maxima _ _ Hf). apply Hd. }
  split; [by apply Hall|]. split; [by apply Hall|]. split; [exact Hl|lia].
Qed.

Lemma forest_keeps_index c c' h xss cs : keeps c c' -> Forall2 (fun ys y => index_tree c h false y ys) xss cs -> Forall2 (fun ys y => index_tree c' h false y ys) xss cs.
Proof. intros Hk Hf. eapply Forall2_impl; [exact Hf|]. intros ys y Hy. by eapply index_tree_mono. Qed.
Lemma forest_keeps_order c c' h xss cs : keeps c c' -> Forall2 (fun ys y => order_tree c h false y ys) xss cs -> Forall2 (fun ys y => order_tree c' h false y ys) xss cs.
Proof. intros Hk Hf. eapply Forall2_impl; [exact Hf|]. intros ys y Hy. by eapply order_tree_mono. Qed.
Lemma forest_index_denotes c h xss cs : Forall2 (fun ys y => index_tree c h false y ys) xss cs -> Forall2 index_denotes xss cs.
Proof. intros Hf. eapply Forall2_impl; [exact Hf|]. intros ys y Hy. exact (index_tree_denotes _ _ _ _ _ Hy). Qed.
Lemma forest_order_denotes c h xss cs : Forall2 (fun ys y => order_tree c h false y ys) xss cs -> Forall2 order_denotes xss cs.
Proof. intros Hf. eapply Forall2_impl; [exact Hf|]. intros ys y Hy. exact (order_tree_denotes _ _ _ _ _ Hy). Qed.

Lemma mwp_index_leaf l e c root x xs : marker_ready (S l) e c -> index_tree c 0 root x xs ->
  wp (load_index_record index_store (mkTreeRef x 0 root) root) c (fun r c' => exists o, xs = [o] /\ identity_occurrence r = Some o /\ marker_ready l e c' /\ keeps c c').
Proof.
  intros Hr (o & Hl & ->). destruct (index_leaf_valid _ _ _ root Hl) as (k & Ha & Hi & V1 & V2).
  eapply mwp_mono; [by eapply mwp_load_index|]. intros r c' (-> & Hr' & Hk'). by exists o.
Qed.
Lemma mwp_index_node l e c h root x xs : marker_ready (S l) e c -> index_tree c (S h) root x xs ->
  wp (load_index_record index_store (mkTreeRef x (Z.of_nat (S h)) root) root) c (fun r c' => exists cs xss, identity_children r = Some cs
    /\ Forall2 (fun ys y => index_tree c' h false y ys) xss cs /\ concat xss = xs /\ ((if root then 1 else 2) <= length cs <= DRAFT_PIECE_MAX_CHILDREN)%nat
    /\ marker_ready l e c' /\ keeps c c').
Proof.
  intros Hr (cs & xss & Hn & Hf & ->). destruct (index_node_valid _ _ _ _ _ Hn) as (k & Ha & Hi & V1 & V2). destruct Hn as (_ & _ & _ & _ & _ & Hlen).
  eapply mwp_mono; [by eapply mwp_load_index|]. intros r c' (-> & Hr' & Hk'). exists cs, xss. split_and!; try done; try lia. by eapply forest_keeps_index.
Qed.
Lemma mwp_order_leaf l e c root x xs : marker_ready (S l) e c -> order_tree c 0 root x xs ->
  wp (load_marker_order_record order_store (mkTreeRef x 0 root) root) c (fun r c' => exists m, xs = [m] /\ order_marker_of r = Some m /\ marker_ready l e c' /\ keeps c c').
Proof.
  intros Hr (m & Hl & ->). destruct (order_leaf_valid _ _ _ root Hl) as (r & Er & Ha & Hi & V).
  eapply mwp_mono; [by eapply mwp_load_order|]. intros r' c' (-> & Hr' & Hk'). by exists m.
Qed.
Lemma mwp_order_node l e c h root x xs : marker_ready (S l) e c -> order_tree c (S h) root x xs ->
  wp (load_marker_order_record order_store (mkTreeRef x (Z.of_nat (S h)) root) root) c (fun r c' => exists cs xss, order_children r = Some cs
    /\ Forall2 (fun ys y => order_tree c' h false y ys) xss cs /\ concat xss = xs /\ ((if root then 1 else 2) <= length cs <= DRAFT_PIECE_MAX_CHILDREN)%nat
    /\ marker_ready l e c' /\ keeps c c').
Proof.
  intros Hr (cs & xss & Hn & Hf & -> & Hd). destruct (order_node_valid _ _ _ _ _ _ Hn (forest_order_denotes _ _ _ _ Hf) Hd) as (r & Er & Ha & Hi & V1 & V2 & Hlen).
  eapply mwp_mono; [by eapply mwp_load_order|]. intros r' c' (-> & Hr' & Hk'). exists cs, xss. split_and!; try done; try lia. by eapply forest_keeps_order.
Qed.

(** ** Emissions *)

(** The context between taking an identity and recording what it names. *)
Definition spending (c c1 : MarkerContext) : Prop :=
  exists b, c1 = rebuilt c b /\ bc_mapping b = bc_mapping (build c) /\ bc_mapping_records b = bc_mapping_records (build c)
    /\ bc_ordinal b = bc_ordinal (build c) + 1 /\ bc_records_read b = bc_records_read (build c).

Lemma mwp_new_id {A} l e c dg (f : list byte -> list byte -> markerm R A) (Q : A -> MarkerContext -> Prop) : marker_ready l (S e) c ->
  (forall c1, let id := new_id (bc_ordinal (build c)) dg in fixed 16 id -> spending c c1 -> marker_context_ok c1 ->
     (P -> forall a, bc_acquisition (build c1) = Some a -> room PIECE_COST a (S (l + e))) -> wp (f id draft) c1 Q) ->
  wp (id ← in_pieces (next_id dg); d ← marker_draft; f id d) c Q.
Proof.
  intros [Hc Ha] Hf. pose proof (mx_pieces _ Hc) as Hp. pose proof (pc_ordinal _ _ _ _ _ _ Hp) as Hu. unfold mwp, mbind, markerm_bind, marker_draft, in_pieces, next_id, draft_of.
  rewrite (pc_session _ _ _ _ _ _ Hp), (pc_draft _ _ _ _ _ _ Hp), (pc_operation _ _ _ _ _ _ Hp). destruct (checked_add64 _ 1) as [m|] eqn:E.
  - apply checked_add64_Some in E as [-> Ho]. unfold mwp in Hf. cbn [with_pieces mc pb with_build with_ordinal bc_draft_id]. rewrite ?(pc_draft _ _ _ _ _ _ Hp).
    apply (Hf (rebuilt c (with_ordinal (build c) (bc_ordinal (build c) + 1)))).
    + apply piece_record_id_length.
    + by eexists.
    + destruct Hc as [X1 X2 X3 X4 X5 X6 X7]. split; cbn; try done; [by apply next_id_ok|]. intros o dg' kind Ho' Hle. apply X5; [done|]. lia.
    + intros HP a Hacq. destruct (Ha HP) as [_ _ A3]. rewrite <- Nat.add_succ_r. by apply A3.
  - intros HP. apply checked_add64_None in E. destruct (Ha HP). lia.
Qed.

Lemma emission_cached {V} `{FamilyLaws DraftMarkerRecordKey V} a k (v : V) a' : cached a -> emission (R := R) a k v = Ok a' -> cached a'.
Proof.
  intros (Hw & (Hn & Hl) & Hi & Ho) E. pose proof (emission_other _ node_store _ _ _ Hw E Hn) as [Hw' Hn'].
  refine (conj Hw' (conj (conj Hn' (proj2 (emission_other _ leaf_store _ _ _ Hw E Hl))) (conj (proj2 (emission_other _ index_store _ _ _ Hw E Hi)) (proj2 (emission_other _ order_store _ _ _ Hw E Ho))))).
Qed.

Lemma mwp_charge {V} `{FamilyLaws DraftMarkerRecordKey V} k (v : V) bs c c1 n : spending c c1 -> marker_context_ok c1 -> family_typed v -> marker_key_typed k ->
  encode_family_key (V := V) k = Ok (enc_marker_key k) -> encode_family_value (K := DraftMarkerRecordKey) v = Ok bs ->
  max_value_bytes (K := DraftMarkerRecordKey) (V := V) = 32768 -> (P -> forall a, bc_acquisition (build c1) = Some a -> room PIECE_COST a (S n)) ->
  wp (in_pieces (charge_emission k v)) c1 (fun _ c2 => spending c c2 /\ marker_context_ok c2 /\ (P -> forall a, bc_acquisition (build c2) = Some a -> room PIECE_COST a n)).
Proof.
  intros Hsp Hc Hv Hk Hek Hbs Hmax Hr. unfold mwp, in_pieces, charge_emission. destruct (bc_acquisition (build c1)) as [a|] eqn:Ea.
  - pose proof (mx_cached _ Hc a Ea) as Hca.
    assert (Hpr : P -> exists a', emission (R := R) a k v = Ok a' /\ room PIECE_COST a' n).
    { intros HP. eapply emission_progress; try done; [by destruct Hca|by apply Hr|]. rewrite Hmax. by apply key_cost. }
    destruct (emission a k v) as [a'|] eqn:E.
    + split_and!; [|apply (acquired_ok c1 a); [done|done|by eapply emission_cached]|].
      * destruct Hsp as (b & -> & ? & ? & ? & ?). by eexists.
      * intros HP ? [= <-]. destruct (Hpr HP) as (? & ? & ?). congruence.
    + intros HP. destruct (Hpr HP) as (? & ? & _). congruence.
  - assert (Ew : with_pieces c1 (mc c1) = c1) by (by destruct c1). rewrite Ew. split_and!; try done. intros _ a ?. congruence.
Qed.

Lemma fresh_keys c c1 o dg kind : marker_context_ok c -> spending c c1 -> is_u64 o -> bc_ordinal (build c1) <= o ->
  forall kind' dg', marker_key kind (new_id o dg) <> marker_key kind' (new_id (bc_ordinal (build c)) dg').
Proof.
  intros Hc (b & -> & _ & _ & Eo & _) Hu Hle kind' dg' [= _ E]. apply (ps_ids _ _ _ _ _ (ms_pieces Hstores)) in E; [|done|by destruct (mx_pieces _ Hc)].
  cbn in Hle. lia.
Qed.

Lemma spent_able l e c c1 : spending c c1 -> (P -> piece_able l (S e) (mc c)) -> (P -> forall a, bc_acquisition (build c1) = Some a -> room PIECE_COST a (l + e)) ->
  P -> piece_able l e (mc c1).
Proof. intros (b & -> & _ & _ & Eo & Er) Ha Hr HP. destruct (Ha HP) as [A1 A2 A3]. split; [cbn; lia|cbn; by rewrite Er|by apply Hr]. Qed.

Lemma push_index_ok c c1 kind dg r : marker_context_ok c -> spending c c1 -> marker_context_ok c1 -> identity_record_typed r ->
  let k := marker_key kind (new_id (bc_ordinal (build c)) dg) in
  let c2 := mkMarkers (mc c1) (<[k := r]> (mc_index c1)) (mc_order c1) (mc_loaded_index c1) (mc_loaded_order c1) in
  marker_context_ok c2 /\ keeps c c2 /\ index_at c2 k r.
Proof.
  intros Hc Hsp Hc1 Hr k c2. pose proof (mx_fresh _ Hc (bc_ordinal (build c)) dg kind ltac:(by destruct (mx_pieces _ Hc)) ltac:(lia)) as (F1 & F2 & F3 & F4). split_and!.
  - pose proof Hc1 as [X1 X2 X3 X4 X5 X6 X7]. split; cbn; try done.
    + intros o dg' kind' Hu Hle. rewrite lookup_insert_ne; [by apply X5|]. apply not_eq_sym. by eapply fresh_keys.
    + intros k' r'. rewrite lookup_insert_Some. naive_solver.
  - destruct Hsp as (b & -> & E1 & E2 & _). split; [by split| |done]. intros k' r' Hat. unfold index_at in *. cbn in *.
    destruct (decide (k' = k)) as [->|Hne]; [destruct Hat as [?|[_ ?]]; unfold k in *; congruence|]. by rewrite lookup_insert_ne.
  - left. cbn. by rewrite lookup_insert_eq.
Qed.
Lemma push_order_ok c c1 kind dg r : marker_context_ok c -> spending c c1 -> marker_context_ok c1 -> order_record_valid r ->
  let k := marker_key kind (new_id (bc_ordinal (build c)) dg) in
  let c2 := mkMarkers (mc c1) (mc_index c1) (<[k := r]> (mc_order c1)) (mc_loaded_index c1) (mc_loaded_order c1) in
  marker_context_ok c2 /\ keeps c c2 /\ order_at c2 k r.
Proof.
  intros Hc Hsp Hc1 Hr k c2. pose proof (mx_fresh _ Hc (bc_ordinal (build c)) dg kind ltac:(by destruct (mx_pieces _ Hc)) ltac:(lia)) as (F1 & F2 & F3 & F4). split_and!.
  - pose proof Hc1 as [X1 X2 X3 X4 X5 X6 X7]. split; cbn; try done.
    + intros o dg' kind' Hu Hle. rewrite (lookup_insert_ne (mc_order c1)); [by apply X5|]. apply not_eq_sym. by eapply fresh_keys.
    + intros k' r'. rewrite lookup_insert_Some. naive_solver.
  - destruct Hsp as (b & -> & E1 & E2 & _). split; [by split|done|]. intros k' r' Hat. unfold order_at in *. cbn in *.
    destruct (decide (k' = k)) as [->|Hne]; [destruct Hat as [?|[_ ?]]; unfold k in *; congruence|]. by rewrite lookup_insert_ne.
  - left. cbn. by rewrite lookup_insert_eq.
Qed.

Lemma digest_parts_length domain parts : fixed 32 (digest_parts domain parts).
Proof. apply finalize_length. Qed.

Lemma mwp_new_index_leaf l e c o : marker_ready l (S e) c -> occurrence_typed o ->
  wp (new_index_leaf o) c (fun t c' => tr_height t = 0 /\ tr_root t = true /\ index_tree c' 0 false (tr_link t) [o] /\ marker_ready l e c' /\ keeps c c').
Proof.
  intros Hr Ho. pose proof Hr as [Hc Ha]. unfold new_index_leaf. cbv zeta. set (dg := index_leaf_digest o). eapply mwp_new_id; [exact Hr|].
  intros c1 id Hid Hsp Hc1 Hroom. set (k := marker_key KindLeaf id).
  assert (Hk : marker_key_typed k) by (by apply marker_key_ok). assert (Hrt : identity_record_typed (IdentityLeaf k o dg)) by (refine (conj Hk (conj Ho _)); apply digest_parts_length).
  apply mwp_bind. eapply mwp_mono; [by eapply (mwp_charge k (IdentityLeaf k o dg) (enc_identity_record (IdentityLeaf k o dg)) c c1 (l + e))|].
  intros _ c2 (Hsp2 & Hc2 & Hroom2). apply mwp_bind. unfold mwp, push_index. cbn [tr_height tr_root tr_link].
  destruct (push_index_ok c c2 KindLeaf dg (IdentityLeaf k o dg) Hc Hsp2 Hc2 Hrt) as (Hc3 & Hk3 & Hat). split_and!; try done.
  - exists o. split; [|done]. exists k. split; [done|]. split; [done|]. split; done.
  - split; [exact Hc3|]. exact (spent_able l e c c2 Hsp2 Ha Hroom2).
Qed.

Lemma children_typed_index c h xss cs : Forall2 (fun ys y => index_tree c h false y ys) xss cs -> Forall identity_child_typed cs.
Proof.
  induction 1 as [|ys y xss cs Hy _ IH]; constructor; [|done]. destruct (denotes_ends _ _ (index_tree_denotes _ _ _ _ _ Hy)) as (H1' & H2' & _ & Hc).
  assert (Hlk : fixed 16 (ic_id y) /\ fixed 32 (ic_digest y)).
  { destruct h as [|h].
    - destruct Hy as (o & (k & E & _ & ([_ Hi] & _ & Hd) & [= <-]) & ->). done.
    - destruct Hy as (cs' & yss & (k & E & _ & ([_ Hi] & _ & _ & _ & Hd) & Hx & _) & Hf & ->). destruct (index_child_sound _ _ _ _ _ _ (forest_index_denotes _ _ _ _ Hf) Hx) as (_ & -> & ->). done. }
  destruct Hlk. split_and!; try done; unfold is_u64; lia.
Qed.

Lemma mwp_new_index_node l e c h xss cs : marker_ready l (S e) c -> Forall2 (fun ys y => index_tree c h false y ys) xss cs ->
  (1 <= length cs <= DRAFT_PIECE_MAX_CHILDREN)%nat -> (P -> Z.of_nat (S h) <= DRAFT_PIECE_MAX_HEIGHT) -> (P -> index_valid (concat xss)) ->
  wp (new_index_node (Z.of_nat (S h)) cs) c (fun t c' => tr_height t = Z.of_nat (S h) /\ tr_root t = true
    /\ index_tree c' (S h) (length cs =? 1)%nat (tr_link t) (concat xss) /\ marker_ready l e c' /\ keeps c c').
Proof.
  intros Hr Hf Hl HH HV. pose proof Hr as [Hc Ha]. pose proof (forest_index_denotes _ _ _ _ Hf) as Hd. unfold new_index_node. cbv zeta.
  assert (Hne : cs <> []) by (intros ->; cbn in Hl; lia). rewrite (proj2 (Z.eqb_neq _ 0)), bool_decide_false, (proj2 (Nat.ltb_ge _ _)) by (done || lia).
  destruct (Z.ltb_spec DRAFT_PIECE_MAX_HEIGHT (Z.of_nat (S h))) as [Hgt|Hle]; cbn [orb]; [apply mwp_fail; intros HP; specialize (HH HP); lia|].
  apply mwp_bind. unfold validate_index_children, lift_marker, mwp at 1. destruct (validate_index_from None cs) as [[]|] eqn:Ev.
  2: { intros HP. destruct (index_child_complete (R := R) xss cs (marker_key KindLeaf []) 0 [] Hd Hne (HV HP)) as [x Hx]. cbn in Hx. unfold validate_index_children in Hx. by rewrite Ev in Hx. }
  set (dg := index_node_digest (Z.of_nat (S h)) cs). eapply mwp_new_id; [exact Hr|]. intros c1 id Hid Hsp Hc1 Hroom. set (k := marker_key KindInternal id). set (r := IdentityInternal k (Z.of_nat (S h)) cs dg).
  apply mwp_bind. unfold lift_marker, mwp at 1. destruct (index_child_for_record r) as [x|] eqn:Ex.
  2: { intros HP. destruct (index_child_complete (R := R) xss cs k (Z.of_nat (S h)) dg Hd Hne (HV HP)) as [x Hx]. unfold r in Ex. congruence. }
  assert (Hk : marker_key_typed k) by (by apply marker_key_ok). destruct (index_child_sound _ _ _ _ _ _ Hd Ex) as (_ & Eid & Edg).
  assert (Hrt : identity_record_typed r).
  { split; [done|]. split; [unfold is_u8, DRAFT_PIECE_MAX_HEIGHT in *; lia|]. split; [done|]. split; [by eapply children_typed_index|apply digest_parts_length]. }
  apply mwp_bind. eapply mwp_mono; [by eapply (mwp_charge k r (enc_identity_record r) c c1 (l + e))|].
  intros _ c2 (Hsp2 & Hc2 & Hroom2). apply mwp_bind. unfold mwp, push_index. cbn [tr_height tr_root tr_link].
  destruct (push_index_ok c c2 KindInternal dg r Hc Hsp2 Hc2 Hrt) as (Hc3 & Hk3 & Hat). split_and!; try done.
  - exists cs, xss. split_and!; [|by eapply forest_keeps_index|done]. exists k. cbn [tr_link]. cbv zeta. rewrite Eid. split; [done|]. split; [exact Hat|]. split; [done|]. split; [done|].
    destruct (Nat.eqb_spec (length cs) 1); lia.
  - split; [exact Hc3|]. exact (spent_able l e c c2 Hsp2 Ha Hroom2).
Qed.

(** The index is a balanced tree. *)
#[global] Instance index_balanced : BalancedTree P (load_index_children index_store) new_index_node index_tree marker_ready keeps index_valid.
Proof.
  split; [apply marker_ready_le|apply keeps_refl|apply keeps_trans|apply index_tree_mono|apply index_tree_weaken|apply index_valid_app| |apply mwp_new_index_node].
  intros l e c h x xs Hr Ht. unfold load_index_children. apply mwp_bind. eapply mwp_mono; [by eapply mwp_index_node|].
  intros r c' (cs & xss & E & Hf & <- & Hl & Hr' & Hk'). rewrite E. eapply mwp_lift; [done|]. by exists xss.
Qed.

(** ** New records of the order *)

Lemma order_marker_of_typed k i l a dg : order_record_valid (OrderLeaf k i l a dg) -> order_marker_typed (i, l, a).
Proof. by intros (_ & _ & _ & ? & _). Qed.
Lemma order_items_typed c h root x xs : order_tree c h root x xs -> Forall order_marker_typed xs.
Proof.
  revert root x xs. induction h as [|h IH]; intros root x xs; cbn [order_tree].
  - intros ([[i l] a] & (k & _ & _ & Ht & _) & ->). constructor; [|done]. by eapply order_marker_of_typed.
  - intros (cs & xss & _ & Hf & -> & _). induction Hf as [|ys y xss cs Hy _ IHf]; [constructor|]. cbn. apply Forall_app. split; [by eapply IH|done].
Qed.
Lemma maximum_typed xs l : Forall order_marker_typed xs -> maximum_label (label_of <$> xs) = Some l -> is_rev l.
Proof.
  destruct xs as [|x xs]; [done|]. cbn. intros Hf [= <-]. apply Forall_cons in Hf as [Hx Hf].
  assert (is_rev (label_of x)) as Hl by (destruct x as [[? ?] ?]; apply Hx). revert Hl. generalize (label_of x). induction Hf as [|[[i lb] a] xs Hy Hf IH]; intros m Hm; cbn; [done|].
  apply IH. destruct Hy as (_ & Hb & _). unfold is_rev in *. cbn. lia.
Qed.

Lemma children_typed_order c h xss cs : Forall2 (fun ys y => order_tree c h false y ys) xss cs -> Forall order_child_typed cs.
Proof.
  induction 1 as [|ys y xss cs Hy _ IH]; constructor; [|done]. pose proof (order_tree_denotes _ _ _ _ _ Hy) as Hd.
  assert (Hlk : fixed 16 (mo_id y) /\ fixed 32 (mo_digest y)).
  { destruct h as [|h].
    - destruct Hy as ([[i l] a] & (k & E & _ & ([_ Hi] & Hdg & _) & _) & ->). cbn in Hi, Hdg. by rewrite <- E.
    - destruct Hy as (cs' & yss & (k & E & _ & ([_ Hi] & Hdg & _) & _) & _). cbn in Hi, Hdg. by rewrite <- E. }
  destruct Hlk. split; [done|]. split; [done|]. split.
  - pose proof (order_nonempty _ _ Hd). pose proof (od_count _ _ Hd). pose proof (od_valid _ _ Hd). unfold order_valid, is_rev in *. destruct ys; [done|]. cbn in *. lia.
  - eapply maximum_typed; [by eapply order_items_typed|apply Hd].
Qed.

Lemma mwp_new_order_leaf l e c m : marker_ready l (S e) c -> order_marker_typed m ->
  wp (new_marker_order_leaf m) c (fun t c' => tr_height t = 0 /\ tr_root t = true /\ order_tree c' 0 false (tr_link t) [m] /\ marker_ready l e c' /\ keeps c c').
Proof.
  intros Hr Ho. pose proof Hr as [Hc Ha]. destruct m as [[i lb] a]. unfold new_marker_order_leaf. cbv zeta. set (dg := marker_order_leaf_digest (i, lb, a)). eapply mwp_new_id; [exact Hr|].
  intros c1 id Hid Hsp Hc1 Hroom. set (k := marker_key KindLeaf id). set (r := OrderLeaf k i lb a dg).
  assert (Hk : marker_key_typed k) by (by apply marker_key_ok). assert (Hrt : order_record_valid r) by (refine (conj Hk (conj _ (conj eq_refl (conj Ho eq_refl)))); apply digest_parts_length).
  apply mwp_bind. eapply mwp_mono; [by eapply (mwp_charge k r (enc_order_record r) c c1 (l + e))|].
  intros _ c2 (Hsp2 & Hc2 & Hroom2). apply mwp_bind. unfold mwp, push_order, mbind, markerm_bind, lift_marker. cbn [new_order_child Z.eqb Pos.eqb ok_or mret markerm_ret tr_height tr_root tr_link].
  destruct (push_order_ok c c2 KindLeaf dg r Hc Hsp2 Hc2 Hrt) as (Hc3 & Hk3 & Hat). split_and!; try done.
  - exists (i, lb, a). split; [|done]. exists k. split; [done|]. cbv zeta. split; [exact Hat|]. split; [exact Hrt|done].
  - split; [exact Hc3|]. exact (spent_able l e c c2 Hsp2 Ha Hroom2).
Qed.

Lemma mwp_new_order_node l e c h xss cs : marker_ready l (S e) c -> Forall2 (fun ys y => order_tree c h false y ys) xss cs ->
  (1 <= length cs <= DRAFT_PIECE_MAX_CHILDREN)%nat -> (P -> Z.of_nat (S h) <= DRAFT_PIECE_MAX_HEIGHT) -> (P -> order_valid (concat xss)) ->
  wp (new_marker_order_node (Z.of_nat (S h)) cs) c (fun t c' => tr_height t = Z.of_nat (S h) /\ tr_root t = true
    /\ order_tree c' (S h) (length cs =? 1)%nat (tr_link t) (concat xss) /\ marker_ready l e c' /\ keeps c c').
Proof.
  intros Hr Hf Hl HH HV. pose proof Hr as [Hc Ha]. pose proof (forest_order_denotes _ _ _ _ Hf) as Hd. unfold new_marker_order_node. cbv zeta.
  assert (Hne : cs <> []) by (intros ->; cbn in Hl; lia). rewrite (proj2 (Z.eqb_neq _ 0)), bool_decide_false, (proj2 (Nat.ltb_ge _ _)) by (done || lia).
  destruct (Z.ltb_spec DRAFT_PIECE_MAX_HEIGHT (Z.of_nat (S h))) as [Hgt|Hle]; cbn [orb]; [apply mwp_fail; intros HP; specialize (HH HP); lia|].
  destruct (order_counts _ _ Hd) as [Ec Hn]. rewrite checked_sum_spec, Ec, Z.add_0_l by (done || lia). apply mwp_bind. unfold lift_marker, mwp at 1.
  destruct (Z.leb_spec (zlen (concat xss)) U64_MAX) as [Hv|Hv]; cbn [ok_or]; [|intros HP; specialize (HV HP); unfold order_valid in HV; lia].
  assert (Hcne : concat xss <> []) by (destruct Hd as [|ys y ? ? Hy]; [done|]; pose proof (order_nonempty _ _ Hy); by destruct ys).
  rewrite (order_maxima _ _ Hd). destruct (maximum_label (label_of <$> concat xss)) as [mx|] eqn:Em; [|by destruct (concat xss)]. cbn [ok_or]. apply mwp_bind. apply mwp_ret.
  set (dg := marker_order_node_digest (Z.of_nat (S h)) cs). eapply mwp_new_id; [exact Hr|]. intros c1 id Hid Hsp Hc1 Hroom. set (k := marker_key KindInternal id). set (r := OrderInternal k (Z.of_nat (S h)) cs dg).
  assert (Hk : marker_key_typed k) by (by apply marker_key_ok).
  assert (Hrt : order_record_valid r) by (refine (conj Hk (conj (digest_parts_length _ _) (conj eq_refl (conj _ (conj Hl (conj _ eq_refl)))))); [lia|by eapply children_typed_order]).
  apply mwp_bind. eapply mwp_mono; [by eapply (mwp_charge k r (enc_order_record r) c c1 (l + e))|].
  intros _ c2 (Hsp2 & Hc2 & Hroom2). apply mwp_bind. unfold mwp, push_order, mbind, markerm_bind, lift_marker, new_order_child.
  rewrite (proj2 (Z.eqb_neq (zlen _) 0)) by (destruct (concat xss); [done|cbn; lia]). cbn [ok_or mret markerm_ret tr_height tr_root tr_link].
  destruct (push_order_ok c c2 KindInternal dg r Hc Hsp2 Hc2 Hrt) as (Hc3 & Hk3 & Hat). split_and!; try done.
  - exists cs, xss. split; [|split; [by eapply forest_keeps_order|split; [done|by split]]]. exists k. split; [done|]. cbv zeta. split; [exact Hat|]. split; [exact Hrt|].
    destruct (Nat.eqb_spec (length cs) 1); lia.
  - split; [exact Hc3|]. exact (spent_able l e c c2 Hsp2 Ha Hroom2).
Qed.

(** The order is a balanced tree. *)
#[global] Instance order_balanced : BalancedTree P (load_order_children order_store) new_marker_order_node order_tree marker_ready keeps order_valid.
Proof.
  split; [apply marker_ready_le|apply keeps_refl|apply keeps_trans|apply order_tree_mono|apply order_tree_weaken| | |apply mwp_new_order_node].
  - unfold order_valid. intros xs ys. rewrite length_app. lia.
  - intros l e c h x xs Hr Ht. unfold load_order_children. apply mwp_bind. eapply mwp_mono; [by eapply mwp_order_node|].
    intros r c' (cs & xss & E & Hf & <- & Hl & Hr' & Hk'). rewrite E. eapply mwp_lift; [done|]. by exists xss.
Qed.
End Edit.
