(* ===== verification/MarkerIndex.v ===== *)
(** * The index of marker identities: lookup, insertion and removal

    Against the occurrences a root stands for, in increasing order of their identities: a lookup
    finds the occurrence of an identity, an insertion of a new identity puts the occurrence at its
    place, a removal takes out the one occurrence, and compression keeps them all. *)
From stdpp Require Import prelude gmap strings.
From Stdlib Require Import Sorting.Sorted.
From S2P Require Import Prelude.
From S2P Require Import Bytes.
From S2P Require Import ModelDigest.
From S2P Require Import SyndicParts.
From S2P Require Import BuildBudget.
From S2P Require Import MappingModel.
From S2P Require Import MappingEdit.
From S2P Require Import PieceModel.
From S2P Require Import PieceCodec.
From S2P Require Import PieceTree.
From S2P Require Import PieceDenote.
From S2P Require Import PieceEdit.
From S2P Require Import MarkerModel.
From S2P Require Import MarkerCodec.
From S2P Require Import MarkerTree.
From S2P Require Import MarkerBalance.
From S2P Require Import MarkerDenote.
From S2P Require Import MarkerEdit.

(** ** Positions *)

Lemma position_Some {A} (f : A -> bool) l i : position f l = Some i -> exists pre x post, l = pre ++ x :: post /\ length pre = i /\ f x = true /\ Forall (fun y => f y = false) pre.
Proof.
  revert i. induction l as [|x l IH]; intros i; cbn; [done|]. destruct (f x) eqn:Ef.
  - intros [= <-]. by exists [], x, l.
  - rewrite fmap_Some. intros (j & Ej & ->). destruct (IH j Ej) as (pre & y & post & -> & <- & Hy & Hpre). exists (x :: pre), y, post. split_and!; try done. by constructor.
Qed.
Lemma position_None {A} (f : A -> bool) l : position f l = None -> Forall (fun y => f y = false) l.
Proof. induction l as [|x l IH]; cbn; [done|]. destruct (f x) eqn:Ef; [done|]. rewrite fmap_None. intros E. constructor; auto. Qed.

(** ** Occurrences by identity *)

Definition found (id : list byte) (xs : list occurrence) (r : option occurrence) : Prop :=
  match r with Some o => o ∈ xs /\ oc_marker_id o = id | None => Forall (fun o => oc_marker_id o <> id) xs end.
(** [xs] with [o] at its place. *)
Definition inserted (o : occurrence) (xs ys : list occurrence) : Prop :=
  exists l r, xs = l ++ r /\ ys = l ++ o :: r /\ StronglySorted before ys.

Lemma inserted_elem o xs ys a : inserted o xs ys -> a ∈ ys <-> a = o \/ a ∈ xs.
Proof. intros (l & r & -> & -> & _). rewrite !elem_of_app, elem_of_cons. tauto. Qed.
Lemma inserted_length o xs ys : inserted o xs ys -> length ys = S (length xs).
Proof. intros (l & r & -> & -> & _). rewrite !length_app. cbn. lia. Qed.

(** A place among the occurrences of one child is a place among those of the node. *)
Lemma inserted_between o pre xs ys post : StronglySorted before (pre ++ xs ++ post) -> inserted o xs ys ->
  (forall a, a ∈ pre -> before a o) -> (forall a, a ∈ post -> before o a) -> inserted o (pre ++ xs ++ post) (pre ++ ys ++ post).
Proof.
  intros Hs Hin Hpre Hpost. pose proof Hin as (l & r & -> & -> & Hy). exists (pre ++ l), (r ++ post).
  rewrite <- !app_assoc. split; [done|]. split; [done|]. pose proof (fun a => inserted_elem o _ _ a Hin) as Hel.
  apply sorted_app_iff in Hs as (S1 & S2 & S3). apply sorted_app_iff in S2 as (S4 & S5 & S6).
  assert (H2 : StronglySorted before ((l ++ o :: r) ++ post)).
  { apply sorted_app_iff. split_and!; try done. intros a b Ha Hb. apply Hel in Ha as [->|Ha]; [by apply Hpost|by apply S6]. }
  rewrite <- app_assoc in H2. apply sorted_app_iff. split_and!; try done.
  intros a b Ha Hb. change (o :: r ++ post) with ((o :: r) ++ post) in Hb. rewrite app_assoc in Hb. apply elem_of_app in Hb as [Hb|Hb].
  - apply Hel in Hb as [->|Hb]; [by apply Hpre|]. apply S3; [done|]. apply elem_of_app. by left.
  - apply S3; [done|]. apply elem_of_app. by right.
Qed.

Section Index.
Context {H : Type} `{Sha256Laws H} {R : Type}.
Context (node_store : DraftPieceRecordKey -> result (DraftPiecePrepareError R) (option DraftPieceNodeRecord))
        (leaf_store : DraftPieceRecordKey -> result (DraftPiecePrepareError R) (option DraftPieceLeafRecord))
        (index_store : DraftMarkerRecordKey -> result (DraftPiecePrepareError R) (option DraftMarkerIdentityRecord))
        (order_store : DraftMarkerRecordKey -> result (DraftPiecePrepareError R) (option DraftMarkerOrderRecord))
        (draft session operation : list byte) (P : Prop)
        (Hstores : marker_stores_ok node_store leaf_store index_store order_store draft session operation).
Abbreviation ready := (marker_ready node_store leaf_store index_store order_store draft session operation P).
Abbreviation keeps := (keeps index_store order_store).
Abbreviation tree := (index_tree (R := R) index_store draft).
Abbreviation forest c h := (Forall2 (fun ys y => tree c h false y ys)).
Abbreviation wp := (mwp (R := R) P).
#[local] Instance the_index_balanced : BalancedTree P (load_index_children index_store) new_index_node tree ready keeps index_valid :=
  index_balanced node_store leaf_store index_store order_store draft session operation P Hstores.

Ltac less Hr := eapply marker_ready_le; [| |exact Hr]; fold Nat.add; lia.

(** The items of a node, around the child at a position. *)
Lemma forest_split c h xss cpre child cpost : forest c h xss (cpre ++ child :: cpost) -> exists pre ys post, xss = pre ++ ys :: post
  /\ forest c h pre cpre /\ tree c h false child ys /\ forest c h post cpost /\ concat xss = concat pre ++ ys ++ concat post.
Proof.
  intros Hf. apply Forall2_app_inv_r in Hf as (pre & rest & Hpre & Hf & ->). apply Forall2_cons_inv_r in Hf as (ys & post & Hy & Hpost & ->).
  exists pre, ys, post. split_and!; try done. by rewrite concat_app.
Qed.

Lemma forest_elem c h xss cs o : forest c h xss cs -> o ∈ concat xss -> exists x, x ∈ cs /\ be_value (ic_first x) <= id_value o <= be_value (ic_last x).
Proof.
  induction 1 as [|ys y xss cs Hy Hf IH]; cbn; [by intros ?%not_elem_of_nil|]. rewrite elem_of_app. intros [Ho|Ho].
  - exists y. split; [by apply list_elem_of_here|]. eapply denotes_bounds; [by eapply index_tree_denotes|done].
  - destruct (IH Ho) as (x & Hx & ?). exists x. split; [by apply list_elem_of_further|done].
Qed.
Lemma forest_ends c h xss cs x : forest c h xss cs -> x ∈ cs -> fixed 16 (ic_first x) /\ fixed 16 (ic_last x).
Proof.
  induction 1 as [|ys y xss cs Hy Hf IH]; [by intros ?%not_elem_of_nil|]. intros [->|Hx]%elem_of_cons; [|by apply IH].
  destruct (denotes_ends _ _ (index_tree_denotes _ _ _ _ _ _ _ Hy)) as (? & ? & _). done.
Qed.

Lemma holds_id_spec id x : fixed 16 id -> fixed 16 (ic_first x) -> fixed 16 (ic_last x) -> holds_id id x = true <-> be_value (ic_first x) <= be_value id <= be_value (ic_last x).
Proof. intros Hid H1' H2'. unfold holds_id. rewrite !id_leb_spec, andb_true_iff, !Z.leb_le by done. done. Qed.

(** What the first child whose bounds hold an identity leaves out does not have it. *)
Lemma position_holds c h xss cs id : fixed 16 id -> forest c h xss cs -> StronglySorted before (concat xss) -> match position (holds_id id) cs with
  | None => Forall (fun o => oc_marker_id o <> id) (concat xss)
  | Some i => exists cpre child cpost pre ys post, cs = cpre ++ child :: cpost /\ length cpre = i /\ forest c h pre cpre /\ tree c h false child ys /\ forest c h post cpost
      /\ concat xss = concat pre ++ ys ++ concat post /\ Forall (fun o => oc_marker_id o <> id) (concat pre) /\ Forall (fun o => oc_marker_id o <> id) (concat post)
  end.
Proof.
  intros Hid Hf Hs.
  assert (Hnone : forall yss ds, forest c h yss ds -> Forall (fun y => holds_id id y = false) ds -> Forall (fun o => oc_marker_id o <> id) (concat yss)).
  { intros yss ds Hfy Hd. apply Forall_forall. intros o Ho Eo. destruct (forest_elem _ _ _ _ _ Hfy Ho) as (x & Hx & Hb). destruct (forest_ends _ _ _ _ _ Hfy Hx).
    eapply Forall_forall in Hd; [|exact Hx]. assert (holds_id id x = true) by (apply holds_id_spec; try done; unfold id_value in Hb; by rewrite <- Eo). congruence. }
  destruct (position (holds_id id) cs) as [i|] eqn:Ep; [|apply position_None in Ep; by eapply Hnone].
  apply position_Some in Ep as (cpre & child & cpost & -> & <- & Hh & Hpre). destruct (forest_split _ _ _ _ _ _ Hf) as (pre & ys & post & -> & Fpre & Fy & Fpost & Ec).
  exists cpre, child, cpost, pre, ys, post. split_and!; try done; [by eapply Hnone|]. rewrite Ec in Hs. apply sorted_app_iff in Hs as (_ & Hs & _). apply sorted_app_iff in Hs as (_ & _ & Hs).
  pose proof (index_tree_denotes _ _ _ _ _ _ _ Fy) as Hd. destruct (denotes_ends _ _ Hd) as (E1 & E2 & _). apply holds_id_spec in Hh; [|done..].
  apply Forall_forall. intros o Ho Eo. destruct (id_last _ _ Hd) as (l & El & E3). apply last_Some in El as [ys' ->].
  specialize (Hs l o ltac:(apply elem_of_app; right; by apply list_elem_of_singleton) Ho). unfold before, id_value in Hs. rewrite Eo, <- E3 in Hs. lia.
Qed.

(** ** Lookup *)

Lemma mwp_lookup_from h : forall l e c root x xs id, fixed 16 id -> ready (S h + l) e c -> tree c h root x xs ->
  wp (lookup_from index_store h x root id) c (fun r c' => found id xs r /\ ready l e c' /\ keeps c c').
Proof.
  induction h as [|h IH]; intros l e c root x xs id Hid Hr Ht; cbn [lookup_from]; apply mwp_bind.
  - eapply mwp_mono; [by eapply mwp_index_leaf|]. intros r c' (o & -> & E & Hr' & Hk'). rewrite E. apply mwp_bind. eapply mwp_lift; [done|]. apply mwp_ret.
    split_and!; try done. case_bool_decide as Eo; cbn; [split; [by apply list_elem_of_singleton|done]|by repeat constructor].
  - eapply mwp_mono; [by eapply mwp_index_node|]. intros r c' (cs & xss & E & Hf & <- & Hl & Hr' & Hk'). rewrite E. apply mwp_bind. eapply mwp_lift; [done|].
    destruct (id_valid _ _ (index_tree_denotes _ _ _ _ _ _ _ Ht)) as [Hs _].
    pose proof (position_holds c' h xss cs id Hid Hf Hs) as Hp. destruct (position (holds_id id) cs) as [i|]; cbn [mbind option_bind].
    2: { apply mwp_ret. split_and!; try done. less Hr'. }
    destruct Hp as (cpre & child & cpost & pre & ys & post & -> & <- & Fpre & Fy & Fpost & Ec & N1 & N2). rewrite list_lookup_middle by done.
    eapply mwp_mono; [by eapply (IH l)|]. intros res c2 (Hfd & Hr2 & Hk2). split_and!; [|done|by eapply keeps_trans]. rewrite Ec.
    destruct res as [o|]; cbn in *; [destruct Hfd; split; [|done]; by rewrite !elem_of_app; auto|]. by rewrite !Forall_app.
Qed.

Abbreviation root := (root_tree tree).

Lemma mwp_index_lookup l e c t xs id : fixed 16 id -> ready (S (tree_height t) + l) e c -> root c t xs ->
  wp (index_lookup index_store t id) c (fun r c' => found id xs r /\ ready l e c' /\ keeps c c').
Proof.
  intros Hid Hr Ht. destruct t as [t|]; cbn [root_tree index_lookup] in *.
  - destruct Ht as (E1 & h & E2 & Ht). cbn in Hr. rewrite E1, E2, Nat2Z.id in *. by eapply mwp_lookup_from.
  - subst xs. cbn in Hr. apply mwp_ret. split_and!; [by constructor|less Hr|apply keeps_refl].
Qed.

(** ** Insertion *)

Lemma before_ids a b : before a b -> oc_marker_id a <> oc_marker_id b.
Proof. unfold before, id_value. intros Hb E. rewrite E in Hb. lia. Qed.

(** The child that takes a new occurrence: what is left of it comes before, what is right of it after. *)
Lemma position_insert c h xss cs o : occurrence_typed o -> forest c h xss cs -> cs <> [] -> StronglySorted before (concat xss) -> Forall (fun a => oc_marker_id a <> oc_marker_id o) (concat xss) ->
  exists cpre child cpost pre ys post, cs = cpre ++ child :: cpost
    /\ default (length cs - 1)%nat (position (fun child => id_leb (oc_marker_id o) (ic_last child)) cs) = length cpre
    /\ forest c h pre cpre /\ tree c h false child ys /\ forest c h post cpost /\ concat xss = concat pre ++ ys ++ concat post
    /\ (forall a, a ∈ concat pre -> before a o) /\ (forall a, a ∈ concat post -> before o a).
Proof.
  intros [Hid _] Hf Hne Hs Hnew.
  assert (Hleft : forall yss ds, forest c h yss ds -> Forall (fun y => id_leb (oc_marker_id o) (ic_last y) = false) ds -> forall a, a ∈ concat yss -> before a o).
  { intros yss ds Hfy Hd a Ha. destruct (forest_elem _ _ _ _ _ Hfy Ha) as (x & Hx & Hb). destruct (forest_ends _ _ _ _ _ Hfy Hx).
    eapply Forall_forall in Hd; [|exact Hx]. rewrite id_leb_spec, Z.leb_gt in Hd by done. unfold before, id_value in *. lia. }
  destruct (position _ cs) as [i|] eqn:Ep; cbn [default].
  - apply position_Some in Ep as (cpre & child & cpost & -> & <- & Hh & Hpre). destruct (forest_split _ _ _ _ _ _ Hf) as (pre & ys & post & -> & Fpre & Fy & Fpost & Ec).
    exists cpre, child, cpost, pre, ys, post. split_and!; try done; [by eapply Hleft|]. rewrite Ec in Hs. apply sorted_app_iff in Hs as (_ & Hs & _). apply sorted_app_iff in Hs as (_ & _ & Hs).
    pose proof (index_tree_denotes _ _ _ _ _ _ _ Fy) as Hd. destruct (denotes_ends _ _ Hd) as (E1 & E2 & _). rewrite id_leb_spec, Z.leb_le in Hh by done.
    intros a Ha. destruct (id_last _ _ Hd) as (l & El & E3). apply last_Some in El as [ys' ->].
    specialize (Hs l a ltac:(apply elem_of_app; right; by apply list_elem_of_singleton) Ha). unfold before, id_value in *. rewrite E3 in Hh. lia.
  - apply position_None in Ep. destruct cs as [|child cpre _] using rev_ind; [done|]. destruct (forest_split _ _ _ _ _ _ Hf) as (pre & ys & post & -> & Fpre & Fy & Fpost & Ec).
    apply Forall_app in Ep as [Hpre _]. exists cpre, child, [], pre, ys, post. apply Forall2_nil_inv_r in Fpost as ->. split_and!; try done.
    + rewrite length_app. cbn. lia.
    + by eapply Hleft.
    + by intros a Ha%not_elem_of_nil.
Qed.

Lemma mwp_insert_recursive h : forall l e c selected x xs o, occurrence_typed o -> ready (S h + l) (1 + 2 * h + e) c -> tree c h selected x xs ->
  Forall (fun a => oc_marker_id a <> oc_marker_id o) xs -> (P -> Z.of_nat h <= DRAFT_PIECE_MAX_HEIGHT) -> (P -> zlen xs + 1 <= U64_MAX) ->
  wp (index_insert_recursive index_store h x selected o) c (fun ts c' => exists ys, inserted o xs ys /\ parts_of tree c' h selected ys ts /\ ready l e c' /\ keeps c c').
Proof.
  induction h as [|h IH]; intros l e c selected x xs o Ho Hr Ht Hnew HH HN; cbn [index_insert_recursive]; apply mwp_bind.
  - eapply mwp_mono; [by eapply mwp_index_leaf|]. intros r c' (a & -> & E & Hr' & Hk'). rewrite E. apply mwp_bind. eapply mwp_lift; [done|].
    apply Forall_cons in Hnew as [Hne _]. rewrite bool_decide_false by done. apply mwp_bind. eapply mwp_mono; [by eapply (mwp_new_index_leaf _ _ _ _ _ _ _ _ Hstores l e)|].
    intros t c2 (T1 & T2 & T3 & Hr2 & Hk2). apply mwp_ret.
    assert (Ha : occurrence_typed a) by (eapply (Forall_forall _ [a]); [by eapply id_typed, index_tree_denotes|by apply list_elem_of_singleton]).
    assert (Hx : tree c2 0 false x [a]) by (eapply (index_tree_mono _ _ _ c); [by eapply keeps_trans|exact Ht]).
    destruct Ho as [Hio _], Ha as [Hia _]. rewrite id_ltb_spec by done. destruct (Z.ltb_spec (be_value (oc_marker_id o)) (be_value (oc_marker_id a))) as [Hlt|Hge].
    + exists [o; a]. split_and!; [|exists [o], [a]; by split_and!|done|by eapply keeps_trans]. exists [], [a]. split_and!; [done|done|]. repeat constructor. done.
    + exists [a; o]. split_and!; [|exists [a], [o]; by split_and!|done|by eapply keeps_trans]. exists [a], []. split_and!; [done|done|]. repeat constructor. unfold before, id_value.
      destruct (decide (be_value (oc_marker_id a) = be_value (oc_marker_id o))) as [E'|]; [|lia]. by apply (be_value_fixed_inj 16) in E'.
  - eapply mwp_mono; [by eapply mwp_index_node|]. intros r c' (cs & xss & E & Hf & <- & Hl & Hr' & Hk'). rewrite E. apply mwp_bind. eapply mwp_lift; [done|].
    destruct (id_valid _ _ (index_tree_denotes _ _ _ _ _ _ _ Ht)) as [Hs _].
    destruct (position_insert c' h xss cs o Ho Hf) as (cpre & child & cpost & pre & ys & post & -> & Ei & Fpre & Fy & Fpost & Ec & B1 & B2); try done.
    { intros ->. cbn in Hl. destruct selected; lia. }
    rewrite Ei, list_lookup_middle by done. cbn [ok_or]. apply mwp_bind, (mwp_ret P). apply mwp_bind. rewrite Ec in *. rewrite !Forall_app in Hnew. rewrite !length_app in HN.
    eapply mwp_mono; [eapply (IH l (2 + e)%nat); try done; [less Hr'|tauto|intros HP; specialize (HH HP); lia|intros HP; specialize (HN HP); lia]|].
    intros ts c2 (zs & Hin & Hts & Hr2 & Hk2). pose proof (inserted_between o _ _ _ _ Hs Hin B1 B2) as Hall.
    eapply mwp_mono; [eapply (mwp_insert_node P _ _ tree ready keeps index_valid l e c2 h selected pre post cpre child cpost zs ts); try done|].
    + eapply forest_keeps_index; [exact Hk2|done].
    + eapply forest_keeps_index; [exact Hk2|done].
    + intros HP. split; [by destruct Hall as (? & ? & _ & _ & ?)|]. apply inserted_length in Hall. rewrite Hall, !length_app. specialize (HN HP). lia.
    + intros roots c3 (Hp & Hr3 & Hk3). eexists. split_and!; try done. eapply keeps_trans; [exact Hk'|]. by eapply keeps_trans.
Qed.

Lemma mwp_index_insert l e c t xs o : occurrence_typed o -> ready (2 * S (tree_height t) + l) (2 + 2 * tree_height t + e) c -> root c t xs ->
  (P -> Forall (fun a => oc_marker_id a <> oc_marker_id o) xs) -> (P -> Z.of_nat (tree_height t) < DRAFT_PIECE_MAX_HEIGHT) -> (P -> zlen xs + 1 <= U64_MAX) ->
  wp (index_insert index_store t o) c (fun t' c' => Forall (fun a => oc_marker_id a <> oc_marker_id o) xs /\ exists ys, inserted o xs ys /\ root c' t' ys /\ (tree_height t' <= S (tree_height t))%nat /\ ready l e c' /\ keeps c c').
Proof.
  intros Ho Hr Ht Hnew HH HN. destruct t as [t|]; cbn [index_insert].
  - apply mwp_bind. eapply mwp_mono; [eapply (mwp_index_lookup (S (tree_height (Some t)) + l) (2 + 2 * tree_height (Some t) + e)); [by destruct Ho|less Hr|done]|]. intros r c1 (Hfd & Hr1 & Hk1).
    destruct r as [a|]; [destruct Hfd as [Ha Ea]; apply mwp_fail; intros HP; specialize (Hnew HP); eapply Forall_forall in Hnew; [|exact Ha]; done|]. cbn [root_tree] in Ht.
    destruct Ht as (E1 & h & E2 & Ht). assert (Eh : tree_height (Some t) = S h) by (cbn; lia). rewrite Eh in *. rewrite E1, E2, Nat2Z.id. cbn in Hfd.
    apply mwp_bind. eapply mwp_mono; [eapply (mwp_insert_recursive (S h) l (1 + e)); try done; [less Hr1|by eapply index_tree_mono|intros HP; specialize (HH HP); lia]|].
    intros ts c2 (ys & Hin & Hts & Hr2 & Hk2). eapply mwp_mono; [eapply (mwp_join P _ _ tree ready keeps index_valid l e c2 h ys ts); try done|].
    + intros HP. specialize (HH HP). lia.
    + intros HP. split; [by destruct Hin as (? & ? & _ & _ & ?)|]. rewrite (inserted_length _ _ _ Hin). specialize (HN HP). lia.
    + intros t' c3 (Ht' & Hh & Hr3 & Hk3). split; [done|]. exists ys. split_and!; try done. eapply keeps_trans; [exact Hk1|]. by eapply keeps_trans.
  - cbn in Ht. subst xs. cbn in Hr. apply mwp_bind. eapply mwp_mono; [eapply (mwp_new_index_leaf _ _ _ _ _ _ _ _ Hstores l (S e)); [less Hr|done]|].
    intros x c1 (_ & _ & Hx & Hr1 & Hk1). apply mwp_bind.
    eapply mwp_mono; [eapply (mwp_new_index_node _ _ _ _ _ _ _ _ Hstores l e c1 0 [[o]] [tr_link x]); try done; [by repeat constructor|cbn; unfold DRAFT_PIECE_MAX_CHILDREN; lia|]|].
    + intros _. split; [by repeat constructor|cbn; lia].
    + intros t c2 (T1 & T2 & T3 & Hr2 & Hk2). apply mwp_ret. split; [done|]. exists [o]. split_and!; [|split; [done|]; by exists 0%nat|cbn; lia|done|by eapply keeps_trans].
      exists [], []. split_and!; [done|done|]. by repeat constructor.
Qed.

(** An identity that is there is refused. *)
Lemma index_insert_duplicate l e c t xs o a : occurrence_typed o -> ready (S (tree_height t) + l) e c -> root c t xs -> a ∈ xs -> oc_marker_id a = oc_marker_id o -> P ->
  index_insert index_store t o c = Err (Rejected DuplicateMarkerIdentity).
Proof.
  intros Ho Hr Ht Ha Ea HP. destruct t as [t|]; [|cbn in Ht; subst; by apply not_elem_of_nil in Ha].
  pose proof (mwp_index_lookup l e c (Some t) xs (oc_marker_id o) ltac:(by destruct Ho) Hr Ht) as Hw. cbn [index_insert]. unfold mwp in Hw. unfold mbind, markerm_bind.
  destruct (index_lookup _ _ _ _) as [[r c']|]; [|done]. destruct Hw as (Hfd & _). destruct r as [b|]; [done|]. cbn in Hfd. eapply Forall_forall in Hfd; [|exact Ha]. done.
Qed.

(** ** Removal *)

Lemma index_valid_remove xs o ys : index_valid (xs ++ o :: ys) -> index_valid (xs ++ ys).
Proof.
  intros [Hs Hl]. split; [|rewrite length_app in *; cbn in Hl; lia]. apply sorted_app_iff in Hs as (S1 & S2 & S3). apply StronglySorted_inv in S2 as [S2 _].
  apply sorted_app_iff. split_and!; try done. intros a b Ha Hb. apply S3; [done|]. by apply list_elem_of_further.
Qed.

Lemma mwp_edit_identity h : forall l e c selected x xs o, fixed 16 (oc_marker_id o) -> ready (S h + h + l) (3 * h + e) c -> tree c h selected x xs -> (P -> o ∈ xs) ->
  (P -> Z.of_nat h <= DRAFT_PIECE_MAX_HEIGHT) ->
  wp (edit_identity index_store h x selected o) c (fun res c' => exists ls rs, xs = ls ++ o :: rs /\ edited_of tree c' h selected (ls ++ rs) res /\ ready l e c' /\ keeps c c').
Proof.
  induction h as [|h IH]; intros l e c selected x xs o Hid Hr Ht Ho HH; cbn [edit_identity]; apply mwp_bind.
  - eapply mwp_mono; [by eapply mwp_index_leaf|]. intros r c' (a & -> & E & Hr' & Hk'). rewrite E. case_bool_decide as Eo; [injection Eo as ->; apply mwp_ret; by exists [], []|].
    apply mwp_fail. intros HP. apply Eo. specialize (Ho HP). by apply list_elem_of_singleton in Ho as ->.
  - eapply mwp_mono; [eapply (mwp_index_node _ _ _ _ _ _ _ _ Hstores (S h + S h + l) (3 * S h + e)); [less Hr|done]|]. intros r c' (cs & xss & E & Hf & <- & Hl & Hr' & Hk'). rewrite E. apply mwp_bind. eapply mwp_lift; [done|].
    pose proof (id_valid _ _ (index_tree_denotes _ _ _ _ _ _ _ Ht)) as Hv. destruct Hv as [Hs Hlen].
    pose proof (position_holds c' h xss cs (oc_marker_id o) Hid Hf Hs) as Hp. apply mwp_bind. destruct (position _ cs) as [i|]; [|intros HP; eapply Forall_forall in Hp; [|exact (Ho HP)]; done].
    eapply mwp_lift; [done|]. destruct Hp as (cpre & child & cpost & pre & ys & post & -> & <- & Fpre & Fy & Fpost & Ec & N1 & N2). rewrite list_lookup_middle by done.
    apply mwp_bind. eapply mwp_lift; [done|]. rewrite Ec in *.
    assert (Hoy : P -> o ∈ ys). { intros HP. specialize (Ho HP). rewrite !elem_of_app in Ho. destruct Ho as [Ho|[Ho|Ho]]; [eapply Forall_forall in N1; [|exact Ho]; done|done|eapply Forall_forall in N2; [|exact Ho]; done]. }
    apply mwp_bind. eapply mwp_mono; [eapply (IH (S l) (3 + e)%nat); try done; [less Hr'|intros HP; specialize (HH HP); lia]|].
    intros res c2 (ls & rs & -> & He & Hr2 & Hk2).
    eapply mwp_mono; [eapply (mwp_edit_node P _ _ tree ready keeps index_valid l e c2 h selected pre post cpre child cpost); try done|].
    + by eapply forest_keeps_index.
    + by eapply forest_keeps_index.
    + intros _. rewrite <- app_assoc, app_assoc. eapply (index_valid_remove _ o). split; [|rewrite <- !app_assoc in *; done]. by rewrite <- !app_assoc in *.
    + intros res' c3 (Hres & Hr3 & Hk3). exists (concat pre ++ ls), (rs ++ concat post). rewrite <- !app_assoc in *. split_and!; try done.
      eapply keeps_trans; [exact Hk'|]. by eapply keeps_trans.
Qed.

Lemma mwp_index_delete l e c t xs o : fixed 16 (oc_marker_id o) -> ready (S (2 * tree_height t) + l) (1 + 3 * tree_height t + e) c -> root c t xs -> (P -> o ∈ xs) ->
  (P -> Z.of_nat (tree_height t) <= DRAFT_PIECE_MAX_HEIGHT) ->
  wp (index_delete index_store t o) c (fun t' c' => exists ls rs, xs = ls ++ o :: rs /\ root c' t' (ls ++ rs) /\ (tree_height t' <= tree_height t)%nat /\ ready l e c' /\ keeps c c').
Proof.
  intros Hid Hr Ht Ho HH. destruct t as [t|]; [|cbn in Ht; subst; intros HP; by apply Ho, not_elem_of_nil in HP]. destruct Ht as (E1 & h & E2 & Ht).
  assert (Eh : tree_height (Some t) = S h) by (cbn; lia). rewrite Eh in *. unfold index_delete, remove_identity. apply mwp_bind. eapply mwp_lift; [done|]. rewrite E1, E2, Nat2Z.id.
  apply mwp_bind. eapply mwp_mono; [eapply (mwp_edit_identity (S h) l (1 + e)); try done; less Hr|].
  intros res c1 (ls & rs & -> & He & Hr1 & Hk1).
  eapply mwp_mono; [eapply (mwp_finish P _ _ tree ready keeps index_valid l e c1 h); try done|].
  - intros _. eapply index_valid_remove. by eapply id_valid, index_tree_denotes.
  - intros t' c2 (Ht' & Hh & Hr2 & Hk2). exists ls, rs. split_and!; try done. by eapply keeps_trans.
Qed.

(** ** Roots *)

Lemma mwp_compress_from h : forall l e c x xs, ready (h + l) e c -> tree c (S h) true x xs ->
  wp (compress_index_from index_store (S h) x true) c (fun t c' => root c' t xs /\ (tree_height t <= S h)%nat /\ ready l e c' /\ keeps c c').
Proof.
  induction h as [|h IH]; intros l e c x xs Hr Ht; cbn [compress_index_from].
  - apply mwp_ret. split_and!; [split; [done|]; by exists 0%nat|cbn; lia|done|apply keeps_refl].
  - cbn [Nat.leb]. apply mwp_bind. eapply mwp_mono; [by eapply (mwp_index_node _ _ _ _ _ _ _ _ Hstores (h + l))|].
    intros r c' (cs & xss & E & Hf & <- & Hl & Hr' & Hk'). rewrite E. apply mwp_bind. eapply mwp_lift; [done|].
    assert (Hdone : ready l e c' -> wp (mret (Some (mkTreeRef x (Z.of_nat (S (S h))) true))) c' (fun t c' => root c' t (concat xss) /\ (tree_height t <= S (S h))%nat /\ ready l e c' /\ keeps c c')).
    { intros Hr2. apply mwp_ret. split_and!; [split; [done|]; exists (S h); split; [done|by eapply index_tree_mono]|cbn; lia|done|done]. }
    assert (Hr2 : ready l e c') by less Hr'. destruct cs as [|y [|z cs]]; [by apply Hdone| |by apply Hdone].
    apply Forall2_cons_inv_r in Hf as (ys & yss & Hy & Hf & ->). apply Forall2_nil_inv_r in Hf as ->. cbn [concat]. rewrite app_nil_r.
    eapply mwp_mono; [eapply (IH l e c'); [done|by apply index_tree_weaken]|]. intros t c2 (Ht' & Hh & Hr3 & Hk3). split_and!; try done; [lia|by eapply keeps_trans].
Qed.
Lemma mwp_compress_index l e c t xs : ready (tree_height t + l) e c -> root c t xs ->
  wp (compress_index_root index_store t) c (fun t' c' => root c' t' xs /\ (tree_height t' <= tree_height t)%nat /\ ready l e c' /\ keeps c c').
Proof.
  intros Hr Ht. destruct t as [t|]; cbn [compress_index_root].
  - destruct Ht as (E1 & h & E2 & Ht). assert (Eh : tree_height (Some t) = S h) by (cbn; lia). rewrite Eh in *. rewrite E1, E2, Nat2Z.id. eapply mwp_compress_from; [|done]. less Hr.
  - apply mwp_ret. split_and!; [done|done|less Hr|apply keeps_refl].
Qed.
End Index.
