(* ===== verification/MarkerOrder.v ===== *)
(** * The tree of the marker order: insertion and removal by rank

    Against the list of markers a root stands for: an insertion at a rank puts the marker there, a
    removal takes out the marker of a rank, and compression keeps the list. *)
From stdpp Require Import prelude gmap strings.
From S2P Require Import Prelude.
From S2P Require Import Bytes.
From S2P Require Import ModelDigest.
From S2P Require Import SyndicParts.
From S2P Require Import BuildBudget.
From S2P Require Import MappingModel.
From S2P Require Import MappingEdit.
From S2P Require Import PieceModel.
From S2P Require Import PieceCodec.
From S2P Require Import PieceTree.
From S2P Require Import PieceDenote.
From S2P Require Import PieceEdit.
From S2P Require Import MarkerModel.
From S2P Require Import MarkerCodec.
From S2P Require Import MarkerTree.
From S2P Require Import MarkerBalance.
From S2P Require Import MarkerDenote.
From S2P Require Import MarkerEdit.

(** A cut of [pre ++ ys ++ post] inside [ys]. *)
Lemma cut_inside {A} (pre ys post ls rs : list A) : pre ++ ys ++ post = ls ++ rs -> (length pre <= length ls <= length pre + length ys)%nat ->
  exists ls' rs', ys = ls' ++ rs' /\ ls = pre ++ ls' /\ rs = rs' ++ post.
Proof.
  intros E Hl. exists (take (length ls - length pre) ys), (drop (length ls - length pre) ys). rewrite take_drop. split; [done|].
  assert (Els : ls = take (length ls) (pre ++ ys ++ post)) by (by rewrite E, take_app_length).
  assert (Ers : rs = drop (length ls) (pre ++ ys ++ post)) by (by rewrite E, drop_app_length). split.
  - rewrite Els at 1. rewrite take_app_ge, take_app_le by lia. done.
  - rewrite Ers at 1. rewrite drop_app_ge, drop_app_le by lia. done.
Qed.

Section Order.
Context {H : Type} `{Sha256Laws H} {R : Type}.
Context (node_store : DraftPieceRecordKey -> result (DraftPiecePrepareError R) (option DraftPieceNodeRecord))
        (leaf_store : DraftPieceRecordKey -> result (DraftPiecePrepareError R) (option DraftPieceLeafRecord))
        (index_store : DraftMarkerRecordKey -> result (DraftPiecePrepareError R) (option DraftMarkerIdentityRecord))
        (order_store : DraftMarkerRecordKey -> result (DraftPiecePrepareError R) (option DraftMarkerOrderRecord))
        (draft session operation : list byte) (P : Prop)
        (Hstores : marker_stores_ok node_store leaf_store index_store order_store draft session operation).
Abbreviation ready := (marker_ready node_store leaf_store index_store order_store draft session operation P).
Abbreviation keeps := (keeps index_store order_store).
Abbreviation tree := (order_tree order_store draft).
Abbreviation forest c h := (Forall2 (fun ys y => tree c h false y ys)).
Abbreviation wp := (mwp (R := R) P).
#[local] Instance the_order_balanced : BalancedTree P (load_order_children order_store) new_marker_order_node tree ready keeps order_valid :=
  order_balanced node_store leaf_store index_store order_store draft session operation P Hstores.

Ltac less Hr := eapply marker_ready_le; [| |exact Hr]; fold Nat.add; lia.

Lemma select_order_spec c h xss cs : forest c h xss cs -> cs <> [] -> forall rank i last, 0 <= rank <= zlen (concat xss) ->
  exists cpre child cpost pre ys post rest, cs = cpre ++ child :: cpost /\ select_order rank i cs last = ((i + length cpre)%nat, rest)
    /\ forest c h pre cpre /\ tree c h false child ys /\ forest c h post cpost /\ concat xss = concat pre ++ ys ++ concat post
    /\ rank = zlen (concat pre) + rest /\ 0 <= rest <= zlen ys.
Proof.
  induction 1 as [|ys y xss cs Hy Hf IH]; [done|]. intros _ rank i last Hrank. cbn [select_order concat] in *. rewrite length_app in Hrank.
  pose proof (od_count _ _ (order_tree_denotes _ _ _ _ _ _ _ Hy)) as Ec. destruct (Z.leb_spec rank (mo_count y)) as [Hle|Hgt].
  - exists [], y, cs, [], ys, xss, rank. rewrite Nat.add_0_r. split_and!; try done; lia.
  - destruct cs as [|z cs]; [apply Forall2_nil_inv_r in Hf as ->; cbn in Hrank; lia|].
    destruct (IH ltac:(done) (rank - mo_count y) (S i) last ltac:(lia)) as (cpre & child & cpost & pre & zs & post & rest & E & Es & F1 & F2 & F3 & Econ & Er & Hr).
    exists (y :: cpre), child, cpost, (ys :: pre), zs, post, rest. rewrite Es, Econ, E. cbn [concat app length]. rewrite Nat.add_succ_r, length_app, <- app_assoc.
    split_and!; try done; try lia. by constructor.
Qed.
Lemma select_order_rank_spec c h xss cs : forest c h xss cs -> forall rank i, 0 <= rank < zlen (concat xss) ->
  exists cpre child cpost pre ys post rest, cs = cpre ++ child :: cpost /\ select_order_rank rank i cs = Some ((i + length cpre)%nat, rest)
    /\ forest c h pre cpre /\ tree c h false child ys /\ forest c h post cpost /\ concat xss = concat pre ++ ys ++ concat post
    /\ rank = zlen (concat pre) + rest /\ 0 <= rest < zlen ys.
Proof.
  induction 1 as [|ys y xss cs Hy Hf IH]; [cbn; lia|]. intros rank i Hrank. cbn [select_order_rank concat] in *. rewrite length_app in Hrank.
  pose proof (od_count _ _ (order_tree_denotes _ _ _ _ _ _ _ Hy)) as Ec. destruct (Z.ltb_spec rank (mo_count y)) as [Hle|Hgt].
  - exists [], y, cs, [], ys, xss, rank. rewrite Nat.add_0_r. split_and!; try done; lia.
  - destruct (IH (rank - mo_count y) (S i) ltac:(lia)) as (cpre & child & cpost & pre & zs & post & rest & -> & Es & F1 & F2 & F3 & Econ & Er & Hr).
    exists (y :: cpre), child, cpost, (ys :: pre), zs, post, rest. rewrite Es, Econ. cbn [concat app length]. rewrite Nat.add_succ_r, length_app, <- app_assoc.
    split_and!; try done; try lia. by constructor.
Qed.

Lemma select_rank_none c h xss cs : forest c h xss cs -> forall rank i, zlen (concat xss) <= rank -> select_order_rank rank i cs = None.
Proof.
  induction 1 as [|ys y xss cs Hy Hf IH]; [done|]. intros rank i Hrank. cbn [select_order_rank concat] in *. rewrite length_app in Hrank.
  rewrite (od_count _ _ (order_tree_denotes _ _ _ _ _ _ _ Hy)), (proj2 (Z.ltb_ge _ _)) by lia. apply IH. lia.
Qed.

(** ** Insertion *)

Lemma mwp_order_insert_recursive h : forall l e c selected x ls rs m, order_marker_typed m -> ready (S h + l) (1 + 2 * h + e) c -> tree c h selected x (ls ++ rs) ->
  (P -> Z.of_nat h <= DRAFT_PIECE_MAX_HEIGHT) -> (P -> zlen (ls ++ rs) + 1 <= U64_MAX) ->
  wp (marker_order_insert_recursive order_store h x selected (zlen ls) m) c (fun ts c' => parts_of tree c' h selected (ls ++ m :: rs) ts /\ ready l e c' /\ keeps c c').
Proof.
  induction h as [|h IH]; intros l e c selected x ls rs m Hm Hr Ht HH HN; cbn [marker_order_insert_recursive];
    pose proof (od_count _ _ (order_tree_denotes _ _ _ _ _ _ _ Ht)) as Ec; rewrite length_app in Ec, HN; rewrite (proj2 (Z.ltb_ge _ _)) by lia; apply mwp_bind.
  - eapply mwp_mono; [by eapply mwp_order_leaf|]. intros r c' (a & Ea & E & Hr' & Hk'). rewrite E. apply mwp_bind. eapply mwp_lift; [done|].
    apply mwp_bind. eapply mwp_mono; [by eapply (mwp_new_order_leaf _ _ _ _ _ _ _ _ Hstores l e)|]. intros t c2 (T1 & T2 & T3 & Hr2 & Hk2).
    assert (Hx : tree c2 0 false x [a]) by (eapply (order_tree_mono _ _ _ c); [by eapply keeps_trans|rewrite <- Ea; exact Ht]).
    destruct ls as [|b ls]; cbn [app] in Ea.
    + subst rs. cbn. apply mwp_ret. split_and!; [exists [m], [a]; by split_and!|done|by eapply keeps_trans].
    + injection Ea as -> Ea. apply app_nil in Ea as [-> ->]. cbn. apply mwp_ret. split_and!; [exists [a], [m]; by split_and!|done|by eapply keeps_trans].
  - eapply mwp_mono; [by eapply (mwp_order_node _ _ _ _ _ _ _ _ Hstores (S h + l))|]. intros r c' (cs & xss & E & Hf & Ex & Hl & Hr' & Hk'). rewrite E. apply mwp_bind. eapply mwp_lift; [done|].
    destruct (select_order_spec c' h xss cs Hf ltac:(intros ->; cbn in Hl; destruct selected; lia) (zlen ls) 0%nat (length cs - 1)%nat ltac:(rewrite Ex, length_app; lia))
      as (cpre & child & cpost & pre & ys & post & rest & -> & Es & Fpre & Fy & Fpost & Econ & Er & Hrest).
    rewrite Es. cbn [Nat.add]. rewrite list_lookup_middle by done. cbn [ok_or]. apply mwp_bind. eapply mwp_lift; [done|]. rewrite Ex in Econ.
    destruct (cut_inside _ _ _ _ _ (eq_sym Econ) ltac:(lia)) as (ls' & rs' & -> & -> & ->). rewrite !length_app in *. assert (rest = zlen ls') as -> by lia.
    apply mwp_bind. eapply mwp_mono; [eapply (IH l (2 + e)%nat); try done; [less Hr'|intros HP; specialize (HH HP); lia|intros HP; specialize (HN HP); rewrite length_app; lia]|].
    intros ts c2 (Hts & Hr2 & Hk2).
    assert (Eall : (concat pre ++ ls') ++ m :: rs' ++ concat post = concat pre ++ (ls' ++ m :: rs') ++ concat post) by (by rewrite <- !app_assoc). rewrite Eall.
    eapply mwp_mono; [eapply (mwp_insert_node P _ _ tree ready keeps order_valid l e c2 h selected pre post cpre child cpost (ls' ++ m :: rs') ts); try done|].
    + by eapply forest_keeps_order.
    + by eapply forest_keeps_order.
    + rewrite !length_app. done.
    + intros HP. unfold order_valid. rewrite !length_app. cbn [length]. specialize (HN HP). lia.
    + intros roots c3 (Hp & Hr3 & Hk3). split_and!; try done. eapply keeps_trans; [exact Hk'|]. by eapply keeps_trans.
Qed.

Abbreviation root := (root_tree tree).

Lemma mwp_order_insert_at l e c t ls rs m : order_marker_typed m -> ready (S (tree_height t) + l) (2 + 2 * tree_height t + e) c -> root c t (ls ++ rs) ->
  (P -> Z.of_nat (tree_height t) < DRAFT_PIECE_MAX_HEIGHT) -> (P -> zlen (ls ++ rs) + 1 <= U64_MAX) ->
  wp (marker_order_insert order_store t (zlen ls) m) c (fun t' c' => root c' t' (ls ++ m :: rs) /\ (tree_height t' <= S (tree_height t))%nat /\ ready l e c' /\ keeps c c').
Proof.
  intros Hm Hr Ht HH HN. destruct t as [t|]; cbn [marker_order_insert].
  - destruct Ht as (E1 & h & E2 & Ht). assert (Eh : tree_height (Some t) = S h) by (cbn; lia). rewrite Eh in *. rewrite E1, E2, Nat2Z.id.
    apply mwp_bind. eapply mwp_mono; [eapply (mwp_order_insert_recursive (S h) l (1 + e)); try done; [less Hr|intros HP; specialize (HH HP); lia]|].
    intros ts c2 (Hts & Hr2 & Hk2). eapply mwp_mono; [eapply (mwp_join P _ _ tree ready keeps order_valid l e c2 h _ ts); try done|].
    + intros HP. specialize (HH HP). lia.
    + intros HP. unfold order_valid. specialize (HN HP). rewrite !length_app in *. cbn [length]. lia.
    + intros t' c3 (Ht' & Hh & Hr3 & Hk3). split_and!; try done. by eapply keeps_trans.
  - cbn in Ht, Hr. apply app_nil in Ht as [-> ->]. cbn [length Z.of_nat Z.eqb negb app]. apply mwp_bind.
    eapply mwp_mono; [eapply (mwp_new_order_leaf _ _ _ _ _ _ _ _ Hstores l (S e)); [less Hr|done]|]. intros x c1 (_ & _ & Hx & Hr1 & Hk1). apply mwp_bind.
    eapply mwp_mono; [eapply (mwp_new_order_node _ _ _ _ _ _ _ _ Hstores l e c1 0 [[m]] [tr_link x]); try done; [by repeat constructor|cbn; unfold DRAFT_PIECE_MAX_CHILDREN; lia]|].
    intros t c2 (T1 & T2 & T3 & Hr2 & Hk2). apply mwp_ret. split_and!; [split; [done|]; by exists 0%nat|cbn; lia|done|by eapply keeps_trans].
Qed.

(** A rank past the end is refused. *)
Lemma mwp_marker_order_insert l e c t xs rank m : order_marker_typed m -> ready (S (tree_height t) + l) (2 + 2 * tree_height t + e) c -> root c t xs -> 0 <= rank ->
  (P -> rank <= zlen xs) -> (P -> Z.of_nat (tree_height t) < DRAFT_PIECE_MAX_HEIGHT) -> (P -> zlen xs + 1 <= U64_MAX) ->
  wp (marker_order_insert order_store t rank m) c (fun t' c' => exists ls rs, xs = ls ++ rs /\ zlen ls = rank /\ root c' t' (ls ++ m :: rs)
    /\ (tree_height t' <= S (tree_height t))%nat /\ ready l e c' /\ keeps c c').
Proof.
  intros Hm Hr Ht H0' HP HH HN. destruct (Z.le_gt_cases rank (zlen xs)) as [Hle|Hgt].
  - set (ls := take (Z.to_nat rank) xs). set (rs := drop (Z.to_nat rank) xs). assert (E : xs = ls ++ rs) by (unfold ls, rs; by rewrite take_drop). assert (El : zlen ls = rank) by (unfold ls; rewrite length_take; lia).
    rewrite E in Ht, HN. rewrite <- El. eapply mwp_mono; [by eapply mwp_order_insert_at|]. intros t' c' (Ht' & Hh & Hr' & Hk'). by exists ls, rs.
  - destruct t as [t|]; cbn [marker_order_insert].
    + destruct Ht as (E1 & h & E2 & Ht). apply mwp_bind. rewrite E2, Nat2Z.id. cbn [marker_order_insert_recursive].
      rewrite (od_count _ _ (order_tree_denotes _ _ _ _ _ _ _ Ht)), (proj2 (Z.ltb_lt _ _)) by lia. apply mwp_fail. intros HP'. specialize (HP HP'). lia.
    + cbn in Ht. subst xs. rewrite (proj2 (Z.eqb_neq rank 0)) by (cbn in Hgt; lia). apply mwp_fail. intros HP'. specialize (HP HP'). lia.
Qed.

(** ** Removal *)

Lemma mwp_edit_order h : forall l e c selected x xs rank m, ready (S h + h + l) (3 * h + e) c -> tree c h selected x xs -> 0 <= rank -> (P -> xs !! Z.to_nat rank = Some m) ->
  (P -> Z.of_nat h <= DRAFT_PIECE_MAX_HEIGHT) ->
  wp (edit_order order_store h x selected rank m) c (fun res c' => exists ls rs, xs = ls ++ m :: rs /\ zlen ls = rank /\ edited_of tree c' h selected (ls ++ rs) res /\ ready l e c' /\ keeps c c').
Proof.
  induction h as [|h IH]; intros l e c selected x xs rank m Hr Ht H0' HP HH; cbn [edit_order]; apply mwp_bind.
  - eapply mwp_mono; [by eapply mwp_order_leaf|]. intros r c' (a & -> & E & Hr' & Hk'). rewrite E. destruct (Z.eqb_spec rank 0) as [->|Hne]; cbn [andb].
    + case_bool_decide as Em; [injection Em as ->; apply mwp_ret; by exists [], []|]. apply mwp_fail. intros HP'. by specialize (HP HP').
    + apply mwp_fail. intros HP'. specialize (HP HP'). apply lookup_lt_Some in HP. cbn in HP. lia.
  - eapply mwp_mono; [eapply (mwp_order_node _ _ _ _ _ _ _ _ Hstores (S h + S h + l) (3 * S h + e)); [less Hr|done]|]. intros r c' (cs & xss & E & Hf & Ex & Hl & Hr' & Hk'). rewrite E. apply mwp_bind. eapply mwp_lift; [done|].
    pose proof (od_valid _ _ (order_tree_denotes _ _ _ _ _ _ _ Ht)) as Hv. unfold order_valid in Hv.
    destruct (Z.lt_ge_cases rank (zlen xs)) as [Hlt|Hge].
    2: { rewrite (select_rank_none c' h xss cs Hf) by (rewrite Ex; lia). apply mwp_bind, mwp_fail. intros HP'. specialize (HP HP'). apply lookup_lt_Some in HP. lia. }
    destruct (select_order_rank_spec c' h xss cs Hf rank 0%nat ltac:(rewrite Ex; lia)) as (cpre & child & cpost & pre & ys & post & rest & -> & Es & Fpre & Fy & Fpost & Econ & Er & Hrest).
    rewrite Es. apply mwp_bind. eapply mwp_lift; [done|]. cbn [Nat.add]. rewrite list_lookup_middle by done. apply mwp_bind. eapply mwp_lift; [done|]. rewrite Ex in Econ. subst xs.
    apply mwp_bind. eapply mwp_mono; [eapply (IH (S l) (3 + e)%nat); try done; [less Hr'|lia| |intros HP'; specialize (HH HP'); lia]|].
    { intros HP'. rewrite <- (HP HP'), Econ, Er, lookup_app_r, lookup_app_l by lia. f_equal. lia. }
    intros res c2 (ls & rs & -> & Els & He & Hr2 & Hk2).
    eapply mwp_mono; [eapply (mwp_edit_node P _ _ tree ready keeps order_valid l e c2 h selected pre post cpre child cpost); try done|].
    + by eapply forest_keeps_order.
    + by eapply forest_keeps_order.
    + intros _. unfold order_valid. rewrite Econ, !length_app in *. cbn [length] in *. lia.
    + intros res' c3 (Hres & Hr3 & Hk3). exists (concat pre ++ ls), (rs ++ concat post). rewrite Econ, <- !app_assoc, length_app in *. cbn [app]. split_and!; try done; [lia|].
      eapply keeps_trans; [exact Hk'|]. by eapply keeps_trans.
Qed.

(** ** Roots *)

Lemma mwp_compress_order_from h : forall l e c x xs, ready (h + l) e c -> tree c (S h) true x xs ->
  wp (compress_order_from order_store (S h) x true) c (fun t c' => root c' t xs /\ (tree_height t <= S h)%nat /\ ready l e c' /\ keeps c c').
Proof.
  induction h as [|h IH]; intros l e c x xs Hr Ht; cbn [compress_order_from].
  - apply mwp_ret. split_and!; [split; [done|]; by exists 0%nat|cbn; lia|done|apply keeps_refl].
  - cbn [Nat.leb]. apply mwp_bind. eapply mwp_mono; [by eapply (mwp_order_node _ _ _ _ _ _ _ _ Hstores (h + l))|].
    intros r c' (cs & xss & E & Hf & <- & Hl & Hr' & Hk'). rewrite E. apply mwp_bind. eapply mwp_lift; [done|].
    assert (Hdone : ready l e c' -> wp (mret (Some (mkTreeRef x (Z.of_nat (S (S h))) true))) c' (fun t c' => root c' t (concat xss) /\ (tree_height t <= S (S h))%nat /\ ready l e c' /\ keeps c c')).
    { intros Hr2. apply mwp_ret. split_and!; [split; [done|]; exists (S h); split; [done|by eapply order_tree_mono]|cbn; lia|done|done]. }
    assert (Hr2 : ready l e c') by less Hr'. destruct cs as [|y [|z cs]]; [by apply Hdone| |by apply Hdone].
    apply Forall2_cons_inv_r in Hf as (ys & yss & Hy & Hf & ->). apply Forall2_nil_inv_r in Hf as ->. cbn [concat]. rewrite app_nil_r.
    eapply mwp_mono; [eapply (IH l e c'); [done|by apply order_tree_weaken]|]. intros t c2 (Ht' & Hh & Hr3 & Hk3). split_and!; try done; [lia|by eapply keeps_trans].
Qed.
Lemma mwp_compress_order l e c t xs : ready (tree_height t + l) e c -> root c t xs ->
  wp (compress_marker_order_root order_store t) c (fun t' c' => root c' t' xs /\ (tree_height t' <= tree_height t)%nat /\ ready l e c' /\ keeps c c').
Proof.
  intros Hr Ht. destruct t as [t|]; cbn [compress_marker_order_root].
  - destruct Ht as (E1 & h & E2 & Ht). assert (Eh : tree_height (Some t) = S h) by (cbn; lia). rewrite Eh in *. rewrite E1, E2, Nat2Z.id. eapply mwp_compress_order_from; [|done]. less Hr.
  - apply mwp_ret. split_and!; [done|done|less Hr|apply keeps_refl].
Qed.

Lemma mwp_marker_order_delete l e c t xs rank m : ready (S (3 * tree_height t) + l) (1 + 3 * tree_height t + e) c -> root c t xs -> 0 <= rank ->
  (P -> xs !! Z.to_nat rank = Some m) -> (P -> Z.of_nat (tree_height t) <= DRAFT_PIECE_MAX_HEIGHT) ->
  wp (marker_order_delete order_store t rank m) c (fun t' c' => exists ls rs, xs = ls ++ m :: rs /\ zlen ls = rank /\ root c' t' (ls ++ rs)
    /\ (tree_height t' <= tree_height t)%nat /\ ready l e c' /\ keeps c c').
Proof.
  intros Hr Ht H0' HP HH. destruct t as [t|]; [|cbn in Ht; subst xs; intros HP'; by specialize (HP HP')]. destruct Ht as (E1 & h & E2 & Ht).
  assert (Eh : tree_height (Some t) = S h) by (cbn; lia). rewrite Eh in *. unfold marker_order_delete, remove_order. apply mwp_bind. eapply mwp_lift; [done|]. rewrite E1, E2, Nat2Z.id.
  apply mwp_bind, mwp_bind. eapply mwp_mono; [eapply (mwp_edit_order (S h) (S h + l) (1 + e)); try done; less Hr|]. intros res c1 (ls & rs & -> & Els & He & Hr1 & Hk1).
  eapply mwp_mono; [eapply (mwp_finish P _ _ tree ready keeps order_valid (S h + l) e c1 h); try done|].
  - intros _. pose proof (od_valid _ _ (order_tree_denotes _ _ _ _ _ _ _ Ht)) as Hv. unfold order_valid in *. rewrite length_app in *. cbn [length] in Hv. lia.
  - intros t' c2 (Ht' & Hh & Hr2 & Hk2). eapply mwp_mono; [eapply (mwp_compress_order l e c2); [less Hr2|done]|]. intros t'' c3 (Ht3 & Hh3 & Hr3 & Hk3). exists ls, rs. split_and!; try done; [lia|].
    eapply keeps_trans; [exact Hk1|]. by eapply keeps_trans.
Qed.
End Order.
