(* ===== verification/MarkerCommit.v ===== *)
(** * The marker order of a draft: what its commitment commits to

    The digest of an order tree, which a root's commitment carries, determines the markers in
    their order, unless two of the strings that were hashed for the two trees have the same hash. *)
From stdpp Require Import prelude gmap strings.
From S2P Require Import Prelude.
From S2P Require Import Bytes.
From S2P Require Import ModelDigest.
From S2P Require Import SyndicParts.
From S2P Require Import BuildBudget.
From S2P Require Import MappingModel.
From S2P Require Import MappingEdit.
From S2P Require Import PieceModel.
From S2P Require Import PieceCodec.
From S2P Require Import MarkerModel.
From S2P Require Import MarkerCodec.
From S2P Require Import MarkerTree.
From S2P Require Import MarkerDenote.
From S2P Require Import MarkerEdit.

(** ** Hashed parts, each after its length *)

Definition lp_bytes (parts : list (list byte)) : list byte := concat ((fun p => e_u64 (zlen p) ++ p) <$> parts).

Lemma lp_bytes_inj ps qs : Forall (fun p => is_u64 (zlen p)) ps -> Forall (fun p => is_u64 (zlen p)) qs -> lp_bytes ps = lp_bytes qs -> ps = qs.
Proof.
  intros Hp. revert qs. induction Hp as [|p ps Hp Hps IH]; intros ? [|q qs Hq Hqs]; unfold lp_bytes; cbn [fmap list_fmap concat]; rewrite <- ?app_assoc; try done.
  intros E. apply app_inj_1 in E as [E1 E]; [|unfold e_u64; by rewrite !length_be_bytes]. unfold e_u64 in E1.
  assert (El : zlen p = zlen q) by (rewrite <- (be_u64 (zlen p) Hp), <- (be_u64 (zlen q) Hq); by rewrite E1).
  apply app_inj_1 in E as [-> E]; [|lia]. f_equal. by apply IH.
Qed.

Section Commit.
Context {H : Type} `{Sha256Laws H}.

Lemma lp_hash_sha parts : lp_hash parts = sha256 (lp_bytes parts).
Proof.
  unfold lp_hash. rewrite finalize_absorbed. f_equal. assert (Ha : forall h, absorbed (fold_left update_part parts h) = absorbed h ++ lp_bytes parts).
  { induction parts as [|p ps IH]; intros h; cbn [fold_left]; [unfold lp_bytes; cbn; by rewrite app_nil_r|]. rewrite IH. unfold update_part.
    rewrite !absorbed_update. unfold lp_bytes. cbn. by rewrite <- !app_assoc. }
  rewrite Ha. by rewrite absorbed_new.
Qed.

(** ** The strings of an order tree *)

Definition leaf_string (m : order_marker) : list byte :=
  let '(marker_id, label, asset_id) := m in
  lp_bytes [bytes_of_string "syndic/draft-marker-order-commitment-leaf/v2"; marker_id; e_u64 label; [version_byte (version asset_id)]; asset_digest asset_id; e_u64 (asset_length asset_id)].
Definition node_string (height : Z) (children : list DraftMarkerOrderChild) : list byte :=
  lp_bytes [bytes_of_string "syndic/draft-marker-order-commitment-node/v1"; [byte_of height] ++ e_u64 (zlen children) ++ concat (order_child_bytes <$> children)].

Lemma leaf_string_hash m : marker_order_leaf_digest m = sha256 (leaf_string m).
Proof. destruct m as [[i l] a]. apply lp_hash_sha. Qed.
Lemma node_string_hash h cs : marker_order_node_digest h cs = sha256 (node_string h cs).
Proof. apply lp_hash_sha. Qed.

Lemma fixed_u64 n p : fixed n p -> Z.of_nat n <= U64_MAX -> is_u64 (zlen p).
Proof. unfold fixed, is_u64. intros -> ?. lia. Qed.
Lemma e_u64_fixed v : fixed 8 (e_u64 v).
Proof. apply length_be_bytes. Qed.
Lemma e_u64_inj v w : is_u64 v -> is_u64 w -> e_u64 v = e_u64 w -> v = w.
Proof. unfold e_u64. intros Hv Hw E. rewrite <- (be_u64 v Hv), <- (be_u64 w Hw). by rewrite E. Qed.
Lemma rev_u64 v : is_rev v -> is_u64 v.
Proof. unfold is_rev, is_u64. lia. Qed.

Lemma leaf_parts_sized (m : order_marker) : order_marker_typed m -> let '(i, l, a) := m in
  Forall (fun p => is_u64 (zlen p)) [bytes_of_string "syndic/draft-marker-order-commitment-leaf/v2"; i; e_u64 l; [version_byte (version a)]; asset_digest a; e_u64 (asset_length a)].
Proof.
  destruct m as [[i l] a]. intros (Hi & _ & Ha & _). assert (Hw : forall w, is_u64 (zlen (e_u64 w))) by (intros w; eapply fixed_u64; [apply e_u64_fixed|lia]).
  repeat apply Forall_cons_2; try done; [eapply fixed_u64; [exact Hi|lia]|eapply fixed_u64; [exact Ha|lia]].
Qed.
Lemma leaf_string_inj m m' : order_marker_typed m -> order_marker_typed m' -> leaf_string m = leaf_string m' -> m = m'.
Proof.
  intros Hm Hm' E. pose proof (leaf_parts_sized m Hm) as Hs. pose proof (leaf_parts_sized m' Hm') as Hs'.
  destruct m as [[i l] [v d n]], m' as [[i' l'] [v' d' n']]. apply lp_bytes_inj in E; [|done|done].
  pose proof (fun i => f_equal (fun ps => nth i ps []) E) as Ep. pose proof (Ep 1%nat) as E0. pose proof (Ep 2%nat) as E1. pose proof (Ep 4%nat) as E3. pose proof (Ep 5%nat) as E2. cbn [nth] in *. cbn in E0, E3. subst i' d'.
  destruct Hm as (_ & Hl & _ & Hn), Hm' as (_ & Hl' & _ & Hn'). destruct v, v'. f_equal; [|f_equal]; [f_equal|]; apply e_u64_inj; try done; by apply rev_u64.
Qed.

Lemma child_bytes_fixed x : order_child_typed x -> fixed 64 (order_child_bytes x).
Proof.
  intros (Hi & Hd & _). unfold fixed, order_child_bytes in *. rewrite !length_app, Hi, Hd. unfold e_u64. by rewrite !length_be_bytes.
Qed.
Lemma child_bytes_inj x y : order_child_typed x -> order_child_typed y -> order_child_bytes x = order_child_bytes y -> x = y.
Proof.
  intros (Hi & Hd & Hc & Hm) (Hi' & Hd' & Hc' & Hm') E. unfold order_child_bytes, fixed in *. destruct x as [i d c m], y as [i' d' c' m']. cbn in *.
  apply app_inj_1 in E as [-> E]; [|congruence]. apply app_inj_1 in E as [-> E]; [|congruence]. apply app_inj_1 in E as [E1 E2]; [|unfold e_u64; by rewrite !length_be_bytes].
  apply e_u64_inj in E1; [|by apply rev_u64..]. apply e_u64_inj in E2; [|by apply rev_u64..]. congruence.
Qed.
Lemma children_bytes_inj cs ds : Forall order_child_typed cs -> Forall order_child_typed ds -> length cs = length ds ->
  concat (order_child_bytes <$> cs) = concat (order_child_bytes <$> ds) -> cs = ds.
Proof.
  intros Hc. revert ds. induction Hc as [|x cs Hx Hc IH]; intros ? [|y ds Hy Hd] El E; try done. cbn in E.
  apply app_inj_1 in E as [E1 E]; [|by rewrite (child_bytes_fixed x Hx), (child_bytes_fixed y Hy)]. apply child_bytes_inj in E1 as ->; [|done..]. f_equal. apply IH; [done|cbn in El; lia|done].
Qed.
Lemma children_bytes_length cs : Forall order_child_typed cs -> length (concat (order_child_bytes <$> cs)) = (64 * length cs)%nat.
Proof. induction 1 as [|x cs Hx Hc IH]; cbn; [done|]. rewrite length_app, IH, (child_bytes_fixed x Hx). lia. Qed.

(** A node's strings, for children and heights a record can have. *)
Definition node_sized (h : Z) (cs : list DraftMarkerOrderChild) : Prop :=
  1 <= h <= DRAFT_PIECE_MAX_HEIGHT /\ (length cs <= DRAFT_PIECE_MAX_CHILDREN)%nat /\ Forall order_child_typed cs.
Lemma node_parts_sized h cs : node_sized h cs ->
  Forall (fun p => is_u64 (zlen p)) [bytes_of_string "syndic/draft-marker-order-commitment-node/v1"; [byte_of h] ++ e_u64 (zlen cs) ++ concat (order_child_bytes <$> cs)].
Proof.
  intros (_ & Hl & Hc). apply Forall_cons_2; [done|]. apply Forall_cons_2; [|done]. rewrite !length_app, children_bytes_length by done. rewrite (e_u64_fixed (zlen cs)).
  unfold is_u64, DRAFT_PIECE_MAX_CHILDREN in *. cbn [length]. lia.
Qed.
Lemma node_string_inj h cs h' cs' : node_sized h cs -> node_sized h' cs' -> node_string h cs = node_string h' cs' -> h = h' /\ cs = cs'.
Proof.
  intros Hs Hs' E. apply lp_bytes_inj in E; [|by apply node_parts_sized..]. destruct Hs as (Hh & Hl & Hc), Hs' as (Hh' & Hl' & Hc'). pose proof (f_equal (fun ps => nth 1 ps []) E) as E1. cbn [nth] in E1. apply (app_inj_1 [_] [_]) in E1 as [Eh E1]; [|done]. injection Eh as Eh. clear E. rename E1 into E.
  apply app_inj_1 in E as [En E]; [|by rewrite (e_u64_fixed (zlen cs)), (e_u64_fixed (zlen cs'))]. unfold DRAFT_PIECE_MAX_CHILDREN, DRAFT_PIECE_MAX_HEIGHT in *.
  apply e_u64_inj in En; [|unfold is_u64; lia..]. split; [|apply children_bytes_inj; try done; lia].
  apply byte_of_inj in Eh; lia.
Qed.
Lemma strings_apart m h cs : order_marker_typed m -> node_sized h cs -> leaf_string m <> node_string h cs.
Proof.
  intros Hm Hs E. pose proof (leaf_parts_sized m Hm) as Hp. pose proof (node_parts_sized h cs Hs) as Hp'. destruct m as [[i l] a].
  apply lp_bytes_inj in E; [|done|done]. apply (f_equal length) in E. done.
Qed.

(** ** Trees *)

Context {R : Type}.
Abbreviation order_store_type := (DraftMarkerRecordKey -> result (DraftPiecePrepareError R) (option DraftMarkerOrderRecord)).

Definition order_find (store : order_store_type) (c : MarkerContext) (k : DraftMarkerRecordKey) : option DraftMarkerOrderRecord :=
  match mc_order c !! k with Some r => Some r | None => match store k with Ok o => o | Err _ => None end end.
Lemma order_find_at store c k r : order_at store c k r -> order_find store c k = Some r.
Proof. unfold order_find. by intros [->|[-> ->]]. Qed.

(** What is hashed for the tree below a link. *)
Fixpoint order_strings (store : order_store_type) (draft : list byte) (c : MarkerContext) (h : nat) (x : DraftMarkerOrderChild) : list (list byte) :=
  match order_find store c (mkMarkerKey draft (kind_of (Z.of_nat h)) (mo_id x)), h with
  | Some (OrderLeaf _ i l a _), _ => [leaf_string (i, l, a)]
  | Some (OrderInternal _ height cs _), S h' => node_string height cs :: concat (order_strings store draft c h' <$> cs)
  | _, _ => []
  end.

Section Two.
Context (store store' : order_store_type) (draft draft' : list byte) (c c' : MarkerContext).
Abbreviation tree := (order_tree store draft c).
Abbreviation tree' := (order_tree store' draft' c').
Abbreviation strings := (order_strings store draft c).
Abbreviation strings' := (order_strings store' draft' c').

Lemma leaf_strings s d k x m : order_leaf_at s d k x m -> order_strings s d k 0 x = [leaf_string m] /\ mo_digest x = sha256 (leaf_string m) /\ order_marker_typed m.
Proof.
  destruct m as [[i l] a]. intros (key & _ & Ha & (_ & _ & _ & Hm & Ed) & _). cbn [order_strings]. change (kind_of (Z.of_nat 0)) with KindLeaf.
  rewrite (order_find_at _ _ _ _ Ha). cbn [order_digest] in Ed. split; [done|]. split; [by rewrite Ed, leaf_string_hash|done].
Qed.
Lemma node_strings s d k h root x cs : order_node_at s d k (S h) root x cs ->
  order_strings s d k (S h) x = node_string (Z.of_nat (S h)) cs :: concat (order_strings s d k h <$> cs) /\ mo_digest x = sha256 (node_string (Z.of_nat (S h)) cs) /\ node_sized (Z.of_nat (S h)) cs.
Proof.
  intros (key & _ & Ha & (_ & _ & _ & Hh & Hl & Hc & Ed) & _). cbn [order_strings]. unfold kind_of. rewrite (proj2 (Z.eqb_neq _ 0)) by lia.
  rewrite (order_find_at _ _ _ _ Ha). split; [done|]. split; [by rewrite Ed, node_string_hash|]. split; [done|]. split; [lia|done].
Qed.

Lemma forest_binds h cs : (forall x xs ys, x ∈ cs -> tree h false x xs -> tree' h false x ys -> xs = ys \/ clash (H := H) (strings h x) (strings' h x)) ->
  forall xss yss, Forall2 (fun xs x => tree h false x xs) xss cs -> Forall2 (fun ys y => tree' h false y ys) yss cs ->
  concat xss = concat yss \/ clash (H := H) (concat (strings h <$> cs)) (concat (strings' h <$> cs)).
Proof.
  induction cs as [|x cs IH]; intros Hx xss yss Hf Hf'.
  - apply Forall2_nil_inv_r in Hf as ->. apply Forall2_nil_inv_r in Hf' as ->. by left.
  - apply Forall2_cons_inv_r in Hf as (xs & xss' & Ht & Hf & ->). apply Forall2_cons_inv_r in Hf' as (ys & yss' & Ht' & Hf' & ->). cbn.
    destruct (Hx x xs ys ltac:(by apply list_elem_of_here) Ht Ht') as [->|Hc]; [|right; eapply clash_mono; [| |exact Hc]; set_solver].
    destruct (IH ltac:(intros; apply Hx; [by apply list_elem_of_further|done|done]) xss' yss' Hf Hf') as [->|Hc]; [by left|right; eapply clash_mono; [| |exact Hc]; set_solver].
Qed.

Lemma order_binds h : forall h' root root' x y xs ys, tree h root x xs -> tree' h' root' y ys -> mo_digest x = mo_digest y ->
  xs = ys \/ clash (H := H) (strings h x) (strings' h' y).
Proof.
  induction h as [|h IH]; intros [|h'] root root' x y xs ys; cbn [order_tree]; intros Hx Hy Ed.
  - destruct Hx as (m & Hm & ->), Hy as (m' & Hm' & ->). destruct (leaf_strings _ _ _ _ _ Hm) as (-> & E1 & T1), (leaf_strings _ _ _ _ _ Hm') as (-> & E2 & T2).
    rewrite E1, E2 in Ed. destruct (same_preimage _ _ [leaf_string m] [leaf_string m'] ltac:(by apply list_elem_of_singleton) ltac:(by apply list_elem_of_singleton) Ed) as [E|?]; [left|by right].
    by rewrite (leaf_string_inj m m').
  - destruct Hx as (m & Hm & ->), Hy as (cs & yss & Hn & _). destruct (leaf_strings _ _ _ _ _ Hm) as (-> & E1 & T1), (node_strings _ _ _ _ _ _ _ Hn) as (-> & E2 & T2).
    rewrite E1, E2 in Ed. right. eexists _, _. split; [by apply list_elem_of_here|]. split; [by apply list_elem_of_here|]. split; [by apply strings_apart|done].
  - destruct Hy as (m & Hm & ->), Hx as (cs & yss & Hn & _). destruct (leaf_strings _ _ _ _ _ Hm) as (-> & E1 & T1), (node_strings _ _ _ _ _ _ _ Hn) as (-> & E2 & T2).
    rewrite E1, E2 in Ed. right. eexists _, _. split; [by apply list_elem_of_here|]. split; [by apply list_elem_of_here|]. split; [by apply not_eq_sym, strings_apart|done].
  - destruct Hx as (cs & xss & Hn & Hf & -> & _), Hy as (cs' & yss & Hn' & Hf' & -> & _).
    destruct (node_strings _ _ _ _ _ _ _ Hn) as (-> & E1 & T1), (node_strings _ _ _ _ _ _ _ Hn') as (-> & E2 & T2). rewrite E1, E2 in Ed.
    destruct (same_preimage _ _ _ _ (list_elem_of_here _ (concat (strings h <$> cs))) (list_elem_of_here _ (concat (strings' h' <$> cs'))) Ed) as [E|?]; [|by right].
    apply node_string_inj in E as [Eh ->]; [|done|done]. assert (h' = h) as -> by lia.
    destruct (forest_binds h cs' ltac:(intros; by eapply IH) xss yss Hf Hf') as [->|Hc]; [by left|right; eapply clash_mono; [| |exact Hc]; set_solver].
Qed.
End Two.
End Commit.
