(* ===== verification/MarkerTheorems.v ===== *)
(** * The marker trees of a draft: results

    The index of marker identities is a finite map, the tree of the marker order a list, both up
    to the resources of a build; the records of drafts decode exactly; and the commitment to a
    marker order determines it. *)
From stdpp Require Import prelude gmap strings.
From Stdlib Require Import Sorting.Sorted.
From S2P Require Import Prelude.
From S2P Require Import Bytes.
From S2P Require Import ModelDigest.
From S2P Require Import SyndicParts.
From S2P Require Import BuildBudget.
From S2P Require Import MappingModel.
From S2P Require Import MappingEdit.
From S2P Require Import MappingProgram.
From S2P Require Import PieceModel.
From S2P Require Import PieceCodec.
From S2P Require Import PieceTree.
From S2P Require Import PieceEdit.
From S2P Require Import TextRuns.
From S2P Require Import PieceTheorems.
From S2P Require Import MarkerModel.
From S2P Require Import MarkerCodec.
From S2P Require Import MarkerTree.
From S2P Require Import MarkerBalance.
From S2P Require Import MarkerDenote.
From S2P Require Import MarkerEdit.
From S2P Require Import MarkerIndex.
From S2P Require Import MarkerOrder.
From S2P Require Import MarkerCommit.

(** ** Records *)

(** A byte string decodes to a leaf, a node, a record of the marker index or a record of the
    marker order exactly when the record is one the constructors let through, with the right
    summaries, links and digests, and the string is its encoding. *)
Theorem draft_records_exact {H} `{Sha256 H} bs :
  (forall leaf, decode_leaf bs = Ok leaf <-> leaf_record_valid leaf /\ encode_leaf leaf = Ok bs)
  /\ (forall node, decode_piece_node bs = Ok node <-> node_record_valid node /\ encode_piece_node node = Ok bs)
  /\ (forall r, decode_marker_identity_record bs = Ok r <-> identity_record_typed r /\ encode_marker_identity_record r = Ok bs)
  /\ (forall r, decode_marker_order_record bs = Ok r <-> order_record_valid r /\ encode_marker_order_record r = Ok bs).
Proof.
  split_and!; intros; [apply decode_leaf_Ok|apply decode_piece_node_Ok|apply decode_marker_identity_record_Ok|apply decode_marker_order_record_Ok].
Qed.

(** ** The index as a map *)

Definition index_map (xs : list occurrence) : gmap (list byte) occurrence := list_to_map ((fun o => (oc_marker_id o, o)) <$> xs).

Lemma index_map_cons o xs : index_map (o :: xs) = <[oc_marker_id o := o]> (index_map xs).
Proof. done. Qed.
Lemma index_map_app xs ys : index_map (xs ++ ys) = index_map xs ∪ index_map ys.
Proof. unfold index_map. by rewrite fmap_app, list_to_map_app. Qed.
Lemma index_map_None xs id : index_map xs !! id = None <-> Forall (fun o => oc_marker_id o <> id) xs.
Proof.
  induction xs as [|o xs IH]; [unfold index_map; cbn; rewrite lookup_empty; by split|]. rewrite index_map_cons, lookup_insert_None, IH, Forall_cons. naive_solver.
Qed.

Lemma index_map_found xs id r : StronglySorted before xs -> found id xs r -> index_map xs !! id = r.
Proof.
  destruct r as [o|]; cbn; [|by intros _ ?%index_map_None]. intros Hs [Ho <-]. induction Hs as [|a xs Hs IH Hf]; [by apply not_elem_of_nil in Ho|].
  rewrite index_map_cons. apply elem_of_cons in Ho as [->|Ho]; [by rewrite lookup_insert_eq|]. rewrite lookup_insert_ne; [by apply IH|].
  apply before_ids. by eapply Forall_forall in Hf.
Qed.
Lemma index_map_inserted o xs ys : inserted o xs ys -> index_map ys = <[oc_marker_id o := o]> (index_map xs).
Proof.
  intros (l & r & -> & -> & Hs). rewrite !index_map_app, index_map_cons. rewrite insert_union_r; [done|]. apply index_map_None, Forall_forall. intros a Ha E.
  apply sorted_app_iff in Hs as (_ & _ & Hs). specialize (Hs a o Ha ltac:(by apply list_elem_of_here)). by apply before_ids in Hs.
Qed.
Lemma index_map_removed o l r : StronglySorted before (l ++ o :: r) -> index_map (l ++ r) = delete (oc_marker_id o) (index_map (l ++ o :: r)).
Proof.
  intros Hs. rewrite !index_map_app, index_map_cons. apply sorted_app_iff in Hs as (_ & S2 & S3). apply StronglySorted_inv in S2 as [_ Hr].
  assert (N1 : index_map l !! oc_marker_id o = None).
  { apply index_map_None, Forall_forall. intros a Ha E. specialize (S3 a o Ha ltac:(by apply list_elem_of_here)). by apply before_ids in S3. }
  assert (N2 : index_map r !! oc_marker_id o = None).
  { apply index_map_None. eapply Forall_impl; [exact Hr|]. intros a Ha. by apply not_eq_sym, before_ids. }
  rewrite delete_union, delete_insert_eq, !delete_id by done. done.
Qed.
Lemma index_map_size xs : StronglySorted before xs -> Z.of_nat (size (index_map xs)) = zlen xs.
Proof.
  induction 1 as [|o xs Hs IH Hf]; [done|]. rewrite index_map_cons, map_size_insert_None; [cbn [length]; lia|].
  apply index_map_None. eapply Forall_impl; [exact Hf|]. intros a Ha. by apply not_eq_sym, before_ids.
Qed.

Section Refine.
Context {H : Type} `{Sha256Laws H} {R : Type}.
Context (node_store : DraftPieceRecordKey -> result (DraftPiecePrepareError R) (option DraftPieceNodeRecord))
        (leaf_store : DraftPieceRecordKey -> result (DraftPiecePrepareError R) (option DraftPieceLeafRecord))
        (index_store : DraftMarkerRecordKey -> result (DraftPiecePrepareError R) (option DraftMarkerIdentityRecord))
        (order_store : DraftMarkerRecordKey -> result (DraftPiecePrepareError R) (option DraftMarkerOrderRecord))
        (draft session operation : list byte).
Abbreviation context_ok := (marker_context_ok node_store leaf_store index_store order_store draft session operation).

(** In context [c] the root [t] stands for the map [m], or for the list [xs]. *)
Definition index_holds (c : MarkerContext) (t : option IndexRef) (m : gmap (list byte) occurrence) : Prop :=
  exists xs, root_tree (index_tree (R := R) index_store draft) c t xs /\ m = index_map xs.
Definition order_holds (c : MarkerContext) (t : option MarkerOrderRef) (xs : list order_marker) : Prop :=
  root_tree (order_tree order_store draft) c t xs.

Lemma root_sorted c t xs : root_tree (index_tree (R := R) index_store draft) c t xs -> StronglySorted before xs.
Proof.
  destruct t as [t|]; cbn [root_tree]; [|intros ->; constructor]. intros (_ & h & _ & Ht). by destruct (id_valid _ _ (index_tree_denotes _ _ _ _ _ _ _ Ht)).
Qed.
Lemma root_keeps_index c c' t xs : keeps index_store order_store c c' -> root_tree (index_tree (R := R) index_store draft) c t xs -> root_tree (index_tree (R := R) index_store draft) c' t xs.
Proof. destruct t as [t|]; cbn [root_tree]; [|done]. intros Hk (E & h & Eh & Ht). split; [done|]. exists h. split; [done|]. by eapply index_tree_mono. Qed.
Lemma root_keeps_order c c' t xs : keeps index_store order_store c c' -> order_holds c t xs -> order_holds c' t xs.
Proof. unfold order_holds. destruct t as [t|]; cbn [root_tree]; [|done]. intros Hk (E & h & Eh & Ht). split; [done|]. exists h. split; [done|]. by eapply order_tree_mono. Qed.

Context (Hstores : marker_stores_ok node_store leaf_store index_store order_store draft session operation).
Abbreviation ready P := (marker_ready node_store leaf_store index_store order_store draft session operation P).

Lemma able_ready P l e c : context_ok c -> (P -> piece_able l e (mc c)) -> ready P l e c.
Proof. done. Qed.

Lemma lookup_refines c t m id : context_ok c -> index_holds c t m -> fixed 16 id ->
  match index_lookup index_store t id c with
  | Ok (r, c') => r = m !! id /\ index_holds c' t m /\ context_ok c'
  | Err _ => ~ piece_able (S (tree_height t)) 0 (mc c)
  end.
Proof.
  intros Hc (xs & Ht & ->) Hid. set (P := piece_able (S (tree_height t)) 0 (mc c)).
  assert (Hr : ready P (S (tree_height t) + 0) 0 c) by (rewrite Nat.add_0_r; by apply able_ready).
  pose proof (mwp_index_lookup _ _ _ _ _ _ _ P Hstores 0 0 c t xs id Hid Hr Ht) as Hw. unfold mwp in Hw. destruct (index_lookup _ _ _ _) as [[r c']|]; [|done].
  destruct Hw as (Hf & [Hc' _] & Hk). split; [symmetry; apply index_map_found; [by eapply root_sorted|done]|]. split; [|done]. exists xs. split; [by eapply root_keeps_index|done].
Qed.

Lemma insert_refines c t m o : context_ok c -> index_holds c t m -> occurrence_typed o -> let id := oc_marker_id o in
  match index_insert index_store t o c with
  | Ok (t', c') => m !! id = None /\ index_holds c' t' (<[id := o]> m) /\ context_ok c'
  | Err e => ~ (piece_able (2 * S (tree_height t)) (2 + 2 * tree_height t) (mc c) /\ m !! id = None
                /\ Z.of_nat (tree_height t) < DRAFT_PIECE_MAX_HEIGHT /\ Z.of_nat (size m) < U64_MAX)
             /\ (piece_able (S (tree_height t)) 0 (mc c) -> is_Some (m !! id) -> e = Rejected DuplicateMarkerIdentity)
  end.
Proof.
  intros Hc (xs & Ht & ->) Ho id. pose proof (root_sorted _ _ _ Ht) as Hs. rewrite index_map_size by done.
  set (P := piece_able _ _ _ /\ _ /\ _ /\ _).
  assert (Hr : ready P (2 * S (tree_height t) + 0) (2 + 2 * tree_height t + 0) c) by (rewrite !Nat.add_0_r; apply able_ready; [done|by intros [? _]]).
  pose proof (mwp_index_insert _ _ _ _ _ _ _ P Hstores 0 0 c t xs o Ho Hr Ht) as Hw.
  assert (Hw' := Hw ltac:(intros (_ & Hn & _); by apply index_map_None) ltac:(by intros (_ & _ & ? & _)) ltac:(intros (_ & _ & _ & ?); lia)). clear Hw.
  unfold mwp in Hw'. destruct (index_insert _ _ _ _) as [[t' c']|e] eqn:E.
  - destruct Hw' as (Hn & ys & Hin & Ht' & _ & [Hc' _] & _). split; [by apply index_map_None|]. split; [|done]. exists ys. split; [done|]. symmetry. by apply index_map_inserted.
  - split; [exact Hw'|]. intros Ha [a Ea].
    assert (Hel : a ∈ xs /\ oc_marker_id a = id).
    { unfold index_map in Ea. apply elem_of_list_to_map_2, list_elem_of_fmap in Ea as (b & [= Eb ->] & Hb). done. }
    pose proof (index_insert_duplicate _ _ _ _ _ _ _ True Hstores 0 0 c t xs o a Ho) as Hd. rewrite E in Hd.
    assert (Hr' : ready True (S (tree_height t) + 0) 0 c) by (rewrite Nat.add_0_r; by apply able_ready).
    specialize (Hd Hr' Ht (proj1 Hel) (proj2 Hel) I). congruence.
Qed.

Lemma delete_refines c t m o : context_ok c -> index_holds c t m -> occurrence_typed o -> let id := oc_marker_id o in
  match index_delete index_store t o c with
  | Ok (t', c') => m !! id = Some o /\ index_holds c' t' (delete id m) /\ context_ok c'
  | Err _ => ~ (piece_able (S (2 * tree_height t)) (1 + 3 * tree_height t) (mc c) /\ m !! id = Some o /\ Z.of_nat (tree_height t) <= DRAFT_PIECE_MAX_HEIGHT)
  end.
Proof.
  intros Hc (xs & Ht & ->) Ho id. pose proof (root_sorted _ _ _ Ht) as Hs. set (P := piece_able _ _ _ /\ _ /\ _).
  assert (Hr : ready P (S (2 * tree_height t) + 0) (1 + 3 * tree_height t + 0) c) by (rewrite !Nat.add_0_r; apply able_ready; [done|by intros [? _]]).
  pose proof (mwp_index_delete _ _ _ _ _ _ _ P Hstores 0 0 c t xs o ltac:(by destruct Ho) Hr Ht) as Hw.
  assert (Hin : P -> o ∈ xs).
  { intros (_ & Ea & _). unfold index_map in Ea. apply elem_of_list_to_map_2, list_elem_of_fmap in Ea as (b & [= Eb ->] & Hb). done. }
  specialize (Hw Hin ltac:(by intros (_ & _ & ?))). unfold mwp in Hw. destruct (index_delete _ _ _ _) as [[t' c']|]; [|done].
  destruct Hw as (ls & rs & -> & Ht' & _ & [Hc' _] & _). split; [apply (index_map_found _ _ (Some o)); [done|]; split; [|done]; apply elem_of_app; right; apply list_elem_of_here|].
  split; [|done]. exists (ls ++ rs). split; [done|]. symmetry. by apply index_map_removed.
Qed.
End Refine.

(** C23: the index of marker identities is a finite map from identities to occurrences: a lookup
    gives what the map has, an insertion of a new identity and the removal of an occurrence that
    is there update it; they fail only if the resources do not suffice, an insertion also at the
    largest height or count and, with [DuplicateMarkerIdentity], for an identity that is there,
    a removal also if the map has another occurrence or none. *)
Theorem marker_index_refines_map {H} `{Sha256Laws H} {R} node_store leaf_store index_store order_store draft session operation (c : MarkerContext) t m :
  marker_stores_ok (R := R) node_store leaf_store index_store order_store draft session operation ->
  let context_ok := marker_context_ok node_store leaf_store index_store order_store draft session operation in
  let holds := index_holds index_store draft in
  let h := tree_height t in
  context_ok c -> holds c t m ->
  (forall id, fixed 16 id -> match index_lookup index_store t id c with
    | Ok (r, c') => r = m !! id /\ holds c' t m /\ context_ok c'
    | Err _ => ~ piece_able (S h) 0 (mc c)
    end)
  /\ (forall o, occurrence_typed o -> let id := oc_marker_id o in match index_insert index_store t o c with
    | Ok (t', c') => m !! id = None /\ holds c' t' (<[id := o]> m) /\ context_ok c'
    | Err e => ~ (piece_able (2 * S h) (2 + 2 * h) (mc c) /\ m !! id = None /\ Z.of_nat h < DRAFT_PIECE_MAX_HEIGHT /\ Z.of_nat (size m) < U64_MAX)
        /\ (piece_able (S h) 0 (mc c) -> is_Some (m !! id) -> e = Rejected DuplicateMarkerIdentity)
    end)
  /\ (forall o, occurrence_typed o -> let id := oc_marker_id o in match index_delete index_store t o c with
    | Ok (t', c') => m !! id = Some o /\ holds c' t' (delete id m) /\ context_ok c'
    | Err _ => ~ (piece_able (S (2 * h)) (1 + 3 * h) (mc c) /\ m !! id = Some o /\ Z.of_nat h <= DRAFT_PIECE_MAX_HEIGHT)
    end).
Proof.
  intros Hst context_ok holds h Hc Hm. split_and!; intros; [by apply (lookup_refines _ _ _ _ _ _ _ Hst)|by apply (insert_refines _ _ _ _ _ _ _ Hst)|by apply (delete_refines _ _ _ _ _ _ _ Hst)].
Qed.

(** C24: the tree of the marker order is a list: an insertion at a rank up to its length puts the
    marker there, the removal of the marker of a rank takes it out; they fail only if the
    resources do not suffice, an insertion also past the end and at the largest height or count,
    a removal also if the list has another marker or none at the rank. *)
Theorem marker_order_refines_list {H} `{Sha256Laws H} {R} node_store leaf_store index_store order_store draft session operation (c : MarkerContext) t xs rank m :
  marker_stores_ok (R := R) node_store leaf_store index_store order_store draft session operation ->
  let context_ok := marker_context_ok node_store leaf_store index_store order_store draft session operation in
  let holds := order_holds order_store draft in
  let h := tree_height t in
  context_ok c -> holds c t xs -> 0 <= rank -> order_marker_typed m ->
  match marker_order_insert order_store t rank m c with
  | Ok (t', c') => rank <= zlen xs /\ holds c' t' (take (Z.to_nat rank) xs ++ m :: drop (Z.to_nat rank) xs) /\ context_ok c'
  | Err _ => ~ (piece_able (S h) (2 + 2 * h) (mc c) /\ rank <= zlen xs /\ Z.of_nat h < DRAFT_PIECE_MAX_HEIGHT /\ zlen xs < U64_MAX)
  end
  /\ match marker_order_delete order_store t rank m c with
  | Ok (t', c') => xs !! Z.to_nat rank = Some m /\ holds c' t' (delete (Z.to_nat rank) xs) /\ context_ok c'
  | Err _ => ~ (piece_able (S (3 * h)) (1 + 3 * h) (mc c) /\ xs !! Z.to_nat rank = Some m /\ Z.of_nat h <= DRAFT_PIECE_MAX_HEIGHT)
  end.
Proof.
  intros Hst context_ok holds h Hc Ht Hrank Hm. split.
  - set (P := piece_able _ _ _ /\ _ /\ _ /\ _).
    pose proof (mwp_marker_order_insert _ _ _ _ _ _ _ P Hst 0 0 c t xs rank m Hm) as Hw.
    assert (Hw' := Hw ltac:(rewrite !Nat.add_0_r; apply able_ready; [done|by intros [? _]]) Ht Hrank ltac:(by intros (_ & ? & _)) ltac:(by intros (_ & _ & ? & _)) ltac:(intros (_ & _ & _ & ?); lia)).
    unfold mwp in Hw'. destruct (marker_order_insert _ _ _ _ _) as [[t' c']|]; [|done]. destruct Hw' as (ls & rs & -> & <- & Ht' & _ & [Hc' _] & _).
    rewrite Nat2Z.id, take_app_length, drop_app_length. split; [rewrite length_app; lia|done].
  - set (P := piece_able _ _ _ /\ _ /\ _).
    pose proof (mwp_marker_order_delete _ _ _ _ _ _ _ P Hst 0 0 c t xs rank m) as Hw.
    assert (Hw' := Hw ltac:(rewrite !Nat.add_0_r; apply able_ready; [done|by intros [? _]]) Ht Hrank ltac:(by intros (_ & ? & _)) ltac:(by intros (_ & _ & ?))).
    unfold mwp in Hw'. destruct (marker_order_delete _ _ _ _ _) as [[t' c']|]; [|done]. destruct Hw' as (ls & rs & -> & <- & Ht' & _ & [Hc' _] & _).
    rewrite Nat2Z.id, list_lookup_middle, delete_middle by done. done.
Qed.

(** Trees of the marker order with the same digest, in whatever drafts and builds, have the
    same markers in the same order, unless two different strings hashed for them clash. *)
Theorem order_commitment_binds {H} `{Sha256Laws H} {R} order_store order_store' draft draft' (c c' : MarkerContext) (t t' : MarkerOrderRef) xs ys :
  order_holds (R := R) order_store draft c (Some t) xs -> order_holds (R := R) order_store' draft' c' (Some t') ys -> mo_digest (tr_link t) = mo_digest (tr_link t') ->
  xs = ys \/ clash (H := H) (order_strings order_store draft c (tree_height (Some t)) (tr_link t)) (order_strings order_store' draft' c' (tree_height (Some t')) (tr_link t')).
Proof.
  intros (_ & h & Eh & Ht) (_ & h' & Eh' & Ht') Ed. unfold tree_height. cbn [from_option]. rewrite Eh, Eh', !Nat2Z.id. by eapply order_binds.
Qed.

(** ** Examples *)

Abbreviation sample_index_type := (DraftMarkerRecordKey -> result (DraftPiecePrepareError unit) (option DraftMarkerIdentityRecord)).
Abbreviation sample_order_type := (DraftMarkerRecordKey -> result (DraftPiecePrepareError unit) (option DraftMarkerOrderRecord)).
Definition no_index : sample_index_type := fun _ => Ok None.
Definition no_order : sample_order_type := fun _ => Ok None.

Lemma empty_markers_ok : marker_stores_ok (H := tail_hash) no_nodes no_leaves no_index no_order sample_draft sample_session sample_operation.
Proof. split; [exact empty_stores_ok|done|done]. Qed.

Definition sample_markers : MarkerContext := mkMarkers (sample_pieces 1 None) ∅ ∅ ∅ ∅.
Abbreviation sample_markers_ok := (marker_context_ok (H := tail_hash) no_nodes no_leaves no_index no_order sample_draft sample_session sample_operation).

Lemma sample_markers_begin : sample_markers_ok sample_markers.
Proof.
  assert (Hb : quantum_begins (H := tail_hash) sample_draft sample_session sample_operation no_nodes no_leaves (sample_pieces 1 None)) by (apply sample_begins; [apply empty_stores_ok|by split|done]).
  split; cbn; try done; [apply Hb|]. intros a [= <-]. destruct (pc_budget _ _ _ _ _ _ (proj1 Hb) fresh_budget eq_refl) as (Hw & Hn & Hl).
  split; [exact Hw|]. split; [by split|]. split; (split; [done|]; intros k ek e _ _ Hk; cbn in Hk; by rewrite lookup_empty in Hk).
Qed.

Definition sample_occurrence : occurrence := mkOccurrence (pm_id sample_marker) (pm_label sample_marker) (pm_asset sample_marker) (pm_order sample_marker) (replicate 16 x08) (replicate 32 x09).
Lemma sample_occurrence_typed : occurrence_typed sample_occurrence.
Proof. unfold occurrence_typed, piece_asset_valid, is_rev, is_u64, fixed. cbn. by split_and!. Qed.
Definition sample_order_marker : order_marker := (pm_id sample_marker, pm_label sample_marker, pm_asset sample_marker).
Lemma sample_order_marker_typed : order_marker_typed sample_order_marker.
Proof. destruct sample_occurrence_typed as (? & ? & ? & _). by split_and!. Qed.

(** A first occurrence. *)
Lemma marker_index_refines_map_witness : exists t c', index_insert (H := tail_hash) no_index None sample_occurrence sample_markers = Ok (t, c')
  /\ index_holds (H := tail_hash) no_index sample_draft c' t {[oc_marker_id sample_occurrence := sample_occurrence]}.
Proof.
  assert (Hm : index_holds (H := tail_hash) no_index sample_draft sample_markers None ∅) by (by exists []).
  pose proof (marker_index_refines_map (H := tail_hash) no_nodes no_leaves no_index no_order sample_draft sample_session sample_operation sample_markers None ∅ empty_markers_ok sample_markers_begin Hm) as (_ & Hi & _).
  specialize (Hi sample_occurrence sample_occurrence_typed). cbv zeta in Hi. destruct (index_insert _ _ _ _) as [[t c']|] eqn:E.
  - exists t, c'. split; [reflexivity|]. exact (proj1 (proj2 Hi)).
  - exfalso. apply (proj1 Hi). split; [apply sample_pieces_able; cbn; lia|]. split; [apply lookup_empty|]. split; [reflexivity|reflexivity].
Defined.

Lemma marker_order_refines_list_witness : exists t c', marker_order_insert (H := tail_hash) no_order None 0 sample_order_marker sample_markers = Ok (t, c')
  /\ order_holds (H := tail_hash) no_order sample_draft c' t [sample_order_marker].
Proof.
  pose proof (marker_order_refines_list (H := tail_hash) no_nodes no_leaves no_index no_order sample_draft sample_session sample_operation sample_markers None [] 0 sample_order_marker
    empty_markers_ok sample_markers_begin eq_refl ltac:(lia) sample_order_marker_typed) as [Hi _].
  destruct (marker_order_insert _ _ _ _ _) as [[t c']|] eqn:E.
  - exists t, c'. split; [reflexivity|]. exact (proj1 (proj2 Hi)).
  - exfalso. apply Hi. split; [apply sample_pieces_able; cbn; lia|]. split; [reflexivity|]. split; [reflexivity|reflexivity].
Defined.

(** A list of one marker, and the same list built by another insertion. *)
Lemma sample_order_tree : exists t c', order_holds (H := tail_hash) (R := unit) no_order sample_draft c' (Some t) [sample_order_marker].
Proof.
  pose proof (mwp_order_insert_at no_nodes no_leaves no_index no_order sample_draft sample_session sample_operation True empty_markers_ok 0 0 sample_markers None [] [] sample_order_marker
    sample_order_marker_typed (able_ready _ _ _ _ _ _ _ True 1 2 _ sample_markers_begin (fun _ => sample_pieces_able 1 2 1 None ltac:(lia) ltac:(lia))) eq_refl ltac:(done) ltac:(done)) as Hw.
  unfold mwp in Hw. destruct (marker_order_insert _ _ _ _ _) as [[[t|] c']|]; [|by destruct Hw as (? & _)|by destruct Hw]. exists t, c'. apply Hw.
Qed.
Lemma order_commitment_binds_witness : exists t c', order_holds (H := tail_hash) (R := unit) no_order sample_draft c' (Some t) [sample_order_marker]
  /\ ([sample_order_marker] = [sample_order_marker] \/ clash (H := tail_hash) (order_strings no_order sample_draft c' (tree_height (Some t)) (tr_link t)) (order_strings no_order sample_draft c' (tree_height (Some t)) (tr_link t))).
Proof.
  destruct sample_order_tree as (t & c' & Ht). exists t, c'. split; [exact Ht|].
  exact (order_commitment_binds (H := tail_hash) no_order no_order sample_draft sample_draft c' c' t t _ _ Ht Ht eq_refl).
Defined.
