(* ===== verification/DraftRoots.v ===== *)
(** * The roots of a draft build and the surgery of a marker effect

    The three trees of a build together: their roots as a build record keeps them between quanta
    ([model.rs], [builder_model.rs], [builder_model/marker_program.rs]), loading and building them
    ([persistent.rs]), and the quanta in which a marker effect takes a marker out of the three
    trees or puts one in ([persistent/marker_program/{surgery,mapping}.rs]).  A quantum edits one
    tree and keeps the descriptor of the result in the pending step; the last one puts the
    descriptors together. *)
From stdpp Require Import prelude gmap strings.
From S2P Require Import Prelude.
From S2P Require Import Bytes.
From S2P Require Import ModelIds.
From S2P Require Import ModelDigest.
From S2P Require Import SyndicParts.
From S2P Require Import BuildBudget.
From S2P Require Import MappingModel.
From S2P Require Import MappingProgram.
From S2P Require Import PieceModel.
From S2P Require Import PieceTree.
From S2P Require Import TextSplice.
From S2P Require Import MarkerModel.
From S2P Require Import MarkerTree.

(** ** Data *)

Record DraftPieceBuildRoots := mkBuildRoots {
  br_sequence_root : option (list byte);
  br_sequence_summary : DraftPieceSummary;
  br_index_root : option (list byte);
  br_index_summary : DraftMarkerIdentityIndexSummary;
  br_order_root : option (list byte);
  br_order_height : Z;
  br_commitment : DraftMarkerCommitmentV1
}.

Inductive DraftCompositeGapWitness :=
  | Unambiguous
  | BeforeAll
  | Between (left_order_key : Z) (left_marker_id : list byte) (right_order_key : Z) (right_marker_id : list byte)
  | AfterAll.
Record DraftCompositePosition := mkPosition { utf8_offset : Z; gap : DraftCompositeGapWitness }.

Record DraftPieceMarkerEffectCharges := mkCharges { ch_bytes : Z; ch_markers : Z; ch_encoded : Z }.
Definition for_marker (marker : DraftPieceMarker) : DraftPieceMarkerEffectCharges := mkCharges 0 1 162.

Record DraftPieceMarkerRemovalProof := mkRemoval { rp_position : DraftCompositePosition; rp_occurrence : DraftMarkerIdentityOccurrence }.
Record DraftPieceMarkerInsertion := mkInsertion { in_anchor : Z; in_marker : DraftPieceMarker; in_charges : DraftPieceMarkerEffectCharges }.

Inductive DraftPieceMarkerEffect :=
  | EffectInsert (insertion : DraftPieceMarkerInsertion)
  | EffectRemove (removal : DraftPieceMarkerRemovalProof) (charges : DraftPieceMarkerEffectCharges)
  | EffectMove (removal : DraftPieceMarkerRemovalProof) (insertion : DraftPieceMarkerInsertion)
  | EffectSameIdReplacement (removal : DraftPieceMarkerRemovalProof) (insertion : DraftPieceMarkerInsertion).

Inductive DraftPieceActiveMarkerPhase := PhaseRemoving | PhaseDerivingInsertionGap | PhaseInserting | PhasePublishing.

Record DraftPieceMarkerRemovalSite := mkRemovalSite { rm_piece_rank : Z; rm_marker_ordinal : Z }.
Record DraftPieceMarkerPlanning := mkPlanning { pl_source_boundary : option DraftPieceBuildBoundary; pl_previous_start : option DraftPieceBuildBoundary }.
Record DraftPieceMarkerInsertionSite := mkInsertionSite { is_boundary : DraftPieceBuildBoundary; is_marker_ordinal : Z }.
Record DraftPieceSequenceDescriptor := mkSequenceDescriptor { sd_root : option (list byte); sd_summary : DraftPieceSummary }.
Record DraftPieceIdentityDescriptor := mkIdentityDescriptor { idd_root : option (list byte); idd_summary : DraftMarkerIdentityIndexSummary }.

Inductive DraftPieceMarkerProofPurpose :=
  | SourceBounds | RemovalGap | SourceOccurrence | SourceIdentity | PreviousStart | PreviousEnd
  | InsertIdentityAbsent | InsertAnchor | InsertOrder | InsertAfter | SourceInsertIdentityAbsent.

Module Pending.
Inductive t :=
  | None
  | Proof (purpose : DraftPieceMarkerProofPurpose) (component : DraftPieceMarkerProofComponent) (primary_marker_rank : option Z)
  | RemoveSequence
  | RemoveIdentity (sequence_target : DraftPieceSequenceDescriptor)
  | RemoveOrder (sequence_target : DraftPieceSequenceDescriptor) (identity_target : DraftPieceIdentityDescriptor)
  | InsertSequence
  | InsertIdentity (sequence_target : DraftPieceSequenceDescriptor) (new_leaf_id new_leaf_digest : list byte)
  | InsertOrder (sequence_target : DraftPieceSequenceDescriptor) (identity_target : DraftPieceIdentityDescriptor)
      (new_leaf_id new_leaf_digest : list byte).
End Pending.

Record DraftPieceBuildFragmentKey := mkFragmentKey {
  fk_draft : list byte; fk_session : list byte; fk_operation : list byte; fk_ordinal : Z }.

Record DraftPieceActiveMarkerEffect := mkActive {
  ac_fragment_key : DraftPieceBuildFragmentKey;
  ac_fragment_digest : list byte;
  ac_effect : DraftPieceMarkerEffect;
  ac_source_roots : DraftPieceBuildRoots;
  ac_working_roots : DraftPieceBuildRoots;
  ac_source_frontier : Z;
  ac_successor_frontier : Z;
  ac_phase : DraftPieceActiveMarkerPhase;
  ac_removal_site : option DraftPieceMarkerRemovalSite;
  ac_planning : option DraftPieceMarkerPlanning;
  ac_insertion_site : option DraftPieceMarkerInsertionSite;
  ac_pending : Pending.t
}.

#[global] Instance charges_eq_dec : EqDecision DraftPieceMarkerEffectCharges.
Proof. solve_decision. Defined.
#[global] Instance commitment_eq_dec : EqDecision DraftMarkerCommitmentV1.
Proof. solve_decision. Defined.
#[global] Instance index_summary_eq_dec : EqDecision DraftMarkerIdentityIndexSummary.
Proof. solve_decision. Defined.
#[global] Instance build_roots_eq_dec : EqDecision DraftPieceBuildRoots.
Proof. solve_decision. Defined.

Definition removal (effect : DraftPieceMarkerEffect) : option DraftPieceMarkerRemovalProof :=
  match effect with
  | EffectInsert _ => None
  | EffectRemove removal _ | EffectMove removal _ | EffectSameIdReplacement removal _ => Some removal
  end.

Definition charges_of (effect : DraftPieceMarkerEffect) : DraftPieceMarkerEffectCharges :=
  match effect with
  | EffectInsert insertion | EffectMove _ insertion | EffectSameIdReplacement _ insertion => in_charges insertion
  | EffectRemove _ charges => charges
  end.

(** [update] and [with_pending] *)
Definition update_active (active : DraftPieceActiveMarkerEffect) (roots : DraftPieceBuildRoots) (phase : DraftPieceActiveMarkerPhase)
    (removal_site : option DraftPieceMarkerRemovalSite) (planning : option DraftPieceMarkerPlanning)
    (insertion_site : option DraftPieceMarkerInsertionSite) (pending : Pending.t) : DraftPieceActiveMarkerEffect :=
  mkActive (ac_fragment_key active) (ac_fragment_digest active) (ac_effect active) (ac_source_roots active) roots
    (ac_source_frontier active) (ac_successor_frontier active) phase removal_site planning insertion_site pending.
Definition with_pending (active : DraftPieceActiveMarkerEffect) (pending : Pending.t) : DraftPieceActiveMarkerEffect :=
  update_active active (ac_working_roots active) (ac_phase active) (ac_removal_site active) (ac_planning active) (ac_insertion_site active) pending.

Section Roots.
Context {H : Type} `{Sha256 H} {R : Type}.
Context (node_store : DraftPieceRecordKey -> result (DraftPiecePrepareError R) (option DraftPieceNodeRecord))
        (leaf_store : DraftPieceRecordKey -> result (DraftPiecePrepareError R) (option DraftPieceLeafRecord))
        (index_store : DraftMarkerRecordKey -> result (DraftPiecePrepareError R) (option DraftMarkerIdentityRecord))
        (order_store : DraftMarkerRecordKey -> result (DraftPiecePrepareError R) (option DraftMarkerOrderRecord)).
Abbreviation marker_result := (result (DraftPiecePrepareError R)).

Definition insertion_of (effect : DraftPieceMarkerEffect) : marker_result DraftPieceMarkerInsertion :=
  match effect with
  | EffectInsert insertion | EffectMove _ insertion | EffectSameIdReplacement _ insertion => Ok insertion
  | EffectRemove _ _ => Err InvalidRoot
  end.

(** ** Working roots *)

Definition marker_order_root (root_id : option (list byte)) (height : Z) (commitment : DraftMarkerCommitmentV1) : markerm R (option MarkerOrderRef) :=
  if commitment_count commitment =? 0 then
    if bool_decide (root_id <> None) || negb (height =? 0) || negb (bool_decide (commitment = canonical_empty_draft_marker_commitment))
    then fail_marker InvalidRoot else mret None
  else
    id ← lift_marker (ok_or InvalidRoot root_id);
    link ← lift_marker (ok_or InvalidRoot (new_order_child id (tree_root_digest commitment) (commitment_count commitment) (commitment_maximum commitment)));
    let root := mkTreeRef link height true in
    if height =? 0 then fail_marker InvalidRoot
    else _ ← load_marker_order_record order_store root true; mret (Some root).

(** The index part of [load_working_roots]; the sequence part is [load_working_sequence]. *)
Definition load_working_index (root : option (list byte)) (summary : DraftMarkerIdentityIndexSummary) : markerm R (option IndexRef) :=
  match root with
  | Some id =>
      record ← load_index_root_record index_store id summary;
      link ← lift_marker (index_child_for_record record);
      mret (Some (mkTreeRef link (is_height summary) true))
  | None =>
      if negb (is_count summary =? 0) || negb (is_height summary =? 0)
         || negb (bool_decide (is_root_digest summary = canonical_empty_marker_identity_index_digest))
      then fail_marker InvalidRoot else mret None
  end.

Definition load_working_roots (roots : DraftPieceBuildRoots) : markerm R (option SequenceRef * option IndexRef * option MarkerOrderRef) :=
  sequence ← in_pieces (load_working_sequence node_store (br_sequence_root roots) (br_sequence_summary roots));
  index ← load_working_index (br_index_root roots) (br_index_summary roots);
  marker_order ← marker_order_root (br_order_root roots) (br_order_height roots) (br_commitment roots);
  if negb (sm_markers (br_sequence_summary roots) =? commitment_count (br_commitment roots))
     || negb (is_count (br_index_summary roots) =? commitment_count (br_commitment roots))
  then fail_marker InvalidRoot else mret (sequence, index, marker_order).

Definition identity_descriptor (index : option IndexRef) : DraftPieceIdentityDescriptor :=
  match index with
  | Some t =>
      let count := ic_count (tr_link t) in
      mkIdentityDescriptor (Some (ic_id (tr_link t)))
        (mkIndexSummary count (tr_height t) (index_root_digest count (tr_height t) (ic_digest (tr_link t))))
  | None => mkIdentityDescriptor None (mkIndexSummary 0 0 canonical_empty_marker_identity_index_digest)
  end.

(** What is kept of the tree of the marker order. *)
Definition order_descriptor (order : option MarkerOrderRef) : marker_result (option (list byte) * Z * DraftMarkerCommitmentV1) :=
  match order with
  | Some t =>
      match new_commitment (mo_digest (tr_link t)) (mo_count (tr_link t)) (Some (mo_maximum (tr_link t))) with
      | Ok commitment => Ok (Some (mo_id (tr_link t)), tr_height t, commitment)
      | Err _ => Err InvalidRoot
      end
  | None => Ok (None, 0, canonical_empty_draft_marker_commitment)
  end.

Definition build_roots (sequence : option SequenceRef) (index : option IndexRef) (marker_order : option MarkerOrderRef) : markerm R DraftPieceBuildRoots :=
  '(sequence_root, sequence_summary) ← in_pieces (build_sequence_root node_store sequence);
  index ← compress_index_root index_store index;
  marker_order ← compress_marker_order_root order_store marker_order;
  let identity := identity_descriptor index in
  '(order_root, order_height, commitment) ← lift_marker (order_descriptor marker_order);
  if negb (sm_markers sequence_summary =? is_count (idd_summary identity)) || negb (sm_markers sequence_summary =? commitment_count commitment)
  then fail_marker InvalidRoot
  else mret (mkBuildRoots sequence_root sequence_summary (idd_root identity) (idd_summary identity) order_root order_height commitment).

Definition validate_marker_effect_charge (effect : DraftPieceMarkerEffect) (leaf : DraftPieceLeafRecord) : marker_result unit :=
  encoded ← match encode_leaf leaf with Ok bs => Ok bs | Err _ => Err InvalidRoot end;
  if negb (bool_decide (charges_of effect = mkCharges 0 1 (zlen encoded))) then Err InvalidRoot else Ok tt.

(** ** Surgery *)

(** [sequence_descriptor] has the steps of the sequence part of [build_roots]. *)
Definition sequence_descriptor (sequence : option SequenceRef) : markerm R DraftPieceSequenceDescriptor :=
  '(root, summary) ← in_pieces (build_sequence_root node_store sequence);
  mret (mkSequenceDescriptor root summary).

Definition target_roots (sequence : DraftPieceSequenceDescriptor) (identity : DraftPieceIdentityDescriptor) (order : option MarkerOrderRef)
    : markerm R DraftPieceBuildRoots :=
  order ← compress_marker_order_root order_store order;
  '(order_id, height, commitment) ← lift_marker (order_descriptor order);
  let roots := mkBuildRoots (sd_root sequence) (sd_summary sequence) (idd_root identity) (idd_summary identity) order_id height commitment in
  _ ← load_working_roots roots;
  mret roots.

Definition validate_delta (before after : DraftPieceBuildRoots) (inserted split : bool) : marker_result unit :=
  let old := br_sequence_summary before in
  let new := br_sequence_summary after in
  let expected_markers := if inserted then checked_add64 (sm_markers old) 1 else checked_sub64 (sm_markers old) 1 in
  let expected_pieces := if inserted then checked_add64 (sm_pieces old) (1 + if split then 1 else 0) else checked_sub64 (sm_pieces old) 1 in
  if negb (sm_bytes new =? sm_bytes old) || negb (sm_newlines new =? sm_newlines old) || negb (sm_lines new =? sm_lines old)
     || negb (bool_decide (Some (sm_markers new) = expected_markers))
     || negb (bool_decide (Some (sm_pieces new) = expected_pieces))
     || negb (bool_decide (Some (is_count (br_index_summary after)) = expected_markers))
     || negb (bool_decide (Some (commitment_count (br_commitment after)) = expected_markers))
  then Err InvalidRoot else Ok tt.

(** A change of the build context under the marker records. *)
Definition in_marker_build (f : BuildContext -> marker_result BuildContext) : markerm R unit := in_pieces (in_build f).

Definition install_map (roots : DraftPieceBuildRoots) (inserted : bool) : markerm R unit := fun c =>
  match program_mapping (R := R) (pb (mc c)) with
  | Err e => Err e
  | Ok m =>
      match mapping_stage m with
      | Stage.Ready ready =>
          if negb (m_target (root_measure (rs_target ready)) =? sm_bytes (br_sequence_summary roots) + sm_markers (br_sequence_summary roots))
          then Err InvalidRoot
          else (_ ← in_marker_build (fun b => consume_ready b (if inserted then MarkerInsert else MarkerDelete));
                in_marker_build (fun b => set_stage b (if inserted then Stage.RefreshMap else Stage.MarkerMapBoundary))) c
      | _ => Err InvalidRoot
      end
  end.

(** A leaf the quantum made. *)
Definition emitted_leaf (id : list byte) : piecem R DraftPieceLeafRecord := fun c =>
  match pb_leaves c !! id with Some leaf => Ok (leaf, c) | None => Err InvalidRoot end.

Definition expected_occurrence (active : DraftPieceActiveMarkerEffect) : marker_result DraftMarkerIdentityOccurrence :=
  ok_or InvalidRoot (rp_occurrence <$> removal (ac_effect active)).

(** The arms of [surgery::advance]; each starts with the loaded roots. *)
Definition remove_sequence (active : DraftPieceActiveMarkerEffect) (sequence : option SequenceRef) : markerm R DraftPieceActiveMarkerEffect :=
  expected ← lift_marker (expected_occurrence active);
  site ← lift_marker (ok_or InvalidRoot (ac_removal_site active));
  tree ← lift_marker (ok_or InvalidRoot sequence);
  result ← in_pieces (remove_marker node_store leaf_store tree (rm_piece_rank site) expected);
  sequence_target ← sequence_descriptor result;
  mret (with_pending active (Pending.RemoveIdentity sequence_target)).

Definition remove_index (active : DraftPieceActiveMarkerEffect) (identity : option IndexRef) (sequence_target : DraftPieceSequenceDescriptor)
    : markerm R DraftPieceActiveMarkerEffect :=
  expected ← lift_marker (expected_occurrence active);
  index ← index_delete index_store identity expected;
  mret (with_pending active (Pending.RemoveOrder sequence_target (identity_descriptor index))).

Definition remove_from_order (active : DraftPieceActiveMarkerEffect) (order : option MarkerOrderRef)
    (sequence_target : DraftPieceSequenceDescriptor) (identity_target : DraftPieceIdentityDescriptor) : markerm R DraftPieceActiveMarkerEffect :=
  expected ← lift_marker (expected_occurrence active);
  site ← lift_marker (ok_or InvalidRoot (ac_removal_site active));
  order ← marker_order_delete order_store order (rm_marker_ordinal site) (oc_marker_id expected, oc_label expected, oc_asset_id expected);
  roots ← target_roots sequence_target identity_target order;
  _ ← lift_marker (validate_delta (ac_working_roots active) roots false false);
  _ ← install_map roots false;
  mret (update_active active roots (ac_phase active) None (ac_planning active) None Pending.None).

Definition insert_sequence (active : DraftPieceActiveMarkerEffect) (sequence : option SequenceRef) : markerm R DraftPieceActiveMarkerEffect :=
  insertion ← lift_marker (insertion_of (ac_effect active));
  site ← lift_marker (ok_or InvalidRoot (ac_insertion_site active));
  leaf ← in_pieces (new_sequence_leaf (LeafMarker (in_marker insertion)));
  record ← in_pieces (emitted_leaf (c_id (sr_link leaf)));
  _ ← lift_marker (validate_marker_effect_charge (ac_effect active) record);
  result ← in_pieces (insert_sequence_leaf node_store leaf_store sequence (checked_boundary (is_boundary site)) leaf);
  sequence_target ← sequence_descriptor (Some result);
  mret (with_pending active (Pending.InsertIdentity sequence_target (c_id (sr_link leaf)) (c_digest (sr_link leaf)))).

Definition occurrence_of (marker : DraftPieceMarker) (leaf_id leaf_digest : list byte) : DraftMarkerIdentityOccurrence :=
  mkOccurrence (pm_id marker) (pm_label marker) (pm_asset marker) (pm_order marker) leaf_id leaf_digest.

Definition insert_index (active : DraftPieceActiveMarkerEffect) (identity : option IndexRef) (sequence_target : DraftPieceSequenceDescriptor)
    (new_leaf_id new_leaf_digest : list byte) : markerm R DraftPieceActiveMarkerEffect :=
  insertion ← lift_marker (insertion_of (ac_effect active));
  index ← index_insert index_store identity (occurrence_of (in_marker insertion) new_leaf_id new_leaf_digest);
  mret (with_pending active (Pending.InsertOrder sequence_target (identity_descriptor index) new_leaf_id new_leaf_digest)).

(** [Iterator::max] of a label that may be missing and one more. *)
Definition with_label (maximum : option Z) (label : Z) : option Z := Some (from_option (Z.max label) label maximum).

Definition insert_into_order (active : DraftPieceActiveMarkerEffect) (order : option MarkerOrderRef)
    (sequence_target : DraftPieceSequenceDescriptor) (identity_target : DraftPieceIdentityDescriptor) : markerm R DraftPieceActiveMarkerEffect :=
  insertion ← lift_marker (insertion_of (ac_effect active));
  let marker := in_marker insertion in
  site ← lift_marker (ok_or InvalidRoot (ac_insertion_site active));
  order ← marker_order_insert order_store order (is_marker_ordinal site) (pm_id marker, pm_label marker, pm_asset marker);
  roots ← target_roots sequence_target identity_target order;
  _ ← lift_marker (validate_delta (ac_working_roots active) roots true (negb (bd_inner (is_boundary site) =? 0)));
  if negb (bool_decide (commitment_maximum (br_commitment roots) = with_label (commitment_maximum (br_commitment (ac_working_roots active))) (pm_label marker)))
  then fail_marker InvalidRoot
  else
    _ ← install_map roots true;
    mret (update_active active roots PhasePublishing None None None Pending.None).

(** [surgery::advance] *)
Definition surgery (active : DraftPieceActiveMarkerEffect) : markerm R DraftPieceActiveMarkerEffect :=
  '(sequence, identity, order) ← load_working_roots (ac_working_roots active);
  match ac_pending active with
  | Pending.RemoveSequence => remove_sequence active sequence
  | Pending.RemoveIdentity sequence_target => remove_index active identity sequence_target
  | Pending.RemoveOrder sequence_target identity_target => remove_from_order active order sequence_target identity_target
  | Pending.InsertSequence => insert_sequence active sequence
  | Pending.InsertIdentity sequence_target new_leaf_id new_leaf_digest => insert_index active identity sequence_target new_leaf_id new_leaf_digest
  | Pending.InsertOrder sequence_target identity_target _ _ => insert_into_order active order sequence_target identity_target
  | _ => fail_marker InvalidRoot
  end.
End Roots.
