(* ===== verification/DraftFrame.v ===== *)
(** * The roots of a draft build: piece operations leave the marker records alone

    A piece operation in a context with marker records: what the specifications of [PieceEdit],
    [PieceRemove] and [PieceRoots] say of pieces holds there, and the marker trees stay as they
    are.  An operation [frames] if the budget stays within its limits, what the budget remembers
    of marker reads stays right and the ordinal only grows. *)
From stdpp Require Import prelude gmap strings.
From S2P Require Import Prelude.
From S2P Require Import Bytes.
From S2P Require Import ModelDigest.
From S2P Require Import SyndicParts.
From S2P Require Import BuildBudget.
From S2P Require Import MappingModel.
From S2P Require Import MappingEdit.
From S2P Require Import MappingProgram.
From S2P Require Import PieceModel.
From S2P Require Import PieceCodec.
From S2P Require Import PieceTree.
From S2P Require Import PieceDenote.
From S2P Require Import PieceEdit.
From S2P Require Import MarkerModel.
From S2P Require Import MarkerCodec.
From S2P Require Import MarkerTree.
From S2P Require Import MarkerBalance.
From S2P Require Import MarkerDenote.
From S2P Require Import MarkerEdit.
From S2P Require Import DraftRoots.

(** A read stays within the limits whatever its key. *)
Lemma point_within {R K V} `{FamilyLaws K V} s (store : K -> result (DraftPiecePrepareError R) (option V)) k o s' :
  within_limits s -> typed_read (store k) -> acquired_point s store k = Ok (o, s') -> within_limits s'.
Proof.
  intros Hw Hty Hp. apply acquire_inv in Hp as (ek & Hek & [(_ & -> & _)|[Hl Hn]]); [done| |done].
  apply acquire_new_Ok in Hn as (_ & (e & Hst & Hwk & _) & L1 & L2 & L3); [|done..]. eapply after_read_within; try done. by eapply stored_bound.
Qed.

Section Frame.
Context {H : Type} `{Sha256Laws H} {R : Type}.
Context (node_store : DraftPieceRecordKey -> result (DraftPiecePrepareError R) (option DraftPieceNodeRecord))
        (leaf_store : DraftPieceRecordKey -> result (DraftPiecePrepareError R) (option DraftPieceLeafRecord))
        (index_store : DraftMarkerRecordKey -> result (DraftPiecePrepareError R) (option DraftMarkerIdentityRecord))
        (order_store : DraftMarkerRecordKey -> result (DraftPiecePrepareError R) (option DraftMarkerOrderRecord))
        (draft session operation : list byte) (P : Prop)
        (Hstores : marker_stores_ok node_store leaf_store index_store order_store draft session operation).

Definition marker_cached (a : Acquired) : Prop := within_limits a /\ cache_ok a index_store /\ cache_ok a order_store.
Definition framed (p : PieceContext) : Prop := forall a, bc_acquisition (pb p) = Some a -> marker_cached a.
Definition frames {A} (m : piecem R A) : Prop := forall p x p', framed p -> m p = Ok (x, p') -> framed p' /\ bc_ordinal (pb p) <= bc_ordinal (pb p').

(** ** The steps *)

Lemma frames_ret {A} (x : A) : frames (mret x).
Proof. intros p y p' Hp [= <- <-]. by split. Qed.
Lemma frames_fail {A} e : frames (fail_piece (A := A) e).
Proof. done. Qed.
Lemma frames_lift {A} (r : result _ A) : frames (lift_piece r).
Proof. intros p x p' Hp. unfold lift_piece. destruct r; [intros [= <- <-]; by split|done]. Qed.
Lemma frames_bind {A B} (m : piecem R A) (k : A -> piecem R B) : frames m -> (forall x, frames (k x)) -> frames (m ≫= k).
Proof.
  intros Hm Hk p y p' Hp. unfold mbind, piecem_bind. destruct (m p) as [[x p1]|] eqn:E; [|done]. intros E'.
  destruct (Hm _ _ _ Hp E) as [Hp1 O1]. destruct (Hk _ _ _ _ Hp1 E') as [Hp' O2]. split; [done|lia].
Qed.
Lemma frames_point {V} `{FamilyLaws DraftPieceRecordKey V} (store : DraftPieceRecordKey -> result (DraftPiecePrepareError R) (option V)) k :
  family_name (K := DraftPieceRecordKey) (V := V) <> family_name (K := DraftMarkerRecordKey) (V := DraftMarkerIdentityRecord) ->
  family_name (K := DraftPieceRecordKey) (V := V) <> family_name (K := DraftMarkerRecordKey) (V := DraftMarkerOrderRecord) ->
  typed_read (store k) -> frames (piece_point store k).
Proof.
  intros N1 N2 Hty p o p' Hp. unfold piece_point. destruct (bc_acquisition (pb p)) as [a|] eqn:Ea.
  - destruct (Hp a Ea) as (Hw & Hi & Ho). destruct (acquired_point a store k) as [[o' a']|] eqn:E; [|done]. intros [= <- <-]. split; [|done].
    intros b [= <-]. split; [by eapply point_within|]. split; (eapply (point_other (V := V)); [..|done]; done).
  - destruct (store k); [|done]. intros [= <- <-]. by split.
Qed.
Lemma frames_node_point k : frames (piece_point node_store k).
Proof. apply frames_point; [done|done|]. intros n Hn. exact (ps_nodes _ _ _ _ _ (ms_pieces _ _ _ _ _ _ _ Hstores) _ _ Hn). Qed.
Lemma frames_leaf_point k : frames (piece_point leaf_store k).
Proof. apply frames_point; [done|done|]. intros r Hr. exact (ps_leaves _ _ _ _ _ (ms_pieces _ _ _ _ _ _ _ Hstores) _ _ Hr). Qed.

Lemma frames_count : frames count_read.
Proof. intros p x p' Hp. unfold count_read. destruct (checked_add64 _ _); [|done]. intros [= <- <-]. by split. Qed.
Lemma frames_next_id dg : frames (next_id dg).
Proof.
  intros p x p' Hp. unfold next_id. destruct (bc_session_id _); [|done]. destruct (checked_add64 _ _) as [n|] eqn:E; [|done]. intros [= <- <-].
  apply checked_add64_Some in E as [-> _]. split; [done|cbn; lia].
Qed.
Lemma frames_charge {V} `{FamilyLaws DraftPieceRecordKey V} k (v : V) : frames (charge_emission k v).
Proof.
  intros p x p' Hp. unfold charge_emission. destruct (bc_acquisition (pb p)) as [a|] eqn:Ea; [|intros [= <- <-]; by split].
  destruct (Hp a Ea) as (Hw & Hi & Ho). destruct (emission a k v) as [a'|] eqn:E; [|done]. intros [= <- <-]. split; [|done]. intros b [= <-].
  pose proof (emission_other _ index_store _ _ _ Hw E Hi) as [Hw' Hi']. refine (conj Hw' (conj Hi' (proj2 (emission_other _ order_store _ _ _ Hw E Ho)))).
Qed.
(** Steps that change only what is kept of pieces. *)
Lemma frames_same {A} (m : piecem R A) : (forall p x p', m p = Ok (x, p') -> pb p' = pb p) -> frames m.
Proof. intros Hm p x p' Hp E. unfold framed. rewrite (Hm _ _ _ E). split; [exact Hp|done]. Qed.

Lemma frames_draft : frames draft_of.
Proof. apply frames_same. by intros p x p' [= <- <-]. Qed.
Lemma frames_remember_node id n : frames (remember_node id n).
Proof. apply frames_same. by intros p x p' [= <- <-]. Qed.
Lemma frames_remember_leaf id r : frames (remember_leaf id r).
Proof. apply frames_same. by intros p x p' [= <- <-]. Qed.
Lemma frames_push_node id n : frames (push_node id n).
Proof. apply frames_same. by intros p x p' [= <- <-]. Qed.
Lemma frames_push_leaf id r : frames (push_leaf id r).
Proof. apply frames_same. by intros p x p' [= <- <-]. Qed.
Lemma frames_emitted id : frames (emitted_leaf id).
Proof. apply frames_same. intros p x p'. unfold emitted_leaf. destruct (_ !! _); [|done]. by intros [= <- <-]. Qed.
Lemma frames_verify k a r i : frames (verify_sequence_splice k a r i).
Proof. apply frames_same. intros p x p'. unfold verify_sequence_splice. destruct (verify_splice _ _ _ _ _) as [[]|]; [|done]. by intros [= <- <-]. Qed.
End Frame.

Create HintDb framing.
#[export] Hint Resolve frames_ret frames_fail frames_lift frames_node_point frames_leaf_point frames_count frames_next_id
  frames_draft frames_remember_node frames_remember_leaf frames_push_node frames_push_leaf frames_emitted frames_verify : framing.

(** Walks through an operation. *)
Ltac framing :=
  repeat first
    [ solve [eauto with framing]
    | apply frames_charge; apply _
    | apply frames_bind; [|intros]
    | match goal with
      | |- frames _ _ (match ?x with _ => _ end) => destruct x
      | |- frames _ _ (let _ := _ in _) => cbv zeta
      end ].

(** The same for an operation that looks at its context first. *)
Ltac framing_look :=
  let p := fresh "p" in let Hp := fresh "Hp" in
  intros p ? ? Hp; repeat case_match; cbv zeta;
  match type of Hp with framed ?i ?o _ =>
    match goal with |- ?m p = Ok _ -> _ => let Hm := fresh in assert (Hm : frames i o m) by framing; exact (Hm _ _ _ Hp) end end.

Section Operations.
Context {H : Type} `{Sha256Laws H} {R : Type}.
Context (node_store : DraftPieceRecordKey -> result (DraftPiecePrepareError R) (option DraftPieceNodeRecord))
        (leaf_store : DraftPieceRecordKey -> result (DraftPiecePrepareError R) (option DraftPieceLeafRecord))
        (index_store : DraftMarkerRecordKey -> result (DraftPiecePrepareError R) (option DraftMarkerIdentityRecord))
        (order_store : DraftMarkerRecordKey -> result (DraftPiecePrepareError R) (option DraftMarkerOrderRecord))
        (draft session operation : list byte)
        (Hstores : marker_stores_ok node_store leaf_store index_store order_store draft session operation).
Abbreviation frames := (frames (R := R) index_store order_store).

Lemma frames_load_node link h root : frames (load_sequence_node node_store link h root).
Proof. unfold load_sequence_node. framing_look. Qed.
Lemma frames_load_root_node id s : frames (load_sequence_root_node node_store id s).
Proof. unfold load_sequence_root_node. framing_look. Qed.
Lemma frames_load_leaf link : frames (load_sequence_leaf leaf_store link).
Proof. unfold load_sequence_leaf. framing_look. Qed.
Lemma frames_new_leaf v : frames (new_sequence_leaf v).
Proof. unfold new_sequence_leaf. framing. Qed.
Lemma frames_new_node h cs : frames (new_sequence_node h cs).
Proof. unfold new_sequence_node, reject_piece. framing. Qed.
Lemma frames_pack {A} cs (build : list DraftPieceChild -> piecem R A) : (forall xs, frames (build xs)) -> frames (pack_children cs build).
Proof. intros Hb. unfold pack_children. framing. Qed.

#[local] Hint Resolve frames_load_node frames_load_root_node frames_load_leaf frames_new_leaf frames_new_node frames_pack : framing.

Lemma frames_insert_at t b i n : frames (insert_at_leaf leaf_store t b i n).
Proof. unfold insert_at_leaf, reject_piece. framing. Qed.
#[local] Hint Resolve frames_insert_at : framing.
Lemma frames_insert_rec h : forall link root b i n, frames (insert_sequence_leaf_recursive node_store leaf_store h link root b i n).
Proof. induction h as [|h IH]; intros; cbn [insert_sequence_leaf_recursive]; framing. Qed.
#[local] Hint Resolve frames_insert_rec : framing.
Lemma frames_insert t b i : frames (insert_sequence_leaf node_store leaf_store t b i).
Proof. unfold insert_sequence_leaf. framing. Qed.

Lemma frames_edit_at link rank start end_ marker n : frames (edit_at_leaf leaf_store link rank start end_ marker n).
Proof. unfold edit_at_leaf, reject_piece. framing. Qed.
Lemma frames_rebuild h cs : frames (rebuild h cs).
Proof. unfold rebuild. framing. Qed.
Lemma frames_merge cs i h us : frames (merge_underfull node_store cs i h us).
Proof. unfold merge_underfull. framing. Qed.
#[local] Hint Resolve frames_edit_at frames_rebuild frames_merge : framing.
Lemma frames_edit h : forall link root rank start end_ marker n, frames (edit_leaf node_store leaf_store h link root rank start end_ marker n).
Proof. induction h as [|h IH]; intros; cbn [edit_leaf]; framing. Qed.
#[local] Hint Resolve frames_edit : framing.
Lemma frames_remove_marker t rank o : frames (remove_marker node_store leaf_store t rank o).
Proof. unfold remove_marker, finish_edit. framing. Qed.

Lemma frames_compress h : forall link root, frames (compress_from node_store h link root).
Proof. induction h as [|h IH]; intros; cbn [compress_from]; framing. Qed.
#[local] Hint Resolve frames_compress : framing.
Lemma frames_load_working root s : frames (load_working_sequence node_store root s).
Proof. unfold load_working_sequence. framing. Qed.
Lemma frames_build_root t : frames (build_sequence_root node_store t).
Proof. unfold build_sequence_root, compress_sequence_root. framing. Qed.
End Operations.
