(* ===== verification/DraftStored.v ===== *)
(** * The roots of a draft build: what they stand for

    Between quanta the three trees are identities and summaries.  Loading them gives the trees
    back; building them from trees, or describing trees one by one, loses nothing. *)
From stdpp Require Import prelude gmap strings.
From S2P Require Import Prelude.
From S2P Require Import Bytes.
From S2P Require Import ModelDigest.
From S2P Require Import SyndicParts.
From S2P Require Import BuildBudget.
From S2P Require Import MappingModel.
From S2P Require Import MappingEdit.
From S2P Require Import MappingProgram.
From S2P Require Import PieceModel.
From S2P Require Import PieceCodec.
From S2P Require Import PieceTree.
From S2P Require Import PieceDenote.
From S2P Require Import PieceSequence.
From S2P Require Import PieceEdit.
From S2P Require Import PieceRoots.
From S2P Require Import MarkerModel.
From S2P Require Import MarkerCodec.
From S2P Require Import MarkerTree.
From S2P Require Import MarkerBalance.
From S2P Require Import MarkerDenote.
From S2P Require Import MarkerEdit.
From S2P Require Import MarkerIndex.
From S2P Require Import MarkerOrder.
From S2P Require Import DraftRoots.
From S2P Require Import DraftFrame.

(** ** Stored roots *)

Section Summaries.
Context {H : Type} `{Sha256 H} {R : Type}.
Context (index_store : DraftMarkerRecordKey -> result (DraftPiecePrepareError R) (option DraftMarkerIdentityRecord))
        (order_store : DraftMarkerRecordKey -> result (DraftPiecePrepareError R) (option DraftMarkerOrderRecord))
        (draft : list byte).

Definition index_summary_for (link : DraftMarkerIdentityChild) (height : Z) : DraftMarkerIdentityIndexSummary :=
  mkIndexSummary (ic_count link) height (index_root_digest (ic_count link) height (ic_digest link)).
Definition empty_index : DraftMarkerIdentityIndexSummary := mkIndexSummary 0 0 canonical_empty_marker_identity_index_digest.
Definition commitment_for (link : DraftMarkerOrderChild) : DraftMarkerCommitmentV1 := mkCommitment (mo_digest link) (mo_count link) (Some (mo_maximum link)).

Definition stored_index (c : MarkerContext) (root : option (list byte)) (summary : DraftMarkerIdentityIndexSummary) (xs : list occurrence) : Prop :=
  match root with
  | None => xs = [] /\ summary = empty_index
  | Some id => exists h link, ic_id link = id /\ index_tree (R := R) index_store draft c (S h) true link xs /\ summary = index_summary_for link (Z.of_nat (S h))
  end.
Definition stored_order (c : MarkerContext) (root : option (list byte)) (height : Z) (commitment : DraftMarkerCommitmentV1) (ms : list order_marker) : Prop :=
  match root with
  | None => ms = [] /\ height = 0 /\ commitment = canonical_empty_draft_marker_commitment
  | Some id => exists h link, mo_id link = id /\ order_tree (R := R) order_store draft c (S h) true link ms /\ height = Z.of_nat (S h) /\ commitment = commitment_for link
  end.
End Summaries.

Section Together.
Context {H : Type} `{Sha256 H} {G : LeafNames} {R : Type}.
Context (node_store : DraftPieceRecordKey -> result (DraftPiecePrepareError R) (option DraftPieceNodeRecord))
        (leaf_store : DraftPieceRecordKey -> result (DraftPiecePrepareError R) (option DraftPieceLeafRecord))
        (index_store : DraftMarkerRecordKey -> result (DraftPiecePrepareError R) (option DraftMarkerIdentityRecord))
        (order_store : DraftMarkerRecordKey -> result (DraftPiecePrepareError R) (option DraftMarkerOrderRecord))
        (draft : list byte).

(** The roots of a build, with what each of them stands for. *)
Record stored_roots (c : MarkerContext) (roots : DraftPieceBuildRoots) (ps : list piece) (xs : list occurrence) (ms : list order_marker) : Prop := mkStoredRoots {
  st_pieces : stored_sequence draft (seen node_store leaf_store draft (mc c)) (br_sequence_root roots) (br_sequence_summary roots) ps;
  st_index : stored_index index_store draft c (br_index_root roots) (br_index_summary roots) xs;
  st_order : stored_order order_store draft c (br_order_root roots) (br_order_height roots) (br_commitment roots) ms;
  st_markers : zlen ms = seq_markers ps;
  st_occurrences : zlen xs = seq_markers ps
}.

End Together.

(** ** From one context to another, the stores included *)

Record Stores (R : Type) := mkStores {
  sto_nodes : DraftPieceRecordKey -> result (DraftPiecePrepareError R) (option DraftPieceNodeRecord);
  sto_leaves : DraftPieceRecordKey -> result (DraftPiecePrepareError R) (option DraftPieceLeafRecord);
  sto_index : DraftMarkerRecordKey -> result (DraftPiecePrepareError R) (option DraftMarkerIdentityRecord);
  sto_order : DraftMarkerRecordKey -> result (DraftPiecePrepareError R) (option DraftMarkerOrderRecord)
}.
Arguments mkStores {R} _ _ _ _.
Arguments sto_nodes {R} _.
Arguments sto_leaves {R} _.
Arguments sto_index {R} _.
Arguments sto_order {R} _.

Section Reach.
Context {H : Type} `{Sha256Laws H} {G : LeafNames} {R : Type} (draft : list byte).

(** What one context can reach, another can reach too. *)
Record reaches (S : Stores R) (c : MarkerContext) (S' : Stores R) (c' : MarkerContext) : Prop := mkReaches {
  re_pieces : extends (seen (sto_nodes S) (sto_leaves S) draft (mc c)) (seen (sto_nodes S') (sto_leaves S') draft (mc c'));
  re_index : forall k r, mk_draft k = draft -> index_at (sto_index S) c k r -> index_at (sto_index S') c' k r;
  re_order : forall k r, mk_draft k = draft -> order_at (sto_order S) c k r -> order_at (sto_order S') c' k r
}.
Lemma reaches_refl S c : reaches S c S c.
Proof. by split. Qed.
Lemma reaches_trans S c S' c' S'' c'' : reaches S c S' c' -> reaches S' c' S'' c'' -> reaches S c S'' c''.
Proof. intros [[A1 A2] ? ?] [[B1 B2] ? ?]. split; [split; auto|auto|auto]. Qed.
Context (S : Stores R) (c : MarkerContext) (S' : Stores R) (c' : MarkerContext) (Hreach : reaches S c S' c').

Lemma reach_index h root x xs : index_tree (R := R) (sto_index S) draft c h root x xs -> index_tree (R := R) (sto_index S') draft c' h root x xs.
Proof.
  pose proof (re_index _ _ _ _ Hreach) as Hi. revert root x xs. induction h as [|h IH]; intros root x xs; cbn [index_tree].
  - intros (o & (k & E & Ha & Ht) & ->). exists o. split; [|done]. exists k. split; [done|]. split; [by apply Hi|done].
  - intros (cs & xss & (k & E & Ha & Ht) & Hf & ->). exists cs, xss. split; [exists k; split; [done|]; split; [by apply Hi|done]|].
    split; [eapply Forall2_impl; [done|]; intros; by eapply IH|done].
Qed.
Lemma reach_order h root x xs : order_tree (R := R) (sto_order S) draft c h root x xs -> order_tree (R := R) (sto_order S') draft c' h root x xs.
Proof.
  pose proof (re_order _ _ _ _ Hreach) as Ho. revert root x xs. induction h as [|h IH]; intros root x xs; cbn [order_tree].
  - intros ([[i l] a] & (k & E & Ha & Ht) & ->). exists (i, l, a). split; [|done]. exists k. split; [done|]. split; [by apply Ho|done].
  - intros (cs & xss & (k & E & Ha & Ht) & Hf & -> & Hd). exists cs, xss. split; [exists k; split; [done|]; split; [by apply Ho|done]|].
    split; [eapply Forall2_impl; [done|]; intros; by eapply IH|done].
Qed.

Lemma reach_stored_pieces root summary ps : stored_sequence draft (seen (sto_nodes S) (sto_leaves S) draft (mc c)) root summary ps ->
  stored_sequence draft (seen (sto_nodes S') (sto_leaves S') draft (mc c')) root summary ps.
Proof. apply stored_sequence_mono. apply Hreach. Qed.
Lemma reach_stored_index root summary xs : stored_index (sto_index S) draft c root summary xs -> stored_index (sto_index S') draft c' root summary xs.
Proof. destruct root as [id|]; [|done]. intros (h & link & E & Ht & Es). exists h, link. split; [done|]. split; [by apply reach_index|done]. Qed.
Lemma reach_stored_order root height commitment ms : stored_order (sto_order S) draft c root height commitment ms -> stored_order (sto_order S') draft c' root height commitment ms.
Proof. destruct root as [id|]; [|done]. intros (h & link & E & Ht & Es). exists h, link. split; [done|]. split; [by apply reach_order|done]. Qed.
Lemma reach_stored_roots roots ps xs ms : stored_roots (sto_nodes S) (sto_leaves S) (sto_index S) (sto_order S) draft c roots ps xs ms ->
  stored_roots (sto_nodes S') (sto_leaves S') (sto_index S') (sto_order S') draft c' roots ps xs ms.
Proof. intros [? ? ? ? ?]. split; [by apply reach_stored_pieces|by apply reach_stored_index|by apply reach_stored_order|done|done]. Qed.
End Reach.

Section Stored.
Context {H : Type} `{Sha256Laws H} {G : LeafNames} {R : Type}.
Context (node_store : DraftPieceRecordKey -> result (DraftPiecePrepareError R) (option DraftPieceNodeRecord))
        (leaf_store : DraftPieceRecordKey -> result (DraftPiecePrepareError R) (option DraftPieceLeafRecord))
        (index_store : DraftMarkerRecordKey -> result (DraftPiecePrepareError R) (option DraftMarkerIdentityRecord))
        (order_store : DraftMarkerRecordKey -> result (DraftPiecePrepareError R) (option DraftMarkerOrderRecord))
        (draft session operation : list byte).
Abbreviation context_ok := (marker_context_ok node_store leaf_store index_store order_store draft session operation).
Abbreviation index_at := (index_at index_store).
Abbreviation order_at := (order_at order_store).
Abbreviation index_tree := (index_tree (R := R) index_store draft).
Abbreviation order_tree := (order_tree (R := R) order_store draft).
Abbreviation sees c := (seen node_store leaf_store draft (mc c)).
Abbreviation stored_pieces c := (stored_sequence draft (sees c)).
Abbreviation stored_index := (stored_index (R := R) index_store draft).
Abbreviation stored_order := (stored_order (R := R) order_store draft).
Abbreviation stores := (mkStores node_store leaf_store index_store order_store).

(** ** Contexts that keep the trees *)

Record expands (c c' : MarkerContext) : Prop := mkExpands {
  ex_pieces : grown node_store leaf_store draft (mc c) (mc c');
  ex_index : forall k r, index_at c k r -> index_at c' k r;
  ex_order : forall k r, order_at c k r -> order_at c' k r
}.
Lemma expands_refl c : expands c c.
Proof. split; [apply grown_refl|done|done]. Qed.
Lemma expands_trans c c' c'' : expands c c' -> expands c' c'' -> expands c c''.
Proof. intros [? ? ?] [? ? ?]. split; [by eapply grown_trans|auto|auto]. Qed.
Lemma keeps_expands c c' : keeps index_store order_store c c' -> expands c c'.
Proof. intros [Hk Hi Ho]. split; [by apply kept_grown|done|done]. Qed.

Lemma expands_reaches c c' : expands c c' -> reaches draft stores c stores c'.
Proof. intros [[Hs _ _] Hi Ho]. split; [done|cbn; auto|cbn; auto]. Qed.
Lemma expands_index c c' h root x xs : expands c c' -> index_tree c h root x xs -> index_tree c' h root x xs.
Proof. intros He. exact (reach_index draft stores c stores c' (expands_reaches _ _ He) h root x xs). Qed.
Lemma expands_order c c' h root x xs : expands c c' -> order_tree c h root x xs -> order_tree c' h root x xs.
Proof. intros He. exact (reach_order draft stores c stores c' (expands_reaches _ _ He) h root x xs). Qed.
Lemma stored_pieces_mono c c' root summary ps : expands c c' -> stored_pieces c root summary ps -> stored_pieces c' root summary ps.
Proof. intros He. exact (reach_stored_pieces draft stores c stores c' (expands_reaches _ _ He) root summary ps). Qed.
Lemma stored_index_mono c c' root summary xs : expands c c' -> stored_index c root summary xs -> stored_index c' root summary xs.
Proof. intros He. exact (reach_stored_index draft stores c stores c' (expands_reaches _ _ He) root summary xs). Qed.
Lemma stored_order_mono c c' root height commitment ms : expands c c' -> stored_order c root height commitment ms -> stored_order c' root height commitment ms.
Proof. intros He. exact (reach_stored_order draft stores c stores c' (expands_reaches _ _ He) root height commitment ms). Qed.

Lemma stored_index_count c root summary xs : stored_index c root summary xs -> is_count summary = zlen xs.
Proof. destruct root as [id|]; [intros (h & link & _ & Ht & ->)|by intros [-> ->]]. exact (id_count _ _ (index_tree_denotes _ _ _ _ _ _ _ Ht)). Qed.
Lemma order_tree_nonempty c h x ms : order_tree c h true x ms -> 0 < zlen ms.
Proof.
  intros Ht. pose proof (order_tree_denotes _ _ _ _ _ _ _ Ht) as [_ Hm _]. destruct ms as [|m ms]; [done|]. cbn. lia.
Qed.
Lemma stored_order_count c root height commitment ms : stored_order c root height commitment ms -> commitment_count commitment = zlen ms.
Proof. destruct root as [id|]; [intros (h & link & _ & Ht & _ & ->)|by intros (-> & _ & ->)]. exact (od_count _ _ (order_tree_denotes _ _ _ _ _ _ _ Ht)). Qed.

(** ** Lifting piece operations *)

Context (P : Prop) (Hstores : marker_stores_ok node_store leaf_store index_store order_store draft session operation).
Abbreviation ready := (marker_ready node_store leaf_store index_store order_store draft session operation P).
Abbreviation piece_ready := (piece_ready node_store leaf_store draft session operation P).
Abbreviation wp := (mwp (R := R) P).

Lemma pieces_context_ok c p : context_ok c -> framed (R := R) index_store order_store p -> piece_context_ok node_store leaf_store draft session operation p ->
  bc_ordinal (pb (mc c)) <= bc_ordinal (pb p) -> context_ok (with_pieces c p).
Proof.
  intros [X1 X2 X3 X4 X5 X6 X7] Hf Hp Ho. split; cbn; try done.
  - intros a Ea. destruct (Hf a Ea) as (Hw & Hi & Hor). destruct (pc_budget _ _ _ _ _ _ Hp a Ea) as (_ & Hn & Hl). by split.
  - intros o dg kind Hu Hle. apply X5; [done|lia].
Qed.

Lemma mwp_pieces {A} (m : piecem R A) l e c (Q : A -> MarkerContext -> Prop) : frames (R := R) index_store order_store m -> context_ok c ->
  pwp P m (mc c) (fun x p => piece_ready l e p /\ grown node_store leaf_store draft (mc c) p
    /\ (ready l e (with_pieces c p) -> expands c (with_pieces c p) -> Q x (with_pieces c p))) -> wp (in_pieces m) c Q.
Proof.
  intros Hf Hc. unfold pwp, mwp, in_pieces. destruct (m (mc c)) as [[x p]|] eqn:E; [|done]. intros ([Hp Ha] & Hg & HQ).
  assert (Hfr : framed (R := R) index_store order_store (mc c)).
  { intros a Ea. destruct (mx_cached _ _ _ _ _ _ _ _ Hc a Ea) as (Hw & _ & Hi & Ho). by split. }
  destruct (Hf _ _ _ Hfr E) as [Hfr' Hle]. apply HQ; [|by split]. split; [by apply pieces_context_ok|done].
Qed.
Lemma ready_pieces l e c : ready l e c -> piece_ready l e (mc c).
Proof. intros [Hc Ha]. split; [apply Hc|done]. Qed.

(** ** Loading *)

Ltac less Hr := eapply marker_ready_le; [| |exact Hr]; fold Nat.add; lia.

Lemma validate_index_root_Ok c h link k cs : index_node_at (R := R) index_store draft c (S h) true link cs ->
  let r := IdentityInternal k (Z.of_nat (S h)) cs (index_node_digest (Z.of_nat (S h)) cs) in k = mkMarkerKey draft KindInternal (ic_id link) ->
  validate_index_root_record (R := R) r (index_summary_for link (Z.of_nat (S h))) = Ok r.
Proof.
  intros (k' & -> & Ha & Ht & Hx & Hl) r ->. unfold r, validate_index_root_record, index_summary_for.
  cbn [identity_height identity_digest index_record_digest is_height is_count is_root_digest]. rewrite Z.eqb_refl, !bool_decide_true by done. cbn [negb orb].
  rewrite bool_decide_false by (intros ->; cbn in Hl; lia). rewrite (proj2 (Nat.ltb_ge _ _)) by lia. cbn [orb]. rewrite Hx. cbn [or_root mbind result_bind].
  rewrite Z.eqb_refl, bool_decide_true by done. done.
Qed.

Lemma mwp_load_index_root l e c h link xs : ready (S l) e c -> index_tree c (S h) true link xs ->
  wp (load_index_root_record index_store (ic_id link) (index_summary_for link (Z.of_nat (S h)))) c (fun r c' =>
    index_child_for_record (R := R) r = Ok link /\ ready l e c' /\ keeps index_store order_store c c').
Proof.
  intros Hr (cs & xss & Hn & _ & _). pose proof Hn as (k & Ek & Ha & Ht & Hx & Hl). cbv zeta in *.
  pose proof (validate_index_root_Ok c h link k cs Hn Ek) as Hv. cbv zeta in Hv. set (r := IdentityInternal k _ cs _) in *.
  assert (Hid : fixed 16 (ic_id link)) by (destruct Ht as ([_ Hi] & _); by rewrite Ek in Hi).
  apply (mwp_mono P _ _ (after_load node_store leaf_store index_store order_store draft session operation P c l e r)); [|intros r' c' (-> & Hr' & Hk'); by split].
  pose proof Hr as [Hc Hab]. unfold mwp, load_index_root_record. cbn [is_height index_summary_for]. rewrite (marker_draft_is _ _ _ _ _ _ _ _ Hc).
  replace (kind_of (Z.of_nat (S h))) with KindInternal by done. set (key := mkMarkerKey _ _ _) in *. fold key in Ek. destruct Ha as [Hs|[Hp Hs]].
  { rewrite Hs. cbn. rewrite Hv. by apply hit_loaded. }
  rewrite Hp. destruct (mc_loaded_index c !! key) as [r'|] eqn:El.
  { pose proof (mx_loaded_index _ _ _ _ _ _ _ _ Hc _ _ El). assert (r' = r) as -> by congruence. cbn. rewrite Hv. by apply hit_loaded. }
  match goal with |- match ?m c with _ => _ end => change (wp m c (after_load node_store leaf_store index_store order_store draft session operation P c l e r)) end.
  assert (Hk : marker_key_typed key) by (by eapply marker_key_ok).
  eapply (mwp_read _ _ _ _ _ _ _ _ index_store key c l e r (fun record => if negb (bool_decide (identity_key record = key)) then fail_marker InvalidRoot
    else record ← lift_marker (validate_index_root_record record _); _ ← remember_index key record; mret record)); try done.
  - intros a o' a' Hca. by apply point_index.
  - intros a n Hca. by eapply point_index_progress.
  - intros c1 [Hc1 Ha1] Hk1 [b ->]. rewrite bool_decide_true by (exact Ek). cbn [negb]. apply mwp_bind. eapply mwp_lift; [exact Hv|]. split; [done|]. split.
    + split; [by apply remember_index_ok|done].
    + eapply keeps_trans; [exact Hk1|]. by split.
Qed.

Lemma mwp_load_working_index l e c root summary xs : ready (S l) e c -> stored_index c root summary xs ->
  wp (load_working_index index_store root summary) c (fun t c' => root_tree index_tree c' t xs /\ Z.of_nat (tree_height t) = is_height summary
    /\ ready l e c' /\ keeps index_store order_store c c').
Proof.
  intros Hr Hs. destruct root as [id|]; cbn [load_working_index].
  - destruct Hs as (h & link & <- & Ht & ->). apply mwp_bind. eapply mwp_mono; [by eapply mwp_load_index_root|]. intros r c' (Hx & Hr' & Hk').
    apply mwp_bind. eapply mwp_lift; [done|]. apply mwp_ret. split; [split; [done|]; exists h; split; [done|by eapply (index_tree_mono _ _ _ c)]|]. split; [cbn; lia|done].
  - destruct Hs as [-> ->]. cbn. rewrite bool_decide_true by done. cbn. split; [done|]. split; [done|]. split; [less Hr|apply keeps_refl].
Qed.

Lemma mwp_marker_order_root l e c root height commitment ms : ready (S l) e c -> stored_order c root height commitment ms ->
  wp (marker_order_root order_store root height commitment) c (fun t c' => root_tree order_tree c' t ms /\ Z.of_nat (tree_height t) = height
    /\ ready l e c' /\ keeps index_store order_store c c').
Proof.
  intros Hr Hs. unfold marker_order_root. rewrite (stored_order_count _ _ _ _ _ Hs). destruct root as [id|].
  - destruct Hs as (h & link & <- & Ht & -> & ->). pose proof (order_tree_nonempty _ _ _ _ Ht). rewrite (proj2 (Z.eqb_neq _ 0)) by lia.
    assert (E : new_order_child (mo_id link) (mo_digest link) (mo_count link) (Some (mo_maximum link)) = Some link).
    { unfold new_order_child. rewrite (od_count _ _ (order_tree_denotes _ _ _ _ _ _ _ Ht)), (proj2 (Z.eqb_neq _ 0)) by lia.
      destruct link. f_equal. f_equal. symmetry. apply (od_count _ _ (order_tree_denotes _ _ _ _ _ _ _ Ht)). }
    apply mwp_bind. eapply mwp_lift; [done|]. apply mwp_bind. cbn [commitment_for tree_root_digest commitment_maximum].
    rewrite (od_count _ _ (order_tree_denotes _ _ _ _ _ _ _ Ht)) in E. eapply mwp_lift; [by rewrite E|]. cbv zeta. rewrite (proj2 (Z.eqb_neq _ 0)) by lia.
    apply mwp_bind. eapply mwp_mono; [by eapply (mwp_order_node _ _ _ _ _ _ _ _ Hstores l)|]. intros r c' (cs & xss & _ & _ & _ & _ & Hr' & Hk'). apply mwp_ret.
    split; [split; [done|]; exists h; split; [done|by eapply (order_tree_mono _ _ _ c)]|]. split; [cbn; lia|done].
  - destruct Hs as (-> & -> & ->). cbn. rewrite bool_decide_true by done. cbn.
    split; [done|]. split; [done|]. split; [less Hr|apply keeps_refl].
Qed.

(** What [load_working_roots] gives. *)
Definition trees (c : MarkerContext) (sequence : option SequenceRef) (index : option IndexRef) (order : option MarkerOrderRef)
    (ps : list piece) (xs : list occurrence) (ms : list order_marker) : Prop :=
  (sequence_tree draft (sees c) sequence ps /\ rooted sequence) /\ root_tree index_tree c index xs /\ root_tree order_tree c order ms.

Lemma mwp_load_working_roots l e c roots ps xs ms : ready (3 + l) e c -> stored_roots node_store leaf_store index_store order_store draft c roots ps xs ms ->
  wp (load_working_roots node_store index_store order_store roots) c (fun '(sequence, index, order) c' =>
    trees c' sequence index order ps xs ms /\ (Z.of_nat (height_of sequence) = sm_height (br_sequence_summary roots) /\ c_id ∘ sr_link <$> sequence = br_sequence_root roots)
    /\ Z.of_nat (tree_height index) = is_height (br_index_summary roots) /\ Z.of_nat (tree_height order) = br_order_height roots
    /\ ready l e c' /\ expands c c').
Proof.
  intros Hr [S1 S2 S3 Em Ex]. unfold load_working_roots. apply mwp_bind.
  eapply (mwp_pieces _ (2 + l) e); [eapply frames_load_working; exact Hstores|apply Hr|].
  eapply pwp_mono; [eapply (pwp_load_sequence _ _ _ _ _ _ (ms_pieces _ _ _ _ _ _ _ Hstores) (2 + l) e); [by apply ready_pieces|done]|].
  intros t p (Ht & Hroot & [Hh Hid] & Hrp & Hkp). split; [done|]. split; [by apply kept_grown|]. intros Hr1 He1. set (c1 := with_pieces c p) in *. apply mwp_bind.
  eapply mwp_mono; [eapply (mwp_load_working_index (1 + l)); [done|by eapply stored_index_mono]|]. intros ti c2 (Hti & Hhi & Hr2 & Hk2).
  pose proof (keeps_expands _ _ Hk2) as He2. apply mwp_bind.
  eapply mwp_mono; [eapply (mwp_marker_order_root l); [done|eapply stored_order_mono; [|done]; by eapply expands_trans]|]. intros to c3 (Hto & Hho & Hr3 & Hk3).
  pose proof (keeps_expands _ _ Hk3) as He3.
  rewrite (stored_order_count _ _ _ _ _ S3), (stored_index_count _ _ _ _ S2), (proj2 (proj2 (proj2 (proj2 (stored_sequence_counts _ _ _ _ _ S1))))), Em, Ex, Z.eqb_refl.
  cbn [negb orb]. apply mwp_ret. assert (He : expands c c3) by (eapply expands_trans; [exact He1|]; by eapply expands_trans).
  split; [|done]. split; [|split; [|done]].
  - split; [|done]. destruct t as [t|]; [|done]. destruct Ht as (E1 & h & E2 & Ht). split; [done|]. exists h. split; [done|]. eapply piece_tree_mono; [|exact Ht]. apply He.
  - destruct ti as [ti|]; [|done]. destruct Hti as (E1 & h & E2 & Hti). split; [done|]. exists h. split; [done|]. exact (expands_index _ _ _ _ _ _ He3 Hti).
Qed.

(** ** Building *)

Lemma describe_index c t xs : root_tree index_tree c t xs -> let d := identity_descriptor t in
  stored_index c (idd_root d) (idd_summary d) xs /\ is_height (idd_summary d) = Z.of_nat (tree_height t).
Proof.
  destruct t as [t|]; [|by intros ->]. intros (_ & h & E & Ht). cbn [identity_descriptor idd_root idd_summary stored_index is_height]. rewrite E.
  split; [by exists h, (tr_link t)|]. cbn. lia.
Qed.
Lemma describe_order c t ms : root_tree order_tree c t ms -> exists root commitment,
  order_descriptor (R := R) t = Ok (root, Z.of_nat (tree_height t), commitment) /\ stored_order c root (Z.of_nat (tree_height t)) commitment ms.
Proof.
  destruct t as [t|]; [|intros ->; by exists None, canonical_empty_draft_marker_commitment]. intros (_ & h & E & Ht). pose proof (order_tree_nonempty _ _ _ _ Ht).
  exists (Some (mo_id (tr_link t))), (commitment_for (tr_link t)). cbn [order_descriptor tree_height from_option]. rewrite E, Nat2Z.id. split; [|by exists h, (tr_link t)].
  unfold new_commitment. rewrite (od_count _ _ (order_tree_denotes _ _ _ _ _ _ _ Ht)), (proj2 (Z.eqb_neq _ 0)), bool_decide_false by (done || lia). cbn [Bool.eqb negb].
  unfold commitment_for. by rewrite (od_count _ _ (order_tree_denotes _ _ _ _ _ _ _ Ht)).
Qed.

Lemma mwp_build_pieces l e c t ps : ready (height_of t + l) (S e) c -> sequence_tree draft (sees c) t ps ->
  wp (in_pieces (build_sequence_root node_store t)) c (fun '(root, summary) c' => stored_pieces c' root summary ps
    /\ sm_height summary <= Z.max 1 (Z.of_nat (height_of t)) /\ ready l e c' /\ expands c c').
Proof.
  intros Hr Ht. eapply (mwp_pieces _ l e); [eapply frames_build_root; exact Hstores|apply Hr|].
  eapply pwp_mono; [eapply (pwp_build_sequence _ _ _ _ _ _ (ms_pieces _ _ _ _ _ _ _ Hstores) l e); [by apply ready_pieces|done]|].
  intros [root summary] p (Hs & Hh & Hrp & Hgp). done.
Qed.

Lemma mwp_build_roots l e c sequence index order ps xs ms : ready (height_of sequence + (tree_height index + (tree_height order + l))) (S e) c ->
  trees c sequence index order ps xs ms -> zlen ms = seq_markers ps -> zlen xs = seq_markers ps ->
  wp (build_roots node_store index_store order_store sequence index order) c (fun roots c' => stored_roots node_store leaf_store index_store order_store draft c' roots ps xs ms /\ ready l e c' /\ expands c c').
Proof.
  intros Hr ([Ht _] & Hti & Hto) Em Ex. unfold build_roots. apply mwp_bind. eapply mwp_mono; [eapply (mwp_build_pieces (tree_height index + (tree_height order + l)) e); [exact Hr|done]|].
  intros [root summary] c1 (Hs & _ & Hr1 & He1). apply mwp_bind.
  eapply mwp_mono; [eapply (mwp_compress_index _ _ _ _ _ _ _ P Hstores (tree_height order + l) e c1); [exact Hr1|destruct index as [t|]; [|exact Hti]]|].
  { destruct Hti as (E1 & h & E2 & Hti). split; [done|]. exists h. split; [done|]. exact (expands_index _ _ _ _ _ _ He1 Hti). }
  intros ti c2 (Hti' & _ & Hr2 & Hk2). pose proof (keeps_expands _ _ Hk2) as He2. apply mwp_bind.
  eapply mwp_mono; [eapply (mwp_compress_order _ _ _ _ _ _ _ P Hstores l e c2); [exact Hr2|destruct order as [t|]; [|exact Hto]]|].
  { destruct Hto as (E1 & h & E2 & Hto). split; [done|]. exists h. split; [done|]. refine (expands_order _ _ _ _ _ _ _ Hto). by eapply expands_trans. }
  intros to c3 (Hto' & _ & Hr3 & Hk3). pose proof (keeps_expands _ _ Hk3) as He3. destruct (describe_index _ _ _ Hti') as [Hsi _]. destruct (describe_order _ _ _ Hto') as (oroot & comm & E & Hso).
  cbv zeta. apply mwp_bind. eapply mwp_lift; [exact E|]. cbv beta iota.
  rewrite (stored_order_count _ _ _ _ _ Hso), (stored_index_count _ _ _ _ Hsi), (proj2 (proj2 (proj2 (proj2 (stored_sequence_counts _ _ _ _ _ Hs))))), Em, Ex, Z.eqb_refl. cbn [negb orb].
  apply mwp_ret. assert (He : expands c1 c3) by (by eapply expands_trans). split; [|split; [done|by eapply expands_trans]].
  split; cbn; try done; [exact (stored_pieces_mono _ _ _ _ _ He Hs)|exact (stored_index_mono _ _ _ _ _ He3 Hsi)].
Qed.
End Stored.

