(* ===== verification/DraftAgree.v ===== *)
(** * The roots of a draft build: the three trees agree

    The tree of pieces has the markers between the texts, the tree of the order has them as a
    list, the index has an occurrence of each.  [agree] says that the three are of one draft, and
    is kept when a marker leaves or enters all three; [indexed] says which leaf of the tree of
    pieces a marker stands in: the one its occurrence names. *)
From stdpp Require Import prelude gmap strings.
From Stdlib Require Import Sorting.Sorted.
From S2P Require Import Prelude.
From S2P Require Import Bytes.
From S2P Require Import ModelDigest.
From S2P Require Import SyndicParts.
From S2P Require Import BuildBudget.
From S2P Require Import MappingModel.
From S2P Require Import PieceModel.
From S2P Require Import PieceCodec.
From S2P Require Import PieceTree.
From S2P Require Import PieceDenote.
From S2P Require Import PieceSequence.
From S2P Require Import PieceEdit.
From S2P Require Import PieceRemove.
From S2P Require Import MarkerModel.
From S2P Require Import MarkerTree.
From S2P Require Import MarkerDenote.
From S2P Require Import MarkerIndex.
From S2P Require Import DraftRoots.

(** ** Markers of a sequence *)

Definition piece_marker_of (v : piece) : option DraftPieceMarker := match v with LeafText _ => None | LeafMarker m => Some m end.
Definition markers (ps : list piece) : list DraftPieceMarker := omap piece_marker_of ps.
Definition order_entry (m : DraftPieceMarker) : order_marker := (pm_id m, pm_label m, pm_asset m).

Lemma markers_app ps qs : markers (ps ++ qs) = markers ps ++ markers qs.
Proof. apply omap_app. Qed.
Lemma markers_length ps : zlen (markers ps) = seq_markers ps.
Proof. induction ps as [|[t|m] ps IH]; [done| |]; rewrite sum_of_cons; cbn; unfold markers in IH; rewrite <- IH; lia. Qed.

(** The markers on both sides of one of them. *)
Lemma markers_at ps k m : ps !! k = Some (LeafMarker m) -> markers ps = markers (take k ps) ++ m :: markers (drop (S k) ps).
Proof. intros E. rewrite <- (take_drop_middle _ _ _ E) at 1. by rewrite markers_app. Qed.
Lemma markers_without ps k : markers (take k ps ++ drop (S k) ps) = markers (take k ps) ++ markers (drop (S k) ps).
Proof. apply markers_app. Qed.

(** The markers before a boundary and behind it. *)
Definition markers_before (b : Boundary) (ps : list piece) : list DraftPieceMarker := markers (take (Z.to_nat (b_rank b)) ps).
Definition markers_behind (b : Boundary) (ps : list piece) : list DraftPieceMarker := markers (drop (Z.to_nat (b_rank b)) ps).
Lemma markers_around b ps : markers ps = markers_before b ps ++ markers_behind b ps.
Proof. unfold markers_before, markers_behind. by rewrite <- markers_app, take_drop. Qed.
Lemma markers_insert b m ps : boundary_in b ps -> markers (insert_pieces b (LeafMarker m) ps) = markers_before b ps ++ m :: markers_behind b ps.
Proof.
  unfold insert_pieces, markers_before, markers_behind. intros [[E _]|(t & _ & E & Hi & _)].
  - rewrite E. cbn [Z.eqb]. by rewrite markers_app.
  - rewrite (proj2 (Z.eqb_neq _ 0)), E by lia. rewrite !markers_app. cbn [markers omap list_omap piece_marker_of]. by rewrite (drop_S _ _ _ E).
Qed.

(** Taking a marker out leaves the others in order. *)
Lemma ordered_without ps k m : ordered ps -> ps !! k = Some (LeafMarker m) -> ordered (take k ps ++ drop (S k) ps).
Proof.
  intros Ho E. rewrite <- (take_drop_middle _ _ _ E) in Ho. apply ordered_app in Ho as (O1 & O2 & J1).
  change (LeafMarker m :: drop (S k) ps) with ([LeafMarker m] ++ drop (S k) ps) in O2. apply ordered_app in O2 as (_ & O2 & J2).
  apply ordered_app. split; [done|]. split; [done|]. intros a b Ha Hb. specialize (J1 a (LeafMarker m) Ha eq_refl). specialize (J2 (LeafMarker m) b eq_refl Hb).
  destruct a as [ta|ma], b as [tb|mb]; cbn in *; try done. lia.
Qed.

(** What goes does not change the texts. *)
Lemma without_totals ps k m : ps !! k = Some (LeafMarker m) -> let qs := take k ps ++ drop (S k) ps in
  seq_bytes qs = seq_bytes ps /\ seq_newlines qs = seq_newlines ps /\ seq_lines qs = seq_lines ps /\ seq_markers qs = seq_markers ps - 1 /\ zlen qs = zlen ps - 1.
Proof.
  intros E qs. apply take_drop_middle in E. unfold qs. clear qs. set (pre := take k ps) in *. set (post := drop (S k) ps) in *. clearbody pre post. subst ps.
  unfold seq_lines. rewrite !sum_of_app, !sum_of_cons, !length_app. cbn [piece_bytes piece_newlines piece_markers length].
  rewrite !Z.add_0_l. split; [done|]. split; [done|]. split; [done|]. lia.
Qed.
(** Nor does what comes. *)
Lemma marker_totals b m ps : boundary_in b ps -> let qs := insert_pieces b (LeafMarker m) ps in
  seq_bytes qs = seq_bytes ps /\ seq_newlines qs = seq_newlines ps /\ seq_lines qs = seq_lines ps /\ seq_markers qs = seq_markers ps + 1
  /\ zlen qs = zlen ps + 1 + (if b_inner b =? 0 then 0 else 1).
Proof.
  intros Hb qs. assert (Hs : seq_bytes qs = seq_bytes ps /\ seq_newlines qs = seq_newlines ps /\ seq_markers qs = seq_markers ps + 1 /\ zlen qs = zlen ps + 1 + (if b_inner b =? 0 then 0 else 1)).
  { unfold qs, insert_pieces. destruct Hb as [[E Hr]|(t & _ & E & Hi & _)].
    - rewrite E. cbn [Z.eqb]. pose proof (take_drop (Z.to_nat (b_rank b)) ps) as Eps. set (pre := take _ ps) in *. set (post := drop _ ps) in *. clearbody pre post. clear Hr qs. subst ps.
      rewrite !sum_of_app, !sum_of_cons, !length_app. cbn [piece_bytes piece_newlines piece_markers length]. lia.
    - rewrite (proj2 (Z.eqb_neq _ 0)), E by lia. apply take_drop_middle in E. set (pre := take _ ps) in *. set (post := drop _ ps) in *. clearbody pre post. clear qs. subst ps.
      rewrite !sum_of_app, !sum_of_cons, !sum_of_nil, !length_app. cbn [piece_bytes piece_newlines piece_markers length].
      pose proof (count_newlines_app (take (Z.to_nat (b_inner b)) t) (drop (Z.to_nat (b_inner b)) t)) as En. rewrite take_drop in En. rewrite length_take, length_drop, En. lia. }
  destruct Hs as (S1 & S2 & S3 & S4). split; [done|]. split; [done|]. split; [unfold seq_lines; by rewrite S1, S2|done].
Qed.

Section Agree.
Context {H : Type} `{Sha256 H}.

(** An occurrence of a marker; its digest is that of the marker's leaf.  The identity it gives to
    that leaf is the subject of [indexed]. *)
Record occurs (o : occurrence) (m : DraftPieceMarker) : Prop := mkOccurs {
  oc_id_is : oc_marker_id o = pm_id m;
  oc_label_is : oc_label o = pm_label m;
  oc_asset_is : oc_asset_id o = pm_asset m;
  oc_order_is : oc_order_key o = pm_order m;
  oc_digest_is : oc_leaf_digest o = piece_marker_digest m PieceModel.empty_summary
}.

Record agree (ps : list piece) (xs : list occurrence) (ms : list order_marker) : Prop := mkAgree {
  ag_order : ms = order_entry <$> markers ps;
  ag_index : exists os, os ≡ₚ xs /\ Forall2 occurs os (markers ps)
}.

Lemma agree_counts ps xs ms : agree ps xs ms -> zlen ms = seq_markers ps /\ zlen xs = seq_markers ps.
Proof.
  intros [-> (os & Hp & Hf)]. rewrite length_fmap, <- markers_length. split; [done|]. by rewrite <- (Permutation_length Hp), (Forall2_length _ _ _ Hf).
Qed.

(** No identity is there twice. *)
Lemma sorted_ids xs : StronglySorted before xs -> NoDup (oc_marker_id <$> xs).
Proof.
  induction 1 as [|x xs Hs IH Hf]; cbn; constructor; [|done]. rewrite list_elem_of_fmap. intros (y & E & Hy). eapply Forall_forall in Hf; [|exact Hy]. by apply before_ids in Hf.
Qed.
Lemma agree_ids ps xs ms : agree ps xs ms -> StronglySorted before xs -> NoDup (pm_id <$> markers ps).
Proof.
  intros [_ (os & Hp & Hf)] Hs. apply sorted_ids in Hs. rewrite <- (fmap_Permutation _ _ _ Hp) in Hs.
  assert (E : oc_marker_id <$> os = pm_id <$> markers ps); [|by rewrite <- E]. clear - Hf. induction Hf as [|o m os ms Ho Hf IH]; [done|]. rewrite !fmap_cons. f_equal; [by destruct Ho|done].
Qed.

(** The same cut of a list without duplicates. *)
Lemma nodup_cut {A} (l1 l2 r1 r2 : list A) x : NoDup (l1 ++ x :: r1) -> l1 ++ x :: r1 = l2 ++ x :: r2 -> l1 = l2 /\ r1 = r2.
Proof.
  revert l2. induction l1 as [|y l1 IH]; intros [|z l2] Hn E; cbn in *.
  - injection E as ->. done.
  - injection E as <- ->. apply NoDup_cons in Hn as [Hx _]. exfalso. apply Hx, elem_of_app. right. apply list_elem_of_here.
  - injection E as -> <-. apply NoDup_cons in Hn as [Hx _]. exfalso. apply Hx, elem_of_app. right. apply list_elem_of_here.
  - injection E as <- E. apply NoDup_cons in Hn as [_ Hn]. destruct (IH l2 Hn E) as [-> ->]. done.
Qed.

Lemma agree_removed ps k m xs ls o rs ms ls' rs' : agree ps xs ms -> StronglySorted before xs -> ps !! k = Some (LeafMarker m) -> oc_marker_id o = pm_id m ->
  xs = ls ++ o :: rs -> ms = ls' ++ order_entry m :: rs' -> agree (take k ps ++ drop (S k) ps) (ls ++ rs) (ls' ++ rs') /\ ls' = order_entry <$> markers (take k ps).
Proof.
  intros Ha Hs Ek Eo -> Em. pose proof (agree_ids _ _ _ Ha Hs) as Hn. destruct Ha as [Eord (os & Hp & Hf)].
  rewrite (markers_at _ _ _ Ek) in Hn, Hf, Eord. rewrite Em, fmap_app, fmap_cons in Eord.
  assert (Hn' : NoDup ((order_entry <$> markers (take k ps)) ++ order_entry m :: (order_entry <$> markers (drop (S k) ps)))).
  { rewrite <- fmap_cons, <- fmap_app. apply (NoDup_fmap_1 (fun e : order_marker => e.1.1)). rewrite <- list_fmap_compose. exact Hn. }
  symmetry in Eord. destruct (nodup_cut _ _ _ _ _ Hn' Eord) as [<- <-]. split; [|done]. split; [by rewrite markers_without, fmap_app|].
  apply Forall2_app_inv_r in Hf as (os1 & os' & H1' & H2' & ->). apply Forall2_cons_inv_r in H2' as (o' & os2 & Ho' & H2' & ->).
  assert (o' = o) as ->.
  { apply sorted_ids in Hs. assert (Ho : o' ∈ ls ++ o :: rs) by (rewrite <- Hp; apply elem_of_app; right; apply list_elem_of_here).
    apply elem_of_app in Ho as [Ho|[->|Ho]%elem_of_cons]; [|done|]; exfalso; rewrite fmap_app, fmap_cons in Hs; apply NoDup_app in Hs as (_ & Hd & Hs).
    - apply (Hd (oc_marker_id o')); [by apply list_elem_of_fmap_2|]. rewrite (oc_id_is _ _ Ho'), <- Eo. apply list_elem_of_here.
    - apply NoDup_cons in Hs as [Hx _]. apply Hx. rewrite Eo, <- (oc_id_is _ _ Ho'). by apply list_elem_of_fmap_2. }
  exists (os1 ++ os2). rewrite markers_without. split; [|by apply Forall2_app]. apply (Permutation_cons_inv (a := o)). by rewrite !Permutation_middle.
Qed.

(** The leaves an index names: a marker stands under the identity its occurrence gives. *)
Definition indexed (xs : list occurrence) : LeafNames := fun m id => exists o, o ∈ xs /\ occurs o m /\ oc_leaf_id o = id.

Lemma indexed_removed ps k m xs ms ls o rs : agree ps xs ms -> StronglySorted before xs -> ps !! k = Some (LeafMarker m) -> oc_marker_id o = pm_id m ->
  xs = ls ++ o :: rs -> forall m' id, LeafMarker m' ∈ take k ps ++ drop (S k) ps -> indexed xs m' id -> indexed (ls ++ rs) m' id.
Proof.
  intros Ha Hs Ek Eo -> m' id Hm' (x & Hx & Hxm & Ex). exists x. split; [|done]. pose proof (agree_ids _ _ _ Ha Hs) as Hn. rewrite (markers_at _ _ _ Ek), fmap_app, fmap_cons in Hn.
  apply elem_of_app in Hx as [Hx|[->|Hx]%elem_of_cons]; [apply elem_of_app; by left| |apply elem_of_app; by right]. exfalso.
  assert (Hin : pm_id m ∈ pm_id <$> (markers (take k ps) ++ markers (drop (S k) ps))).
  { rewrite <- Eo, (oc_id_is _ _ Hxm). apply list_elem_of_fmap_2. rewrite <- markers_app. unfold markers. apply list_elem_of_omap. by exists (LeafMarker m'). }
  apply NoDup_app in Hn as (_ & Hd & Hn). apply NoDup_cons in Hn as [Hn _]. rewrite fmap_app in Hin. apply elem_of_app in Hin as [Hin|Hin]; [|done].
  apply (Hd _ Hin), list_elem_of_here.
Qed.

Lemma agree_inserted b m ps xs ys o ms ls rs : agree ps xs ms -> boundary_in b ps -> inserted o xs ys -> occurs o m -> ms = ls ++ rs -> zlen ls = zlen (markers_before b ps) ->
  agree (insert_pieces b (LeafMarker m) ps) ys (ls ++ order_entry m :: rs).
Proof.
  intros [Eord (os & Hp & Hf)] Hb Hin Ho -> El. rewrite (markers_around b) in Eord, Hf. rewrite fmap_app in Eord.
  assert (ls = order_entry <$> markers_before b ps /\ rs = order_entry <$> markers_behind b ps) as [-> ->].
  { apply app_inj_1 in Eord; [done|]. rewrite length_fmap. lia. }
  split; [by rewrite markers_insert, fmap_app by done|]. rewrite markers_insert by done. apply Forall2_app_inv_r in Hf as (os1 & os2 & H1' & H2' & ->).
  exists (os1 ++ o :: os2). split; [|apply Forall2_app; [done|by constructor]]. rewrite <- Permutation_middle, Hp. destruct Hin as (l & r & -> & -> & _). by rewrite Permutation_middle.
Qed.
End Agree.
