(* ===== verification/DraftSurgery.v ===== *)
(** * The surgery of a marker effect does what it says

    Every arm of [surgery] on its own: what it returns for the pieces, the index and the order it
    starts from, and that it fails only if the resources [P] do not suffice or the marker is not
    where the effect says, which [P] is to rule out. *)
From stdpp Require Import prelude gmap strings.
From Stdlib Require Import Sorting.Sorted.
From S2P Require Import Prelude.
From S2P Require Import Bytes.
From S2P Require Import ModelDigest.
From S2P Require Import SyndicParts.
From S2P Require Import BuildBudget.
From S2P Require Import MappingModel.
From S2P Require Import MappingEdit.
From S2P Require Import MappingProgram.
From S2P Require Import PieceModel.
From S2P Require Import PieceCodec.
From S2P Require Import PieceTree.
From S2P Require Import PieceDenote.
From S2P Require Import PieceSequence.
From S2P Require Import PieceEdit.
From S2P Require Import PieceRemove.
From S2P Require Import PieceRoots.
From S2P Require Import TextSplice.
From S2P Require Import MarkerModel.
From S2P Require Import MarkerCodec.
From S2P Require Import MarkerTree.
From S2P Require Import MarkerBalance.
From S2P Require Import MarkerDenote.
From S2P Require Import MarkerEdit.
From S2P Require Import MarkerIndex.
From S2P Require Import MarkerOrder.
From S2P Require Import DraftRoots.
From S2P Require Import DraftFrame.
From S2P Require Import DraftStored.
From S2P Require Import DraftAgree.

(** The pieces without the one at a rank. *)
Definition without (rank : Z) (ps : list piece) : list piece := take (Z.to_nat rank) ps ++ drop (S (Z.to_nat rank)) ps.

Section Surgery.
Context {H : Type} `{Sha256Laws H} {G : LeafNames} {R : Type}.
Context (node_store : DraftPieceRecordKey -> result (DraftPiecePrepareError R) (option DraftPieceNodeRecord))
        (leaf_store : DraftPieceRecordKey -> result (DraftPiecePrepareError R) (option DraftPieceLeafRecord))
        (index_store : DraftMarkerRecordKey -> result (DraftPiecePrepareError R) (option DraftMarkerIdentityRecord))
        (order_store : DraftMarkerRecordKey -> result (DraftPiecePrepareError R) (option DraftMarkerOrderRecord))
        (draft session operation : list byte) (P : Prop)
        (Hstores : marker_stores_ok node_store leaf_store index_store order_store draft session operation).
Abbreviation ready := (marker_ready node_store leaf_store index_store order_store draft session operation P).
Abbreviation wp := (mwp (R := R) P).
Abbreviation sees c := (seen node_store leaf_store draft (mc c)).
Abbreviation expands := (expands node_store leaf_store index_store order_store draft).
Abbreviation stored_pieces c := (stored_sequence draft (sees c)).
Abbreviation stored_index := (stored_index (R := R) index_store draft).
Abbreviation stored_order := (stored_order (R := R) order_store draft).
Abbreviation stored_roots := (stored_roots node_store leaf_store index_store order_store draft).
Abbreviation index_root := (root_tree (index_tree (R := R) index_store draft)).
Abbreviation order_root := (root_tree (order_tree (R := R) order_store draft)).
Abbreviation Hpieces := (ms_pieces _ _ _ _ _ _ _ Hstores).

Ltac less Hr := eapply marker_ready_le; [| |exact Hr]; fold Nat.add; lia.

(** ** Leaves *)

Lemma leaves_at T h : forall link rs, leaves_of draft T h link rs -> Forall (fun r => exists x, leaf_at draft T x r) rs.
Proof.
  induction h as [|h IH]; intros link rs; cbn [leaves_of].
  - intros (r & Hr & ->). constructor; [by exists link|constructor].
  - intros (root & n & rss & _ & Hf & ->). apply Forall_concat. induction Hf as [|q x rss cs Hq Hf IHf]; constructor; [by eapply IH|done].
Qed.

(** A leaf that matches an occurrence has a marker of which it is one. *)
Lemma matches_occurs T x r o : leaf_at draft T x r -> occurrence_matches r o = true -> exists m, lr_value r = LeafMarker m /\ occurs o m.
Proof.
  intros (_ & _ & [_ [E1 E2]] & _). unfold occurrence_matches. destruct (lr_value r) as [t|m] eqn:Ev; [done|]. rewrite !andb_true_iff, !bool_decide_eq_true, !Z.eqb_eq.
  intros [[[[[M1 M2] M3] M4] _] M6]. exists m. split; [done|]. split; try done. by rewrite <- M6, E2, E1.
Qed.

(** The leaf at a rank of a tree matches. *)
Definition leaf_matches (c : MarkerContext) (t : SequenceRef) (rank : Z) (o : occurrence) : Prop :=
  exists r, (exists rs, leaves_of draft (sees c) (height_of (Some t)) (sr_link t) rs /\ rs !! Z.to_nat rank = Some r) /\ occurrence_matches r o = true.

Lemma leaf_matches_marker c t ps rank o : sequence_tree draft (sees c) (Some t) ps -> leaf_matches c t rank o ->
  exists m, ps !! Z.to_nat rank = Some (LeafMarker m) /\ occurs o m.
Proof.
  intros (_ & h & Eh & Ht) (r & (rs & Hl & Er) & Hm). cbn [height_of from_option] in Hl. rewrite Eh, Nat2Z.id in Hl.
  pose proof (leaves_values _ _ _ _ _ _ _ (sees_functional _ _ _ _) Ht Hl) as ->. pose proof (leaves_at _ _ _ _ Hl) as Hf. eapply Forall_lookup in Hf as [x Hx]; [|exact Er].
  destruct (matches_occurs _ _ _ _ Hx Hm) as (m & Ev & Ho). exists m. split; [|done]. by rewrite list_lookup_fmap, Er, <- Ev.
Qed.

(** ** Descriptors *)

Lemma mwp_sequence_descriptor l e c t ps : ready (height_of t + l) (S e) c -> sequence_tree draft (sees c) t ps ->
  wp (sequence_descriptor node_store t) c (fun d c' => stored_pieces c' (sd_root d) (sd_summary d) ps /\ ready l e c' /\ expands c c').
Proof.
  intros Hr Ht. unfold sequence_descriptor. apply mwp_bind. eapply mwp_mono; [by eapply (mwp_build_pieces _ _ _ _ _ _ _ P Hstores l e)|].
  intros [root summary] c' (Hs & _ & Hr' & He). by apply mwp_ret.
Qed.

Lemma mwp_target_roots l e c sequence identity order ps xs ms : ready (tree_height order + (3 + l)) e c -> stored_pieces c (sd_root sequence) (sd_summary sequence) ps ->
  stored_index c (idd_root identity) (idd_summary identity) xs -> order_root c order ms -> zlen ms = seq_markers ps -> zlen xs = seq_markers ps ->
  wp (target_roots node_store index_store order_store sequence identity order) c (fun roots c' => stored_roots c' roots ps xs ms
    /\ br_sequence_summary roots = sd_summary sequence /\ br_index_summary roots = idd_summary identity /\ ready l e c' /\ expands c c').
Proof.
  intros Hr Hs Hi Ho Em Ex. unfold target_roots. apply mwp_bind. eapply mwp_mono; [by eapply (mwp_compress_order _ _ _ _ _ _ _ P Hstores (3 + l) e)|].
  intros to c1 (Hto & _ & Hr1 & Hk1). pose proof (keeps_expands node_store leaf_store index_store order_store draft _ _ Hk1) as He1.
  destruct (describe_order _ _ _ _ _ Hto) as (oroot & comm & E & Hso). apply mwp_bind. eapply mwp_lift; [exact E|]. cbv beta iota zeta. set (roots := mkBuildRoots _ _ _ _ _ _ _).
  assert (Hroots : stored_roots c1 roots ps xs ms) by (split; cbn; try done; [by eapply stored_pieces_mono|by eapply stored_index_mono]).
  apply mwp_bind. eapply mwp_mono; [by eapply (mwp_load_working_roots _ _ _ _ _ _ _ P Hstores l e)|]. intros [[ts ti] to'] c2 (_ & _ & _ & _ & Hr2 & He2).
  apply mwp_ret. split; [exact (reach_stored_roots _ _ _ _ _ (expands_reaches _ _ _ _ _ _ _ He2) _ _ _ _ Hroots)|]. do 3 (split; [done|]). by eapply expands_trans.
Qed.

(** ** The map *)

Definition map_ready (c : MarkerContext) (kind : DraftPieceMappingSpliceKind) (units : Z) (m : DraftPieceBuildMapping) (r : DraftPieceMappingReadySplice) : Prop :=
  bc_mapping (pb (mc c)) = Some m /\ mapping_stage m = Stage.Ready r /\ rs_kind r = kind /\ m_target (root_measure (rs_target r)) = units.
(** The map of a finished splice is installed. *)
Definition map_installed (c c' : MarkerContext) (stage : Stage.t) (m : DraftPieceBuildMapping) (r : DraftPieceMappingReadySplice) : Prop :=
  c' = with_pieces c (with_build (mc c) (with_mapping (pb (mc c)) (mkBuildMapping (rs_target r) (completed_source_unit m) (fragment_source_end_unit m) stage))).

Lemma mwp_install_map l e c roots ps xs ms (inserted : bool) : ready l e c -> stored_roots c roots ps xs ms ->
  let kind := if inserted then MarkerInsert else MarkerDelete in let stage := if inserted then Stage.RefreshMap else Stage.MarkerMapBoundary in
  (P -> exists m r, map_ready c kind (seq_units ps) m r) ->
  wp (install_map roots inserted) c (fun _ c' => exists m r, map_ready c kind (seq_units ps) m r /\ map_installed c c' stage m r /\ ready l e c').
Proof.
  intros [Hc Ha] [Hs _ _ _ _] kind stage HM. destruct (stored_sequence_counts _ _ _ _ _ Hs) as (E1 & _ & _ & _ & E5). unfold install_map, mwp, program_mapping.
  destruct (bc_mapping (pb (mc c))) as [m|] eqn:Em; cbn [ok_or]; [|intros HP; destruct (HM HP) as (m & r & E & _); congruence].
  destruct (mapping_stage m) as [] eqn:Es; try (intros HP; destruct (HM HP) as (m' & r & E & E' & _); congruence). rename ready into rdy.
  rewrite E1, E5. change (seq_bytes ps + seq_markers ps) with (seq_units ps).
  destruct (Z.eqb_spec (m_target (root_measure (rs_target rdy))) (seq_units ps)) as [Et|Et]; cbn [negb]; [|intros HP; destruct (HM HP) as (m' & r & E & E' & _ & E4); congruence].
  unfold in_marker_build, in_pieces, in_build, mbind, markerm_bind, consume_ready, program_mapping. cbn [with_pieces mc pb with_build]. rewrite Em. cbn [ok_or mbind result_bind]. rewrite Es.
  destruct (bool_decide (rs_kind rdy = _)) eqn:Ek; cbn [negb]; [|intros HP; destruct (HM HP) as (m' & r & E & E' & E3 & _); apply bool_decide_eq_false in Ek; apply Ek; fold kind; congruence].
  apply bool_decide_eq_true in Ek. cbn. exists m, rdy. split; [by destruct inserted|]. split; [by destruct inserted|].
  destruct Hc as [X1 X2 X3 X4 X5 X6 X7]. split; [|intros HP; destruct (Ha HP); by split]. split; cbn; try done. by destruct X1.
Qed.

(** ** The totals before and after *)

Lemma stored_fits c root summary ps : stored_pieces c root summary ps -> fits ps.
Proof.
  destruct root as [id|]; [|intros [-> _]; unfold fits; rewrite !sum_of_nil; cbn; lia]. intros (h & link & _ & Ht & _). exact (dp_fits _ _ (piece_tree_denotes _ _ _ _ _ _ Ht)).
Qed.
Lemma stored_ordered c root summary ps : stored_pieces c root summary ps -> ordered ps.
Proof. destruct root as [id|]; [|intros [-> _]; constructor]. intros (h & link & _ & Ht & _). exact (dp_ordered _ _ (piece_tree_denotes _ _ _ _ _ _ Ht)). Qed.

Lemma validate_delta_Ok c c' before after ps xs ms ps' xs' ms' (inserted split : bool) : stored_roots c before ps xs ms -> stored_roots c' after ps' xs' ms' ->
  seq_bytes ps' = seq_bytes ps -> seq_newlines ps' = seq_newlines ps -> seq_lines ps' = seq_lines ps ->
  seq_markers ps' = seq_markers ps + (if inserted then 1 else -1) -> zlen ps' = zlen ps + (if inserted then 1 + (if split then 1 else 0) else -1) ->
  validate_delta (R := R) before after inserted split = Ok tt.
Proof.
  intros [S1 _ _ _ _] [T1 T2 T3 Tm Tx] Eb En El Em Ep. pose proof (stored_fits _ _ _ _ T1) as (_ & _ & Hl). pose proof (seq_totals ps') as (_ & _ & Hm). pose proof (seq_totals ps) as (_ & _ & Hm').
  apply stored_sequence_counts in S1 as (A1 & A2 & A3 & A4 & A5). apply stored_sequence_counts in T1 as (B1 & B2 & B3 & B4 & B5).
  apply stored_index_count in T2. apply stored_order_count in T3. unfold validate_delta. rewrite T2, T3, A1, A2, A3, A4, A5, B1, B2, B3, B4, B5, Tm, Tx, Eb, En, El, !Z.eqb_refl. cbn [negb orb].
  assert (E1 : Some (seq_markers ps') = if inserted then checked_add64 (seq_markers ps) 1 else checked_sub64 (seq_markers ps) 1).
  { symmetry. destruct inserted; [apply checked_add64_Some|apply checked_sub64_Some]; lia. }
  assert (E2 : Some (zlen ps') = if inserted then checked_add64 (zlen ps) (1 + (if split then 1 else 0)) else checked_sub64 (zlen ps) 1).
  { symmetry. destruct inserted; [apply checked_add64_Some|apply checked_sub64_Some]; destruct split; lia. }
  rewrite !bool_decide_true by done. done.
Qed.

(** ** Removal *)

Section Remove.
Context (active : DraftPieceActiveMarkerEffect) (o : occurrence) (site : DraftPieceMarkerRemovalSite).
Context (Heffect : expected_occurrence (R := R) active = Ok o) (Hsite : ac_removal_site active = Some site) (Ho : occurrence_typed o)
        (Hrank : 0 <= rm_piece_rank site) (Hordinal : 0 <= rm_marker_ordinal site).
Abbreviation rank := (rm_piece_rank site).

Lemma mwp_remove_sequence l e c sequence ps : let h := height_of sequence in ready (S (2 * h) + (h + l)) (S (3 * h) + (1 + e)) c -> sequence_tree draft (sees c) sequence ps ->
  (P -> exists t, sequence = Some t /\ leaf_matches c t rank o) -> (P -> verified (R := R) (mc c) MarkerDelete (seq_units (take (Z.to_nat rank) ps)) 1 0) -> (P -> Z.of_nat h <= DRAFT_PIECE_MAX_HEIGHT) ->
  wp (remove_sequence node_store leaf_store active sequence) c (fun active' c' => exists m target, ps !! Z.to_nat rank = Some (LeafMarker m) /\ occurs o m
    /\ verified (R := R) (mc c) MarkerDelete (seq_units (take (Z.to_nat rank) ps)) 1 0
    /\ active' = with_pending active (Pending.RemoveIdentity target) /\ stored_pieces c' (sd_root target) (sd_summary target) (without rank ps) /\ ready l e c' /\ expands c c').
Proof.
  intros h Hr Ht HM HV HH. unfold remove_sequence. apply mwp_bind. eapply mwp_lift; [exact Heffect|]. apply mwp_bind. eapply mwp_lift; [by rewrite Hsite|].
  destruct sequence as [t|]; [|apply mwp_bind; intros HP; by destruct (HM HP) as (? & ? & _)]. apply mwp_bind. eapply mwp_lift; [done|].
  apply mwp_bind. eapply (mwp_pieces _ _ _ _ _ _ _ P _ (h + l) (1 + e)); [eapply frames_remove_marker; exact Hstores|apply Hr|].
  assert (Hord : (exists m, ps !! Z.to_nat rank = Some (LeafMarker m)) -> ordered (edit_pieces (Some o) rank 0 None ps)).
  { intros (m & Em). destruct Ht as (_ & k & _ & Ht). exact (ordered_without _ _ _ (dp_ordered _ _ (piece_tree_denotes _ _ _ _ _ _ Ht)) Em). }
  assert (HM' : P -> leaf_matches c t rank o) by (intros HP; by destruct (HM HP) as (? & [= <-] & ?)).
  assert (Eat : edit_at (Some o) rank 0 ps = seq_units (take (Z.to_nat rank) ps)) by (unfold edit_at; lia).
  unfold remove_marker. eapply (pwp_edit_root _ _ _ _ _ P Hpieces (Some o) 0 None (Z.le_refl 0) (h + l) (1 + e) (mc c) t ps rank); try done.
  - exact (ready_pieces _ _ _ _ _ _ _ _ _ _ _ Hr).
  - by rewrite Eat.
  - intros HP. apply Hord. destruct (leaf_matches_marker _ _ _ _ _ Ht (HM' HP)) as (m & ? & _). by exists m.
  - intros HP. specialize (HH HP). destruct Ht as (_ & k & Ek & _). cbn in HH. rewrite Ek, Nat2Z.id in HH. lia.
  - intros t' p Hv Hver Ht' Hh Hrp Hg. split; [done|]. split; [done|]. intros Hr1 He1. destruct (leaf_matches_marker _ _ _ _ _ Ht Hv) as (m & Em & Hom). apply mwp_bind.
    eapply mwp_mono; [eapply (mwp_sequence_descriptor l e); [less Hr1|exact Ht']|]. intros d c2 (Hd & Hr2 & He2). apply mwp_ret. exists m, d. rewrite Eat in Hver.
    do 5 (split; [done|]). split; [done|by eapply expands_trans].
Qed.

Lemma mwp_remove_index l e c index xs target : ready (S (2 * tree_height index) + l) (1 + 3 * tree_height index + e) c -> index_root c index xs ->
  (P -> o ∈ xs) -> (P -> Z.of_nat (tree_height index) <= DRAFT_PIECE_MAX_HEIGHT) ->
  wp (remove_index index_store active index target) c (fun active' c' => exists ls rs identity, xs = ls ++ o :: rs
    /\ active' = with_pending active (Pending.RemoveOrder target identity) /\ stored_index c' (idd_root identity) (idd_summary identity) (ls ++ rs) /\ ready l e c' /\ expands c c').
Proof.
  intros Hr Ht HI HH. unfold remove_index. apply mwp_bind. eapply mwp_lift; [exact Heffect|]. apply mwp_bind.
  eapply mwp_mono; [eapply (mwp_index_delete _ _ _ _ _ _ _ P Hstores l e); try done; apply Ho|]. intros t' c' (ls & rs & -> & Ht' & _ & Hr' & Hk'). apply mwp_ret.
  exists ls, rs, (identity_descriptor t'). split; [done|]. split; [done|]. split; [by apply describe_index|]. split; [done|by apply keeps_expands].
Qed.

Lemma mwp_remove_from_order l e c order target identity ps xs ms ls rs : ready (S (3 * tree_height order) + (tree_height order + (3 + l))) (1 + 3 * tree_height order + e) c ->
  stored_roots c (ac_working_roots active) ps xs ms -> agree ps xs ms -> StronglySorted before xs -> (exists m, ps !! Z.to_nat rank = Some (LeafMarker m) /\ occurs o m) ->
  order_root c order ms -> stored_pieces c (sd_root target) (sd_summary target) (without rank ps) -> stored_index c (idd_root identity) (idd_summary identity) (ls ++ rs) -> xs = ls ++ o :: rs ->
  (P -> rm_marker_ordinal site = zlen (markers (take (Z.to_nat rank) ps))) -> (P -> Z.of_nat (tree_height order) <= DRAFT_PIECE_MAX_HEIGHT) ->
  (P -> exists m r, map_ready c MarkerDelete (seq_units (without rank ps)) m r) ->
  wp (remove_from_order node_store index_store order_store active order target identity) c (fun active' c' => exists roots ms' m r c1,
    active' = update_active active roots (ac_phase active) None (ac_planning active) None Pending.None
    /\ stored_roots c1 roots (without rank ps) (ls ++ rs) ms' /\ agree (without rank ps) (ls ++ rs) ms' /\ rm_marker_ordinal site = zlen (markers (take (Z.to_nat rank) ps))
    /\ expands c c1 /\ map_ready c1 MarkerDelete (seq_units (without rank ps)) m r /\ map_installed c1 c' Stage.MarkerMapBoundary m r /\ ready l e c').
Proof.
  intros Hr Hroots Ha Hsort (m & Em & Hom) Ht Hs Hi -> HO HH HM. unfold remove_from_order. apply mwp_bind. eapply mwp_lift; [exact Heffect|]. apply mwp_bind. eapply mwp_lift; [by rewrite Hsite|].
  assert (Eentry : (oc_marker_id o, oc_label o, oc_asset_id o) = order_entry m) by (destruct Hom as [-> -> -> _ _]; done). rewrite Eentry. apply mwp_bind.
  pose proof (ag_order _ _ _ Ha) as Eord. rewrite (markers_at _ _ _ Em), fmap_app, fmap_cons in Eord.
  eapply mwp_mono; [eapply (mwp_marker_order_delete _ _ _ _ _ _ _ P Hstores (tree_height order + (3 + l)) e); [exact Hr|exact Ht|done| |done]|].
  { intros HP. rewrite (HO HP), Nat2Z.id, Eord. rewrite list_lookup_middle; [done|by rewrite length_fmap]. }
  intros t' c1 (ls' & rs' & Ems & El & Ht' & Hh & Hr1 & Hk1). pose proof (keeps_expands node_store leaf_store index_store order_store draft _ _ Hk1) as He1.
  destruct (agree_removed _ _ _ _ _ _ _ _ _ _ Ha Hsort Em (oc_id_is _ _ Hom) eq_refl Ems) as [Ha' ->]. fold (without rank ps) in Ha'. destruct (agree_counts _ _ _ Ha') as [Ec1 Ec2].
  apply mwp_bind. eapply mwp_mono; [eapply (mwp_target_roots l e); [less Hr1|by eapply stored_pieces_mono|by eapply stored_index_mono|exact Ht'|done|done]|].
  intros roots c2 (Hroots' & _ & _ & Hr2 & He2). destruct (without_totals _ _ _ Em) as (E1 & E2 & E3 & E4 & E5). fold (without rank ps) in E1, E2, E3, E4, E5.
  apply mwp_bind. eapply mwp_lift; [eapply validate_delta_Ok; [exact Hroots|exact Hroots'|done|done|done|lia|lia]|]. apply mwp_bind.
  assert (He : expands c c2) by (by eapply expands_trans).
  eapply mwp_mono; [eapply (mwp_install_map l e c2 roots _ _ _ false); [done|exact Hroots'|]|].
  { intros HP. destruct (HM HP) as (mm & r & M1 & M2). exists mm, r. split; [|done]. rewrite (gr_mapping _ _ _ _ _ (ex_pieces _ _ _ _ _ _ _ He)). done. }
  intros _ c3 (mm & r & Hmr & Hmi & Hr3). apply mwp_ret. eexists roots, _, mm, r, c2. split; [done|]. split; [exact Hroots'|]. split; [exact Ha'|].
  split; [rewrite <- El, length_fmap; done|]. done.
Qed.
End Remove.

(** ** Charges *)

Lemma marker_leaf_length k m s dg : key_typed k -> marker_typed m -> fixed 32 dg -> zlen (enc_leaf_record (mkLeafRecord k (LeafMarker m) s dg)) = 162.
Proof.
  intros [H1' H2'] (Hm & _ & _ & Ha) Hd. unfold enc_leaf_record, enc_record_key, enc_text_summary, e_u64, fixed in *. cbn [lr_key lr_value lr_summary lr_digest enc_leaf_value].
  unfold variant, enc_marker, e_u8, e_u64. rewrite !length_app, !length_be_bytes, enc_asset_id_length, H1', H2', Hd, Hm by done. done.
Qed.

(** The charges that pass are those of [for_marker]. *)
Lemma charge_exact effect k m s dg : key_typed k -> marker_typed m -> fixed 32 dg -> let r := mkLeafRecord k (LeafMarker m) s dg in
  if bool_decide (charges_of effect = for_marker m) then validate_marker_effect_charge (R := R) effect r = Ok tt else validate_marker_effect_charge (R := R) effect r = Err InvalidRoot.
Proof.
  intros Hk Hm Hd r. unfold r, validate_marker_effect_charge, encode_leaf. cbn [mbind result_bind]. rewrite marker_leaf_length by done. change (mkCharges 0 1 162) with (for_marker m).
  by case_bool_decide.
Qed.

Lemma new_leaf_emitted v p t p' : new_sequence_leaf (R := R) v p = Ok (t, p') -> exists id, fixed 16 id /\ c_id (sr_link t) = id /\ c_digest (sr_link t) = leaf_digest v (value_summary v)
  /\ pb_leaves p' !! id = Some (mkLeafRecord (mkRecordKey (bc_draft_id (pb p)) id) v (value_summary v) (leaf_digest v (value_summary v))).
Proof.
  unfold new_sequence_leaf, next_id, draft_of, push_leaf, mbind, piecem_bind. destruct (bc_session_id (pb p)) as [session_id|]; [|done]. destruct (checked_add64 _ _) as [n|]; [|done].
  cbv zeta. cbn [with_build pb with_ordinal bc_draft_id]. set (id := piece_record_id _ _ _ _ _). destruct (charge_emission _ _ _) as [[u p1]|] eqn:E; [|done]. intros [= <- <-].
  exists id. cbn [sr_link pb_leaves]. split; [apply piece_record_id_length|]. rewrite lookup_insert_eq. by destruct v.
Qed.
Lemma pwp_and {A} (m : piecem R A) p (Q F : A -> PieceContext -> Prop) : pwp P m p Q -> (forall x p', m p = Ok (x, p') -> F x p') -> pwp P m p (fun x p' => Q x p' /\ F x p').
Proof. unfold pwp. destruct (m p) as [[x p']|]; auto. Qed.

(** ** Insertion *)

Section Insert.
Context (active : DraftPieceActiveMarkerEffect) (insertion : DraftPieceMarkerInsertion) (site : DraftPieceMarkerInsertionSite).
Context (Heffect : insertion_of (R := R) (ac_effect active) = Ok insertion) (Hsite : ac_insertion_site active = Some site) (Hmarker : marker_typed (in_marker insertion))
        (Hboundary : 0 <= bd_rank (is_boundary site) /\ 0 <= bd_inner (is_boundary site)) (Hordinal : 0 <= is_marker_ordinal site).
Abbreviation marker := (in_marker insertion).
Abbreviation boundary := (checked_boundary (is_boundary site)).
Abbreviation with_marker ps := (insert_pieces boundary (LeafMarker marker) ps).
Abbreviation splice_verified c ps := (verified (R := R) (mc c) MarkerInsert (unit_at boundary ps) 0 1).

Lemma occurrence_of_typed id : fixed 16 id -> occurrence_typed (occurrence_of marker id (piece_marker_digest marker PieceModel.empty_summary)).
Proof.
  intros Hid. destruct Hmarker as (M1 & M2 & M3 & M4). unfold occurrence_typed. cbn. do 5 (split; [done|]). exact (leaf_digest_length (LeafMarker marker) PieceModel.empty_summary).
Qed.

Lemma mwp_insert_index l e c index xs target id : let o := occurrence_of marker id (piece_marker_digest marker PieceModel.empty_summary) in fixed 16 id ->
  ready (2 * S (tree_height index) + l) (2 + 2 * tree_height index + e) c -> index_root c index xs ->
  (P -> Forall (fun a => oc_marker_id a <> pm_id marker) xs) -> (P -> Z.of_nat (tree_height index) < DRAFT_PIECE_MAX_HEIGHT) -> (P -> zlen xs + 1 <= U64_MAX) ->
  wp (insert_index index_store active index target id (piece_marker_digest marker PieceModel.empty_summary)) c (fun active' c' => exists ys identity,
    Forall (fun a => oc_marker_id a <> pm_id marker) xs /\ inserted o xs ys
    /\ active' = with_pending active (Pending.InsertOrder target identity id (piece_marker_digest marker PieceModel.empty_summary))
    /\ stored_index c' (idd_root identity) (idd_summary identity) ys /\ ready l e c' /\ expands c c').
Proof.
  intros o Hid Hr Ht HN HH HC. unfold insert_index. apply mwp_bind. eapply mwp_lift; [exact Heffect|]. fold o. apply mwp_bind.
  eapply mwp_mono; [eapply (mwp_index_insert _ _ _ _ _ _ _ P Hstores l e); try done; by apply occurrence_of_typed|]. intros t' c' (Hn & ys & Hin & Ht' & _ & Hr' & Hk'). apply mwp_ret.
  exists ys, (identity_descriptor t'). split; [done|]. split; [done|]. split; [done|]. split; [by apply describe_index|]. split; [done|by apply keeps_expands].
Qed.

(** The largest label of the roots, and what one more marker makes of it. *)
Lemma stored_order_maximum c root height commitment ms : stored_order c root height commitment ms -> commitment_maximum commitment = maximum_label (label_of <$> ms).
Proof.
  destruct root as [id|]; [|by intros (-> & _ & ->)]. intros (h & link & _ & Ht & _ & ->). symmetry. exact (od_maximum _ _ (order_tree_denotes _ _ _ _ _ _ _ Ht)).
Qed.
Lemma maximum_with ls m rs : maximum_label (label_of <$> ls ++ m :: rs) = with_label (maximum_label (label_of <$> ls ++ rs)) (label_of m).
Proof.
  rewrite !fmap_app, fmap_cons, !maximum_label_app. change (label_of m :: (label_of <$> rs)) with ([label_of m] ++ (label_of <$> rs)). rewrite maximum_label_app.
  unfold with_label. cbn [maximum_label foldl]. destruct (maximum_label (label_of <$> ls)), (maximum_label (label_of <$> rs)); cbn; f_equal; lia.
Qed.

Lemma mwp_insert_into_order l e c order target identity ps xs ms ys id : ready (S (tree_height order) + (S (tree_height order) + (3 + l))) (2 + 2 * tree_height order + e) c ->
  let o := occurrence_of marker id (piece_marker_digest marker PieceModel.empty_summary) in
  stored_roots c (ac_working_roots active) ps xs ms -> agree ps xs ms -> boundary_in boundary ps -> is_marker_ordinal site = zlen (markers_before boundary ps) ->
  order_root c order ms -> stored_pieces c (sd_root target) (sd_summary target) (with_marker ps) -> stored_index c (idd_root identity) (idd_summary identity) ys -> inserted o xs ys ->
  (P -> Z.of_nat (tree_height order) < DRAFT_PIECE_MAX_HEIGHT) -> (P -> exists m r, map_ready c MarkerInsert (seq_units (with_marker ps)) m r) ->
  wp (insert_into_order node_store index_store order_store active order target identity) c (fun active' c' => exists roots ms' m r c1,
    active' = update_active active roots PhasePublishing None None None Pending.None
    /\ stored_roots c1 roots (with_marker ps) ys ms' /\ agree (with_marker ps) ys ms'
    /\ expands c c1 /\ map_ready c1 MarkerInsert (seq_units (with_marker ps)) m r /\ map_installed c1 c' Stage.RefreshMap m r /\ ready l e c').
Proof.
  intros Hr o Hroots Ha Hb Hord Ht Hs Hi Hin HH HM. unfold insert_into_order. apply mwp_bind. eapply mwp_lift; [exact Heffect|]. cbv zeta. apply mwp_bind. eapply mwp_lift; [by rewrite Hsite|].
  change (pm_id marker, pm_label marker, pm_asset marker) with (order_entry marker). destruct (agree_counts _ _ _ Ha) as [Ec _]. destruct (marker_totals boundary marker ps Hb) as (E1 & E2 & E3 & E4 & E5).
  pose proof (stored_fits _ _ _ _ Hs) as (_ & _ & Hfit). pose proof (seq_totals (with_marker ps)) as (_ & _ & Hmk). apply mwp_bind.
  eapply mwp_mono; [eapply (mwp_marker_order_insert _ _ _ _ _ _ _ P Hstores (S (tree_height order) + (3 + l)) e); [|exact Hr|exact Ht|done| |done|]|].
  { destruct Hmarker as (M1 & M2 & M3 & M4). by split. }
  { intros _. rewrite Hord, Ec, <- markers_length, (markers_around boundary ps), length_app. lia. }
  { intros _. lia. }
  intros t' c1 (ls & rs & Ems & El & Ht' & Hh & Hr1 & Hk1). pose proof (keeps_expands node_store leaf_store index_store order_store draft _ _ Hk1) as He1.
  assert (Ha' : agree (with_marker ps) ys (ls ++ order_entry marker :: rs)).
  { eapply agree_inserted; [exact Ha|done|exact Hin|by split|done|]. by rewrite El. }
  destruct (agree_counts _ _ _ Ha') as [Ec1 Ec2].
  apply mwp_bind. eapply mwp_mono; [eapply (mwp_target_roots l e); [less Hr1|by eapply stored_pieces_mono|by eapply stored_index_mono|exact Ht'|done|done]|].
  intros roots c2 (Hroots' & _ & _ & Hr2 & He2). assert (He : expands c c2) by (by eapply expands_trans).
  apply mwp_bind. eapply mwp_lift; [eapply validate_delta_Ok; [exact Hroots|exact Hroots'|done|done|done|lia|]|].
  { cbn [checked_boundary b_inner] in E5. rewrite E5. destruct (bd_inner (is_boundary site) =? 0); cbn [negb]; lia. }
  rewrite (stored_order_maximum _ _ _ _ _ (st_order _ _ _ _ _ _ _ _ _ _ Hroots')), (stored_order_maximum _ _ _ _ _ (st_order _ _ _ _ _ _ _ _ _ _ Hroots)), Ems, maximum_with.
  rewrite bool_decide_true by done. cbn [negb]. apply mwp_bind.
  eapply mwp_mono; [eapply (mwp_install_map l e c2 roots _ _ _ true); [done|exact Hroots'|]|].
  { intros HP. destruct (HM HP) as (mm & r & M1 & M2). exists mm, r. split; [|done]. rewrite (gr_mapping _ _ _ _ _ (ex_pieces _ _ _ _ _ _ _ He)). done. }
  intros _ c3 (mm & r & Hmr & Hmi & Hr3). apply mwp_ret. eexists roots, _, mm, r, c2. split; [done|]. split; [exact Hroots'|]. split; [exact Ha'|]. done.
Qed.
End Insert.
End Surgery.

(** ** Insertion into the sequence *)

(** The names a sequence has with one more marker in it. *)
Definition named_also (G : LeafNames) (m0 : DraftPieceMarker) (id0 : list byte) : LeafNames := fun m id => G m id \/ m = m0 /\ id = id0.

Section InsertSequence.
Context {H : Type} `{Sha256Laws H} {R : Type}.
Context (node_store : DraftPieceRecordKey -> result (DraftPiecePrepareError R) (option DraftPieceNodeRecord))
        (leaf_store : DraftPieceRecordKey -> result (DraftPiecePrepareError R) (option DraftPieceLeafRecord))
        (index_store : DraftMarkerRecordKey -> result (DraftPiecePrepareError R) (option DraftMarkerIdentityRecord))
        (order_store : DraftMarkerRecordKey -> result (DraftPiecePrepareError R) (option DraftMarkerOrderRecord))
        (draft session operation : list byte) (P : Prop)
        (Hstores : marker_stores_ok node_store leaf_store index_store order_store draft session operation).
Abbreviation ready := (marker_ready node_store leaf_store index_store order_store draft session operation P).
Abbreviation wp := (mwp (R := R) P).
Abbreviation sees c := (seen node_store leaf_store draft (mc c)).
Abbreviation expands := (expands node_store leaf_store index_store order_store draft).
Abbreviation stored_pieces c := (stored_sequence draft (sees c)).
Abbreviation stored_index := (stored_index (R := R) index_store draft).
Abbreviation stored_order := (stored_order (R := R) order_store draft).
Abbreviation stored_roots := (stored_roots node_store leaf_store index_store order_store draft).
Abbreviation index_root := (root_tree (index_tree (R := R) index_store draft)).
Abbreviation order_root := (root_tree (order_tree (R := R) order_store draft)).
Abbreviation Hpieces := (ms_pieces _ _ _ _ _ _ _ Hstores).

Ltac less Hr := eapply marker_ready_le; [| |exact Hr]; fold Nat.add; lia.

Context (active : DraftPieceActiveMarkerEffect) (insertion : DraftPieceMarkerInsertion) (site : DraftPieceMarkerInsertionSite).
Context (Heffect : insertion_of (R := R) (ac_effect active) = Ok insertion) (Hsite : ac_insertion_site active = Some site) (Hmarker : marker_typed (in_marker insertion))
        (Hboundary : 0 <= bd_rank (is_boundary site) /\ 0 <= bd_inner (is_boundary site)) (Hordinal : 0 <= is_marker_ordinal site).
Abbreviation marker := (in_marker insertion).
Abbreviation boundary := (checked_boundary (is_boundary site)).
Abbreviation with_marker ps := (insert_pieces boundary (LeafMarker marker) ps).
Abbreviation splice_verified c ps := (verified (R := R) (mc c) MarkerInsert (unit_at boundary ps) 0 1).

Lemma mwp_insert_sequence {G : LeafNames} l e c sequence ps : let h := height_of sequence in ready (S h + (S h + l)) (1 + (3 + 2 * h + (1 + e))) c -> sequence_tree (G := G) draft (sees c) sequence ps -> rooted sequence ->
  (P -> charges_of (ac_effect active) = for_marker marker) -> (P -> boundary_in boundary ps) -> (P -> splice_verified c ps) ->
  (P -> ordered (with_marker ps)) -> (P -> fits (with_marker ps)) -> (P -> Z.of_nat (S h) <= DRAFT_PIECE_MAX_HEIGHT) ->
  wp (insert_sequence node_store leaf_store active sequence) c (fun active' c' => exists target id, boundary_in boundary ps /\ splice_verified c ps
    /\ charges_of (ac_effect active) = for_marker marker /\ fixed 16 id
    /\ active' = with_pending active (Pending.InsertIdentity target id (piece_marker_digest marker PieceModel.empty_summary))
    /\ stored_sequence (G := named_also G marker id) draft (sees c') (sd_root target) (sd_summary target) (with_marker ps) /\ ready l e c' /\ expands c c').
Proof.
  intros h Hr Ht Hroot HC HB HV HO HF HH. unfold insert_sequence. apply mwp_bind. eapply mwp_lift; [exact Heffect|]. apply mwp_bind. eapply mwp_lift; [by rewrite Hsite|].
  pose proof Hr as [Hc _]. pose proof (mx_pieces _ _ _ _ _ _ _ _ Hc) as Hpc. apply mwp_bind.
  eapply (mwp_pieces _ _ _ _ _ _ _ P _ (S h + (S h + l)) (3 + 2 * h + (1 + e))); [apply frames_new_leaf|done|].
  eapply pwp_mono; [apply (pwp_and P _ _ _ _ (pwp_new_leaf (G := any_leaf) _ _ _ _ _ _ Hpieces _ _ _ (LeafMarker marker) (ready_pieces _ _ _ _ _ _ _ _ _ _ _ Hr) (conj Hmarker I)) (new_leaf_emitted (LeafMarker marker) (mc c)))|].
  intros t p ((T1 & T2 & T3 & Hrp & Hgp) & id & Hid & Eid & Edg & Hem). split; [done|]. split; [done|]. intros Hr1 He1. set (c1 := with_pieces c p) in *.
  apply mwp_bind. unfold mwp at 1, in_pieces, emitted_leaf. cbn [c1 with_pieces mc]. rewrite Eid, Hem. apply mwp_bind.
  pose proof (charge_exact (R := R) (ac_effect active) (mkRecordKey (bc_draft_id (pb (mc c))) id) marker (value_summary (LeafMarker marker)) (leaf_digest (LeafMarker marker) (value_summary (LeafMarker marker)))
    ltac:(split; [rewrite (pc_draft _ _ _ _ _ _ Hpc); apply (ps_draft _ _ _ _ _ Hpieces)|done]) Hmarker (leaf_digest_length _ _)) as Hch. cbv zeta in Hch.
  case_bool_decide as Ech; [|unfold mwp, lift_marker; rewrite Hch; intros HP; by apply Ech, HC]. eapply mwp_lift; [exact Hch|].
  fold c1. assert (Ew : with_pieces c1 p = c1) by done. rewrite ?Ew. apply mwp_bind. eapply (mwp_pieces _ _ _ _ _ _ _ P _ (S h + l) (1 + e)); [eapply frames_insert; exact Hstores|apply Hr1|].
  assert (Hver : forall a b n, verified (R := R) (mc c1) MarkerInsert a b n <-> verified (R := R) (mc c) MarkerInsert a b n) by (intros; pose proof (gr_mapping _ _ _ _ _ Hgp); by split; apply verified_mapping).
  assert (Ht1 : sequence_tree (G := named_also G marker id) draft (sees c1) sequence ps).
  { apply (sequence_tree_rename (G := G)); [by left|]. destruct sequence as [x|]; [|done]. destruct Ht as (E1 & k & E2 & Ht). split; [done|]. exists k. split; [done|]. eapply piece_tree_mono; [|exact Ht]. apply Hgp. }
  assert (Eu : seq_units [LeafMarker marker] = 1) by done.
  assert (Hleaf : piece_tree (G := named_also G marker id) draft (sees c1) 0 true (sr_link t) [LeafMarker marker]).
  { destruct (T3 I) as (r & [Hl _] & [= Ev]). exists r. split; [|by rewrite Ev]. split; [exact Hl|]. unfold leaf_named. rewrite <- Ev. right. split; [done|].
    destruct Hl as (_ & -> & _). exact Eid. }
  eapply pwp_mono; [eapply (pwp_insert (G := named_also G marker id) _ _ _ _ _ P Hpieces (S h + l) (1 + e) (mc c1) sequence ps boundary t (LeafMarker marker)); try done|].
  - apply Hboundary.
  - apply Hboundary.
  - intros HP. rewrite Eu. by apply Hver, HV.
  - intros t' p2 (Hb & Hv & Ht' & Hh & Hrp2 & Hgp2). split; [done|]. split; [done|]. intros Hr2 He2. apply mwp_bind.
    eapply mwp_mono; [eapply (mwp_sequence_descriptor (G := named_also G marker id) _ _ _ _ _ _ _ P Hstores l e); [|exact Ht']|].
    + cbn [height_of from_option]. less Hr2.
    + intros d c3 (Hd & Hr3 & He3). apply mwp_ret. rewrite Eu in Hv. apply Hver in Hv. exists d, id. cbn [leaf_digest value_summary] in Edg. rewrite Edg. do 6 (split; [done|]). split; [done|].
      eapply expands_trans; [exact He1|]. by eapply expands_trans.
Qed.

End InsertSequence.
