(* ===== verification/DraftRuns.v ===== *)
(** * Runs of quanta: a marker leaves a draft, a marker enters it

    A marker effect takes three quanta to take a marker out of the three trees, and three to put
    one in.  A quantum starts with nothing emitted and ends with its records in the stores; the
    pending step carries what the earlier ones made. *)
From stdpp Require Import prelude gmap strings.
From Stdlib Require Import Sorting.Sorted.
From S2P Require Import Prelude.
From S2P Require Import Bytes.
From S2P Require Import ModelDigest.
From S2P Require Import SyndicParts.
From S2P Require Import BuildBudget.
From S2P Require Import MappingModel.
From S2P Require Import MappingEdit.
From S2P Require Import MappingProgram.
From S2P Require Import PieceModel.
From S2P Require Import PieceCodec.
From S2P Require Import PieceTree.
From S2P Require Import PieceDenote.
From S2P Require Import PieceSequence.
From S2P Require Import PieceEdit.
From S2P Require Import PieceRemove.
From S2P Require Import PieceRoots.
From S2P Require Import TextRuns.
From S2P Require Import MarkerModel.
From S2P Require Import MarkerCodec.
From S2P Require Import MarkerTree.
From S2P Require Import MarkerBalance.
From S2P Require Import MarkerDenote.
From S2P Require Import MarkerEdit.
From S2P Require Import MarkerIndex.
From S2P Require Import DraftRoots.
From S2P Require Import DraftStored.
From S2P Require Import DraftAgree.
From S2P Require Import DraftSurgery.

Section Step.
Context {H : Type} `{Sha256Laws H} {R : Type}.
Context (node_store : DraftPieceRecordKey -> result (DraftPiecePrepareError R) (option DraftPieceNodeRecord))
        (leaf_store : DraftPieceRecordKey -> result (DraftPiecePrepareError R) (option DraftPieceLeafRecord))
        (index_store : DraftMarkerRecordKey -> result (DraftPiecePrepareError R) (option DraftMarkerIdentityRecord))
        (order_store : DraftMarkerRecordKey -> result (DraftPiecePrepareError R) (option DraftMarkerOrderRecord))
        (draft session operation : list byte).
Abbreviation sees c := (seen node_store leaf_store draft (mc c)).
Abbreviation expands := (expands node_store leaf_store index_store order_store draft).
Abbreviation stored_pieces c := (stored_sequence draft (sees c)).
Abbreviation stored_index := (stored_index (R := R) index_store draft).
Abbreviation stored_roots := (stored_roots node_store leaf_store index_store order_store draft).

(** ** Where a removal is *)

Section Stages.
Context (c : MarkerContext) (active : DraftPieceActiveMarkerEffect) (ps : list piece) (xs : list occurrence).

(** The roots stand for the pieces, and the trees agree: the index has one occurrence of each
    marker, and it names the leaf of the sequence the marker stands in. *)
Definition working (roots : DraftPieceBuildRoots) (qs : list piece) (ys : list occurrence) : Prop :=
  let ms := order_entry <$> markers qs in
  DraftStored.stored_roots (G := indexed ys) node_store leaf_store index_store order_store draft c roots qs ys ms /\ agree qs ys ms.

Definition removal_stage (o : occurrence) (site : DraftPieceMarkerRemovalSite) : Prop :=
  let rank := rm_piece_rank site in
  let sequence_there target := (exists m, ps !! Z.to_nat rank = Some (LeafMarker m) /\ occurs o m) 
    /\ stored_sequence (G := indexed xs) draft (sees c) (sd_root target) (sd_summary target) (without rank ps) in
  working (ac_working_roots active) ps xs /\
  match ac_pending active with
  | Pending.RemoveSequence => True
  | Pending.RemoveIdentity target => sequence_there target
  | Pending.RemoveOrder target identity => sequence_there target /\ exists ls rs, xs = ls ++ o :: rs /\ stored_index c (idd_root identity) (idd_summary identity) (ls ++ rs)
  | _ => False
  end.

Definition insertion_stage (marker : DraftPieceMarker) (site : DraftPieceMarkerInsertionSite) : Prop :=
  let b := checked_boundary (is_boundary site) in
  let digest := piece_marker_digest marker PieceModel.empty_summary in
  let sequence_there target id dg := boundary_in b ps /\ fixed 16 id /\ dg = digest 
    /\ stored_sequence (G := named_also (indexed xs) marker id) draft (sees c) (sd_root target) (sd_summary target) (insert_pieces b (LeafMarker marker) ps) in
  working (ac_working_roots active) ps xs /\
  match ac_pending active with
  | Pending.InsertSequence => True
  | Pending.InsertIdentity target id dg => sequence_there target id dg
  | Pending.InsertOrder target identity id dg => sequence_there target id dg /\ exists ys, inserted (occurrence_of marker id digest) xs ys /\ stored_index c (idd_root identity) (idd_summary identity) ys
  | _ => False
  end.
End Stages.

(** ** Leaves of the stored root *)

Definition leaf_there (c : MarkerContext) (roots : DraftPieceBuildRoots) (rank : Z) (o : occurrence) : Prop :=
  exists h link rs r, br_sequence_root roots = Some (c_id link) /\ sm_height (br_sequence_summary roots) = Z.of_nat (S h)
    /\ leaves_of draft (sees c) (S h) link rs /\ rs !! Z.to_nat rank = Some r /\ occurrence_matches r o = true.

Lemma leaves_mono T T' h : extends T T' -> forall link rs, leaves_of draft T h link rs -> leaves_of draft T' h link rs.
Proof.
  intros [He1 He2]. induction h as [|h IH]; intros link rs; cbn [leaves_of].
  - intros (r & (Hr & Hr') & ->). exists r. split; [|done]. split; [by apply He2|done].
  - intros (root & n & rss & (Hn & Hn') & Hf & ->). exists root, n, rss. split; [split; [by apply He1|done]|]. split; [|done]. eapply Forall2_impl; [exact Hf|]. auto.
Qed.

Lemma leaf_there_matches {G : LeafNames} c c' roots rank o t ps : expands c c' -> leaf_there c roots rank o -> sequence_tree (G := G) draft (sees c') (Some t) ps ->
  Z.of_nat (height_of (Some t)) = sm_height (br_sequence_summary roots) -> Some (c_id (sr_link t)) = br_sequence_root roots -> leaf_matches node_store leaf_store draft c' t rank o.
Proof.
  intros [[He _ _] _ _] (h & link & rs & r & E1 & E2 & Hl & Er & Em) (_ & k & Ek & Ht) Eh Eid. exists r. split; [|done]. exists rs. split; [|done].
  rewrite E2 in Eh. assert (height_of (Some t) = S h) as Eh' by lia. rewrite Eh'. cbn [height_of from_option] in Eh'. rewrite Ek, Nat2Z.id in Eh'. subst k.
  apply (leaves_mono _ _ _ He) in Hl. assert (sr_link t = link) as ->; [|done].
  destruct Hl as (root & n & rss & (Hn & _ & _ & Hc & _) & _). destruct Ht as (n' & pss & (Hn' & _ & _ & Hc' & _) & _).
  rewrite E1 in Eid. injection Eid as Eid. rewrite Eid in Hn'. assert (n' = n) as -> by (exact (proj1 (sees_functional _ _ _ _) _ _ _ Hn' Hn)). congruence.
Qed.

(** One more marker, and its occurrence in the index. *)
Lemma indexed_inserted o m xs ys : inserted o xs ys -> occurs o m -> forall m' id, named_also (indexed xs) m (oc_leaf_id o) m' id -> indexed ys m' id.
Proof.
  intros (l & r & -> & -> & _) Ho m' id [(x & Hx & Hm & E)|[-> ->]].
  - exists x. split; [|done]. apply elem_of_app in Hx as [Hx|Hx]; apply elem_of_app; [by left|right]. by apply list_elem_of_further.
  - exists o. split; [|done]. apply elem_of_app. right. apply list_elem_of_here.
Qed.
Lemma stored_roots_rename {G G' : LeafNames} c roots ps xs ms : (forall m id, LeafMarker m ∈ ps -> G m id -> G' m id) ->
  DraftStored.stored_roots (G := G) node_store leaf_store index_store order_store draft c roots ps xs ms ->
  DraftStored.stored_roots (G := G') node_store leaf_store index_store order_store draft c roots ps xs ms.
Proof. intros Hg [S1 S2 S3 S4 S5]. split; [exact (stored_sequence_rename _ _ _ _ _ Hg S1)|done..]. Qed.

(** ** One quantum *)

Definition heights (roots : DraftPieceBuildRoots) : nat :=
  (Z.to_nat (sm_height (br_sequence_summary roots)) + Z.to_nat (is_height (br_index_summary roots)) + Z.to_nat (br_order_height roots))%nat.
Definition surgery_loads (roots : DraftPieceBuildRoots) : nat := (8 + 4 * heights roots)%nat.
Definition surgery_emitted (roots : DraftPieceBuildRoots) : nat := (5 + 3 * heights roots)%nat.
Definition heights_below (roots : DraftPieceBuildRoots) (bound : Z) : Prop :=
  sm_height (br_sequence_summary roots) <= bound /\ is_height (br_index_summary roots) <= bound /\ br_order_height roots <= bound.

(** What a removal needs beside resources: the leaf and the occurrence the effect names, the
    ordinal of the marker, and the map of the draft without it. *)
Definition removal_able (c : MarkerContext) (active : DraftPieceActiveMarkerEffect) (ps : list piece) (xs : list occurrence) (o : occurrence) (site : DraftPieceMarkerRemovalSite) : Prop :=
  let rank := rm_piece_rank site in
  heights_below (ac_working_roots active) DRAFT_PIECE_MAX_HEIGHT /\
  match ac_pending active with
  | Pending.RemoveSequence => leaf_there c (ac_working_roots active) rank o /\ verified (R := R) (mc c) MarkerDelete (seq_units (take (Z.to_nat rank) ps)) 1 0
  | Pending.RemoveIdentity _ => o ∈ xs
  | _ => rm_marker_ordinal site = zlen (markers (take (Z.to_nat rank) ps)) /\ exists m r, map_ready c MarkerDelete (seq_units (without rank ps)) m r
  end.

(** What an insertion needs: exact charges, a boundary, room in the counts, a new identity, the
    map of the draft with the marker. *)
Definition insertion_able (c : MarkerContext) (active : DraftPieceActiveMarkerEffect) (ps : list piece) (xs : list occurrence) (marker : DraftPieceMarker) (site : DraftPieceMarkerInsertionSite) : Prop :=
  let b := checked_boundary (is_boundary site) in
  let qs := insert_pieces b (LeafMarker marker) ps in
  heights_below (ac_working_roots active) (DRAFT_PIECE_MAX_HEIGHT - 1) /\
  match ac_pending active with
  | Pending.InsertSequence => charges_of (ac_effect active) = for_marker marker /\ boundary_in b ps /\ verified (R := R) (mc c) MarkerInsert (unit_at b ps) 0 1 /\ ordered qs /\ fits qs
  | Pending.InsertIdentity _ _ _ => Forall (fun a => oc_marker_id a <> pm_id marker) xs
  | _ => exists m r, map_ready c MarkerInsert (seq_units qs) m r
  end.

Context (P : Prop) (Hstores : marker_stores_ok node_store leaf_store index_store order_store draft session operation).
Abbreviation ready := (marker_ready node_store leaf_store index_store order_store draft session operation P).
Abbreviation wp := (mwp (R := R) P).
Abbreviation surgery := (surgery node_store leaf_store index_store order_store).

Ltac less Hr := eapply marker_ready_le; [| |exact Hr]; fold Nat.add; lia.

Lemma working_sorted c roots ps xs : working c roots ps xs -> StronglySorted before xs.
Proof.
  intros [[_ Hi _ _ _] _]. destruct (br_index_root roots) as [id|]; [|destruct Hi as [-> _]; constructor]. destruct Hi as (h & link & _ & Ht & _).
  by destruct (id_valid _ _ (index_tree_denotes _ _ _ _ _ _ _ Ht)).
Qed.
Lemma working_expands c c' roots ps xs : expands c c' -> working c roots ps xs -> working c' roots ps xs.
Proof. intros He [Hs Ha]. split; [|done]. exact (reach_stored_roots _ _ _ _ _ (expands_reaches _ _ _ _ _ _ _ He) _ _ _ _ Hs). Qed.

(** The map is not part of what is stored. *)
Lemma installed_reaches c c' stage m r : map_installed c c' stage m r -> reaches draft (mkStores node_store leaf_store index_store order_store) c (mkStores node_store leaf_store index_store order_store) c'.
Proof. intros ->. by split. Qed.

Lemma mwp_removal_step c active ps xs o site : ready (surgery_loads (ac_working_roots active)) (surgery_emitted (ac_working_roots active)) c ->
  expected_occurrence (R := R) active = Ok o -> ac_removal_site active = Some site -> occurrence_typed o -> 0 <= rm_piece_rank site -> 0 <= rm_marker_ordinal site ->
  removal_stage c active ps xs o site -> (P -> removal_able c active ps xs o site) ->
  wp (surgery active) c (fun active' c' => marker_context_ok node_store leaf_store index_store order_store draft session operation c' /\
    match ac_pending active with
    | Pending.RemoveSequence => exists target, active' = with_pending active (Pending.RemoveIdentity target) /\ removal_stage c' active' ps xs o site
    | Pending.RemoveIdentity target => exists identity, active' = with_pending active (Pending.RemoveOrder target identity) /\ removal_stage c' active' ps xs o site
    | _ => exists roots ys, active' = update_active active roots (ac_phase active) None (ac_planning active) None Pending.None
        /\ (exists m, ps !! Z.to_nat (rm_piece_rank site) = Some (LeafMarker m) /\ occurs o m) /\ rm_marker_ordinal site = zlen (markers (take (Z.to_nat (rm_piece_rank site)) ps))
        /\ working c' roots (without (rm_piece_rank site) ps) ys
    end).
Proof.
  intros Hr Heff Hsite Ho Hrank Hord [Hw Hst] HP. unfold DraftRoots.surgery. apply mwp_bind. set (roots := ac_working_roots active) in *. pose proof Hw as [Hsr Ha].
  eapply mwp_mono; [eapply (mwp_load_working_roots (G := indexed xs) _ _ _ _ _ _ _ P Hstores (5 + 4 * heights roots) (surgery_emitted roots)); [unfold surgery_loads in Hr; less Hr|exact Hsr]|].
  intros [[ts ti] to] c1 (([Hts Hroot] & Hti & Hto) & [Eh Eid] & Ei & Eo & Hr1 & He1). pose proof (working_expands _ _ _ _ _ He1 Hw) as Hw1.
  assert (Hle : (height_of ts <= heights roots /\ tree_height ti <= heights roots /\ tree_height to <= heights roots)%nat) by (unfold heights; lia).
  assert (Hmap : bc_mapping (pb (mc c1)) = bc_mapping (pb (mc c))) by (apply He1). unfold surgery_emitted in Hr1. unfold removal_able in HP. fold roots in HP.
  destruct (ac_pending active) as [| | |target|target identity| | |] eqn:Ep; try done.
  - eapply mwp_mono; [eapply (mwp_remove_sequence (G := indexed xs) _ _ _ _ _ _ _ P Hstores active o site Heff Hsite Hrank 0 0); [less Hr1|exact Hts| | |]|].
    + intros HP'. destruct (HP HP') as (_ & Hl & _). destruct ts as [t|]; [exists t; split; [done|]; eapply (leaf_there_matches (G := indexed xs)); [exact He1|exact Hl|exact Hts|done|done]|]. destruct Hl as (h & link & rs & r & E1 & _). rewrite E1 in Eid. done.
    + intros HP'. destruct (HP HP') as (_ & _ & Hv). by eapply verified_mapping.
    + intros HP'. destruct (HP HP') as ((? & _) & _). lia.
    + intros active' c2 (m & target & Em & Hom & _ & -> & Hs & [Hc2 _] & He2). split; [done|]. exists target. split; [done|]. split; [by eapply working_expands|]. cbn. split; [by exists m|done].
  - destruct Hst as [Hm Hs]. eapply mwp_mono; [eapply (mwp_remove_index _ _ _ _ _ _ _ P Hstores active o Heff Ho 0 0); [less Hr1|exact Hti| |]|].
    + intros HP'. by destruct (HP HP').
    + intros HP'. destruct (HP HP') as ((_ & ? & _) & _). lia.
    + intros active' c2 (ls & rs & identity & -> & -> & Hi & [Hc2 _] & He2). split; [done|]. exists identity. split; [done|]. split; [by eapply working_expands|]. cbn.
      split; [|by exists ls, rs]. split; [done|]. eapply stored_pieces_mono; [|exact Hs]. by eapply expands_trans.
  - destruct Hst as [[Hm Hs] (ls & rs & -> & Hi)]. destruct Hw1 as [Hsr1 Ha1]. eapply mwp_mono; [eapply (mwp_remove_from_order (G := indexed (ls ++ o :: rs)) _ _ _ _ _ _ _ P Hstores active o site Heff Hsite Hord 0 0);
      [less Hr1|exact Hsr1|exact Ha1|by eapply working_sorted|exact Hm|exact Hto|by eapply stored_pieces_mono|by eapply stored_index_mono|done| | |]|].
    + intros HP'. by destruct (HP HP') as (_ & ? & _).
    + intros HP'. destruct (HP HP') as ((_ & _ & ?) & _). lia.
    + intros HP'. destruct (HP HP') as (_ & _ & m & r & M1 & M2). exists m, r. split; [by rewrite Hmap|done].
    + intros active' c2 (roots' & ms' & m & r & c3 & -> & Hsr' & Ha' & Hord' & He3 & _ & Hins & [Hc2 _]). split; [done|]. exists roots', (ls ++ rs). split; [done|]. split; [done|]. split; [done|].
      pose proof (ag_order _ _ _ Ha') as Ems. rewrite Ems in Hsr', Ha'. split; [|done].
      apply (stored_roots_rename (G := indexed (ls ++ o :: rs))); [destruct Hm as (mm & Em & Hom); exact (indexed_removed _ _ _ _ _ _ _ _ Ha1 (working_sorted _ _ _ _ Hw) Em (oc_id_is _ _ Hom) eq_refl)|].
      exact (reach_stored_roots _ _ _ _ _ (installed_reaches _ _ _ _ _ Hins) _ _ _ _ Hsr').
Qed.

Lemma mwp_insertion_step c active ps xs insertion site : ready (surgery_loads (ac_working_roots active)) (surgery_emitted (ac_working_roots active)) c ->
  let marker := in_marker insertion in let b := checked_boundary (is_boundary site) in
  insertion_of (R := R) (ac_effect active) = Ok insertion -> ac_insertion_site active = Some site -> marker_typed marker ->
  0 <= bd_rank (is_boundary site) /\ 0 <= bd_inner (is_boundary site) -> is_marker_ordinal site = zlen (markers_before b ps) ->
  insertion_stage c active ps xs marker site -> (P -> insertion_able c active ps xs marker site) ->
  wp (surgery active) c (fun active' c' => marker_context_ok node_store leaf_store index_store order_store draft session operation c' /\
    match ac_pending active with
    | Pending.InsertSequence => exists target id dg, active' = with_pending active (Pending.InsertIdentity target id dg) /\ insertion_stage c' active' ps xs marker site
    | Pending.InsertIdentity target id dg => exists identity, active' = with_pending active (Pending.InsertOrder target identity id dg) /\ insertion_stage c' active' ps xs marker site
    | _ => exists roots ys, active' = update_active active roots PhasePublishing None None None Pending.None /\ boundary_in b ps
        /\ working c' roots (insert_pieces b (LeafMarker marker) ps) ys
    end).
Proof.
  intros Hr marker b Heff Hsite Hm Hb0 Hord [Hw Hst] HP. unfold DraftRoots.surgery. apply mwp_bind. set (roots := ac_working_roots active) in *. pose proof Hw as [Hsr Ha].
  eapply mwp_mono; [eapply (mwp_load_working_roots (G := indexed xs) _ _ _ _ _ _ _ P Hstores (5 + 4 * heights roots) (surgery_emitted roots)); [unfold surgery_loads in Hr; less Hr|exact Hsr]|].
  intros [[ts ti] to] c1 (([Hts Hroot] & Hti & Hto) & [Eh _] & Ei & Eo & Hr1 & He1). pose proof (working_expands _ _ _ _ _ He1 Hw) as Hw1.
  assert (Hle : (height_of ts <= heights roots /\ tree_height ti <= heights roots /\ tree_height to <= heights roots)%nat) by (unfold heights; lia).
  assert (Hmap : bc_mapping (pb (mc c1)) = bc_mapping (pb (mc c))) by (apply He1). unfold surgery_emitted in Hr1. unfold insertion_able in HP. fold roots in HP.
  assert (Hord0 : 0 <= is_marker_ordinal site) by (rewrite Hord; lia). destruct (agree_counts _ _ _ Ha) as [_ Ecount].
  destruct (ac_pending active) as [| | | | | |target id dg|target identity id dg] eqn:Ep; try done.
  - eapply mwp_mono; [eapply (mwp_insert_sequence (G := indexed xs) _ _ _ _ _ _ _ P Hstores active insertion site Heff Hsite Hm Hb0 0 0); [less Hr1|exact Hts|exact Hroot| | | | | |]|].
    1-5: intros HP'; destruct (HP HP') as (_ & K1 & K2 & K3 & K4 & K5); try done.
    + by eapply verified_mapping.
    + intros HP'. destruct (HP HP') as ((? & _) & _). unfold DRAFT_PIECE_MAX_HEIGHT in *. lia.
    + intros active' c2 (target & id & Hb & _ & _ & Hid & -> & Hs & [Hc2 _] & He2). split; [done|]. eexists target, id, _. split; [done|]. split; [by eapply working_expands|]. cbn. by repeat split.
  - destruct Hst as (Hb & Hid & -> & Hs). eapply mwp_mono; [eapply (mwp_insert_index _ _ _ _ _ _ _ P Hstores active insertion Heff Hm 0 0); [exact Hid|less Hr1|exact Hti| | |]|].
    + intros HP'. by destruct (HP HP').
    + intros HP'. destruct (HP HP') as ((_ & ? & _) & _). unfold DRAFT_PIECE_MAX_HEIGHT in *. lia.
    + intros _. rewrite Ecount. destruct (marker_totals b marker ps Hb) as (_ & _ & _ & E4 & _). pose proof (stored_fits _ _ _ _ _ _ _ Hs) as (_ & _ & Hf). pose proof (seq_totals (insert_pieces b (LeafMarker marker) ps)). unfold b, marker in *. lia.
    + intros active' c2 (ys & identity & _ & Hin & -> & Hi & [Hc2 _] & He2). split; [done|]. exists identity. split; [done|]. split; [by eapply working_expands|]. cbn.
      split; [|by exists ys]. split; [done|]. split; [done|]. split; [done|]. eapply stored_pieces_mono; [|exact Hs]. by eapply expands_trans.
  - destruct Hst as [(Hb & Hid & -> & Hs) (ys & Hin & Hi)]. destruct Hw1 as [Hsr1 Ha1]. eapply mwp_mono; [eapply (mwp_insert_into_order (G := named_also (indexed xs) marker id) _ _ _ _ _ _ _ P Hstores active insertion site Heff Hsite Hm Hord0 0 0);
      [less Hr1|apply (stored_roots_rename (G := indexed xs)); [by left|exact Hsr1]|exact Ha1|exact Hb|exact Hord|exact Hto|by eapply stored_pieces_mono|by eapply stored_index_mono|exact Hin| |]|].
    + intros HP'. destruct (HP HP') as ((_ & _ & ?) & _). unfold DRAFT_PIECE_MAX_HEIGHT in *. lia.
    + intros HP'. destruct (HP HP') as (_ & m & r & M1 & M2). exists m, r. split; [by rewrite Hmap|done].
    + intros active' c2 (roots' & ms' & m & r & c3 & -> & Hsr' & Ha' & He3 & _ & Hins & [Hc2 _]). split; [done|]. exists roots', ys. split; [done|]. split; [done|].
      pose proof (ag_order _ _ _ Ha') as Ems. rewrite Ems in Hsr', Ha'. split; [|done].
      apply (stored_roots_rename (G := named_also (indexed xs) marker id)); [intros m' id' _; apply (indexed_inserted _ marker _ _ Hin); by split|].
      exact (reach_stored_roots _ _ _ _ _ (installed_reaches _ _ _ _ _ Hins) _ _ _ _ Hsr').
Qed.
End Step.

(** ** Quanta *)

Section Runs.
Context {H : Type} `{Sha256Laws H} {R : Type} (draft session operation : list byte).
Abbreviation stores_ok S := (marker_stores_ok (sto_nodes S) (sto_leaves S) (sto_index S) (sto_order S) draft session operation).
Abbreviation context_ok S := (marker_context_ok (sto_nodes S) (sto_leaves S) (sto_index S) (sto_order S) draft session operation).

(** Nothing emitted, nothing read: what is reached is what the stores hold. *)
Definition resting : MarkerContext := mkMarkers (mkPieces (mkBuild draft None operation 0 0 None [] None) ∅ ∅ ∅ ∅) ∅ ∅ ∅ ∅.

Definition marker_begins (S : Stores R) (c : MarkerContext) : Prop :=
  context_ok S c /\ pb_nodes (mc c) = ∅ /\ pb_leaves (mc c) = ∅ /\ mc_index c = ∅ /\ mc_order c = ∅.

Lemma begins_reaches S c : marker_begins S c -> reaches draft S resting S c.
Proof.
  intros (_ & E1 & E2 & E3 & E4). split.
  - split; cbn; intros id x; rewrite ?E1, ?E2; done.
  - intros k r _. unfold index_at. cbn. by rewrite E3.
  - intros k r _. unfold order_at. cbn. by rewrite E4.
Qed.

(** The stores take in what a quantum emitted. *)
Record commits_markers (c : MarkerContext) (S S' : Stores R) : Prop := mkCommitsMarkers {
  cmm_pieces : commits_pieces draft (mc c) (sto_nodes S) (sto_leaves S) (sto_nodes S') (sto_leaves S');
  cmm_index : forall k r, mc_index c !! k = Some r -> sto_index S' k = Ok (Some r);
  cmm_old_index : forall k, mc_index c !! k = None -> sto_index S' k = sto_index S k;
  cmm_order : forall k r, mc_order c !! k = Some r -> sto_order S' k = Ok (Some r);
  cmm_old_order : forall k, mc_order c !! k = None -> sto_order S' k = sto_order S k
}.

Lemma commits_reaches c S S' : commits_markers c S S' -> reaches draft S c S' resting.
Proof.
  intros [Hp C1 C2 C3 C4]. destruct (commits_extends _ _ _ _ _ _ Hp) as [X1 X2]. split.
  - split; cbn; intros id x Hx; right; (split; [apply lookup_empty|]); [by apply X1|by apply X2].
  - intros k r _ [Hk|[Hn Hk]]; right; (split; [apply lookup_empty|]); [by apply C1|by rewrite C2].
  - intros k r _ [Hk|[Hn Hk]]; right; (split; [apply lookup_empty|]); [by apply C3|by rewrite C4].
Qed.

Lemma commits_markers_ok c S S' : stores_ok S -> context_ok S c -> commits_markers c S S' -> stores_ok S'.
Proof.
  intros [S1 S2 S3] Hc [Hp C1 C2 C3 C4]. split.
  - eapply commits_stores_ok; [exact S1|apply Hc|exact Hp].
  - intros k r Hk. destruct (mc_index c !! k) as [r'|] eqn:E; [|rewrite (C2 _ E) in Hk; by eapply S2]. rewrite (C1 _ _ E) in Hk. injection Hk as <-. by eapply mx_new_index.
  - intros k r Hk. destruct (mc_order c !! k) as [r'|] eqn:E; [|rewrite (C4 _ E) in Hk; by eapply S3]. rewrite (C3 _ _ E) in Hk. injection Hk as <-. by eapply mx_new_order.
Qed.

(** The stores behind a quantum: what it emitted before what was there. *)
Definition overlay_markers {V} (emitted : gmap DraftMarkerRecordKey V) (store : DraftMarkerRecordKey -> result (DraftPiecePrepareError R) (option V))
    (k : DraftMarkerRecordKey) : result (DraftPiecePrepareError R) (option V) :=
  match emitted !! k with Some v => Ok (Some v) | None => store k end.
Definition after_quantum (c : MarkerContext) (S : Stores R) : Stores R :=
  mkStores (overlay draft (pb_nodes (mc c)) (sto_nodes S)) (overlay draft (pb_leaves (mc c)) (sto_leaves S))
    (overlay_markers (mc_index c) (sto_index S)) (overlay_markers (mc_order c) (sto_order S)).
Lemma after_quantum_commits c S : commits_markers c S (after_quantum c S).
Proof. split; [apply overlay_commits| | | |]; unfold after_quantum, overlay_markers; cbn; by intros k; intros; match goal with E : _ !! _ = _ |- _ => rewrite E end. Qed.

Record DraftState := mkDraftState { dr_stores : Stores R; dr_active : DraftPieceActiveMarkerEffect }.

Inductive surgery_quantum : DraftState -> DraftState -> Prop :=
  | surgery_quantum_step s c active' c' S' :
      let S := dr_stores s in marker_begins S c ->
      surgery (sto_nodes S) (sto_leaves S) (sto_index S) (sto_order S) (dr_active s) c = Ok (active', c') -> commits_markers c' S S' ->
      surgery_quantum s (mkDraftState S' active').

(** A draft at rest: the stores are valid, the roots stand for the pieces and the trees agree. *)
Definition draft_holds (S : Stores R) (roots : DraftPieceBuildRoots) (ps : list piece) : Prop :=
  stores_ok S /\ exists xs, working (sto_nodes S) (sto_leaves S) (sto_index S) (sto_order S) draft resting roots ps xs.

(** Surgery is for the six pending steps only. *)
Lemma surgery_none (S : Stores R) active c : ac_pending active = Pending.None -> is_err (surgery (R := R) (sto_nodes S) (sto_leaves S) (sto_index S) (sto_order S) active c) = true.
Proof. intros E. unfold surgery, mbind, markerm_bind. destruct (load_working_roots _ _ _ _ c) as [[[[ts ti] to] c1]|]; [|done]. by rewrite E. Qed.
Lemma quantum_not_done s s' : ac_pending (dr_active s) = Pending.None -> ~ surgery_quantum s s'.
Proof. intros E Hq. destruct Hq as [s c active' c' S' S Hb Hs Hc]. pose proof (surgery_none S _ c E) as He. by rewrite Hs in He. Qed.

Lemma marker_ready_false (S : Stores R) l e c : context_ok S c -> marker_ready (sto_nodes S) (sto_leaves S) (sto_index S) (sto_order S) draft session operation False l e c.
Proof. intros Hc. by split. Qed.

Section Removal.
Context (effect : DraftPieceMarkerEffect) (o : occurrence) (site : DraftPieceMarkerRemovalSite) (ps : list piece) (xs : list occurrence).
Context (Heffect : rp_occurrence <$> removal effect = Some o) (Ho : occurrence_typed o) (Hrank : 0 <= rm_piece_rank site) (Hordinal : 0 <= rm_marker_ordinal site).
Abbreviation stage S := (removal_stage (sto_nodes S) (sto_leaves S) (sto_index S) (sto_order S) draft).

Lemma removal_stage_reach (S : Stores R) c (S' : Stores R) c' active : reaches draft S c S' c' -> stage S c active ps xs o site -> stage S' c' active ps xs o site.
Proof.
  intros Hr [[Hs Ha] Hst]. split; [split; [by eapply reach_stored_roots|done]|]. destruct (ac_pending active); try done.
  - destruct Hst as [? ?]. split; [done|]. by eapply reach_stored_pieces.
  - destruct Hst as [[? ?] (ls & rs & ? & ?)]. split; [split; [done|by eapply reach_stored_pieces]|]. exists ls, rs. split; [done|]. by eapply reach_stored_index.
Qed.

(** A removal under way. *)
Definition removing (s : DraftState) : Prop :=
  stores_ok (dr_stores s) /\ ac_effect (dr_active s) = effect /\ ac_removal_site (dr_active s) = Some site /\ stage (dr_stores s) resting (dr_active s) ps xs o site.

Lemma removal_quantum s s' : removing s -> surgery_quantum s s' ->
  match ac_pending (dr_active s) with
  | Pending.RemoveSequence => exists target, dr_active s' = with_pending (dr_active s) (Pending.RemoveIdentity target) /\ removing s'
  | Pending.RemoveIdentity target => exists identity, dr_active s' = with_pending (dr_active s) (Pending.RemoveOrder target identity) /\ removing s'
  | _ => exists roots, dr_active s' = update_active (dr_active s) roots (ac_phase (dr_active s)) None (ac_planning (dr_active s)) None Pending.None
      /\ (exists m, ps !! Z.to_nat (rm_piece_rank site) = Some (LeafMarker m) /\ occurs o m) /\ rm_marker_ordinal site = zlen (markers (take (Z.to_nat (rm_piece_rank site)) ps))
      /\ draft_holds (dr_stores s') roots (without (rm_piece_rank site) ps)
  end.
Proof.
  intros (Hst & He & Hsite & Hstage) Hq. destruct Hq as [s c active' c' S' S Hb Hs Hcm]. pose proof (proj1 Hb) as Hc. cbn [dr_active dr_stores] in *.
  assert (Hexp : expected_occurrence (R := R) (dr_active s) = Ok o) by (unfold expected_occurrence; by rewrite He, Heffect).
  pose proof (mwp_removal_step _ _ _ _ draft session operation False Hst c (dr_active s) ps xs o site (marker_ready_false _ _ _ _ Hc) Hexp Hsite Ho Hrank Hordinal
    (removal_stage_reach _ _ _ _ _ (begins_reaches _ _ Hb) Hstage) (fun F => match F with end)) as Hw. unfold mwp in Hw. fold S in Hw. rewrite Hs in Hw. destruct Hw as [Hc' Hw].
  pose proof (commits_reaches _ _ _ Hcm) as Hre. pose proof (commits_markers_ok _ _ _ Hst Hc' Hcm) as Hst'.
  destruct (ac_pending (dr_active s)) eqn:Ep; try (by destruct Hstage as [_ Hf]; rewrite Ep in Hf).
  - destruct Hw as (target & -> & Hst2). exists target. split; [done|]. split; [done|]. split; [done|]. split; [done|]. by eapply removal_stage_reach.
  - destruct Hw as (identity & -> & Hst2). exists identity. split; [done|]. split; [done|]. split; [done|]. split; [done|]. by eapply removal_stage_reach.
  - destruct Hw as (roots & ys & -> & Hm & Hord & [Hsr Ha]). exists roots. split; [done|]. split; [done|]. split; [done|]. split; [done|]. exists ys. split; [|done].
    exact (reach_stored_roots _ _ _ _ _ Hre _ _ _ _ Hsr).
Qed.

(** Quanta a removal still takes. *)
Definition removal_left (pending : Pending.t) : nat :=
  match pending with Pending.RemoveSequence => 3 | Pending.RemoveIdentity _ => 2 | Pending.RemoveOrder _ _ => 1 | _ => 0 end.

Definition removed (s' : DraftState) : Prop :=
  ac_pending (dr_active s') = Pending.None /\ ac_effect (dr_active s') = effect
  /\ (exists m, ps !! Z.to_nat (rm_piece_rank site) = Some (LeafMarker m) /\ occurs o m) /\ rm_marker_ordinal site = zlen (markers (take (Z.to_nat (rm_piece_rank site)) ps))
  /\ draft_holds (dr_stores s') (ac_working_roots (dr_active s')) (without (rm_piece_rank site) ps).

Lemma removal_run n s s' : nsteps surgery_quantum n s s' -> removing s -> let left := removal_left (ac_pending (dr_active s)) in
  (n <= left)%nat /\ ((n < left)%nat -> removing s' /\ ac_working_roots (dr_active s') = ac_working_roots (dr_active s)) /\ (n = left -> removed s').
Proof.
  induction 1 as [s|n s s1 s' Hq Hs IH]; intros Hr left; unfold left.
  { pose proof Hr as (_ & _ & _ & _ & Hst). destruct (ac_pending (dr_active s)); try done; cbn; (split; [lia|]; split; [done|lia]). }
  pose proof (removal_quantum _ _ Hr Hq) as Hstep. destruct (ac_pending (dr_active s)) as [| | |target|target identity| | |] eqn:Ep; try (by destruct Hr as (_ & _ & _ & _ & Hst); rewrite Ep in Hst).
  - destruct Hstep as (target & E & Hr1). specialize (IH Hr1). rewrite E in IH. cbn in IH. destruct IH as (I1 & I2 & I3). cbn [removal_left]. split; [lia|]. split; [intros ?; apply I2; lia|intros ?; apply I3; lia].
  - destruct Hstep as (identity & E & Hr1). specialize (IH Hr1). rewrite E in IH. cbn in IH. destruct IH as (I1 & I2 & I3). cbn [removal_left]. split; [lia|]. split; [intros ?; apply I2; lia|intros ?; apply I3; lia].
  - destruct Hstep as (roots & E & Hm & Hord & Hh). cbn [removal_left]. destruct Hs as [s1|n s1 s2 s' Hq2 _].
    + split; [lia|]. split; [lia|]. intros _. unfold removed. rewrite E. cbn. split; [done|]. split; [by destruct Hr as (_ & ? & _)|done].
    + exfalso. eapply (quantum_not_done s1 s2); [by rewrite E|done].
Qed.
End Removal.

Section Insertion.
Context (effect : DraftPieceMarkerEffect) (insertion : DraftPieceMarkerInsertion) (site : DraftPieceMarkerInsertionSite) (ps : list piece) (xs : list occurrence).
Abbreviation marker := (in_marker insertion).
Abbreviation boundary := (checked_boundary (is_boundary site)).
Context (Heffect : insertion_of (R := R) effect = Ok insertion) (Hmarker : marker_typed marker) (Hboundary : 0 <= bd_rank (is_boundary site) /\ 0 <= bd_inner (is_boundary site))
        (Hordinal : is_marker_ordinal site = zlen (markers_before boundary ps)).
Abbreviation stage S := (insertion_stage (sto_nodes S) (sto_leaves S) (sto_index S) (sto_order S) draft).

Lemma insertion_stage_reach (S : Stores R) c (S' : Stores R) c' active : reaches draft S c S' c' -> stage S c active ps xs marker site -> stage S' c' active ps xs marker site.
Proof.
  intros Hr [[Hs Ha] Hst]. split; [split; [by eapply reach_stored_roots|done]|]. destruct (ac_pending active); try done.
  - destruct Hst as (? & ? & ? & ?). do 3 (split; [done|]). by eapply reach_stored_pieces.
  - destruct Hst as [(? & ? & ? & ?) (ys & ? & ?)]. split; [do 3 (split; [done|]); by eapply reach_stored_pieces|]. exists ys. split; [done|]. by eapply reach_stored_index.
Qed.

(** An insertion under way. *)
Definition inserting (s : DraftState) : Prop :=
  stores_ok (dr_stores s) /\ ac_effect (dr_active s) = effect /\ ac_insertion_site (dr_active s) = Some site /\ stage (dr_stores s) resting (dr_active s) ps xs marker site.

Lemma insertion_quantum s s' : inserting s -> surgery_quantum s s' ->
  match ac_pending (dr_active s) with
  | Pending.InsertSequence => exists target id dg, dr_active s' = with_pending (dr_active s) (Pending.InsertIdentity target id dg) /\ inserting s'
  | Pending.InsertIdentity target id dg => exists identity, dr_active s' = with_pending (dr_active s) (Pending.InsertOrder target identity id dg) /\ inserting s'
  | _ => exists roots, dr_active s' = update_active (dr_active s) roots PhasePublishing None None None Pending.None
      /\ boundary_in boundary ps /\ draft_holds (dr_stores s') roots (insert_pieces boundary (LeafMarker marker) ps)
  end.
Proof.
  intros (Hst & He & Hsite & Hstage) Hq. destruct Hq as [s c active' c' S' S Hb Hs Hcm]. pose proof (proj1 Hb) as Hc. cbn [dr_active dr_stores] in *.
  assert (Hins : insertion_of (R := R) (ac_effect (dr_active s)) = Ok insertion) by (by rewrite He).
  pose proof (mwp_insertion_step _ _ _ _ draft session operation False Hst c (dr_active s) ps xs insertion site (marker_ready_false _ _ _ _ Hc) Hins Hsite Hmarker Hboundary Hordinal
    (insertion_stage_reach _ _ _ _ _ (begins_reaches _ _ Hb) Hstage) (fun F => match F with end)) as Hw. unfold mwp in Hw. fold S in Hw. rewrite Hs in Hw. destruct Hw as [Hc' Hw].
  pose proof (commits_reaches _ _ _ Hcm) as Hre. pose proof (commits_markers_ok _ _ _ Hst Hc' Hcm) as Hst'.
  destruct (ac_pending (dr_active s)) eqn:Ep; try (by destruct Hstage as [_ Hf]; rewrite Ep in Hf).
  - destruct Hw as (target & id & dg & -> & Hst2). exists target, id, dg. split; [done|]. split; [done|]. split; [done|]. split; [done|]. by eapply insertion_stage_reach.
  - destruct Hw as (identity & -> & Hst2). exists identity. split; [done|]. split; [done|]. split; [done|]. split; [done|]. by eapply insertion_stage_reach.
  - destruct Hw as (roots & ys & -> & Hb' & [Hsr Ha]). exists roots. split; [done|]. split; [done|]. split; [done|]. exists ys. split; [|done].
    exact (reach_stored_roots _ _ _ _ _ Hre _ _ _ _ Hsr).
Qed.

(** Quanta an insertion still takes. *)
Definition insertion_left (pending : Pending.t) : nat :=
  match pending with Pending.InsertSequence => 3 | Pending.InsertIdentity _ _ _ => 2 | Pending.InsertOrder _ _ _ _ => 1 | _ => 0 end.

Definition put_in (s' : DraftState) : Prop :=
  ac_pending (dr_active s') = Pending.None /\ ac_phase (dr_active s') = PhasePublishing /\ ac_effect (dr_active s') = effect
  /\ boundary_in boundary ps /\ draft_holds (dr_stores s') (ac_working_roots (dr_active s')) (insert_pieces boundary (LeafMarker marker) ps).

Lemma insertion_run n s s' : nsteps surgery_quantum n s s' -> inserting s -> let left := insertion_left (ac_pending (dr_active s)) in
  (n <= left)%nat /\ ((n < left)%nat -> inserting s' /\ ac_working_roots (dr_active s') = ac_working_roots (dr_active s)) /\ (n = left -> put_in s').
Proof.
  induction 1 as [s|n s s1 s' Hq Hs IH]; intros Hr left; unfold left.
  { pose proof Hr as (_ & _ & _ & _ & Hst). destruct (ac_pending (dr_active s)); try done; cbn; (split; [lia|]; split; [done|lia]). }
  pose proof (insertion_quantum _ _ Hr Hq) as Hstep. destruct (ac_pending (dr_active s)) as [| | | | | |target id dg|target identity id dg] eqn:Ep; try (by destruct Hr as (_ & _ & _ & _ & Hst); rewrite Ep in Hst).
  - destruct Hstep as (target & id & dg & E & Hr1). specialize (IH Hr1). rewrite E in IH. cbn in IH. destruct IH as (I1 & I2 & I3). cbn [insertion_left]. split; [lia|]. split; [intros ?; apply I2; lia|intros ?; apply I3; lia].
  - destruct Hstep as (identity & E & Hr1). specialize (IH Hr1). rewrite E in IH. cbn in IH. destruct IH as (I1 & I2 & I3). cbn [insertion_left]. split; [lia|]. split; [intros ?; apply I2; lia|intros ?; apply I3; lia].
  - destruct Hstep as (roots & E & Hb & Hh). cbn [insertion_left]. destruct Hs as [s1|n s1 s2 s' Hq2 _].
    + split; [lia|]. split; [lia|]. intros _. unfold put_in. rewrite E. cbn. split; [done|]. split; [done|]. split; [by destruct Hr as (_ & ? & _)|done].
    + exfalso. eapply (quantum_not_done s1 s2); [by rewrite E|done].
Qed.
End Insertion.

(** ** From one quantum to the next *)

(** The next quantum starts at the record ordinal the last one left, with a map and a budget of
    its own. *)
Definition next_context (c : MarkerContext) (mapping : option DraftPieceBuildMapping) (acquisition : option Acquired) : MarkerContext :=
  mkMarkers (mkPieces (mkBuild draft (Some session) operation (bc_ordinal (pb (mc c))) 0 mapping [] acquisition) ∅ ∅ ∅ ∅) ∅ ∅ ∅ ∅.

Lemma fresh_cached (S : Stores R) : stores_ok S -> cached (sto_nodes S) (sto_leaves S) (sto_index S) (sto_order S) fresh_budget.
Proof.
  intros [[_ S1 S2 _] S3 S4]. assert (Hc : forall K V `(FamilyLaws K V) (store : K -> result (DraftPiecePrepareError R) (option V)), (forall k, typed_read (store k)) -> cache_ok fresh_budget store).
  { intros K V ? ? store Hty. split; [done|]. intros k ek e _ _ Hl. cbn in Hl. by rewrite lookup_empty in Hl. }
  split; [by vm_compute|]. split; [split|split]; apply Hc; try apply _; intros k v Hv; [exact (S1 _ _ Hv)|exact (S2 _ _ Hv)|exact (S3 _ _ Hv)|exact (S4 _ _ Hv)].
Qed.

Lemma next_begins c (S S' : Stores R) mapping : stores_ok S -> context_ok S c -> commits_markers c S S' -> marker_begins S' (next_context c mapping (Some fresh_budget)).
Proof.
  intros Hst Hc Hcm. pose proof (commits_markers_ok _ _ _ Hst Hc Hcm) as Hst'. pose proof (fresh_cached _ Hst') as Hfresh. destruct Hcm as [[P1 P2 P3 P4 _] C1 C2 C3 C4].
  split; [|done]. pose proof (mx_pieces _ _ _ _ _ _ _ _ Hc) as Hp. split; cbn; try done.
  - split; cbn; try done.
    + apply Hp.
    + intros a [= <-]. by destruct Hfresh as (? & ? & _).
    + intros o dg Ho Hle. destruct (pc_fresh _ _ _ _ _ _ Hp o dg Ho Hle) as (F1 & F2 & F3 & F4). by rewrite (P2 _ F3), (P4 _ F4).
  - by intros a [= <-].
  - intros o dg kind Ho Hle. destruct (mx_fresh _ _ _ _ _ _ _ _ Hc o dg kind Ho Hle) as (F1 & F2 & F3 & F4). by rewrite (C2 _ F3), (C4 _ F4).
Qed.
End Runs.
