(* ===== verification/DraftTheorems.v ===== *)
(** * The roots of a draft build: what the surgery of a marker does

    The runs in which a marker leaves a draft or enters it, one quantum with its failures, and
    the roots as what is kept of the three trees; each with a concrete run. *)
From stdpp Require Import prelude gmap strings.
From S2P Require Import Prelude.
From S2P Require Import Bytes.
From S2P Require Import ModelDigest.
From S2P Require Import SyndicParts.
From S2P Require Import BuildBudget.
From S2P Require Import MappingModel.
From S2P Require Import MappingEdit.
From S2P Require Import MappingProgram.
From S2P Require Import PieceModel.
From S2P Require Import PieceCodec.
From S2P Require Import PieceTree.
From S2P Require Import PieceDenote.
From S2P Require Import PieceSequence.
From S2P Require Import PieceEdit.
From S2P Require Import PieceRemove.
From S2P Require Import PieceSymbols.
From S2P Require Import PieceRoots.
From S2P Require Import TextRuns.
From S2P Require Import PieceTheorems.
From S2P Require Import MarkerModel.
From S2P Require Import MarkerCodec.
From S2P Require Import MarkerTree.
From S2P Require Import MarkerBalance.
From S2P Require Import MarkerDenote.
From S2P Require Import MarkerEdit.
From S2P Require Import MarkerIndex.
From S2P Require Import MarkerTheorems.
From S2P Require Import DraftRoots.
From S2P Require Import DraftStored.
From S2P Require Import DraftAgree.
From S2P Require Import DraftSurgery.
From S2P Require Import DraftRuns.

(** ** What a draft shows *)

Lemma without_symbols ps rank m : 0 <= rank -> ps !! Z.to_nat rank = Some (LeafMarker m) ->
  symbols (without rank ps) = splice (seq_units (take (Z.to_nat rank) ps)) 1 [] (symbols ps).
Proof.
  intros Hr Hm. unfold without. rewrite <- (take_drop_middle ps _ _ Hm) at 4. rewrite !symbols_app, symbols_cons.
  rewrite splice_mid; rewrite ?symbols_length; cbn [piece_symbols length]; try lia. by rewrite Z.sub_diag.
Qed.

Lemma without_markers ps rank m : ps !! Z.to_nat rank = Some (LeafMarker m) ->
  markers (without rank ps) = delete (length (markers (take (Z.to_nat rank) ps))) (markers ps).
Proof. intros Hm. unfold without. rewrite markers_without, (markers_at _ _ _ Hm). by rewrite delete_middle. Qed.

(** ** Runs *)

(** C25: the surgery of a marker that leaves a draft.  The roots hold a draft: the stores are
    valid, the pieces are in the tree, the index and the order are of the markers among them, and
    the index names the leaf of the tree that holds each marker.
    In every run of quanta there are at most three; until the third the working roots stay and
    hold the draft they held.  After the third the marker that was at the rank is the one the
    effect names, its ordinal is the one of the site, and the new roots hold the draft without
    it: the same bytes and markers with that one taken out, in all three trees. *)
Theorem marker_removal_run {H} `{Sha256Laws H} {R} draft session operation n (s s' : DraftState (R := R)) proof site ps :
  let active := dr_active s in let rank := rm_piece_rank site in let o := rp_occurrence proof in
  draft_holds draft session operation (dr_stores s) (ac_working_roots active) ps ->
  ac_pending active = Pending.RemoveSequence -> removal (ac_effect active) = Some proof -> ac_removal_site active = Some site ->
  occurrence_typed o -> 0 <= rank -> 0 <= rm_marker_ordinal site ->
  nsteps (surgery_quantum draft session operation) n s s' ->
  (n <= 3)%nat
  /\ ((n < 3)%nat -> ac_working_roots (dr_active s') = ac_working_roots active /\ draft_holds draft session operation (dr_stores s') (ac_working_roots active) ps)
  /\ (n = 3%nat -> ac_pending (dr_active s') = Pending.None
      /\ (exists m, ps !! Z.to_nat rank = Some (LeafMarker m) /\ occurs o m)
      /\ exists ps', draft_holds draft session operation (dr_stores s') (ac_working_roots (dr_active s')) ps'
           /\ symbols ps' = splice (seq_units (take (Z.to_nat rank) ps)) 1 [] (symbols ps)
           /\ markers ps' = delete (Z.to_nat (rm_marker_ordinal site)) (markers ps)).
Proof.
  intros active rank o [Hst [xs Hw]] Hp He Hsite Ho Hr Hord Hrun.
  assert (Hrem : removing draft session operation (ac_effect active) o site ps xs s). { split; [done|]. split; [done|]. split; [done|]. split; [done|]. by fold active; rewrite Hp. }
  pose proof (removal_run draft session operation (ac_effect active) o site ps xs ltac:(by rewrite He) Ho Hr Hord n s s' Hrun Hrem) as (N1 & N2 & N3).
  fold active in N1, N2, N3. rewrite Hp in N1, N2, N3. split; [done|]. split.
  - intros Hn. destruct (N2 Hn) as [(Hst' & _ & _ & Hw' & _) E]. rewrite E in Hw'. split; [done|]. split; [done|]. by exists xs.
  - intros Hn. destruct (N3 Hn) as (P1 & _ & (m & Em & Hom) & Eord & Hh). split; [done|]. split; [by exists m|]. exists (without rank ps). split; [done|].
    split; [by eapply without_symbols|]. rewrite (without_markers ps rank m Em), Eord. by rewrite Nat2Z.id.
Qed.

(** C26: the surgery of a marker that enters a draft at a site whose marker ordinal is the number
    of markers before its boundary.  In every run of quanta there are at most three; until the
    third the working roots stay and hold the draft they held.  After the third the new roots hold
    the draft with the marker at the boundary of the site, in all three trees: the bytes as they
    were, the markers in order with the new one between those before the boundary and those
    behind it, and the index naming for every marker, the new one too, the leaf of the tree of
    pieces that holds it. *)
Theorem marker_insertion_run {H} `{Sha256Laws H} {R} draft session operation n (s s' : DraftState (R := R)) insertion site ps :
  let active := dr_active s in let b := checked_boundary (is_boundary site) in let marker := in_marker insertion in
  draft_holds draft session operation (dr_stores s) (ac_working_roots active) ps ->
  ac_pending active = Pending.InsertSequence -> insertion_of (R := R) (ac_effect active) = Ok insertion -> ac_insertion_site active = Some site ->
  marker_typed marker -> 0 <= bd_rank (is_boundary site) /\ 0 <= bd_inner (is_boundary site) -> is_marker_ordinal site = zlen (markers_before b ps) ->
  nsteps (surgery_quantum draft session operation) n s s' ->
  (n <= 3)%nat
  /\ ((n < 3)%nat -> ac_working_roots (dr_active s') = ac_working_roots active /\ draft_holds draft session operation (dr_stores s') (ac_working_roots active) ps)
  /\ (n = 3%nat -> ac_pending (dr_active s') = Pending.None /\ ac_phase (dr_active s') = PhasePublishing /\ boundary_in b ps
      /\ exists ps', draft_holds draft session operation (dr_stores s') (ac_working_roots (dr_active s')) ps'
           /\ symbols ps' = splice (unit_at b ps) 0 (symbols [LeafMarker marker]) (symbols ps)
           /\ markers ps' = markers_before b ps ++ marker :: markers_behind b ps).
Proof.
  intros active b marker [Hst [xs Hw]] Hp He Hsite Hm Hb Hord Hrun.
  assert (Hins : inserting draft session operation (ac_effect active) insertion site ps xs s). { split; [done|]. split; [done|]. split; [done|]. split; [done|]. by fold active; rewrite Hp. }
  pose proof (insertion_run draft session operation (ac_effect active) insertion site ps xs He Hm Hb Hord n s s' Hrun Hins) as (N1 & N2 & N3).
  fold active in N1, N2, N3. rewrite Hp in N1, N2, N3. split; [done|]. split.
  - intros Hn. destruct (N2 Hn) as [(Hst' & _ & _ & Hw' & _) E]. rewrite E in Hw'. split; [done|]. split; [done|]. by exists xs.
  - intros Hn. destruct (N3 Hn) as (P1 & P2 & _ & Hin & Hh). do 3 (split; [done|]). exists (insert_pieces b (LeafMarker marker) ps). split; [done|].
    split; [by apply insert_symbols|by apply markers_insert].
Qed.

(** ** One quantum *)

Section Quantum.
Context {H : Type} `{Sha256Laws H} {R : Type} (draft session operation : list byte) (S : Stores R).
Abbreviation context_ok := (marker_context_ok (sto_nodes S) (sto_leaves S) (sto_index S) (sto_order S) draft session operation).
Abbreviation surgery := (surgery (sto_nodes S) (sto_leaves S) (sto_index S) (sto_order S)).
Abbreviation removal_at := (removal_stage (sto_nodes S) (sto_leaves S) (sto_index S) (sto_order S) draft).
Abbreviation insertion_at := (insertion_stage (sto_nodes S) (sto_leaves S) (sto_index S) (sto_order S) draft).
Abbreviation holds_at := (working (sto_nodes S) (sto_leaves S) (sto_index S) (sto_order S) draft).

(** The resources of a quantum. *)
Definition surgery_resources (c : MarkerContext) (roots : DraftPieceBuildRoots) : Prop := piece_able (surgery_loads roots) (surgery_emitted roots) (mc c).

(** C27: one quantum of the surgery of a marker, at every pending step of a removal and of an
    insertion.  It moves to the next step, or, at the last one, to roots that hold the draft
    without the marker (with it).  It fails only if resources do not suffice, a tree is at its
    height limit, or what the step needs is not there: the leaf and the occurrence of the
    marker to remove, its ordinal, the exact charges, a boundary in the draft, room in the
    counts and the order of the markers, an unused identity, the splice the map has ready. *)
Theorem surgery_quantum_exact c active ps xs : marker_stores_ok (sto_nodes S) (sto_leaves S) (sto_index S) (sto_order S) draft session operation -> context_ok c ->
  (forall o site, expected_occurrence (R := R) active = Ok o -> ac_removal_site active = Some site -> occurrence_typed o ->
    0 <= rm_piece_rank site -> 0 <= rm_marker_ordinal site -> removal_at c active ps xs o site ->
    match surgery active c with
    | Ok (active', c') => context_ok c' /\ (removal_left (ac_pending active) = 1 + removal_left (ac_pending active'))%nat
        /\ if (removal_left (ac_pending active) =? 1)%nat then exists ys, holds_at c' (ac_working_roots active') (without (rm_piece_rank site) ps) ys
           else removal_at c' active' ps xs o site
    | Err _ => ~ (surgery_resources c (ac_working_roots active) /\ removal_able (R := R) (sto_nodes S) (sto_leaves S) draft c active ps xs o site)
    end)
  /\ (forall insertion site, insertion_of (R := R) (ac_effect active) = Ok insertion -> ac_insertion_site active = Some site -> marker_typed (in_marker insertion) ->
    0 <= bd_rank (is_boundary site) /\ 0 <= bd_inner (is_boundary site) -> is_marker_ordinal site = zlen (markers_before (checked_boundary (is_boundary site)) ps) ->
    insertion_at c active ps xs (in_marker insertion) site ->
    match surgery active c with
    | Ok (active', c') => context_ok c' /\ (insertion_left (ac_pending active) = 1 + insertion_left (ac_pending active'))%nat
        /\ if (insertion_left (ac_pending active) =? 1)%nat
           then exists ys, holds_at c' (ac_working_roots active') (insert_pieces (checked_boundary (is_boundary site)) (LeafMarker (in_marker insertion)) ps) ys
           else insertion_at c' active' ps xs (in_marker insertion) site
    | Err _ => ~ (surgery_resources c (ac_working_roots active) /\ insertion_able (R := R) c active ps xs (in_marker insertion) site)
    end).
Proof.
  intros Hst Hc. split.
  - intros o site He Hs Ho Hr Hord Hstage. set (P := surgery_resources c (ac_working_roots active) /\ _).
    pose proof (mwp_removal_step _ _ _ _ draft session operation P Hst c active ps xs o site (mkMarkerReady _ _ _ _ _ _ _ P _ _ _ Hc (fun p => proj1 p)) He Hs Ho Hr Hord Hstage (fun p => proj2 p)) as Hw.
    unfold mwp in Hw. destruct (surgery active c) as [[active' c']|]; [|exact Hw]. destruct Hw as [Hc' Hw]. split; [done|]. destruct Hstage as [_ Hstage].
    destruct (ac_pending active); try done.
    + by destruct Hw as (target & -> & Hw).
    + by destruct Hw as (identity & -> & Hw).
    + destruct Hw as (roots & ys & -> & _ & _ & Hw). split; [done|]. by exists ys.
  - intros insertion site He Hs Ho Hr Hord Hstage. set (P := surgery_resources c (ac_working_roots active) /\ _).
    pose proof (mwp_insertion_step _ _ _ _ draft session operation P Hst c active ps xs insertion site (mkMarkerReady _ _ _ _ _ _ _ P _ _ _ Hc (fun p => proj1 p)) He Hs Ho Hr Hord Hstage (fun p => proj2 p)) as Hw.
    unfold mwp in Hw. destruct (surgery active c) as [[active' c']|]; [|exact Hw]. destruct Hw as [Hc' Hw]. split; [done|]. destruct Hstage as [_ Hstage].
    destruct (ac_pending active); try done.
    + by destruct Hw as (target & id & dg & -> & Hw).
    + by destruct Hw as (identity & -> & Hw).
    + destruct Hw as (roots & ys & -> & _ & Hw). split; [done|]. by exists ys.
Qed.

(** Build the roots of three trees, and load the roots again. *)
Definition kept_roots (sequence : option SequenceRef) (index : option IndexRef) (order : option MarkerOrderRef)
    : markerm R (option SequenceRef * option IndexRef * option MarkerOrderRef) :=
  roots ← build_roots (sto_nodes S) (sto_index S) (sto_order S) sequence index order;
  load_working_roots (sto_nodes S) (sto_index S) (sto_order S) roots.

(** The roots are what is kept of the three trees.  Building the roots of trees of one
    draft and loading them gives trees with the same pieces, the same occurrences and the same
    markers in order; it fails only for lack of resources. *)
Theorem working_roots_roundtrip c sequence index order ps xs ms :
  marker_stores_ok (sto_nodes S) (sto_leaves S) (sto_index S) (sto_order S) draft session operation -> context_ok c ->
  let trees := trees (R := R) (sto_nodes S) (sto_leaves S) (sto_index S) (sto_order S) draft in
  trees c sequence index order ps xs ms -> zlen ms = seq_markers ps -> zlen xs = seq_markers ps ->
  match kept_roots sequence index order c with
  | Ok ((sequence', index', order'), c') => context_ok c' /\ trees c' sequence' index' order' ps xs ms
  | Err _ => ~ piece_able (height_of sequence + (tree_height index + (tree_height order + 3))) 1 (mc c)
  end.
Proof.
  intros Hst Hc trees Ht Em Ex. set (P := piece_able _ _ _).
  assert (Hw : mwp (R := R) P (kept_roots sequence index order) c (fun '(sequence', index', order') c' => context_ok c' /\ trees c' sequence' index' order' ps xs ms)).
  - unfold kept_roots. apply mwp_bind. eapply mwp_mono.
    + eapply (mwp_build_roots _ _ _ _ draft session operation P Hst 3 0 c); [exact (mkMarkerReady _ _ _ _ _ _ _ P _ _ _ Hc (fun p => p))|exact Ht|done|done].
    + intros roots c1 (Hs & Hr1 & _). eapply mwp_mono; [eapply (mwp_load_working_roots _ _ _ _ _ _ _ P Hst 0 0 c1); [exact Hr1|exact Hs]|].
      intros [[sequence' index'] order'] c2 (Ht2 & _ & _ & _ & [Hc2 _] & _). by split.
  - unfold mwp in Hw. by destruct (kept_roots _ _ _ _) as [[[[sequence' index'] order'] c']|].
Qed.
End Quantum.

(** ** A marker enters the empty draft and leaves it *)

Abbreviation sample_surgery S := (surgery (H := tail_hash) (R := unit) (sto_nodes S) (sto_leaves S) (sto_index S) (sto_order S)).
Abbreviation sample_quantum := (surgery_quantum (H := tail_hash) (R := unit) sample_draft sample_session sample_operation).
Abbreviation sample_begin := (marker_begins (H := tail_hash) (R := unit) sample_draft sample_session sample_operation).
Abbreviation sample_holds := (draft_holds (H := tail_hash) (R := unit) sample_draft sample_session sample_operation).
Abbreviation sample_stores S := (marker_stores_ok (H := tail_hash) (R := unit) (sto_nodes S) (sto_leaves S) (sto_index S) (sto_order S) sample_draft sample_session sample_operation).
Abbreviation sample_fine S := (marker_context_ok (H := tail_hash) (R := unit) (sto_nodes S) (sto_leaves S) (sto_index S) (sto_order S) sample_draft sample_session sample_operation).
Abbreviation sample_state := (DraftState (R := unit)).

(** A quantum, its records stored, and the context of the next one with its map. *)
Definition run_quantum (x : option (sample_state * MarkerContext)) (mapping : DraftPieceBuildMapping) : option (sample_state * MarkerContext) :=
  match x with
  | Some (s, c) =>
      match sample_surgery (dr_stores s) (dr_active s) c with
      | Ok (active', c') => Some (mkDraftState (after_quantum sample_draft c' (dr_stores s)) active', next_context sample_draft sample_session sample_operation c' (Some mapping) (Some fresh_budget))
      | Err _ => None
      end
  | None => None
  end.
Definition run_quanta (s : sample_state) (c : MarkerContext) (maps : list DraftPieceBuildMapping) : option (sample_state * MarkerContext) := foldl run_quantum (Some (s, c)) maps.

Section Chain.
Context (good : sample_state -> Prop) (s0 : sample_state) (c0 : MarkerContext).
Context (Hgood : forall s, good s -> sample_stores (dr_stores s))
        (Hkeeps : forall s c active' c', good s -> sample_begin (dr_stores s) c -> sample_surgery (dr_stores s) (dr_active s) c = Ok (active', c') -> sample_fine (dr_stores s) c')
        (Hchain : forall n s, nsteps sample_quantum n s0 s -> good s \/ ac_pending (dr_active s) = Pending.None)
        (Hbegins : sample_begin (dr_stores s0) c0).

Lemma run_quanta_steps maps s c : run_quanta s0 c0 maps = Some (s, c) -> nsteps sample_quantum (length maps) s0 s /\ sample_begin (dr_stores s) c.
Proof.
  revert s c. induction maps as [|m maps IH] using rev_ind; intros s c.
  - intros [= <- <-]. split; [constructor|done].
  - unfold run_quanta. rewrite foldl_snoc. fold (run_quanta s0 c0 maps). destruct (run_quanta s0 c0 maps) as [[s1 c1]|]; [|done]. destruct (IH _ _ eq_refl) as [Hn Hb].
    unfold run_quantum. destruct (sample_surgery _ _ _) as [[active' c']|e] eqn:E; [|done]. intros [= <- <-].
    destruct (Hchain _ _ Hn) as [Hg|Hp]; [|pose proof (surgery_none (H := tail_hash) (R := unit) (dr_stores s1) (dr_active s1) c1 Hp) as Hf; by rewrite E in Hf].
    pose proof (Hkeeps _ _ _ _ Hg Hb E) as Hc'. split.
    + rewrite length_app, Nat.add_comm. cbn. rewrite <- Nat.add_1_r. eapply nsteps_trans; [exact Hn|]. eapply nsteps_l; [|constructor]. by eapply surgery_quantum_step; [exact Hb|exact E|apply after_quantum_commits].
    + cbn [dr_stores]. eapply next_begins; [by apply Hgood|exact Hc'|apply after_quantum_commits].
Qed.
End Chain.

Lemma inserting_keeps effect insertion site ps xs : insertion_of (R := unit) effect = Ok insertion -> marker_typed (in_marker insertion) ->
  0 <= bd_rank (is_boundary site) /\ 0 <= bd_inner (is_boundary site) -> is_marker_ordinal site = zlen (markers_before (checked_boundary (is_boundary site)) ps) ->
  forall (s : sample_state) c active' c', inserting (H := tail_hash) sample_draft sample_session sample_operation effect insertion site ps xs s -> sample_begin (dr_stores s) c ->
  sample_surgery (dr_stores s) (dr_active s) c = Ok (active', c') -> sample_fine (dr_stores s) c'.
Proof.
  intros He Hm Hb Ho s c active' c' (Hst & Hef & Hsite & Hstage) Hbeg E.
  pose proof (mwp_insertion_step _ _ _ _ sample_draft sample_session sample_operation False Hst c (dr_active s) ps xs insertion site (marker_ready_false _ _ _ _ _ _ _ (proj1 Hbeg))
    ltac:(by rewrite Hef) Hsite Hm Hb Ho (insertion_stage_reach _ _ _ _ _ _ _ _ _ _ (begins_reaches _ _ _ _ _ Hbeg) Hstage) (fun F => match F with end)) as Hw.
  unfold mwp in Hw. rewrite E in Hw. by destruct Hw.
Qed.
Lemma removing_keeps effect o site ps xs : rp_occurrence <$> removal effect = Some o -> occurrence_typed o -> 0 <= rm_piece_rank site -> 0 <= rm_marker_ordinal site ->
  forall (s : sample_state) c active' c', removing (H := tail_hash) sample_draft sample_session sample_operation effect o site ps xs s -> sample_begin (dr_stores s) c ->
  sample_surgery (dr_stores s) (dr_active s) c = Ok (active', c') -> sample_fine (dr_stores s) c'.
Proof.
  intros He Ho Hr Hord s c active' c' (Hst & Hef & Hsite & Hstage) Hbeg E.
  pose proof (mwp_removal_step _ _ _ _ sample_draft sample_session sample_operation False Hst c (dr_active s) ps xs o site (marker_ready_false _ _ _ _ _ _ _ (proj1 Hbeg))
    ltac:(unfold expected_occurrence; by rewrite Hef, He) Hsite Ho Hr Hord (removal_stage_reach _ _ _ _ _ _ _ _ _ _ (begins_reaches _ _ _ _ _ Hbeg) Hstage) (fun F => match F with end)) as Hw.
  unfold mwp in Hw. rewrite E in Hw. by destruct Hw.
Qed.

Definition no_stores : Stores unit := mkStores no_nodes no_leaves no_index no_order.
Definition empty_roots : DraftPieceBuildRoots := mkBuildRoots None sample_empty None (empty_index (H := tail_hash)) None 0 (canonical_empty_draft_marker_commitment (H := tail_hash)).
Definition sample_insertion : DraftPieceMarkerInsertion := mkInsertion 0 sample_marker (for_marker sample_marker).
Definition insertion_site : DraftPieceMarkerInsertionSite := mkInsertionSite at_start 0.
Definition sample_key : DraftPieceBuildFragmentKey := mkFragmentKey sample_draft sample_session sample_operation 0.
Definition insert_active : DraftPieceActiveMarkerEffect :=
  mkActive sample_key (replicate 32 x04) (EffectInsert sample_insertion) empty_roots empty_roots 0 1 PhaseInserting None None (Some insertion_site) Pending.InsertSequence.
Definition enter_map : DraftPieceBuildMapping := sample_mapping 0 (mkReadySplice MarkerInsert 0 0 1 (MapIdentity 1)).
Definition leave_map : DraftPieceBuildMapping := sample_mapping 1 (mkReadySplice MarkerDelete 0 1 0 MapEmpty).
Definition empty_draft : sample_state := mkDraftState no_stores insert_active.
Definition insert_context : MarkerContext := mkMarkers (sample_pieces 1 (Some enter_map)) ∅ ∅ ∅ ∅.
Definition enter_maps : list DraftPieceBuildMapping := [enter_map; enter_map; leave_map].

Lemma empty_holds : sample_holds no_stores empty_roots [].
Proof.
  split; [exact empty_markers_ok|]. exists []. split; [|split; [done|by exists []]]. split; try done.
Qed.

Lemma insert_begins : sample_begin no_stores insert_context.
Proof.
  split; [|done].
  assert (Hb : quantum_begins (H := tail_hash) sample_draft sample_session sample_operation no_nodes no_leaves (sample_pieces 1 (Some enter_map))) by (apply sample_begins; [apply empty_stores_ok|by split|done]).
  split; cbn; try done; [apply Hb|]. intros a [= <-]. exact (fresh_cached sample_draft sample_session sample_operation no_stores empty_markers_ok).
Qed.

Lemma sample_marker_typed : marker_typed sample_marker.
Proof. exact (proj1 sample_marker_ok). Qed.

(** The draft with the marker. *)
Lemma sample_inserted : exists s c, run_quanta empty_draft insert_context enter_maps = Some (s, c) /\ nsteps sample_quantum 3 empty_draft s /\ sample_begin (dr_stores s) c
  /\ sample_holds (dr_stores s) (ac_working_roots (dr_active s)) [LeafMarker sample_marker].
Proof.
  destruct empty_holds as [Hst [xs Hw]].
  assert (Hins : inserting (H := tail_hash) sample_draft sample_session sample_operation (EffectInsert sample_insertion) sample_insertion insertion_site [] xs empty_draft).
  { split; [done|]. split; [done|]. split; [done|]. by split. }
  pose proof (insertion_run (H := tail_hash) (R := unit) sample_draft sample_session sample_operation (EffectInsert sample_insertion) sample_insertion insertion_site [] xs eq_refl sample_marker_typed
    (conj (Z.le_refl 0) (Z.le_refl 0)) eq_refl) as Hrun.
  destruct (run_quanta empty_draft insert_context enter_maps) as [[s c]|] eqn:E.
  2: { assert (match run_quanta empty_draft insert_context enter_maps with Some _ => true | None => false end = true) as Hok by (vm_compute; reflexivity). by rewrite E in Hok. }
  exists s, c. split; [done|].
  destruct (run_quanta_steps (inserting sample_draft sample_session sample_operation (EffectInsert sample_insertion) sample_insertion insertion_site [] xs) empty_draft insert_context
    (fun s Hs => proj1 Hs) (inserting_keeps (EffectInsert sample_insertion) sample_insertion insertion_site [] xs eq_refl sample_marker_typed (conj (Z.le_refl 0) (Z.le_refl 0)) eq_refl)) with (maps := enter_maps) (s := s) (c := c) as [Hn Hb].
  - intros n s1 Hn. destruct (Hrun _ _ _ Hn Hins) as (N1 & N2 & N3). cbn in N1. destruct (decide (n = 3%nat)) as [->|]; [right; by apply N3|left; apply N2; cbn; lia].
  - exact insert_begins.
  - exact E.
  - split; [exact Hn|]. split; [done|]. destruct (Hrun _ _ _ Hn Hins) as (_ & _ & N3). by destruct (N3 eq_refl) as (_ & _ & _ & _ & ?).
Qed.

Lemma marker_insertion_run_witness : exists s', nsteps sample_quantum 3 empty_draft s' /\ ac_pending (dr_active s') = Pending.None
  /\ exists ps', sample_holds (dr_stores s') (ac_working_roots (dr_active s')) ps' /\ markers ps' = [sample_marker].
Proof.
  destruct sample_inserted as (s & c & _ & Hn & _). exists s. split; [exact Hn|].
  destruct (marker_insertion_run (H := tail_hash) (R := unit) sample_draft sample_session sample_operation 3 empty_draft s sample_insertion insertion_site []
    empty_holds eq_refl eq_refl eq_refl sample_marker_typed (conj (Z.le_refl 0) (Z.le_refl 0)) eq_refl Hn) as (_ & _ & N).
  destruct (N eq_refl) as (E & _ & _ & ps' & Hh & _ & Em). split; [exact E|]. exists ps'. split; [exact Hh|exact Em].
Defined.

(** The leaf the first quantum made. *)
Definition sample_leaf : list byte * list byte :=
  match run_quanta empty_draft insert_context [enter_map] with
  | Some (s, _) => match ac_pending (dr_active s) with Pending.InsertIdentity _ id dg => (id, dg) | _ => ([], []) end
  | None => ([], [])
  end.
Definition sample_proof : DraftPieceMarkerRemovalProof := mkRemoval (mkPosition 0 Unambiguous) (occurrence_of sample_marker sample_leaf.1 sample_leaf.2).
Definition removal_site : DraftPieceMarkerRemovalSite := mkRemovalSite 0 0.
Definition remove_effect : DraftPieceMarkerEffect := EffectRemove sample_proof (for_marker sample_marker).
Definition remove_active (roots : DraftPieceBuildRoots) : DraftPieceActiveMarkerEffect :=
  mkActive sample_key (replicate 32 x04) remove_effect roots roots 0 1 PhaseRemoving (Some removal_site) None None Pending.RemoveSequence.
Definition remove_from (s : sample_state) : sample_state := mkDraftState (dr_stores s) (remove_active (ac_working_roots (dr_active s))).
Definition leave_maps : list DraftPieceBuildMapping := replicate 3 leave_map.
Definition out_and_in : option (sample_state * MarkerContext) :=
  match run_quanta empty_draft insert_context enter_maps with Some (s, c) => run_quanta (remove_from s) c leave_maps | None => None end.

Lemma sample_proof_typed : occurrence_typed (rp_occurrence sample_proof).
Proof. unfold occurrence_typed, piece_asset_valid, is_rev, is_u64, fixed. vm_compute. by split_and!. Qed.

Lemma marker_removal_run_witness : exists s s', sample_holds (dr_stores s) (ac_working_roots (dr_active s)) [LeafMarker sample_marker] /\ nsteps sample_quantum 3 s s'
  /\ exists ps', sample_holds (dr_stores s') (ac_working_roots (dr_active s')) ps' /\ symbols ps' = [] /\ markers ps' = [].
Proof.
  destruct sample_inserted as (s0 & c0 & E0 & _ & Hb & Hh). set (s := remove_from s0). pose proof Hh as [Hst [xs Hw]].
  assert (Hrem : removing (H := tail_hash) sample_draft sample_session sample_operation remove_effect (rp_occurrence sample_proof) removal_site [LeafMarker sample_marker] xs s).
  { split; [done|]. split; [done|]. split; [done|]. by split. }
  pose proof (removal_run (H := tail_hash) (R := unit) sample_draft sample_session sample_operation remove_effect (rp_occurrence sample_proof) removal_site [LeafMarker sample_marker] xs eq_refl
    sample_proof_typed (Z.le_refl 0) (Z.le_refl 0)) as Hrun.
  destruct (run_quanta s c0 leave_maps) as [[s' c']|] eqn:E.
  2: { assert (match out_and_in with Some _ => true | None => false end = true) as Hok by (vm_compute; reflexivity). unfold out_and_in in Hok. rewrite E0 in Hok. fold s in Hok. by rewrite E in Hok. }
  destruct (run_quanta_steps (removing sample_draft sample_session sample_operation remove_effect (rp_occurrence sample_proof) removal_site [LeafMarker sample_marker] xs) s c0
    (fun s Hs => proj1 Hs) (removing_keeps remove_effect (rp_occurrence sample_proof) removal_site [LeafMarker sample_marker] xs eq_refl sample_proof_typed (Z.le_refl 0) (Z.le_refl 0)))
    with (maps := leave_maps) (s := s') (c := c') as [Hn _]; [|exact Hb|exact E|].
  { intros n s1 Hn. destruct (Hrun _ _ _ Hn Hrem) as (N1 & N2 & N3). cbn in N1. destruct (decide (n = 3%nat)) as [->|]; [right; by apply N3|left; apply N2; cbn; lia]. }
  exists s, s'. split; [exact Hh|]. split; [exact Hn|].
  destruct (marker_removal_run (H := tail_hash) (R := unit) sample_draft sample_session sample_operation 3 s s' sample_proof removal_site [LeafMarker sample_marker]
    Hh eq_refl eq_refl eq_refl sample_proof_typed (Z.le_refl 0) (Z.le_refl 0) Hn) as (_ & _ & N).
  destruct (N eq_refl) as (_ & _ & ps' & Hh' & Es & Em). exists ps'. split; [exact Hh'|]. split; [exact Es|exact Em].
Defined.

Lemma surgery_quantum_exact_witness : exists active' c', sample_surgery no_stores insert_active insert_context = Ok (active', c') /\ insertion_left (ac_pending active') = 2%nat.
Proof.
  destruct empty_holds as [Hst [xs Hw]].
  assert (Hstage : insertion_stage (H := tail_hash) (R := unit) no_nodes no_leaves no_index no_order sample_draft (resting sample_draft sample_operation) insert_active [] xs sample_marker insertion_site) by (by split).
  apply (insertion_stage_reach sample_draft sample_insertion insertion_site [] xs _ _ _ _ _ (begins_reaches _ _ _ _ _ insert_begins)) in Hstage.
  pose proof (proj2 (surgery_quantum_exact (H := tail_hash) (R := unit) sample_draft sample_session sample_operation no_stores insert_context insert_active [] xs Hst (proj1 insert_begins))
    sample_insertion insertion_site eq_refl eq_refl sample_marker_typed (conj (Z.le_refl 0) (Z.le_refl 0)) eq_refl Hstage) as Hx.
  destruct (sample_surgery _ _ _) as [[active' c']|] eqn:E.
  - exists active', c'. split; [reflexivity|]. destruct Hx as (_ & Hl & _). cbn in Hl. by injection Hl as <-.
  - exfalso. apply Hx. split; [apply (sample_pieces_able 8 5); lia|]. split; [by vm_compute|]. cbn. split; [reflexivity|]. split; [left; cbn; lia|]. split; [reflexivity|].
    split; [repeat constructor|by vm_compute].
Defined.

(** The trees of the draft with the marker. *)
Lemma sample_trees : exists (S : Stores unit) c sequence index order xs, sample_stores S /\ sample_fine S c /\ zlen xs = 1
  /\ trees (H := tail_hash) (sto_nodes S) (sto_leaves S) (sto_index S) (sto_order S) sample_draft c sequence index order [LeafMarker sample_marker] xs [order_entry sample_marker]
  /\ is_ok (kept_roots (H := tail_hash) S sequence index order c) = true.
Proof.
  destruct sample_inserted as (s & c & E & _ & Hb & Hst & xs & Hw). set (S := dr_stores s) in *.
  pose proof (reach_stored_roots _ _ _ _ _ (begins_reaches _ _ _ _ _ Hb) _ _ _ _
    (stored_roots_rename (G' := any_leaf) _ _ _ _ _ _ _ _ _ _ (fun _ _ _ _ => I) (proj1 Hw))) as Hs.
  pose proof (mwp_load_working_roots (H := tail_hash) _ _ _ _ sample_draft sample_session sample_operation False Hst 0 0 c _ _ _ _ (marker_ready_false _ _ _ _ _ _ _ (proj1 Hb)) Hs) as Hl. unfold mwp in Hl.
  assert (Hok : match run_quanta empty_draft insert_context enter_maps with
    | Some (s, c) => let S := dr_stores s in match load_working_roots (H := tail_hash) (sto_nodes S) (sto_index S) (sto_order S) (ac_working_roots (dr_active s)) c with
        | Ok ((sequence, index, order), c') => is_ok (kept_roots (H := tail_hash) S sequence index order c') | Err _ => false end
    | None => false end = true) by (vm_compute; reflexivity).
  rewrite E in Hok. cbv zeta in Hok. fold S in Hok. destruct (load_working_roots _ _ _ _ c) as [[[[sequence index] order] c']|]; [|done].
  destruct Hl as (Ht & _ & _ & _ & [Hc _] & _). exists S, c', sequence, index, order, xs. split; [done|]. split; [done|]. split; [by destruct (agree_counts _ _ _ (proj2 Hw))|]. by split.
Qed.

Lemma working_roots_roundtrip_witness : exists S c sequence index order xs t c', kept_roots (H := tail_hash) (R := unit) S sequence index order c = Ok (t, c')
  /\ trees (H := tail_hash) (sto_nodes S) (sto_leaves S) (sto_index S) (sto_order S) sample_draft c' t.1.1 t.1.2 t.2 [LeafMarker sample_marker] xs [order_entry sample_marker].
Proof.
  destruct sample_trees as (S & c & sequence & index & order & xs & Hst & Hc & Hx & Ht & Hok). exists S, c, sequence, index, order, xs.
  pose proof (working_roots_roundtrip (H := tail_hash) (R := unit) sample_draft sample_session sample_operation S c sequence index order _ _ _ Hst Hc Ht eq_refl Hx) as Hk.
  destruct (kept_roots _ _ _ _ _) as [[[[sequence' index'] order'] c']|] eqn:E; [|discriminate Hok]. exists (sequence', index', order'), c'. split; [reflexivity|exact (proj2 Hk)].
Defined.
