(* ===== verification/HealthGate.v ===== *)
(** * The health gate of an opened home

    [beryl-home-store/src/health.rs]: one locked state decides whether operations on the store are
    admitted.  Operations hold an admission while they run and confirm it before their result
    becomes visible; a structural failure closes the gate, a recovery waits for the admissions to
    drain, prepares a new generation and publishes it.  Every definition is one critical section;
    threads are an interleaving of them ([gate_step]).  The retry schedule and [coherence.rs]'s
    view of the gate are here too, and the order of calls a recovery makes
    ([recovery.rs], [HomeStore::recover_same_home]). *)
From stdpp Require Import prelude gmap.
From Stdlib Require Import Sorting.Sorted.
From S2P Require Import Prelude.

(** ** Data *)

Inductive HomeHealthState := Opening | Healthy | Failed | Reopening.
#[global] Instance health_state_eq_dec : EqDecision HomeHealthState.
Proof. solve_decision. Defined.

Definition MAX_CONCURRENT_STORAGE_ADMISSIONS : Z := 64.

Definition INITIAL_GENERATION : Z := 1.
Definition next_generation (generation : Z) : option Z := checked_add64 generation 1.

Record HealthGateError := mkGateError { ge_state : HomeHealthState; ge_generation : Z }.
Inductive FailureSeverity := Structural.
Inductive Maintenance := Recovery.
#[global] Instance maintenance_eq_dec : EqDecision Maintenance.
Proof. solve_decision. Defined.

Record HealthInner := mkInner {
  hi_state : HomeHealthState;
  hi_generation : Z;
  hi_active : Z;
  hi_maintenance : option Maintenance
}.

Record HomeHealthSnapshot := mkSnapshot { hs_state : HomeHealthState; hs_generation : option Z }.
Record HealthAdmission := mkAdmission { ha_generation : Z; ha_state : HomeHealthState; ha_counted : bool }.
Inductive HealthMaintenanceError := InProgress (state : HomeHealthState) | InvalidState (state : HomeHealthState).
Inductive HomeCoherenceError := Busy | Unavailable | Unhealthy (state : HomeHealthState) | StaleGeneration.
Record HealthMaintenance := mkMaintenance { hm_maintenance : Maintenance; hm_finished : bool }.

(** ** The retry schedule *)

Definition DELAYS : list Z := [1; 2; 5; 10; 30].
Definition next_delay (attempts : Z) : Z * Z :=
  (nth (Z.to_nat (Z.min attempts (zlen DELAYS - 1))) DELAYS 0, saturating_add64 attempts 1).

(** ** Critical sections *)

Definition opening_gate : HealthInner := mkInner Opening INITIAL_GENERATION 0 None.
Definition snapshot (inner : HealthInner) : HomeHealthSnapshot := mkSnapshot (hi_state inner) (Some (hi_generation inner)).
Definition gate_error (inner : HealthInner) : HealthGateError := mkGateError (hi_state inner) (hi_generation inner).

Definition with_health_state (inner : HealthInner) (state : HomeHealthState) : HealthInner := mkInner state (hi_generation inner) (hi_active inner) (hi_maintenance inner).
Definition with_active (inner : HealthInner) (active : Z) : HealthInner := mkInner (hi_state inner) (hi_generation inner) active (hi_maintenance inner).

(** What a try of the lock gives. *)
Inductive try_lock := Locked | WouldBlock | Poisoned.

Definition try_elect_healthy (lock : try_lock) (inner : HealthInner) (expected_generation : Z) : result HomeCoherenceError unit :=
  match lock with
  | WouldBlock => Err Busy
  | Poisoned => Err Unavailable
  | Locked =>
      if negb (hi_generation inner =? expected_generation) then Err StaleGeneration
      else if negb (bool_decide (hi_state inner = Healthy)) then Err (Unhealthy (hi_state inner)) else Ok tt
  end.

(** One iteration of the loop of [admit_state]: an error, an admission or a wait. *)
Inductive admit_turn := Refused (e : HealthGateError) | Enter | Wait.
Definition admit_iteration (inner : HealthInner) (expected_state : HomeHealthState) (nested : bool) : admit_turn :=
  if negb (bool_decide (hi_state inner = expected_state)) then Refused (gate_error inner)
  else if nested || (hi_active inner <? MAX_CONCURRENT_STORAGE_ADMISSIONS) then Enter else Wait.

(** The end of [admit_state]; [None] is the panic of the counter. *)
Definition admit_enter (inner : HealthInner) (expected_state : HomeHealthState) (nested : bool) : option (HealthInner * HealthAdmission) :=
  inner' ← (if nested then Some inner else with_active inner <$> checked_add64 (hi_active inner) 1);
  Some (inner', mkAdmission (hi_generation inner') expected_state (negb nested)).

Definition confirm (inner : HealthInner) (admission : HealthAdmission) : result HealthGateError unit :=
  if bool_decide (hi_state inner = ha_state admission) && (hi_generation inner =? ha_generation admission) then Ok tt else Err (gate_error inner).

(** [Drop] of an admission, after the marker of the thread; [None] is the panic of the counter. *)
Definition release (inner : HealthInner) (admission : HealthAdmission) : option HealthInner :=
  if ha_counted admission then with_active inner <$> checked_sub64 (hi_active inner) 1 else Some inner.

(** [admit_generation] and [admit_candidate] of one thread with nothing between their critical
    sections: an admission of another generation is dropped again. *)
Definition admit_generation_of (inner : HealthInner) (expected_state : HomeHealthState) (nested : bool) (generation : Z)
    : option (HealthInner * admit_turn * option HealthAdmission) :=
  match admit_iteration inner expected_state nested with
  | Enter =>
      '(inner', admission) ← admit_enter inner expected_state nested;
      if negb (ha_generation admission =? generation) then
        inner'' ← release inner' admission; Some (inner'', Refused (gate_error inner'), None)
      else Some (inner', Enter, Some admission)
  | other => Some (inner, other, None)
  end.
Definition admit_generation (inner : HealthInner) := admit_generation_of inner Healthy.
Definition admit_candidate (inner : HealthInner) := admit_generation_of inner.
Definition admit_opening (inner : HealthInner) (nested : bool) : admit_turn := admit_iteration inner Opening nested.

Definition signal_failure (inner : HealthInner) (severity : FailureSeverity) : HealthInner :=
  match hi_state inner, severity with
  | (Healthy | Opening | Reopening), Structural => with_health_state inner Failed
  | _, _ => inner
  end.

Definition publish_opening (inner : HealthInner) (expected_generation : Z) : result HealthGateError HealthInner :=
  if negb (bool_decide (hi_state inner = Opening)) || negb (hi_generation inner =? expected_generation) || negb (hi_active inner =? 0)
     || bool_decide (is_Some (hi_maintenance inner))
  then Err (gate_error inner) else Ok (with_health_state inner Healthy).

(** The wait loops of [begin] and [retire_generation] end when this holds. *)
Definition drained (inner : HealthInner) : bool := hi_active inner =? 0.

(** [begin] up to its wait. *)
Definition begin_maintenance (inner : HealthInner) (maintenance : Maintenance) : result HealthMaintenanceError HealthInner :=
  if bool_decide (is_Some (hi_maintenance inner)) then Err (InProgress (hi_state inner))
  else if negb (bool_decide (hi_state inner = Failed)) then Err (InvalidState (hi_state inner))
  else
    let inner := if bool_decide (maintenance = Recovery) then with_health_state inner Reopening else inner in
    Ok (mkInner (hi_state inner) (hi_generation inner) (hi_active inner) (Some maintenance)).

(** [retire_generation] up to its wait; [None] returns at once. *)
Definition retire_generation (inner : HealthInner) (generation : Z) : option HealthInner :=
  if negb (hi_generation inner =? generation) then None else Some (with_health_state inner Failed).

Definition prepare_candidate (m : HealthMaintenance) (inner : HealthInner) (generation : Z) : result HealthGateError HealthInner :=
  if negb (bool_decide (hi_state inner = Reopening)) || negb (bool_decide (hi_maintenance inner = Some (hm_maintenance m))) || negb (hi_active inner =? 0)
  then Err (gate_error inner) else Ok (mkInner (hi_state inner) generation (hi_active inner) (hi_maintenance inner)).

Definition publish_candidate (m : HealthMaintenance) (inner : HealthInner) (generation : Z) : result HealthGateError (HealthMaintenance * HealthInner) :=
  if negb (bool_decide (hi_state inner = Reopening)) || negb (hi_generation inner =? generation)
     || negb (bool_decide (hi_maintenance inner = Some (hm_maintenance m))) || negb (hi_active inner =? 0)
  then Err (gate_error inner) else Ok (mkMaintenance (hm_maintenance m) true, mkInner Healthy generation (hi_active inner) None).

Definition finish_failed (m : HealthMaintenance) (inner : HealthInner) : HealthMaintenance * HealthInner :=
  (mkMaintenance (hm_maintenance m) true, mkInner Failed (hi_generation inner) (hi_active inner) None).

Definition drop_maintenance (m : HealthMaintenance) (inner : HealthInner) : HealthInner :=
  if hm_finished m then inner
  else if bool_decide (hi_maintenance inner = Some (hm_maintenance m)) then mkInner Failed (hi_generation inner) (hi_active inner) None else inner.

(** ** The markers of a thread *)

(** [Iterator::rposition] *)
Fixpoint rposition (gate : nat) (gates : list nat) : option nat :=
  match gates with
  | [] => None
  | g :: gates => match rposition gate gates with Some i => Some (S i) | None => if bool_decide (g = gate) then Some 0%nat else None end
  end.
(** [Vec::swap_remove] *)
Definition swap_remove (slot : nat) (gates : list nat) : list nat :=
  match last gates with
  | Some g => take (length gates - 1) (<[slot := g]> gates)
  | None => gates
  end.

Definition thread_holds_gate (gate : nat) (gates : list nat) : bool := bool_decide (gate ∈ gates).
Definition mark_thread_admitted (gate : nat) (gates : list nat) : list nat := gates ++ [gate].
(** [None] is the panic of a missing marker. *)
Definition clear_thread_admitted (gate : nat) (gates : list nat) : option (list nat) :=
  slot ← rposition gate gates; Some (swap_remove slot gates).

(** ** Threads

    The gate with everything that refers to it: the markers and the live admissions of each
    thread (the latest first), the threads that wait for room, the recoveries under way, the
    stores that wait for their generation to drain.  A thread is blocked while it waits. *)

(** A recovery: waiting in [begin]; [begin] returned; its generation planned; prepared. *)
Inductive recovery_stage := Draining | Began | Planned (next : Z) | Candidate (generation : Z).
Definition recovery_authority : HealthMaintenance := mkMaintenance Recovery false.

Record GateSystem := mkSystem {
  sy_inner : HealthInner;
  sy_markers : gmap nat (list nat);
  sy_live : gmap nat (list HealthAdmission);
  sy_waiting : gmap nat HomeHealthState;
  sy_recoveries : gmap nat recovery_stage;
  sy_retiring : gset nat
}.
Definition opening_system : GateSystem := mkSystem opening_gate ∅ ∅ ∅ ∅ ∅.

Definition live (s : GateSystem) (t : nat) : list HealthAdmission := default [] (sy_live s !! t).
Definition marks (s : GateSystem) (t : nat) : list nat := default [] (sy_markers s !! t).
(** Threads without an admission are not in the map. *)
Definition put_live (t : nat) (l : list HealthAdmission) (m : gmap nat (list HealthAdmission)) : gmap nat (list HealthAdmission) :=
  match l with [] => delete t m | _ => <[t := l]> m end.

Definition set_inner (s : GateSystem) (inner : HealthInner) : GateSystem :=
  mkSystem inner (sy_markers s) (sy_live s) (sy_waiting s) (sy_recoveries s) (sy_retiring s).
Definition set_marks (s : GateSystem) (t : nat) (gates : list nat) : GateSystem :=
  mkSystem (sy_inner s) (<[t := gates]> (sy_markers s)) (sy_live s) (sy_waiting s) (sy_recoveries s) (sy_retiring s).
Definition set_live (s : GateSystem) (t : nat) (l : list HealthAdmission) : GateSystem :=
  mkSystem (sy_inner s) (sy_markers s) (put_live t l (sy_live s)) (sy_waiting s) (sy_recoveries s) (sy_retiring s).
Definition set_waiting (s : GateSystem) (waiting : gmap nat HomeHealthState) : GateSystem :=
  mkSystem (sy_inner s) (sy_markers s) (sy_live s) waiting (sy_recoveries s) (sy_retiring s).
Definition set_recoveries (s : GateSystem) (recoveries : gmap nat recovery_stage) : GateSystem :=
  mkSystem (sy_inner s) (sy_markers s) (sy_live s) (sy_waiting s) recoveries (sy_retiring s).
Definition set_retiring (s : GateSystem) (retiring : gset nat) : GateSystem :=
  mkSystem (sy_inner s) (sy_markers s) (sy_live s) (sy_waiting s) (sy_recoveries s) retiring.

Inductive gate_event :=
  | EvAdmitted (thread : nat)
  | EvRefused (thread : nat) (e : HealthGateError)
  | EvReleased (thread position : nat)
  | EvPublished (generation : Z)
  | EvSilent.

(** This gate among the gates of the process. *)
Abbreviation this_gate := 0%nat.

(** [admit_state] from an iteration on: what it does to the thread. *)
Definition admit_thread (s : GateSystem) (t : nat) (expected : HomeHealthState) (nested : bool) : option (GateSystem * gate_event) :=
  match admit_iteration (sy_inner s) expected nested with
  | Refused e => Some (set_waiting s (delete t (sy_waiting s)), EvRefused t e)
  | Wait => Some (set_waiting s (<[t := expected]> (sy_waiting s)), EvSilent)
  | Enter =>
      '(inner, admission) ← admit_enter (sy_inner s) expected nested;
      Some (set_waiting (set_live (set_marks (set_inner s inner) t (mark_thread_admitted this_gate (marks s t))) t (admission :: live s t)) (delete t (sy_waiting s)), EvAdmitted t)
  end.

(** [Drop] of the admission at a position of the thread. *)
Definition release_thread (s : GateSystem) (t position : nat) : option GateSystem :=
  admission ← live s t !! position;
  gates ← clear_thread_admitted this_gate (marks s t);
  inner ← release (sy_inner s) admission;
  Some (set_live (set_marks (set_inner s inner) t gates) t (delete position (live s t))).

Definition end_drain (inner : HealthInner) (stage : recovery_stage) : recovery_stage := if drained inner then Began else stage.

Inductive gate_step : GateSystem -> gate_event -> GateSystem -> Prop :=
  | step_admit s t expected s' ev : sy_waiting s !! t = None -> expected <> Failed ->
      admit_thread s t expected (thread_holds_gate this_gate (marks s t)) = Some (s', ev) -> gate_step s ev s'
  | step_admit_wake s t expected s' ev : sy_waiting s !! t = Some expected -> admit_thread s t expected false = Some (s', ev) -> gate_step s ev s'
  | step_release s t position s' : sy_waiting s !! t = None -> release_thread s t position = Some s' -> gate_step s (EvReleased t position) s'
  | step_other_mark s t gate : gate <> this_gate -> gate_step s EvSilent (set_marks s t (mark_thread_admitted gate (marks s t)))
  | step_other_clear s t gate gates : gate <> this_gate -> clear_thread_admitted gate (marks s t) = Some gates -> gate_step s EvSilent (set_marks s t gates)
  | step_signal s severity : gate_step s EvSilent (set_inner s (signal_failure (sy_inner s) severity))
  | step_publish_opening s generation inner : publish_opening (sy_inner s) generation = Ok inner -> gate_step s (EvPublished generation) (set_inner s inner)
  | step_begin s r inner : sy_recoveries s !! r = None -> begin_maintenance (sy_inner s) Recovery = Ok inner ->
      gate_step s EvSilent (set_recoveries (set_inner s inner) (<[r := end_drain inner Draining]> (sy_recoveries s)))
  | step_begin_wake s r : sy_recoveries s !! r = Some Draining -> gate_step s EvSilent (set_recoveries s (<[r := end_drain (sy_inner s) Draining]> (sy_recoveries s)))
  | step_plan s r next : sy_recoveries s !! r = Some Began -> hs_generation (snapshot (sy_inner s)) ≫= next_generation = Some next ->
      gate_step s EvSilent (set_recoveries s (<[r := Planned next]> (sy_recoveries s)))
  | step_prepare s r next inner : sy_recoveries s !! r = Some (Planned next) -> prepare_candidate recovery_authority (sy_inner s) next = Ok inner ->
      gate_step s EvSilent (set_recoveries (set_inner s inner) (<[r := Candidate next]> (sy_recoveries s)))
  | step_publish s r generation m inner : sy_recoveries s !! r = Some (Candidate generation) -> publish_candidate recovery_authority (sy_inner s) generation = Ok (m, inner) ->
      gate_step s (EvPublished generation) (set_recoveries (set_inner s (drop_maintenance m inner)) (delete r (sy_recoveries s)))
  | step_finish s r stage m inner : sy_recoveries s !! r = Some stage -> stage <> Draining -> finish_failed recovery_authority (sy_inner s) = (m, inner) ->
      gate_step s EvSilent (set_recoveries (set_inner s (drop_maintenance m inner)) (delete r (sy_recoveries s)))
  | step_drop s r stage : sy_recoveries s !! r = Some stage -> stage <> Draining ->
      gate_step s EvSilent (set_recoveries (set_inner s (drop_maintenance recovery_authority (sy_inner s))) (delete r (sy_recoveries s)))
  | step_retire s r generation inner : r ∉ sy_retiring s -> retire_generation (sy_inner s) generation = Some inner ->
      gate_step s EvSilent (set_retiring (set_inner s inner) (if drained inner then sy_retiring s else {[r]} ∪ sy_retiring s))
  | step_retire_wake s r : r ∈ sy_retiring s -> drained (sy_inner s) = true -> gate_step s EvSilent (set_retiring s (sy_retiring s ∖ {[r]})).

(** Admissions of a thread are dropped in the reverse of the order they were made in, as the
    locals that hold them are; [health.rs] does not enforce it. *)
Definition scoped (ev : gate_event) : Prop := match ev with EvReleased _ position => position = 0%nat | _ => True end.

(** ** Markers *)

Definition count_gate (gate : nat) (gates : list nat) : nat := length (filter (gate =.) gates).

Lemma rposition_lookup gate gates i : rposition gate gates = Some i -> gates !! i = Some gate.
Proof. revert i. induction gates as [|g gates IH]; intros i; [done|]. cbn. destruct (rposition gate gates) as [j|]; [intros [= <-]; by apply IH|]. case_bool_decide; [|done]. by intros [= <-]; subst. Qed.
Lemma rposition_None gate gates : rposition gate gates = None <-> gate ∉ gates.
Proof.
  induction gates as [|g gates IH]; [split; [intros _; apply not_elem_of_nil|done]|]. cbn. rewrite not_elem_of_cons. destruct (rposition gate gates); [split; [done|intros [_ Hn]; by apply IH in Hn]|].
  case_bool_decide; split; [done|naive_solver|naive_solver|done].
Qed.
Lemma swap_remove_perm i gates g : gates !! i = Some g -> gates ≡ₚ g :: swap_remove i gates.
Proof.
  intros Hi. destruct gates as [|h gates _] using rev_ind; [done|]. unfold swap_remove. rewrite last_snoc, length_app, Nat.add_sub. apply lookup_app_Some in Hi as [Hi|[Hi Hj]].
  - rewrite insert_app_l by (by eapply lookup_lt_Some). rewrite take_app_length' by (by rewrite length_insert).
    rewrite <- (take_drop_middle _ _ _ Hi) at 1. rewrite (insert_take_drop _ _ _ (lookup_lt_Some _ _ _ Hi)). solve_Permutation.
  - assert (i = length gates) as -> by (apply lookup_lt_Some in Hj; cbn in Hj; lia). rewrite Nat.sub_diag in Hj. injection Hj as ->.
    rewrite insert_app_r_alt, Nat.sub_diag by lia. rewrite take_app_length. solve_Permutation.
Qed.
Lemma count_gate_perm gate gs gs' : gs ≡ₚ gs' -> count_gate gate gs = count_gate gate gs'.
Proof. intros Hp. unfold count_gate. by rewrite Hp. Qed.
Lemma count_gate_cons gate g gs : count_gate gate (g :: gs) = ((if bool_decide (gate = g) then 1 else 0) + count_gate gate gs)%nat.
Proof. unfold count_gate. rewrite filter_cons. case_bool_decide; case_decide; done. Qed.
Lemma count_mark gate g gs : count_gate gate (mark_thread_admitted g gs) = ((if bool_decide (gate = g) then 1 else 0) + count_gate gate gs)%nat.
Proof. rewrite <- count_gate_cons. apply count_gate_perm. unfold mark_thread_admitted. solve_Permutation. Qed.
Lemma count_clear gate g gs gs' : clear_thread_admitted g gs = Some gs' -> count_gate gate gs = ((if bool_decide (gate = g) then 1 else 0) + count_gate gate gs')%nat.
Proof.
  unfold clear_thread_admitted. destruct (rposition g gs) as [i|] eqn:E; [|done]. intros [= <-]. rewrite <- count_gate_cons.
  apply count_gate_perm, swap_remove_perm. by apply rposition_lookup.
Qed.
Lemma holds_count gate gs : thread_holds_gate gate gs = negb (count_gate gate gs =? 0)%nat.
Proof.
  unfold thread_holds_gate, count_gate. induction gs as [|g gs IH]; [done|]. rewrite filter_cons. destruct (decide (gate = g)) as [->|Hn].
  - cbn. apply bool_decide_true. left.
  - rewrite <- IH. apply bool_decide_ext. rewrite elem_of_cons. naive_solver.
Qed.

(** ** What every reachable state satisfies *)

(** The markers count the admissions of each thread, of which the first alone is counted; the
    counter is the number of threads with one; each is of the current generation.  There is one
    recovery while the gate has a maintenance, and none without. *)
Record gate_ok (s : GateSystem) : Prop := mkGateOk {
  go_marks : forall t, count_gate this_gate (marks s t) = length (live s t);
  go_stacks : forall t l, sy_live s !! t = Some l -> exists l' a, l = l' ++ [a] /\ ha_counted a = true /\ Forall (fun a => ha_counted a = false) l';
  go_active : hi_active (sy_inner s) = Z.of_nat (size (sy_live s));
  go_room : hi_active (sy_inner s) <= MAX_CONCURRENT_STORAGE_ADMISSIONS;
  go_live : forall t l, sy_live s !! t = Some l -> Forall (fun a => ha_generation a = hi_generation (sy_inner s) /\ ha_state a <> Failed) l;
  go_idle : forall t, is_Some (sy_waiting s !! t) -> sy_live s !! t = None;
  go_waits : forall t expected, sy_waiting s !! t = Some expected -> expected <> Failed;
  go_one : match hi_maintenance (sy_inner s) with None => sy_recoveries s = ∅ | Some _ => exists r stage, sy_recoveries s = {[r := stage]} end;
  go_reopening : hi_state (sy_inner s) = Reopening -> is_Some (hi_maintenance (sy_inner s))
}.

Lemma opening_ok : gate_ok opening_system.
Proof. split; cbn; try done; intros; unfold marks, live; cbn; rewrite ?lookup_empty in *; done. Qed.

Lemma live_None s t : gate_ok s -> thread_holds_gate this_gate (marks s t) = false <-> sy_live s !! t = None.
Proof.
  intros Hs. rewrite holds_count, (go_marks _ Hs). unfold live. destruct (sy_live s !! t) as [l|] eqn:E; cbn; [|done].
  destruct (go_stacks _ Hs _ _ E) as (l' & a & -> & _). rewrite length_app. cbn. rewrite Nat.add_1_r. done.
Qed.

(** A step of a recovery leaves the threads as they are. *)
Definition same_threads (s s' : GateSystem) : Prop :=
  sy_markers s' = sy_markers s /\ sy_live s' = sy_live s /\ sy_waiting s' = sy_waiting s /\ hi_active (sy_inner s') = hi_active (sy_inner s)
  /\ (hi_generation (sy_inner s') = hi_generation (sy_inner s) \/ hi_active (sy_inner s) = 0).
Definition recoveries_ok (s : GateSystem) : Prop :=
  match hi_maintenance (sy_inner s) with None => sy_recoveries s = ∅ | Some _ => exists r stage, sy_recoveries s = {[r := stage]} end
  /\ (hi_state (sy_inner s) = Reopening -> is_Some (hi_maintenance (sy_inner s))).

Lemma idle_live s : gate_ok s -> hi_active (sy_inner s) = 0 <-> sy_live s = ∅.
Proof. intros Hs. rewrite (go_active _ Hs), <- map_size_empty_iff. lia. Qed.

Lemma same_threads_ok s s' : gate_ok s -> same_threads s s' -> recoveries_ok s' -> gate_ok s'.
Proof.
  intros Hs (E1 & E2 & E3 & E4 & E5) [R1 R2]. pose proof (idle_live _ Hs) as Hi. destruct Hs as [G1 G2 G3 G4 G5 G6 G7 _ _].
  unfold marks, live in *. split; unfold marks, live; rewrite ?E1, ?E2, ?E3, ?E4; try done.
  intros t l Hl. destruct E5 as [->|E5]; [by eapply G5|]. apply Hi in E5. by rewrite E5, lookup_empty in Hl.
Qed.

Lemma one_recovery s r stage : gate_ok s -> sy_recoveries s !! r = Some stage -> sy_recoveries s = {[r := stage]} /\ hi_maintenance (sy_inner s) = Some Recovery.
Proof.
  intros Hs Hr. pose proof (go_one _ Hs) as H1. destruct (hi_maintenance (sy_inner s)) as [[]|]; [|by rewrite H1, lookup_empty in Hr].
  destruct H1 as (r' & stage' & E). rewrite E in *. apply lookup_singleton_Some in Hr as [-> ->]. done.
Qed.

Lemma marks_set s t gates t' : marks (set_marks s t gates) t' = if decide (t = t') then gates else marks s t'.
Proof. unfold marks, set_marks. cbn. destruct (decide (t = t')) as [<-|Hn]; [by rewrite lookup_insert_eq|by rewrite lookup_insert_ne]. Qed.
Lemma lookup_put_live t l m t' : put_live t l m !! t' = if decide (t = t') then (match l with [] => None | _ => Some l end) else m !! t'.
Proof. unfold put_live. destruct (decide (t = t')) as [<-|Hn]; destruct l; by rewrite ?lookup_delete_eq, ?lookup_insert_eq, ?lookup_delete_ne, ?lookup_insert_ne. Qed.
Lemma live_set s t l t' : live (set_live s t l) t' = if decide (t = t') then l else live s t'.
Proof. unfold live, set_live. cbn. rewrite lookup_put_live. destruct (decide (t = t')); [|done]. by destruct l. Qed.

(** An admission enters. *)
Lemma enter_ok s t expected nested inner a : gate_ok s -> expected <> Failed -> nested = thread_holds_gate this_gate (marks s t) ->
  (nested = false -> hi_active (sy_inner s) < MAX_CONCURRENT_STORAGE_ADMISSIONS) -> admit_enter (sy_inner s) expected nested = Some (inner, a) ->
  gate_ok (set_waiting (set_live (set_marks (set_inner s inner) t (mark_thread_admitted this_gate (marks s t))) t (a :: live s t)) (delete t (sy_waiting s))).
Proof.
  intros Hs Hexp Hn Hroom He. pose proof (live_None s t Hs) as HN. rewrite <- Hn in HN.
  assert (Ei : inner = with_active (sy_inner s) (hi_active (sy_inner s) + if nested then 0 else 1) /\ a = mkAdmission (hi_generation (sy_inner s)) expected (negb nested)).
  { unfold admit_enter in He. destruct nested; cbn in He; [injection He as <- <-; rewrite Z.add_0_r; by destruct (sy_inner s)|].
    destruct (checked_add64 _ _) as [n|] eqn:E; [|done]. apply checked_add64_Some in E as [-> _]. by injection He as <- <-. }
  destruct Ei as [-> ->]. destruct Hs as [G1 G2 G3 G4 G5 G6 G7 G8 G9].
  assert (Hl : sy_live s !! t = if nested then Some (live s t) else None).
  { unfold live. destruct nested; [|by apply HN]. destruct (sy_live s !! t) eqn:E; [done|]. destruct HN as [_ HN]. by specialize (HN eq_refl). }
  split; cbn; try done.
  - intros t'. specialize (G1 t'). unfold marks, live in *. cbn. rewrite !lookup_insert. case_decide as E; [subst t'|done]. cbn [from_option id]. rewrite count_mark, G1. done.
  - intros t' l. rewrite lookup_insert_Some. intros [[<- <-]|[_ El]]; [|by eapply G2]. destruct nested.
    + destruct (G2 _ _ Hl) as (l' & b & -> & Hb & Hf). eexists (_ :: l'), b. split; [done|]. split; [done|]. by constructor.
    + unfold live. rewrite Hl. by eexists [], _.
  - rewrite map_size_insert, Hl, G3. destruct nested; cbn; lia.
  - destruct nested; [lia|]. specialize (Hroom eq_refl). unfold MAX_CONCURRENT_STORAGE_ADMISSIONS in *. lia.
  - intros t' l. rewrite lookup_insert_Some. intros [[<- <-]|[_ El]]; [|by eapply G5]. constructor; [done|]. destruct nested; [by eapply G5|]. unfold live. rewrite Hl. constructor.
  - intros t' Hw. destruct (decide (t = t')) as [<-|Hne]; [rewrite lookup_delete_eq in Hw; by destruct Hw|]. rewrite lookup_delete_ne in Hw by done. rewrite lookup_insert_ne by done. by apply G6.
  - intros t' e'. rewrite lookup_delete_Some. intros [_ ?]. by eapply G7.
Qed.

Lemma admit_ok s t expected nested s' ev : gate_ok s -> expected <> Failed -> nested = thread_holds_gate this_gate (marks s t) -> admit_thread s t expected nested = Some (s', ev) -> gate_ok s'.
Proof.
  intros Hs Hexp Hn. pose proof (live_None s t Hs) as HN. unfold admit_thread. unfold admit_iteration. destruct (negb (bool_decide _)); cbn.
  - intros [= <- <-]. destruct Hs as [G1 G2 G3 G4 G5 G6 G7 G8 G9]. split; cbn; try done; intros t'.
    + intros [e Hw]. apply lookup_delete_Some in Hw as [_ Hw]. apply G6. by exists e.
    + intros e' Hw. apply lookup_delete_Some in Hw as [_ Hw]. by eapply G7.
  - destruct (nested || _) eqn:Er.
    + destruct (admit_enter _ _ _) as [[inner a]|] eqn:Ee; [|done]. cbn. intros [= <- <-]. eapply enter_ok; try done. intros ->. cbn in Er. bool_facts. done.
    + apply orb_false_iff in Er as [-> _]. intros [= <- <-]. symmetry in Hn. apply HN in Hn.
      destruct Hs as [G1 G2 G3 G4 G5 G6 G7 G8 G9]. split; cbn; try done; intros t'.
      * intros [e Hw]. apply lookup_insert_Some in Hw as [[<- _]|[_ Hw]]; [done|]. apply G6. by exists e.
      * intros e' Hw. apply lookup_insert_Some in Hw as [[_ <-]|[_ Hw]]; [done|]. by eapply G7.
Qed.

(** The latest admission of a thread is dropped. *)
Lemma release_ok s t s' : gate_ok s -> release_thread s t 0 = Some s' -> gate_ok s'.
Proof.
  intros Hs. unfold release_thread. destruct (live s t !! 0%nat) as [a|] eqn:Ea; [|done]. cbn [mbind option_bind]. destruct (clear_thread_admitted _ _) as [gates|] eqn:Eg; [|done]. cbn [mbind option_bind].
  destruct (release (sy_inner s) a) as [inner|] eqn:Er; [|done]. cbn [mbind option_bind]. intros [= <-].
  pose proof (count_clear this_gate this_gate _ _ Eg) as Hc. rewrite bool_decide_true in Hc by done. destruct Hs as [G1 G2 G3 G4 G5 G6 G7 G8 G9].
  destruct (sy_live s !! t) as [l|] eqn:El; [|unfold live in Ea; by rewrite El in Ea]. assert (live s t = l) as Hl by (unfold live; by rewrite El).
  rewrite Hl in *. destruct l as [|a0 l]; [done|]. injection Ea as ->. cbn [delete list_delete].
  destruct (G2 _ _ El) as (l' & b & Eb & Hb & Hf).
  assert (Ei : inner = with_active (sy_inner s) (hi_active (sy_inner s) - if ha_counted a then 1 else 0)).
  { unfold release in Er. destruct (ha_counted a); [|injection Er as <-; rewrite Z.sub_0_r; by destruct (sy_inner s)]. destruct (checked_sub64 _ _) as [n|] eqn:E; [|done].
    apply checked_sub64_Some in E as [-> _]. by injection Er as <-. }
  subst inner. assert (Hlast : ha_counted a = true <-> l = []).
  { destruct l' as [|a' l']; cbn in Eb; injection Eb as -> ->; [done|]. inversion Hf as [|? ? Hf0 _]; subst. rewrite Hf0. split; [done|]. by destruct l'. }
  split; cbn; try done.
  - intros t'. pose proof (G1 t') as G1'. unfold marks, live in *. cbn. rewrite lookup_insert, lookup_put_live. destruct (decide (t = t')) as [<-|_]; [|done]. rewrite El in G1'. cbn [from_option id length] in *. rewrite Hc in G1'. destruct l; cbn [from_option id length] in *; lia.
  - intros t' l0. rewrite lookup_put_live. case_decide as E; [subst t'|by eapply G2]. destruct l as [|a1 l]; [done|]. intros [= <-].
    destruct l' as [|a' l']; [done|]. cbn in Eb. injection Eb as -> Eb. exists l', b. split; [done|]. split; [done|]. by inversion Hf.
  - rewrite G3. unfold put_live. destruct l as [|a1 l].
    + rewrite (proj2 Hlast eq_refl). rewrite map_size_delete_Some by done. assert (size (sy_live s) <> 0)%nat by (apply map_size_ne_0_lookup; eauto). lia.
    + destruct (ha_counted a); [by destruct Hlast as [Hx _]; specialize (Hx eq_refl)|]. rewrite map_size_insert_Some by done. lia.
  - destruct (ha_counted a); lia.
  - intros t' l0. rewrite lookup_put_live. case_decide as E; [subst t'|by eapply G5]. specialize (G5 _ _ El). destruct l as [|a1 l]; [done|]. intros [= <-]. by inversion G5.
  - intros t' Hw. specialize (G6 _ Hw). rewrite lookup_put_live. case_decide; [|done]. congruence.
Qed.

(** Markers of other gates do not matter. *)
Lemma other_marks_ok s t gates : gate_ok s -> count_gate this_gate gates = count_gate this_gate (marks s t) -> gate_ok (set_marks s t gates).
Proof.
  intros [G1 G2 G3 G4 G5 G6 G7 G8 G9] Hc. split; try done. intros t'. rewrite marks_set. unfold live. cbn. specialize (G1 t'). unfold live in G1.
  destruct (decide (t = t')) as [<-|_]; [by rewrite Hc|done].
Qed.

Lemma gate_step_ok s ev s' : gate_ok s -> scoped ev -> gate_step s ev s' -> gate_ok s'.
Proof.
  intros Hs Hsc Hstep. destruct Hstep as [s t expected s' ev Hw He Ha|s t expected s' ev Hw Ha|s t position s' Hw Hr|s t gate Hg|s t gate gates Hg Hc|s severity|s generation inner Hp
    |s r inner Hr Hb|s r Hr|s r next Hr Hn|s r next inner Hr Hp|s r generation m inner Hr Hp|s r stage m inner Hr Hst Hf|s r stage Hr Hst|s r generation inner Hr Hp|s r Hr Hd].
  - by eapply admit_ok.
  - eapply admit_ok; [done|by eapply go_waits| |done]. symmetry. apply live_None; [done|]. eapply go_idle; [done|by eexists].
  - cbn in Hsc. subst. by eapply release_ok.
  - apply other_marks_ok; [done|]. by rewrite count_mark, bool_decide_false by done.
  - apply other_marks_ok; [done|]. by rewrite (count_clear this_gate _ _ _ Hc), bool_decide_false by done.
  - apply (same_threads_ok s); [done| |]; unfold signal_failure; destruct severity, (hi_state (sy_inner s)) eqn:E; try (by repeat split; try left);
      (split; [exact (go_one _ Hs)|]; cbn; rewrite ?E; try done; intros _; by apply (go_reopening _ Hs)).
  - unfold publish_opening in Hp. case_match; [done|]. injection Hp as <-. apply (same_threads_ok s); [done|by repeat split; left|]. split; [exact (go_one _ Hs)|done].
  - unfold begin_maintenance in Hb. case_bool_decide as Em; [done|]. case_match; [done|]. injection Hb as <-. apply (same_threads_ok s); [done|by repeat split; left|].
    pose proof (go_one _ Hs) as H1. destruct (hi_maintenance (sy_inner s)); [by destruct Em|]. split; cbn; [|by eexists]. rewrite H1. by eexists _, _.
  - apply (same_threads_ok s); [done|by repeat split; left|]. destruct (one_recovery _ _ _ Hs Hr) as [E Em]. split; [|exact (go_reopening _ Hs)]. cbn. rewrite Em, E, insert_singleton_eq. by eexists _, _.
  - apply (same_threads_ok s); [done|by repeat split; left|]. destruct (one_recovery _ _ _ Hs Hr) as [E Em]. split; [|exact (go_reopening _ Hs)]. cbn. rewrite Em, E, insert_singleton_eq. by eexists _, _.
  - destruct (one_recovery _ _ _ Hs Hr) as [E Em]. unfold prepare_candidate in Hp. case_match eqn:Ec; [done|]. injection Hp as <-. bool_facts. apply (same_threads_ok s); [done|repeat split; by right|].
    split; cbn; [|by rewrite Em]. rewrite Em, E, insert_singleton_eq. by eexists _, _.
  - destruct (one_recovery _ _ _ Hs Hr) as [E Em]. unfold publish_candidate in Hp. case_match eqn:Ec; [done|]. injection Hp as <- <-. bool_facts. apply (same_threads_ok s); [done|repeat split; by right|].
    split; cbn; [|done]. by rewrite E, delete_singleton_eq.
  - destruct (one_recovery _ _ _ Hs Hr) as [E Em]. unfold finish_failed in Hf. injection Hf as <- <-. apply (same_threads_ok s); [done|by repeat split; left|]. split; cbn; [|done]. by rewrite E, delete_singleton_eq.
  - destruct (one_recovery _ _ _ Hs Hr) as [E Em]. assert (drop_maintenance recovery_authority (sy_inner s) = mkInner Failed (hi_generation (sy_inner s)) (hi_active (sy_inner s)) None) as ->.
    { unfold drop_maintenance. cbn. by rewrite Em, bool_decide_true by done. }
    apply (same_threads_ok s); [done|by repeat split; left|]. split; cbn; [|done]. by rewrite E, delete_singleton_eq.
  - unfold retire_generation in Hp. case_match; [done|]. injection Hp as <-. apply (same_threads_ok s); [done|by repeat split; left|]. split; [exact (go_one _ Hs)|done].
  - apply (same_threads_ok s); [done|by repeat split; left|]. split; [exact (go_one _ Hs)|exact (go_reopening _ Hs)].
Qed.

Lemma reachable_ok tr s : steps gate_step opening_system tr s -> Forall scoped tr -> gate_ok s.
Proof.
  intros Hsteps. revert Hsteps. apply (steps_trace_invariant _ (fun tr s => Forall scoped tr -> gate_ok s)); [|intros _; exact opening_ok].
  intros tr' s1 ev s2 IH Hstep Hsc. apply Forall_app in Hsc as [Hsc Hev]. rewrite Forall_singleton in Hev. eapply gate_step_ok; [by apply IH|exact Hev|exact Hstep].
Qed.

(** ** Theorems *)

(** One call of [admit_generation] or [admit_candidate] with nothing in between.  It is
    refused exactly in another state or generation, leaving the gate as it was and reporting it;
    it waits only in the right state, at sixty-four admissions, for a thread without one; what
    it admits confirms, and dropping it gives the gate back.  The counter never panics. *)
Theorem admit_generation_exact inner expected nested generation : 0 <= hi_active inner <= MAX_CONCURRENT_STORAGE_ADMISSIONS ->
  match admit_generation_of inner expected nested generation with
  | None => False
  | Some (inner', Refused e, a) => inner' = inner /\ a = None /\ e = gate_error inner /\ (hi_state inner <> expected \/ hi_generation inner <> generation)
  | Some (inner', Wait, a) => inner' = inner /\ a = None /\ hi_state inner = expected /\ nested = false /\ hi_active inner = MAX_CONCURRENT_STORAGE_ADMISSIONS
  | Some (inner', Enter, a) => hi_state inner = expected /\ hi_generation inner = generation /\ hi_active inner' = hi_active inner + (if nested then 0 else 1)
      /\ exists admission, a = Some admission /\ confirm inner' admission = Ok tt /\ release inner' admission = Some inner
  end.
Proof.
  unfold MAX_CONCURRENT_STORAGE_ADMISSIONS. intros Hr. unfold admit_generation_of, admit_iteration, MAX_CONCURRENT_STORAGE_ADMISSIONS. case_bool_decide as Es; cbn [negb].
  2: { split; [done|]. split; [done|]. split; [done|]. by left. }
  destruct (nested || (hi_active inner <? 64)) eqn:Er; [|apply orb_false_iff in Er as [-> ?]; bool_facts; repeat split; try done; lia].
  unfold admit_enter. destruct inner as [state gen active m]. cbn in *. destruct nested; cbn in *.
  - destruct (gen =? generation) eqn:Eg; cbn; bool_facts; [|repeat split; try done; by right]. repeat split; try done; [lia|].
    eexists. split; [done|]. unfold confirm, release. cbn. by rewrite Es, bool_decide_true, Z.eqb_refl by done.
  - bool_facts. unfold checked_add64. rewrite (proj2 (Z.leb_le _ _)) by lia. cbn. destruct (gen =? generation) eqn:Eg; cbn; bool_facts.
    + repeat split; try done. eexists. split; [done|]. unfold confirm, release, checked_sub64. cbn. rewrite Es, bool_decide_true, Z.eqb_refl, (proj2 (Z.leb_le _ _)) by (done || lia). split; [done|].
      cbn. unfold with_active. cbn. by rewrite Z.add_simpl_r.
    + unfold release, checked_sub64. cbn. rewrite (proj2 (Z.leb_le _ _)) by lia. cbn. unfold with_active. cbn. rewrite Z.add_simpl_r. repeat split; try done. by right.
Qed.

(** C28: in every interleaving in which threads drop their admissions in scope order, the counter
    of the gate is the number of threads that hold an admission, at most sixty-four, and every
    admission is of the current generation.  There is at most one recovery, exactly while the
    gate has a maintenance; it is drained exactly when no thread holds an admission.  Neither
    the counter nor a missing marker panics. *)
Theorem gate_counts_admissions tr s : steps gate_step opening_system tr s -> Forall scoped tr ->
  hi_active (sy_inner s) = Z.of_nat (size (sy_live s)) /\ hi_active (sy_inner s) <= MAX_CONCURRENT_STORAGE_ADMISSIONS
  /\ (forall t a, a ∈ live s t -> ha_generation a = hi_generation (sy_inner s))
  /\ (drained (sy_inner s) = true <-> forall t, live s t = [])
  /\ (size (sy_recoveries s) <= 1)%nat /\ (hi_maintenance (sy_inner s) = None <-> sy_recoveries s = ∅)
  /\ (forall t expected, is_Some (admit_thread s t expected (thread_holds_gate this_gate (marks s t))))
  /\ (forall t, live s t <> [] -> is_Some (release_thread s t 0)).
Proof.
  intros Hsteps Hsc. pose proof (reachable_ok _ _ Hsteps Hsc) as Hs. pose proof (go_active _ Hs) as Ha. pose proof (go_room _ Hs) as Hr.
  split; [done|]. split; [done|]. split; [|split; [|split; [|split; [|split]]]].
  - intros t a Hin. unfold live in Hin. destruct (sy_live s !! t) as [l|] eqn:E; [|by apply elem_of_nil in Hin]. pose proof (go_live _ Hs _ _ E) as Hf. rewrite Forall_forall in Hf. by apply Hf.
  - unfold drained. rewrite Z.eqb_eq, (idle_live _ Hs). split; [intros E t; unfold live; by rewrite E, lookup_empty|]. intros Hl. apply map_empty. intros t.
    destruct (sy_live s !! t) as [l|] eqn:E; [|done]. specialize (Hl t). unfold live in Hl. rewrite E in Hl. cbn in Hl. subst. destruct (go_stacks _ Hs _ _ E) as (l' & a & El & _). by destruct l'.
  - pose proof (go_one _ Hs) as H1. destruct (hi_maintenance (sy_inner s)); [destruct H1 as (r & st & ->); by rewrite map_size_singleton|by rewrite H1, map_size_empty; lia].
  - pose proof (go_one _ Hs) as H1. destruct (hi_maintenance (sy_inner s)); [|done]. destruct H1 as (r & st & ->). split; [done|]. intros E. by apply map_non_empty_singleton in E.
  - intros t expected. unfold admit_thread, admit_iteration. destruct (negb _); [by eexists|]. destruct (_ || _) eqn:Eo; [|by eexists]. unfold admit_enter. destruct (thread_holds_gate _ _); cbn in *; [by eexists|].
    bool_facts. unfold checked_add64. unfold MAX_CONCURRENT_STORAGE_ADMISSIONS in *. rewrite (proj2 (Z.leb_le _ _)) by lia. by eexists.
  - intros t Hl. unfold release_thread. destruct (live s t) as [|a l] eqn:El; [done|]. cbn. pose proof (go_marks _ Hs t) as Hm. rewrite El in Hm.
    unfold clear_thread_admitted. destruct (rposition _ _) as [slot|] eqn:Ep; cbn.
    + unfold release. destruct (ha_counted a); [|by eexists]. unfold checked_sub64. rewrite (proj2 (Z.leb_le _ _)); [by eexists|]. rewrite Ha. unfold live in El.
      assert (size (sy_live s) <> 0)%nat; [|lia]. destruct (sy_live s !! t) eqn:E; [|done]. apply map_size_ne_0_lookup. eauto.
    + apply rposition_None in Ep. pose proof (holds_count this_gate (marks s t)) as Hc. unfold thread_holds_gate in Hc. rewrite bool_decide_false in Hc by done. rewrite Hm in Hc. done.
Qed.

(** ** Confirmation *)

(** The admission is the [k]-th of its thread, from the first one on. *)
Definition held (t k : nat) (a : HealthAdmission) (s : GateSystem) : Prop := reverse (live s t) !! k = Some a.
Definition held_step (t k : nat) (a : HealthAdmission) (s : GateSystem) (ev : gate_event) (s' : GateSystem) : Prop := gate_step s ev s' /\ held t k a s'.

Lemma held_active s t k a : gate_ok s -> held t k a s -> hi_active (sy_inner s) <> 0.
Proof.
  intros Hs Hh E. apply (idle_live _ Hs) in E. unfold held, live in Hh. rewrite E, lookup_empty in Hh. done.
Qed.
Lemma held_state s t k a : gate_ok s -> held t k a s -> ha_state a <> Failed.
Proof.
  intros Hs Hh. unfold held, live in Hh. destruct (sy_live s !! t) as [l|] eqn:E; [|done]. cbn [from_option id] in Hh. apply list_elem_of_lookup_2 in Hh; rewrite elem_of_reverse in Hh.
  pose proof (go_live _ Hs _ _ E) as Hf. rewrite Forall_forall in Hf. exact (proj2 (Hf _ Hh)).
Qed.
Lemma confirm_Ok inner a : confirm inner a = Ok tt <-> hi_state inner = ha_state a /\ hi_generation inner = ha_generation a.
Proof. unfold confirm. case_bool_decide; cbn; [|naive_solver]. destruct (_ =? _) eqn:E; bool_facts; naive_solver. Qed.

(** The gate without its counter is changed only by the steps of recoveries and failures. *)
Lemma admit_inner s t expected nested s' ev : admit_thread s t expected nested = Some (s', ev) ->
  hi_state (sy_inner s') = hi_state (sy_inner s) /\ hi_generation (sy_inner s') = hi_generation (sy_inner s) /\ hi_maintenance (sy_inner s') = hi_maintenance (sy_inner s) /\ sy_recoveries s' = sy_recoveries s
  /\ (forall g, ev <> EvPublished g).
Proof.
  unfold admit_thread. destruct (admit_iteration _ _ _); [by intros [= <- <-]| |by intros [= <- <-]]. unfold admit_enter. destruct nested; [by intros [= <- <-]|].
  destruct (checked_add64 _ _); [|done]. by intros [= <- <-].
Qed.
Lemma release_inner s t position s' : release_thread s t position = Some s' ->
  hi_state (sy_inner s') = hi_state (sy_inner s) /\ hi_generation (sy_inner s') = hi_generation (sy_inner s) /\ hi_maintenance (sy_inner s') = hi_maintenance (sy_inner s) /\ sy_recoveries s' = sy_recoveries s.
Proof.
  unfold release_thread. destruct (_ !! _) as [a|]; [|done]. cbn. destruct (clear_thread_admitted _ _); [|done]. cbn. unfold release. destruct (ha_counted a); [|by intros [= <-]].
  destruct (checked_sub64 _ _); [|done]. by intros [= <-].
Qed.

Lemma confirm_back s ev s' t k a : gate_ok s -> ha_state a <> Reopening -> held t k a s -> gate_step s ev s' -> confirm (sy_inner s') a = Ok tt -> confirm (sy_inner s) a = Ok tt.
Proof.
  intros Hs Hne Hh Hstep. pose proof (held_active _ _ _ _ Hs Hh) as Hact. pose proof (held_state _ _ _ _ Hs Hh) as Hnf. rewrite !confirm_Ok.
  destruct Hstep as [s t' expected s' ev Hw He Ha|s t' expected s' ev Hw Ha|s t' position s' Hw Hr|s t' gate Hg|s t' gate gates Hg Hc|s severity|s generation inner Hp
    |s r inner Hr Hb|s r Hr|s r next Hr Hn|s r next inner Hr Hp|s r generation m inner Hr Hp|s r stage m inner Hr Hst Hf|s r stage Hr Hst|s r generation inner Hr Hp|s r Hr Hd]; try done; cbn.
  - destruct (admit_inner _ _ _ _ _ _ Ha) as (-> & -> & _). done.
  - destruct (admit_inner _ _ _ _ _ _ Ha) as (-> & -> & _). done.
  - destruct (release_inner _ _ _ _ Hr) as (-> & -> & _). done.
  - unfold signal_failure. destruct severity, (hi_state (sy_inner s)) eqn:E; cbn; rewrite ?E; try done; intros [E1 _]; congruence.
  - unfold publish_opening in Hp. case_match eqn:Ec; [done|]. bool_facts. done.
  - unfold begin_maintenance in Hb. case_match; [done|]. case_match; [done|]. injection Hb as <-. cbn. intros [E _]. congruence.
  - unfold prepare_candidate in Hp. case_match eqn:Ec; [done|]. bool_facts. done.
  - unfold publish_candidate in Hp. case_match eqn:Ec; [done|]. bool_facts. done.
  - unfold finish_failed in Hf. injection Hf as <- <-. cbn. intros [E _]. congruence.
  - unfold drop_maintenance. cbn. case_bool_decide; [|done]. cbn. intros [E _]. congruence.
  - unfold retire_generation in Hp. case_match; [done|]. injection Hp as <-. cbn. intros [E _]. congruence.
Qed.

(** C29: a confirmed operation ran in one healthy (or opening) generation.  An admission made while
    the gate was healthy or opening that is held from one moment to a later one, and confirms then,
    would have confirmed at the earlier moment too: in no interleaving of threads that drop their
    admissions in scope order does the gate leave its state and generation and come back under it.
    So a result that passes the confirmation was computed without a failure, a recovery or a new
    generation in between.  The admissions of a recovery's candidate, made while the gate is
    reopening, are not covered: after a failure the next recovery brings the gate back to reopening
    in the same generation. *)
Theorem confirmed_in_one_generation tr0 s1 tr s2 t k a : steps gate_step opening_system tr0 s1 -> Forall scoped (tr0 ++ tr) -> ha_state a <> Reopening ->
  held t k a s1 -> steps (held_step t k a) s1 tr s2 -> confirm (sy_inner s2) a = Ok tt -> confirm (sy_inner s1) a = Ok tt.
Proof.
  intros H0 Hsc Hne Hh Hsteps. apply Forall_app in Hsc as [Hsc0 Hsc]. pose proof (reachable_ok _ _ H0 Hsc0) as Hs. clear H0 Hsc0.
  assert (Forall scoped tr -> gate_ok s2 /\ held t k a s2 /\ (confirm (sy_inner s2) a = Ok tt -> confirm (sy_inner s1) a = Ok tt)) as Hx; [|by apply Hx].
  clear Hsc. induction Hsteps as [s|s1 tr s2 ev s3 _ IH [Hstep Hh3]]; intros Hsc; [done|]. apply Forall_app in Hsc as [Hsc Hev]. rewrite Forall_singleton in Hev.
  destruct (IH Hh Hs Hsc) as (Hs2 & Hh2 & IHc). split; [by eapply gate_step_ok|]. split; [done|]. intros Hc. apply IHc. by eapply confirm_back.
Qed.

(** ** Generations *)

Definition published (tr : list gate_event) : list Z := omap (fun ev => match ev with EvPublished g => Some g | _ => None end) tr.
Lemma published_app tr ev : published (tr ++ [ev]) = published tr ++ match ev with EvPublished g => [g] | _ => [] end.
Proof. unfold published. rewrite omap_app. by destruct ev. Qed.

(** What was published is below a candidate; a planned generation is the next one. *)
Definition stage_ahead (gen : Z) (pubs : list Z) (stage : recovery_stage) : Prop :=
  match stage with Planned next => next = gen + 1 | Candidate g => g = gen /\ Forall (fun p => p < g) pubs | _ => True end.
Record generations_ok (tr : list gate_event) (s : GateSystem) : Prop := mkGenerationsOk {
  gn_sorted : StronglySorted Z.lt (published tr);
  gn_below : Forall (fun p => p <= hi_generation (sy_inner s)) (published tr);
  gn_opening : hi_state (sy_inner s) = Opening -> published tr = [];
  gn_healthy : hi_state (sy_inner s) = Healthy -> last (published tr) = Some (hi_generation (sy_inner s));
  gn_ahead : map_Forall (fun _ => stage_ahead (hi_generation (sy_inner s)) (published tr)) (sy_recoveries s)
}.

Lemma sorted_snoc (l : list Z) g : StronglySorted Z.lt l -> Forall (fun p => p < g) l -> StronglySorted Z.lt (l ++ [g]).
Proof.
  intros Hs Hf. induction Hs as [|p l Hs IH Hp]; cbn; [repeat constructor|]. inversion Hf; subst. constructor; [by apply IH|]. apply Forall_app. split; [done|by constructor].
Qed.

(** A step that publishes nothing, keeps the generation and opens nothing. *)
Lemma generations_same tr s ev s' : generations_ok tr s -> (forall g, ev <> EvPublished g) -> hi_generation (sy_inner s') = hi_generation (sy_inner s) ->
  hi_state (sy_inner s') = hi_state (sy_inner s) \/ hi_state (sy_inner s') = Failed \/ hi_state (sy_inner s') = Reopening ->
  map_Forall (fun _ => stage_ahead (hi_generation (sy_inner s)) (published tr)) (sy_recoveries s') -> generations_ok (tr ++ [ev]) s'.
Proof.
  intros [G1 G2 G3 G4 G5] Hev Eg Est Hr. assert (published (tr ++ [ev]) = published tr) as Ep by (rewrite published_app; destruct ev; by rewrite ?app_nil_r || by destruct (Hev generation)).
  split; rewrite ?Ep, ?Eg; try done; intros E; destruct Est as [Est|[Est|Est]]; rewrite Est in E; try done; auto.
Qed.

Lemma generations_step tr s ev s' : gate_ok s -> generations_ok tr s -> gate_step s ev s' -> generations_ok (tr ++ [ev]) s'.
Proof.
  intros Hs Hg Hstep. pose proof (gn_ahead _ _ Hg) as Hah.
  destruct Hstep as [s t' expected s' ev Hw He Ha|s t' expected s' ev Hw Ha|s t' position s' Hw Hr|s t' gate Hne|s t' gate gates Hne Hc|s severity|s generation inner Hp
    |s r inner Hr Hb|s r Hr|s r next Hr Hn|s r next inner Hr Hp|s r generation m inner Hr Hp|s r stage m inner Hr Hst Hf|s r stage Hr Hst|s r generation inner Hr Hp|s r Hr Hd].
  - destruct (admit_inner _ _ _ _ _ _ Ha) as (E1 & E2 & _ & E3 & E4). apply (generations_same _ s); [done|done|done|by left|by rewrite E3].
  - destruct (admit_inner _ _ _ _ _ _ Ha) as (E1 & E2 & _ & E3 & E4). apply (generations_same _ s); [done|done|done|by left|by rewrite E3].
  - destruct (release_inner _ _ _ _ Hr) as (E1 & E2 & _ & E3). apply (generations_same _ s); [done|done|done|by left|by rewrite E3].
  - apply (generations_same _ s); auto.
  - apply (generations_same _ s); auto.
  - apply (generations_same _ s); [done|done| | |done]; cbn; unfold signal_failure; destruct severity, (hi_state (sy_inner s)) eqn:E; cbn; auto.
  - unfold publish_opening in Hp. case_match eqn:Ec; [done|]. injection Hp as <-. bool_facts. destruct Hg as [G1 G2 G3 G4 G5]. rewrite (G3 ltac:(done)) in *.
    pose proof (go_one _ Hs) as Hone. destruct (hi_maintenance (sy_inner s)); [exfalso; eauto|].
    split; rewrite published_app, (G3 ltac:(done)); cbn; try done; [repeat constructor|by constructor; [lia|]|by intros _; f_equal; lia|]. rewrite Hone. apply map_Forall_empty.
  - unfold begin_maintenance in Hb. case_match; [done|]. case_match; [done|]. injection Hb as <-. apply (generations_same _ s); auto.
    cbn. apply map_Forall_insert_2; [|done]. unfold end_drain. by destruct (drained _).
  - apply (generations_same _ s); auto. cbn. apply map_Forall_insert_2; [|done]. unfold end_drain. by destruct (drained _).
  - apply (generations_same _ s); auto. cbn. apply map_Forall_insert_2; [|done]. cbn in Hn. unfold next_generation in Hn. by apply checked_add64_Some in Hn as [-> _].
  - destruct (one_recovery _ _ _ Hs Hr) as [E _]. rewrite E in Hah. pose proof (proj1 (map_Forall_singleton _ _ _) Hah) as Hnext. cbn in Hnext. subst next.
    unfold prepare_candidate in Hp. case_match eqn:Ec; [done|]. injection Hp as <-. bool_facts. destruct Hg as [G1 G2 G3 G4 G5]. split; rewrite published_app, app_nil_r; cbn; try done; try congruence.
    + eapply Forall_impl; [exact G2|]. cbn. lia.
    + rewrite E, insert_singleton_eq. apply map_Forall_singleton. cbn. split; [done|]. eapply Forall_impl; [exact G2|]. cbn. lia.
  - destruct (one_recovery _ _ _ Hs Hr) as [E _]. rewrite E in Hah. pose proof (proj1 (map_Forall_singleton _ _ _) Hah) as [-> Hbelow].
    unfold publish_candidate in Hp. case_match eqn:Ec; [done|]. injection Hp as <- <-. bool_facts. destruct Hg as [G1 G2 G3 G4 G5]. split; rewrite published_app; cbn; try done.
    + by apply sorted_snoc.
    + apply Forall_app. split; [done|]. by constructor.
    + intros _. by rewrite last_snoc.
    + rewrite E, delete_singleton_eq. apply map_Forall_empty.
  - unfold finish_failed in Hf. injection Hf as <- <-. apply (generations_same _ s); auto. cbn. by apply map_Forall_delete.
  - apply (generations_same _ s); [done|done|by unfold drop_maintenance; cbn; case_match|unfold drop_maintenance; cbn; case_match; cbn; auto|]. cbn. by apply map_Forall_delete.
  - unfold retire_generation in Hp. case_match; [done|]. injection Hp as <-. apply (generations_same _ s); auto.
  - apply (generations_same _ s); auto.
Qed.

(** C30: every publication is of a new generation.  In every interleaving in which threads drop
    their admissions in scope order the generations that are published, by the opening and by recoveries, strictly increase; none is above the one of
    the gate, and a healthy gate is of the last one published.  So an admission, a handle or a
    receipt of an earlier generation is never taken for one of the current generation. *)
Theorem published_generations_increase tr s : steps gate_step opening_system tr s -> Forall scoped tr ->
  StronglySorted Z.lt (published tr) /\ Forall (fun g => g <= hi_generation (sy_inner s)) (published tr)
  /\ (hi_state (sy_inner s) = Healthy -> last (published tr) = Some (hi_generation (sy_inner s))).
Proof.
  intros Hsteps Hsc. assert (generations_ok tr s) as [G1 G2 _ G4 _]; [|done].
  refine (proj2 (steps_trace_invariant _ (fun tr s => Forall scoped tr -> gate_ok s /\ generations_ok tr s) _ _ _ _ _ Hsteps Hsc)).
  - intros tr' s1 ev s2 IH Hstep Hsc'. apply Forall_app in Hsc' as [Hsc' Hev]. rewrite Forall_singleton in Hev. destruct (IH Hsc') as [I1 I2]. split; [by eapply gate_step_ok|by eapply generations_step].
  - intros _. split; [exact opening_ok|]. apply mkGenerationsOk; [constructor|constructor|done|done|apply map_Forall_empty].
Qed.

(** ** A failure under an operation, and a recovery *)

Lemma steps_then tr s1 s2 ev s3 tr' : steps gate_step s1 tr s2 -> gate_step s2 ev s3 -> tr' = tr ++ [ev] -> steps gate_step s1 tr' s3.
Proof. intros H1 H2 ->. by econstructor. Qed.

(** A healthy gate with one operation on thread 7, then a structural failure. *)
Definition sample_admission : HealthAdmission := mkAdmission 1 Healthy true.
Definition sample_running (state : HomeHealthState) : GateSystem := mkSystem (mkInner state 1 1 None) {[7%nat := [this_gate]]} {[7%nat := [sample_admission]]} ∅ ∅ ∅.
Definition sample_recovered : GateSystem := mkSystem (mkInner Healthy 2 0 None) {[7%nat := []]} ∅ ∅ ∅ ∅.
Definition sample_trace : list gate_event := [EvPublished 1; EvAdmitted 7%nat].

Lemma sample_admitted : steps gate_step opening_system sample_trace (sample_running Healthy).
Proof.
  eapply (steps_then [EvPublished 1]); [eapply (steps_then []); [constructor|by eapply (step_publish_opening _ 1)|done]| |done].
  by eapply (step_admit _ 7%nat Healthy).
Qed.

(** The recovery waits for the operation, which is dropped without being confirmed. *)
Lemma sample_recovery : steps gate_step opening_system (sample_trace ++ [EvSilent; EvSilent; EvReleased 7%nat 0%nat; EvSilent; EvSilent; EvSilent; EvPublished 2]) sample_recovered.
Proof.
  assert (exists s, steps gate_step opening_system (sample_trace ++ [EvSilent; EvSilent; EvReleased 7%nat 0%nat; EvSilent; EvSilent; EvSilent; EvPublished 2]) s /\ s = sample_recovered) as (s & Hs & ->); [|done].
  eexists. split.
  - eapply (steps_then (sample_trace ++ [EvSilent; EvSilent; EvReleased 7%nat 0%nat; EvSilent; EvSilent; EvSilent])); [| |done].
    1: eapply (steps_then (sample_trace ++ [EvSilent; EvSilent; EvReleased 7%nat 0%nat; EvSilent; EvSilent])); [| |done].
    1: eapply (steps_then (sample_trace ++ [EvSilent; EvSilent; EvReleased 7%nat 0%nat; EvSilent])); [| |done].
    1: eapply (steps_then (sample_trace ++ [EvSilent; EvSilent; EvReleased 7%nat 0%nat])); [| |done].
    1: eapply (steps_then (sample_trace ++ [EvSilent; EvSilent])); [| |done].
    1: eapply (steps_then (sample_trace ++ [EvSilent])); [| |done].
    1: eapply (steps_then sample_trace); [exact sample_admitted|exact (step_signal _ Structural)|done].
    1: eapply (step_begin _ 3%nat (mkInner Reopening 1 1 (Some Recovery))); vm_compute; reflexivity.
    1: eapply (step_release _ 7%nat 0); [vm_compute; reflexivity|reflexivity].
    1: eapply (step_begin_wake _ 3%nat); vm_compute; reflexivity.
    1: eapply (step_plan _ 3%nat 2); vm_compute; reflexivity.
    1: eapply (step_prepare _ 3%nat 2 (mkInner Reopening 2 0 (Some Recovery))); vm_compute; reflexivity.
    eapply (step_publish _ 3%nat 2 (mkMaintenance Recovery true) (mkInner Healthy 2 0 None)); vm_compute; reflexivity.
  - vm_compute. reflexivity.
Qed.

Lemma admit_generation_exact_witness : 0 <= hi_active (sy_inner (sample_running Healthy)) <= MAX_CONCURRENT_STORAGE_ADMISSIONS
  /\ exists a, admit_generation (sy_inner (sample_running Healthy)) false 1 = Some (mkInner Healthy 1 2 None, Enter, Some a) /\ confirm (mkInner Healthy 1 2 None) a = Ok tt.
Proof.
  split; [by vm_compute|]. pose proof (admit_generation_exact (sy_inner (sample_running Healthy)) Healthy false 1 ltac:(by vm_compute)) as Hx.
  cbn in Hx. destruct Hx as (_ & _ & _ & a & [= <-] & Hc & _). eexists. split; [reflexivity|exact Hc].
Defined.

Lemma gate_counts_admissions_witness : hi_active (sy_inner (sample_running Healthy)) = 1 /\ drained (sy_inner sample_recovered) = true.
Proof.
  destruct (gate_counts_admissions sample_trace (sample_running Healthy) sample_admitted ltac:(by repeat constructor)) as (E & _).
  destruct (gate_counts_admissions _ _ sample_recovery ltac:(by repeat constructor)) as (_ & _ & _ & Hd & _).
  split; [rewrite E; reflexivity|]. apply Hd. intros t. reflexivity.
Defined.

(** A thread that only reads the gate while another gate is marked. *)
Lemma confirmed_in_one_generation_witness : exists s2, steps (held_step 7 0 sample_admission) (sample_running Healthy) [EvSilent] s2
  /\ confirm (sy_inner s2) sample_admission = Ok tt /\ confirm (sy_inner (sample_running Healthy)) sample_admission = Ok tt.
Proof.
  set (s2 := set_marks (sample_running Healthy) 7 (mark_thread_admitted 9 (marks (sample_running Healthy) 7))).
  assert (Hs : steps (held_step 7 0 sample_admission) (sample_running Healthy) [EvSilent] s2).
  { apply (steps_snoc _ _ [] (sample_running Healthy)); [constructor|]. split; [by apply step_other_mark|reflexivity]. }
  exists s2. split; [exact Hs|]. split; [reflexivity|].
  exact (confirmed_in_one_generation sample_trace (sample_running Healthy) [EvSilent] s2 7 0 sample_admission sample_admitted ltac:(by repeat constructor) ltac:(done) eq_refl Hs eq_refl).
Defined.

Lemma published_generations_increase_witness : StronglySorted Z.lt [1; 2] /\ hi_generation (sy_inner sample_recovered) = 2.
Proof.
  destruct (published_generations_increase _ _ sample_recovery ltac:(by repeat constructor)) as (Hs & _ & Hl). split; [exact Hs|].
  specialize (Hl eq_refl). reflexivity.
Defined.
