(* ===== verification/Cursors.v ===== *)
(** * Paged cursors

    The loop with which the domains of [beryl-state] read a table: a page of a cursor, its
    records in order, then the page behind the last of them ([durable_job/validate.rs],
    [runtime_root/validate.rs]).  A cursor that gives the records of a table by pages makes the
    loop over pages the loop over records. *)
From stdpp Require Import prelude gmap.
From S2P Require Import Prelude.

(** A page of a cursor: its records, and whether there are more. *)
Definition page (K V : Type) : Type := list (K * V) * bool.
Definition cursor (E K V : Type) : Type := option K -> result E (page K V).

(** [for entry in page.records()] *)
Fixpoint for_each {E A S} (step : S -> A -> result E S) (s : S) (entries : list A) : result E S :=
  match entries with [] => Ok s | e :: entries => s ← step s e; for_each step s entries end.

(** Read a page, check its records, go on behind the last of them.
    [None] is an exhausted fuel. *)
Fixpoint page_loop {E K V S} (fuel : nat) (read : cursor E K V) (stuck : E) (step : S -> K * V -> result E S) (after : option K) (s : S) : panicky E S :=
  match fuel with
  | O => None
  | S fuel =>
      page ← run (read after);
      s ← run (for_each step s page.1);
      if negb page.2 then mret s
      else match last page.1 with Some entry => page_loop fuel read stuck step (Some entry.1) s | None => fail stuck end
  end.

Definition stateless {E A} (check : A -> result E unit) (_ : unit) (entry : A) : result E unit := check entry.

(** The cursor gives [entries] by pages, each continuing behind a record given before, and none
    empty while records remain. *)
Definition serves {E K V} (read : cursor E K V) (entries : list (K * V)) : Prop :=
  forall before rest, entries = before ++ rest -> exists page rest', rest = page ++ rest' /\ (page = [] -> rest = [])
    /\ read (fst <$> last before) = Ok (page, bool_decide (rest' <> [])).

(** The records of a table, in some order. *)
Definition lists {K V} `{Countable K} (entries : list (K * V)) (m : gmap K V) : Prop := forall k v, (k, v) ∈ entries <-> m !! k = Some v.

(** ** The page loop *)

Lemma for_each_app {E A S} (step : S -> A -> result E S) l l' s :
  for_each step s (l ++ l') = (s ← for_each step s l; for_each step s l').
Proof. revert s. induction l as [|a l IH]; intros s; [done|]. cbn. destruct (step s a); cbn; [apply IH|done]. Qed.

(** The loop over the pages is the loop over the records. *)
Lemma page_loop_serves {E K V S} (read : cursor E K V) stuck (step : S -> K * V -> result E S) entries fuel before rest s :
  serves read entries -> entries = before ++ rest -> (length rest < fuel)%nat ->
  page_loop fuel read stuck step (fst <$> last before) s = run (for_each step s rest).
Proof.
  intros Hs. revert before rest s. induction fuel as [|fuel IH]; intros before rest s He Hf; [lia|].
  destruct (Hs _ _ He) as (page & rest' & -> & Hp & Hr). cbn [page_loop]. rewrite Hr. cbn [run mbind panicky_bind fst snd].
  rewrite for_each_app. destruct (for_each step s page) as [s'|e] eqn:Hpage; [|done]. cbn [mbind result_bind].
  destruct (decide (rest' = [])) as [->|Hne]; [done|]. rewrite bool_decide_eq_true_2 by done. cbn [negb].
  destruct (last page) as [entry|] eqn:El.
  - change (Some entry.1) with (fst <$> Some entry). rewrite <- El, app_assoc in *.
    assert (last page = last (before ++ page)) as -> by (rewrite last_app, El; done).
    apply IH; [done|]. rewrite length_app in Hf. destruct page; [done|]. cbn in Hf. lia.
  - apply last_None in El as ->. by specialize (Hp eq_refl).
Qed.

Lemma for_each_stateless {E A} (check : A -> result E unit) l :
  for_each (stateless check) tt l = Ok tt <-> forall e, e ∈ l -> check e = Ok tt.
Proof.
  induction l as [|a l IH]; cbn.
  - split; [intros _ e He; by apply not_elem_of_nil in He|done].
  - rewrite result_bind_Ok. setoid_rewrite elem_of_cons. split.
    + intros ([] & Ha & Hl) e [->|He]; [done|]. by apply IH.
    + intros Hall. exists tt. split; [apply Hall; by left|]. apply IH. intros e He. apply Hall. by right.
Qed.

Lemma run_settles {E} (m : result E unit) P : (m = Ok tt <-> P) -> settles (run m) P tt.
Proof. destruct m as [[]|e]; intros HP; [left; naive_solver|right]. split; [intros p; by apply HP in p|by eexists]. Qed.

Lemma loop_settles {E K V} (read : cursor E K V) stuck check l fuel : serves read l -> (length l < fuel)%nat ->
  settles (page_loop fuel read stuck (stateless check) None tt) (forall e, e ∈ l -> check e = Ok tt) tt.
Proof.
  intros Hs Hf. pose proof (page_loop_serves read stuck (stateless check) l fuel [] l tt Hs eq_refl Hf) as Hl. cbn [last fmap option_fmap option_map] in Hl.
  rewrite Hl. apply run_settles, for_each_stateless.
Qed.

Lemma lists_forall {K V} `{Countable K} (l : list (K * V)) m (P : K * V -> Prop) : lists l m -> (forall e, e ∈ l -> P e) <-> (forall k v, m !! k = Some v -> P (k, v)).
Proof. intros Hl. split; [intros H' k v Hk; by apply H', Hl|intros H' [k v] He; by apply H', Hl]. Qed.

(** A cursor that gives [n] records a page. *)
Fixpoint behind {K V} `{EqDecision K} (k : K) (l : list (K * V)) : list (K * V) :=
  match l with [] => [] | (k', _) :: l => if decide (k = k') then l else behind k l end.
Definition page_cursor {E K V} `{EqDecision K} (n : nat) (l : list (K * V)) : cursor E K V := fun after =>
  let rest := match after with Some k => behind k l | None => l end in Ok (take n rest, bool_decide (drop n rest <> [])).

Lemma behind_app {K V} `{EqDecision K} (before rest : list (K * V)) k v : NoDup (before ++ (k, v) :: rest).*1 -> behind k (before ++ (k, v) :: rest) = rest.
Proof.
  induction before as [|[k' v'] before IH]; cbn; intros Hn; [by rewrite decide_True|]. apply NoDup_cons in Hn as [Hk Hn]. rewrite decide_False; [by apply IH|].
  intros ->. apply Hk. rewrite fmap_app. set_solver.
Qed.

Lemma page_cursor_serves {E K V} `{EqDecision K} (n : nat) (l : list (K * V)) : (0 < n)%nat -> NoDup l.*1 -> serves (page_cursor (E := E) n l) l.
Proof.
  intros Hn Hd before rest ->. exists (take n rest), (drop n rest). split; [by rewrite take_drop|]. split; [destruct n; [lia|]; by destruct rest|]. unfold page_cursor.
  destruct (last before) as [[k v]|] eqn:El; cbn; [|by apply last_None in El as ->]. apply last_Some in El as [b ->]. rewrite <- app_assoc in *. cbn in *. by rewrite behind_app.
Qed.

Lemma map_to_list_lists {K V} `{Countable K} (m : gmap K V) : lists (map_to_list m) m.
Proof. intros k v. by rewrite elem_of_map_to_list. Qed.
