(* ===== verification/JobModel.v ===== *)
(** * Durable jobs: the branch-handoff job

    [beryl-state/src/durable_job.rs] and [durable_job/{value,record,mutation}.rs] with
    [mutation/{access,admission,prepared,transition}.rs], [mutation/admission/outcome.rs],
    [mutation/transition/successor.rs] and [acquisition.rs]: the values of a job, its state
    machine, and the mutations of the five tables of the domain (job records, live jobs, requests,
    attempts, latest attempts).  Reads go through [JobReader], the trait [Reader]: a point read
    may fail.  What a mutation contributes is a change of the tables, committed as a whole. *)
From stdpp Require Import prelude gmap strings.
From S2P Require Import Prelude.
From S2P Require Import Bytes.
From S2P Require Import ModelIds.
From S2P Require Import ModelText.
From S2P Require Import SyndicValues.
From S2P Require Import BuildBudget.

(** ** Values *)

Definition RESOLUTION_TEXT_MAX_BYTES : Z := 262144.
Definition RESOLUTION_TEXT_MAX_SCALARS : Z := 65536.
Definition HANDOFF_FAILURE_DETAIL_MAX_BYTES : Z := 2 * 1024.

Inductive DurableJobValueError :=
  | JvEmpty (kind : string)
  | JvTooLong (kind : string) (maximum actual : Z)
  | JvTooManyScalars (maximum actual : Z)
  | JvSurroundingWhitespace (kind : string)
  | JvControlCharacter (kind : string) (index : nat)
  | ZeroAttemptOrdinal
  | AttemptOrdinalExhausted.

Definition FIRST : Z := 1.
Definition new_attempt_ordinal (value : Z) : result DurableJobValueError Z := ok_or ZeroAttemptOrdinal (nonzero value).
Definition next_attempt_ordinal (ordinal : Z) : result DurableJobValueError Z := ok_or AttemptOrdinalExhausted (checked_add64 ordinal 1 ≫= nonzero).

Definition validate_resolution_text (value : list byte) : result DurableJobValueError unit :=
  if bool_decide (value = []) then Err (JvEmpty "branch resolution text")
  else if RESOLUTION_TEXT_MAX_BYTES <? zlen value then Err (JvTooLong "branch resolution text" RESOLUTION_TEXT_MAX_BYTES (zlen value))
  else
    let scalars := zlen (char_indices value) in
    if RESOLUTION_TEXT_MAX_SCALARS <? scalars then Err (JvTooManyScalars RESOLUTION_TEXT_MAX_SCALARS scalars) else Ok tt.
Definition new_resolution_text (value : list byte) : result DurableJobValueError (list byte) :=
  _ ← validate_resolution_text value; Ok value.

Definition validate_failure_detail (value : list byte) : result DurableJobValueError (list byte) :=
  let kind := "handoff failure detail"%string in
  if bool_decide (value = []) then Err (JvEmpty kind)
  else if HANDOFF_FAILURE_DETAIL_MAX_BYTES <? zlen value then Err (JvTooLong kind HANDOFF_FAILURE_DETAIL_MAX_BYTES (zlen value))
  else if bool_decide (trim (char_indices value) <> char_indices value) then Err (JvSurroundingWhitespace kind)
  else match find_char is_control value with Some index => Err (JvControlCharacter kind index) | None => Ok value end.

Record ResolutionRequestIdentity := mkRequest { rq_cas_thread_id : list byte; rq_cas_turn_id : list byte; rq_tool_call_id : list byte }.
Record ParentHandoffIdentity := mkParentHandoff { ph_accepted_input_id : list byte; ph_turn_id : list byte }.
Record ParentCasIdentity := mkParentCas { pcas_thread_id : list byte; pcas_turn_id : list byte }.

Inductive HandoffFailureKind :=
  | RuntimeUnavailable | RootUnavailable | CasUnavailable | TransientDeliveryFailure | CasRejectedBeforeAcceptance
  | InvariantViolation | ParentMissing | UnrecoverablePostAppend | ParentInterrupted | ParentIncomplete
  | ParentTerminalFailure | ChildInputPending | ParentArchived.

Definition is_retryable (kind : HandoffFailureKind) : bool :=
  match kind with
  | RuntimeUnavailable | RootUnavailable | CasUnavailable | TransientDeliveryFailure | CasRejectedBeforeAcceptance => true
  | _ => false
  end.
Definition kind_is_terminal (kind : HandoffFailureKind) : bool := negb (is_retryable kind).

Record HandoffFailureEvidence := mkEvidence { ev_kind : HandoffFailureKind; ev_detail : option (list byte) }.
Definition new_evidence (kind : HandoffFailureKind) (detail : option (list byte)) : result DurableJobValueError HandoffFailureEvidence :=
  match detail with
  | Some detail => detail ← validate_failure_detail detail; Ok (mkEvidence kind (Some detail))
  | None => Ok (mkEvidence kind None)
  end.

(** ** Records *)

Definition branch_handoff_job_id (intent_id : list byte) : list byte := intent_id.

Record BranchHandoffJobAdmission := mkJobAdmission {
  ja_intent_id : list byte;
  ja_attempt_ordinal : Z;
  ja_discussion_thread_id : list byte;
  ja_parent_thread_id : list byte;
  ja_context_owner_id : DiscussionContextOwnerId;
  ja_context_digest : list byte;
  ja_resolving_turn_id : list byte;
  ja_request : ResolutionRequestIdentity;
  ja_parent_queue_ordinal : Z;
  ja_resolution : list byte
}.

Inductive BranchHandoffJobLifecycle :=
  | LcWaitingResolvingTurn | LcWaitingParent | LcStartingParent | LcParentActive | LcRetryableFailed | LcTerminalFailed | LcSucceeded.
Definition is_live (l : BranchHandoffJobLifecycle) : bool :=
  match l with LcWaitingResolvingTurn | LcWaitingParent | LcStartingParent | LcParentActive | LcRetryableFailed => true | _ => false end.
Definition is_terminal (l : BranchHandoffJobLifecycle) : bool := match l with LcTerminalFailed | LcSucceeded => true | _ => false end.

Inductive BranchHandoffCheckpoint :=
  | CpWaitingResolvingTurn
  | CpWaitingParent
  | CpStartingParent (parent : ParentHandoffIdentity)
  | CpParentActive (parent : ParentHandoffIdentity) (cas : ParentCasIdentity).

Inductive BranchHandoffJobState :=
  | WaitingResolvingTurn
  | WaitingParent
  | StartingParent (parent : ParentHandoffIdentity)
  | ParentActive (parent : ParentHandoffIdentity) (cas : ParentCasIdentity)
  | RetryableFailed (resume : BranchHandoffCheckpoint) (evidence : HandoffFailureEvidence)
  | TerminalFailed (stopped_at : BranchHandoffCheckpoint) (evidence : HandoffFailureEvidence)
  | Succeeded (parent : ParentHandoffIdentity) (cas : ParentCasIdentity).

Definition checkpoint_lifecycle (c : BranchHandoffCheckpoint) : BranchHandoffJobLifecycle :=
  match c with
  | CpWaitingResolvingTurn => LcWaitingResolvingTurn | CpWaitingParent => LcWaitingParent
  | CpStartingParent _ => LcStartingParent | CpParentActive _ _ => LcParentActive
  end.
Definition into_state (c : BranchHandoffCheckpoint) : BranchHandoffJobState :=
  match c with
  | CpWaitingResolvingTurn => WaitingResolvingTurn | CpWaitingParent => WaitingParent
  | CpStartingParent parent => StartingParent parent | CpParentActive parent cas => ParentActive parent cas
  end.
Definition checkpoint_parent (c : BranchHandoffCheckpoint) : option ParentHandoffIdentity :=
  match c with CpStartingParent parent | CpParentActive parent _ => Some parent | _ => None end.
Definition checkpoint_parent_cas (c : BranchHandoffCheckpoint) : option ParentCasIdentity :=
  match c with CpParentActive _ cas => Some cas | _ => None end.

#[global] Instance failure_kind_eq_dec : EqDecision HandoffFailureKind.
Proof. solve_decision. Defined.
#[global] Instance lifecycle_eq_dec : EqDecision BranchHandoffJobLifecycle.
Proof. solve_decision. Defined.

Definition failure_state_is_compatible (failure_lifecycle : BranchHandoffJobLifecycle) (checkpoint : BranchHandoffCheckpoint) (kind : HandoffFailureKind) : bool :=
  let disposition_matches := match failure_lifecycle with LcRetryableFailed => is_retryable kind | LcTerminalFailed => kind_is_terminal kind | _ => false end in
  if negb disposition_matches then false
  else
    match kind, checkpoint_lifecycle checkpoint with
    | ParentArchived, (LcWaitingResolvingTurn | LcWaitingParent) => true
    | ParentArchived, _ => false
    | ChildInputPending, LcWaitingResolvingTurn => true
    | ChildInputPending, _ => false
    | CasRejectedBeforeAcceptance, LcStartingParent => true
    | CasRejectedBeforeAcceptance, _ => false
    | UnrecoverablePostAppend, (LcStartingParent | LcParentActive) => true
    | UnrecoverablePostAppend, _ => false
    | (ParentInterrupted | ParentIncomplete | ParentTerminalFailure), LcParentActive => true
    | (ParentInterrupted | ParentIncomplete | ParentTerminalFailure), _ => false
    | _, _ => true
    end.

Definition state_lifecycle (s : BranchHandoffJobState) : BranchHandoffJobLifecycle :=
  match s with
  | WaitingResolvingTurn => LcWaitingResolvingTurn | WaitingParent => LcWaitingParent | StartingParent _ => LcStartingParent
  | ParentActive _ _ => LcParentActive | RetryableFailed _ _ => LcRetryableFailed | TerminalFailed _ _ => LcTerminalFailed | Succeeded _ _ => LcSucceeded
  end.
Definition state_checkpoint (s : BranchHandoffJobState) : option BranchHandoffCheckpoint :=
  match s with
  | WaitingResolvingTurn => Some CpWaitingResolvingTurn
  | WaitingParent => Some CpWaitingParent
  | StartingParent parent => Some (CpStartingParent parent)
  | ParentActive parent cas => Some (CpParentActive parent cas)
  | RetryableFailed resume _ => Some resume
  | TerminalFailed _ _ | Succeeded _ _ => None
  end.
Definition state_parent (s : BranchHandoffJobState) : option ParentHandoffIdentity :=
  match s with
  | StartingParent parent | ParentActive parent _ | Succeeded parent _ => Some parent
  | RetryableFailed resume _ => checkpoint_parent resume
  | TerminalFailed stopped_at _ => checkpoint_parent stopped_at
  | WaitingResolvingTurn | WaitingParent => None
  end.
Definition state_parent_cas (s : BranchHandoffJobState) : option ParentCasIdentity :=
  match s with
  | ParentActive _ cas | Succeeded _ cas => Some cas
  | RetryableFailed resume _ => checkpoint_parent_cas resume
  | TerminalFailed stopped_at _ => checkpoint_parent_cas stopped_at
  | _ => None
  end.

Record BranchHandoffJobRecord := mkJob {
  jb_job_id : list byte;
  jb_intent_id : list byte;
  jb_attempt_ordinal : Z;
  jb_discussion_thread_id : list byte;
  jb_parent_thread_id : list byte;
  jb_context_owner_id : DiscussionContextOwnerId;
  jb_context_digest : list byte;
  jb_resolving_turn_id : list byte;
  jb_request : ResolutionRequestIdentity;
  jb_parent_queue_ordinal : Z;
  jb_resolution : list byte;
  jb_state : BranchHandoffJobState;
  jb_revision : Z
}.
Definition lifecycle (job : BranchHandoffJobRecord) : BranchHandoffJobLifecycle := state_lifecycle (jb_state job).

(** [initial] *)
Definition initial_job (a : BranchHandoffJobAdmission) : BranchHandoffJobRecord :=
  mkJob (branch_handoff_job_id (ja_intent_id a)) (ja_intent_id a) (ja_attempt_ordinal a) (ja_discussion_thread_id a) (ja_parent_thread_id a)
    (ja_context_owner_id a) (ja_context_digest a) (ja_resolving_turn_id a) (ja_request a) (ja_parent_queue_ordinal a) (ja_resolution a) WaitingResolvingTurn 1.

Record ResolutionRequestAdmission := mkRequestAdmission { ra_job_id : list byte; ra_intent_id : list byte; ra_discussion_thread_id : list byte; ra_attempt_ordinal : Z }.
Definition admission_from_job (job : BranchHandoffJobRecord) : ResolutionRequestAdmission :=
  mkRequestAdmission (jb_job_id job) (jb_intent_id job) (jb_discussion_thread_id job) (jb_attempt_ordinal job).
Record LatestBranchHandoffAttempt := mkLatest { la_job_id : list byte; la_attempt_ordinal : Z }.
Definition latest_from_job (job : BranchHandoffJobRecord) : LatestBranchHandoffAttempt := mkLatest (jb_job_id job) (jb_attempt_ordinal job).

#[global] Instance resolution_request_eq_dec : EqDecision ResolutionRequestIdentity.
Proof. solve_decision. Defined.
#[global] Instance parent_handoff_eq_dec : EqDecision ParentHandoffIdentity.
Proof. solve_decision. Defined.
#[global] Instance parent_cas_eq_dec : EqDecision ParentCasIdentity.
Proof. solve_decision. Defined.
#[global] Instance evidence_eq_dec : EqDecision HandoffFailureEvidence.
Proof. solve_decision. Defined.
#[global] Instance checkpoint_eq_dec : EqDecision BranchHandoffCheckpoint.
Proof. solve_decision. Defined.
#[global] Instance job_state_eq_dec : EqDecision BranchHandoffJobState.
Proof. solve_decision. Defined.
#[global] Instance owner_eq_dec : EqDecision DiscussionContextOwnerId.
Proof. solve_decision. Defined.
#[global] Instance job_eq_dec : EqDecision BranchHandoffJobRecord.
Proof. solve_decision. Defined.
#[global] Instance request_admission_eq_dec : EqDecision ResolutionRequestAdmission.
Proof. solve_decision. Defined.
#[global] Instance latest_eq_dec : EqDecision LatestBranchHandoffAttempt.
Proof. solve_decision. Defined.
#[global] Instance request_countable : Countable ResolutionRequestIdentity.
Proof. by refine (inj_countable' (fun r => (rq_cas_thread_id r, rq_cas_turn_id r, rq_tool_call_id r)) (fun '(a, b, c) => mkRequest a b c) _); intros []. Defined.

(** ** Errors *)

Inductive DurableJobMutationError :=
  | JobRead
  | JobValue (e : DurableJobValueError)
  | JobRevisionError (e : RevisionError)
  | RequestAlreadyAdmitted (existing : ResolutionRequestAdmission)
  | JobAlreadyExists (job_id : list byte)
  | JobMissing (job_id : list byte)
  | AttemptAlreadyExists (discussion_thread_id : list byte) (attempt_ordinal : Z)
  | AttemptOrdinalConflict (expected actual : Z)
  | LiveAttemptExists (job_id : list byte)
  | SuccessfulAttemptExists (job_id : list byte)
  | JobRevisionConflict (expected current : Z)
  | InvalidTransition (expected : string) (current : BranchHandoffJobLifecycle)
  | FailureKindMismatch (expected : string) (actual : HandoffFailureKind)
  | JobInvariant (message : string).
Abbreviation job_result := (result DurableJobMutationError).

(** [From] conversions of [?] *)
Definition of_value {A} (r : result DurableJobValueError A) : job_result A := match r with Ok a => Ok a | Err e => Err (JobValue e) end.
Definition of_revision {A} (r : result RevisionError A) : job_result A := match r with Ok a => Ok a | Err e => Err (JobRevisionError e) end.

(** ** Successors *)

Definition with_job_state (job : BranchHandoffJobRecord) (state : BranchHandoffJobState) (revision : Z) : BranchHandoffJobRecord :=
  mkJob (jb_job_id job) (jb_intent_id job) (jb_attempt_ordinal job) (jb_discussion_thread_id job) (jb_parent_thread_id job) (jb_context_owner_id job)
    (jb_context_digest job) (jb_resolving_turn_id job) (jb_request job) (jb_parent_queue_ordinal job) (jb_resolution job) state revision.

(** [job.state = state; advance(&mut job)?; Ok(job)] *)
Definition advance (job : BranchHandoffJobRecord) (state : BranchHandoffJobState) : job_result BranchHandoffJobRecord :=
  revision ← of_revision (checked_next (jb_revision job)); Ok (with_job_state job state revision).

Definition invariant_transition : DurableJobMutationError := JobInvariant "job state changed between transition validation and contribution".

Definition validate_failure_checkpoint (job : BranchHandoffJobRecord) (evidence : HandoffFailureEvidence) (failure_lifecycle : BranchHandoffJobLifecycle) : job_result unit :=
  checkpoint ← ok_or invariant_transition (state_checkpoint (jb_state job));
  if failure_state_is_compatible failure_lifecycle checkpoint (ev_kind evidence) then Ok tt
  else Err (FailureKindMismatch "failure kind valid for the retained checkpoint" (ev_kind evidence)).

Definition retry_job (job : BranchHandoffJobRecord) : job_result BranchHandoffJobRecord :=
  if negb (bool_decide (lifecycle job = LcRetryableFailed)) then Err (InvalidTransition "retryable_failed" (lifecycle job))
  else match jb_state job with RetryableFailed resume _ => advance job (into_state resume) | _ => Err invariant_transition end.

Definition parent_accepted_job (job : BranchHandoffJobRecord) (cas : ParentCasIdentity) : job_result BranchHandoffJobRecord :=
  if negb (bool_decide (lifecycle job = LcStartingParent)) then Err (InvalidTransition "starting_parent" (lifecycle job))
  else match jb_state job with StartingParent parent => advance job (ParentActive parent cas) | _ => Err invariant_transition end.

Definition retryable_failed_job (job : BranchHandoffJobRecord) (evidence : HandoffFailureEvidence) : job_result BranchHandoffJobRecord :=
  match lifecycle job with
  | LcWaitingResolvingTurn | LcWaitingParent | LcStartingParent | LcParentActive =>
      _ ← validate_failure_checkpoint job evidence LcRetryableFailed;
      resume ← ok_or invariant_transition (state_checkpoint (jb_state job));
      advance job (RetryableFailed resume evidence)
  | current => Err (InvalidTransition "a non-failed live checkpoint" current)
  end.

Definition succeeded_job (job : BranchHandoffJobRecord) : job_result BranchHandoffJobRecord :=
  if negb (bool_decide (lifecycle job = LcParentActive)) then Err (InvalidTransition "parent_active" (lifecycle job))
  else match jb_state job with ParentActive parent cas => advance job (Succeeded parent cas) | _ => Err invariant_transition end.

Definition start_parent_job (job : BranchHandoffJobRecord) (parent : ParentHandoffIdentity) : job_result BranchHandoffJobRecord :=
  if negb (bool_decide (lifecycle job = LcWaitingParent)) then Err (InvalidTransition "waiting parent" (lifecycle job))
  else advance job (StartingParent parent).

Definition complete_resolving_job (job : BranchHandoffJobRecord) : job_result BranchHandoffJobRecord :=
  if negb (bool_decide (lifecycle job = LcWaitingResolvingTurn)) then Err (InvalidTransition "waiting resolving turn" (lifecycle job))
  else advance job WaitingParent.

Definition terminal_failed_job (job : BranchHandoffJobRecord) (evidence : HandoffFailureEvidence) : job_result BranchHandoffJobRecord :=
  if negb (is_live (lifecycle job)) then Err (InvalidTransition "a live job" (lifecycle job))
  else
    _ ← validate_failure_checkpoint job evidence LcTerminalFailed;
    stopped_at ← ok_or invariant_transition (state_checkpoint (jb_state job));
    advance job (TerminalFailed stopped_at evidence).

Inductive HandoffJobTransition :=
  | TrRetry
  | TrCompleteResolving
  | TrChildInputPending (evidence : HandoffFailureEvidence)
  | TrStartParent (parent : ParentHandoffIdentity)
  | TrParentArchived (evidence : HandoffFailureEvidence)
  | TrParentAccepted (cas : ParentCasIdentity)
  | TrRetryableFailure (evidence : HandoffFailureEvidence)
  | TrTerminalFailure (evidence : HandoffFailureEvidence)
  | TrSucceed.

(** [HandoffJobTransition::successor] *)
Definition job_successor (transition : HandoffJobTransition) (job : BranchHandoffJobRecord) : job_result BranchHandoffJobRecord :=
  match transition with
  | TrRetry => retry_job job
  | TrCompleteResolving => complete_resolving_job job
  | TrStartParent parent => start_parent_job job parent
  | TrParentAccepted cas => parent_accepted_job job cas
  | TrRetryableFailure evidence => retryable_failed_job job evidence
  | TrTerminalFailure evidence => terminal_failed_job job evidence
  | TrSucceed => succeeded_job job
  | TrChildInputPending evidence =>
      if negb (bool_decide (ev_kind evidence = ChildInputPending)) then Err (FailureKindMismatch "child input pending" (ev_kind evidence))
      else terminal_failed_job job evidence
  | TrParentArchived evidence =>
      if negb (bool_decide (ev_kind evidence = ParentArchived)) then Err (FailureKindMismatch "parent archived" (ev_kind evidence))
      else terminal_failed_job job evidence
  end.

(** ** Tables *)

Record JobStore := mkJobStore {
  st_jobs : gmap (list byte) BranchHandoffJobRecord;
  st_live : gmap (list byte) BranchHandoffJobRecord;
  st_requests : gmap ResolutionRequestIdentity ResolutionRequestAdmission;
  st_attempts : gmap (list byte * Z) (list byte);
  st_latest : gmap (list byte) LatestBranchHandoffAttempt
}.

Record JobReader (E : Type) := mkJobReader {
  rd_job : list byte -> result E (option BranchHandoffJobRecord);
  rd_live : list byte -> result E (option BranchHandoffJobRecord);
  rd_request : ResolutionRequestIdentity -> result E (option ResolutionRequestAdmission);
  rd_attempt : list byte * Z -> result E (option (list byte));
  rd_latest : list byte -> result E (option LatestBranchHandoffAttempt)
}.
Arguments mkJobReader {E}.
Arguments rd_job {E}.
Arguments rd_live {E}.
Arguments rd_request {E}.
Arguments rd_attempt {E}.
Arguments rd_latest {E}.

(** What a transition writes. *)
Definition put_live_transition (job : BranchHandoffJobRecord) (st : JobStore) : JobStore :=
  mkJobStore (<[jb_job_id job := job]> (st_jobs st)) (<[jb_job_id job := job]> (st_live st)) (st_requests st) (st_attempts st) (st_latest st).
Definition put_terminal_transition (job : BranchHandoffJobRecord) (st : JobStore) : JobStore :=
  mkJobStore (<[jb_job_id job := job]> (st_jobs st)) (delete (jb_job_id job) (st_live st)) (st_requests st) (st_attempts st) (st_latest st).

(** What an admission writes. *)
Definition write_admission (job : BranchHandoffJobRecord) (st : JobStore) : JobStore :=
  mkJobStore (<[jb_job_id job := job]> (st_jobs st)) (<[jb_job_id job := job]> (st_live st))
    (<[jb_request job := admission_from_job job]> (st_requests st))
    (<[(jb_discussion_thread_id job, jb_attempt_ordinal job) := jb_job_id job]> (st_attempts st))
    (<[jb_discussion_thread_id job := latest_from_job job]> (st_latest st)).

Section Reads.
Context (reader : JobReader DurableJobMutationError).

Definition required_job (job_id : list byte) : job_result BranchHandoffJobRecord :=
  job ← rd_job reader job_id; ok_or (JobMissing job_id) job.
Definition ensure_revision (expected current : Z) : job_result unit :=
  if expected =? current then Ok tt else Err (JobRevisionConflict expected current).

Definition read_identity (job_id : list byte) : job_result BranchHandoffJobRecord :=
  job ← rd_job reader job_id;
  job ← ok_or (JobMissing job_id) job;
  live ← rd_live reader job_id;
  request ← rd_request reader (jb_request job);
  attempt ← rd_attempt reader (jb_discussion_thread_id job, jb_attempt_ordinal job);
  if negb (bool_decide (jb_job_id job = job_id)) || negb (bool_decide (live = if is_live (lifecycle job) then Some job else None))
     || negb (bool_decide (request = Some (admission_from_job job))) || negb (bool_decide (attempt = Some job_id))
  then Err (JobInvariant "handoff job index closure disagrees") else Ok job.

Definition read_authenticated (job_id : list byte) : job_result BranchHandoffJobRecord :=
  job ← read_identity job_id;
  latest ← rd_latest reader (jb_discussion_thread_id job);
  if negb (is_live (lifecycle job)) || negb (bool_decide (latest = Some (latest_from_job job)))
  then Err (JobInvariant "handoff job latest-attempt closure disagrees") else Ok job.

(** ** Admission *)

(** The predecessor named by the latest attempt. *)
Definition prior_attempt (job : BranchHandoffJobRecord) (latest : LatestBranchHandoffAttempt) : job_result BranchHandoffJobRecord :=
  prior ← read_identity (la_job_id latest);
  if negb (bool_decide (jb_discussion_thread_id prior = jb_discussion_thread_id job)) || negb (bool_decide (latest_from_job prior = latest))
  then Err (JobInvariant "latest-attempt index does not match its authoritative job")
  else
    match lifecycle prior with
    | LcTerminalFailed => Ok prior
    | LcSucceeded => Err (SuccessfulAttemptExists (jb_job_id prior))
    | _ => Err (LiveAttemptExists (jb_job_id prior))
    end.

Definition validate_new (job : BranchHandoffJobRecord) : job_result (option BranchHandoffJobRecord) :=
  existing ← rd_request reader (jb_request job);
  match existing with
  | Some existing => Err (RequestAlreadyAdmitted existing)
  | None =>
      existing ← rd_job reader (jb_job_id job);
      if bool_decide (is_Some existing) then Err (JobAlreadyExists (jb_job_id job))
      else
        live ← rd_live reader (jb_job_id job);
        if bool_decide (is_Some live) then Err (JobInvariant "live-job index exists without its authoritative job record")
        else
          attempt ← rd_attempt reader (jb_discussion_thread_id job, jb_attempt_ordinal job);
          if bool_decide (is_Some attempt) then Err (AttemptAlreadyExists (jb_discussion_thread_id job) (jb_attempt_ordinal job))
          else
            latest ← rd_latest reader (jb_discussion_thread_id job);
            prior ← match latest with Some latest => Some <$> prior_attempt job latest | None => Ok None end;
            expected ← match prior with Some prior => of_value (next_attempt_ordinal (jb_attempt_ordinal prior)) | None => Ok FIRST end;
            if negb (jb_attempt_ordinal job =? expected) then Err (AttemptOrdinalConflict expected (jb_attempt_ordinal job)) else Ok prior
  end.

(** [AdmitBranchHandoffJob::prepare] *)
Definition prepare_admission (admission : BranchHandoffJobAdmission) : job_result BranchHandoffJobRecord :=
  let job := initial_job admission in
  _ ← validate_new job; Ok job.

(** ** Transitions *)

Definition validate_current (job_id : list byte) (expected_job_revision : Z) : job_result BranchHandoffJobRecord :=
  job ← required_job job_id;
  _ ← ensure_revision expected_job_revision (jb_revision job);
  Ok job.

Definition lifecycle_name (l : BranchHandoffJobLifecycle) : string :=
  match l with
  | LcWaitingResolvingTurn => "waiting_resolving_turn" | LcWaitingParent => "waiting_parent" | LcStartingParent => "starting_parent"
  | LcParentActive => "parent_active" | LcRetryableFailed => "retryable_failed" | LcTerminalFailed => "terminal_failed" | LcSucceeded => "succeeded"
  end.

Definition validate_lifecycle (job_id : list byte) (expected_job_revision : Z) (expected_lifecycle : BranchHandoffJobLifecycle) : job_result BranchHandoffJobRecord :=
  job ← validate_current job_id expected_job_revision;
  if negb (bool_decide (lifecycle job = expected_lifecycle)) then Err (InvalidTransition (lifecycle_name expected_lifecycle) (lifecycle job)) else Ok job.

Inductive job_command :=
  | CompleteResolvingTurn
  | StartParentHandoff (parent : ParentHandoffIdentity)
  | RecordParentCasAcceptance (cas : ParentCasIdentity)
  | RecordRetryableHandoffFailure (evidence : HandoffFailureEvidence)
  | RetryBranchHandoff
  | RecordTerminalHandoffFailure (evidence : HandoffFailureEvidence)
  | SucceedBranchHandoff.

(** [prepare] of the commands of [transition.rs] *)
Definition prepare_command (command : job_command) (job_id : list byte) (expected_job_revision : Z) : job_result BranchHandoffJobRecord :=
  match command with
  | CompleteResolvingTurn => validate_lifecycle job_id expected_job_revision LcWaitingResolvingTurn ≫= complete_resolving_job
  | StartParentHandoff parent => job ← validate_lifecycle job_id expected_job_revision LcWaitingParent; start_parent_job job parent
  | RecordParentCasAcceptance cas => job ← validate_current job_id expected_job_revision; parent_accepted_job job cas
  | RecordRetryableHandoffFailure evidence => job ← validate_current job_id expected_job_revision; retryable_failed_job job evidence
  | RetryBranchHandoff => validate_current job_id expected_job_revision ≫= retry_job
  | RecordTerminalHandoffFailure evidence => job ← validate_current job_id expected_job_revision; terminal_failed_job job evidence
  | SucceedBranchHandoff => validate_current job_id expected_job_revision ≫= succeeded_job
  end.

(** ** Prepared transitions and admissions *)

Record HandoffJobTransitionWitness := mkTransitionWitness { tw_home_id : list byte; tw_old : BranchHandoffJobRecord; tw_new : BranchHandoffJobRecord }.
Record HandoffJobAdmissionWitness := mkAdmissionWitness { aw_home_id : list byte; aw_job : BranchHandoffJobRecord; aw_prior : option BranchHandoffJobRecord }.
Inductive HandoffJobStatus := ExactOld | ExactNew | Collision.

(** What is prepared carries the revision of the domain it was prepared at. *)
Record PreparedHandoffJobTransition := mkPreparedTransition { pt_revision : Z; pt_witness : HandoffJobTransitionWitness }.
Record PreparedHandoffJobAdmission := mkPreparedAdmission { pa_revision : Z; pa_witness : HandoffJobAdmissionWitness }.

(** [ReadAccess::confirm].  [before] and [after] below are what [ReadAccess::revision] returns
    before and after the reads. *)
Definition confirm_revision (expected : Z) (after : job_result Z) : job_result unit :=
  current ← after;
  if negb (current =? expected) then Err (JobInvariant "handoff job source revision changed") else Ok tt.

(** [prepare_handoff_job] *)
Definition prepare_transition (home_id : list byte) (before after : job_result Z) (job_id : list byte) (expected : Z) (transition : HandoffJobTransition) : job_result PreparedHandoffJobTransition :=
  revision ← before;
  let outcome :=
    old ← read_authenticated job_id;
    _ ← ensure_revision expected (jb_revision old);
    new ← job_successor transition old;
    Ok (mkTransitionWitness home_id old new) in
  _ ← confirm_revision revision after;
  witness ← outcome;
  Ok (mkPreparedTransition revision witness).

(** [PreparedHandoffJobTransition::prepare] *)
Definition prepare_prepared_transition (witness : HandoffJobTransitionWitness) : job_result HandoffJobTransitionWitness :=
  current ← read_authenticated (jb_job_id (tw_old witness));
  if negb (bool_decide (current = tw_old witness)) then Err (JobInvariant "handoff job transition source changed") else Ok witness.

(** [ReadAccess::outcome] *)
Definition transition_outcome (witness : HandoffJobTransitionWitness) : job_result HandoffJobStatus :=
  let key := jb_job_id (tw_old witness) in
  job ← rd_job reader key;
  live ← rd_live reader key;
  Ok (if bool_decide (job = Some (tw_old witness)) && bool_decide (live = Some (tw_old witness)) then ExactOld
      else if bool_decide (job = Some (tw_new witness)) && bool_decide (live = if is_live (lifecycle (tw_new witness)) then Some (tw_new witness) else None) then ExactNew
      else Collision).

(** [handoff_job_status] *)
Definition handoff_job_status (home_id : list byte) (before after : job_result Z) (witness : HandoffJobTransitionWitness) : job_result HandoffJobStatus :=
  revision ← before;
  if negb (bool_decide (home_id = tw_home_id witness)) then Err (JobInvariant "handoff job witness belongs to another home")
  else
    let outcome := transition_outcome witness in
    _ ← confirm_revision revision after;
    outcome.

Definition prepare_handoff_job_admission (home_id : list byte) (before after : job_result Z) (admission : BranchHandoffJobAdmission) : job_result PreparedHandoffJobAdmission :=
  revision ← before;
  let job := initial_job admission in
  let prior := validate_new job in
  _ ← confirm_revision revision after;
  prior ← prior;
  Ok (mkPreparedAdmission revision (mkAdmissionWitness home_id job prior)).

(** [PreparedHandoffJobAdmission::prepare] *)
Definition prepare_prepared_admission (witness : HandoffJobAdmissionWitness) : job_result HandoffJobAdmissionWitness :=
  prior ← validate_new (aw_job witness);
  if negb (bool_decide (prior = aw_prior witness)) then Err (JobInvariant "handoff admission predecessor changed") else Ok witness.

(** [classify]: the reads of the chain of tests stop at the first that fails. *)
Definition prior_unchanged (prior : BranchHandoffJobRecord) : job_result bool :=
  job ← rd_job reader (jb_job_id prior);
  if negb (bool_decide (job = Some prior)) then Ok false
  else
    live ← rd_live reader (jb_job_id prior);
    if bool_decide (is_Some live) then Ok false
    else
      request ← rd_request reader (jb_request prior);
      if negb (bool_decide (request = Some (admission_from_job prior))) then Ok false
      else
        attempt ← rd_attempt reader (jb_discussion_thread_id prior, jb_attempt_ordinal prior);
        Ok (bool_decide (attempt = Some (jb_job_id prior))).

Definition classify_admission (witness : HandoffJobAdmissionWitness) : job_result HandoffJobStatus :=
  let expected := aw_job witness in
  unchanged ← match aw_prior witness with Some prior => prior_unchanged prior | None => Ok true end;
  if negb unchanged then Ok Collision
  else
    job ← rd_job reader (jb_job_id expected);
    live ← rd_live reader (jb_job_id expected);
    request ← rd_request reader (jb_request expected);
    attempt ← rd_attempt reader (jb_discussion_thread_id expected, jb_attempt_ordinal expected);
    latest ← rd_latest reader (jb_discussion_thread_id expected);
    Ok (if bool_decide (job = None) && bool_decide (live = None) && bool_decide (request = None) && bool_decide (attempt = None)
           && bool_decide (latest = latest_from_job <$> aw_prior witness) then ExactOld
        else if bool_decide (job = Some expected) && bool_decide (live = Some expected) && bool_decide (request = Some (admission_from_job expected))
           && bool_decide (attempt = Some (jb_job_id expected)) && bool_decide (latest = Some (latest_from_job expected)) then ExactNew
        else Collision).

Definition admission_status (home_id : list byte) (before after : job_result Z) (witness : HandoffJobAdmissionWitness) : job_result HandoffJobStatus :=
  revision ← before;
  if negb (bool_decide (home_id = aw_home_id witness)) then Err (JobInvariant "handoff admission witness belongs to another home")
  else
    let outcome := classify_admission witness in
    _ ← confirm_revision revision after;
    outcome.

(** The job a request was admitted for. *)
Definition admitted_request (before after : job_result Z) (request : ResolutionRequestIdentity) : job_result (option BranchHandoffJobRecord) :=
  revision ← before;
  let outcome :=
    admission ← rd_request reader request;
    match admission with
    | None => Ok None
    | Some admission =>
        job ← read_identity (ra_job_id admission);
        if negb (bool_decide (jb_request job = request)) || negb (bool_decide (admission = admission_from_job job))
        then Err (JobInvariant "request admission disagrees with its historical job") else Ok (Some job)
    end in
  _ ← confirm_revision revision after;
  outcome.
End Reads.

(** ** The reuse guard of a thread *)

Inductive ThreadReuseJobGuardError :=
  | GuardRead | LatestJobMissing (thread_id : list byte) | LatestJobMismatch (thread_id : list byte) | LiveJob (thread_id : list byte)
  | TerminalJobStillLive (thread_id : list byte) | SourceChanged (thread_id : list byte).
Record ThreadReuseJobGuard := mkReuseGuard { tg_thread_id : list byte; tg_latest : option LatestBranchHandoffAttempt; tg_job : option BranchHandoffJobRecord }.

Section Guard.
Context (reader : JobReader ThreadReuseJobGuardError).
Abbreviation guard_result := (result ThreadReuseJobGuardError).

Definition validate_latest (thread_id : list byte) (latest : LatestBranchHandoffAttempt) (job : BranchHandoffJobRecord) : guard_result unit :=
  if negb (bool_decide (jb_discussion_thread_id job = thread_id)) || negb (bool_decide (jb_job_id job = la_job_id latest))
     || negb (jb_attempt_ordinal job =? la_attempt_ordinal latest)
  then Err (LatestJobMismatch thread_id) else Ok tt.

Definition thread_reuse_guard (thread_id : list byte) : guard_result (option ThreadReuseJobGuard) :=
  latest ← rd_latest reader thread_id;
  match latest with
  | None => Ok (Some (mkReuseGuard thread_id None None))
  | Some latest =>
      job ← rd_job reader (la_job_id latest);
      job ← ok_or (LatestJobMissing thread_id) job;
      _ ← validate_latest thread_id latest job;
      if is_live (lifecycle job) then Ok None
      else
        live ← rd_live reader (jb_job_id job);
        if bool_decide (is_Some live) then Err (TerminalJobStillLive thread_id)
        else Ok (Some (mkReuseGuard thread_id (Some latest) (Some job)))
  end.

(** [ThreadReuseJobGuard::validate] *)
Definition validate_guard (guard : ThreadReuseJobGuard) : guard_result unit :=
  let thread_id := tg_thread_id guard in
  latest ← rd_latest reader thread_id;
  if negb (bool_decide (latest = tg_latest guard)) then Err (SourceChanged thread_id)
  else
    match tg_job guard with
    | None => Ok tt
    | Some expected_job =>
        job ← rd_job reader (jb_job_id expected_job);
        if negb (bool_decide (job = Some expected_job)) then Err (SourceChanged thread_id)
        else
          latest ← ok_or (LatestJobMissing thread_id) (tg_latest guard);
          _ ← validate_latest thread_id latest expected_job;
          if is_live (lifecycle expected_job) then Err (LiveJob thread_id)
          else
            live ← rd_live reader (jb_job_id expected_job);
            if bool_decide (is_Some live) then Err (TerminalJobStillLive thread_id) else Ok tt
    end.
End Guard.

(** [contribute] of a prepared transition, and of the commands *)
Definition contribute_transition (job : BranchHandoffJobRecord) : JobStore -> JobStore :=
  if is_live (lifecycle job) then put_live_transition job else put_terminal_transition job.

(** The domain: its revision, which the home store keeps, and its tables. *)
Record JobDomain := mkJobDomain { jd_revision : Z; jd_tables : JobStore }.
Inductive JobCommandError :=
  | DomainConflict (expected current : Z) | ContributorCallback (e : DurableJobMutationError) | RevisionExhausted.

(** What the writer of the home does with a prepared transition ([execute_admitted] of
    [beryl-home-store]): it refuses a contribution prepared at another revision of the domain,
    calls [prepare] on the tables as they are, and moves the revision of the domain on.  The
    failures of the storage below are left out. *)
Definition execute_transition (reader : JobReader DurableJobMutationError) (domain : JobDomain) (prepared : PreparedHandoffJobTransition) : result JobCommandError JobDomain :=
  if negb (jd_revision domain =? pt_revision prepared) then Err (DomainConflict (pt_revision prepared) (jd_revision domain))
  else
    match prepare_prepared_transition reader (pt_witness prepared) with
    | Err e => Err (ContributorCallback e)
    | Ok witness =>
        match checked_next (jd_revision domain) with
        | Err _ => Err RevisionExhausted
        | Ok next => Ok (mkJobDomain next (contribute_transition (tw_new witness) (jd_tables domain)))
        end
    end.

Definition contribute_command (command : job_command) (job : BranchHandoffJobRecord) : JobStore -> JobStore :=
  match command with
  | RecordTerminalHandoffFailure _ | SucceedBranchHandoff => put_terminal_transition job
  | _ => put_live_transition job
  end.
