(* ===== verification/JobValidate.v ===== *)
(** * Durable jobs: the validation of the domain

    [durable_job/validate.rs]: the five tables are read entry by entry, in the order of their
    keys, and every entry is checked against the other tables.  A scan is the list of entries the
    pages of the cursor give.  [jobs_ok] says what the tables mean, and the validation accepts
    exactly the tables that satisfy it. *)
From stdpp Require Import prelude gmap strings sorting.
From S2P Require Import Prelude.
From S2P Require Import Bytes.
From S2P Require Import ModelIds.
From S2P Require Import ModelText.
From S2P Require Import SyndicValues.
From S2P Require Import SyndicParts.
From S2P Require Import SyndicKeyOrder.
From S2P Require Import Cursors.
From S2P Require Import JobModel.
From S2P Require Import BuildBudget.

Inductive DurableJobValidationError := ValidationRead | ValidationValue (e : DurableJobValueError) | ValidationInvariant (message : string).
Inductive RequestIndexKey := RequestLower | RequestValue (request : ResolutionRequestIdentity) | RequestUpper.

Section Validate.
Abbreviation validation := (result DurableJobValidationError).
Context (reader : JobReader DurableJobValidationError).

Definition invariant {A} (message : string) : validation A := Err (ValidationInvariant message).

Definition validation_job (job_id : list byte) : validation BranchHandoffJobRecord :=
  job ← rd_job reader job_id;
  ok_or (ValidationInvariant "durable job index references a missing authoritative record") job.

Definition validate_record (entry : list byte * BranchHandoffJobRecord) : validation unit :=
  let '(key, job) := entry in
  if negb (bool_decide (key = jb_job_id job)) then invariant "job record key does not match its job identity"
  else
    request ← rd_request reader (jb_request job);
    if negb (bool_decide (request = Some (admission_from_job job))) then invariant "job request-idempotency index is missing or mismatched"
    else
      attempt ← rd_attempt reader (jb_discussion_thread_id job, jb_attempt_ordinal job);
      if negb (bool_decide (attempt = Some (jb_job_id job))) then invariant "job discussion-attempt index is missing or mismatched"
      else
        latest ← rd_latest reader (jb_discussion_thread_id job);
        match latest with
        | None => invariant "job discussion has no latest-attempt index"
        | Some latest =>
            if la_attempt_ordinal latest <? jb_attempt_ordinal job then invariant "job attempt is later than its discussion latest-attempt index"
            else if (la_attempt_ordinal latest =? jb_attempt_ordinal job) && negb (bool_decide (la_job_id latest = jb_job_id job))
            then invariant "latest attempt ordinal maps to a different job"
            else
              live ← rd_live reader (jb_job_id job);
              if is_live (lifecycle job) then
                if negb (bool_decide (live = Some job)) then invariant "live job index is missing or differs from its record"
                else if negb (bool_decide (la_job_id latest = jb_job_id job)) then invariant "a non-latest discussion attempt remains live" else Ok tt
              else if bool_decide (is_Some live) then invariant "terminal job remains present in the live-job index" else Ok tt
        end.

Definition validate_live_entry (entry : list byte * BranchHandoffJobRecord) : validation unit :=
  let '(key, job) := entry in
  if negb (bool_decide (key = jb_job_id job)) || negb (is_live (lifecycle job)) then invariant "live-job index contains an invalid job entry"
  else
    authoritative ← rd_job reader key;
    if negb (bool_decide (authoritative = Some job)) then invariant "live-job index differs from its authoritative record" else Ok tt.

Definition validate_request_entry (entry : RequestIndexKey * ResolutionRequestAdmission) : validation unit :=
  match entry with
  | (RequestValue request, admission) =>
      job ← validation_job (ra_job_id admission);
      if negb (bool_decide (jb_request job = request)) || negb (bool_decide (admission_from_job job = admission))
      then invariant "request-idempotency entry differs from its job admission" else Ok tt
  | _ => invariant "request-idempotency index persisted a sentinel key"
  end.

Definition ensure_latest (job : BranchHandoffJobRecord) : validation unit :=
  latest ← rd_latest reader (jb_discussion_thread_id job);
  if negb (bool_decide (latest = Some (latest_from_job job))) then invariant "discussion latest-attempt index does not name its final attempt" else Ok tt.

(** One attempt behind the previous one. *)
Definition attempt_follows (previous : option BranchHandoffJobRecord) (job : BranchHandoffJobRecord) : validation unit :=
  let first := if negb (jb_attempt_ordinal job =? FIRST) then invariant "a discussion's first attempt ordinal is not one" else Ok tt in
  match previous with
  | Some previous =>
      if bool_decide (jb_discussion_thread_id previous = jb_discussion_thread_id job) then
        if negb (bool_decide (lifecycle previous = LcTerminalFailed)) then invariant "a later discussion attempt follows a non-terminal-failed attempt"
        else
          expected ← match next_attempt_ordinal (jb_attempt_ordinal previous) with Ok o => Ok o | Err e => Err (ValidationValue e) end;
          if negb (jb_attempt_ordinal job =? expected) then invariant "discussion attempt ordinals are not contiguous" else Ok tt
      else _ ← ensure_latest previous; first
  | None => first
  end.

Definition validate_attempt_entry (previous : option BranchHandoffJobRecord) (entry : (list byte * Z) * list byte) : validation (option BranchHandoffJobRecord) :=
  let '(key, job_id) := entry in
  job ← validation_job job_id;
  if negb (bool_decide (jb_discussion_thread_id job = key.1)) || negb (jb_attempt_ordinal job =? key.2)
  then invariant "discussion-attempt entry differs from its job record"
  else _ ← attempt_follows previous job; Ok (Some job).

Definition validate_latest_entry (entry : list byte * LatestBranchHandoffAttempt) : validation unit :=
  let '(key, latest) := entry in
  job ← validation_job (la_job_id latest);
  if negb (bool_decide (jb_discussion_thread_id job = key)) || negb (jb_attempt_ordinal job =? la_attempt_ordinal latest)
  then invariant "latest-attempt entry differs from its job record"
  else
    indexed ← rd_attempt reader (key, la_attempt_ordinal latest);
    if negb (bool_decide (indexed = Some (la_job_id latest))) then invariant "latest attempt is missing from ordered attempt index" else Ok tt.

(** The cursors of the five tables. *)
Record JobCursors := mkJobCursors {
  cu_jobs : cursor DurableJobValidationError (list byte) BranchHandoffJobRecord;
  cu_live : cursor DurableJobValidationError (list byte) BranchHandoffJobRecord;
  cu_requests : cursor DurableJobValidationError RequestIndexKey ResolutionRequestAdmission;
  cu_attempts : cursor DurableJobValidationError (list byte * Z) (list byte);
  cu_latest : cursor DurableJobValidationError (list byte) LatestBranchHandoffAttempt
}.

Definition validate_records (fuel : nat) (cursors : JobCursors) : panicky DurableJobValidationError unit :=
  page_loop fuel (cu_jobs cursors) (ValidationInvariant "bounded job cursor reported more without a record") (stateless validate_record) None tt.
Definition validate_live_index (fuel : nat) (cursors : JobCursors) : panicky DurableJobValidationError unit :=
  page_loop fuel (cu_live cursors) (ValidationInvariant "bounded live-job cursor reported more without a record") (stateless validate_live_entry) None tt.
Definition validate_requests (fuel : nat) (cursors : JobCursors) : panicky DurableJobValidationError unit :=
  page_loop fuel (cu_requests cursors) (ValidationInvariant "bounded request cursor reported more without a record") (stateless validate_request_entry) None tt.
Definition validate_attempt_order (fuel : nat) (cursors : JobCursors) : panicky DurableJobValidationError unit :=
  previous ← page_loop fuel (cu_attempts cursors) (ValidationInvariant "bounded attempt cursor reported more without a record") validate_attempt_entry None None;
  run (match previous with Some previous => ensure_latest previous | None => Ok tt end).
Definition validate_latest_index (fuel : nat) (cursors : JobCursors) : panicky DurableJobValidationError unit :=
  page_loop fuel (cu_latest cursors) (ValidationInvariant "bounded latest-attempt cursor reported more without a record") (stateless validate_latest_entry) None tt.

Definition validate (fuel : nat) (cursors : JobCursors) : panicky DurableJobValidationError unit :=
  _ ← validate_records fuel cursors;
  _ ← validate_live_index fuel cursors;
  _ ← validate_requests fuel cursors;
  _ ← validate_attempt_order fuel cursors;
  validate_latest_index fuel cursors.
End Validate.

(** ** What the tables mean *)

(** The tables agree on every job; a job is live exactly while it is in the live table, and then
    the latest of its discussion; the attempts of a discussion are numbered from one without
    gaps, every one but the last failed for good. *)
Record jobs_ok (st : JobStore) : Prop := mkJobsOk {
  jo_jobs : forall k j, st_jobs st !! k = Some j -> jb_job_id j = k /\ st_requests st !! jb_request j = Some (admission_from_job j)
    /\ st_attempts st !! (jb_discussion_thread_id j, jb_attempt_ordinal j) = Some k
    /\ st_live st !! k = (if is_live (lifecycle j) then Some j else None)
    /\ exists l, st_latest st !! jb_discussion_thread_id j = Some l /\ jb_attempt_ordinal j <= la_attempt_ordinal l
         /\ (is_live (lifecycle j) = true -> la_job_id l = k);
  jo_live : forall k j, st_live st !! k = Some j -> st_jobs st !! k = Some j /\ is_live (lifecycle j) = true;
  jo_requests : forall r a, st_requests st !! r = Some a -> exists j, st_jobs st !! ra_job_id a = Some j /\ jb_request j = r /\ admission_from_job j = a;
  jo_attempts : forall d o k, st_attempts st !! (d, o) = Some k -> (exists j, st_jobs st !! k = Some j /\ jb_discussion_thread_id j = d /\ jb_attempt_ordinal j = o)
    /\ (o = FIRST \/ exists k' j', st_attempts st !! (d, o - 1) = Some k' /\ st_jobs st !! k' = Some j' /\ lifecycle j' = LcTerminalFailed);
  jo_latest : forall d l, st_latest st !! d = Some l -> st_attempts st !! (d, la_attempt_ordinal l) = Some (la_job_id l)
}.
(** Threads are identities and ordinals positive machine integers. *)
Definition attempts_typed (st : JobStore) : Prop :=
  forall d o k, st_attempts st !! (d, o) = Some k -> fixed 16 d /\ 1 <= o <= U64_MAX.

(** ** Cursors *)

(** [DiscussionAttemptIndexCodec::encode_key] *)
Definition encode_attempt_key (key : list byte * Z) : list byte := key.1 ++ e_u64 key.2.
Definition attempt_before (a b : (list byte * Z) * list byte) : Prop := byte_cmp (encode_attempt_key a.1) (encode_attempt_key b.1) = Lt.


(** A reader of the tables that does not fail. *)
Record reads {E} (reader : JobReader E) (st : JobStore) : Prop := mkReads {
  re_job : forall k, rd_job reader k = Ok (st_jobs st !! k);
  re_live : forall k, rd_live reader k = Ok (st_live st !! k);
  re_request : forall k, rd_request reader k = Ok (st_requests st !! k);
  re_attempt : forall k, rd_attempt reader k = Ok (st_attempts st !! k);
  re_latest : forall k, rd_latest reader k = Ok (st_latest st !! k)
}.

(** ** The order of the attempts *)

Definition attempt_rank (key : list byte * Z) : Z := be_value key.1 * 2 ^ 64 + key.2.

Lemma attempt_before_rank a b : fixed 16 a.1.1 -> fixed 16 b.1.1 -> 1 <= a.1.2 <= U64_MAX -> 1 <= b.1.2 <= U64_MAX ->
  attempt_before a b <-> attempt_rank a.1 < attempt_rank b.1.
Proof.
  intros Ha Hb Hoa Hob. unfold attempt_before, encode_attempt_key, attempt_rank, fixed in *.
  rewrite byte_cmp_app, byte_cmp_value by congruence. rewrite byte_cmp_u64 by (unfold is_u64; lia).
  destruct (Z.compare_spec (be_value a.1.1) (be_value b.1.1)) as [E|E|E]; cbn [then_with].
  - rewrite E, Z.compare_lt_iff. lia.
  - split; [lia|done].
  - split; [done|lia].
Qed.

Lemma next_attempt_Ok o o' : 0 <= o -> next_attempt_ordinal o = Ok o' <-> o' = o + 1 /\ o + 1 <= U64_MAX.
Proof.
  intros Ho. unfold next_attempt_ordinal, checked_add64. destruct (Z.leb_spec (o + 1) U64_MAX) as [Hle|Hgt]; cbn.
  - unfold nonzero. rewrite (proj2 (Z.eqb_neq _ _)) by lia. cbn. naive_solver.
  - split; [done|lia].
Qed.

Section AttemptOrder.
Context (reader : JobReader DurableJobValidationError) (st : JobStore) (entries : list ((list byte * Z) * list byte)).
Context (Hr : reads reader st) (Ht : attempts_typed st) (Hl : lists entries (st_attempts st)) (Hs : StronglySorted attempt_before entries).

(** What the table of attempts says of one of them, and of the last of a discussion. *)
Definition attempt_ok (d : list byte) (o : Z) (k : list byte) : Prop :=
  (exists j, st_jobs st !! k = Some j /\ jb_discussion_thread_id j = d /\ jb_attempt_ordinal j = o)
  /\ (o = FIRST \/ exists k' j', st_attempts st !! (d, o - 1) = Some k' /\ st_jobs st !! k' = Some j' /\ lifecycle j' = LcTerminalFailed).
Definition final_ok (j : BranchHandoffJobRecord) : Prop :=
  (forall o k, st_attempts st !! (jb_discussion_thread_id j, o) = Some k -> o <= jb_attempt_ordinal j) ->
  st_latest st !! jb_discussion_thread_id j = Some (latest_from_job j).

Lemma split_rank l1 l2 x y : entries = l1 ++ l2 -> x ∈ l1 -> y ∈ l2 -> attempt_rank x.1 < attempt_rank y.1.
Proof.
  intros He Hx Hy. pose proof Hs as Hs'. rewrite He in Hs'. pose proof (StronglySorted_app_1_elem_of _ _ _ _ _ Hs' Hx Hy) as Hlt.
  assert (x ∈ entries /\ y ∈ entries) as [Hx' Hy'] by (rewrite He; set_solver).
  destruct x as [[d o] k], y as [[d' o'] k']. apply Hl, Ht in Hx' as [? ?]. apply Hl, Ht in Hy' as [? ?]. by apply attempt_before_rank in Hlt.
Qed.

(** The record of the attempt before. *)
Definition previous_is (before : list ((list byte * Z) * list byte)) (previous : option BranchHandoffJobRecord) : Prop :=
  match last before with
  | None => previous = None
  | Some ((d, o), k) => exists j, previous = Some j /\ st_jobs st !! k = Some j /\ jb_discussion_thread_id j = d /\ jb_attempt_ordinal j = o
  end.

Lemma ensure_latest_Ok j : ensure_latest reader j = Ok tt <-> st_latest st !! jb_discussion_thread_id j = Some (latest_from_job j).
Proof.
  unfold ensure_latest. rewrite (re_latest _ _ Hr). cbn.
  destruct (decide (st_latest st !! jb_discussion_thread_id j = Some (latest_from_job j))) as [E|E]; [rewrite bool_decide_eq_true_2 by done|rewrite bool_decide_eq_false_2 by done]; done.
Qed.

Lemma same_rank d d' o o' k k' : st_attempts st !! (d, o) = Some k -> st_attempts st !! (d', o') = Some k' -> be_value d = be_value d' -> d = d'.
Proof. intros H%Ht H'%Ht E. destruct H as [H _], H' as [H' _]. apply byte_cmp_eq. unfold fixed in *. rewrite byte_cmp_value, E by congruence. apply Z.compare_refl. Qed.

(** Nothing of the table lies between two neighbours. *)
Lemma neighbours before d o k rest d' o' k' : entries = before ++ ((d, o), k) :: rest -> st_attempts st !! (d', o') = Some k' ->
  attempt_rank (d', o') < attempt_rank (d, o) ->
  exists y, last before = Some y /\ attempt_rank (d', o') <= attempt_rank y.1 < attempt_rank (d, o) /\ y ∈ entries.
Proof.
  intros He Ha Hlt. apply Hl in Ha. pose proof Ha as Hin. rewrite He in Hin.
  assert (((d', o'), k') ∈ before) as Hb.
  { apply elem_of_app in Hin as [Hin|Hin]; [done|]. apply elem_of_cons in Hin as [E|Hin]; [injection E as -> -> ->; lia|].
    pose proof (split_rank (before ++ [((d, o), k)]) rest ((d, o), k) _ ltac:(by rewrite <- app_assoc) ltac:(set_solver) Hin) as Hgt. cbn in Hgt. lia. }
  destruct (last before) as [y|] eqn:El; [|apply last_None in El as ->; by apply not_elem_of_nil in Hb].
  apply last_Some in El as [before' ->]. exists y. split; [done|]. split; [|rewrite He; set_solver]. split.
  - apply elem_of_app in Hb as [Hb|Hb%list_elem_of_singleton]; [|by subst y].
    rewrite <- app_assoc in He. pose proof (split_rank _ _ _ y He Hb ltac:(set_solver)) as Hy. cbn in Hy. lia.
  - exact (split_rank _ _ y ((d, o), k) He ltac:(set_solver) ltac:(set_solver)).
Qed.

(** The checks behind the attempt before are what the table says of this attempt, and of the last
    one of the discussion that ends. *)
Lemma attempt_follows_Ok previous before rest d o k j : entries = before ++ ((d, o), k) :: rest -> previous_is before previous ->
  st_jobs st !! k = Some j -> jb_discussion_thread_id j = d -> jb_attempt_ordinal j = o ->
  attempt_follows reader previous j = Ok tt <-> attempt_ok d o k /\ (forall p, previous = Some p -> final_ok p).
Proof.
  intros He Hp Hj Hd Ho. assert (st_attempts st !! (d, o) = Some k) as Hx by (apply Hl; rewrite He; set_solver). pose proof (Ht _ _ _ Hx) as [_ Hto].
  unfold previous_is in Hp. destruct (last before) as [[[dp op] kp]|] eqn:El.
  2: { subst previous. unfold attempt_follows. rewrite Ho. split.
    - intros E. destruct (Z.eqb_spec o FIRST) as [->|]; [|done]. split; [|done]. split; [eauto|by left].
    - intros [[_ [->|(k' & j' & Ha & _)]] _]; [done|]. destruct (neighbours _ _ _ _ _ _ _ _ He Ha) as (y & E & _); [unfold attempt_rank; cbn; lia|congruence]. }
  destruct Hp as (p & -> & Hkp & Hdp & Hop). pose proof El as Hin. apply last_Some in Hin as [before' Hbe].
  assert (st_attempts st !! (dp, op) = Some kp) as Hxp by (apply Hl; rewrite He, Hbe; set_solver). pose proof (Ht _ _ _ Hxp) as [_ Htp].
  assert (attempt_rank (dp, op) < attempt_rank (d, o)) as Hlt by (exact (split_rank before _ ((dp, op), kp) ((d, o), k) He ltac:(rewrite Hbe; set_solver) ltac:(set_solver))).
  unfold attempt_follows. rewrite Hd, Hdp, Ho, Hop. unfold attempt_rank in Hlt. cbn [fst snd] in Hlt. destruct (decide (dp = d)) as [->|Hne].
  - rewrite bool_decide_eq_true_2 by done. split.
    + intros E. destruct (decide (lifecycle p = LcTerminalFailed)) as [Hlc|]; [rewrite bool_decide_eq_true_2 in E by done|by rewrite bool_decide_eq_false_2 in E]. cbn in E.
      destruct (next_attempt_ordinal op) as [o'|] eqn:En; [|done]. cbn in E. apply next_attempt_Ok in En as [-> _]; [|lia].
      destruct (Z.eqb_spec o (op + 1)) as [->|]; [|done]. split.
      * split; [eauto|]. right. exists kp, p. by rewrite Z.add_simpl_r.
      * intros p' [= <-] Hlast. rewrite Hdp, Hop in Hlast. specialize (Hlast _ _ Hx). lia.
    + intros [[_ Hprev] _]. destruct Hprev as [->|(k' & j' & Ha & Hj' & Hlc)]; [unfold FIRST in *; lia|].
      destruct (neighbours _ _ _ _ _ _ _ _ He Ha) as (y & E & Hy & _); [unfold attempt_rank; cbn; lia|]. rewrite El in E. injection E as <-. unfold attempt_rank in Hy. cbn [fst snd] in Hy.
      assert (op = o - 1) as -> by lia. assert (p = j') as <- by congruence. rewrite bool_decide_eq_true_2 by done. cbn.
      rewrite (proj2 (next_attempt_Ok (o - 1) o ltac:(lia))) by lia. cbn. by rewrite Z.eqb_refl.
  - rewrite bool_decide_eq_false_2 by done.
    assert (be_value dp <> be_value d) as Hv by (intros E; by apply (same_rank _ _ _ _ _ _ Hxp Hx) in E). split.
    + intros (? & Hel & E)%result_bind_Ok. destruct x. apply ensure_latest_Ok in Hel. destruct (Z.eqb_spec o FIRST) as [->|]; [|done].
      split; [split; [eauto|by left]|]. by intros p' [= <-] _.
    + intros [[_ Hprev] Hf]. apply result_bind_Ok. exists tt. split.
      * apply ensure_latest_Ok, Hf; [done|]. rewrite Hdp, Hop. intros o' k' Ha. destruct (Z.le_gt_cases o' op); [done|].
        destruct (Z.lt_total (attempt_rank (dp, o')) (attempt_rank (d, o))) as [Hc|[Hc|Hc]].
        -- destruct (neighbours _ _ _ _ _ _ _ _ He Ha Hc) as (y & E & Hy & _). rewrite El in E. injection E as <-. unfold attempt_rank in Hy. cbn [fst snd] in Hy. lia.
        -- pose proof (Ht _ _ _ Ha) as [_ Hta]. unfold attempt_rank in Hc. cbn [fst snd] in Hc. lia.
        -- pose proof (Ht _ _ _ Ha) as [_ Hta]. unfold attempt_rank in Hc. cbn [fst snd] in Hc. lia.
      * destruct Hprev as [->|(k' & j' & Ha & _)]; [done|].
        destruct (neighbours _ _ _ _ _ _ _ _ He Ha) as (y & E & Hy & _); [unfold attempt_rank; cbn; lia|]. rewrite El in E. injection E as <-. unfold attempt_rank in Hy. cbn [fst snd] in Hy. lia.
Qed.

Lemma final_at_end p : previous_is entries (Some p) -> final_ok p <-> ensure_latest reader p = Ok tt.
Proof.
  intros Hp. rewrite ensure_latest_Ok. unfold final_ok. split; [|done]. intros Hf. apply Hf. intros o' k' Ha. apply Hl in Ha. unfold previous_is in Hp.
  destruct (last entries) as [[[d o] k]|] eqn:El; [|done]. destruct Hp as (j & [= <-] & _ & Hd & Ho). rewrite Hd in Ha. rewrite Ho.
  apply last_Some in El as [before E]. rewrite E in Ha. apply elem_of_app in Ha as [Ha|Ha%list_elem_of_singleton]; [|injection Ha as -> ->; lia].
  pose proof (split_rank _ _ _ ((d, o), k) E Ha ltac:(set_solver)) as Hlt. unfold attempt_rank in Hlt. cbn [fst snd] in Hlt. lia.
Qed.

(** Every attempt of a list, and the last job of its discussion. *)
Definition attempts_ok (l : list ((list byte * Z) * list byte)) : Prop :=
  forall d o k, ((d, o), k) ∈ l -> attempt_ok d o k /\ (forall j, st_jobs st !! k = Some j -> final_ok j).

Lemma attempt_entry_Ok previous d o k next : validate_attempt_entry reader previous ((d, o), k) = Ok next <->
  exists j, next = Some j /\ st_jobs st !! k = Some j /\ jb_discussion_thread_id j = d /\ jb_attempt_ordinal j = o /\ attempt_follows reader previous j = Ok tt.
Proof.
  unfold validate_attempt_entry, validation_job. rewrite (re_job _ _ Hr). cbn [mbind result_bind fst snd].
  destruct (st_jobs st !! k) as [j|]; cbn [ok_or mbind result_bind]; [|naive_solver].
  destruct (decide (jb_discussion_thread_id j = d)) as [Hd|Hd]; [rewrite bool_decide_eq_true_2 by done|rewrite bool_decide_eq_false_2 by done; split; [done|intros (? & _ & ? & ? & _); congruence]].
  destruct (Z.eqb_spec (jb_attempt_ordinal j) o) as [Ho|Ho]; [|split; [done|intros (? & _ & ? & _ & ? & _); congruence]]. cbn [negb orb].
  rewrite result_bind_Ok. split.
  - intros ([] & Hf & [= <-]). by exists j.
  - intros (j' & -> & [= <-] & _ & _ & Hf). by exists tt.
Qed.

Lemma attempts_from previous before rest : entries = before ++ rest -> previous_is before previous ->
  (exists last, for_each (validate_attempt_entry reader) previous rest = Ok last /\ match last with Some p => ensure_latest reader p | None => Ok tt end = Ok tt)
  <-> attempts_ok rest /\ (forall p, previous = Some p -> final_ok p).
Proof.
  revert previous before. induction rest as [|[[d o] k] rest IH]; intros previous before He Hp; cbn [for_each].
  { rewrite app_nil_r in He. subst before. split.
    - intros (? & [= <-] & Hf). split; [intros ? ? ? H; by apply not_elem_of_nil in H|]. intros p ->. by apply final_at_end.
    - intros [_ Hf]. exists previous. split; [done|]. destruct previous as [p|]; [|done]. by apply final_at_end, Hf. }
  setoid_rewrite result_bind_Ok. assert (entries = (before ++ [((d, o), k)]) ++ rest) as He' by (by rewrite <- app_assoc).
  assert (forall j, st_jobs st !! k = Some j -> jb_discussion_thread_id j = d -> jb_attempt_ordinal j = o -> previous_is (before ++ [((d, o), k)]) (Some j)) as Hn.
  { intros j Hj Hd Ho. unfold previous_is. rewrite last_snoc. eauto. }
  split.
  - intros (lst & (next & Hx & Hrest) & Hlst). apply attempt_entry_Ok in Hx as (j & -> & Hj & Hd & Ho & Hx).
    apply (attempt_follows_Ok _ _ _ _ _ _ _ He Hp Hj Hd Ho) in Hx as [Hok Hf].
    destruct (proj1 (IH _ _ He' (Hn _ Hj Hd Ho)) (ex_intro _ lst (conj Hrest Hlst))) as [Hr' Hf']. split; [|done].
    intros d' o' k' [E|Hin]%elem_of_cons; [|by apply Hr']. injection E as -> -> ->. split; [done|]. intros j' Hj'. apply Hf'. congruence.
  - intros [Hall Hf]. destruct (Hall d o k ltac:(set_solver)) as [Hok Hfj]. pose proof Hok as [(j & Hj & Hd & Ho) _].
    destruct (proj2 (IH _ _ He' (Hn _ Hj Hd Ho))) as (lst & Hrest & Hlst).
    { split; [intros ? ? ? ?; apply Hall; set_solver|]. intros p [= <-]. auto. }
    exists lst. split; [|done]. exists (Some j). split; [|done]. apply attempt_entry_Ok. exists j. do 4 (split; [done|]).
    by apply (attempt_follows_Ok _ _ _ _ _ _ _ He Hp Hj Hd Ho).
Qed.
End AttemptOrder.

(** ** The validation accepts the tables that mean something *)

(** The cursors give the records of the tables; the attempts in the order of their keys. *)
Record served (cursors : JobCursors) (st : JobStore) (fuel : nat) : Prop := mkServed {
  sv_jobs : exists l, lists l (st_jobs st) /\ serves (cu_jobs cursors) l /\ (length l < fuel)%nat;
  sv_live : exists l, lists l (st_live st) /\ serves (cu_live cursors) l /\ (length l < fuel)%nat;
  sv_requests : exists l, lists l (st_requests st) /\ serves (cu_requests cursors) ((fun e => (RequestValue e.1, e.2)) <$> l) /\ (length l < fuel)%nat;
  sv_attempts : exists l, lists l (st_attempts st) /\ serves (cu_attempts cursors) l /\ (length l < fuel)%nat /\ StronglySorted attempt_before l;
  sv_latest : exists l, lists l (st_latest st) /\ serves (cu_latest cursors) l /\ (length l < fuel)%nat
}.

Section Meaning.
Context (reader : JobReader DurableJobValidationError) (st : JobStore) (Hr : reads reader st).

Definition record_ok (k : list byte) (j : BranchHandoffJobRecord) : Prop :=
  jb_job_id j = k /\ st_requests st !! jb_request j = Some (admission_from_job j)
  /\ st_attempts st !! (jb_discussion_thread_id j, jb_attempt_ordinal j) = Some k
  /\ st_live st !! k = (if is_live (lifecycle j) then Some j else None)
  /\ exists l, st_latest st !! jb_discussion_thread_id j = Some l /\ jb_attempt_ordinal j <= la_attempt_ordinal l
       /\ (la_attempt_ordinal l = jb_attempt_ordinal j -> la_job_id l = k) /\ (is_live (lifecycle j) = true -> la_job_id l = k).

Lemma validate_record_Ok k j : validate_record reader (k, j) = Ok tt <-> record_ok k j.
Proof.
  unfold validate_record, record_ok. rewrite (re_request _ _ Hr), (re_attempt _ _ Hr), (re_latest _ _ Hr), (re_live _ _ Hr). cbn [mbind result_bind].
  case_bool_decide as Hk; cbn [negb]; [subst k|split; [done|intros [? _]; congruence]].
  case_bool_decide as Hq; cbn [negb]; [|split; [done|tauto]]. case_bool_decide as Ha; cbn [negb]; [|split; [done|tauto]].
  destruct (st_latest st !! jb_discussion_thread_id j) as [l|]; [|split; [done|intros (_ & _ & _ & _ & l & ? & _); congruence]].
  destruct (Z.ltb_spec (la_attempt_ordinal l) (jb_attempt_ordinal j)) as [Hlt|Hge]; [split; [done|intros (_ & _ & _ & _ & l' & [= <-] & ? & _); lia]|].
  destruct (Z.eqb_spec (la_attempt_ordinal l) (jb_attempt_ordinal j)) as [E|E].
  all: destruct (decide (la_job_id l = jb_job_id j)) as [Hj|Hj]; [rewrite (bool_decide_eq_true_2 (la_job_id l = _)) by done|rewrite (bool_decide_eq_false_2 (la_job_id l = _)) by done]; cbn [negb andb].
  all: destruct (is_live (lifecycle j)); try (case_bool_decide as Hv; cbn [negb]); try rewrite <- eq_None_not_Some in Hv.
  all: try (split; [intros ?|intros (_ & _ & _ & ? & l' & [= <-] & ? & ? & ?)]; try done; try congruence; try tauto).
  all: try (split_and!; [done..|exists l; tauto]).
  1-3: by destruct Hv as [? ?]; congruence.
  split_and!; [done..|]. exists l. split_and!; [done..|done].
Qed.

Lemma validate_live_entry_Ok k j : validate_live_entry reader (k, j) = Ok tt <-> jb_job_id j = k /\ is_live (lifecycle j) = true /\ st_jobs st !! k = Some j.
Proof.
  unfold validate_live_entry. rewrite (re_job _ _ Hr). cbn [mbind result_bind]. case_bool_decide as Hk; cbn [negb orb]; [|split; [done|intros [? _]; congruence]].
  destruct (is_live (lifecycle j)); cbn [negb]; [|split; [done|intros (_ & ? & _); done]]. case_bool_decide as Hj; cbn [negb]; [split; [intros _; split; [done|]; split; done|done]|split; [done|intros (_ & _ & ?); done]].
Qed.

Lemma validate_request_entry_Ok r a : validate_request_entry reader (RequestValue r, a) = Ok tt <-> exists j, st_jobs st !! ra_job_id a = Some j /\ jb_request j = r /\ admission_from_job j = a.
Proof.
  unfold validate_request_entry, validation_job. rewrite (re_job _ _ Hr). cbn [mbind result_bind]. destruct (st_jobs st !! ra_job_id a) as [j|]; cbn [ok_or mbind result_bind]; [|naive_solver].
  case_bool_decide as Hq; cbn [negb orb]; [|split; [done|intros (? & [= <-] & ? & _); congruence]]. case_bool_decide as Ha; cbn [negb]; [|split; [done|intros (? & [= <-] & _ & ?); congruence]].
  split; [intros _; by exists j|done].
Qed.

Lemma validate_latest_entry_Ok d l : validate_latest_entry reader (d, l) = Ok tt <->
  (exists j, st_jobs st !! la_job_id l = Some j /\ jb_discussion_thread_id j = d /\ jb_attempt_ordinal j = la_attempt_ordinal l) /\ st_attempts st !! (d, la_attempt_ordinal l) = Some (la_job_id l).
Proof.
  unfold validate_latest_entry, validation_job. rewrite (re_job _ _ Hr), (re_attempt _ _ Hr). cbn [mbind result_bind]. destruct (st_jobs st !! la_job_id l) as [j|]; cbn [ok_or mbind result_bind]; [|naive_solver].
  case_bool_decide as Hd; cbn [negb orb]; [|split; [done|intros [(? & [= <-] & ? & _) _]; congruence]].
  destruct (Z.eqb_spec (jb_attempt_ordinal j) (la_attempt_ordinal l)) as [Ho|Ho]; cbn [negb]; [|split; [done|intros [(? & [= <-] & _ & ?) _]; congruence]].
  case_bool_decide as Ha; cbn [negb]; [|split; [done|tauto]]. split; [|done]. intros _. split; [by exists j|done].
Qed.

Lemma attempt_order_settles fuel cursors l : attempts_typed st -> lists l (st_attempts st) -> StronglySorted attempt_before l -> serves (cu_attempts cursors) l -> (length l < fuel)%nat ->
  settles (validate_attempt_order reader fuel cursors) (forall d o k, st_attempts st !! (d, o) = Some k -> attempt_ok st d o k /\ (forall j, st_jobs st !! k = Some j -> final_ok st j)) tt.
Proof.
  intros Ht Hl Hs Hv Hf. unfold validate_attempt_order.
  pose proof (page_loop_serves (cu_attempts cursors) (ValidationInvariant "bounded attempt cursor reported more without a record") (validate_attempt_entry reader) l fuel [] l None Hv eq_refl Hf) as E.
  cbn [last fmap option_fmap option_map] in E. rewrite E. clear E.
  pose proof (attempts_from reader st l Hr Ht Hl Hs None [] l eq_refl eq_refl) as E.
  assert (attempts_ok st l <-> (forall d o k, st_attempts st !! (d, o) = Some k -> attempt_ok st d o k /\ (forall j, st_jobs st !! k = Some j -> final_ok st j))) as <-.
  { unfold attempts_ok. split; intros Ha d o k Hin; apply Ha, Hl, Hin. }
  destruct (for_each (validate_attempt_entry reader) None l) as [p|e]; cbn [run mbind panicky_bind].
  - apply run_settles. naive_solver.
  - right. split; [|by eexists]. intros Ha. destruct (proj2 E) as (? & ? & _); [split; [done|naive_solver]|done].
Qed.

(** What the five checks establish together. *)
Lemma jobs_ok_checked : attempts_typed st ->
  (forall k j, st_jobs st !! k = Some j -> record_ok k j) /\
  (forall k j, st_live st !! k = Some j -> jb_job_id j = k /\ is_live (lifecycle j) = true /\ st_jobs st !! k = Some j) /\
  (forall r a, st_requests st !! r = Some a -> exists j, st_jobs st !! ra_job_id a = Some j /\ jb_request j = r /\ admission_from_job j = a) /\
  (forall d o k, st_attempts st !! (d, o) = Some k -> attempt_ok st d o k /\ (forall j, st_jobs st !! k = Some j -> final_ok st j)) /\
  (forall d l, st_latest st !! d = Some l ->
    (exists j, st_jobs st !! la_job_id l = Some j /\ jb_discussion_thread_id j = d /\ jb_attempt_ordinal j = la_attempt_ordinal l) /\ st_attempts st !! (d, la_attempt_ordinal l) = Some (la_job_id l))
  <-> jobs_ok st.
Proof.
  intros Ht. split.
  - intros (Hj & Hv & Hq & Ha & Hl). constructor; [|naive_solver|done|intros d o k Hk; apply Ha, Hk|intros d l Hd; apply Hl, Hd].
    intros k j Hk. destruct (Hj k j Hk) as (? & ? & ? & ? & l & ? & ? & _ & ?). split_and!; [done..|]. by exists l.
  - intros [Hj Hv Hq Ha Hl]. split_and!.
    + intros k j Hk. destruct (Hj k j Hk) as (? & ? & Hat & ? & l & Hlt & ? & ?). split_and!; [done..|]. exists l. split_and!; [done..| |done].
      intros E. apply Hl in Hlt. rewrite E, Hat in Hlt. by injection Hlt.
    + intros k j Hk. destruct (Hv k j Hk) as [Hjk ?]. split_and!; [by apply Hj in Hjk as [? _]|done..].
    + done.
    + intros d o k Hk. split; [by apply Ha|]. intros j Hjk Hlast. destruct (Hj k j Hjk) as (Hid & _ & _ & _ & l & Hlt & Hle & _). rewrite Hlt.
      pose proof (Hl _ _ Hlt) as Hal. pose proof (Hlast _ _ Hal) as Hge. destruct (Hj k j Hjk) as (_ & _ & Hat & _).
      assert (la_attempt_ordinal l = jb_attempt_ordinal j) as E by lia. rewrite E, Hat in Hal. injection Hal as Hid'. destruct l as [lj lo]. cbn in *. unfold latest_from_job. congruence.
    + intros d l Hd. pose proof (Hl _ _ Hd) as Hat. split; [|done]. destruct (Ha _ _ _ Hat) as [(j & ? & ? & ?) _]. by exists j.
Qed.
End Meaning.

(** C32: run over the five tables of the durable-job domain, by pages of any size, in the order of
    the encoded keys, the validation comes to an end and accepts exactly the tables that mean
    something ([jobs_ok]): the indices agree with the job records in both directions, exactly the
    jobs that are not finished are live, every live job is the latest attempt of its discussion,
    and the attempts of a discussion are numbered from one without a gap, every one before the
    last having failed for good.  Every other content is reported as an error. *)
Theorem validate_accepts_jobs_ok reader st cursors fuel :
  reads reader st -> attempts_typed st -> served cursors st fuel -> settles (validate reader fuel cursors) (jobs_ok st) tt.
Proof.
  intros Hr Ht [(lj & Hlj & Hsj & Hfj) (lv & Hlv & Hsv & Hfv) (lq & Hlq & Hsq & Hfq) (la & Hla & Hsa & Hfa & Hso) (ll & Hll & Hsl & Hfl)].
  rewrite <- (jobs_ok_checked st Ht). unfold validate, validate_records, validate_live_index, validate_requests, validate_latest_index.
  apply (settles_bind _ _ _ _ tt).
  { eapply settles_iff; [|by apply loop_settles]. rewrite (lists_forall _ _ _ Hlj). by setoid_rewrite (validate_record_Ok reader st Hr). }
  intros _. apply (settles_bind _ _ _ _ tt).
  { eapply settles_iff; [|by apply loop_settles]. rewrite (lists_forall _ _ _ Hlv). by setoid_rewrite (validate_live_entry_Ok reader st Hr). }
  intros _. apply (settles_bind _ _ _ _ tt).
  { eapply settles_iff; [|apply loop_settles; [done|by rewrite length_fmap]]. setoid_rewrite <- (validate_request_entry_Ok reader st Hr).
    rewrite <- (lists_forall _ _ (fun e => validate_request_entry reader (RequestValue e.1, e.2) = Ok tt) Hlq). set_solver. }
  intros _. apply (settles_bind _ _ _ _ tt); [by eapply attempt_order_settles|]. intros _.
  eapply settles_iff; [|by apply loop_settles]. rewrite (lists_forall _ _ _ Hll). by setoid_rewrite (validate_latest_entry_Ok reader st Hr).
Qed.
