(* ===== verification/JobCodec.v ===== *)
(** * Durable jobs: the record codecs

    [durable_job/codec.rs] and [codec/state.rs], over the encoder and decoder of
    [beryl-state/src/encoding.rs], whose integers, identities and texts have the format of the
    parts in [SyndicParts].  Keys and values of the five tables. *)
From stdpp Require Import prelude gmap strings.
From S2P Require Import Prelude.
From S2P Require Import Bytes.
From S2P Require Import ModelIds.
From S2P Require Import ModelText.
From S2P Require Import SyndicValues.
From S2P Require Import SyndicParts.
From S2P Require Import CompactionCodec.
From S2P Require Import JobModel.
From S2P Require Import JobValidate.

Definition BRANCH_HANDOFF_JOB_RECORD_LIMIT : Z := 320 * 1024.

(** ** State *)

Definition encode_parent (p : ParentHandoffIdentity) : list byte := ph_accepted_input_id p ++ ph_turn_id p.
Definition decode_parent : decoder ParentHandoffIdentity := input ← d_fixed16; turn ← d_fixed16; mret (mkParentHandoff input turn).

Definition encode_cas (c : ParentCasIdentity) : list byte := e_text (pcas_thread_id c) ++ e_text (pcas_turn_id c).
Definition decode_cas : decoder ParentCasIdentity :=
  thread ← dec_external "parent CAS thread identity" "CAS thread identity";
  turn ← dec_external "parent CAS turn identity" "CAS turn identity";
  mret (mkParentCas thread turn).

Definition encode_failure_kind (kind : HandoffFailureKind) : Z :=
  match kind with
  | RuntimeUnavailable => 0 | RootUnavailable => 1 | CasUnavailable => 2 | TransientDeliveryFailure => 3 | CasRejectedBeforeAcceptance => 4
  | InvariantViolation => 5 | ParentMissing => 6 | UnrecoverablePostAppend => 7 | ParentInterrupted => 8 | ParentIncomplete => 9
  | ParentTerminalFailure => 10 | ChildInputPending => 11 | ParentArchived => 12
  end.
Definition decode_failure_kind (tag : Z) : option HandoffFailureKind :=
  match tag with
  | 0 => Some RuntimeUnavailable | 1 => Some RootUnavailable | 2 => Some CasUnavailable | 3 => Some TransientDeliveryFailure | 4 => Some CasRejectedBeforeAcceptance
  | 5 => Some InvariantViolation | 6 => Some ParentMissing | 7 => Some UnrecoverablePostAppend | 8 => Some ParentInterrupted | 9 => Some ParentIncomplete
  | 10 => Some ParentTerminalFailure | 11 => Some ChildInputPending | 12 => Some ParentArchived
  | _ => None
  end.

Definition encode_evidence (e : HandoffFailureEvidence) : list byte := enc_enum encode_failure_kind (ev_kind e) ++ enc_opt e_text (ev_detail e).
Definition decode_evidence_fields : decoder HandoffFailureEvidence :=
  kind ← dec_enum "handoff failure kind" decode_failure_kind;
  detail ← dec_opt "handoff failure detail option" (d_text "handoff failure detail");
  mret (mkEvidence kind detail).
Definition decode_evidence : decoder HandoffFailureEvidence :=
  fields ← decode_evidence_fields; checked "handoff failure evidence" (new_evidence (ev_kind fields) (ev_detail fields)).

Definition encode_checkpoint (c : BranchHandoffCheckpoint) : list byte :=
  match c with
  | CpWaitingResolvingTurn => e_u8 0
  | CpWaitingParent => e_u8 1
  | CpStartingParent parent => e_u8 2 ++ encode_parent parent
  | CpParentActive parent cas => e_u8 3 ++ encode_parent parent ++ encode_cas cas
  end.
Definition decode_checkpoint : decoder BranchHandoffCheckpoint :=
  tag ← d_u8;
  match tag with
  | 0 => mret CpWaitingResolvingTurn
  | 1 => mret CpWaitingParent
  | 2 => parent ← decode_parent; mret (CpStartingParent parent)
  | 3 => parent ← decode_parent; cas ← decode_cas; mret (CpParentActive parent cas)
  | _ => refuse (InvalidTag "branch handoff retry checkpoint" tag)
  end.

Definition encode_state (s : BranchHandoffJobState) : list byte :=
  match s with
  | WaitingResolvingTurn => e_u8 0
  | WaitingParent => e_u8 1
  | StartingParent parent => e_u8 2 ++ encode_parent parent
  | ParentActive parent cas => e_u8 3 ++ encode_parent parent ++ encode_cas cas
  | RetryableFailed resume evidence => e_u8 4 ++ encode_checkpoint resume ++ encode_evidence evidence
  | TerminalFailed stopped_at evidence => e_u8 5 ++ encode_checkpoint stopped_at ++ encode_evidence evidence
  | Succeeded parent cas => e_u8 6 ++ encode_parent parent ++ encode_cas cas
  end.
Definition decode_state : decoder BranchHandoffJobState :=
  tag ← d_u8;
  match tag with
  | 0 => mret WaitingResolvingTurn
  | 1 => mret WaitingParent
  | 2 => parent ← decode_parent; mret (StartingParent parent)
  | 3 => parent ← decode_parent; cas ← decode_cas; mret (ParentActive parent cas)
  | 4 =>
      resume ← decode_checkpoint; evidence ← decode_evidence;
      if negb (failure_state_is_compatible LcRetryableFailed resume (ev_kind evidence)) then refuse (InvalidValue "branch handoff job state")
      else mret (RetryableFailed resume evidence)
  | 5 =>
      stopped_at ← decode_checkpoint; evidence ← decode_evidence;
      if negb (failure_state_is_compatible LcTerminalFailed stopped_at (ev_kind evidence)) then refuse (InvalidValue "branch handoff job state")
      else mret (TerminalFailed stopped_at evidence)
  | 6 => parent ← decode_parent; cas ← decode_cas; mret (Succeeded parent cas)
  | _ => refuse (InvalidTag "branch handoff job state" tag)
  end.

(** ** Records *)

Definition encode_context_owner (o : DiscussionContextOwnerId) : list byte :=
  match o with OwnerDraft id => e_u8 0 ++ id | OwnerSubmittedTurn id => e_u8 1 ++ id end.
Definition decode_context_owner : decoder DiscussionContextOwnerId :=
  tag ← d_u8;
  match tag with
  | 0 => OwnerDraft <$> d_fixed16
  | 1 => OwnerSubmittedTurn <$> d_fixed16
  | _ => refuse (InvalidTag "discussion context owner" tag)
  end.

Definition encode_request (r : ResolutionRequestIdentity) : list byte := e_text (rq_cas_thread_id r) ++ e_text (rq_cas_turn_id r) ++ e_text (rq_tool_call_id r).
Definition decode_request : decoder ResolutionRequestIdentity :=
  thread ← dec_external "resolving CAS thread identity" "CAS thread identity";
  turn ← dec_external "resolving CAS turn identity" "CAS turn identity";
  tool ← dec_external "resolution tool call identity" "dynamic tool call identity";
  mret (mkRequest thread turn tool).

Definition decode_attempt_ordinal : decoder Z := v ← d_u64; checked "resolution attempt ordinal" (new_attempt_ordinal v).

Definition encode_job_record (j : BranchHandoffJobRecord) : list byte :=
  jb_job_id j ++ jb_intent_id j ++ e_u64 (jb_attempt_ordinal j) ++ jb_discussion_thread_id j ++ jb_parent_thread_id j ++ encode_context_owner (jb_context_owner_id j)
  ++ jb_context_digest j ++ jb_resolving_turn_id j ++ encode_request (jb_request j) ++ e_u64 (jb_parent_queue_ordinal j) ++ e_text (jb_resolution j)
  ++ encode_state (jb_state j) ++ e_u64 (jb_revision j).
Definition decode_resolution : decoder (list byte) := t ← d_text "branch resolution text"; checked "branch resolution text" (new_resolution_text t).
Definition decode_job_fields : decoder BranchHandoffJobRecord :=
  job_id ← d_fixed16; intent_id ← d_fixed16; attempt_ordinal ← decode_attempt_ordinal; discussion_thread_id ← d_fixed16; parent_thread_id ← d_fixed16;
  context_owner_id ← decode_context_owner; context_digest ← d_fixed32; resolving_turn_id ← d_fixed16; request ← decode_request; parent_queue_ordinal ← d_u64;
  resolution ← decode_resolution; state ← decode_state; revision ← dec_rev "job revision";
  mret (mkJob job_id intent_id attempt_ordinal discussion_thread_id parent_thread_id context_owner_id context_digest resolving_turn_id request parent_queue_ordinal resolution state revision).
(** The derivation of the job identity is checked behind the trailing bytes. *)
Definition decode_job_record (bs : list byte) : result CodecError BranchHandoffJobRecord :=
  job ← run_decoder decode_job_fields bs;
  if negb (bool_decide (jb_job_id job = branch_handoff_job_id (jb_intent_id job))) then Err (InvalidValue "branch handoff job record") else Ok job.

(** ** The tables *)

Definition decode_identity (kind : string) (bs : list byte) : result CodecError (list byte) :=
  if negb (length bs =? 16)%nat then Err (InvalidLength kind) else Ok bs.
Definition decode_job_id : list byte -> result CodecError (list byte) := decode_identity "job identity".
Definition decode_thread_id : list byte -> result CodecError (list byte) := decode_identity "Syndic thread identity".

Definition encode_request_key (k : RequestIndexKey) : list byte :=
  match k with RequestLower => e_u8 0 | RequestValue r => e_u8 1 ++ encode_request r | RequestUpper => e_u8 255 end.
Definition decode_request_key (bs : list byte) : result CodecError RequestIndexKey :=
  run_decoder (tag ← d_u8; if tag =? 0 then mret RequestLower else if tag =? 1 then RequestValue <$> decode_request else if tag =? 255 then mret RequestUpper
               else refuse (InvalidTag "request-idempotency key" tag)) bs.
Definition validate_stored_key (k : RequestIndexKey) : result CodecError unit :=
  match k with RequestValue _ => Ok tt | RequestLower | RequestUpper => Err (InvalidValue "branch handoff job record") end.

Definition encode_request_value (a : ResolutionRequestAdmission) : list byte := ra_job_id a ++ ra_intent_id a ++ ra_discussion_thread_id a ++ e_u64 (ra_attempt_ordinal a).
Definition decode_request_value (bs : list byte) : result CodecError ResolutionRequestAdmission :=
  value ← run_decoder (job ← d_fixed16; intent ← d_fixed16; thread ← d_fixed16; ordinal ← decode_attempt_ordinal; mret (mkRequestAdmission job intent thread ordinal)) bs;
  if negb (bool_decide (ra_job_id value = branch_handoff_job_id (ra_intent_id value))) then Err (InvalidValue "branch handoff job record") else Ok value.

Definition decode_attempt_key (bs : list byte) : result CodecError (list byte * Z) :=
  run_decoder (thread ← d_fixed16; ordinal ← decode_attempt_ordinal; mret (thread, ordinal)) bs.

Definition encode_latest (l : LatestBranchHandoffAttempt) : list byte := la_job_id l ++ e_u64 (la_attempt_ordinal l).
Definition decode_latest (bs : list byte) : result CodecError LatestBranchHandoffAttempt :=
  run_decoder (job ← d_fixed16; ordinal ← decode_attempt_ordinal; mret (mkLatest job ordinal)) bs.

(** ** Typed values *)

Definition handoff_typed (p : ParentHandoffIdentity) : Prop := fixed 16 (ph_accepted_input_id p) /\ fixed 16 (ph_turn_id p).
Definition cas_typed (c : ParentCasIdentity) : Prop := is_external (pcas_thread_id c) /\ is_external (pcas_turn_id c).
Definition evidence_typed (e : HandoffFailureEvidence) : Prop := opt_valid is_text (ev_detail e) /\ new_evidence (ev_kind e) (ev_detail e) = Ok e.
Definition checkpoint_typed (c : BranchHandoffCheckpoint) : Prop :=
  match c with
  | CpStartingParent p => handoff_typed p
  | CpParentActive p cas => handoff_typed p /\ cas_typed cas
  | _ => True
  end.
Definition state_typed (s : BranchHandoffJobState) : Prop :=
  match s with
  | WaitingResolvingTurn | WaitingParent => True
  | StartingParent p => handoff_typed p
  | ParentActive p cas | Succeeded p cas => handoff_typed p /\ cas_typed cas
  | RetryableFailed c e => checkpoint_typed c /\ evidence_typed e /\ failure_state_is_compatible LcRetryableFailed c (ev_kind e) = true
  | TerminalFailed c e => checkpoint_typed c /\ evidence_typed e /\ failure_state_is_compatible LcTerminalFailed c (ev_kind e) = true
  end.
Definition request_typed (r : ResolutionRequestIdentity) : Prop := is_external (rq_cas_thread_id r) /\ is_external (rq_cas_turn_id r) /\ is_external (rq_tool_call_id r).
Definition resolution_typed (t : list byte) : Prop := utf8_valid t = true /\ new_resolution_text t = Ok t.
Record job_typed (j : BranchHandoffJobRecord) : Prop := mkJobTyped {
  jt_job : fixed 16 (jb_job_id j);
  jt_intent : fixed 16 (jb_intent_id j);
  jt_attempt : is_rev (jb_attempt_ordinal j);
  jt_discussion : fixed 16 (jb_discussion_thread_id j);
  jt_parent : fixed 16 (jb_parent_thread_id j);
  jt_owner : owner_valid (jb_context_owner_id j);
  jt_digest : fixed 32 (jb_context_digest j);
  jt_turn : fixed 16 (jb_resolving_turn_id j);
  jt_request : request_typed (jb_request j);
  jt_queue : is_u64 (jb_parent_queue_ordinal j);
  jt_resolution : resolution_typed (jb_resolution j);
  jt_state : state_typed (jb_state j);
  jt_revision : is_rev (jb_revision j)
}.

(** ** Exactness of the parts *)

#[global] Instance handoff_exact : Exact handoff_typed encode_parent decode_parent.
Proof. unfold encode_parent, decode_parent. exact_record. Qed.
#[global] Instance job_cas_exact : Exact cas_typed encode_cas decode_cas.
Proof. unfold encode_cas, decode_cas. change e_text with enc_external. exact_record. Qed.
#[global] Instance failure_kind_exact : Exact any (enc_enum encode_failure_kind) (dec_enum "handoff failure kind" decode_failure_kind).
Proof. enum_tags. Qed.
(** A number that must not be zero. *)
Lemma nonzero_exact {E} kind (e : E) : Exact is_rev e_u64 (v ← d_u64; checked kind (ok_or e (nonzero v))).
Proof.
  intros bs v rest. unfold is_rev. split.
  - intros Hd. part_inv Hd. apply checked_Ok in Hd as [Hd ->]. apply ok_or_Ok in Hd. unfold nonzero in Hd. destruct (Z.eqb_spec x 0); simplify_eq. unfold is_u64 in *. split; [lia|done].
  - intros [Hv ->]. run_part. apply checked_Ok. split; [|done]. unfold nonzero. by rewrite (proj2 (Z.eqb_neq _ _)) by lia.
Qed.
#[global] Instance attempt_ordinal_exact : Exact is_rev e_u64 decode_attempt_ordinal.
Proof. apply nonzero_exact. Qed.

Lemma new_evidence_Ok kind detail e : new_evidence kind detail = Ok e -> e = mkEvidence kind detail.
Proof.
  unfold new_evidence. destruct detail as [d|]; [|congruence]. intros (d' & Hd & [= <-])%result_bind_Ok. unfold validate_failure_detail in Hd.
  repeat (case_match; try done). by injection Hd as <-.
Qed.
Definition evidence_fields_typed (e : HandoffFailureEvidence) : Prop := opt_valid is_text (ev_detail e).
#[global] Instance evidence_fields_exact : Exact evidence_fields_typed encode_evidence decode_evidence_fields.
Proof. unfold encode_evidence, decode_evidence_fields. exact_record. Qed.
#[global] Instance evidence_exact : Exact evidence_typed encode_evidence decode_evidence.
Proof. apply (rebuilt_exact evidence_fields_typed); [apply _|]. intros [k d] b E. by apply new_evidence_Ok in E. Qed.

#[global] Instance checkpoint_exact : Exact checkpoint_typed encode_checkpoint decode_checkpoint.
Proof.
  intros bs v rest. unfold decode_checkpoint. split.
  - intros Hd. part_inv Hd. tag_cases x; try (parts_inv Hd; split; [done|]; cbn; by rewrite <- ?app_assoc).
  - intros [Hv ->]. destruct v; cbn [checkpoint_typed encode_checkpoint] in *; destruct_and?; run_part; cbn; repeat run_part; done.
Qed.

#[global] Instance state_exact : Exact state_typed encode_state decode_state.
Proof.
  intros bs v rest. unfold decode_state. split.
  - intros Hd. part_inv Hd. tag_cases x; try (parts_inv Hd; split; [done|]; cbn; by rewrite <- ?app_assoc).
    all: do 2 part_inv Hd; destruct (failure_state_is_compatible _ _ _) eqn:E; cbn [negb] in Hd; [|done]; apply ret_Ok in Hd as [-> ->]; split; [done|]; cbn; by rewrite <- ?app_assoc.
  - intros [Hv ->]. destruct v; cbn [state_typed encode_state] in *; destruct_and?; run_part; cbn; repeat run_part; try done.
    all: match goal with E : failure_state_is_compatible _ _ _ = true |- _ => rewrite E end; done.
Qed.

#[global] Instance job_owner_exact : Exact owner_valid encode_context_owner decode_context_owner.
Proof. unfold decode_context_owner. exact_variant. Qed.
#[global] Instance job_request_exact : Exact request_typed encode_request decode_request.
Proof. unfold encode_request, decode_request. change e_text with enc_external. exact_record. Qed.

Lemma new_resolution_Ok t u : new_resolution_text t = Ok u -> u = t /\ zlen t <= RESOLUTION_TEXT_MAX_BYTES.
Proof.
  unfold new_resolution_text, validate_resolution_text. intros ([] & Hv & [= <-])%result_bind_Ok. split; [done|]. case_bool_decide; [done|].
  destruct (Z.ltb_spec RESOLUTION_TEXT_MAX_BYTES (zlen t)); [done|lia].
Qed.
#[global] Instance job_resolution_exact : Exact resolution_typed e_text decode_resolution.
Proof.
  intros bs v rest. unfold decode_resolution, resolution_typed. split.
  - intros Hd. part_inv Hd. apply checked_Ok in Hd as [Hd ->]. pose proof (new_resolution_Ok _ _ Hd) as [-> _]. match goal with H : is_text _ |- _ => by destruct H end.
  - intros [[Hu Hv] ->]. run_part; [|by apply checked_Ok]. split; [done|]. apply new_resolution_Ok in Hv as [_ Hv]. unfold RESOLUTION_TEXT_MAX_BYTES in Hv. lia.
Qed.

#[global] Instance job_fields_exact : Exact job_typed encode_job_record decode_job_fields.
Proof.
  intros bs v rest. unfold encode_job_record, decode_job_fields. change (e_u64 (jb_revision v)) with (enc_rev (jb_revision v)). split.
  - intros Hd. parts_inv Hd. split; [by constructor|]. cbn [jb_job_id jb_intent_id jb_attempt_ordinal jb_discussion_thread_id jb_parent_thread_id jb_context_owner_id jb_context_digest jb_resolving_turn_id
      jb_request jb_parent_queue_ordinal jb_resolution jb_state jb_revision]. unfold same, enc_rev. rewrite <- !app_assoc. reflexivity.
  - intros [[] ->]. destruct v. cbn in *. repeat run_part. done.
Qed.

(** A check behind the trailing bytes. *)
Lemma run_checked_exact {A} valid enc (d : decoder A) `{!Exact valid enc d} (P : A -> Prop) `{!forall a, Decision (P a)} e bs a :
  (x ← run_decoder d bs; if negb (bool_decide (P x)) then Err e else Ok x) = Ok a <-> (valid a /\ P a) /\ bs = enc a.
Proof.
  rewrite result_bind_Ok. split.
  - intros (x & Hx & Hok). apply (run_exact valid enc d) in Hx as [Hv ->]. case_bool_decide; [|done]. by injection Hok as <-.
  - intros [[Hv HP] ->]. exists a. split; [by apply (run_exact valid enc d)|]. by rewrite bool_decide_eq_true_2.
Qed.

Definition job_stored (j : BranchHandoffJobRecord) : Prop := job_typed j /\ jb_job_id j = branch_handoff_job_id (jb_intent_id j).
Definition request_value_fields (a : ResolutionRequestAdmission) : Prop := fixed 16 (ra_job_id a) /\ fixed 16 (ra_intent_id a) /\ fixed 16 (ra_discussion_thread_id a) /\ is_rev (ra_attempt_ordinal a).
#[global] Instance request_value_exact :
  Exact request_value_fields encode_request_value (job ← d_fixed16; intent ← d_fixed16; thread ← d_fixed16; ordinal ← decode_attempt_ordinal; mret (mkRequestAdmission job intent thread ordinal)).
Proof. unfold encode_request_value. exact_record. Qed.
#[global] Instance attempt_key_exact :
  Exact (fun k => fixed 16 k.1 /\ is_rev k.2) encode_attempt_key (thread ← d_fixed16; ordinal ← decode_attempt_ordinal; mret (thread, ordinal)).
Proof.
  intros bs v rest. unfold encode_attempt_key. split.
  - intros Hd. parts_inv Hd. split; [done|]. cbn. by rewrite <- app_assoc.
  - intros [[Hd Ho] ->]. destruct v. cbn in *. repeat run_part. done.
Qed.
#[global] Instance latest_value_exact :
  Exact (fun l => fixed 16 (la_job_id l) /\ is_rev (la_attempt_ordinal l)) encode_latest (job ← d_fixed16; ordinal ← decode_attempt_ordinal; mret (mkLatest job ordinal)).
Proof. unfold encode_latest. exact_record. Qed.

Definition request_key_typed (k : RequestIndexKey) : Prop := match k with RequestValue r => request_typed r | _ => True end.
#[global] Instance request_key_exact : Exact request_key_typed encode_request_key
  (tag ← d_u8; if tag =? 0 then mret RequestLower else if tag =? 1 then RequestValue <$> decode_request else if tag =? 255 then mret RequestUpper
               else refuse (InvalidTag "request-idempotency key" tag)).
Proof.
  intros bs v rest. split.
  - intros Hd. part_inv Hd. destruct (Z.eqb_spec x 0) as [->|]; [variant_fields Hd|]. destruct (Z.eqb_spec x 1) as [->|]; [variant_fields Hd|].
    destruct (Z.eqb_spec x 255) as [->|]; [variant_fields Hd|done].
  - intros [Hv ->]. destruct v; cbn [request_key_typed encode_request_key] in *; run_part; cbn; [done| |done]. apply fmap_Ok. eexists. split; [|reflexivity]. by apply exact.
Qed.

Lemma identity_exact kind bs a : decode_identity kind bs = Ok a <-> fixed 16 a /\ bs = a.
Proof. unfold decode_identity, fixed. destruct (Nat.eqb_spec (length bs) 16); cbn; naive_solver. Qed.

Lemma job_record_exact bs j : decode_job_record bs = Ok j <-> job_stored j /\ bs = encode_job_record j.
Proof. exact (run_checked_exact job_typed encode_job_record decode_job_fields _ _ bs j). Qed.
Lemma request_key_run bs k : decode_request_key bs = Ok k <-> request_key_typed k /\ bs = encode_request_key k.
Proof. exact (run_exact request_key_typed encode_request_key _ bs k). Qed.
Lemma request_value_run bs a :
  decode_request_value bs = Ok a <-> (request_value_fields a /\ ra_job_id a = branch_handoff_job_id (ra_intent_id a)) /\ bs = encode_request_value a.
Proof. exact (run_checked_exact request_value_fields encode_request_value _ _ _ bs a). Qed.
Lemma latest_run bs l : decode_latest bs = Ok l <-> (fixed 16 (la_job_id l) /\ is_rev (la_attempt_ordinal l)) /\ bs = encode_latest l.
Proof. exact (run_exact (fun l => fixed 16 (la_job_id l) /\ is_rev (la_attempt_ordinal l)) encode_latest _ bs l). Qed.

(** The codecs of the five tables are exact: a byte string decodes to a key or a value exactly
    when the value is typed (a job record with a text within its bounds, a state whose failure
    fits where it stopped, and an identity derived from its intent) and the string is its
    encoding.  So nothing is read back as anything but what was written. *)
Theorem job_codecs_exact bs :
  (forall j, decode_job_record bs = Ok j <-> job_stored j /\ bs = encode_job_record j)
  /\ (forall k, decode_request_key bs = Ok k <-> request_key_typed k /\ bs = encode_request_key k)
  /\ (forall a, decode_request_value bs = Ok a <-> (request_value_fields a /\ ra_job_id a = branch_handoff_job_id (ra_intent_id a)) /\ bs = encode_request_value a)
  /\ (forall k, decode_attempt_key bs = Ok k <-> (fixed 16 k.1 /\ is_rev k.2) /\ bs = encode_attempt_key k)
  /\ (forall l, decode_latest bs = Ok l <-> (fixed 16 (la_job_id l) /\ is_rev (la_attempt_ordinal l)) /\ bs = encode_latest l)
  /\ (forall id, decode_job_id bs = Ok id <-> fixed 16 id /\ bs = id)
  /\ (forall id, decode_thread_id bs = Ok id <-> fixed 16 id /\ bs = id).
Proof.
  split; [apply job_record_exact|]. split; [apply request_key_run|]. split; [apply request_value_run|].
  split; [intros k; exact (run_exact (fun k => fixed 16 k.1 /\ is_rev k.2) encode_attempt_key _ bs k)|].
  split; [apply latest_run|]. split; intros id; apply identity_exact.
Qed.
