(* ===== verification/JobRuns.v ===== *)
(** * Durable jobs: runs of the mutations

    What the mutations of [JobModel] do to the tables, over any sequence of them and with reads
    that may fail: the tables keep their meaning ([jobs_ok]), a job keeps its identity and its
    parent, and the reuse guard of a thread is right. *)
From stdpp Require Import prelude gmap strings sorting.
From S2P Require Import Prelude.
From S2P Require Import Bytes.
From S2P Require Import ModelIds.
From S2P Require Import SyndicValues.
From S2P Require Import SyndicParts.
From S2P Require Import JobModel.
From S2P Require Import JobValidate.
From S2P Require Import JobCodec.

(** A reader of the tables that may fail. *)
Record reads_of {E} (reader : JobReader E) (st : JobStore) : Prop := mkReadsOf {
  ro_job : forall k o, rd_job reader k = Ok o -> o = st_jobs st !! k;
  ro_live : forall k o, rd_live reader k = Ok o -> o = st_live st !! k;
  ro_request : forall k o, rd_request reader k = Ok o -> o = st_requests st !! k;
  ro_attempt : forall k o, rd_attempt reader k = Ok o -> o = st_attempts st !! k;
  ro_latest : forall k o, rd_latest reader k = Ok o -> o = st_latest st !! k
}.

Definition empty_jobs : JobStore := mkJobStore ∅ ∅ ∅ ∅ ∅.

(** ** The commits *)

(** The transition a command makes. *)
Definition command_transition (command : job_command) : HandoffJobTransition :=
  match command with
  | CompleteResolvingTurn => TrCompleteResolving
  | StartParentHandoff parent => TrStartParent parent
  | RecordParentCasAcceptance cas => TrParentAccepted cas
  | RecordRetryableHandoffFailure evidence => TrRetryableFailure evidence
  | RetryBranchHandoff => TrRetry
  | RecordTerminalHandoffFailure evidence => TrTerminalFailure evidence
  | SucceedBranchHandoff => TrSucceed
  end.

(** The values of the Rust types. *)
Record admission_typed (a : BranchHandoffJobAdmission) : Prop := mkAdmissionTyped {
  at_intent : fixed 16 (ja_intent_id a);
  at_attempt : is_rev (ja_attempt_ordinal a);
  at_discussion : fixed 16 (ja_discussion_thread_id a);
  at_parent : fixed 16 (ja_parent_thread_id a);
  at_owner : owner_valid (ja_context_owner_id a);
  at_digest : fixed 32 (ja_context_digest a);
  at_turn : fixed 16 (ja_resolving_turn_id a);
  at_request : request_typed (ja_request a);
  at_queue : is_u64 (ja_parent_queue_ordinal a);
  at_resolution : resolution_typed (ja_resolution a)
}.
Definition transition_typed (t : HandoffJobTransition) : Prop :=
  match t with
  | TrStartParent parent => handoff_typed parent
  | TrParentAccepted cas => cas_typed cas
  | TrChildInputPending e | TrParentArchived e | TrRetryableFailure e | TrTerminalFailure e => evidence_typed e
  | TrRetry | TrCompleteResolving | TrSucceed => True
  end.

Inductive job_step (st : JobStore) : JobStore -> Prop :=
  | step_admit reader a job : reads_of reader st -> admission_typed a -> prepare_admission reader a = Ok job ->
      job_step st (write_admission job st)
  | step_prepared_admit reader a w : reads_of reader st -> admission_typed a -> aw_job w = initial_job a -> prepare_prepared_admission reader w = Ok w ->
      job_step st (write_admission (aw_job w) st)
  | step_command reader c job_id expected job : reads_of reader st -> transition_typed (command_transition c) -> prepare_command reader c job_id expected = Ok job ->
      job_step st (contribute_command c job st)
  | step_prepared_transition reader w t : reads_of reader st -> transition_typed t -> job_successor t (tw_old w) = Ok (tw_new w) -> prepare_prepared_transition reader w = Ok w ->
      job_step st (contribute_transition (tw_new w) st).

(** A commit moves the revision of the domain on by one. *)
Inductive domain_step (d : JobDomain) : JobDomain -> Prop :=
  | domain_commit st' : job_step (jd_tables d) st' -> jd_revision d + 1 <= U64_MAX -> domain_step d (mkJobDomain (jd_revision d + 1) st').

Lemma domain_run d d' : rtc domain_step d d' -> rtc job_step (jd_tables d) (jd_tables d') /\ jd_revision d <= jd_revision d' /\ (jd_revision d' = jd_revision d -> d' = d).
Proof.
  induction 1 as [|a b c [st' Hs _] _ (IH1 & IH2 & IH3)]; [by split_and!; [constructor|lia|]|]. cbn in *. split; [by econstructor|]. split; lia.
Qed.

(** Reads made while the domain goes from [d] to [d'], each of the tables of its own moment; any
    of them may fail. *)
Definition sometime (d d' : JobDomain) (P : JobStore -> Prop) : Prop := exists x, rtc domain_step d x /\ rtc domain_step x d' /\ P (jd_tables x).
Record reads_during {E} (reader : JobReader E) (d d' : JobDomain) : Prop := mkReadsDuring {
  rg_job : forall k o, rd_job reader k = Ok o -> sometime d d' (fun st => o = st_jobs st !! k);
  rg_live : forall k o, rd_live reader k = Ok o -> sometime d d' (fun st => o = st_live st !! k);
  rg_request : forall k o, rd_request reader k = Ok o -> sometime d d' (fun st => o = st_requests st !! k);
  rg_attempt : forall k o, rd_attempt reader k = Ok o -> sometime d d' (fun st => o = st_attempts st !! k);
  rg_latest : forall k o, rd_latest reader k = Ok o -> sometime d d' (fun st => o = st_latest st !! k)
}.

Lemma sometime_still d d' P : jd_revision d' = jd_revision d -> sometime d d' P -> P (jd_tables d).
Proof.
  intros E (x & H1 & H2 & HP). destruct (domain_run _ _ H1) as (_ & L1 & E1), (domain_run _ _ H2) as (_ & L2 & _). by rewrite E1 in HP by lia.
Qed.
(** If the revision is the same at the end, the reads are of one moment. *)
Lemma reads_during_still {E} (reader : JobReader E) d d' : jd_revision d' = jd_revision d -> reads_during reader d d' -> reads_of reader (jd_tables d).
Proof. intros Er [H1 H2 H3 H4 H5]. split; intros k o Ho; [apply H1 in Ho|apply H2 in Ho|apply H3 in Ho|apply H4 in Ho|apply H5 in Ho]; exact (sometime_still _ _ _ Er Ho). Qed.

(** ** Successors *)

Definition same_admission (j j' : BranchHandoffJobRecord) : Prop := exists s r, j' = with_job_state j s r.

Lemma advance_job_Ok job state job' : advance job state = Ok job' -> job' = with_job_state job state (jb_revision job + 1).
Proof.
  unfold advance, of_revision, checked_next. intros (r & Hr & [= <-])%result_bind_Ok. f_equal.
  destruct (checked_add64 (jb_revision job) 1) as [v|] eqn:E; cbn in Hr; [|done]. apply checked_add64_Some in E as [-> _]. unfold nonzero in Hr. destruct (_ =? 0); cbn in Hr; congruence.
Qed.

(** The state machine: where each transition starts and ends. *)
Inductive advances : HandoffJobTransition -> BranchHandoffJobState -> BranchHandoffJobState -> Prop :=
  | adv_complete : advances TrCompleteResolving WaitingResolvingTurn WaitingParent
  | adv_start p : advances (TrStartParent p) WaitingParent (StartingParent p)
  | adv_accept p cas : advances (TrParentAccepted cas) (StartingParent p) (ParentActive p cas)
  | adv_succeed p cas : advances TrSucceed (ParentActive p cas) (Succeeded p cas)
  | adv_fail c e : failure_state_is_compatible LcRetryableFailed c (ev_kind e) = true -> advances (TrRetryableFailure e) (into_state c) (RetryableFailed c e)
  | adv_retry c e : advances TrRetry (RetryableFailed c e) (into_state c)
  | adv_terminal t s c e : t = TrTerminalFailure e \/ (t = TrChildInputPending e /\ ev_kind e = ChildInputPending) \/ (t = TrParentArchived e /\ ev_kind e = ParentArchived) ->
      is_live (state_lifecycle s) = true -> state_checkpoint s = Some c ->
      failure_state_is_compatible LcTerminalFailed c (ev_kind e) = true -> advances t s (TerminalFailed c e).

Lemma terminal_failed_Ok job e job' : terminal_failed_job job e = Ok job' -> is_live (state_lifecycle (jb_state job)) = true /\ exists c, state_checkpoint (jb_state job) = Some c
  /\ failure_state_is_compatible LcTerminalFailed c (ev_kind e) = true /\ job' = with_job_state job (TerminalFailed c e) (jb_revision job + 1).
Proof.
  unfold terminal_failed_job, validate_failure_checkpoint, lifecycle. destruct (is_live _); cbn [negb]; [|done]. intros H. split; [done|].
  destruct (state_checkpoint (jb_state job)) as [c|]; cbn in H; [|done]. destruct (failure_state_is_compatible _ _ _) eqn:E; cbn in H; [|done]. exists c. by apply advance_job_Ok in H.
Qed.

(** A transition that succeeds goes along one edge and advances the revision. *)
Lemma job_successor_Ok t job job' : job_successor t job = Ok job' -> exists s, advances t (jb_state job) s /\ job' = with_job_state job s (jb_revision job + 1).
Proof.
  destruct t; cbn [job_successor]; intros H.
  - unfold retry_job in H. case_bool_decide; [|done]. cbn [negb] in H. destruct (jb_state job); try done. apply advance_job_Ok in H. eexists. split; [constructor|done].
  - unfold complete_resolving_job, lifecycle in H. case_bool_decide; [|done]. cbn [negb] in H. destruct (jb_state job); try done. apply advance_job_Ok in H. eexists. split; [constructor|done].
  - case_bool_decide; [|done]. cbn [negb] in H. apply terminal_failed_Ok in H as (? & c & ? & ? & ->). eexists. split; [eapply adv_terminal; eauto|done].
  - unfold start_parent_job, lifecycle in H. case_bool_decide; [|done]. cbn [negb] in H. destruct (jb_state job); try done. apply advance_job_Ok in H. eexists. split; [constructor|done].
  - case_bool_decide; [|done]. cbn [negb] in H. apply terminal_failed_Ok in H as (? & c & ? & ? & ->). eexists. split; [eapply adv_terminal; eauto|done].
  - unfold parent_accepted_job in H. case_bool_decide; [|done]. cbn [negb] in H. destruct (jb_state job); try done. apply advance_job_Ok in H. eexists. split; [constructor|done].
  - unfold retryable_failed_job, validate_failure_checkpoint, lifecycle in H. destruct (jb_state job) eqn:Es; cbn in H; try done.
    all: destruct (failure_state_is_compatible _ _ _) eqn:E; cbn in H; [|done]; apply advance_job_Ok in H; eexists; split; [exact (adv_fail _ _ E)|done].
  - apply terminal_failed_Ok in H as (? & c & ? & ? & ->). eexists. split; [eapply adv_terminal; eauto|done].
  - unfold succeeded_job in H. case_bool_decide; [|done]. cbn [negb] in H. destruct (jb_state job); try done. apply advance_job_Ok in H. eexists. split; [constructor|done].
Qed.

Lemma advance_bound job state job' : advance job state = Ok job' -> jb_revision job + 1 <= U64_MAX.
Proof. unfold advance, of_revision, checked_next, checked_add64. destruct (Z.leb_spec (jb_revision job + 1) U64_MAX); [done|]. intros H'. exfalso. by destruct (jb_revision job). Qed.

Lemma job_successor_bound t job job' : job_successor t job = Ok job' -> jb_revision job + 1 <= U64_MAX.
Proof.
  assert (forall e j', terminal_failed_job job e = Ok j' -> jb_revision job + 1 <= U64_MAX) as Hterm.
  { intros e j'. unfold terminal_failed_job. destruct (negb _); [done|]. intros (? & _ & (? & _ & H)%result_bind_Ok)%result_bind_Ok. by eapply advance_bound. }
  destruct t; cbn [job_successor]; unfold retry_job, complete_resolving_job, start_parent_job, parent_accepted_job, succeeded_job.
  3, 5: destruct (negb _); [done|apply Hterm].
  6: apply Hterm.
  5: { unfold retryable_failed_job. destruct (lifecycle job); try done; intros (? & _ & (? & _ & H)%result_bind_Ok)%result_bind_Ok; by eapply advance_bound. }
  all: destruct (negb _); [done|]; try exact (advance_bound _ _ _); destruct (jb_state job); try done; exact (advance_bound _ _ _).
Qed.

Lemma advances_live t s s' : advances t s s' -> is_live (state_lifecycle s) = true.
Proof. intros H. destruct H as [| | | |c e H| |]; try done. by destruct c. Qed.

Lemma advances_parent t s s' p : advances t s s' -> state_parent s = Some p -> state_parent s' = Some p.
Proof. intros [| | | |c e H|c e|t' s0 c e _ _ Hc _] Hp; cbn in *; try done; try (by destruct c). by destruct s0; cbn in *; simplify_eq/=. Qed.
Lemma advances_parent_cas t s s' p : advances t s s' -> state_parent_cas s = Some p -> state_parent_cas s' = Some p.
Proof. intros [| | | |c e H|c e|t' s0 c e _ _ Hc _] Hp; cbn in *; try done; try (by destruct c). by destruct s0; cbn in *; simplify_eq/=. Qed.

(** ** What the preparations read *)

Section Prepared.
Context (reader : JobReader DurableJobMutationError) (st : JobStore) (Hr : reads_of reader st).

Lemma read_identity_Ok k j : read_identity reader k = Ok j -> st_jobs st !! k = Some j /\ jb_job_id j = k.
Proof.
  unfold read_identity. intros (o & Ho & H)%result_bind_Ok. apply (ro_job _ _ Hr) in Ho as ->. invert_ok H. apply ok_or_Ok in H0.
  case_match eqn:E; [done|]. bool_facts. by simplify_eq.
Qed.

Lemma read_authenticated_Ok k j : read_authenticated reader k = Ok j -> st_jobs st !! k = Some j /\ jb_job_id j = k.
Proof. unfold read_authenticated. intros (j' & Hj & H)%result_bind_Ok. invert_ok H. case_match; [done|]. injection H as <-. by apply read_identity_Ok. Qed.

Lemma validate_current_Ok k r j : validate_current reader k r = Ok j -> st_jobs st !! k = Some j /\ jb_revision j = r.
Proof.
  unfold validate_current, required_job, ensure_revision. intros (j' & (o & Ho & Hj)%result_bind_Ok & H)%result_bind_Ok. apply (ro_job _ _ Hr) in Ho as ->. apply ok_or_Ok in Hj. destruct (Z.eqb_spec r (jb_revision j')) as [->|]; [|done]. by injection H as <-.
Qed.

Lemma validate_lifecycle_Ok k r l j : validate_lifecycle reader k r l = Ok j -> st_jobs st !! k = Some j /\ jb_revision j = r.
Proof. unfold validate_lifecycle. intros (j' & Hj & H)%result_bind_Ok. case_match; [done|]. injection H as <-. by apply validate_current_Ok. Qed.

(** A command makes its transition from the job it names, at the revision it expects. *)
Lemma prepare_command_Ok c k r j' : prepare_command reader c k r = Ok j' ->
  exists j, st_jobs st !! k = Some j /\ jb_revision j = r /\ job_successor (command_transition c) j = Ok j'.
Proof. destruct c; cbn [prepare_command command_transition job_successor]; intros (j & Hj & H)%result_bind_Ok; apply validate_lifecycle_Ok in Hj as [? ?] || apply validate_current_Ok in Hj as [? ?]; by exists j. Qed.

(** What an admission finds: nothing of its request, job and attempt, and a discussion whose
    latest attempt failed for good. *)
Definition admissible (job : BranchHandoffJobRecord) : Prop :=
  st_requests st !! jb_request job = None /\ st_jobs st !! jb_job_id job = None /\ st_live st !! jb_job_id job = None
  /\ st_attempts st !! (jb_discussion_thread_id job, jb_attempt_ordinal job) = None
  /\ ((st_latest st !! jb_discussion_thread_id job = None /\ jb_attempt_ordinal job = FIRST)
      \/ exists p, st_latest st !! jb_discussion_thread_id job = Some (latest_from_job p) /\ st_jobs st !! jb_job_id p = Some p
           /\ jb_discussion_thread_id p = jb_discussion_thread_id job /\ lifecycle p = LcTerminalFailed /\ next_attempt_ordinal (jb_attempt_ordinal p) = Ok (jb_attempt_ordinal job)).

Lemma prior_attempt_Ok job latest p : prior_attempt reader job latest = Ok p ->
  latest = latest_from_job p /\ st_jobs st !! jb_job_id p = Some p /\ jb_discussion_thread_id p = jb_discussion_thread_id job /\ lifecycle p = LcTerminalFailed.
Proof.
  unfold prior_attempt. intros (p' & Hp & H)%result_bind_Ok. apply read_identity_Ok in Hp as [Hp Hid]. case_match eqn:E; [done|]. bool_facts. destruct (lifecycle p') eqn:El; try done. injection H as <-.
  rewrite Hid. by subst latest.
Qed.

Lemma validate_new_Ok job prior : validate_new reader job = Ok prior -> admissible job.
Proof.
  unfold validate_new, admissible. intros (o1 & H1 & H)%result_bind_Ok. apply (ro_request _ _ Hr) in H1 as ->. destruct (st_requests st !! jb_request job); [done|]. split; [done|].
  apply result_bind_Ok in H as (o2 & H2 & H). apply (ro_job _ _ Hr) in H2 as ->. destruct (st_jobs st !! jb_job_id job); [done|]. split; [done|]. cbn in H.
  apply result_bind_Ok in H as (o3 & H3 & H). apply (ro_live _ _ Hr) in H3 as ->. destruct (st_live st !! jb_job_id job); [done|]. split; [done|]. cbn in H.
  apply result_bind_Ok in H as (o4 & H4 & H). apply (ro_attempt _ _ Hr) in H4 as ->. destruct (st_attempts st !! _); [done|]. split; [done|]. cbn in H.
  apply result_bind_Ok in H as (o5 & H5 & H). apply (ro_latest _ _ Hr) in H5 as ->. destruct (st_latest st !! _) as [l|].
  - right. destruct (prior_attempt reader job l) as [p|] eqn:Ep; [|done]. apply prior_attempt_Ok in Ep as (-> & ? & ? & ?). exists p. cbn in H.
    destruct (next_attempt_ordinal _) as [e|]; [|done]. cbn in H. destruct (Z.eqb_spec (jb_attempt_ordinal job) e) as [->|]; [done|done].
  - left. cbn in H. destruct (Z.eqb_spec (jb_attempt_ordinal job) FIRST); done.
Qed.
End Prepared.

(** ** The tables keep their meaning *)

Lemma job_ordinal_positive st k j : jobs_ok st -> attempts_typed st -> st_jobs st !! k = Some j -> 0 <= jb_attempt_ordinal j.
Proof. intros Hok Ht Hk. apply (jo_jobs _ Hok) in Hk as (_ & _ & Ha & _). apply Ht in Ha as [_ ?]. lia. Qed.

Lemma admission_keeps st job : jobs_ok st -> attempts_typed st -> admissible st job -> lifecycle job = LcWaitingResolvingTurn -> jobs_ok (write_admission job st).
Proof.
  intros Hok Ht (Nq & Nj & Nv & Na & Hprior) Hlc. pose proof Hok as [Hj Hv Hq Ha Hl].
  assert (forall k j, st_jobs st !! k = Some j -> jb_job_id job <> k) as Hold by congruence.
  constructor; cbn.
  - intros k j Hk. destruct (decide (k = jb_job_id job)) as [->|Hne].
    + rewrite lookup_insert_eq in Hk. injection Hk as <-. rewrite !lookup_insert_eq, Hlc. cbn. split_and!; try done. eexists. split; [done|]. cbn. split; [lia|done].
    + rewrite lookup_insert_ne in Hk by done. destruct (Hj k j Hk) as (Hid & Hqj & Haj & Hvj & l & Hlj & Hle & Hlive).
      rewrite !lookup_insert_ne by congruence. split_and!; try done. destruct (decide (jb_discussion_thread_id job = jb_discussion_thread_id j)) as [E|E].
      * rewrite E, lookup_insert_eq. eexists. split; [done|]. cbn. destruct Hprior as [[HN _]|(p & HS & Hp & _ & Hf & Hn)]; [congruence|].
        rewrite E, Hlj in HS. injection HS as ->. cbn in *.         apply next_attempt_Ok in Hn as [-> _]; [|by eapply job_ordinal_positive]. split; [lia|]. intros Hlv. exfalso. pose proof (Hlive Hlv) as Hkp. rewrite Hkp, Hk in Hp. injection Hp as ->. by rewrite Hf in Hlv.
      * rewrite lookup_insert_ne by done. by exists l.
  - intros k j. destruct (decide (k = jb_job_id job)) as [->|Hne]; [rewrite !lookup_insert_eq|rewrite !lookup_insert_ne by done; apply Hv]. intros [= <-]. by rewrite Hlc.
  - intros r a. destruct (decide (r = jb_request job)) as [->|Hne]; [rewrite lookup_insert_eq|rewrite lookup_insert_ne by done].
    + intros [= <-]. exists job. by rewrite lookup_insert_eq.
    + intros Hra. destruct (Hq _ _ Hra) as (j & Hk & ? & ?). exists j. rewrite lookup_insert_ne by (exact (Hold _ _ Hk)). done.
  - intros d o k. destruct (decide ((d, o) = (jb_discussion_thread_id job, jb_attempt_ordinal job))) as [E|Hne].
    + rewrite <- E, lookup_insert_eq. injection E as -> ->. intros [= <-]. split; [exists job; by rewrite lookup_insert_eq|].
      destruct Hprior as [[_ HF]|(p & HS & Hp & Hd & Hf & Hn)]; [by left|right]. apply next_attempt_Ok in Hn as [-> _]; [|by eapply job_ordinal_positive]. exists (jb_job_id p), p.
      rewrite !lookup_insert_ne; [|exact (Hold _ _ Hp)|intros [=]; lia]. rewrite Z.add_simpl_r. destruct (Hj _ _ Hp) as (_ & _ & Hap & _). by rewrite <- Hd.
    + rewrite lookup_insert_ne by done. intros Hk. destruct (Ha _ _ _ Hk) as [(j & Hkj & Hdj & Hoj) Hprev]. split.
      * exists j. by rewrite lookup_insert_ne by (exact (Hold _ _ Hkj)).
      * destruct Hprev as [->|(k' & j' & Hk' & Hj' & Hf')]; [by left|right]. exists k', j'. rewrite !lookup_insert_ne; [done|exact (Hold _ _ Hj')|congruence].
  - intros d l. destruct (decide (d = jb_discussion_thread_id job)) as [->|Hne]; [rewrite lookup_insert_eq|rewrite lookup_insert_ne by done].
    + intros [= <-]. cbn. by rewrite lookup_insert_eq.
    + intros Hd. rewrite lookup_insert_ne by congruence. by apply Hl.
Qed.

Lemma admission_keeps_typed st job : attempts_typed st -> jobs_ok st -> admissible st job -> fixed 16 (jb_discussion_thread_id job) -> attempts_typed (write_admission job st).
Proof.
  intros Ht Hok (_ & _ & _ & _ & Hprior) Hd d o k. cbn. destruct (decide ((d, o) = (jb_discussion_thread_id job, jb_attempt_ordinal job))) as [E|Hne].
  - injection E as -> ->. intros _. split; [done|]. destruct Hprior as [[_ ->]|(p & _ & Hp & _ & _ & Hn)]; [unfold FIRST; lia|].
    pose proof (job_ordinal_positive _ _ _ Hok Ht Hp) as Hpos. apply next_attempt_Ok in Hn; lia.
  - rewrite lookup_insert_ne by done. apply Ht.
Qed.

(** What a transition writes, table by table. *)
Lemma contribute_jobs j st : st_jobs (contribute_transition j st) = <[jb_job_id j := j]> (st_jobs st).
Proof. unfold contribute_transition. by destruct (is_live _). Qed.
Lemma contribute_live j st k : st_live (contribute_transition j st) !! k = if decide (k = jb_job_id j) then if is_live (lifecycle j) then Some j else None else st_live st !! k.
Proof.
  unfold contribute_transition. destruct (decide (k = jb_job_id j)) as [->|Hne]; destruct (is_live _); cbn.
  - by rewrite lookup_insert_eq.
  - by rewrite lookup_delete_eq.
  - by rewrite lookup_insert_ne.
  - by rewrite lookup_delete_ne.
Qed.
Lemma contribute_others j st : st_requests (contribute_transition j st) = st_requests st /\ st_attempts (contribute_transition j st) = st_attempts st /\ st_latest (contribute_transition j st) = st_latest st.
Proof. unfold contribute_transition. by destruct (is_live _). Qed.

(** A transition of a live job. *)
Lemma transition_keeps st k j s r : jobs_ok st -> st_jobs st !! k = Some j -> is_live (lifecycle j) = true -> jobs_ok (contribute_transition (with_job_state j s r) st).
Proof.
  intros [Hj Hv Hq Ha Hl] Hk Hlive. pose proof (Hj k j Hk) as (Hid & Hqj & Haj & Hvj & l & Hlj & Hle & Hlat).
  remember (with_job_state j s r) as j' eqn:Ej. assert (jb_job_id j' = k) as Hid' by (by rewrite Ej).
  assert (admission_from_job j' = admission_from_job j /\ jb_request j' = jb_request j /\ jb_discussion_thread_id j' = jb_discussion_thread_id j /\ jb_attempt_ordinal j' = jb_attempt_ordinal j) as (E1 & E2 & E3 & E4) by (by rewrite Ej).
  clear Ej. destruct (contribute_others j' st) as (Eq & Ea & El).
  assert (forall k' i, st_jobs st !! k' = Some i -> exists i', st_jobs (contribute_transition j' st) !! k' = Some i' /\ jb_request i' = jb_request i /\ admission_from_job i' = admission_from_job i
    /\ jb_discussion_thread_id i' = jb_discussion_thread_id i /\ jb_attempt_ordinal i' = jb_attempt_ordinal i /\ (lifecycle i = LcTerminalFailed -> lifecycle i' = LcTerminalFailed)) as Hjobs.
  { intros k' i Hi. rewrite contribute_jobs, Hid'. destruct (decide (k' = k)) as [->|Hne].
    - rewrite lookup_insert_eq. exists j'. rewrite Hk in Hi. injection Hi as <-. split_and!; try done. intros E. by rewrite E in Hlive.
    - rewrite lookup_insert_ne by done. by exists i. }
  constructor; rewrite ?Eq, ?Ea, ?El.
  - intros k' i. rewrite contribute_jobs, contribute_live, Hid'. destruct (decide (k' = k)) as [->|Hne].
    + rewrite lookup_insert_eq. intros [= <-]. rewrite E1, E2, E3, E4. split_and!; [done..|]. exists l. split_and!; [done..|]. intros _. by apply Hlat.
    + rewrite lookup_insert_ne by done. apply Hj.
  - intros k' i. rewrite contribute_jobs, contribute_live, Hid'. destruct (decide (k' = k)) as [->|Hne]; [|rewrite lookup_insert_ne by done; apply Hv].
    rewrite lookup_insert_eq. destruct (is_live (lifecycle j')) eqn:E; [|done]. by intros [= <-].
  - intros q a Hqa. destruct (Hq _ _ Hqa) as (i & Hi & <- & <-). destruct (Hjobs _ _ Hi) as (i' & ? & ? & ? & _). by exists i'.
  - intros d o k' Hat. destruct (Ha _ _ _ Hat) as [(i & Hi & <- & <-) Hprev]. destruct (Hjobs _ _ Hi) as (i' & ? & _ & _ & ? & ? & _). split; [by exists i'|].
    destruct Hprev as [->|(k1 & p & Hk' & Hp & Hf)]; [by left|right]. destruct (Hjobs _ _ Hp) as (p' & ? & _ & _ & _ & _ & Hf'). exists k1, p'. auto.
  - done.
Qed.

Lemma contribute_command_transition c j t j' : job_successor (command_transition c) j = Ok j' -> contribute_command c j' t = contribute_transition j' t.
Proof.
  intros (s & Hs & ->)%job_successor_Ok. unfold contribute_transition. destruct c; cbn in *; inversion Hs as [| | | |c0 e0 He0 E1 E2 E3|c0 e0 E1 E2 E3|t0 s0 c0 e0 Ht0 Hl0 Hc0 Hf0 E1 E2 E3]; subst; try done; try (by destruct c0).
  all: by destruct Ht0 as [[=]|[[[=] _]|[[=] _]]].
Qed.

(** What a commit did: it admitted a job, or moved one along an edge. *)
Lemma job_step_cases st st' : job_step st st' ->
  (exists a, admissible st (initial_job a) /\ admission_typed a /\ st' = write_admission (initial_job a) st)
  \/ (exists t k j s, st_jobs st !! k = Some j /\ transition_typed t /\ advances t (jb_state j) s /\ jb_revision j + 1 <= U64_MAX /\ st' = contribute_transition (with_job_state j s (jb_revision j + 1)) st).
Proof.
  intros [reader a job Hr Hd H|reader a w Hr Hd Hw H|reader c k r job Hr Hty H|reader w t Hr Hty Ht H].
  - left. unfold prepare_admission in H. apply result_bind_Ok in H as (p & Hp & [= <-]). exists a. split; [by eapply validate_new_Ok|done].
  - left. unfold prepare_prepared_admission in H. apply result_bind_Ok in H as (p & Hp & _). rewrite Hw in *. exists a. split; [by eapply validate_new_Ok|done].
  - right. apply (prepare_command_Ok _ _ Hr) in H as (j & Hj & _ & Hs). rewrite (contribute_command_transition _ _ _ _ Hs). pose proof (job_successor_bound _ _ _ Hs). apply job_successor_Ok in Hs as (s & Hs & ->). by exists (command_transition c), k, j, s.
  - right. unfold prepare_prepared_transition in H. apply result_bind_Ok in H as (j & Hj & H). apply (read_authenticated_Ok _ _ Hr) in Hj as [Hj _]. case_bool_decide as E; [subst j|done].
    pose proof (job_successor_bound _ _ _ Ht). apply job_successor_Ok in Ht as (s & Hs & ->). by exists t, (jb_job_id (tw_old w)), (tw_old w), s.
Qed.

Lemma job_step_keeps st st' : job_step st st' -> jobs_ok st -> attempts_typed st -> jobs_ok st' /\ attempts_typed st'.
Proof.
  intros [(a & Had & Hd & ->)|(t & k & j & s & Hj & _ & Hs & _ & ->)]%job_step_cases Hok Ht.
  - split; [by apply admission_keeps|apply admission_keeps_typed; [done..|by destruct Hd]].
  - split; [by eapply transition_keeps; [| |eapply advances_live]|]. unfold contribute_transition. by destruct (is_live _).
Qed.

Lemma empty_jobs_ok : jobs_ok empty_jobs /\ attempts_typed empty_jobs.
Proof. split; [constructor; cbn; intros *|intros d o k; cbn]; by rewrite ?lookup_empty. Qed.

Lemma job_run_keeps st st' : rtc job_step st st' -> jobs_ok st -> attempts_typed st -> jobs_ok st' /\ attempts_typed st'.
Proof. induction 1 as [|a b c Hab _ IH]; [done|]. intros Hok Ht. destruct (job_step_keeps _ _ Hab Hok Ht). by apply IH. Qed.
