(* ===== verification/JobTheorems.v ===== *)
(** * Durable jobs: theorems *)
From stdpp Require Import prelude gmap strings sorting.
From S2P Require Import Prelude.
From S2P Require Import Bytes.
From S2P Require Import ModelIds.
From S2P Require Import ModelText.
From S2P Require Import SyndicValues.
From S2P Require Import SyndicParts.
From S2P Require Import Cursors.
From S2P Require Import JobModel.
From S2P Require Import JobValidate.
From S2P Require Import JobCodec.
From S2P Require Import JobRuns.

(** ** What [jobs_ok] gives *)

Lemma one_live_job st k j k' j' : jobs_ok st -> st_live st !! k = Some j -> st_live st !! k' = Some j' -> jb_discussion_thread_id j = jb_discussion_thread_id j' -> k = k'.
Proof.
  intros [Hj Hv _ _ _] Hk Hk' E. apply Hv in Hk as [Hk Hlive]. apply Hv in Hk' as [Hk' Hlive'].
  apply Hj in Hk as (_ & _ & _ & _ & l & Hl & _ & Hlat). apply Hj in Hk' as (_ & _ & _ & _ & l' & Hl' & _ & Hlat').
  rewrite E, Hl' in Hl. injection Hl as ->. by rewrite <- (Hlat Hlive), <- (Hlat' Hlive').
Qed.

Lemma one_job_of_request st k j k' j' : jobs_ok st -> st_jobs st !! k = Some j -> st_jobs st !! k' = Some j' -> jb_request j = jb_request j' -> k = k'.
Proof.
  intros [Hj _ _ _ _] Hk Hk' E. apply Hj in Hk as (Hid & Hq & _). apply Hj in Hk' as (Hid' & Hq' & _).
  rewrite E, Hq' in Hq. injection Hq as Hq _ _ _. congruence.
Qed.

(** ** Histories of a job *)

Definition edge (s s' : BranchHandoffJobState) : Prop := exists t, advances t s s'.

(** What later tables keep of a job. *)
Record later (j j' : BranchHandoffJobRecord) : Prop := mkLater {
  lt_admission : exists s r, j' = with_job_state j s r;
  lt_path : rtc edge (jb_state j) (jb_state j');
  lt_revision : j' = j \/ jb_revision j < jb_revision j';
  lt_done : is_live (lifecycle j) = false -> j' = j
}.

Lemma later_refl j : later j j.
Proof. split; [exists (jb_state j), (jb_revision j); by destruct j|done|by left|done]. Qed.

Lemma job_later_trans a b c : later a b -> later b c -> later a c.
Proof.
  intros [(s & r & Eb) Hp Hr Hd] [(s' & r' & Ec) Hp' Hr' Hd']. split.
  - exists s', r'. by rewrite Ec, Eb.
  - by etrans.
  - destruct Hr as [->|Hr]; [done|]. destruct Hr' as [->|Hr']; [by right|right; lia].
  - intros Hl. specialize (Hd Hl) as ->. by apply Hd'.
Qed.

Lemma job_step_later st st' k j : job_step st st' -> jobs_ok st -> st_jobs st !! k = Some j -> exists j', st_jobs st' !! k = Some j' /\ later j j'.
Proof.
  intros Hs Hok Hk.
  pose proof (later_refl j) as Hrefl.
  apply job_step_cases in Hs as [(a & (_ & Hn & _) & _ & ->)|(t & k' & i & s & Hi & _ & Hs & _ & ->)].
  - exists j. cbn. split; [|done]. rewrite lookup_insert_ne; [done|]. cbn in Hn. congruence.
  - pose proof (jo_jobs _ Hok _ _ Hi) as (Hid & _). rewrite contribute_jobs. cbn [with_job_state jb_job_id]. rewrite Hid. destruct (decide (k = k')) as [->|Hne].
    + rewrite lookup_insert_eq. eexists. split; [done|]. rewrite Hi in Hk. injection Hk as ->. split; [by eexists _, _|apply rtc_once; by exists t|right; cbn; lia|].
      intros Hl. apply advances_live in Hs. unfold lifecycle in Hl. congruence.
    + rewrite lookup_insert_ne by done. by exists j.
Qed.

Lemma job_run_later st st' k j : rtc job_step st st' -> jobs_ok st -> attempts_typed st -> st_jobs st !! k = Some j -> exists j', st_jobs st' !! k = Some j' /\ later j j'.
Proof.
  intros H. revert j. induction H as [st|st st1 st2 H1 _ IH]; intros j Hok Ht Hk.
  - exists j. split; [done|]. apply later_refl.
  - destruct (job_step_later _ _ _ _ H1 Hok Hk) as (j1 & Hk1 & Hl1). destruct (job_step_keeps _ _ H1 Hok Ht) as [Hok1 Ht1].
    destruct (IH _ Hok1 Ht1 Hk1) as (j2 & ? & ?). exists j2. split; [done|]. by eapply job_later_trans.
Qed.

Lemma path_parent s s' p : rtc edge s s' -> state_parent s = Some p -> state_parent s' = Some p.
Proof. induction 1 as [|a b c [t Hab] _ IH]; [done|]. intros Hp. apply IH. by eapply advances_parent. Qed.
Lemma path_parent_cas s s' p : rtc edge s s' -> state_parent_cas s = Some p -> state_parent_cas s' = Some p.
Proof. induction 1 as [|a b c [t Hab] _ IH]; [done|]. intros Hp. apply IH. by eapply advances_parent_cas. Qed.

(** C31: over any sequence of admissions and transitions, committed with reads that may fail, from
    a domain that is empty: the tables keep their meaning and so pass the validation, a
    discussion has at most one live job, and a request at most one job, ever. *)
Theorem job_tables_reachable st : rtc job_step empty_jobs st ->
  jobs_ok st /\ attempts_typed st
  /\ (forall k j k' j', st_live st !! k = Some j -> st_live st !! k' = Some j' -> jb_discussion_thread_id j = jb_discussion_thread_id j' -> k = k')
  /\ (forall k j k' j', st_jobs st !! k = Some j -> st_jobs st !! k' = Some j' -> jb_request j = jb_request j' -> k = k').
Proof.
  intros H. destruct (job_run_keeps _ _ H (proj1 empty_jobs_ok) (proj2 empty_jobs_ok)) as [Hok Ht]. split; [done|]. split; [done|].
  split; intros *; [by eapply one_live_job|by eapply one_job_of_request].
Qed.

(** C34: whatever is committed, a job is kept with everything it was admitted with; its state
    follows the edges of the state machine; the identities of the parent input and of its
    provider turn, once recorded, stay; a finished job never changes; and a job that has changed
    has a higher revision. *)
Theorem job_history st st' k j : rtc job_step empty_jobs st -> rtc job_step st st' -> st_jobs st !! k = Some j ->
  exists j', st_jobs st' !! k = Some j' /\ (exists s r, j' = with_job_state j s r) /\ rtc edge (jb_state j) (jb_state j')
    /\ (forall p, state_parent (jb_state j) = Some p -> state_parent (jb_state j') = Some p)
    /\ (forall c, state_parent_cas (jb_state j) = Some c -> state_parent_cas (jb_state j') = Some c)
    /\ (is_live (lifecycle j) = false -> j' = j)
    /\ (j' = j \/ jb_revision j < jb_revision j').
Proof.
  intros H0 H Hk. destruct (job_run_keeps _ _ H0 (proj1 empty_jobs_ok) (proj2 empty_jobs_ok)) as [Hok Ht].
  destruct (job_run_later _ _ _ _ H Hok Ht Hk) as (j' & Hk' & [Ha Hp Hr Hd]). exists j'. split; [done|]. split; [done|]. split; [done|].
  split; [by intros p; apply path_parent|]. split; [by intros c; apply path_parent_cas|]. done.
Qed.

(** ** A prepared transition *)

Lemma latest_of_live st k j : jobs_ok st -> st_jobs st !! k = Some j -> is_live (lifecycle j) = true -> st_latest st !! jb_discussion_thread_id j = Some (latest_from_job j).
Proof.
  intros [Hj Hv Hq Ha Hl] Hk Hlive. destruct (Hj _ _ Hk) as (Hid & _ & Hat & _ & l & Hlt & _ & Hlat). rewrite Hlt. specialize (Hlat Hlive).
  apply Hl, Ha in Hlt as [(i & Hi & _ & Ho) _]. rewrite Hlat, Hk in Hi. injection Hi as <-. destruct l. cbn in *. unfold latest_from_job. congruence.
Qed.

(** On tables with a meaning a live job is read and authenticated. *)
Lemma read_authenticated_live reader st k j : reads reader st -> jobs_ok st -> st_jobs st !! k = Some j -> is_live (lifecycle j) = true -> read_authenticated reader k = Ok j.
Proof.
  intros Hr Hok Hk Hlive. pose proof (latest_of_live _ _ _ Hok Hk Hlive) as Hlat. destruct (jo_jobs _ Hok _ _ Hk) as (Hid & Hq & Ha & Hv & _). rewrite Hlive in Hv.
  unfold read_authenticated, read_identity. rewrite (re_job _ _ Hr), Hk. cbn [mbind result_bind ok_or].
  rewrite (re_live _ _ Hr), (re_request _ _ Hr), (re_attempt _ _ Hr). cbn [mbind result_bind]. rewrite Hlive, !bool_decide_eq_true_2 by done. cbn [negb orb mbind result_bind].
  rewrite (re_latest _ _ Hr). cbn [mbind result_bind]. rewrite Hlive, bool_decide_eq_true_2 by done. done.
Qed.

(** The status of a transition, from the job record alone. *)
Definition job_status (st : JobStore) (w : HandoffJobTransitionWitness) : HandoffJobStatus :=
  let job := st_jobs st !! jb_job_id (tw_old w) in
  if bool_decide (job = Some (tw_old w)) then ExactOld else if bool_decide (job = Some (tw_new w)) then ExactNew else Collision.

Lemma transition_outcome_Ok reader st w : reads reader st -> jobs_ok st -> is_live (lifecycle (tw_old w)) = true -> jb_job_id (tw_new w) = jb_job_id (tw_old w) ->
  transition_outcome reader w = Ok (job_status st w).
Proof.
  intros Hr Hok Hlive Hid. unfold transition_outcome, job_status. rewrite (re_job _ _ Hr), (re_live _ _ Hr). cbn [mbind result_bind]. f_equal.
  case_bool_decide as Ho; cbn [andb].
  - rewrite bool_decide_eq_true_2; [done|]. apply (jo_jobs _ Hok) in Ho as (_ & _ & _ & Hv & _). by rewrite Hv, Hlive.
  - case_bool_decide as Hn; cbn [andb]; [|done]. rewrite bool_decide_eq_true_2; [done|]. by apply (jo_jobs _ Hok) in Hn as (_ & _ & _ & Hv & _).
Qed.

Lemma prepared_transition_current reader st w : reads_of reader st -> prepare_prepared_transition reader w = Ok w -> st_jobs st !! jb_job_id (tw_old w) = Some (tw_old w).
Proof. intros Hr (j & Hj & H)%result_bind_Ok. apply (read_authenticated_Ok _ _ Hr) in Hj as [Hj _]. case_bool_decide as E; [by subst j|done]. Qed.

Lemma reads_reads_of {E} (reader : JobReader E) st : reads reader st -> reads_of reader st.
Proof. intros [Hj Hv Hq Ha Hl]. split; intros k o; rewrite ?Hj, ?Hv, ?Hq, ?Ha, ?Hl; congruence. Qed.

Lemma prepare_transition_Ok reader st home before after k r t p : (before = after -> reads_of reader st) ->
  prepare_transition reader home (Ok before) (Ok after) k r t = Ok p -> let w := pt_witness p in
  after = before /\ pt_revision p = before /\ tw_home_id w = home /\ st_jobs st !! jb_job_id (tw_old w) = Some (tw_old w) /\ job_successor t (tw_old w) = Ok (tw_new w)
  /\ exists s, advances t (jb_state (tw_old w)) s /\ tw_new w = with_job_state (tw_old w) s (jb_revision (tw_old w) + 1).
Proof.
  intros Hr H. unfold prepare_transition, confirm_revision in H. cbn [mbind result_bind] in H. destruct (Z.eqb_spec after before) as [E|]; [|done]. cbn [negb mbind result_bind] in H. specialize (Hr (eq_sym E)).
  apply result_bind_Ok in H as (w & Hw & [= <-]). apply result_bind_Ok in Hw as (old & Ho & H). apply result_bind_Ok in H as (? & _ & H). apply result_bind_Ok in H as (new & Hn & [= <-]). cbn.
  apply (read_authenticated_Ok _ _ Hr) in Ho as [Ho <-]. do 5 (split; [done|]). by apply job_successor_Ok in Hn.
Qed.

(** What the outcome says, read at any moment, is true of the tables read. *)
Lemma transition_outcome_of reader st w s : reads_of reader st -> jobs_ok st -> is_live (lifecycle (tw_old w)) = true -> jb_job_id (tw_new w) = jb_job_id (tw_old w) ->
  transition_outcome reader w = Ok s -> s = job_status st w.
Proof.
  intros Hr Hok Hlive Hid H. apply result_bind_Ok in H as (job & Hj & H). apply result_bind_Ok in H as (live & Hl & [= <-]).
  apply (ro_job _ _ Hr) in Hj as ->. apply (ro_live _ _ Hr) in Hl as ->. unfold job_status. case_bool_decide as Ho; cbn [andb].
  - rewrite bool_decide_eq_true_2; [done|]. apply (jo_jobs _ Hok) in Ho as (_ & _ & _ & Hv & _). by rewrite Hv, Hlive.
  - case_bool_decide as Hn; cbn [andb]; [|done]. rewrite bool_decide_eq_true_2; [done|]. by apply (jo_jobs _ Hok) in Hn as (_ & _ & _ & Hv & _).
Qed.

(** The status of a witness, with the revision of the domain before and after the reads. *)
Lemma handoff_job_status_still reader home before after w : handoff_job_status reader home (Ok before) (Ok after) w =
  if negb (bool_decide (home = tw_home_id w)) then Err (JobInvariant "handoff job witness belongs to another home")
  else if negb (after =? before) then Err (JobInvariant "handoff job source revision changed") else transition_outcome reader w.
Proof. unfold handoff_job_status, confirm_revision. cbn [mbind result_bind]. case_bool_decide; [|done]. cbn [negb]. by destruct (after =? before). Qed.

(** On every table after its commit the job is the successor or beyond. *)
Lemma committed_status st1 st3 reader3 w t s : jobs_ok st1 -> attempts_typed st1 -> job_step st1 (contribute_transition (tw_new w) st1) ->
  advances t (jb_state (tw_old w)) s -> tw_new w = with_job_state (tw_old w) s (jb_revision (tw_old w) + 1) ->
  rtc job_step (contribute_transition (tw_new w) st1) st3 -> reads reader3 st3 ->
  transition_outcome reader3 w = Ok ExactNew \/ transition_outcome reader3 w = Ok Collision.
Proof.
  intros Hok1 Ht1 Hstep Hs Hn H3 Hr3. pose proof (advances_live _ _ _ Hs) as Hlive. assert (jb_job_id (tw_new w) = jb_job_id (tw_old w)) as Hid by (by rewrite Hn).
  destruct (job_step_keeps _ _ Hstep Hok1 Ht1) as [Hok' Ht']. destruct (job_run_keeps _ _ H3 Hok' Ht') as [Hok3 _].
  destruct (job_run_later _ _ (jb_job_id (tw_old w)) (tw_new w) H3 Hok' Ht') as (j3 & Hj3 & [_ _ Hrev _]); [rewrite contribute_jobs, Hid; apply lookup_insert_eq|].
  assert (st_jobs st3 !! jb_job_id (tw_old w) <> Some (tw_old w)) as Hne.
  { rewrite Hj3. intros [= ->]. rewrite Hn in Hrev. destruct Hrev as [E%(f_equal jb_revision)|Hrev]; cbn in *; lia. }
  rewrite (transition_outcome_Ok _ _ _ Hr3 Hok3 Hlive Hid). unfold job_status. rewrite bool_decide_eq_false_2 by done. case_bool_decide; auto.
Qed.

Lemma next_domain_revision r n : 1 <= r -> checked_next r = Ok n <-> n = r + 1 /\ r + 1 <= U64_MAX.
Proof.
  intros Hr. unfold checked_next. destruct (checked_add64 r 1) as [v|] eqn:E; cbn [mbind option_bind].
  - apply checked_add64_Some in E as [-> E]. unfold nonzero. rewrite (proj2 (Z.eqb_neq _ _)) by lia. cbn. naive_solver.
  - apply checked_add64_None in E. cbn. split; [done|lia].
Qed.

(** A prepared transition is committed at the revision it was prepared at, or not at all. *)
Lemma execute_transition_Ok reader d p d' : 1 <= jd_revision d -> execute_transition reader d p = Ok d' <->
  jd_revision d = pt_revision p /\ prepare_prepared_transition reader (pt_witness p) = Ok (pt_witness p) /\ jd_revision d + 1 <= U64_MAX
  /\ d' = mkJobDomain (jd_revision d + 1) (contribute_transition (tw_new (pt_witness p)) (jd_tables d)).
Proof.
  intros Hd. unfold execute_transition. destruct (Z.eqb_spec (jd_revision d) (pt_revision p)) as [E|E]; cbn [negb]; [|split; [done|by intros [? _]]].
  destruct (prepare_prepared_transition reader (pt_witness p)) as [w|e] eqn:Ew; [|split; [done|by intros (_ & ? & _)]].
  assert (w = pt_witness p) as -> by (apply result_bind_Ok in Ew as (j & _ & Ew); case_bool_decide; [by injection Ew as <-|done]).
  destruct (checked_next (jd_revision d)) as [n|e] eqn:En.
  - apply next_domain_revision in En as [-> En]; [|done]. split; [intros [= <-]; by split_and!|]. by intros (_ & _ & _ & ->).
  - split; [done|]. intros (_ & _ & Hle & _). pose proof (proj2 (next_domain_revision (jd_revision d) _ Hd) (conj eq_refl Hle)) as En'. congruence.
Qed.

(** C35: a transition prepared on the domain is committed at most once, and what became of it is
    known for certain.  Preparing it confirms that the domain stood still under its reads, even if
    each read the tables of another moment, and seals the revision.  On any later domain:
    - the status of its witness, asked of the same home, is answered without error: the job as it
      was, the successor, or neither; an answer given while others commit is right of the tables
      it was read from, and none is given for another home;
    - it is committed only if nothing at all was committed to the domain since, whether the job is
      as it was or not: otherwise the writer reports the conflict of revisions;
    - after its commit its status is the successor or neither for ever, and a second commit of it
      is refused with that conflict. *)
Theorem transition_commits_once first da db d1 reader0 reader1 home k r t p :
  1 <= first -> rtc domain_step (mkJobDomain first empty_jobs) da -> rtc domain_step da db -> reads_during reader0 da db -> transition_typed t ->
  prepare_transition reader0 home (Ok (jd_revision da)) (Ok (jd_revision db)) k r t = Ok p ->
  rtc domain_step db d1 -> reads reader1 (jd_tables d1) ->
  let w := pt_witness p in let status reader d := handoff_job_status reader home (Ok (jd_revision d)) (Ok (jd_revision d)) w in
  db = da
  /\ status reader1 d1 = Ok (job_status (jd_tables d1) w)
  /\ (forall reader home' d1' s, rtc domain_step d1 d1' -> reads_during reader d1 d1' ->
        handoff_job_status reader home' (Ok (jd_revision d1)) (Ok (jd_revision d1')) w = Ok s -> home' = home /\ d1' = d1 /\ s = job_status (jd_tables d1) w)
  /\ (d1 = da -> jd_revision da < U64_MAX ->
        execute_transition reader1 d1 p = Ok (mkJobDomain (jd_revision da + 1) (contribute_transition (tw_new w) (jd_tables da))))
  /\ (d1 <> da -> execute_transition reader1 d1 p = Err (DomainConflict (jd_revision da) (jd_revision d1)))
  /\ (forall d2 d3 reader3, execute_transition reader1 d1 p = Ok d2 -> rtc domain_step d2 d3 -> reads reader3 (jd_tables d3) ->
        domain_step d1 d2 /\ (status reader3 d3 = Ok ExactNew \/ status reader3 d3 = Ok Collision)
        /\ execute_transition reader3 d3 p = Err (DomainConflict (jd_revision da) (jd_revision d3))).
Proof.
  intros Hfirst Ha Hab Hr0 Hty Hp H1 Hr1 w status.
  apply (prepare_transition_Ok _ (jd_tables da)) in Hp as (E & Er & Eh & Ho & Ht & s & Hs & Hn); [|intros E; exact (reads_during_still _ _ _ (eq_sym E) Hr0)]. fold w in Eh, Ho, Ht, Hs, Hn.
  pose proof (domain_run _ _ Ha) as (Ra & La & _). destruct (domain_run _ _ Hab) as (_ & _ & Eab). specialize (Eab E). subst db. cbn [jd_revision jd_tables] in Ra, La.
  destruct (domain_run _ _ H1) as (R1 & L1 & E1). destruct (job_run_keeps _ _ (transitivity Ra R1) (proj1 empty_jobs_ok) (proj2 empty_jobs_ok)) as [Hok1 Ht1].
  pose proof (advances_live _ _ _ Hs) as Hlive. assert (jb_job_id (tw_new w) = jb_job_id (tw_old w)) as Hid by (by rewrite Hn).
  assert (Hstatus : forall reader d, status reader d = transition_outcome reader w).
  { intros reader d. unfold status. rewrite handoff_job_status_still, Z.eqb_refl, bool_decide_eq_true_2 by done. done. }
  assert (Hconf : forall reader d, jd_revision d <> jd_revision da -> execute_transition reader d p = Err (DomainConflict (jd_revision da) (jd_revision d))).
  { intros reader d Hne. unfold execute_transition. rewrite Er, (proj2 (Z.eqb_neq _ _)) by done. done. }
  split; [done|]. split; [rewrite Hstatus; by apply transition_outcome_Ok|]. split.
  { intros reader home' d1' s' Hd Hr Hst. rewrite handoff_job_status_still in Hst. case_bool_decide as Eh'; [|done]. cbn [negb] in Hst. destruct (Z.eqb_spec (jd_revision d1') (jd_revision d1)) as [E'|]; [|done].
    split; [congruence|]. split; [by apply (domain_run _ _ Hd)|]. cbn [negb] in Hst. by eapply transition_outcome_of; [exact (reads_during_still _ _ _ E' Hr)| | | |]. }
  split.
  { intros -> Hlt. apply execute_transition_Ok; [lia|]. split; [done|]. split; [|split; [lia|done]].
    unfold prepare_prepared_transition. fold w. rewrite (read_authenticated_live _ _ _ _ Hr1 Hok1 Ho Hlive). cbn [mbind result_bind]. by rewrite bool_decide_eq_true_2. }
  split; [intros Hne; apply Hconf; intros E'; by apply Hne, E1|].
  intros d2 d3 reader3 He H3 Hr3. apply execute_transition_Ok in He as (E2 & Hpp & Hle & ->); [|lia]. fold w in Hpp, H3 |- *.
  pose proof (step_prepared_transition (jd_tables d1) reader1 w t (reads_reads_of _ _ Hr1) Hty Ht Hpp) as Hstep.
  destruct (domain_run _ _ H3) as (R3 & L3 & _). cbn [jd_tables jd_revision] in R3, L3. split; [by constructor|]. split; [|apply Hconf; lia]. rewrite Hstatus.
  by eapply committed_status.
Qed.

(** ** The state machine *)

Lemma advance_exact job state : 0 <= jb_revision job -> jb_revision job + 1 <= U64_MAX -> advance job state = Ok (with_job_state job state (jb_revision job + 1)).
Proof.
  intros H0 H1. unfold advance, of_revision, checked_next, checked_add64. rewrite (proj2 (Z.leb_le _ _)) by done. cbn. unfold nonzero. by rewrite (proj2 (Z.eqb_neq _ _)) by lia.
Qed.

Lemma terminal_failed_exact job e c : 0 <= jb_revision job -> jb_revision job + 1 <= U64_MAX -> is_live (state_lifecycle (jb_state job)) = true -> state_checkpoint (jb_state job) = Some c ->
  failure_state_is_compatible LcTerminalFailed c (ev_kind e) = true -> terminal_failed_job job e = Ok (with_job_state job (TerminalFailed c e) (jb_revision job + 1)).
Proof. intros H0 H1 Hl Hc Hf. unfold terminal_failed_job, validate_failure_checkpoint, lifecycle. rewrite Hl, Hc. cbn [negb ok_or mbind result_bind]. rewrite Hf. cbn. by apply advance_exact. Qed.

Lemma job_successor_complete t job s : 0 <= jb_revision job -> jb_revision job + 1 <= U64_MAX -> advances t (jb_state job) s -> job_successor t job = Ok (with_job_state job s (jb_revision job + 1)).
Proof.
  intros H0 H1 Hs. remember (jb_state job) as s0 eqn:Es.
  destruct Hs as [|p|p cas|p cas|c e Hf|c e|t s0 c e Ht Hl Hc Hf]; cbn [job_successor].
  - unfold complete_resolving_job, lifecycle. rewrite <- Es. by apply advance_exact.
  - unfold start_parent_job, lifecycle. rewrite <- Es. by apply advance_exact.
  - unfold parent_accepted_job, lifecycle. rewrite <- Es. by apply advance_exact.
  - unfold succeeded_job, lifecycle. rewrite <- Es. by apply advance_exact.
  - unfold retryable_failed_job, validate_failure_checkpoint, lifecycle. rewrite <- Es. destruct c; cbn [into_state state_lifecycle state_checkpoint ok_or mbind result_bind]; rewrite Hf; cbn; by apply advance_exact.
  - unfold retry_job, lifecycle. rewrite <- Es. by apply advance_exact.
  - subst s0. destruct Ht as [->|[[-> E]|[-> E]]]; cbn [job_successor]; rewrite ?bool_decide_eq_true_2 by done; by apply terminal_failed_exact.
Qed.

(** C33: the successors of a job are exactly the edges of the state machine: a job waits for the
    resolving turn, then for the parent, is started there, accepted, and succeeds; from each of
    the four it may fail so that it can be retried, and a retry resumes it exactly where it
    failed; from each of the five live states it may fail for good, for a reason that fits where
    it stopped; nothing leads out of the two final states.  Each edge adds one to the revision
    and changes nothing else, and is refused only when the revisions are exhausted. *)
Theorem job_successor_exact t job job' : 0 <= jb_revision job ->
  job_successor t job = Ok job' <-> jb_revision job + 1 <= U64_MAX /\ exists s, advances t (jb_state job) s /\ job' = with_job_state job s (jb_revision job + 1).
Proof.
  intros H0. split.
  - intros H. split; [by eapply job_successor_bound|by apply job_successor_Ok].
  - intros (H1 & s & Hs & ->). by apply job_successor_complete.
Qed.

(** ** The reuse guard *)

Definition no_live_job (st : JobStore) (thread_id : list byte) : Prop := forall k j, st_live st !! k = Some j -> jb_discussion_thread_id j <> thread_id.

Lemma no_latest_no_job st d : jobs_ok st -> st_latest st !! d = None -> no_live_job st d.
Proof. intros Hok Hn k j Hk E. apply (jo_live _ Hok) in Hk as [Hk _]. apply (jo_jobs _ Hok) in Hk as (_ & _ & _ & _ & l & Hl & _). congruence. Qed.

Lemma done_latest_no_live st d l j : jobs_ok st -> st_latest st !! d = Some l -> st_jobs st !! la_job_id l = Some j -> is_live (lifecycle j) = false -> no_live_job st d.
Proof.
  intros Hok Hl Hj Hd k i Hk E. apply (jo_live _ Hok) in Hk as [Hk Hlive]. apply (jo_jobs _ Hok) in Hk as Hi. destruct Hi as (_ & _ & _ & _ & l' & Hl' & _ & Hlat).
  assert (l' = l) as -> by congruence. rewrite (Hlat Hlive), Hk in Hj. congruence.
Qed.

Lemma latest_job st d l : jobs_ok st -> st_latest st !! d = Some l -> exists j, st_jobs st !! la_job_id l = Some j /\ jb_job_id j = la_job_id l /\ jb_discussion_thread_id j = d /\ jb_attempt_ordinal j = la_attempt_ordinal l.
Proof. intros Hok Hl. apply (jo_latest _ Hok), (jo_attempts _ Hok) in Hl as [(j & Hj & ? & ?) _]. exists j. split_and!; try done. by apply (jo_jobs _ Hok) in Hj as [? _]. Qed.

Lemma validate_latest_exact thread_id l j : jb_discussion_thread_id j = thread_id -> jb_job_id j = la_job_id l -> jb_attempt_ordinal j = la_attempt_ordinal l -> validate_latest thread_id l j = Ok tt.
Proof. intros H1 H2 H3. unfold validate_latest. by rewrite !bool_decide_eq_true_2, H3, Z.eqb_refl. Qed.

(** What the guard of a thread is on tables with a meaning. *)
Lemma guard_cases st reader thread_id : jobs_ok st -> reads reader st ->
  (thread_reuse_guard reader thread_id = Ok None /\ ~ no_live_job st thread_id)
  \/ (no_live_job st thread_id /\ exists g, thread_reuse_guard reader thread_id = Ok (Some g) /\ tg_thread_id g = thread_id /\ tg_latest g = st_latest st !! thread_id
      /\ match tg_latest g with
         | None => tg_job g = None
         | Some l => exists j, tg_job g = Some j /\ st_jobs st !! jb_job_id j = Some j /\ jb_job_id j = la_job_id l /\ jb_discussion_thread_id j = thread_id
             /\ jb_attempt_ordinal j = la_attempt_ordinal l /\ is_live (lifecycle j) = false
         end).
Proof.
  intros Hok Hr. unfold thread_reuse_guard. rewrite (re_latest _ _ Hr). cbn [mbind result_bind]. destruct (st_latest st !! thread_id) as [l|] eqn:Hl.
  2: { right. split; [by apply no_latest_no_job|]. by eexists. }
  destruct (latest_job _ _ _ Hok Hl) as (j & Hj & Hid & Hd & Ho). rewrite (re_job _ _ Hr), Hj. cbn [mbind result_bind ok_or]. rewrite validate_latest_exact by done. cbn [mbind result_bind].
  destruct (jo_jobs _ Hok _ _ Hj) as (_ & _ & _ & Hv & _). destruct (is_live (lifecycle j)) eqn:El.
  - left. split; [done|]. intros Hn. by apply (Hn _ _ Hv).
  - right. split; [by eapply done_latest_no_live|]. rewrite (re_live _ _ Hr), Hid, Hv. cbn [mbind result_bind]. rewrite bool_decide_eq_false_2 by (by intros [? ?]).
    eexists. split; [done|]. cbn. split; [done|]. split; [done|]. exists j. by rewrite Hid.
Qed.

(** C36: the guard that lets a thread be reused.  Taken on any reachable tables it never fails,
    and there is one exactly when the thread has no live job.  Checked again on any later tables
    it is accepted exactly when no job of the thread has been admitted since, and then the thread
    has no live job there either. *)
Theorem reuse_guard_exact st st' reader reader' thread_id :
  rtc job_step empty_jobs st -> reads reader st -> rtc job_step st st' -> reads reader' st' ->
  (thread_reuse_guard reader thread_id = Ok None /\ ~ no_live_job st thread_id)
  \/ (exists g, thread_reuse_guard reader thread_id = Ok (Some g) /\ no_live_job st thread_id
      /\ (validate_guard reader' g = Ok tt <-> st_latest st' !! thread_id = st_latest st !! thread_id)
      /\ (validate_guard reader' g = Ok tt -> no_live_job st' thread_id)).
Proof.
  intros H0 Hr H Hr'. destruct (job_run_keeps _ _ H0 (proj1 empty_jobs_ok) (proj2 empty_jobs_ok)) as [Hok Ht]. destruct (job_run_keeps _ _ H Hok Ht) as [Hok' _].
  destruct (guard_cases _ _ thread_id Hok Hr) as [?|(Hn & g & Hg & Htid & Hlat & Hjob)]; [by left|right]. exists g. split; [done|]. split; [done|].
  assert (validate_guard reader' g = Ok tt <-> st_latest st' !! thread_id = st_latest st !! thread_id) as Hiff.
  { unfold validate_guard. rewrite Htid, (re_latest _ _ Hr'), <- Hlat. cbn [mbind result_bind]. case_bool_decide as El; cbn [negb]; [|split; [done|congruence]].
    split; [congruence|]. intros _. destruct (tg_latest g) as [l|]; [|by rewrite Hjob]. destruct Hjob as (j & -> & Hj & Hid & Hd & Ho & Hdone).
    destruct (job_run_later _ _ _ _ H Hok Ht Hj) as (j' & Hj' & Hlt). apply (lt_done _ _ Hlt) in Hdone as E. subst j'. destruct (jo_jobs _ Hok' _ _ Hj') as (_ & _ & _ & Hv & _).
    rewrite (re_job _ _ Hr'), Hj'. cbn [mbind result_bind]. rewrite bool_decide_eq_true_2 by done. cbn [negb ok_or mbind result_bind]. rewrite validate_latest_exact by done. cbn [mbind result_bind].
    rewrite Hdone, (re_live _ _ Hr'), Hv, Hdone. cbn. done. }
  split; [exact Hiff|]. intros Hval. apply Hiff in Hval. rewrite <- Hlat in Hval. destruct (tg_latest g) as [l|]; [|by apply no_latest_no_job].
  destruct Hjob as (j & _ & Hj & Hid & _ & _ & Hdone). destruct (job_run_later _ _ _ _ H Hok Ht Hj) as (j' & Hj' & Hlt). apply (lt_done _ _ Hlt) in Hdone as E. subst j'.
  eapply done_latest_no_live; [done|done| |done]. by rewrite <- Hid.
Qed.

(** ** What is stored *)

Lemma advances_typed t s s' : transition_typed t -> advances t s s' -> state_typed s -> state_typed s'.
Proof.
  intros Ht Hs. destruct Hs as [| | | |c e Hf|c e|t s c e Hk Hl Hc Hf]; cbn in *; try done.
  - intros Hc. split; [by destruct c|done].
  - by intros [? _]; destruct c.
  - intros Hs. assert (evidence_typed e) as He by (destruct Hk as [->|[[-> _]|[-> _]]]; done). split; [|done].
    destruct s; cbn in Hc; simplify_eq; cbn in *; tauto.
Qed.

Lemma job_step_stored st st' : job_step st st' -> jobs_ok st -> (forall k j, st_jobs st !! k = Some j -> job_stored j) -> forall k j, st_jobs st' !! k = Some j -> job_stored j.
Proof.
  intros [(a & _ & [] & ->)|(t & k & i & s & Hi & Hty & Hs & Hb & ->)]%job_step_cases Hok Hall k' j.
  - cbn. intros [[_ <-]|[_ Hj]]%lookup_insert_Some; [|by eapply Hall]. split; [by constructor|done].
  - rewrite contribute_jobs. intros [[_ <-]|[_ Hj]]%lookup_insert_Some; [|by eapply Hall]. destruct (Hall _ _ Hi) as [[] Hid]. split; [|done].
    constructor; cbn; try done; [by eapply advances_typed|unfold is_rev in *; lia].
Qed.

Lemma job_run_stored st : rtc job_step empty_jobs st -> forall k j, st_jobs st !! k = Some j -> job_stored j.
Proof.
  intros H. assert (forall st0, rtc job_step st0 st -> jobs_ok st0 -> attempts_typed st0 -> (forall k j, st_jobs st0 !! k = Some j -> job_stored j) -> forall k j, st_jobs st !! k = Some j -> job_stored j) as Hgen.
  { clear H. induction 1 as [|a b c Hab _ IH]; [done|]. intros Hok Ht Hall. destruct (job_step_keeps _ _ Hab Hok Ht). apply IH; [done..|]. by eapply job_step_stored. }
  eapply Hgen; [done|apply empty_jobs_ok|apply empty_jobs_ok|]. intros k j. cbn. by rewrite lookup_empty.
Qed.

Lemma external_length t : is_external t -> zlen t <= 256.
Proof. intros [_ H]. by apply bounded_text_Ok in H as (_ & _ & H & _). Qed.

Lemma encode_cas_length c : cas_typed c -> zlen (encode_cas c) <= 520.
Proof. intros [H1%external_length H2%external_length]. unfold encode_cas. rewrite length_app, Nat2Z.inj_add, !e_text_length. lia. Qed.
Lemma encode_parent_length p : handoff_typed p -> zlen (encode_parent p) = 32.
Proof. intros [H1 H2]. unfold encode_parent, fixed in *. rewrite length_app. lia. Qed.
Lemma encode_request_length r : request_typed r -> zlen (encode_request r) <= 780.
Proof. intros (H1%external_length & H2%external_length & H3%external_length). unfold encode_request. rewrite !length_app, !Nat2Z.inj_add, !e_text_length. lia. Qed.
Lemma encode_evidence_length e : evidence_typed e -> zlen (encode_evidence e) <= 2054.
Proof.
  intros [_ H]. unfold encode_evidence, enc_enum, e_u8. rewrite length_app, length_be_bytes. destruct e as [k [d|]]; cbn in *; [|unfold e_u8; rewrite length_be_bytes; lia].
  rewrite length_app. unfold e_u8 at 1. rewrite length_be_bytes. pose proof (e_text_length d). apply result_bind_Ok in H as (d' & H & _). unfold validate_failure_detail in H.
  case_bool_decide; [done|]. destruct (Z.ltb_spec HANDOFF_FAILURE_DETAIL_MAX_BYTES (zlen d)); [done|]. unfold HANDOFF_FAILURE_DETAIL_MAX_BYTES in *. lia.
Qed.
Lemma encode_checkpoint_length c : checkpoint_typed c -> zlen (encode_checkpoint c) <= 553.
Proof.
  destruct c; cbn; intros Hc; rewrite ?length_app; unfold e_u8; rewrite ?length_be_bytes; try lia; [rewrite Nat2Z.inj_add, encode_parent_length by done; lia|].
  destruct Hc as [Hp Hc%encode_cas_length]. rewrite !Nat2Z.inj_add, encode_parent_length by done. lia.
Qed.
Lemma encode_state_length s : state_typed s -> zlen (encode_state s) <= 2608.
Proof.
  destruct s; cbn; intros Hs; rewrite ?length_app, ?Nat2Z.inj_add; unfold e_u8; rewrite ?length_be_bytes; try lia.
  - rewrite encode_parent_length by done. lia.
  - destruct Hs as [Hp Hc%encode_cas_length]. rewrite encode_parent_length by done. lia.
  - destruct Hs as (Hc%encode_checkpoint_length & He%encode_evidence_length & _). lia.
  - destruct Hs as (Hc%encode_checkpoint_length & He%encode_evidence_length & _). lia.
  - destruct Hs as [Hp Hc%encode_cas_length]. rewrite encode_parent_length by done. lia.
Qed.

Lemma encode_job_length j : job_typed j -> zlen (encode_job_record j) <= BRANCH_HANDOFF_JOB_RECORD_LIMIT.
Proof.
  intros []. unfold encode_job_record, fixed, e_u64 in *. rewrite !length_app, !length_be_bytes, jt_job, jt_intent, jt_discussion, jt_parent, jt_digest, jt_turn.
  pose proof (encode_request_length _ jt_request). pose proof (encode_state_length _ jt_state). pose proof (e_text_length (jb_resolution j)) as Ht.
  destruct jt_resolution as [_ [_ Hr]%new_resolution_Ok]. unfold RESOLUTION_TEXT_MAX_BYTES in Hr. unfold BRANCH_HANDOFF_JOB_RECORD_LIMIT.
  assert (length (encode_context_owner (jb_context_owner_id j)) = 17%nat) as Ho by (destruct (jb_context_owner_id j); cbn in *; unfold e_u8; rewrite length_app, length_be_bytes; unfold fixed in *; lia).
  lia.
Qed.

(** C37: every job record of every reachable table can be stored and read back: its encoding is
    within the limit of the record and within the limits of the keys of its indices, and decoding
    it gives the record itself. *)
Theorem stored_jobs_decode st k j : rtc job_step empty_jobs st -> st_jobs st !! k = Some j ->
  zlen (encode_job_record j) <= BRANCH_HANDOFF_JOB_RECORD_LIMIT /\ decode_job_record (encode_job_record j) = Ok j
  /\ zlen (encode_request_key (RequestValue (jb_request j))) <= 1024 /\ decode_request_key (encode_request_key (RequestValue (jb_request j))) = Ok (RequestValue (jb_request j))
  /\ decode_request_value (encode_request_value (admission_from_job j)) = Ok (admission_from_job j)
  /\ decode_latest (encode_latest (latest_from_job j)) = Ok (latest_from_job j).
Proof.
  intros H Hj. pose proof (job_run_stored _ H _ _ Hj) as [Ht Hid]. pose proof Ht as [].
  split; [by apply encode_job_length|]. split; [by apply job_record_exact|].
  split; [cbn; rewrite length_app; pose proof (encode_request_length _ jt_request); unfold e_u8; rewrite length_be_bytes; lia|].
  split; [by apply request_key_run|].
  split; [by apply request_value_run|].
  by apply latest_run.
Qed.

(** ** Samples *)

Definition store_reader {E} (st : JobStore) : JobReader E :=
  mkJobReader (fun k => Ok (st_jobs st !! k)) (fun k => Ok (st_live st !! k)) (fun k => Ok (st_requests st !! k)) (fun k => Ok (st_attempts st !! k)) (fun k => Ok (st_latest st !! k)).
Lemma store_reader_reads {E} st : reads (E := E) (store_reader st) st.
Proof. done. Qed.

Definition sample_id (v : Z) : list byte := be_bytes 16 v.
Definition sample_job_admission (intent attempt : Z) : BranchHandoffJobAdmission :=
  mkJobAdmission (sample_id intent) attempt (sample_id 100) (sample_id 200) (OwnerDraft (sample_id 300)) (be_bytes 32 1) (sample_id 400)
    (mkRequest [x61] [x62] [byte_of (98 + intent)]) 7 [x61].
Lemma sample_job_admission_typed intent attempt : 1 <= intent <= 2 -> 1 <= attempt <= 2 -> admission_typed (sample_job_admission intent attempt).
Proof.
  intros Hi Ha. assert (intent = 1 \/ intent = 2) as Hc by lia. unfold sample_job_admission, sample_id.
  constructor; cbn [ja_intent_id ja_attempt_ordinal ja_discussion_thread_id ja_parent_thread_id ja_context_owner_id ja_context_digest ja_resolving_turn_id ja_request ja_parent_queue_ordinal ja_resolution];
    try (by unfold owner_valid, fixed; rewrite length_be_bytes).
  { unfold is_rev. lia. }
  2: done.
  2: by split.
  destruct Hc as [->| ->]; by repeat split.
Qed.

Definition commit_admission (a : BranchHandoffJobAdmission) (st : JobStore) : JobStore :=
  match prepare_admission (store_reader st) a with Ok job => write_admission job st | Err _ => st end.
Definition commit_command (c : job_command) (job_id : list byte) (expected : Z) (st : JobStore) : JobStore :=
  match prepare_command (store_reader st) c job_id expected with Ok job => contribute_command c job st | Err _ => st end.
Lemma commit_admission_run st0 st a : rtc job_step st0 st -> admission_typed a -> rtc job_step st0 (commit_admission a st).
Proof. intros H Hd. unfold commit_admission. destruct (prepare_admission _ _) as [job|] eqn:E; [|exact H]. eapply rtc_r; [exact H|]. by eapply step_admit; [apply reads_reads_of, store_reader_reads| |]. Qed.
Lemma commit_command_run st0 st c k r : rtc job_step st0 st -> transition_typed (command_transition c) -> rtc job_step st0 (commit_command c k r st).
Proof. intros H Hty. unfold commit_command. destruct (prepare_command _ _ _ _) as [job|] eqn:E; [|exact H]. eapply rtc_r; [exact H|]. by eapply step_command; [apply reads_reads_of, store_reader_reads| |]. Qed.

(** A job that failed for good, and the second attempt of its discussion. *)
Definition sample_first : JobStore := commit_admission (sample_job_admission 1 1) empty_jobs.
Definition sample_failed : JobStore := commit_command (RecordTerminalHandoffFailure (mkEvidence InvariantViolation None)) (sample_id 1) 1 sample_first.
Definition sample_second : JobStore := commit_admission (sample_job_admission 2 2) sample_failed.
Lemma sample_first_run : rtc job_step empty_jobs sample_first.
Proof. apply commit_admission_run; [apply rtc_refl|by apply sample_job_admission_typed]. Qed.
Lemma sample_failed_run : rtc job_step sample_first sample_failed.
Proof. apply commit_command_run; [apply rtc_refl|by repeat split]. Qed.
Lemma sample_second_run : rtc job_step sample_failed sample_second.
Proof. apply commit_admission_run; [apply rtc_refl|by apply sample_job_admission_typed]. Qed.
Lemma sample_job_run : rtc job_step empty_jobs sample_second.
Proof. etrans; [apply sample_first_run|]. etrans; [apply sample_failed_run|apply sample_second_run]. Qed.

Definition sample_attempts : list ((list byte * Z) * list byte) := [((sample_id 100, 1), sample_id 1); ((sample_id 100, 2), sample_id 2)].
Definition request_key (e : ResolutionRequestIdentity * ResolutionRequestAdmission) : RequestIndexKey * ResolutionRequestAdmission := (RequestValue e.1, e.2).
#[global] Instance request_key_eq_dec : EqDecision RequestIndexKey.
Proof. solve_decision. Defined.
Definition sample_cursors : JobCursors :=
  mkJobCursors (page_cursor 1 (map_to_list (st_jobs sample_second))) (page_cursor 1 (map_to_list (st_live sample_second)))
    (page_cursor 1 (request_key <$> map_to_list (st_requests sample_second))) (page_cursor 1 sample_attempts) (page_cursor 1 (map_to_list (st_latest sample_second))).

Lemma request_keys_distinct l : NoDup l.*1 -> NoDup (request_key <$> l).*1.
Proof.
  intros Hl. assert ((request_key <$> l).*1 = RequestValue <$> l.*1) as -> by (clear Hl; induction l as [|[r a] l IH]; cbn; by rewrite ?IH).
  apply NoDup_fmap_2; [|done]. intros r r' E. by injection E.
Qed.

Lemma sample_served : served sample_cursors sample_second 3.
Proof.
  split; cbn.
  - exists (map_to_list (st_jobs sample_second)). split; [apply map_to_list_lists|]. split; [apply page_cursor_serves; [lia|apply NoDup_fst_map_to_list]|by vm_compute; lia].
  - exists (map_to_list (st_live sample_second)). split; [apply map_to_list_lists|]. split; [apply page_cursor_serves; [lia|apply NoDup_fst_map_to_list]|by vm_compute; lia].
  - exists (map_to_list (st_requests sample_second)). split; [apply map_to_list_lists|]. split; [|by vm_compute; lia]. apply page_cursor_serves; [lia|].
    apply request_keys_distinct, NoDup_fst_map_to_list.
  - exists sample_attempts. assert (NoDup sample_attempts.*1) as Hn by (apply (bool_decide_eq_true_1 _); by vm_compute). split; [|split; [by apply page_cursor_serves; [lia|]|split; [cbn; lia|]]].
    + intros k v. assert (st_attempts sample_second = list_to_map sample_attempts) as -> by (apply (bool_decide_eq_true_1 _); vm_compute; reflexivity). by apply elem_of_list_to_map.
    + repeat constructor.
  - exists (map_to_list (st_latest sample_second)). split; [apply map_to_list_lists|]. split; [apply page_cursor_serves; [lia|apply NoDup_fst_map_to_list]|by vm_compute; lia].
Qed.

Lemma validate_accepts_jobs_ok_witness : validate (store_reader sample_second) 3 sample_cursors = Some (Ok tt).
Proof.
  destruct (job_run_keeps _ _ sample_job_run (proj1 empty_jobs_ok) (proj2 empty_jobs_ok)) as [Hok Ht].
  exact (proj2 (settles_Ok _ _ _ (validate_accepts_jobs_ok (store_reader sample_second) sample_second sample_cursors 3 (store_reader_reads _) Ht sample_served)) Hok).
Defined.

Lemma job_tables_reachable_witness : jobs_ok sample_second /\ st_live sample_second !! sample_id 2 = Some (initial_job (sample_job_admission 2 2)).
Proof. split; [exact (proj1 (job_tables_reachable sample_second sample_job_run))|by vm_compute]. Defined.

Lemma job_history_witness : exists j', st_jobs sample_second !! sample_id 1 = Some j' /\ rtc edge WaitingResolvingTurn (jb_state j').
Proof.
  destruct (job_history sample_first sample_second (sample_id 1) (initial_job (sample_job_admission 1 1)) sample_first_run) as (j' & Hj & _ & Hp & _).
  - etrans; [apply sample_failed_run|apply sample_second_run].
  - by vm_compute.
  - by exists j'.
Defined.

(** A job of another discussion, and a transition of the first job prepared before it is admitted. *)
Definition other_admission : BranchHandoffJobAdmission :=
  mkJobAdmission (sample_id 3) 1 (sample_id 101) (sample_id 200) (OwnerDraft (sample_id 300)) (be_bytes 32 1) (sample_id 400) (mkRequest [x61] [x62] [x65]) 8 [x61].
Lemma other_admission_typed : admission_typed other_admission.
Proof.
  pose proof (sample_job_admission_typed 1 1 ltac:(lia) ltac:(lia)) as [A1 A2 A3 A4 A5 A6 A7 A8 A9 A10]. split; cbn in *; try done; try (by unfold fixed, sample_id; rewrite length_be_bytes).
Qed.
Definition domain_first : JobDomain := mkJobDomain 2 sample_first.
Definition domain_other : JobDomain := mkJobDomain 3 (commit_admission other_admission sample_first).
Definition sample_prepared : PreparedHandoffJobTransition :=
  let job := initial_job (sample_job_admission 1 1) in mkPreparedTransition 2 (mkTransitionWitness [] job (with_job_state job WaitingParent 2)).
Definition domain_done : JobDomain := mkJobDomain 3 (contribute_transition (tw_new (pt_witness sample_prepared)) sample_first).

Lemma admission_domain_step r st a : is_ok (prepare_admission (store_reader st) a) = true -> admission_typed a -> r + 1 <= U64_MAX ->
  domain_step (mkJobDomain r st) (mkJobDomain (r + 1) (commit_admission a st)).
Proof.
  intros Hok Ha Hr. unfold commit_admission. destruct (prepare_admission _ _) as [job|] eqn:E; [|done]. constructor; [|done].
  eapply step_admit; [apply reads_reads_of, store_reader_reads|exact Ha|exact E].
Qed.
Lemma reads_during_one {E} (reader : JobReader E) d : reads_of reader (jd_tables d) -> reads_during reader d d.
Proof. intros [H1 H2 H3 H4 H5]. split; intros k o Ho; exists d; (split; [apply rtc_refl|]); (split; [apply rtc_refl|]); auto. Qed.
Lemma first_run : rtc domain_step (mkJobDomain 1 empty_jobs) domain_first.
Proof. apply rtc_once, (admission_domain_step 1); [by vm_compute|by apply sample_job_admission_typed|lia]. Qed.
Lemma other_run : rtc domain_step domain_first domain_other.
Proof. apply rtc_once, (admission_domain_step 2); [by vm_compute|apply other_admission_typed|lia]. Qed.

Lemma transition_commits_once_witness :
  handoff_job_status (store_reader (jd_tables domain_other)) [] (Ok 3) (Ok 3) (pt_witness sample_prepared) = Ok ExactOld
  /\ execute_transition (store_reader (jd_tables domain_other)) domain_other sample_prepared = Err (DomainConflict 2 3)
  /\ execute_transition (store_reader sample_first) domain_first sample_prepared = Ok domain_done
  /\ execute_transition (store_reader (jd_tables domain_done)) domain_done sample_prepared = Err (DomainConflict 2 3).
Proof.
  assert (Hp : prepare_transition (store_reader sample_first) [] (Ok 2) (Ok 2) (sample_id 1) 1 TrCompleteResolving = Ok sample_prepared) by (by vm_compute).
  assert (Hr : reads_during (E := DurableJobMutationError) (store_reader sample_first) domain_first domain_first) by (apply reads_during_one, reads_reads_of, store_reader_reads).
  destruct (transition_commits_once 1 domain_first domain_first domain_other (store_reader sample_first) (store_reader (jd_tables domain_other)) [] (sample_id 1) 1 TrCompleteResolving
    sample_prepared ltac:(lia) first_run (rtc_refl _ _) Hr I Hp other_run (store_reader_reads _)) as (_ & H1 & _ & _ & H2 & _).
  destruct (transition_commits_once 1 domain_first domain_first domain_first (store_reader sample_first) (store_reader sample_first) [] (sample_id 1) 1 TrCompleteResolving
    sample_prepared ltac:(lia) first_run (rtc_refl _ _) Hr I Hp (rtc_refl _ _) (store_reader_reads _)) as (_ & _ & _ & H3 & _ & H4).
  assert (Hd : execute_transition (store_reader sample_first) domain_first sample_prepared = Ok domain_done) by (apply H3; [reflexivity|cbn; lia]).
  split; [exact H1|]. split; [exact (H2 ltac:(discriminate))|]. split; [exact Hd|].
  exact (proj2 (proj2 (H4 domain_done domain_done (store_reader (jd_tables domain_done)) Hd (rtc_refl _ _) (store_reader_reads _)))).
Defined.

Lemma job_successor_exact_witness : job_successor TrCompleteResolving (initial_job (sample_job_admission 1 1)) = Ok (tw_new (pt_witness sample_prepared)).
Proof. apply job_successor_exact; [done|]. split; [done|]. exists WaitingParent. split; [constructor|done]. Defined.

Lemma reuse_guard_exact_witness : exists g, thread_reuse_guard (store_reader sample_failed) (sample_id 100) = Ok (Some g) /\ validate_guard (store_reader sample_second) g <> Ok tt.
Proof.
  destruct (reuse_guard_exact sample_failed sample_second (store_reader sample_failed) (store_reader sample_second) (sample_id 100)) as [[H _]|(g & Hg & _ & Hiff & _)].
  - etrans; [apply sample_first_run|apply sample_failed_run].
  - apply store_reader_reads.
  - apply sample_second_run.
  - apply store_reader_reads.
  - exfalso. vm_compute in H. discriminate H.
  - exists g. split; [done|]. intros H. apply Hiff in H. vm_compute in H. discriminate H.
Defined.

Lemma stored_jobs_decode_witness : exists bs, decode_job_record bs = Ok (initial_job (sample_job_admission 2 2)) /\ zlen bs <= BRANCH_HANDOFF_JOB_RECORD_LIMIT.
Proof.
  destruct (stored_jobs_decode sample_second (sample_id 2) (initial_job (sample_job_admission 2 2)) sample_job_run) as (H1 & H2 & _); [by vm_compute|]. by eexists.
Defined.
