(* ===== verification/RootModel.v ===== *)
(** * The registry of runtimes and roots

    [beryl-state/src/value.rs], [runtime_root.rs] and [runtime_root/{mutation,validate}.rs]: the
    configured runtimes and their roots, in six tables, the five mutations of them, the lookups
    through the indices and the validation of the domain.  A point read may fail. *)
From stdpp Require Import prelude gmap strings.
From S2P Require Import Prelude.
From S2P Require Import Bytes.
From S2P Require Import ModelIds.
From S2P Require Import ModelText.
From S2P Require Import BuildBudget.
From S2P Require Import Cursors.

(** ** Values *)

Inductive StateValueError := UnknownAvailabilityObserved | AvailabilityObservationMissing | ZeroRecordRevision | RevisionExhausted.

Definition INITIAL_RECORD_REVISION : Z := 1.
Definition new_record_revision (value : Z) : result StateValueError Z := ok_or ZeroRecordRevision (nonzero value).
Definition next_record_revision (revision : Z) : result StateValueError Z := ok_or RevisionExhausted (checked_add64 revision 1 ≫= nonzero).

Inductive UnavailableReason :=
  | NotFound | AccessDenied | EnvironmentUnavailable | BackendUnavailable | StoreUnavailable | OpenElsewhere | Unsupported | Invalid.
Inductive Availability := AvUnknown | AvAvailable | AvUnavailable (reason : UnavailableReason).
Record AvailabilitySnapshot := mkAvailability { av_availability : Availability; av_observed_at : option Z }.

#[global] Instance reason_eq_dec : EqDecision UnavailableReason.
Proof. solve_decision. Defined.
#[global] Instance availability_eq_dec : EqDecision Availability.
Proof. solve_decision. Defined.
#[global] Instance availability_snapshot_eq_dec : EqDecision AvailabilitySnapshot.
Proof. solve_decision. Defined.

Definition unknown_availability : AvailabilitySnapshot := mkAvailability AvUnknown None.
Definition observed_availability (availability : Availability) (observed_at : Z) : result StateValueError AvailabilitySnapshot :=
  if bool_decide (availability = AvUnknown) then Err UnknownAvailabilityObserved else Ok (mkAvailability availability (Some observed_at)).
Definition availability_from_parts (availability : Availability) (observed_at : option Z) : result StateValueError AvailabilitySnapshot :=
  match availability, observed_at with
  | AvUnknown, None => Ok unknown_availability
  | AvUnknown, Some _ => Err UnknownAvailabilityObserved
  | _, None => Err AvailabilityObservationMissing
  | _, Some observed_at => observed_availability availability observed_at
  end.

Inductive RuntimeLaunchForm := StandaloneAppServer | CodexCli.

#[global] Instance launch_form_eq_dec : EqDecision RuntimeLaunchForm.
Proof. solve_decision. Defined.
#[global] Instance runtime_mode_eq_dec : EqDecision RuntimeMode.
Proof. solve_decision. Defined.
#[global] Instance host_path_eq_dec : EqDecision AdmittedHostPath.
Proof. solve_decision. Defined.
#[global] Instance native_path_eq_dec : EqDecision RuntimeNativePath.
Proof. solve_decision. Defined.
#[global] Instance path_flavor_countable : Countable PathFlavor.
Proof. refine (inj_countable' (fun f => match f with Windows => true | Posix => false end) (fun b : bool => if b then Windows else Posix) _). by intros []. Defined.
#[global] Instance host_path_countable : Countable AdmittedHostPath.
Proof. refine (inj_countable' (fun p => (host_flavor p, host_value p)) (fun p => mkHostPath p.1 p.2) _). by intros []. Defined.
#[global] Instance runtime_mode_countable : Countable RuntimeMode.
Proof. refine (inj_countable' (fun m => match m with Host => None | Wsl n => Some n end) (fun o : option (list byte) => match o with None => Host | Some n => Wsl n end) _). by intros []. Defined.
#[global] Instance native_path_countable : Countable RuntimeNativePath.
Proof. refine (inj_countable' (fun p => (path_mode p, path_flavor p, path_value p)) (fun p => mkNativePath p.1.1 p.1.2 p.2) _). by intros []. Defined.

(** ** Records *)

(** The label of an environment: ["Host"], or the name of the distribution. *)
Definition environment_label (mode : RuntimeMode) : list byte := match mode with Host => bytes_of_string "Host" | Wsl name => name end.

Record RuntimeRegistration := mkRuntimeRegistration {
  rr_runtime_id : list byte;
  rr_canonical_executable : AdmittedHostPath;
  rr_mode : RuntimeMode;
  rr_launch_form : RuntimeLaunchForm;
  rr_native_executable : RuntimeNativePath;
  rr_environment_label : list byte;
  rr_created_at : Z;
  rr_availability : AvailabilitySnapshot
}.
Record RootRegistration := mkRootRegistration {
  rg_root_id : list byte;
  rg_canonical_path : RuntimeNativePath;
  rg_display_path : AdmittedHostPath;
  rg_created_at : Z;
  rg_availability : AvailabilitySnapshot
}.

Record RuntimeRecord := mkRuntime {
  rt_runtime_id : list byte;
  rt_canonical_executable : AdmittedHostPath;
  rt_mode : RuntimeMode;
  rt_launch_form : RuntimeLaunchForm;
  rt_native_executable : RuntimeNativePath;
  rt_environment_label : list byte;
  rt_created_at : Z;
  rt_availability : AvailabilitySnapshot;
  rt_revision : Z
}.
Record RootRecord := mkRoot {
  ro_root_id : list byte;
  ro_runtime_id : list byte;
  ro_canonical_path : RuntimeNativePath;
  ro_display_path : AdmittedHostPath;
  ro_non_removable : bool;
  ro_created_at : Z;
  ro_availability : AvailabilitySnapshot;
  ro_last_activity_at : option Z;
  ro_revision : Z
}.
#[global] Instance runtime_record_eq_dec : EqDecision RuntimeRecord.
Proof. solve_decision. Defined.
#[global] Instance root_record_eq_dec : EqDecision RootRecord.
Proof. solve_decision. Defined.

Inductive RuntimeRootMutationError :=
  | RootRead
  | RootBuild
  | RootValue (e : StateValueError)
  | RuntimeModeMismatch
  | RuntimeIdExists (runtime_id : list byte)
  | ExecutableExists (runtime_id : list byte)
  | RuntimeMissing (runtime_id : list byte)
  | RootIdExists (root_id : list byte)
  | RootPathExists (root_id : list byte)
  | RootMissing (root_id : list byte)
  | RecordRevisionConflict (kind : string) (expected current : Z)
  | RootActivityNotLater.

(** [RuntimeRegistration::new] *)
Definition new_runtime_registration (runtime_id : list byte) (canonical_executable : AdmittedHostPath) (mode : RuntimeMode) (launch_form : RuntimeLaunchForm)
    (native_executable : RuntimeNativePath) (created_at : Z) (availability : AvailabilitySnapshot) : result RuntimeRootMutationError RuntimeRegistration :=
  if negb (bool_decide (path_mode native_executable = mode)) then Err RuntimeModeMismatch
  else Ok (mkRuntimeRegistration runtime_id canonical_executable mode launch_form native_executable (environment_label mode) created_at availability).

Definition initial_runtime (r : RuntimeRegistration) : RuntimeRecord :=
  mkRuntime (rr_runtime_id r) (rr_canonical_executable r) (rr_mode r) (rr_launch_form r) (rr_native_executable r) (rr_environment_label r) (rr_created_at r) (rr_availability r) INITIAL_RECORD_REVISION.
Definition initial_root_record (runtime_id : list byte) (r : RootRegistration) (non_removable : bool) : RootRecord :=
  mkRoot (rg_root_id r) runtime_id (rg_canonical_path r) (rg_display_path r) non_removable (rg_created_at r) (rg_availability r) None INITIAL_RECORD_REVISION.

Definition with_runtime_availability (r : RuntimeRecord) (availability : AvailabilitySnapshot) (revision : Z) : RuntimeRecord :=
  mkRuntime (rt_runtime_id r) (rt_canonical_executable r) (rt_mode r) (rt_launch_form r) (rt_native_executable r) (rt_environment_label r) (rt_created_at r) availability revision.
Definition with_root_observation (r : RootRecord) (availability : AvailabilitySnapshot) (last_activity_at : option Z) (revision : Z) : RootRecord :=
  mkRoot (ro_root_id r) (ro_runtime_id r) (ro_canonical_path r) (ro_display_path r) (ro_non_removable r) (ro_created_at r) availability last_activity_at revision.

(** ** Tables *)

Record RootStore := mkRootStore {
  rs_runtimes : gmap (list byte) RuntimeRecord;
  rs_executables : gmap AdmittedHostPath (list byte);
  rs_roots : gmap (list byte * list byte) RootRecord;
  rs_root_ids : gmap (list byte) (list byte);
  rs_root_paths : gmap (list byte * RuntimeNativePath) (list byte);
  rs_home_roots : gmap (list byte) (list byte)
}.

Record RootReader (E : Type) := mkRootReader {
  get_runtime : list byte -> result E (option RuntimeRecord);
  get_executable : AdmittedHostPath -> result E (option (list byte));
  get_root : list byte * list byte -> result E (option RootRecord);
  get_root_id : list byte -> result E (option (list byte));
  get_root_path : list byte * RuntimeNativePath -> result E (option (list byte));
  get_home_root : list byte -> result E (option (list byte))
}.
Arguments mkRootReader {E}.
Arguments get_runtime {E}.
Arguments get_executable {E}.
Arguments get_root {E}.
Arguments get_root_id {E}.
Arguments get_root_path {E}.
Arguments get_home_root {E}.

(** ** Mutations *)

Section Mutations.
Abbreviation root_result := (result RuntimeRootMutationError).
Context (reader : RootReader RuntimeRootMutationError).

Definition of_state_value {A} (r : result StateValueError A) : root_result A := match r with Ok a => Ok a | Err e => Err (RootValue e) end.

Definition ensure_runtime_missing (runtime : RuntimeRegistration) : root_result unit :=
  existing ← get_runtime reader (rr_runtime_id runtime);
  if bool_decide (is_Some existing) then Err (RuntimeIdExists (rr_runtime_id runtime))
  else
    indexed ← get_executable reader (rr_canonical_executable runtime);
    match indexed with Some runtime_id => Err (ExecutableExists runtime_id) | None => Ok tt end.

Definition ensure_root_missing (runtime_id : list byte) (root : RootRegistration) : root_result unit :=
  existing ← get_root_id reader (rg_root_id root);
  if bool_decide (is_Some existing) then Err (RootIdExists (rg_root_id root))
  else
    indexed ← get_root_path reader (runtime_id, rg_canonical_path root);
    match indexed with Some root_id => Err (RootPathExists root_id) | None => Ok tt end.

Definition required_runtime (runtime_id : list byte) : root_result RuntimeRecord :=
  runtime ← get_runtime reader runtime_id; ok_or (RuntimeMissing runtime_id) runtime.
Definition required_root (root_id : list byte) : root_result RootRecord :=
  runtime_id ← get_root_id reader root_id;
  runtime_id ← ok_or (RootMissing root_id) runtime_id;
  root ← get_root reader (runtime_id, root_id);
  ok_or (RootMissing root_id) root.
Definition ensure_record_revision (kind : string) (expected current : Z) : root_result unit :=
  if expected =? current then Ok tt else Err (RecordRevisionConflict kind expected current).

(** [CreateRuntimeWithHomeRoot::new], then [prepare] *)
Definition new_create (runtime : RuntimeRegistration) (home_root : RootRegistration) : root_result (RuntimeRegistration * RootRegistration) :=
  if negb (bool_decide (path_mode (rg_canonical_path home_root) = rr_mode runtime)) then Err RuntimeModeMismatch else Ok (runtime, home_root).
Definition prepare_create (runtime : RuntimeRegistration) (home_root : RootRegistration) : root_result (RuntimeRecord * RootRecord) :=
  _ ← ensure_runtime_missing runtime;
  _ ← ensure_root_missing (rr_runtime_id runtime) home_root;
  home ← get_home_root reader (rr_runtime_id runtime);
  if bool_decide (is_Some home) then Err (RuntimeIdExists (rr_runtime_id runtime))
  else Ok (initial_runtime runtime, initial_root_record (rr_runtime_id runtime) home_root true).

(** [AddConfiguredRoot::prepare] *)
Definition prepare_add (runtime_id : list byte) (root : RootRegistration) : root_result RootRecord :=
  runtime ← required_runtime runtime_id;
  if negb (bool_decide (path_mode (rg_canonical_path root) = rt_mode runtime)) then Err RuntimeModeMismatch
  else _ ← ensure_root_missing runtime_id root; Ok (initial_root_record runtime_id root false).

(** [SetRuntimeAvailability::prepare] *)
Definition prepare_runtime_availability (runtime_id : list byte) (expected : Z) (availability : AvailabilitySnapshot) : root_result RuntimeRecord :=
  runtime ← required_runtime runtime_id;
  _ ← ensure_record_revision "runtime" expected (rt_revision runtime);
  revision ← of_state_value (next_record_revision (rt_revision runtime));
  Ok (with_runtime_availability runtime availability revision).

(** [SetRootAvailability::prepare] *)
Definition prepare_root_availability (root_id : list byte) (expected : Z) (availability : AvailabilitySnapshot) : root_result RootRecord :=
  root ← required_root root_id;
  _ ← ensure_record_revision "root" expected (ro_revision root);
  revision ← of_state_value (next_record_revision (ro_revision root));
  Ok (with_root_observation root availability (ro_last_activity_at root) revision).

(** [RootActivityUpdate::prepare] *)
Definition prepare_root_activity (root_id : list byte) (expected last_activity_at : Z) : root_result RootRecord :=
  root ← required_root root_id;
  _ ← ensure_record_revision "root" expected (ro_revision root);
  if match ro_last_activity_at root with Some current => last_activity_at <=? current | None => false end then Err RootActivityNotLater
  else
    revision ← of_state_value (next_record_revision (ro_revision root));
    Ok (with_root_observation root (ro_availability root) (Some last_activity_at) revision).
End Mutations.

(** What the mutations write. *)
Definition put_runtime (r : RuntimeRecord) (st : RootStore) : RootStore :=
  mkRootStore (<[rt_runtime_id r := r]> (rs_runtimes st)) (rs_executables st) (rs_roots st) (rs_root_ids st) (rs_root_paths st) (rs_home_roots st).
Definition put_root (r : RootRecord) (st : RootStore) : RootStore :=
  mkRootStore (rs_runtimes st) (rs_executables st) (<[(ro_runtime_id r, ro_root_id r) := r]> (rs_roots st)) (rs_root_ids st) (rs_root_paths st) (rs_home_roots st).
(** [AddConfiguredRoot::contribute] *)
Definition contribute_add (r : RootRecord) (st : RootStore) : RootStore :=
  mkRootStore (rs_runtimes st) (rs_executables st) (<[(ro_runtime_id r, ro_root_id r) := r]> (rs_roots st)) (<[ro_root_id r := ro_runtime_id r]> (rs_root_ids st))
    (<[(ro_runtime_id r, ro_canonical_path r) := ro_root_id r]> (rs_root_paths st)) (rs_home_roots st).
(** [CreateRuntimeWithHomeRoot::contribute] *)
Definition contribute_create (runtime : RuntimeRecord) (root : RootRecord) (st : RootStore) : RootStore :=
  mkRootStore (<[rt_runtime_id runtime := runtime]> (rs_runtimes st)) (<[rt_canonical_executable runtime := rt_runtime_id runtime]> (rs_executables st))
    (<[(ro_runtime_id root, ro_root_id root) := root]> (rs_roots st)) (<[ro_root_id root := ro_runtime_id root]> (rs_root_ids st))
    (<[(ro_runtime_id root, ro_canonical_path root) := ro_root_id root]> (rs_root_paths st)) (<[rt_runtime_id runtime := ro_root_id root]> (rs_home_roots st)).

(** ** Lookups *)

Section Lookups.
Context {E : Type} (reader : RootReader E).
Definition root_of (root_id : list byte) : result E (option RootRecord) :=
  runtime_id ← get_root_id reader root_id;
  match runtime_id with None => Ok None | Some runtime_id => get_root reader (runtime_id, root_id) end.
Definition runtime_by_executable (canonical_executable : AdmittedHostPath) : result E (option RuntimeRecord) :=
  runtime_id ← get_executable reader canonical_executable;
  match runtime_id with None => Ok None | Some runtime_id => get_runtime reader runtime_id end.
Definition root_by_path (runtime_id : list byte) (canonical_path : RuntimeNativePath) : result E (option RootRecord) :=
  root_id ← get_root_path reader (runtime_id, canonical_path);
  match root_id with None => Ok None | Some root_id => root_of root_id end.
End Lookups.

(** ** Validation *)

Inductive RuntimeRootValidationError := RootValidationRead | RootInvariant (message : string).
Inductive ExecutableKey := ExecutableLower | ExecutableValue (path : AdmittedHostPath) | ExecutableUpper.
Inductive RootPathKey := RootPathLower | RootPathValue (runtime_id : list byte) (path : RuntimeNativePath) | RootPathUpper.
#[global] Instance executable_key_eq_dec : EqDecision ExecutableKey.
Proof. solve_decision. Defined.
#[global] Instance root_path_key_eq_dec : EqDecision RootPathKey.
Proof. solve_decision. Defined.

Section RootValidation.
Abbreviation validation := (result RuntimeRootValidationError).
Context (reader : RootReader RuntimeRootValidationError).
Definition root_invariant {A} (message : string) : validation A := Err (RootInvariant message).

Definition visit_runtime (entry : list byte * RuntimeRecord) : validation unit :=
  let '(key, runtime) := entry in
  if negb (bool_decide (key = rt_runtime_id runtime)) then root_invariant "runtime record key does not match its identity"
  else
    indexed ← get_executable reader (rt_canonical_executable runtime);
    if negb (bool_decide (indexed = Some (rt_runtime_id runtime))) then root_invariant "runtime executable index is missing or inconsistent"
    else
      home_root ← get_home_root reader (rt_runtime_id runtime);
      home_root ← ok_or (RootInvariant "runtime has no non-removable home-root index") home_root;
      root_runtime ← get_root_id reader home_root;
      if negb (bool_decide (root_runtime = Some (rt_runtime_id runtime))) then root_invariant "runtime home-root identity index is inconsistent"
      else
        root ← get_root reader (rt_runtime_id runtime, home_root);
        if negb (match root with Some root => ro_non_removable root | None => false end) then root_invariant "runtime home-root index does not name a non-removable root" else Ok tt.

Definition visit_root (entry : (list byte * list byte) * RootRecord) : validation unit :=
  let '(key, root) := entry in
  if negb (bool_decide (key.1 = ro_runtime_id root)) || negb (bool_decide (key.2 = ro_root_id root)) then root_invariant "root record key does not match its identities"
  else
    runtime ← get_runtime reader (ro_runtime_id root);
    runtime ← ok_or (RootInvariant "root references a missing runtime") runtime;
    if negb (bool_decide (path_mode (ro_canonical_path root) = rt_mode runtime)) then root_invariant "root path mode differs from its runtime mode"
    else
      owner ← get_root_id reader (ro_root_id root);
      if negb (bool_decide (owner = Some (ro_runtime_id root))) then root_invariant "root identity index is missing or inconsistent"
      else
        indexed ← get_root_path reader (ro_runtime_id root, ro_canonical_path root);
        if negb (bool_decide (indexed = Some (ro_root_id root))) then root_invariant "root path index is missing or inconsistent"
        else
          home_root ← get_home_root reader (ro_runtime_id root);
          if negb (Bool.eqb (ro_non_removable root) (bool_decide (home_root = Some (ro_root_id root)))) then root_invariant "root non-removable state disagrees with home-root index" else Ok tt.

Definition visit_executable (entry : ExecutableKey * list byte) : validation unit :=
  let '(key, runtime_id) := entry in
  runtime ← get_runtime reader runtime_id;
  runtime ← ok_or (RootInvariant "executable index references a missing runtime") runtime;
  if negb (bool_decide (key = ExecutableValue (rt_canonical_executable runtime))) then root_invariant "executable index key disagrees with runtime record" else Ok tt.

Definition visit_root_id (entry : list byte * list byte) : validation unit :=
  let '(root_id, runtime_id) := entry in
  root ← get_root reader (runtime_id, root_id);
  if negb (match root with Some root => bool_decide (ro_root_id root = root_id) && bool_decide (ro_runtime_id root = runtime_id) | None => false end)
  then root_invariant "root identity index references a missing or different root" else Ok tt.

Definition visit_root_path (entry : RootPathKey * list byte) : validation unit :=
  let '(key, root_id) := entry in
  runtime_id ← get_root_id reader root_id;
  runtime_id ← ok_or (RootInvariant "root path index references a missing root identity") runtime_id;
  root ← get_root reader (runtime_id, root_id);
  root ← ok_or (RootInvariant "root path index references a missing root") root;
  if negb (bool_decide (key = RootPathValue runtime_id (ro_canonical_path root))) then root_invariant "root path index key disagrees with root record" else Ok tt.

Definition visit_home_root (entry : list byte * list byte) : validation unit :=
  let '(runtime_id, root_id) := entry in
  runtime ← get_runtime reader runtime_id;
  if bool_decide (runtime = None) then root_invariant "home-root index references a missing runtime"
  else
    root ← get_root reader (runtime_id, root_id);
    if negb (match root with Some root => ro_non_removable root | None => false end) then root_invariant "home-root index references a missing or removable root" else Ok tt.

Record RootCursors := mkRootCursors {
  rc_runtimes : cursor RuntimeRootValidationError (list byte) RuntimeRecord;
  rc_roots : cursor RuntimeRootValidationError (list byte * list byte) RootRecord;
  rc_executables : cursor RuntimeRootValidationError ExecutableKey (list byte);
  rc_root_ids : cursor RuntimeRootValidationError (list byte) (list byte);
  rc_root_paths : cursor RuntimeRootValidationError RootPathKey (list byte);
  rc_home_roots : cursor RuntimeRootValidationError (list byte) (list byte)
}.

(** [scan] *)
Definition scan {K V} (fuel : nat) (read : cursor RuntimeRootValidationError K V) (visit : K * V -> validation unit) : panicky RuntimeRootValidationError unit :=
  page_loop fuel read (RootInvariant "bounded validation cursor reported more without a record") (stateless visit) None tt.
Definition validate_indexes (fuel : nat) (cursors : RootCursors) : panicky RuntimeRootValidationError unit :=
  _ ← scan fuel (rc_executables cursors) visit_executable;
  _ ← scan fuel (rc_root_ids cursors) visit_root_id;
  _ ← scan fuel (rc_root_paths cursors) visit_root_path;
  scan fuel (rc_home_roots cursors) visit_home_root.
Definition validate_roots (fuel : nat) (cursors : RootCursors) : panicky RuntimeRootValidationError unit :=
  _ ← scan fuel (rc_runtimes cursors) visit_runtime;
  _ ← scan fuel (rc_roots cursors) visit_root;
  validate_indexes fuel cursors.
End RootValidation.
