(* ===== verification/RootCodec.v ===== *)
(** * The registry of runtimes and roots: the record codecs

    [runtime_root/codec.rs] over the encoder and decoder of [beryl-state/src/encoding.rs]: keys
    and values of the six tables, the values that are typed, and that the codecs are exact. *)
From stdpp Require Import prelude gmap strings.
From S2P Require Import Prelude.
From S2P Require Import Bytes.
From S2P Require Import ModelIds.
From S2P Require Import ModelText.
From S2P Require Import SyndicValues.
From S2P Require Import SyndicParts.
From S2P Require Import CompactionCodec.
From S2P Require Import JobCodec.
From S2P Require Import RootModel.

Definition RUNTIME_RECORD_LIMIT : Z := 132 * 1024.
Definition ROOT_RECORD_LIMIT : Z := 132 * 1024.
(** [u16::MAX], the limit of the keys of two indices *)
Definition PATH_KEY_LIMIT : Z := 65535.

(** ** Parts *)

Definition encode_optional_time : option Z -> list byte := enc_opt e_u64.
Definition decode_optional_time : decoder (option Z) := dec_opt "optional time" d_u64.

Definition encode_runtime_mode (m : RuntimeMode) : list byte := match m with Host => e_u8 0 | Wsl name => e_u8 1 ++ e_text name end.
Definition decode_runtime_mode : decoder RuntimeMode :=
  tag ← d_u8;
  match tag with
  | 0 => mret Host
  | 1 => t ← d_text "WSL distribution name"; name ← checked "runtime mode" (wsl_distribution_name t); mret (Wsl name)
  | _ => refuse (InvalidTag "runtime mode" tag)
  end.

Definition encode_path_flavor (f : PathFlavor) : Z := match f with Windows => 0 | Posix => 1 end.
Definition decode_path_flavor (tag : Z) : option PathFlavor := match tag with 0 => Some Windows | 1 => Some Posix | _ => None end.
Abbreviation path_flavor_part := (dec_enum "path flavor" decode_path_flavor).

Definition encode_host_path (p : AdmittedHostPath) : list byte := enc_enum encode_path_flavor (host_flavor p) ++ e_text (host_value p).
Definition host_path_fields : decoder AdmittedHostPath := flavor ← path_flavor_part; value ← d_text "host path"; mret (mkHostPath flavor value).
Definition decode_host_path : decoder AdmittedHostPath := fields ← host_path_fields; checked "host path" (host_path (host_flavor fields) (host_value fields)).

Definition encode_runtime_path (p : RuntimeNativePath) : list byte := encode_runtime_mode (path_mode p) ++ enc_enum encode_path_flavor (path_flavor p) ++ e_text (path_value p).
Definition runtime_path_fields : decoder RuntimeNativePath :=
  mode ← decode_runtime_mode; flavor ← path_flavor_part; value ← d_text "runtime-native path"; mret (mkNativePath mode flavor value).
Definition decode_runtime_path : decoder RuntimeNativePath :=
  fields ← runtime_path_fields; checked "runtime-native path" (native_path (path_mode fields) (path_flavor fields) (path_value fields)).

Definition encode_unavailable_reason (r : UnavailableReason) : Z :=
  match r with
  | NotFound => 0 | AccessDenied => 1 | EnvironmentUnavailable => 2 | BackendUnavailable => 3
  | StoreUnavailable => 4 | OpenElsewhere => 5 | Unsupported => 6 | Invalid => 7
  end.
Definition decode_unavailable_reason (tag : Z) : option UnavailableReason :=
  match tag with
  | 0 => Some NotFound | 1 => Some AccessDenied | 2 => Some EnvironmentUnavailable | 3 => Some BackendUnavailable
  | 4 => Some StoreUnavailable | 5 => Some OpenElsewhere | 6 => Some Unsupported | 7 => Some Invalid
  | _ => None
  end.

Definition encode_availability_tag (a : Availability) : list byte :=
  match a with AvUnknown => e_u8 0 | AvAvailable => e_u8 1 | AvUnavailable reason => e_u8 2 ++ enc_enum encode_unavailable_reason reason end.
Definition decode_availability_tag : decoder Availability :=
  tag ← d_u8;
  match tag with
  | 0 => mret AvUnknown
  | 1 => mret AvAvailable
  | 2 => AvUnavailable <$> dec_enum "unavailable reason" decode_unavailable_reason
  | _ => refuse (InvalidTag "availability" tag)
  end.
Definition encode_availability (s : AvailabilitySnapshot) : list byte := encode_availability_tag (av_availability s) ++ encode_optional_time (av_observed_at s).
Definition availability_fields : decoder AvailabilitySnapshot := availability ← decode_availability_tag; observed_at ← decode_optional_time; mret (mkAvailability availability observed_at).
Definition decode_availability : decoder AvailabilitySnapshot :=
  fields ← availability_fields; checked "availability snapshot" (availability_from_parts (av_availability fields) (av_observed_at fields)).

Definition decode_record_revision : decoder Z := v ← d_u64; checked "record revision" (new_record_revision v).

Definition encode_launch_form (f : RuntimeLaunchForm) : list byte := e_u8 (match f with StandaloneAppServer => 0 | CodexCli => 1 end).
Definition decode_launch_form : decoder RuntimeLaunchForm :=
  tag ← d_u8;
  match tag with
  | 0 => mret StandaloneAppServer
  | 1 => mret CodexCli
  | _ => refuse (InvalidValue "runtime/root record")
  end.

(** ** Records *)

Definition encode_runtime_record (r : RuntimeRecord) : list byte :=
  rt_runtime_id r ++ encode_host_path (rt_canonical_executable r) ++ encode_runtime_mode (rt_mode r) ++ encode_launch_form (rt_launch_form r)
  ++ encode_runtime_path (rt_native_executable r) ++ e_text (rt_environment_label r) ++ e_u64 (rt_created_at r) ++ encode_availability (rt_availability r) ++ e_u64 (rt_revision r).
Definition decode_runtime_fields : decoder RuntimeRecord :=
  runtime_id ← d_fixed16; canonical_executable ← decode_host_path; mode ← decode_runtime_mode; launch_form ← decode_launch_form; native_executable ← decode_runtime_path;
  environment_label ← d_text "runtime environment label"; created_at ← d_u64; availability ← decode_availability; revision ← decode_record_revision;
  mret (mkRuntime runtime_id canonical_executable mode launch_form native_executable environment_label created_at availability revision).
(** The mode and the label are checked behind the trailing bytes. *)
Definition decode_runtime_record (bs : list byte) : result CodecError RuntimeRecord :=
  runtime ← run_decoder decode_runtime_fields bs;
  if negb (bool_decide (path_mode (rt_native_executable runtime) = rt_mode runtime)) then Err (InvalidValue "runtime/root record")
  else if negb (bool_decide (rt_environment_label runtime = environment_label (rt_mode runtime))) then Err (InvalidValue "runtime/root record")
  else Ok runtime.

Definition encode_root_record (r : RootRecord) : list byte :=
  ro_root_id r ++ ro_runtime_id r ++ encode_runtime_path (ro_canonical_path r) ++ encode_host_path (ro_display_path r) ++ enc_bool (ro_non_removable r)
  ++ e_u64 (ro_created_at r) ++ encode_availability (ro_availability r) ++ encode_optional_time (ro_last_activity_at r) ++ e_u64 (ro_revision r).
Definition decode_root_fields : decoder RootRecord :=
  root_id ← d_fixed16; runtime_id ← d_fixed16; canonical_path ← decode_runtime_path; display_path ← decode_host_path; non_removable ← dec_bool "non-removable root";
  created_at ← d_u64; availability ← decode_availability; last_activity_at ← decode_optional_time; revision ← decode_record_revision;
  mret (mkRoot root_id runtime_id canonical_path display_path non_removable created_at availability last_activity_at revision).
Definition decode_root_record (bs : list byte) : result CodecError RootRecord := run_decoder decode_root_fields bs.

(** ** Keys *)

Definition decode_runtime_id : list byte -> result CodecError (list byte) := decode_identity "runtime identity".
Definition decode_root_id : list byte -> result CodecError (list byte) := decode_identity "root identity".

Definition encode_root_key (k : list byte * list byte) : list byte := k.1 ++ k.2.
Definition decode_root_key (bs : list byte) : result CodecError (list byte * list byte) :=
  if negb (length bs =? 32)%nat then Err (InvalidLength "runtime/root key")
  else runtime_id ← decode_runtime_id (take 16 bs); root_id ← decode_root_id (drop 16 bs); Ok (runtime_id, root_id).

Definition encode_executable_key (k : ExecutableKey) : list byte :=
  match k with ExecutableLower => e_u8 0 | ExecutableValue path => e_u8 1 ++ encode_host_path path | ExecutableUpper => e_u8 255 end.
Definition executable_key_part : decoder ExecutableKey :=
  tag ← d_u8;
  if tag =? 0 then mret ExecutableLower else if tag =? 1 then ExecutableValue <$> decode_host_path else if tag =? 255 then mret ExecutableUpper
  else refuse (InvalidTag "executable index key" tag).
Definition decode_executable_key (bs : list byte) : result CodecError ExecutableKey := run_decoder executable_key_part bs.
Definition validate_stored_executable (k : ExecutableKey) : result CodecError unit :=
  match k with ExecutableValue _ => Ok tt | ExecutableLower | ExecutableUpper => Err (InvalidValue "runtime/root record") end.

Definition encode_root_path_key (k : RootPathKey) : list byte :=
  match k with RootPathLower => e_u8 0 | RootPathValue runtime_id path => e_u8 1 ++ runtime_id ++ encode_runtime_path path | RootPathUpper => e_u8 255 end.
Definition root_path_key_part : decoder RootPathKey :=
  tag ← d_u8;
  if tag =? 0 then mret RootPathLower
  else if tag =? 1 then runtime_id ← d_fixed16; path ← decode_runtime_path; mret (RootPathValue runtime_id path)
  else if tag =? 255 then mret RootPathUpper
  else refuse (InvalidTag "root path index key" tag).
Definition decode_root_path_key (bs : list byte) : result CodecError RootPathKey := run_decoder root_path_key_part bs.
Definition validate_stored_root_path (k : RootPathKey) : result CodecError unit :=
  match k with RootPathValue _ _ => Ok tt | RootPathLower | RootPathUpper => Err (InvalidValue "runtime/root record") end.

(** ** Typed values *)

Definition host_path_typed (p : AdmittedHostPath) : Prop := is_text (host_value p) /\ host_path (host_flavor p) (host_value p) = Ok p.
Definition native_path_typed (p : RuntimeNativePath) : Prop :=
  (mode_valid (path_mode p) /\ is_text (path_value p)) /\ native_path (path_mode p) (path_flavor p) (path_value p) = Ok p.
Definition availability_typed (s : AvailabilitySnapshot) : Prop :=
  opt_valid is_u64 (av_observed_at s) /\ availability_from_parts (av_availability s) (av_observed_at s) = Ok s.

Record runtime_typed (r : RuntimeRecord) : Prop := mkRuntimeTyped {
  ty_runtime_id : fixed 16 (rt_runtime_id r);
  ty_executable : host_path_typed (rt_canonical_executable r);
  ty_mode : mode_valid (rt_mode r);
  ty_native : native_path_typed (rt_native_executable r);
  ty_label : is_text (rt_environment_label r);
  ty_runtime_created : is_u64 (rt_created_at r);
  ty_runtime_availability : availability_typed (rt_availability r);
  ty_runtime_revision : is_rev (rt_revision r)
}.
Definition runtime_stored (r : RuntimeRecord) : Prop :=
  runtime_typed r /\ path_mode (rt_native_executable r) = rt_mode r /\ rt_environment_label r = environment_label (rt_mode r).
Record root_typed (r : RootRecord) : Prop := mkRootTyped {
  ty_root_id : fixed 16 (ro_root_id r);
  ty_root_runtime : fixed 16 (ro_runtime_id r);
  ty_path : native_path_typed (ro_canonical_path r);
  ty_display : host_path_typed (ro_display_path r);
  ty_root_created : is_u64 (ro_created_at r);
  ty_root_availability : availability_typed (ro_availability r);
  ty_activity : opt_valid is_u64 (ro_last_activity_at r);
  ty_root_revision : is_rev (ro_revision r)
}.

(** ** Exactness *)

#[global] Instance optional_time_exact : Exact (opt_valid is_u64) encode_optional_time decode_optional_time.
Proof. apply _. Qed.
#[global] Instance runtime_mode_exact : Exact mode_valid encode_runtime_mode decode_runtime_mode.
Proof.
  intros bs m rest. unfold decode_runtime_mode. split.
  - intros Hd. part_inv Hd. tag_cases x; [by apply ret_Ok in Hd as [-> ->]|]. do 2 part_inv Hd. apply ret_Ok in Hd as [-> ->].
    match goal with Hn : wsl_distribution_name _ = Ok _ |- _ => pose proof (wsl_name_same _ _ Hn) as Es; rewrite Es in * end. split; [done|]. cbn. by rewrite <- app_assoc.
  - intros [Hm ->]. destruct m as [|name]; cbn [encode_runtime_mode]; [run_part; done|]. destruct Hm as [Ht Hn]. run_part. run_part. rewrite Hn. done.
Qed.
#[global] Instance path_flavor_exact : Exact any (enc_enum encode_path_flavor) path_flavor_part.
Proof. enum_tags. Qed.
#[global] Instance unavailable_exact : Exact any (enc_enum encode_unavailable_reason) (dec_enum "unavailable reason" decode_unavailable_reason).
Proof. enum_tags. Qed.
#[global] Instance launch_form_exact : Exact any encode_launch_form decode_launch_form.
Proof.
  intros bs v rest. unfold decode_launch_form. split.
  - intros Hd. part_inv Hd. tag_cases x; by apply ret_Ok in Hd as [-> ->].
  - intros [_ ->]. destruct v; run_part; done.
Qed.
#[global] Instance record_revision_exact : Exact is_rev e_u64 decode_record_revision.
Proof. apply nonzero_exact. Qed.

Lemma host_path_same f t p : host_path f t = Ok p -> p = mkHostPath f t.
Proof. unfold host_path. intros (v & Hv & [= <-])%result_bind_Ok. apply validate_path_Ok in Hv as [Hb _]. by apply bounded_text_Ok in Hb as [-> _]. Qed.
#[global] Instance host_path_fields_exact : Exact (fun p => is_text (host_value p)) encode_host_path host_path_fields.
Proof.
  intros bs v rest. unfold encode_host_path, host_path_fields. split.
  - intros Hd. parts_inv Hd. split; [done|]. cbn [host_flavor host_value]. by rewrite <- app_assoc.
  - intros [Hv ->]. destruct v as [f t]. cbn [host_flavor host_value] in *. repeat run_part. done.
Qed.
#[global] Instance host_path_exact : Exact host_path_typed encode_host_path decode_host_path.
Proof. apply (rebuilt_exact (fun p => is_text (host_value p))); [apply _|]. intros [] b Hb. by apply host_path_same in Hb. Qed.
#[global] Instance runtime_path_fields_exact : Exact (fun p => mode_valid (path_mode p) /\ is_text (path_value p)) encode_runtime_path runtime_path_fields.
Proof. unfold encode_runtime_path, runtime_path_fields. exact_record. Qed.
#[global] Instance runtime_path_exact : Exact native_path_typed encode_runtime_path decode_runtime_path.
Proof. apply (rebuilt_exact (fun p => mode_valid (path_mode p) /\ is_text (path_value p))); [apply _|]. intros [] b Hb. by apply native_path_same in Hb. Qed.

#[global] Instance availability_tag_exact : Exact any encode_availability_tag decode_availability_tag.
Proof. unfold decode_availability_tag. exact_variant. Qed.
Lemma availability_same a t s : availability_from_parts a t = Ok s -> s = mkAvailability a t.
Proof. unfold availability_from_parts, observed_availability, unknown_availability. destruct a, t; try case_bool_decide; cbn; congruence. Qed.
#[global] Instance availability_fields_exact : Exact (fun s => opt_valid is_u64 (av_observed_at s)) encode_availability availability_fields.
Proof. unfold encode_availability, availability_fields. exact_record. Qed.
#[global] Instance availability_exact : Exact availability_typed encode_availability decode_availability.
Proof. apply (rebuilt_exact (fun s => opt_valid is_u64 (av_observed_at s))); [apply _|]. intros [] b Hb. by apply availability_same in Hb. Qed.

#[global] Instance runtime_fields_exact : Exact runtime_typed encode_runtime_record decode_runtime_fields.
Proof.
  intros bs v rest. unfold encode_runtime_record, decode_runtime_fields. split.
  - intros Hd. parts_inv Hd. split; [by constructor|]. cbn [rt_runtime_id rt_canonical_executable rt_mode rt_launch_form rt_native_executable rt_environment_label rt_created_at rt_availability rt_revision].
    unfold same. rewrite <- !app_assoc. reflexivity.
  - intros [[] ->]. destruct v. cbn in *. repeat run_part. done.
Qed.
#[global] Instance root_fields_exact : Exact root_typed encode_root_record decode_root_fields.
Proof.
  intros bs v rest. unfold encode_root_record, decode_root_fields. split.
  - intros Hd. parts_inv Hd. split; [by constructor|].
    cbn [ro_root_id ro_runtime_id ro_canonical_path ro_display_path ro_non_removable ro_created_at ro_availability ro_last_activity_at ro_revision]. unfold same. rewrite <- !app_assoc. reflexivity.
  - intros [[] ->]. destruct v. cbn in *. repeat run_part. done.
Qed.

Definition executable_key_typed (k : ExecutableKey) : Prop := match k with ExecutableValue p => host_path_typed p | _ => True end.
#[global] Instance executable_key_exact : Exact executable_key_typed encode_executable_key executable_key_part.
Proof.
  intros bs v rest. unfold executable_key_part. split.
  - intros Hd. part_inv Hd. destruct (Z.eqb_spec x 0) as [->|]; [variant_fields Hd|]. destruct (Z.eqb_spec x 1) as [->|]; [variant_fields Hd|].
    destruct (Z.eqb_spec x 255) as [->|]; [variant_fields Hd|done].
  - intros [Hv ->]. destruct v; cbn [executable_key_typed encode_executable_key] in *; run_part; cbn; [done| |done]. apply fmap_Ok. eexists. split; [|reflexivity]. by apply exact.
Qed.
Definition root_path_key_typed (k : RootPathKey) : Prop := match k with RootPathValue id p => fixed 16 id /\ native_path_typed p | _ => True end.
#[global] Instance root_path_key_exact : Exact root_path_key_typed encode_root_path_key root_path_key_part.
Proof.
  intros bs v rest. unfold root_path_key_part. split.
  - intros Hd. part_inv Hd. destruct (Z.eqb_spec x 0) as [->|]; [variant_fields Hd|]. destruct (Z.eqb_spec x 1) as [->|]; [|destruct (Z.eqb_spec x 255) as [->|]; [variant_fields Hd|done]].
    parts_inv Hd. split; [done|]. cbn. unfold same. by rewrite <- !app_assoc.
  - intros [Hv ->]. destruct v; cbn [root_path_key_typed encode_root_path_key] in *; run_part; cbn; [done| |done]. destruct Hv. repeat run_part. done.
Qed.

Lemma runtime_record_exact bs r : decode_runtime_record bs = Ok r <-> runtime_stored r /\ bs = encode_runtime_record r.
Proof.
  unfold decode_runtime_record, runtime_stored. rewrite result_bind_Ok. split.
  - intros (x & Hx & Hok). apply (run_exact runtime_typed encode_runtime_record decode_runtime_fields) in Hx as [Hv ->].
    case_bool_decide; cbn [negb] in Hok; [|done]. case_bool_decide; cbn [negb] in Hok; [|done]. by injection Hok as <-.
  - intros [(Hv & Hm & Hl) ->]. exists r. split; [by apply (run_exact runtime_typed encode_runtime_record decode_runtime_fields)|]. by rewrite !bool_decide_eq_true_2.
Qed.
Lemma root_record_exact bs r : decode_root_record bs = Ok r <-> root_typed r /\ bs = encode_root_record r.
Proof. exact (run_exact root_typed encode_root_record decode_root_fields bs r). Qed.
Lemma executable_key_run bs k : decode_executable_key bs = Ok k <-> executable_key_typed k /\ bs = encode_executable_key k.
Proof. exact (run_exact executable_key_typed encode_executable_key executable_key_part bs k). Qed.
Lemma root_path_key_run bs k : decode_root_path_key bs = Ok k <-> root_path_key_typed k /\ bs = encode_root_path_key k.
Proof. exact (run_exact root_path_key_typed encode_root_path_key root_path_key_part bs k). Qed.
Lemma root_key_run bs k : decode_root_key bs = Ok k <-> (fixed 16 k.1 /\ fixed 16 k.2) /\ bs = encode_root_key k.
Proof.
  unfold decode_root_key, decode_runtime_id, decode_root_id, encode_root_key. destruct k as [a b]. cbn [fst snd]. split.
  - destruct (Nat.eqb_spec (length bs) 32) as [Hl|]; cbn [negb]; [|done]. intros (a' & Ha & H)%result_bind_Ok. apply result_bind_Ok in H as (b' & Hb & [= <- <-]).
    apply identity_exact in Ha as [Ha Ea], Hb as [Hb Eb]. rewrite <- Ea, <- Eb in *. by rewrite take_drop.
  - intros [[Ha Hb] ->]. unfold fixed in *. rewrite length_app, Ha, Hb. cbn [negb Nat.add Nat.eqb].
    rewrite (take_app_length' a b), (drop_app_length' a b) by done. unfold decode_identity. by rewrite Ha, Hb.
Qed.

(** ** Sizes *)

Lemma mode_length m : mode_valid m -> zlen (encode_runtime_mode m) <= 261.
Proof.
  destruct m as [|name]; cbn; unfold e_u8; [rewrite length_be_bytes; lia|]. intros [_ Hn]. rewrite length_app, length_be_bytes. pose proof (e_text_length name).
  unfold wsl_distribution_name in Hn. apply result_bind_Ok in Hn as (b & Hb & _). apply bounded_text_Ok in Hb as (_ & _ & Hl & _). unfold MAX_WSL_DISTRIBUTION_BYTES in Hl. lia.
Qed.
Lemma host_path_length p : host_path_typed p -> zlen (encode_host_path p) <= 32773.
Proof.
  intros [_ Hp]. unfold host_path in Hp. apply result_bind_Ok in Hp as (v & Hv & _). apply validate_path_Ok in Hv as [Hb _]. apply bounded_text_Ok in Hb as (_ & _ & Hl & _).
  unfold encode_host_path, enc_enum, e_u8. rewrite length_app, length_be_bytes. pose proof (e_text_length (host_value p)). unfold MAX_PATH_BYTES in Hl. lia.
Qed.
Lemma runtime_path_length p : native_path_typed p -> zlen (encode_runtime_path p) <= 33034.
Proof.
  intros [[Hm _] Hp]. unfold native_path in Hp. destruct (match path_mode p with Wsl _ => _ | Host => false end); [done|]. apply result_bind_Ok in Hp as (v & Hv & _).
  apply validate_path_Ok in Hv as [Hb _]. apply bounded_text_Ok in Hb as (_ & _ & Hl & _). unfold encode_runtime_path, enc_enum, e_u8. rewrite !length_app, length_be_bytes.
  pose proof (e_text_length (path_value p)). pose proof (mode_length _ Hm). unfold MAX_PATH_BYTES in Hl. lia.
Qed.
Lemma optional_time_length o : zlen (encode_optional_time o) <= 9.
Proof. destruct o; cbn; unfold e_u8, e_u64; rewrite ?length_app, ?length_be_bytes; lia. Qed.
Lemma availability_length s : zlen (encode_availability s) <= 11.
Proof.
  unfold encode_availability. rewrite length_app. pose proof (optional_time_length (av_observed_at s)).
  assert (zlen (encode_availability_tag (av_availability s)) <= 2) by (destruct (av_availability s); cbn; unfold enc_enum, e_u8; rewrite ?length_app, ?length_be_bytes; lia). lia.
Qed.
Lemma label_length m : mode_valid m -> zlen (environment_label m) <= 256.
Proof.
  destruct m as [|name]; cbn; [done|]. intros [_ Hn]. unfold wsl_distribution_name in Hn. apply result_bind_Ok in Hn as (b & Hb & _). by apply bounded_text_Ok in Hb as (_ & _ & Hl & _).
Qed.

Lemma runtime_record_length r : runtime_stored r -> zlen (encode_runtime_record r) <= RUNTIME_RECORD_LIMIT.
Proof.
  intros ([] & _ & Hlabel). unfold encode_runtime_record, encode_launch_form, e_u8, e_u64. rewrite !length_app, !length_be_bytes, !Nat2Z.inj_add, e_text_length, Hlabel. unfold fixed in *.
  pose proof (host_path_length _ ty_executable0). pose proof (mode_length _ ty_mode0). pose proof (runtime_path_length _ ty_native0). pose proof (label_length _ ty_mode0).
  pose proof (availability_length (rt_availability r)). unfold RUNTIME_RECORD_LIMIT. lia.
Qed.
Lemma root_record_length r : root_typed r -> zlen (encode_root_record r) <= ROOT_RECORD_LIMIT.
Proof.
  intros []. unfold encode_root_record, enc_bool, e_u8, e_u64. rewrite !length_app, !length_be_bytes, !Nat2Z.inj_add. unfold fixed in *.
  pose proof (host_path_length _ ty_display0). pose proof (runtime_path_length _ ty_path0). pose proof (availability_length (ro_availability r)). pose proof (optional_time_length (ro_last_activity_at r)).
  unfold ROOT_RECORD_LIMIT. lia.
Qed.
Lemma executable_key_length k : executable_key_typed k -> zlen (encode_executable_key k) <= PATH_KEY_LIMIT.
Proof. unfold PATH_KEY_LIMIT. destruct k; cbn; unfold e_u8; intros Hk; rewrite ?length_app, ?length_be_bytes; try lia. pose proof (host_path_length _ Hk). lia. Qed.
Lemma root_path_key_length k : root_path_key_typed k -> zlen (encode_root_path_key k) <= PATH_KEY_LIMIT.
Proof.
  unfold PATH_KEY_LIMIT. destruct k; cbn; unfold e_u8; intros Hk; rewrite ?length_app, ?length_be_bytes; try lia. destruct Hk as [Hf Hp]. unfold fixed in Hf. pose proof (runtime_path_length _ Hp). lia.
Qed.
