(* ===== verification/RootTheorems.v ===== *)
(** * The registry of runtimes and roots: theorems *)
From stdpp Require Import prelude gmap strings.
From S2P Require Import Prelude.
From S2P Require Import Bytes.
From S2P Require Import ModelIds.
From S2P Require Import ModelText.
From S2P Require Import BuildBudget.
From S2P Require Import Cursors.
From S2P Require Import SyndicValues.
From S2P Require Import SyndicParts.
From S2P Require Import JobCodec.
From S2P Require Import RootModel.
From S2P Require Import RootCodec.

(** ** What the tables mean *)

(** The indices agree with the records in both directions; a root has the mode of its runtime;
    every runtime has a home root, and the home roots are the roots that cannot be removed. *)
Record roots_ok (st : RootStore) : Prop := mkRootsOk {
  rk_runtimes : forall k r, rs_runtimes st !! k = Some r -> rt_runtime_id r = k /\ rs_executables st !! rt_canonical_executable r = Some k /\ is_Some (rs_home_roots st !! k);
  rk_roots : forall a b r, rs_roots st !! (a, b) = Some r -> ro_runtime_id r = a /\ ro_root_id r = b
    /\ (exists runtime, rs_runtimes st !! a = Some runtime /\ path_mode (ro_canonical_path r) = rt_mode runtime)
    /\ rs_root_ids st !! b = Some a /\ rs_root_paths st !! (a, ro_canonical_path r) = Some b
    /\ (ro_non_removable r = true <-> rs_home_roots st !! a = Some b);
  rk_executables : forall p k, rs_executables st !! p = Some k -> exists r, rs_runtimes st !! k = Some r /\ rt_canonical_executable r = p;
  rk_root_ids : forall b a, rs_root_ids st !! b = Some a -> is_Some (rs_roots st !! (a, b));
  rk_root_paths : forall a p b, rs_root_paths st !! (a, p) = Some b -> exists r, rs_roots st !! (a, b) = Some r /\ ro_canonical_path r = p;
  rk_home_roots : forall a b, rs_home_roots st !! a = Some b -> is_Some (rs_runtimes st !! a) /\ is_Some (rs_roots st !! (a, b))
}.

(** Readers that do not fail, and readers that may. *)
Record root_reads {E} (reader : RootReader E) (st : RootStore) : Prop := mkRootReads {
  gr_runtime : forall k, get_runtime reader k = Ok (rs_runtimes st !! k);
  gr_executable : forall k, get_executable reader k = Ok (rs_executables st !! k);
  gr_root : forall k, get_root reader k = Ok (rs_roots st !! k);
  gr_root_id : forall k, get_root_id reader k = Ok (rs_root_ids st !! k);
  gr_root_path : forall k, get_root_path reader k = Ok (rs_root_paths st !! k);
  gr_home_root : forall k, get_home_root reader k = Ok (rs_home_roots st !! k)
}.
Record root_reads_of {E} (reader : RootReader E) (st : RootStore) : Prop := mkRootReadsOf {
  gf_runtime : forall k o, get_runtime reader k = Ok o -> o = rs_runtimes st !! k;
  gf_executable : forall k o, get_executable reader k = Ok o -> o = rs_executables st !! k;
  gf_root : forall k o, get_root reader k = Ok o -> o = rs_roots st !! k;
  gf_root_id : forall k o, get_root_id reader k = Ok o -> o = rs_root_ids st !! k;
  gf_root_path : forall k o, get_root_path reader k = Ok o -> o = rs_root_paths st !! k;
  gf_home_root : forall k o, get_home_root reader k = Ok o -> o = rs_home_roots st !! k
}.

Definition empty_roots : RootStore := mkRootStore ∅ ∅ ∅ ∅ ∅ ∅.

(** Registrations as the code can build them: a runtime by its constructor, out of typed parts. *)
Definition registered (r : RuntimeRegistration) : Prop :=
  new_runtime_registration (rr_runtime_id r) (rr_canonical_executable r) (rr_mode r) (rr_launch_form r) (rr_native_executable r) (rr_created_at r) (rr_availability r) = Ok r
  /\ fixed 16 (rr_runtime_id r) /\ host_path_typed (rr_canonical_executable r) /\ mode_valid (rr_mode r) /\ native_path_typed (rr_native_executable r)
  /\ is_u64 (rr_created_at r) /\ availability_typed (rr_availability r).
Definition root_registered (r : RootRegistration) : Prop :=
  fixed 16 (rg_root_id r) /\ native_path_typed (rg_canonical_path r) /\ host_path_typed (rg_display_path r) /\ is_u64 (rg_created_at r) /\ availability_typed (rg_availability r).

(** The commits. *)
Inductive root_step (st : RootStore) : RootStore -> Prop :=
  | step_create reader runtime home runtime' root' : root_reads_of reader st -> registered runtime -> root_registered home -> new_create runtime home = Ok (runtime, home) ->
      prepare_create reader runtime home = Ok (runtime', root') -> root_step st (contribute_create runtime' root' st)
  | step_add reader runtime_id root root' : root_reads_of reader st -> root_registered root -> prepare_add reader runtime_id root = Ok root' -> root_step st (contribute_add root' st)
  | step_runtime_availability reader runtime_id expected availability r : root_reads_of reader st -> availability_typed availability ->
      prepare_runtime_availability reader runtime_id expected availability = Ok r -> root_step st (put_runtime r st)
  | step_root_availability reader root_id expected availability r : root_reads_of reader st -> availability_typed availability ->
      prepare_root_availability reader root_id expected availability = Ok r -> root_step st (put_root r st)
  | step_root_activity reader root_id expected at_ r : root_reads_of reader st -> is_u64 at_ ->
      prepare_root_activity reader root_id expected at_ = Ok r -> root_step st (put_root r st).

(** ** What the preparations find *)

Section Prepared.
Context (reader : RootReader RuntimeRootMutationError) (st : RootStore) (Hr : root_reads_of reader st).

Lemma ensure_root_missing_Ok a root : ensure_root_missing reader a root = Ok tt -> rs_root_ids st !! rg_root_id root = None /\ rs_root_paths st !! (a, rg_canonical_path root) = None.
Proof.
  unfold ensure_root_missing. intros (o & Ho & H)%result_bind_Ok. apply (gf_root_id _ _ Hr) in Ho as ->. case_bool_decide as E; [done|]. apply eq_None_not_Some in E. split; [done|].
  apply result_bind_Ok in H as (o & Ho & H). apply (gf_root_path _ _ Hr) in Ho as ->. by destruct (rs_root_paths st !! _).
Qed.

Lemma ensure_runtime_missing_Ok runtime : ensure_runtime_missing reader runtime = Ok tt -> rs_runtimes st !! rr_runtime_id runtime = None /\ rs_executables st !! rr_canonical_executable runtime = None.
Proof.
  unfold ensure_runtime_missing. intros (o & Ho & H)%result_bind_Ok. apply (gf_runtime _ _ Hr) in Ho as ->. case_bool_decide as E; [done|]. apply eq_None_not_Some in E. split; [done|].
  apply result_bind_Ok in H as (o & Ho & H). apply (gf_executable _ _ Hr) in Ho as ->. by destruct (rs_executables st !! _).
Qed.

Lemma prepare_create_Ok runtime home r h : prepare_create reader runtime home = Ok (r, h) ->
  r = initial_runtime runtime /\ h = initial_root_record (rr_runtime_id runtime) home true
  /\ rs_runtimes st !! rr_runtime_id runtime = None /\ rs_executables st !! rr_canonical_executable runtime = None
  /\ rs_root_ids st !! rg_root_id home = None.
Proof.
  unfold prepare_create. intros ([] & [Hn1 Hn2]%ensure_runtime_missing_Ok & H)%result_bind_Ok. apply result_bind_Ok in H as ([] & [Hn3 _]%ensure_root_missing_Ok & H).
  apply result_bind_Ok in H as (o & _ & H). case_bool_decide; [done|]. injection H as <- <-. done.
Qed.

Lemma required_runtime_Ok k r : required_runtime reader k = Ok r -> rs_runtimes st !! k = Some r.
Proof. unfold required_runtime. intros (o & Ho & H)%result_bind_Ok. apply (gf_runtime _ _ Hr) in Ho as ->. by apply ok_or_Ok in H. Qed.

Lemma required_root_Ok b r : required_root reader b = Ok r -> exists a, rs_roots st !! (a, b) = Some r.
Proof.
  unfold required_root. intros (o & _ & H)%result_bind_Ok. apply result_bind_Ok in H as (a & _ & H). apply result_bind_Ok in H as (o' & Ho & H). apply (gf_root _ _ Hr) in Ho as ->.
  apply ok_or_Ok in H. by exists a.
Qed.

Lemma prepare_add_Ok a root r : prepare_add reader a root = Ok r ->
  r = initial_root_record a root false /\ (exists runtime, rs_runtimes st !! a = Some runtime /\ path_mode (rg_canonical_path root) = rt_mode runtime)
  /\ rs_root_ids st !! rg_root_id root = None /\ rs_root_paths st !! (a, rg_canonical_path root) = None.
Proof.
  unfold prepare_add. intros (runtime & Hrt%required_runtime_Ok & H)%result_bind_Ok. case_bool_decide as Hm; cbn [negb] in H; [|done].
  apply result_bind_Ok in H as ([] & [? ?]%ensure_root_missing_Ok & [= <-]). eauto 10.
Qed.

Lemma next_record_Ok r r' : of_state_value (next_record_revision r) = Ok r' -> r' = r + 1 /\ r + 1 <= U64_MAX.
Proof.
  unfold of_state_value, next_record_revision, checked_add64. destruct (Z.leb_spec (r + 1) U64_MAX); cbn; [|done]. unfold nonzero. destruct (r + 1 =? 0); cbn; [done|]. by intros [= <-].
Qed.

Lemma prepare_runtime_availability_Ok k e av r : prepare_runtime_availability reader k e av = Ok r ->
  exists r0, rs_runtimes st !! k = Some r0 /\ r = with_runtime_availability r0 av (rt_revision r0 + 1) /\ rt_revision r0 + 1 <= U64_MAX.
Proof.
  unfold prepare_runtime_availability, ensure_record_revision. intros (r0 & Hr0%required_runtime_Ok & H)%result_bind_Ok. apply result_bind_Ok in H as (? & He & H).
  destruct (Z.eqb_spec e (rt_revision r0)) as [->|]; [|done]. apply result_bind_Ok in H as (rev & [-> Hle]%next_record_Ok & [= <-]). by exists r0.
Qed.

(** What an observation of a root does to its record. *)
Definition observed_root (r0 r : RootRecord) : Prop :=
  exists av last, r = with_root_observation r0 av last (ro_revision r0 + 1) /\ (last = ro_last_activity_at r0 \/ exists t, last = Some t /\ forall t0, ro_last_activity_at r0 = Some t0 -> t0 < t).

Lemma prepare_root_availability_Ok b e av r : prepare_root_availability reader b e av = Ok r -> exists a r0, rs_roots st !! (a, b) = Some r0 /\ observed_root r0 r /\ (availability_typed av -> root_typed r0 -> root_typed r).
Proof.
  unfold prepare_root_availability, ensure_record_revision. intros (r0 & (a & Hr0)%required_root_Ok & H)%result_bind_Ok. apply result_bind_Ok in H as (? & He & H).
  apply result_bind_Ok in H as (rev & [-> Hle]%next_record_Ok & [= <-]). exists a, r0. split; [done|].
  split; [eexists _, _; split; [done|by left]|]. intros Hav []. constructor; cbn; try done. unfold is_rev in *. lia.
Qed.

Lemma prepare_root_activity_Ok b e t r : prepare_root_activity reader b e t = Ok r -> exists a r0, rs_roots st !! (a, b) = Some r0 /\ observed_root r0 r /\ (is_u64 t -> root_typed r0 -> root_typed r).
Proof.
  unfold prepare_root_activity, ensure_record_revision. intros (r0 & (a & Hr0)%required_root_Ok & H)%result_bind_Ok. apply result_bind_Ok in H as (? & He & H).
  destruct (match ro_last_activity_at r0 with Some current => t <=? current | None => false end) eqn:Hl; [done|].
  apply result_bind_Ok in H as (rev & [-> Hle]%next_record_Ok & [= <-]). exists a, r0. split; [done|].
  split; [|intros Ht []; constructor; cbn; try done; unfold is_rev in *; lia]. eexists _, _. split; [done|]. right. exists t. split; [done|]. intros t0 E. rewrite E in Hl. bool_facts. lia.
Qed.
End Prepared.

(** ** The tables keep their meaning *)

Lemma create_keeps st runtime home : roots_ok st -> path_mode (rg_canonical_path home) = rr_mode runtime ->
  rs_runtimes st !! rr_runtime_id runtime = None -> rs_executables st !! rr_canonical_executable runtime = None -> rs_root_ids st !! rg_root_id home = None ->
  roots_ok (contribute_create (initial_runtime runtime) (initial_root_record (rr_runtime_id runtime) home true) st).
Proof.
  intros [Kr Ko Ke Ki Kp Kh] Hmode Nr Ne Ni.
  assert (forall a b r, rs_roots st !! (a, b) = Some r -> a <> rr_runtime_id runtime /\ b <> rg_root_id home) as Hold.
  { intros a b r Hk. apply Ko in Hk as (_ & _ & (rt & Hrt & _) & Hi & _). split; congruence. }
  assert (forall k r, rs_runtimes st !! k = Some r -> rr_runtime_id runtime <> k) as Hrt by congruence.
  constructor; cbn.
  - intros k r. destruct (decide (k = rr_runtime_id runtime)) as [->|Hne].
    + rewrite !lookup_insert_eq. intros [= <-]. by rewrite lookup_insert_eq.
    + rewrite !lookup_insert_ne by done. intros Hk. destruct (Kr _ _ Hk) as (? & He & ?). rewrite !lookup_insert_ne by congruence. done.
  - intros a b r. destruct (decide ((a, b) = (rr_runtime_id runtime, rg_root_id home))) as [[= -> ->]|Hne].
    + rewrite !lookup_insert_eq. intros [= <-]. cbn. rewrite !lookup_insert_eq. split_and!; try done. by eexists.
    + rewrite lookup_insert_ne by congruence. intros Hk. destruct (Hold _ _ _ Hk) as [Ha Hb]. destruct (Ko _ _ _ Hk) as (? & ? & ? & ? & ? & ?). rewrite !lookup_insert_ne by congruence. split_and!; done || tauto.
  - intros p k. destruct (decide (p = rr_canonical_executable runtime)) as [->|Hne].
    + rewrite lookup_insert_eq. intros [= <-]. rewrite lookup_insert_eq. by eexists.
    + rewrite lookup_insert_ne by done. intros Hk. destruct (Ke _ _ Hk) as (r & Hr & <-). exists r. by rewrite lookup_insert_ne by (by eapply Hrt).
  - intros b a. destruct (decide (b = rg_root_id home)) as [->|Hne].
    + rewrite lookup_insert_eq. intros [= <-]. rewrite lookup_insert_eq. by eexists.
    + rewrite lookup_insert_ne by done. intros Hk. rewrite lookup_insert_ne by congruence. by apply Ki.
  - intros a p b. destruct (decide ((a, p) = (rr_runtime_id runtime, rg_canonical_path home))) as [[= -> ->]|Hne].
    + rewrite lookup_insert_eq. intros [= <-]. rewrite lookup_insert_eq. by eexists.
    + rewrite lookup_insert_ne by congruence. intros Hk. destruct (Kp _ _ _ Hk) as (r & Hr & <-). exists r. destruct (Hold _ _ _ Hr). by rewrite lookup_insert_ne by congruence.
  - intros a b. destruct (decide (a = rr_runtime_id runtime)) as [->|Hne].
    + rewrite !lookup_insert_eq. intros [= <-]. rewrite lookup_insert_eq. split; by eexists.
    + rewrite !lookup_insert_ne by congruence. apply Kh.
Qed.

Lemma add_keeps st a root runtime : roots_ok st -> rs_runtimes st !! a = Some runtime -> path_mode (rg_canonical_path root) = rt_mode runtime ->
  rs_root_ids st !! rg_root_id root = None -> rs_root_paths st !! (a, rg_canonical_path root) = None -> roots_ok (contribute_add (initial_root_record a root false) st).
Proof.
  intros [Kr Ko Ke Ki Kp Kh] Hrt Hmode Ni Np.
  assert (forall a' b r, rs_roots st !! (a', b) = Some r -> b <> rg_root_id root) as Hold.
  { intros a' b r Hk. apply Ko in Hk as (_ & _ & _ & Hi & _). congruence. }
  constructor; cbn.
  - exact Kr.
  - intros a' b r. destruct (decide ((a', b) = (a, rg_root_id root))) as [[= -> ->]|Hne].
    + rewrite !lookup_insert_eq. intros [= <-]. cbn. rewrite !lookup_insert_eq. split_and!; try done; [by exists runtime|]. split; [done|]. intros Hh. exfalso. apply Kh in Hh as [_ [r Hr]]. by apply Hold in Hr.
    + rewrite lookup_insert_ne by congruence. intros Hk. pose proof (Hold _ _ _ Hk) as Hb. destruct (Ko _ _ _ Hk) as (? & ? & ? & ? & Hp & ?).
      rewrite !lookup_insert_ne by congruence. split_and!; done || tauto.
  - exact Ke.
  - intros b a'. destruct (decide (b = rg_root_id root)) as [->|Hne].
    + rewrite lookup_insert_eq. intros [= <-]. rewrite lookup_insert_eq. by eexists.
    + rewrite lookup_insert_ne by done. intros Hk. rewrite lookup_insert_ne by congruence. by apply Ki.
  - intros a' p b. destruct (decide ((a', p) = (a, rg_canonical_path root))) as [[= -> ->]|Hne].
    + rewrite lookup_insert_eq. intros [= <-]. rewrite lookup_insert_eq. by eexists.
    + rewrite lookup_insert_ne by congruence. intros Hk. destruct (Kp _ _ _ Hk) as (r & Hr & <-). exists r. rewrite lookup_insert_ne by (apply Hold in Hr; congruence). done.
  - intros a' b Hk. destruct (Kh _ _ Hk) as [? [r Hr]]. split; [done|]. exists r. rewrite lookup_insert_ne by (apply Hold in Hr; congruence). done.
Qed.

(** Records that keep their identities. *)
Lemma put_runtime_keeps st k r0 av rev : roots_ok st -> rs_runtimes st !! k = Some r0 -> roots_ok (put_runtime (with_runtime_availability r0 av rev) st).
Proof.
  intros [Kr Ko Ke Ki Kp Kh] Hk. pose proof (Kr _ _ Hk) as (Hid & Hex & Hh).
  assert (forall k' r, rs_runtimes st !! k' = Some r -> exists r', rs_runtimes (put_runtime (with_runtime_availability r0 av rev) st) !! k' = Some r'
    /\ rt_mode r' = rt_mode r /\ rt_canonical_executable r' = rt_canonical_executable r) as Hput.
  { intros k' r Hr. cbn. rewrite Hid. destruct (decide (k' = k)) as [->|Hne]; [rewrite lookup_insert_eq; rewrite Hk in Hr; injection Hr as <-; by eexists|rewrite lookup_insert_ne by done; by exists r]. }
  constructor; cbn; try done.
  - intros k' r. rewrite Hid. destruct (decide (k' = k)) as [->|Hne]; [rewrite lookup_insert_eq; by intros [= <-]|rewrite lookup_insert_ne by done; apply Kr].
  - intros a b r Hr. destruct (Ko _ _ _ Hr) as (? & ? & (rt & Hrt & Hm) & ?). destruct (Hput _ _ Hrt) as (rt' & ? & Hm' & _). split_and!; try done; try tauto. exists rt'. by rewrite Hm'.
  - intros p k' Hp. destruct (Ke _ _ Hp) as (r & Hr & <-). destruct (Hput _ _ Hr) as (r' & ? & _ & ?). by exists r'.
  - intros a b Hb. destruct (Kh _ _ Hb) as [[r Hr] ?]. destruct (Hput _ _ Hr) as (r' & ? & _). split; [by exists r'|done].
Qed.

Lemma put_root_keeps st a b r0 av last rev : roots_ok st -> rs_roots st !! (a, b) = Some r0 -> roots_ok (put_root (with_root_observation r0 av last rev) st).
Proof.
  intros [Kr Ko Ke Ki Kp Kh] Hk. pose proof (Ko _ _ _ Hk) as (Ha & Hb & Hrest).
  assert (forall a' b' r, rs_roots st !! (a', b') = Some r -> exists r', rs_roots (put_root (with_root_observation r0 av last rev) st) !! (a', b') = Some r' /\ ro_canonical_path r' = ro_canonical_path r) as Hput.
  { intros a' b' r Hr. cbn. rewrite Ha, Hb. destruct (decide ((a', b') = (a, b))) as [[= -> ->]|Hne]; [rewrite lookup_insert_eq; rewrite Hk in Hr; injection Hr as <-; by eexists|rewrite lookup_insert_ne by congruence; by exists r]. }
  constructor; cbn; try done.
  - intros a' b' r. rewrite Ha, Hb. destruct (decide ((a', b') = (a, b))) as [[= -> ->]|Hne]; [rewrite lookup_insert_eq; by intros [= <-]|rewrite lookup_insert_ne by congruence; apply Ko].
  - intros b' a' Hi. destruct (Ki _ _ Hi) as [r Hr]. destruct (Hput _ _ _ Hr) as (r' & ? & _). by exists r'.
  - intros a' p b' Hp. destruct (Kp _ _ _ Hp) as (r & Hr & <-). destruct (Hput _ _ _ Hr) as (r' & ? & ?). by exists r'.
  - intros a' b' Hh. destruct (Kh _ _ Hh) as [? [r Hr]]. destruct (Hput _ _ _ Hr) as (r' & ? & _). split; [done|by exists r'].
Qed.

(** What a commit did. *)
Lemma root_step_cases st st' : root_step st st' ->
  (exists runtime home, registered runtime /\ root_registered home /\ path_mode (rg_canonical_path home) = rr_mode runtime /\ rs_runtimes st !! rr_runtime_id runtime = None /\ rs_executables st !! rr_canonical_executable runtime = None
     /\ rs_root_ids st !! rg_root_id home = None /\ st' = contribute_create (initial_runtime runtime) (initial_root_record (rr_runtime_id runtime) home true) st)
  \/ (exists a root runtime, root_registered root /\ rs_runtimes st !! a = Some runtime /\ path_mode (rg_canonical_path root) = rt_mode runtime /\ rs_root_ids st !! rg_root_id root = None
     /\ rs_root_paths st !! (a, rg_canonical_path root) = None /\ st' = contribute_add (initial_root_record a root false) st)
  \/ (exists k r0 av, rs_runtimes st !! k = Some r0 /\ availability_typed av /\ rt_revision r0 + 1 <= U64_MAX /\ st' = put_runtime (with_runtime_availability r0 av (rt_revision r0 + 1)) st)
  \/ (exists a b r0 r, rs_roots st !! (a, b) = Some r0 /\ observed_root r0 r /\ (root_typed r0 -> root_typed r) /\ st' = put_root r st).
Proof.
  intros [reader runtime home r h Hr Ht Hh Hn H|reader a root r Hr Ht H|reader k e av r Hr Ht H|reader b e av r Hr Ht H|reader b e t r Hr Ht H].
  - left. apply (prepare_create_Ok _ _ Hr) in H as (-> & -> & ? & ? & ?). exists runtime, home. unfold new_create in Hn. case_bool_decide as E; [split_and!; done|done].
  - right; left. apply (prepare_add_Ok _ _ Hr) in H as (-> & (rt & ? & ?) & ? & ?). by exists a, root, rt.
  - right; right; left. apply (prepare_runtime_availability_Ok _ _ Hr) in H as (r0 & ? & -> & ?). by exists k, r0, av.
  - right; right; right. apply (prepare_root_availability_Ok _ _ Hr) in H as (a & r0 & ? & ? & ?). exists a, b, r0, r. auto.
  - right; right; right. apply (prepare_root_activity_Ok _ _ Hr) in H as (a & r0 & ? & ? & ?). exists a, b, r0, r. auto.
Qed.

Lemma root_step_keeps st st' : root_step st st' -> roots_ok st -> roots_ok st'.
Proof.
  intros [(rt & h & _ & _ & ? & ? & ? & ? & ->)|[(a & root & rt & _ & ? & ? & ? & ? & ->)|[(k & r0 & av & ? & _ & _ & ->)|(a & b & r0 & r & ? & (av & l & -> & _) & _ & ->)]]]%root_step_cases Hok.
  - by apply create_keeps.
  - by eapply add_keeps.
  - by eapply put_runtime_keeps.
  - by eapply put_root_keeps.
Qed.

Lemma empty_roots_ok : roots_ok empty_roots.
Proof. constructor; cbn; intros *; by rewrite lookup_empty. Qed.
Lemma root_run_keeps st st' : rtc root_step st st' -> roots_ok st -> roots_ok st'.
Proof. induction 1 as [|a b c Hab _ IH]; [done|]. intros Hok. by apply IH, (root_step_keeps a). Qed.

(** ** Histories *)

(** What later tables keep of a record. *)
Definition later_runtime (r r' : RuntimeRecord) : Prop := exists av rev, r' = with_runtime_availability r av rev /\ (r' = r \/ rt_revision r < rev).
Definition later_root (r r' : RootRecord) : Prop :=
  exists av last rev, r' = with_root_observation r av last rev /\ (r' = r \/ ro_revision r < rev) /\ (forall t, ro_last_activity_at r = Some t -> exists t', last = Some t' /\ t <= t').

Lemma later_runtime_refl r : later_runtime r r.
Proof. exists (rt_availability r), (rt_revision r). destruct r; cbn. auto. Qed.
Lemma later_root_refl r : later_root r r.
Proof. exists (ro_availability r), (ro_last_activity_at r), (ro_revision r). split; [by destruct r|]. split; [by left|]. intros t ->. by exists t. Qed.
Lemma later_runtime_trans a b c : later_runtime a b -> later_runtime b c -> later_runtime a c.
Proof.
  intros (av & rev & Eb & Hb) (av' & rev' & Ec & Hc). exists av', rev'. split; [by rewrite Ec, Eb|]. destruct Hb as [->|Hb]; [done|]. right.
  destruct Hc as [->|Hc]; [|rewrite Eb in Hc; cbn in Hc; lia]. assert (rev' = rev) as ->; [|done]. rewrite Eb in Ec. by apply (f_equal rt_revision) in Ec.
Qed.
Lemma later_root_trans a b c : later_root a b -> later_root b c -> later_root a c.
Proof.
  intros (av & l & rev & Eb & Hb & Hl) (av' & l' & rev' & Ec & Hc & Hl'). exists av', l', rev'. split; [by rewrite Ec, Eb|]. split.
  - destruct Hb as [->|Hb]; [done|]. right. destruct Hc as [->|Hc]; [|rewrite Eb in Hc; cbn in Hc; lia]. assert (rev' = rev) as ->; [|done]. rewrite Eb in Ec. by apply (f_equal ro_revision) in Ec.
  - intros t Ht. destruct (Hl _ Ht) as (t1 & -> & H1). rewrite Eb in Hl'. cbn in Hl'. destruct (Hl' t1 eq_refl) as (t2 & -> & H2). exists t2. split; [done|lia].
Qed.

Lemma observed_later r0 r : observed_root r0 r -> later_root r0 r.
Proof.
  intros (av & l & -> & Hl). exists av, l, (ro_revision r0 + 1). split; [done|]. split; [right; lia|]. intros t Ht. destruct Hl as [->|(t' & -> & Hlt)]; [by exists t|]. exists t'. split; [done|]. specialize (Hlt _ Ht). lia.
Qed.

Lemma root_step_later st st' : root_step st st' -> roots_ok st ->
  (forall k r, rs_runtimes st !! k = Some r -> exists r', rs_runtimes st' !! k = Some r' /\ later_runtime r r')
  /\ (forall k r, rs_roots st !! k = Some r -> exists r', rs_roots st' !! k = Some r' /\ later_root r r').
Proof.
  intros Hs Hok. apply root_step_cases in Hs as [(rt & h & _ & _ & _ & Hn & _ & Hi & ->)|[(a & root & rt & _ & _ & _ & Hi & _ & ->)|[(k0 & r0 & av & H0 & _ & _ & ->)|(a & b & r0 & r1 & H0 & Ho & _ & ->)]]].
  - split; intros k r Hk; exists r; cbn; [rewrite lookup_insert_ne by congruence|rewrite lookup_insert_ne]; auto using later_runtime_refl, later_root_refl.
    destruct k as [a b]. apply (rk_roots _ Hok) in Hk as (_ & _ & _ & Hb & _). cbn. congruence.
  - split; intros k r Hk; exists r; cbn; [auto using later_runtime_refl|rewrite lookup_insert_ne; [auto using later_root_refl|]].
    destruct k as [a' b]. apply (rk_roots _ Hok) in Hk as (_ & _ & _ & Hb & _). cbn. congruence.
  - split; intros k r Hk; cbn; [|exists r; auto using later_root_refl]. pose proof (rk_runtimes _ Hok _ _ H0) as (-> & _). destruct (decide (k = k0)) as [->|Hne].
    + rewrite lookup_insert_eq. eexists. split; [done|]. rewrite H0 in Hk. injection Hk as <-. eexists _, _. split; [done|right; lia].
    + rewrite lookup_insert_ne by done. exists r. auto using later_runtime_refl.
  - split; intros k r Hk; cbn; [exists r; auto using later_runtime_refl|]. pose proof (rk_roots _ Hok _ _ _ H0) as (Ha & Hb & _).
    assert ((ro_runtime_id r1, ro_root_id r1) = (a, b)) as -> by (destruct Ho as (? & ? & -> & _); cbn; congruence). destruct (decide (k = (a, b))) as [->|Hne].
    + rewrite lookup_insert_eq. exists r1. split; [done|]. rewrite H0 in Hk. injection Hk as <-. by apply observed_later.
    + rewrite lookup_insert_ne by done. exists r. auto using later_root_refl.
Qed.

Lemma root_run_later st st' : rtc root_step st st' -> roots_ok st ->
  (forall k r, rs_runtimes st !! k = Some r -> exists r', rs_runtimes st' !! k = Some r' /\ later_runtime r r')
  /\ (forall k r, rs_roots st !! k = Some r -> exists r', rs_roots st' !! k = Some r' /\ later_root r r').
Proof.
  induction 1 as [st|st st1 st2 H1 _ IH]; intros Hok; [split; eauto using later_runtime_refl, later_root_refl|].
  destruct (root_step_later _ _ H1 Hok) as [Hr Ho]. destruct (IH (root_step_keeps _ _ H1 Hok)) as [Hr' Ho']. split.
  - intros k r (r1 & Hk1 & H1')%Hr. destruct (Hr' _ _ Hk1) as (r2 & ? & ?). exists r2. split; [done|]. by eapply later_runtime_trans.
  - intros k r (r1 & Hk1 & H1')%Ho. destruct (Ho' _ _ Hk1) as (r2 & ? & ?). exists r2. split; [done|]. by eapply later_root_trans.
Qed.

(** ** Lookups *)

Section Found.
Context {E : Type} (reader : RootReader E) (st : RootStore) (Hr : root_reads reader st) (Hok : roots_ok st).

Lemma root_of_exact b r : root_of reader b = Ok (Some r) <-> exists a, rs_roots st !! (a, b) = Some r.
Proof.
  unfold root_of. rewrite (gr_root_id _ _ Hr). cbn [mbind result_bind]. destruct (rs_root_ids st !! b) as [a|] eqn:Hb.
  - rewrite (gr_root _ _ Hr). split; [intros [= Hk]; by exists a|]. intros (a' & Hk). pose proof (rk_roots _ Hok _ _ _ Hk) as (_ & _ & _ & Hb' & _). congruence.
  - split; [done|]. intros (a' & Hk). apply (rk_roots _ Hok) in Hk as (_ & _ & _ & Hb' & _). congruence.
Qed.

Lemma runtime_by_executable_exact p r : runtime_by_executable reader p = Ok (Some r) <-> rs_runtimes st !! rt_runtime_id r = Some r /\ rt_canonical_executable r = p.
Proof.
  unfold runtime_by_executable. rewrite (gr_executable _ _ Hr). cbn [mbind result_bind]. split.
  - destruct (rs_executables st !! p) as [k|] eqn:Hp; [|done]. rewrite (gr_runtime _ _ Hr). intros [= Hk]. destruct (rk_executables _ Hok _ _ Hp) as (r' & Hr' & Hp').
    assert (r' = r) as -> by congruence. pose proof (rk_runtimes _ Hok _ _ Hk) as (-> & _). done.
  - intros [Hk <-]. pose proof (rk_runtimes _ Hok _ _ Hk) as (_ & -> & _). by rewrite (gr_runtime _ _ Hr), Hk.
Qed.

Lemma root_by_path_exact a p r : root_by_path reader a p = Ok (Some r) <-> rs_roots st !! (a, ro_root_id r) = Some r /\ ro_canonical_path r = p.
Proof.
  unfold root_by_path. rewrite (gr_root_path _ _ Hr). cbn [mbind result_bind]. split.
  - destruct (rs_root_paths st !! (a, p)) as [b|] eqn:Hp; [|done]. rewrite root_of_exact. intros (a' & Hk). destruct (rk_root_paths _ Hok _ _ _ Hp) as (r' & Hr' & <-).
    pose proof (rk_roots _ Hok _ _ _ Hk) as (_ & Hb & _ & Hi & _). pose proof (rk_roots _ Hok _ _ _ Hr') as (_ & _ & _ & Hi' & _). assert (a' = a) as -> by congruence. rewrite Hb. split; [done|congruence].
  - intros [Hk <-]. pose proof (rk_roots _ Hok _ _ _ Hk) as (_ & _ & _ & _ & -> & _). apply root_of_exact. by exists a.
Qed.
End Found.

(** C38: over any sequence of the five mutations, committed with reads that may fail, from an empty
    registry, the tables keep their meaning: a lookup by identity, executable or path finds
    exactly the record that has it, which is one; every runtime has exactly one root that cannot
    be removed, its home; and later tables hold every record, with the same identities, paths
    and times of creation, a later activity, and a higher revision if anything changed. *)
Theorem root_registry_reachable st st' : rtc root_step empty_roots st -> rtc root_step st st' ->
  roots_ok st
  /\ (forall E (reader : RootReader E), root_reads reader st ->
       (forall p r, runtime_by_executable reader p = Ok (Some r) <-> rs_runtimes st !! rt_runtime_id r = Some r /\ rt_canonical_executable r = p)
       /\ (forall b r, root_of reader b = Ok (Some r) <-> exists a, rs_roots st !! (a, b) = Some r)
       /\ (forall a p r, root_by_path reader a p = Ok (Some r) <-> rs_roots st !! (a, ro_root_id r) = Some r /\ ro_canonical_path r = p))
  /\ (forall k runtime, rs_runtimes st !! k = Some runtime -> exists b, forall b', (exists r, rs_roots st !! (k, b') = Some r /\ ro_non_removable r = true) <-> b' = b)
  /\ (forall k r, rs_runtimes st !! k = Some r -> exists r', rs_runtimes st' !! k = Some r' /\ later_runtime r r')
  /\ (forall k r, rs_roots st !! k = Some r -> exists r', rs_roots st' !! k = Some r' /\ later_root r r').
Proof.
  intros H H'. pose proof (root_run_keeps _ _ H empty_roots_ok) as Hok. split; [done|]. split.
  { intros E reader Hr. split; [intros *; by apply runtime_by_executable_exact|]. split; intros *; [by apply root_of_exact|by apply root_by_path_exact]. }
  split; [|by apply root_run_later]. intros k runtime Hk. destruct (rk_runtimes _ Hok _ _ Hk) as (_ & _ & b & Hb). exists b. intros b'. split.
  - intros (r & Hr & Hn). apply (rk_roots _ Hok) in Hr as (_ & _ & _ & _ & _ & Hiff). apply Hiff in Hn. congruence.
  - intros ->. destruct (rk_home_roots _ Hok _ _ Hb) as [_ [r Hr]]. exists r. split; [done|]. by apply (rk_roots _ Hok) in Hr as (_ & _ & _ & _ & _ & Hiff); apply Hiff.
Qed.

(** ** The validation *)

(** The cursors give the records of the tables. *)
Definition served_by {K V} `{Countable K} (read : cursor RuntimeRootValidationError K V) (m : gmap K V) (fuel : nat) : Prop :=
  exists l, lists l m /\ serves read l /\ (length l < fuel)%nat.
Definition executable_entry (e : AdmittedHostPath * list byte) : ExecutableKey * list byte := (ExecutableValue e.1, e.2).
Definition root_path_entry (e : (list byte * RuntimeNativePath) * list byte) : RootPathKey * list byte := (RootPathValue e.1.1 e.1.2, e.2).
Record roots_served (cursors : RootCursors) (st : RootStore) (fuel : nat) : Prop := mkRootsServed {
  vs_runtimes : served_by (rc_runtimes cursors) (rs_runtimes st) fuel;
  vs_roots : served_by (rc_roots cursors) (rs_roots st) fuel;
  vs_executables : exists l, lists l (rs_executables st) /\ serves (rc_executables cursors) (executable_entry <$> l) /\ (length l < fuel)%nat;
  vs_root_ids : served_by (rc_root_ids cursors) (rs_root_ids st) fuel;
  vs_root_paths : exists l, lists l (rs_root_paths st) /\ serves (rc_root_paths cursors) (root_path_entry <$> l) /\ (length l < fuel)%nat;
  vs_home_roots : served_by (rc_home_roots cursors) (rs_home_roots st) fuel
}.

Lemma scan_settles {K V} `{Countable K} (read : cursor RuntimeRootValidationError K V) (m : gmap K V) fuel visit : served_by read m fuel ->
  settles (scan fuel read visit) (forall k v, m !! k = Some v -> visit (k, v) = Ok tt) tt.
Proof. intros (l & Hl & Hs & Hf). eapply settles_iff; [|by apply loop_settles]. by rewrite (lists_forall _ _ _ Hl). Qed.

Lemma scan_entries_settles {K K' V} `{Countable K} (f : K * V -> K' * V) (read : cursor RuntimeRootValidationError K' V) (m : gmap K V) fuel visit :
  (exists l, lists l m /\ serves read (f <$> l) /\ (length l < fuel)%nat) -> settles (scan fuel read visit) (forall k v, m !! k = Some v -> visit (f (k, v)) = Ok tt) tt.
Proof.
  intros (l & Hl & Hs & Hf). eapply settles_iff; [|apply loop_settles; [done|by rewrite length_fmap]]. rewrite <- (lists_forall _ _ (fun e => visit (f e) = Ok tt) Hl). set_solver.
Qed.

Section Visits.
Context (reader : RootReader RuntimeRootValidationError) (st : RootStore) (Hr : root_reads reader st).

Definition runtime_checked (k : list byte) (r : RuntimeRecord) : Prop :=
  rt_runtime_id r = k /\ rs_executables st !! rt_canonical_executable r = Some k
  /\ exists h root, rs_home_roots st !! k = Some h /\ rs_root_ids st !! h = Some k /\ rs_roots st !! (k, h) = Some root /\ ro_non_removable root = true.
Lemma visit_runtime_Ok k r : visit_runtime reader (k, r) = Ok tt <-> runtime_checked k r.
Proof.
  unfold visit_runtime, runtime_checked. case_bool_decide as Hk; cbn [negb]; [subst k|split; [done|intros [? _]; congruence]].
  rewrite (gr_executable _ _ Hr). cbn [mbind result_bind]. case_bool_decide as He; cbn [negb]; [|split; [done|intros (_ & ? & _); done]].
  rewrite (gr_home_root _ _ Hr). cbn [mbind result_bind]. destruct (rs_home_roots st !! rt_runtime_id r) as [h|] eqn:Hh; cbn [ok_or mbind result_bind]; [|split; [done|intros (_ & _ & h & root & ? & _); congruence]].
  rewrite (gr_root_id _ _ Hr). cbn [mbind result_bind]. case_bool_decide as Hi; cbn [negb]; [|split; [done|intros (_ & _ & h' & root & [= <-] & ? & _); done]].
  rewrite (gr_root _ _ Hr). cbn [mbind result_bind]. destruct (rs_roots st !! (rt_runtime_id r, h)) as [root|] eqn:Ho; [|split; [done|intros (_ & _ & h' & root & [= <-] & _ & ? & _); congruence]].
  destruct (ro_non_removable root) eqn:En; cbn [negb]; [|split; [done|intros (_ & _ & h' & root' & [= <-] & _ & ? & ?); congruence]]. split; [|done]. intros _. split_and!; try done. by exists h, root.
Qed.

Definition root_checked (a b : list byte) (r : RootRecord) : Prop :=
  ro_runtime_id r = a /\ ro_root_id r = b /\ (exists runtime, rs_runtimes st !! a = Some runtime /\ path_mode (ro_canonical_path r) = rt_mode runtime)
  /\ rs_root_ids st !! b = Some a /\ rs_root_paths st !! (a, ro_canonical_path r) = Some b /\ (ro_non_removable r = true <-> rs_home_roots st !! a = Some b).
Lemma visit_root_Ok a b r : visit_root reader ((a, b), r) = Ok tt <-> root_checked a b r.
Proof.
  unfold visit_root, root_checked. cbn [fst snd]. case_bool_decide as Ha; cbn [negb orb]; [subst a|split; [done|intros (? & _); congruence]].
  case_bool_decide as Hb; cbn [negb]; [subst b|split; [done|intros (_ & ? & _); congruence]].
  rewrite (gr_runtime _ _ Hr). cbn [mbind result_bind]. destruct (rs_runtimes st !! ro_runtime_id r) as [rt|] eqn:Hrt; cbn [ok_or mbind result_bind]; [|split; [done|intros (_ & _ & (? & ? & _) & _); congruence]].
  case_bool_decide as Hm; cbn [negb]; [|split; [done|intros (_ & _ & (? & [= <-] & ?) & _); congruence]].
  rewrite (gr_root_id _ _ Hr). cbn [mbind result_bind]. case_bool_decide as Hi; cbn [negb]; [|split; [done|intros (_ & _ & _ & ? & _); done]].
  rewrite (gr_root_path _ _ Hr). cbn [mbind result_bind]. case_bool_decide as Hp; cbn [negb]; [|split; [done|intros (_ & _ & _ & _ & ? & _); done]].
  rewrite (gr_home_root _ _ Hr). cbn [mbind result_bind].
  assert (Bool.eqb (ro_non_removable r) (bool_decide (rs_home_roots st !! ro_runtime_id r = Some (ro_root_id r))) = true
    <-> (ro_non_removable r = true <-> rs_home_roots st !! ro_runtime_id r = Some (ro_root_id r))) as Hiff.
  { rewrite Bool.eqb_true_iff. case_bool_decide; destruct (ro_non_removable r); naive_solver. }
  destruct (Bool.eqb _ _); cbn [negb].
  - split; [|done]. intros _. split_and!; try done; [by exists rt|by apply Hiff].
  - split; [done|]. intros (_ & _ & _ & _ & _ & Hx). by apply Hiff in Hx.
Qed.

Lemma visit_executable_Ok p k : visit_executable reader (executable_entry (p, k)) = Ok tt <-> exists r, rs_runtimes st !! k = Some r /\ rt_canonical_executable r = p.
Proof.
  unfold visit_executable, executable_entry. cbn [fst snd]. rewrite (gr_runtime _ _ Hr). cbn [mbind result_bind]. destruct (rs_runtimes st !! k) as [r|]; cbn [ok_or mbind result_bind]; [|split; [done|intros (? & ? & _); done]].
  case_bool_decide as Hp; cbn [negb]; [|split; [done|intros (? & [= <-] & ?); congruence]]. split; [|done]. intros _. exists r. split; [done|congruence].
Qed.

Lemma visit_root_id_Ok b a : visit_root_id reader (b, a) = Ok tt <-> exists r, rs_roots st !! (a, b) = Some r /\ ro_root_id r = b /\ ro_runtime_id r = a.
Proof.
  unfold visit_root_id. rewrite (gr_root _ _ Hr). cbn [mbind result_bind]. destruct (rs_roots st !! (a, b)) as [r|]; [|split; [done|intros (? & ? & _); done]].
  case_bool_decide as H1; cbn [andb negb]; [|split; [done|intros (? & [= <-] & ? & _); done]]. case_bool_decide as H2; cbn [negb]; [|split; [done|intros (? & [= <-] & _ & ?); done]].
  split; [|done]. intros _. by exists r.
Qed.

Lemma visit_root_path_Ok a p b : visit_root_path reader (root_path_entry ((a, p), b)) = Ok tt <-> rs_root_ids st !! b = Some a /\ exists r, rs_roots st !! (a, b) = Some r /\ ro_canonical_path r = p.
Proof.
  unfold visit_root_path, root_path_entry. cbn [fst snd]. rewrite (gr_root_id _ _ Hr). cbn [mbind result_bind]. destruct (rs_root_ids st !! b) as [a'|]; cbn [ok_or mbind result_bind]; [|split; [done|intros (? & _); done]].
  rewrite (gr_root _ _ Hr). cbn [mbind result_bind]. destruct (rs_roots st !! (a', b)) as [r|] eqn:Ho; cbn [ok_or mbind result_bind]; [|split; [done|intros ([= ->] & ? & ? & _); congruence]].
  case_bool_decide as Hk; cbn [negb]; [injection Hk as -> ->|split; [done|intros ([= ->] & ? & ? & ?); congruence]]. split; [|done]. intros _. split; [done|]. by exists r.
Qed.

Lemma visit_home_root_Ok a b : visit_home_root reader (a, b) = Ok tt <-> is_Some (rs_runtimes st !! a) /\ exists r, rs_roots st !! (a, b) = Some r /\ ro_non_removable r = true.
Proof.
  unfold visit_home_root. rewrite (gr_runtime _ _ Hr). cbn [mbind result_bind]. case_bool_decide as Hn; [split; [done|intros ([? ?] & _); congruence]|].
  rewrite (gr_root _ _ Hr). cbn [mbind result_bind]. destruct (rs_roots st !! (a, b)) as [r|]; [|split; [done|intros (_ & ? & ? & _); done]].
  destruct (ro_non_removable r) eqn:En; cbn [negb]; [|split; [done|intros (_ & ? & [= <-] & ?); congruence]]. split; [|done]. intros _. split; [by apply not_eq_None_Some|by exists r].
Qed.

(** What the six scans establish together. *)
Lemma roots_ok_checked :
  (forall k r, rs_runtimes st !! k = Some r -> runtime_checked k r) /\ (forall k r, rs_roots st !! k = Some r -> root_checked k.1 k.2 r)
  /\ (forall p k, rs_executables st !! p = Some k -> exists r, rs_runtimes st !! k = Some r /\ rt_canonical_executable r = p)
  /\ (forall b a, rs_root_ids st !! b = Some a -> exists r, rs_roots st !! (a, b) = Some r /\ ro_root_id r = b /\ ro_runtime_id r = a)
  /\ (forall k b, rs_root_paths st !! k = Some b -> rs_root_ids st !! b = Some k.1 /\ exists r, rs_roots st !! (k.1, b) = Some r /\ ro_canonical_path r = k.2)
  /\ (forall a b, rs_home_roots st !! a = Some b -> is_Some (rs_runtimes st !! a) /\ exists r, rs_roots st !! (a, b) = Some r /\ ro_non_removable r = true)
  <-> roots_ok st.
Proof.
  split.
  - intros (Hrt & Ho & He & Hi & Hp & Hh). constructor; [|intros a b r Hk; exact (Ho (a, b) r Hk)|done| | |].
    + intros k r Hk. destruct (Hrt _ _ Hk) as (? & ? & h & _ & Hh' & _). split; [done|]. split; [done|by exists h].
    + intros b a Hk. destruct (Hi _ _ Hk) as (r & ? & _). by exists r.
    + intros a p b Hk. exact (proj2 (Hp (a, p) b Hk)).
    + intros a b Hk. destruct (Hh _ _ Hk) as (? & r & ? & _). split; [done|by exists r].
  - intros [Kr Ko Ke Ki Kp Kh].
    assert (forall a b, rs_home_roots st !! a = Some b -> is_Some (rs_runtimes st !! a) /\ exists r, rs_roots st !! (a, b) = Some r /\ ro_non_removable r = true) as Hhome.
    { intros a b Hk. destruct (Kh _ _ Hk) as [? [r Hr']]. split; [done|]. exists r. split; [done|]. by apply Ko in Hr' as (_ & _ & _ & _ & _ & Hiff); apply Hiff. }
    split_and!; try done.
    + intros k r Hk. destruct (Kr _ _ Hk) as (? & ? & h & Hh). destruct (Hhome _ _ Hh) as (_ & root & Hroot & Hn). split_and!; try done. exists h, root. split_and!; try done. by apply Ko in Hroot as (_ & _ & _ & ? & _).
    + intros [a b] r Hk. by apply Ko.
    + intros b a Hk. destruct (Ki _ _ Hk) as [r Hr']. exists r. apply Ko in Hr' as Hr2. destruct Hr2 as (? & ? & _). done.
    + intros [a p] b Hk. destruct (Kp _ _ _ Hk) as (r & Hr' & ?). split; [by apply Ko in Hr' as (_ & _ & _ & ? & _)|by exists r].
Qed.
End Visits.

(** C39: run over the six tables of the registry, by pages of any size, the validation comes to an
    end and accepts exactly the tables that mean something ([roots_ok]); every other content is
    reported as an error. *)
Theorem validate_accepts_roots_ok reader st cursors fuel : root_reads reader st -> roots_served cursors st fuel -> settles (validate_roots reader fuel cursors) (roots_ok st) tt.
Proof.
  intros Hr [V1 V2 V3 V4 V5 V6]. rewrite <- (roots_ok_checked st). unfold validate_roots, validate_indexes.
  apply (settles_bind _ _ _ _ tt). { eapply settles_iff; [|by apply scan_settles]. by setoid_rewrite (visit_runtime_Ok reader st Hr). } intros _.
  apply (settles_bind _ _ _ _ tt). { eapply settles_iff; [|by apply scan_settles]. split; intros Hx [a b] r Hk; apply (visit_root_Ok reader st Hr a b), (Hx (a, b)), Hk. } intros _.
  apply (settles_bind _ _ _ _ tt). { eapply settles_iff; [|by apply (scan_entries_settles executable_entry)]. by setoid_rewrite (visit_executable_Ok reader st Hr). } intros _.
  apply (settles_bind _ _ _ _ tt). { eapply settles_iff; [|by apply scan_settles]. by setoid_rewrite (visit_root_id_Ok reader st Hr). } intros _.
  apply (settles_bind _ _ _ _ tt). { eapply settles_iff; [|by apply (scan_entries_settles root_path_entry)]. split; intros Hx [a p] b Hk; apply (visit_root_path_Ok reader st Hr a p), (Hx (a, p)), Hk. } intros _.
  eapply settles_iff; [|by apply scan_settles]. by setoid_rewrite (visit_home_root_Ok reader st Hr).
Qed.

(** ** What is stored *)

Definition roots_stored (st : RootStore) : Prop :=
  (forall k r, rs_runtimes st !! k = Some r -> runtime_stored r) /\ (forall k r, rs_roots st !! k = Some r -> root_typed r).

Lemma label_text m : mode_valid m -> is_text (environment_label m).
Proof. destruct m as [|name]; [done|]. by intros [? _]. Qed.
Lemma registered_stored r : registered r -> runtime_stored (initial_runtime r).
Proof.
  intros (Hn & ? & ? & ? & ? & ? & ?). unfold new_runtime_registration in Hn. case_bool_decide as Hm; cbn [negb] in Hn; [|done].
  assert (rr_environment_label r = environment_label (rr_mode r)) as Hl by (apply (f_equal (fun x => match x with Ok x => rr_environment_label x | Err _ => [] end)) in Hn; done).
  split; [|done]. constructor; cbn; try done; rewrite Hl; by apply label_text.
Qed.
Lemma root_registered_typed a r b : fixed 16 a -> root_registered r -> root_typed (initial_root_record a r b).
Proof. intros Ha (? & ? & ? & ? & ?). by constructor. Qed.

Lemma root_step_stored st st' : root_step st st' -> roots_ok st -> roots_stored st -> roots_stored st'.
Proof.
  intros Hs Hok [Kr Ko].
  apply root_step_cases in Hs as [(rt & h & Hrt & Hh & _ & _ & _ & _ & ->)|[(a & root & rt & Hroot & Hrt & _ & _ & _ & ->)|[(k0 & r0 & av & H0 & Hav & Hle & ->)|(a & b & r0 & r1 & H0 & _ & Ht & ->)]]];
    (split; intros k r; cbn; try (by apply Kr || by apply Ko); rewrite lookup_insert_Some; intros [[_ <-]|[_ Hk]]; try (by eapply Kr || by eapply Ko)).
  - by apply registered_stored.
  - apply root_registered_typed; [|done]. by destruct Hrt as (_ & ? & _).
  - apply root_registered_typed; [|done]. destruct (Kr _ _ Hrt) as [[] _]. by destruct (rk_runtimes _ Hok _ _ Hrt) as [<- _].
  - destruct (Kr _ _ H0) as ([] & ? & ?). split; [|done]. constructor; cbn; try done. unfold is_rev in *. lia.
  - by apply Ht, (Ko (a, b)).
Qed.
Lemma root_run_stored st : rtc root_step empty_roots st -> roots_stored st.
Proof.
  intros H. assert (forall st0, rtc root_step st0 st -> roots_ok st0 -> roots_stored st0 -> roots_stored st) as Hgen.
  { intros st0 Hrun. clear H. induction Hrun as [|x y z Hxy _ IH]; [done|]. intros Hok Hs. apply IH; [by eapply root_step_keeps|by eapply root_step_stored]. }
  apply (Hgen _ H); [apply empty_roots_ok|]. split; intros *; cbn; by rewrite lookup_empty.
Qed.

(** C40: every record of every reachable registry can be stored and read back: the encodings of a
    runtime, of a root and of the keys of their indices are within the limits of their tables,
    and decoding them gives the record or the key itself; the bounds of a cursor are never a
    stored key. *)
Theorem stored_roots_decode st : rtc root_step empty_roots st ->
  (forall k r, rs_runtimes st !! k = Some r ->
     zlen (encode_runtime_record r) <= RUNTIME_RECORD_LIMIT /\ decode_runtime_record (encode_runtime_record r) = Ok r /\ decode_runtime_id k = Ok k
     /\ let key := ExecutableValue (rt_canonical_executable r) in
        zlen (encode_executable_key key) <= PATH_KEY_LIMIT /\ decode_executable_key (encode_executable_key key) = Ok key /\ validate_stored_executable key = Ok tt)
  /\ (forall k r, rs_roots st !! k = Some r ->
     zlen (encode_root_record r) <= ROOT_RECORD_LIMIT /\ decode_root_record (encode_root_record r) = Ok r /\ decode_root_key (encode_root_key k) = Ok k
     /\ let key := RootPathValue (ro_runtime_id r) (ro_canonical_path r) in
        zlen (encode_root_path_key key) <= PATH_KEY_LIMIT /\ decode_root_path_key (encode_root_path_key key) = Ok key /\ validate_stored_root_path key = Ok tt).
Proof.
  intros H. pose proof (root_run_keeps _ _ H empty_roots_ok) as Hok. destruct (root_run_stored _ H) as [Kr Ko]. split.
  - intros k r Hk. pose proof (Kr _ _ Hk) as Hs. pose proof Hs as [[] _]. destruct (rk_runtimes _ Hok _ _ Hk) as [<- _]. split; [by apply runtime_record_length|].
    split; [by apply runtime_record_exact|]. split; [by apply identity_exact|]. cbv zeta. split; [by apply executable_key_length|]. split; [by apply executable_key_run|done].
  - intros [a b] r Hk. pose proof (Ko _ _ Hk) as Hs. pose proof Hs as []. destruct (rk_roots _ Hok _ _ _ Hk) as (<- & <- & _). split; [by apply root_record_length|].
    split; [by apply root_record_exact|]. split; [by apply root_key_run|]. cbv zeta. split; [by apply root_path_key_length|]. split; [by apply root_path_key_run|done].
Qed.

(** ** Samples *)

Definition root_store_reader {E} (st : RootStore) : RootReader E :=
  mkRootReader (fun k => Ok (rs_runtimes st !! k)) (fun k => Ok (rs_executables st !! k)) (fun k => Ok (rs_roots st !! k)) (fun k => Ok (rs_root_ids st !! k))
    (fun k => Ok (rs_root_paths st !! k)) (fun k => Ok (rs_home_roots st !! k)).
Lemma root_store_reader_reads {E} st : root_reads (E := E) (root_store_reader st) st.
Proof. done. Qed.
Lemma root_reads_reads_of {E} (reader : RootReader E) st : root_reads reader st -> root_reads_of reader st.
Proof. intros []. constructor; intros *; congruence. Qed.

Definition sample_native (text : string) : RuntimeNativePath := mkNativePath Host Posix (bytes_of_string text).
Definition sample_host (text : string) : AdmittedHostPath := mkHostPath Posix (bytes_of_string text).
Definition sample_runtime : RuntimeRegistration :=
  mkRuntimeRegistration (be_bytes 16 1) (sample_host "/codex") Host CodexCli (sample_native "/codex") (bytes_of_string "Host") 7 unknown_availability.
Definition sample_root (id : Z) (text : string) : RootRegistration := mkRootRegistration (be_bytes 16 id) (sample_native text) (sample_host text) 7 unknown_availability.

Lemma sample_runtime_registered : registered sample_runtime.
Proof. by repeat split. Qed.
Lemma sample_root_registered text id : native_path_typed (sample_native text) -> host_path_typed (sample_host text) -> root_registered (sample_root id text).
Proof. intros Hn Hh. refine (conj _ (conj Hn (conj Hh (conj _ _)))); [|done|done]. unfold fixed. cbn [rg_root_id sample_root]. by rewrite length_be_bytes. Qed.

Definition commit_create (runtime : RuntimeRegistration) (home : RootRegistration) (st : RootStore) : RootStore :=
  match prepare_create (root_store_reader st) runtime home with Ok (r, h) => contribute_create r h st | Err _ => st end.
Definition commit_add (runtime_id : list byte) (root : RootRegistration) (st : RootStore) : RootStore :=
  match prepare_add (root_store_reader st) runtime_id root with Ok r => contribute_add r st | Err _ => st end.
Definition commit_activity (root_id : list byte) (expected at_ : Z) (st : RootStore) : RootStore :=
  match prepare_root_activity (root_store_reader st) root_id expected at_ with Ok r => put_root r st | Err _ => st end.

Definition sample_created : RootStore := commit_create sample_runtime (sample_root 2 "/home") empty_roots.
Definition sample_added : RootStore := commit_add (be_bytes 16 1) (sample_root 3 "/work") sample_created.
Definition sample_active : RootStore := commit_activity (be_bytes 16 3) 1 9 sample_added.

Lemma sample_created_run : rtc root_step empty_roots sample_created.
Proof.
  unfold sample_created, commit_create. destruct (prepare_create _ _ _) as [[r h]|] eqn:E; [|apply rtc_refl].
  apply rtc_once. eapply (step_create _ (root_store_reader empty_roots) sample_runtime (sample_root 2 "/home")); [apply root_reads_reads_of, root_store_reader_reads|apply sample_runtime_registered|by apply sample_root_registered; repeat split|done|exact E].
Qed.
Lemma sample_added_run : rtc root_step sample_created sample_added.
Proof.
  unfold sample_added, commit_add. destruct (prepare_add _ _ _) as [r|] eqn:E; [|apply rtc_refl].
  apply rtc_once. eapply (step_add _ (root_store_reader sample_created) (be_bytes 16 1) (sample_root 3 "/work")); [apply root_reads_reads_of, root_store_reader_reads|by apply sample_root_registered; repeat split|exact E].
Qed.
Lemma sample_active_run : rtc root_step sample_added sample_active.
Proof.
  unfold sample_active, commit_activity. destruct (prepare_root_activity _ _ _ _) as [r|] eqn:E; [|apply rtc_refl].
  apply rtc_once. eapply (step_root_activity _ (root_store_reader sample_added) (be_bytes 16 3) 1 9); [apply root_reads_reads_of, root_store_reader_reads| |exact E]. done.
Qed.
Lemma sample_roots_run : rtc root_step empty_roots sample_active.
Proof. etrans; [apply sample_created_run|]. etrans; [apply sample_added_run|apply sample_active_run]. Qed.

Lemma root_registry_reachable_witness :
  roots_ok sample_created /\ exists r', rs_roots sample_active !! (be_bytes 16 1, be_bytes 16 2) = Some r' /\ ro_non_removable r' = true /\ ro_revision r' = 1.
Proof.
  destruct (root_registry_reachable sample_created sample_active sample_created_run) as (Hok & _ & _ & _ & Hl).
  - etrans; [apply sample_added_run|apply sample_active_run].
  - split; [exact Hok|]. destruct (Hl (be_bytes 16 1, be_bytes 16 2) (initial_root_record (be_bytes 16 1) (sample_root 2 "/home") true)) as (r' & Hr & _); [by vm_compute|].
    exists r'. split; [exact Hr|]. vm_compute in Hr. injection Hr as <-. split; reflexivity.
Defined.

Lemma stored_roots_decode_witness : exists r, rs_roots sample_active !! (be_bytes 16 1, be_bytes 16 3) = Some r /\ ro_last_activity_at r = Some 9
  /\ decode_root_record (encode_root_record r) = Ok r.
Proof.
  destruct (stored_roots_decode sample_active sample_roots_run) as [_ Hs]. eexists. split; [|split].
  - vm_compute. reflexivity.
  - reflexivity.
  - apply (Hs (be_bytes 16 1, be_bytes 16 3)). by vm_compute.
Defined.

Definition sample_root_cursors : RootCursors :=
  mkRootCursors (page_cursor 1 (map_to_list (rs_runtimes sample_active))) (page_cursor 1 (map_to_list (rs_roots sample_active)))
    (page_cursor 1 (executable_entry <$> map_to_list (rs_executables sample_active))) (page_cursor 1 (map_to_list (rs_root_ids sample_active)))
    (page_cursor 1 (root_path_entry <$> map_to_list (rs_root_paths sample_active))) (page_cursor 1 (map_to_list (rs_home_roots sample_active))).

Lemma entries_distinct {K K' V} (f : K -> K') (g : K * V -> K' * V) (l : list (K * V)) : Inj (=) (=) f -> (forall e, (g e).1 = f e.1) -> NoDup l.*1 -> NoDup (g <$> l).*1.
Proof.
  intros Hf Hg Hl. assert ((g <$> l).*1 = f <$> l.*1) as ->; [|by apply NoDup_fmap_2]. clear Hl. induction l as [|e l IH]; cbn; [done|]. by rewrite Hg, IH.
Qed.
Lemma served_pages {K V} `{Countable K} (m : gmap K V) fuel : (length (map_to_list m) < fuel)%nat -> served_by (page_cursor 1 (map_to_list m)) m fuel.
Proof. intros Hf. exists (map_to_list m). split; [apply map_to_list_lists|]. split; [|done]. apply page_cursor_serves; [lia|apply NoDup_fst_map_to_list]. Qed.
Lemma served_entries {K K' V} `{Countable K} `{EqDecision K'} (f : K -> K') (g : K * V -> K' * V) (m : gmap K V) fuel : Inj (=) (=) f -> (forall e, (g e).1 = f e.1) ->
  (length (map_to_list m) < fuel)%nat -> exists l, lists l m /\ serves (page_cursor (E := RuntimeRootValidationError) 1 (g <$> map_to_list m)) (g <$> l) /\ (length l < fuel)%nat.
Proof.
  intros Hi Hg Hf. exists (map_to_list m). split; [apply map_to_list_lists|]. split; [|done]. apply page_cursor_serves; [lia|]. apply (entries_distinct f); [done|done|apply NoDup_fst_map_to_list].
Qed.

Lemma sample_roots_served : roots_served sample_root_cursors sample_active 3.
Proof.
  constructor.
  - exact (served_pages (rs_runtimes sample_active) 3 ltac:(by vm_compute; lia)).
  - exact (served_pages (rs_roots sample_active) 3 ltac:(by vm_compute; lia)).
  - apply (served_entries ExecutableValue executable_entry (rs_executables sample_active) 3); [intros ?? E; by injection E|done|by vm_compute; lia].
  - exact (served_pages (rs_root_ids sample_active) 3 ltac:(by vm_compute; lia)).
  - apply (served_entries (fun k => RootPathValue k.1 k.2) root_path_entry (rs_root_paths sample_active) 3); [intros [] [] E; by injection E as -> ->|done|by vm_compute; lia].
  - exact (served_pages (rs_home_roots sample_active) 3 ltac:(by vm_compute; lia)).
Qed.

Lemma validate_accepts_roots_ok_witness : validate_roots (root_store_reader sample_active) 3 sample_root_cursors = Some (Ok tt).
Proof.
  exact (proj2 (settles_Ok _ _ _ (validate_accepts_roots_ok (root_store_reader sample_active) sample_active sample_root_cursors 3 (root_store_reader_reads _) sample_roots_served))
    (root_run_keeps _ _ sample_roots_run empty_roots_ok)).
Defined.
